(* ===== verification/_CoqProject ===== *)
-Q . S2P
Prelude.v
Z80Forms.v
Z80Decode.v
Z80Effects.v
Z80Mutation.v
Z80MutationReport.v
Z80TokenReport.v
Kosinski.v
Bps.v
M68kInstruction.v
M68kLegality.v
M68kDecode.v
M68kShape.v
M68kDecodeSpec.v
M68kAssemble.v
M68kArithmetic.v
M68kChain.v
M68kShift.v
M68kEffects.v
M68kControl.v
M68kTiming.v
M68kTimingSpec.v
M68kFinite.v
M68kFiniteSound.v
M68kFiniteGuard.v
M68kStaticValues.v
M68kStaticSound.v
M68kStaticBounds.v
M68kStaticProgram.v
M68kStaticFlow.v
M68kStaticFlowSound.v
M68kStaticEdges.v
M68kStaticTargets.v
M68kException.v
Sha256.v
Sn76489.v
Iso9660.v
Rom.v
Z80Runtime.v
SmsMemory.v
SmsCartridge.v
SmsSha256.v
SmsVdp.v
SmsInput.v
SmsMachine.v
SmsRender.v
