(* ===== verification/Prelude.v ===== *)
(** * Verification of the segarecomp recompiler's core libraries

    segarecomp translates Sega console programs ahead of time into C11.  Its
    trust rests on a chain that runs at build time: media readers produce image
    bytes, the CPU libraries decode and lift them and state what each instruction
    does, the machine frontends discover code with those facts, and the code
    generators print C, which runs on a small C runtime.  This development models
    the CPU libraries, the pure media decoders, the device and runtime cores the
    generated programs run on and the whole machine of one console, and proves them
    correct; it is organised as the code is.

    ** Parts, files and sources

    The Z80 library, [src/libs/cpu/z80]:
    - [Z80Forms]: [forms.hpp], [forms.cpp].  The encoding surface: opcode spaces,
      the classification of every byte, interned form descriptors, timing, names.
      [classify_key] and its helpers are the code's functions of the same name;
      [build] and [intern] fill the static tables that [classify_opcode_byte] and
      [form_descriptor] read.
    - [Z80Decode]: [decode.hpp], [decode.cpp].  [decode_at] classifies one start
      (prefix runs, the locked address space, blocked fetches); [classify_all] is
      the linear-time classification of all 65,536 starts; [replay_bytes],
      [t_states], [m1_fetches] observe a decoded start.  A fetch is a function
      from addresses to [FetchedByte], as the code's [LogicalFetch] is.
    - [Z80Effects]: [effects.hpp], [effects.cpp].  [project_effect] and its
      [Builder], a state-passing record.
    - [Z80Mutation]: the abstract domain ([Val], [State]), the transfer function
      and the worklist of [mutation.cpp]; [Analysis] is the [Analyzer]'s state.
    - [Z80MutationReport]: the rest of [mutation.cpp]: interrupt rounds, the
      coverage and effect passes, candidate images, changes and the static byte
      alternatives.
    - [Z80TokenReport]: [token_report.hpp], [token_report.cpp].

    The MC68000 library, [src/libs/cpu/m68k]:
    - [M68kInstruction]: [instruction.hpp], the provenance types of [libs/core],
      [effective_address.cpp].
    - [M68kLegality]: [legality.cpp], the partition of primary words.
    - [M68kDecode]: [decode.cpp], all four profiles.  A decoder that answers
      [std::nullopt] answers [None]; a decode result is [Ok] of an instruction or
      [Err] of a rejection.
    - [M68kShape]: the simulation between a run on any image and the canonical run
      of the same primary word on zero extension words.
    - [M68kDecodeSpec]: the MC68000 opcode map and the decoder's theorems.
    - [M68kAssemble]: an assembler for operands and MOVE, which the decoder inverts.
    - [M68kArithmetic]: the evaluation and condition-code functions of
      [effects.hpp], which the host, the static resolver and the emitted C share.
    - [M68kChain]: chains of ADDX, SUBX, ABCD, SBCD, NBCD.  The class
      [DigitArithmetic] is the interface between one instruction and a chain.
    - [M68kShift]: shifts and rotates against one-bit steps, DBcc, MOVEM orders,
      division.
    - [M68kEffects]: [ir.hpp], [ir.cpp] and [m68k_operation_effect] of
      [effects.cpp]: lifting to the IR and what each operation does.
    - [M68kControl]: [control_successors.cpp], and its composition with the decoder,
      the lifting and the effects.
    - [M68kTiming], [M68kTimingSpec]: [timing.cpp] and the data-dependent rules of
      [timing_core.h]; the bounds of every decoded instruction's time.
    - [M68kFinite], [M68kFiniteSound], [M68kFiniteGuard]:
      [finite_register_values.cpp], the finite value domain of one data register,
      its soundness and its branch filter.
    - [M68kStaticValues], [M68kStaticSound]: the register states of
      [static_discovery.cpp], their merge and the transfer of one instruction; its
      soundness against the semantics of [M68kFiniteSound].  The environment of
      discovery is the class [M68kStaticDiscoveryEnvironment].
    - [M68kStaticProgram]: [static_program.cpp], calls, edges, frames and the trace
      of the returns a callee reaches.
    - [M68kStaticFlow], [M68kStaticFlowSound]: the control adjacency, the register
      footprint of a callee and the fixed point [analyze_finite_register_values] of
      [static_discovery.cpp], for every list of roots.
    - [M68kStaticBounds], [M68kStaticEdges]: the bounds a compare puts on the edges
      of a branch, against the flags it leaves, and where they go wrong.
    - [M68kStaticTargets]: the target sets of computed jumps and calls.
    - [M68kException]: [exception_core.h], exceptions, interrupts and STOP over the
      machine's hooks; the class [StackMachine] is their validate-then-commit
      contract.

    Media and core, [src/libs/media] and [src/libs/core]:
    - [Kosinski]: [kosinski.hpp], the decompressor.
    - [Bps]: [patch_bps.cpp], CRC-32 and BPS patches.
    - [Sha256]: [sha256.cpp], against the functions of FIPS 180-4.
    - [Iso9660]: [iso9660.cpp], volumes, directories and lookups by path.
    - [Rom]: [rom.cpp], the headers, the reset vectors and the region of an image.

    Runtimes and devices of the generated programs:
    - [Sn76489]: [sn76489.c], the PSG chip, its PCM stream and its ring, in
      [libs/device/sega/psg].
    - [Z80Runtime]: [z80_runtime.h], the boundaries, interrupts and guards around
      generated Z80 code, in [libs/codegen/c11], on any host.

    The Master System machine, [src/platforms/master-system]:
    - [SmsMemory]: [sms_memory.c], the mapper contract table, the typed errors, and
      the images [image_set.cpp] declares at generation.
    - [SmsCartridge]: [cartridge.cpp], the mapper manifest and the ingestion of an
      image.
    - [SmsSha256]: [sms_sha256.c], the streaming digest of the runtime.
    - [SmsVdp]: [sms_ports.h], [sms_vdp.c]: the port decode and the VDP.
    - [SmsRender]: [sms_render.c], the hook that draws the VDP's lines.
    - [SmsInput]: [sms_input.c], [sms_pad.c]: scripted input and controllers.
    - [SmsMachine]: [sms_machine.c], the machine, its host callbacks, scheduler and
      runs.  Its seams are records of functions ([SmsPortDevice], [SmsVdpDevice]);
      the class [DeviceLaws] is what the scheduler asks of the devices, which the
      installed VDP and controllers satisfy, and the class [Z80Program] is the
      contract of the generated [z80_run].

    [Prelude] holds the notations of [word_scope], machine integers, loops
    ([zfor], [zfind]), tables as finite maps, lists indexed by [Z], finite
    enumerations with their exhaustive checks, and the [result] monad.

    How the parts interact: [Z80Decode] calls [Z80Forms]; [Z80Effects] reads a
    decoded start; [Z80Mutation] runs the effects over [classify_all]'s starts and
    [Z80MutationReport] reports on the fixed point.  [M68kDecode] calls
    [M68kLegality] for reserved words and the operand reader for every operand;
    [M68kAssemble] composes all of them; [M68kChain] and [M68kShift] are clients of
    [M68kArithmetic].  [M68kControl], [M68kTiming] and [M68kFinite] read the
    operations that [M68kEffects] lifts from a decoded instruction, and
    [M68kFiniteSound] compares the last with [M68kArithmetic].  The semantics of
    [M68kFiniteSound] carries [M68kStaticSound], the fixed point of
    [M68kStaticFlow] runs that transfer over the edges of [M68kStaticProgram], and
    [M68kStaticTargets] reads its states.  [M68kException],
    [Sn76489] and [Z80Runtime] are the C that generated programs call; each meets
    its machine through a record of functions.  [SmsMachine] composes [SmsMemory],
    [SmsVdp] and [SmsInput] around the state of [Z80Runtime]; [SmsVdp] and
    [SmsRender] digest with [SmsSha256], which agrees with [Sha256].

    ** What the theorems show

    - Decoders are exact: the Z80 tables equal the classification and the linear
      sweep equals the per-start decoder; the MC68000 decoder decodes exactly the
      opcode map for every word and image, rejects only RESET and bad extension
      words, reads inside its span, and inverts the assembler.
    - Effects are what the bytes say: successors, pushes and pops of the Z80
      projection; the arithmetic, flags, conditions, shifts, decimal and division
      results of the MC68000 against integer arithmetic.
    - The abstract interpreter is sound and terminates: transfer over-approximates
      execution, the worklist drains, the finished analysis covers the steps from its
      roots when no bound was hit and every computed jump was followed, and a report that claims completeness is sound.
    - Reports are exact: changes, counters, alternatives, flags, token bytes.
    - The facts the frontends use are right: control successors are the
      instruction's, times are within their bounds, the finite value sets contain
      every value a register can hold, and a branch keeps only the values that take
      it.
    - Whole-program value flow is sound: the fixed point ends and its states hold
      the registers of every run of a decoded program, a footprint covers every
      instruction a call can run, a proven target set holds every target, and the
      return edges are the returns a callee reaches.  Two forms are excluded, since
      the transfer gets them wrong ([multiply_not_forgotten],
      [byte_load_keeps_addresses]).  The runs execute the instructions along the
      given edges, a conditional branch by the flags its compare left and a call of a
      known callee by running it to a return.  The bounds of a branch are exact but
      attached to an edge that lacks them in three cases ([branch_to_next_bounded],
      [overlapping_predecessor_bounded], [root_branch_bounded]), which
      [bounds_unambiguous] excludes.
    - An image is classified, its vectors and its manifest accepted, exactly on the
      stated conditions.
    - Media decoders round-trip with their encoders, stay inside their buffers and
      report errors on the rest; a digest is FIPS 180-4's however it is fed; a path
      finds what the directories record, inside the volume.
    - Runtimes are transparent: exceptions save and restore the CPU and write only
      their frames, interrupts respond once, in time and by their bus cycles; a generated owner chains exactly when the dispatcher
      would start it; time may be sliced.  The PSG stream is the mean of the chip's
      levels and its ring a bounded queue.
    - The Master System machine is deterministic: the code image of an address is
      the one declared for it, memory holds the last writes, the first error wins
      and is final; events happen at their lines and in order, however a run is
      sliced; interrupts come on their lines and INT is the level the VDP drives;
      every run ends.  A line shows the tiles and the sprites it should, and a
      script is the events it spells.

    ** Bounds and fuel

    Loops with a known count are [zfor] over that count; Kosinski's token loop runs
    on the code's own [max_tokens].  The remaining fuels are computed from the
    input and never decide: [fixpoint_fuel] is the steps left in the budget
    ([fixpoint_within_budget]), [command_fuel] from the target size, since every
    BPS command writes at least one byte ([apply_bps_encode] shows success), and
    the number reader's from the bytes left.  [sector_fuel] is the most records a
    2048-byte sector holds, the PCM stream's fuel the sample boundaries passed;
    [lookup_exact], [listing_exact] and [pcm_exact] show they are enough.
    In [SmsMachine], [advance_events] has a turn per line due and [run_fuel] one per
    line before the target ([run_ends]); [update_loop] a turn per byte, [pad_loop]
    one per byte of a block, [parse_loop] one per byte of the text, each shown
    enough by the exactness theorem of its file.
    In [M68kStaticProgram] and [M68kStaticFlow] a search has a turn for every
    address it may still push, and the fixed point one for every change the ranks of
    the states allow ([reachable_return_edges_exact], [callee_footprint_sound],
    [finite_values_sound]).
    [dbcc_run] is specification code; [dbcc_expires] gives its fuel.  The
    exhaustive checks over the 65,536 MC68000 words run in the kernel, a lemma per
    opcode line.

    ** Not modelled

    - [format_report] of [mutation.cpp] and the [emit_c_*] members of
      [effects.hpp], which print text; the C11 emitters of [libs/codegen] and
      [emit.cpp]: their correctness is that of the C they print, which needs a
      semantics of C.
    - The emitted C itself, and [z80_run], which every generated image defines:
      [SmsMachine] takes it as a parameter with the laws of its contract.
    - The graph walker of [static_discovery.cpp], with its decode cache, the choice
      of disconnected roots and the call-context proof, and the frontends under
      [platforms/genesis] and [platforms/sega-cd]: they ask the machine for bytes and
      admissions, and state is spread over their files.  The roots and the edges they
      collect are arguments of the value flow.
    - [emit.cpp] and [ml_region_z80_producer.cpp] of the Master System, which print
      programs and produce regions for the code generator.
    - The report printers of [rom.cpp], which print text.
    - The Genesis and Sega CD runtimes, for the same reason: one machine structure
      is shared by all their files.
    - The PSG seam [sms_psg.c], which passes calls to the chip of [Sn76489].
    - The media readers [disc.cpp] and [patch_package.cpp], which read files; the
      YM2612, a wrapper of third-party code.
    - The launcher, the viewers, the command line, tests, tools and third-party
      code: input, output and glue.
    - Host behaviour outside the language: allocation failure, and the identity of
      [std::map] nodes; containers are finite maps and lists. *)

From Stdlib Require Import ZArith Lia List.
From stdpp Require Export base tactics numbers list gmap strings sorting.

#[global] Set Default Goal Selector "!".

Open Scope Z_scope.

(** * Bit operations, written as the C++ source writes them *)

Declare Scope word_scope.
Delimit Scope word_scope with word.

Notation "x .& y" := (Z.land x y) (at level 40, left associativity) : word_scope.
Notation "x .| y" := (Z.lor x y) (at level 50, left associativity) : word_scope.
Notation "x .^ y" := (Z.lxor x y) (at level 50, left associativity) : word_scope.
Notation "x .<< y" := (Z.shiftl x y) (at level 30, no associativity) : word_scope.
Notation "x .>> y" := (Z.shiftr x y) (at level 30, no associativity) : word_scope.

(** Equality test of a decidable type, as the C++ [==] used as a condition. *)
Notation "x =b y" := (bool_decide (x = y)) (at level 70, no associativity) : word_scope.

Open Scope word_scope.

(** [static_cast<std::uintN_t>] of an integer. *)
Definition u8 (x : Z) : Z := x mod 256.
Definition u16 (x : Z) : Z := x mod 65536.
Definition u32 (x : Z) : Z := x mod 4294967296.
Definition u64 (x : Z) : Z := x mod 18446744073709551616.

(** [static_cast<std::int8_t>] of an integer. *)
Definition i8 (x : Z) : Z := (x + 128) mod 256 - 128.

(** [static_cast<std::int16_t>] of an integer. *)
Definition i16 (x : Z) : Z := (x + 32768) mod 65536 - 32768.

(** [static_cast<std::int32_t>] of an integer. *)
Definition i32 (x : Z) : Z := (x + 2147483648) mod 4294967296 - 2147483648.

Definition is_u8 (x : Z) : Prop := 0 <= x < 256.
Definition is_u16 (x : Z) : Prop := 0 <= x < 65536.
Definition is_u32 (x : Z) : Prop := 0 <= x < 4294967296.
Definition is_u64 (x : Z) : Prop := 0 <= x < 18446744073709551616.

Create HintDb word.
Create Rewrite HintDb word.

Lemma u8_range x : is_u8 (u8 x).
Proof. unfold is_u8, u8. pose proof (Z.mod_pos_bound x 256). lia. Qed.

Lemma u16_range x : is_u16 (u16 x).
Proof. unfold is_u16, u16. pose proof (Z.mod_pos_bound x 65536). lia. Qed.

Lemma u32_range x : is_u32 (u32 x).
Proof. unfold is_u32, u32. pose proof (Z.mod_pos_bound x 4294967296). lia. Qed.

Lemma u8_id x : is_u8 x -> u8 x = x.
Proof. unfold is_u8, u8. intros. apply Z.mod_small. lia. Qed.

Lemma u16_id x : is_u16 x -> u16 x = x.
Proof. unfold is_u16, u16. intros. apply Z.mod_small. lia. Qed.

Lemma u32_id x : is_u32 x -> u32 x = x.
Proof. unfold is_u32, u32. intros. apply Z.mod_small. lia. Qed.

Lemma u64_range x : is_u64 (u64 x).
Proof. unfold is_u64, u64. apply Z.mod_pos_bound. lia. Qed.

Lemma u64_id x : is_u64 x -> u64 x = x.
Proof. unfold is_u64, u64. intros. apply Z.mod_small. lia. Qed.

Lemma u16_add_l x y : u16 (u16 x + y) = u16 (x + y).
Proof. unfold u16. apply Zplus_mod_idemp_l. Qed.

Lemma u16_add_r x y : u16 (x + u16 y) = u16 (x + y).
Proof. unfold u16. apply Zplus_mod_idemp_r. Qed.

Lemma u16_u16 x : u16 (u16 x) = u16 x.
Proof. apply u16_id, u16_range. Qed.

Lemma u16_u8 x : u16 (u8 x) = u8 x.
Proof. apply u16_id. pose proof (u8_range x). unfold is_u8, is_u16 in *. lia. Qed.

Lemma i8_range x : -128 <= i8 x < 128.
Proof. unfold i8. pose proof (Z.mod_pos_bound (x + 128) 256). lia. Qed.

Lemma i16_range x : -32768 <= i16 x < 32768.
Proof. unfold i16. pose proof (Z.mod_pos_bound (x + 32768) 65536). lia. Qed.

#[export] Hint Resolve u8_range u16_range u32_range i8_range i16_range : word.
#[export] Hint Rewrite u16_add_l u16_add_r u16_u16 : word.

(** Masking with a power-of-two mask is reduction modulo the power. *)
Lemma land_ones_mod x n : 0 <= n -> x .& (2 ^ n - 1) = x mod 2 ^ n.
Proof.
  intros Hn. rewrite <- Z.land_ones by lia. f_equal.
  rewrite Z.ones_equiv. lia.
Qed.

Lemma land_ffff x : x .& 65535 = u16 x.
Proof. apply (land_ones_mod x 16). lia. Qed.

Lemma land_ff x : x .& 255 = u8 x.
Proof. apply (land_ones_mod x 8). lia. Qed.

(** A low field under a shifted high one. *)
Lemma lor_shiftl k lo hi : 0 <= k -> 0 <= lo < 2 ^ k -> lo .| (hi .<< k) = lo + 2 ^ k * hi.
Proof.
  intros Hk Hlo. rewrite Z.shiftl_mul_pow2 by lia.
  rewrite <- Z.lxor_lor, <- Z.add_nocarry_lxor; [lia|apply Z.bits_inj'; intros n Hn..].
  all: rewrite Z.land_spec, Z.bits_0.
  all: destruct (decide (n < k)); [rewrite Z.mul_pow2_bits_low by lia; apply andb_false_r|].
  all: rewrite <- (Z.mod_small lo (2 ^ k)), Z.mod_pow2_bits_high by lia; done.
Qed.

(** Little-endian assembly of two bytes. *)
Lemma lor_shiftl_8 lo hi : is_u8 lo -> lo .| (hi .<< 8) = lo + 256 * hi.
Proof. intros Hlo. by apply (lor_shiftl 8). Qed.

(** Big-endian assembly. *)
Lemma shiftl_lor k hi lo : 0 <= k -> 0 <= lo < 2 ^ k -> (hi .<< k) .| lo = 2 ^ k * hi + lo.
Proof. intros Hk Hlo. rewrite Z.lor_comm, lor_shiftl by done. lia. Qed.

Lemma be16_sum hi lo : is_u8 lo -> (hi .<< 8) .| lo = 256 * hi + lo.
Proof. intros Hlo. by apply (shiftl_lor 8). Qed.

Lemma be32_sum a b c d : is_u8 b -> is_u8 c -> is_u8 d ->
  (a .<< 24) .| (b .<< 16) .| (c .<< 8) .| d = 16777216 * a + 65536 * b + 256 * c + d.
Proof.
  unfold is_u8. intros Hb Hc Hd.
  change 24 with (8 + 16) at 1. change 16 with (8 + 8) at 2.
  rewrite <- !Z.shiftl_shiftl by lia. change 16 with (8 + 8). rewrite <- !Z.shiftl_shiftl by lia.
  rewrite <- !Z.shiftl_lor, !be16_sum by (unfold is_u8; lia). lia.
Qed.

Lemma lxor_range k x y : 0 <= k -> 0 <= x < 2 ^ k -> 0 <= y < 2 ^ k -> 0 <= x .^ y < 2 ^ k.
Proof.
  intros Hk Hx Hy. split; [apply Z.lxor_nonneg; lia|].
  rewrite <- (Z.mod_small x (2 ^ k)), <- (Z.mod_small y (2 ^ k)) by done.
  rewrite <- !Z.land_ones by done.
  assert (E : (x .& Z.ones k) .^ (y .& Z.ones k) = (x .^ y) .& Z.ones k).
  { apply Z.bits_inj'. intros n Hn. rewrite Z.lxor_spec, !Z.land_spec, Z.lxor_spec.
    by destruct (Z.testbit x n), (Z.testbit y n), (Z.testbit (Z.ones k) n). }
  rewrite E, Z.land_ones by done. apply Z.mod_pos_bound. lia.
Qed.

(** Low bits of conjunctions, sums and sign flips. *)

Lemma mod_mod_pow x a b : 0 <= a <= b -> (x mod 2 ^ b) mod 2 ^ a = x mod 2 ^ a.
Proof. intros H. apply Z.mod_mod_divide. exists (2 ^ (b - a)). rewrite <- Z.pow_add_r by lia. f_equal. lia. Qed.

Lemma land_mod x y n : 0 <= n -> (x .& y) mod 2 ^ n = (x mod 2 ^ n) .& (y mod 2 ^ n).
Proof.
  intros Hn. apply Z.bits_inj'. intros i Hi. rewrite Z.land_spec.
  destruct (decide (i < n)); [by rewrite !Z.mod_pow2_bits_low, Z.land_spec by lia|].
  by rewrite !Z.mod_pow2_bits_high by lia.
Qed.

Lemma lor_mod x y n : 0 <= n -> (x .| y) mod 2 ^ n = (x mod 2 ^ n) .| (y mod 2 ^ n).
Proof.
  intros Hn. apply Z.bits_inj'. intros i Hi. rewrite Z.lor_spec.
  destruct (decide (i < n)); [by rewrite !Z.mod_pow2_bits_low, Z.lor_spec by lia|].
  by rewrite !Z.mod_pow2_bits_high by lia.
Qed.

Lemma lxor_mod x y n : 0 <= n -> (x .^ y) mod 2 ^ n = (x mod 2 ^ n) .^ (y mod 2 ^ n).
Proof.
  intros Hn. apply Z.bits_inj'. intros i Hi. rewrite Z.lxor_spec.
  destruct (decide (i < n)); [by rewrite !Z.mod_pow2_bits_low, Z.lxor_spec by lia|].
  by rewrite !Z.mod_pow2_bits_high by lia.
Qed.

Lemma lor_disjoint x y n : 0 <= n -> 0 <= y < 2 ^ n -> (x - x mod 2 ^ n) .| y = x - x mod 2 ^ n + y.
Proof.
  intros Hn Hy. rewrite Z.lor_comm. replace (x - x mod 2 ^ n) with ((x / 2 ^ n) .<< n).
  2: { rewrite Z.shiftl_mul_pow2 by lia. pose proof (Z.div_mod x (2 ^ n)). lia. }
  rewrite lor_shiftl by done. rewrite Z.shiftl_mul_pow2 by lia. lia.
Qed.

(** Flipping the sign bit of [n + 1] bits. *)
Lemma lxor_sign x n : 0 <= n -> 0 <= x < 2 ^ (n + 1) -> (x .^ 2 ^ n) - 2 ^ n = if 2 ^ n <=? x then x - 2 ^ (n + 1) else x.
Proof.
  intros Hn Hx. rewrite Z.pow_add_r in * by lia. destruct (Z.leb_spec (2 ^ n) x).
  - assert (E : x = (x - 2 ^ n) .| (1 .<< n)) by (rewrite lor_shiftl; lia).
    assert (D : (x - 2 ^ n) .& (1 .<< n) = 0).
    { apply Z.bits_inj'. intros i Hi. rewrite Z.land_spec, Z.bits_0, Z.shiftl_1_l, Z.pow2_bits_eqb by lia.
      destruct (Z.eqb_spec n i); [|apply andb_false_r]. subst i.
      replace (x - 2 ^ n) with ((x - 2 ^ n) mod 2 ^ n) by (apply Z.mod_small; lia). by rewrite Z.mod_pow2_bits_high by lia. }
    assert (X : x = (x - 2 ^ n) .^ (1 .<< n)) by (rewrite <- Z.add_nocarry_lxor by done; rewrite Z.shiftl_1_l; lia).
    rewrite X at 1. rewrite Z.shiftl_1_l, Z.lxor_assoc, Z.lxor_nilpotent, Z.lxor_0_r. lia.
  - assert (D : x .& 2 ^ n = 0).
    { apply Z.bits_inj'. intros i Hi. rewrite Z.land_spec, Z.bits_0, Z.pow2_bits_eqb by lia.
      destruct (Z.eqb_spec n i); [|apply andb_false_r]. subst i.
      replace x with (x mod 2 ^ n) by (apply Z.mod_small; lia). by rewrite Z.mod_pow2_bits_high by lia. }
    rewrite <- Z.add_nocarry_lxor by done. lia.
Qed.

Lemma bit_test x n : 0 <= n -> negb (x .& 2 ^ n =? 0) = Z.testbit x n.
Proof.
  intros Hn. destruct (Z.testbit x n) eqn:E.
  - apply negb_true_iff, Z.eqb_neq. intros H. apply (f_equal (fun y => Z.testbit y n)) in H.
    rewrite Z.land_spec, E, Z.pow2_bits_true, Z.bits_0 in H by done. discriminate H.
  - apply negb_false_iff, Z.eqb_eq, Z.bits_inj'. intros k Hk. rewrite Z.land_spec, Z.bits_0, Z.pow2_bits_eqb by done.
    destruct (Z.eqb_spec n k) as [->|]; [by rewrite E|by rewrite andb_false_r].
Qed.

Lemma land_le x y : 0 <= x -> 0 <= y -> 0 <= x .& y <= x.
Proof.
  intros Hx Hy. pose proof (proj2 (Z.land_nonneg x y) (or_introl Hx)). split; [done|].
  apply Z.ldiff_le; [done|]. apply Z.bits_inj'. intros i Hi. rewrite Z.ldiff_spec, Z.land_spec, Z.bits_0.
  by destruct (Z.testbit x i), (Z.testbit y i).
Qed.

(** Conjunction, bit by bit. *)
Lemma land_halves x y : x .& y = 2 * ((x / 2) .& (y / 2)) + Z.b2z (Z.odd x && Z.odd y).
Proof.
  apply Z.bits_inj'. intros i Hi. destruct (decide (i = 0)) as [->|].
  - rewrite Z.testbit_0_r, Z.land_spec, !Z.bit0_odd. done.
  - replace i with (Z.succ (i - 1)) by lia. rewrite Z.testbit_succ_r, !Z.land_spec by lia.
    by rewrite <- !Z.div2_div, !Z.div2_spec, !Z.shiftr_spec, Z.add_1_r by lia.
Qed.

(** A big-endian read of [n] bytes of the 24-bit bus. *)
Fixpoint read_be (byte : Z -> Z) (address : Z) (n : nat) : Z :=
  match n with
  | O => 0
  | S n => byte (address mod 2 ^ 24) * 256 ^ Z.of_nat n + read_be byte (address + 1) n
  end.

Lemma read_be_mirror byte n address : read_be byte address n = read_be byte (address mod 2 ^ 24) n.
Proof.
  revert address. induction n as [|n IH]; intros address; [done|]. cbn [read_be].
  rewrite Z.mod_mod by lia. f_equal. by rewrite (IH (address + 1)), (IH (_ + 1)), Zplus_mod_idemp_l.
Qed.

Lemma read_be_range byte n address : (forall a, is_u8 (byte a)) -> 0 <= read_be byte address n < 256 ^ Z.of_nat n.
Proof.
  intros Hb. revert address. induction n as [|n IH]; intros address; [cbn; lia|]. cbn [read_be].
  pose proof (Hb (address mod 2 ^ 24)) as H. unfold is_u8 in H. specialize (IH (address + 1)).
  rewrite Nat2Z.inj_succ, Z.pow_succ_r by lia. nia.
Qed.

(** A read sees only the bytes of its extent. *)
Lemma read_be_ext f g n address :
  (forall i, 0 <= i < Z.of_nat n -> f ((address + i) mod 2 ^ 24) = g ((address + i) mod 2 ^ 24)) ->
  read_be f address n = read_be g address n.
Proof.
  revert address. induction n as [|n IH]; intros address H; [done|]. cbn [read_be].
  pose proof (H 0 ltac:(lia)) as H0. rewrite Z.add_0_r in H0. rewrite H0. f_equal. apply IH. intros i Hi.
  rewrite <- Z.add_assoc. apply H. lia.
Qed.

(** The bytes of a big-endian number. *)
Lemma read_be_digits f n address v :
  (forall i, 0 <= i < Z.of_nat n -> f ((address + i) mod 2 ^ 24) = (v / 256 ^ (Z.of_nat n - 1 - i)) mod 256) ->
  read_be f address n = v mod 256 ^ Z.of_nat n.
Proof.
  revert address. induction n as [|n IH]; intros address H; [by rewrite Z.mod_1_r|]. cbn [read_be].
  rewrite (IH (address + 1)).
  2: { intros i Hi. rewrite <- Z.add_assoc, H by lia. do 3 f_equal. lia. }
  pose proof (H 0 ltac:(lia)) as H0. rewrite Z.add_0_r in H0. rewrite H0.
  rewrite Nat2Z.inj_succ, Z.pow_succ_r, (Z.mul_comm 256), Z.rem_mul_r by lia.
  replace (Z.succ (Z.of_nat n) - 1 - 0) with (Z.of_nat n) by lia. lia.
Qed.

(** A 32-bit word is the sum of its bytes. *)
Lemma le32_split x : is_u32 x ->
  x = u8 x + 256 * u8 (x / 256) + 65536 * u8 (x / 65536) + 16777216 * u8 (x / 16777216).
Proof.
  unfold is_u32, u8. intros Hx.
  assert (E1 : x / 65536 = x / 256 / 256) by (rewrite Z.div_div by lia; done).
  assert (E2 : x / 16777216 = x / 65536 / 256) by (rewrite Z.div_div by lia; done).
  assert (H3 : 0 <= x / 16777216 < 256) by (split; [apply Z.div_pos; lia|apply Z.div_lt_upper_bound; lia]).
  pose proof (Z.div_mod x 256). pose proof (Z.div_mod (x / 256) 256). pose proof (Z.div_mod (x / 65536) 256).
  rewrite <- E1, <- E2 in *. rewrite (Z.mod_small (x / 16777216)) by done. lia.
Qed.

(** * Loops *)

Fixpoint zloop {T} (n : nat) (i : Z) (body : Z -> T -> T) (s : T) : T :=
  match n with
  | O => s
  | S n' => zloop n' (i + 1) body (body i s)
  end.

(** [for (i = lo; i < lo + n; ++i) s = body(i, s);] *)
Definition zfor {T} (lo n : Z) (body : Z -> T -> T) (s : T) : T :=
  zloop (Z.to_nat n) lo body s.

(** The loop rule: an invariant indexed by the loop counter. *)
Lemma zfor_ind {T} (I : Z -> T -> Prop) (lo n : Z) (body : Z -> T -> T) (s : T) :
  0 <= n -> I lo s ->
  (forall i t, lo <= i < lo + n -> I i t -> I (i + 1) (body i t)) ->
  I (lo + n) (zfor lo n body s).
Proof.
  intros Hn Hs. rewrite <- (Z2Nat.id n) by lia. unfold zfor. rewrite Nat2Z.id.
  revert lo s Hs. induction (Z.to_nat n) as [|k IH]; intros lo s Hs Hstep; cbn [zloop].
  - by rewrite Z.add_0_r.
  - replace (lo + Z.of_nat (S k)) with (lo + 1 + Z.of_nat k) by lia.
    apply IH.
    + apply Hstep; [lia|done].
    + intros i t Hi. apply Hstep. lia.
Qed.

(** A loop that appends [f i] to its output at every step. *)
Lemma zfor_app {A} lo n (f : Z -> list A) (out : list A) :
  zfor lo n (fun i out => out ++ f i) out = out ++ concat (map f (seqZ lo n)).
Proof.
  unfold zfor. destruct (decide (0 <= n)) as [Hn|Hn].
  2: { rewrite Z2Nat.nonpos, seqZ_nil by lia. cbn. by rewrite app_nil_r. }
  rewrite <- (Z2Nat.id n) at 2 by done. clear Hn. revert lo out.
  induction (Z.to_nat n) as [|k IH]; intros lo out; cbn [zloop].
  - cbn. by rewrite app_nil_r.
  - rewrite IH, (seqZ_cons lo) by lia. cbn [map concat]. rewrite <- app_assoc.
    by replace (Z.succ lo) with (lo + 1) by lia; replace (Z.pred (Z.of_nat (S k))) with (Z.of_nat k) by lia.
Qed.

Lemma zfor_snoc {T} lo n (f : Z -> T -> T) s :
  0 <= n -> zfor lo (n + 1) f s = f (lo + n) (zfor lo n f s).
Proof.
  intros Hn. unfold zfor. replace (Z.to_nat (n + 1)) with (S (Z.to_nat n)) by lia.
  rewrite <- (Z2Nat.id n) at 2 by lia. clear Hn. revert lo s.
  induction (Z.to_nat n) as [|k IH]; intros lo s.
  - cbn. by rewrite Z.add_0_r.
  - cbn [zloop]. cbn [zloop] in IH. rewrite IH. f_equal. lia.
Qed.

Lemma zloop_shift {T} n lo d (f g : Z -> T -> T) s :
  (forall i t, f (i + d) t = g i t) -> zloop n (lo + d) f s = zloop n lo g s.
Proof.
  intros H. revert lo s. induction n as [|n IH]; intros lo s; cbn [zloop]; [done|].
  rewrite H. replace (lo + d + 1) with (lo + 1 + d) by lia. apply IH.
Qed.

Lemma concat_singletons {A B} (f : A -> B) l : concat (map (fun x => [f x]) l) = f <$> l.
Proof. induction l as [|x l IH]; cbn; [done|]. by rewrite IH. Qed.

Lemma zfor_ext {T} lo n (f g : Z -> T -> T) s :
  (forall i t, lo <= i < lo + n -> f i t = g i t) -> zfor lo n f s = zfor lo n g s.
Proof.
  intros H. unfold zfor. destruct (decide (0 <= n)) as [Hn|Hn]; [|by rewrite Z2Nat.nonpos by lia].
  assert (H' : forall i t, lo <= i < lo + Z.of_nat (Z.to_nat n) -> f i t = g i t) by (intros; apply H; lia).
  clear H Hn. revert lo s H'. induction (Z.to_nat n) as [|k IH]; intros lo s H; cbn [zloop]; [done|].
  rewrite H by lia. apply IH. intros i t Hi. apply H. lia.
Qed.

(** [for (i = lo; i < lo + n; ++i) if (p(i)) break;]: the first hit, if any. *)
Fixpoint zfind_loop (n : nat) (i : Z) (p : Z -> bool) : option Z :=
  match n with
  | O => None
  | S n' => if p i then Some i else zfind_loop n' (i + 1) p
  end.

Definition zfind (lo n : Z) (p : Z -> bool) : option Z := zfind_loop (Z.to_nat n) lo p.

Lemma zfind_spec lo n p :
  match zfind lo n p with
  | Some i => lo <= i < lo + n /\ p i = true /\ (forall j, lo <= j < i -> p j = false)
  | None => forall j, lo <= j < lo + n -> p j = false
  end.
Proof.
  unfold zfind. destruct (decide (0 <= n)) as [Hn|Hn].
  2: { rewrite Z2Nat.nonpos by lia. cbn. intros; lia. }
  replace n with (Z.of_nat (Z.to_nat n)) by lia. rewrite Nat2Z.id. clear Hn.
  revert lo. induction (Z.to_nat n) as [|k IH]; intros lo; cbn [zfind_loop].
  - intros; lia.
  - destruct (p lo) eqn:Hp.
    + split_and!; [lia|lia|done|intros; lia].
    + specialize (IH (lo + 1)). destruct (zfind_loop k (lo + 1) p) as [i|].
      * destruct IH as (Hi & Hpi & Hlt). split_and!; [lia|lia|done|].
        intros j Hj. destruct (decide (j = lo)) as [->|]; [done|]. apply Hlt. lia.
      * intros j Hj. destruct (decide (j = lo)) as [->|]; [done|]. apply IH. lia.
Qed.

(** * Dense tables

    A [std::vector] of fixed size whose elements all start with the value
    [d] is a finite map from the indices written so far; [tget d] reads it. *)
Definition tget {A} (d : A) (t : gmap Z A) (i : Z) : A := default d (t !! i).

(** The table filled by [for (a = 0; a < n; ++a) t[a] = f(a);]. *)
Definition ztab {A} (n : Z) (f : Z -> A) : gmap Z A :=
  zfor 0 n (fun a t => <[a := f a]> t) ∅.

Lemma tget_insert_eq {A} (d : A) (t : gmap Z A) i x : tget d (<[i := x]> t) i = x.
Proof. unfold tget. by rewrite lookup_insert_eq. Qed.

Lemma tget_insert_ne {A} (d : A) (t : gmap Z A) i j x :
  i ≠ j -> tget d (<[i := x]> t) j = tget d t j.
Proof. intros. unfold tget. by rewrite lookup_insert_ne. Qed.

Lemma ztab_lookup {A} n (f : Z -> A) a :
  0 <= a < n -> ztab n f !! a = Some (f a).
Proof.
  intros Ha. unfold ztab.
  assert (H : (fun i (t : gmap Z A) => forall k, 0 <= k < i -> t !! k = Some (f k))
                (0 + n) (zfor 0 n (fun a t => <[a := f a]> t) ∅)).
  { apply zfor_ind; [lia|lia|]. intros i t Hi IH k Hk.
    destruct (decide (i = k)) as [->|Hne].
    - by rewrite lookup_insert_eq.
    - rewrite lookup_insert_ne by done. apply IH. lia. }
  apply H. lia.
Qed.

Lemma ztab_tget {A} (d : A) n (f : Z -> A) a :
  0 <= a < n -> tget d (ztab n f) a = f a.
Proof. intros Ha. unfold tget. by rewrite ztab_lookup. Qed.

Lemma ztab_lookup_None {A} n (f : Z -> A) a :
  0 <= n -> ~ (0 <= a < n) -> ztab n f !! a = None.
Proof.
  intros Hn Ha. unfold ztab.
  assert (H : (fun i (t : gmap Z A) => forall k, ~ (0 <= k < i) -> t !! k = None)
                (0 + n) (zfor 0 n (fun a t => <[a := f a]> t) ∅)).
  { apply zfor_ind; [done|done|]. intros i t Hi IH k Hk.
    rewrite lookup_insert_ne by lia. apply IH. lia. }
  apply H. lia.
Qed.

#[export] Hint Rewrite @tget_insert_eq : word.

(** * Lists indexed by machine integers *)

(** [l[i]]; [d] stands for the value of an access the source never makes. *)
Fixpoint znth {A} (l : list A) (i : Z) (d : A) : A :=
  match l with
  | [] => d
  | x :: l' => if i =? 0 then x else znth l' (i - 1) d
  end.

Definition zlen {A} (l : list A) : Z := Z.of_nat (length l).

Lemma zlen_nonneg {A} (l : list A) : 0 <= zlen l.
Proof. unfold zlen. lia. Qed.

Lemma zlen_app {A} (l k : list A) : zlen (l ++ k) = zlen l + zlen k.
Proof. unfold zlen. rewrite length_app. lia. Qed.

Lemma zlen_snoc {A} (l : list A) x : zlen (l ++ [x]) = zlen l + 1.
Proof. rewrite zlen_app. done. Qed.

Lemma zlen_cons {A} (x : A) (l : list A) : zlen (x :: l) = 1 + zlen l.
Proof. unfold zlen. cbn [length]. lia. Qed.

(** The [i]-th of a concatenation of chunks of length [k]. *)
Lemma take_drop_chunks {A} (k : nat) (ls : list (list A)) (i : nat) l :
  Forall (fun l => length l = k) ls -> ls !! i = Some l ->
  take k (drop (k * i) (concat ls)) = l.
Proof.
  intros H. revert i. induction H as [|x ls Hx _ IH]; intros i Hi; [done|].
  destruct i as [|i]; cbn [lookup list_lookup concat] in *.
  - injection Hi as ->. rewrite Nat.mul_0_r, drop_0. by apply take_app_length'.
  - rewrite drop_app_ge by lia. replace (k * S i - length x)%nat with (k * i)%nat by lia. by apply IH.
Qed.

Lemma length_chunks {A} (k : nat) (ls : list (list A)) :
  Forall (fun l => length l = k) ls -> length (concat ls) = (k * length ls)%nat.
Proof. induction 1; cbn; [lia|]. rewrite length_app. lia. Qed.

Lemma znth_nth {A} (l : list A) i d : 0 <= i -> znth l i d = nth (Z.to_nat i) l d.
Proof.
  revert i. induction l as [|x l IH]; intros i Hi; cbn.
  - by destruct (Z.to_nat i).
  - destruct (Z.eqb_spec i 0) as [->|Hne]; [done|].
    rewrite IH by lia. replace (Z.to_nat i) with (S (Z.to_nat (i - 1))) by lia. done.
Qed.

Lemma znth_lookup {A} (l : list A) i d x :
  0 <= i -> l !! Z.to_nat i = Some x -> znth l i d = x.
Proof. intros Hi H. rewrite znth_nth by done. by apply nth_lookup_Some. Qed.

Lemma znth_byte l i : Forall is_u8 l -> is_u8 (znth l i 0).
Proof.
  intros H. revert i. induction H as [|x l Hx _ IH]; intros i; cbn; [by vm_compute|].
  destruct (_ =? _); [done|apply IH].
Qed.

Lemma lookup_znth {A} (l : list A) i d :
  0 <= i < zlen l -> l !! Z.to_nat i = Some (znth l i d).
Proof.
  intros Hi. destruct (l !! Z.to_nat i) as [x|] eqn:Hx.
  - f_equal. symmetry. apply znth_lookup; [lia|done].
  - apply lookup_ge_None in Hx. unfold zlen in Hi. lia.
Qed.

Lemma znth_insert {A} (l : list A) i j x d :
  0 <= i < zlen l -> 0 <= j ->
  znth (<[Z.to_nat i := x]> l) j d = if j =? i then x else znth l j d.
Proof.
  intros Hi Hj. rewrite !znth_nth by lia. unfold zlen in Hi. rewrite !nth_lookup.
  destruct (Z.eqb_spec j i) as [->|Hne].
  - by rewrite list_lookup_insert_eq by lia.
  - by rewrite list_lookup_insert_ne by lia.
Qed.

Lemma zlen_insert {A} (l : list A) (i : nat) x : zlen (<[i := x]> l) = zlen l.
Proof. unfold zlen. by rewrite length_insert. Qed.

(** * Sorted sets as lists

    [std::sort] followed by [std::unique] and [erase]. *)
Fixpoint unique (l : list Z) : list Z :=
  match l with
  | [] => []
  | x :: l' =>
      match unique l' with
      | [] => [x]
      | y :: r => if x =? y then y :: r else x :: y :: r
      end
  end.

Definition sort_unique (l : list Z) : list Z := unique (merge_sort Z.le l).

Lemma elem_of_unique l x : x ∈ unique l <-> x ∈ l.
Proof.
  induction l as [|y l IH]; [done|]. cbn. rewrite elem_of_cons, <- IH.
  destruct (unique l) as [|z r]; [by rewrite list_elem_of_singleton, elem_of_nil; intuition|].
  destruct (Z.eqb_spec y z) as [->|]; rewrite !elem_of_cons; intuition.
Qed.

Lemma unique_sorted l : StronglySorted Z.le l -> StronglySorted Z.lt (unique l).
Proof.
  induction 1 as [|y l Hs IH Hle]; [constructor|]. cbn.
  assert (Hle' : Forall (Z.le y) (unique l)).
  { rewrite Forall_forall in *. intros x Hx. apply Hle. by apply elem_of_unique. }
  destruct (unique l) as [|z r]; [by repeat constructor|].
  destruct (Z.eqb_spec y z) as [->|Hne]; [done|].
  apply StronglySorted_inv in IH as IH'. destruct IH' as [_ Hz].
  constructor; [done|]. apply Forall_cons in Hle' as [Hyz _].
  constructor; [lia|]. eapply Forall_impl; [exact Hz|]. intros w Hw. lia.
Qed.

Lemma sort_unique_sorted l : StronglySorted Z.lt (sort_unique l).
Proof. apply unique_sorted, StronglySorted_merge_sort; apply _. Qed.

Lemma elem_of_sort_unique l x : x ∈ sort_unique l <-> x ∈ l.
Proof. unfold sort_unique. by rewrite elem_of_unique, merge_sort_Permutation. Qed.

Lemma sorted_ext l k :
  StronglySorted Z.lt l -> StronglySorted Z.lt k -> (forall x, x ∈ l <-> x ∈ k) -> l = k.
Proof.
  intros Hl. revert k. induction Hl as [|x l Hl IH Hx]; intros k Hk Hext.
  - destruct k as [|y k]; [done|]. exfalso. assert (y ∈ @nil Z) by (apply Hext; left).
    by eapply not_elem_of_nil.
  - destruct Hk as [|y k Hk Hy].
    + exfalso. assert (x ∈ @nil Z) by (apply Hext; left). by eapply not_elem_of_nil.
    + rewrite Forall_forall in Hx, Hy.
      assert (x = y) as <-.
      { pose proof (proj1 (Hext x) ltac:(left)) as H1. pose proof (proj2 (Hext y) ltac:(left)) as H2.
        apply elem_of_cons in H1 as [?|H1]; [done|]. apply elem_of_cons in H2 as [?|H2]; [done|].
        apply Hy in H1. apply Hx in H2. lia. }
      f_equal. apply IH; [done|]. intros z. specialize (Hext z). rewrite !elem_of_cons in Hext.
      split; intros Hz.
      * destruct (proj1 Hext (or_intror Hz)) as [->|]; [|done]. apply Hx in Hz. lia.
      * destruct (proj2 Hext (or_intror Hz)) as [->|]; [|done]. apply Hy in Hz. lia.
Qed.

(** * Enumerations

    A C++ [enum class] whose values are cast to integers by the source comes
    with its index function; an enumeration list inverts it. *)
Class Enum (A : Type) := {
  enum_index : A -> Z;
  enum_values : list A;
  enum_index_values : forall a, enum_values !! Z.to_nat (enum_index a) = Some a;
}.

Lemma enum_index_inj `{Enum A} (a b : A) : enum_index a = enum_index b -> a = b.
Proof.
  intros E. pose proof (enum_index_values a) as Ha.
  rewrite E, enum_index_values in Ha. by simplify_eq.
Qed.

#[export] Instance enum_eq_dec `{Enum A} : EqDecision A := fun a b =>
  match decide (enum_index a = enum_index b) with
  | left e => left (enum_index_inj a b e)
  | right n => right (fun e => n (f_equal enum_index e))
  end.

Lemma enum_elem_of `{Enum A} (a : A) : a ∈ enum_values.
Proof. eapply list_elem_of_lookup_2, enum_index_values. Qed.

(** A boolean predicate that holds on every value of a finite enumeration and
    every byte holds everywhere: the decision procedure behind the exhaustive
    checks of the opcode tables. *)
Lemma enum_forallb `{Enum A} (P : A -> bool) :
  forallb P enum_values = true -> forall a, P a = true.
Proof.
  intros Hall a. rewrite forallb_forall in Hall.
  apply Hall. rewrite <- list_elem_of_In. apply enum_elem_of.
Qed.

Lemma seqZ_forallb (P : Z -> bool) n :
  forallb P (seqZ 0 n) = true -> forall b, 0 <= b < n -> P b = true.
Proof.
  intros Hall b Hb. rewrite forallb_forall in Hall.
  apply Hall. rewrite <- list_elem_of_In, elem_of_seqZ. lia.
Qed.

Lemma drop_zlen_app {A} (l k : list A) : drop (Z.to_nat (zlen l)) (l ++ k) = k.
Proof. unfold zlen. rewrite Nat2Z.id. apply drop_app_length. Qed.

Lemma take_zlen_app {A} (l k : list A) : take (Z.to_nat (zlen l)) (l ++ k) = l.
Proof. unfold zlen. rewrite Nat2Z.id. apply take_app_length. Qed.

(** * Fallible computations *)

Inductive result (E A : Type) : Type :=
| Ok (a : A)
| Err (e : E).
Arguments Ok {E A} a.
Arguments Err {E A} e.

#[export] Instance result_ret {E} : MRet (result E) := fun A a => Ok a.
#[export] Instance result_bind {E} : MBind (result E) := fun A B f m =>
  match m with Ok a => f a | Err e => Err e end.

(** [if (cond) return fail(e);] *)
Definition fail_if {E} (cond : bool) (e : E) : result E unit :=
  if cond then Err e else Ok tt.

(** * Tactics *)

(** Split the first [match] or [if] of a hypothesis or the goal. *)
Ltac split_match_in H :=
  match type of H with
  | context [match ?e with _ => _ end] => destruct e eqn:?
  end; simplify_eq/=.

Ltac split_match :=
  match goal with
  | |- context [match ?e with _ => _ end] => destruct e eqn:?
  end; simplify_eq/=.

(** Turn the boolean tests of the source into propositions. *)
Ltac to_prop :=
  repeat match goal with
  | H : bool_decide _ = true |- _ => apply bool_decide_eq_true in H
  | H : bool_decide _ = false |- _ => apply bool_decide_eq_false in H
  | H : _ && _ = true |- _ => apply andb_prop in H as [? ?]
  | H : _ || _ = false |- _ => apply orb_false_elim in H as [? ?]
  | H : (_ =? _) = true |- _ => apply Z.eqb_eq in H
  | H : (_ =? _) = false |- _ => apply Z.eqb_neq in H
  | H : (_ <? _) = true |- _ => apply Z.ltb_lt in H
  | H : (_ <? _) = false |- _ => apply Z.ltb_ge in H
  | H : (_ <=? _) = true |- _ => apply Z.leb_le in H
  | H : (_ <=? _) = false |- _ => apply Z.leb_gt in H
  | H : negb _ = true |- _ => apply negb_true_iff in H
  | H : negb _ = false |- _ => apply negb_false_iff in H
  end.

(** Exhaustive checking of a decidable statement over a finite domain. *)
Lemma enum_byte_decide `{Enum A} (P : A -> Z -> Prop) `{!forall a b, Decision (P a b)} :
  forallb (fun a => forallb (fun b => bool_decide (P a b)) (seqZ 0 256)) enum_values = true ->
  forall a b, 0 <= b < 256 -> P a b.
Proof.
  intros Hall a b Hb.
  pose proof (enum_forallb _ Hall a) as Ha. cbn in Ha.
  pose proof (seqZ_forallb _ _ Ha b Hb) as Hab. by apply bool_decide_eq_true in Hab.
Qed.

#[export] Instance if_decision (b : bool) (P Q : Prop) `{!Decision P, !Decision Q} :
  Decision (if b then P else Q).
Proof. destruct b; apply _. Defined.

Lemma range_decide (P : Z -> Prop) `{!forall b, Decision (P b)} n :
  forallb (fun b => bool_decide (P b)) (seqZ 0 n) = true ->
  forall b, 0 <= b < n -> P b.
Proof.
  intros Hall b Hb. pose proof (seqZ_forallb _ _ Hall b Hb) as Hp.
  by apply bool_decide_eq_true in Hp.
Qed.

(** Close a finite check by evaluation. *)
Ltac by_evaluation := vm_compute; reflexivity.

Ltac by_enum_byte :=
  cbv zeta;
  match goal with
  | |- forall a b, 0 <= b < 256 -> @?P a b => refine (enum_byte_decide P _); by_evaluation
  end.

(** Loops over the 65,536 addresses are reasoned about through their rules and
    evaluated by [vm_compute] only: no tactic should unfold them. *)
#[global] Opaque zfor zfind ztab.
