(* ===== verification/Z80Forms.v ===== *)
(** The Z80 encoding surface: [libs/cpu/z80/include/segarecomp/cpu/z80/forms.hpp]
    and [libs/cpu/z80/src/forms.cpp].

    The seven opcode spaces, the per-byte classification of each space, the
    interning of classification keys into form descriptors ([build]), the
    static timing table and the diagnostic names.  The theorems at the end show
    that the interned tables answer exactly what the direct classification
    answers, and that every descriptor is well formed. *)

From S2P Require Import Prelude.

(** * Data *)

Inductive Space : Type :=
  | Sp_base  | Sp_cb  | Sp_ed  | Sp_dd  | Sp_fd  | Sp_ddcb  | Sp_fdcb.

Definition space_index (v : Space) : Z :=
  match v with
  | Sp_base => 0  | Sp_cb => 1  | Sp_ed => 2  | Sp_dd => 3  | Sp_fd => 4  | Sp_ddcb => 5
  | Sp_fdcb => 6
  end.

Definition space_values : list Space :=
  [Sp_base; Sp_cb; Sp_ed; Sp_dd; Sp_fd; Sp_ddcb; Sp_fdcb].

#[export] Instance space_enum : Enum Space.
Proof.
  refine {| enum_index := space_index; enum_values := space_values |}.
  by intros [].
Defined.

Definition kSpaceCount : Z := 7.

Inductive Mnemonic : Type :=
  | M_nop  | M_ld  | M_inc  | M_dec  | M_rlca  | M_rrca  | M_rla  | M_rra  | M_ex  | M_add
  | M_djnz  | M_jr  | M_daa  | M_cpl  | M_scf  | M_ccf  | M_halt  | M_adc  | M_sub  | M_sbc
  | M_and_  | M_xor_  | M_or_  | M_cp  | M_ret  | M_pop  | M_jp  | M_call  | M_push  | M_rst
  | M_exx  | M_out  | M_in  | M_di  | M_ei  | M_rlc  | M_rrc  | M_rl  | M_rr  | M_sla  | M_sra
  | M_sll  | M_srl  | M_bit  | M_res  | M_set  | M_neg  | M_retn  | M_reti  | M_im  | M_rrd
  | M_rld  | M_ldi  | M_cpi  | M_ini  | M_outi  | M_ldd  | M_cpd  | M_ind  | M_outd  | M_ldir
  | M_cpir  | M_inir  | M_otir  | M_lddr  | M_cpdr  | M_indr  | M_otdr.

Definition mnemonic_index (v : Mnemonic) : Z :=
  match v with
  | M_nop => 0  | M_ld => 1  | M_inc => 2  | M_dec => 3  | M_rlca => 4  | M_rrca => 5
  | M_rla => 6  | M_rra => 7  | M_ex => 8  | M_add => 9  | M_djnz => 10  | M_jr => 11
  | M_daa => 12  | M_cpl => 13  | M_scf => 14  | M_ccf => 15  | M_halt => 16  | M_adc => 17
  | M_sub => 18  | M_sbc => 19  | M_and_ => 20  | M_xor_ => 21  | M_or_ => 22  | M_cp => 23
  | M_ret => 24  | M_pop => 25  | M_jp => 26  | M_call => 27  | M_push => 28  | M_rst => 29
  | M_exx => 30  | M_out => 31  | M_in => 32  | M_di => 33  | M_ei => 34  | M_rlc => 35
  | M_rrc => 36  | M_rl => 37  | M_rr => 38  | M_sla => 39  | M_sra => 40  | M_sll => 41
  | M_srl => 42  | M_bit => 43  | M_res => 44  | M_set => 45  | M_neg => 46  | M_retn => 47
  | M_reti => 48  | M_im => 49  | M_rrd => 50  | M_rld => 51  | M_ldi => 52  | M_cpi => 53
  | M_ini => 54  | M_outi => 55  | M_ldd => 56  | M_cpd => 57  | M_ind => 58  | M_outd => 59
  | M_ldir => 60  | M_cpir => 61  | M_inir => 62  | M_otir => 63  | M_lddr => 64  | M_cpdr => 65
  | M_indr => 66  | M_otdr => 67
  end.

Definition mnemonic_values : list Mnemonic :=
  [M_nop; M_ld; M_inc; M_dec; M_rlca; M_rrca; M_rla; M_rra; M_ex; M_add; M_djnz; M_jr; M_daa; M_cpl;
  M_scf; M_ccf; M_halt; M_adc; M_sub; M_sbc; M_and_; M_xor_; M_or_; M_cp; M_ret; M_pop; M_jp;
  M_call; M_push; M_rst; M_exx; M_out; M_in; M_di; M_ei; M_rlc; M_rrc; M_rl; M_rr; M_sla; M_sra;
  M_sll; M_srl; M_bit; M_res; M_set; M_neg; M_retn; M_reti; M_im; M_rrd; M_rld; M_ldi; M_cpi;
  M_ini; M_outi; M_ldd; M_cpd; M_ind; M_outd; M_ldir; M_cpir; M_inir; M_otir; M_lddr; M_cpdr;
  M_indr; M_otdr].

#[export] Instance mnemonic_enum : Enum Mnemonic.
Proof.
  refine {| enum_index := mnemonic_index; enum_values := mnemonic_values |}.
  by intros [].
Defined.

Inductive Operand : Type :=
  | Op_none  | Op_a  | Op_r  | Op_rr  | Op_rr2  | Op_rr_ind  | Op_hl  | Op_hl_ind  | Op_de
  | Op_sp  | Op_sp_ind  | Op_nn  | Op_n  | Op_e  | Op_p  | Op_cc  | Op_cc4  | Op_bit  | Op_af
  | Op_af_alt  | Op_i  | Op_r_refresh  | Op_im0  | Op_im1  | Op_im2  | Op_n_port  | Op_c_port
  | Op_nn_ind  | Op_flags_only  | Op_zero  | Op_ed_undefined  | Op_rr_ed  | Op_ix  | Op_iy
  | Op_ix_d  | Op_iy_d  | Op_ix_half  | Op_iy_half  | Op_rr_ix  | Op_rr_iy  | Op_ix_d_copy_r
  | Op_iy_d_copy_r.

Definition operand_index (v : Operand) : Z :=
  match v with
  | Op_none => 0  | Op_a => 1  | Op_r => 2  | Op_rr => 3  | Op_rr2 => 4  | Op_rr_ind => 5
  | Op_hl => 6  | Op_hl_ind => 7  | Op_de => 8  | Op_sp => 9  | Op_sp_ind => 10  | Op_nn => 11
  | Op_n => 12  | Op_e => 13  | Op_p => 14  | Op_cc => 15  | Op_cc4 => 16  | Op_bit => 17
  | Op_af => 18  | Op_af_alt => 19  | Op_i => 20  | Op_r_refresh => 21  | Op_im0 => 22
  | Op_im1 => 23  | Op_im2 => 24  | Op_n_port => 25  | Op_c_port => 26  | Op_nn_ind => 27
  | Op_flags_only => 28  | Op_zero => 29  | Op_ed_undefined => 30  | Op_rr_ed => 31  | Op_ix => 32
  | Op_iy => 33  | Op_ix_d => 34  | Op_iy_d => 35  | Op_ix_half => 36  | Op_iy_half => 37
  | Op_rr_ix => 38  | Op_rr_iy => 39  | Op_ix_d_copy_r => 40  | Op_iy_d_copy_r => 41
  end.

Definition operand_values : list Operand :=
  [Op_none; Op_a; Op_r; Op_rr; Op_rr2; Op_rr_ind; Op_hl; Op_hl_ind; Op_de; Op_sp; Op_sp_ind; Op_nn;
  Op_n; Op_e; Op_p; Op_cc; Op_cc4; Op_bit; Op_af; Op_af_alt; Op_i; Op_r_refresh; Op_im0; Op_im1;
  Op_im2; Op_n_port; Op_c_port; Op_nn_ind; Op_flags_only; Op_zero; Op_ed_undefined; Op_rr_ed;
  Op_ix; Op_iy; Op_ix_d; Op_iy_d; Op_ix_half; Op_iy_half; Op_rr_ix; Op_rr_iy; Op_ix_d_copy_r;
  Op_iy_d_copy_r].

#[export] Instance operand_enum : Enum Operand.
Proof.
  refine {| enum_index := operand_index; enum_values := operand_values |}.
  by intros [].
Defined.

Inductive TimingClass : Type :=
  | TC_fixed  | TC_conditional  | TC_repeat  | TC_halt.

Definition timing_class_index (v : TimingClass) : Z :=
  match v with
  | TC_fixed => 0  | TC_conditional => 1  | TC_repeat => 2  | TC_halt => 3
  end.

Definition timing_class_values : list TimingClass :=
  [TC_fixed; TC_conditional; TC_repeat; TC_halt].

#[export] Instance timing_class_enum : Enum TimingClass.
Proof.
  refine {| enum_index := timing_class_index; enum_values := timing_class_values |}.
  by intros [].
Defined.

Record Timing := mkTiming {
  klass : TimingClass;
  primary : Z;
  alternate : Z;
}.

#[export] Instance timing_eq_dec : EqDecision Timing.
Proof. solve_decision. Defined.

Definition kNoForm : Z := 65535.
Definition kNoIndex : Z := 255.

Record FormDescriptor := mkFormDescriptor {
  f_id : Z;
  f_space : Space;
  f_mnemonic : Mnemonic;
  f_dst : Operand;
  f_src : Operand;
  f_documented : bool;
  f_alias_of : Z;
  f_length : Z;
  f_m1_fetches : Z;
  f_opcode_index : Z;
  f_displacement_index : Z;
  f_immediate_index : Z;
  f_immediate_size : Z;
  f_timing : Timing;
}.

#[export] Instance form_descriptor_eq_dec : EqDecision FormDescriptor.
Proof. solve_decision. Defined.

Inductive ByteClassKind : Type :=
  | BK_form  | BK_escape_cb  | BK_escape_ed  | BK_escape_dd  | BK_escape_fd  | BK_escape_ddcb
  | BK_escape_fdcb  | BK_prefix_chain  | BK_prefix_ignored  | BK_prefix_ignored_before_ed.

Definition byte_class_kind_index (v : ByteClassKind) : Z :=
  match v with
  | BK_form => 0  | BK_escape_cb => 1  | BK_escape_ed => 2  | BK_escape_dd => 3
  | BK_escape_fd => 4  | BK_escape_ddcb => 5  | BK_escape_fdcb => 6  | BK_prefix_chain => 7
  | BK_prefix_ignored => 8  | BK_prefix_ignored_before_ed => 9
  end.

Definition byte_class_kind_values : list ByteClassKind :=
  [BK_form; BK_escape_cb; BK_escape_ed; BK_escape_dd; BK_escape_fd; BK_escape_ddcb; BK_escape_fdcb;
  BK_prefix_chain; BK_prefix_ignored; BK_prefix_ignored_before_ed].

#[export] Instance byte_class_kind_enum : Enum ByteClassKind.
Proof.
  refine {| enum_index := byte_class_kind_index; enum_values := byte_class_kind_values |}.
  by intros [].
Defined.

Record ByteClass := mkByteClass { bc_kind : ByteClassKind; bc_form : Z }.

#[export] Instance byte_class_eq_dec : EqDecision ByteClass.
Proof. solve_decision. Defined.

(** A form identity before interning. *)
Record Key := mkKey {
  k_space : Space;
  k_mnemonic : Mnemonic;
  k_dst : Operand;
  k_src : Operand;
  k_documented : bool;
  k_has_alias : bool;
  k_alias_space : Space;
}.

#[export] Instance key_eq_dec : EqDecision Key.
Proof. solve_decision. Defined.

(** [Key{}]: the default member initialisers. *)
Definition default_key : Key := mkKey Sp_base M_nop Op_none Op_none true false Sp_base.

Record Classified := mkClassified { c_kind : ByteClassKind; c_key : Key }.

(** * Classification of one opcode byte *)

Definition kAlu : list Mnemonic := [M_add; M_adc; M_sub; M_sbc; M_and_; M_xor_; M_or_; M_cp].
Definition kShift : list Mnemonic := [M_rlc; M_rrc; M_rl; M_rr; M_sla; M_sra; M_sll; M_srl].

Definition make (space : Space) (mnemonic : Mnemonic) (dst src : Operand) (documented : bool) : Key :=
  mkKey space mnemonic dst src documented false Sp_base.

Definition alias (key : Key) (target_space : Space) : Key :=
  mkKey (k_space key) (k_mnemonic key) (k_dst key) (k_src key) false true target_space.

Definition form (key : Key) : Classified := mkClassified BK_form key.

Definition escape (kind : ByteClassKind) : Classified := mkClassified kind default_key.

Definition classify_base (b : Z) : Classified :=
  let x := b .>> 6 in
  let y := (b .>> 3) .& 7 in
  let z := b .& 7 in
  let p := y .>> 1 in
  let q := y .& 1 in
  let mk m d s := form (make Sp_base m d s true) in
  match x with
  | 0 =>
      match z with
      | 0 =>
          if y =? 0 then mk M_nop Op_none Op_none
          else if y =? 1 then mk M_ex Op_af Op_af_alt
          else if y =? 2 then mk M_djnz Op_none Op_e
          else if y =? 3 then mk M_jr Op_none Op_e
          else mk M_jr Op_cc4 Op_e
      | 1 => if q =? 0 then mk M_ld Op_rr Op_nn else mk M_add Op_hl Op_rr
      | 2 =>
          if q =? 0 then
            if p <? 2 then mk M_ld Op_rr_ind Op_a
            else if p =? 2 then mk M_ld Op_nn_ind Op_hl else mk M_ld Op_nn_ind Op_a
          else if p <? 2 then mk M_ld Op_a Op_rr_ind
          else if p =? 2 then mk M_ld Op_hl Op_nn_ind else mk M_ld Op_a Op_nn_ind
      | 3 => mk (if q =? 0 then M_inc else M_dec) Op_rr Op_none
      | 4 => mk M_inc (if y =? 6 then Op_hl_ind else Op_r) Op_none
      | 5 => mk M_dec (if y =? 6 then Op_hl_ind else Op_r) Op_none
      | 6 => mk M_ld (if y =? 6 then Op_hl_ind else Op_r) Op_n
      | _ => mk (znth [M_rlca; M_rrca; M_rla; M_rra; M_daa; M_cpl; M_scf; M_ccf] y M_nop) Op_a Op_none
      end
  | 1 =>
      if (z =? 6) && (y =? 6) then mk M_halt Op_none Op_none
      else if z =? 6 then mk M_ld Op_r Op_hl_ind
      else if y =? 6 then mk M_ld Op_hl_ind Op_r
      else mk M_ld Op_r Op_r
  | 2 => mk (znth kAlu y M_nop) Op_a (if z =? 6 then Op_hl_ind else Op_r)
  | _ =>
      match z with
      | 0 => mk M_ret Op_cc Op_none
      | 1 =>
          if q =? 0 then mk M_pop Op_rr2 Op_none
          else if p =? 0 then mk M_ret Op_none Op_none
          else if p =? 1 then mk M_exx Op_none Op_none
          else if p =? 2 then mk M_jp Op_none Op_hl
          else mk M_ld Op_sp Op_hl
      | 2 => mk M_jp Op_cc Op_nn
      | 3 =>
          match y with
          | 0 => mk M_jp Op_none Op_nn
          | 1 => escape BK_escape_cb
          | 2 => mk M_out Op_n_port Op_a
          | 3 => mk M_in Op_a Op_n_port
          | 4 => mk M_ex Op_sp_ind Op_hl
          | 5 => mk M_ex Op_de Op_hl
          | 6 => mk M_di Op_none Op_none
          | _ => mk M_ei Op_none Op_none
          end
      | 4 => mk M_call Op_cc Op_nn
      | 5 =>
          if q =? 0 then mk M_push Op_none Op_rr2
          else if p =? 0 then mk M_call Op_none Op_nn
          else if p =? 1 then escape BK_escape_dd
          else if p =? 2 then escape BK_escape_ed
          else escape BK_escape_fd
      | 6 => mk (znth kAlu y M_nop) Op_a Op_n
      | _ => mk M_rst Op_none Op_p
      end
  end.

Definition classify_cb (b : Z) : Classified :=
  let x := b .>> 6 in
  let y := (b .>> 3) .& 7 in
  let z := b .& 7 in
  let target := if z =? 6 then Op_hl_ind else Op_r in
  let shift := znth kShift y M_nop in
  if x =? 0 then form (make Sp_cb shift target Op_none (negb (shift =b M_sll)))
  else
    let m := if x =? 1 then M_bit else if x =? 2 then M_res else M_set in
    form (make Sp_cb m Op_bit target true).

Definition classify_ed (b : Z) : Classified :=
  let nop := form (make Sp_ed M_nop Op_none Op_ed_undefined false) in
  let mk m d s := form (make Sp_ed m d s true) in
  if (64 <=? b) && (b <? 128) then
    let y := (b .>> 3) .& 7 in
    let z := b .& 7 in
    let p := y .>> 1 in
    let q := y .& 1 in
    match z with
    | 0 =>
        if y =? 6 then form (make Sp_ed M_in Op_flags_only Op_c_port false)
        else mk M_in Op_r Op_c_port
    | 1 =>
        if y =? 6 then form (make Sp_ed M_out Op_c_port Op_zero false)
        else mk M_out Op_c_port Op_r
    | 2 => mk (if q =? 0 then M_sbc else M_adc) Op_hl Op_rr
    | 3 =>
        if p =? 2 then
          let k := if q =? 0 then make Sp_ed M_ld Op_nn_ind Op_hl true
                   else make Sp_ed M_ld Op_hl Op_nn_ind true in
          form (mkKey (k_space k) (k_mnemonic k) (k_dst k) (k_src k) (k_documented k) true Sp_base)
        else if q =? 0 then mk M_ld Op_nn_ind Op_rr_ed else mk M_ld Op_rr_ed Op_nn_ind
    | 4 =>
        let k := make Sp_ed M_neg Op_a Op_none true in
        form (if y =? 0 then k else alias k Sp_ed)
    | 5 =>
        if y =? 1 then mk M_reti Op_none Op_none
        else
          let k := make Sp_ed M_retn Op_none Op_none true in
          form (if y =? 0 then k else alias k Sp_ed)
    | 6 =>
        let mode := [Op_im0; Op_im0; Op_im1; Op_im2; Op_im0; Op_im0; Op_im1; Op_im2] in
        let k := make Sp_ed M_im (znth mode y Op_none) Op_none true in
        form (if (y =? 0) || (y =? 2) || (y =? 3) then k else alias k Sp_ed)
    | _ =>
        match y with
        | 0 => mk M_ld Op_i Op_a
        | 1 => mk M_ld Op_r_refresh Op_a
        | 2 => mk M_ld Op_a Op_i
        | 3 => mk M_ld Op_a Op_r_refresh
        | 4 => mk M_rrd Op_a Op_hl_ind
        | 5 => mk M_rld Op_a Op_hl_ind
        | _ => nop
        end
    end
  else if (160 <=? b) && (b <? 192) && (b .& 4 =? 0) then
    let y := (b .>> 3) .& 7 in
    let z := b .& 3 in
    let block :=
      [[M_ldi; M_cpi; M_ini; M_outi]; [M_ldd; M_cpd; M_ind; M_outd];
       [M_ldir; M_cpir; M_inir; M_otir]; [M_lddr; M_cpdr; M_indr; M_otdr]] in
    mk (znth (znth block (y - 4) []) z M_nop) Op_none Op_none
  else nop.

Definition classify_index (space : Space) (b : Z) : Classified :=
  let iy := space =b Sp_fd in
  let ix := if iy then Op_iy else Op_ix in
  let ixd := if iy then Op_iy_d else Op_ix_d in
  let half := if iy then Op_iy_half else Op_ix_half in
  let rr_ix := if iy then Op_rr_iy else Op_rr_ix in
  let mkd m d s doc := form (make space m d s doc) in
  let mk m d s := mkd m d s true in
  let ignored := mkClassified BK_prefix_ignored (c_key (classify_base b)) in
  match b with
  | 0x09 | 0x19 | 0x29 | 0x39 => mk M_add ix rr_ix
  | 0x21 => mk M_ld ix Op_nn
  | 0x22 => mk M_ld Op_nn_ind ix
  | 0x23 => mk M_inc ix Op_none
  | 0x24 | 0x2C => mkd M_inc half Op_none false
  | 0x25 | 0x2D => mkd M_dec half Op_none false
  | 0x26 | 0x2E => mkd M_ld half Op_n false
  | 0x2A => mk M_ld ix Op_nn_ind
  | 0x2B => mk M_dec ix Op_none
  | 0x34 => mk M_inc ixd Op_none
  | 0x35 => mk M_dec ixd Op_none
  | 0x36 => mk M_ld ixd Op_n
  | 0xCB => escape (if iy then BK_escape_fdcb else BK_escape_ddcb)
  | 0xDD | 0xFD => escape BK_prefix_chain
  | 0xED => escape BK_prefix_ignored_before_ed
  | 0xE1 => mk M_pop ix Op_none
  | 0xE3 => mk M_ex Op_sp_ind ix
  | 0xE5 => mk M_push Op_none ix
  | 0xE9 => mk M_jp Op_none ix
  | 0xF9 => mk M_ld Op_sp ix
  | _ =>
      let x := b .>> 6 in
      let y := (b .>> 3) .& 7 in
      let z := b .& 7 in
      let y_half := (y =? 4) || (y =? 5) in
      let z_half := (z =? 4) || (z =? 5) in
      if (x =? 1) && negb (b =? 0x76) then
        if z =? 6 then mk M_ld Op_r ixd
        else if y =? 6 then mk M_ld ixd Op_r
        else if y_half && z_half then mkd M_ld half half false
        else if y_half then mkd M_ld half Op_r false
        else if z_half then mkd M_ld Op_r half false
        else ignored
      else if x =? 2 then
        if z =? 6 then mk (znth kAlu y M_nop) Op_a ixd
        else if z_half then mkd (znth kAlu y M_nop) Op_a half false
        else ignored
      else ignored
  end.

Definition classify_indexed_cb (space : Space) (b : Z) : Classified :=
  let iy := space =b Sp_fdcb in
  let ixd := if iy then Op_iy_d else Op_ix_d in
  let copy := if iy then Op_iy_d_copy_r else Op_ix_d_copy_r in
  let x := b .>> 6 in
  let y := (b .>> 3) .& 7 in
  let z := b .& 7 in
  if x =? 0 then
    let m := znth kShift y M_nop in
    if z =? 6 then form (make space m ixd Op_none (negb (m =b M_sll)))
    else form (make space m copy Op_none false)
  else if x =? 1 then
    let k := make space M_bit Op_bit ixd true in
    form (if z =? 6 then k else alias k space)
  else
    let m := if x =? 2 then M_res else M_set in
    if z =? 6 then form (make space m Op_bit ixd true)
    else form (make space m Op_bit copy false).

Definition classify_key (space : Space) (b : Z) : Classified :=
  match space with
  | Sp_base => classify_base b
  | Sp_cb => classify_cb b
  | Sp_ed => classify_ed b
  | Sp_dd | Sp_fd => classify_index space b
  | _ => classify_indexed_cb space b
  end.

(** * Descriptor layout and timing *)

Definition immediate_bytes (k : Key) : Z :=
  let size o :=
    match o with
    | Op_n | Op_e | Op_n_port => 1
    | Op_nn | Op_nn_ind => 2
    | _ => 0
    end in
  u8 (size (k_dst k) + size (k_src k)).

Definition is_indexed_d (o : Operand) : bool :=
  (o =b Op_ix_d) || (o =b Op_iy_d) || (o =b Op_ix_d_copy_r) || (o =b Op_iy_d_copy_r).

Definition fixed (t : Z) : Timing := mkTiming TC_fixed (u16 t) 0.
Definition cond (not_taken taken : Z) : Timing :=
  mkTiming TC_conditional (u16 not_taken) (u16 taken).

Definition is_alu (m : Mnemonic) : bool :=
  (m =b M_add) || (m =b M_adc) || (m =b M_sub) || (m =b M_sbc) ||
  (m =b M_and_) || (m =b M_xor_) || (m =b M_or_) || (m =b M_cp).

Definition timing_of (k : Key) : Timing :=
  let m := k_mnemonic k in
  let d := k_dst k in
  let s := k_src k in
  match k_space k with
  | Sp_base =>
      let rest :=
        if is_alu m then fixed (if (s =b Op_hl_ind) || (s =b Op_n) then 7 else 4)
        else fixed 4 in
      match m with
      | M_halt => mkTiming TC_halt 4 4
      | M_djnz => cond 8 13
      | M_jr => if d =b Op_cc4 then cond 7 12 else fixed 12
      | M_ret => if d =b Op_cc then cond 5 11 else fixed 10
      | M_call => if d =b Op_cc then cond 10 17 else fixed 17
      | M_jp => if s =b Op_hl then fixed 4 else fixed 10
      | M_push => fixed 11
      | M_pop => fixed 10
      | M_rst => fixed 11
      | M_out | M_in => fixed 11
      | M_ex => if d =b Op_sp_ind then fixed 19 else fixed 4
      | M_add => if d =b Op_hl then fixed 11 else rest
      | M_inc | M_dec =>
          if d =b Op_rr then fixed 6
          else if d =b Op_hl_ind then fixed 11
          else fixed 4
      | M_ld =>
          if d =b Op_rr then fixed 10
          else if d =b Op_sp then fixed 6
          else if (d =b Op_rr_ind) || (s =b Op_rr_ind) then fixed 7
          else if (d =b Op_nn_ind) || (s =b Op_nn_ind) then
            fixed (if (d =b Op_hl) || (s =b Op_hl) then 16 else 13)
          else if (d =b Op_hl_ind) && (s =b Op_n) then fixed 10
          else if (d =b Op_hl_ind) || (s =b Op_hl_ind) || (s =b Op_n) then fixed 7
          else fixed 4
      | _ => rest
      end
  | Sp_cb =>
      if m =b M_bit then fixed (if s =b Op_hl_ind then 12 else 8)
      else fixed (if (d =b Op_hl_ind) || (s =b Op_hl_ind) then 15 else 8)
  | Sp_ed =>
      match m with
      | M_nop | M_neg | M_im => fixed 8
      | M_in | M_out => fixed 12
      | M_sbc | M_adc => fixed 15
      | M_ld => if (d =b Op_nn_ind) || (s =b Op_nn_ind) then fixed 20 else fixed 9
      | M_retn | M_reti => fixed 14
      | M_rrd | M_rld => fixed 18
      | M_ldir | M_cpir | M_inir | M_otir | M_lddr | M_cpdr | M_indr | M_otdr =>
          mkTiming TC_repeat 16 21
      | _ => fixed 16
      end
  | Sp_dd | Sp_fd =>
      let ixd := is_indexed_d d || is_indexed_d s in
      let half := (d =b Op_ix_half) || (d =b Op_iy_half) || (s =b Op_ix_half) || (s =b Op_iy_half) in
      if is_alu m && (d =b Op_a) then fixed (if ixd then 19 else 8)
      else
        match m with
        | M_add => fixed 15
        | M_ld =>
            if ixd then fixed 19
            else if half then fixed (if s =b Op_n then 11 else 8)
            else if (d =b Op_nn_ind) || (s =b Op_nn_ind) then fixed 20
            else if d =b Op_sp then fixed 10
            else fixed 14
        | M_inc | M_dec => fixed (if ixd then 23 else if half then 8 else 10)
        | M_pop => fixed 14
        | M_push => fixed 15
        | M_ex => fixed 23
        | _ => fixed 8
        end
  | _ => fixed (if m =b M_bit then 20 else 23)
  end.

(** * The interned tables *)

Record Tables := mkTables {
  t_forms : list FormDescriptor;
  t_bytes : list (list ByteClass);
}.

(** [std::find] in the keys, or append: the (possibly extended) keys and the id. *)
Definition intern (keys : list Key) (key : Key) : list Key * Z :=
  match list_find (fun k => k = key) keys with
  | Some (i, _) => (keys, u16 (Z.of_nat i))
  | None => (keys ++ [key], u16 (zlen (keys ++ [key]) - 1))
  end.

(** The inner loop of [build] over the 256 bytes of one space. *)
Definition build_row (space : Space) (keys : list Key) : list Key * list ByteClass :=
  zfor 0 256 (fun b '(keys, row) =>
    let c := classify_key space b in
    if (c_kind c =b BK_form) || (c_kind c =b BK_prefix_ignored) then
      let '(keys, id) := intern keys (c_key c) in
      (keys, row ++ [mkByteClass (c_kind c) id])
    else (keys, row ++ [mkByteClass (c_kind c) kNoForm])) (keys, []).

Definition build_keys : list Key * list (list ByteClass) :=
  foldl (fun '(keys, bytes) space =>
    let '(keys, row) := build_row space keys in (keys, bytes ++ [row])) ([], []) space_values.

(** The body of the second loop of [build]: the descriptor of key [i]. *)
Definition describe (i : nat) (k : Key) : FormDescriptor :=
  let indexed_cb := (k_space k =b Sp_ddcb) || (k_space k =b Sp_fdcb) in
  let prefixed := negb (k_space k =b Sp_base) in
  let opcode_index := if indexed_cb then 3 else if prefixed then 1 else 0 in
  let next := u8 (opcode_index + 1) in
  let indexed := is_indexed_d (k_dst k) || is_indexed_d (k_src k) in
  let imm := immediate_bytes k in
  let next1 := if indexed then u8 (next + 1) else next in
  {| f_id := u16 (Z.of_nat i);
     f_space := k_space k;
     f_mnemonic := k_mnemonic k;
     f_dst := k_dst k;
     f_src := k_src k;
     f_documented := k_documented k;
     f_alias_of := kNoForm;
     f_m1_fetches := if k_space k =b Sp_base then 1 else 2;
     f_opcode_index := opcode_index;
     f_displacement_index := if indexed_cb then 2 else if indexed then next else kNoIndex;
     f_immediate_index := if indexed_cb then kNoIndex else if imm =? 0 then kNoIndex else next1;
     f_immediate_size := if indexed_cb then 0 else imm;
     f_length := if indexed_cb then 4 else u8 (next1 + imm);
     f_timing := timing_of k |}.

(** The inner search of the third loop of [build]. *)
Definition alias_matches (target k : Key) : bool :=
  (k_space k =b k_space target) && (k_mnemonic k =b k_mnemonic target) &&
  (k_dst k =b k_dst target) && (k_src k =b k_src target) && k_documented k && negb (k_has_alias k).

Definition alias_target (keys : list Key) (k : Key) : Z :=
  let target := mkKey (k_alias_space k) (k_mnemonic k) (k_dst k) (k_src k) true false (k_alias_space k) in
  match list_find (fun k' => alias_matches target k' = true) keys with
  | Some (j, _) => u16 (Z.of_nat j)
  | None => kNoForm
  end.

Definition set_alias (keys : list Key) (k : Key) (f : FormDescriptor) : FormDescriptor :=
  if k_has_alias k then
    {| f_id := f_id f; f_space := f_space f; f_mnemonic := f_mnemonic f; f_dst := f_dst f;
       f_src := f_src f; f_documented := f_documented f; f_alias_of := alias_target keys k;
       f_length := f_length f; f_m1_fetches := f_m1_fetches f; f_opcode_index := f_opcode_index f;
       f_displacement_index := f_displacement_index f; f_immediate_index := f_immediate_index f;
       f_immediate_size := f_immediate_size f; f_timing := f_timing f |}
  else f.

Definition build_forms (keys : list Key) : list FormDescriptor :=
  imap (fun i k => set_alias keys k (describe i k)) keys.

Definition build : Tables := mkTables (build_forms (fst build_keys)) (snd build_keys).

(** The function-local static of [tables()], evaluated once. *)
Definition tables : Tables := Eval vm_compute in build.

Definition all_forms : list FormDescriptor := t_forms tables.

(** [FormDescriptor{}]: the value of an access that the source's assertion excludes. *)
Definition default_descriptor : FormDescriptor :=
  {| f_id := kNoForm; f_space := Sp_base; f_mnemonic := M_nop; f_dst := Op_none; f_src := Op_none;
     f_documented := true; f_alias_of := kNoForm; f_length := 1; f_m1_fetches := 1;
     f_opcode_index := 0; f_displacement_index := kNoIndex; f_immediate_index := kNoIndex;
     f_immediate_size := 0; f_timing := mkTiming TC_fixed 0 0 |}.

(** The precondition [assert(id < tables().forms.size())]. *)
Definition valid_form (id : Z) : Prop := 0 <= id < zlen all_forms.

Definition form_descriptor (id : Z) : FormDescriptor := znth all_forms id default_descriptor.

Definition classify_opcode_byte (space : Space) (byte : Z) : ByteClass :=
  znth (znth (t_bytes tables) (space_index space) []) byte (mkByteClass BK_form kNoForm).

(** * Diagnostic names *)

Open Scope string_scope.

Definition kSpaceNames : list string := ["base"; "cb"; "ed"; "dd"; "fd"; "ddcb"; "fdcb"].

Definition kMnemonicNames : list string :=
  ["NOP"; "LD"; "INC"; "DEC"; "RLCA"; "RRCA"; "RLA"; "RRA"; "EX"; "ADD"; "DJNZ"; "JR"; "DAA";
   "CPL"; "SCF"; "CCF"; "HALT"; "ADC"; "SUB"; "SBC"; "AND"; "XOR"; "OR"; "CP"; "RET"; "POP"; "JP";
   "CALL"; "PUSH"; "RST"; "EXX"; "OUT"; "IN"; "DI"; "EI"; "RLC"; "RRC"; "RL"; "RR"; "SLA"; "SRA";
   "SLL"; "SRL"; "BIT"; "RES"; "SET"; "NEG"; "RETN"; "RETI"; "IM"; "RRD"; "RLD"; "LDI"; "CPI";
   "INI"; "OUTI"; "LDD"; "CPD"; "IND"; "OUTD"; "LDIR"; "CPIR"; "INIR"; "OTIR"; "LDDR"; "CPDR";
   "INDR"; "OTDR"].

Definition kOperandNames : list string :=
  ["none"; "a"; "r"; "rr"; "rr2"; "rr_ind"; "hl"; "hl_ind"; "de"; "sp"; "sp_ind"; "nn"; "n"; "e";
   "p"; "cc"; "cc4"; "bit"; "af"; "af_alt"; "i"; "r_refresh"; "im0"; "im1"; "im2"; "n_port";
   "c_port"; "nn_ind"; "flags_only"; "zero"; "ed_undefined"; "rr_ed"; "ix"; "iy"; "ix_d"; "iy_d";
   "ix_half"; "iy_half"; "rr_ix"; "rr_iy"; "ix_d_copy_r"; "iy_d_copy_r"].

Definition space_name (v : Space) : string := znth kSpaceNames (space_index v) "".
Definition mnemonic_name (v : Mnemonic) : string := znth kMnemonicNames (mnemonic_index v) "".
Definition operand_name (v : Operand) : string := znth kOperandNames (operand_index v) "".

Definition byte_class_name (kind : ByteClassKind) : string :=
  match kind with
  | BK_form => "form"
  | BK_escape_cb => "escape_cb"
  | BK_escape_ed => "escape_ed"
  | BK_escape_dd => "escape_dd"
  | BK_escape_fd => "escape_fd"
  | BK_escape_ddcb => "escape_ddcb"
  | BK_escape_fdcb => "escape_fdcb"
  | BK_prefix_chain => "prefix_chain"
  | BK_prefix_ignored => "prefix_ignored"
  | BK_prefix_ignored_before_ed => "prefix_ignored_before_ed"
  end.

(** [std::transform] with [c | 0x20]. *)
Definition to_lower (s : string) : string :=
  String.string_of_list_ascii
    (map (fun c => Ascii.ascii_of_N (N.lor (Ascii.N_of_ascii c) 32)) (String.list_ascii_of_string s)).

Definition form_name (id : Z) : string :=
  let f := form_descriptor id in
  let name := to_lower (mnemonic_name (f_mnemonic f)) in
  let operands := if f_dst f =b Op_none then "" else operand_name (f_dst f) in
  let operands :=
    if f_src f =b Op_none then operands
    else String.append operands
           (String.append (if operands =b "" then "" else "_") (operand_name (f_src f))) in
  let name := if operands =b "" then name else String.append name (String.append "." operands) in
  let name := String.append name (String.append "." (space_name (f_space f))) in
  if negb (Z.eqb (f_alias_of f) kNoForm) && negb (f_documented f) then String.append name ".alias"
  else if negb (f_documented f) then String.append name ".undoc"
  else name.

Close Scope string_scope.

(** * Properties of the tables *)

(** The kinds whose byte class carries a form. *)
Definition carries_form (kind : ByteClassKind) : bool :=
  (kind =b BK_form) || (kind =b BK_prefix_ignored).

(** [f] is the descriptor of key [k]. *)
Definition describes (f : FormDescriptor) (k : Key) : Prop :=
  f_space f = k_space k /\ f_mnemonic f = k_mnemonic k /\ f_dst f = k_dst k /\
  f_src f = k_src k /\ f_documented f = k_documented k /\ f_timing f = timing_of k /\
  f_immediate_size f = immediate_bytes k.

#[export] Instance describes_dec f k : Decision (describes f k).
Proof. unfold describes. apply _. Defined.

#[export] Instance valid_form_dec id : Decision (valid_form id).
Proof. unfold valid_form. apply _. Defined.

(** [find] or append keeps the keys distinct, never moves a key, and returns
    the index of the key it was given. *)
Lemma intern_spec keys key keys' id :
  NoDup keys -> zlen keys < 65535 -> intern keys key = (keys', id) ->
  NoDup keys' /\ keys `prefix_of` keys' /\ 0 <= id < zlen keys' /\ keys' !! Z.to_nat id = Some key.
Proof.
  intros Hnd Hlen. unfold intern. pose proof (zlen_nonneg keys).
  destruct (list_find _ keys) as [[i k]|] eqn:Hf; intros [= <- <-].
  - apply list_find_Some in Hf as (Hi & -> & _).
    pose proof (lookup_lt_Some _ _ _ Hi) as Hlt. unfold zlen in *.
    rewrite u16_id by (unfold is_u16; lia). rewrite Nat2Z.id.
    split_and!; [done|done|lia|lia|done].
  - apply list_find_None in Hf. rewrite zlen_app, zlen_cons.
    change (zlen (@nil Key)) with 0. rewrite u16_id by (unfold is_u16; lia).
    replace (zlen keys + (1 + 0) - 1) with (zlen keys) by lia.
    split_and!; [|by eexists|lia|lia|].
    + apply NoDup_app. split; [done|]. split; [|apply NoDup_singleton].
      intros x Hx ->%list_elem_of_singleton. rewrite Forall_forall in Hf. by apply (Hf key).
    + unfold zlen. rewrite Nat2Z.id, lookup_app_r, Nat.sub_diag by lia. done.
Qed.

(** The evaluated table is the one [build] computes. *)
Lemma tables_build : tables = build.
Proof. by_evaluation. Qed.

#[export] Instance byte_class_kind_match_dec (k : ByteClassKind) (P0 P1 P2 P3 P4 P5 P6 P7 P8 P9 : Prop)
  `{!Decision P0} `{!Decision P1} `{!Decision P2} `{!Decision P3} `{!Decision P4} `{!Decision P5}
  `{!Decision P6} `{!Decision P7} `{!Decision P8} `{!Decision P9} :
  Decision (match k with
            | BK_form => P0 | BK_escape_cb => P1 | BK_escape_ed => P2 | BK_escape_dd => P3
            | BK_escape_fd => P4 | BK_escape_ddcb => P5 | BK_escape_fdcb => P6
            | BK_prefix_chain => P7 | BK_prefix_ignored => P8 | BK_prefix_ignored_before_ed => P9 end).
Proof. destruct k; assumption. Defined.

#[export] Instance space_match_dec (k : Space) (P0 P1 P2 P3 P4 P5 P6 : Prop)
  `{!Decision P0} `{!Decision P1} `{!Decision P2} `{!Decision P3} `{!Decision P4} `{!Decision P5}
  `{!Decision P6} :
  Decision (match k with
            | Sp_base => P0 | Sp_cb => P1 | Sp_ed => P2 | Sp_dd => P3 | Sp_fd => P4
            | Sp_ddcb => P5 | Sp_fdcb => P6 end).
Proof. destruct k; assumption. Defined.

(** The interned tables are equivalent to the direct classification: for
    every opcode space and byte, [classify_opcode_byte] has the kind that
    [classify_key] computes; when that kind carries a form, the id is a valid
    index of [all_forms], the descriptor there has that id and describes
    exactly the key (space, mnemonic, operand classes, documented flag, timing
    and immediate size); every other kind carries [kNoForm]. *)
Theorem classify_opcode_byte_spec (space : Space) (b : Z) (Hb : 0 <= b < 256) :
  let c := classify_key space b in
  let bc := classify_opcode_byte space b in
  bc_kind bc = c_kind c /\
  if carries_form (c_kind c)
  then valid_form (bc_form bc) /\ f_id (form_descriptor (bc_form bc)) = bc_form bc /\
       describes (form_descriptor (bc_form bc)) (c_key c)
  else bc_form bc = kNoForm.
Proof.
  revert space b Hb. by_enum_byte.
Qed.

Lemma classify_opcode_byte_spec_witness :
  let bc := classify_opcode_byte Sp_ed 0x4C in
  bc_kind bc = BK_form /\ describes (form_descriptor (bc_form bc)) (alias (make Sp_ed M_neg Op_a Op_none true) Sp_ed).
Proof.
  destruct (classify_opcode_byte_spec Sp_ed 0x4C ltac:(lia)) as (Hk & _ & _ & Hd).
  split; [exact Hk|exact Hd].
Defined.

(** Where the operand bytes of a canonical instruction lie: right after the
    opcode byte, displacement first, filling the instruction exactly. *)
Definition layout_ok (f : FormDescriptor) : Prop :=
  let displaced := negb (f_displacement_index f =? kNoIndex) in
  let indexed_cb := (f_space f =b Sp_ddcb) || (f_space f =b Sp_fdcb) in
  f_length f <= 4 /\ 0 <= f_opcode_index f < f_length f /\
  0 <= f_immediate_size f <= 2 /\
  (if indexed_cb
   then f_length f = 4 /\ f_opcode_index f = 3 /\ f_displacement_index f = 2 /\
        f_immediate_size f = 0 /\ f_immediate_index f = kNoIndex
   else
     (if displaced then f_displacement_index f = f_opcode_index f + 1 else True) /\
     (if f_immediate_size f =? 0 then f_immediate_index f = kNoIndex
      else f_immediate_index f = f_opcode_index f + 1 + (if displaced then 1 else 0)) /\
     f_length f = f_opcode_index f + 1 + (if displaced then 1 else 0) + f_immediate_size f).

#[export] Instance layout_ok_dec f : Decision (layout_ok f).
Proof. unfold layout_ok. apply _. Defined.

Lemma valid_form_forall (P : Z -> Prop) `{!forall id, Decision (P id)} :
  forallb (fun id => bool_decide (P id)) (seqZ 0 (zlen all_forms)) = true ->
  forall id, valid_form id -> P id.
Proof. intros Hall id Hid. exact (range_decide P _ Hall id Hid). Qed.

Ltac by_valid_form :=
  cbv zeta;
  match goal with
  | |- forall id, valid_form id -> @?P id => refine (valid_form_forall P _); by_evaluation
  end.

Lemma layout_ok_all id : valid_form id -> layout_ok (form_descriptor id).
Proof. revert id. by_valid_form. Qed.

(** The position of the opcode byte is a function of the space. *)
Lemma opcode_index_all id :
  valid_form id ->
  f_opcode_index (form_descriptor id) =
    match f_space (form_descriptor id) with
    | Sp_base => 0
    | Sp_ddcb | Sp_fdcb => 3
    | _ => 1
    end.
Proof. revert id. by_valid_form. Qed.

(** The kinds each space can produce, and the space of the form they carry. *)
Lemma space_kinds space b :
  0 <= b < 256 ->
  let bc := classify_opcode_byte space b in
  let f := form_descriptor (bc_form bc) in
  match bc_kind bc with
  | BK_form => valid_form (bc_form bc) /\ f_space f = space
  | BK_prefix_ignored =>
      (space = Sp_dd \/ space = Sp_fd) /\ valid_form (bc_form bc) /\ f_space f = Sp_base /\
      bc_form bc = bc_form (classify_opcode_byte Sp_base b)
  | BK_prefix_ignored_before_ed => space = Sp_dd \/ space = Sp_fd
  | BK_prefix_chain => b = 0xDD \/ b = 0xFD
  | BK_escape_cb | BK_escape_ed => space = Sp_base
  | BK_escape_dd => b = 0xDD
  | BK_escape_fd => b = 0xFD
  | BK_escape_ddcb => space = Sp_dd
  | BK_escape_fdcb => space = Sp_fd
  end /\
  match space with
  | Sp_cb | Sp_ed | Sp_ddcb | Sp_fdcb => bc_kind bc = BK_form
  | _ => True
  end.
Proof.
  intros Hb. cbv zeta. revert space b Hb.
  refine (enum_byte_decide (fun space b => _ /\ _) _).
  by_evaluation.
Qed.

(** Every form's byte layout is well formed: the instruction has at most
    four bytes, the opcode byte is inside it, and the displacement and
    immediate bytes follow it contiguously and fill it exactly, so the
    length always equals opcode index + 1 + operand bytes (and an indexed CB
    form is always prefix, CB, displacement, opcode).  At most three operand
    bytes exist, which is the size of [Provenance::operands]. *)
Theorem form_layout_ok (id : Z) (Hid : valid_form id) :
  layout_ok (form_descriptor id) /\
  f_length (form_descriptor id) - f_opcode_index (form_descriptor id) - 1 <= 3.
Proof.
  pose proof (layout_ok_all id Hid) as Hl. split; [exact Hl|].
  destruct Hl as (Hlen & Hop & _). lia.
Qed.

Lemma form_layout_ok_witness : layout_ok (form_descriptor 20) /\ f_length (form_descriptor 20) = 3.
Proof.
  split; [|reflexivity]. apply (form_layout_ok 20). vm_compute. split; discriminate || reflexivity.
Defined.

(** The DD and FD spaces are exactly the base space under a prefix: a byte
    is a superseded prefix iff it is DD or FD; a byte the index spaces do not
    redefine is [prefix_ignored] and carries exactly the form that the base
    space executes for it; and no byte of any space other than DD, FD, CB, ED
    is an escape, so after a prefix scan the lead byte always yields a form or
    one of the CB/ED continuations. *)
Theorem prefix_space_refines_base (space : Space) (b : Z) (Hb : 0 <= b < 256) :
  space = Sp_dd \/ space = Sp_fd ->
  let bc := classify_opcode_byte space b in
  let base := classify_opcode_byte Sp_base b in
  (bc_kind bc = BK_prefix_chain <-> b = 0xDD \/ b = 0xFD) /\
  (bc_kind bc = BK_prefix_ignored -> bc_kind base = BK_form /\ bc_form bc = bc_form base) /\
  (bc_kind bc = BK_prefix_ignored_before_ed <-> bc_kind base = BK_escape_ed) /\
  (bc_kind bc = BK_form -> f_space (form_descriptor (bc_form bc)) = space) /\
  (bc_kind base = BK_escape_cb <-> bc_kind bc = if space =b Sp_fd then BK_escape_fdcb else BK_escape_ddcb).
Proof. revert space b Hb. by_enum_byte. Qed.

Lemma prefix_space_refines_base_witness :
  bc_kind (classify_opcode_byte Sp_dd 0x78) = BK_prefix_ignored /\
  bc_form (classify_opcode_byte Sp_dd 0x78) = bc_form (classify_opcode_byte Sp_base 0x78).
Proof.
  destruct (prefix_space_refines_base Sp_dd 0x78 ltac:(lia) ltac:(by left)) as (_ & Hi & _).
  split; [reflexivity|]. by apply Hi.
Defined.

(** Alias resolution: a form names an alias target iff its encoding was
    declared an alias; the target is a valid documented form that is not
    itself an alias, with the same mnemonic, operand classes, immediate size
    and, except for the ED copies of base-space loads, the same timing. *)
Theorem form_alias_resolved (id : Z) (Hid : valid_form id) :
  let f := form_descriptor id in
  let g := form_descriptor (f_alias_of f) in
  f_alias_of f <> kNoForm ->
  valid_form (f_alias_of f) /\ f_documented g = true /\ f_alias_of g = kNoForm /\
  f_mnemonic g = f_mnemonic f /\ f_dst g = f_dst f /\ f_src g = f_src f /\
  f_immediate_size g = f_immediate_size f /\
  (f_space g = f_space f -> f_timing g = f_timing f /\ f_length g = f_length f) /\
  (f_space g <> f_space f -> f_space g = Sp_base /\ f_documented f = true /\
     primary (f_timing f) = primary (f_timing g) + 4).
Proof. revert id Hid. by_valid_form. Qed.

Lemma form_alias_resolved_witness :
  form_name 117 = "ld.nn_ind_hl.ed"%string /\ valid_form (f_alias_of (form_descriptor 117)).
Proof.
  split; [reflexivity|].
  apply (form_alias_resolved 117); vm_compute; [split; discriminate || reflexivity|discriminate].
Defined.

Lemma form_names_NoDup : NoDup (map form_name (seqZ 0 (zlen all_forms))).
Proof. apply (bool_decide_eq_true _). by_evaluation. Qed.

(** Diagnostic names identify forms: two valid form ids with the same name
    are the same form. *)
Theorem form_name_injective (i j : Z) (Hi : valid_form i) (Hj : valid_form j) :
  form_name i = form_name j -> i = j.
Proof.
  intros E. pose proof form_names_NoDup as Hnd.
  assert (Hn : forall k, valid_form k ->
            (form_name <$> seqZ 0 (zlen all_forms)) !! Z.to_nat k = Some (form_name k)).
  { intros k Hk. unfold valid_form in Hk. rewrite list_lookup_fmap, lookup_seqZ_lt by lia.
    cbn. do 2 f_equal. lia. }
  pose proof (Hn i Hi) as Li. pose proof (Hn j Hj) as Lj. rewrite E in Li.
  pose proof (NoDup_lookup _ _ _ _ Hnd Li Lj). unfold valid_form in *. lia.
Qed.

Lemma form_name_injective_witness : form_name 5 = form_name 5 /\ 5 = 5.
Proof.
  split; [reflexivity|].
  apply (form_name_injective 5 5); [vm_compute; split; discriminate || reflexivity..|reflexivity].
Defined.
