(* ===== verification/Z80Decode.v ===== *)
(** The generation-time Z80 decoder: [libs/cpu/z80/include/segarecomp/cpu/z80/decode.hpp]
    and [libs/cpu/z80/src/decode.cpp].

    [decode_at] classifies one start over a logical fetch function;
    [classify_all] classifies all 65,536 starts with a precomputed table of
    prefix-run ends.  The theorems show that the two agree at every start, that
    decoding terminates and never reports [excluded_form], that a decoded start
    can be replayed byte for byte with its fields where its form says they are,
    and that a decode depends only on the bytes it consumed. *)

From S2P Require Import Prelude Z80Forms.

(** * Data *)

Inductive FetchKind : Type := FK_byte | FK_unresolved_mapping | FK_non_code.

#[export] Instance fetch_kind_eq_dec : EqDecision FetchKind.
Proof. solve_decision. Defined.

Record FetchedByte := mkFetched {
  fb_kind : FetchKind;
  fb_value : Z;
  fb_image_id : Z;
  fb_image_offset : Z;
}.

#[export] Instance fetched_byte_eq_dec : EqDecision FetchedByte.
Proof. solve_decision. Defined.

(** [FetchedByte{}]. *)
Definition default_fetched : FetchedByte := mkFetched FK_non_code 0 0 0.

(** [LogicalFetch::fetch]: a pure function of the 16-bit address. *)
Definition LogicalFetch : Type := Z -> FetchedByte.

(** What the C++ types of the callback guarantee: the value is a byte. *)
Class FetchTyped (fetch : LogicalFetch) : Prop :=
  fetch_u8 : forall a, is_u8 (fb_value (fetch a)).

Inductive EffectivePrefix : Type := EP_none | EP_dd | EP_fd.

#[export] Instance effective_prefix_eq_dec : EqDecision EffectivePrefix.
Proof. solve_decision. Defined.

Record Provenance := mkProvenance {
  p_image_id : Z;
  p_address : Z;
  p_image_offset : Z;
  p_logical_byte_count : Z;
  p_prefix_count : Z;
  p_effective_prefix : EffectivePrefix;
  p_form : Z;
  p_opcode : Z;
  p_operands : list Z;
  p_operand_count : Z;
}.

#[export] Instance provenance_eq_dec : EqDecision Provenance.
Proof. solve_decision. Defined.

Record DecodedInstruction := mkDecoded {
  di_provenance : Provenance;
  di_form : Z;
  di_extra_prefix_count : Z;
}.

#[export] Instance decoded_instruction_eq_dec : EqDecision DecodedInstruction.
Proof. solve_decision. Defined.

Inductive StartKind : Type :=
| SK_decoded | SK_prefix_lock | SK_unresolved_fetch_mapping | SK_mutable_code | SK_excluded_form.

#[export] Instance start_kind_eq_dec : EqDecision StartKind.
Proof. solve_decision. Defined.

Record StartClassification := mkStart {
  sc_kind : StartKind;
  sc_instruction : DecodedInstruction;
  sc_blocking_address : Z;
}.

#[export] Instance start_classification_eq_dec : EqDecision StartClassification.
Proof. solve_decision. Defined.

(** The value-initialised records. *)
Definition default_provenance : Provenance :=
  mkProvenance 0 0 0 0 0 EP_none kNoForm 0 [0; 0; 0] 0.
Definition default_instruction : DecodedInstruction := mkDecoded default_provenance kNoForm 0.
Definition default_start : StartClassification := mkStart SK_excluded_form default_instruction 0.

(** * Decoding *)

Definition kAddressSpace : Z := 65536.
Definition kDd : Z := 0xDD.
Definition kFd : Z := 0xFD.

Definition is_byte (b : FetchedByte) : bool := fb_kind b =b FK_byte.

Definition is_prefix (b : FetchedByte) : bool :=
  is_byte b && ((fb_value b =? kDd) || (fb_value b =? kFd)).

Definition blocked (b : FetchedByte) (address : Z) : StartClassification :=
  mkStart (if fb_kind b =b FK_unresolved_mapping then SK_unresolved_fetch_mapping else SK_mutable_code)
    default_instruction address.

(** The operand loop of [finish]: [n] bytes from [op_addr + consumed + i], into
    [prov.operands]; the first unresolved byte stops it. *)
Fixpoint read_operands (get : LogicalFetch) (base : Z) (n : nat) (i : Z) (operands : list Z)
  : result (FetchedByte * Z) (list Z) :=
  match n with
  | O => Ok operands
  | S n' =>
      let address := u16 (base + i) in
      let b := get address in
      if negb (is_byte b) then Err (b, address)
      else read_operands get base n' (i + 1) (<[Z.to_nat i := fb_value b]> operands)
  end.

(** [finish] from the form on: the provenance and the operand bytes. *)
Definition complete (get : LogicalFetch) (start : Z) (first : FetchedByte) (prefix_count : Z)
    (effective : EffectivePrefix) (op_addr form extra opcode consumed : Z) : StartClassification :=
  let desc := form_descriptor form in
  let decoded operands operand_count consumed :=
    mkStart SK_decoded
      (mkDecoded
         (mkProvenance (fb_image_id first) start (fb_image_offset first)
            (u32 (prefix_count + consumed)) prefix_count effective form opcode operands operand_count)
         form extra) 0 in
  if (f_space desc =b Sp_ddcb) || (f_space desc =b Sp_fdcb) then
    decoded (<[0%nat := fb_value (get (u16 (op_addr + 1)))]> [0; 0; 0]) 1 consumed
  else
    let operand_total := u8 (f_length desc - f_opcode_index desc - 1) in
    match read_operands get (op_addr + consumed) (Z.to_nat operand_total) 0 [0; 0; 0] with
    | Err (b, address) => blocked b address
    | Ok operands => decoded operands operand_total (u32 (consumed + operand_total))
    end.

Definition lead_space (effective : EffectivePrefix) : Space :=
  match effective with EP_dd => Sp_dd | EP_fd => Sp_fd | EP_none => Sp_base end.

Definition finish (get : LogicalFetch) (start : Z) (first : FetchedByte) (prefix_count : Z)
    (effective : EffectivePrefix) (op_addr : Z) : StartClassification :=
  let op := get op_addr in
  if negb (is_byte op) then blocked op op_addr
  else
    let lead_class := classify_opcode_byte (lead_space effective) (fb_value op) in
    let complete := complete get start first prefix_count effective op_addr in
    match bc_kind lead_class with
    | BK_form =>
        complete (bc_form lead_class)
          (if effective =b EP_none then 0 else u32 (prefix_count - 1)) (fb_value op) 1
    | BK_prefix_ignored => complete (bc_form lead_class) prefix_count (fb_value op) 1
    | (BK_escape_cb | BK_escape_ed | BK_prefix_ignored_before_ed) as kind =>
        let second := get (u16 (op_addr + 1)) in
        if negb (is_byte second) then blocked second (u16 (op_addr + 1))
        else
          let space := if kind =b BK_escape_cb then Sp_cb else Sp_ed in
          complete (bc_form (classify_opcode_byte space (fb_value second))) prefix_count
            (fb_value second) 2
    | (BK_escape_ddcb | BK_escape_fdcb) as kind =>
        let d := get (u16 (op_addr + 1)) in
        if negb (is_byte d) then blocked d (u16 (op_addr + 1))
        else
          let last := get (u16 (op_addr + 2)) in
          if negb (is_byte last) then blocked last (u16 (op_addr + 2))
          else
            let space := if kind =b BK_escape_ddcb then Sp_ddcb else Sp_fdcb in
            complete (bc_form (classify_opcode_byte space (fb_value last))) (u32 (prefix_count - 1))
              (fb_value last) 3
    | _ => default_start
    end.

(** The prefix loop of [decode_at].  [None] is the model's fuel bound only. *)
Inductive Scan : Type :=
| Locked
| Scanned (prefix_count : Z) (effective : EffectivePrefix) (cursor : Z).

Definition prefix_of (b : FetchedByte) : EffectivePrefix :=
  if fb_value b =? kDd then EP_dd else EP_fd.

Fixpoint scan_prefixes (fuel : nat) (get : LogicalFetch) (prefix_count : Z)
    (effective : EffectivePrefix) (cursor : Z) (byte : FetchedByte) : option Scan :=
  if is_prefix byte then
    match fuel with
    | O => None
    | S fuel' =>
        let prefix_count := prefix_count + 1 in
        let effective := prefix_of byte in
        if prefix_count =? kAddressSpace then Some Locked
        else
          let cursor := u16 (cursor + 1) in
          scan_prefixes fuel' get prefix_count effective cursor (get cursor)
    end
  else Some (Scanned prefix_count effective cursor).

(** One unit of fuel per prefix counted before the lock test. *)
Definition scan_fuel : nat := Z.to_nat kAddressSpace.

Definition prefix_lock : StartClassification := mkStart SK_prefix_lock default_instruction 0.

Definition decode_at (fetch : LogicalFetch) (address : Z) : StartClassification :=
  let first := fetch address in
  match scan_prefixes scan_fuel fetch 0 EP_none address first with
  | Some Locked => prefix_lock
  | Some (Scanned prefix_count effective cursor) =>
      finish fetch address first prefix_count effective cursor
  | None => default_start
  end.

(** * [TableFetch] *)

Definition TableFetch : Type := gmap Z FetchedByte.
Definition table_fetch (t : TableFetch) : LogicalFetch := fun a => tget default_fetched t a.
Definition table_set (t : TableFetch) (address : Z) (byte : FetchedByte) : TableFetch :=
  <[address := byte]> t.
Definition table_invariant (image_id fill : Z) : TableFetch :=
  zfor 0 kAddressSpace (fun a t => table_set t a (mkFetched FK_byte fill image_id (u32 a))) ∅.

(** * The linear-time classification of every start *)

(** The first address that is not a resolved prefix, or 65,536. *)
Definition find_anchor (get : LogicalFetch) : Z :=
  match zfind 0 kAddressSpace (fun a => negb (is_prefix (get a))) with
  | Some a => a
  | None => kAddressSpace
  end.

(** [end[a]]: the first address at or after [a] (circular) that is not a prefix. *)
Definition run_ends (get : LogicalFetch) (anchor : Z) : gmap Z Z :=
  zfor 1 (kAddressSpace - 1) (fun step ends =>
    let a := (anchor + kAddressSpace - step) mod kAddressSpace in
    <[a := if is_prefix (get a) then tget 0 ends ((a + 1) mod kAddressSpace) else a]> ends)
    (<[anchor := anchor]> ∅).

Definition classify_all (fetch : LogicalFetch) : gmap Z StartClassification :=
  let table := ztab kAddressSpace fetch in
  let get a := tget default_fetched table a in
  let anchor := find_anchor get in
  if anchor =? kAddressSpace then ztab kAddressSpace (fun _ => prefix_lock)
  else
    let ends := run_ends get anchor in
    ztab kAddressSpace (fun a =>
      let e := tget 0 ends a in
      let k := (e + kAddressSpace - a) mod kAddressSpace in
      let effective :=
        if 0 <? k then prefix_of (get ((e + kAddressSpace - 1) mod kAddressSpace)) else EP_none in
      finish get a (get a) k effective (u16 e)).

(** * Observers *)

Fixpoint replay_loop (fetch : LogicalFetch) (n : nat) (address : Z) (bytes : list Z) : option (list Z) :=
  match n with
  | O => Some bytes
  | S n' =>
      let b := fetch address in
      if negb (is_byte b) then None
      else replay_loop fetch n' (u16 (address + 1)) (bytes ++ [fb_value b])
  end.

Definition replay_bytes (fetch : LogicalFetch) (p : Provenance) : option (list Z) :=
  replay_loop fetch (Z.to_nat (p_logical_byte_count p)) (p_address p) [].

Definition logical_length (i : DecodedInstruction) : Z :=
  u32 (di_extra_prefix_count i + f_length (form_descriptor (di_form i))).

Definition displacement (i : DecodedInstruction) : option Z :=
  let f := form_descriptor (di_form i) in
  if f_displacement_index f =? kNoIndex then None
  else Some (i8 (znth (p_operands (di_provenance i)) 0 0)).

Definition immediate (i : DecodedInstruction) : option Z :=
  let f := form_descriptor (di_form i) in
  if f_immediate_index f =? kNoIndex then None
  else
    let base := if f_displacement_index f =? kNoIndex then 0 else 1 in
    let operands := p_operands (di_provenance i) in
    let value := znth operands base 0 in
    Some (if f_immediate_size f =? 2 then u16 (value .| (znth operands (base + 1) 0 .<< 8)) else value).

Inductive TimingOutcome : Type := TO_primary | TO_alternate.

#[export] Instance timing_outcome_eq_dec : EqDecision TimingOutcome.
Proof. solve_decision. Defined.

Definition t_states (i : DecodedInstruction) (outcome : TimingOutcome) : Z :=
  let t := f_timing (form_descriptor (di_form i)) in
  let extra := 4 * di_extra_prefix_count i in
  if (outcome =b TO_primary) || (klass t =b TC_fixed) then primary t + extra
  else if klass t =b TC_halt then alternate t else alternate t + extra.

Definition m1_fetches (i : DecodedInstruction) : Z :=
  u32 (di_extra_prefix_count i + f_m1_fetches (form_descriptor (di_form i))).

#[global] Opaque run_ends find_anchor.

(** * Prefix runs *)

(** [k] prefixes start at [a] and the byte after them is not one. *)
Definition run_of (get : LogicalFetch) (a k : Z) : Prop :=
  0 <= k < kAddressSpace /\
  (forall j, 0 <= j < k -> is_prefix (get (u16 (a + j))) = true) /\
  is_prefix (get (u16 (a + k))) = false.

(** The whole address space is one run of prefixes. *)
Definition all_prefixes (get : LogicalFetch) : Prop :=
  forall a, is_u16 a -> is_prefix (get a) = true.

Definition effective_of (get : LogicalFetch) (a k : Z) : EffectivePrefix :=
  if 0 <? k then prefix_of (get (u16 (a + k - 1))) else EP_none.

Lemma u16_surj a x : is_u16 x -> exists j, 0 <= j < kAddressSpace /\ u16 (a + j) = x.
Proof.
  intros Hx. exists (u16 (x - a)). split; [apply u16_range|].
  rewrite u16_add_r. replace (a + (x - a)) with x by lia. by apply u16_id.
Qed.

Lemma run_of_unique get a k k' : run_of get a k -> run_of get a k' -> k = k'.
Proof.
  intros (Hk & Hp & Hn) (Hk' & Hp' & Hn').
  destruct (Z.lt_trichotomy k k') as [H|[H|H]]; [|done|].
  - rewrite Hp' in Hn by lia. done.
  - rewrite Hp in Hn' by lia. done.
Qed.

Lemma run_or_all get a : (exists k, run_of get a k) \/ all_prefixes get.
Proof.
  pose proof (zfind_spec 0 kAddressSpace (fun j => negb (is_prefix (get (u16 (a + j)))))) as H.
  destruct (zfind _ _ _) as [k|].
  - left. exists k. destruct H as (Hk & Hp & Hlt). split_and!; [lia|lia| |].
    + intros j Hj. by apply negb_false_iff, Hlt.
    + by apply negb_true_iff.
  - right. intros x Hx. destruct (u16_surj a x Hx) as (j & Hj & <-).
    by apply negb_false_iff, H.
Qed.

Lemma run_of_not_all get a k : run_of get a k -> ~ all_prefixes get.
Proof. intros (_ & _ & Hn) Hall. rewrite Hall in Hn by apply u16_range. done. Qed.

(** The loop of [decode_at] after [c] prefixes, with fuel for the rest. *)
Lemma scan_prefixes_run get a k fuel c :
  run_of get a k -> 0 <= c <= k -> k - c <= Z.of_nat fuel ->
  scan_prefixes fuel get c (effective_of get a c) (u16 (a + c)) (get (u16 (a + c)))
  = Some (Scanned k (effective_of get a k) (u16 (a + k))).
Proof.
  intros (Hk & Hp & Hn). revert c. induction fuel as [|fuel IH]; intros c Hc Hfuel; cbn [scan_prefixes].
  - replace c with k by lia. by rewrite Hn.
  - destruct (decide (c = k)) as [->|Hne]; [by rewrite Hn|].
    rewrite Hp by lia. destruct (Z.eqb_spec (c + 1) kAddressSpace) as [He|_]; [lia|].
    rewrite u16_add_l. replace (a + c + 1) with (a + (c + 1)) by lia.
    replace (prefix_of _) with (effective_of get a (c + 1)).
    + apply IH; lia.
    + unfold effective_of. destruct (Z.ltb_spec 0 (c + 1)); [|lia]. do 3 f_equal. lia.
Qed.

Lemma scan_prefixes_locked get a fuel c e :
  all_prefixes get -> 0 <= c < kAddressSpace -> kAddressSpace - c <= Z.of_nat fuel ->
  scan_prefixes fuel get c e (u16 (a + c)) (get (u16 (a + c))) = Some Locked.
Proof.
  intros Hall. revert c e. induction fuel as [|fuel IH]; intros c e Hc Hfuel; cbn [scan_prefixes].
  - lia.
  - rewrite Hall by apply u16_range. destruct (Z.eqb_spec (c + 1) kAddressSpace); [done|].
    rewrite u16_add_l. replace (a + c + 1) with (a + (c + 1)) by lia. apply IH; lia.
Qed.

Lemma scan_fuel_enough : Z.of_nat scan_fuel = kAddressSpace.
Proof. unfold scan_fuel. by rewrite Z2Nat.id. Qed.

(** The two outcomes of the prefix scan of [decode_at]. *)
Lemma decode_at_run fetch a k :
  is_u16 a -> run_of fetch a k ->
  decode_at fetch a = finish fetch a (fetch a) k (effective_of fetch a k) (u16 (a + k)).
Proof.
  intros Ha Hrun. unfold decode_at.
  pose proof (scan_prefixes_run fetch a k scan_fuel 0 Hrun) as H.
  rewrite Z.add_0_r, (u16_id a) in H by done.
  change (effective_of fetch a 0) with EP_none in H.
  rewrite H; [done|destruct Hrun; lia|]. rewrite scan_fuel_enough. destruct Hrun; lia.
Qed.

Lemma decode_at_locked fetch a :
  is_u16 a -> all_prefixes fetch -> decode_at fetch a = prefix_lock.
Proof.
  intros Ha Hall. unfold decode_at.
  pose proof (scan_prefixes_locked fetch a scan_fuel 0 EP_none Hall) as H.
  rewrite Z.add_0_r, (u16_id a) in H by done.
  rewrite H; [done|done|]. rewrite scan_fuel_enough. lia.
Qed.

(** * [classify_all] against [decode_at] *)

(** The contents of [end[a]] while the backward loop runs. *)
Definition end_ok (get : LogicalFetch) (ends : gmap Z Z) (a steps : Z) : Prop :=
  exists k, run_of get a k /\ k <= steps /\ ends !! a = Some (u16 (a + k)).

Lemma run_of_step get a k :
  is_prefix (get (u16 a)) = true -> run_of get (u16 (a + 1)) k -> k + 1 < kAddressSpace ->
  run_of get a (k + 1).
Proof.
  intros Hp (Hk & Hpre & Hn) Hlt. split_and!; [lia|lia| |].
  - intros j Hj. destruct (decide (j = 0)) as [->|Hne].
    + by rewrite Z.add_0_r.
    + specialize (Hpre (j - 1) ltac:(lia)). rewrite u16_add_l in Hpre.
      by replace (a + 1 + (j - 1)) with (a + j) in Hpre by lia.
  - rewrite u16_add_l in Hn. by replace (a + (k + 1)) with (a + 1 + k) by lia.
Qed.

Lemma run_of_zero get a : is_u16 a -> is_prefix (get a) = false -> run_of get a 0.
Proof.
  intros Ha Hn. split_and!; [lia|done|intros; lia|]. by rewrite Z.add_0_r, u16_id.
Qed.

Definition back (anchor s : Z) : Z := (anchor + kAddressSpace - s) mod kAddressSpace.

Lemma back_range anchor s : is_u16 (back anchor s).
Proof. apply u16_range. Qed.

Lemma back_succ anchor s : u16 (back anchor s + 1) = back anchor (s - 1).
Proof.
  unfold back. change ((?x) mod kAddressSpace) with (u16 x). rewrite u16_add_l. f_equal. lia.
Qed.

Lemma back_inj anchor s s' :
  0 <= s < kAddressSpace -> 0 <= s' < kAddressSpace -> back anchor s = back anchor s' -> s = s'.
Proof.
  unfold back, kAddressSpace. intros Hs Hs' E.
  assert (H : (s - s') mod 65536 = 0).
  { replace (s - s') with ((anchor + 65536 - s') - (anchor + 65536 - s)) by lia.
    by rewrite Zminus_mod, E, Z.sub_diag. }
  apply Z.mod_divide in H as [q Hq]; lia.
Qed.

Lemma back_surj anchor a :
  is_u16 anchor -> is_u16 a -> exists s, 0 <= s < kAddressSpace /\ back anchor s = a.
Proof.
  unfold back, is_u16, kAddressSpace. intros Hn Ha. exists ((anchor - a) mod 65536).
  split; [apply Z.mod_pos_bound; lia|].
  rewrite <- Zminus_mod_idemp_r, Zmod_mod, Zminus_mod_idemp_r.
  replace (anchor + 65536 - (anchor - a)) with (a + 1 * 65536) by lia.
  rewrite Z_mod_plus_full. apply Z.mod_small. lia.
Qed.

Lemma run_ends_ok get anchor :
  is_u16 anchor -> is_prefix (get anchor) = false ->
  forall a, is_u16 a -> exists k, run_of get a k /\ run_ends get anchor !! a = Some (u16 (a + k)).
Proof.
  intros Hanc Hnp.
  assert (H0 : back anchor 0 = anchor).
  { unfold back. rewrite Z.sub_0_r. change (anchor + kAddressSpace) with (anchor + 1 * kAddressSpace).
    rewrite Z_mod_plus_full. by apply Z.mod_small. }
  assert (Hloop : (fun i (ends : gmap Z Z) => forall s, 0 <= s < i -> end_ok get ends (back anchor s) s)
                    (1 + (kAddressSpace - 1)) (run_ends get anchor)).
  { with_strategy transparent [run_ends] unfold run_ends. apply zfor_ind; [done| |].
    - intros s Hs. replace s with 0 by lia. rewrite H0. exists 0.
      split; [by apply run_of_zero|]. split; [done|]. by rewrite lookup_insert_eq, Z.add_0_r, u16_id.
    - intros i ends Hi IH s Hs. fold (back anchor i).
      destruct (decide (s = i)) as [->|Hne].
      + destruct (is_prefix (get (back anchor i))) eqn:Hp.
        * destruct (IH (i - 1) ltac:(lia)) as (k & Hrun & Hk & He).
          exists (k + 1). split; [|split; [lia|]].
          -- apply run_of_step; [by rewrite u16_id by apply back_range| |lia].
             by rewrite back_succ.
          -- rewrite lookup_insert_eq. f_equal. change ((back anchor i + 1) mod kAddressSpace) with (u16 (back anchor i + 1)).
             rewrite back_succ. unfold tget. rewrite He. cbn.
             rewrite <- back_succ, u16_add_l. f_equal. lia.
        * exists 0. split; [apply run_of_zero; [apply back_range|done]|]. split; [lia|].
          by rewrite lookup_insert_eq, Z.add_0_r, u16_id by apply back_range.
      + destruct (IH s ltac:(lia)) as (k & Hrun & Hk & He). exists k. split; [exact Hrun|].
        split; [exact Hk|]. rewrite lookup_insert_ne; [exact He|]. intros E. apply Hne. symmetry.
        apply (back_inj anchor); [lia|lia|exact E]. }
  intros a Ha. destruct (back_surj anchor a Hanc Ha) as (s & Hs & <-).
  destruct (Hloop s ltac:(lia)) as (k & Hrun & _ & He).
  exists k. split; [exact Hrun|exact He].
Qed.


(** [finish] reads the fetch function at 16-bit addresses only. *)
Lemma read_operands_ext get get' base n i operands :
  (forall x, is_u16 x -> get x = get' x) ->
  read_operands get base n i operands = read_operands get' base n i operands.
Proof.
  intros Hext. revert i operands. induction n as [|n IH]; intros i operands; cbn [read_operands]; [done|].
  rewrite Hext by apply u16_range. by rewrite IH.
Qed.

Lemma finish_ext get get' start first k e op_addr :
  (forall x, is_u16 x -> get x = get' x) -> is_u16 op_addr ->
  finish get start first k e op_addr = finish get' start first k e op_addr.
Proof.
  intros Hext Hop. unfold finish, complete.
  rewrite (Hext op_addr), !(Hext (u16 _)) by first [exact Hop | apply u16_range].
  by rewrite !(read_operands_ext get get') by exact Hext.
Qed.

(** Once both have found the same run, [classify_all] and [decode_at] call the
    same [finish]. *)
Lemma classify_all_lookup fetch a :
  is_u16 a ->
  classify_all fetch !! a = Some (decode_at fetch a).
Proof.
  intros Ha. unfold classify_all.
  set (get := fun a => tget default_fetched (ztab kAddressSpace fetch) a).
  assert (Hget : forall x, is_u16 x -> get x = fetch x).
  { intros x Hx. unfold get. apply ztab_tget. exact Hx. }
  assert (Hget' : forall x, 0 <= x < 0 + kAddressSpace -> get x = fetch x) by exact Hget.
  clearbody get.
  pose proof (zfind_spec 0 kAddressSpace (fun a => negb (is_prefix (get a)))) as Hf.
  with_strategy transparent [find_anchor] unfold find_anchor. destruct (zfind _ _ _) as [anchor|].
  - destruct Hf as (Hanc & Hp & _). apply negb_true_iff in Hp.
    destruct (Z.eqb_spec anchor kAddressSpace) as [->|_]; [lia|].
    rewrite ztab_lookup by exact Ha. f_equal.
    assert (Hu : is_u16 anchor) by (unfold is_u16, kAddressSpace in *; lia).
    destruct (run_ends_ok get anchor Hu Hp a Ha) as (k & Hrun & He).
    unfold tget. rewrite He. cbn [default id].
    assert (Hk : (u16 (a + k) + kAddressSpace - a) mod kAddressSpace = k).
    { change (?x mod kAddressSpace) with (u16 x).
      replace (u16 (a + k) + kAddressSpace - a) with (u16 (a + k) + (kAddressSpace - a)) by lia.
      rewrite u16_add_l. replace (a + k + (kAddressSpace - a)) with (k + 1 * 65536) by (unfold kAddressSpace; lia).
      unfold u16. rewrite Z_mod_plus_full. apply Z.mod_small. destruct Hrun as [Hk _]. exact Hk. }
    rewrite Hk. assert (Hrun' : run_of fetch a k).
    { destruct Hrun as (Hr & Hpre & Hn). split; [exact Hr|]. split.
      - intros j Hj. rewrite <- Hget by apply u16_range. by apply Hpre.
      - rewrite <- Hget by apply u16_range. exact Hn. }
    assert (Heff : effective_of fetch a k =
              if 0 <? k then prefix_of (get ((u16 (a + k) + kAddressSpace - 1) mod kAddressSpace))
              else EP_none).
    { unfold effective_of. destruct (0 <? k); [|reflexivity].
      change (?x mod kAddressSpace) with (u16 x).
      replace (u16 (a + k) + kAddressSpace - 1) with (u16 (a + k) + (kAddressSpace - 1)) by lia.
      rewrite u16_add_l. rewrite Hget by apply u16_range. f_equal. f_equal.
      replace (a + k + (kAddressSpace - 1)) with (a + k - 1 + 1 * 65536) by (unfold kAddressSpace; lia).
      unfold u16. rewrite Z_mod_plus_full. reflexivity. }
    rewrite (decode_at_run fetch a k Ha Hrun'), u16_u16, Heff.
    rewrite (finish_ext get fetch) by first [exact Hget | apply u16_range].
    rewrite (Hget a) by exact Ha. reflexivity.
  - rewrite Z.eqb_refl, ztab_lookup by exact Ha. f_equal. symmetry. apply decode_at_locked; [exact Ha|].
    intros x Hx. rewrite <- Hget by exact Hx. apply negb_false_iff, Hf. exact Hx.
Qed.

(** * What a decoded start is *)

#[global] Opaque form_descriptor classify_opcode_byte all_forms scan_fuel.

(** The logical byte [j] places after [a]. *)
Definition byte_at (get : LogicalFetch) (a j : Z) : Z := fb_value (get (u16 (a + j))).

(** Every logical byte of [a .. a + n) is a resolved code byte. *)
Definition resolved (get : LogicalFetch) (a n : Z) : Prop :=
  forall j, 0 <= j < n -> is_byte (get (u16 (a + j))) = true.

Lemma resolved_app get a n m :
  0 <= n -> resolved get a n -> resolved get (a + n) m -> resolved get a (n + m).
Proof.
  intros Hn H1 H2 j Hj. destruct (decide (j < n)).
  - apply H1. lia.
  - replace (a + j) with (a + n + (j - n)) by lia. apply H2. lia.
Qed.

Lemma resolved_u16 get a n : resolved get (u16 a) n <-> resolved get a n.
Proof.
  split; intros H j Hj; specialize (H j Hj); revert H; by rewrite u16_add_l.
Qed.

Lemma is_prefix_is_byte b : is_prefix b = true -> is_byte b = true.
Proof. unfold is_prefix. by intros [? _]%andb_prop. Qed.

Lemma run_resolved get a k : run_of get a k -> resolved get a k.
Proof. intros (_ & Hp & _) j Hj. by apply is_prefix_is_byte, Hp. Qed.

Lemma read_operands_spec get base n i operands :
  0 <= i -> i + Z.of_nat n <= zlen operands ->
  match read_operands get base n i operands with
  | Ok operands' =>
      zlen operands' = zlen operands /\ resolved get (base + i) (Z.of_nat n) /\
      (forall j, 0 <= j < i -> znth operands' j 0 = znth operands j 0) /\
      (forall j, i <= j < i + Z.of_nat n -> znth operands' j 0 = byte_at get base j)
  | Err (b, address) =>
      exists j, i <= j < i + Z.of_nat n /\ address = u16 (base + j) /\ b = get address /\
        is_byte b = false /\ resolved get (base + i) (j - i)
  end.
Proof.
  revert i operands. induction n as [|n IH]; intros i operands Hi Hlen; cbn [read_operands].
  - split_and!; [done|intros j Hj; lia|done|intros; lia].
  - destruct (is_byte (get (u16 (base + i)))) eqn:Hb; cbn [negb].
    + specialize (IH (i + 1) (<[Z.to_nat i := fb_value (get (u16 (base + i)))]> operands)).
      rewrite zlen_insert in IH. specialize (IH ltac:(lia) ltac:(lia)).
      assert (Hone : resolved get (base + i) 1).
      { intros j Hj. replace (base + i + j) with (base + i) by lia. done. }
      destruct (read_operands _ _ _ _ _) as [ops'|[b addr]].
      * destruct IH as (Hl & Hr & Hlo & Hhi). split_and!; [done| | |].
        -- replace (Z.of_nat (S n)) with (1 + Z.of_nat n) by lia.
           apply resolved_app; [lia|done|]. by replace (base + i + 1) with (base + (i + 1)) by lia.
        -- intros j Hj. rewrite Hlo, znth_insert by lia. destruct (Z.eqb_spec j i); [lia|done].
        -- intros j Hj. destruct (decide (j = i)) as [->|Hne].
           ++ rewrite Hlo, znth_insert by lia. by rewrite Z.eqb_refl.
           ++ apply Hhi. lia.
      * destruct IH as (j & Hj & -> & -> & Hnb & Hr). exists j. split_and!; [lia|lia|done|done|done|].
        replace (j - i) with (1 + (j - (i + 1))) by lia. apply resolved_app; [lia|done|].
        by replace (base + i + 1) with (base + (i + 1)) by lia.
    + exists i. split_and!; [lia|lia|done|done|done|]. intros j Hj. lia.
Qed.

(** The specification of a decoded start at [a]. *)
Record decoded_ok (get : LogicalFetch) (a : Z) (i : DecodedInstruction) : Prop := {
  ok_form : valid_form (di_form i) /\ p_form (di_provenance i) = di_form i;
  ok_address : p_address (di_provenance i) = a;
  ok_image : p_image_id (di_provenance i) = fb_image_id (get a) /\
             p_image_offset (di_provenance i) = fb_image_offset (get a);
  ok_extra : 0 <= di_extra_prefix_count i <= p_prefix_count (di_provenance i);
  ok_prefixes : p_prefix_count (di_provenance i) < kAddressSpace;
  ok_count : p_logical_byte_count (di_provenance i) =
             di_extra_prefix_count i + f_length (form_descriptor (di_form i));
  ok_resolved : resolved get a (p_logical_byte_count (di_provenance i));
  ok_opcode : p_opcode (di_provenance i) =
              byte_at get a (di_extra_prefix_count i + f_opcode_index (form_descriptor (di_form i)));
  ok_operands : zlen (p_operands (di_provenance i)) = 3;
  ok_operand : forall j, 0 <= j < p_operand_count (di_provenance i) ->
    znth (p_operands (di_provenance i)) j 0 =
    byte_at get a (di_extra_prefix_count i + j +
      (let f := form_descriptor (di_form i) in
       if (f_space f =b Sp_ddcb) || (f_space f =b Sp_fdcb) then 2 else f_opcode_index f + 1));
  ok_operand_count : p_operand_count (di_provenance i) =
    (let f := form_descriptor (di_form i) in
     if (f_space f =b Sp_ddcb) || (f_space f =b Sp_fdcb) then 1
     else f_length f - f_opcode_index f - 1);
  ok_class : di_form i =
    bc_form (classify_opcode_byte (f_space (form_descriptor (di_form i))) (p_opcode (di_provenance i)));
}.

(** A blocked start at [a]: its blocking address lies after [n] resolved bytes
    and is not a code byte. *)
Definition blocked_ok (get : LogicalFetch) (a : Z) (c : StartClassification) : Prop :=
  exists n, 0 <= n < kAddressSpace + 4 /\ sc_blocking_address c = u16 (a + n) /\
    resolved get a n /\ is_byte (get (u16 (a + n))) = false /\
    (sc_kind c = SK_unresolved_fetch_mapping <->
     fb_kind (get (u16 (a + n))) = FK_unresolved_mapping).

Definition classified_ok (get : LogicalFetch) (a : Z) (c : StartClassification) : Prop :=
  match sc_kind c with
  | SK_decoded => decoded_ok get a (sc_instruction c)
  | SK_unresolved_fetch_mapping | SK_mutable_code => blocked_ok get a c
  | SK_prefix_lock => all_prefixes get
  | SK_excluded_form => False
  end.

Lemma blocked_classified get a n :
  0 <= n < kAddressSpace + 4 -> resolved get a n -> is_byte (get (u16 (a + n))) = false ->
  classified_ok get a (blocked (get (u16 (a + n))) (u16 (a + n))).
Proof.
  intros Hn Hr Hb. unfold classified_ok, blocked; cbn.
  destruct (fb_kind _) eqn:Hk; cbn; exists n; cbn; rewrite Hk;
    (split_and!; [lia|lia|done|done|done|done]).
Qed.

(** [complete] from a state where [k] prefixes and [consumed] more bytes are
    known to be resolved. *)
Lemma complete_ok get a k eff form extra consumed :
  is_u16 a -> valid_form form -> 0 <= k < kAddressSpace -> 0 <= extra <= k ->
  (let f := form_descriptor form in
   k + consumed = extra + f_opcode_index f + 1 /\ 1 <= consumed <= 3 /\
   (f_space f = Sp_ddcb \/ f_space f = Sp_fdcb -> consumed = 3)) ->
  form = bc_form (classify_opcode_byte (f_space (form_descriptor form)) (byte_at get a (k + consumed - 1))) ->
  resolved get a (k + consumed) ->
  classified_ok get a
    (complete get a (get a) k eff (u16 (a + k)) form extra (byte_at get a (k + consumed - 1)) consumed).
Proof.
  intros Ha Hform Hk Hextra (Hsum & Hcons & Hcb) Hclass Hr.
  pose proof (layout_ok_all form Hform) as Hl. pose proof (opcode_index_all form Hform) as Hop.
  unfold layout_ok in Hl. unfold complete. set (f := form_descriptor form) in *.
  destruct Hl as (Hlen & Hidx & Himm & Hl). unfold kAddressSpace in *.
  destruct ((f_space f =b Sp_ddcb) || (f_space f =b Sp_fdcb)) eqn:Hicb.
  - destruct Hl as (Hl4 & Ho3 & _). assert (consumed = 3) as ->.
    { apply Hcb. apply orb_true_iff in Hicb as [H|H]; apply bool_decide_eq_true in H; auto. }
    assert (Hu : u32 (k + 3) = k + 3) by (apply u32_id; unfold is_u32; lia).
    constructor; cbn; fold f; rewrite ?Hicb, ?Hu; [done|done|done|lia|unfold kAddressSpace; lia|lia|done| |done| |done|exact Hclass].
    + f_equal. lia.
    + intros j Hj. replace j with 0 by lia. cbn. unfold byte_at. rewrite u16_add_l. do 3 f_equal. lia.
  - set (ot := f_length f - f_opcode_index f - 1).
    assert (Hot : 0 <= ot <= 3) by (unfold ot; lia).
    rewrite (u8_id ot) by (unfold is_u8; lia).
    pose proof (read_operands_spec get (u16 (a + k) + consumed) (Z.to_nat ot) 0 [0; 0; 0]) as Hspec.
    rewrite Z2Nat.id in Hspec by lia. change (zlen [0; 0; 0]) with 3 in Hspec.
    specialize (Hspec ltac:(lia) ltac:(lia)).
    destruct (read_operands _ _ _ _ _) as [ops|[b addr]].
    + destruct Hspec as (Hzl & Hres & _ & Hval).
      assert (Hu : u32 (consumed + ot) = consumed + ot) by (apply u32_id; unfold is_u32; lia).
      rewrite Hu. assert (Hu' : u32 (k + (consumed + ot)) = k + (consumed + ot))
        by (apply u32_id; unfold is_u32; lia).
      constructor; cbn; fold f; rewrite ?Hicb, ?Hu'; [done|done|done|lia|unfold kAddressSpace; lia|unfold ot; lia| | |done| |done|exact Hclass].
      * rewrite Z.add_assoc. apply resolved_app; [lia|done|].
        intros j Hj. specialize (Hres j Hj). revert Hres.
        replace (u16 (a + k) + consumed + 0 + j) with (u16 (a + k) + (consumed + j)) by lia.
        rewrite u16_add_l. by replace (a + k + (consumed + j)) with (a + (k + consumed) + j) by lia.
      * f_equal. lia.
      * intros j Hj. rewrite Hval by lia. unfold byte_at.
        replace (u16 (a + k) + consumed + j) with (u16 (a + k) + (consumed + j)) by lia.
        rewrite u16_add_l. do 3 f_equal. lia.
    + destruct Hspec as (j & Hj & -> & -> & Hnb & Hres).
      replace (u16 (u16 (a + k) + consumed + j)) with (u16 (a + (k + consumed + j))) in *.
      2: { replace (u16 (a + k) + consumed + j) with (u16 (a + k) + (consumed + j)) by lia.
           rewrite u16_add_l. f_equal. lia. }
      apply blocked_classified; [unfold kAddressSpace; lia| |done].
      apply resolved_app; [lia|done|]. intros i Hi. specialize (Hres i ltac:(lia)). revert Hres.
      replace (u16 (a + k) + consumed + 0 + i) with (u16 (a + k) + (consumed + i)) by lia.
      rewrite u16_add_l. by replace (a + k + (consumed + i)) with (a + (k + consumed) + i) by lia.
Qed.

(** The form that the second opcode byte of a CB, ED, DDCB or FDCB instruction
    selects. *)
Lemma continuation_form space b :
  0 <= b < 256 -> (space = Sp_cb \/ space = Sp_ed \/ space = Sp_ddcb \/ space = Sp_fdcb) ->
  valid_form (bc_form (classify_opcode_byte space b)) /\
  f_space (form_descriptor (bc_form (classify_opcode_byte space b))) = space.
Proof.
  intros Hb Hs. destruct (space_kinds space b Hb) as [Hk Hform].
  assert (E : bc_kind (classify_opcode_byte space b) = BK_form).
  { by destruct Hs as [->|[->|[->| ->]]]. }
  by rewrite E in Hk.
Qed.

Lemma resolved_snoc get a n :
  0 <= n -> resolved get a n -> is_byte (get (u16 (a + n))) = true -> resolved get a (n + 1).
Proof.
  intros Hn H Hb. apply resolved_app; [done|done|]. intros j Hj. by replace (a + n + j) with (a + n) by lia.
Qed.

Section FINISH.
Context (fetch : LogicalFetch) `{!FetchTyped fetch}.

Lemma complete_form_ok a k eff form extra consumed (space : Space) :
  is_u16 a -> valid_form form -> f_space (form_descriptor form) = space -> 0 <= k < kAddressSpace ->
  0 <= extra <= k -> resolved fetch a (k + consumed) ->
  form = bc_form (classify_opcode_byte space (byte_at fetch a (k + consumed - 1))) ->
  match space with
  | Sp_base => extra = k /\ consumed = 1
  | Sp_dd | Sp_fd => extra = k - 1 /\ consumed = 1
  | Sp_cb | Sp_ed => extra = k /\ consumed = 2
  | Sp_ddcb | Sp_fdcb => extra = k - 1 /\ consumed = 3
  end ->
  classified_ok fetch a
    (complete fetch a (fetch a) k eff (u16 (a + k)) form extra (byte_at fetch a (k + consumed - 1)) consumed).
Proof using Type.
  intros Ha Hf Hs Hk He Hr Hclass Hspace. apply complete_ok; [done|done|done|done| |by rewrite Hs|done].
  cbv zeta. rewrite opcode_index_all, Hs by done.
  destruct space; destruct Hspace as [-> ->]; (split_and!; [lia|lia|lia|intros [|]; done || lia]).
Qed.

(** A CB, ED continuation: the second byte selects the form. *)
Lemma continuation_ok a k eff space :
  is_u16 a -> 0 <= k < kAddressSpace -> resolved fetch a (k + 1) -> space = Sp_cb \/ space = Sp_ed ->
  classified_ok fetch a
    (let second := fetch (u16 (u16 (a + k) + 1)) in
     if negb (is_byte second) then blocked second (u16 (u16 (a + k) + 1))
     else complete fetch a (fetch a) k eff (u16 (a + k))
            (bc_form (classify_opcode_byte space (fb_value second))) k (fb_value second) 2).
Proof using FetchTyped0.
  intros Ha Hk Hr Hs. cbv zeta. rewrite u16_add_l.
  replace (a + k + 1) with (a + (k + 1)) by lia.
  destruct (is_byte (fetch (u16 (a + (k + 1))))) eqn:Hb; cbn [negb].
  2: { apply blocked_classified; [unfold kAddressSpace in *; lia|done|done]. }
  pose proof (resolved_snoc fetch a (k + 1) ltac:(lia) Hr Hb) as Hr2.
  destruct (continuation_form space (fb_value (fetch (u16 (a + (k + 1)))))) as [Hform Hspace];
    [apply fetch_u8|tauto|].
  replace (fb_value (fetch (u16 (a + (k + 1))))) with (byte_at fetch a (k + 2 - 1)) at 2
    by (unfold byte_at; do 3 f_equal; lia).
  apply (complete_form_ok a k eff _ _ 2 space); [done|done|done|done|lia| | |].
  - by replace (k + 2) with (k + 1 + 1) by lia.
  - unfold byte_at. by replace (a + (k + 2 - 1)) with (a + (k + 1)) by lia.
  - destruct Hs as [->| ->]; done.
Qed.

(** A DDCB, FDCB continuation: displacement, then the opcode byte. *)
Lemma indexed_continuation_ok a k eff space :
  is_u16 a -> 0 < k < kAddressSpace -> resolved fetch a (k + 1) -> space = Sp_ddcb \/ space = Sp_fdcb ->
  classified_ok fetch a
    (let d := fetch (u16 (u16 (a + k) + 1)) in
     if negb (is_byte d) then blocked d (u16 (u16 (a + k) + 1))
     else
       let last := fetch (u16 (u16 (a + k) + 2)) in
       if negb (is_byte last) then blocked last (u16 (u16 (a + k) + 2))
       else complete fetch a (fetch a) k eff (u16 (a + k))
              (bc_form (classify_opcode_byte space (fb_value last))) (u32 (k - 1)) (fb_value last) 3).
Proof using FetchTyped0.
  intros Ha Hk Hr Hs. cbv zeta. rewrite !u16_add_l.
  replace (a + k + 1) with (a + (k + 1)) by lia. replace (a + k + 2) with (a + (k + 1 + 1)) by lia.
  destruct (is_byte (fetch (u16 (a + (k + 1))))) eqn:Hb; cbn [negb].
  2: { apply blocked_classified; [unfold kAddressSpace in *; lia|done|done]. }
  pose proof (resolved_snoc fetch a (k + 1) ltac:(lia) Hr Hb) as Hr2.
  destruct (is_byte (fetch (u16 (a + (k + 1 + 1))))) eqn:Hb2; cbn [negb].
  2: { apply blocked_classified; [unfold kAddressSpace in *; lia|done|done]. }
  pose proof (resolved_snoc fetch a (k + 1 + 1) ltac:(lia) Hr2 Hb2) as Hr3.
  destruct (continuation_form space (fb_value (fetch (u16 (a + (k + 1 + 1)))))) as [Hform Hspace];
    [apply fetch_u8|tauto|].
  rewrite u32_id by (unfold is_u32, kAddressSpace in *; lia).
  replace (fb_value (fetch (u16 (a + (k + 1 + 1))))) with (byte_at fetch a (k + 3 - 1)) at 2
    by (unfold byte_at; do 3 f_equal; lia).
  apply (complete_form_ok a k eff _ _ 3 space); [done|done|done|lia|lia| | |].
  - by replace (k + 3) with (k + 1 + 1 + 1) by lia.
  - unfold byte_at. by replace (a + (k + 3 - 1)) with (a + (k + 1 + 1)) by lia.
  - destruct Hs as [->| ->]; done.
Qed.

Lemma finish_ok a k :
  is_u16 a -> run_of fetch a k ->
  classified_ok fetch a (finish fetch a (fetch a) k (effective_of fetch a k) (u16 (a + k))).
Proof using FetchTyped0.
  intros Ha Hrun. pose proof (run_resolved _ _ _ Hrun) as Hr. destruct Hrun as (Hk & Hpre & Hnp).
  unfold finish. destruct (is_byte (fetch (u16 (a + k)))) eqn:Hb; cbn [negb].
  2: { apply blocked_classified; [unfold kAddressSpace in *; lia|done|done]. }
  pose proof (resolved_snoc fetch a k ltac:(lia) Hr Hb) as Hr1.
  pose proof (fetch_u8 (u16 (a + k))) as Hv. set (v := fb_value (fetch (u16 (a + k)))) in *.
  assert (Hv' : v <> 0xDD /\ v <> 0xFD).
  { unfold is_prefix in Hnp. rewrite Hb in Hnp. fold v in Hnp. cbn in Hnp. unfold kDd, kFd in Hnp.
    apply orb_false_elim in Hnp as [? ?]. to_prop. done. }
  assert (Heff : match effective_of fetch a k with EP_none => k = 0 | _ => 0 < k end).
  { unfold effective_of, prefix_of. destruct (Z.ltb_spec 0 k); [|lia]. by destruct (_ =? _). }
  set (eff := effective_of fetch a k) in *.
  destruct (space_kinds (lead_space eff) v Hv) as [Hkinds _].
  assert (Hop : v = byte_at fetch a (k + 1 - 1)) 
    by (unfold byte_at; by replace (a + (k + 1 - 1)) with (a + k) by lia).
  destruct (bc_kind (classify_opcode_byte (lead_space eff) v)) eqn:Hkind.
  - destruct Hkinds as [Hform Hs]. rewrite Hop at 2.
    assert (Hx : (if eff =b EP_none then 0 else u32 (k - 1)) = match eff with EP_none => k | _ => k - 1 end).
    { destruct eff; [symmetry; exact Heff|apply u32_id; unfold is_u32, kAddressSpace in *; lia..]. }
    rewrite Hx. apply (complete_form_ok a k eff _ _ 1 (lead_space eff)); [done|done|done|done| |done|by rewrite <- Hop|];
      destruct eff; cbn [lead_space]; lia.
  - apply (continuation_ok a k eff Sp_cb); [done|done|done|by left].
  - apply (continuation_ok a k eff Sp_ed); [done|done|done|by right].
  - lia.
  - lia.
  - apply (indexed_continuation_ok a k eff Sp_ddcb); [done| |done|by left].
    destruct eff; cbn in Hkinds; done || lia.
  - apply (indexed_continuation_ok a k eff Sp_fdcb); [done| |done|by right].
    destruct eff; cbn in Hkinds; done || lia.
  - lia.
  - destruct Hkinds as (_ & Hform & Hs & Hsame). rewrite Hop at 2.
    apply (complete_form_ok a k eff _ _ 1 Sp_base); [done|done|done|done|lia|done|by rewrite <- Hop|done].
  - apply (continuation_ok a k eff Sp_ed); [done|done|done|by right].
Qed.

(** Every start is classified, and every classification is justified. *)
Lemma decode_at_classified a : is_u16 a -> classified_ok fetch a (decode_at fetch a).
Proof using FetchTyped0.
  intros Ha. destruct (run_or_all fetch a) as [[k Hrun]|Hall].
  - rewrite (decode_at_run fetch a k Ha Hrun). by apply finish_ok.
  - rewrite decode_at_locked by done. exact Hall.
Qed.

Lemma decode_at_decoded a :
  is_u16 a -> sc_kind (decode_at fetch a) = SK_decoded ->
  decoded_ok fetch a (sc_instruction (decode_at fetch a)).
Proof using FetchTyped0.
  intros Ha Hk. pose proof (decode_at_classified a Ha) as H. unfold classified_ok in H. by rewrite Hk in H.
Qed.

End FINISH.

(** * Replaying a decoded start *)

(** The [n] logical bytes from [a]. *)
Definition logical_bytes (fetch : LogicalFetch) (a n : Z) : list Z :=
  map (byte_at fetch a) (seqZ 0 n).

Lemma zlen_logical_bytes fetch a n : 0 <= n -> zlen (logical_bytes fetch a n) = n.
Proof. intros. unfold logical_bytes, zlen. rewrite length_map, length_seqZ. lia. Qed.

Lemma znth_logical_bytes fetch a n j d :
  0 <= j < n -> znth (logical_bytes fetch a n) j d = byte_at fetch a j.
Proof.
  intros Hj. apply znth_lookup; [lia|]. unfold logical_bytes.
  change (map (byte_at fetch a) ?l) with (byte_at fetch a <$> l).
  rewrite list_lookup_fmap, lookup_seqZ_lt by lia. cbn. do 2 f_equal. lia.
Qed.

Lemma replay_loop_resolved fetch a i n acc :
  0 <= i -> resolved fetch (a + i) (Z.of_nat n) ->
  replay_loop fetch n (u16 (a + i)) acc = Some (acc ++ map (byte_at fetch a) (seqZ i (Z.of_nat n))).
Proof.
  revert i acc. induction n as [|n IH]; intros i acc Hi Hr; cbn [replay_loop].
  - rewrite seqZ_nil by done. by rewrite app_nil_r.
  - pose proof (Hr 0 ltac:(lia)) as H0. rewrite Z.add_0_r in H0. rewrite H0. cbn [negb].
    rewrite u16_add_l, <- Z.add_assoc, IH.
    + rewrite (seqZ_cons i) by lia. cbn [map]. rewrite <- app_assoc. cbn [app].
      replace (Z.pred (Z.of_nat (S n))) with (Z.of_nat n) by lia. done.
    + lia.
    + intros j Hj. replace (a + (i + 1) + j) with (a + i + (1 + j)) by lia. apply Hr. lia.
Qed.

Lemma replay_bytes_decoded fetch a i :
  is_u16 a -> decoded_ok fetch a i ->
  replay_bytes fetch (di_provenance i) =
    Some (logical_bytes fetch a (p_logical_byte_count (di_provenance i))).
Proof.
  intros Ha Hok. unfold replay_bytes. rewrite (ok_address _ _ _ Hok).
  assert (Hn : 0 <= p_logical_byte_count (di_provenance i)).
  { rewrite (ok_count _ _ _ Hok). pose proof (ok_extra _ _ _ Hok).
    destruct (ok_form _ _ _ Hok) as [Hf _]. destruct (layout_ok_all _ Hf) as (_ & Hlen & _). lia. }
  pose proof (replay_loop_resolved fetch a 0 (Z.to_nat (p_logical_byte_count (di_provenance i))) []) as H.
  rewrite Z.add_0_r, u16_id, Z2Nat.id in H by done. apply H; [lia|]. apply (ok_resolved _ _ _ Hok).
Qed.

Lemma logical_length_count fetch a i :
  decoded_ok fetch a i -> logical_length i = p_logical_byte_count (di_provenance i).
Proof.
  intros Hok. unfold logical_length. rewrite (ok_count _ _ _ Hok). apply u32_id.
  pose proof (ok_extra _ _ _ Hok). pose proof (ok_prefixes _ _ _ Hok).
  destruct (ok_form _ _ _ Hok) as [Hf _]. destruct (layout_ok_all _ Hf) as (Hl & Hlen & _).
  unfold is_u32, kAddressSpace in *. lia.
Qed.

(** * Locality: a decode reads only the bytes it consumed *)

Lemma read_operands_local get get' base n i operands operands' :
  read_operands get base n i operands = Ok operands' ->
  (forall j, i <= j < i + Z.of_nat n -> get' (u16 (base + j)) = get (u16 (base + j))) ->
  read_operands get' base n i operands = Ok operands'.
Proof.
  revert i operands. induction n as [|n IH]; intros i operands H Hag; cbn [read_operands] in *; [done|].
  rewrite Hag by lia. destruct (negb _); [done|]. apply IH; [done|]. intros j Hj. apply Hag. lia.
Qed.

Lemma complete_count get a first k eff op_addr form extra opcode consumed :
  valid_form form -> 0 <= k < kAddressSpace -> 1 <= consumed <= 3 ->
  let f := form_descriptor form in
  let c := complete get a first k eff op_addr form extra opcode consumed in
  sc_kind c = SK_decoded ->
  p_logical_byte_count (di_provenance (sc_instruction c)) =
    k + consumed + (if (f_space f =b Sp_ddcb) || (f_space f =b Sp_fdcb) then 0
                    else f_length f - f_opcode_index f - 1).
Proof.
  intros Hf Hk Hc. cbv zeta. unfold complete, kAddressSpace in *.
  destruct (layout_ok_all form Hf) as (Hlen & Hop & _ & _).
  set (f := form_descriptor form) in *.
  destruct ((f_space f =b Sp_ddcb) || (f_space f =b Sp_fdcb)); cbn.
  - intros _. rewrite u32_id by (unfold is_u32; lia). lia.
  - destruct (read_operands _ _ _ _ _) as [ops|[b addr]]; cbn.
    + intros _. rewrite u8_id by (unfold is_u8; lia).
      rewrite (u32_id (consumed + _)) by (unfold is_u32; lia). rewrite u32_id by (unfold is_u32; lia). lia.
    + by destruct (fb_kind b =b _).
Qed.

Lemma complete_local get get' a first k eff form extra opcode consumed :
  valid_form form -> 0 <= k < kAddressSpace -> 1 <= consumed <= 3 ->
  (let f := form_descriptor form in f_space f = Sp_ddcb \/ f_space f = Sp_fdcb -> consumed = 3) ->
  let c := complete get a first k eff (u16 (a + k)) form extra opcode consumed in
  sc_kind c = SK_decoded ->
  (forall j, 0 <= j < p_logical_byte_count (di_provenance (sc_instruction c)) ->
     get' (u16 (a + j)) = get (u16 (a + j))) ->
  complete get' a first k eff (u16 (a + k)) form extra opcode consumed = c.
Proof.
  intros Hf Hk Hc Hcb c Hdec Hag.
  pose proof (complete_count get a first k eff (u16 (a + k)) form extra opcode consumed Hf Hk Hc Hdec) as Hn.
  fold c in Hn. rewrite Hn in Hag. subst c. unfold complete in *.
  destruct (layout_ok_all form Hf) as (Hlen & Hop & _ & _).
  set (f := form_descriptor form) in *.
  destruct ((f_space f =b Sp_ddcb) || (f_space f =b Sp_fdcb)) eqn:Hicb.
  - assert (consumed = 3) as ->.
    { apply Hcb. apply orb_true_iff in Hicb as [H|H]; apply bool_decide_eq_true in H; auto. }
    rewrite u16_add_l. replace (a + k + 1) with (a + (k + 1)) by lia. rewrite Hag by lia. done.
  - rewrite u8_id in * by (unfold is_u8; lia).
    destruct (read_operands get _ _ _ _) as [ops|[b addr]] eqn:Hro.
    + rewrite (read_operands_local get get' _ _ _ _ ops Hro); [done|].
      intros j Hj. rewrite Z2Nat.id in Hj by lia.
      replace (u16 (a + k) + consumed + j) with (u16 (a + k) + (consumed + j)) by lia.
      rewrite u16_add_l. replace (a + k + (consumed + j)) with (a + (k + consumed + j)) by lia.
      apply Hag. lia.
    + revert Hdec. cbn. by destruct (fb_kind b =b _).
Qed.

Lemma blocked_not_decoded b address (P : Prop) : sc_kind (blocked b address) = SK_decoded -> P.
Proof. unfold blocked. cbn. by destruct (fb_kind b =b _). Qed.

(** The cases of [finish_complete] in which the next byte [get (u16 (a + n))]
    is read, and in which a last byte selects the form. *)
Ltac finish_read get a n H :=
  destruct (is_byte (get (u16 (a + n)))) eqn:H; cbn [negb];
  [|solve [apply blocked_not_decoded]].

Ltac finish_form space consumed b :=
  let Hf := fresh in let Hs := fresh in
  destruct (continuation_form space b) as [Hf Hs]; [apply fetch_u8|tauto|];
  intros _; eexists _, _, _, consumed;
  split_and!; [exact Hf|lia|lia|cbv zeta; rewrite Hs; by intros [|] |].

(** The shape of a decoded [finish]: it is [complete] after [consumed] bytes of
    the instruction proper, and any fetch function that agrees on the bytes read
    so far takes the same path. *)
Lemma finish_complete get `{!FetchTyped get} a k eff :
  0 <= k < kAddressSpace ->
  sc_kind (finish get a (get a) k eff (u16 (a + k))) = SK_decoded ->
  exists form extra opcode consumed,
    let finished get' := complete get' a (get a) k eff (u16 (a + k)) form extra opcode consumed in
    valid_form form /\ 1 <= consumed <= 3 /\
    (let f := form_descriptor form in f_space f = Sp_ddcb \/ f_space f = Sp_fdcb -> consumed = 3) /\
    forall get', (forall j, 0 <= j < k + consumed -> get' (u16 (a + j)) = get (u16 (a + j))) ->
      finish get' a (get a) k eff (u16 (a + k)) = finished get'.
Proof.
  intros Hk. unfold finish.
  destruct (is_byte (get (u16 (a + k)))) eqn:Hb; cbn [negb].
  2: { apply blocked_not_decoded. }
  pose proof (fetch_u8 (u16 (a + k))) as Hv.
  destruct (space_kinds (lead_space eff) _ Hv) as [Hkinds _].
  destruct (bc_kind _) eqn:Hkind; try done; rewrite ?u16_add_l;
    replace (a + k + 1) with (a + (k + 1)) by lia; replace (a + k + 2) with (a + (k + 2)) by lia.
  - destruct Hkinds as [Hf Hs]. intros _. eexists _, _, _, 1. split_and!; [exact Hf|lia|lia| |].
    { cbv zeta. rewrite Hs. by destruct eff; intros [|]. }
    intros get' Hag. rewrite Hag, Hb, Hkind by lia. reflexivity.
  - finish_read get a (k + 1) Hb1. finish_form Sp_cb 2 (fb_value (get (u16 (a + (k + 1))))).
    intros get' Hag. rewrite (Hag k), Hb, Hkind, (Hag (k + 1)), Hb1 by lia. reflexivity.
  - finish_read get a (k + 1) Hb1. finish_form Sp_ed 2 (fb_value (get (u16 (a + (k + 1))))).
    intros get' Hag. rewrite (Hag k), Hb, Hkind, (Hag (k + 1)), Hb1 by lia. reflexivity.
  - finish_read get a (k + 1) Hb1. finish_read get a (k + 2) Hb2.
    finish_form Sp_ddcb 3 (fb_value (get (u16 (a + (k + 2))))).
    intros get' Hag. rewrite (Hag k), Hb, Hkind, (Hag (k + 1)), Hb1, (Hag (k + 2)), Hb2 by lia. reflexivity.
  - finish_read get a (k + 1) Hb1. finish_read get a (k + 2) Hb2.
    finish_form Sp_fdcb 3 (fb_value (get (u16 (a + (k + 2))))).
    intros get' Hag. rewrite (Hag k), Hb, Hkind, (Hag (k + 1)), Hb1, (Hag (k + 2)), Hb2 by lia. reflexivity.
  - destruct Hkinds as (_ & Hf & Hs & _). intros _. eexists _, _, _, 1. split_and!; [exact Hf|lia|lia| |].
    { cbv zeta. rewrite Hs. by intros [|]. }
    intros get' Hag. rewrite Hag, Hb, Hkind by lia. reflexivity.
  - finish_read get a (k + 1) Hb1. finish_form Sp_ed 2 (fb_value (get (u16 (a + (k + 1))))).
    intros get' Hag. rewrite (Hag k), Hb, Hkind, (Hag (k + 1)), Hb1 by lia. reflexivity.
Qed.

(** [finish] depends only on the bytes its result accounts for. *)
Lemma finish_local get get' `{!FetchTyped get} a k eff :
  0 <= k < kAddressSpace ->
  let c := finish get a (get a) k eff (u16 (a + k)) in
  sc_kind c = SK_decoded ->
  (forall j, 0 <= j < p_logical_byte_count (di_provenance (sc_instruction c)) ->
     get' (u16 (a + j)) = get (u16 (a + j))) ->
  k < p_logical_byte_count (di_provenance (sc_instruction c)) /\
  finish get' a (get a) k eff (u16 (a + k)) = c.
Proof.
  intros Hk c Hdec Hag.
  destruct (finish_complete get a k eff Hk Hdec) as (form & extra & opcode & consumed & Hf & Hc & Hcb & Hsame).
  assert (E : c = complete get a (get a) k eff (u16 (a + k)) form extra opcode consumed).
  { apply Hsame. intros; reflexivity. }
  rewrite E in *. clear E c.
  pose proof (complete_count get a (get a) k eff (u16 (a + k)) form extra opcode consumed Hf Hk Hc Hdec) as Hn.
  cbv zeta in Hn.
  assert (Hge : k + consumed <= p_logical_byte_count (di_provenance (sc_instruction
     (complete get a (get a) k eff (u16 (a + k)) form extra opcode consumed)))).
  { rewrite Hn. destruct (layout_ok_all form Hf) as (_ & Hop & _ & _). destruct (_ || _); lia. }
  split; [lia|]. rewrite Hsame by (intros; apply Hag; lia).
  by apply complete_local.
Qed.

Lemma run_of_local get get' a k :
  run_of get a k -> (forall j, 0 <= j <= k -> get' (u16 (a + j)) = get (u16 (a + j))) ->
  run_of get' a k.
Proof.
  intros (Hk & Hp & Hn) Hag. split; [exact Hk|]. split.
  - intros j Hj. rewrite Hag by lia. apply Hp. lia.
  - rewrite Hag by lia. exact Hn.
Qed.

Lemma effective_of_local get get' a k :
  (forall j, 0 <= j <= k -> get' (u16 (a + j)) = get (u16 (a + j))) ->
  effective_of get' a k = effective_of get a k.
Proof.
  intros Hag. unfold effective_of. destruct (Z.ltb_spec 0 k); [|done].
  replace (a + k - 1) with (a + (k - 1)) by lia. by rewrite Hag by lia.
Qed.

Lemma decode_at_local get get' `{!FetchTyped get} a :
  is_u16 a -> let c := decode_at get a in
  sc_kind c = SK_decoded ->
  (forall j, 0 <= j < p_logical_byte_count (di_provenance (sc_instruction c)) ->
     get' (u16 (a + j)) = get (u16 (a + j))) ->
  decode_at get' a = c.
Proof.
  intros Ha c Hdec Hag. unfold c in *. clear c.
  destruct (run_or_all get a) as [[k Hrun]|Hall].
  2: { by rewrite decode_at_locked in Hdec by done. }
  rewrite (decode_at_run get a k Ha Hrun) in *.
  destruct (finish_local get get' a k (effective_of get a k) (proj1 Hrun) Hdec Hag) as [Hlt E].
  assert (Hk : forall j, 0 <= j <= k -> get' (u16 (a + j)) = get (u16 (a + j))).
  { intros j Hj. apply Hag. lia. }
  pose proof (Hk 0 ltac:(destruct Hrun; lia)) as H0. rewrite Z.add_0_r, u16_id in H0 by done.
  rewrite (decode_at_run get' a k Ha (run_of_local get get' a k Hrun Hk)).
  by rewrite (effective_of_local get get' a k Hk), H0.
Qed.

(** * The operand accessors *)

Lemma byte_at_u8 fetch `{!FetchTyped fetch} a j : is_u8 (byte_at fetch a j).
Proof. apply fetch_u8. Qed.

(** The displacement is the byte at the form's displacement index, signed. *)
Lemma displacement_decoded fetch a i :
  decoded_ok fetch a i -> let f := form_descriptor (di_form i) in
  displacement i =
    if f_displacement_index f =? kNoIndex then None
    else Some (i8 (byte_at fetch a (di_extra_prefix_count i + f_displacement_index f))).
Proof.
  intros Hok f. unfold displacement. fold f. destruct (Z.eqb_spec (f_displacement_index f) kNoIndex) as [|Hd]; [done|].
  destruct (layout_ok_all _ (proj1 (ok_form _ _ _ Hok))) as (Hlen & Hop & Him & Hl). fold f in Hlen, Hop, Him, Hl.
  pose proof (ok_operand_count _ _ _ Hok) as Hc. pose proof (ok_operand _ _ _ Hok 0) as Hv.
  cbv zeta in Hc, Hv. fold f in Hc, Hv. apply Z.eqb_neq in Hd. rewrite Hd in Hl. cbn [negb] in Hl.
  destruct (_ || _); (rewrite Hv by lia; do 3 f_equal; lia).
Qed.

(** The immediate is read little-endian at the form's immediate index. *)
Lemma immediate_decoded fetch `{!FetchTyped fetch} a i :
  decoded_ok fetch a i -> let f := form_descriptor (di_form i) in
  immediate i =
    if f_immediate_index f =? kNoIndex then None
    else
      let at_ := di_extra_prefix_count i + f_immediate_index f in
      Some (byte_at fetch a at_ + if f_immediate_size f =? 2 then 256 * byte_at fetch a (at_ + 1) else 0).
Proof.
  intros Hok f. unfold immediate. fold f. destruct (Z.eqb_spec (f_immediate_index f) kNoIndex) as [|Hi]; [done|].
  destruct (layout_ok_all _ (proj1 (ok_form _ _ _ Hok))) as (Hlen & Hop & Him & Hl). fold f in Hlen, Hop, Him, Hl.
  pose proof (ok_operand_count _ _ _ Hok) as Hc. pose proof (ok_operand _ _ _ Hok) as Hv.
  cbv zeta in Hc, Hv. fold f in Hc, Hv. destruct (_ || _); [lia|].
  destruct Hl as (_ & Hix & Hlen').
  assert (Hsz : f_immediate_size f <> 0).
  { intros E. rewrite E in Hix. done. }
  apply Z.eqb_neq in Hsz as Hsz'. rewrite Hsz' in Hix.
  set (base := if f_displacement_index f =? kNoIndex then 0 else 1).
  assert (Hb : (if negb (f_displacement_index f =? kNoIndex) then 1 else 0) = base)
    by (unfold base; by destruct (_ =? _)).
  rewrite Hb in *. assert (0 <= base <= 1) by (unfold base; destruct (_ =? _); lia). clearbody base.
  cbv zeta. rewrite (Hv base) by lia.
  replace (di_extra_prefix_count i + base + (f_opcode_index f + 1))
    with (di_extra_prefix_count i + f_immediate_index f) by lia.
  f_equal. destruct (Z.eqb_spec (f_immediate_size f) 2) as [H2|H2]; [|lia].
  rewrite (Hv (base + 1)) by lia.
  replace (di_extra_prefix_count i + (base + 1) + (f_opcode_index f + 1))
    with (di_extra_prefix_count i + f_immediate_index f + 1) by lia.
  pose proof (byte_at_u8 fetch a (di_extra_prefix_count i + f_immediate_index f)) as H0.
  pose proof (byte_at_u8 fetch a (di_extra_prefix_count i + f_immediate_index f + 1)) as H1.
  rewrite lor_shiftl_8 by done. apply u16_id. unfold is_u8, is_u16 in *. lia.
Qed.

(** * Timing *)

Definition timing_ok (f : FormDescriptor) : Prop :=
  1 <= f_m1_fetches f <= 2 /\ 4 * f_m1_fetches f <= primary (f_timing f) <= 23 /\
  match klass (f_timing f) with
  | TC_fixed => True
  | TC_halt => alternate (f_timing f) = 4
  | TC_conditional | TC_repeat =>
      primary (f_timing f) < alternate (f_timing f) <= primary (f_timing f) + 7
  end.

#[export] Instance timing_ok_dec f : Decision (timing_ok f).
Proof. unfold timing_ok. destruct (klass (f_timing f)); apply _. Defined.

Lemma timing_ok_all id : valid_form id -> timing_ok (form_descriptor id).
Proof.
  with_strategy transparent [form_descriptor] (revert id; by_valid_form).
Qed.

(** * Properties *)

(** A flat code image at address 0 for the examples. *)
Definition flat_fetch (bytes : list Z) : LogicalFetch := fun a =>
  if a <? zlen bytes then mkFetched FK_byte (u8 (znth bytes a 0)) 1 a else default_fetched.

#[export] Instance flat_fetch_typed bytes : FetchTyped (flat_fetch bytes).
Proof.
  intros a. unfold flat_fetch. destruct (_ <? _); [apply u8_range|by vm_compute].
Qed.

(** C2. The linear-time classification of the whole address space is exactly
    the per-start decoder at every 16-bit start, and has no other entry. *)
Theorem classify_all_decode_at (fetch : LogicalFetch) (a : Z) :
  classify_all fetch !! a = (if bool_decide (is_u16 a) then Some (decode_at fetch a) else None).
Proof.
  case_bool_decide as Ha; [by apply classify_all_lookup|].
  unfold classify_all. cbv zeta.
  set (body := fun a => finish _ _ _ _ _ _). clearbody body.
  destruct (_ =? kAddressSpace); (apply ztab_lookup_None; [by vm_compute|exact Ha]).
Qed.

(** The decoder is total and never guesses: every 16-bit start is decoded,
    locked or blocked ([excluded_form] is unreachable); it is locked exactly
    when the whole address space is one run of prefixes; and a blocked start
    names the first non-code byte after a stretch of resolved ones, with the
    kind of that byte. *)
Theorem decode_at_total (fetch : LogicalFetch) (Htyped : FetchTyped fetch) (a : Z) (Ha : is_u16 a) :
  let c := decode_at fetch a in
  sc_kind c <> SK_excluded_form /\
  (sc_kind c = SK_prefix_lock <-> all_prefixes fetch) /\
  (sc_kind c = SK_unresolved_fetch_mapping \/ sc_kind c = SK_mutable_code -> blocked_ok fetch a c).
Proof.
  cbv zeta. pose proof (decode_at_classified fetch a Ha) as Hc. unfold classified_ok in Hc.
  split_and!.
  - intros E. by rewrite E in Hc.
  - split; [intros E; by rewrite E in Hc|]. intros Hall. by rewrite decode_at_locked.
  - by intros [E|E]; rewrite E in Hc.
Qed.

Lemma decode_at_total_witness :
  sc_kind (decode_at (flat_fetch [0xDD; 0xCB; 0x05]) 0) = SK_mutable_code /\
  blocked_ok (flat_fetch [0xDD; 0xCB; 0x05]) 0 (decode_at (flat_fetch [0xDD; 0xCB; 0x05]) 0).
Proof.
  assert (E : sc_kind (decode_at (flat_fetch [0xDD; 0xCB; 0x05]) 0) = SK_mutable_code)
    by (vm_compute; reflexivity).
  split; [exact E|].
  refine (proj2 (proj2 (decode_at_total _ (flat_fetch_typed _) 0 _)) _); [by vm_compute|by right].
Defined.

(** Round trip: replaying the provenance of a decoded start through the same
    fetch function gives back its logical bytes, as many as its logical length
    (repeated prefixes plus the form's length), and the opcode, displacement and
    immediate are the bytes the form's indices point at (little-endian). *)
Theorem replay_decoded (fetch : LogicalFetch) (Htyped : FetchTyped fetch) (a : Z) (Ha : is_u16 a) :
  let i := sc_instruction (decode_at fetch a) in
  let f := form_descriptor (di_form i) in
  let e := di_extra_prefix_count i in
  sc_kind (decode_at fetch a) = SK_decoded ->
  exists bytes, replay_bytes fetch (di_provenance i) = Some bytes /\
    zlen bytes = logical_length i /\ logical_length i = e + f_length f /\
    p_opcode (di_provenance i) = znth bytes (e + f_opcode_index f) 0 /\
    (f_displacement_index f <> kNoIndex ->
       displacement i = Some (i8 (znth bytes (e + f_displacement_index f) 0))) /\
    (f_immediate_index f <> kNoIndex ->
       immediate i = Some (znth bytes (e + f_immediate_index f) 0 +
         if f_immediate_size f =? 2 then 256 * znth bytes (e + f_immediate_index f + 1) 0 else 0)).
Proof.
  cbv zeta. intros Hk. pose proof (decode_at_decoded fetch a Ha Hk) as Hok.
  set (i := sc_instruction (decode_at fetch a)) in *. clearbody i.
  pose proof (logical_length_count _ _ _ Hok) as Hn. pose proof (ok_count _ _ _ Hok) as Hc.
  pose proof (ok_extra _ _ _ Hok) as He.
  destruct (layout_ok_all _ (proj1 (ok_form _ _ _ Hok))) as (Hlen & Hop & Him & Hl).
  eexists. split; [by apply replay_bytes_decoded|].
  rewrite Hn, Hc in *. rewrite zlen_logical_bytes by lia. split_and!; [done|done| | |].
  - rewrite (ok_opcode _ _ _ Hok), znth_logical_bytes by lia. reflexivity.
  - intros Hd%Z.eqb_neq. rewrite (displacement_decoded fetch a) by done. rewrite Hd.
    rewrite Hd in Hl. cbn [negb] in Hl.
    rewrite znth_logical_bytes by (destruct (_ || _); lia). reflexivity.
  - intros Hi%Z.eqb_neq. rewrite (immediate_decoded fetch a) by done. rewrite Hi.
    apply Z.eqb_neq in Hi. destruct (_ || _); [lia|].
    destruct (Z.eqb_spec (f_immediate_size (form_descriptor (di_form i))) 0) as [|Hs]; [lia|].
    rewrite znth_logical_bytes by (destruct (negb _); lia).
    destruct (Z.eqb_spec (f_immediate_size (form_descriptor (di_form i))) 2); [|done].
    rewrite znth_logical_bytes by (destruct (negb _); lia). reflexivity.
Qed.

Lemma replay_decoded_witness :
  replay_bytes (flat_fetch [0xDD; 0xFD; 0x36; 0xFE; 0x7F])
    (di_provenance (sc_instruction (decode_at (flat_fetch [0xDD; 0xFD; 0x36; 0xFE; 0x7F]) 0)))
  = Some [0xDD; 0xFD; 0x36; 0xFE; 0x7F] /\
  logical_length (sc_instruction (decode_at (flat_fetch [0xDD; 0xFD; 0x36; 0xFE; 0x7F]) 0)) = 5.
Proof.
  destruct (replay_decoded (flat_fetch [0xDD; 0xFD; 0x36; 0xFE; 0x7F]) (flat_fetch_typed _) 0)
    as (bytes & E & Hl & _); [by vm_compute|by vm_compute|].
  split; [vm_compute; reflexivity|]. rewrite <- Hl.
  transitivity (zlen [0xDD; 0xFD; 0x36; 0xFE; 0x7F]); [|reflexivity].
  revert E. vm_compute. by intros [= <-].
Defined.

(** Locality: a decode is a function of the bytes it accounts for.  Two
    fetch functions that agree on the logical bytes of a decoded start decode it
    identically; this is what lets one changed byte of an image invalidate only
    the starts whose bytes contain it. *)
Theorem decode_at_depends_on_its_bytes (fetch fetch' : LogicalFetch) (Htyped : FetchTyped fetch)
    (a : Z) (Ha : is_u16 a) :
  let i := sc_instruction (decode_at fetch a) in
  sc_kind (decode_at fetch a) = SK_decoded ->
  (forall j, 0 <= j < logical_length i -> fetch' (u16 (a + j)) = fetch (u16 (a + j))) ->
  decode_at fetch' a = decode_at fetch a.
Proof.
  cbv zeta. intros Hk Hag. apply (decode_at_local fetch fetch' a); [done|done|].
  rewrite (logical_length_count fetch a) in Hag by (by apply decode_at_decoded). exact Hag.
Qed.

Lemma decode_at_depends_on_its_bytes_witness :
  decode_at (flat_fetch [0xC3; 0x34; 0x12; 0x77]) 0 = decode_at (flat_fetch [0xC3; 0x34; 0x12]) 0.
Proof.
  apply (decode_at_depends_on_its_bytes _ _ (flat_fetch_typed _) 0); [by vm_compute|by vm_compute|].
  intros j Hj.
  assert (E : logical_length (sc_instruction (decode_at (flat_fetch [0xC3; 0x34; 0x12]) 0)) = 3)
    by (vm_compute; reflexivity).
  rewrite E in Hj. assert (Hc : j = 0 \/ j = 1 \/ j = 2) by lia.
  by destruct Hc as [->|[->| ->]].
Defined.

(** Cycle counts: each ignored prefix costs one M1 fetch and four T states;
    a decoded start costs at least four T states per M1 fetch and at most 23
    plus the prefixes; only the alternate outcome of a conditional or repeating
    form costs more, by at most seven, and an idle HALT costs four whatever its
    prefixes. *)
Theorem decoded_timing (fetch : LogicalFetch) (Htyped : FetchTyped fetch) (a : Z) (Ha : is_u16 a) :
  let i := sc_instruction (decode_at fetch a) in
  let f := form_descriptor (di_form i) in
  let e := di_extra_prefix_count i in
  sc_kind (decode_at fetch a) = SK_decoded ->
  m1_fetches i = e + f_m1_fetches f /\
  4 * m1_fetches i <= t_states i TO_primary <= 23 + 4 * e /\
  match klass (f_timing f) with
  | TC_fixed => t_states i TO_alternate = t_states i TO_primary
  | TC_halt => t_states i TO_alternate = 4
  | TC_conditional | TC_repeat =>
      t_states i TO_primary < t_states i TO_alternate <= t_states i TO_primary + 7
  end.
Proof.
  cbv zeta. intros Hk. pose proof (decode_at_decoded fetch a Ha Hk) as Hok.
  set (i := sc_instruction (decode_at fetch a)) in *. clearbody i.
  pose proof (ok_extra _ _ _ Hok). pose proof (ok_prefixes _ _ _ Hok).
  destruct (timing_ok_all _ (proj1 (ok_form _ _ _ Hok))) as (Hm1 & Hp & Ha').
  unfold m1_fetches, t_states, kAddressSpace in *.
  rewrite u32_id by (unfold is_u32; lia).
  destruct (klass (f_timing (form_descriptor (di_form i))));
    repeat (case_bool_decide; try done); cbn [orb]; lia.
Qed.

Lemma decoded_timing_witness :
  m1_fetches (sc_instruction (decode_at (flat_fetch [0xDD; 0xFD; 0x34; 0x02]) 0)) = 3 /\
  t_states (sc_instruction (decode_at (flat_fetch [0xDD; 0xFD; 0x34; 0x02]) 0)) TO_primary <= 27.
Proof.
  destruct (decoded_timing (flat_fetch [0xDD; 0xFD; 0x34; 0x02]) (flat_fetch_typed _) 0)
    as (_ & [_ H] & _); [by vm_compute|by vm_compute|].
  split; [by vm_compute|].
  etransitivity; [exact H|]. by vm_compute.
Defined.
