(* ===== verification/Z80Effects.v ===== *)
(** The Z80 effect and successor projection:
    [libs/cpu/z80/include/segarecomp/cpu/z80/effects.hpp] and
    [libs/cpu/z80/src/effects.cpp].

    [project_effect] describes the register writes, the store and the control
    successors of an enumerated set of forms; every other form is unsupported.
    [base] and [index] are the two member functions of [Builder]: [None] is
    their [return false], [Some e] is [return true] with the effect built so
    far. *)

From S2P Require Import Prelude Z80Forms Z80Decode.

(** * Data *)

Inductive Reg : Type :=
| R_a | R_b | R_c | R_d | R_e | R_h | R_l | R_bc | R_de | R_hl | R_sp | R_ix | R_iy.

Definition reg_index (r : Reg) : Z :=
  match r with
  | R_a => 0 | R_b => 1 | R_c => 2 | R_d => 3 | R_e => 4 | R_h => 5 | R_l => 6
  | R_bc => 7 | R_de => 8 | R_hl => 9 | R_sp => 10 | R_ix => 11 | R_iy => 12
  end.

#[export] Instance reg_enum : Enum Reg.
Proof.
  refine {| enum_index := reg_index;
            enum_values := [R_a; R_b; R_c; R_d; R_e; R_h; R_l; R_bc; R_de; R_hl; R_sp; R_ix; R_iy] |}.
  by intros [].
Defined.

Definition is_wide (reg : Reg) : bool := reg_index R_bc <=? reg_index reg.

Inductive AddressKind : Type := AK_absolute | AK_register_relative.

#[export] Instance address_kind_eq_dec : EqDecision AddressKind.
Proof. solve_decision. Defined.

Record AddressExpr := mkAddress {
  ae_kind : AddressKind;
  ae_absolute : Z;
  ae_base : Reg;
  ae_offset : Z;
}.

#[export] Instance address_expr_eq_dec : EqDecision AddressExpr.
Proof. solve_decision. Defined.

Definition default_address : AddressExpr := mkAddress AK_absolute 0 R_hl 0.

Inductive ValueKind : Type := VK_constant | VK_copy | VK_add_constant | VK_load | VK_opaque.

#[export] Instance value_kind_eq_dec : EqDecision ValueKind.
Proof. solve_decision. Defined.

Record ValueExpr := mkValue {
  ve_kind : ValueKind;
  ve_constant : Z;
  ve_source : Reg;
  ve_delta : Z;
  ve_address : AddressExpr;
  ve_width : Z;
}.

#[export] Instance value_expr_eq_dec : EqDecision ValueExpr.
Proof. solve_decision. Defined.

Record RegisterWrite := mkWrite { rw_target : Reg; rw_value : ValueExpr }.

#[export] Instance register_write_eq_dec : EqDecision RegisterWrite.
Proof. solve_decision. Defined.

Record MemoryStore := mkStore { ms_address : AddressExpr; ms_width : Z; ms_value : ValueExpr }.

#[export] Instance memory_store_eq_dec : EqDecision MemoryStore.
Proof. solve_decision. Defined.

Inductive ControlKind : Type :=
| CK_fallthrough | CK_jump | CK_conditional_jump | CK_call | CK_return | CK_conditional_return
| CK_computed.

#[export] Instance control_kind_eq_dec : EqDecision ControlKind.
Proof. solve_decision. Defined.

Record Z80Effect := mkEffect {
  e_supported : bool;
  e_writes : list RegisterWrite;
  e_store : option MemoryStore;
  e_control : ControlKind;
  e_fallthrough : Z;
  e_target : Z;
  e_computed_base : Reg;
}.

#[export] Instance z80_effect_eq_dec : EqDecision Z80Effect.
Proof. solve_decision. Defined.

(** [Z80Effect{}]. *)
Definition default_effect : Z80Effect := mkEffect false [] None CK_fallthrough 0 0 R_hl.

(** * Register fields and expressions *)

Definition kR : list Reg := [R_b; R_c; R_d; R_e; R_h; R_l; R_a; R_a].
Definition kRr : list Reg := [R_bc; R_de; R_hl; R_sp].

Definition constant (value : Z) : ValueExpr := mkValue VK_constant value R_a 0 default_address 1.
Definition copy (source : Reg) : ValueExpr := mkValue VK_copy 0 source 0 default_address 1.
Definition add (source : Reg) (delta : Z) : ValueExpr :=
  mkValue VK_add_constant 0 source delta default_address 1.
Definition opaque : ValueExpr := mkValue VK_opaque 0 R_a 0 default_address 1.
Definition absolute (address : Z) : AddressExpr := mkAddress AK_absolute address R_hl 0.
Definition relative (base : Reg) (offset : Z) : AddressExpr :=
  mkAddress AK_register_relative 0 base offset.
Definition load (address : AddressExpr) (width : Z) : ValueExpr :=
  mkValue VK_load 0 R_a 0 address width.

(** * [Builder] *)

Record Builder := mkBuilder {
  b_inst : DecodedInstruction;
  b_desc : FormDescriptor;
  b_effect : Z80Effect;
  b_y : Z;
  b_z : Z;
}.

Definition new_builder (instruction : DecodedInstruction) : Builder :=
  let op := p_opcode (di_provenance instruction) in
  mkBuilder instruction (form_descriptor (di_form instruction))
    (mkEffect false [] None CK_fallthrough
       (u16 (p_address (di_provenance instruction) + logical_length instruction)) 0 R_hl)
    ((op .>> 3) .& 7) (op .& 7).

Section BUILDER.
Context (b : Builder).

Definition imm : Z := default 0 (immediate (b_inst b)).
Definition disp : Z := default 0 (displacement (b_inst b)).
Definition ry : Reg := znth kR (b_y b) R_a.
Definition rz : Reg := znth kR (b_z b) R_a.
Definition rp : Reg := znth kRr (b_y b .>> 1) R_bc.

Definition relative_target : Z := u16 (e_fallthrough (b_effect b) + i8 (imm .& 0xFF)).

(** The updates of [effect_]. *)
Definition write (target : Reg) (value : ValueExpr) (e : Z80Effect) : Z80Effect :=
  mkEffect (e_supported e) (e_writes e ++ [mkWrite target value]) (e_store e) (e_control e)
    (e_fallthrough e) (e_target e) (e_computed_base e).

Definition store (address : AddressExpr) (width : Z) (value : ValueExpr) (e : Z80Effect) : Z80Effect :=
  mkEffect (e_supported e) (e_writes e) (Some (mkStore address width value)) (e_control e)
    (e_fallthrough e) (e_target e) (e_computed_base e).

Definition jump (kind : ControlKind) (target : Z) (e : Z80Effect) : Z80Effect :=
  mkEffect (e_supported e) (e_writes e) (e_store e) kind (e_fallthrough e) target (e_computed_base e).

(** [effect_.control = kind;] *)
Definition control (kind : ControlKind) (e : Z80Effect) : Z80Effect :=
  jump kind (e_target e) e.

(** [effect_.control = computed; effect_.computed_base = reg;] *)
Definition computed (reg : Reg) (e : Z80Effect) : Z80Effect :=
  mkEffect (e_supported e) (e_writes e) (e_store e) CK_computed (e_fallthrough e) (e_target e) reg.

Definition set_supported (e : Z80Effect) : Z80Effect :=
  mkEffect true (e_writes e) (e_store e) (e_control e) (e_fallthrough e) (e_target e) (e_computed_base e).

Definition base : option Z80Effect :=
  let e := b_effect b in
  let m := f_mnemonic (b_desc b) in
  let d := f_dst (b_desc b) in
  let s := f_src (b_desc b) in
  match m with
  | M_nop => Some e
  | M_ld =>
      if (d =b Op_r) && (s =b Op_n) then Some (write ry (constant imm) e) else
      if (d =b Op_r) && (s =b Op_r) then Some (write ry (copy rz) e) else
      if (d =b Op_r) && (s =b Op_hl_ind) then Some (write ry (load (relative R_hl 0) 1) e) else
      if (d =b Op_hl_ind) && (s =b Op_r) then Some (store (relative R_hl 0) 1 (copy rz) e) else
      if (d =b Op_hl_ind) && (s =b Op_n) then Some (store (relative R_hl 0) 1 (constant imm) e) else
      if (d =b Op_rr) && (s =b Op_nn) then Some (write rp (constant imm) e) else
      if (d =b Op_a) && (s =b Op_rr_ind) then Some (write R_a (load (relative rp 0) 1) e) else
      if (d =b Op_rr_ind) && (s =b Op_a) then Some (store (relative rp 0) 1 (copy R_a) e) else
      if (d =b Op_a) && (s =b Op_nn_ind) then Some (write R_a (load (absolute imm) 1) e) else
      if (d =b Op_nn_ind) && (s =b Op_a) then Some (store (absolute imm) 1 (copy R_a) e) else
      if (d =b Op_hl) && (s =b Op_nn_ind) then Some (write R_hl (load (absolute imm) 2) e) else
      if (d =b Op_nn_ind) && (s =b Op_hl) then Some (store (absolute imm) 2 (copy R_hl) e) else
      if (d =b Op_sp) && (s =b Op_hl) then Some (write R_sp (copy R_hl) e) else
      None
  | M_inc | M_dec =>
      let delta := if m =b M_inc then 1 else -1 in
      if d =b Op_r then Some (write ry (add ry delta) e) else
      if d =b Op_rr then Some (write rp (add rp delta) e) else
      None
  | M_jp =>
      if (d =b Op_none) && (s =b Op_nn) then Some (jump CK_jump imm e) else
      if (d =b Op_cc) && (s =b Op_nn) then Some (jump CK_conditional_jump imm e) else
      if (d =b Op_none) && (s =b Op_hl) then Some (computed R_hl e) else
      None
  | M_jr => Some (jump (if d =b Op_none then CK_jump else CK_conditional_jump) relative_target e)
  | M_djnz => Some (jump CK_conditional_jump relative_target (write R_b (add R_b (-1)) e))
  | M_call =>
      if negb (d =b Op_none) then None
      else
        let e := write R_sp (add R_sp (-2)) e in
        let e := store (relative R_sp (-2)) 2 (constant (e_fallthrough e)) e in
        Some (jump CK_call imm e)
  | M_ret =>
      if d =b Op_cc then Some (control CK_conditional_return e)
      else Some (control CK_return (write R_sp (add R_sp 2) e))
  | _ =>
      if is_alu m && (d =b Op_a) && ((s =b Op_r) || (s =b Op_n) || (s =b Op_hl_ind))
      then Some (if negb (m =b M_cp) then write R_a opaque e else e)
      else None
  end.

Definition index : option Z80Effect :=
  let e := b_effect b in
  let m := f_mnemonic (b_desc b) in
  let d := f_dst (b_desc b) in
  let s := f_src (b_desc b) in
  let iy := f_space (b_desc b) =b Sp_fd in
  let x := if iy then R_iy else R_ix in
  let xr := if iy then Op_iy else Op_ix in
  let xd := if iy then Op_iy_d else Op_ix_d in
  match m with
  | M_ld =>
      if (d =b xr) && (s =b Op_nn) then Some (write x (constant imm) e) else
      if (d =b xr) && (s =b Op_nn_ind) then Some (write x (load (absolute imm) 2) e) else
      if (d =b Op_nn_ind) && (s =b xr) then Some (store (absolute imm) 2 (copy x) e) else
      if (d =b Op_r) && (s =b xd) then Some (write ry (load (relative x disp) 1) e) else
      if (d =b xd) && (s =b Op_r) then Some (store (relative x disp) 1 (copy rz) e) else
      if (d =b xd) && (s =b Op_n) then Some (store (relative x disp) 1 (constant imm) e) else
      if (d =b Op_sp) && (s =b xr) then Some (write R_sp (copy x) e) else
      None
  | M_inc | M_dec =>
      if d =b xr then Some (write x (add x (if m =b M_inc then 1 else -1)) e) else None
  | M_jp => if (d =b Op_none) && (s =b xr) then Some (computed x e) else None
  | _ =>
      if is_alu m && (d =b Op_a) && (s =b xd)
      then Some (if negb (m =b M_cp) then write R_a opaque e else e)
      else None
  end.

Definition builder_build : Z80Effect :=
  let built :=
    if f_space (b_desc b) =b Sp_base then base
    else if (f_space (b_desc b) =b Sp_dd) || (f_space (b_desc b) =b Sp_fd) then index
    else None in
  match built with
  | Some e => set_supported e
  | None => default_effect
  end.

End BUILDER.

Definition project_effect (instruction : DecodedInstruction) : Z80Effect :=
  if di_form instruction =? kNoForm then default_effect
  else builder_build (new_builder instruction).

(** * Names *)

Definition reg_name (reg : Reg) : string :=
  match reg with
  | R_a => "a" | R_b => "b" | R_c => "c" | R_d => "d" | R_e => "e" | R_h => "h" | R_l => "l"
  | R_bc => "bc" | R_de => "de" | R_hl => "hl" | R_sp => "sp" | R_ix => "ix" | R_iy => "iy"
  end.

Definition control_kind_name (kind : ControlKind) : string :=
  match kind with
  | CK_fallthrough => "fallthrough"
  | CK_jump => "jump"
  | CK_conditional_jump => "conditional_jump"
  | CK_call => "call"
  | CK_return => "return"
  | CK_conditional_return => "conditional_return"
  | CK_computed => "computed"
  end.

(** * Well-formed effects *)

Definition address_ok (a : AddressExpr) : Prop :=
  match ae_kind a with
  | AK_absolute => is_u16 (ae_absolute a)
  | AK_register_relative => is_wide (ae_base a) = true /\ -128 <= ae_offset a < 128
  end.

(** An expression for a register or store of 16 ([wide]) or 8 bits. *)
Definition value_ok (wide : bool) (v : ValueExpr) : Prop :=
  match ve_kind v with
  | VK_constant => if wide then is_u16 (ve_constant v) else is_u8 (ve_constant v)
  | VK_copy => is_wide (ve_source v) = wide
  | VK_add_constant => is_wide (ve_source v) = wide /\ -2 <= ve_delta v <= 2
  | VK_load => address_ok (ve_address v) /\ ve_width v = (if wide then 2 else 1)
  | VK_opaque => True
  end.

Definition write_ok (w : RegisterWrite) : Prop := value_ok (is_wide (rw_target w)) (rw_value w).

(** A store writes one or two bytes of a constant or of a register. *)
Definition store_ok (s : MemoryStore) : Prop :=
  address_ok (ms_address s) /\
  (ms_width s = 1 /\ value_ok false (ms_value s) \/ ms_width s = 2 /\ value_ok true (ms_value s)) /\
  (ve_kind (ms_value s) = VK_constant \/ ve_kind (ms_value s) = VK_copy).

Record effect_ok (e : Z80Effect) : Prop := {
  eo_writes : Forall write_ok (e_writes e);
  eo_one_write : (length (e_writes e) <= 1)%nat;
  eo_store : forall s, e_store e = Some s -> store_ok s;
  eo_target : is_u16 (e_target e);
  eo_fallthrough : is_u16 (e_fallthrough e);
  eo_base : is_wide (e_computed_base e) = true;
  eo_computed : e_control e = CK_computed -> e_writes e = [] /\ e_store e = None;
}.

(** What the two handlers need from their instruction: the immediate fits its
    operand class, and the register fields never select the [(HL)] slot. *)
Record builder_ok (b : Builder) : Prop := {
  bo_imm : is_u16 (imm b);
  bo_imm_n : f_src (b_desc b) = Op_n -> is_u8 (imm b);
  bo_disp : -128 <= disp b < 128;
  bo_y : 0 <= b_y b < 8;
  bo_z : 0 <= b_z b < 8;
  bo_initial : exists fallthrough, is_u16 fallthrough /\
    b_effect b = mkEffect false [] None CK_fallthrough fallthrough 0 R_hl;
}.

Lemma narrow_field y : 0 <= y < 8 -> is_wide (znth kR y R_a) = false.
Proof. revert y. refine (range_decide (fun y => _ = _) 8 _). by_evaluation. Qed.

Lemma wide_field y : 0 <= y < 8 -> is_wide (znth kRr (y .>> 1) R_bc) = true.
Proof. revert y. refine (range_decide (fun y => _ = _) 8 _). by_evaluation. Qed.

Lemma constant_ok (wide : bool) v :
  is_u16 v -> (wide = false -> is_u8 v) -> value_ok wide (constant v).
Proof. destruct wide; cbn; auto. Qed.

Lemma constant_wide_ok wide v : wide = true -> is_u16 v -> value_ok wide (constant v).
Proof. by intros ->. Qed.

Lemma constant_narrow_ok wide v : wide = false -> is_u8 v -> value_ok wide (constant v).
Proof. by intros ->. Qed.

Lemma load_ok (wide : bool) a width :
  address_ok a -> width = (if wide then 2 else 1) -> value_ok wide (load a width).
Proof. done. Qed.

Lemma copy_ok wide r : is_wide r = wide -> value_ok wide (copy r).
Proof. done. Qed.

Lemma add_ok wide r d : is_wide r = wide -> -2 <= d <= 2 -> value_ok wide (add r d).
Proof. done. Qed.

Lemma opaque_ok wide : value_ok wide opaque.
Proof. done. Qed.

Lemma store_constant_ok a c : address_ok a -> is_u8 c -> store_ok (mkStore a 1 (constant c)).
Proof. intros Ha Hc. split; [done|]. split; [by left|by left]. Qed.

Lemma store_copy_ok a width r :
  address_ok a -> width = (if is_wide r then 2 else 1) -> store_ok (mkStore a width (copy r)).
Proof.
  intros Ha ->. split; [done|]. split; [|by right]. cbn. destruct (is_wide r) eqn:E; auto.
Qed.

Lemma relative_ok r d : is_wide r = true -> -128 <= d < 128 -> address_ok (relative r d).
Proof. done. Qed.

Section HANDLERS.
Context (b : Builder) (Hb : builder_ok b).

Lemma ry_narrow : is_wide (ry b) = false.
Proof using Hb. apply narrow_field, Hb. Qed.

Lemma rz_narrow : is_wide (rz b) = false.
Proof using Hb. apply narrow_field, Hb. Qed.

Lemma rp_wide : is_wide (rp b) = true.
Proof using Hb. apply wide_field, Hb. Qed.

(** One register write, or one store, on the initial effect is well formed. *)
Lemma initial_ok : effect_ok (b_effect b).
Proof using Hb.
  destruct (bo_initial _ Hb) as (f & Hf & ->). constructor; try done. cbn. by constructor.
Qed.

Lemma write_initial_ok r v : value_ok (is_wide r) v -> effect_ok (write r v (b_effect b)).
Proof using Hb.
  intros Hv. destruct (bo_initial _ Hb) as (f & Hf & ->). constructor; try done; cbn.
  by constructor.
Qed.

Lemma store_initial_ok a w v : store_ok (mkStore a w v) -> effect_ok (store a w v (b_effect b)).
Proof using Hb.
  intros Hv. destruct (bo_initial _ Hb) as (f & Hf & ->). constructor; try done; cbn.
  - by constructor.
  - intros s [= <-]. done.
Qed.

Lemma computed_initial_ok r : is_wide r = true -> effect_ok (computed r (b_effect b)).
Proof using Hb.
  intros Hr. destruct (bo_initial _ Hb) as (f & Hf & ->). constructor; try done; cbn. by constructor.
Qed.

Lemma jump_ok kind target e :
  effect_ok e -> is_u16 target -> kind <> CK_computed -> effect_ok (jump kind target e).
Proof using Type. intros [] Ht Hk. constructor; done. Qed.

Lemma control_ok kind e : effect_ok e -> kind <> CK_computed -> effect_ok (control kind e).
Proof using Type. intros He Hk. apply jump_ok; [done|apply He|done]. Qed.

Lemma relative_target_u16 : is_u16 (relative_target b).
Proof using Type. apply u16_range. Qed.

Lemma call_ok :
  effect_ok (store (relative R_sp (-2)) 2 (constant (e_fallthrough (b_effect b)))
               (write R_sp (add R_sp (-2)) (b_effect b))).
Proof using Hb.
  destruct (bo_initial _ Hb) as (f & Hf & ->). constructor; try done; cbn.
  - constructor; [|done]. split; [done|]. cbn. lia.
  - intros s [= <-]. split_and!; [split; [done|]; cbn; lia|by right|by left].
Qed.

End HANDLERS.

Create HintDb effects.
#[export] Hint Resolve initial_ok write_initial_ok store_initial_ok computed_initial_ok jump_ok
  control_ok relative_target_u16 call_ok constant_wide_ok constant_narrow_ok load_ok copy_ok add_ok opaque_ok relative_ok
  store_constant_ok store_copy_ok bo_imm bo_imm_n bo_disp : effects.
#[export] Hint Extern 1 (~ _) => discriminate : effects.
#[export] Hint Extern 1 (_ <= _ <= _) => lia : effects.
#[export] Hint Extern 1 (_ <= _ < _) => lia : effects.
#[export] Hint Extern 2 (is_wide _ = _) =>
  rewrite ?ry_narrow, ?rz_narrow, ?rp_wide by assumption; reflexivity : effects.
#[export] Hint Extern 2 (_ = (if is_wide _ then _ else _)) =>
  rewrite ?ry_narrow, ?rz_narrow, ?rp_wide by assumption; reflexivity : effects.
#[export] Hint Extern 2 (address_ok (absolute _)) => unfold address_ok; cbn : effects.

(** Case analysis of a handler: each [return true] is an effect built from the
    initial one. *)
Ltac handler_cases :=
  repeat case_match; intros; simplify_eq; to_prop; eauto 6 with effects.

Lemma base_ok b e : builder_ok b -> base b = Some e -> effect_ok e.
Proof. intros Hb. unfold base. destruct (f_mnemonic _); handler_cases. Qed.

Lemma index_ok b e : builder_ok b -> index b = Some e -> effect_ok e.
Proof. intros Hb. unfold index. destruct (f_mnemonic _); handler_cases. Qed.

Lemma set_supported_ok e : effect_ok e -> effect_ok (set_supported e).
Proof. by intros []. Qed.

Lemma default_effect_ok : effect_ok default_effect.
Proof. constructor; try done. by constructor. Qed.

Lemma builder_build_ok b : builder_ok b -> effect_ok (builder_build b).
Proof.
  intros Hb. unfold builder_build.
  destruct (_ =b Sp_base); [|destruct (_ || _); [|exact default_effect_ok]].
  - destruct (base b) eqn:E; [|exact default_effect_ok]. apply set_supported_ok. by apply (base_ok b).
  - destruct (index b) eqn:E; [|exact default_effect_ok]. apply set_supported_ok. by apply (index_ok b).
Qed.

(** * Effects of decoded instructions *)

Lemma immediate_size_n id :
  valid_form id -> f_src (form_descriptor id) = Op_n -> f_immediate_size (form_descriptor id) = 1.
Proof. with_strategy transparent [form_descriptor] (revert id; by_valid_form). Qed.

Lemma field_range x n : 0 <= n -> 0 <= x .& (2 ^ n - 1) < 2 ^ n.
Proof. intros Hn. rewrite land_ones_mod by done. apply Z.mod_pos_bound. lia. Qed.

(** The successors of a supported effect, by mnemonic. *)
Definition control_spec (b : Builder) (e : Z80Effect) : Prop :=
  let m := f_mnemonic (b_desc b) in
  e_fallthrough e = e_fallthrough (b_effect b) /\
  match e_control e with
  | CK_jump | CK_conditional_jump | CK_call =>
      match m with
      | M_jr | M_djnz => e_target e = relative_target b
      | M_jp => f_src (b_desc b) = Op_nn /\ e_target e = imm b
      | M_call => e_target e = imm b
      | _ => False
      end
  | _ => True
  end /\
  (e_control e = CK_call ->
     e_writes e = [mkWrite R_sp (add R_sp (-2))] /\
     e_store e = Some (mkStore (relative R_sp (-2)) 2 (constant (e_fallthrough e)))) /\
  (e_control e = CK_return -> e_writes e = [mkWrite R_sp (add R_sp 2)] /\ e_store e = None).

Lemma handler_control b e :
  builder_ok b -> base b = Some e \/ index b = Some e -> control_spec b e.
Proof.
  intros Hb H. destruct (bo_initial _ Hb) as (ft & _ & E). unfold control_spec.
  destruct H as [H|H]; revert H; unfold base, index; rewrite E;
    destruct (f_mnemonic _); repeat case_match; intros; simplify_eq; to_prop; done.
Qed.

(** Branch targets are immediates of the size the handlers assume. *)
Definition branch_immediate_ok (f : FormDescriptor) : Prop :=
  match f_mnemonic f with
  | M_jr | M_djnz => f_immediate_size f = 1 /\ f_immediate_index f <> kNoIndex
  | M_jp => f_src f = Op_nn -> f_immediate_size f = 2 /\ f_immediate_index f <> kNoIndex
  | M_call => f_immediate_size f = 2 /\ f_immediate_index f <> kNoIndex
  | _ => True
  end.

#[export] Instance branch_immediate_ok_dec f : Decision (branch_immediate_ok f).
Proof. unfold branch_immediate_ok. destruct (f_mnemonic f); apply _. Defined.

Lemma branch_immediate_all id : valid_form id -> branch_immediate_ok (form_descriptor id).
Proof. with_strategy transparent [form_descriptor] (revert id; by_valid_form). Qed.

Lemma builder_build_cases b :
  builder_ok b -> e_supported (builder_build b) = true ->
  exists e, (base b = Some e \/ index b = Some e) /\ builder_build b = set_supported e.
Proof.
  intros Hb. unfold builder_build.
  destruct (_ =b Sp_base); [|destruct (_ || _); [|done]].
  - destruct (base b) as [e|]; [eauto|done].
  - destruct (index b) as [e|]; [eauto|done].
Qed.

Section DECODED.
Context (fetch : LogicalFetch) `{!FetchTyped fetch} (a : Z) (i : DecodedInstruction).
Context (Hok : decoded_ok fetch a i).

Lemma builder_of_decoded : builder_ok (new_builder i).
Proof using FetchTyped0 Hok.
  pose proof (immediate_decoded fetch a i Hok) as Hi. cbv zeta in Hi.
  pose proof (displacement_decoded fetch a i Hok) as Hd. cbv zeta in Hd.
  pose proof (byte_at_u8 fetch a) as Hu8. unfold is_u8 in Hu8.
  constructor; cbn [new_builder b_y b_z b_desc b_effect].
  - unfold imm. cbn. rewrite Hi. destruct (_ =? kNoIndex); cbn; [done|].
    pose proof (Hu8 (di_extra_prefix_count i + f_immediate_index (form_descriptor (di_form i)))).
    pose proof (Hu8 (di_extra_prefix_count i + f_immediate_index (form_descriptor (di_form i)) + 1)).
    unfold is_u16. destruct (_ =? 2); lia.
  - intros Hn. apply immediate_size_n in Hn; [|apply Hok].
    unfold imm. cbn. rewrite Hi, Hn. destruct (_ =? kNoIndex); cbn; [done|].
    rewrite Z.add_0_r. apply Hu8.
  - unfold disp. cbn. rewrite Hd. case_match; cbn; [lia|apply i8_range].
  - apply (field_range _ 3). lia.
  - apply (field_range _ 3). lia.
  - eexists. split; [apply u16_range|done].
Qed.

Lemma project_effect_decoded_ok : effect_ok (project_effect i).
Proof using FetchTyped0 Hok.
  unfold project_effect. destruct (_ =? kNoForm); [exact default_effect_ok|].
  apply builder_build_ok, builder_of_decoded.
Qed.

(** The first byte after the form's opcode and displacement. *)
Definition immediate_byte (n : Z) : Z :=
  byte_at fetch a (di_extra_prefix_count i + f_immediate_index (form_descriptor (di_form i)) + n).

Lemma imm_decoded :
  let f := form_descriptor (di_form i) in
  f_immediate_index f <> kNoIndex ->
  imm (new_builder i) = immediate_byte 0 + if f_immediate_size f =? 2 then 256 * immediate_byte 1 else 0.
Proof using FetchTyped0 Hok.
  cbv zeta. intros Hn%Z.eqb_neq. unfold imm. cbn.
  pose proof (immediate_decoded fetch a i Hok) as Hi. cbv zeta in Hi. rewrite Hi, Hn. cbn.
  unfold immediate_byte. by rewrite Z.add_0_r.
Qed.

Lemma project_effect_successors_decoded :
  let f := form_descriptor (di_form i) in
  let e := project_effect i in
  e_supported e = true ->
  e_fallthrough e = u16 (a + logical_length i) /\
  (e_control e = CK_jump \/ e_control e = CK_conditional_jump \/ e_control e = CK_call ->
     e_target e = if f_immediate_size f =? 2 then immediate_byte 0 + 256 * immediate_byte 1
                  else u16 (a + logical_length i + i8 (immediate_byte 0))) /\
  (e_control e = CK_call ->
     e_writes e = [mkWrite R_sp (add R_sp (-2))] /\
     e_store e = Some (mkStore (relative R_sp (-2)) 2 (constant (e_fallthrough e)))) /\
  (e_control e = CK_return -> e_writes e = [mkWrite R_sp (add R_sp 2)] /\ e_store e = None).
Proof using FetchTyped0 Hok.
  cbv zeta. pose proof builder_of_decoded as Hb. unfold project_effect.
  destruct (_ =? kNoForm); [done|]. intros Hs.
  destruct (builder_build_cases _ Hb Hs) as (e & He & ->).
  destruct (handler_control _ _ Hb He) as (Hf & Ht & Hc & Hr). cbn in Hf.
  pose proof (branch_immediate_all _ (proj1 (ok_form _ _ _ Hok))) as Himm.
  unfold branch_immediate_ok in Himm. cbn [new_builder b_desc] in Ht.
  cbn [set_supported e_fallthrough e_control e_target e_writes e_store].
  rewrite (ok_address _ _ _ Hok) in Hf. split_and!; [done| |done|done].
  intros Hk. assert (Hrel : f_immediate_size (form_descriptor (di_form i)) = 1 ->
      f_immediate_index (form_descriptor (di_form i)) <> kNoIndex ->
      relative_target (new_builder i) = u16 (a + logical_length i + i8 (immediate_byte 0))).
  { intros H1 Hn. unfold relative_target. rewrite imm_decoded, H1 by done. cbn.
    rewrite (ok_address _ _ _ Hok), Z.add_0_r, land_ff, (u8_id (immediate_byte 0)), u16_add_l
      by apply byte_at_u8, _. done. }
  assert (Habs : f_immediate_size (form_descriptor (di_form i)) = 2 ->
      f_immediate_index (form_descriptor (di_form i)) <> kNoIndex ->
      imm (new_builder i) = immediate_byte 0 + 256 * immediate_byte 1).
  { intros H2 Hn. by rewrite imm_decoded, H2 by done. }
  destruct Hk as [Hk|[Hk|Hk]]; rewrite Hk in Ht;
    destruct (f_mnemonic (form_descriptor (di_form i))); try done;
    repeat match goal with
    | H : _ /\ _ |- _ => destruct H
    | H : ?P -> _ /\ _, H' : ?P |- _ => specialize (H H')
    end;
    match goal with H : f_immediate_size _ = _ |- _ => rewrite H end; cbn; rewrite <- ?Habs, <- ?Hrel; done.
Qed.

End DECODED.

(** The two handlers reject an instruction by its form alone. *)
Lemma base_supported b b' : b_desc b = b_desc b' -> base b = None <-> base b' = None.
Proof. intros E. unfold base. rewrite E. destruct (f_mnemonic _); repeat case_match; done. Qed.

Lemma index_supported b b' : b_desc b = b_desc b' -> index b = None <-> index b' = None.
Proof. intros E. unfold index. rewrite E. destruct (f_mnemonic _); repeat case_match; done. Qed.

Lemma builder_supported b b' :
  b_desc b = b_desc b' -> e_supported (builder_build b) = e_supported (builder_build b').
Proof.
  intros E. pose proof (base_supported b b' E). pose proof (index_supported b b' E).
  unfold builder_build. rewrite E.
  repeat case_match; simplify_eq; try done; exfalso; intuition congruence.
Qed.

(** A representative instruction of a form. *)
Definition form_instance (form : Z) : DecodedInstruction :=
  mkDecoded default_provenance form 0.

Lemma project_effect_supported i :
  e_supported (project_effect i) = e_supported (project_effect (form_instance (di_form i))).
Proof.
  unfold project_effect. cbn. destruct (_ =? kNoForm); [done|]. by apply builder_supported.
Qed.

Open Scope string_scope.

(** The enumerated set of forms of the header of [effects.hpp], by name. *)
Definition alu_names : list string := ["add"; "adc"; "sub"; "sbc"; "and"; "xor"; "or"; "cp"].

Definition base_surface : list string :=
  app
    ["nop"; "ld.r_n"; "ld.r_r"; "ld.r_hl_ind"; "ld.hl_ind_r"; "ld.hl_ind_n"; "ld.rr_nn"; "ld.a_rr_ind";
     "ld.rr_ind_a"; "ld.a_nn_ind"; "ld.nn_ind_a"; "ld.hl_nn_ind"; "ld.nn_ind_hl"; "ld.sp_hl";
     "inc.r"; "dec.r"; "inc.rr"; "dec.rr"; "jp.nn"; "jp.cc_nn"; "jr.e"; "jr.cc4_e"; "djnz.e"; "call.nn";
     "ret"; "ret.cc"; "jp.hl"]
    (m ← alu_names; s ← ["r"; "n"; "hl_ind"]; [m +:+ ".a_" +:+ s]).

Definition index_surface (x : string) : list string :=
  app
    ["ld." +:+ x +:+ "_nn"; "ld." +:+ x +:+ "_nn_ind"; "ld.nn_ind_" +:+ x; "inc." +:+ x; "dec." +:+ x;
     "ld.r_" +:+ x +:+ "_d"; "ld." +:+ x +:+ "_d_r"; "ld." +:+ x +:+ "_d_n"; "ld.sp_" +:+ x; "jp." +:+ x]
    (m ← alu_names; [m +:+ ".a_" +:+ x +:+ "_d"]).

Definition supported_surface : list string :=
  app (n ← base_surface; [n +:+ ".base"])
    (app (n ← index_surface "ix"; [n +:+ ".dd"]) (n ← index_surface "iy"; [n +:+ ".fd"])).

Close Scope string_scope.

Lemma supported_surface_forms id :
  valid_form id ->
  (e_supported (project_effect (form_instance id)) = true <-> form_name id ∈ supported_surface).
Proof. with_strategy transparent [form_descriptor] (revert id; by_valid_form). Qed.

(** * Properties *)

Definition instruction_at (fetch : LogicalFetch) (a : Z) : DecodedInstruction :=
  sc_instruction (decode_at fetch a).

(** Every projected effect of a decoded start is well typed: at most one
    register write, whose value has the width of its target; a store of one or
    two bytes of a constant or register of that width; addresses absolute or a
    wide register plus a signed byte; targets in 16 bits; a computed jump reads
    a wide register and neither writes nor stores. *)
Theorem project_effect_ok (fetch : LogicalFetch) (Htyped : FetchTyped fetch) (a : Z) (Ha : is_u16 a) :
  sc_kind (decode_at fetch a) = SK_decoded -> effect_ok (project_effect (instruction_at fetch a)).
Proof.
  intros Hk. apply (project_effect_decoded_ok fetch a). by apply decode_at_decoded.
Qed.

Lemma project_effect_ok_witness :
  effect_ok (project_effect (instruction_at (flat_fetch [0xFD; 0x36; 0xFE; 0x7F]) 0)) /\
  e_store (project_effect (instruction_at (flat_fetch [0xFD; 0x36; 0xFE; 0x7F]) 0)) =
    Some (mkStore (relative R_iy (-2)) 1 (constant 0x7F)).
Proof.
  split; [|by_evaluation].
  apply (project_effect_ok _ (flat_fetch_typed _) 0); [by vm_compute|by_evaluation].
Defined.

(** The projection supports exactly the enumerated set of forms that the
    header documents: a decoded start has a supported effect iff the name of its
    form is in that list, whatever its operands, prefixes and address. *)
Theorem project_effect_surface (fetch : LogicalFetch) (Htyped : FetchTyped fetch) (a : Z) (Ha : is_u16 a) :
  sc_kind (decode_at fetch a) = SK_decoded ->
  (e_supported (project_effect (instruction_at fetch a)) = true <->
   form_name (di_form (instruction_at fetch a)) ∈ supported_surface).
Proof.
  intros Hk. rewrite project_effect_supported. apply supported_surface_forms.
  apply (ok_form fetch a). by apply decode_at_decoded.
Qed.

Lemma project_effect_surface_witness :
  form_name (di_form (instruction_at (flat_fetch [0xDD; 0x34; 0x01]) 0)) = "inc.ix_d.dd"%string /\
  ~ (form_name (di_form (instruction_at (flat_fetch [0xDD; 0x34; 0x01]) 0)) ∈ supported_surface).
Proof.
  split; [by_evaluation|].
  assert (Hk : sc_kind (decode_at (flat_fetch [0xDD; 0x34; 0x01]) 0) = SK_decoded) by by_evaluation.
  assert (Ha : is_u16 0) by (split; [discriminate|reflexivity]).
  intros H.
  pose proof (proj2 (project_effect_surface (flat_fetch [0xDD; 0x34; 0x01]) (flat_fetch_typed _) 0 Ha Hk) H) as Hs.
  assert (E : e_supported (project_effect (instruction_at (flat_fetch [0xDD; 0x34; 0x01]) 0)) = false)
    by by_evaluation.
  exact (Bool.diff_false_true (eq_trans (eq_sym E) Hs)).
Defined.

(** The control successors of a supported decoded start are the ones its
    bytes encode: it falls through to the byte after its last one (modulo
    65,536); an absolute branch goes to its little-endian immediate and a
    relative one to the fall-through plus the signed displacement byte; a call
    pushes exactly its fall-through below SP and a return pops two bytes. *)
Theorem project_effect_successors (fetch : LogicalFetch) (Htyped : FetchTyped fetch) (a : Z) (Ha : is_u16 a) :
  let i := instruction_at fetch a in
  let f := form_descriptor (di_form i) in
  let e := project_effect i in
  sc_kind (decode_at fetch a) = SK_decoded -> e_supported e = true ->
  e_fallthrough e = u16 (a + logical_length i) /\
  (e_control e = CK_jump \/ e_control e = CK_conditional_jump \/ e_control e = CK_call ->
     e_target e =
       if f_immediate_size f =? 2
       then immediate_byte fetch a i 0 + 256 * immediate_byte fetch a i 1
       else u16 (a + logical_length i + i8 (immediate_byte fetch a i 0))) /\
  (e_control e = CK_call ->
     e_writes e = [mkWrite R_sp (add R_sp (-2))] /\
     e_store e = Some (mkStore (relative R_sp (-2)) 2 (constant (e_fallthrough e)))) /\
  (e_control e = CK_return -> e_writes e = [mkWrite R_sp (add R_sp 2)] /\ e_store e = None).
Proof.
  cbv zeta. intros Hk Hs.
  exact (project_effect_successors_decoded fetch a _ (decode_at_decoded fetch a Ha Hk) Hs).
Qed.

Lemma project_effect_successors_witness :
  e_target (project_effect (instruction_at (flat_fetch [0x18; 0xFE]) 0)) = 0.
Proof.
  destruct (project_effect_successors _ (flat_fetch_typed [0x18; 0xFE]) 0) as (_ & Ht & _);
    [by vm_compute|by_evaluation|by_evaluation|].
  rewrite Ht; [by_evaluation|left; by_evaluation].
Defined.
