(* ===== verification/Z80Mutation.v ===== *)
(** The bounded finite-value analysis of a Z80 RAM image:
    [class Analyzer] of [libs/cpu/z80/src/mutation.cpp] up to its fixpoint
    ([libs/cpu/z80/include/segarecomp/cpu/z80/mutation.hpp]).

    An abstract value is unknown ([top]) or a sorted set of at most
    [max_values] 16-bit values; an abstract state has one per register slot.
    The theorems give the abstract operations their meaning over concrete
    register files and show that the worklist iteration stays within its budget
    and, when no bound was hit, ends in a post-fixpoint of the control-flow
    step. *)

From S2P Require Import Prelude Z80Forms Z80Decode Z80Effects.

(** * Data *)

Definition kRamBytes : Z := 8192.
Definition kCodeWindow : Z := 0x4000.

Record Limits := mkLimits {
  max_values : Z;
  max_starts : Z;
  max_revisits : Z;
  max_steps : Z;
}.

(** [Limits{}]. *)
Definition default_limits : Limits := mkLimits 16 16384 4 262144.

Inductive Slot : Type := sA | sB | sC | sD | sE | sH | sL | sIX | sIY | sSP.

#[export] Instance slot_eq_dec : EqDecision Slot.
Proof. solve_decision. Defined.

Definition slots : list Slot := [sA; sB; sC; sD; sE; sH; sL; sIX; sIY; sSP].

Definition kCauseEntry : Z := 0.
Definition kCauseCall : Z := 1.
Definition kCauseLoad : Z := 2.
Definition kCauseOpaque : Z := 3.
Definition kCauseWidened : Z := 4.
Definition kCauseOverflow : Z := 5.
Definition kCauseUnsupported : Z := 100.

Record Val := mkVal { top : bool; vs : list Z; cause : Z }.

#[export] Instance val_eq_dec : EqDecision Val.
Proof. solve_decision. Defined.

(** [std::array<Val, kSlots>]. *)
Record State := mkState {
  rA : Val; rB : Val; rC : Val; rD : Val; rE : Val; rH : Val; rL : Val; rIX : Val; rIY : Val; rSP : Val;
}.

Definition sget (s : State) (i : Slot) : Val :=
  match i with
  | sA => rA s | sB => rB s | sC => rC s | sD => rD s | sE => rE s | sH => rH s | sL => rL s
  | sIX => rIX s | sIY => rIY s | sSP => rSP s
  end.

Definition sset (s : State) (i : Slot) (v : Val) : State :=
  let f j := if bool_decide (j = i) then v else sget s j in
  mkState (f sA) (f sB) (f sC) (f sD) (f sE) (f sH) (f sL) (f sIX) (f sIY) (f sSP).

Definition top_val (c : Z) : Val := mkVal true [] c.
Definition singleton (x : Z) : Val := mkVal false [x] kCauseEntry.

Definition all_top (c : Z) : State :=
  let t := top_val c in mkState t t t t t t t t t t.

(** No register value is assumed after reset. *)
Definition reset_state : State := all_top kCauseEntry.

Definition slot_of (r : Reg) : option Slot :=
  match r with
  | R_a => Some sA | R_b => Some sB | R_c => Some sC | R_d => Some sD | R_e => Some sE
  | R_h => Some sH | R_l => Some sL | R_ix => Some sIX | R_iy => Some sIY | R_sp => Some sSP
  | _ => None
  end.

Definition pair_of (r : Reg) : option (Slot * Slot) :=
  match r with
  | R_bc => Some (sB, sC)
  | R_de => Some (sD, sE)
  | R_hl => Some (sH, sL)
  | _ => None
  end.

(** The mask of a written register or store of the given width. *)
Definition write_mask (w : RegisterWrite) : Z := if is_wide (rw_target w) then 0xFFFF else 0xFF.

(** * The abstract domain *)

Section DOMAIN.
Context (lim : Limits).

Definition normalize (l : list Z) : Val :=
  let v := sort_unique l in
  if max_values lim <? zlen v then top_val kCauseOverflow else mkVal false v kCauseEntry.

(** [s.r[slot_of(r)]]: every register that is not a pair has a slot. *)
Definition read_slot (s : State) (r : Reg) : Val :=
  match slot_of r with Some i => sget s i | None => top_val kCauseEntry end.

Definition read_reg (s : State) (r : Reg) : Val :=
  match pair_of r with
  | Some (hi, lo) =>
      let h := sget s hi in
      let l := sget s lo in
      if top h then h
      else if top l then l
      else if max_values lim <? zlen (vs h) * zlen (vs l) then top_val kCauseOverflow
      else normalize (x ← vs h; y ← vs l; [u16 ((x .<< 8) .| y)])
  | None => read_slot s r
  end.

Definition write_reg (s : State) (r : Reg) (v : Val) : State :=
  match pair_of r with
  | Some (hi, lo) =>
      if top v then sset (sset s hi v) lo v
      else
        sset (sset s hi (normalize (map (fun x => u16 (x .>> 8)) (vs v))))
          lo (normalize (map (fun x => u16 (x .& 0xFF)) (vs v)))
  | None => match slot_of r with Some i => sset s i v | None => s end
  end.

Definition map_val (f : Z -> Z) (v : Val) : Val :=
  if top v then v else normalize (map f (vs v)).

Definition eval (e : ValueExpr) (s : State) (mask : Z) : Val :=
  match ve_kind e with
  | VK_constant => singleton (u16 (ve_constant e .& mask))
  | VK_copy => map_val (fun x => u16 (x .& mask)) (read_reg s (ve_source e))
  | VK_add_constant => map_val (fun x => u16 ((x + ve_delta e) .& mask)) (read_reg s (ve_source e))
  | VK_load => top_val kCauseLoad
  | VK_opaque => top_val kCauseOpaque
  end.

Definition eval_address (a : AddressExpr) (s : State) : Val :=
  match ae_kind a with
  | AK_absolute => singleton (ae_absolute a)
  | AK_register_relative => map_val (fun x => u16 ((x + ae_offset a) .& 0xFFFF)) (read_reg s (ae_base a))
  end.

(** One slot of [join]: the new value, and whether it grew. *)
Definition join_val (d x : Val) : Val * bool :=
  if top d then (d, false)
  else if top x then (x, true)
  else
    let nv := normalize (vs d ++ vs x) in
    if negb (Bool.eqb (top nv) (top d)) || negb (vs nv =b vs d) then (nv, true) else (d, false).

Definition join (dst src : State) : State * bool :=
  fold_left (fun '(s, changed) i =>
    let '(d, grew) := join_val (sget s i) (sget src i) in
    (sset s i d, changed || grew)) slots (dst, false).

Definition transfer (s : State) (e : Z80Effect) : State :=
  let values := map (fun w => eval (rw_value w) s (write_mask w)) (e_writes e) in
  fold_left (fun out '(w, v) => write_reg out (rw_target w) v) (zip (e_writes e) values) s.

End DOMAIN.

(** * The worklist *)

Record Analysis := mkAnalysis {
  states : gmap Z State;
  revisits : gmap Z Z;
  queue : list Z;
  steps : Z;
  budget : bool;
}.

Definition initial_analysis : Analysis := mkAnalysis ∅ ∅ [] 0 false.

Definition set_budget (an : Analysis) : Analysis :=
  mkAnalysis (states an) (revisits an) (queue an) (steps an) true.

Section ANALYZER.
Context (lim : Limits) (classes : gmap Z StartClassification).

Definition class_at (pc : Z) : StartClassification := tget default_start classes pc.

Definition enqueue (pc : Z) (s : State) (an : Analysis) : Analysis :=
  match states an !! pc with
  | None =>
      if max_starts lim <=? Z.of_nat (size (states an)) then set_budget an
      else mkAnalysis (<[pc := s]> (states an)) (revisits an) (queue an ++ [pc]) (steps an) (budget an)
  | Some d =>
      let '(d', grew) := join lim d s in
      if negb grew then
        mkAnalysis (<[pc := d']> (states an)) (revisits an) (queue an) (steps an) (budget an)
      else
        let n := tget 0 (revisits an) pc + 1 in
        mkAnalysis (<[pc := if max_revisits lim <? n then all_top kCauseWidened else d']> (states an))
          (<[pc := n]> (revisits an)) (queue an ++ [pc]) (steps an) (budget an)
  end.

(** The mnemonics whose unsupported forms have no followed successor. *)
Definition unresolved_control (m : Mnemonic) : bool :=
  match m with
  | M_ret | M_reti | M_retn | M_jp | M_jr | M_djnz | M_call | M_rst => true
  | _ => false
  end.

(** The body of [fixpoint] for one start [pc] whose state is [s]. *)
Definition visit (pc : Z) (s : State) (an : Analysis) : Analysis :=
  let cls := class_at pc in
  if negb (sc_kind cls =b SK_decoded) then an
  else
    let eff := project_effect (sc_instruction cls) in
    let next := u16 (pc + logical_length (sc_instruction cls)) in
    if negb (e_supported eff) then
      let m := f_mnemonic (form_descriptor (di_form (sc_instruction cls))) in
      if unresolved_control m then an
      else enqueue next (all_top (u16 (kCauseUnsupported + mnemonic_index m))) an
    else
      let out := transfer lim s eff in
      match e_control eff with
      | CK_fallthrough => enqueue (e_fallthrough eff) out an
      | CK_jump => enqueue (e_target eff) out an
      | CK_conditional_jump => enqueue (e_fallthrough eff) out (enqueue (e_target eff) out an)
      | CK_call => enqueue (e_fallthrough eff) (all_top kCauseCall) (enqueue (e_target eff) out an)
      | CK_return => an
      | CK_conditional_return => enqueue (e_fallthrough eff) out an
      | CK_computed =>
          let base := read_reg lim s (e_computed_base eff) in
          if negb (top base) then fold_left (fun an t => enqueue t out an) (vs base) an else an
      end.

(** [states_.at(pc)]: every queued start has a state. *)
Definition state_at (an : Analysis) (pc : Z) : State :=
  default (all_top kCauseEntry) (states an !! pc).

Definition count_step (an : Analysis) : Analysis :=
  mkAnalysis (states an) (revisits an) (queue an) (steps an + 1) (budget an).

Definition pop_front (an : Analysis) : Analysis :=
  mkAnalysis (states an) (revisits an) (tail (queue an)) (steps an) (budget an).

(** [fixpoint]; [None] is the model's fuel bound only. *)
Fixpoint fixpoint_loop (fuel : nat) (an : Analysis) : option Analysis :=
  match queue an with
  | [] => Some an
  | pc :: _ =>
      let an := count_step an in
      if max_steps lim <? steps an then Some (set_budget an)
      else
        match fuel with
        | O => None
        | S fuel' => fixpoint_loop fuel' (visit pc (state_at an pc) (pop_front an))
        end
  end.

(** One unit of fuel per step left in the budget. *)
Definition fixpoint_fuel (an : Analysis) : nat := Z.to_nat (max_steps lim - steps an).

Definition fixpoint (an : Analysis) : Analysis :=
  default (set_budget an) (fixpoint_loop (fixpoint_fuel an) an).

Definition ei_reachable (an : Analysis) : bool :=
  existsb (fun '(pc, _) =>
    let c := class_at pc in
    (sc_kind c =b SK_decoded) &&
    (f_mnemonic (form_descriptor (di_form (sc_instruction c))) =b M_ei))
    (map_to_list (states an)).

Definition sp_union (an : Analysis) : Val :=
  let sps := map (fun '(_, s) => sget s sSP) (map_to_list (states an)) in
  if existsb top sps then top_val kCauseEntry else normalize lim (sps ≫= vs).

End ANALYZER.

(** * Concrete register files

    The meaning of the projection, as its header states it: all reads see the
    input state, registers hold 8 or 16 bits, pairs are big-endian. *)

Definition Regs : Type := Slot -> Z.
Definition Memory : Type := Z -> Z.

Definition modulus (wide : bool) : Z := if wide then 65536 else 256.

Definition slot_wide (i : Slot) : bool :=
  match i with sIX | sIY | sSP => true | _ => false end.

Definition regs_ok (regs : Regs) : Prop := forall i, 0 <= regs i < modulus (slot_wide i).

Definition set_slot (regs : Regs) (i : Slot) (x : Z) : Regs :=
  fun j => if bool_decide (j = i) then x else regs j.

Definition get_reg (regs : Regs) (r : Reg) : Z :=
  match r with
  | R_a => regs sA | R_b => regs sB | R_c => regs sC | R_d => regs sD | R_e => regs sE
  | R_h => regs sH | R_l => regs sL
  | R_bc => 256 * regs sB + regs sC
  | R_de => 256 * regs sD + regs sE
  | R_hl => 256 * regs sH + regs sL
  | R_ix => regs sIX | R_iy => regs sIY | R_sp => regs sSP
  end.

Definition put_reg (regs : Regs) (r : Reg) (x : Z) : Regs :=
  match pair_of r with
  | Some (hi, lo) => set_slot (set_slot regs hi (x / 256)) lo (x mod 256)
  | None => match slot_of r with Some i => set_slot regs i x | None => regs end
  end.

Definition address_of (regs : Regs) (a : AddressExpr) : Z :=
  match ae_kind a with
  | AK_absolute => ae_absolute a
  | AK_register_relative => (get_reg regs (ae_base a) + ae_offset a) mod 65536
  end.

Definition load_bytes (mem : Memory) (a width : Z) : Z :=
  if width =? 2 then mem a + 256 * mem ((a + 1) mod 65536) else mem a.

(** The values an expression may have; an opaque one is any value of its width. *)
Definition value_denotes (regs : Regs) (mem : Memory) (wide : bool) (e : ValueExpr) (x : Z) : Prop :=
  0 <= x < modulus wide /\
  match ve_kind e with
  | VK_constant => x = ve_constant e mod modulus wide
  | VK_copy => x = get_reg regs (ve_source e) mod modulus wide
  | VK_add_constant => x = (get_reg regs (ve_source e) + ve_delta e) mod modulus wide
  | VK_load => x = load_bytes mem (address_of regs (ve_address e)) (ve_width e)
  | VK_opaque => True
  end.

(** Executing the register writes of an effect. *)
Definition effect_step (mem : Memory) (e : Z80Effect) (regs regs' : Regs) : Prop :=
  exists xs,
    Forall2 (fun w x => value_denotes regs mem (is_wide (rw_target w)) (rw_value w) x) (e_writes e) xs /\
    regs' = fold_left (fun out '(w, x) => put_reg out (rw_target w) x) (zip (e_writes e) xs) regs.

(** * Meaning of the abstract domain *)

Definition in_val (v : Val) (x : Z) : Prop := top v = true \/ x ∈ vs v.
Definition in_state (s : State) (regs : Regs) : Prop := forall i, in_val (sget s i) (regs i).

(** [v] covers [w]: every value of [w] is a value of [v]. *)
Definition covers (s t : State) : Prop := forall regs, in_state t regs -> in_state s regs.

Lemma covers_refl s : covers s s.
Proof. by intros regs. Qed.

Lemma covers_trans s t u : covers s t -> covers t u -> covers s u.
Proof. intros H1 H2 regs H. by apply H1, H2. Qed.

Lemma sget_sset s i j v : sget (sset s i v) j = if bool_decide (j = i) then v else sget s j.
Proof. by destruct j. Qed.

Lemma sget_all_top c i : sget (all_top c) i = top_val c.
Proof. by destruct i. Qed.

Lemma in_all_top c regs : in_state (all_top c) regs.
Proof. intros i. rewrite sget_all_top. by left. Qed.

Lemma covers_all_top c s : covers (all_top c) s.
Proof. intros regs _. apply in_all_top. Qed.

Lemma elem_of_slots i : i ∈ slots.
Proof. destruct i; set_solver. Qed.

(** The mask of the source is reduction modulo the width. *)
Lemma write_mask_mod w x : u16 (x .& write_mask w) = x mod modulus (is_wide (rw_target w)).
Proof.
  unfold write_mask. destruct (is_wide _); cbn [modulus].
  - rewrite land_ffff. apply u16_u16.
  - rewrite land_ff. apply u16_u8.
Qed.

Lemma get_reg_range regs r : regs_ok regs -> 0 <= get_reg regs r < 65536.
Proof.
  intros H. pose proof (fun i => H i) as Hi.
  destruct r; cbn [get_reg];
    repeat match goal with
    | |- context [regs ?i] => lazymatch goal with
        | H' : 0 <= regs i < _ |- _ => fail
        | _ => pose proof (H i : 0 <= regs i < _)
        end
    end; cbn in *; lia.
Qed.

Lemma set_slot_ok regs i x :
  regs_ok regs -> 0 <= x < modulus (slot_wide i) -> regs_ok (set_slot regs i x).
Proof. intros H Hx j. unfold set_slot. by case_bool_decide; subst. Qed.

Lemma put_reg_ok regs r x :
  regs_ok regs -> 0 <= x < modulus (is_wide r) -> regs_ok (put_reg regs r x).
Proof.
  intros H Hx. destruct r; cbn in Hx; cbn;
    repeat apply set_slot_ok; auto; cbn;
    first [apply Z.mod_pos_bound; lia | split; [apply Z.div_pos; lia|apply Z.div_lt_upper_bound; lia]].
Qed.

Section SOUNDNESS.
Context (lim : Limits).

Lemma in_normalize l x : x ∈ l -> in_val (normalize lim l) x.
Proof using Type.
  intros Hx. unfold normalize. destruct (_ <? _); [by left|].
  right. cbn. by apply elem_of_sort_unique.
Qed.

Lemma in_map_val f v x : in_val v x -> in_val (map_val lim f v) (f x).
Proof using Type.
  unfold map_val. destruct (top v) eqn:Et; [by left|].
  intros [?|Hx]; [congruence|]. apply in_normalize. apply list_elem_of_fmap. eauto.
Qed.

Lemma in_read_pair h l x y :
  in_val h x -> in_val l y -> is_u8 x -> is_u8 y ->
  in_val (if top h then h
          else if top l then l
          else if max_values lim <? zlen (vs h) * zlen (vs l) then top_val kCauseOverflow
          else normalize lim (x ← vs h; y ← vs l; [u16 ((x .<< 8) .| y)])) (256 * x + y).
Proof using Type.
  intros Hx Hy Hux Huy. destruct (top h) eqn:Eh; [by left|]. destruct (top l) eqn:El; [by left|].
  destruct (_ <? _); [by left|]. destruct Hx as [?|Hx]; [congruence|]. destruct Hy as [?|Hy]; [congruence|].
  apply in_normalize. apply list_elem_of_bind. exists x. split; [|done].
  apply list_elem_of_bind. exists y. split; [|done].
  apply list_elem_of_singleton. rewrite Z.lor_comm, lor_shiftl_8 by done.
  rewrite u16_id; [lia|]. unfold is_u8, is_u16 in *. lia.
Qed.

Lemma in_read_reg s regs r :
  in_state s regs -> regs_ok regs -> in_val (read_reg lim s r) (get_reg regs r).
Proof using Type.
  intros Hs Hr.
  assert (H8 : forall i, slot_wide i = false -> is_u8 (regs i)).
  { intros i Hi. pose proof (Hr i) as H. by rewrite Hi in H. }
  destruct r; unfold read_reg, read_slot; cbn [pair_of slot_of get_reg]; try apply Hs;
    (apply in_read_pair; [apply Hs|apply Hs|by apply H8|by apply H8]).
Qed.

Lemma in_write_slot s regs i v x :
  in_state s regs -> in_val v x -> in_state (sset s i v) (set_slot regs i x).
Proof using Type.
  intros Hs Hv j. rewrite sget_sset. unfold set_slot. case_bool_decide; [done|apply Hs].
Qed.

Lemma in_write_reg s regs r v x :
  in_state s regs -> in_val v x -> 0 <= x < 65536 ->
  in_state (write_reg lim s r v) (put_reg regs r x).
Proof using Type.
  intros Hs Hv Hx. unfold write_reg, put_reg. destruct (pair_of r) as [[hi lo]|].
  - destruct (top v) eqn:Et; [repeat apply in_write_slot; [done|by left|by left]|].
    destruct Hv as [?|Hv]; [congruence|]. repeat apply in_write_slot; [done| |].
    + apply in_normalize, list_elem_of_fmap. exists x. split; [|done].
      rewrite Z.shiftr_div_pow2 by lia. change (2 ^ 8) with 256. symmetry. apply u16_id.
      split; [apply Z.div_pos; lia|apply Z.div_lt_upper_bound; lia].
    + apply in_normalize, list_elem_of_fmap. exists x. split; [|done].
      rewrite land_ff. symmetry. apply u16_u8.
  - destruct (slot_of r); [by apply in_write_slot|done].
Qed.

Lemma in_eval s regs mem w x :
  in_state s regs -> regs_ok regs ->
  value_denotes regs mem (is_wide (rw_target w)) (rw_value w) x ->
  in_val (eval lim (rw_value w) s (write_mask w)) x.
Proof using Type.
  intros Hs Hr [Hx Hd]. unfold eval. destruct (ve_kind (rw_value w)).
  - subst x. right. cbn. rewrite write_mask_mod. apply list_elem_of_singleton. done.
  - subst x. rewrite <- write_mask_mod. by apply (in_map_val (fun x => u16 (x .& write_mask w))), in_read_reg.
  - subst x. rewrite <- write_mask_mod.
    by apply (in_map_val (fun x => u16 ((x + ve_delta (rw_value w)) .& write_mask w))), in_read_reg.
  - by left.
  - by left.
Qed.

Lemma in_eval_address s regs a :
  in_state s regs -> regs_ok regs -> in_val (eval_address lim a s) (address_of regs a).
Proof using Type.
  intros Hs Hr. unfold eval_address, address_of. destruct (ae_kind a).
  - right. by apply list_elem_of_singleton.
  - change (?x mod 65536) with (u16 x). rewrite <- u16_u16, <- (land_ffff (_ + _)).
    apply (in_map_val (fun x => u16 ((x + ae_offset a) .& 65535))). by apply in_read_reg.
Qed.

(** Writing the abstract values of the writes covers writing the concrete ones. *)
Lemma in_fold_writes ws vals xs s regs :
  Forall2 (fun v x => in_val v x /\ 0 <= x < 65536) vals xs -> in_state s regs ->
  in_state (fold_left (fun out '(w, v) => write_reg lim out (rw_target w) v) (zip ws vals) s)
    (fold_left (fun out '(w, x) => put_reg out (rw_target w) x) (zip ws xs) regs).
Proof using Type.
  intros H. revert ws s regs. induction H as [|v x vals xs [Hv Hx] _ IH]; intros [|w ws] s regs Hs; try done.
  cbn. apply IH. by apply in_write_reg.
Qed.

Lemma in_transfer s regs mem e regs' :
  in_state s regs -> regs_ok regs -> effect_step mem e regs regs' -> in_state (transfer lim s e) regs'.
Proof using Type.
  intros Hs Hr (xs & Hxs & ->). unfold transfer. apply in_fold_writes; [|done].
  induction Hxs as [|w x ws xs Hd _ IH]; cbn; constructor; [|done].
  split; [by eapply in_eval|]. destruct Hd as [Hx _]. unfold modulus in Hx. destruct (is_wide _); lia.
Qed.

Lemma effect_step_ok mem e regs regs' :
  regs_ok regs -> effect_step mem e regs regs' -> regs_ok regs'.
Proof using Type.
  intros Hr (xs & Hxs & ->).
  assert (H : Forall2 (fun w x => 0 <= x < modulus (is_wide (rw_target w))) (e_writes e) xs).
  { eapply Forall2_impl; [exact Hxs|]. by intros w x []. }
  clear Hxs. revert regs Hr. induction H as [|w x ws xs Hx _ IH]; intros regs Hr; [done|].
  cbn. apply IH. by apply put_reg_ok.
Qed.

(** ** Join *)

Lemma join_val_spec d x d' grew :
  join_val lim d x = (d', grew) ->
  (forall n, in_val d n \/ in_val x n -> in_val d' n) /\ (grew = false -> d' = d).
Proof using Type.
  unfold join_val. destruct (top d) eqn:Ed.
  { intros [= <- <-]. split; [by left|done]. }
  destruct (top x) eqn:Ex.
  { intros [= <- <-]. split; [by left|done]. }
  assert (Hn : forall n, in_val d n \/ in_val x n -> in_val (normalize lim (vs d ++ vs x)) n).
  { intros n [[?|H]|[?|H]]; try congruence; apply in_normalize, elem_of_app; auto. }
  destruct (_ || _) eqn:E; intros [= <- <-]; [done|]. split; [|done].
  apply orb_false_iff in E as [Et Ev]. to_prop. apply eqb_prop in Et.
  intros n H. apply Hn in H as [H|H]; [congruence|]. right. by rewrite <- Ev.
Qed.

Definition join_step (src : State) : State * bool -> Slot -> State * bool :=
  fun '(s, changed) i =>
    let '(d, grew) := join_val lim (sget s i) (sget src i) in
    (sset s i d, changed || grew).

Lemma sset_same s i : sset s i (sget s i) = s.
Proof using Type. by destruct s, i. Qed.

Lemma join_fold_spec src l dst changed s c :
  fold_left (join_step src) l (dst, changed) = (s, c) ->
  (forall i n, in_val (sget dst i) n \/ (i ∈ l /\ in_val (sget src i) n) -> in_val (sget s i) n) /\
  (c = false -> s = dst /\ changed = false).
Proof using Type.
  revert dst changed. induction l as [|j l IH]; intros dst changed H.
  - injection H as <- <-. split; [|done]. intros i n [?|[H _]]; [done|]. by apply elem_of_nil in H.
  - cbn [fold_left join_step] in H. destruct (join_val lim (sget dst j) (sget src j)) as [d grew] eqn:E.
    apply join_val_spec in E as [Hin Hsame]. apply IH in H as [Hl Hc]. split.
    + intros i n Hi. apply Hl. rewrite sget_sset. case_bool_decide as Hij.
      * subst i. left. apply Hin. destruct Hi as [?|[_ ?]]; auto.
      * destruct Hi as [?|[Hi ?]]; [by left|]. right. split; [|done].
        apply elem_of_cons in Hi as [?|?]; [done|done].
    + intros ->. destruct (Hc eq_refl) as [-> Hch]. apply orb_false_iff in Hch as [-> ->].
      rewrite Hsame by done. by rewrite sset_same.
Qed.

Lemma join_spec dst src s grew :
  join lim dst src = (s, grew) ->
  covers s dst /\ covers s src /\ (grew = false -> s = dst).
Proof using Type.
  intros H. change (fold_left (join_step src) slots (dst, false) = (s, grew)) in H.
  apply join_fold_spec in H as [Hin Hsame]. split_and!.
  - intros regs Hr i. apply Hin. left. apply Hr.
  - intros regs Hr i. apply Hin. right. split; [apply elem_of_slots|apply Hr].
  - intros E. by apply Hsame.
Qed.

End SOUNDNESS.

(** * Concrete control flow *)

Section CONTROL_FLOW.
Context (lim : Limits) (classes : gmap Z StartClassification).

Definition instruction_of (pc : Z) : DecodedInstruction := sc_instruction (class_at classes pc).
Definition effect_at (pc : Z) : Z80Effect := project_effect (instruction_of pc).
Definition decoded_at (pc : Z) : Prop := sc_kind (class_at classes pc) = SK_decoded.

(** The start a supported effect continues at; a return has no static one. *)
Definition successor (e : Z80Effect) (regs : Regs) (pc' : Z) : Prop :=
  match e_control e with
  | CK_fallthrough | CK_conditional_return => pc' = e_fallthrough e
  | CK_jump | CK_call => pc' = e_target e
  | CK_conditional_jump => pc' = e_target e \/ pc' = e_fallthrough e
  | CK_return => False
  | CK_computed => pc' = get_reg regs (e_computed_base e)
  end.

(** One step of the unmodified image: a supported effect with any memory; the
    continuation of a call with any registers; the next start after an
    unsupported instruction that is not control flow, with any registers. *)
Inductive cstep : Z * Regs -> Z * Regs -> Prop :=
| step_effect pc regs mem regs' pc' :
    decoded_at pc -> e_supported (effect_at pc) = true ->
    effect_step mem (effect_at pc) regs regs' -> successor (effect_at pc) regs pc' ->
    cstep (pc, regs) (pc', regs')
| step_call_return pc regs regs' :
    decoded_at pc -> e_supported (effect_at pc) = true -> e_control (effect_at pc) = CK_call ->
    regs_ok regs' -> cstep (pc, regs) (e_fallthrough (effect_at pc), regs')
| step_unsupported pc regs regs' :
    decoded_at pc -> e_supported (effect_at pc) = false ->
    unresolved_control (f_mnemonic (form_descriptor (di_form (instruction_of pc)))) = false ->
    regs_ok regs' -> cstep (pc, regs) (u16 (pc + logical_length (instruction_of pc)), regs').

(** The analysis follows every step of [pc] except an unresolved computed jump. *)
Definition followed (pc : Z) (s : State) : Prop :=
  decoded_at pc -> e_supported (effect_at pc) = true -> e_control (effect_at pc) = CK_computed ->
  top (read_reg lim s (e_computed_base (effect_at pc))) = false.

(** Every step from a register file of [s] at [pc] lands in a state. *)
Definition closed (an : Analysis) (pc : Z) (s : State) : Prop :=
  followed pc s -> forall regs pc' regs',
  in_state s regs -> regs_ok regs -> cstep (pc, regs) (pc', regs') ->
  exists s', states an !! pc' = Some s' /\ in_state s' regs'.

(** ** How an analysis grows *)

Record extends (an an' : Analysis) : Prop := {
  ext_fwd : forall pc s, states an !! pc = Some s -> exists s', states an' !! pc = Some s' /\ covers s' s;
  ext_back : forall pc s, states an' !! pc = Some s -> pc ∈ queue an' \/ states an !! pc = Some s;
  ext_queue : forall pc, pc ∈ queue an -> pc ∈ queue an';
  ext_known : forall pc, pc ∈ queue an' -> pc ∈ queue an \/ is_Some (states an' !! pc);
  ext_budget : budget an = true -> budget an' = true;
  ext_steps : steps an' = steps an;
}.

Lemma extends_refl an : extends an an.
Proof using Type. constructor; auto. intros pc s H. exists s. split; [done|apply covers_refl]. Qed.

Lemma extends_trans an1 an2 an3 : extends an1 an2 -> extends an2 an3 -> extends an1 an3.
Proof using Type.
  intros H1 H2. constructor.
  - intros pc s Hs. destruct (ext_fwd _ _ H1 _ _ Hs) as (s2 & Hs2 & Hc2).
    destruct (ext_fwd _ _ H2 _ _ Hs2) as (s3 & Hs3 & Hc3). exists s3. split; [done|].
    by eapply covers_trans.
  - intros pc s Hs. destruct (ext_back _ _ H2 _ _ Hs) as [?|Hs2]; [by left|].
    destruct (ext_back _ _ H1 _ _ Hs2) as [?|?]; [left|by right]. by apply H2.
  - intros pc Hpc. by apply H2, H1.
  - intros pc Hpc. destruct (ext_known _ _ H2 _ Hpc) as [Hq|?]; [|by right].
    destruct (ext_known _ _ H1 _ Hq) as [?|[s Hs]]; [by left|right].
    destruct (ext_fwd _ _ H2 _ _ Hs) as (s' & -> & _). eauto.
  - intros Hb. by apply H2, H1.
  - rewrite (ext_steps _ _ H2). apply H1.
Qed.

(** [an] has a state for [pc] that covers [s], unless a bound was hit. *)
Definition covered (an : Analysis) (pc : Z) (s : State) : Prop :=
  budget an = true \/ exists s', states an !! pc = Some s' /\ covers s' s.

Lemma covered_extends an an' pc s : extends an an' -> covered an pc s -> covered an' pc s.
Proof using Type.
  intros H [Hb|(s1 & H1 & Hc1)]; [left; by apply H|right].
  destruct (ext_fwd _ _ H _ _ H1) as (s2 & H2 & Hc2). exists s2. split; [done|]. by eapply covers_trans.
Qed.

(** The common shape of the two growing branches of [enqueue]. *)
Lemma extends_push an pc s rv b :
  (forall d, states an !! pc = Some d -> covers s d) -> (budget an = true -> b = true) ->
  extends an (mkAnalysis (<[pc := s]> (states an)) rv (queue an ++ [pc]) (steps an) b).
Proof using Type.
  intros Hs Hb. constructor; cbn; [| | | |done|done].
  - intros q t Ht. destruct (decide (pc = q)) as [->|Hne].
    + exists s. split; [apply lookup_insert_eq|by apply Hs].
    + exists t. split; [by rewrite lookup_insert_ne|apply covers_refl].
  - intros q t. destruct (decide (pc = q)) as [->|Hne]; [left; set_solver|].
    rewrite lookup_insert_ne by done. auto.
  - intros q Hq. set_solver.
  - intros q Hq. apply elem_of_app in Hq as [?|Hq%list_elem_of_singleton]; [by left|right].
    subst. rewrite lookup_insert_eq. eauto.
Qed.

Lemma enqueue_spec pc s an :
  extends an (enqueue lim pc s an) /\ covered (enqueue lim pc s an) pc s.
Proof using Type.
  unfold enqueue. destruct (states an !! pc) as [d|] eqn:Hd.
  - destruct (join lim d s) as [d' grew] eqn:Ej. apply join_spec in Ej as (Hcd & Hcs & Hsame).
    destruct grew; cbn [negb].
    + set (s' := if _ <? _ then _ else d').
      assert (Hs' : covers s' d').
      { unfold s'. destruct (_ <? _); [apply covers_all_top|apply covers_refl]. }
      split.
      * apply extends_push; [|done]. intros d0 Hd0. simplify_eq. by eapply covers_trans.
      * right. exists s'. split; [apply lookup_insert_eq|]. by eapply covers_trans.
    + rewrite Hsame in * by done. rewrite insert_id by done.
      split; [destruct an; apply extends_refl|]. right. exists d. by split.
  - destruct (_ <=? _).
    + split; [|by left]. constructor; cbn; try by auto.
      intros q t Ht. exists t. split; [done|apply covers_refl].
    + split; [apply extends_push; [congruence|done]|].
      right. exists s. split; [apply lookup_insert_eq|apply covers_refl].
Qed.

Lemma enqueue_extends pc s an : extends an (enqueue lim pc s an).
Proof using Type. apply enqueue_spec. Qed.

Lemma enqueue_covered pc s an : covered (enqueue lim pc s an) pc s.
Proof using Type. apply enqueue_spec. Qed.

Lemma enqueue_fold_spec l s an :
  extends an (fold_left (fun an t => enqueue lim t s an) l an) /\
  forall t, t ∈ l -> covered (fold_left (fun an t => enqueue lim t s an) l an) t s.
Proof using Type.
  revert an. induction l as [|t l IH]; intros an; cbn.
  - split; [apply extends_refl|]. intros t Ht. by apply elem_of_nil in Ht.
  - destruct (IH (enqueue lim t s an)) as [He Hc]. split.
    + eapply extends_trans; [apply enqueue_extends|exact He].
    + intros t' [->|Ht]%elem_of_cons; [|by apply Hc].
      eapply covered_extends; [exact He|apply enqueue_covered].
Qed.

Lemma covered_twice pc s pc2 s2 an :
  covered (enqueue lim pc2 s2 (enqueue lim pc s an)) pc s.
Proof using Type. eapply covered_extends; [apply enqueue_extends|apply enqueue_covered]. Qed.

Lemma visit_extends pc s an : extends an (visit lim classes pc s an).
Proof using Type.
  unfold visit. destruct (negb _); [apply extends_refl|].
  destruct (negb _); [destruct (unresolved_control _); [apply extends_refl|apply enqueue_extends]|].
  destruct (e_control _); try apply extends_refl; try apply enqueue_extends;
    [eapply extends_trans; apply enqueue_extends..|].
  destruct (negb _); [apply enqueue_fold_spec|apply extends_refl].
Qed.

Lemma covered_in an pc s regs :
  budget an = false -> covered an pc s -> in_state s regs ->
  exists s', states an !! pc = Some s' /\ in_state s' regs.
Proof using Type. intros Hb [?|(s' & Hs & Hc)] Hin; [congruence|]. exists s'. split; [done|by apply Hc]. Qed.

(** Visiting a start covers every step it has been asked to follow. *)
Lemma visit_closed pc s an :
  budget (visit lim classes pc s an) = false -> closed (visit lim classes pc s an) pc s.
Proof using Type.
  intros Hb Hf regs pc' regs' Hs Hr Hstep.
  inversion Hstep as [? ? mem ? ? Hd Hsup Hes Hsucc|? ? ? Hd Hsup Hcall Hr'|? ? ? Hd Hsup Hctl Hr']; subst;
    unfold decoded_at in Hd; unfold followed, decoded_at in Hf; specialize (Hf Hd);
    unfold effect_at, instruction_of in *; revert Hb; unfold visit;
    rewrite bool_decide_true by exact Hd; cbn [negb]; rewrite Hsup; cbn [negb].
  - pose proof (in_transfer lim s regs mem _ regs' Hs Hr Hes) as Hin.
    unfold successor in Hsucc. destruct (e_control _) eqn:Hc; subst; intros Hb;
      try by (eapply covered_in; [exact Hb|apply enqueue_covered|exact Hin]).
    + destruct Hsucc as [->| ->]; (eapply covered_in; [exact Hb| |exact Hin]);
        [apply covered_twice|apply enqueue_covered].
    + eapply covered_in; [exact Hb|apply covered_twice|exact Hin].
    + done.
    + revert Hb. rewrite Hf by done. cbn [negb]. intros Hb.
      eapply covered_in; [exact Hb| |exact Hin]. apply enqueue_fold_spec.
      destruct (in_read_reg lim s regs (e_computed_base (project_effect (sc_instruction (class_at classes pc)))) Hs Hr)
        as [Ht|Hin']; [by rewrite Hf in Ht|done].
  - rewrite Hcall. intros Hb.
    eapply covered_in; [exact Hb|apply enqueue_covered|apply in_all_top].
  - rewrite Hctl. intros Hb. eapply covered_in; [exact Hb|apply enqueue_covered|apply in_all_top].
Qed.

(** ** The worklist invariant *)

Record worklist_ok (an : Analysis) : Prop := {
  wl_closed : budget an = true \/
    forall pc s, states an !! pc = Some s -> pc ∈ queue an \/ closed an pc s;
  wl_known : forall pc, pc ∈ queue an -> is_Some (states an !! pc);
}.

Lemma closed_grows an an' pc s :
  (forall q t, states an !! q = Some t -> exists t', states an' !! q = Some t' /\ covers t' t) ->
  closed an pc s -> closed an' pc s.
Proof using Type.
  intros Hg Hc Hf regs pc' regs' Hs Hr Hstep.
  destruct (Hc Hf regs pc' regs' Hs Hr Hstep) as (t & Ht & Hin).
  destruct (Hg _ _ Ht) as (t' & Ht' & Hcov). exists t'. split; [done|by apply Hcov].
Qed.

Lemma worklist_extends an an' : extends an an' -> worklist_ok an -> worklist_ok an'.
Proof using Type.
  intros He [Hc Hk]. constructor.
  - destruct Hc as [Hb|Hc]; [left; by apply He|]. right. intros pc s Hs.
    destruct (ext_back _ _ He _ _ Hs) as [?|Hs0]; [by left|].
    destruct (Hc _ _ Hs0) as [?|Hcl]; [left; by apply He|right].
    by apply (closed_grows an); [apply He|].
  - intros pc Hpc. destruct (ext_known _ _ He _ Hpc) as [Hq|?]; [|done].
    destruct (Hk _ Hq) as [s Hs]. destruct (ext_fwd _ _ He _ _ Hs) as (s' & -> & _). eauto.
Qed.

Lemma visit_worklist an pc q :
  queue an = pc :: q -> worklist_ok an ->
  worklist_ok (visit lim classes pc (state_at (count_step an) pc) (pop_front (count_step an))).
Proof using Type.
  intros Hq [Hc Hk]. set (s := state_at _ _). set (an1 := pop_front _).
  assert (Hst : states an !! pc = Some s).
  { destruct (Hk pc) as [t Ht]; [rewrite Hq; left|]. unfold s, state_at. cbn. by rewrite Ht. }
  assert (Hq1 : queue an1 = q) by (unfold an1; cbn; by rewrite Hq).
  pose proof (visit_extends pc s an1) as He. set (an2 := visit _ _ _ _ _) in *.
  constructor.
  - destruct (budget an2) eqn:Hb; [by left|]. right. intros pc0 s0 Hs0.
    destruct (ext_back _ _ He _ _ Hs0) as [?|Hs1]; [by left|]. change (states an1) with (states an) in Hs1.
    destruct Hc as [Hb'|Hc].
    { assert (budget an2 = true) by (apply He; exact Hb'). congruence. }
    destruct (decide (pc0 = pc)) as [->|Hne].
    { right. simplify_eq. by apply visit_closed. }
    destruct (Hc _ _ Hs1) as [Hin|Hcl].
    + left. apply He. rewrite Hq1. rewrite Hq in Hin. by apply elem_of_cons in Hin as [?|?].
    + right. apply (closed_grows an1); [apply He|exact Hcl].
  - intros pc0 Hpc0. destruct (ext_known _ _ He _ Hpc0) as [Hin|?]; [|done].
    destruct (Hk pc0) as [t Ht]; [rewrite Hq; right; by rewrite <- Hq1|].
    destruct (ext_fwd an1 an2 He pc0 t Ht) as (t' & -> & _). eauto.
Qed.

(** What [fixpoint] guarantees of the analysis it returns. *)
Record finished (an an' : Analysis) : Prop := {
  fin_ok : worklist_ok an';
  fin_done : queue an' = [] \/ budget an' = true;
  fin_fwd : forall pc s, states an !! pc = Some s -> exists s', states an' !! pc = Some s' /\ covers s' s;
  fin_budget : budget an = true -> budget an' = true;
  fin_steps : steps an <= max_steps lim -> steps an <= steps an' <= max_steps lim + 1;
}.

Lemma fixpoint_loop_spec fuel an :
  worklist_ok an -> max_steps lim - steps an <= Z.of_nat fuel ->
  exists an', fixpoint_loop lim classes fuel an = Some an' /\ finished an an'.
Proof using Type.
  revert an. induction fuel as [|fuel IH]; intros an Hok Hfuel; cbn [fixpoint_loop];
    destruct (queue an) as [|pc q] eqn:Hq.
  1, 3: exists an; split; [done|]; constructor; [done|by left|eauto using covers_refl|done|lia].
  all: cbn [count_step steps]; destruct (Z.ltb_spec (max_steps lim) (steps an + 1)) as [Hlt|Hge].
  1, 3: eexists; split; [done|]; constructor; cbn; [|by right|eauto using covers_refl|done|lia];
    constructor; [by left|apply Hok].
  - lia.
  - pose proof (visit_worklist an pc q Hq Hok) as Hok2.
    pose proof (visit_extends pc (state_at (count_step an) pc) (pop_front (count_step an))) as He.
    set (an2 := visit _ _ _ _ _) in *.
    pose proof (ext_steps _ _ He) as Hst. cbn in Hst.
    destruct (IH an2 Hok2 ltac:(lia)) as (an' & E & Hfin). exists an'. split; [exact E|].
    destruct Hfin. constructor; [done|done| |intros Hb; apply fin_budget0, He; exact Hb|lia].
    intros pc0 s0 Hs0. destruct (ext_fwd _ _ He pc0 s0 Hs0) as (s1 & Hs1 & Hc1).
    destruct (fin_fwd0 _ _ Hs1) as (s2 & Hs2 & Hc2). exists s2. split; [done|]. by eapply covers_trans.
Qed.

(** The iteration always returns: its fuel is the step budget. *)
Lemma fixpoint_spec an : worklist_ok an -> finished an (fixpoint lim classes an).
Proof using Type.
  intros Hok. unfold fixpoint.
  destruct (fixpoint_loop_spec (fixpoint_fuel lim an) an Hok) as (an' & -> & Hfin); [unfold fixpoint_fuel; lia|].
  exact Hfin.
Qed.

End CONTROL_FLOW.

(** * The step budget *)

(** The sum of a table of counters. *)
Definition total (m : gmap Z Z) : Z := map_fold (fun _ n acc => n + acc) 0 m.

Lemma total_insert m k n : total (<[k := n]> m) = total m - tget 0 m k + n.
Proof.
  unfold total, tget.
  assert (Hi : forall m' : gmap Z Z, m' !! k = None ->
    map_fold (fun _ n acc => n + acc) 0 (<[k := n]> m') = n + map_fold (fun _ n acc => n + acc) 0 m').
  { intros m' Hm'. by rewrite map_fold_insert_L by (done || (intros; lia)). }
  destruct (m !! k) as [n0|] eqn:Hk; cbn [default from_option id].
  - rewrite (map_fold_delete_L _ _ k n0 m) by (done || (intros; lia)).
    rewrite <- insert_delete_eq, Hi by apply lookup_delete_eq. lia.
  - rewrite Hi by done. lia.
Qed.

Lemma total_bound m b :
  0 <= b -> (forall k n, m !! k = Some n -> n <= b) -> total m <= b * Z.of_nat (size m).
Proof.
  intros Hb. unfold total. induction m as [|k n m Hk IH] using map_ind; intros Hm.
  - rewrite map_fold_empty, map_size_empty. lia.
  - rewrite map_fold_insert_L, map_size_insert_None by (done || (intros; lia)).
    specialize (Hm k n (lookup_insert_eq _ _ _)) as Hn.
    assert (IH' := IH (fun j x Hj => Hm j x ltac:(rewrite lookup_insert_ne by congruence; exact Hj))).
    lia.
Qed.

Section BUDGET.
Context (lim : Limits) (classes : gmap Z StartClassification) (Hrev : 0 <= max_revisits lim).

(** Every push is either the first visit of a start or one of its at most
    [max_revisits + 1] revisits: a widened state cannot grow again. *)
Record accounted (an : Analysis) : Prop := {
  ac_sum : steps an + zlen (queue an) = Z.of_nat (size (states an)) + total (revisits an);
  ac_known : forall pc, is_Some (revisits an !! pc) -> is_Some (states an !! pc);
  ac_count : forall pc, tget 0 (revisits an) pc <= max_revisits lim + 1;
  ac_widened : forall pc s, states an !! pc = Some s ->
    max_revisits lim < tget 0 (revisits an) pc -> forall i, top (sget s i) = true;
  ac_budget : budget an = true -> max_starts lim <= Z.of_nat (size (states an));
}.

Lemma join_top dst src :
  (forall i, top (sget dst i) = true) -> join lim dst src = (dst, false).
Proof using Type.
  intros Ht. unfold join. generalize slots. intros l.
  induction l as [|i l IH]; [done|]. cbn [fold_left]. unfold join_val at 2. rewrite Ht.
  by rewrite sset_same.
Qed.

Lemma enqueue_accounted pc s an : accounted an -> accounted (enqueue lim pc s an).
Proof using Hrev.
  intros [Hsum Hk Hcnt Hw Hbud]. unfold enqueue. destruct (states an !! pc) as [d|] eqn:Hd.
  - destruct (join lim d s) as [d' grew] eqn:Ej. pose proof (join_spec _ _ _ _ _ Ej) as (_ & _ & Hsame).
    destruct grew; cbn [negb].
    + assert (Hlt : tget 0 (revisits an) pc <= max_revisits lim).
      { destruct (decide (max_revisits lim < tget 0 (revisits an) pc)) as [Hg|]; [|lia].
        rewrite (join_top d s (Hw pc d Hd Hg)) in Ej. congruence. }
      constructor; cbn.
      * rewrite zlen_snoc, total_insert, map_size_insert_Some by eauto. lia.
      * intros q. destruct (decide (pc = q)) as [->|Hne]; [rewrite !lookup_insert_eq; eauto|].
        rewrite !lookup_insert_ne by done. auto.
      * intros q. destruct (decide (pc = q)) as [->|Hne]; [rewrite tget_insert_eq; lia|].
        rewrite tget_insert_ne by done. auto.
      * intros q t. destruct (decide (pc = q)) as [->|Hne].
        -- rewrite lookup_insert_eq, tget_insert_eq. intros [= <-] Hlt'.
           destruct (Z.ltb_spec (max_revisits lim) (tget 0 (revisits an) q + 1)); [|lia].
           intros i. by rewrite sget_all_top.
        -- rewrite lookup_insert_ne, tget_insert_ne by done. apply Hw.
      * intros Hb. rewrite map_size_insert_Some by eauto. auto.
    + rewrite Hsame, insert_id by done. by constructor.
  - destruct (Z.leb_spec (max_starts lim) (Z.of_nat (size (states an)))); [by constructor|].
    constructor; cbn.
    + rewrite zlen_snoc, map_size_insert_None by done. lia.
    + intros q Hq. destruct (decide (pc = q)) as [->|Hne]; [rewrite !lookup_insert_eq; eauto|].
      rewrite lookup_insert_ne by done. auto.
    + done.
    + intros q t. destruct (decide (pc = q)) as [->|Hne].
      * rewrite lookup_insert_eq. intros [= <-] Hlt. unfold tget in Hlt.
        destruct (revisits an !! q) as [n|] eqn:Hn; cbn in Hlt; [|lia].
        destruct (Hk q) as [t Ht]; [eauto|congruence].
      * rewrite lookup_insert_ne by done. apply Hw.
    + intros Hb. rewrite map_size_insert_None by done. specialize (Hbud Hb). lia.
Qed.

Lemma enqueue_fold_accounted l s an :
  accounted an -> accounted (fold_left (fun an t => enqueue lim t s an) l an).
Proof using Hrev.
  revert an. induction l as [|t l IH]; intros an H; [done|]. cbn. by apply IH, enqueue_accounted.
Qed.

Lemma visit_accounted pc s an : accounted an -> accounted (visit lim classes pc s an).
Proof using Hrev.
  intros H. unfold visit. repeat case_match; auto using enqueue_accounted, enqueue_fold_accounted.
Qed.

Lemma pop_accounted pc q an :
  queue an = pc :: q -> accounted an -> accounted (pop_front (count_step an)).
Proof using Type.
  intros Hq [Hsum Hk Hcnt Hw Hbud]. constructor; cbn; [|done|done|done|done].
  rewrite Hq in *. rewrite zlen_cons in Hsum. cbn. lia.
Qed.

Lemma accounted_steps an :
  accounted an -> steps an + zlen (queue an) <= (max_revisits lim + 2) * Z.of_nat (size (states an)).
Proof using Hrev.
  intros [Hsum Hk Hcnt Hw _]. rewrite Hsum.
  pose proof (total_bound (revisits an) (max_revisits lim + 1) ltac:(lia)) as Ht.
  assert (Hle : (size (revisits an) <= size (states an))%nat).
  { rewrite <- !(size_dom (D := gset Z)). apply subseteq_size. intros pc. rewrite !elem_of_dom. apply Hk. }
  specialize (Ht ltac:(intros k n Hn; specialize (Hcnt k); unfold tget in Hcnt; rewrite Hn in Hcnt; exact Hcnt)).
  nia.
Qed.

(** The size of the analysis. *)
Definition bounded (an : Analysis) : Prop := Z.of_nat (size (states an)) <= max_starts lim.

Lemma enqueue_bounded pc s an : bounded an -> bounded (enqueue lim pc s an).
Proof using Type.
  unfold bounded, enqueue. intros H. destruct (states an !! pc) as [d|] eqn:Hd.
  - destruct (join lim d s) as [d' []]; cbn; rewrite map_size_insert_Some by eauto; exact H.
  - destruct (Z.leb_spec (max_starts lim) (Z.of_nat (size (states an)))) as [|Hlt]; [done|].
    cbn. rewrite map_size_insert_None by done. lia.
Qed.

Lemma enqueue_fold_bounded l s an :
  bounded an -> bounded (fold_left (fun an t => enqueue lim t s an) l an).
Proof using Type.
  revert an. induction l as [|t l IH]; intros an H; [done|]. cbn. by apply IH, enqueue_bounded.
Qed.

Lemma visit_bounded pc s an : bounded an -> bounded (visit lim classes pc s an).
Proof using Type.
  intros H. unfold visit. repeat case_match; auto using enqueue_bounded, enqueue_fold_bounded.
Qed.

(** When the bounds are compatible, no call of [fixpoint] runs out of steps. *)
Definition steps_suffice : Prop := (max_revisits lim + 2) * max_starts lim <= max_steps lim.

Lemma fixpoint_loop_accounted fuel an :
  steps_suffice -> accounted an -> bounded an ->
  match fixpoint_loop lim classes fuel an with
  | Some an' => accounted an' /\ bounded an' /\ queue an' = []
  | None => True
  end.
Proof using Hrev.
  intros Hsuf. revert an. induction fuel as [|fuel IH]; intros an Ha Hb; cbn [fixpoint_loop];
    destruct (queue an) as [|pc q] eqn:Hq; [done| |done|].
  all: cbn [count_step steps]; pose proof (accounted_steps an Ha) as Hs; rewrite Hq, zlen_cons in Hs;
    pose proof (zlen_nonneg q); unfold bounded, steps_suffice in *;
    destruct (Z.ltb_spec (max_steps lim) (steps an + 1)); [nia|].
  - done.
  - apply IH; [by eapply visit_accounted, pop_accounted|by apply visit_bounded].
Qed.

Lemma fixpoint_accounted an :
  steps_suffice -> worklist_ok lim classes an -> accounted an -> bounded an ->
  accounted (fixpoint lim classes an) /\ bounded (fixpoint lim classes an) /\
  queue (fixpoint lim classes an) = [].
Proof using Hrev.
  intros Hsuf Hok Ha Hb. pose proof (fixpoint_loop_accounted (fixpoint_fuel lim an) an Hsuf Ha Hb) as H.
  unfold fixpoint. destruct (fixpoint_loop_spec lim classes (fixpoint_fuel lim an) an Hok) as (an' & E & _);
    [unfold fixpoint_fuel; lia|]. by rewrite E in *.
Qed.

End BUDGET.

(** * Well-formed states *)

Section WELL_FORMED.
Context (lim : Limits).

(** An unknown value carries no set; a known one is a sorted set of 16-bit
    values within the cardinality bound. *)
Definition val_ok (v : Val) : Prop :=
  if top v then vs v = []
  else StronglySorted Z.lt (vs v) /\ Forall is_u16 (vs v) /\ zlen (vs v) <= Z.max 1 (max_values lim).

Definition state_ok (s : State) : Prop := forall i, val_ok (sget s i).

Lemma top_val_ok c : val_ok (top_val c).
Proof using Type. done. Qed.

Lemma singleton_ok x : is_u16 x -> val_ok (singleton x).
Proof using Type.
  intros Hx. split_and!; [by repeat constructor|by constructor|cbn; unfold zlen; cbn; lia].
Qed.

Lemma normalize_ok l : Forall is_u16 l -> val_ok (normalize lim l).
Proof using Type.
  intros Hl. unfold normalize.
  destruct (Z.ltb_spec (max_values lim) (zlen (sort_unique l))); [done|].
  split_and!; cbn; [apply sort_unique_sorted| |lia].
  rewrite Forall_forall in *. intros x Hx. apply Hl. by apply elem_of_sort_unique.
Qed.

Lemma map_val_ok f v : val_ok v -> val_ok (map_val lim (fun x => u16 (f x)) v).
Proof using Type.
  intros Hv. unfold map_val. destruct (top v) eqn:Et; [done|].
  apply normalize_ok, Forall_forall. intros x Hx. apply list_elem_of_fmap in Hx as (y & -> & _).
  apply u16_range.
Qed.

Lemma sset_ok s i v : state_ok s -> val_ok v -> state_ok (sset s i v).
Proof using Type. intros Hs Hv j. rewrite sget_sset. by case_bool_decide. Qed.

Lemma all_top_ok c : state_ok (all_top c).
Proof using Type. intros i. by rewrite sget_all_top. Qed.

Lemma read_reg_ok s r : state_ok s -> val_ok (read_reg lim s r).
Proof using Type.
  intros Hs. unfold read_reg, read_slot. destruct (pair_of r) as [[hi lo]|].
  - destruct (top (sget s hi)) eqn:Eh; [apply Hs|]. destruct (top (sget s lo)) eqn:El; [apply Hs|].
    destruct (_ <? _); [done|]. apply normalize_ok, Forall_forall. intros x Hx.
    apply list_elem_of_bind in Hx as (a & Hx & _). apply list_elem_of_bind in Hx as (b & Hx & _).
    apply list_elem_of_singleton in Hx as ->. apply u16_range.
  - destruct (slot_of r); [apply Hs|done].
Qed.

Lemma normalize_map_ok (f : Z -> Z) l : val_ok (normalize lim (map (fun x => u16 (f x)) l)).
Proof using Type.
  apply normalize_ok, Forall_forall. intros x Hx. apply list_elem_of_fmap in Hx as (y & -> & _).
  apply u16_range.
Qed.

Lemma write_reg_ok s r v : state_ok s -> val_ok v -> state_ok (write_reg lim s r v).
Proof using Type.
  intros Hs Hv. unfold write_reg. destruct (pair_of r) as [[hi lo]|].
  - destruct (top v); repeat apply sset_ok; auto using normalize_map_ok.
  - destruct (slot_of r); [by apply sset_ok|done].
Qed.

Lemma eval_ok e s mask : state_ok s -> val_ok (eval lim e s mask).
Proof using Type.
  intros Hs. unfold eval. destruct (ve_kind e); try done.
  - apply singleton_ok, u16_range.
  - by apply (map_val_ok (fun x => x .& mask)), read_reg_ok.
  - by apply (map_val_ok (fun x => (x + ve_delta e) .& mask)), read_reg_ok.
Qed.

Lemma transfer_ok s e : state_ok s -> state_ok (transfer lim s e).
Proof using Type.
  intros Hs. unfold transfer.
  assert (Hv : Forall val_ok (map (fun w => eval lim (rw_value w) s (write_mask w)) (e_writes e))).
  { apply Forall_forall. intros v Hv. apply list_elem_of_fmap in Hv as (w & -> & _). by apply eval_ok. }
  revert Hv. generalize (map (fun w => eval lim (rw_value w) s (write_mask w)) (e_writes e)). intros vals.
  revert s Hs vals. induction (e_writes e) as [|w ws IH]; intros s Hs [|v vals] Hv; try done.
  apply Forall_cons in Hv as [Hv Hvs]. cbn. apply IH; [by apply write_reg_ok|done].
Qed.

(** A known value is the canonical form of its elements. *)
Lemma sort_unique_canonical l : StronglySorted Z.lt l -> sort_unique l = l.
Proof using Type.
  intros Hl. apply sorted_ext; [apply sort_unique_sorted|done|]. intros x. apply elem_of_sort_unique.
Qed.

Lemma join_val_ok d x : val_ok d -> val_ok x -> val_ok (join_val lim d x).1.
Proof using Type.
  intros Hd Hx. unfold join_val. destruct (top d) eqn:Ed; [done|]. destruct (top x) eqn:Ex; [done|].
  destruct (_ || _); [|done]. cbn. apply normalize_ok, Forall_app.
  unfold val_ok in *. rewrite Ed in Hd. rewrite Ex in Hx.
  split; [apply Hd|apply Hx].
Qed.

Lemma join_ok dst src : state_ok dst -> state_ok src -> state_ok (join lim dst src).1.
Proof using Type.
  intros Hd Hs. unfold join. generalize false. revert dst Hd.
  induction slots as [|i l IH]; intros dst Hd b; [done|]. cbn [fold_left].
  pose proof (join_val_ok (sget dst i) (sget src i) (Hd i) (Hs i)) as Hj.
  destruct (join_val _ _ _) as [d grew]. apply IH. by apply sset_ok.
Qed.

(** The exact result of a slot join. *)
Lemma join_val_exact d x :
  val_ok d -> val_ok x ->
  let '(r, grew) := join_val lim d x in
  let union := sort_unique (vs d ++ vs x) in
  (top r = true <-> top d = true \/ top x = true \/ max_values lim < zlen union) /\
  (top r = false -> vs r = union) /\
  (grew = true <-> top r <> top d \/ vs r <> vs d).
Proof using Type.
  intros Hd Hx. unfold join_val, val_ok in *. destruct (top d) eqn:Ed; cbn.
  { rewrite Ed. intuition congruence. }
  destruct (top x) eqn:Ex; cbn.
  { rewrite Ex. intuition congruence. }
  unfold normalize. destruct (Z.ltb_spec (max_values lim) (zlen (sort_unique (vs d ++ vs x)))) as [Hlt|Hge]; cbn.
  - intuition congruence.
  - destruct (bool_decide_reflect (sort_unique (vs d ++ vs x) = vs d)) as [E|E]; cbn.
    + rewrite Ed, E. rewrite E in Hge. intuition (congruence || lia).
    + intuition (congruence || lia).
Qed.

(** ** The states of an analysis *)

Definition analysis_ok (an : Analysis) : Prop :=
  forall pc s, states an !! pc = Some s -> is_u16 pc /\ state_ok s.

Lemma initial_analysis_ok : analysis_ok initial_analysis.
Proof using Type. intros pc s H. cbn in H. by apply lookup_empty_Some in H. Qed.

Lemma insert_ok an pc s rv qu st b :
  analysis_ok an -> is_u16 pc -> state_ok s ->
  analysis_ok (mkAnalysis (<[pc := s]> (states an)) rv qu st b).
Proof using Type.
  intros Ha Hpc Hs q t. cbn. destruct (decide (pc = q)) as [->|Hne].
  - rewrite lookup_insert_eq. by intros [= <-].
  - rewrite lookup_insert_ne by done. apply Ha.
Qed.

Lemma enqueue_ok pc s an : analysis_ok an -> is_u16 pc -> state_ok s -> analysis_ok (enqueue lim pc s an).
Proof using Type.
  intros Ha Hpc Hs. unfold enqueue. destruct (states an !! pc) as [d|] eqn:Hd.
  - pose proof (join_ok d s (proj2 (Ha _ _ Hd)) Hs) as Hj. destruct (join lim d s) as [d' []]; cbn [negb].
    + apply (insert_ok an); [done|done|]. destruct (_ <? _); [apply all_top_ok|done].
    + by apply (insert_ok an).
  - destruct (_ <=? _); [exact Ha|]. by apply (insert_ok an).
Qed.

Lemma enqueue_fold_ok l s an :
  analysis_ok an -> Forall is_u16 l -> state_ok s ->
  analysis_ok (fold_left (fun an t => enqueue lim t s an) l an).
Proof using Type.
  intros Ha Hl Hs. revert an Ha. induction Hl as [|t l Ht _ IH]; intros an Ha; [done|].
  cbn. by apply IH, enqueue_ok.
Qed.

(** The instructions of the table have well-formed effects. *)
Definition classes_ok (classes : gmap Z StartClassification) : Prop :=
  forall pc, decoded_at classes pc -> effect_ok (effect_at classes pc).

Lemma visit_ok classes pc s an :
  classes_ok classes -> analysis_ok an -> state_ok s -> analysis_ok (visit lim classes pc s an).
Proof using Type.
  intros Hcls Ha Hs. specialize (Hcls pc). unfold decoded_at, effect_at, instruction_of in Hcls.
  unfold visit. case_bool_decide as Hd; cbn [negb]; [|done]. destruct (Hcls Hd).
  destruct (negb _); [destruct (unresolved_control _); auto using enqueue_ok, all_top_ok, u16_range|].
  pose proof (transfer_ok s (project_effect (sc_instruction (class_at classes pc))) Hs) as Ht.
  destruct (e_control _); auto using enqueue_ok, all_top_ok.
  destruct (negb _) eqn:Htop; [|done]. apply enqueue_fold_ok; [done| |done].
  pose proof (read_reg_ok s (e_computed_base (project_effect (sc_instruction (class_at classes pc)))) Hs) as Hv.
  unfold val_ok in Hv. apply negb_true_iff in Htop. rewrite Htop in Hv. apply Hv.
Qed.

Lemma fixpoint_ok classes an :
  classes_ok classes -> analysis_ok an -> analysis_ok (fixpoint lim classes an).
Proof using Type.
  intros Hcls Ha. unfold fixpoint.
  assert (H : forall fuel an', analysis_ok an' ->
            match fixpoint_loop lim classes fuel an' with Some r => analysis_ok r | None => True end).
  { induction fuel as [|fuel IH]; intros an' Ha'; cbn [fixpoint_loop];
      destruct (queue an') as [|pc q]; try done; destruct (_ <? _); try done.
    apply IH, visit_ok; [done|done|]. unfold state_at. cbn.
    destruct (states an' !! pc) eqn:E; cbn; [by apply (Ha' pc)|apply all_top_ok]. }
  specialize (H (fixpoint_fuel lim an) an Ha). by destruct (fixpoint_loop _ _ _ _).
Qed.

End WELL_FORMED.

(** * Reachability *)

Section REACHABILITY.
Context (lim : Limits) (classes : gmap Z StartClassification).

(** Any analysis grown from [initial_analysis] by [enqueue] and [fixpoint]. *)
Record grown (an : Analysis) : Prop := {
  gr_worklist : worklist_ok lim classes an;
  gr_accounted : accounted lim an;
  gr_bounded : bounded lim an;
  gr_states : analysis_ok lim an;
}.

Lemma grown_initial : 0 <= max_revisits lim -> 0 <= max_starts lim -> grown initial_analysis.
Proof using Type.
  intros Hr Hs. constructor.
  - constructor; [right; intros pc s H; cbn in H; by apply lookup_empty_Some in H|].
    intros pc H. by apply elem_of_nil in H.
  - constructor; try done.
    + intros pc [n Hn]. cbn in Hn. by apply lookup_empty_Some in Hn.
    + intros pc. cbn. change (tget 0 ∅ pc) with 0. lia.
  - unfold bounded. cbn. rewrite map_size_empty. lia.
  - apply initial_analysis_ok.
Qed.

Lemma grown_enqueue pc s an :
  0 <= max_revisits lim -> is_u16 pc -> state_ok lim s -> grown an -> grown (enqueue lim pc s an).
Proof using Type.
  intros Hr Hpc Hs []. constructor.
  - eapply worklist_extends; [apply enqueue_extends|done].
  - by apply enqueue_accounted.
  - by apply enqueue_bounded.
  - by apply enqueue_ok.
Qed.

(** Enqueuing a list of starts. *)
Definition enqueue_all (roots : list (Z * State)) (an : Analysis) : Analysis :=
  fold_left (fun an '(pc, s) => enqueue lim pc s an) roots an.

Definition roots_ok (roots : list (Z * State)) : Prop :=
  Forall (fun r => is_u16 r.1 /\ state_ok lim r.2) roots.

Lemma enqueue_all_spec roots an :
  extends an (enqueue_all roots an) /\
  forall pc s, (pc, s) ∈ roots -> covered (enqueue_all roots an) pc s.
Proof using Type.
  revert an. unfold enqueue_all. induction roots as [|[t s0] l IH]; intros an; cbn.
  - split; [apply extends_refl|]. intros pc s H. by apply elem_of_nil in H.
  - destruct (IH (enqueue lim t s0 an)) as [He Hc]. split.
    + eapply extends_trans; [apply enqueue_extends|exact He].
    + intros pc s [[= -> ->]|H]%elem_of_cons; [|by apply Hc].
      eapply covered_extends; [exact He|apply enqueue_covered].
Qed.

Lemma grown_enqueue_all roots an :
  0 <= max_revisits lim -> roots_ok roots -> grown an -> grown (enqueue_all roots an).
Proof using Type.
  intros Hr H. revert an. unfold enqueue_all. induction H as [|[pc s] l [Hpc Hs] _ IH]; intros an Ha; [done|].
  cbn. by apply IH, grown_enqueue.
Qed.

Lemma grown_fixpoint an :
  0 <= max_revisits lim -> steps_suffice lim -> classes_ok classes ->
  grown an -> grown (fixpoint lim classes an) /\ queue (fixpoint lim classes an) = [].
Proof using Type.
  intros Hr Hsuf Hcls [].
  destruct (fixpoint_accounted lim classes Hr an Hsuf gr_worklist0 gr_accounted0 gr_bounded0) as (Ha & Hb & Hq).
  split; [|exact Hq]. constructor; [|exact Ha|exact Hb|by apply fixpoint_ok].
  by apply (fin_ok lim classes an), fixpoint_spec.
Qed.

(** A step keeps register files well formed. *)
Lemma cstep_ok x y : cstep classes x y -> regs_ok x.2 -> regs_ok y.2.
Proof using Type. intros [pc regs mem regs' pc' _ _ He _| |]; cbn; [|done|done].
  intros Hr. exact (effect_step_ok mem _ regs regs' Hr He). Qed.

(** Reachable starts, when every jump of the analysis was followed. *)
Lemma reachable_in an x y :
  (forall pc s, states an !! pc = Some s -> closed lim classes an pc s /\ followed lim classes pc s) ->
  rtc (cstep classes) x y ->
  regs_ok x.2 -> (exists s, states an !! x.1 = Some s /\ in_state s x.2) ->
  exists s, states an !! y.1 = Some s /\ in_state s y.2.
Proof using Type.
  intros Hc Hs. induction Hs as [x|x y z Hxy _ IH]; intros Hr Hx; [done|].
  apply IH; [by eapply cstep_ok|]. destruct Hx as (s & Hs & Hin).
  destruct (Hc _ _ Hs) as [Hcl Hf]. destruct x as [pc regs], y as [pc' regs'].
  by apply (Hcl Hf regs pc' regs').
Qed.

End REACHABILITY.

(** The table of a well-typed image has well-formed effects. *)
Definition decode_table (fetch : LogicalFetch) (classes : gmap Z StartClassification) : Prop :=
  forall pc c, classes !! pc = Some c -> is_u16 pc /\ c = decode_at fetch pc.

Lemma decode_table_class fetch classes pc :
  decode_table fetch classes -> decoded_at classes pc ->
  is_u16 pc /\ class_at classes pc = decode_at fetch pc.
Proof.
  intros Ht Hd. unfold decoded_at, class_at, tget in *.
  destruct (classes !! pc) as [c|] eqn:E; [|discriminate Hd]. exact (Ht pc c E).
Qed.

Lemma decode_table_ok fetch `{!FetchTyped fetch} classes :
  decode_table fetch classes -> classes_ok classes.
Proof.
  intros Ht pc Hd. destruct (decode_table_class fetch classes pc Ht Hd) as [Hpc E].
  unfold decoded_at, effect_at, instruction_of in *. rewrite E in *.
  apply (project_effect_decoded_ok fetch pc). by apply decode_at_decoded.
Qed.

(** * Properties *)

(** The join of two abstract values is exact: it is unknown iff one side is
    or their union exceeds the cardinality bound, and otherwise is the sorted
    union without duplicates; it reports growth iff the result differs from the
    old value. *)
Theorem join_exact (lim : Limits) (d x : Val) (Hd : val_ok lim d) (Hx : val_ok lim x) :
  let '(r, grew) := join_val lim d x in
  let union := sort_unique (vs d ++ vs x) in
  val_ok lim r /\
  (forall n, in_val d n \/ in_val x n -> in_val r n) /\
  (top r = true <-> top d = true \/ top x = true \/ max_values lim < zlen union) /\
  (top r = false -> vs r = union) /\
  (grew = true <-> top r <> top d \/ vs r <> vs d).
Proof.
  pose proof (join_val_ok lim d x Hd Hx) as Hok. pose proof (join_val_exact lim d x Hd Hx) as He.
  destruct (join_val lim d x) as [r grew] eqn:E. split; [exact Hok|].
  split; [by apply (join_val_spec lim d x r grew)|exact He].
Qed.

Lemma join_exact_witness :
  join_val default_limits (mkVal false [1; 5] 0) (mkVal false [2; 5] 0) = (mkVal false [1; 2; 5] 0, true) /\
  val_ok default_limits (mkVal false [1; 2; 5] 0).
Proof.
  split; [reflexivity|].
  apply (join_exact default_limits (mkVal false [1; 5] 0) (mkVal false [2; 5] 0)).
  - split_and!; [|unfold is_u16|reflexivity || discriminate]; repeat constructor; done.
  - split_and!; [|unfold is_u16|reflexivity || discriminate]; repeat constructor; done.
Defined.

(** The abstract transfer of an effect over-approximates its execution: if
    the register file is described by the abstract state, the register file
    after any execution of the effect's writes (any memory contents, any value
    for an opaque result) is described by the transferred state, and stays a
    file of 8- and 16-bit registers. *)
Theorem transfer_sound (lim : Limits) (s : State) (e : Z80Effect) (mem : Memory) (regs regs' : Regs)
    (Hs : in_state s regs) (Hr : regs_ok regs) (He : effect_step mem e regs regs') :
  in_state (transfer lim s e) regs' /\ regs_ok regs'.
Proof.
  split; [exact (in_transfer lim s regs mem e regs' Hs Hr He)|].
  exact (effect_step_ok mem e regs regs' Hr He).
Qed.

Definition sample_regs (b : Z) : Regs := fun i => match i with sB => b | _ => 0 end.

Lemma sample_regs_ok b : 0 <= b < 256 -> regs_ok (sample_regs b).
Proof. intros Hb []; cbn; lia. Qed.

Lemma transfer_sound_witness :
  let dec_bc := write R_bc (add R_bc (-1)) default_effect in
  let s := sset (sset (all_top 0) sB (singleton 1)) sC (singleton 0) in
  vs (sget (transfer default_limits s dec_bc) sC) = [255] /\
  in_state (transfer default_limits s dec_bc) (put_reg (sample_regs 1) R_bc 255).
Proof.
  split; [reflexivity|].
  apply (transfer_sound default_limits _ (write R_bc (add R_bc (-1)) default_effect) (fun _ => 0) (sample_regs 1)).
  - intros []; cbn; first [by left|right; by apply list_elem_of_singleton].
  - apply sample_regs_ok. lia.
  - exists [255]. split; [|reflexivity]. constructor; [|constructor]. split; [cbn; lia|reflexivity].
Defined.

(** Termination within the budget: whenever the pre-registered bounds are
    compatible (they are: see the witness), the iteration from any roots drains
    its queue without ever exceeding [max_steps], visits each start at most
    [max_revisits + 2] times, keeps at most [max_starts] starts, and reports an
    exceeded budget only when that many starts were reached. *)
Theorem fixpoint_within_budget (lim : Limits) (classes : gmap Z StartClassification) (roots : list (Z * State))
    (Hrev : 0 <= max_revisits lim) (Hstarts : 0 <= max_starts lim) (Hsuf : steps_suffice lim)
    (Hroots : roots_ok lim roots) :
  let an := fixpoint lim classes (enqueue_all lim roots initial_analysis) in
  queue an = [] /\
  steps an <= (max_revisits lim + 2) * Z.of_nat (size (states an)) <= max_steps lim /\
  Z.of_nat (size (states an)) <= max_starts lim /\
  (budget an = true -> Z.of_nat (size (states an)) = max_starts lim).
Proof.
  cbv zeta. destruct (grown_enqueue_all lim classes roots initial_analysis Hrev Hroots
    (grown_initial lim classes Hrev Hstarts)) as [Hw Ha Hb _].
  destruct (fixpoint_accounted lim classes Hrev _ Hsuf Hw Ha Hb) as (Ha' & Hb' & Hq).
  pose proof (accounted_steps lim Hrev _ Ha') as Hst. rewrite Hq in *.
  change (zlen []) with 0 in Hst. unfold bounded, steps_suffice in *. split_and!; [done|lia|nia|lia|].
  intros Hbud. pose proof (ac_budget _ _ Ha' Hbud). lia.
Qed.

(** [LD B,3; JR $-2], the rest of the window unclassified. *)
Definition sample_classes : gmap Z StartClassification :=
  list_to_map (map (fun a => (a, decode_at (flat_fetch [0x06; 0x03; 0x18; 0xFE]) a)) [0; 2]).

Lemma sample_roots_ok : roots_ok default_limits [(0, reset_state)].
Proof. constructor; [|constructor]. split; [by vm_compute|apply all_top_ok]. Qed.

Lemma sample_decode_table : decode_table (flat_fetch [0x06; 0x03; 0x18; 0xFE]) sample_classes.
Proof.
  intros pc c Hc. apply elem_of_list_to_map_2, list_elem_of_In in Hc.
  destruct Hc as [Hc|[Hc|[]]]; (apply pair_equal_spec in Hc as [<- <-]; split; [split; [discriminate|reflexivity]|reflexivity]).
Qed.

Lemma fixpoint_within_budget_witness :
  steps_suffice default_limits /\
  steps (fixpoint default_limits sample_classes (enqueue_all default_limits [(0, reset_state)] initial_analysis))
    <= 262144.
Proof.
  split; [by vm_compute|].
  destruct (fixpoint_within_budget default_limits sample_classes [(0, reset_state)]) as (_ & [H1 H2] & _);
    [by vm_compute|by vm_compute|by vm_compute| |].
  - exact sample_roots_ok.
  - etransitivity; [exact H1|exact H2].
Defined.

(** C3. The finished analysis is a sound over-approximation of the steps of the
    image: if no bound was hit and every computed jump was followed, every start that
    steps from a root reach has an abstract state, and that state describes the
    registers there.  The steps are the supported effects, the continuations of calls
    and the starts after other instructions; a taken return is no step, its
    continuation being reached from the call. *)
Theorem fixpoint_reaches (lim : Limits) (classes : gmap Z StartClassification) (roots : list (Z * State))
    (Hrev : 0 <= max_revisits lim) (Hstarts : 0 <= max_starts lim) (Hsuf : steps_suffice lim)
    (Hroots : roots_ok lim roots) (pc : Z) (s : State) (regs : Regs) (pc' : Z) (regs' : Regs) :
  let an := fixpoint lim classes (enqueue_all lim roots initial_analysis) in
  budget an = false ->
  (forall q t, states an !! q = Some t -> followed lim classes q t) ->
  (pc, s) ∈ roots -> in_state s regs -> regs_ok regs ->
  rtc (cstep classes) (pc, regs) (pc', regs') ->
  exists t, states an !! pc' = Some t /\ in_state t regs'.
Proof.
  cbv zeta. set (an := fixpoint _ _ _). intros Hbud Hfol Hroot Hs Hr Hrtc.
  destruct (grown_enqueue_all lim classes roots initial_analysis Hrev Hroots
    (grown_initial lim classes Hrev Hstarts)) as [Hw Ha Hb _].
  pose proof (fixpoint_spec lim classes _ Hw) as [[Hcl _] _ Hfwd Hbm _].
  destruct (fixpoint_accounted lim classes Hrev _ Hsuf Hw Ha Hb) as (_ & _ & Hq).
  fold an in Hcl, Hfwd, Hq, Hbm. destruct Hcl as [?|Hcl]; [congruence|].
  apply (reachable_in lim classes an (pc, regs) (pc', regs')); [|done|done|].
  - intros q t Ht. split; [|by apply Hfol].
    destruct (Hcl q t Ht) as [Hin|?]; [|done]. rewrite Hq in Hin. by apply elem_of_nil in Hin.
  - destruct (enqueue_all_spec lim roots initial_analysis) as [_ Hcov].
    destruct (Hcov pc s Hroot) as [Hb0|(s1 & Hs1 & Hc1)]; [rewrite Hbm in Hbud by exact Hb0; done|].
    destruct (Hfwd _ _ Hs1) as (s2 & Hs2 & Hc2). exists s2. split; [done|]. by apply Hc2, Hc1.
Qed.

Lemma fixpoint_reaches_witness :
  exists t, states (fixpoint default_limits sample_classes
                     (enqueue_all default_limits [(0, reset_state)] initial_analysis)) !! 2 = Some t /\
    in_state t (set_slot (sample_regs 7) sB 3).
Proof.
  apply (fixpoint_reaches default_limits sample_classes [(0, reset_state)]
           ltac:(by vm_compute) ltac:(by vm_compute) ltac:(by vm_compute)) with
    (pc := 0) (s := reset_state) (regs := sample_regs 7).
  - exact sample_roots_ok.
  - by_evaluation.
  - intros q t Ht Hd _ Hc. exfalso.
    unfold decoded_at, effect_at, instruction_of, class_at, tget in *.
    destruct (sample_classes !! q) as [c|] eqn:Hq; [|discriminate Hd].
    apply elem_of_list_to_map_2, list_elem_of_In in Hq.
    destruct Hq as [Hq|[Hq|[]]]; (apply pair_equal_spec in Hq as [<- <-]; vm_compute in Hc; discriminate Hc).
  - apply list_elem_of_singleton. reflexivity.
  - apply in_all_top.
  - apply sample_regs_ok. lia.
  - apply rtc_once. eapply (step_effect sample_classes 0 (sample_regs 7) (fun _ => 0)); try by_evaluation.
    exists [3]. split; [|reflexivity]. constructor; [|constructor].
    split; [vm_compute; split; [discriminate|reflexivity]|by_evaluation].
Defined.

(** Every state the iteration keeps is well formed: its start is a 16-bit
    address, an unknown register carries no values, and a known one is a
    strictly sorted set of 16-bit values no larger than the bound. *)
Theorem fixpoint_states_ok (lim : Limits) (classes : gmap Z StartClassification) (roots : list (Z * State))
    (Hcls : classes_ok classes) (Hroots : roots_ok lim roots) (pc : Z) (s : State) :
  states (fixpoint lim classes (enqueue_all lim roots initial_analysis)) !! pc = Some s ->
  is_u16 pc /\ state_ok lim s.
Proof.
  revert pc s. apply fixpoint_ok; [exact Hcls|].
  assert (H : forall an, analysis_ok lim an -> analysis_ok lim (enqueue_all lim roots an)).
  { unfold enqueue_all. induction Hroots as [|[pc s] l [Hpc Hs] _ IH]; intros an Ha; [done|].
    cbn. by apply IH, enqueue_ok. }
  apply H, initial_analysis_ok.
Qed.

Lemma fixpoint_states_ok_witness :
  exists s, states (fixpoint default_limits sample_classes
                     (enqueue_all default_limits [(0, reset_state)] initial_analysis)) !! 2 = Some s /\
    top (sget s sB) = false /\ state_ok default_limits s.
Proof.
  destruct (states (fixpoint default_limits sample_classes
      (enqueue_all default_limits [(0, reset_state)] initial_analysis)) !! 2) as [s|] eqn:E;
    [|vm_compute in E; discriminate E].
  exists s. split; [reflexivity|]. split.
  - clear -E. vm_compute in E. injection E as <-. reflexivity.
  - refine (proj2 (fixpoint_states_ok default_limits sample_classes [(0, reset_state)] _ _ 2 s E)).
    + exact (decode_table_ok _ sample_classes sample_decode_table).
    + exact sample_roots_ok.
Defined.
