(* ===== verification/Z80MutationReport.v ===== *)
(** The report of the Z80 code-write discovery: the interrupt rounds, the passes
    over the reachable set, the write candidates and the static byte
    alternatives of [libs/cpu/z80/src/mutation.cpp].

    [reachable] is the first half of [Analyzer::run]; [report] is the rest.  A
    [std::set] or [std::map] is a [gset] or [gmap], iterated in ascending order
    where the order shows. *)

From S2P Require Import Prelude Z80Forms Z80Decode Z80Effects Z80Mutation.

(** * Data *)

Record Root := mkRoot { root_pc : Z; root_reset_state : bool }.

Inductive Certainty : Type := C_exact | C_finite | C_unknown.

#[export] Instance certainty_eq_dec : EqDecision Certainty.
Proof. solve_decision. Defined.

Record StoreSite := mkSite {
  ss_pc : Z;
  ss_width : Z;
  ss_hardware_push : bool;
  ss_address : Certainty;
  ss_value : Certainty;
  ss_addresses : list Z;
  ss_values : list Z;
  ss_hits_reachable_code : bool;
}.

Inductive ChangeKind : Type :=
| CH_payload_only | CH_form_changed | CH_length_changed | CH_becomes_undecodable | CH_becomes_decodable.

#[export] Instance change_kind_eq_dec : EqDecision ChangeKind.
Proof. solve_decision. Defined.

Record StartChange := mkChange {
  ch_start : Z;
  ch_kind : ChangeKind;
  ch_original : string;
  ch_modified : string;
  ch_original_length : Z;
  ch_modified_length : Z;
  ch_reachable_start : bool;
}.

(** The four counters [changes_for] returns by reference. *)
Record ChangeCounts := mkCounts {
  n_total : Z;
  n_structural : Z;
  n_reach_structural : Z;
  n_reach_any : Z;
}.

Record Candidate := mkCandidate {
  ca_site_pc : Z;
  ca_destination : Z;
  ca_value : Z;
  ca_width : Z;
  ca_changes : list StartChange;
  ca_counts : ChangeCounts;
}.

Record Report := mkReport {
  reachable_starts : Z;
  report_steps : Z;
  reachability_complete : bool;
  effects_complete : bool;
  store_addresses_complete : bool;
  store_values_complete : bool;
  budget_exceeded : bool;
  incomplete_reasons : gmap string Z;
  stores : list StoreSite;
  candidates : list Candidate;
  unknown_address_stores : Z;
  unknown_value_stores : Z;
}.

(** [Report{}]. *)
Definition default_report : Report := mkReport 0 0 true true true true false ∅ [] [] 0 0.

Definition structural (c : Candidate) : bool := negb (n_structural (ca_counts c) =? 0).

Definition candidate_set_complete (r : Report) : bool :=
  reachability_complete r && effects_complete r && store_addresses_complete r &&
  store_values_complete r && negb (budget_exceeded r).

Definition closed_under_mutation (r : Report) : bool :=
  if negb (candidate_set_complete r) then false
  else forallb (fun c => n_reach_any (ca_counts c) =? 0) (candidates r).

(** * Names *)

Definition certainty_name (c : Certainty) : string :=
  match c with C_exact => "exact" | C_finite => "finite" | C_unknown => "unknown" end.

Definition change_kind_name (k : ChangeKind) : string :=
  match k with
  | CH_payload_only => "payload_only"
  | CH_form_changed => "form_changed"
  | CH_length_changed => "length_changed"
  | CH_becomes_undecodable => "becomes_undecodable"
  | CH_becomes_decodable => "becomes_decodable"
  end.

Open Scope string_scope.
Open Scope Z_scope.

(** [static_cast<Mnemonic>(n)] for the name of an unsupported effect. *)
Definition mnemonic_of (n : Z) : Mnemonic := znth mnemonic_values n M_nop.

Definition cause_name (c : Z) : string :=
  if c =? kCauseEntry then "unknown_entry_or_reset_state"
  else if c =? kCauseCall then "call_return_continuation"
  else if c =? kCauseLoad then "memory_load"
  else if c =? kCauseOpaque then "alu_result_not_modelled"
  else if c =? kCauseWidened then "join_widened"
  else if c =? kCauseOverflow then "cardinality_bound"
  else "unsupported_effect:" +:+ to_lower (mnemonic_name (mnemonic_of (c - kCauseUnsupported))).

(** * Updates of the report *)

(** [rep.incomplete_reasons[why]++] *)
Definition count_reason (why : string) (r : Report) : Report :=
  mkReport (reachable_starts r) (report_steps r) (reachability_complete r) (effects_complete r)
    (store_addresses_complete r) (store_values_complete r) (budget_exceeded r)
    (<[why := default 0 (incomplete_reasons r !! why) + 1]> (incomplete_reasons r))
    (stores r) (candidates r) (unknown_address_stores r) (unknown_value_stores r).

(** [note_reason] *)
Definition note_reason (why : string) (reach_flag effect_flag : bool) (rep : Report) : Report :=
  let r := count_reason why rep in
  mkReport (reachable_starts r) (report_steps r)
    (if reach_flag then false else reachability_complete r)
    (if effect_flag then false else effects_complete r)
    (store_addresses_complete r) (store_values_complete r) (budget_exceeded r) (incomplete_reasons r)
    (stores r) (candidates r) (unknown_address_stores r) (unknown_value_stores r).

(** [store_addresses_complete = false; ++unknown_address_stores;] *)
Definition unknown_address (r : Report) : Report :=
  mkReport (reachable_starts r) (report_steps r) (reachability_complete r) (effects_complete r)
    false (store_values_complete r) (budget_exceeded r) (incomplete_reasons r)
    (stores r) (candidates r) (unknown_address_stores r + 1) (unknown_value_stores r).

(** [++unknown_value_stores;] *)
Definition unknown_value (r : Report) : Report :=
  mkReport (reachable_starts r) (report_steps r) (reachability_complete r) (effects_complete r)
    (store_addresses_complete r) (store_values_complete r) (budget_exceeded r) (incomplete_reasons r)
    (stores r) (candidates r) (unknown_address_stores r) (unknown_value_stores r + 1).

(** [store_values_complete = false;] *)
Definition values_incomplete (r : Report) : Report :=
  mkReport (reachable_starts r) (report_steps r) (reachability_complete r) (effects_complete r)
    (store_addresses_complete r) false (budget_exceeded r) (incomplete_reasons r)
    (stores r) (candidates r) (unknown_address_stores r) (unknown_value_stores r).

(** [rep.stores.push_back(site);] *)
Definition push_store (site : StoreSite) (r : Report) : Report :=
  mkReport (reachable_starts r) (report_steps r) (reachability_complete r) (effects_complete r)
    (store_addresses_complete r) (store_values_complete r) (budget_exceeded r) (incomplete_reasons r)
    (stores r ++ [site])%list (candidates r) (unknown_address_stores r) (unknown_value_stores r).

(** [rep.candidates.push_back(c);] *)
Definition push_candidate (c : Candidate) (r : Report) : Report :=
  mkReport (reachable_starts r) (report_steps r) (reachability_complete r) (effects_complete r)
    (store_addresses_complete r) (store_values_complete r) (budget_exceeded r) (incomplete_reasons r)
    (stores r) (candidates r ++ [c])%list (unknown_address_stores r) (unknown_value_stores r).

(** [rep.budget_exceeded = true;] *)
Definition exceed_budget (r : Report) : Report :=
  mkReport (reachable_starts r) (report_steps r) (reachability_complete r) (effects_complete r)
    (store_addresses_complete r) (store_values_complete r) true (incomplete_reasons r)
    (stores r) (candidates r) (unknown_address_stores r) (unknown_value_stores r).

(** * The analyzer *)

(** [make_table]: the RAM, mirrored through the 16 KiB code window. *)
Definition make_table (ram : list Z) : TableFetch :=
  zfor 0 kCodeWindow (fun a t =>
    let offset := a .& (kRamBytes - 1) in
    table_set t a (mkFetched FK_byte (znth ram offset 0) 1 offset)) ∅.

Section RUN.
Context (ram : list Z) (lim : Limits) (classes : gmap Z StartClassification).

(** The state the interrupt vector is entered with. *)
Definition interrupt_state (sp : Val) : State :=
  if negb (top sp)
  then sset (all_top kCauseEntry) sSP (normalize lim (map (fun x => u16 (x - 2)) (vs sp)))
  else all_top kCauseEntry.

Fixpoint interrupt_rounds (rounds : nat) (ei : bool) (an : Analysis) : bool * Analysis :=
  match rounds with
  | O => (ei, an)
  | S rounds' =>
      if budget an then (ei, an)
      else if negb (ei_reachable classes an) then (ei, an)
      else
        let sp := sp_union lim an in
        let an' := fixpoint lim classes (enqueue lim 0x38 (interrupt_state sp) an) in
        let sp_after := sp_union lim an' in
        if Bool.eqb (top sp_after) (top sp) && (vs sp_after =b vs sp) then (true, an')
        else interrupt_rounds rounds' true an'
  end.

Definition root_state (r : Root) : Z * State :=
  (root_pc r, if root_reset_state r then reset_state else all_top kCauseEntry).

(** [run] up to the post pass: whether an EI is reachable, and the analysis. *)
Definition reachable (roots : list Root) : bool * Analysis :=
  interrupt_rounds 4 false
    (fixpoint lim classes (enqueue_all lim (map root_state roots) initial_analysis)).

(** The reachable starts, ascending. *)
Definition sorted_pcs (an : Analysis) : list Z := merge_sort Z.le (map fst (map_to_list (states an))).

(** ** The two passes over the reachable starts *)

Definition undecoded_reason (k : StartKind) : string :=
  match k with
  | SK_prefix_lock => "prefix_lock"
  | SK_unresolved_fetch_mapping => "unresolved_fetch_mapping"
  | _ => "fetch_outside_code_window"
  end.

Definition cover_pass (pc : Z) (acc : Report * gset Z) : Report * gset Z :=
  let '(rep, covered) := acc in
  let cls := class_at classes pc in
  if negb (sc_kind cls =b SK_decoded) then
    (note_reason (undecoded_reason (sc_kind cls)) true true rep, covered)
  else
    (rep, zfor 0 (logical_length (sc_instruction cls))
            (fun i covered => {[ (pc + i) .& (kRamBytes - 1) ]} ∪ covered) covered).

(** A destination byte of a store lies in reachable code. *)
Definition hits (covered : gset Z) (a width : Z) : bool :=
  existsb (fun b =>
    let dest := (a + b) .& 0xFFFF in
    (dest <? kCodeWindow) && bool_decide (dest .& (kRamBytes - 1) ∈ covered)) (seqZ 0 width).

Definition certainty_of (v : Val) : Certainty :=
  if top v then C_unknown else if zlen (vs v) =? 1 then C_exact else C_finite.

Definition unsupported_pass (i : DecodedInstruction) (rep : Report) : Report :=
  let d := form_descriptor (di_form i) in
  let m := to_lower (mnemonic_name (f_mnemonic d)) in
  let rep :=
    match f_mnemonic d with
    | M_ret | M_reti | M_retn => note_reason ("unsupported_effect:" +:+ m) true true rep
    | M_jp | M_jr | M_djnz | M_call | M_rst => note_reason ("unsupported_control:" +:+ m) true true rep
    | _ => note_reason ("unsupported_effect:" +:+ m) false true rep
    end in
  if (f_mnemonic d =b M_im) && (f_src d =b Op_im2)
  then note_reason "interrupt_vector_unresolved_im2" true false rep else rep.

(** The store of a supported effect at [pc] in state [s]. *)
Definition store_site (covered : gset Z) (pc : Z) (s : State) (st : MemoryStore) : StoreSite * Val * Val :=
  let addr := eval_address lim (ms_address st) s in
  let value := eval lim (ms_value st) s (if ms_width st =? 2 then 0xFFFF else 0xFF) in
  let addresses := if negb (top addr) then vs addr else [] in
  let values := if negb (top value) then vs value else [] in
  (mkSite pc (ms_width st) false (certainty_of addr) (certainty_of value) addresses values
     (if top addr then true else existsb (fun a => hits covered a (ms_width st)) addresses),
   addr, value).

Definition store_pass (covered : gset Z) (pc : Z) (s : State) (st : MemoryStore) (rep : Report) : Report :=
  let '(site, addr, value) := store_site covered pc s st in
  let rep :=
    if top addr then
      unknown_address (count_reason ("  address_cause:" +:+ cause_name (cause addr))
        (note_reason "store_address_unknown" false false rep))
    else rep in
  let rep :=
    if top value then
      let rep := count_reason ("  value_cause:" +:+ cause_name (cause value)) (unknown_value rep) in
      if ss_hits_reachable_code site
      then values_incomplete (note_reason "store_value_unknown_may_hit_code" false false rep)
      else rep
    else rep in
  push_store site rep.

Definition effect_pass (covered : gset Z) (an : Analysis) (pc : Z) (rep : Report) : Report :=
  let cls := class_at classes pc in
  if negb (sc_kind cls =b SK_decoded) then rep
  else
    let eff := project_effect (sc_instruction cls) in
    let s := state_at an pc in
    if negb (e_supported eff) then unsupported_pass (sc_instruction cls) rep
    else
      let rep :=
        if (e_control eff =b CK_computed) && top (read_reg lim s (e_computed_base eff))
        then note_reason "unresolved_indirect_jump" true false rep else rep in
      let rep :=
        if (e_control eff =b CK_return) || (e_control eff =b CK_conditional_return)
        then note_reason "return_target_unproven" true false rep else rep in
      match e_store eff with
      | None => rep
      | Some st => store_pass covered pc s st rep
      end.

(** ** Hardware interrupt pushes *)

Definition push_pass (covered : gset Z) (an : Analysis) (rep : Report) : Report :=
  let rep := note_reason "interrupt_register_effects_unverified" false true rep in
  let sp := sp_union lim an in
  let '(site, rep) :=
    if top sp then
      (mkSite 0 2 true C_unknown C_unknown [] [] true,
       unknown_address (note_reason "hardware_push_sp_unknown" false false rep))
    else
      let addresses := sort_unique (map (fun x => u16 (x - 2)) (vs sp)) in
      (mkSite 0 2 true (if zlen addresses =? 1 then C_exact else C_finite) C_unknown addresses []
         (existsb (fun a => hits covered a 2) addresses), rep) in
  let rep := unknown_value rep in
  let rep :=
    if ss_hits_reachable_code site
    then values_incomplete (note_reason "hardware_push_may_hit_code" false false rep) else rep in
  push_store site rep.

(** ** Candidates *)

Definition decode_name (c : StartClassification) : string :=
  if sc_kind c =b SK_decoded then form_name (di_form (sc_instruction c)) else "undecodable".

Definition decode_length (c : StartClassification) : Z :=
  if sc_kind c =b SK_decoded then logical_length (sc_instruction c) else 0.

Definition change_kind (o m : StartClassification) : ChangeKind :=
  if (sc_kind o =b SK_decoded) && (sc_kind m =b SK_decoded) then
    if negb (decode_length o =? decode_length m) then CH_length_changed
    else if negb (di_form (sc_instruction o) =? di_form (sc_instruction m)) then CH_form_changed
    else CH_payload_only
  else if sc_kind o =b SK_decoded then CH_becomes_undecodable else CH_becomes_decodable.

(** One iteration of the loop of [changes_for], for start [q]. *)
Definition change_step (mod_classes : gmap Z StartClassification) (reach : gset Z) (q : Z)
    (acc : list StartChange * ChangeCounts) : list StartChange * ChangeCounts :=
  let '(out, n) := acc in
  let o := class_at classes q in
  let m := class_at mod_classes q in
  if o =b m then acc
  else if (kRamBytes <=? q) && negb (bool_decide (q ∈ reach)) then acc
  else
    let reachable_start := bool_decide (q ∈ reach) in
    let kind := change_kind o m in
    let c := mkChange q kind (decode_name o) (decode_name m) (decode_length o) (decode_length m)
               reachable_start in
    let structural := negb (kind =b CH_payload_only) in
    let count (b : bool) k := if b then k + 1 else k in
    let n := mkCounts (n_total n + 1) (count structural (n_structural n))
               (count (structural && reachable_start) (n_reach_structural n))
               (count reachable_start (n_reach_any n)) in
    (if zlen out <? 64 then (out ++ [c])%list else out, n).

Definition changes_for (modified : list Z) (reach : gset Z) : list StartChange * ChangeCounts :=
  let mod_classes := classify_all (table_fetch (make_table modified)) in
  zfor 0 kCodeWindow (change_step mod_classes reach) ([], mkCounts 0 0 0 0).

(** The image after writing [v] at [a]. *)
Definition apply_write (width a v : Z) : list Z :=
  fold_left (fun mod_ b =>
    let dest := (a + b) .& 0xFFFF in
    if dest <? kCodeWindow then <[Z.to_nat (dest .& (kRamBytes - 1)) := u8 (v .>> (8 * b))]> mod_ else mod_)
    (seqZ 0 width) ram.

Definition kCandidateCap : Z := 4096.

Definition candidate_step (covered reach : gset Z) (s : StoreSite) (a v : Z) (rep : Report) : Report :=
  if negb (hits covered a (ss_width s)) then rep
  else if kCandidateCap <=? zlen (candidates rep) then
    count_reason "candidate_cap_exceeded" (exceed_budget rep)
  else
    let '(changes, counts) := changes_for (apply_write (ss_width s) a v) reach in
    push_candidate (mkCandidate (ss_pc s) a v (ss_width s) changes counts) rep.

Definition site_pass (covered reach : gset Z) (rep : Report) (s : StoreSite) : Report :=
  if ss_hardware_push s || (ss_address s =b C_unknown) || (ss_value s =b C_unknown) ||
     negb (ss_hits_reachable_code s)
  then rep
  else fold_left (fun rep a =>
         fold_left (fun rep v => candidate_step covered reach s a v rep) (ss_values s) rep)
         (ss_addresses s) rep.

(** [run] after the interrupt rounds. *)
Definition report (ei : bool) (an : Analysis) : Report :=
  let pcs := sorted_pcs an in
  let reach : gset Z := list_to_set pcs in
  let rep := mkReport (zlen pcs) (steps an) true true true true (budget an) ∅ [] [] 0 0 in
  let rep := if budget an then count_reason "analysis_budget_exceeded" rep else rep in
  let '(rep, covered) := fold_left (fun acc pc => cover_pass pc acc) pcs (rep, ∅) in
  let rep := fold_left (fun rep pc => effect_pass covered an pc rep) pcs rep in
  let rep := if ei then push_pass covered an rep else rep in
  fold_left (site_pass covered reach) (stores rep) rep.

Definition run (roots : list Root) : Report :=
  let '(ei, an) := reachable roots in report ei an.

End RUN.

Definition hardware_roots : list Root := [mkRoot 0 true].

(** A RAM image of the wrong size is reported, never analysed. *)
Definition bad_image_report : Report :=
  count_reason "bad_image_size" (mkReport 0 0 false true true true false ∅ [] [] 0 0).

Definition analyze (ram : list Z) (roots : list Root) (limits : Limits) : Report :=
  if negb (zlen ram =? kRamBytes) then bad_image_report
  else run ram limits (classify_all (table_fetch (make_table ram))) roots.

(** * Static byte alternatives *)

Record ByteAlternative := mkAlternative { ba_offset : Z; ba_value : Z }.

#[export] Instance byte_alternative_eq_dec : EqDecision ByteAlternative.
Proof. solve_decision. Defined.

Record AlternativeLimits := mkAlternativeLimits { max_destination_bytes : Z }.

Record AlternativeSet := mkAlternatives {
  as_bytes : list ByteAlternative;
  as_candidates : Z;
  as_bound_exceeded : bool;
}.

(** [std::pair]'s order, of [std::set<std::pair<...>>]. *)
Definition pair_le (x y : Z * Z) : Prop := x.1 < y.1 \/ (x.1 = y.1 /\ x.2 <= y.2).

#[export] Instance pair_le_dec : RelDecision pair_le.
Proof. intros x y. unfold pair_le. apply _. Defined.

(** The pairs one byte of a candidate contributes. *)
Definition byte_pairs (ram : list Z) (c : Candidate) (b : Z) : list (Z * Z) :=
  let dest := (ca_destination c + b) .& 0xFFFF in
  if kCodeWindow <=? dest then []
  else
    let offset := dest .& (kRamBytes - 1) in
    let value := u8 (ca_value c .>> (8 * b)) in
    if value =? znth ram offset 0 then [] else [(offset, value)].

Definition candidate_pairs (ram : list Z) (c : Candidate) : list (Z * Z) :=
  if n_total (ca_counts c) =? 0 then [] else seqZ 0 (ca_width c) ≫= byte_pairs ram c.

Definition alternatives_of (ram : list Z) (limits : AlternativeLimits) (r : Report) : AlternativeSet :=
  let used := filter (fun c => n_total (ca_counts c) <> 0) (candidates r) in
  let pairs : gset (Z * Z) := list_to_set (candidates r ≫= candidate_pairs ram) in
  let destinations : gset Z := list_to_set (map fst (candidates r ≫= candidate_pairs ram)) in
  if max_destination_bytes limits <? Z.of_nat (size destinations)
  then mkAlternatives [] (zlen used) true
  else mkAlternatives (map (fun '(o, v) => mkAlternative o v) (merge_sort pair_le (elements pairs)))
         (zlen used) false.

Definition static_byte_alternatives (ram : list Z) (limits : AlternativeLimits) : AlternativeSet :=
  if negb (zlen ram =? kRamBytes) then mkAlternatives [] 0 false
  else alternatives_of ram limits (analyze ram hardware_roots default_limits).

Close Scope string_scope.

(** * What the flags of a report say *)

Section FLAGS.
Context (ram : list Z) (lim : Limits) (classes : gmap Z StartClassification).

(** The control of a reachable start that the analysis followed completely. *)
Definition control_followed (an : Analysis) (pc : Z) : bool :=
  let eff := effect_at classes pc in
  let d := form_descriptor (di_form (instruction_of classes pc)) in
  if e_supported eff then
    negb ((e_control eff =b CK_computed) && top (read_reg lim (state_at an pc) (e_computed_base eff))) &&
    negb ((e_control eff =b CK_return) || (e_control eff =b CK_conditional_return))
  else negb (unresolved_control (f_mnemonic d)) && negb ((f_mnemonic d =b M_im) && (f_src d =b Op_im2)).

Lemma unsupported_pass_reach i rep :
  reachability_complete (unsupported_pass i rep) =
    (let d := form_descriptor (di_form i) in
     negb (unresolved_control (f_mnemonic d)) && negb ((f_mnemonic d =b M_im) && (f_src d =b Op_im2))) &&
    reachability_complete rep.
Proof using Type.
  unfold unsupported_pass. cbv zeta.
  destruct (f_mnemonic (form_descriptor (di_form i))); try reflexivity.
  destruct (_ && _); reflexivity.
Qed.

Lemma store_pass_reach covered pc s st rep :
  reachability_complete (store_pass lim covered pc s st rep) = reachability_complete rep.
Proof using Type. unfold store_pass, store_site. cbv zeta. repeat case_match; reflexivity. Qed.

Lemma effect_pass_reach covered an pc rep :
  sc_kind (class_at classes pc) = SK_decoded ->
  reachability_complete (effect_pass lim classes covered an pc rep) =
    control_followed an pc && reachability_complete rep.
Proof using Type.
  intros Hd. unfold effect_pass, control_followed, effect_at, instruction_of. cbv zeta.
  rewrite bool_decide_true by exact Hd. cbn [negb].
  destruct (e_supported _); cbn [negb]; [|apply unsupported_pass_reach].
  destruct (_ && top _); destruct (_ || _); destruct (e_store _); rewrite ?store_pass_reach; reflexivity.
Qed.

Lemma cover_pass_reach pc acc :
  reachability_complete (cover_pass classes pc acc).1 =
    (sc_kind (class_at classes pc) =b SK_decoded) && reachability_complete acc.1.
Proof using Type. destruct acc as [rep covered]. unfold cover_pass. by destruct (_ =b _). Qed.

Lemma push_pass_reach covered an rep :
  reachability_complete (push_pass lim covered an rep) = reachability_complete rep.
Proof using Type. unfold push_pass. cbv zeta. repeat case_match; simplify_eq; reflexivity. Qed.

Lemma candidate_step_flags covered reach s a v rep :
  reachability_complete (candidate_step ram classes covered reach s a v rep) = reachability_complete rep /\
  (budget_exceeded rep = true -> budget_exceeded (candidate_step ram classes covered reach s a v rep) = true).
Proof using Type. unfold candidate_step. repeat case_match; split; auto. Qed.

(** Folding passes that each conjoin a condition to a flag. *)
Lemma fold_flag {A B} (flag : B -> bool) (ok : A -> bool) (pass : B -> A -> B) l (b : B) :
  (forall x b, x ∈ l -> flag (pass b x) = ok x && flag b) ->
  flag (fold_left pass l b) = forallb ok l && flag b.
Proof using Type.
  revert b. induction l as [|x l IH]; intros b H; [done|]. cbn [fold_left forallb].
  rewrite IH by (intros; apply H; by right). rewrite H by left.
  destruct (ok x), (forallb ok l), (flag b); done.
Qed.

Lemma fold_keeps {A B} (P : B -> Prop) (pass : B -> A -> B) l (b : B) :
  (forall x b, P b -> P (pass b x)) -> P b -> P (fold_left pass l b).
Proof using Type. revert b. induction l as [|x l IH]; intros b H Hb; [done|]. cbn. auto. Qed.

Lemma site_pass_reach covered reach rep s :
  reachability_complete (site_pass ram classes covered reach rep s) = reachability_complete rep.
Proof using Type.
  unfold site_pass. destruct (_ || _); [done|].
  apply (fold_keeps (fun r => reachability_complete r = reachability_complete rep)); [|done].
  intros a r Hr. apply (fold_keeps (fun r => reachability_complete r = reachability_complete rep)); [|done].
  intros v r' Hr'. by rewrite (proj1 (candidate_step_flags _ _ _ _ _ _)).
Qed.

Lemma site_pass_budget covered reach rep s :
  budget_exceeded rep = true -> budget_exceeded (site_pass ram classes covered reach rep s) = true.
Proof using Type.
  intros H. unfold site_pass. destruct (_ || _); [done|].
  apply (fold_keeps (fun r => budget_exceeded r = true)); [|done]. intros a r Hr.
  apply (fold_keeps (fun r => budget_exceeded r = true)); [|done]. intros v r' Hr'.
  by apply candidate_step_flags.
Qed.

Lemma fold_sites_reach covered reach l rep :
  reachability_complete (fold_left (site_pass ram classes covered reach) l rep) = reachability_complete rep.
Proof using Type.
  apply (fold_keeps (fun r => reachability_complete r = reachability_complete rep)); [|done].
  intros s r Hr. by rewrite site_pass_reach.
Qed.

(** The starts of an analysis, as the passes see them. *)
Lemma elem_of_sorted_pcs an pc : pc ∈ sorted_pcs an <-> is_Some (states an !! pc).
Proof using Type.
  unfold sorted_pcs. rewrite merge_sort_Permutation.
  rewrite list_elem_of_fmap. split.
  - intros ((q & s) & -> & H%elem_of_map_to_list). eauto.
  - intros [s Hs]. exists (pc, s). split; [done|]. by apply elem_of_map_to_list.
Qed.

(** The exact condition of the reachability flag. *)
Lemma report_reachability ei an :
  reachability_complete (report ram lim classes ei an) =
    forallb (fun pc => sc_kind (class_at classes pc) =b SK_decoded) (sorted_pcs an) &&
    forallb (control_followed an) (sorted_pcs an).
Proof using Type.
  unfold report. set (rep0 := if budget an then _ else _).
  assert (H0 : reachability_complete rep0 = true) by (unfold rep0; by destruct (budget an)).
  clearbody rep0. generalize (sorted_pcs an). intros pcs.
  pose proof (fold_flag (fun acc => reachability_complete acc.1)
    (fun pc => sc_kind (class_at classes pc) =b SK_decoded)
    (fun acc pc => cover_pass classes pc acc) pcs (rep0, ∅)
    (fun pc acc _ => cover_pass_reach pc acc)) as Hc.
  destruct (fold_left _ pcs (rep0, ∅)) as [rep1 covered]. cbn [fst] in Hc.
  rewrite H0, andb_true_r in Hc. cbv zeta. rewrite fold_sites_reach.
  set (rep2 := fold_left _ pcs rep1).
  transitivity (reachability_complete rep2); [destruct ei; [apply push_pass_reach|done]|].
  destruct (forallb _ pcs) eqn:Hall.
  - unfold rep2. rewrite (fold_flag reachability_complete (control_followed an)).
    + by rewrite Hc, andb_true_r.
    + intros pc r Hpc. apply effect_pass_reach. rewrite forallb_forall in Hall.
      apply (bool_decide_eq_true _), Hall. by apply list_elem_of_In.
  - cbn [andb]. unfold rep2. clear rep2.
    apply (fold_keeps (fun r => reachability_complete r = false)); [|exact Hc].
    intros pc r Hr. unfold effect_pass. destruct (negb (_ =b SK_decoded)) eqn:Hd; [done|].
    apply negb_false_iff, bool_decide_eq_true in Hd.
    pose proof (effect_pass_reach covered an pc r Hd) as He. unfold effect_pass in He.
    rewrite bool_decide_true in He by exact Hd. cbn [negb] in He. rewrite He, Hr. apply andb_false_r.
Qed.

Lemma report_budget ei an :
  budget an = true -> budget_exceeded (report ram lim classes ei an) = true.
Proof using Type.
  intros Hb. unfold report. rewrite Hb.
  set (b := budget_exceeded).
  destruct (fold_left _ _ (_, ∅)) as [rep1 covered] eqn:E1.
  assert (H1 : b rep1 = true).
  { change rep1 with (rep1, covered).1. rewrite <- E1.
    apply (fold_keeps (fun acc : Report * gset Z => b acc.1 = true)); [|done].
    intros pc [r c] Hr. unfold cover_pass. destruct (negb _); exact Hr. }
  set (rep2 := fold_left _ _ rep1).
  assert (H2 : b rep2 = true).
  { apply (fold_keeps (fun r => b r = true)); [|exact H1]. intros pc r Hr. unfold effect_pass.
    unfold store_pass, store_site, unsupported_pass, b in *. cbv zeta. repeat case_match; simplify_eq; exact Hr. }
  cbv zeta. apply (fold_keeps (fun r => b r = true)); [intros s r; apply site_pass_budget|].
  destruct ei; [|exact H2]. unfold push_pass. cbv zeta. repeat case_match; simplify_eq; exact H2.
Qed.

End FLAGS.

(** * The reachable set *)

Section REACHABLE.
Context (lim : Limits) (classes : gmap Z StartClassification).
Context (Hrev : 0 <= max_revisits lim) (Hstarts : 0 <= max_starts lim) (Hsuf : steps_suffice lim).
Context (Hcls : classes_ok classes).

Lemma fresh_value (l : list Z) : exists x, x ∉ l.
Proof using Type. exists (fresh l). apply infinite_is_fresh. Qed.

(** A state that covers every register file knows nothing. *)
Lemma covers_all_top_inv s c : covers s (all_top c) -> forall i, top (sget s i) = true.
Proof using Type.
  intros H i. destruct (fresh_value (vs (sget s i))) as [x Hx].
  destruct (H (fun _ => x) (in_all_top c _) i) as [Ht|Hin]; [exact Ht|contradiction].
Qed.

Lemma sp_union_top an pc s :
  states an !! pc = Some s -> top (sget s sSP) = true -> sp_union lim an = top_val kCauseEntry.
Proof using Type.
  intros Hs Ht. unfold sp_union. cbv zeta.
  assert (E : existsb top (map (fun '(_, s) => sget s sSP) (map_to_list (states an))) = true).
  { apply existsb_exists. exists (sget s sSP). split; [|exact Ht].
    apply in_map_iff. exists (pc, s). split; [done|]. by apply list_elem_of_In, elem_of_map_to_list. }
  by rewrite E.
Qed.

(** What the interrupt rounds leave: the roots and, once an EI is reachable, the
    interrupt vector are covered from any register file. *)
Record reachable_ok (roots : list Root) (ei : bool) (an : Analysis) : Prop := {
  re_grown : grown lim classes an;
  re_queue : queue an = [];
  re_roots : forall r, r ∈ roots -> covered an (root_pc r) (all_top kCauseEntry);
  re_ei : ei = true -> covered an 0x38 (all_top kCauseEntry);
  re_no_ei : ei = false -> budget an = true \/ ei_reachable classes an = false;
}.

Lemma root_state_top r : root_state r = (root_pc r, all_top kCauseEntry).
Proof using Type. unfold root_state. by destruct (root_reset_state r). Qed.

Lemma covered_fixpoint an pc s :
  worklist_ok lim classes an -> covered an pc s -> covered (fixpoint lim classes an) pc s.
Proof using Type.
  intros Hw [Hb|(t & Ht & Hc)]; pose proof (fixpoint_spec lim classes an Hw) as Hfin.
  - left. by apply (fin_budget _ _ _ _ Hfin).
  - right. destruct (fin_fwd _ _ _ _ Hfin _ _ Ht) as (t' & Ht' & Hc').
    exists t'. split; [done|]. by eapply covers_trans.
Qed.

Lemma reachable_spec roots :
  roots <> [] -> Forall (fun r => is_u16 (root_pc r)) roots ->
  let '(ei, an) := reachable lim classes roots in reachable_ok roots ei an.
Proof using Hrev Hstarts Hsuf Hcls.
  intros Hne Hpcs. unfold reachable. set (rs := map root_state roots).
  assert (Hrs : roots_ok lim rs).
  { apply Forall_forall. intros [pc s] Hin. unfold rs in Hin.
    apply list_elem_of_fmap in Hin as (r & E & Hr). rewrite root_state_top in E. injection E as -> ->.
    split; [by apply (proj1 (Forall_forall _ _) Hpcs)|apply all_top_ok]. }
  pose proof (grown_enqueue_all lim classes rs _ Hrev Hrs (grown_initial lim classes Hrev Hstarts)) as Hg0.
  destruct (grown_fixpoint lim classes _ Hrev Hsuf Hcls Hg0) as [Hg Hq].
  set (an := fixpoint lim classes _) in *.
  assert (Hcov : forall r, r ∈ roots -> covered an (root_pc r) (all_top kCauseEntry)).
  { intros r Hr. apply covered_fixpoint; [apply Hg0|].
    apply enqueue_all_spec. unfold rs. apply list_elem_of_fmap. exists r.
    by rewrite root_state_top. }
  clearbody an. cbn [interrupt_rounds].
  destruct (budget an) eqn:Hb; [by constructor; auto|].
  destruct (ei_reachable classes an) eqn:Hei; cbn [negb]; [|by constructor; auto].
  destruct roots as [|r0 roots]; [done|].
  destruct (Hcov r0 ltac:(left)) as [?|(s0 & Hs0 & Hc0)]; [congruence|].
  rewrite (sp_union_top an _ _ Hs0 (covers_all_top_inv _ _ Hc0 sSP)).
  change (interrupt_state lim (top_val kCauseEntry)) with (all_top kCauseEntry).
  set (an1 := enqueue lim 0x38 (all_top kCauseEntry) an).
  assert (Hg1 : grown lim classes an1).
  { apply grown_enqueue; [done|by vm_compute|apply all_top_ok|exact Hg]. }
  destruct (grown_fixpoint lim classes an1 Hrev Hsuf Hcls Hg1) as [Hg2 Hq2].
  assert (Hcov2 : forall pc s, covered an pc s -> covered (fixpoint lim classes an1) pc s).
  { intros pc s Hc. apply covered_fixpoint; [apply Hg1|]. eapply covered_extends; [apply enqueue_extends|exact Hc]. }
  assert (Hint : covered (fixpoint lim classes an1) 0x38 (all_top kCauseEntry)).
  { apply covered_fixpoint; [apply Hg1|apply enqueue_covered]. }
  destruct (Hcov2 _ _ (Hcov r0 ltac:(left))) as [Hb2|(s2 & Hs2 & Hc2)].
  - set (an2 := fixpoint lim classes an1) in *. clearbody an2.
    destruct (_ && _).
    + by constructor; auto.
    + rewrite Hb2. by constructor; auto.
  - rewrite (sp_union_top _ _ _ Hs2 (covers_all_top_inv _ _ Hc2 sSP)). cbn.
    by constructor; auto.
Qed.

End REACHABLE.

(** * Execution with interrupts *)

Section MACHINE.
Context (classes : gmap Z StartClassification).

Definition is_ei (pc : Z) : bool :=
  (sc_kind (class_at classes pc) =b SK_decoded) &&
  (f_mnemonic (form_descriptor (di_form (instruction_of classes pc))) =b M_ei).

(** A machine state: the start, the registers, and whether an EI was executed. *)
Inductive mstep : Z * Regs * bool -> Z * Regs * bool -> Prop :=
| m_step pc regs pc' regs' ien :
    cstep classes (pc, regs) (pc', regs') -> mstep (pc, regs, ien) (pc', regs', ien || is_ei pc)
| m_interrupt pc regs regs' :
    regs_ok regs' -> mstep (pc, regs, true) (0x38, regs', true).

Lemma ei_reachable_spec an pc :
  is_Some (states an !! pc) -> is_ei pc = true -> ei_reachable classes an = true.
Proof using Type.
  intros [s Hs] He. apply existsb_exists. exists (pc, s). split; [|exact He].
  by apply list_elem_of_In, elem_of_map_to_list.
Qed.

End MACHINE.

(** * The starts a write changes *)

Lemma make_table_lookup ram a :
  make_table ram !! a =
    if (0 <=? a) && (a <? kCodeWindow)
    then Some (mkFetched FK_byte (znth ram (a .& (kRamBytes - 1)) 0) 1 (a .& (kRamBytes - 1)))
    else None.
Proof.
  unfold make_table.
  set (entry a := mkFetched FK_byte (znth ram (a .& (kRamBytes - 1)) 0) 1 (a .& (kRamBytes - 1))).
  apply (zfor_ind (fun i (t : TableFetch) => t !! a = if (0 <=? a) && (a <? i) then Some (entry a) else None)).
  - by vm_compute.
  - destruct (Z.leb_spec 0 a), (Z.ltb_spec a 0); done || lia.
  - intros i t Hi IH. unfold table_set, TableFetch in *. destruct (decide (i = a)) as [->|Hne].
    + rewrite lookup_insert_eq. destruct (Z.leb_spec 0 a), (Z.ltb_spec a (a + 1)); done || lia.
    + rewrite lookup_insert_ne, IH by done.
      destruct (Z.ltb_spec a i), (Z.ltb_spec a (i + 1)); try done; lia.
Qed.

Lemma znth_u8 l i : Forall is_u8 l -> is_u8 (znth l i 0).
Proof.
  intros H. revert i. induction H as [|x l Hx _ IH]; intros i; cbn; [by vm_compute|].
  destruct (_ =? _); [done|apply IH].
Qed.

Lemma make_table_typed ram : Forall is_u8 ram -> FetchTyped (table_fetch (make_table ram)).
Proof.
  intros H a. unfold table_fetch, tget. rewrite make_table_lookup.
  destruct (_ && _); cbn; [by apply znth_u8|by vm_compute].
Qed.

(** Two images agree at a logical address unless a RAM byte mapped there differs. *)
Definition differs (ram modified : list Z) (a : Z) : bool :=
  (a <? kCodeWindow) && negb (znth ram (a .& (kRamBytes - 1)) 0 =? znth modified (a .& (kRamBytes - 1)) 0).

Lemma make_table_agree ram modified a :
  differs ram modified a = false ->
  table_fetch (make_table modified) a = table_fetch (make_table ram) a.
Proof.
  unfold differs, table_fetch, tget. rewrite !make_table_lookup. intros H.
  destruct (a <? kCodeWindow); [|by rewrite andb_false_r].
  apply negb_false_iff, Z.eqb_eq in H. by rewrite H.
Qed.

(** A start whose decoding changes contains a changed byte. *)
Lemma changed_start_contains ram modified a :
  Forall is_u8 ram -> is_u16 a ->
  let o := decode_at (table_fetch (make_table ram)) a in
  sc_kind o = SK_decoded -> decode_at (table_fetch (make_table modified)) a <> o ->
  exists j, 0 <= j < logical_length (sc_instruction o) /\ differs ram modified (u16 (a + j)) = true.
Proof.
  intros Hram Ha o Hk Hne. pose proof (make_table_typed ram Hram) as Ht.
  pose proof (decode_at_decoded (table_fetch (make_table ram)) a Ha Hk) as Hok. fold o in Hok.
  rewrite (logical_length_count _ _ _ Hok).
  set (n := p_logical_byte_count (di_provenance (sc_instruction o))).
  pose proof (zfind_spec 0 n (fun j => differs ram modified (u16 (a + j)))) as Hf.
  destruct (zfind 0 n _) as [j|].
  - exists j. split; [lia|apply Hf].
  - exfalso. apply Hne. apply (decode_at_local (table_fetch (make_table ram)) _ a Ha Hk).
    intros j Hj. apply make_table_agree, Hf. unfold n. fold o in Hj. lia.
Qed.

(** The logical memory of an image, as a function. *)
Definition mem_fetch (ram : list Z) : LogicalFetch := fun a =>
  if (0 <=? a) && (a <? kCodeWindow)
  then mkFetched FK_byte (znth ram (a .& (kRamBytes - 1)) 0) 1 (a .& (kRamBytes - 1))
  else default_fetched.

Lemma table_fetch_mem ram a : table_fetch (make_table ram) a = mem_fetch ram a.
Proof. unfold table_fetch, tget, mem_fetch. rewrite make_table_lookup. by destruct (_ && _). Qed.

Lemma make_table_decode ram a :
  Forall is_u8 ram -> is_u16 a -> sc_kind (decode_at (mem_fetch ram) a) = SK_decoded ->
  class_at (classify_all (table_fetch (make_table ram))) a = decode_at (mem_fetch ram) a.
Proof.
  intros Hram Ha Hk. unfold class_at, tget. rewrite classify_all_lookup by done. cbn.
  assert (Ht : FetchTyped (mem_fetch ram)).
  { intros x. rewrite <- table_fetch_mem. by apply make_table_typed. }
  apply (decode_at_local (mem_fetch ram) _ a Ha Hk). intros j _. apply table_fetch_mem.
Qed.

(** The starts [changes_for] counts, and what it records of each. *)
Definition counted (classes mod_classes : gmap Z StartClassification) (reach : gset Z) (q : Z) : bool :=
  negb (class_at classes q =b class_at mod_classes q) &&
  negb ((kRamBytes <=? q) && negb (bool_decide (q ∈ reach))).

Definition change_of (classes mod_classes : gmap Z StartClassification) (reach : gset Z) (q : Z) : StartChange :=
  let o := class_at classes q in
  let m := class_at mod_classes q in
  mkChange q (change_kind o m) (decode_name o) (decode_name m) (decode_length o) (decode_length m)
    (bool_decide (q ∈ reach)).

Definition is_structural (c : StartChange) : bool := negb (ch_kind c =b CH_payload_only).

Definition count_if {A} (p : A -> bool) (l : list A) : Z := zlen (List.filter p l).

Lemma count_if_snoc {A} (p : A -> bool) l x :
  count_if p (l ++ [x]) = if p x then count_if p l + 1 else count_if p l.
Proof.
  unfold count_if. rewrite List.filter_app. cbn. destruct (p x).
  - by rewrite zlen_snoc.
  - by rewrite app_nil_r.
Qed.

Definition changes_spec (all : list StartChange) : list StartChange * ChangeCounts :=
  (take 64 all,
   mkCounts (zlen all) (count_if is_structural all)
     (count_if (fun c => is_structural c && ch_reachable_start c) all) (count_if ch_reachable_start all)).

Lemma take_snoc {A} (l : list A) x n :
  take n (l ++ [x]) = if Z.of_nat n <=? zlen l then take n l else (l ++ [x])%list.
Proof.
  unfold zlen. destruct (Z.leb_spec (Z.of_nat n) (Z.of_nat (length l))).
  - rewrite take_app_le by lia. done.
  - apply take_ge. rewrite length_app. cbn. lia.
Qed.

Lemma change_step_spec classes mod_classes reach q all :
  change_step classes mod_classes reach q (changes_spec all) =
    changes_spec (if counted classes mod_classes reach q
                  then (all ++ [change_of classes mod_classes reach q])%list else all).
Proof.
  unfold change_step, counted, changes_spec at 1. destruct (_ =b _); [done|]. cbn [negb andb].
  destruct (_ && negb _); [done|]. cbn [negb]. unfold changes_spec.
  rewrite take_snoc, zlen_snoc, !count_if_snoc. unfold is_structural, change_of. cbn.
  f_equal. change 64 with (Z.of_nat 64) at 1. unfold zlen. rewrite length_take.
  destruct (Z.ltb_spec (Z.of_nat (64 `min` length all)) (Z.of_nat 64)),
    (Z.leb_spec (Z.of_nat 64) (Z.of_nat (length all))); try lia; [|done].
  by rewrite take_ge by lia.
Qed.

Lemma changes_for_spec classes modified reach :
  changes_for classes modified reach =
    changes_spec (map (change_of classes (classify_all (table_fetch (make_table modified))) reach)
      (List.filter (counted classes (classify_all (table_fetch (make_table modified))) reach)
        (seqZ 0 kCodeWindow))).
Proof.
  unfold changes_for. generalize (classify_all (table_fetch (make_table modified))). intros mc. cbv zeta.
  change kCodeWindow with (0 + kCodeWindow) at 2.
  apply (zfor_ind (fun i acc => acc = changes_spec (map (change_of classes mc reach)
    (List.filter (counted classes mc reach) (seqZ 0 i))))); [by vm_compute|done|].
  intros i acc Hi ->. rewrite change_step_spec.
  rewrite seqZ_app, List.filter_app by lia. rewrite map_app. f_equal.
  change (seqZ (0 + i) 1) with [0 + i]. cbn [List.filter]. rewrite Z.add_0_l.
  destruct (counted _ _ _ i); [done|]. cbn. by rewrite app_nil_r.
Qed.

(** * The alternative bytes *)

Definition alternative_lt (x y : ByteAlternative) : Prop :=
  ba_offset x < ba_offset y \/ (ba_offset x = ba_offset y /\ ba_value x < ba_value y).

#[export] Instance pair_le_total : Total pair_le.
Proof. intros [a b] [c d]. unfold pair_le. cbn. lia. Qed.

#[export] Instance pair_le_trans : Transitive pair_le.
Proof. intros [a b] [c d] [e f]. unfold pair_le. cbn. lia. Qed.

Lemma sorted_alternatives l :
  NoDup l -> StronglySorted pair_le l ->
  StronglySorted alternative_lt (map (fun '(o, v) => mkAlternative o v) l).
Proof.
  intros Hnd Hs. induction Hs as [|[o v] l Hs IH Hall]; cbn; [constructor|].
  apply NoDup_cons in Hnd as [Hx Hnd]. constructor; [by apply IH|].
  apply Forall_forall. intros y Hy. apply list_elem_of_fmap in Hy as ([o' v'] & -> & Hy).
  rewrite Forall_forall in Hall. specialize (Hall _ Hy). unfold pair_le, alternative_lt in *. cbn in *.
  destruct Hall as [?|[-> ?]]; [by left|]. right. split; [done|].
  assert (v <> v') by (intros ->; contradiction). lia.
Qed.

(** A candidate justifies writing [v] over the snapshot at [o]. *)
Definition justified (ram : list Z) (c : Candidate) (o v : Z) : Prop :=
  n_total (ca_counts c) <> 0 /\ exists b, 0 <= b < ca_width c /\
    let dest := (ca_destination c + b) .& 0xFFFF in
    dest < kCodeWindow /\ o = dest .& (kRamBytes - 1) /\ v = u8 (ca_value c .>> (8 * b)) /\
    v <> znth ram o 0.

Lemma elem_of_candidate_pairs ram c o v : (o, v) ∈ candidate_pairs ram c <-> justified ram c o v.
Proof.
  unfold candidate_pairs, justified. destruct (Z.eqb_spec (n_total (ca_counts c)) 0) as [E|E].
  { split; [intros H; by apply elem_of_nil in H|by intros []]. }
  rewrite list_elem_of_bind. unfold byte_pairs. split.
  - intros (b & Hin & Hb%elem_of_seqZ). split; [done|]. exists b. split; [lia|].
    destruct (Z.leb_spec kCodeWindow ((ca_destination c + b) .& 0xFFFF)); [by apply elem_of_nil in Hin|].
    destruct (Z.eqb_spec (u8 (ca_value c .>> (8 * b))) (znth ram (((ca_destination c + b) .& 0xFFFF) .& (kRamBytes - 1)) 0));
      [by apply elem_of_nil in Hin|].
    by apply list_elem_of_singleton in Hin as [= -> ->].
  - intros (_ & b & Hb & Hd & -> & -> & Hne). exists b. split; [|apply elem_of_seqZ; lia].
    destruct (Z.leb_spec kCodeWindow ((ca_destination c + b) .& 0xFFFF)); [lia|].
    destruct (Z.eqb_spec (u8 (ca_value c .>> (8 * b))) (znth ram (((ca_destination c + b) .& 0xFFFF) .& (kRamBytes - 1)) 0));
      [done|]. by apply list_elem_of_singleton.
Qed.

Lemma elem_of_all_pairs ram cs o v :
  (o, v) ∈ cs ≫= candidate_pairs ram <-> exists c, c ∈ cs /\ justified ram c o v.
Proof.
  rewrite list_elem_of_bind. setoid_rewrite elem_of_candidate_pairs. by split; intros (c & ? & ?); exists c.
Qed.

Lemma justified_range ram c o v : justified ram c o v -> 0 <= o < kRamBytes /\ is_u8 v /\ v <> znth ram o 0.
Proof.
  intros (_ & b & _ & _ & -> & -> & Hne). split; [apply (field_range _ 13); lia|split; [apply u8_range|done]].
Qed.

Lemma alternatives_of_spec ram limits r :
  let s := alternatives_of ram limits r in
  StronglySorted alternative_lt (as_bytes s) /\
  (if as_bound_exceeded s then as_bytes s = []
   else (forall o v, mkAlternative o v ∈ as_bytes s <->
           exists c, c ∈ candidates r /\ justified ram c o v) /\
        Z.of_nat (size (list_to_set (map ba_offset (as_bytes s)) : gset Z)) <= max_destination_bytes limits).
Proof.
  unfold alternatives_of. cbv zeta. set (ps := candidates r ≫= candidate_pairs ram).
  destruct (Z.ltb_spec (max_destination_bytes limits) (Z.of_nat (size (list_to_set (map fst ps) : gset Z))))
    as [Hlt|Hge]; cbn [as_bytes as_bound_exceeded].
  { split; [constructor|done]. }
  set (sorted := merge_sort pair_le (elements (list_to_set ps : gset (Z * Z)))).
  assert (Hel : forall o v, (o, v) ∈ sorted <-> (o, v) ∈ ps).
  { intros o v. unfold sorted. by rewrite merge_sort_Permutation, elem_of_elements, elem_of_list_to_set. }
  split_and!.
  - apply sorted_alternatives.
    + unfold sorted. rewrite merge_sort_Permutation. apply NoDup_elements.
    + apply StronglySorted_merge_sort; apply _.
  - intros o v. rewrite <- (elem_of_all_pairs ram). fold ps. rewrite <- Hel, list_elem_of_fmap. split.
    + by intros ([o' v'] & [= -> ->] & H).
    + intros H. by exists (o, v).
  - etransitivity; [|exact Hge]. apply inj_le, subseteq_size. intros o.
    rewrite !elem_of_list_to_set, !list_elem_of_fmap.
    intros (x & -> & Hx). apply list_elem_of_fmap in Hx as ([o v] & -> & Hx). exists (o, v).
    split; [done|]. by apply Hel.
Qed.

(** * Properties *)

(** A report claims complete reachability exactly when every reachable
    start decodes and its control was followed: no return, no unsupported
    control transfer, no IM 2, no computed jump through an unknown register. *)
Theorem reachability_flag_exact (ram : list Z) (lim : Limits) (classes : gmap Z StartClassification)
    (roots : list Root) :
  let '(ei, an) := reachable lim classes roots in
  (reachability_complete (run ram lim classes roots) = true <->
   forall pc, is_Some (states an !! pc) ->
     decoded_at classes pc /\ control_followed lim classes an pc = true).
Proof.
  unfold run. destruct (reachable lim classes roots) as [ei an].
  rewrite report_reachability, andb_true_iff, !forallb_forall. split.
  - intros [Hd Hf] pc Hpc%elem_of_sorted_pcs%list_elem_of_In.
    split; [exact (bool_decide_eq_true_1 _ (Hd pc Hpc))|apply Hf, Hpc].
  - intros H. split; intros pc Hpc%list_elem_of_In%elem_of_sorted_pcs; destruct (H pc Hpc) as [Hd Hf].
    + by apply bool_decide_eq_true.
    + exact Hf.
Qed.

(** C4. Soundness of a complete report: when the analysis claims complete
    reachability and no exceeded budget, every start the unmodified image can
    execute from a root, with any initial registers, with interrupts taken at
    any time after an EI, is in the reachable set of the analysis. *)
Theorem complete_report_sound (ram : list Z) (lim : Limits) (classes : gmap Z StartClassification)
    (roots : list Root) (Hrev : 0 <= max_revisits lim) (Hstarts : 0 <= max_starts lim)
    (Hsuf : steps_suffice lim) (Hcls : classes_ok classes)
    (Hroots : Forall (fun r => is_u16 (root_pc r)) roots)
    (root : Root) (Hroot : root ∈ roots) (regs regs' : Regs) (Hregs : regs_ok regs) (pc : Z) (ien : bool) :
  reachability_complete (run ram lim classes roots) = true ->
  budget_exceeded (run ram lim classes roots) = false ->
  rtc (mstep classes) (root_pc root, regs, false) (pc, regs', ien) ->
  pc ∈ sorted_pcs (reachable lim classes roots).2.
Proof.
  intros Hcomplete Hbudget Hrtc.
  assert (Hne : roots <> []) by (intros ->; by apply elem_of_nil in Hroot).
  pose proof (reachable_spec lim classes Hrev Hstarts Hsuf Hcls roots Hne Hroots) as Hre.
  unfold run in *. destruct (reachable lim classes roots) as [ei an]. cbn [snd].
  assert (Hb : budget an = false).
  { destruct (budget an) eqn:E; [|done]. by rewrite (report_budget ram lim classes ei an E) in Hbudget. }
  destruct Hre as [Hg Hq Hrt Hei Hno].
  rewrite report_reachability, andb_true_iff, !forallb_forall in Hcomplete. destruct Hcomplete as [_ Hfol].
  assert (Hclosed : forall q t, states an !! q = Some t -> closed lim classes an q t /\ followed lim classes q t).
  { intros q t Ht. split.
    - destruct (wl_closed _ _ _ (gr_worklist _ _ _ Hg)) as [?|Hc]; [congruence|].
      destruct (Hc q t Ht) as [Hin|?]; [|done]. rewrite Hq in Hin. by apply elem_of_nil in Hin.
    - intros Hd Hs Hc. specialize (Hfol q). rewrite <- list_elem_of_In, elem_of_sorted_pcs in Hfol.
      specialize (Hfol (ex_intro _ t Ht)). unfold control_followed in Hfol. rewrite Hs in Hfol.
      rewrite bool_decide_true in Hfol by exact Hc. unfold state_at in Hfol. rewrite Ht in Hfol. cbn in Hfol.
      apply andb_prop in Hfol as [Hf _]. by apply negb_true_iff. }
  assert (Hin : forall q r, covered an q (all_top kCauseEntry) -> exists t, states an !! q = Some t /\ in_state t r).
  { intros q r Hc. apply (covered_in _ _ (all_top kCauseEntry)); [exact Hb|exact Hc|apply in_all_top]. }
  assert (Hinv : forall x y, rtc (mstep classes) x y ->
    let good z := let '(q, r, i) := z in (exists t, states an !! q = Some t /\ in_state t r) /\ regs_ok r /\
                    (i = true -> ei_reachable classes an = true) in good x -> good y).
  { intros x y Hxy good. induction Hxy as [x|x y z Hstep _ IH]; [done|]. intros Hx. apply IH. clear IH.
    destruct Hstep as [q r q' r' i Hstep|q r r' Hr']; destruct Hx as (Ht & Hr & Hi).
    - split_and!.
      + apply (reachable_in lim classes an (q, r) (q', r') Hclosed); [by apply rtc_once|done|done].
      + exact (cstep_ok classes _ _ Hstep Hr).
      + intros [?|He]%orb_prop; [auto|]. destruct Ht as (t & Ht & _).
        eapply ei_reachable_spec; [by eexists|exact He].
    - split_and!; [|done|done]. apply Hin, Hei. destruct ei; [done|].
      destruct (Hno eq_refl) as [?|E]; [congruence|]. rewrite Hi in E by done. discriminate E. }
  apply elem_of_sorted_pcs. destruct (Hinv _ _ Hrtc) as ((t & Ht & _) & _); [|by eexists].
  split_and!; [apply Hin, Hrt, Hroot|exact Hregs|done].
Qed.

Lemma complete_report_sound_witness :
  2 ∈ sorted_pcs (reachable default_limits sample_classes [mkRoot 0 true]).2.
Proof.
  apply (complete_report_sound [] default_limits sample_classes [mkRoot 0 true]
    ltac:(by vm_compute) ltac:(by vm_compute) ltac:(by vm_compute)
    (decode_table_ok _ sample_classes sample_decode_table))
    with (root := mkRoot 0 true) (regs := sample_regs 7) (regs' := set_slot (sample_regs 7) sB 3) (ien := false).
  - constructor; [by vm_compute|constructor].
  - by apply list_elem_of_singleton.
  - apply sample_regs_ok. lia.
  - by_evaluation.
  - by_evaluation.
  - apply rtc_once. apply (m_step sample_classes 0 (sample_regs 7) 2 _ false).
    eapply (step_effect sample_classes 0 (sample_regs 7) (fun _ => 0)); try by_evaluation.
    exists [3]. split; [|reflexivity]. constructor; [|constructor].
    split; [vm_compute; split; [discriminate|reflexivity]|by_evaluation].
Defined.

(** The recorded effect of a write is exact: its counters are the numbers of
    starts of the code window (the second RAM mirror only where reachable) whose
    classification differs, of those whose form or length changes, and of those
    reachable; and the recorded list is the first 64 of them in ascending order,
    each with its kind, names and lengths. *)
Theorem changes_for_exact (ram modified : list Z) (reach : gset Z) :
  let classes := classify_all (table_fetch (make_table ram)) in
  let mod_classes := classify_all (table_fetch (make_table modified)) in
  let all := map (change_of classes mod_classes reach)
               (List.filter (counted classes mod_classes reach) (seqZ 0 kCodeWindow)) in
  changes_for classes modified reach =
    (take 64 all,
     mkCounts (zlen all) (count_if is_structural all)
       (count_if (fun c => is_structural c && ch_reachable_start c) all) (count_if ch_reachable_start all)).
Proof. apply changes_for_spec. Qed.

(** Locality of a code write: a start that decoded before and is classified
    differently after any change of the RAM has, among the bytes it accounts for,
    a mapped RAM byte that changed; so the recorded changes of a write are
    confined to the starts that contain a written byte or did not decode. *)
Theorem change_contains_written_byte (ram modified : list Z) (Hram : Forall is_u8 ram)
    (q : Z) (Hq : 0 <= q < kCodeWindow) :
  let classes := classify_all (table_fetch (make_table ram)) in
  let mod_classes := classify_all (table_fetch (make_table modified)) in
  decoded_at classes q -> class_at classes q <> class_at mod_classes q ->
  exists j, 0 <= j < logical_length (instruction_of classes q) /\
    differs ram modified (u16 (q + j)) = true.
Proof.
  cbv zeta. intros Hk Hne.
  assert (Hu : is_u16 q) by (unfold kCodeWindow, is_u16 in *; lia).
  unfold decoded_at, instruction_of, class_at, tget in *.
  rewrite !classify_all_lookup in * by done. cbn [default from_option id] in *.
  apply changed_start_contains; [done|done|done|congruence].
Qed.

Lemma change_contains_written_byte_witness :
  exists j, 0 <= j < logical_length (instruction_of (classify_all (table_fetch (make_table [0x3E; 1]))) 0) /\
    differs [0x3E; 1] [0x3E; 2] (u16 (0 + j)) = true.
Proof.
  assert (H1 : Forall is_u8 [0x3E; 1]) by (repeat constructor; done).
  assert (H2 : Forall is_u8 [0x3E; 2]) by (repeat constructor; done).
  assert (H0 : is_u16 0) by (split; [discriminate|reflexivity]).
  assert (D1 : sc_kind (decode_at (mem_fetch [0x3E; 1]) 0) = SK_decoded) by by_evaluation.
  pose proof (make_table_decode [0x3E; 1] 0 H1 H0 D1) as E1.
  assert (D2 : sc_kind (decode_at (mem_fetch [0x3E; 2]) 0) = SK_decoded) by by_evaluation.
  pose proof (make_table_decode [0x3E; 2] 0 H2 H0 D2) as E2.
  refine (change_contains_written_byte [0x3E; 1] [0x3E; 2] H1 0 _ _ _).
  - split; [discriminate|reflexivity].
  - unfold decoded_at. rewrite E1. by_evaluation.
  - rewrite E1, E2. vm_compute. discriminate.
Defined.

(** The static alternatives are exactly the justified ones: the bytes are
    strictly sorted by (offset, value); unless the destination bound was hit
    (then there are none) a byte is listed iff an exact write candidate that
    changes some start puts that value at that offset of the mirrored RAM and it
    differs from the snapshot; and at most [max_destination_bytes] offsets have
    alternatives. *)
Theorem static_byte_alternatives_exact (ram : list Z) (limits : AlternativeLimits) :
  let s := static_byte_alternatives ram limits in
  let r := analyze ram hardware_roots default_limits in
  StronglySorted alternative_lt (as_bytes s) /\
  Forall (fun x => 0 <= ba_offset x < kRamBytes /\ is_u8 (ba_value x) /\
            ba_value x <> znth ram (ba_offset x) 0) (as_bytes s) /\
  (if negb (zlen ram =? kRamBytes) || as_bound_exceeded s then as_bytes s = []
   else (forall o v, mkAlternative o v ∈ as_bytes s <->
           exists c, c ∈ candidates r /\ justified ram c o v) /\
        Z.of_nat (size (list_to_set (map ba_offset (as_bytes s)) : gset Z)) <= max_destination_bytes limits).
Proof.
  cbv zeta. unfold static_byte_alternatives. destruct (negb _); cbn [as_bytes as_bound_exceeded orb].
  { split_and!; [constructor|constructor|done]. }
  set (r := analyze _ _ _). destruct (alternatives_of_spec ram limits r) as [Hs Hrest].
  set (s := alternatives_of ram limits r) in *. clearbody s. split_and!; [done| |exact Hrest].
  apply Forall_forall. intros [o v] Hx. cbn. destruct (as_bound_exceeded s).
  - rewrite Hrest in Hx. by apply elem_of_nil in Hx.
  - destruct Hrest as [Hiff _]. apply Hiff in Hx as (c & _ & Hj). by eapply justified_range.
Qed.
