(* ===== verification/Z80TokenReport.v ===== *)
(** The decode-token report of [libs/cpu/z80/src/token_report.cpp] and its wire
    format ([include/segarecomp/cpu/z80/token_report.hpp]): one 4-byte record per
    byte position of an image, decoded in 16 KiB blocks with a 64 KiB window. *)

From S2P Require Import Prelude Z80Forms Z80Decode.

Definition kTokenReportBlockBytes : Z := 0x4000.

(** "Z80TOK01" *)
Definition kMagic : list Z := [0x5A; 0x38; 0x30; 0x54; 0x4F; 0x4B; 0x30; 0x31].

(** The window of the block at [block]: every other address is [non_code]. *)
Definition block_fetch (image : list Z) (block : Z) : TableFetch :=
  zfor 0 (Z.min 0x10000 (zlen image - block))
    (fun a fetch => table_set fetch (u16 a) (mkFetched FK_byte (znth image (block + a) 0) 0 (u32 (block + a)))) ∅.

(** The record of a classified start. *)
Definition token (start : StartClassification) : list Z :=
  let '(kind, length, form) :=
    match sc_kind start with
    | SK_decoded => (0, u8 (Z.min 255 (logical_length (sc_instruction start))), di_form (sc_instruction start))
    | SK_prefix_lock => (1, 0, kNoForm)
    | SK_unresolved_fetch_mapping => (2, 0, kNoForm)
    | _ => (3, 0, kNoForm)
    end in
  [kind; length; form .& 0xFF; (form .>> 8) .& 0xFF].

(** The positions of one block. *)
Definition block_report (image : list Z) (block : Z) (out : list Z) : list Z :=
  let fetch := table_fetch (block_fetch image block) in
  let block_end := Z.min (block + kTokenReportBlockBytes) (zlen image) in
  zfor block (block_end - block) (fun p out => out ++ token (decode_at fetch (u16 (p - block)))) out.

Definition le32_bytes (count : Z) : list Z :=
  map (fun shift => (count .>> shift) .& 0xFF) [0; 8; 16; 24].

(** The block loop runs once per started block. *)
Definition block_count (size : Z) : Z := (size + kTokenReportBlockBytes - 1) / kTokenReportBlockBytes.

Definition decode_token_report (image : list Z) : list Z :=
  zfor 0 (block_count (zlen image)) (fun i out => block_report image (i * kTokenReportBlockBytes) out)
    (kMagic ++ le32_bytes (u32 (zlen image))).

(** * The report, position by position *)

Definition block_of (p : Z) : Z := p / kTokenReportBlockBytes * kTokenReportBlockBytes.

(** What the decoder sees at the position [p] of an image. *)
Definition position_start (image : list Z) (p : Z) : StartClassification :=
  decode_at (table_fetch (block_fetch image (block_of p))) (u16 (p - block_of p)).

Lemma token_length start : length (token start) = 4%nat.
Proof. unfold token. by destruct (sc_kind start). Qed.

Lemma token_fields start :
  (znth (token start) 0 0 = 0 <-> sc_kind start = SK_decoded) /\
  znth (token start) 1 0 =
    if sc_kind start =b SK_decoded then Z.min 255 (logical_length (sc_instruction start)) else 0.
Proof.
  assert (Hn : 0 <= logical_length (sc_instruction start)) by apply u32_range.
  unfold token. revert Hn. generalize (logical_length (sc_instruction start)). intros n Hn.
  destruct (sc_kind start); cbn [znth Z.eqb]; try (split; [split; done|done]).
  split; [done|]. rewrite bool_decide_true by done. apply u8_id. unfold is_u8. lia.
Qed.

Lemma block_of_block i p :
  i * kTokenReportBlockBytes <= p < (i + 1) * kTokenReportBlockBytes ->
  block_of p = i * kTokenReportBlockBytes.
Proof.
  intros Hp. unfold block_of. f_equal. symmetry. unfold kTokenReportBlockBytes in *.
  apply (Z.div_unique p 0x4000 i (p - i * 0x4000)); lia.
Qed.

Lemma block_report_spec image i out :
  block_report image (i * kTokenReportBlockBytes) out =
    out ++ concat (map (fun p => token (position_start image p))
      (seqZ (i * kTokenReportBlockBytes)
         (Z.min kTokenReportBlockBytes (zlen image - i * kTokenReportBlockBytes)))).
Proof.
  unfold block_report. cbv zeta.
  replace (Z.min _ _ - _) with (Z.min kTokenReportBlockBytes (zlen image - i * kTokenReportBlockBytes)) by lia.
  rewrite <- zfor_app. apply zfor_ext. intros p t Hp. unfold position_start.
  by rewrite (block_of_block i) by lia.
Qed.

Lemma block_count_spec size :
  0 <= size ->
  0 <= block_count size /\ block_count size * kTokenReportBlockBytes >= size /\
  (block_count size - 1) * kTokenReportBlockBytes < size \/ size = 0 /\ block_count size = 0.
Proof.
  intros Hs. unfold block_count, kTokenReportBlockBytes.
  pose proof (Z.div_mod (size + 0x4000 - 1) 0x4000). pose proof (Z.mod_pos_bound (size + 0x4000 - 1) 0x4000).
  lia.
Qed.

(** The block loop visits the positions in order. *)
Lemma decode_token_report_spec image :
  decode_token_report image =
    kMagic ++ le32_bytes (u32 (zlen image)) ++
    concat (map (fun p => token (position_start image p)) (seqZ 0 (zlen image))).
Proof.
  unfold decode_token_report. rewrite app_assoc. set (header := kMagic ++ _). set (tok := fun p => token _).
  pose proof (zlen_nonneg image) as Hn.
  assert (H : forall n, 0 <= n <= block_count (zlen image) ->
    zfor 0 n (fun i out => block_report image (i * kTokenReportBlockBytes) out) header =
    header ++ concat (map tok (seqZ 0 (Z.min (n * kTokenReportBlockBytes) (zlen image))))).
  { intros n Hnb.
    apply (zfor_ind (fun i out => i <= block_count (zlen image) -> out =
      header ++ concat (map tok (seqZ 0 (Z.min (i * kTokenReportBlockBytes) (zlen image)))))); [lia| | |lia].
    - intros _. rewrite seqZ_nil by lia. cbn [map concat]. by rewrite app_nil_r.
    - intros i out Hi IH Hle. rewrite block_report_spec, IH by lia. rewrite <- app_assoc. f_equal.
      assert (Hlt : i * kTokenReportBlockBytes < zlen image).
      { destruct (block_count_spec (zlen image) Hn) as [H|H]; unfold kTokenReportBlockBytes in *; lia. }
      rewrite (Z.min_l (i * _)) by lia. rewrite <- concat_app, <- map_app. fold tok. do 2 f_equal.
      rewrite <- (Z.add_0_l (i * kTokenReportBlockBytes)) at 2. rewrite <- seqZ_app by
        (unfold kTokenReportBlockBytes in *; lia).
      f_equal. unfold kTokenReportBlockBytes in *. lia. }
  rewrite H by (unfold block_count, kTokenReportBlockBytes; split; [apply Z.div_pos; lia|lia]).
  rewrite Z.min_r; [done|]. destruct (block_count_spec (zlen image) Hn); unfold kTokenReportBlockBytes in *; lia.
Qed.

(** The token report is exact: its length is 12 bytes plus four per image
    byte, it starts with the magic and the little-endian position count, and the
    four bytes of position [p] are the kind, the saturated length and the form of
    the decoder's classification of that position in the window of its block;
    kind 0 is reported exactly for decoded starts. *)
Theorem token_report_exact (image : list Z) (Hsize : is_u32 (zlen image)) :
  let out := decode_token_report image in
  zlen out = 12 + 4 * zlen image /\
  take 8 out = kMagic /\
  zlen image = znth out 8 0 + 256 * znth out 9 0 + 65536 * znth out 10 0 + 16777216 * znth out 11 0 /\
  forall p, 0 <= p < zlen image ->
    let start := position_start image p in
    take 4 (drop (Z.to_nat (12 + 4 * p)) out) = token start /\
    (znth (token start) 0 0 = 0 <-> sc_kind start = SK_decoded) /\
    znth (token start) 1 0 =
      if sc_kind start =b SK_decoded then Z.min 255 (logical_length (sc_instruction start)) else 0.
Proof.
  cbv zeta. rewrite decode_token_report_spec, u32_id by done.
  set (ls := map (fun p => token (position_start image p)) (seqZ 0 (zlen image))).
  assert (Hls : Forall (fun l => length l = 4%nat) ls).
  { apply Forall_forall. intros l Hl. apply list_elem_of_fmap in Hl as (p & -> & _). apply token_length. }
  assert (Hlen : length ls = length image).
  { unfold ls. rewrite length_map, length_seqZ. unfold zlen. lia. }
  split_and!.
  - unfold zlen. rewrite !length_app, (length_chunks 4) by done. cbn. lia.
  - by rewrite take_app_le by (cbn; lia).
  - cbn [znth app kMagic le32_bytes map Z.eqb Pos.eqb Z.sub Z.add Z.opp Z.pos_sub Pos.pred_double].
    rewrite !land_ff, Z.shiftr_0_r, !Z.shiftr_div_pow2 by lia. by apply le32_split.
  - intros p Hp. split.
    + replace (Z.to_nat (12 + 4 * p)) with (12 + 4 * Z.to_nat p)%nat by lia.
      rewrite app_assoc, drop_app_ge by (cbn; lia).
      replace (12 + 4 * Z.to_nat p - length (kMagic ++ le32_bytes (zlen image)))%nat with (4 * Z.to_nat p)%nat
        by (cbn; lia).
      apply take_drop_chunks; [done|]. unfold ls.
      change (map ?f ?l) with (f <$> l). rewrite list_lookup_fmap, lookup_seqZ_lt by lia.
      rewrite Z.add_0_l, Z2Nat.id by lia. reflexivity.
    + apply token_fields.
Qed.

Lemma token_report_exact_witness :
  zlen (decode_token_report [0x3E; 0x01; 0xC9]) = 24 /\
  decode_token_report [0xC9] = [0x5A; 0x38; 0x30; 0x54; 0x4F; 0x4B; 0x30; 0x31; 1; 0; 0; 0; 0; 1; 57; 0].
Proof.
  split; [|by_evaluation].
  apply (token_report_exact [0x3E; 0x01; 0xC9]). by vm_compute.
Defined.
