(* ===== verification/Kosinski.v ===== *)
(** The Kosinski LZ decoder of
    [libs/core/include/segarecomp/core/kosinski.hpp].

    [kosinski_decode] is the decoder with its reader state, error results and
    token bound.  The specification is an encoder: a token list is written as a
    sequence of descriptor bits and payload bytes, laid out with every 16-bit
    descriptor word in front of the payload bytes its bits precede.  Decoding
    the encoding of a token list gives back what the tokens mean. *)

From S2P Require Import Prelude.

(** * The decoder *)

Inductive KosinskiError : Type :=
| KE_none | KE_source_exhausted | KE_reference_before_stream | KE_decoded_length_exceeded
| KE_token_bound_exceeded.

#[export] Instance kosinski_error_eq_dec : EqDecision KosinskiError.
Proof. solve_decision. Defined.

Record KosinskiResult := mkKosinski {
  k_error : KosinskiError;
  k_output : list Z;
  k_end : Z;
}.

Definition kKosinskiMaxTokens : Z := 1 .<< 22.

(** The captured variables [pos], [bits] and [left]. *)
Record Reader := mkReader { k_pos : Z; k_bits : Z; k_left : Z }.

Section DECODER.
Context (source : list Z).

Definition next_byte (r : Reader) : option (Z * Reader) :=
  if zlen source <=? k_pos r then None
  else Some (znth source (k_pos r) 0, mkReader (k_pos r + 1) (k_bits r) (k_left r)).

Definition refill (r : Reader) : option Reader :=
  '(lo, r) ← next_byte r;
  '(hi, r) ← next_byte r;
  Some (mkReader (k_pos r) (lo .| (hi .<< 8)) 16).

Definition bit (r : Reader) : option (Z * Reader) :=
  let out := k_bits r .& 1 in
  let r := mkReader (k_pos r) (k_bits r .>> 1) (k_left r - 1) in
  if k_left r =? 0 then r ← refill r; Some (out, r) else Some (out, r).

Fixpoint copy_loop (n : nat) (back : Z) (output : list Z) : list Z :=
  match n with
  | O => output
  | S n' => copy_loop n' back (output ++ [znth output (zlen output - back) 0])
  end.

(** [copy]: the error, or the longer output. *)
Definition copy (limit displacement count : Z) (output : list Z) : result KosinskiError (list Z) :=
  let back := - displacement in
  if zlen output <? back then Err KE_reference_before_stream
  else if limit <? zlen output + count then Err KE_decoded_length_exceeded
  else Ok (copy_loop (Z.to_nat count) back output).

(** How one iteration of the token loop leaves. *)
Inductive Step : Type :=
| Continue (r : Reader) (output : list Z)
| Finished (pos : Z)
| Failed (e : KosinskiError).

Definition exhausted (s : option Step) : Step := default (Failed KE_source_exhausted) s.

Definition copy_step (limit displacement count : Z) (r : Reader) (output : list Z) : Step :=
  match copy limit displacement count output with
  | Err e => Failed e
  | Ok output => Continue r output
  end.

Definition full_copy (limit : Z) (r : Reader) (output : list Z) : option Step :=
  '(lo, r) ← next_byte r;
  '(hi, r) ← next_byte r;
  let displacement := ((0xE000 .| ((hi .& 0xF8) .<< 5)) .| lo) - 0x10000 in
  let count := hi .& 7 in
  if negb (count =? 0) then Some (copy_step limit displacement (count + 2) r output)
  else
    '(extra, r) ← next_byte r;
    if extra =? 0 then Some (Finished (k_pos r))
    else if negb (extra =? 1) then Some (copy_step limit displacement (extra + 1) r output)
    else Some (Continue r output).

Definition inline_copy (limit : Z) (r : Reader) (output : list Z) : option Step :=
  '(hi_bit, r) ← bit r;
  '(lo_bit, r) ← bit r;
  '(disp, r) ← next_byte r;
  Some (copy_step limit (disp - 256) (((hi_bit .<< 1) .| lo_bit) + 2) r output).

Definition token_step (limit : Z) (r : Reader) (output : list Z) : Step :=
  exhausted (
    '(b, r) ← bit r;
    if negb (b =? 0) then
      if limit <=? zlen output then Some (Failed KE_decoded_length_exceeded)
      else
        '(byte, r) ← next_byte r;
        Some (Continue r (output ++ [byte]))
    else
      '(b, r) ← bit r;
      if negb (b =? 0) then full_copy limit r output else inline_copy limit r output).

Fixpoint token_loop (n : nat) (limit : Z) (r : Reader) (output : list Z) : KosinskiResult :=
  match n with
  | O => mkKosinski KE_token_bound_exceeded output 0
  | S n' =>
      match token_step limit r output with
      | Continue r output => token_loop n' limit r output
      | Finished pos => mkKosinski KE_none output pos
      | Failed e => mkKosinski e output 0
      end
  end.

Definition kosinski_decode (position limit max_tokens : Z) : KosinskiResult :=
  match refill (mkReader position 0 0) with
  | None => mkKosinski KE_source_exhausted [] 0
  | Some r => token_loop (Z.to_nat max_tokens) limit r []
  end.

End DECODER.

(** * Copies *)

Lemma copy_loop_length n back out : zlen (copy_loop n back out) = zlen out + Z.of_nat n.
Proof.
  revert out. induction n as [|n IH]; intros out; cbn [copy_loop]; [lia|].
  rewrite IH, zlen_snoc. lia.
Qed.

Lemma copy_loop_prefix n back out : exists tail, copy_loop n back out = out ++ tail.
Proof.
  revert out. induction n as [|n IH]; intros out; cbn [copy_loop].
  - exists []. by rewrite app_nil_r.
  - destruct (IH (out ++ [znth out (zlen out - back) 0])) as [tail ->]. rewrite <- app_assoc. eauto.
Qed.

Lemma znth_app_l {A} (l k : list A) i d : 0 <= i < zlen l -> znth (l ++ k) i d = znth l i d.
Proof.
  intros Hi. unfold zlen in Hi. rewrite !znth_nth by lia. apply app_nth1. lia.
Qed.

Lemma znth_app_r {A} (l k : list A) i d : 0 <= i -> znth (l ++ k) (zlen l + i) d = znth k i d.
Proof.
  intros Hi. unfold zlen. rewrite !znth_nth by lia.
  rewrite app_nth2 by lia. f_equal. lia.
Qed.

(** Every copied byte equals the one [back] places before it, overlaps included. *)
Lemma copy_loop_spec n back out :
  0 < back <= zlen out ->
  forall i, zlen out <= i < zlen out + Z.of_nat n ->
  znth (copy_loop n back out) i 0 = znth (copy_loop n back out) (i - back) 0.
Proof.
  revert out. induction n as [|n IH]; intros out Hb i Hi; cbn [copy_loop]; [lia|].
  destruct (decide (i = zlen out)) as [->|Hne].
  - destruct (copy_loop_prefix n back (out ++ [znth out (zlen out - back) 0])) as [tail ->].
    rewrite <- app_assoc. cbn [app].
    rewrite (znth_app_l out _ (zlen out - back)) by lia.
    pose proof (znth_app_r out (znth out (zlen out - back) 0 :: tail) 0 0 ltac:(lia)) as H.
    by rewrite Z.add_0_r in H.
  - apply IH; rewrite zlen_snoc; lia.
Qed.

(** * Tokens and their meaning *)

(** [back] is a distance of at least one byte; the fields are the stored ones. *)
Inductive Token : Type :=
| TLiteral (byte : Z)
| TFull (back count : Z)
| TLong (back extra : Z)
| TInline (back count : Z).

Definition token_ok (t : Token) : Prop :=
  match t with
  | TLiteral b => is_u8 b
  | TFull back count => 1 <= back <= 8192 /\ 1 <= count <= 7
  | TLong back extra => 1 <= back <= 8192 /\ 1 <= extra <= 255
  | TInline back count => 1 <= back <= 256 /\ 0 <= count <= 3
  end.

(** The copy of a token: distance and number of bytes. *)
Definition token_copy (t : Token) : Z * Z :=
  match t with
  | TLiteral _ => (1, 0)
  | TFull back count => (back, count + 2)
  | TLong back extra => (back, if extra =? 1 then 0 else extra + 1)
  | TInline back count => (back, count + 2)
  end.

Definition expand_token (t : Token) (out : list Z) : option (list Z) :=
  match t with
  | TLiteral b => Some (out ++ [b])
  | _ =>
      let '(back, n) := token_copy t in
      if n =? 0 then Some out
      else if zlen out <? back then None
      else Some (copy_loop (Z.to_nat n) back out)
  end.

Fixpoint expand (ts : list Token) (out : list Z) : option (list Z) :=
  match ts with
  | [] => Some out
  | t :: ts' => out ← expand_token t out; expand ts' out
  end.

(** * The encoder *)

Inductive Event : Type := EBit (b : bool) | EByte (x : Z).

Definition full_bytes (back low : Z) : list Event :=
  let d := 0x2000 - back in
  [EByte (u8 d); EByte ((d / 256) * 8 + low)].

Definition token_events (t : Token) : list Event :=
  match t with
  | TLiteral b => [EBit true; EByte b]
  | TFull back count => [EBit false; EBit true] ++ full_bytes back count
  | TLong back extra => [EBit false; EBit true] ++ full_bytes back 0 ++ [EByte extra]
  | TInline back count =>
      [EBit false; EBit false; EBit (Z.testbit count 1); EBit (Z.testbit count 0); EByte (256 - back)]
  end.

Definition terminator : list Event := [EBit false; EBit true; EByte 0; EByte 0xF0; EByte 0].

(** The events up to and including the [n]-th bit: their bits, their bytes, and
    the events after them when there were [n] bits. *)
Fixpoint collect (n : nat) (evs : list Event) : list bool * list Z * option (list Event) :=
  match n with
  | O => ([], [], Some evs)
  | S n' =>
      (fix go evs :=
         match evs with
         | [] => ([], [], None)
         | EBit b :: evs' => let '(bs, xs, rest) := collect n' evs' in (b :: bs, xs, rest)
         | EByte x :: evs' => let '(bs, xs, rest) := go evs' in (bs, x :: xs, rest)
         end) evs
  end.

(** Descriptor bits are stored from the least significant one. *)
Fixpoint bits_value (bs : list bool) : Z :=
  match bs with [] => 0 | b :: bs' => Z.b2z b + 2 * bits_value bs' end.

Definition word_bytes (w : Z) : list Z := [u8 w; w / 256].

Fixpoint layout (fuel : nat) (evs : list Event) : list Z :=
  match fuel with
  | O => []
  | S fuel' =>
      let '(bs, xs, rest) := collect 16 evs in
      word_bytes (bits_value bs) ++ xs ++
      match rest with None => [] | Some evs' => layout fuel' evs' end
  end.

Definition events (ts : list Token) : list Event := (ts ≫= token_events) ++ terminator.

Definition encode (ts : list Token) : list Z := layout (S (length (events ts))) (events ts).

(** * The reader on an encoded stream *)

Lemma collect_byte n x evs :
  collect (S n) (EByte x :: evs) = let '(bs, xs, rest) := collect (S n) evs in (bs, x :: xs, rest).
Proof. reflexivity. Qed.

Lemma collect_bit n b evs :
  collect (S n) (EBit b :: evs) = let '(bs, xs, rest) := collect n evs in (b :: bs, xs, rest).
Proof. reflexivity. Qed.

Lemma collect_nil n : collect (S n) [] = ([], [], None).
Proof. reflexivity. Qed.

(** At most [n] bits are collected, and [n] bits leave fewer events. *)
Lemma collect_bounds n evs :
  let '(bs, _, rest) := collect n evs in
  (length bs <= n)%nat /\
  match rest with Some evs' => (length evs' + n <= length evs)%nat | None => True end.
Proof.
  revert n. induction evs as [|[b|x] evs IH]; intros [|n].
  - cbn. lia.
  - cbn. lia.
  - cbn. lia.
  - rewrite collect_bit. specialize (IH n). destruct (collect n evs) as [[bs xs] [rest|]]; cbn; lia.
  - cbn. lia.
  - rewrite collect_byte. specialize (IH (S n)). destruct (collect (S n) evs) as [[bs xs] [rest|]]; cbn; lia.
Qed.

Lemma bits_value_bound bs : 0 <= bits_value bs < 2 ^ Z.of_nat (length bs).
Proof.
  induction bs as [|b bs IH]; cbn [bits_value length]; [done|].
  rewrite Nat2Z.inj_succ, Z.pow_succ_r by lia. destruct b; cbn [Z.b2z]; lia.
Qed.

Lemma bits_value_16 n evs : (n <= 16)%nat -> is_u16 (bits_value (collect n evs).1.1).
Proof.
  intros Hn. pose proof (collect_bounds n evs) as H. destruct (collect n evs) as [[bs xs] rest]. cbn.
  pose proof (bits_value_bound bs). unfold is_u16.
  assert (2 ^ Z.of_nat (length bs) <= 2 ^ 16) by (apply Z.pow_le_mono_r; lia). lia.
Qed.

Lemma bits_value_cons b bs :
  bits_value (b :: bs) .& 1 = Z.b2z b /\ bits_value (b :: bs) .>> 1 = bits_value bs.
Proof.
  cbn [bits_value]. split.
  - pose proof (land_ones_mod (Z.b2z b + 2 * bits_value bs) 1 ltac:(lia)) as H.
    change (2 ^ 1 - 1) with 1 in H. rewrite H, Z.mul_comm, Z_mod_plus_full. by destruct b.
  - rewrite Z.shiftr_div_pow2, Z.mul_comm by lia. change (2 ^ 1) with 2.
    rewrite Z.div_add by lia. by destruct b.
Qed.

Section STREAM.
Context (source suffix : list Z).

(** What follows the collected bytes. *)
Definition rest_bytes (fuel : nat) (rest : option (list Event)) : list Z :=
  match rest with None => [] | Some evs => layout fuel evs end.

(** The reader stands in front of the events [evs]; [suffix] follows them. *)
Definition reads (r : Reader) (evs : list Event) : Prop :=
  1 <= k_left r <= 16 /\ 0 <= k_pos r <= zlen source /\
  exists bs xs rest fuel,
    collect (Z.to_nat (k_left r)) evs = (bs, xs, rest) /\
    k_bits r = bits_value bs /\
    drop (Z.to_nat (k_pos r)) source = xs ++ rest_bytes fuel rest ++ suffix /\
    (forall evs', rest = Some evs' -> (length evs' < fuel)%nat).

(** Reading the byte that the source has at the position. *)
Lemma next_byte_at pos bits left x tail :
  0 <= pos -> drop (Z.to_nat pos) source = x :: tail ->
  next_byte source (mkReader pos bits left) = Some (x, mkReader (pos + 1) bits left) /\
  drop (Z.to_nat (pos + 1)) source = tail /\ pos + 1 <= zlen source.
Proof using Type.
  intros Hp Hd. assert (Hx : source !! Z.to_nat pos = Some x).
  { rewrite <- (Nat.add_0_r (Z.to_nat pos)), <- lookup_drop, Hd. done. }
  apply lookup_lt_Some in Hx as Hlt. unfold next_byte. cbn. split_and!.
  - destruct (Z.leb_spec (zlen source) pos); [unfold zlen in *; lia|].
    by rewrite (znth_lookup source pos 0 x).
  - replace (Z.to_nat (pos + 1)) with (Z.to_nat pos + 1)%nat by lia. rewrite <- drop_drop, Hd. done.
  - unfold zlen. lia.
Qed.

Lemma reads_byte r x evs :
  reads r (EByte x :: evs) -> exists r', next_byte source r = Some (x, r') /\ reads r' evs.
Proof using Type.
  intros (Hl & Hp & bs & xs & rest & fuel & Hc & Hb & Hd & Hf). destruct r as [pos bits left]. cbn in *.
  destruct (Z.to_nat left) as [|n] eqn:En; [lia|]. rewrite collect_byte in Hc.
  destruct (collect (S n) evs) as [[bs' xs'] rest'] eqn:Ec. injection Hc as -> <- ->.
  destruct (next_byte_at pos bits left x _ (proj1 Hp) Hd) as (Hn & Hd' & Hle).
  eexists. split; [exact Hn|]. split; [exact Hl|]. split; [cbn; lia|].
  exists bs, xs', rest, fuel. cbn. by rewrite En.
Qed.

(** A whole descriptor word in front of the events. *)
Lemma refill_layout pos bits left fuel evs :
  0 <= pos -> (length evs < fuel)%nat -> drop (Z.to_nat pos) source = layout fuel evs ++ suffix ->
  exists r, refill source (mkReader pos bits left) = Some r /\ reads r evs.
Proof using Type.
  intros Hp Hfuel Hd. destruct fuel as [|fuel]; [lia|]. cbn [layout] in Hd.
  pose proof (collect_bounds 16 evs) as Hcb. pose proof (bits_value_16 16 evs ltac:(lia)) as Hw.
  destruct (collect 16 evs) as [[bs xs] rest] eqn:Ec. cbn in Hw.
  unfold word_bytes in Hd. cbn [app] in Hd. rewrite <- !app_assoc in Hd.
  destruct (next_byte_at pos bits left _ _ Hp Hd) as (H1 & Hd1 & _).
  destruct (next_byte_at (pos + 1) bits left _ _ ltac:(lia) Hd1) as (H2 & Hd2 & Hle).
  unfold refill. rewrite H1. cbn [mbind option_bind]. rewrite H2. cbn [mbind option_bind k_pos].
  eexists. split; [reflexivity|]. split; [cbn; lia|]. split; [cbn; lia|].
  exists bs, xs, rest, fuel. cbn. split_and!; [exact Ec| |exact Hd2|].
  - rewrite lor_shiftl_8 by apply u8_range. unfold u8. rewrite (Z.div_mod (bits_value bs) 256) at 3 by lia. lia.
  - intros evs' ->. destruct Hcb as [_ H]. lia.
Qed.

Lemma reads_bit r b evs :
  reads r (EBit b :: evs) -> exists r', bit source r = Some (Z.b2z b, r') /\ reads r' evs.
Proof using Type.
  intros (Hl & Hp & bs & xs & rest & fuel & Hc & Hb & Hd & Hf). destruct r as [pos bits left]. cbn in *.
  destruct (Z.to_nat left) as [|n] eqn:En; [lia|]. rewrite collect_bit in Hc.
  destruct (collect n evs) as [[bs' xs'] rest'] eqn:Ec. injection Hc as <- -> ->.
  destruct (bits_value_cons b bs') as [Hlow Hshift]. rewrite <- Hb in Hlow, Hshift.
  unfold bit. cbn [k_bits k_left k_pos]. rewrite Hlow, Hshift.
  destruct (Z.eqb_spec (left - 1) 0) as [E|E].
  - assert (n = 0%nat) as -> by lia. cbn [collect] in Ec. injection Ec as <- <- <-.
    cbn [app rest_bytes] in Hd.
    destruct (refill_layout pos (bits_value []) (left - 1) fuel evs (proj1 Hp) (Hf _ eq_refl) Hd) as (r & Hr & Hrd).
    exists r. rewrite Hr. done.
  - eexists. split; [reflexivity|]. split; [cbn; lia|]. split; [exact Hp|].
    exists bs', xs, rest, fuel. cbn. replace (Z.to_nat (left - 1)) with n by lia. by split_and!.
Qed.

(** At the end of the events the reader stands at the suffix. *)
Lemma reads_end r : reads r [] -> k_pos r = zlen source - zlen suffix.
Proof using Type.
  intros (Hl & Hp & bs & xs & rest & fuel & Hc & Hb & Hd & Hf).
  destruct (Z.to_nat (k_left r)) as [|n] eqn:En; [lia|]. rewrite collect_nil in Hc. injection Hc as <- <- <-.
  apply (f_equal length) in Hd. rewrite length_drop in Hd. cbn in Hd. unfold zlen in *. lia.
Qed.

End STREAM.

(** * Decoding an encoding *)

(** The stored displacement of a full copy. *)
Lemma full_high h low :
  0 <= h < 32 -> 0 <= low < 8 ->
  0xE000 .| (((h * 8 + low) .& 0xF8) .<< 5) = (224 + h) .<< 8 /\ (h * 8 + low) .& 7 = low.
Proof.
  intros Hh Hl. revert h Hh. refine (range_decide (fun h => _ /\ _) 32 _).
  revert low Hl. refine (range_decide (fun low => _ = true) 8 _). by_evaluation.
Qed.

Lemma full_displacement back low :
  1 <= back <= 8192 -> 0 <= low < 8 ->
  let d := 0x2000 - back in
  let hi := (d / 256) * 8 + low in
  ((0xE000 .| ((hi .& 0xF8) .<< 5)) .| u8 d) - 0x10000 = - back /\ hi .& 7 = low /\ is_u8 hi.
Proof.
  intros Hb Hl. cbv zeta. set (d := 0x2000 - back).
  assert (Hh : 0 <= d / 256 < 32).
  { split; [apply Z.div_pos; lia|apply Z.div_lt_upper_bound; lia]. }
  destruct (full_high (d / 256) low Hh Hl) as [-> ->].
  rewrite Z.lor_comm, lor_shiftl_8 by apply u8_range.
  pose proof (Z.div_mod d 256 ltac:(lia)). unfold u8, is_u8. lia.
Qed.

Lemma expand_token_length t out out' :
  token_ok t -> expand_token t out = Some out' ->
  zlen out' = zlen out + match t with TLiteral _ => 1 | _ => (token_copy t).2 end.
Proof.
  intros Ht. destruct t; cbn in *; [intros [= <-]; apply zlen_snoc|..];
    (destruct (_ =? 0) eqn:E; [intros [= <-]; apply Z.eqb_eq in E; lia|]);
    (destruct (_ <? _); [done|]); intros [= <-]; rewrite copy_loop_length; apply Z.eqb_neq in E;
    repeat case_match; lia.
Qed.

Lemma copied_ok limit back n out :
  1 <= back -> 0 < n -> (zlen out <? back) = false -> zlen out + n <= limit ->
  copy limit (- back) n out = Ok (copy_loop (Z.to_nat n) back out).
Proof.
  intros Hb Hn Hlt Hl. unfold copy. rewrite Z.opp_involutive, Hlt.
  destruct (Z.ltb_spec limit (zlen out + n)); [lia|done].
Qed.

Lemma copy_step_ok limit back n r out out' :
  1 <= back -> 0 < n ->
  (if n =? 0 then Some out else if zlen out <? back then None
   else Some (copy_loop (Z.to_nat n) back out)) = Some out' ->
  zlen out' <= limit -> copy_step limit (- back) n r out = Continue r out'.
Proof.
  intros Hb Hn. destruct (Z.eqb_spec n 0); [lia|].
  destruct (zlen out <? back) eqn:Hlt; [done|]. intros [= <-] Hl.
  rewrite copy_loop_length in Hl. unfold copy_step. by rewrite copied_ok by lia.
Qed.

Section ROUND_TRIP.
Context (source suffix : list Z) (limit : Z).

Abbreviation reads := (reads source suffix).

(** Consume the first event of a stream. *)
Ltac read H :=
  match type of H with
  | Kosinski.reads _ _ ?r (EBit ?b :: ?evs) =>
      let E := fresh "E" in let r' := fresh "r" in
      destruct (reads_bit source suffix r b evs H) as (r' & E & H'); rewrite E; clear E H; rename H' into H;
      cbn [mbind option_bind]
  | Kosinski.reads _ _ ?r (EByte ?x :: ?evs) =>
      let E := fresh "E" in let r' := fresh "r" in
      destruct (reads_byte source suffix r x evs H) as (r' & E & H'); rewrite E; clear E H; rename H' into H;
      cbn [mbind option_bind]
  end.

Lemma token_step_reads t evs r out out' :
  token_ok t -> expand_token t out = Some out' -> zlen out' <= limit ->
  reads r (token_events t ++ evs) ->
  exists r', token_step source limit r out = Continue r' out' /\ reads r' evs.
Proof using Type.
  intros Ht He Hl H. pose proof (expand_token_length t out out' Ht He) as Hlen.
  unfold token_step. destruct t as [b|back count|back extra|back count]; cbn in Ht, He, Hlen;
    cbn [token_events full_bytes app] in H.
  - read H. cbn. destruct (Z.leb_spec limit (zlen out)); [lia|]. read H. injection He as <-. eauto.
  - read H. cbn [Z.b2z Z.eqb negb]. read H. cbn [Z.b2z Z.eqb negb]. unfold full_copy.
    read H. read H. destruct (full_displacement back count ltac:(lia) ltac:(lia)) as (-> & -> & _).
    destruct (Z.eqb_spec count 0); [lia|]. cbn.
    erewrite copy_step_ok by (lia || exact He || exact Hl). eauto.
  - read H. cbn [Z.b2z Z.eqb negb]. read H. cbn [Z.b2z Z.eqb negb]. unfold full_copy.
    read H. read H. destruct (full_displacement back 0 ltac:(lia) ltac:(lia)) as (-> & -> & _).
    cbn [Z.eqb negb]. read H. destruct (Z.eqb_spec extra 0); [lia|].
    destruct (Z.eqb_spec extra 1); cbn [negb exhausted default from_option id].
    + injection He as <-. eauto.
    + erewrite copy_step_ok by (lia || exact He || exact Hl). eauto.
  - read H. cbn [Z.b2z Z.eqb negb]. read H. cbn [Z.b2z Z.eqb negb]. unfold inline_copy.
    read H. read H. read H.
    replace (256 - back - 256) with (- back) by lia.
    assert (E : (Z.b2z (Z.testbit count 1) .<< 1) .| Z.b2z (Z.testbit count 0) = count).
    { assert (Hc : count = 0 \/ count = 1 \/ count = 2 \/ count = 3) by lia.
      by destruct Hc as [->|[->|[->| ->]]]. }
    rewrite E. cbn. erewrite copy_step_ok by (lia || exact He || exact Hl). eauto.
Qed.

Lemma expand_grows ts out out' : Forall token_ok ts -> expand ts out = Some out' -> zlen out <= zlen out'.
Proof using Type.
  intros H. revert out. induction H as [|t ts Ht _ IH]; intros out; cbn [expand]; [by intros [= <-]|].
  destruct (expand_token t out) as [mid|] eqn:E; [|done]. intros Hx%IH.
  pose proof (expand_token_length t out mid Ht E). destruct t; cbn in *; [|repeat case_match..]; lia.
Qed.

Lemma token_loop_reads ts n r out out' :
  Forall token_ok ts -> expand ts out = Some out' -> zlen out' <= limit -> (length ts < n)%nat ->
  reads r ((ts ≫= token_events) ++ terminator) ->
  token_loop source n limit r out = mkKosinski KE_none out' (zlen source - zlen suffix).
Proof using Type.
  intros Hts. revert n r out. induction Hts as [|t ts Ht Hts IH]; intros n r out He Hl Hn H;
    (destruct n as [|n]; [cbn in Hn; lia|]); cbn [token_loop].
  - cbn in He. injection He as <-. cbn [mbind list_bind app] in H. unfold terminator in H.
    unfold token_step. read H. cbn [Z.b2z Z.eqb negb]. read H. cbn [Z.b2z Z.eqb negb]. unfold full_copy.
    read H. read H. cbn. read H. cbn. by rewrite (reads_end _ _ _ H).
  - cbn [expand] in He. destruct (expand_token t out) as [mid|] eqn:Et; [|done].
    change ((t :: ts) ≫= token_events) with (token_events t ++ (ts ≫= token_events)) in H.
    rewrite <- app_assoc in H. pose proof (expand_grows ts mid out' Hts He) as Hg.
    destruct (token_step_reads t _ r out mid Ht Et ltac:(lia) H) as (r' & -> & H').
    apply IH; [done|done|cbn in Hn; lia|done].
Qed.

End ROUND_TRIP.

Lemma kosinski_round_trip prefix suffix ts out limit max_tokens :
  Forall token_ok ts -> expand ts [] = Some out -> zlen out <= limit -> zlen ts < max_tokens ->
  kosinski_decode (prefix ++ encode ts ++ suffix) (zlen prefix) limit max_tokens =
    mkKosinski KE_none out (zlen prefix + zlen (encode ts)).
Proof.
  intros Hts He Hl Hm. set (source := prefix ++ encode ts ++ suffix).
  assert (Hd : drop (Z.to_nat (zlen prefix)) source = encode ts ++ suffix).
  { unfold zlen. rewrite Nat2Z.id. unfold source. by rewrite drop_app_length. }
  unfold kosinski_decode.
  destruct (refill_layout source suffix (zlen prefix) 0 0 (S (length (events ts))) (events ts)
    ltac:(apply zlen_nonneg) ltac:(lia) Hd) as (r & -> & Hr).
  rewrite (token_loop_reads source suffix limit ts (Z.to_nat max_tokens) r [] out Hts He Hl
    ltac:(unfold zlen in Hm; lia) Hr).
  f_equal. unfold source. rewrite !zlen_app. lia.
Qed.

(** * Bounds on every input *)

Section BOUNDS.
Context (source : list Z) (limit : Z) (Hsource : Forall is_u8 source).

Definition output_ok (out : list Z) : Prop := Forall is_u8 out /\ zlen out <= limit.

Lemma next_byte_bounds r x r' :
  next_byte source r = Some (x, r') -> is_u8 x /\ k_pos r' = k_pos r + 1 /\ k_pos r' <= zlen source.
Proof using Hsource.
  unfold next_byte. destruct (Z.leb_spec (zlen source) (k_pos r)); [done|]. intros [= <- <-].
  split; [by apply znth_byte|cbn; lia].
Qed.

Lemma refill_bounds r r' :
  refill source r = Some r' -> k_pos r' = k_pos r + 2 /\ k_pos r' <= zlen source.
Proof using Hsource.
  unfold refill. destruct (next_byte source r) as [[lo r1]|] eqn:E1; [|done]. cbn [mbind option_bind].
  destruct (next_byte source r1) as [[hi r2]|] eqn:E2; [|done]. cbn [mbind option_bind].
  apply next_byte_bounds in E1 as (_ & H1 & _). apply next_byte_bounds in E2 as (_ & H2 & H3).
  intros [= <-]. cbn. lia.
Qed.

Lemma bit_bounds r x r' :
  bit source r = Some (x, r') -> k_pos r <= zlen source -> k_pos r <= k_pos r' <= zlen source.
Proof using Hsource.
  unfold bit. destruct (_ =? 0).
  - destruct (refill source _) as [r1|] eqn:E; [|done]. apply refill_bounds in E. cbn in *.
    intros [= _ <-]. lia.
  - intros [= _ <-]. cbn. lia.
Qed.

Lemma copy_loop_bytes n back out : Forall is_u8 out -> Forall is_u8 (copy_loop n back out).
Proof using Type.
  revert out. induction n as [|n IH]; intros out H; cbn [copy_loop]; [done|].
  apply IH, Forall_app. split; [done|]. constructor; [by apply znth_byte|constructor].
Qed.

(** What one iteration may do from a reader at [pos]. *)
Definition step_ok (pos : Z) (s : Step) : Prop :=
  match s with
  | Continue r out => pos <= k_pos r <= zlen source /\ output_ok out
  | Finished e => pos < e <= zlen source
  | Failed e => e <> KE_none
  end.

Lemma copy_step_bounds pos displacement count r out :
  pos <= k_pos r <= zlen source -> 0 <= count -> output_ok out ->
  step_ok pos (copy_step limit displacement count r out).
Proof using Type.
  intros Hr Hc [Hb Hl]. unfold copy_step, copy. destruct (_ <? _); [done|].
  destruct (Z.ltb_spec limit (zlen out + count)); [done|]. split; [done|].
  split; [by apply copy_loop_bytes|]. rewrite copy_loop_length. lia.
Qed.

Lemma full_copy_bounds pos r out :
  pos <= k_pos r <= zlen source -> output_ok out -> step_ok pos (exhausted (full_copy source limit r out)).
Proof using Hsource.
  intros Hr Ho. unfold full_copy.
  destruct (next_byte source r) as [[lo r1]|] eqn:E1; [|done]. cbn [mbind option_bind].
  destruct (next_byte source r1) as [[hi r2]|] eqn:E2; [|done]. cbn [mbind option_bind].
  apply next_byte_bounds in E1 as (_ & H1 & _). apply next_byte_bounds in E2 as (Hhi & H2 & H3).
  assert (Hcount : 0 <= hi .& 7) by (apply Z.land_nonneg; right; lia).
  destruct (negb _); [apply copy_step_bounds; [lia|lia|done]|].
  destruct (next_byte source r2) as [[extra r3]|] eqn:E3; [|done]. cbn [mbind option_bind].
  apply next_byte_bounds in E3 as (He & H4 & H5). unfold is_u8 in He.
  destruct (_ =? 0); [cbn; lia|]. destruct (negb _); [apply copy_step_bounds; [lia|lia|done]|].
  split; [lia|done].
Qed.

Lemma bit_value r x r' : bit source r = Some (x, r') -> 0 <= x <= 1.
Proof using Type.
  unfold bit. assert (Hx : 0 <= k_bits r .& 1 <= 1).
  { pose proof (land_ones_mod (k_bits r) 1 ltac:(lia)) as H.
    change (2 ^ 1 - 1) with 1 in H. change (2 ^ 1) with 2 in H. rewrite H.
    pose proof (Z.mod_pos_bound (k_bits r) 2 ltac:(lia)). lia. }
  destruct (_ =? 0).
  - destruct (refill source _); [|done]. by intros [= <- _].
  - by intros [= <- _].
Qed.

Lemma inline_copy_bounds pos r out :
  pos <= k_pos r <= zlen source -> output_ok out -> step_ok pos (exhausted (inline_copy source limit r out)).
Proof using Hsource.
  intros Hr Ho. unfold inline_copy.
  destruct (bit source r) as [[hb r1]|] eqn:E1; [|done]. cbn [mbind option_bind].
  destruct (bit source r1) as [[lb r2]|] eqn:E2; [|done]. cbn [mbind option_bind].
  destruct (next_byte source r2) as [[disp r3]|] eqn:E3; [|done]. cbn [mbind option_bind].
  pose proof (bit_value _ _ _ E1). pose proof (bit_value _ _ _ E2).
  apply bit_bounds in E1; [|lia]. apply bit_bounds in E2; [|lia]. apply next_byte_bounds in E3 as (_ & H3 & H4).
  assert (0 <= (hb .<< 1) .| lb).
  { apply Z.lor_nonneg. split; [apply Z.shiftl_nonneg; lia|lia]. }
  apply copy_step_bounds; [lia|lia|done].
Qed.

Lemma token_step_bounds r out :
  k_pos r <= zlen source -> output_ok out -> step_ok (k_pos r) (token_step source limit r out).
Proof using Hsource.
  intros Hr Ho. unfold token_step.
  destruct (bit source r) as [[b r1]|] eqn:E1; [|done]. cbn [mbind option_bind].
  apply bit_bounds in E1; [|lia]. destruct (negb _).
  - destruct (Z.leb_spec limit (zlen out)); [done|].
    destruct (next_byte source r1) as [[x r2]|] eqn:E2; [|done]. cbn.
    apply next_byte_bounds in E2 as (Hx & H2 & H3). split; [lia|].
    destruct Ho as [Hb Hl]. split; [apply Forall_app; split; [done|by constructor]|].
    rewrite zlen_snoc. lia.
  - destruct (bit source r1) as [[b2 r2]|] eqn:E2; [|done]. cbn [mbind option_bind].
    apply bit_bounds in E2; [|lia]. destruct (negb _); [apply full_copy_bounds|apply inline_copy_bounds];
      (lia || done).
Qed.

Lemma token_loop_bounds n r out :
  k_pos r <= zlen source -> output_ok out ->
  let res := token_loop source n limit r out in
  output_ok (k_output res) /\ (k_error res = KE_none -> k_pos r < k_end res <= zlen source).
Proof using Hsource.
  revert r out. induction n as [|n IH]; intros r out Hr Ho; cbn [token_loop]; [done|].
  pose proof (token_step_bounds r out Hr Ho) as Hs.
  destruct (token_step source limit r out) as [r' out'|pos|e]; cbn in Hs |- *.
  - destruct Hs as [Hp Ho']. destruct (IH r' out' ltac:(lia) Ho') as [H1 H2]. split; [done|].
    intros He. specialize (H2 He). lia.
  - done.
  - done.
Qed.

End BOUNDS.

(** * Properties *)

(** C35. Round trip: for every list of well-formed tokens (literals, short, long
    and inline copies, and the no-op copy) whose copies refer to bytes already
    produced, decoding its encoding, anywhere in a source and whatever follows
    it, yields exactly the bytes the tokens mean and stops exactly at its end,
    for any sufficient length limit and token bound. *)
Theorem kosinski_decode_encode (prefix suffix : list Z) (ts : list Token) (out : list Z)
    (limit max_tokens : Z) (Hts : Forall token_ok ts) (Hexpand : expand ts [] = Some out)
    (Hlimit : zlen out <= limit) (Hmax : zlen ts < max_tokens) :
  kosinski_decode (prefix ++ encode ts ++ suffix) (zlen prefix) limit max_tokens =
    mkKosinski KE_none out (zlen prefix + zlen (encode ts)).
Proof. by apply kosinski_round_trip. Qed.

Definition sample_tokens : list Token :=
  map TLiteral (seqZ 65 20) ++ [TInline 3 3; TFull 8 7; TLong 20 1; TLong 12 30; TLiteral 7].

Lemma kosinski_decode_encode_witness :
  exists out, expand sample_tokens [] = Some out /\
    kosinski_decode ([1; 2] ++ encode sample_tokens ++ [9]) 2 1000 100 =
      mkKosinski KE_none out (2 + zlen (encode sample_tokens)).
Proof.
  eexists. split; [vm_compute; reflexivity|].
  apply (kosinski_decode_encode [1; 2] [9] sample_tokens).
  - apply Forall_forall. intros t Ht.
    unfold sample_tokens in Ht. apply elem_of_app in Ht as [Ht|Ht].
    + apply list_elem_of_fmap in Ht as (x & -> & Hx%elem_of_seqZ). cbn. unfold is_u8. lia.
    + repeat (apply elem_of_cons in Ht as [->|Ht]; [cbn; unfold is_u8; lia|]). by apply elem_of_nil in Ht.
  - by_evaluation.
  - vm_compute. discriminate.
  - by_evaluation.
Defined.

(** Safety on arbitrary input: whatever the source, the decoder never
    produces more than [limit] bytes (also when it fails part way), only bytes,
    and a success ends inside the source, after the position it started at; a
    copied byte always equals the byte [back] places before it. *)
Theorem kosinski_decode_bounds (source : list Z) (Hsource : Forall is_u8 source)
    (position limit max_tokens : Z) (Hlimit : 0 <= limit) :
  let r := kosinski_decode source position limit max_tokens in
  zlen (k_output r) <= limit /\ Forall is_u8 (k_output r) /\
  (k_error r = KE_none -> position < k_end r <= zlen source) /\
  (forall out back count out', 0 < back -> copy limit (- back) count out = Ok out' ->
     forall i, zlen out <= i < zlen out' -> znth out' i 0 = znth out' (i - back) 0).
Proof.
  cbv zeta. unfold kosinski_decode.
  assert (Hcopy : forall out back count out', 0 < back -> copy limit (- back) count out = Ok out' ->
    forall i, zlen out <= i < zlen out' -> znth out' i 0 = znth out' (i - back) 0).
  { intros out back count out' Hb. unfold copy. rewrite Z.opp_involutive.
    destruct (Z.ltb_spec (zlen out) back); [done|]. destruct (_ <? _); [done|]. intros [= <-] i Hi.
    rewrite copy_loop_length in Hi. apply copy_loop_spec; lia. }
  destruct (refill source (mkReader position 0 0)) as [r|] eqn:E; [|cbn; by split_and!].
  apply (refill_bounds source Hsource) in E. cbn in E.
  destruct (token_loop_bounds source limit Hsource (Z.to_nat max_tokens) r [] ltac:(lia)) as [[Hb Hl] He].
  { split; [constructor|done]. }
  split_and!; [done|done| |done]. intros H. specialize (He H). lia.
Qed.

Lemma kosinski_decode_bounds_witness :
  zlen (k_output (kosinski_decode [0x01; 0x00; 0xAA; 0x00] 0 4 100)) <= 4 /\
  k_error (kosinski_decode [0x01; 0x00; 0xAA; 0x00] 0 4 100) = KE_reference_before_stream.
Proof.
  split; [|by_evaluation].
  apply (kosinski_decode_bounds [0x01; 0x00; 0xAA; 0x00]); [|lia].
  repeat constructor; done.
Defined.
