(* ===== verification/Bps.v ===== *)
(** The BPS patch decoder of [libs/media/src/patch_bps.cpp]: the table-driven
    CRC-32, the variable-length numbers, and [apply_bps].

    The theorems show that the table-driven CRC is the bitwise one, that the
    number reader inverts byuu's writer on every 64-bit value, that a patch
    written from a list of commands applies to what the commands mean, and that
    a success always has the recorded size and checksums. *)

From S2P Require Import Prelude Kosinski.

(** * CRC-32 *)

(** One iteration of the inner loop of the table's initialiser. *)
Definition crc_step (c : Z) : Z :=
  if negb (c .& 1 =? 0) then 0xEDB88320 .^ (c .>> 1) else c .>> 1.

Definition crc_entry (i : Z) : Z := zfor 0 8 (fun _ c => crc_step c) i.

Definition crc_table : list Z := map crc_entry (seqZ 0 256).

Definition crc_update (c b : Z) : Z := znth crc_table ((c .^ b) .& 0xFF) 0 .^ (c .>> 8).

Definition crc32 (bytes : list Z) : Z := fold_left crc_update bytes 0xFFFFFFFF .^ 0xFFFFFFFF.

(** * Reading *)

Definition le32 (b : list Z) (at_ : Z) : Z :=
  u32 (((znth b at_ 0 .| (znth b (at_ + 1) 0 .<< 8)) .| (znth b (at_ + 2) 0 .<< 16)) .| (znth b (at_ + 3) 0 .<< 24)).

Definition kU64Max : Z := 18446744073709551615.

(** The loop of [read_number]: the value and the position after it. *)
Fixpoint read_number_loop (fuel : nat) (p : list Z) (at_ end_ data shift : Z) : option (Z * Z) :=
  match fuel with
  | O => None
  | S fuel' =>
      if end_ <=? at_ then None
      else
        let x := znth p at_ 0 in
        let at_ := at_ + 1 in
        let add := x .& 0x7F in
        if negb (add =? 0) && ((kU64Max - data) / add <? shift) then None
        else
          let data := data + add * shift in
          if negb (x .& 0x80 =? 0) then Some (data, at_)
          else if kU64Max .>> 7 <? shift then None
          else
            let shift := shift .<< 7 in
            if kU64Max - shift <? data then None
            else read_number_loop fuel' p at_ end_ (data + shift) shift
  end.

(** One unit of fuel per byte, and one for the end test. *)
Definition read_number (p : list Z) (at_ end_ : Z) : option (Z * Z) :=
  read_number_loop (S (Z.to_nat (end_ - at_))) p at_ end_ 0 1.

(** * Applying a patch *)

Definition kMaxPatchBytes : Z := 16 .<< 20.

Record BpsResult := mkBpsResult { bps_ok : bool; bps_error : string; bps_output : list Z }.

Definition fail (why : string) : BpsResult := mkBpsResult false why [].

(** The variables of the command loop. *)
Record Patching := mkPatching {
  pt_at : Z;
  pt_out : list Z;
  pt_out_at : Z;
  pt_source_rel : Z;
  pt_target_rel : Z;
}.

(** [for (i = 0; i < n; ++i) out[out_at + i] = f(i, out);] *)
Definition write_loop (n out_at : Z) (f : Z -> list Z -> Z) (out : list Z) : list Z :=
  zfor 0 n (fun i out => <[Z.to_nat (out_at + i) := f i out]> out) out.

Open Scope string_scope.
Open Scope Z_scope.

Section APPLY.
Context (patch source : list Z) (footer : Z).

(** The relative offset of a copy. *)
Definition move_offset (raw rel : Z) : option Z :=
  let magnitude := raw .>> 1 in
  if negb (raw .& 1 =? 0) then if rel <? magnitude then None else Some (rel - magnitude)
  else if kU64Max - rel <? magnitude then None else Some (rel + magnitude).

Definition source_copy (raw n : Z) (s : Patching) : result string Patching :=
  match move_offset raw (pt_source_rel s) with
  | None => Err "a BPS copy offset is out of range"
  | Some rel =>
      if (zlen source <? rel) || (zlen source - rel <? n) then Err "a BPS SourceCopy runs past the source"
      else Ok (mkPatching (pt_at s)
             (write_loop n (pt_out_at s) (fun i _ => znth source (rel + i) 0) (pt_out s))
             (pt_out_at s + n) (rel + n) (pt_target_rel s))
  end.

Definition target_copy (raw n : Z) (s : Patching) : result string Patching :=
  match move_offset raw (pt_target_rel s) with
  | None => Err "a BPS copy offset is out of range"
  | Some rel =>
      if pt_out_at s <=? rel then Err "a BPS TargetCopy reads output that does not exist yet"
      else Ok (mkPatching (pt_at s)
             (write_loop n (pt_out_at s) (fun i out => znth out (rel + i) 0) (pt_out s))
             (pt_out_at s + n) (pt_source_rel s) (rel + n))
  end.

(** One iteration of the command loop. *)
Definition command_step (s : Patching) : result string Patching :=
  match (if footer <=? pt_at s then None else read_number patch (pt_at s) footer) with
  | None => Err "the BPS command stream is truncated"
  | Some (word, at_) =>
      let n := (word .>> 2) + 1 in
      let s := mkPatching at_ (pt_out s) (pt_out_at s) (pt_source_rel s) (pt_target_rel s) in
      if zlen (pt_out s) - pt_out_at s <? n then Err "a BPS command writes past the target size"
      else if word .& 3 =? 0 then
        if zlen source <? pt_out_at s + n then Err "a BPS SourceRead runs past the source"
        else Ok (mkPatching at_
               (write_loop n (pt_out_at s) (fun i _ => znth source (pt_out_at s + i) 0) (pt_out s))
               (pt_out_at s + n) (pt_source_rel s) (pt_target_rel s))
      else if word .& 3 =? 1 then
        if footer - at_ <? n then Err "a BPS TargetRead runs past the patch"
        else Ok (mkPatching (at_ + n)
               (write_loop n (pt_out_at s) (fun i _ => znth patch (at_ + i) 0) (pt_out s))
               (pt_out_at s + n) (pt_source_rel s) (pt_target_rel s))
      else
        match read_number patch at_ footer with
        | None => Err "a BPS copy offset is truncated"
        | Some (raw, at_) =>
            let s := mkPatching at_ (pt_out s) (pt_out_at s) (pt_source_rel s) (pt_target_rel s) in
            if word .& 3 =? 2 then source_copy raw n s else target_copy raw n s
        end
  end.

(** [while (out_at < out.size())]; every command writes at least one byte. *)
Fixpoint command_loop (fuel : nat) (s : Patching) : result string Patching :=
  if pt_out_at s <? zlen (pt_out s) then
    match fuel with
    | O => Err "out of fuel"
    | S fuel' => s ← command_step s; command_loop fuel' s
    end
  else Ok s.

Definition command_fuel (target_size : Z) : nat := Z.to_nat target_size.

End APPLY.

(** The three header numbers. *)
Definition read_header (patch : list Z) (footer : Z) : option (Z * Z * Z * Z) :=
  '(source_size, at_) ← read_number patch 4 footer;
  '(target_size, at_) ← read_number patch at_ footer;
  '(metadata_size, at_) ← read_number patch at_ footer;
  Some (source_size, target_size, metadata_size, at_).

Definition apply_bps (patch source : list Z) (max_output : Z) : BpsResult :=
  if kMaxPatchBytes <? zlen patch then fail "the BPS payload is too large"
  else if zlen patch <? 4 + 3 + 12 then fail "the BPS payload is truncated"
  else if negb (znth patch 0 0 =? 0x42) || negb (znth patch 1 0 =? 0x50) ||
          negb (znth patch 2 0 =? 0x53) || negb (znth patch 3 0 =? 0x31)
  then fail "the payload is not a BPS1 patch"
  else
    let footer := zlen patch - 12 in
    if negb (crc32 (take (Z.to_nat (zlen patch - 4)) patch) =? le32 patch (zlen patch - 4))
    then fail "the BPS patch checksum does not match"
    else
      match read_header patch footer with
      | None => fail "the BPS header is malformed"
      | Some (source_size, target_size, metadata_size, at_) =>
          if negb (source_size =? zlen source) then fail "the BPS source size does not match the original image"
          else if max_output <? target_size then fail "the BPS target size exceeds the allowed output size"
          else if footer - at_ <? metadata_size then fail "the BPS metadata runs past the patch"
          else if negb (crc32 source =? le32 patch footer)
          then fail "the BPS source checksum does not match the original image"
          else
            let out := replicate (Z.to_nat target_size) 0 in
            match command_loop patch source footer (command_fuel target_size)
                    (mkPatching (at_ + metadata_size) out 0 0 0) with
            | Err why => fail why
            | Ok s =>
                if negb (pt_at s =? footer) then fail "the BPS command stream has trailing bytes"
                else if negb (crc32 (pt_out s) =? le32 patch (footer + 4))
                then fail "the BPS target checksum does not match the patched image"
                else mkBpsResult true "" (pt_out s)
            end
      end.

Close Scope string_scope.

(** * The bitwise CRC *)

(** The CRC register after one more message bit, least significant first. *)
Definition crc_byte (c b : Z) : Z := crc_entry (c .^ b).

Definition crc32_bitwise (bytes : list Z) : Z := fold_left crc_byte bytes 0xFFFFFFFF .^ 0xFFFFFFFF.

Lemma crc_step_xor x y : crc_step (x .^ y) = crc_step x .^ crc_step y.
Proof.
  assert (H : forall c, crc_step c = (c .>> 1) .^ (if Z.testbit c 0 then 0xEDB88320 else 0)).
  { intros c. unfold crc_step. pose proof (land_ones_mod c 1 ltac:(lia)) as E.
    change (2 ^ 1 - 1) with 1 in E. change (2 ^ 1) with 2 in E. rewrite E, <- Z.bit0_mod.
    destruct (Z.testbit c 0); cbn [Z.b2z Z.eqb negb]; [apply Z.lxor_comm|by rewrite Z.lxor_0_r]. }
  rewrite !H, Z.shiftr_lxor, Z.lxor_spec, !Z.lxor_assoc. f_equal.
  rewrite <- !Z.lxor_assoc, (Z.lxor_comm _ (y .>> 1)), !Z.lxor_assoc. f_equal.
  by destruct (Z.testbit x 0), (Z.testbit y 0).
Qed.

Lemma crc_entry_iter i :
  crc_entry i = crc_step (crc_step (crc_step (crc_step (crc_step (crc_step (crc_step (crc_step i))))))).
Proof. with_strategy transparent [zfor] reflexivity. Qed.

Lemma crc_entry_xor x y : crc_entry (x .^ y) = crc_entry x .^ crc_entry y.
Proof. rewrite !crc_entry_iter. by rewrite !crc_step_xor. Qed.

Lemma crc_step_double x : crc_step (2 * x) = x.
Proof.
  unfold crc_step. assert (E : 2 * x .& 1 = 0).
  { pose proof (land_ones_mod (2 * x) 1 ltac:(lia)) as E. change (2 ^ 1 - 1) with 1 in E.
    rewrite E, Z.mul_comm. apply Z_mod_mult. }
  rewrite E. cbn. rewrite Z.shiftr_div_pow2, Z.mul_comm by lia. apply Z.div_mul. lia.
Qed.

(** Eight steps shift out the zero low byte of a word. *)
Lemma crc_entry_high x : crc_entry (x .<< 8) = x.
Proof.
  rewrite crc_entry_iter, Z.shiftl_mul_pow2 by lia.
  replace (x * 2 ^ 8) with (2 * (2 * (2 * (2 * (2 * (2 * (2 * (2 * x)))))))) by lia.
  by rewrite !crc_step_double.
Qed.

Lemma split_low_byte x : x = ((x .>> 8) .<< 8) .^ (x .& 0xFF).
Proof.
  apply Z.bits_inj'. intros n Hn. rewrite Z.lxor_spec, Z.land_spec.
  change 255 with (Z.ones 8). destruct (Z.ltb_spec n 8).
  - rewrite Z.shiftl_spec_low, Z.ones_spec_low by lia. by rewrite andb_true_r, xorb_false_l.
  - rewrite Z.shiftl_spec, Z.shiftr_spec, Z.ones_spec_high by lia.
    rewrite andb_false_r, xorb_false_r. f_equal. lia.
Qed.

Lemma crc_table_spec i : 0 <= i < 256 -> znth crc_table i 0 = crc_entry i.
Proof. revert i. refine (range_decide (fun i => _ = _) 256 _). by_evaluation. Qed.

Lemma crc_update_byte c b : is_u8 b -> crc_update c b = crc_byte c b.
Proof.
  intros Hb. unfold crc_update, crc_byte. rewrite (split_low_byte (c .^ b)) at 2.
  rewrite crc_entry_xor, crc_entry_high, Z.lxor_comm.
  rewrite crc_table_spec by (rewrite land_ff; apply u8_range). f_equal.
  rewrite Z.shiftr_lxor, (Z.shiftr_div_pow2 b) by lia. rewrite (Z.div_small b) by exact Hb.
  by rewrite Z.lxor_0_r.
Qed.

Lemma crc_updates bytes c : Forall is_u8 bytes -> fold_left crc_update bytes c = fold_left crc_byte bytes c.
Proof.
  intros H. revert c. induction H as [|b bytes Hb _ IH]; intros c; [done|]. cbn [fold_left].
  by rewrite crc_update_byte, IH.
Qed.

(** * Variable-length numbers *)

(** byuu's writer, with one unit of fuel per byte. *)
Fixpoint encode_number (fuel : nat) (n : Z) : list Z :=
  match fuel with
  | O => []
  | S fuel' =>
      if n / 128 =? 0 then [128 + n mod 128]
      else n mod 128 :: encode_number fuel' (n / 128 - 1)
  end.

(** Ten seven-bit digits write any 64-bit value. *)
Definition number_bytes (n : Z) : list Z := encode_number 10 n.

Lemma number_byte x :
  0 <= x < 128 ->
  x .& 0x7F = x /\ x .& 0x80 = 0 /\ (128 + x) .& 0x7F = x /\ (128 + x) .& 0x80 = 128.
Proof. revert x. refine (range_decide (fun x => _ /\ _ /\ _ /\ _) 128 _). by_evaluation. Qed.

Lemma drop_cons_znth {A} (l : list A) i x tail d :
  0 <= i -> drop (Z.to_nat i) l = x :: tail ->
  znth l i d = x /\ drop (Z.to_nat (i + 1)) l = tail /\ i < zlen l.
Proof.
  intros Hi Hd. assert (Hx : l !! Z.to_nat i = Some x).
  { rewrite <- (Nat.add_0_r (Z.to_nat i)), <- lookup_drop, Hd. done. }
  split; [by apply znth_lookup|]. apply lookup_lt_Some in Hx. split; [|unfold zlen; lia].
  replace (Z.to_nat (i + 1)) with (Z.to_nat i + 1)%nat by lia. by rewrite <- drop_drop, Hd.
Qed.

Lemma read_number_loop_spec fuel p at_ end_ f n data shift tail :
  0 <= n < 128 ^ Z.of_nat f -> (0 < f)%nat ->
  0 <= at_ -> at_ + zlen (encode_number f n) <= end_ -> (length (encode_number f n) <= fuel)%nat ->
  drop (Z.to_nat at_) p = encode_number f n ++ tail ->
  0 <= data -> 0 < shift -> data + shift * n <= kU64Max ->
  read_number_loop fuel p at_ end_ data shift = Some (data + shift * n, at_ + zlen (encode_number f n)) /\
  drop (Z.to_nat (at_ + zlen (encode_number f n))) p = tail.
Proof.
  revert fuel at_ n data shift. induction f as [|f IH]; intros fuel at_ n data shift Hn Hf Hat Hend Hfuel Hd Hdata Hshift Hmax;
    [lia|].
  cbn [encode_number] in *. pose proof (Z.div_mod n 128 ltac:(lia)) as Hdm.
  pose proof (Z.mod_pos_bound n 128 ltac:(lia)) as Hm.
  destruct (number_byte (n mod 128) Hm) as (E1 & E2 & E3 & E4).
  assert (Hadd : forall add, 0 <= add -> data + shift * add <= kU64Max ->
            negb (add =? 0) && ((kU64Max - data) / add <? shift) = false).
  { intros add Ha Hle. destruct (Z.eqb_spec add 0); [done|]. apply Z.ltb_ge.
    apply Z.div_le_lower_bound; [lia|]. lia. }
  destruct (Z.eqb_spec (n / 128) 0) as [Hz|Hz].
  - destruct fuel as [|fuel]; [cbn in Hfuel; lia|].
    destruct (drop_cons_znth p at_ _ _ 0 Hat Hd) as (Hx & Hd' & _). change (zlen [128 + n mod 128]) with 1 in *.
    cbn [read_number_loop]. destruct (Z.leb_spec end_ at_); [lia|]. rewrite Hx, E3, E4.
    rewrite Hadd by nia. cbn [Z.eqb negb]. split; [|exact Hd']. do 2 f_equal. nia.
  - assert (Hq : 1 <= n / 128) by (pose proof (Z.div_pos n 128); lia).
    rewrite zlen_cons in *. destruct fuel as [|fuel]; [cbn in Hfuel; lia|].
    destruct (drop_cons_znth p at_ _ _ 0 Hat Hd) as (Hx & Hd' & _).
    pose proof (zlen_nonneg (encode_number f (n / 128 - 1))).
    cbn [read_number_loop]. destruct (Z.leb_spec end_ at_); [lia|]. rewrite Hx, E1, E2.
    rewrite Hadd by nia. cbn [Z.eqb negb].
    assert (Hs : shift * 128 <= kU64Max) by nia.
    destruct (Z.ltb_spec (kU64Max .>> 7) shift) as [Hlt|_].
    { exfalso. rewrite Z.shiftr_div_pow2 in Hlt by lia. change (2 ^ 7) with 128 in Hlt.
      assert (shift <= kU64Max / 128) by (apply Z.div_le_lower_bound; lia). lia. }
    rewrite Z.shiftl_mul_pow2 by lia. change (2 ^ 7) with 128.
    destruct (Z.ltb_spec (kU64Max - shift * 128) (data + n mod 128 * shift)); [nia|].
    assert (Hpow : 128 ^ Z.of_nat (S f) = 128 * 128 ^ Z.of_nat f).
    { rewrite Nat2Z.inj_succ, Z.pow_succ_r by lia. done. }
    assert (Hn' : 0 <= n / 128 - 1 < 128 ^ Z.of_nat f).
    { split; [lia|]. assert (n / 128 < 128 ^ Z.of_nat f) by (apply Z.div_lt_upper_bound; lia). lia. }
    destruct f as [|f']; [cbn in Hn'; lia|].
    destruct (IH fuel (at_ + 1) (n / 128 - 1) (data + n mod 128 * shift + shift * 128) (shift * 128) Hn'
      ltac:(lia) ltac:(lia) ltac:(lia) ltac:(cbn [length] in Hfuel; lia) Hd' ltac:(nia) ltac:(lia) ltac:(nia))
      as [HI HD].
    rewrite HI. split.
    + do 2 f_equal; nia.
    + rewrite <- HD. do 2 f_equal. lia.
Qed.

Definition is_u64 (n : Z) : Prop := 0 <= n <= kU64Max.

(** Reading a number that is written at the position. *)
Lemma read_number_spec p at_ end_ n tail :
  is_u64 n -> 0 <= at_ -> at_ + zlen (number_bytes n) <= end_ ->
  drop (Z.to_nat at_) p = number_bytes n ++ tail ->
  read_number p at_ end_ = Some (n, at_ + zlen (number_bytes n)) /\
  drop (Z.to_nat (at_ + zlen (number_bytes n))) p = tail.
Proof.
  intros Hn Hat Hend Hd. unfold read_number.
  destruct (read_number_loop_spec (S (Z.to_nat (end_ - at_))) p at_ end_ 10 n 0 1 tail) as [E D].
  - unfold is_u64, kU64Max in Hn. change (128 ^ Z.of_nat 10) with 1180591620717411303424. lia.
  - lia.
  - done.
  - done.
  - fold (number_bytes n). unfold zlen in Hend. lia.
  - done.
  - lia.
  - lia.
  - unfold is_u64 in Hn. lia.
  - rewrite E. split; [|exact D]. do 2 f_equal. lia.
Qed.

(** What any successful read returns. *)
Lemma read_number_loop_bounds fuel p at_ end_ data shift n at' :
  0 <= data <= kU64Max -> 0 < shift ->
  read_number_loop fuel p at_ end_ data shift = Some (n, at') -> is_u64 n /\ at_ < at' <= end_.
Proof.
  revert at_ data shift. induction fuel as [|fuel IH]; intros at_ data shift Hd Hs; cbn [read_number_loop]; [done|].
  destruct (Z.leb_spec end_ at_); [done|]. set (add := znth p at_ 0 .& 0x7F).
  assert (Ha : 0 <= add) by (apply Z.land_nonneg; right; lia). clearbody add.
  destruct (negb (add =? 0) && _) eqn:E; [done|].
  assert (Hle : data + add * shift <= kU64Max).
  { destruct (Z.eqb_spec add 0) as [->|]; [lia|]. cbn [negb andb] in E. apply Z.ltb_ge in E.
    pose proof (Z.mul_div_le (kU64Max - data) add ltac:(lia)). nia. }
  destruct (negb (znth p at_ 0 .& 0x80 =? 0)).
  - intros [= <- <-]. unfold is_u64. split; [nia|lia].
  - destruct (kU64Max .>> 7 <? shift); [done|]. destruct (Z.ltb_spec (kU64Max - (shift .<< 7)) (data + add * shift)); [done|].
    rewrite Z.shiftl_mul_pow2 in * by lia. change (2 ^ 7) with 128 in *. intros H1.
    apply IH in H1 as [? ?]; [split; [done|lia]|nia|lia].
Qed.

Lemma read_number_bounds p at_ end_ n at' :
  read_number p at_ end_ = Some (n, at') -> is_u64 n /\ at_ < at' <= end_.
Proof. apply read_number_loop_bounds; unfold kU64Max; lia. Qed.

(** * Patches as command lists *)

Inductive Command : Type :=
| CSourceRead (n : Z)
| CTargetRead (bytes : list Z)
| CSourceCopy (offset n : Z)
| CTargetCopy (offset n : Z).

(** The slice [[at, at + n)] of a list. *)
Definition slice (l : list Z) (at_ n : Z) : list Z := take (Z.to_nat n) (drop (Z.to_nat at_) l).

(** What a command appends to the output, or nothing when it is out of range. *)
Definition run_command (source : list Z) (c : Command) (out : list Z) : option (list Z) :=
  match c with
  | CSourceRead n =>
      if (1 <=? n) && (zlen out + n <=? zlen source) then Some (out ++ slice source (zlen out) n) else None
  | CTargetRead bytes => if 1 <=? zlen bytes then Some (out ++ bytes) else None
  | CSourceCopy offset n =>
      if (1 <=? n) && (0 <=? offset) && (offset + n <=? zlen source)
      then Some (out ++ slice source offset n) else None
  | CTargetCopy offset n =>
      if (1 <=? n) && (0 <=? offset) && (offset <? zlen out)
      then Some (copy_loop (Z.to_nat n) (zlen out - offset) out) else None
  end.

Fixpoint run_commands (source : list Z) (cs : list Command) (out : list Z) : option (list Z) :=
  match cs with
  | [] => Some out
  | c :: cs' => out ← run_command source c out; run_commands source cs' out
  end.

(** ** Writing a patch *)

Definition signed_number (delta : Z) : list Z :=
  number_bytes (if delta <? 0 then 2 * - delta + 1 else 2 * delta).

Definition command_word (kind n : Z) : list Z := number_bytes (4 * (n - 1) + kind).

(** The bytes of a command, and the relative offsets after it. *)
Definition encode_command (source_rel target_rel : Z) (c : Command) : list Z * Z * Z :=
  match c with
  | CSourceRead n => (command_word 0 n, source_rel, target_rel)
  | CTargetRead bytes => (command_word 1 (zlen bytes) ++ bytes, source_rel, target_rel)
  | CSourceCopy offset n =>
      (command_word 2 n ++ signed_number (offset - source_rel), offset + n, target_rel)
  | CTargetCopy offset n =>
      (command_word 3 n ++ signed_number (offset - target_rel), source_rel, offset + n)
  end.

Fixpoint encode_commands (source_rel target_rel : Z) (cs : list Command) : list Z :=
  match cs with
  | [] => []
  | c :: cs' =>
      let '(bytes, source_rel, target_rel) := encode_command source_rel target_rel c in
      bytes ++ encode_commands source_rel target_rel cs'
  end.

Definition le32_bytes (x : Z) : list Z := [u8 x; u8 (x / 256); u8 (x / 65536); u8 (x / 16777216)].

Definition patch_body (source target metadata : list Z) (cs : list Command) : list Z :=
  [0x42; 0x50; 0x53; 0x31] ++ number_bytes (zlen source) ++ number_bytes (zlen target) ++
  number_bytes (zlen metadata) ++ metadata ++ encode_commands 0 0 cs.

Definition encode_patch (source target metadata : list Z) (cs : list Command) : list Z :=
  let body := patch_body source target metadata cs ++ le32_bytes (crc32 source) ++ le32_bytes (crc32 target) in
  body ++ le32_bytes (crc32 body).

(** ** Checksums *)

Lemma crc_entry_range x : is_u32 x -> is_u32 (crc_entry x).
Proof.
  assert (H : forall c, is_u32 c -> is_u32 (crc_step c)).
  { intros c Hc. unfold crc_step, is_u32 in *.
    assert (Hs : 0 <= c .>> 1 < 2 ^ 32).
    { rewrite Z.shiftr_div_pow2 by lia. change (2 ^ 1) with 2. change (2 ^ 32) with 4294967296.
      split; [apply Z.div_pos; lia|apply Z.div_lt_upper_bound; lia]. }
    destruct (negb _); [apply (lxor_range 32); done || lia|exact Hs]. }
  rewrite crc_entry_iter. auto 10.
Qed.

Lemma crc32_range bytes : Forall is_u8 bytes -> is_u32 (crc32 bytes).
Proof.
  intros Hb. unfold crc32. rewrite crc_updates by done.
  apply (lxor_range 32); [lia| |done].
  assert (H : is_u32 0xFFFFFFFF) by done. revert H. generalize 0xFFFFFFFF.
  induction Hb as [|b bytes Hb _ IH]; intros c Hc; [exact Hc|]. cbn [fold_left]. apply IH.
  apply crc_entry_range, (lxor_range 32); [lia|exact Hc|].
  unfold is_u8 in Hb. change (2 ^ 32) with 4294967296. lia.
Qed.

Lemma le32_drop p at_ x tail :
  is_u32 x -> 0 <= at_ -> drop (Z.to_nat at_) p = le32_bytes x ++ tail -> le32 p at_ = x.
Proof.
  intros Hx Hat Hd. unfold le32_bytes in Hd. cbn [app] in Hd.
  destruct (drop_cons_znth p at_ _ _ 0 Hat Hd) as (E0 & Hd1 & _).
  destruct (drop_cons_znth p (at_ + 1) _ _ 0 ltac:(lia) Hd1) as (E1 & Hd2 & _).
  destruct (drop_cons_znth p (at_ + 1 + 1) _ _ 0 ltac:(lia) Hd2) as (E2 & Hd3 & _).
  destruct (drop_cons_znth p (at_ + 1 + 1 + 1) _ _ 0 ltac:(lia) Hd3) as (E3 & _ & _).
  replace (at_ + 1 + 1) with (at_ + 2) in * by lia. replace (at_ + 2 + 1) with (at_ + 3) in * by lia.
  unfold le32. rewrite E0, E1, E2, E3.
  pose proof (u8_range x). pose proof (u8_range (x / 256)). pose proof (u8_range (x / 65536)).
  pose proof (u8_range (x / 16777216)). unfold is_u8 in *.
  rewrite (lor_shiftl 8), (lor_shiftl 16), (lor_shiftl 24) by
    (change (2 ^ 8) with 256; change (2 ^ 16) with 65536; change (2 ^ 24) with 16777216; lia).
  change (2 ^ 8) with 256. change (2 ^ 16) with 65536. change (2 ^ 24) with 16777216.
  rewrite <- le32_split by done. by apply u32_id.
Qed.

(** ** The output buffer *)

(** Writing behind the produced bytes is appending to them. *)
Lemma write_loop_spec n m out (f : Z -> list Z -> Z) :
  0 <= n <= m ->
  (forall i o z, 0 <= i < n -> zlen o = zlen out + i -> f i (o ++ z) = f i o) ->
  write_loop n (zlen out) f (out ++ replicate (Z.to_nat m) 0) =
    zfor 0 n (fun i o => o ++ [f i o]) out ++ replicate (Z.to_nat (m - n)) 0.
Proof.
  intros Hn Hf. unfold write_loop.
  set (ref := fun k => zfor 0 k (fun i o => o ++ [f i o]) out).
  assert (H : forall k, 0 <= k <= n -> zlen (ref k) = zlen out + k /\
    zfor 0 k (fun i o => <[Z.to_nat (zlen out + i) := f i o]> o) (out ++ replicate (Z.to_nat m) 0) =
      ref k ++ replicate (Z.to_nat (m - k)) 0).
  { intros k Hk. rewrite <- (Z2Nat.id k) by lia. assert (Hk' : Z.of_nat (Z.to_nat k) <= n) by lia.
    induction (Z.to_nat k) as [|j IH].
    - unfold ref. with_strategy transparent [zfor] (unfold zfor; cbn [Z.to_nat Z.of_nat zloop]).
      rewrite Z.sub_0_r, Z.add_0_r. done.
    - destruct (IH ltac:(lia)) as [Hl E]. rewrite Nat2Z.inj_succ, <- Z.add_1_r.
      assert (Hs : ref (Z.of_nat j + 1) = ref (Z.of_nat j) ++ [f (Z.of_nat j) (ref (Z.of_nat j))]).
      { unfold ref. rewrite zfor_snoc by lia. by rewrite Z.add_0_l. }
      rewrite Hs, zlen_snoc, zfor_snoc, E, Z.add_0_l by lia. split; [lia|].
      rewrite Hf by lia. replace (Z.to_nat (m - Z.of_nat j)) with (S (Z.to_nat (m - (Z.of_nat j + 1)))) by lia.
      cbn [replicate]. rewrite insert_app_r_alt by (unfold zlen in *; lia).
      replace (Z.to_nat (zlen out + Z.of_nat j) - length (ref (Z.of_nat j)))%nat with 0%nat
        by (unfold zlen in *; lia).
      rewrite <- app_assoc. reflexivity. }
  destruct (H n ltac:(lia)) as [_ ->]. done.
Qed.

Lemma zfor_slice l at_ n out :
  0 <= at_ -> 0 <= n -> at_ + n <= zlen l ->
  zfor 0 n (fun i o => o ++ [znth l (at_ + i) 0]) out = out ++ slice l at_ n.
Proof.
  intros Ha Hn Hl. rewrite zfor_app. f_equal. unfold slice.
  apply list_eq. intros k. rewrite concat_singletons, list_lookup_fmap.
  destruct (decide (k < Z.to_nat n)%nat) as [Hk|Hk].
  - rewrite lookup_seqZ_lt, lookup_take_lt, lookup_drop by lia. cbn.
    replace (Z.to_nat at_ + k)%nat with (Z.to_nat (at_ + (0 + Z.of_nat k))) by lia.
    symmetry. apply lookup_znth. lia.
  - rewrite lookup_seqZ_ge, lookup_take_ge by lia. done.
Qed.

Lemma zfor_copy_loop n back out :
  0 <= n ->
  zfor 0 n (fun i o => o ++ [znth o (zlen out - back + i) 0]) out = copy_loop (Z.to_nat n) back out.
Proof.
  intros Hn. rewrite <- (Z2Nat.id n) at 1 by lia. clear Hn. revert out.
  induction (Z.to_nat n) as [|k IH]; intros out.
  - done.
  - cbn [copy_loop]. rewrite <- IH. with_strategy transparent [zfor] unfold zfor.
    rewrite !Nat2Z.id. cbn [zloop]. rewrite Z.add_0_r, zlen_snoc. apply zloop_shift. intros i o.
    do 3 f_equal. lia.
Qed.

(** * Applying an encoded patch *)

Definition signed_raw (delta : Z) : Z := if delta <? 0 then 2 * - delta + 1 else 2 * delta.

Definition kMaxSize : Z := 2 ^ 60.

Lemma half_bits h b : (b = 0 \/ b = 1) -> (2 * h + b) .& 1 = b /\ (2 * h + b) .>> 1 = h.
Proof.
  intros Hb. pose proof (land_ones_mod (2 * h + b) 1 ltac:(lia)) as E.
  change (2 ^ 1 - 1) with 1 in E. change (2 ^ 1) with 2 in E. rewrite E, Z.shiftr_div_pow2 by lia.
  change (2 ^ 1) with 2. rewrite Z.add_comm, Z.mul_comm, Z_mod_plus_full, Z.div_add by lia.
  by destruct Hb as [->| ->].
Qed.

Lemma word_bits n kind : 0 <= kind < 4 -> (4 * n + kind) .& 3 = kind /\ (4 * n + kind) .>> 2 = n.
Proof.
  intros Hk. pose proof (land_ones_mod (4 * n + kind) 2 ltac:(lia)) as E.
  change (2 ^ 2 - 1) with 3 in E. change (2 ^ 2) with 4 in E. rewrite E, Z.shiftr_div_pow2 by lia.
  change (2 ^ 2) with 4. rewrite Z.add_comm, Z.mul_comm, Z_mod_plus_full, Z.div_add by lia.
  rewrite Z.mod_small, Z.div_small by lia. done.
Qed.

Lemma move_offset_spec rel offset :
  0 <= rel <= kMaxSize -> 0 <= offset <= kMaxSize ->
  move_offset (signed_raw (offset - rel)) rel = Some offset /\ is_u64 (signed_raw (offset - rel)).
Proof.
  unfold kMaxSize, signed_raw, move_offset, is_u64, kU64Max. change (2 ^ 60) with 1152921504606846976.
  intros Hr Ho. destruct (Z.ltb_spec (offset - rel) 0).
  - destruct (half_bits (- (offset - rel)) 1 ltac:(by right)) as [-> ->]. cbn [Z.eqb negb].
    destruct (Z.ltb_spec rel (- (offset - rel))); [lia|]. split; [f_equal; lia|lia].
  - rewrite <- (Z.add_0_r (2 * (offset - rel))).
    destruct (half_bits (offset - rel) 0 ltac:(by left)) as [-> ->]. cbn [Z.eqb negb].
    destruct (Z.ltb_spec (18446744073709551615 - rel) (offset - rel)); [lia|]. split; [f_equal; lia|lia].
Qed.

Lemma zlen_slice l at_ n : 0 <= at_ -> 0 <= n -> at_ + n <= zlen l -> zlen (slice l at_ n) = n.
Proof. intros. unfold slice, zlen in *. rewrite length_take, length_drop. lia. Qed.

Lemma zlen_replicate n (x : Z) : 0 <= n -> zlen (replicate (Z.to_nat n) x) = n.
Proof. intros. unfold zlen. rewrite length_replicate. lia. Qed.

Section REPLAY.
Context (patch source tail : list Z) (footer target_size : Z).
Context (Hfooter : 0 <= footer) (Hsource : zlen source <= kMaxSize) (Htarget : target_size <= kMaxSize).

(** The loop state after the commands that produced [out], with [rest] to read. *)
Record replaying (s : Patching) (out rest : list Z) : Prop := {
  rp_at : 0 <= pt_at s;
  rp_rest : drop (Z.to_nat (pt_at s)) patch = rest ++ tail;
  rp_end : pt_at s + zlen rest = footer;
  rp_out : pt_out s = out ++ replicate (Z.to_nat (target_size - zlen out)) 0;
  rp_out_at : pt_out_at s = zlen out;
  rp_source_rel : 0 <= pt_source_rel s <= kMaxSize;
  rp_target_rel : 0 <= pt_target_rel s <= kMaxSize;
  rp_size : zlen out <= target_size;
}.

(** Reading a number at the front of the rest. *)
Lemma replay_number at_ n rest :
  0 <= at_ -> drop (Z.to_nat at_) patch = (number_bytes n ++ rest) ++ tail ->
  at_ + zlen (number_bytes n ++ rest) = footer -> is_u64 n ->
  exists at', read_number patch at_ footer = Some (n, at') /\ at_ <= at' /\
    drop (Z.to_nat at') patch = rest ++ tail /\ at' + zlen rest = footer.
Proof using Type.
  intros Hat Hd Hend Hn. rewrite <- app_assoc in Hd. rewrite zlen_app in Hend.
  pose proof (zlen_nonneg rest). pose proof (zlen_nonneg (number_bytes n)).
  destruct (read_number_spec patch at_ footer n (rest ++ tail) Hn Hat ltac:(lia) Hd) as [E D].
  eexists. split; [exact E|]. split_and!; [lia|exact D|lia].
Qed.

(** A write loop on the buffer. *)
Lemma replay_write n out (f : Z -> list Z -> Z) :
  0 <= n -> zlen out + n <= target_size ->
  (forall i o z, 0 <= i < n -> zlen o = zlen out + i -> f i (o ++ z) = f i o) ->
  write_loop n (zlen out) f (out ++ replicate (Z.to_nat (target_size - zlen out)) 0) =
    let out' := zfor 0 n (fun i o => o ++ [f i o]) out in
    out' ++ replicate (Z.to_nat (target_size - (zlen out + n))) 0.
Proof using Type.
  intros Hn Hs Hf. cbv zeta. rewrite write_loop_spec by (lia || done). do 3 f_equal. lia.
Qed.

Lemma number_nonempty n : 1 <= zlen (number_bytes n).
Proof using Type.
  unfold number_bytes. cbn [encode_number]. destruct (_ =? 0); [done|]. rewrite zlen_cons.
  match goal with |- context [zlen ?l] => pose proof (zlen_nonneg l) end. lia.
Qed.

(** The word of a command, read in front of its arguments. *)
Lemma replay_word s out kind n args :
  replaying s out (command_word kind n ++ args) -> 0 <= kind < 4 -> 1 <= n <= kMaxSize ->
  zlen out + n <= target_size ->
  exists at', 0 <= at' /\ drop (Z.to_nat at') patch = args ++ tail /\ at' + zlen args = footer /\
    command_step patch source footer s =
      (if kind =? 0 then
         if zlen source <? pt_out_at s + n then Err "a BPS SourceRead runs past the source"%string
         else Ok (mkPatching at'
                (write_loop n (pt_out_at s) (fun i _ => znth source (pt_out_at s + i) 0) (pt_out s))
                (pt_out_at s + n) (pt_source_rel s) (pt_target_rel s))
       else if kind =? 1 then
         if footer - at' <? n then Err "a BPS TargetRead runs past the patch"%string
         else Ok (mkPatching (at' + n)
                (write_loop n (pt_out_at s) (fun i _ => znth patch (at' + i) 0) (pt_out s))
                (pt_out_at s + n) (pt_source_rel s) (pt_target_rel s))
       else
         match read_number patch at' footer with
         | None => Err "a BPS copy offset is truncated"%string
         | Some (raw, at_) =>
             let s := mkPatching at_ (pt_out s) (pt_out_at s) (pt_source_rel s) (pt_target_rel s) in
             if kind =? 2 then source_copy source raw n s else target_copy raw n s
         end).
Proof using Hfooter.
  intros [Hat Hrest Hend Hout Houtat _ _ Hsz] Hk Hn Hle.
  assert (Hu : is_u64 (4 * (n - 1) + kind)).
  { unfold is_u64, kU64Max, kMaxSize in *. change (2 ^ 60) with 1152921504606846976 in *. lia. }
  unfold command_word in *.
  destruct (replay_number (pt_at s) _ args Hat Hrest Hend Hu) as (at' & E & Hle' & Hd & He).
  exists at'. split_and!; [lia|done|done|]. unfold command_step.
  destruct (Z.leb_spec footer (pt_at s)) as [Hf|_].
  { exfalso. rewrite zlen_app in Hend. pose proof (number_nonempty (4 * (n - 1) + kind)).
    pose proof (zlen_nonneg args). lia. }
  rewrite E. destruct (word_bits (n - 1) kind Hk) as [-> ->].
  replace (n - 1 + 1) with n by lia. cbn [pt_out pt_out_at].
  rewrite Hout at 1. rewrite Houtat at 1. rewrite zlen_app, zlen_replicate by lia.
  destruct (Z.ltb_spec (zlen out + (target_size - zlen out) - zlen out) n); [lia|].
  destruct kind as [|[p|[p|p|]|]|]; try lia; reflexivity.
Qed.

(** After a command: the same buffer, longer by what the command appends. *)
Lemma replaying_step at' (out out' rest : list Z) s n srel trel :
  0 <= at' -> drop (Z.to_nat at') patch = rest ++ tail -> at' + zlen rest = footer ->
  zlen out' = zlen out + n -> 0 <= n -> zlen out + n <= target_size ->
  s = mkPatching at' (out' ++ replicate (Z.to_nat (target_size - (zlen out + n))) 0) (zlen out + n) srel trel ->
  0 <= srel <= kMaxSize -> 0 <= trel <= kMaxSize -> replaying s out' rest.
Proof using Type.
  clear Hfooter Hsource Htarget. intros Hat Hd He Hl Hn Hs -> Hsr Htr. constructor; cbn; rewrite ?Hl; try done; lia.
Qed.

Lemma command_step_replay c s out out' rest :
  let '(bytes, srel, trel) := encode_command (pt_source_rel s) (pt_target_rel s) c in
  replaying s out (bytes ++ rest) -> run_command source c out = Some out' -> zlen out' <= target_size ->
  exists s', command_step patch source footer s = Ok s' /\ replaying s' out' rest /\
    zlen out < zlen out' /\ pt_source_rel s' = srel /\ pt_target_rel s' = trel.
Proof using All.
  pose proof (zlen_nonneg out) as Hout0.
  destruct c as [n|bytes|offset n|offset n]; cbn [encode_command run_command]; intros H.
  - destruct ((1 <=? n) && _) eqn:E; [|done]. intros [= <-]. to_prop. rewrite zlen_app, zlen_slice by lia. intros Hl.
    rewrite <- (app_nil_r (command_word 0 n)), <- app_assoc in H. cbn [app] in H.
    destruct (replay_word s out 0 n rest H ltac:(lia) ltac:(lia) ltac:(lia)) as (at' & Hat & Hd & He & ->).
    cbn [Z.eqb]. destruct H as [_ _ _ Hout Houtat Hsr Htr _]. rewrite Houtat.
    destruct (Z.ltb_spec (zlen source) (zlen out + n)); [lia|].
    rewrite Hout, replay_write, zfor_slice by (lia || done). cbv zeta.
    eexists. split; [reflexivity|]. split; [|cbn [pt_source_rel pt_target_rel]; split_and!; [lia|reflexivity|reflexivity]].
    refine (replaying_step at' out _ rest _ n _ _ Hat Hd He _ _ _ eq_refl Hsr Htr);
      [rewrite zlen_app, zlen_slice by lia; lia|lia|lia].
  - destruct (1 <=? zlen bytes) eqn:E; [|done]. intros [= <-]. to_prop. rewrite zlen_app. intros Hl.
    rewrite <- app_assoc in H.
    destruct (replay_word s out 1 (zlen bytes) (bytes ++ rest) H ltac:(lia) ltac:(lia) ltac:(lia))
      as (at' & Hat & Hd & He & ->).
    cbn [Z.eqb Pos.eqb]. destruct H as [_ _ _ Hout Houtat Hsr Htr _]. rewrite Houtat.
    rewrite zlen_app in He. pose proof (zlen_nonneg rest).
    destruct (Z.ltb_spec (footer - at') (zlen bytes)); [lia|].
    assert (Hbytes : slice patch at' (zlen bytes) = bytes).
    { unfold slice. rewrite Hd, <- app_assoc. unfold zlen. rewrite Nat2Z.id. by rewrite take_app_length. }
    assert (Hlen : at' + zlen bytes <= zlen patch).
    { apply (f_equal length) in Hd. rewrite length_drop, !length_app in Hd. unfold zlen in *. lia. }
    rewrite Hout, replay_write, zfor_slice, Hbytes by (lia || done). cbv zeta.
    eexists. split; [reflexivity|]. split; [|cbn [pt_source_rel pt_target_rel]; split_and!; [lia|reflexivity|reflexivity]].
    refine (replaying_step (at' + zlen bytes) out _ rest _ (zlen bytes) _ _ _ _ _ _ _ _ eq_refl Hsr Htr);
      [lia| |lia|by rewrite zlen_app|lia|lia].
    rewrite <- app_assoc in Hd. replace (Z.to_nat (at' + zlen bytes)) with (Z.to_nat at' + length bytes)%nat
      by (unfold zlen; lia).
    rewrite <- drop_drop, Hd. by rewrite drop_app_length.
  - destruct ((1 <=? n) && _ && _) eqn:E; [|done]. intros [= <-]. to_prop.
    rewrite zlen_app, zlen_slice by lia. intros Hl. rewrite <- app_assoc in H.
    destruct (replay_word s out 2 n _ H ltac:(lia) ltac:(lia) ltac:(lia)) as (at' & Hat & Hd & He & ->).
    cbn [Z.eqb Pos.eqb]. destruct H as [_ _ _ Hout Houtat Hsr Htr _].
    destruct (move_offset_spec (pt_source_rel s) offset Hsr ltac:(lia)) as [Hmove Hu].
    destruct (replay_number at' _ rest Hat Hd He Hu) as (at2 & E2 & Hat2 & Hd2 & He2).
    fold (signed_raw (offset - pt_source_rel s)) in *. rewrite E2. unfold source_copy.
    cbn [pt_source_rel pt_target_rel pt_out pt_out_at pt_at]. rewrite Hmove, Houtat.
    destruct (Z.ltb_spec (zlen source) offset); [lia|].
    destruct (Z.ltb_spec (zlen source - offset) n); [lia|]. cbn [orb].
    rewrite Hout, replay_write, zfor_slice by (lia || done). cbv zeta.
    eexists. split; [reflexivity|]. split; [|cbn [pt_source_rel pt_target_rel]; split_and!; [lia|reflexivity|reflexivity]].
    refine (replaying_step at2 out _ rest _ n _ _ _ Hd2 He2 _ _ _ eq_refl _ Htr);
      [lia|rewrite zlen_app, zlen_slice by lia; lia|lia|lia|lia].
  - destruct ((1 <=? n) && _ && _) eqn:E; [|done]. intros [= <-]. to_prop.
    rewrite copy_loop_length, Z2Nat.id by lia. intros Hl. rewrite <- app_assoc in H.
    destruct (replay_word s out 3 n _ H ltac:(lia) ltac:(lia) ltac:(lia)) as (at' & Hat & Hd & He & ->).
    cbn [Z.eqb Pos.eqb]. destruct H as [_ _ _ Hout Houtat Hsr Htr _].
    destruct (move_offset_spec (pt_target_rel s) offset Htr ltac:(lia)) as [Hmove Hu].
    destruct (replay_number at' _ rest Hat Hd He Hu) as (at2 & E2 & Hat2 & Hd2 & He2).
    fold (signed_raw (offset - pt_target_rel s)) in *. rewrite E2. unfold target_copy.
    cbn [pt_source_rel pt_target_rel pt_out pt_out_at pt_at]. rewrite Hmove, Houtat.
    destruct (Z.leb_spec (zlen out) offset); [lia|].
    rewrite Hout, replay_write; [cbv zeta|lia|lia|intros i o z Hi Ho; apply znth_app_l; lia].
    assert (Ecopy : zfor 0 n (fun i o => o ++ [znth o (offset + i) 0]) out =
              copy_loop (Z.to_nat n) (zlen out - offset) out).
    { rewrite <- zfor_copy_loop by lia. apply zfor_ext. intros i o _. do 3 f_equal. lia. }
    rewrite Ecopy. eexists. split; [reflexivity|].
    split; [|cbn [pt_source_rel pt_target_rel]; split_and!; [lia|reflexivity|reflexivity]].
    refine (replaying_step at2 out _ rest _ n _ _ _ Hd2 He2 _ _ _ eq_refl Hsr _);
      [lia|rewrite copy_loop_length; lia|lia|lia|lia].
Qed.

Lemma run_command_grows c out out' : run_command source c out = Some out' -> zlen out < zlen out'.
Proof using Type.
  clear Hsource Htarget Hfooter. pose proof (zlen_nonneg out). destruct c; cbn [run_command].
  - destruct ((1 <=? n) && _) eqn:E; [|done]. intros [= <-]. to_prop. rewrite zlen_app, zlen_slice by lia. lia.
  - destruct (1 <=? zlen bytes) eqn:E; [|done]. intros [= <-]. to_prop. rewrite zlen_app. lia.
  - destruct ((1 <=? n) && _ && _) eqn:E; [|done]. intros [= <-]. to_prop.
    rewrite zlen_app, zlen_slice by lia. lia.
  - destruct ((1 <=? n) && _ && _) eqn:E; [|done]. intros [= <-]. to_prop. rewrite copy_loop_length. lia.
Qed.

Lemma run_commands_grows cs out out' : run_commands source cs out = Some out' -> zlen out <= zlen out'.
Proof using Type.
  clear Hsource Htarget Hfooter. revert out. induction cs as [|c cs IH]; intros out; cbn [run_commands].
  - by intros [= <-].
  - destruct (run_command source c out) as [mid|] eqn:E; [|done]. cbn [mbind option_bind].
    intros H%IH. apply run_command_grows in E. lia.
Qed.

(** The loop replays a whole command list. *)
Lemma command_loop_replay cs fuel s out final :
  replaying s out (encode_commands (pt_source_rel s) (pt_target_rel s) cs) ->
  run_commands source cs out = Some final -> zlen final = target_size ->
  target_size - zlen out <= Z.of_nat fuel ->
  exists s', command_loop patch source footer fuel s = Ok s' /\ pt_out s' = final /\ pt_at s' = footer.
Proof using All.
  revert fuel s out. induction cs as [|c cs IH]; intros fuel s out H; cbn [encode_commands run_commands] in *.
  - intros [= <-] Hsize _. exists s. destruct H as [_ _ He Hout Houtat _ _ _].
    rewrite Hsize, Z.sub_diag in Hout. change (Z.to_nat 0) with 0%nat in Hout. cbn [replicate] in Hout.
    rewrite app_nil_r in Hout. change (zlen (@nil Z)) with 0 in He.
    split; [|split; [exact Hout|lia]].
    destruct fuel; cbn [command_loop]; rewrite Hout, Houtat; (destruct (Z.ltb_spec (zlen out) (zlen out)); [lia|done]).
  - destruct (run_command source c out) as [mid|] eqn:Ec; [|done]. cbn [mbind option_bind].
    intros Hcs Hsize Hfuel.
    pose proof (command_step_replay c s out mid
      (encode_commands (encode_command (pt_source_rel s) (pt_target_rel s) c).1.2
        (encode_command (pt_source_rel s) (pt_target_rel s) c).2 cs)) as Hstep.
    destruct (encode_command (pt_source_rel s) (pt_target_rel s) c) as [[bytes srel] trel]. cbn [fst snd] in Hstep.
    pose proof (run_commands_grows cs mid final Hcs) as Hg.
    destruct (Hstep H Ec ltac:(lia)) as (s' & E & Hr & Hlt & <- & <-).
    destruct H as [_ _ _ Hout Houtat _ _ Hsz].
    assert (Hcond : (pt_out_at s <? zlen (pt_out s)) = true).
    { rewrite Hout, Houtat, zlen_app, zlen_replicate by lia. apply Z.ltb_lt. lia. }
    destruct fuel as [|fuel]; [lia|]. cbn [command_loop]. rewrite Hcond, E. cbn [mbind result_bind].
    apply (IH fuel s' mid Hr Hcs Hsize). lia.
Qed.

End REPLAY.

Definition command_ok (c : Command) : Prop :=
  match c with CTargetRead bytes => Forall is_u8 bytes | _ => True end.

Lemma slice_bytes l at_ n : Forall is_u8 l -> Forall is_u8 (slice l at_ n).
Proof. intros H. unfold slice. by apply Forall_take, Forall_drop. Qed.

Lemma run_commands_bytes source cs out out' :
  Forall is_u8 source -> Forall command_ok cs -> Forall is_u8 out ->
  run_commands source cs out = Some out' -> Forall is_u8 out'.
Proof.
  intros Hs Hcs. revert out. induction Hcs as [|c cs Hc _ IH]; intros out Ho; cbn [run_commands].
  - by intros [= <-].
  - destruct (run_command source c out) as [mid|] eqn:E; [|done]. cbn [mbind option_bind]. apply IH.
    destruct c; cbn [run_command command_ok] in *;
      (destruct (_ <=? _) || destruct (_ && _)); try done; repeat case_match; simplify_eq;
      try (apply Forall_app; split; [done|]); auto using slice_bytes, copy_loop_bytes.
Qed.

Lemma encode_number_bytes f n : Forall is_u8 (encode_number f n).
Proof.
  revert n. induction f as [|f IH]; intros n; cbn [encode_number]; [constructor|].
  pose proof (Z.mod_pos_bound n 128 ltac:(lia)).
  destruct (n / 128 =? 0); (constructor; [unfold is_u8; lia|]); [constructor|apply IH].
Qed.

Lemma le32_bytes_ok x : Forall is_u8 (le32_bytes x).
Proof. repeat constructor; apply u8_range. Qed.

Lemma encode_commands_bytes srel trel cs : Forall command_ok cs -> Forall is_u8 (encode_commands srel trel cs).
Proof.
  intros H. revert srel trel. induction H as [|c cs Hc _ IH]; intros srel trel; cbn [encode_commands]; [constructor|].
  destruct c; cbn [encode_command command_ok] in *; rewrite ?Forall_app; split_and!;
    auto using encode_number_bytes; apply encode_number_bytes.
Qed.

Lemma patch_body_bytes source target metadata cs :
  Forall is_u8 metadata -> Forall command_ok cs -> Forall is_u8 (patch_body source target metadata cs).
Proof.
  intros Hm Hcs. unfold patch_body. rewrite !Forall_app. split_and!;
    [repeat constructor; done|apply encode_number_bytes..|done|by apply encode_commands_bytes].
Qed.

Lemma zlen_le32_bytes x : zlen (le32_bytes x) = 4.
Proof. done. Qed.

(** Reading the three numbers of the header. *)
Lemma read_header_spec patch footer a b c rest tail :
  is_u64 a -> is_u64 b -> is_u64 c ->
  drop (Z.to_nat 4) patch = (number_bytes a ++ number_bytes b ++ number_bytes c ++ rest) ++ tail ->
  4 + zlen (number_bytes a ++ number_bytes b ++ number_bytes c ++ rest) = footer ->
  exists at_, read_header patch footer = Some (a, b, c, at_) /\ 0 <= at_ /\
    drop (Z.to_nat at_) patch = rest ++ tail /\ at_ + zlen rest = footer.
Proof.
  intros Ha Hb Hc Hd He. unfold read_header.
  destruct (replay_number patch tail footer 4 a _ ltac:(lia) Hd He Ha) as (p1 & -> & H1 & D1 & L1).
  cbn [mbind option_bind].
  destruct (replay_number patch tail footer p1 b _ ltac:(lia) D1 L1 Hb) as (p2 & -> & H2 & D2 & L2).
  cbn [mbind option_bind].
  destruct (replay_number patch tail footer p2 c _ ltac:(lia) D2 L2 Hc) as (p3 & -> & H3 & D3 & L3).
  cbn [mbind option_bind]. exists p3. split_and!; [done|lia|done|done].
Qed.

Lemma size_u64 n : 0 <= n <= kMaxSize -> is_u64 n.
Proof. unfold is_u64, kMaxSize, kU64Max. change (2 ^ 60) with 1152921504606846976. lia. Qed.

Section ENCODED.
Context (source target metadata : list Z) (cs : list Command).
Context (Hsource : Forall is_u8 source) (Htarget : Forall is_u8 target) (Hmetadata : Forall is_u8 metadata).
Context (Hcommands : Forall command_ok cs).

Let patch := encode_patch source target metadata cs.
Let front := patch_body source target metadata cs.
Let body := front ++ le32_bytes (crc32 source) ++ le32_bytes (crc32 target).
Let tail := le32_bytes (crc32 source) ++ le32_bytes (crc32 target) ++ le32_bytes (crc32 body).
Let rest := metadata ++ encode_commands 0 0 cs.

Lemma encoded_split : patch = body ++ le32_bytes (crc32 body) /\ patch = front ++ tail.
Proof using Type. split; [done|]. unfold patch, encode_patch, tail. fold front body. unfold body. by rewrite <- !app_assoc. Qed.

Lemma encoded_length : zlen patch = zlen front + 12 /\ zlen patch - 4 = zlen body.
Proof using Type.
  destruct encoded_split as [Eb Ef]. split; [rewrite Ef|rewrite Eb]; unfold tail, body;
    rewrite !zlen_app, !zlen_le32_bytes; lia.
Qed.

Lemma encoded_front :
  zlen front = 4 + zlen (number_bytes (zlen source) ++ number_bytes (zlen target) ++ number_bytes (zlen metadata) ++ rest) /\
  drop (Z.to_nat 4) patch = (number_bytes (zlen source) ++ number_bytes (zlen target) ++
    number_bytes (zlen metadata) ++ rest) ++ tail /\
  take 4 patch = [0x42; 0x50; 0x53; 0x31].
Proof using Type.
  destruct encoded_split as [_ Ef]. rewrite Ef. unfold front, patch_body. fold rest.
  rewrite zlen_app, <- app_assoc. split_and!; [done|reflexivity|reflexivity].
Qed.

(** The three stored checksums. *)
Lemma encoded_checksums :
  crc32 (take (Z.to_nat (zlen patch - 4)) patch) = le32 patch (zlen patch - 4) /\
  crc32 source = le32 patch (zlen front) /\ crc32 target = le32 patch (zlen front + 4).
Proof using All.
  destruct encoded_split as [Eb Ef]. destruct encoded_length as [Hlen Hbl]. pose proof (zlen_nonneg front).
  assert (Hbody : Forall is_u8 body).
  { unfold body. rewrite !Forall_app. split_and!; [by apply patch_body_bytes|apply le32_bytes_ok..]. }
  rewrite Hbl. split_and!; symmetry.
  - rewrite Eb at 2. rewrite take_zlen_app. apply (le32_drop _ _ _ []); [by apply crc32_range|apply zlen_nonneg|].
    by rewrite Eb, drop_zlen_app, app_nil_r.
  - apply (le32_drop _ _ _ (le32_bytes (crc32 target) ++ le32_bytes (crc32 body)));
      [by apply crc32_range|done|]. by rewrite Ef, drop_zlen_app.
  - apply (le32_drop _ _ _ (le32_bytes (crc32 body))); [by apply crc32_range|lia|].
    replace (Z.to_nat (zlen front + 4)) with (Z.to_nat (zlen front) + 4)%nat by lia.
    by rewrite <- drop_drop, Ef, drop_zlen_app.
Qed.

Lemma encoded_magic :
  znth patch 0 0 = 0x42 /\ znth patch 1 0 = 0x50 /\ znth patch 2 0 = 0x53 /\ znth patch 3 0 = 0x31.
Proof using Type.
  destruct encoded_front as (_ & _ & H). rewrite <- (take_drop 4 patch), H. done.
Qed.

Context (Hsource_size : zlen source <= kMaxSize) (Htarget_size : zlen target <= kMaxSize).
Context (Hpatch_size : zlen patch <= kMaxPatchBytes).

Lemma encoded_header :
  exists at_, read_header patch (zlen front) = Some (zlen source, zlen target, zlen metadata, at_) /\ 0 <= at_ /\
    drop (Z.to_nat at_) patch = rest ++ tail /\ at_ + zlen rest = zlen front /\ 19 <= zlen patch.
Proof using Hsource_size Htarget_size Hpatch_size.
  destruct encoded_front as (Hfront & Hd & _). destruct encoded_length as [Hlen _].
  pose proof (number_nonempty (zlen source)). pose proof (number_nonempty (zlen target)).
  pose proof (number_nonempty (zlen metadata)). pose proof (zlen_nonneg (encode_commands 0 0 cs)).
  pose proof (zlen_nonneg source). pose proof (zlen_nonneg target). pose proof (zlen_nonneg metadata).
  assert (Hk : kMaxPatchBytes <= kMaxSize) by (vm_compute; discriminate).
  assert (Hr : zlen rest = zlen metadata + zlen (encode_commands 0 0 cs)) by (unfold rest; by rewrite zlen_app).
  pose proof Hfront as Hf. rewrite !zlen_app in Hf.
  destruct (read_header_spec patch (zlen front) (zlen source) (zlen target) (zlen metadata) rest tail
    (size_u64 (zlen source) ltac:(lia)) (size_u64 (zlen target) ltac:(lia)) (size_u64 (zlen metadata) ltac:(lia))
    Hd (eq_sym Hfront)) as (at_ & E & L0 & L1 & L2).
  exists at_. split_and!; [done|done|done|done|lia].
Qed.

Lemma apply_encode max_output :
  run_commands source cs [] = Some target -> zlen target <= max_output ->
  apply_bps patch source max_output = mkBpsResult true "" target.
Proof using All.
  intros Hrun Hmax. destruct encoded_length as [Hlen _].
  destruct encoded_header as (at_ & Hheader & Hat & Hdat & Hend & H19).
  destruct encoded_checksums as (C1 & C2 & C3). destruct encoded_magic as (M0 & M1 & M2 & M3).
  pose proof (zlen_nonneg (encode_commands 0 0 cs)). pose proof (zlen_nonneg metadata).
  pose proof (zlen_nonneg target).
  assert (Hr : zlen rest = zlen metadata + zlen (encode_commands 0 0 cs)) by (unfold rest; by rewrite zlen_app).
  unfold apply_bps. replace (zlen patch - 12) with (zlen front) by lia. rewrite M0, M1, M2, M3, C1.
  destruct (Z.ltb_spec kMaxPatchBytes (zlen patch)); [lia|].
  destruct (Z.ltb_spec (zlen patch) (4 + 3 + 12)); [lia|].
  cbn [Z.eqb Pos.eqb negb orb]. cbv zeta. rewrite Z.eqb_refl, Hheader, Z.eqb_refl. cbn [negb].
  destruct (Z.ltb_spec max_output (zlen target)); [lia|].
  destruct (Z.ltb_spec (zlen front - at_) (zlen metadata)); [lia|].
  rewrite C2, Z.eqb_refl. cbn [negb].
  destruct (command_loop_replay patch source tail (zlen front) (zlen target) (zlen_nonneg front) Hsource_size
    Htarget_size cs (command_fuel (zlen target))
    (mkPatching (at_ + zlen metadata) (replicate (Z.to_nat (zlen target)) 0) 0 0 0) [] target)
    as (s & -> & -> & ->); [|exact Hrun|done|unfold command_fuel; change (zlen (@nil Z)) with 0; lia|].
  - constructor; cbn [pt_at pt_out pt_out_at pt_source_rel pt_target_rel app]; change (zlen (@nil Z)) with 0.
    + lia.
    + replace (Z.to_nat (at_ + zlen metadata)) with (Z.to_nat at_ + length metadata)%nat by (unfold zlen; lia).
      rewrite <- drop_drop, Hdat. unfold rest. by rewrite <- app_assoc, drop_app_length.
    + lia.
    + by rewrite Z.sub_0_r.
    + done.
    + split; [done|by vm_compute].
    + split; [done|by vm_compute].
    + lia.
  - by rewrite Z.eqb_refl, C3, Z.eqb_refl.
Qed.

End ENCODED.

(** * Bounds on every input *)

Section BOUNDS.
Context (patch source : list Z) (footer : Z) (Hpatch : Forall is_u8 patch) (Hsource : Forall is_u8 source).

Lemma write_loop_length n out_at f out : zlen (write_loop n out_at f out) = zlen out.
Proof using Type.
  unfold write_loop. destruct (decide (0 <= n)) as [Hn|Hn].
  - apply (zfor_ind (fun _ o => zlen o = zlen out)); [done|done|]. intros i o _ H. by rewrite zlen_insert.
  - with_strategy transparent [zfor] unfold zfor. by rewrite Z2Nat.nonpos by lia.
Qed.

Lemma write_loop_bytes n out_at f out :
  (forall i o, Forall is_u8 o -> is_u8 (f i o)) -> Forall is_u8 out -> Forall is_u8 (write_loop n out_at f out).
Proof using Type.
  intros Hf Ho. unfold write_loop. destruct (decide (0 <= n)) as [Hn|Hn].
  - apply (zfor_ind (fun _ o => Forall is_u8 o)); [done|done|]. intros i o _ H. by apply Forall_insert; auto.
  - with_strategy transparent [zfor] unfold zfor. by rewrite Z2Nat.nonpos by lia.
Qed.

(** A step that succeeds writes at least one byte, inside the buffer. *)
Record stepped (s s' : Patching) : Prop := {
  st_length : zlen (pt_out s') = zlen (pt_out s);
  st_bytes : Forall is_u8 (pt_out s) -> Forall is_u8 (pt_out s');
  st_progress : pt_out_at s < pt_out_at s' <= zlen (pt_out s);
}.

Lemma stepped_intro s at_ n f srel trel :
  1 <= n -> n <= zlen (pt_out s) - pt_out_at s -> (forall i o, Forall is_u8 o -> is_u8 (f i o)) ->
  stepped s (mkPatching at_ (write_loop n (pt_out_at s) f (pt_out s)) (pt_out_at s + n) srel trel).
Proof using Type.
  intros H1 H2 Hf. constructor; cbn; [apply write_loop_length|by apply write_loop_bytes|lia].
Qed.

Lemma command_step_stepped s : 
  match command_step patch source footer s with
  | Ok s' => stepped s s'
  | Err why => why <> "out of fuel"%string
  end.
Proof using Hpatch Hsource.
  unfold command_step. destruct (footer <=? pt_at s); [done|].
  destruct (read_number patch (pt_at s) footer) as [[word at_]|] eqn:E; [|done].
  apply read_number_bounds in E as [Hw _]. unfold is_u64 in Hw.
  assert (Hn : 0 <= word .>> 2) by (apply Z.shiftr_nonneg; lia).
  cbn [pt_out pt_out_at]. destruct (Z.ltb_spec (zlen (pt_out s) - pt_out_at s) ((word .>> 2) + 1)); [done|].
  destruct (word .& 3 =? 0).
  { destruct (_ <? _); [done|]. apply stepped_intro; [lia|lia|]. intros. by apply znth_byte. }
  destruct (word .& 3 =? 1).
  { destruct (_ <? _); [done|]. apply stepped_intro; [lia|lia|]. intros. by apply znth_byte. }
  destruct (read_number patch at_ footer) as [[raw at2]|]; [|done]. destruct (word .& 3 =? 2).
  - unfold source_copy. destruct (move_offset _ _) as [rel|]; [|done]. destruct (_ || _); [done|].
    cbn [pt_out pt_out_at]. apply stepped_intro; [lia|lia|]. intros. by apply znth_byte.
  - unfold target_copy. destruct (move_offset _ _) as [rel|]; [|done]. destruct (_ <=? _); [done|].
    cbn [pt_out pt_out_at]. apply stepped_intro; [lia|lia|]. intros. by apply znth_byte.
Qed.

(** The loop terminates within its fuel and keeps the buffer's size. *)
Lemma command_loop_bounds fuel s :
  zlen (pt_out s) - pt_out_at s <= Z.of_nat fuel ->
  match command_loop patch source footer fuel s with
  | Ok s' => zlen (pt_out s') = zlen (pt_out s) /\ (Forall is_u8 (pt_out s) -> Forall is_u8 (pt_out s'))
  | Err why => why <> "out of fuel"%string
  end.
Proof using Hpatch Hsource.
  revert s. induction fuel as [|fuel IH]; intros s Hfuel; cbn [command_loop];
    destruct (Z.ltb_spec (pt_out_at s) (zlen (pt_out s))); try done; [lia|].
  pose proof (command_step_stepped s) as Hs.
  destruct (command_step patch source footer s) as [s'|why]; [|done]. cbn [mbind result_bind].
  destruct Hs as [Hl Hb Hp]. specialize (IH s' ltac:(lia)).
  destruct (command_loop patch source footer fuel s') as [s2|why]; [|done]. destruct IH as [H1 H2].
  split; [lia|auto].
Qed.

End BOUNDS.

Definition bps_result_ok (patch source : list Z) (max_output : Z) (r : BpsResult) : Prop :=
  bps_error r <> "out of fuel"%string /\
  if bps_ok r then
    zlen (bps_output r) <= max_output /\ Forall is_u8 (bps_output r) /\
    (exists metadata_size at_,
       read_header patch (zlen patch - 12) = Some (zlen source, zlen (bps_output r), metadata_size, at_)) /\
    crc32 source = le32 patch (zlen patch - 12) /\
    crc32 (bps_output r) = le32 patch (zlen patch - 8) /\
    crc32 (take (Z.to_nat (zlen patch - 4)) patch) = le32 patch (zlen patch - 4)
  else bps_output r = [].

Lemma fail_ok patch source max_output why :
  why <> "out of fuel"%string -> bps_result_ok patch source max_output (fail why).
Proof. by split. Qed.

Lemma read_header_bounds patch footer a b c at_ :
  read_header patch footer = Some (a, b, c, at_) -> is_u64 b.
Proof.
  unfold read_header. destruct (read_number patch 4 footer) as [[x p1]|]; [|done]. cbn [mbind option_bind].
  destruct (read_number patch p1 footer) as [[y p2]|] eqn:E; [|done]. cbn [mbind option_bind].
  apply read_number_bounds in E as [Hy _].
  destruct (read_number patch p2 footer) as [[z p3]|]; [|done]. cbn. by intros [= <- <- <- <-].
Qed.

Lemma apply_bps_bounds patch source max_output :
  Forall is_u8 patch -> Forall is_u8 source ->
  bps_result_ok patch source max_output (apply_bps patch source max_output).
Proof.
  intros Hp Hs. unfold apply_bps.
  destruct (_ <? zlen patch); [by apply fail_ok|]. destruct (zlen patch <? _); [by apply fail_ok|].
  destruct (_ || _); [by apply fail_ok|].
  destruct (Z.eqb_spec (crc32 (take (Z.to_nat (zlen patch - 4)) patch)) (le32 patch (zlen patch - 4)));
    cbn [negb]; [|by apply fail_ok].
  destruct (read_header patch (zlen patch - 12)) as [[[[a b] c] at_]|] eqn:Eh; [|by apply fail_ok].
  pose proof (read_header_bounds _ _ _ _ _ _ Eh) as Hb. unfold is_u64 in Hb.
  destruct (Z.eqb_spec a (zlen source)) as [->|]; cbn [negb]; [|by apply fail_ok].
  destruct (Z.ltb_spec max_output b); [by apply fail_ok|]. destruct (_ <? c); [by apply fail_ok|].
  destruct (Z.eqb_spec (crc32 source) (le32 patch (zlen patch - 12))); cbn [negb]; [|by apply fail_ok].
  cbv zeta. set (s0 := mkPatching _ _ _ _ _).
  pose proof (command_loop_bounds patch source (zlen patch - 12) Hp Hs (command_fuel b) s0) as Hloop.
  assert (Hl0 : zlen (pt_out s0) = b) by (apply zlen_replicate; lia).
  rewrite Hl0 in Hloop. cbn [pt_out_at s0] in Hloop. specialize (Hloop ltac:(unfold command_fuel; lia)).
  destruct (command_loop _ _ _ _ s0) as [s|why]; [|by apply fail_ok]. destruct Hloop as [Hlen Hbytes].
  destruct (pt_at s =? _); cbn [negb]; [|by apply fail_ok].
  destruct (Z.eqb_spec (crc32 (pt_out s)) (le32 patch (zlen patch - 12 + 4))) as [Ec|]; cbn [negb]; [|by apply fail_ok].
  split; [done|]. cbn [bps_ok bps_output]. split_and!; [lia| |by exists c, at_; rewrite Hlen|done| |done].
  - apply Hbytes. cbn [pt_out s0]. apply Forall_replicate. by vm_compute.
  - rewrite Ec. f_equal. lia.
Qed.

(** * Properties *)

(** The CRC-32 of patches and archives is the bitwise one: for every byte
    string the table-driven update equals feeding each byte through eight
    single-bit steps of the reflected polynomial. *)
Theorem crc32_bitwise_equal (bytes : list Z) (Hbytes : Forall is_u8 bytes) :
  crc32 bytes = crc32_bitwise bytes /\ is_u32 (crc32 bytes).
Proof. split; [unfold crc32, crc32_bitwise; by rewrite crc_updates|by apply crc32_range]. Qed.

Lemma crc32_bitwise_equal_witness :
  crc32_bitwise [0x31; 0x32; 0x33; 0x34; 0x35; 0x36; 0x37; 0x38; 0x39] = 0xCBF43926 /\
  crc32 [0x31; 0x32; 0x33; 0x34; 0x35; 0x36; 0x37; 0x38; 0x39] = 0xCBF43926.
Proof.
  split; [by_evaluation|].
  transitivity (crc32_bitwise [0x31; 0x32; 0x33; 0x34; 0x35; 0x36; 0x37; 0x38; 0x39]); [|by_evaluation].
  apply (crc32_bitwise_equal [0x31; 0x32; 0x33; 0x34; 0x35; 0x36; 0x37; 0x38; 0x39]).
  repeat constructor; done.
Defined.

(** C36. Round trip: the patch written for a list of commands (source reads,
    literal runs, source copies, possibly overlapping target copies, with any
    metadata) that turns a source into a target applies to that source and
    yields exactly that target, for every number encoding and relative offset
    involved. *)
Theorem apply_bps_encode (source target metadata : list Z) (cs : list Command) (max_output : Z)
    (Hsource : Forall is_u8 source) (Hmetadata : Forall is_u8 metadata) (Hcs : Forall command_ok cs)
    (Hrun : run_commands source cs [] = Some target)
    (Hs : zlen source <= kMaxSize) (Ht : zlen target <= kMaxSize) (Hmax : zlen target <= max_output)
    (Hsize : zlen (encode_patch source target metadata cs) <= kMaxPatchBytes) :
  apply_bps (encode_patch source target metadata cs) source max_output = mkBpsResult true "" target.
Proof.
  apply apply_encode; try done.
  exact (run_commands_bytes source cs [] target Hsource Hcs (Forall_nil_2 _) Hrun).
Qed.

Definition sample_commands : list Command :=
  [CSourceRead 2; CTargetRead [7; 8]; CSourceCopy 1 3; CTargetCopy 2 6; CSourceCopy 0 2; CTargetCopy 0 1].

Lemma apply_bps_encode_witness :
  exists target, run_commands [10; 20; 30; 40] sample_commands [] = Some target /\
    apply_bps (encode_patch [10; 20; 30; 40] target [1] sample_commands) [10; 20; 30; 40] 100 =
      mkBpsResult true "" target.
Proof.
  eexists. split; [vm_compute; reflexivity|].
  apply (apply_bps_encode [10; 20; 30; 40] _ [1] sample_commands 100);
    [repeat constructor; done|repeat constructor; done|repeat constructor; done|by_evaluation
    |vm_compute; discriminate..].
Defined.

(** Safety on arbitrary patches: [apply_bps] always returns (its command
    loop ends within the target size), a refusal carries no output, and a success
    has exactly the declared target size, within the caller's limit, from a
    source of the declared size, with all three recorded checksums matching. *)
Theorem apply_bps_safe (patch source : list Z) (max_output : Z)
    (Hpatch : Forall is_u8 patch) (Hsource : Forall is_u8 source) :
  bps_result_ok patch source max_output (apply_bps patch source max_output).
Proof. by apply apply_bps_bounds. Qed.

Lemma apply_bps_safe_witness :
  bps_result_ok [0x42; 0x50; 0x53; 0x31] [] 100 (apply_bps [0x42; 0x50; 0x53; 0x31] [] 100) /\
  bps_error (apply_bps [0x42; 0x50; 0x53; 0x31] [] 100) = "the BPS payload is truncated"%string.
Proof.
  split; [|by_evaluation]. apply apply_bps_safe; [repeat constructor; done|constructor].
Defined.
