(* ===== verification/M68kInstruction.v ===== *)
(** The MC68000 instruction representation of
    [libs/cpu/m68k/include/segarecomp/cpu/m68k/instruction.hpp], the provenance
    types of [libs/core] it uses, the legal effective-address masks, and the
    effective-address predicates of [libs/cpu/m68k/src/effective_address.cpp]. *)

From S2P Require Import Prelude.

(** * Provenance ([core/address.hpp], [core/provenance.hpp]) *)

Inductive CpuVariant : Type := CV_mc68000 | CV_z80.
Inductive TargetAddressSpace : Type := TAS_m68k_program.

#[export] Instance cpu_variant_eq_dec : EqDecision CpuVariant.
Proof. solve_decision. Defined.
#[export] Instance address_space_eq_dec : EqDecision TargetAddressSpace.
Proof. solve_decision. Defined.

Record M68kProgramAddress := mkAddress { pa_space : TargetAddressSpace; pa_value : Z }.

Record DecodeSource := mkSource {
  ds_cpu_variant : CpuVariant;
  ds_address : M68kProgramAddress;
  ds_image_offset : Z;
}.

(** [ByteLength] is its value. *)
Record InstructionProvenance := mkProvenance {
  ip_source : DecodeSource;
  ip_bytes : Z * Z;
  ip_length : Z;
}.

Definition default_source : DecodeSource := mkSource CV_mc68000 (mkAddress TAS_m68k_program 0) 0.
Definition default_provenance : InstructionProvenance := mkProvenance default_source (0, 0) 2.

(** * Registers and effective addresses *)

Inductive DataRegister : Type := D0 | D1 | D2 | D3 | D4 | D5 | D6 | D7.

#[export] Instance data_register_eq_dec : EqDecision DataRegister.
Proof. solve_decision. Defined.

(** [static_cast<DataRegister>(n)] of a three-bit field. *)
Definition data_register_of (n : Z) : DataRegister := znth [D0; D1; D2; D3; D4; D5; D6; D7] n D0.

Inductive M68kDecodeProfile : Type := DP_moveq | DP_direct_flow | DP_genesis_startup | DP_general_startup.

#[export] Instance decode_profile_eq_dec : EqDecision M68kDecodeProfile.
Proof. solve_decision. Defined.

Inductive M68kEaMode : Type :=
| EA_unused
| EA_data_register | EA_address_register | EA_address_indirect | EA_address_postinc
| EA_address_predec | EA_address_disp16 | EA_absolute_word | EA_absolute_long
| EA_pc_disp16 | EA_immediate | EA_address_index8 | EA_pc_index8.

#[export] Instance ea_mode_eq_dec : EqDecision M68kEaMode.
Proof. solve_decision. Defined.

Record M68kEffectiveAddress := mkEa {
  ea_mode : M68kEaMode;
  ea_reg : Z;
  ea_displacement : Z;
  ea_absolute_address : Z;
  ea_immediate_value : Z;
  ea_extension_words : Z;
  ea_index_reg : Z;
  ea_index_is_address : bool;
  ea_index_is_long : bool;
  ea_pc_base_address : Z;
}.

(** [M68kEffectiveAddress{}] *)
Definition no_ea : M68kEffectiveAddress := mkEa EA_unused 0 0 0 0 0 0 false false 0.

(** [M68kEffectiveAddress{mode, reg, 0, 0, 0, 0}] *)
Definition register_ea (mode : M68kEaMode) (reg : Z) : M68kEffectiveAddress :=
  mkEa mode reg 0 0 0 0 0 false false 0.

(** [M68kEffectiveAddress{immediate, 0, 0, 0, value, words}] *)
Definition immediate_ea (value words : Z) : M68kEffectiveAddress :=
  mkEa EA_immediate 0 0 0 value words 0 false false 0.

(** * Legal effective-address masks *)

Definition m68k_ea_dn : Z := 1 .<< 0.
Definition m68k_ea_an : Z := 1 .<< 1.
Definition m68k_ea_an_indirect : Z := 1 .<< 2.
Definition m68k_ea_an_postinc : Z := 1 .<< 3.
Definition m68k_ea_an_predec : Z := 1 .<< 4.
Definition m68k_ea_an_disp16 : Z := 1 .<< 5.
Definition m68k_ea_absolute_word : Z := 1 .<< 6.
Definition m68k_ea_absolute_long : Z := 1 .<< 7.
Definition m68k_ea_pc_disp16 : Z := 1 .<< 8.
Definition m68k_ea_immediate : Z := 1 .<< 9.
Definition m68k_ea_index8 : Z := 1 .<< 10.
Definition m68k_ea_pc_index8 : Z := 1 .<< 11.

Definition m68k_ea_control_modes : Z :=
  m68k_ea_an_indirect .| m68k_ea_an_disp16 .| m68k_ea_absolute_word .| m68k_ea_absolute_long .| m68k_ea_pc_disp16.
Definition m68k_ea_jsr_jmp_control_modes : Z := m68k_ea_control_modes .| m68k_ea_pc_index8 .| m68k_ea_index8.
Definition m68k_ea_lea_control_modes : Z := m68k_ea_control_modes .| m68k_ea_index8 .| m68k_ea_pc_index8.
Definition m68k_ea_pea_control_modes : Z := m68k_ea_control_modes .| m68k_ea_index8 .| m68k_ea_pc_index8.
Definition m68k_ea_data_alterable : Z :=
  m68k_ea_dn .| m68k_ea_an_indirect .| m68k_ea_an_postinc .| m68k_ea_an_predec .| m68k_ea_an_disp16 .|
  m68k_ea_absolute_word .| m68k_ea_absolute_long.
Definition m68k_ea_move_family_source : Z :=
  m68k_ea_dn .| m68k_ea_an .| m68k_ea_an_indirect .| m68k_ea_an_postinc .| m68k_ea_an_predec .| m68k_ea_an_disp16 .|
  m68k_ea_index8 .| m68k_ea_absolute_word .| m68k_ea_absolute_long .| m68k_ea_pc_disp16 .| m68k_ea_pc_index8 .|
  m68k_ea_immediate.
Definition m68k_ea_data_alterable_with_index : Z :=
  m68k_ea_dn .| m68k_ea_an_indirect .| m68k_ea_an_postinc .| m68k_ea_an_predec .| m68k_ea_an_disp16 .| m68k_ea_index8 .|
  m68k_ea_absolute_word .| m68k_ea_absolute_long.
Definition m68k_ea_move_family_destination : Z := m68k_ea_data_alterable_with_index.
Definition m68k_ea_clr_not_operand : Z := m68k_ea_data_alterable_with_index.
Definition m68k_ea_negate_operand : Z := m68k_ea_data_alterable_with_index.
Definition m68k_ea_scc_tas_operand : Z := m68k_ea_data_alterable_with_index.
Definition m68k_ea_add_sub_cmp_source : Z := m68k_ea_move_family_source.
Definition m68k_ea_reverse_arithmetic_destination : Z := m68k_ea_data_alterable_with_index .& Z.lnot m68k_ea_dn.
Definition m68k_ea_and_or_source : Z := m68k_ea_move_family_source .& Z.lnot m68k_ea_an.
Definition m68k_ea_mul_div_source : Z := m68k_ea_move_family_source .& Z.lnot m68k_ea_an.
Definition m68k_ea_and_or_reverse_destination : Z := m68k_ea_data_alterable_with_index .& Z.lnot m68k_ea_dn.
Definition m68k_ea_eor_destination : Z := m68k_ea_data_alterable_with_index.
Definition m68k_ea_logical_immediate_destination : Z := m68k_ea_data_alterable_with_index.
Definition m68k_ea_addq_subq_destination : Z := m68k_ea_data_alterable .| m68k_ea_index8.
Definition m68k_ea_tst_operand : Z := m68k_ea_data_alterable_with_index.
Definition m68k_ea_bit_modify_destination : Z := m68k_ea_data_alterable_with_index.
Definition m68k_ea_bit_test_destination : Z :=
  m68k_ea_data_alterable_with_index .| m68k_ea_pc_disp16 .| m68k_ea_pc_index8.
Definition m68k_ea_bit_test_dynamic_destination : Z := m68k_ea_bit_test_destination .| m68k_ea_immediate.
Definition m68k_ea_shift_memory_destination : Z := m68k_ea_data_alterable_with_index .& Z.lnot m68k_ea_dn.
Definition m68k_ea_movem_register_to_memory : Z :=
  m68k_ea_an_indirect .| m68k_ea_an_disp16 .| m68k_ea_absolute_word .| m68k_ea_absolute_long .| m68k_ea_an_predec .|
  m68k_ea_index8.
Definition m68k_ea_movem_memory_to_register : Z :=
  m68k_ea_control_modes .| m68k_ea_an_postinc .| m68k_ea_index8 .| m68k_ea_pc_index8.
Definition m68k_ea_move_to_sr_source : Z := m68k_ea_move_family_source .& Z.lnot m68k_ea_an.
Definition m68k_ea_move_from_sr_destination : Z := m68k_ea_data_alterable_with_index.
Definition m68k_ea_move_to_ccr_source : Z := m68k_ea_move_to_sr_source.
Definition m68k_ea_chk_source : Z := m68k_ea_move_family_source .& Z.lnot m68k_ea_an.

(** * Instructions *)

Inductive M68kMemoryAccessWidth : Type := W_byte | W_word | W_long_word.

#[export] Instance width_eq_dec : EqDecision M68kMemoryAccessWidth.
Proof. solve_decision. Defined.

Inductive M68kInstructionKind : Type :=
| K_moveq | K_subq_l_1_d0 | K_bne_short | K_bra_short | K_rts | K_rte
| K_tst | K_cmp | K_cmpi | K_cmpa | K_add | K_adda | K_addi | K_addq | K_sub | K_suba | K_subi | K_subq
| K_logical_and | K_andi | K_logical_or | K_ori | K_eor | K_eori | K_move | K_movea | K_clr | K_lea | K_jmp | K_jsr
| K_not_operand | K_negate_word
| K_negate_extended | K_add_extended | K_subtract_extended | K_compare_memory
| K_add_decimal | K_subtract_decimal | K_negate_decimal
| K_exchange_registers | K_movep | K_set_conditional | K_test_and_set
| K_swap | K_ext_w | K_ext_l | K_pea | K_link | K_unlk
| K_btst | K_bchg | K_bclr | K_bset | K_branch | K_bsr | K_dbcc | K_movem | K_shift_rotate
| K_move_an_to_usp | K_move_usp_to_an | K_logical_immediate_to_ccr | K_logical_immediate_to_sr
| K_move_to_sr | K_nop | K_move_from_sr | K_move_to_ccr
| K_multiply_signed_word | K_multiply_unsigned_word | K_divide_signed_word | K_divide_unsigned_word
| K_trap | K_trapv | K_chk | K_rtr | K_instruction_exception | K_stop.

Definition kind_values : list M68kInstructionKind :=
  [K_moveq; K_subq_l_1_d0; K_bne_short; K_bra_short; K_rts; K_rte;
   K_tst; K_cmp; K_cmpi; K_cmpa; K_add; K_adda; K_addi; K_addq; K_sub; K_suba; K_subi; K_subq;
   K_logical_and; K_andi; K_logical_or; K_ori; K_eor; K_eori; K_move; K_movea; K_clr; K_lea; K_jmp; K_jsr;
   K_not_operand; K_negate_word;
   K_negate_extended; K_add_extended; K_subtract_extended; K_compare_memory;
   K_add_decimal; K_subtract_decimal; K_negate_decimal;
   K_exchange_registers; K_movep; K_set_conditional; K_test_and_set;
   K_swap; K_ext_w; K_ext_l; K_pea; K_link; K_unlk;
   K_btst; K_bchg; K_bclr; K_bset; K_branch; K_bsr; K_dbcc; K_movem; K_shift_rotate;
   K_move_an_to_usp; K_move_usp_to_an; K_logical_immediate_to_ccr; K_logical_immediate_to_sr;
   K_move_to_sr; K_nop; K_move_from_sr; K_move_to_ccr;
   K_multiply_signed_word; K_multiply_unsigned_word; K_divide_signed_word; K_divide_unsigned_word;
   K_trap; K_trapv; K_chk; K_rtr; K_instruction_exception; K_stop].

Definition kind_index (k : M68kInstructionKind) : Z :=
  match k with
  | K_moveq => 0 | K_subq_l_1_d0 => 1 | K_bne_short => 2 | K_bra_short => 3 | K_rts => 4 | K_rte => 5
  | K_tst => 6 | K_cmp => 7 | K_cmpi => 8 | K_cmpa => 9 | K_add => 10 | K_adda => 11 | K_addi => 12 | K_addq => 13
  | K_sub => 14 | K_suba => 15 | K_subi => 16 | K_subq => 17 | K_logical_and => 18 | K_andi => 19
  | K_logical_or => 20 | K_ori => 21 | K_eor => 22 | K_eori => 23 | K_move => 24 | K_movea => 25 | K_clr => 26
  | K_lea => 27 | K_jmp => 28 | K_jsr => 29 | K_not_operand => 30 | K_negate_word => 31
  | K_negate_extended => 32 | K_add_extended => 33 | K_subtract_extended => 34 | K_compare_memory => 35
  | K_add_decimal => 36 | K_subtract_decimal => 37 | K_negate_decimal => 38 | K_exchange_registers => 39
  | K_movep => 40 | K_set_conditional => 41 | K_test_and_set => 42 | K_swap => 43 | K_ext_w => 44 | K_ext_l => 45
  | K_pea => 46 | K_link => 47 | K_unlk => 48 | K_btst => 49 | K_bchg => 50 | K_bclr => 51 | K_bset => 52
  | K_branch => 53 | K_bsr => 54 | K_dbcc => 55 | K_movem => 56 | K_shift_rotate => 57 | K_move_an_to_usp => 58
  | K_move_usp_to_an => 59 | K_logical_immediate_to_ccr => 60 | K_logical_immediate_to_sr => 61
  | K_move_to_sr => 62 | K_nop => 63 | K_move_from_sr => 64 | K_move_to_ccr => 65 | K_multiply_signed_word => 66
  | K_multiply_unsigned_word => 67 | K_divide_signed_word => 68 | K_divide_unsigned_word => 69 | K_trap => 70
  | K_trapv => 71 | K_chk => 72 | K_rtr => 73 | K_instruction_exception => 74 | K_stop => 75
  end.

#[export] Instance kind_enum : Enum M68kInstructionKind.
Proof. refine {| enum_index := kind_index; enum_values := kind_values |}. by intros []. Defined.

(** A memory destination's read value that nothing consumes. *)
Definition m68k_destination_read_value_discarded (kind : M68kInstructionKind) : bool :=
  match kind with K_clr | K_set_conditional | K_move_from_sr => true | _ => false end.

Inductive M68kMovemDirection : Type := MD_registers_to_memory | MD_memory_to_registers.
Inductive M68kShiftRotateKind : Type := SR_lsl | SR_lsr | SR_asl | SR_asr | SR_rol | SR_ror | SR_roxl | SR_roxr.
Inductive M68kStatusLogicalOperation : Type := SL_and_op | SL_or_op | SL_eor_op.
Inductive M68kCondition : Type :=
| CC_always | CC_never | CC_hi | CC_ls | CC_cc | CC_cs | CC_ne | CC_eq
| CC_vc | CC_vs | CC_pl | CC_mi | CC_ge | CC_lt | CC_gt | CC_le.

#[export] Instance movem_direction_eq_dec : EqDecision M68kMovemDirection.
Proof. solve_decision. Defined.
#[export] Instance shift_rotate_kind_eq_dec : EqDecision M68kShiftRotateKind.
Proof. solve_decision. Defined.
#[export] Instance status_operation_eq_dec : EqDecision M68kStatusLogicalOperation.
Proof. solve_decision. Defined.
#[export] Instance condition_eq_dec : EqDecision M68kCondition.
Proof. solve_decision. Defined.

Record M68kDecodedInstruction := mkInstruction {
  i_provenance : InstructionProvenance;
  i_kind : M68kInstructionKind;
  i_destination : DataRegister;
  i_operand : Z;
  i_raw_bytes : list Z;
  i_extension : Z;
  i_size : M68kMemoryAccessWidth;
  i_source_ea : M68kEffectiveAddress;
  i_destination_ea : M68kEffectiveAddress;
  i_condition : M68kCondition;
  i_movem_direction : M68kMovemDirection;
  i_movem_register_mask : Z;
  i_shift_rotate_kind : M68kShiftRotateKind;
  i_status_operation : M68kStatusLogicalOperation;
  i_exception_vector : Z;
}.

(** [M68kDecodedInstruction{}] *)
Definition default_instruction : M68kDecodedInstruction :=
  mkInstruction default_provenance K_moveq D0 0 [] 0 W_long_word no_ea no_ea CC_always MD_registers_to_memory 0
    SR_lsl SL_and_op 0.

(** Assignments to one field of a decoded instruction. *)
Definition set_condition (c : M68kCondition) (i : M68kDecodedInstruction) : M68kDecodedInstruction :=
  mkInstruction (i_provenance i) (i_kind i) (i_destination i) (i_operand i) (i_raw_bytes i) (i_extension i) (i_size i)
    (i_source_ea i) (i_destination_ea i) c (i_movem_direction i) (i_movem_register_mask i)
    (i_shift_rotate_kind i) (i_status_operation i) (i_exception_vector i).

Definition set_movem (d : M68kMovemDirection) (mask : Z) (i : M68kDecodedInstruction) : M68kDecodedInstruction :=
  mkInstruction (i_provenance i) (i_kind i) (i_destination i) (i_operand i) (i_raw_bytes i) (i_extension i) (i_size i)
    (i_source_ea i) (i_destination_ea i) (i_condition i) d mask
    (i_shift_rotate_kind i) (i_status_operation i) (i_exception_vector i).

Definition set_shift_rotate_kind (k : M68kShiftRotateKind) (i : M68kDecodedInstruction) : M68kDecodedInstruction :=
  mkInstruction (i_provenance i) (i_kind i) (i_destination i) (i_operand i) (i_raw_bytes i) (i_extension i) (i_size i)
    (i_source_ea i) (i_destination_ea i) (i_condition i) (i_movem_direction i) (i_movem_register_mask i)
    k (i_status_operation i) (i_exception_vector i).

Definition set_status_operation (o : M68kStatusLogicalOperation) (i : M68kDecodedInstruction)
    : M68kDecodedInstruction :=
  mkInstruction (i_provenance i) (i_kind i) (i_destination i) (i_operand i) (i_raw_bytes i) (i_extension i) (i_size i)
    (i_source_ea i) (i_destination_ea i) (i_condition i) (i_movem_direction i) (i_movem_register_mask i)
    (i_shift_rotate_kind i) o (i_exception_vector i).

Definition set_exception_vector (v : Z) (i : M68kDecodedInstruction) : M68kDecodedInstruction :=
  mkInstruction (i_provenance i) (i_kind i) (i_destination i) (i_operand i) (i_raw_bytes i) (i_extension i) (i_size i)
    (i_source_ea i) (i_destination_ea i) (i_condition i) (i_movem_direction i) (i_movem_register_mask i)
    (i_shift_rotate_kind i) (i_status_operation i) v.

Definition set_source_ea (ea : M68kEffectiveAddress) (i : M68kDecodedInstruction) : M68kDecodedInstruction :=
  mkInstruction (i_provenance i) (i_kind i) (i_destination i) (i_operand i) (i_raw_bytes i) (i_extension i) (i_size i)
    ea (i_destination_ea i) (i_condition i) (i_movem_direction i) (i_movem_register_mask i)
    (i_shift_rotate_kind i) (i_status_operation i) (i_exception_vector i).

Definition set_destination_ea (ea : M68kEffectiveAddress) (i : M68kDecodedInstruction) : M68kDecodedInstruction :=
  mkInstruction (i_provenance i) (i_kind i) (i_destination i) (i_operand i) (i_raw_bytes i) (i_extension i) (i_size i)
    (i_source_ea i) ea (i_condition i) (i_movem_direction i) (i_movem_register_mask i)
    (i_shift_rotate_kind i) (i_status_operation i) (i_exception_vector i).

Definition set_kind (k : M68kInstructionKind) (i : M68kDecodedInstruction) : M68kDecodedInstruction :=
  mkInstruction (i_provenance i) k (i_destination i) (i_operand i) (i_raw_bytes i) (i_extension i) (i_size i)
    (i_source_ea i) (i_destination_ea i) (i_condition i) (i_movem_direction i) (i_movem_register_mask i)
    (i_shift_rotate_kind i) (i_status_operation i) (i_exception_vector i).

Definition instruction_length (i : M68kDecodedInstruction) : Z := ip_length (i_provenance i).

(** * Effective-address mechanics ([effective_address.cpp]) *)

Definition m68k_is_statically_foldable_control_ea (ea : M68kEffectiveAddress) : bool :=
  (ea_mode ea =b EA_absolute_word) || (ea_mode ea =b EA_absolute_long) || (ea_mode ea =b EA_pc_disp16).

Definition m68k_is_supported_computed_control_ea (ea : M68kEffectiveAddress) : bool :=
  if (ea_mode ea =b EA_pc_index8) || (ea_mode ea =b EA_address_index8) then true
  else (ea_mode ea =b EA_address_indirect) && (ea_displacement ea =? 0) && (ea_extension_words ea =? 0).

Inductive DirectFlowDiagnostic : Type :=
| DF_odd_instruction_address | DF_unmapped_instruction_address | DF_truncated_instruction |
DF_illegal_instruction | DF_valid_but_unsupported_instruction | DF_unsupported_instruction_form |
DF_odd_direct_target | DF_conflicting_address_mapping | DF_invalid_address_mapping | DF_unmapped_direct_target
| DF_mid_instruction_direct_target | DF_reached_unresolved_direct_edge | DF_invalid_frontend_image_source_id |
DF_frontend_image_byte_length_mismatch | DF_invalid_mapping_claim | DF_vector_fixture_id_mismatch |
DF_vector_image_sha256_mismatch | DF_vector_cpu_variant_mismatch | DF_vector_execution_entry_space_mismatch |
DF_execution_entry_inside_discovered_instruction | DF_execution_entry_inside_discovered_block |
DF_execution_entry_not_discovered_block_start | DF_vector_block_instruction_count_mismatch |
DF_effective_address_not_24bit | DF_odd_effective_address | DF_rom_write_prohibited | DF_unmapped_data_access
| DF_unsupported_device_region_controller_io | DF_invalid_stack_alignment | DF_invalid_stack_range |
DF_return_context_missing | DF_return_target_mismatch | DF_startup_graph_mismatch |
DF_discovery_budget_exhausted | DF_authoritative_exact_target_closure_exhausted.

Definition m68k_startup_absolute_operand_alignment (address : Z) (width : M68kMemoryAccessWidth)
    : option DirectFlowDiagnostic :=
  if negb (address .& 0xFF000000 =? 0) then Some DF_effective_address_not_24bit
  else if negb (width =b W_byte) && negb (address .& 1 =? 0) then Some DF_odd_effective_address
  else None.

Definition m68k_canonical_ea_address (ea : M68kEffectiveAddress) : Z :=
  if ea_mode ea =b EA_absolute_word then ea_absolute_address ea .& 0x00FFFFFF else ea_absolute_address ea.

Definition m68k_data_access_ea_address (ea : M68kEffectiveAddress) : Z :=
  if (ea_mode ea =b EA_absolute_long) && (ea_absolute_address ea .& 0xFF800000 =? 0xFF800000)
  then ea_absolute_address ea .& 0x00FFFFFF
  else m68k_canonical_ea_address ea.
