(* ===== verification/M68kLegality.v ===== *)
(** The MC68000 primary-word legality partition of
    [libs/cpu/m68k/src/legality.cpp]: one function per opcode line over the
    effective-address categories, and the exception vectors of the reserved
    words. *)

From S2P Require Import Prelude.

(** * Effective-address field categories *)

Definition ea_valid (mode reg : Z) : bool := (mode <? 7) || (reg <=? 4).
Definition ea_data (mode reg : Z) : bool := negb (mode =? 1) && ea_valid mode reg.
Definition ea_alterable (mode reg : Z) : bool := (mode <? 7) || (reg <=? 1).
Definition ea_data_alterable (mode reg : Z) : bool := negb (mode =? 1) && ea_alterable mode reg.
Definition ea_memory_alterable (mode reg : Z) : bool := (2 <=? mode) && ea_alterable mode reg.
Definition ea_control (mode reg : Z) : bool :=
  (mode =? 2) || (mode =? 5) || (mode =? 6) || ((mode =? 7) && (reg <=? 3)).
Definition ea_control_alterable (mode reg : Z) : bool :=
  (mode =? 2) || (mode =? 5) || (mode =? 6) || ((mode =? 7) && (reg <=? 1)).

(** * The opcode lines *)

Definition line0_legal (word mode reg : Z) : bool :=
  let size := (word .>> 6) .& 3 in
  if negb (word .& 0x0100 =? 0) then
    if mode =? 1 then true
    else if size =? 0 then ea_data mode reg else ea_data_alterable mode reg
  else
    let select := (word .>> 9) .& 7 in
    if (select =? 0) || (select =? 1) || (select =? 5) then
      if (mode =? 7) && (reg =? 4) then (size =? 0) || (size =? 1)
      else negb (size =? 3) && ea_data_alterable mode reg
    else if (select =? 2) || (select =? 3) || (select =? 6) then
      negb (size =? 3) && ea_data_alterable mode reg
    else if select =? 4 then
      if size =? 0 then ea_data mode reg && negb ((mode =? 7) && (reg =? 4))
      else ea_data_alterable mode reg
    else false.

Definition move_legal (word mode reg : Z) : bool :=
  let byte := word .>> 12 =? 1 in
  let dst_mode := (word .>> 6) .& 7 in
  let dst_reg := (word .>> 9) .& 7 in
  if negb (ea_valid mode reg) || (byte && (mode =? 1)) then false
  else if dst_mode =? 1 then negb byte
  else ea_data_alterable dst_mode dst_reg.

Definition line4_legal (word mode reg : Z) : bool :=
  let size := (word .>> 6) .& 3 in
  if negb (word .& 0x0100 =? 0) then
    if size =? 3 then ea_control mode reg
    else if size =? 2 then ea_data mode reg
    else false
  else
    let select := (word .>> 9) .& 7 in
    if select <=? 3 then
      if negb (size =? 3) then ea_data_alterable mode reg
      else if select =? 0 then ea_data_alterable mode reg
      else if select =? 1 then false
      else ea_data mode reg
    else if select =? 4 then
      if size =? 0 then ea_data_alterable mode reg
      else if size =? 1 then
        if mode =? 0 then true else ea_control mode reg
      else if mode =? 0 then true
      else (mode =? 4) || ea_control_alterable mode reg
    else if select =? 5 then
      if negb (size =? 3) then ea_data_alterable mode reg
      else if word =? 0x4AFC then true
      else ea_data_alterable mode reg
    else if select =? 6 then
      if size <? 2 then false
      else (mode =? 3) || ea_control mode reg
    else
      if size =? 0 then false
      else if size =? 1 then
        if word <=? 0x4E73 then true
        else (word =? 0x4E75) || (word =? 0x4E76) || (word =? 0x4E77)
      else ea_control mode reg.

Definition line5_legal (word mode reg : Z) : bool :=
  let size := (word .>> 6) .& 3 in
  if size =? 3 then (mode =? 1) || ea_data_alterable mode reg
  else if mode =? 1 then negb (size =? 0)
  else ea_alterable mode reg.

Definition or_and_legal (word mode reg : Z) (and_line : bool) : bool :=
  let opmode := (word .>> 6) .& 7 in
  if (opmode =? 3) || (opmode =? 7) then ea_data mode reg
  else if opmode <? 3 then ea_data mode reg
  else if mode <=? 1 then
    if opmode =? 4 then true
    else if negb and_line then false
    else if opmode =? 5 then true
    else mode =? 1
  else ea_memory_alterable mode reg.

Definition add_sub_legal (word mode reg : Z) : bool :=
  let opmode := (word .>> 6) .& 7 in
  if (opmode =? 3) || (opmode =? 7) then ea_valid mode reg
  else if opmode <? 3 then ea_valid mode reg && negb ((opmode =? 0) && (mode =? 1))
  else if mode <=? 1 then true
  else ea_memory_alterable mode reg.

Definition line_b_legal (word mode reg : Z) : bool :=
  let opmode := (word .>> 6) .& 7 in
  if (opmode =? 3) || (opmode =? 7) then ea_valid mode reg
  else if opmode <? 3 then ea_valid mode reg && negb ((opmode =? 0) && (mode =? 1))
  else if mode =? 1 then true
  else ea_data_alterable mode reg.

Definition line_e_legal (word mode reg : Z) : bool :=
  if negb ((word .>> 6) .& 3 =? 3) then true
  else if negb (word .& 0x0800 =? 0) then false
  else ea_memory_alterable mode reg.

(** * The partition *)

Inductive M68kPrimaryWordClass : Type := PW_legal | PW_line_a_emulator | PW_line_f_emulator | PW_illegal.

#[export] Instance primary_word_class_eq_dec : EqDecision M68kPrimaryWordClass.
Proof. solve_decision. Defined.

Definition m68k_classify_primary_word (word : Z) : M68kPrimaryWordClass :=
  let mode := (word .>> 3) .& 7 in
  let reg := word .& 7 in
  let class (legal : bool) := if legal then PW_legal else PW_illegal in
  let line := word .>> 12 in
  if line =? 0x0 then class (line0_legal word mode reg)
  else if (line =? 0x1) || (line =? 0x2) || (line =? 0x3) then class (move_legal word mode reg)
  else if line =? 0x4 then class (line4_legal word mode reg)
  else if line =? 0x5 then class (line5_legal word mode reg)
  else if line =? 0x6 then class true
  else if line =? 0x7 then class (word .& 0x0100 =? 0)
  else if line =? 0x8 then class (or_and_legal word mode reg false)
  else if (line =? 0x9) || (line =? 0xD) then class (add_sub_legal word mode reg)
  else if line =? 0xA then PW_line_a_emulator
  else if line =? 0xB then class (line_b_legal word mode reg)
  else if line =? 0xC then class (or_and_legal word mode reg true)
  else if line =? 0xE then class (line_e_legal word mode reg)
  else PW_line_f_emulator.

Definition m68k_primary_word_exception_vector (word_class : M68kPrimaryWordClass) : Z :=
  match word_class with
  | PW_line_a_emulator => 10
  | PW_line_f_emulator => 11
  | PW_illegal => 4
  | PW_legal => 0
  end.
