(* ===== verification/M68kDecode.v ===== *)
(** The MC68000 decoder of [libs/cpu/m68k/src/decode.cpp].

    A decode result is a decoded instruction or a rejection; a general decoder
    returns [None] when the word is not one of its own ([std::nullopt]).  The
    arguments every decoder passes on unchanged (the source, the image, the
    offset of the primary word, the bytes available there and the two primary
    bytes) are the variables of a section. *)

From S2P Require Import Prelude M68kInstruction M68kLegality.

(** * Results ([decode.hpp]) *)

Inductive DecodeOutcome : Type :=
| DO_decoded_moveq | DO_unsupported_cpu_variant | DO_unsupported_address_space | DO_odd_instruction_address
| DO_truncated_instruction | DO_illegal_instruction | DO_valid_but_unsupported_instruction.

#[export] Instance decode_outcome_eq_dec : EqDecision DecodeOutcome.
Proof. solve_decision. Defined.

Inductive M68kCpuFrontierKind : Type :=
| CF_none | CF_nop | CF_stop_immediate_word | CF_reset | CF_move_an_to_usp.

Record RejectedM68kDecode := mkRejected {
  rj_outcome : DecodeOutcome;
  rj_source : DecodeSource;
  rj_available_bytes : Z;
  rj_requested_length : Z;
  rj_instruction_length : Z;
  rj_has_instruction_length : bool;
  rj_provenance : InstructionProvenance;
  rj_has_provenance : bool;
  rj_unsupported_instruction_form : bool;
  rj_cpu_frontier : M68kCpuFrontierKind;
}.

(** [std::variant<M68kDecodedInstruction, RejectedM68kDecode>] *)
Definition M68kDecodeResult : Type := result RejectedM68kDecode M68kDecodedInstruction.

Definition primary_word (bytes : Z * Z) : Z := u16 ((bytes.1 .<< 8) .| bytes.2).

Definition classify_m68k_cpu_frontier (provenance : InstructionProvenance) : M68kCpuFrontierKind :=
  let word := primary_word (ip_bytes provenance) in
  let length := ip_length provenance in
  if (word =? 0x4E71) && (length =? 2) then CF_nop
  else if (word =? 0x4E72) && (length =? 4) then CF_stop_immediate_word
  else if (word =? 0x4E70) && (length =? 2) then CF_reset
  else if (0x4E60 <=? word) && (word <=? 0x4E67) && (length =? 2) then CF_move_an_to_usp
  else CF_none.

Definition reject (outcome : DecodeOutcome) (source : DecodeSource) (available requested : Z) (has_length : bool)
    : RejectedM68kDecode :=
  mkRejected outcome source available requested (if has_length then 2 else 0) has_length default_provenance
    false false CF_none.

(** [rejected.provenance = {source, bytes, ByteLength{2}}; rejected.has_provenance = true;] *)
Definition set_primary_provenance (source : DecodeSource) (bytes : Z * Z) (r : RejectedM68kDecode)
    : RejectedM68kDecode :=
  mkRejected (rj_outcome r) (rj_source r) (rj_available_bytes r) (rj_requested_length r) (rj_instruction_length r)
    (rj_has_instruction_length r) (mkProvenance source bytes 2) true (rj_unsupported_instruction_form r)
    (rj_cpu_frontier r).

(** [rejected.unsupported_instruction_form = b;] *)
Definition set_unsupported_form (b : bool) (r : RejectedM68kDecode) : RejectedM68kDecode :=
  mkRejected (rj_outcome r) (rj_source r) (rj_available_bytes r) (rj_requested_length r) (rj_instruction_length r)
    (rj_has_instruction_length r) (rj_provenance r) (rj_has_provenance r) b (rj_cpu_frontier r).

(** [return decoder A, or decoder B when A returned std::nullopt] *)
Notation "a 'orelse' b" := (match a with Some r => Some r | None => b end)
  (at level 62, right associativity) : word_scope.

(** * Field helpers *)

Definition mode_field (word : Z) : Z := (word .>> 3) .& 7.
Definition reg_field (word : Z) : Z := word .& 7.
Definition high_reg_field (word : Z) : Z := (word .>> 9) .& 7.
Definition opmode_field (word : Z) : Z := (word .>> 6) .& 7.
Definition size_field (word : Z) : Z := (word .>> 6) .& 3.

Definition m68k_ea_bit_for (mode : M68kEaMode) : Z :=
  match mode with
  | EA_data_register => m68k_ea_dn
  | EA_address_register => m68k_ea_an
  | EA_address_indirect => m68k_ea_an_indirect
  | EA_address_postinc => m68k_ea_an_postinc
  | EA_address_predec => m68k_ea_an_predec
  | EA_address_disp16 => m68k_ea_an_disp16
  | EA_absolute_word => m68k_ea_absolute_word
  | EA_absolute_long => m68k_ea_absolute_long
  | EA_pc_disp16 => m68k_ea_pc_disp16
  | EA_immediate => m68k_ea_immediate
  | EA_address_index8 => m68k_ea_index8
  | EA_pc_index8 => m68k_ea_pc_index8
  | EA_unused => 0
  end.

Definition m68k_size_from_tst_clr_field (ss : Z) : M68kMemoryAccessWidth :=
  if ss =? 0 then W_byte else if ss =? 1 then W_word else W_long_word.

Definition m68k_size_from_move_field (ss : Z) : option M68kMemoryAccessWidth :=
  if ss =? 1 then Some W_byte else if ss =? 3 then Some W_word else if ss =? 2 then Some W_long_word else None.

Definition m68k_condition_from_selector (selector : Z) : M68kCondition :=
  if selector =? 2 then CC_hi else if selector =? 3 then CC_ls else if selector =? 4 then CC_cc
  else if selector =? 5 then CC_cs else if selector =? 6 then CC_ne else if selector =? 7 then CC_eq
  else if selector =? 8 then CC_vc else if selector =? 9 then CC_vs else if selector =? 10 then CC_pl
  else if selector =? 11 then CC_mi else if selector =? 12 then CC_ge else if selector =? 13 then CC_lt
  else if selector =? 14 then CC_gt else CC_le.

(** The condition of DBcc and Scc, with T and F. *)
Definition full_condition (selector : Z) : M68kCondition :=
  if selector =? 0 then CC_always else if selector =? 1 then CC_never else m68k_condition_from_selector selector.

(** * One effective-address field *)

Inductive M68kEaParseStatus : Type := EP_ok | EP_illegal_mode | EP_not_permitted | EP_truncated.

#[export] Instance ea_parse_status_eq_dec : EqDecision M68kEaParseStatus.
Proof. solve_decision. Defined.

Record M68kEaParseResult := mkEaParse {
  ep_status : M68kEaParseStatus;
  ep_ea : M68kEffectiveAddress;
  ep_extension_bytes : Z;
}.

(** The mode and register a six-bit field names; [None] for a reserved field. *)
Definition ea_field_mode (mode3 reg3 : Z) : option (M68kEaMode * Z) :=
  if mode3 =? 0 then Some (EA_data_register, reg3)
  else if mode3 =? 1 then Some (EA_address_register, reg3)
  else if mode3 =? 2 then Some (EA_address_indirect, reg3)
  else if mode3 =? 3 then Some (EA_address_postinc, reg3)
  else if mode3 =? 4 then Some (EA_address_predec, reg3)
  else if mode3 =? 5 then Some (EA_address_disp16, reg3)
  else if mode3 =? 6 then Some (EA_address_index8, reg3)
  else if mode3 =? 7 then
    if reg3 =? 0 then Some (EA_absolute_word, 0)
    else if reg3 =? 1 then Some (EA_absolute_long, 0)
    else if reg3 =? 2 then Some (EA_pc_disp16, 0)
    else if reg3 =? 3 then Some (EA_pc_index8, 0)
    else if reg3 =? 4 then Some (EA_immediate, 0)
    else None
  else None.

Definition ea_extension_bytes (mode : M68kEaMode) (size : M68kMemoryAccessWidth) : Z :=
  match mode with
  | EA_address_disp16 | EA_pc_disp16 | EA_address_index8 | EA_pc_index8 | EA_absolute_word => 2
  | EA_absolute_long => 4
  | EA_immediate => if size =b W_long_word then 4 else 2
  | _ => 0
  end.

Section DECODERS.
Context (source : DecodeSource) (image : list Z) (offset available : Z) (bytes : Z * Z).

Definition read16 (at_ : Z) : Z := u16 ((znth image at_ 0 .<< 8) .| znth image (at_ + 1) 0).

(** The brief-format extension word [ext]; [pc_base] is the address of the word
    for the PC-relative form and 0 otherwise. *)
Definition brief_ea (mode : M68kEaMode) (reg words ext pc_base : Z) : M68kEaParseStatus * M68kEffectiveAddress :=
  if negb (ext .& 0x0700 =? 0) then (EP_illegal_mode, no_ea)
  else (EP_ok, mkEa mode reg (i8 (ext .& 0xFF)) 0 0 words ((ext .>> 12) .& 7)
                 (negb (ext .& 0x8000 =? 0)) (negb (ext .& 0x0800 =? 0)) pc_base).

(** The operand facts read from the extension words. *)
Definition read_ea (mode : M68kEaMode) (reg words : Z) (size : M68kMemoryAccessWidth) (ext_offset ext_word_address : Z)
    : M68kEaParseStatus * M68kEffectiveAddress :=
  match mode with
  | EA_address_disp16 => (EP_ok, mkEa mode reg (i16 (read16 ext_offset)) 0 0 words 0 false false 0)
  | EA_address_index8 => brief_ea mode reg words (read16 ext_offset) 0
  | EA_pc_disp16 =>
      let disp := i16 (read16 ext_offset) in
      (EP_ok, mkEa mode reg disp (u32 (ext_word_address + disp)) 0 words 0 false false ext_word_address)
  | EA_pc_index8 => brief_ea mode reg words (read16 ext_offset) ext_word_address
  | EA_absolute_word => (EP_ok, mkEa mode reg 0 (u32 (i16 (read16 ext_offset))) 0 words 0 false false 0)
  | EA_absolute_long =>
      (EP_ok, mkEa mode reg 0
         ((znth image ext_offset 0 .<< 24) .| (znth image (ext_offset + 1) 0 .<< 16) .|
          (znth image (ext_offset + 2) 0 .<< 8) .| znth image (ext_offset + 3) 0) 0 words 0 false false 0)
  | EA_immediate =>
      let value :=
        if size =b W_byte then znth image (ext_offset + 1) 0
        else if size =b W_word then read16 ext_offset
        else (read16 ext_offset .<< 16) .| read16 (ext_offset + 2) in
      (EP_ok, mkEa mode reg 0 0 value words 0 false false 0)
  | _ => (EP_ok, mkEa mode reg 0 0 0 words 0 false false 0)
  end.

Definition m68k_parse_ea_field (mode3 reg3 legal : Z) (size : M68kMemoryAccessWidth)
    (ext_offset ext_available ext_word_address : Z) : M68kEaParseResult :=
  match ea_field_mode mode3 reg3 with
  | None => mkEaParse EP_illegal_mode no_ea 0
  | Some (mode, reg) =>
      if legal .& m68k_ea_bit_for mode =? 0 then mkEaParse EP_not_permitted no_ea 0
      else
        let ext_bytes := ea_extension_bytes mode size in
        if ext_available <? ext_bytes then mkEaParse EP_truncated no_ea ext_bytes
        else
          let '(status, ea) := read_ea mode reg (ext_bytes / 2) size ext_offset ext_word_address in
          mkEaParse status ea ext_bytes
  end.

(** The rejection that retains the verified primary word. *)
Definition reject_word (outcome : DecodeOutcome) (requested : Z) : RejectedM68kDecode :=
  set_primary_provenance source bytes (reject outcome source available requested true).

Definition reject_form : RejectedM68kDecode :=
  set_unsupported_form true (reject_word DO_valid_but_unsupported_instruction 2).

(** One operand, [consumed_before] bytes past the primary word: the operand and
    the bytes it consumed, or the rejection to return. *)
Definition m68k_decode_one_ea (consumed_before mode3 reg3 legal : Z) (size : M68kMemoryAccessWidth)
    : result RejectedM68kDecode (M68kEffectiveAddress * Z) :=
  let ext_offset := offset + 2 + consumed_before in
  let consumed_total_before := 2 + consumed_before in
  let ext_available := if consumed_total_before <? available then available - consumed_total_before else 0 in
  let ext_word_address := u32 (pa_value (ds_address source) + 2 + consumed_before) in
  let parsed := m68k_parse_ea_field mode3 reg3 legal size ext_offset ext_available ext_word_address in
  match ep_status parsed with
  | EP_illegal_mode | EP_not_permitted => Err reject_form
  | EP_truncated => Err (reject_word DO_truncated_instruction (u32 (consumed_total_before + ep_extension_bytes parsed)))
  | EP_ok => Ok (ep_ea parsed, ep_extension_bytes parsed)
  end.

Definition slice (length : Z) : list Z := take (Z.to_nat length) (drop (Z.to_nat offset) image).

Definition m68k_finish_general_decode (kind : M68kInstructionKind) (size : M68kMemoryAccessWidth)
    (source_ea destination_ea : M68kEffectiveAddress) (total_extension_bytes : Z) : M68kDecodedInstruction :=
  let total_len := u32 (2 + total_extension_bytes) in
  mkInstruction (mkProvenance source bytes total_len) kind D0 0 (slice total_len) 0 size source_ea destination_ea
    CC_always MD_registers_to_memory 0 SR_lsl SL_and_op 0.

(** * The data-movement and single-operand decoders *)

Definition m68k_decode_general_tst (word : Z) : M68kDecodeResult :=
  let size := m68k_size_from_tst_clr_field (size_field word) in
  '(src, ext) ← m68k_decode_one_ea 0 (mode_field word) (reg_field word) m68k_ea_tst_operand size;
  Ok (m68k_finish_general_decode K_tst size src no_ea ext).

Definition m68k_decode_general_move (word : Z) : option M68kDecodeResult :=
  if negb (word .& 0xC000 =? 0x0000) then None
  else
    size ← m68k_size_from_move_field ((word .>> 12) .& 3);
    let dst_mode3 := opmode_field word in
    let dst_reg3 := high_reg_field word in
    Some (
      if (dst_mode3 =? 1) && negb (size =b W_byte) then
        '(src, ext) ← m68k_decode_one_ea 0 (mode_field word) (reg_field word) m68k_ea_move_family_source size;
        Ok (m68k_finish_general_decode K_movea size src (register_ea EA_address_register dst_reg3) ext)
      else
        '(src, src_ext) ← m68k_decode_one_ea 0 (mode_field word) (reg_field word) m68k_ea_move_family_source size;
        _ ← fail_if ((size =b W_byte) && (ea_mode src =b EA_address_register)) reject_form;
        '(dst, dst_ext) ← m68k_decode_one_ea src_ext dst_mode3 dst_reg3 m68k_ea_move_family_destination size;
        Ok (m68k_finish_general_decode K_move size src dst (src_ext + dst_ext))).

Definition m68k_decode_general_move_to_sr (word : Z) : option M68kDecodeResult :=
  if negb (word .& 0xFFC0 =? 0x46C0) then None
  else Some (
    '(src, ext) ← m68k_decode_one_ea 0 (mode_field word) (reg_field word) m68k_ea_move_to_sr_source W_word;
    Ok (m68k_finish_general_decode K_move_to_sr W_word src no_ea ext)).

Definition m68k_decode_general_move_from_sr (word : Z) : option M68kDecodeResult :=
  if negb (word .& 0xFFC0 =? 0x40C0) then None
  else Some (
    '(dst, ext) ← m68k_decode_one_ea 0 (mode_field word) (reg_field word) m68k_ea_move_from_sr_destination W_word;
    Ok (m68k_finish_general_decode K_move_from_sr W_word no_ea dst ext)).

Definition m68k_decode_general_move_to_ccr (word : Z) : option M68kDecodeResult :=
  if negb (word .& 0xFFC0 =? 0x44C0) then None
  else Some (
    '(src, ext) ← m68k_decode_one_ea 0 (mode_field word) (reg_field word) m68k_ea_move_to_ccr_source W_word;
    Ok (m68k_finish_general_decode K_move_to_ccr W_word src no_ea ext)).

Definition m68k_decode_general_clr (word : Z) : option M68kDecodeResult :=
  if negb (word .& 0xFF00 =? 0x4200) || (word .& 0xC0 =? 0xC0) then None
  else
    let size := m68k_size_from_tst_clr_field (size_field word) in
    Some (
      '(dst, ext) ← m68k_decode_one_ea 0 (mode_field word) (reg_field word) m68k_ea_clr_not_operand size;
      Ok (m68k_finish_general_decode K_clr size no_ea dst ext)).

Definition m68k_decode_general_not (word : Z) : option M68kDecodeResult :=
  if negb (word .& 0xFF00 =? 0x4600) || (word .& 0xC0 =? 0xC0) then None
  else
    let size := m68k_size_from_tst_clr_field (size_field word) in
    Some (
      '(dst, ext) ← m68k_decode_one_ea 0 (mode_field word) (reg_field word) m68k_ea_clr_not_operand size;
      Ok (m68k_finish_general_decode K_not_operand size no_ea dst ext)).

Definition m68k_decode_general_negate_word (word : Z) : option M68kDecodeResult :=
  if negb (word .& 0xFF00 =? 0x4400) || (word .& 0x00C0 =? 0x00C0) then None
  else
    let size := m68k_size_from_tst_clr_field (size_field word) in
    Some (
      '(dst, ext) ← m68k_decode_one_ea 0 (mode_field word) (reg_field word) m68k_ea_negate_operand size;
      Ok (m68k_finish_general_decode K_negate_word size no_ea dst ext)).

Definition m68k_decode_general_negx (word : Z) : option M68kDecodeResult :=
  if negb (word .& 0xFF00 =? 0x4000) || (word .& 0x00C0 =? 0x00C0) then None
  else
    let size := m68k_size_from_tst_clr_field (size_field word) in
    Some (
      '(dst, ext) ← m68k_decode_one_ea 0 (mode_field word) (reg_field word) m68k_ea_negate_operand size;
      Ok (m68k_finish_general_decode K_negate_extended size no_ea dst ext)).

Definition m68k_decode_general_nbcd (word : Z) : option M68kDecodeResult :=
  if negb (word .& 0xFFC0 =? 0x4800) then None
  else Some (
    '(dst, ext) ← m68k_decode_one_ea 0 (mode_field word) (reg_field word) m68k_ea_negate_operand W_byte;
    Ok (m68k_finish_general_decode K_negate_decimal W_byte no_ea dst ext)).

Definition m68k_decode_general_tas (word : Z) : option M68kDecodeResult :=
  if negb (word .& 0xFFC0 =? 0x4AC0) then None
  else Some (
    '(dst, ext) ← m68k_decode_one_ea 0 (mode_field word) (reg_field word) m68k_ea_scc_tas_operand W_byte;
    Ok (m68k_finish_general_decode K_test_and_set W_byte no_ea dst ext)).

Definition m68k_decode_general_scc (word : Z) : option M68kDecodeResult :=
  if negb (word .& 0xF0C0 =? 0x50C0) then None
  else if mode_field word =? 1 then None
  else Some (
    '(dst, ext) ← m68k_decode_one_ea 0 (mode_field word) (reg_field word) m68k_ea_scc_tas_operand W_byte;
    Ok (set_condition (full_condition ((word .>> 8) .& 0xF))
          (m68k_finish_general_decode K_set_conditional W_byte no_ea dst ext))).

(** * Register-pair decoders *)

Definition m68k_decode_general_bcd_pair (word : Z) : option M68kDecodeResult :=
  let pattern := word .& 0xF1F0 in
  if negb (pattern =? 0xC100) && negb (pattern =? 0x8100) then None
  else
    let mode := if negb (word .& 0x0008 =? 0) then EA_address_predec else EA_data_register in
    Some (Ok (m68k_finish_general_decode
      (if pattern =? 0xC100 then K_add_decimal else K_subtract_decimal) W_byte
      (register_ea mode (reg_field word)) (register_ea mode (high_reg_field word)) 0)).

Definition m68k_decode_general_exg (word : Z) : option M68kDecodeResult :=
  let pattern := word .& 0xF1F8 in
  if negb (pattern =? 0xC140) && negb (pattern =? 0xC148) && negb (pattern =? 0xC188) then None
  else
    let rx_mode := if pattern =? 0xC148 then EA_address_register else EA_data_register in
    let ry_mode := if pattern =? 0xC140 then EA_data_register else EA_address_register in
    Some (Ok (m68k_finish_general_decode K_exchange_registers W_long_word
      (register_ea rx_mode (high_reg_field word)) (register_ea ry_mode (reg_field word)) 0)).

Definition m68k_decode_general_movep (word : Z) : option M68kDecodeResult :=
  if negb (word .& 0xF138 =? 0x0108) then None
  else
    let opmode := size_field word in
    let size := if negb (opmode .& 1 =? 0) then W_long_word else W_word in
    Some (
      '(memory, ext) ← m68k_decode_one_ea 0 5 (reg_field word) m68k_ea_an_disp16 size;
      let dn := register_ea EA_data_register (high_reg_field word) in
      let to_register := opmode <? 2 in
      Ok (m68k_finish_general_decode K_movep size (if to_register then memory else dn)
            (if to_register then dn else memory) ext)).

Definition m68k_decode_general_extended_pair (word : Z) : option M68kDecodeResult :=
  if word .& 0x00C0 =? 0x00C0 then None
  else
    let size := m68k_size_from_tst_clr_field (size_field word) in
    '(kind, mode) ←
      (if (word .& 0xF130 =? 0xD100) || (word .& 0xF130 =? 0x9100) then
         Some (if word .& 0xF000 =? 0xD000 then K_add_extended else K_subtract_extended,
               if negb (word .& 0x0008 =? 0) then EA_address_predec else EA_data_register)
       else if word .& 0xF138 =? 0xB108 then Some (K_compare_memory, EA_address_postinc)
       else None);
    Some (Ok (m68k_finish_general_decode kind size (register_ea mode (reg_field word))
                (register_ea mode (high_reg_field word)) 0)).

(** * The arithmetic and logical decoders *)

(** An opmode that names an address register destination. *)
Definition address_opmode (opmode : Z) : bool := (opmode =? 3) || (opmode =? 7).

Definition arithmetic_size (opmode : Z) : M68kMemoryAccessWidth :=
  if address_opmode opmode then if opmode =? 3 then W_word else W_long_word
  else m68k_size_from_tst_clr_field opmode.

(** [#<data>,<ea>]: the immediate, then the destination after it. *)
Definition immediate_to_ea (kind : M68kInstructionKind) (legal word : Z) : M68kDecodeResult :=
  let size := m68k_size_from_tst_clr_field (size_field word) in
  '(imm, imm_ext) ← m68k_decode_one_ea 0 7 4 m68k_ea_immediate size;
  '(dst, dst_ext) ← m68k_decode_one_ea imm_ext (mode_field word) (reg_field word) legal size;
  Ok (m68k_finish_general_decode kind size imm dst (imm_ext + dst_ext)).

(** [Dn,<ea>] of the opmodes 4 to 6. *)
Definition register_to_ea (kind : M68kInstructionKind) (legal word : Z) : M68kDecodeResult :=
  let size := m68k_size_from_tst_clr_field (opmode_field word - 4) in
  let src := register_ea EA_data_register (high_reg_field word) in
  '(dst, ext) ← m68k_decode_one_ea 0 (mode_field word) (reg_field word) legal size;
  Ok (m68k_finish_general_decode kind size src dst ext).

(** ADDQ and SUBQ. *)
Definition quick_to_ea (kind : M68kInstructionKind) (word : Z) : option M68kDecodeResult :=
  let size := m68k_size_from_tst_clr_field (size_field word) in
  let mode := mode_field word in
  let data := high_reg_field word in
  if (mode =? 1) && (size =b W_byte) then None
  else
    let legal := if mode =? 1 then m68k_ea_an else m68k_ea_addq_subq_destination in
    Some (
      '(dst, ext) ← m68k_decode_one_ea 0 mode (reg_field word) legal size;
      Ok (set_source_ea (immediate_ea (if data =? 0 then 8 else data) 0)
            (m68k_finish_general_decode kind size no_ea dst ext))).

Definition m68k_decode_general_compare (word : Z) : option M68kDecodeResult :=
  let opmode := opmode_field word in
  if (word .& 0xF000 =? 0xB000) && ((opmode <=? 2) || (opmode =? 3) || (opmode =? 7)) then
    let address_compare := address_opmode opmode in
    let size := arithmetic_size opmode in
    Some (
      '(src, ext) ← m68k_decode_one_ea 0 (mode_field word) (reg_field word) m68k_ea_add_sub_cmp_source size;
      _ ← fail_if (negb address_compare && (size =b W_byte) && (ea_mode src =b EA_address_register)) reject_form;
      let dst := register_ea (if address_compare then EA_address_register else EA_data_register) (high_reg_field word) in
      Ok (m68k_finish_general_decode (if address_compare then K_cmpa else K_cmp) size src dst ext))
  else if negb (word .& 0xFF00 =? 0x0C00) || (word .& 0xC0 =? 0xC0) then None
  else Some (immediate_to_ea K_cmpi m68k_ea_data_alterable_with_index word).

Definition m68k_decode_general_subtract (word : Z) : option M68kDecodeResult :=
  let opmode := opmode_field word in
  if (word .& 0xF000 =? 0x9000) && ((opmode <=? 2) || (opmode =? 3) || (opmode =? 7)) then
    let address_subtract := address_opmode opmode in
    let size := arithmetic_size opmode in
    Some (
      '(src, ext) ← m68k_decode_one_ea 0 (mode_field word) (reg_field word) m68k_ea_add_sub_cmp_source size;
      _ ← fail_if (negb address_subtract && (size =b W_byte) && (ea_mode src =b EA_address_register)) reject_form;
      Ok (m68k_finish_general_decode (if address_subtract then K_suba else K_sub) size src
            (register_ea (if address_subtract then EA_address_register else EA_data_register) (high_reg_field word)) ext))
  else if (word .& 0xF000 =? 0x9000) && ((4 <=? opmode) && (opmode <=? 6)) then
    Some (register_to_ea K_sub m68k_ea_reverse_arithmetic_destination word)
  else if (word .& 0xFF00 =? 0x0400) && negb (word .& 0xC0 =? 0xC0) then
    Some (immediate_to_ea K_subi m68k_ea_data_alterable_with_index word)
  else if (word .& 0xF100 =? 0x5100) && negb (word .& 0xC0 =? 0xC0) then quick_to_ea K_subq word
  else None.

Definition m68k_decode_general_add (word : Z) : option M68kDecodeResult :=
  let opmode := opmode_field word in
  if (word .& 0xF000 =? 0xD000) && ((opmode <=? 2) || (opmode =? 3) || (opmode =? 7)) then
    let address_add := address_opmode opmode in
    let size := arithmetic_size opmode in
    let source_legal :=
      if address_add then m68k_ea_add_sub_cmp_source
      else if size =b W_byte then m68k_ea_add_sub_cmp_source .& Z.lnot m68k_ea_an
      else m68k_ea_add_sub_cmp_source in
    Some (
      '(src, ext) ← m68k_decode_one_ea 0 (mode_field word) (reg_field word) source_legal size;
      Ok (m68k_finish_general_decode (if address_add then K_adda else K_add) size src
            (register_ea (if address_add then EA_address_register else EA_data_register) (high_reg_field word)) ext))
  else if (word .& 0xF000 =? 0xD000) && ((4 <=? opmode) && (opmode <=? 6)) then
    Some (register_to_ea K_add m68k_ea_reverse_arithmetic_destination word)
  else if (word .& 0xFF00 =? 0x0600) && negb (word .& 0xC0 =? 0xC0) then
    Some (immediate_to_ea K_addi m68k_ea_data_alterable_with_index word)
  else if (word .& 0xF100 =? 0x5000) && negb (word .& 0xC0 =? 0xC0) then quick_to_ea K_addq word
  else None.

(** [ordinary_immediate] *)
Definition ordinary_immediate (primary : Z) (kind : M68kInstructionKind) (word : Z) : option M68kDecodeResult :=
  if negb (word .& 0xFF00 =? primary) || (word .& 0xC0 =? 0xC0) then None
  else Some (immediate_to_ea kind m68k_ea_logical_immediate_destination word).

(** ANDI, ORI and EORI to CCR and SR. *)
Definition status_immediate (word : Z) : option M68kDecodeResult :=
  if (word =? 0x023C) || (word =? 0x027C) || (word =? 0x003C) || (word =? 0x007C) || (word =? 0x0A3C) || (word =? 0x0A7C)
  then
    let to_sr := negb (word .& 0x0040 =? 0) in
    let size := if to_sr then W_word else W_byte in
    Some (
      '(imm, ext) ← m68k_decode_one_ea 0 7 4 m68k_ea_immediate size;
      Ok (set_status_operation
            (if word .& 0xFF00 =? 0x0200 then SL_and_op else if word .& 0xFF00 =? 0x0000 then SL_or_op else SL_eor_op)
            (m68k_finish_general_decode (if to_sr then K_logical_immediate_to_sr else K_logical_immediate_to_ccr)
               size imm no_ea ext)))
  else None.

(** [decode_register_logical] *)
Definition decode_register_logical (family : Z) (kind : M68kInstructionKind) (eor_only : bool) (word : Z)
    : option M68kDecodeResult :=
  let opmode := opmode_field word in
  if negb (word .& 0xF000 =? family) ||
     (if eor_only then (opmode <? 4) || (6 <? opmode) else (opmode =? 3) || (opmode =? 7))
  then None
  else if opmode <=? 2 then
    if eor_only then None
    else
      let size := m68k_size_from_tst_clr_field opmode in
      Some (
        '(src, ext) ← m68k_decode_one_ea 0 (mode_field word) (reg_field word) m68k_ea_and_or_source size;
        Ok (m68k_finish_general_decode kind size src (register_ea EA_data_register (high_reg_field word)) ext))
  else
    Some (register_to_ea kind
            (if eor_only then m68k_ea_eor_destination else m68k_ea_and_or_reverse_destination) word).

(** MULS, MULU, DIVS and DIVU. *)
Definition multiply_divide (primary : Z) (kind : M68kInstructionKind) (word : Z) : option M68kDecodeResult :=
  if word .& 0xF1C0 =? primary then
    Some (
      '(src, ext) ← m68k_decode_one_ea 0 (mode_field word) (reg_field word) m68k_ea_mul_div_source W_word;
      Ok (m68k_finish_general_decode kind W_word src (register_ea EA_data_register (high_reg_field word)) ext))
  else None.

Definition m68k_decode_general_logical (word : Z) : option M68kDecodeResult :=
  status_immediate word orelse
  ordinary_immediate 0x0200 K_andi word orelse
  ordinary_immediate 0x0000 K_ori word orelse
  ordinary_immediate 0x0A00 K_eori word orelse
  decode_register_logical 0xC000 K_logical_and false word orelse
  decode_register_logical 0x8000 K_logical_or false word orelse
  decode_register_logical 0xB000 K_eor true word orelse
  multiply_divide 0xC1C0 K_multiply_signed_word word orelse
  multiply_divide 0xC0C0 K_multiply_unsigned_word word orelse
  multiply_divide 0x81C0 K_divide_signed_word word orelse
  multiply_divide 0x80C0 K_divide_unsigned_word word.

(** * Register, address and stack decoders *)

Definition m68k_decode_general_swap_ext (word : Z) : option M68kDecodeResult :=
  let operand := register_ea EA_data_register (reg_field word) in
  if word .& 0xFFF8 =? 0x4840 then Some (Ok (m68k_finish_general_decode K_swap W_long_word no_ea operand 0))
  else if word .& 0xFFF8 =? 0x4880 then Some (Ok (m68k_finish_general_decode K_ext_w W_word no_ea operand 0))
  else if word .& 0xFFF8 =? 0x48C0 then Some (Ok (m68k_finish_general_decode K_ext_l W_long_word no_ea operand 0))
  else None.

Definition m68k_decode_general_pea (word : Z) : option M68kDecodeResult :=
  if negb (word .& 0xFFC0 =? 0x4840) then None
  else Some (
    '(src, ext) ← m68k_decode_one_ea 0 (mode_field word) (reg_field word) m68k_ea_pea_control_modes W_long_word;
    Ok (m68k_finish_general_decode K_pea W_long_word src no_ea ext)).

Definition m68k_decode_general_lea (word : Z) : option M68kDecodeResult :=
  if negb (word .& 0xF1C0 =? 0x41C0) then None
  else Some (
    '(src, ext) ← m68k_decode_one_ea 0 (mode_field word) (reg_field word) m68k_ea_lea_control_modes W_long_word;
    Ok (m68k_finish_general_decode K_lea W_long_word src (register_ea EA_address_register (high_reg_field word)) ext)).

Definition m68k_decode_general_jmp (word : Z) : option M68kDecodeResult :=
  if negb (word .& 0xFFC0 =? 0x4EC0) then None
  else Some (
    '(src, ext) ← m68k_decode_one_ea 0 (mode_field word) (reg_field word) m68k_ea_jsr_jmp_control_modes W_long_word;
    Ok (m68k_finish_general_decode K_jmp W_long_word src no_ea ext)).

Definition m68k_decode_general_jsr (word : Z) : option M68kDecodeResult :=
  if negb (word .& 0xFFC0 =? 0x4E80) then None
  else Some (
    '(src, ext) ← m68k_decode_one_ea 0 (mode_field word) (reg_field word) m68k_ea_jsr_jmp_control_modes W_long_word;
    Ok (m68k_finish_general_decode K_jsr W_long_word src no_ea ext)).

(** [if (available < 4U) ...; disp16 = ...;]: the one extension word of a form
    without an effective-address field. *)
Definition extension_word : result RejectedM68kDecode Z :=
  _ ← fail_if (available <? 4) (reject_word DO_truncated_instruction 4);
  Ok (read16 (offset + 2)).

Definition m68k_decode_general_link_unlk (word : Z) : option M68kDecodeResult :=
  let an := register_ea EA_address_register (reg_field word) in
  if word .& 0xFFF8 =? 0x4E58 then Some (Ok (m68k_finish_general_decode K_unlk W_long_word no_ea an 0))
  else if word .& 0xFFF8 =? 0x4E50 then Some (
    disp16 ← extension_word;
    Ok (m68k_finish_general_decode K_link W_long_word (immediate_ea disp16 1) an 2))
  else None.

(** * Bit operations *)

Definition bit_legal (kind : M68kInstructionKind) (dynamic_bit_number : bool) : Z :=
  if negb (kind =b K_btst) then m68k_ea_bit_modify_destination
  else if dynamic_bit_number then m68k_ea_bit_test_dynamic_destination
  else m68k_ea_bit_test_destination.

(** [finish] *)
Definition bit_finish (kind : M68kInstructionKind) (bit_number_ea : M68kEffectiveAddress) (consumed_before_dst word : Z)
    : M68kDecodeResult :=
  let legal := bit_legal kind (ea_mode bit_number_ea =b EA_data_register) in
  '(dst, ext) ← m68k_decode_one_ea consumed_before_dst (mode_field word) (reg_field word) legal W_byte;
  let size := if ea_mode dst =b EA_data_register then W_long_word else W_byte in
  Ok (m68k_finish_general_decode kind size bit_number_ea dst (consumed_before_dst + ext)).

Definition m68k_decode_general_bit_operation (word : Z) : option M68kDecodeResult :=
  if (word .& 0xF1C0 =? 0x0100) || (word .& 0xF1C0 =? 0x0140) || (word .& 0xF1C0 =? 0x0180) ||
     (word .& 0xF1C0 =? 0x01C0)
  then
    let opmode := opmode_field word in
    let bit_source := register_ea EA_data_register (high_reg_field word) in
    if opmode =? 4 then Some (bit_finish K_btst bit_source 0 word)
    else if opmode =? 5 then Some (bit_finish K_bchg bit_source 0 word)
    else if opmode =? 6 then Some (bit_finish K_bclr bit_source 0 word)
    else if opmode =? 7 then Some (bit_finish K_bset bit_source 0 word)
    else None
  else if word .& 0xFF00 =? 0x0800 then
    let selector := size_field word in
    Some (
      '(imm, ext) ← m68k_decode_one_ea 0 7 4 m68k_ea_immediate W_word;
      bit_finish (if selector =? 0 then K_btst else if selector =? 1 then K_bchg
                  else if selector =? 2 then K_bclr else K_bset) imm ext word)
  else None.

(** * Branches *)

Definition m68k_decode_general_branch (word : Z) : option M68kDecodeResult :=
  if negb (word .& 0xF000 =? 0x6000) then None
  else
    let selector := (word .>> 8) .& 0xF in
    if selector =? 1 then None
    else
      let condition := if selector =? 0 then CC_always else m68k_condition_from_selector selector in
      Some (
        if negb (bytes.2 =? 0) then
          Ok (set_condition condition
                (m68k_finish_general_decode K_branch W_byte (immediate_ea bytes.2 0) no_ea 0))
        else
          disp16 ← extension_word;
          Ok (set_condition condition
                (m68k_finish_general_decode K_branch W_word (immediate_ea disp16 1) no_ea 2))).

Definition m68k_decode_general_bsr (word : Z) : option M68kDecodeResult :=
  if negb (word .& 0xFF00 =? 0x6100) then None
  else Some (
    if negb (bytes.2 =? 0) then
      Ok (m68k_finish_general_decode K_bsr W_byte (immediate_ea bytes.2 0) no_ea 0)
    else
      disp16 ← extension_word;
      Ok (m68k_finish_general_decode K_bsr W_word (immediate_ea disp16 1) no_ea 2)).

Definition m68k_decode_general_dbcc (word : Z) : option M68kDecodeResult :=
  if negb (word .& 0xF0F8 =? 0x50C8) then None
  else Some (
    disp16 ← extension_word;
    Ok (set_condition (full_condition ((word .>> 8) .& 0xF))
          (m68k_finish_general_decode K_dbcc W_word (immediate_ea disp16 1)
             (register_ea EA_data_register (reg_field word)) 2))).

(** * MOVEM and shifts *)

Definition m68k_decode_general_movem (word : Z) : option M68kDecodeResult :=
  if negb (word .& 0xFB80 =? 0x4880) then None
  else
    let direction := if negb ((word .>> 10) .& 1 =? 0) then MD_memory_to_registers else MD_registers_to_memory in
    let size := if negb ((word .>> 6) .& 1 =? 0) then W_long_word else W_word in
    Some (
      register_mask ← extension_word;
      let legal := if direction =b MD_registers_to_memory then m68k_ea_movem_register_to_memory
                   else m68k_ea_movem_memory_to_register in
      '(ea, ext) ← m68k_decode_one_ea 2 (mode_field word) (reg_field word) legal size;
      Ok (set_movem direction register_mask
            (if direction =b MD_registers_to_memory
             then m68k_finish_general_decode K_movem size no_ea ea (2 + ext)
             else m68k_finish_general_decode K_movem size ea no_ea (2 + ext)))).

Definition shift_family (family : Z) (direction_left : bool) : option M68kShiftRotateKind :=
  if family =? 0 then Some (if direction_left then SR_asl else SR_asr)
  else if family =? 1 then Some (if direction_left then SR_lsl else SR_lsr)
  else if family =? 2 then Some (if direction_left then SR_roxl else SR_roxr)
  else if family =? 3 then Some (if direction_left then SR_rol else SR_ror)
  else None.

Definition m68k_decode_general_shift_rotate (word : Z) : option M68kDecodeResult :=
  if negb (word .& 0xF000 =? 0xE000) then None
  else if word .& 0x00C0 =? 0x00C0 then None
  else
    let count_or_reg := high_reg_field word in
    let register_count := negb ((word .>> 5) .& 1 =? 0) in
    kind ← shift_family ((word .>> 3) .& 3) (negb ((word .>> 8) .& 1 =? 0));
    let size := m68k_size_from_tst_clr_field (size_field word) in
    let count_ea :=
      if register_count then register_ea EA_data_register count_or_reg
      else immediate_ea (if count_or_reg =? 0 then 8 else count_or_reg) 0 in
    Some (Ok (set_shift_rotate_kind kind
      (m68k_finish_general_decode K_shift_rotate size count_ea (register_ea EA_data_register (reg_field word)) 0))).

Definition m68k_decode_general_shift_rotate_memory (word : Z) : option M68kDecodeResult :=
  if negb (word .& 0xF0C0 =? 0xE0C0) then None
  else
    kind ← shift_family (high_reg_field word) (negb ((word .>> 8) .& 1 =? 0));
    Some (
      '(dst, ext) ← m68k_decode_one_ea 0 (mode_field word) (reg_field word) m68k_ea_shift_memory_destination W_word;
      Ok (set_shift_rotate_kind kind (m68k_finish_general_decode K_shift_rotate W_word no_ea dst ext))).

(** * Selection *)

(** The instruction before its form is selected. *)
Definition primary_instruction (word : Z) : M68kDecodedInstruction :=
  mkInstruction (mkProvenance source bytes 2) K_moveq (data_register_of ((word .>> 9) .& 7)) (i8 bytes.2) [] 0
    W_long_word no_ea no_ea CC_always MD_registers_to_memory 0 SR_lsl SL_and_op 0.

(** [select] *)
Definition select (word : Z) (kind : M68kInstructionKind) (length : Z) : M68kDecodeResult :=
  _ ← fail_if (available <? length) (reject_word DO_truncated_instruction length);
  let raw := slice length in
  let extension :=
    if length =? 6 then
      (znth raw 2 0 .<< 24) .| (znth raw 3 0 .<< 16) .| (znth raw 4 0 .<< 8) .| znth raw 5 0
    else 0 in
  Ok (mkInstruction (mkProvenance source bytes length) kind (data_register_of ((word .>> 9) .& 7)) (i8 bytes.2) raw
        extension W_long_word no_ea no_ea CC_always MD_registers_to_memory 0 SR_lsl SL_and_op 0).

(** The exception-raising forms of the general profile. *)
Definition exception_forms (word : Z) : option M68kDecodeResult :=
  let word_class := m68k_classify_primary_word word in
  if (word =? 0x4AFC) || negb (word_class =b PW_legal) then Some (
    i ← select word K_instruction_exception 2;
    Ok (set_exception_vector
          (if word =? 0x4AFC then 4 else m68k_primary_word_exception_vector word_class) i))
  else if (0x4E40 <=? word) && (word <=? 0x4E4F) then Some (
    i ← select word K_trap 2;
    Ok (set_exception_vector (32 + (word .& 0xF)) i))
  else if word =? 0x4E76 then Some (
    i ← select word K_trapv 2;
    Ok (set_exception_vector 7 i))
  else if word =? 0x4E77 then Some (select word K_rtr 2)
  else if word .& 0xF1C0 =? 0x4180 then Some (
    '(src, ext) ← m68k_decode_one_ea 0 (mode_field word) (reg_field word) m68k_ea_chk_source W_word;
    Ok (set_exception_vector 6
          (m68k_finish_general_decode K_chk W_word src (register_ea EA_data_register (high_reg_field word)) ext)))
  else None.

(** RESET is a complete CPU frontier: recognised and rejected. *)
Definition reset_frontier : RejectedM68kDecode :=
  let r := reject_word DO_valid_but_unsupported_instruction 2 in
  mkRejected (rj_outcome r) (rj_source r) (rj_available_bytes r) (rj_requested_length r) 2
    (rj_has_instruction_length r) (rj_provenance r) (rj_has_provenance r) (rj_unsupported_instruction_form r)
    (classify_m68k_cpu_frontier (rj_provenance r)).

(** The exact forms of the startup profiles, TST included. *)
Definition system_forms (general : bool) (word : Z) : option M68kDecodeResult :=
  if word .& 0xFF00 =? 0x7000 then Some (select word K_moveq 2)
  else if general && (word .& 0xF100 =? 0x7000) then Some (select word K_moveq 2)
  else if word =? 0x4E75 then Some (select word K_rts 2)
  else if general && (word =? 0x4E73) then Some (select word K_rte 2)
  else if general && ((0x4E68 <=? word) && (word <=? 0x4E6F)) then Some (
    i ← select word K_move_usp_to_an 2;
    Ok (set_destination_ea (register_ea EA_address_register (word .& 7)) i))
  else if general && ((0x4E60 <=? word) && (word <=? 0x4E67)) then Some (
    i ← select word K_move_an_to_usp 2;
    Ok (set_source_ea (register_ea EA_address_register (word .& 7)) i))
  else if general && (word =? 0x4E71) then Some (select word K_nop 2)
  else if general && (word =? 0x4E72) then Some (
    '(imm, ext) ← m68k_decode_one_ea 0 7 4 m68k_ea_immediate W_word;
    Ok (m68k_finish_general_decode K_stop W_word imm no_ea ext))
  else if general && (word =? 0x4E70) then Some (Err
    (if available <? 2 then reject_word DO_truncated_instruction 2 else reset_frontier))
  else if (word .& 0xFF00 =? 0x4A00) && negb (word .& 0xC0 =? 0xC0) then Some (
    if word =? 0x4AB9 then m68k_decode_general_tst word
    else if general then m68k_decode_general_tst word
    else Err reject_form)
  else None.

(** The general decoders, in dispatch order. *)
Definition general_forms (word : Z) : option M68kDecodeResult :=
  m68k_decode_general_move word orelse
  m68k_decode_general_extended_pair word orelse
  m68k_decode_general_bcd_pair word orelse
  m68k_decode_general_exg word orelse
  m68k_decode_general_compare word orelse
  m68k_decode_general_add word orelse
  m68k_decode_general_subtract word orelse
  m68k_decode_general_logical word orelse
  m68k_decode_general_clr word orelse
  m68k_decode_general_not word orelse
  m68k_decode_general_negate_word word orelse
  m68k_decode_general_negx word orelse
  m68k_decode_general_nbcd word orelse
  m68k_decode_general_tas word orelse
  m68k_decode_general_move_to_sr word orelse
  m68k_decode_general_move_from_sr word orelse
  m68k_decode_general_move_to_ccr word orelse
  m68k_decode_general_swap_ext word orelse
  m68k_decode_general_pea word orelse
  m68k_decode_general_link_unlk word orelse
  m68k_decode_general_movep word orelse
  m68k_decode_general_bit_operation word orelse
  m68k_decode_general_branch word orelse
  m68k_decode_general_bsr word orelse
  m68k_decode_general_dbcc word orelse
  m68k_decode_general_scc word orelse
  m68k_decode_general_movem word orelse
  m68k_decode_general_shift_rotate word orelse
  m68k_decode_general_shift_rotate_memory word orelse
  m68k_decode_general_lea word orelse
  m68k_decode_general_jmp word orelse
  m68k_decode_general_jsr word.

(** The block of the startup profiles; it always returns for [genesis_startup]. *)
Definition startup_forms (general : bool) (word : Z) : option M68kDecodeResult :=
  (if general then exception_forms word else None) orelse
  system_forms general word orelse
  (if general || (word =? 0x23C0) || (word =? 0x2239) || (word =? 0x4EB9) then general_forms word else None) orelse
  (if negb general then
     Some (Err (set_unsupported_form
       ((word .& 0xFFC0 =? 0x4E80) || (word .& 0xF000 =? 0x2000) || (word .& 0xF100 =? 0x7000))
       (reject_word DO_valid_but_unsupported_instruction 2)))
   else None).

(** The forms of the MOVEQ and direct-flow profiles. *)
Definition compatibility_forms (profile : M68kDecodeProfile) (word : Z) : M68kDecodeResult :=
  let instruction := primary_instruction word in
  let direct_flow := profile =b DP_direct_flow in
  if (word .& 0xF100 =? 0x7000) && ((profile =b DP_moveq) || (i_destination instruction =b D0)) then
    Ok (set_kind K_moveq instruction)
  else if direct_flow && (word =? 0x5380) then
    Ok (mkInstruction (i_provenance instruction) K_subq_l_1_d0 D0 0 (i_raw_bytes instruction) (i_extension instruction)
          (i_size instruction) (i_source_ea instruction) (i_destination_ea instruction) (i_condition instruction)
          (i_movem_direction instruction) (i_movem_register_mask instruction) (i_shift_rotate_kind instruction)
          (i_status_operation instruction) (i_exception_vector instruction))
  else if direct_flow && (word .& 0xFF00 =? 0x6600) && negb (bytes.2 =? 0) then
    Ok (set_kind K_bne_short instruction)
  else if direct_flow && (word .& 0xFF00 =? 0x6000) && negb (bytes.2 =? 0) then
    Ok (set_kind K_bra_short instruction)
  else if direct_flow && ((word .& 0xFF00 =? 0x6600) || (word .& 0xFF00 =? 0x6000)) then
    Err (reject_word
           (if available <? 4 then DO_truncated_instruction else DO_valid_but_unsupported_instruction) 4)
  else Err (reject_word DO_valid_but_unsupported_instruction 2).

(** [decode_m68k_instruction] once the primary word has been read. *)
Definition decode_word (profile : M68kDecodeProfile) (word : Z) : M68kDecodeResult :=
  let general := profile =b DP_general_startup in
  if (word =? 0x4AFC) && negb general then Err (reject_word DO_illegal_instruction 2)
  else
    match (if (profile =b DP_genesis_startup) || general then startup_forms general word else None) with
    | Some r => r
    | None => compatibility_forms profile word
    end.

End DECODERS.

Definition available_at (image : list Z) (offset : Z) : Z :=
  if zlen image <? offset then 0 else zlen image - offset.

Definition decode_m68k_instruction (image : list Z) (source : DecodeSource) (profile : M68kDecodeProfile)
    : M68kDecodeResult :=
  let available := available_at image (ds_image_offset source) in
  if negb (ds_cpu_variant source =b CV_mc68000) then
    Err (reject DO_unsupported_cpu_variant source available 2 false)
  else if negb (pa_space (ds_address source) =b TAS_m68k_program) then
    Err (reject DO_unsupported_address_space source available 2 false)
  else if negb (pa_value (ds_address source) .& 1 =? 0) then
    Err (reject DO_odd_instruction_address source available 2 false)
  else if available <? 2 then Err (reject DO_truncated_instruction source available 2 false)
  else
    let offset := ds_image_offset source in
    let bytes := (znth image offset 0, znth image (offset + 1) 0) in
    decode_word source image offset available bytes profile (primary_word bytes).

(** * Names *)

Open Scope string_scope.
Open Scope Z_scope.

Definition m68k_instruction_kind_name (kind : M68kInstructionKind) : string :=
  match kind with
  | K_moveq => "moveq"
  | K_subq_l_1_d0 => "subq_l_1_d0"
  | K_bne_short => "bne_short"
  | K_bra_short => "bra_short"
  | K_rts => "rts"
  | K_rte => "rte"
  | K_tst => "tst"
  | K_cmp => "cmp"
  | K_cmpi => "cmpi"
  | K_cmpa => "cmpa"
  | K_add => "add"
  | K_adda => "adda"
  | K_addi => "addi"
  | K_addq => "addq"
  | K_sub => "sub"
  | K_suba => "suba"
  | K_subi => "subi"
  | K_subq => "subq"
  | K_logical_and => "and"
  | K_andi => "andi"
  | K_logical_or => "or"
  | K_ori => "ori"
  | K_eor => "eor"
  | K_eori => "eori"
  | K_move => "move"
  | K_movea => "movea"
  | K_clr => "clr"
  | K_not_operand => "not"
  | K_negate_word => "neg"
  | K_negate_extended => "negx"
  | K_add_extended => "addx"
  | K_subtract_extended => "subx"
  | K_compare_memory => "cmpm"
  | K_add_decimal => "abcd"
  | K_subtract_decimal => "sbcd"
  | K_negate_decimal => "nbcd"
  | K_exchange_registers => "exg"
  | K_movep => "movep"
  | K_set_conditional => "scc"
  | K_test_and_set => "tas"
  | K_lea => "lea"
  | K_jmp => "jmp"
  | K_jsr => "jsr"
  | K_swap => "swap"
  | K_ext_w => "ext_w"
  | K_ext_l => "ext_l"
  | K_pea => "pea"
  | K_link => "link"
  | K_unlk => "unlk"
  | K_btst => "btst"
  | K_bchg => "bchg"
  | K_bclr => "bclr"
  | K_bset => "bset"
  | K_branch => "branch"
  | K_bsr => "bsr"
  | K_dbcc => "dbcc"
  | K_movem => "movem"
  | K_shift_rotate => "shift_rotate"
  | K_move_an_to_usp => "move_an_to_usp"
  | K_move_to_sr => "move_to_sr"
  | K_move_usp_to_an => "move_usp_to_an"
  | K_logical_immediate_to_ccr => "logical_immediate_to_ccr"
  | K_logical_immediate_to_sr => "logical_immediate_to_sr"
  | K_nop => "nop"
  | K_move_from_sr => "move_from_sr"
  | K_move_to_ccr => "move_to_ccr"
  | K_multiply_signed_word => "muls"
  | K_multiply_unsigned_word => "mulu"
  | K_divide_signed_word => "divs"
  | K_divide_unsigned_word => "divu"
  | K_trap => "trap"
  | K_trapv => "trapv"
  | K_chk => "chk"
  | K_rtr => "rtr"
  | K_instruction_exception => "instruction_exception"
  | K_stop => "stop"
  end.

Definition m68k_probe_instruction_kind_name (instruction : M68kDecodedInstruction) : string :=
  let src := i_source_ea instruction in
  let dst := i_destination_ea instruction in
  let long := i_size instruction =b W_long_word in
  if (i_kind instruction =b K_jsr) && (ea_mode src =b EA_absolute_long) then "jsr_absolute_long"
  else if (i_kind instruction =b K_move) && long && (ea_mode src =b EA_data_register) && (ea_reg src =? 0) &&
          (ea_mode dst =b EA_absolute_long) then "move_l_d0_absolute_long"
  else if (i_kind instruction =b K_move) && long && (ea_mode src =b EA_absolute_long) &&
          (ea_mode dst =b EA_data_register) && (ea_reg dst =? 1) then "move_l_absolute_long_d1"
  else if (i_kind instruction =b K_tst) && long && (ea_mode src =b EA_absolute_long) then "tst_l_absolute_long"
  else m68k_instruction_kind_name (i_kind instruction).

Close Scope string_scope.
