(* ===== verification/M68kShape.v ===== *)
(** A simulation between two runs of the MC68000 decoder on the same primary
    word: the run on an arbitrary image against the run on a canonical one with
    ten bytes available.

    [related S] says that whatever the canonical run decodes, the other run
    decodes with the same shape (kind, size, operand modes and registers,
    condition, length), unless its extension words are missing or reserved. *)

From S2P Require Import Prelude M68kInstruction M68kLegality M68kDecode.

(** * Well-formed operands *)

Record ea_ok (ea : M68kEffectiveAddress) : Prop := {
  eo_reg : 0 <= ea_reg ea < 8;
  eo_displacement : -32768 <= ea_displacement ea < 32768;
  eo_absolute : is_u32 (ea_absolute_address ea);
  eo_immediate : is_u32 (ea_immediate_value ea);
  eo_words : 0 <= ea_extension_words ea <= 2;
  eo_index : 0 <= ea_index_reg ea < 8;
  eo_pc : is_u32 (ea_pc_base_address ea);
}.

Lemma register_ea_ok mode reg : 0 <= reg < 8 -> ea_ok (register_ea mode reg).
Proof. intros H. split; cbn; unfold is_u32; lia. Qed.

Lemma immediate_ea_ok value words : is_u32 value -> 0 <= words <= 2 -> ea_ok (immediate_ea value words).
Proof. intros H Hw. split; cbn; unfold is_u32; lia || done. Qed.

Lemma no_ea_ok : ea_ok no_ea.
Proof. split; cbn; unfold is_u32; lia. Qed.

Lemma land_7 x : 0 <= x .& 7 < 8.
Proof. change 7 with (2 ^ 3 - 1). rewrite land_ones_mod by lia. apply Z.mod_pos_bound. lia. Qed.

Create HintDb m68k.
#[export] Hint Resolve no_ea_ok land_7 : m68k.

(** * The relation *)

Definition same_ea (a b : M68kEffectiveAddress) : Prop :=
  ea_mode a = ea_mode b /\ ea_reg a = ea_reg b /\ ea_extension_words a = ea_extension_words b.

Lemma same_ea_refl a : same_ea a a.
Proof. done. Qed.

Lemma same_ea_sym a b : same_ea a b -> same_ea b a.
Proof. unfold same_ea. intuition. Qed.

Lemma same_ea_trans a b c : same_ea a b -> same_ea b c -> same_ea a c.
Proof. unfold same_ea. intuition congruence. Qed.

(** Two instructions that differ at most in the values of their extension words. *)
Record same_shape (a b : M68kDecodedInstruction) : Prop := {
  ss_kind : i_kind a = i_kind b;
  ss_size : i_size a = i_size b;
  ss_length : instruction_length a = instruction_length b;
  ss_destination : i_destination a = i_destination b;
  ss_operand : i_operand a = i_operand b;
  ss_source_ea : same_ea (i_source_ea a) (i_source_ea b);
  ss_destination_ea : same_ea (i_destination_ea a) (i_destination_ea b);
  ss_condition : i_condition a = i_condition b;
  ss_direction : i_movem_direction a = i_movem_direction b;
  ss_shift : i_shift_rotate_kind a = i_shift_rotate_kind b;
  ss_status : i_status_operation a = i_status_operation b;
  ss_vector : i_exception_vector a = i_exception_vector b;
  ss_count : i_kind a = K_shift_rotate -> i_source_ea a = i_source_ea b;
}.

Lemma same_shape_sym a b : same_shape a b -> same_shape b a.
Proof. intros []. split; (done || (by apply same_ea_sym) || (intros Hk; symmetry; apply ss_count0; congruence)). Qed.

Lemma same_shape_trans a b c : same_shape a b -> same_shape b c -> same_shape a c.
Proof. intros [] []. split; (congruence || (by eapply same_ea_trans) || (intros Hk; rewrite ss_count0, ss_count1; congruence)). Qed.

Section SIMULATION.
Context (csource : DecodeSource) (cimage : list Z) (coffset : Z).
Context (source : DecodeSource) (image : list Z) (offset available : Z) (bytes : Z * Z).
Context (Hsource : is_u32 (pa_value (ds_address source))).
Context (Hbytes : Forall is_u8 image) (Hoffset : 0 <= offset) (Havailable : offset + available <= zlen image).
Context (Hprimary : is_u8 bytes.1 /\ is_u8 bytes.2) (Htwo : 2 <= available).

(** What every decoded instruction says of the image. *)
Record in_span (i : M68kDecodedInstruction) : Prop := {
  is_provenance : i_provenance i = mkProvenance source bytes (instruction_length i);
  is_raw : i_raw_bytes i = slice image offset (instruction_length i);
  is_length : 2 <= instruction_length i <= 10;
  is_even : instruction_length i mod 2 = 0;
  is_available : instruction_length i <= available;
  is_source_ea : ea_ok (i_source_ea i);
  is_destination_ea : ea_ok (i_destination_ea i);
  is_mask : is_u16 (i_movem_register_mask i);
  is_vector : is_u8 (i_exception_vector i);
}.

(** The rejections that depend on the extension words: too few bytes, or a
    brief extension word with reserved bits. *)
Inductive extension_rejected (r : RejectedM68kDecode) : Prop :=
| ER_truncated :
    rj_outcome r = DO_truncated_instruction ->
    available < rj_requested_length r <= 10 -> extension_rejected r
| ER_reserved k :
    rj_outcome r = DO_valid_but_unsupported_instruction -> rj_unsupported_instruction_form r = true ->
    2 <= k -> k + 2 <= available -> k + 2 <= 10 -> k mod 2 = 0 ->
    negb (read16 image (offset + k) .& 0x0700 =? 0) = true -> extension_rejected r.

Definition related {A B} (S : A -> B -> Prop) (c : result RejectedM68kDecode A) (g : result RejectedM68kDecode B) : Prop :=
  match c with
  | Err _ => True
  | Ok a => match g with Ok b => S a b | Err r => extension_rejected r end
  end.

Definition related_opt {A B} (S : A -> B -> Prop) (c : option (result RejectedM68kDecode A))
    (g : option (result RejectedM68kDecode B)) : Prop :=
  match c, g with
  | None, None => True
  | Some c, Some g => related S c g
  | _, _ => False
  end.

Definition agree (a b : M68kDecodedInstruction) : Prop := same_shape a b /\ in_span b.

Lemma related_bind {A B A' B'} (R : A -> B -> Prop) (S : A' -> B' -> Prop) c g f h :
  related R c g -> (forall a b, R a b -> related S (f a) (h b)) -> related S (c ≫= f) (g ≫= h).
Proof using Type. destruct c as [a|], g as [b|]; cbn; auto. intros Hr _. by destruct (f a). Qed.

Lemma related_opt_orelse {A B} (S : A -> B -> Prop) c g c' g' :
  related_opt S c g -> related_opt S c' g' -> related_opt S (c orelse c') (g orelse g').
Proof using Type. by destruct c, g. Qed.

Lemma related_fail_if b (r r' : RejectedM68kDecode) : related (fun _ _ => b = false) (fail_if b r) (fail_if b r').
Proof using Type. by destruct b. Qed.

(** * Reading *)

Lemma image_byte at_ : is_u8 (znth image at_ 0).
Proof using Hbytes. by apply znth_byte. Qed.

Lemma read16_range at_ : is_u16 (read16 image at_).
Proof using Type. apply u16_range. Qed.

Lemma extension_word_sim :
  related (fun _ w => is_u16 w /\ 4 <= available) (extension_word csource cimage coffset 10 bytes)
    (extension_word source image offset available bytes).
Proof using Type.
  unfold extension_word, fail_if. change (10 <? 4) with false.
  destruct (Z.ltb_spec available 4) as [Hl|Hl]; unfold related; cbn.
  - apply ER_truncated; cbn; [done|lia].
  - split; [apply read16_range|lia].
Qed.

(** * One operand *)

(** The operand facts two runs share, [consumed] bytes past the primary word. *)
Record same_operand (consumed : Z) (a b : M68kEffectiveAddress * Z) : Prop := {
  so_ea : same_ea a.1 b.1;
  so_bytes : a.2 = b.2;
  so_ok : ea_ok b.1;
  so_range : 0 <= b.2 <= 4;
  so_even : b.2 mod 2 = 0;
  so_available : 2 + consumed + b.2 <= available;
  so_limit : 2 + consumed + b.2 <= 10;
}.

Lemma extension_bytes_cases mode size : ea_extension_bytes mode size ∈ [0; 2; 4].
Proof using Type. destruct mode, size; cbv; repeat (left || right); left. Qed.

Lemma extension_bytes_range mode size :
  0 <= ea_extension_bytes mode size <= 4 /\ ea_extension_bytes mode size mod 2 = 0 /\
  0 <= ea_extension_bytes mode size / 2 <= 2.
Proof using Type. by destruct mode, size. Qed.

Lemma be32_range a b c d :
  is_u8 a -> is_u8 b -> is_u8 c -> is_u8 d -> is_u32 ((a .<< 24) .| (b .<< 16) .| (c .<< 8) .| d).
Proof using Type. intros. rewrite be32_sum by done. unfold is_u8, is_u32 in *. lia. Qed.

Lemma words_range hi lo : is_u16 hi -> is_u16 lo -> is_u32 ((hi .<< 16) .| lo).
Proof using Type. unfold is_u16, is_u32. intros. rewrite shiftl_lor by lia. lia. Qed.

Lemma brief_ea_ok mode reg words ext pc_base : 0 <= reg < 8 -> 0 <= words <= 2 -> is_u32 pc_base ->
  ea_ok (brief_ea mode reg words ext pc_base).2.
Proof using Type.
  intros. unfold brief_ea. destruct (negb _); cbn; [apply no_ea_ok|].
  split; cbn; try done; [pose proof (i8_range (ext .& 255))|..|apply land_7]; unfold is_u32; lia.
Qed.

Lemma read_ea_ok mode reg words size ext_offset pc :
  0 <= reg < 8 -> 0 <= words <= 2 -> is_u32 pc -> ea_ok (read_ea image mode reg words size ext_offset pc).2.
Proof using Hbytes.
  intros Hr Hw Hp. assert (H0 : is_u32 0) by (unfold is_u32; lia).
  destruct mode; cbn -[brief_ea]; try (apply brief_ea_ok; done);
    (split; cbn; try done; try lia; auto with word).
  - by apply be32_range; apply image_byte.
  - destruct (size =b W_byte); [pose proof (image_byte (ext_offset + 1)); unfold is_u8, is_u32 in *; lia|].
    destruct (size =b W_word); [pose proof (read16_range ext_offset); unfold is_u16, is_u32 in *; lia|].
    apply words_range; apply read16_range.
Qed.

Lemma ea_field_mode_reg mode3 reg3 mode reg :
  ea_field_mode mode3 reg3 = Some (mode, reg) -> 0 <= reg3 < 8 -> 0 <= reg < 8.
Proof using Type.
  unfold ea_field_mode. intros H Hr. repeat (case_match; simplify_eq; try lia).
Qed.

(** The shape of an operand does not depend on the image. *)
Lemma read_ea_shape img mode reg words size ext_offset pc :
  (read_ea img mode reg words size ext_offset pc).1 = EP_ok ->
  let ea := (read_ea img mode reg words size ext_offset pc).2 in
  ea_mode ea = mode /\ ea_reg ea = reg /\ ea_extension_words ea = words.
Proof using Type.
  destruct mode; cbn -[brief_ea]; try done.
  all: unfold brief_ea; by destruct (negb _).
Qed.

(** A non-ok status of [read_ea] is a reserved brief extension word. *)
Lemma read_ea_status mode reg words size ext_offset pc :
  (read_ea image mode reg words size ext_offset pc).1 <> EP_ok ->
  (read_ea image mode reg words size ext_offset pc).1 = EP_illegal_mode /\
  ea_extension_bytes mode size = 2 /\ negb (read16 image ext_offset .& 0x0700 =? 0) = true.
Proof using Type.
  destruct mode; cbn -[brief_ea]; try done.
  all: unfold brief_ea; destruct (negb _) eqn:E; cbn; done.
Qed.

Lemma one_ea_sim consumed mode3 reg3 legal size :
  0 <= consumed <= 4 -> consumed mod 2 = 0 -> 2 + consumed <= available -> 0 <= reg3 < 8 ->
  related (same_operand consumed)
    (m68k_decode_one_ea csource cimage coffset 10 bytes consumed mode3 reg3 legal size)
    (m68k_decode_one_ea source image offset available bytes consumed mode3 reg3 legal size).
Proof using Hbytes Hsource.
  intros Hc Heven Hav Hreg. unfold m68k_decode_one_ea, m68k_parse_ea_field. cbv zeta.
  destruct (ea_field_mode mode3 reg3) as [[mode reg]|] eqn:Em; [|done].
  apply ea_field_mode_reg in Em; [|done].
  destruct (_ =? 0); [done|].
  pose proof (extension_bytes_range mode size) as (Hx & Hxe & Hw).
  remember (ea_extension_bytes mode size) as x eqn:Ex.
  rewrite (proj2 (Z.ltb_lt (2 + consumed) 10)) by lia.
  destruct (Z.ltb_spec (10 - (2 + consumed)) x) as [|H10]; [done|].
  match goal with |- context [read_ea cimage mode reg (x / 2) size ?o ?p] =>
    pose proof (read_ea_shape cimage mode reg (x / 2) size o p) as Hcs;
    destruct (read_ea cimage mode reg (x / 2) size o p) as [cstatus cea] end.
  cbn [ep_status fst snd ep_ea ep_extension_bytes] in *.
  destruct cstatus; try done. specialize (Hcs eq_refl). cbn [related].
  replace (if 2 + consumed <? available then available - (2 + consumed) else 0) with (available - (2 + consumed))
    by (destruct (Z.ltb_spec (2 + consumed) available); lia).
  destruct (Z.ltb_spec (available - (2 + consumed)) x) as [Ht|Ht].
  { cbn. apply ER_truncated; cbn; [done|]. rewrite u32_id by (unfold is_u32; lia). lia. }
  match goal with |- context [read_ea image mode reg (x / 2) size ?o ?p] =>
    pose proof (read_ea_shape image mode reg (x / 2) size o p) as Hgs;
    pose proof (read_ea_status mode reg (x / 2) size o p) as Hst;
    pose proof (read_ea_ok mode reg (x / 2) size o p Em Hw ltac:(apply u32_range)) as Hok;
    destruct (read_ea image mode reg (x / 2) size o p) as [status ea] end.
  cbn [ep_status fst snd ep_ea ep_extension_bytes] in *.
  destruct (decide (status = EP_ok)) as [->|Hne].
  - specialize (Hgs eq_refl). cbn [related]. split; cbn [fst snd]; try (done || lia).
    unfold same_ea. destruct Hcs as (-> & -> & ->), Hgs as (-> & -> & ->). done.
  - destruct (Hst Hne) as (-> & Hx2 & Hres). cbn [related].
    rewrite <- Ex in Hx2. assert (Hm : (2 + consumed) mod 2 = 0).
    { rewrite <- Z.add_mod_idemp_r, Heven by lia. done. }
    apply (ER_reserved _ (2 + consumed)); try (done || lia).
    by rewrite Z.add_assoc.
Qed.

(** * Finished instructions *)

Lemma finish_sim kind size csrc gsrc cdst gdst ext :
  same_ea csrc gsrc -> same_ea cdst gdst -> ea_ok gsrc -> ea_ok gdst ->
  0 <= ext <= 8 -> ext mod 2 = 0 -> 2 + ext <= available -> (kind = K_shift_rotate -> csrc = gsrc) ->
  agree (m68k_finish_general_decode csource cimage coffset bytes kind size csrc cdst ext)
    (m68k_finish_general_decode source image offset bytes kind size gsrc gdst ext).
Proof using Type.
  intros Hs Hd Hso Hdo Hext Hev Hav Hcount. unfold m68k_finish_general_decode.
  rewrite u32_id by (unfold is_u32; lia). split; split; cbn; unfold instruction_length; cbn; try (done || lia).
  rewrite <- Z.add_mod_idemp_r, Hev by lia. done.
Qed.

Lemma select_sim word kind :
  related agree (select csource cimage coffset 10 bytes word kind 2)
    (select source image offset available bytes word kind 2).
Proof using Htwo.
  unfold select, fail_if. change (10 <? 2) with false. rewrite (proj2 (Z.ltb_ge available 2)) by lia.
  unfold related; cbn. split; split; cbn; unfold instruction_length; cbn; auto with m68k; try (done || lia).
Qed.

Lemma agree_set_condition c a b : agree a b -> agree (set_condition c a) (set_condition c b).
Proof using Type. by intros [[] []]. Qed.

Lemma agree_set_shift k a b : agree a b -> agree (set_shift_rotate_kind k a) (set_shift_rotate_kind k b).
Proof using Type. by intros [[] []]. Qed.

Lemma agree_set_status o a b : agree a b -> agree (set_status_operation o a) (set_status_operation o b).
Proof using Type. by intros [[] []]. Qed.

Lemma agree_set_vector v a b : is_u8 v -> agree a b -> agree (set_exception_vector v a) (set_exception_vector v b).
Proof using Type. by intros Hv [[] []]. Qed.

Lemma agree_set_movem d m n a b : is_u16 n -> agree a b -> agree (set_movem d m a) (set_movem d n b).
Proof using Type. by intros Hn [[] []]. Qed.

Lemma agree_set_source x y a b : same_ea x y -> ea_ok y -> (i_kind a = K_shift_rotate -> x = y) -> agree a b -> agree (set_source_ea x a) (set_source_ea y b).
Proof using Type. by intros Hs Hy Hc [[] []]. Qed.

Lemma agree_set_destination x y a b :
  same_ea x y -> ea_ok y -> agree a b -> agree (set_destination_ea x a) (set_destination_ea y b).
Proof using Type. by intros Hs Hy [[] []]. Qed.

(** * The decoders *)

Lemma reg_field_range word : 0 <= reg_field word < 8.
Proof using Type. apply land_7. Qed.

Lemma high_reg_field_range word : 0 <= high_reg_field word < 8.
Proof using Type. apply land_7. Qed.

Lemma quick_data_range word :
  is_u32 (if high_reg_field word =? 0 then 8 else high_reg_field word).
Proof using Type. pose proof (high_reg_field_range word). unfold is_u32. case_match; lia. Qed.

Lemma low_byte_u32 : is_u32 bytes.2.
Proof using Hprimary. unfold is_u8, is_u32 in *. lia. Qed.

Lemma u16_u32 x : is_u16 x -> is_u32 x.
Proof using Type. unfold is_u16, is_u32. lia. Qed.

Lemma even_sum a b : a mod 2 = 0 -> b mod 2 = 0 -> (a + b) mod 2 = 0.
Proof using Type. intros Ha Hb. rewrite Z.add_mod, Ha, Hb by lia. done. Qed.

Lemma trap_vector_range word : is_u8 (32 + (word .& 0xF)).
Proof using Type.
  change 15 with (2 ^ 4 - 1). rewrite land_ones_mod by lia.
  pose proof (Z.mod_pos_bound word (2 ^ 4)). unfold is_u8. lia.
Qed.

Lemma class_vector_range c : is_u8 (m68k_primary_word_exception_vector c).
Proof using Type. by destruct c. Qed.

#[local] Hint Resolve reg_field_range high_reg_field_range quick_data_range low_byte_u32 u16_u32 even_sum
  trap_vector_range class_vector_range no_ea_ok register_ea_ok immediate_ea_ok same_ea_refl : m68k.

Create HintDb m68k_sim.
#[local] Hint Extern 4 (_ <= _) => lia : m68k.
#[local] Hint Extern 4 (_ <= _ <= _) => lia : m68k.
#[local] Hint Extern 4 (0 mod 2 = 0) => reflexivity : m68k.

Ltac sim_side := solve [done | lia | auto with m68k | apply immediate_ea_ok; [auto with m68k|lia]].

(** Split the boolean conditions the two runs share, and pair their operands. *)
Ltac sim_step :=
  match goal with
  | |- related_opt _ None None => exact I
  | |- related_opt _ (match ?o with Some r => Some r | None => _ end) _ => apply related_opt_orelse
  | |- related_opt _ (Some _) (Some _) => unfold related_opt
  | |- related_opt _ (mbind _ ?o) _ => destruct o as [[]|] eqn:?; cbn [mbind option_bind]
  | |- related_opt _ (mbind _ ?o) _ => destruct o eqn:?; cbn [mbind option_bind]
  | |- related _ (mbind _ (m68k_decode_one_ea _ _ _ _ _ _ _ _ _ _)) _ =>
      eapply related_bind; [apply one_ea_sim; sim_side|];
      let Hse := fresh "Hse" in let E := fresh "E" in
      intros [? ?] [? ?] [Hse E ? ? ? ? ?]; cbn [fst snd] in *; subst; rewrite ?(proj1 Hse)
  | |- related _ (mbind _ (extension_word _ _ _ _ _)) _ =>
      eapply related_bind; [apply extension_word_sim|]; intros ? ? [? ?]
  | |- related _ (mbind _ (fail_if ?b _)) _ =>
      eapply related_bind; [apply (related_fail_if b)|]; intros ? ? ?
  | |- related _ (mbind _ (select _ _ _ _ _ _ _ _)) _ =>
      eapply related_bind; [apply select_sim|]; intros
  | |- related _ (select _ _ _ _ _ _ _ _) _ => apply select_sim
  | |- related _ (Ok _) (Ok _) => unfold related
  | |- related _ (Err _) _ => exact I
  | |- agree (set_condition _ _) _ => apply agree_set_condition
  | |- agree (set_shift_rotate_kind _ _) _ => apply agree_set_shift
  | |- agree (set_status_operation _ _) _ => apply agree_set_status
  | |- agree (set_movem _ _ _) _ => apply agree_set_movem; [sim_side|]
  | |- agree (set_exception_vector _ _) _ => apply agree_set_vector; [sim_side|]
  | |- agree (set_source_ea _ _) _ => apply agree_set_source; [sim_side|sim_side|intros; reflexivity || congruence|]
  | |- agree (set_destination_ea _ _) _ => apply agree_set_destination; [sim_side|sim_side|]
  | |- agree (m68k_finish_general_decode _ _ _ _ _ _ _ _ _) _ => apply finish_sim; [sim_side..|intros; reflexivity || congruence]
  | |- agree _ _ => assumption
  | |- context [if ?b then _ else _] => destruct b eqn:?
  | |- _ => solve [eauto with m68k_sim m68k]
  end.

Ltac sim := cbv zeta; repeat sim_step.

Lemma tst_sim word :
  related agree (m68k_decode_general_tst csource cimage coffset 10 bytes word)
    (m68k_decode_general_tst source image offset available bytes word).
Proof using All. unfold m68k_decode_general_tst. sim. Qed.

Lemma move_sim word :
  related_opt agree (m68k_decode_general_move csource cimage coffset 10 bytes word)
    (m68k_decode_general_move source image offset available bytes word).
Proof using All. unfold m68k_decode_general_move. sim. Qed.

#[local] Hint Resolve tst_sim move_sim : m68k_sim.

Lemma move_to_sr_sim word :
  related_opt agree (m68k_decode_general_move_to_sr csource cimage coffset 10 bytes word)
    (m68k_decode_general_move_to_sr source image offset available bytes word).
Proof using All. unfold m68k_decode_general_move_to_sr. sim. Qed.

#[local] Hint Resolve move_to_sr_sim : m68k_sim.

Lemma move_from_sr_sim word :
  related_opt agree (m68k_decode_general_move_from_sr csource cimage coffset 10 bytes word)
    (m68k_decode_general_move_from_sr source image offset available bytes word).
Proof using All. unfold m68k_decode_general_move_from_sr. sim. Qed.

#[local] Hint Resolve move_from_sr_sim : m68k_sim.

Lemma move_to_ccr_sim word :
  related_opt agree (m68k_decode_general_move_to_ccr csource cimage coffset 10 bytes word)
    (m68k_decode_general_move_to_ccr source image offset available bytes word).
Proof using All. unfold m68k_decode_general_move_to_ccr. sim. Qed.

#[local] Hint Resolve move_to_ccr_sim : m68k_sim.

Lemma clr_sim word :
  related_opt agree (m68k_decode_general_clr csource cimage coffset 10 bytes word)
    (m68k_decode_general_clr source image offset available bytes word).
Proof using All. unfold m68k_decode_general_clr. sim. Qed.

#[local] Hint Resolve clr_sim : m68k_sim.

Lemma not_sim word :
  related_opt agree (m68k_decode_general_not csource cimage coffset 10 bytes word)
    (m68k_decode_general_not source image offset available bytes word).
Proof using All. unfold m68k_decode_general_not. sim. Qed.

#[local] Hint Resolve not_sim : m68k_sim.

Lemma negate_word_sim word :
  related_opt agree (m68k_decode_general_negate_word csource cimage coffset 10 bytes word)
    (m68k_decode_general_negate_word source image offset available bytes word).
Proof using All. unfold m68k_decode_general_negate_word. sim. Qed.

#[local] Hint Resolve negate_word_sim : m68k_sim.

Lemma negx_sim word :
  related_opt agree (m68k_decode_general_negx csource cimage coffset 10 bytes word)
    (m68k_decode_general_negx source image offset available bytes word).
Proof using All. unfold m68k_decode_general_negx. sim. Qed.

#[local] Hint Resolve negx_sim : m68k_sim.

Lemma nbcd_sim word :
  related_opt agree (m68k_decode_general_nbcd csource cimage coffset 10 bytes word)
    (m68k_decode_general_nbcd source image offset available bytes word).
Proof using All. unfold m68k_decode_general_nbcd. sim. Qed.

#[local] Hint Resolve nbcd_sim : m68k_sim.

Lemma tas_sim word :
  related_opt agree (m68k_decode_general_tas csource cimage coffset 10 bytes word)
    (m68k_decode_general_tas source image offset available bytes word).
Proof using All. unfold m68k_decode_general_tas. sim. Qed.

#[local] Hint Resolve tas_sim : m68k_sim.

Lemma scc_sim word :
  related_opt agree (m68k_decode_general_scc csource cimage coffset 10 bytes word)
    (m68k_decode_general_scc source image offset available bytes word).
Proof using All. unfold m68k_decode_general_scc. sim. Qed.

#[local] Hint Resolve scc_sim : m68k_sim.

Lemma bcd_pair_sim word :
  related_opt agree (m68k_decode_general_bcd_pair csource cimage coffset bytes word)
    (m68k_decode_general_bcd_pair source image offset bytes word).
Proof using All. unfold m68k_decode_general_bcd_pair. sim. Qed.

#[local] Hint Resolve bcd_pair_sim : m68k_sim.

Lemma exg_sim word :
  related_opt agree (m68k_decode_general_exg csource cimage coffset bytes word)
    (m68k_decode_general_exg source image offset bytes word).
Proof using All. unfold m68k_decode_general_exg. sim. Qed.

#[local] Hint Resolve exg_sim : m68k_sim.

Lemma movep_sim word :
  related_opt agree (m68k_decode_general_movep csource cimage coffset 10 bytes word)
    (m68k_decode_general_movep source image offset available bytes word).
Proof using All. unfold m68k_decode_general_movep. sim. Qed.

#[local] Hint Resolve movep_sim : m68k_sim.

Lemma extended_pair_sim word :
  related_opt agree (m68k_decode_general_extended_pair csource cimage coffset bytes word)
    (m68k_decode_general_extended_pair source image offset bytes word).
Proof using All. unfold m68k_decode_general_extended_pair. sim. Qed.

#[local] Hint Resolve extended_pair_sim : m68k_sim.

#[local] Hint Extern 0 (_ <> K_shift_rotate) => (assumption || discriminate) : m68k_sim.

Lemma immediate_to_ea_sim kind legal word : kind <> K_shift_rotate ->
  related agree (immediate_to_ea csource cimage coffset 10 bytes kind legal word)
    (immediate_to_ea source image offset available bytes kind legal word).
Proof using All. intros Hkind. unfold immediate_to_ea. sim. Qed.

#[local] Hint Resolve immediate_to_ea_sim : m68k_sim.

Lemma register_to_ea_sim kind legal word :
  related agree (register_to_ea csource cimage coffset 10 bytes kind legal word)
    (register_to_ea source image offset available bytes kind legal word).
Proof using All. unfold register_to_ea. sim. Qed.

#[local] Hint Resolve register_to_ea_sim : m68k_sim.

Lemma quick_to_ea_sim kind word :
  related_opt agree (quick_to_ea csource cimage coffset 10 bytes kind word)
    (quick_to_ea source image offset available bytes kind word).
Proof using All. unfold quick_to_ea. sim. Qed.

#[local] Hint Resolve quick_to_ea_sim : m68k_sim.

Lemma compare_sim word :
  related_opt agree (m68k_decode_general_compare csource cimage coffset 10 bytes word)
    (m68k_decode_general_compare source image offset available bytes word).
Proof using All. unfold m68k_decode_general_compare. sim. Qed.

#[local] Hint Resolve compare_sim : m68k_sim.

Lemma subtract_sim word :
  related_opt agree (m68k_decode_general_subtract csource cimage coffset 10 bytes word)
    (m68k_decode_general_subtract source image offset available bytes word).
Proof using All. unfold m68k_decode_general_subtract. sim. Qed.

#[local] Hint Resolve subtract_sim : m68k_sim.

Lemma add_sim word :
  related_opt agree (m68k_decode_general_add csource cimage coffset 10 bytes word)
    (m68k_decode_general_add source image offset available bytes word).
Proof using All. unfold m68k_decode_general_add. sim. Qed.

#[local] Hint Resolve add_sim : m68k_sim.

Lemma ordinary_immediate_sim primary kind word : kind <> K_shift_rotate ->
  related_opt agree (ordinary_immediate csource cimage coffset 10 bytes primary kind word)
    (ordinary_immediate source image offset available bytes primary kind word).
Proof using All. intros Hkind. unfold ordinary_immediate. sim. Qed.

#[local] Hint Resolve ordinary_immediate_sim : m68k_sim.

Lemma status_immediate_sim word :
  related_opt agree (status_immediate csource cimage coffset 10 bytes word)
    (status_immediate source image offset available bytes word).
Proof using All. unfold status_immediate. sim. Qed.

#[local] Hint Resolve status_immediate_sim : m68k_sim.

Lemma decode_register_logical_sim family kind eor_only word : kind <> K_shift_rotate ->
  related_opt agree (decode_register_logical csource cimage coffset 10 bytes family kind eor_only word)
    (decode_register_logical source image offset available bytes family kind eor_only word).
Proof using All. intros Hkind. unfold decode_register_logical. sim. Qed.

#[local] Hint Resolve decode_register_logical_sim : m68k_sim.

Lemma multiply_divide_sim primary kind word : kind <> K_shift_rotate ->
  related_opt agree (multiply_divide csource cimage coffset 10 bytes primary kind word)
    (multiply_divide source image offset available bytes primary kind word).
Proof using All. intros Hkind. unfold multiply_divide. sim. Qed.

#[local] Hint Resolve multiply_divide_sim : m68k_sim.

Lemma logical_sim word :
  related_opt agree (m68k_decode_general_logical csource cimage coffset 10 bytes word)
    (m68k_decode_general_logical source image offset available bytes word).
Proof using All. unfold m68k_decode_general_logical. sim. Qed.

#[local] Hint Resolve logical_sim : m68k_sim.

Lemma swap_ext_sim word :
  related_opt agree (m68k_decode_general_swap_ext csource cimage coffset bytes word)
    (m68k_decode_general_swap_ext source image offset bytes word).
Proof using All. unfold m68k_decode_general_swap_ext. sim. Qed.

#[local] Hint Resolve swap_ext_sim : m68k_sim.

Lemma pea_sim word :
  related_opt agree (m68k_decode_general_pea csource cimage coffset 10 bytes word)
    (m68k_decode_general_pea source image offset available bytes word).
Proof using All. unfold m68k_decode_general_pea. sim. Qed.

#[local] Hint Resolve pea_sim : m68k_sim.

Lemma lea_sim word :
  related_opt agree (m68k_decode_general_lea csource cimage coffset 10 bytes word)
    (m68k_decode_general_lea source image offset available bytes word).
Proof using All. unfold m68k_decode_general_lea. sim. Qed.

#[local] Hint Resolve lea_sim : m68k_sim.

Lemma jmp_sim word :
  related_opt agree (m68k_decode_general_jmp csource cimage coffset 10 bytes word)
    (m68k_decode_general_jmp source image offset available bytes word).
Proof using All. unfold m68k_decode_general_jmp. sim. Qed.

#[local] Hint Resolve jmp_sim : m68k_sim.

Lemma jsr_sim word :
  related_opt agree (m68k_decode_general_jsr csource cimage coffset 10 bytes word)
    (m68k_decode_general_jsr source image offset available bytes word).
Proof using All. unfold m68k_decode_general_jsr. sim. Qed.

#[local] Hint Resolve jsr_sim : m68k_sim.

Lemma link_unlk_sim word :
  related_opt agree (m68k_decode_general_link_unlk csource cimage coffset 10 bytes word)
    (m68k_decode_general_link_unlk source image offset available bytes word).
Proof using All. unfold m68k_decode_general_link_unlk. sim. Qed.

#[local] Hint Resolve link_unlk_sim : m68k_sim.

Lemma bit_finish_sim kind x y consumed word :
  same_ea x y -> ea_ok y -> 0 <= consumed <= 4 -> consumed mod 2 = 0 -> 2 + consumed <= available -> kind <> K_shift_rotate ->
  related agree (bit_finish csource cimage coffset 10 bytes kind x consumed word)
    (bit_finish source image offset available bytes kind y consumed word).
Proof using All. intros [Hm ?] ?????. unfold bit_finish. rewrite Hm. sim. Qed.

#[local] Hint Resolve bit_finish_sim : m68k_sim.

Lemma bit_operation_sim word :
  related_opt agree (m68k_decode_general_bit_operation csource cimage coffset 10 bytes word)
    (m68k_decode_general_bit_operation source image offset available bytes word).
Proof using All. unfold m68k_decode_general_bit_operation. sim. Qed.

#[local] Hint Resolve bit_operation_sim : m68k_sim.

Lemma branch_sim word :
  related_opt agree (m68k_decode_general_branch csource cimage coffset 10 bytes word)
    (m68k_decode_general_branch source image offset available bytes word).
Proof using All. unfold m68k_decode_general_branch. sim. Qed.

#[local] Hint Resolve branch_sim : m68k_sim.

Lemma bsr_sim word :
  related_opt agree (m68k_decode_general_bsr csource cimage coffset 10 bytes word)
    (m68k_decode_general_bsr source image offset available bytes word).
Proof using All. unfold m68k_decode_general_bsr. sim. Qed.

#[local] Hint Resolve bsr_sim : m68k_sim.

Lemma dbcc_sim word :
  related_opt agree (m68k_decode_general_dbcc csource cimage coffset 10 bytes word)
    (m68k_decode_general_dbcc source image offset available bytes word).
Proof using All. unfold m68k_decode_general_dbcc. sim. Qed.

#[local] Hint Resolve dbcc_sim : m68k_sim.

Lemma movem_sim word :
  related_opt agree (m68k_decode_general_movem csource cimage coffset 10 bytes word)
    (m68k_decode_general_movem source image offset available bytes word).
Proof using All. unfold m68k_decode_general_movem. sim. Qed.

#[local] Hint Resolve movem_sim : m68k_sim.

Lemma shift_rotate_sim word :
  related_opt agree (m68k_decode_general_shift_rotate csource cimage coffset bytes word)
    (m68k_decode_general_shift_rotate source image offset bytes word).
Proof using All. unfold m68k_decode_general_shift_rotate. sim. Qed.

#[local] Hint Resolve shift_rotate_sim : m68k_sim.

Lemma shift_rotate_memory_sim word :
  related_opt agree (m68k_decode_general_shift_rotate_memory csource cimage coffset 10 bytes word)
    (m68k_decode_general_shift_rotate_memory source image offset available bytes word).
Proof using All. unfold m68k_decode_general_shift_rotate_memory. sim. Qed.

#[local] Hint Resolve shift_rotate_memory_sim : m68k_sim.

Lemma exception_forms_sim word :
  related_opt agree (exception_forms csource cimage coffset 10 bytes word)
    (exception_forms source image offset available bytes word).
Proof using All. unfold exception_forms. sim. Qed.

#[local] Hint Resolve exception_forms_sim : m68k_sim.

Lemma system_forms_sim general word :
  related_opt agree (system_forms csource cimage coffset 10 bytes general word)
    (system_forms source image offset available bytes general word).
Proof using All. unfold system_forms. sim. Qed.

#[local] Hint Resolve system_forms_sim : m68k_sim.

Lemma general_forms_sim word :
  related_opt agree (general_forms csource cimage coffset 10 bytes word)
    (general_forms source image offset available bytes word).
Proof using All. unfold general_forms. sim. Qed.

#[local] Hint Resolve general_forms_sim : m68k_sim.

Lemma startup_forms_sim word :
  related_opt agree (startup_forms csource cimage coffset 10 bytes true word)
    (startup_forms source image offset available bytes true word).
Proof using All. unfold startup_forms. sim. Qed.

(** The whole decoder, for the general profile: when the canonical run decodes
    the word, the other run decodes it with the same shape. *)
Lemma decode_word_sim word i :
  startup_forms csource cimage coffset 10 bytes true word = Some (Ok i) ->
  related agree (Ok i) (decode_word source image offset available bytes DP_general_startup word).
Proof using All.
  intros H. pose proof (startup_forms_sim word) as Hs. rewrite H in Hs.
  unfold decode_word. rewrite (bool_decide_true (DP_general_startup = _)) by done.
  rewrite andb_false_r, orb_true_r.
  by destruct (startup_forms source image offset available bytes true word).
Qed.

End SIMULATION.
