(* ===== verification/M68kDecodeSpec.v ===== *)
(** What the MC68000 decoder decodes: the opcode map, the exhaustive check of
    every primary word against it, and the properties of
    [decode_m68k_instruction] that follow for every image. *)

From S2P Require Import Prelude M68kInstruction M68kLegality M68kDecode M68kShape.

(** * The opcode map of the base MC68000

    Per opcode line, the instruction formats in order of specificity: a word
    belongs to the first format whose fixed bits it has. *)

Definition opcode_formats (line : Z) : list (Z * Z * M68kInstructionKind) :=
  if line =? 0x0 then
    [(0xFFFF, 0x003C, K_logical_immediate_to_ccr); (0xFFFF, 0x007C, K_logical_immediate_to_sr);
     (0xFFFF, 0x023C, K_logical_immediate_to_ccr); (0xFFFF, 0x027C, K_logical_immediate_to_sr);
     (0xFFFF, 0x0A3C, K_logical_immediate_to_ccr); (0xFFFF, 0x0A7C, K_logical_immediate_to_sr);
     (0xF138, 0x0108, K_movep);
     (0xF1C0, 0x0100, K_btst); (0xF1C0, 0x0140, K_bchg); (0xF1C0, 0x0180, K_bclr); (0xF1C0, 0x01C0, K_bset);
     (0xFFC0, 0x0800, K_btst); (0xFFC0, 0x0840, K_bchg); (0xFFC0, 0x0880, K_bclr); (0xFFC0, 0x08C0, K_bset);
     (0xFF00, 0x0000, K_ori); (0xFF00, 0x0200, K_andi); (0xFF00, 0x0400, K_subi); (0xFF00, 0x0600, K_addi);
     (0xFF00, 0x0A00, K_eori); (0xFF00, 0x0C00, K_cmpi)]
  else if (line =? 0x1) || (line =? 0x2) || (line =? 0x3) then
    [(0xC1C0, 0x0040, K_movea); (0xC000, 0x0000, K_move)]
  else if line =? 0x4 then
    [(0xFFFF, 0x4E71, K_nop); (0xFFFF, 0x4E72, K_stop); (0xFFFF, 0x4E73, K_rte); (0xFFFF, 0x4E75, K_rts);
     (0xFFFF, 0x4E76, K_trapv); (0xFFFF, 0x4E77, K_rtr); (0xFFF0, 0x4E40, K_trap);
     (0xFFF8, 0x4E50, K_link); (0xFFF8, 0x4E58, K_unlk); (0xFFF8, 0x4E60, K_move_an_to_usp);
     (0xFFF8, 0x4E68, K_move_usp_to_an); (0xFFF8, 0x4840, K_swap); (0xFFF8, 0x4880, K_ext_w); (0xFFF8, 0x48C0, K_ext_l);
     (0xFFC0, 0x40C0, K_move_from_sr); (0xFFC0, 0x44C0, K_move_to_ccr); (0xFFC0, 0x46C0, K_move_to_sr);
     (0xFFC0, 0x4800, K_negate_decimal); (0xFFC0, 0x4840, K_pea); (0xFFC0, 0x4AC0, K_test_and_set);
     (0xFFC0, 0x4E80, K_jsr); (0xFFC0, 0x4EC0, K_jmp); (0xFB80, 0x4880, K_movem);
     (0xF1C0, 0x41C0, K_lea); (0xF1C0, 0x4180, K_chk);
     (0xFF00, 0x4000, K_negate_extended); (0xFF00, 0x4200, K_clr); (0xFF00, 0x4400, K_negate_word);
     (0xFF00, 0x4600, K_not_operand); (0xFF00, 0x4A00, K_tst)]
  else if line =? 0x5 then
    [(0xF0F8, 0x50C8, K_dbcc); (0xF0C0, 0x50C0, K_set_conditional); (0xF100, 0x5000, K_addq); (0xF100, 0x5100, K_subq)]
  else if line =? 0x6 then [(0xFF00, 0x6100, K_bsr); (0xF000, 0x6000, K_branch)]
  else if line =? 0x7 then [(0xF100, 0x7000, K_moveq)]
  else if line =? 0x8 then
    [(0xF1F0, 0x8100, K_subtract_decimal); (0xF1C0, 0x80C0, K_divide_unsigned_word);
     (0xF1C0, 0x81C0, K_divide_signed_word); (0xF000, 0x8000, K_logical_or)]
  else if line =? 0x9 then
    [(0xF0C0, 0x90C0, K_suba); (0xF130, 0x9100, K_subtract_extended); (0xF000, 0x9000, K_sub)]
  else if line =? 0xB then
    [(0xF0C0, 0xB0C0, K_cmpa); (0xF138, 0xB108, K_compare_memory); (0xF100, 0xB100, K_eor); (0xF100, 0xB000, K_cmp)]
  else if line =? 0xC then
    [(0xF1F0, 0xC100, K_add_decimal); (0xF1F8, 0xC140, K_exchange_registers); (0xF1F8, 0xC148, K_exchange_registers);
     (0xF1F8, 0xC188, K_exchange_registers); (0xF1C0, 0xC0C0, K_multiply_unsigned_word);
     (0xF1C0, 0xC1C0, K_multiply_signed_word); (0xF000, 0xC000, K_logical_and)]
  else if line =? 0xD then
    [(0xF0C0, 0xD0C0, K_adda); (0xF130, 0xD100, K_add_extended); (0xF000, 0xD000, K_add)]
  else if line =? 0xE then [(0xF000, 0xE000, K_shift_rotate)]
  else [].

Fixpoint first_format (word : Z) (formats : list (Z * Z * M68kInstructionKind)) : option M68kInstructionKind :=
  match formats with
  | [] => None
  | (mask, value, kind) :: rest => if word .& mask =? value then Some kind else first_format word rest
  end.

(** The words that raise an exception instead of naming an instruction. *)
Definition reserved_word (word : Z) : bool :=
  (word =? 0x4AFC) || negb (m68k_classify_primary_word word =b PW_legal).

Definition reserved_vector (word : Z) : Z :=
  if word .>> 12 =? 0xA then 10 else if word .>> 12 =? 0xF then 11 else 4.

Definition opcode_kind (word : Z) : option M68kInstructionKind :=
  if reserved_word word then Some K_instruction_exception else first_format word (opcode_formats (word .>> 12)).

(** * The exhaustive check *)

Definition canonical_source : DecodeSource := mkSource CV_mc68000 (mkAddress TAS_m68k_program 0) 0.

(** The canonical run: the primary word followed by eight zero bytes. *)
Definition canonical (word : Z) : option M68kDecodeResult :=
  let hi := word .>> 8 in
  let lo := word .& 0xFF in
  startup_forms canonical_source [hi; lo; 0; 0; 0; 0; 0; 0; 0; 0] 0 10 (hi, lo) true word.

Definition is_reset_rejection (r : RejectedM68kDecode) : bool :=
  match rj_cpu_frontier r with CF_reset => rj_outcome r =b DO_valid_but_unsupported_instruction | _ => false end.

Definition word_ok (word : Z) : bool :=
  match canonical word with
  | Some (Ok i) =>
      negb (word =? 0x4E70) && (Some (i_kind i) =b opcode_kind word) &&
      (if reserved_word word then (i_exception_vector i =? reserved_vector word) && (instruction_length i =? 2) else true)
  | Some (Err r) => word =? 0x4E70
  | None => false
  end.

(** Every word with the [depth] low bits below [base]. *)
Fixpoint check_words (p : Z -> bool) (depth : nat) (base : Z) : bool :=
  match depth with
  | O => p base
  | S depth' => check_words p depth' (2 * base) && check_words p depth' (2 * base + 1)
  end.

Lemma check_words_sound p depth base :
  check_words p depth base = true ->
  forall word, base * 2 ^ Z.of_nat depth <= word < (base + 1) * 2 ^ Z.of_nat depth -> p word = true.
Proof.
  revert base. induction depth as [|depth IH]; intros base H word Hw.
  - cbn in *. by replace word with base by lia.
  - cbn [check_words] in H. apply andb_prop in H as [H0 H1].
    rewrite Nat2Z.inj_succ, Z.pow_succ_r in Hw by lia.
    destruct (Z.ltb_spec word ((2 * base + 1) * 2 ^ Z.of_nat depth)).
    + apply (IH _ H0). lia.
    + apply (IH _ H1). lia.
Qed.

(** Close an exhaustive check by lazy evaluation in the kernel. *)
Ltac by_lazy := exact_no_check (eq_refl true).

Lemma line_0_ok : check_words word_ok 12 0x0 = true. Proof. by_lazy. Qed.
Lemma line_1_ok : check_words word_ok 12 0x1 = true. Proof. by_lazy. Qed.
Lemma line_2_ok : check_words word_ok 12 0x2 = true. Proof. by_lazy. Qed.
Lemma line_3_ok : check_words word_ok 12 0x3 = true. Proof. by_lazy. Qed.
Lemma line_4_ok : check_words word_ok 12 0x4 = true. Proof. by_lazy. Qed.
Lemma line_5_ok : check_words word_ok 12 0x5 = true. Proof. by_lazy. Qed.
Lemma line_6_ok : check_words word_ok 12 0x6 = true. Proof. by_lazy. Qed.
Lemma line_7_ok : check_words word_ok 12 0x7 = true. Proof. by_lazy. Qed.
Lemma line_8_ok : check_words word_ok 12 0x8 = true. Proof. by_lazy. Qed.
Lemma line_9_ok : check_words word_ok 12 0x9 = true. Proof. by_lazy. Qed.
Lemma line_a_ok : check_words word_ok 12 0xA = true. Proof. by_lazy. Qed.
Lemma line_b_ok : check_words word_ok 12 0xB = true. Proof. by_lazy. Qed.
Lemma line_c_ok : check_words word_ok 12 0xC = true. Proof. by_lazy. Qed.
Lemma line_d_ok : check_words word_ok 12 0xD = true. Proof. by_lazy. Qed.
Lemma line_e_ok : check_words word_ok 12 0xE = true. Proof. by_lazy. Qed.
Lemma line_f_ok : check_words word_ok 12 0xF = true. Proof. by_lazy. Qed.

(** * Every word *)

Lemma lines_ok : Forall (fun line => check_words word_ok 12 line = true)
  [0x0; 0x1; 0x2; 0x3; 0x4; 0x5; 0x6; 0x7; 0x8; 0x9; 0xA; 0xB; 0xC; 0xD; 0xE; 0xF].
Proof.
  exact (Forall_cons_2 _ _ _ line_0_ok (Forall_cons_2 _ _ _ line_1_ok (Forall_cons_2 _ _ _ line_2_ok
    (Forall_cons_2 _ _ _ line_3_ok (Forall_cons_2 _ _ _ line_4_ok (Forall_cons_2 _ _ _ line_5_ok
    (Forall_cons_2 _ _ _ line_6_ok (Forall_cons_2 _ _ _ line_7_ok (Forall_cons_2 _ _ _ line_8_ok
    (Forall_cons_2 _ _ _ line_9_ok (Forall_cons_2 _ _ _ line_a_ok (Forall_cons_2 _ _ _ line_b_ok
    (Forall_cons_2 _ _ _ line_c_ok (Forall_cons_2 _ _ _ line_d_ok (Forall_cons_2 _ _ _ line_e_ok
    (Forall_cons_2 _ _ _ line_f_ok (Forall_nil_2 _))))))))))))))))).
Qed.

#[local] Opaque check_words word_ok canonical.

Lemma every_word_ok word : is_u16 word -> word_ok word = true.
Proof.
  unfold is_u16. intros Hw.
  pose proof (Z.div_mod word 4096 ltac:(lia)) as Hd. pose proof (Z.mod_pos_bound word 4096 ltac:(lia)) as Hm.
  apply (check_words_sound word_ok 12 (word / 4096)).
  - pose proof lines_ok as H. rewrite Forall_forall in H. apply H.
    assert (Hline : 0 <= word / 4096 < 16) by lia. generalize dependent (word / 4096). clear.
    intros line _ Hline. rewrite !elem_of_cons, elem_of_nil. lia.
  - change (2 ^ Z.of_nat 12) with 4096. lia.
Qed.

(** The bytes of the primary word. *)
Lemma primary_word_sum b0 b1 : is_u8 b0 -> is_u8 b1 -> primary_word (b0, b1) = 256 * b0 + b1.
Proof.
  intros H0 H1. unfold primary_word. cbn [fst snd]. rewrite be16_sum by done.
  apply u16_id. unfold is_u8, is_u16 in *. lia.
Qed.

Lemma primary_word_range bytes : is_u16 (primary_word bytes).
Proof. apply u16_range. Qed.

Lemma primary_word_bytes b0 b1 : is_u8 b0 -> is_u8 b1 ->
  primary_word (b0, b1) .>> 8 = b0 /\ primary_word (b0, b1) .& 0xFF = b1.
Proof.
  intros H0 H1. rewrite primary_word_sum by done. unfold is_u8 in *.
  rewrite Z.shiftr_div_pow2, land_ff by lia. change (2 ^ 8) with 256. unfold u8.
  pose proof (Z.div_mod (256 * b0 + b1) 256). pose proof (Z.mod_pos_bound (256 * b0 + b1) 256).
  split; lia.
Qed.

(** A decodable request: the source the decoder accepts, with a primary word in
    the image. *)
Record well_placed (image : list Z) (source : DecodeSource) : Prop := {
  wp_bytes : Forall is_u8 image;
  wp_variant : ds_cpu_variant source = CV_mc68000;
  wp_address : is_u32 (pa_value (ds_address source));
  wp_even : pa_value (ds_address source) mod 2 = 0;
  wp_offset : 0 <= ds_image_offset source;
  wp_primary : ds_image_offset source + 2 <= zlen image;
}.

Definition primary_bytes (image : list Z) (source : DecodeSource) : Z * Z :=
  (znth image (ds_image_offset source) 0, znth image (ds_image_offset source + 1) 0).

(** [decode_m68k_instruction] reads the primary word and decodes it. *)
Lemma decode_well_placed image source profile :
  well_placed image source ->
  decode_m68k_instruction image source profile =
    decode_word source image (ds_image_offset source) (zlen image - ds_image_offset source)
      (primary_bytes image source) profile (primary_word (primary_bytes image source)).
Proof.
  intros [Hb Hv Ha He Ho Hp]. unfold decode_m68k_instruction, available_at. cbv zeta.
  rewrite (bool_decide_true (ds_cpu_variant _ = _)) by done.
  rewrite (bool_decide_true (pa_space _ = _)) by (by destruct (pa_space _)).
  pose proof (land_ones_mod (pa_value (ds_address source)) 1 ltac:(lia)) as E.
  change (2 ^ 1 - 1) with 1 in E. change (2 ^ 1) with 2 in E. rewrite E, He.
  rewrite (proj2 (Z.ltb_ge (zlen image) _)) by lia.
  rewrite (proj2 (Z.ltb_ge _ 2)) by lia. done.
Qed.

(** The agreement of a run with the canonical run of its word. *)
Lemma decode_canonical image source :
  well_placed image source ->
  let word := primary_word (primary_bytes image source) in
  let offset := ds_image_offset source in
  match canonical word with
  | Some (Ok i) =>
      related image offset (zlen image - offset)
        (agree source image offset (zlen image - offset) (primary_bytes image source)) (Ok i)
        (decode_m68k_instruction image source DP_general_startup)
  | _ => True
  end.
Proof.
  intros Hwp. cbv zeta. rewrite decode_well_placed by done. destruct Hwp as [Hb Hv Ha He Ho Hp].
  unfold primary_bytes.
  pose proof (znth_byte image (ds_image_offset source) Hb) as H0.
  pose proof (znth_byte image (ds_image_offset source + 1) Hb) as H1.
  pose proof (primary_word_bytes _ _ H0 H1) as [E0 E1].
  destruct (canonical _) as [[i|r]|] eqn:Ec; try done.
  with_strategy transparent [canonical] unfold canonical in Ec. rewrite E0, E1 in Ec.
  eapply decode_word_sim; [done|done|..|exact Ec]; cbn [fst snd]; lia || done.
Qed.

(** RESET is rejected whatever follows it. *)
Lemma decode_reset image source :
  well_placed image source -> primary_word (primary_bytes image source) = 0x4E70 ->
  exists r, decode_m68k_instruction image source DP_general_startup = Err r /\ rj_cpu_frontier r = CF_reset.
Proof.
  intros Hwp E. rewrite decode_well_placed, E by done. destruct Hwp.
  set (available := zlen image - ds_image_offset source).
  assert (H : forall bytes, startup_forms source image (ds_image_offset source) available bytes true 0x4E70 =
    Some (Err (if available <? 2 then reject_word source available bytes DO_truncated_instruction 2
               else reset_frontier source available bytes))) by reflexivity.
  unfold decode_word. rewrite H. rewrite (proj2 (Z.ltb_ge available 2)) by lia.
  eexists. split; [reflexivity|]. unfold reset_frontier. cbn [rj_cpu_frontier].
  unfold classify_m68k_cpu_frontier. cbn. by rewrite E.
Qed.

(** A reserved word is selected whatever follows it. *)
Lemma reserved_decoded image source :
  well_placed image source -> reserved_word (primary_word (primary_bytes image source)) = true ->
  exists i, decode_m68k_instruction image source DP_general_startup = Ok i.
Proof.
  intros Hwp Hr. rewrite decode_well_placed by done. destruct Hwp.
  unfold decode_word, startup_forms, exception_forms. unfold reserved_word in Hr. rewrite Hr.
  rewrite (bool_decide_true (DP_general_startup = _)) by done. rewrite andb_false_r, orb_true_r.
  unfold select, fail_if. rewrite (proj2 (Z.ltb_ge (zlen image - ds_image_offset source) 2)) by lia.
  by eexists.
Qed.

(** A decoded word is decoded by the canonical run. *)
Lemma canonical_decodes image source (Hwp : well_placed image source) i :
  decode_m68k_instruction image source DP_general_startup = Ok i ->
  exists j, canonical (primary_word (primary_bytes image source)) = Some (Ok j).
Proof.
  intros Hi. pose proof (every_word_ok _ (primary_word_range (primary_bytes image source))) as Hok.
  with_strategy transparent [word_ok] unfold word_ok in Hok.
  destruct (canonical _) as [[j|r]|]; [by eexists|apply Z.eqb_eq in Hok|done].
  by destruct (decode_reset image source Hwp Hok) as (r' & E & _); rewrite E in Hi.
Qed.

(** A decoded instruction has the kind of the opcode map. *)
Lemma decoded_kind image source (Hwp : well_placed image source) i :
  decode_m68k_instruction image source DP_general_startup = Ok i ->
  opcode_kind (primary_word (primary_bytes image source)) = Some (i_kind i).
Proof.
  intros Hi. pose proof (decode_canonical image source Hwp) as C. cbv zeta in C.
  pose proof (every_word_ok _ (primary_word_range (primary_bytes image source))) as Hok.
  destruct (canonical_decodes image source Hwp i Hi) as [j Hj]. rewrite Hj, Hi in C. destruct C as [[Hk] _].
  with_strategy transparent [word_ok] unfold word_ok in Hok. rewrite Hj in Hok.
  apply andb_prop in Hok as [Hok _]. apply andb_prop in Hok as [_ Hkind].
  apply bool_decide_eq_true in Hkind. by rewrite <- Hkind, Hk.
Qed.

(** * The properties *)

(** C1. The decoder against the opcode map and the legality partition, for
    every primary word and every image: in the general profile a reserved word
    is selected as the two-byte exception of its vector; RESET, and only RESET,
    is rejected as a CPU frontier; every other word is decoded as exactly the
    instruction the opcode map names, and is rejected only when its extension
    words are missing or are brief words with reserved bits. *)
Theorem decode_exact (image : list Z) (source : DecodeSource) (Hwp : well_placed image source) :
  let word := primary_word (primary_bytes image source) in
  let available := zlen image - ds_image_offset source in
  match decode_m68k_instruction image source DP_general_startup with
  | Ok i =>
      word <> 0x4E70 /\ opcode_kind word = Some (i_kind i) /\
      (reserved_word word = true -> i_exception_vector i = reserved_vector word /\ instruction_length i = 2)
  | Err r =>
      (word = 0x4E70 /\ rj_cpu_frontier r = CF_reset) \/
      (word <> 0x4E70 /\ reserved_word word = false /\
       extension_rejected image (ds_image_offset source) available r)
  end.
Proof.
  cbv zeta. pose proof (decode_canonical image source Hwp) as Hc. cbv zeta in Hc.
  pose proof (every_word_ok _ (primary_word_range (primary_bytes image source))) as Hok.
  pose proof (decode_reset image source Hwp) as Hreset.
  pose proof (reserved_decoded image source Hwp) as Hres.
  set (word := primary_word (primary_bytes image source)) in *.
  with_strategy transparent [word_ok] unfold word_ok in Hok.
  destruct (canonical word) as [[i|r]|]; [|apply Z.eqb_eq in Hok|done].
  - apply andb_prop in Hok as [Hok Hvec]. apply andb_prop in Hok as [Hne Hkind].
    apply negb_true_iff, Z.eqb_neq in Hne. apply bool_decide_eq_true in Hkind.
    destruct (decode_m68k_instruction image source DP_general_startup) as [j|r]; unfold related in Hc.
    + destruct Hc as [[] _]. split_and!; [done|congruence|]. intros Hr. rewrite Hr in Hvec.
      apply andb_prop in Hvec as [Hv Hl]. apply Z.eqb_eq in Hv, Hl. split; congruence.
    + right. split_and!; [done| |done]. destruct (reserved_word word) eqn:Hr; [exfalso|done].
      by destruct (Hres eq_refl).
  - destruct (Hreset Hok) as (r' & -> & Hf). left. done.
Qed.

(** The primary word alone determines the shape of an instruction: wherever
    two images hold the same primary word, at any addresses and offsets, and
    both decode, the kind, size, length, operand modes and registers, condition,
    register-list direction, shift, status operation and exception vector are
    the same; only the values of the extension words can differ. *)
Theorem decode_same_shape (image1 image2 : list Z) (source1 source2 : DecodeSource)
    (Hwp1 : well_placed image1 source1) (Hwp2 : well_placed image2 source2)
    (Hword : primary_bytes image1 source1 = primary_bytes image2 source2)
    (i1 i2 : M68kDecodedInstruction)
    (H1 : decode_m68k_instruction image1 source1 DP_general_startup = Ok i1)
    (H2 : decode_m68k_instruction image2 source2 DP_general_startup = Ok i2) :
  same_shape i1 i2.
Proof.
  pose proof (decode_canonical image1 source1 Hwp1) as C1.
  pose proof (decode_canonical image2 source2 Hwp2) as C2. cbv zeta in *.
  pose proof (canonical_decodes image1 source1 Hwp1 i1 H1) as [i Hi].
  rewrite Hword in C1, Hi. rewrite Hi in C1, C2. rewrite H1 in C1. rewrite H2 in C2.
  destruct C1 as [C1 _], C2 as [C2 _].
  eapply same_shape_trans; [apply same_shape_sym, C1|exact C2].
Qed.

(** What an instruction says of the image it was decoded from, in the
    general profile: its provenance is the request and the primary bytes, its
    raw bytes are exactly the bytes of its span, the span is even, between two
    and ten bytes and inside the image, and its operands, register list and
    vector are well formed machine values. *)
Theorem decode_in_span (image : list Z) (source : DecodeSource) (Hwp : well_placed image source)
    (i : M68kDecodedInstruction) (Hi : decode_m68k_instruction image source DP_general_startup = Ok i) :
  in_span source image (ds_image_offset source) (zlen image - ds_image_offset source)
    (primary_bytes image source) i /\
  zlen (i_raw_bytes i) = instruction_length i.
Proof.
  pose proof (decode_canonical image source Hwp) as C. cbv zeta in C.
  pose proof (canonical_decodes image source Hwp i Hi) as [j Hj]. rewrite Hj, Hi in C. destruct C as [_ C].
  split; [exact C|]. destruct C as [_ -> Hl _ Ha _ _ _ _]. destruct Hwp.
  unfold slice, zlen in *. rewrite length_take, length_drop. lia.
Qed.

(** A request to witness the properties: [LEA (xxx).L,A0] at offset 2. *)
Definition sample_image : list Z := [0x4E; 0x71; 0x41; 0xF9; 0x00; 0xFF; 0x80; 0x00; 0x4E; 0x75].
Definition sample_source : DecodeSource := mkSource CV_mc68000 (mkAddress TAS_m68k_program 0x202) 2.

(** The same instruction with another operand, in another image. *)
Definition other_image : list Z := [0x41; 0xF9; 0x00; 0x00; 0x12; 0x34].
Definition other_source : DecodeSource := mkSource CV_mc68000 (mkAddress TAS_m68k_program 0x1000) 0.

Lemma sample_well_placed : well_placed sample_image sample_source.
Proof.
  split; [|done|by vm_compute|done|done|by vm_compute].
  repeat constructor; vm_compute; intros H; discriminate H.
Qed.

Lemma other_well_placed : well_placed other_image other_source.
Proof.
  split; [|done|by vm_compute|done|done|by vm_compute].
  repeat constructor; vm_compute; intros H; discriminate H.
Qed.

Lemma decode_exact_witness :
  exists i, decode_m68k_instruction sample_image sample_source DP_general_startup = Ok i /\
    i_kind i = K_lea /\ opcode_kind 0x41F9 = Some (i_kind i).
Proof.
  pose proof (decode_exact sample_image sample_source sample_well_placed) as H. cbv zeta in H.
  eexists. split; [vm_compute; reflexivity|]. split; [reflexivity|].
  exact (proj1 (proj2 H)).
Defined.

Lemma decode_same_shape_witness :
  exists i1 i2, decode_m68k_instruction sample_image sample_source DP_general_startup = Ok i1 /\
    decode_m68k_instruction other_image other_source DP_general_startup = Ok i2 /\
    same_shape i1 i2 /\ i_source_ea i1 <> i_source_ea i2.
Proof.
  eexists. eexists. split; [vm_compute; reflexivity|]. split; [vm_compute; reflexivity|]. split; [|discriminate].
  apply (decode_same_shape sample_image other_image sample_source other_source sample_well_placed other_well_placed);
    vm_compute; reflexivity.
Defined.

Lemma decode_in_span_witness :
  exists i, decode_m68k_instruction sample_image sample_source DP_general_startup = Ok i /\
    zlen (i_raw_bytes i) = 6.
Proof.
  eexists. split; [vm_compute; reflexivity|].
  refine (proj2 (decode_in_span sample_image sample_source sample_well_placed _ _)). vm_compute. reflexivity.
Defined.
