(* ===== verification/M68kAssemble.v ===== *)
(** An assembler for the effective-address operands and the MOVE family of the
    MC68000, written from the instruction formats: the specification the decoder
    of [libs/cpu/m68k/src/decode.cpp] is shown to invert. *)

From S2P Require Import Prelude M68kInstruction M68kLegality M68kDecode M68kShape M68kDecodeSpec.

(** * Operands *)

(** Assembly operands.  Displacements are signed; [x], [xa] and [xl] are the
    index register, whether it is an address register and whether it is long. *)
Inductive Operand : Type :=
| ODn (r : Z) | OAn (r : Z) | OIndirect (r : Z) | OPostinc (r : Z) | OPredec (r : Z)
| ODisp (r d : Z)
| OIndex (r x : Z) (xa xl : bool) (d : Z)
| OAbsWord (d : Z)
| OAbsLong (a : Z)
| OPcDisp (d : Z)
| OPcIndex (x : Z) (xa xl : bool) (d : Z)
| OImmediate (v : Z).

Definition is_reg (r : Z) : Prop := 0 <= r < 8.
Definition is_i8 (d : Z) : Prop := -128 <= d < 128.
Definition is_i16 (d : Z) : Prop := -32768 <= d < 32768.

Definition width_bound (size : M68kMemoryAccessWidth) : Z :=
  match size with W_byte => 256 | W_word => 65536 | W_long_word => 4294967296 end.

Definition operand_ok (size : M68kMemoryAccessWidth) (o : Operand) : Prop :=
  match o with
  | ODn r | OAn r | OIndirect r | OPostinc r | OPredec r => is_reg r
  | ODisp r d => is_reg r /\ is_i16 d
  | OIndex r x _ _ d => is_reg r /\ is_reg x /\ is_i8 d
  | OAbsWord d | OPcDisp d => is_i16 d
  | OAbsLong a => is_u32 a
  | OPcIndex x _ _ d => is_reg x /\ is_i8 d
  | OImmediate v => 0 <= v < width_bound size
  end.

Definition operand_mode (o : Operand) : M68kEaMode :=
  match o with
  | ODn _ => EA_data_register | OAn _ => EA_address_register | OIndirect _ => EA_address_indirect
  | OPostinc _ => EA_address_postinc | OPredec _ => EA_address_predec | ODisp _ _ => EA_address_disp16
  | OIndex _ _ _ _ _ => EA_address_index8 | OAbsWord _ => EA_absolute_word | OAbsLong _ => EA_absolute_long
  | OPcDisp _ => EA_pc_disp16 | OPcIndex _ _ _ _ => EA_pc_index8 | OImmediate _ => EA_immediate
  end.

(** The mode and register fields. *)
Definition operand_field (o : Operand) : Z * Z :=
  match o with
  | ODn r => (0, r) | OAn r => (1, r) | OIndirect r => (2, r) | OPostinc r => (3, r) | OPredec r => (4, r)
  | ODisp r _ => (5, r) | OIndex r _ _ _ _ => (6, r)
  | OAbsWord _ => (7, 0) | OAbsLong _ => (7, 1) | OPcDisp _ => (7, 2) | OPcIndex _ _ _ _ => (7, 3)
  | OImmediate _ => (7, 4)
  end.

Definition brief_word (x : Z) (xa xl : bool) (d : Z) : Z :=
  (if xa then 32768 else 0) + 4096 * x + (if xl then 2048 else 0) + u8 d.

(** The extension words. *)
Definition operand_words (size : M68kMemoryAccessWidth) (o : Operand) : list Z :=
  match o with
  | ODisp _ d | OAbsWord d | OPcDisp d => [u16 d]
  | OIndex _ x xa xl d | OPcIndex x xa xl d => [brief_word x xa xl d]
  | OAbsLong a => [a / 65536; u16 a]
  | OImmediate v => if size =b W_long_word then [v / 65536; u16 v] else [v]
  | _ => []
  end.

Definition be_bytes (w : Z) : list Z := [w / 256; u8 w].
Definition words_bytes (ws : list Z) : list Z := ws ≫= be_bytes.
Definition operand_bytes (size : M68kMemoryAccessWidth) (o : Operand) : list Z := words_bytes (operand_words size o).

(** What the decoder is to report: [pc] is the address of the operand's first
    extension word. *)
Definition operand_ea (size : M68kMemoryAccessWidth) (pc : Z) (o : Operand) : M68kEffectiveAddress :=
  let words := zlen (operand_words size o) in
  match o with
  | ODn r | OAn r | OIndirect r | OPostinc r | OPredec r => register_ea (operand_mode o) r
  | ODisp r d => mkEa (operand_mode o) r d 0 0 words 0 false false 0
  | OIndex r x xa xl d => mkEa (operand_mode o) r d 0 0 words x xa xl 0
  | OAbsWord d => mkEa (operand_mode o) 0 0 (u32 d) 0 words 0 false false 0
  | OAbsLong a => mkEa (operand_mode o) 0 0 a 0 words 0 false false 0
  | OPcDisp d => mkEa (operand_mode o) 0 d (u32 (pc + d)) 0 words 0 false false pc
  | OPcIndex x xa xl d => mkEa (operand_mode o) 0 d 0 0 words x xa xl pc
  | OImmediate v => mkEa (operand_mode o) 0 0 0 v words 0 false false 0
  end.

(** * Words in an image *)

Lemma u16_split w : is_u16 w -> w = 256 * (w / 256) + u8 w /\ is_u8 (w / 256) /\ is_u8 (u8 w).
Proof.
  unfold is_u16, is_u8, u8. intros Hw. pose proof (Z.div_mod w 256). pose proof (Z.mod_pos_bound w 256).
  split_and!; lia.
Qed.

Lemma words_bytes_cons w ws : words_bytes (w :: ws) = be_bytes w ++ words_bytes ws.
Proof. done. Qed.

Lemma zlen_words_bytes ws : zlen (words_bytes ws) = 2 * zlen ws.
Proof.
  induction ws as [|w ws IH]; [reflexivity|]. rewrite words_bytes_cons, zlen_app, zlen_cons, IH.
  change (zlen (be_bytes w)) with 2. lia.
Qed.

Lemma word_at_bytes pre w rest k :
  0 <= k < 2 -> znth (pre ++ be_bytes w ++ rest) (zlen pre + k) 0 = znth [w / 256; u8 w] k 0.
Proof.
  intros Hk. unfold zlen. rewrite !znth_nth, app_nth2 by lia.
  replace (Z.to_nat (Z.of_nat (length pre) + k) - length pre)%nat with (Z.to_nat k) by lia.
  assert (k = 0 \/ k = 1) as [->| ->] by lia; reflexivity.
Qed.

Lemma read16_at pre w rest : is_u16 w -> read16 (pre ++ be_bytes w ++ rest) (zlen pre) = w.
Proof.
  intros Hw. destruct (u16_split w Hw) as (E & H1 & H0).
  pose proof (word_at_bytes pre w rest 0 ltac:(lia)) as W0. rewrite Z.add_0_r in W0.
  unfold read16. rewrite W0, word_at_bytes by lia.
  change (znth [w / 256; u8 w] 0 0) with (w / 256). change (znth [w / 256; u8 w] 1 0) with (u8 w).
  rewrite be16_sum by done. rewrite <- E. by apply u16_id.
Qed.

Lemma read16_second pre w w' rest : is_u16 w' -> read16 (pre ++ be_bytes w ++ be_bytes w' ++ rest) (zlen pre + 2) = w'.
Proof.
  intros Hw. rewrite app_assoc. replace (zlen pre + 2) with (zlen (pre ++ be_bytes w)) by (rewrite zlen_app; reflexivity).
  by apply read16_at.
Qed.

(** The bytes of two words, one by one. *)
Lemma long_at pre hi lo rest k :
  0 <= k < 4 -> znth (pre ++ be_bytes hi ++ be_bytes lo ++ rest) (zlen pre + k) 0 = znth [hi / 256; u8 hi; lo / 256; u8 lo] k 0.
Proof.
  intros Hk. unfold zlen. rewrite !znth_nth, app_nth2 by lia.
  replace (Z.to_nat (Z.of_nat (length pre) + k) - length pre)%nat with (Z.to_nat k) by lia.
  assert (k = 0 \/ k = 1 \/ k = 2 \/ k = 3) as [->|[->|[->| ->]]] by lia; reflexivity.
Qed.

Lemma i16_u16 d : is_i16 d -> i16 (u16 d) = d.
Proof.
  unfold is_i16, i16, u16. intros. rewrite Zplus_mod_idemp_l, Z.mod_small by lia. lia.
Qed.

Lemma i8_u8 d : is_i8 d -> i8 (u8 d) = d.
Proof. unfold is_i8, i8, u8. intros. rewrite Zplus_mod_idemp_l, Z.mod_small by lia. lia. Qed.

(** * The fields of a brief extension word *)

Definition brief_fields (w : Z) : bool * Z * bool * bool * Z :=
  (negb (w .& 0x0700 =? 0), (w .>> 12) .& 7, negb (w .& 0x8000 =? 0), negb (w .& 0x0800 =? 0), w .& 0xFF).

Lemma brief_word_check :
  forallb (fun xa => forallb (fun xl => forallb (fun x => forallb (fun b =>
    bool_decide (brief_fields ((if xa : bool then 32768 else 0) + 4096 * x + (if xl : bool then 2048 else 0) + b) =
      (false, x, xa, xl, b))) (seqZ 0 256)) (seqZ 0 8)) [true; false]) [true; false] = true.
Proof. by_evaluation. Qed.

Lemma brief_word_fields x xa xl d : is_reg x -> brief_fields (brief_word x xa xl d) = (false, x, xa, xl, u8 d).
Proof.
  intros Hx. pose proof brief_word_check as H. rewrite forallb_forall in H.
  specialize (H xa ltac:(destruct xa; cbn; tauto)). rewrite forallb_forall in H.
  specialize (H xl ltac:(destruct xl; cbn; tauto)).
  pose proof (seqZ_forallb _ 8 H x Hx) as Hxx.
  pose proof (seqZ_forallb _ 256 Hxx (u8 d) (u8_range d)) as Hd. by apply bool_decide_eq_true in Hd.
Qed.

Lemma brief_word_range x xa xl d : is_reg x -> is_u16 (brief_word x xa xl d).
Proof.
  intros Hx. pose proof (u8_range d). unfold is_reg, is_u8, is_u16, brief_word in *.
  destruct xa, xl; lia.
Qed.

Lemma brief_ea_word mode reg words x xa xl d pc :
  is_reg x -> is_i8 d ->
  brief_ea mode reg words (brief_word x xa xl d) pc = (EP_ok, mkEa mode reg d 0 0 words x xa xl pc).
Proof.
  intros Hx Hd. pose proof (brief_word_fields x xa xl d Hx) as H. unfold brief_fields in H.
  injection H as H1 H2 H3 H4 H5. unfold brief_ea. rewrite H1, H2, H3, H4, H5. by rewrite i8_u8.
Qed.

(** * One operand *)

Definition operand_reg (o : Operand) : Z :=
  match o with
  | ODn r | OAn r | OIndirect r | OPostinc r | OPredec r | ODisp r _ | OIndex r _ _ _ _ => r
  | _ => 0
  end.

Lemma operand_field_mode size o :
  operand_ok size o -> ea_field_mode (operand_field o).1 (operand_field o).2 = Some (operand_mode o, operand_reg o).
Proof. by destruct o. Qed.

Lemma operand_extension size o :
  ea_extension_bytes (operand_mode o) size = 2 * zlen (operand_words size o).
Proof. destruct o; try reflexivity. by destruct size. Qed.

Lemma i16_u32 d : is_i16 d -> is_u16 (u16 d).
Proof. intros. apply u16_range. Qed.

Lemma long_split a : is_u32 a -> is_u16 (a / 65536) /\ a = 65536 * (a / 65536) + u16 a.
Proof. unfold is_u32, is_u16, u16. intros Ha. pose proof (Z.div_mod a 65536).
  pose proof (Z.mod_pos_bound a 65536). lia. Qed.

Lemma be32_words a : is_u32 a ->
  ((a / 65536 / 256) .<< 24) .| (u8 (a / 65536) .<< 16) .| ((u16 a / 256) .<< 8) .| u8 (u16 a) = a.
Proof.
  intros Ha. destruct (long_split a Ha) as [Hhi E].
  destruct (u16_split _ Hhi) as (E1 & B1 & B2), (u16_split _ (u16_range a)) as (E3 & B3 & B4).
  rewrite be32_sum by done. lia.
Qed.

(** The extension words of an operand read back as its facts. *)
Lemma read_operand pre rest size o pc :
  operand_ok size o ->
  read_ea (pre ++ operand_bytes size o ++ rest) (operand_mode o) (operand_reg o) (zlen (operand_words size o)) size
    (zlen pre) pc = (EP_ok, operand_ea size pc o).
Proof.
  intros Ho.
  destruct o as [r|r|r|r|r|r d|r x xa xl d|d|a|d|x xa xl d|v]; try reflexivity; cbn [operand_ok operand_mode] in *;
    cbn [read_ea operand_reg operand_ea operand_mode]; unfold operand_bytes; cbn [operand_words].
  - rewrite words_bytes_cons, <- app_assoc, read16_at by apply u16_range. by rewrite i16_u16 by apply Ho.
  - destruct Ho as (Hr & Hx & Hd).
    rewrite words_bytes_cons, <- app_assoc, read16_at by by apply brief_word_range. by apply brief_ea_word.
  - rewrite words_bytes_cons, <- app_assoc, read16_at by apply u16_range. by rewrite i16_u16.
  - rewrite !words_bytes_cons, <- !app_assoc.
    f_equal. f_equal. rewrite <- (Z.add_0_r (zlen pre)) at 1. rewrite !long_at by lia. exact (be32_words a Ho).
  - rewrite words_bytes_cons, <- app_assoc, read16_at by apply u16_range. by rewrite i16_u16.
  - destruct Ho as (Hx & Hd).
    rewrite words_bytes_cons, <- app_assoc, read16_at by by apply brief_word_range. by apply brief_ea_word.
  - destruct size; cbn [width_bound] in Ho.
    + change (W_byte =b W_long_word) with false. change (W_byte =b W_byte) with true. cbv iota.
      rewrite words_bytes_cons, <- app_assoc, word_at_bytes by lia.
      do 2 f_equal. by apply u8_id.
    + change (W_word =b W_long_word) with false. change (W_word =b W_byte) with false.
      change (W_word =b W_word) with true. cbv iota.
      by rewrite words_bytes_cons, <- app_assoc, read16_at.
    + change (W_long_word =b W_long_word) with true. change (W_long_word =b W_byte) with false.
      change (W_long_word =b W_word) with false. cbv iota.
      destruct (long_split v Ho) as [Hhi E]. rewrite !words_bytes_cons, <- !app_assoc.
      rewrite read16_at, read16_second by (done || apply u16_range).
      do 2 f_equal. rewrite shiftl_lor by first [lia|apply u16_range]. lia.
Qed.

(** The decoder reads an operand back, [consumed] bytes past a primary word. *)
Lemma one_ea_operand source pre rest offset bytes consumed legal size o :
  let image := pre ++ operand_bytes size o ++ rest in
  zlen pre = offset + 2 + consumed -> 0 <= consumed -> operand_ok size o ->
  legal .& m68k_ea_bit_for (operand_mode o) <> 0 ->
  m68k_decode_one_ea source image offset (zlen image - offset) bytes consumed
    (operand_field o).1 (operand_field o).2 legal size =
  Ok (operand_ea size (u32 (pa_value (ds_address source) + 2 + consumed)) o, 2 * zlen (operand_words size o)).
Proof.
  cbv zeta. intros Hpre Hc Ho Hl. unfold m68k_decode_one_ea, m68k_parse_ea_field. cbv zeta.
  rewrite (operand_field_mode size o Ho). rewrite (proj2 (Z.eqb_neq _ 0)) by exact Hl.
  rewrite operand_extension.
  pose proof (zlen_nonneg (operand_words size o)) as Hw. pose proof (zlen_nonneg rest) as Hr.
  assert (Hz : zlen (pre ++ operand_bytes size o ++ rest) - offset =
    2 + consumed + 2 * zlen (operand_words size o) + zlen rest).
  { rewrite !zlen_app. unfold operand_bytes. rewrite zlen_words_bytes. lia. }
  rewrite Hz. set (n := zlen (operand_words size o)) in *.
  rewrite (proj2 (Z.ltb_ge _ (2 * n))).
  2: { destruct (Z.ltb_spec (2 + consumed) (2 + consumed + 2 * n + zlen rest)); lia. }
  replace (2 * n / 2) with n by (rewrite Z.mul_comm, Z.div_mul by lia; done).
  rewrite <- Hpre. unfold n. rewrite read_operand by done. done.
Qed.

(** * The MOVE family *)

Definition move_size_bits (size : M68kMemoryAccessWidth) : Z :=
  match size with W_byte => 1 | W_word => 3 | W_long_word => 2 end.

(** [00 size dst-reg dst-mode src-mode src-reg] *)
Definition move_word (size : M68kMemoryAccessWidth) (src dst : Operand) : Z :=
  4096 * move_size_bits size + 512 * (operand_field dst).2 + 64 * (operand_field dst).1 +
  8 * (operand_field src).1 + (operand_field src).2.

Definition assemble_move (size : M68kMemoryAccessWidth) (src dst : Operand) : list Z :=
  be_bytes (move_word size src dst) ++ operand_bytes size src ++ operand_bytes size dst.

(** The destinations of MOVE and MOVEA. *)
Definition move_destination (size : M68kMemoryAccessWidth) (dst : Operand) : Prop :=
  match dst with
  | OAn _ => size <> W_byte
  | OPcDisp _ | OPcIndex _ _ _ _ | OImmediate _ => False
  | _ => True
  end.

Definition move_source (size : M68kMemoryAccessWidth) (src : Operand) : Prop :=
  match src with OAn _ => size <> W_byte | _ => True end.

Definition is_address_operand (o : Operand) : bool := match o with OAn _ => true | _ => false end.

(** The instruction the decoder is to report for a MOVE at [source]. *)
Definition move_instruction (source : DecodeSource) (size : M68kMemoryAccessWidth) (src dst : Operand)
    : M68kDecodedInstruction :=
  let code := assemble_move size src dst in
  let pc := pa_value (ds_address source) in
  let src_bytes := 2 * zlen (operand_words size src) in
  mkInstruction (mkProvenance source (move_word size src dst / 256, u8 (move_word size src dst)) (zlen code))
    (if is_address_operand dst then K_movea else K_move) D0 0 code 0 size
    (operand_ea size (u32 (pc + 2 + 0)) src) (operand_ea size (u32 (pc + 2 + src_bytes)) dst)
    CC_always MD_registers_to_memory 0 SR_lsl SL_and_op 0.

Lemma operand_field_range size o :
  operand_ok size o -> 0 <= (operand_field o).1 < 8 /\ 0 <= (operand_field o).2 < 8.
Proof. destruct o; cbn; unfold is_reg; lia. Qed.

Lemma move_word_fields bits dr dm sm sr :
  0 <= bits < 4 -> 0 <= dr < 8 -> 0 <= dm < 8 -> 0 <= sm < 8 -> 0 <= sr < 8 ->
  let w := 4096 * bits + 512 * dr + 64 * dm + 8 * sm + sr in
  mode_field w = sm /\ reg_field w = sr /\ high_reg_field w = dr /\ opmode_field w = dm /\
  (w .>> 12) .& 3 = bits /\ w .>> 12 = bits.
Proof.
  intros Hb Hdr Hdm Hsm Hsr w.
  unfold mode_field, reg_field, high_reg_field, opmode_field.
  assert (L7 : forall x, x .& 7 = x mod 8) by (intros; apply (land_ones_mod x 3); lia).
  assert (L3 : forall x, x .& 3 = x mod 4) by (intros; apply (land_ones_mod x 2); lia).
  rewrite !L7, !L3, !Z.shiftr_div_pow2 by lia.
  change (2 ^ 3) with 8. change (2 ^ 9) with 512. change (2 ^ 6) with 64. change (2 ^ 12) with 4096. unfold w.
  split_and!; Z.to_euclidean_division_equations; lia.
Qed.

(** The words of the MOVE lines belong to no earlier decoder of the dispatch. *)
Definition move_line_word (w : Z) : bool :=
  (w .& 0xC000 =? 0x0000) && negb (w .& 0xF1C0 =? 0x4180) && negb (w .& 0xFF00 =? 0x7000) &&
  negb (w .& 0xF100 =? 0x7000) && negb (w .& 0xFF00 =? 0x4A00).

Lemma move_lines_check : check_words move_line_word 14 0 = true.
Proof. by_lazy. Qed.

Lemma move_line_dispatch source image offset available bytes w r :
  0 <= w < 16384 -> reserved_word w = false ->
  m68k_decode_general_move source image offset available bytes w = Some r ->
  startup_forms source image offset available bytes true w = Some r.
Proof.
  intros Hw Hr Hmove. pose proof (check_words_sound move_line_word 14 0 move_lines_check w Hw) as H.
  unfold move_line_word in H. to_prop. unfold reserved_word in Hr.
  assert (E : exception_forms source image offset available bytes w = None).
  { unfold exception_forms. rewrite Hr, !(proj2 (Z.eqb_neq w _)) by lia.
    rewrite (proj2 (Z.leb_gt 0x4E40 w)) by lia. rewrite (proj2 (Z.eqb_neq (w .& 0xF1C0) _)) by done. done. }
  assert (S : system_forms source image offset available bytes true w = None).
  { unfold system_forms. rewrite !(proj2 (Z.eqb_neq w _)) by lia.
    rewrite (proj2 (Z.eqb_neq (w .& 0xFF00) 0x7000)), (proj2 (Z.eqb_neq (w .& 0xF100) _)) by done.
    rewrite !(proj2 (Z.leb_gt _ w)) by lia. rewrite (proj2 (Z.eqb_neq (w .& 0xFF00) 0x4A00)) by done. done. }
  unfold startup_forms. rewrite E, S. cbn [orb]. unfold general_forms. by rewrite Hmove.
Qed.

(** The legal MOVE fields name no reserved word. *)
Definition move_fields_ok (w : Z) : bool :=
  negb ((w .>> 12) .& 3 =? 0) && ((mode_field w <? 7) || (reg_field w <=? 4)) &&
  ((opmode_field w <? 7) || (high_reg_field w <=? 1)) &&
  (negb ((w .>> 12) .& 3 =? 1) || (negb (mode_field w =? 1) && negb (opmode_field w =? 1))).

Lemma move_words_check : check_words (fun w => implb (move_fields_ok w) (negb (reserved_word w))) 14 0 = true.
Proof. by_lazy. Qed.

Lemma operand_words_few size o : 0 <= zlen (operand_words size o) <= 2.
Proof. destruct size, o; vm_compute; split; discriminate. Qed.

Section Move.
  Context (size : M68kMemoryAccessWidth) (src dst : Operand).
  Context (Hsrc : operand_ok size src) (Hdst : operand_ok size dst).
  Context (Hms : move_source size src) (Hmd : move_destination size dst).

  #[local] Abbreviation word := (move_word size src dst).

#[local] Lemma move_fields :
    mode_field word = (operand_field src).1 /\ reg_field word = (operand_field src).2 /\
    high_reg_field word = (operand_field dst).2 /\ opmode_field word = (operand_field dst).1 /\
    (word .>> 12) .& 3 = move_size_bits size /\ word .>> 12 = move_size_bits size.
  Proof using All.
    apply move_word_fields; [by destruct size| | | |];
      first [apply (operand_field_range size src Hsrc)|apply (operand_field_range size dst Hdst)].
  Qed.

#[local] Lemma move_word_bound : 0 <= word < 16384.
  Proof using All.
    pose proof (operand_field_range size src Hsrc). pose proof (operand_field_range size dst Hdst).
    unfold move_word. destruct size; cbn [move_size_bits]; lia.
  Qed.

#[local] Lemma move_word_legal : reserved_word word = false.
  Proof using All.
    pose proof (check_words_sound _ 14 0 move_words_check word move_word_bound) as H. cbv beta in H.
    replace (move_fields_ok word) with true in H; [by apply negb_true_iff in H|]. symmetry.
    unfold move_fields_ok. destruct move_fields as (-> & -> & -> & -> & -> & _).
    destruct size, src, dst; try done.
  Qed.

#[local] Lemma move_legal :
    m68k_ea_move_family_source .& m68k_ea_bit_for (operand_mode src) <> 0 /\
    (is_address_operand dst = false -> m68k_ea_move_family_destination .& m68k_ea_bit_for (operand_mode dst) <> 0).
  Proof using All. destruct src, dst; done. Qed.

  (** The MOVE decoder on an assembled MOVE. *)
#[local] Lemma finish_assembled kind source pre rest :
    let image := pre ++ assemble_move size src dst ++ rest in
    let ext := 2 * zlen (operand_words size src) + 2 * zlen (operand_words size dst) in
    kind = (if is_address_operand dst then K_movea else K_move) ->
    m68k_finish_general_decode source image (zlen pre) (word / 256, u8 word) kind size
      (operand_ea size (u32 (pa_value (ds_address source) + 2 + 0)) src)
      (operand_ea size (u32 (pa_value (ds_address source) + 2 + 2 * zlen (operand_words size src))) dst) ext =
    move_instruction source size src dst.
  Proof using All.
    cbv zeta. intros ->. unfold m68k_finish_general_decode, move_instruction. cbv zeta.
    pose proof (operand_words_few size src). pose proof (operand_words_few size dst).
    replace (u32 _) with (zlen (assemble_move size src dst)).
    - f_equal. unfold slice. by rewrite drop_zlen_app, take_zlen_app.
    - unfold assemble_move, operand_bytes. rewrite !zlen_app, !zlen_words_bytes. change (zlen (be_bytes word)) with 2.
      unfold u32. rewrite Z.mod_small; lia.
  Qed.

#[local] Lemma assembled_move source pre rest :
    zlen pre = ds_image_offset source ->
    let image := pre ++ assemble_move size src dst ++ rest in
    m68k_decode_general_move source image (zlen pre) (zlen image - zlen pre) (word / 256, u8 word) word =
      Some (Ok (move_instruction source size src dst)).
  Proof using All.
    intros Hpre image. destruct move_fields as (F1 & F2 & F3 & F4 & F5 & F6).
    pose proof move_word_bound as Hw. destruct move_legal as [Ls Ld].
    unfold m68k_decode_general_move.
    rewrite F1, F2, F3, F4, F5. replace (word .& 0xC000) with 0.
    2: { symmetry. pose proof (check_words_sound _ 14 0 move_lines_check word Hw) as H. unfold move_line_word in H. by to_prop. }
    change (negb (0 =? 0)) with false. cbv iota.
    replace (m68k_size_from_move_field (move_size_bits size)) with (Some size) by by destruct size.
    cbn [mbind option_bind]. do 2 f_equal.
    assert (Esrc : forall bytes, m68k_decode_one_ea source image (zlen pre) (zlen image - zlen pre) bytes 0
      (operand_field src).1 (operand_field src).2 m68k_ea_move_family_source size =
      Ok (operand_ea size (u32 (pa_value (ds_address source) + 2 + 0)) src, 2 * zlen (operand_words size src))).
    { intros bytes. replace image with ((pre ++ be_bytes word) ++ operand_bytes size src ++ (operand_bytes size dst ++ rest))
        by (unfold image, assemble_move; by rewrite <- !app_assoc).
      apply one_ea_operand; [|lia|done..]. rewrite zlen_app. change (zlen (be_bytes word)) with 2. lia. }
    rewrite Esrc. cbn [mbind result_bind].
    assert (Haddr : ((operand_field dst).1 =? 1) && negb (size =b W_byte) = is_address_operand dst).
    { destruct dst, size; done. }
    rewrite Haddr. destruct (is_address_operand dst) eqn:Ha.
    - f_equal.
      assert (Hd : forall pc, register_ea EA_address_register (operand_field dst).2 = operand_ea size pc dst)
        by (intros; by destruct dst).
      assert (Hz : zlen (operand_words size dst) = 0) by by destruct dst.
      rewrite <- (finish_assembled K_movea source pre rest) by by rewrite Ha.
      rewrite <- Hd. f_equal. lia.
    - replace ((size =b W_byte) && _) with false by by destruct size, src.
      cbn [fail_if mbind result_bind].
      replace image with ((pre ++ be_bytes word ++ operand_bytes size src) ++ operand_bytes size dst ++ rest) at 1 2
        by (unfold image, assemble_move; by rewrite <- !app_assoc).
      rewrite one_ea_operand; [|rewrite !zlen_app; change (zlen (be_bytes word)) with 2;
        unfold operand_bytes; rewrite zlen_words_bytes; lia|pose proof (operand_words_few size src); lia|done|by apply Ld].
      cbn [mbind result_bind]. f_equal. apply finish_assembled. by rewrite Ha.
  Qed.
End Move.

(** C29. MOVE and MOVEA assemble and decode back: the bytes of the format, at any
    place of any image, decode in the general profile to the instruction with
    that size, those operands (displacements sign extended, program-counter
    operands resolved) and that span. *)
Theorem move_round_trip (size : M68kMemoryAccessWidth) (src dst : Operand)
    (Hsrc : operand_ok size src) (Hdst : operand_ok size dst)
    (Hms : move_source size src) (Hmd : move_destination size dst)
    (pre rest : list Z) (source : DecodeSource) (Hpre : zlen pre = ds_image_offset source)
    (Hwp : well_placed (pre ++ assemble_move size src dst ++ rest) source) :
  decode_m68k_instruction (pre ++ assemble_move size src dst ++ rest) source DP_general_startup =
    Ok (move_instruction source size src dst).
Proof.
  pose proof (move_word_bound size src dst Hsrc Hdst Hms Hmd) as Hw.
  assert (Hw16 : is_u16 (move_word size src dst)) by (unfold is_u16; lia).
  assert (Ep : primary_bytes (pre ++ assemble_move size src dst ++ rest) source =
    (move_word size src dst / 256, u8 (move_word size src dst))).
  { unfold primary_bytes, assemble_move. rewrite <- Hpre, <- app_assoc.
    rewrite word_at_bytes by lia. rewrite <- (Z.add_0_r (zlen pre)) at 1. by rewrite word_at_bytes by lia. }
  rewrite decode_well_placed, Ep by done. destruct (u16_split _ Hw16) as (E & H1 & H0).
  rewrite primary_word_sum, <- E by done. unfold decode_word.
  rewrite (proj2 (Z.eqb_neq (move_word size src dst) 0x4AFC)) by lia.
  rewrite (bool_decide_true (DP_general_startup = _)) by done. rewrite andb_false_l, orb_true_r.
  rewrite (move_line_dispatch _ _ _ _ _ _ (Ok (move_instruction source size src dst))); [done|done| |].
  - by apply move_word_legal.
  - rewrite <- Hpre. by apply assembled_move.
Qed.

(** [MOVE.W #$1234,-4(A2,D1.L)] after a NOP, at $200. *)
Definition round_trip_source : DecodeSource := mkSource CV_mc68000 (mkAddress TAS_m68k_program 0x202) 2.

Lemma move_round_trip_witness :
  decode_m68k_instruction ([0x4E; 0x71] ++ assemble_move W_word (OImmediate 0x1234) (OIndex 2 1 false true (-4)) ++ [])
    round_trip_source DP_general_startup =
  Ok (move_instruction round_trip_source W_word (OImmediate 0x1234) (OIndex 2 1 false true (-4))).
Proof.
  apply (move_round_trip W_word (OImmediate 0x1234) (OIndex 2 1 false true (-4))); try done.
  split; [|done|by vm_compute|done|done|by vm_compute].
  repeat constructor; vm_compute; intros H; discriminate H.
Defined.
