(* ===== verification/M68kArithmetic.v ===== *)
(** The MC68000 arithmetic and condition-code specifications of
    [libs/cpu/m68k/include/segarecomp/cpu/m68k/effects.hpp]: the functions that
    the host evaluation, the static resolver and the generated C all share.  The
    [emit_c_*] members, which print C text, are not modelled. *)

From S2P Require Import Prelude M68kInstruction.

(** * Machine arithmetic *)

Definition kU32Max : Z := 0xFFFFFFFF.

(** [~x] of a 32-bit unsigned integer. *)
Definition not32 (x : Z) : Z := u32 (Z.lnot x).

(** A boolean contributing [mask] to a flag word: [b ? mask : 0]. *)
Definition flag (b : bool) (mask : Z) : Z := if b then mask else 0.

Definition is_set (x mask : Z) : bool := negb (x .& mask =? 0).

(** * Counting bits *)

(** [while (bits != 0U) { n += bits & 1U; bits >>= 1U; }] on a value of at most
    [fuel] bits. *)
Fixpoint count_ones (fuel : nat) (bits : Z) : Z :=
  match fuel with
  | O => 0
  | S fuel => if bits =? 0 then 0 else (bits .& 1) + count_ones fuel (bits .>> 1)
  end.

Lemma land_1_range x : 0 <= x .& 1 <= 1.
Proof.
  pose proof (land_ones_mod x 1 ltac:(lia)) as E. change (2 ^ 1 - 1) with 1 in E. rewrite E.
  pose proof (Z.mod_pos_bound x (2 ^ 1) ltac:(lia)). lia.
Qed.

Lemma count_ones_range n x : 0 <= count_ones n x <= Z.of_nat n.
Proof.
  revert x. induction n as [|n IH]; intros x; cbn [count_ones]; [lia|].
  destruct (x =? 0); [lia|]. pose proof (land_1_range x). pose proof (IH (x .>> 1)). lia.
Qed.

(** * Results *)

Inductive M68kExtendFlagPolicy : Type := XP_preserve | XP_from_carry.

#[export] Instance extend_flag_policy_eq_dec : EqDecision M68kExtendFlagPolicy.
Proof. solve_decision. Defined.

(** [M68kSubtractionResult] and [M68kAdditionResult] *)
Record M68kSumResult := mkSum {
  sum_result : Z; sum_negative : bool; sum_zero : bool; sum_overflow : bool; sum_carry : bool;
}.

Record M68kLogicalResult := mkLogical { lr_result : Z; lr_negative : bool; lr_zero : bool }.

Inductive M68kBitOperationKind : Type := BO_test | BO_change | BO_clear | BO_set.
Record M68kBitOperationResult := mkBitResult { br_result : Z; br_original_bit_set : bool }.

Record M68kDbccDecrementResult := mkDbcc { db_updated_register : Z; db_expired : bool }.

Inductive M68kMovemTransferOrder : Type := MO_ascending | MO_predecrement.

#[export] Instance movem_order_eq_dec : EqDecision M68kMovemTransferOrder.
Proof. solve_decision. Defined.

Record M68kShiftRotateResult := mkShift {
  sh_result : Z; sh_negative : bool; sh_zero : bool; sh_overflow : bool; sh_carry : bool;
  sh_extend_written : bool; sh_extend_value : bool;
}.

(** * Moves, subtraction, addition *)

(** [M68kMoveResultCcrSpecification::apply] *)
Definition m68k_move_result_ccr (status_register result : Z) : Z :=
  u16 ((status_register .& 0xFFF0) .| flag (result =? 0) 0x0004 .| flag (is_set result 0x80000000) 0x0008).

(** [M68kSubtractionResultSpecification::evaluate] *)
Definition m68k_evaluate_subtraction (source destination : Z) (width : M68kMemoryAccessWidth) : M68kSumResult :=
  let bits := match width with W_byte => 8 | W_word => 16 | W_long_word => 32 end in
  let mask := if bits =? 32 then kU32Max else (1 .<< bits) - 1 in
  let source := source .& mask in
  let destination := destination .& mask in
  let result := u32 (destination - source) .& mask in
  let sign := 1 .<< (bits - 1) in
  mkSum result (is_set result sign) (result =? 0)
    (is_set ((destination .^ source) .& (destination .^ result)) sign) (destination <? source).

(** [M68kSubtractionResultSpecification::apply] *)
Definition m68k_subtraction_ccr (status_register source destination : Z) (width : M68kMemoryAccessWidth)
    (extend_flag_policy : M68kExtendFlagPolicy) : Z :=
  let subtraction := m68k_evaluate_subtraction source destination width in
  let extend :=
    match extend_flag_policy with
    | XP_preserve => status_register .& 0x0010
    | XP_from_carry => flag (sum_carry subtraction) 0x0010
    end in
  u16 ((status_register .& 0xFFE0) .| extend .| flag (sum_negative subtraction) 0x0008 .|
       flag (sum_zero subtraction) 0x0004 .| flag (sum_overflow subtraction) 0x0002 .|
       flag (sum_carry subtraction) 0x0001).

(** [M68kAdditionResultSpecification::mask] and [::sign], which the other
    specifications repeat. *)
Definition width_mask (width : M68kMemoryAccessWidth) : Z :=
  match width with W_byte => 0x000000FF | W_word => 0x0000FFFF | W_long_word => kU32Max end.
Definition width_sign (width : M68kMemoryAccessWidth) : Z :=
  match width with W_byte => 0x00000080 | W_word => 0x00008000 | W_long_word => 0x80000000 end.

(** [M68kAdditionResultSpecification::evaluate]; the [sum] is 64 bits wide. *)
Definition m68k_evaluate_addition (source destination : Z) (width : M68kMemoryAccessWidth) : M68kSumResult :=
  let m := width_mask width in
  let source := source .& m in
  let destination := destination .& m in
  let result := u32 (destination + source) .& m in
  let s := width_sign width in
  let sum := destination + source in
  mkSum result (is_set result s) (result =? 0)
    (is_set (not32 (destination .^ source) .& (destination .^ result)) s) (m <? sum).

Definition m68k_addition_ccr (status_register source destination : Z) (width : M68kMemoryAccessWidth) : Z :=
  let addition := m68k_evaluate_addition source destination width in
  u16 ((status_register .& 0xFFE0) .| flag (sum_carry addition) 0x0011 .| flag (sum_negative addition) 0x0008 .|
       flag (sum_zero addition) 0x0004 .| flag (sum_overflow addition) 0x0002).

(** * Extended arithmetic: ADDX, SUBX, NEGX *)

Inductive M68kExtendedArithmeticKind : Type := XA_add | XA_subtract.

Record M68kExtendedArithmeticResult := mkExtended {
  xr_result : Z; xr_negative : bool; xr_overflow : bool; xr_carry : bool;
}.

(** [M68kExtendedArithmeticSpecification::evaluate] *)
Definition m68k_evaluate_extended_arithmetic (kind : M68kExtendedArithmeticKind) (source destination : Z)
    (extend : bool) (width : M68kMemoryAccessWidth) : M68kExtendedArithmeticResult :=
  let m := width_mask width in
  let s := width_sign width in
  let source := source .& m in
  let destination := destination .& m in
  let x := flag extend 1 in
  let result :=
    match kind with
    | XA_add => u32 (destination + source + x)
    | XA_subtract => u32 (destination - source - x)
    end .& m in
  let carry :=
    match kind with
    | XA_add => is_set ((source .& destination) .| (not32 result .& destination) .| (source .& not32 result)) s
    | XA_subtract =>
        is_set ((source .& not32 destination) .| (result .& not32 destination) .| (source .& result)) s
    end in
  let overflow :=
    match kind with
    | XA_add =>
        is_set ((source .& destination .& not32 result) .| (not32 source .& not32 destination .& result)) s
    | XA_subtract =>
        is_set ((not32 source .& destination .& not32 result) .| (source .& not32 destination .& result)) s
    end in
  mkExtended result (is_set result s) overflow carry.

(** [M68kExtendedArithmeticSpecification::apply]: the sticky zero flag. *)
Definition m68k_extended_arithmetic_ccr (status_register : Z) (kind : M68kExtendedArithmeticKind)
    (source destination : Z) (width : M68kMemoryAccessWidth) : Z :=
  let r := m68k_evaluate_extended_arithmetic kind source destination (is_set status_register 0x0010) width in
  let zero := (xr_result r =? 0) && is_set status_register 0x0004 in
  u16 ((status_register .& 0xFFE0) .| flag (xr_carry r) 0x0011 .| flag (xr_negative r) 0x0008 .|
       flag zero 0x0004 .| flag (xr_overflow r) 0x0002).

(** * Packed decimal arithmetic: ABCD, SBCD, NBCD *)

Inductive M68kDecimalArithmeticKind : Type := DA_add | DA_subtract | DA_negate.

Record M68kDecimalArithmeticResult := mkDecimal {
  dr_result : Z; dr_carry : bool; dr_negative : bool; dr_overflow : bool; dr_clears_zero : bool;
}.

(** The [negate] branch of [M68kDecimalArithmeticSpecification::evaluate]. *)
Definition decimal_negate (destination : Z) (extend : bool) : M68kDecimalArithmeticResult :=
  let x := flag extend 1 in
  let dst := destination .& 0xFF in
  let res := u32 (0x9A - dst - x) .& 0xFF in
  if res =? 0x9A then mkDecimal dst false true false false
  else
    let v0 := not32 res in
    let res := if res .& 0x0F =? 0x0A then (res .& 0xF0) + 0x10 else res in
    let res := res .& 0xFF in
    mkDecimal res true (is_set res 0x80) (is_set (v0 .& res) 0x80) (negb (res =? 0)).

Definition m68k_evaluate_decimal_arithmetic (kind : M68kDecimalArithmeticKind) (source destination : Z)
    (extend : bool) : M68kDecimalArithmeticResult :=
  let binary (add : bool) :=
    let x := flag extend 1 in
    let src := source .& 0xFF in
    let dst := destination .& 0xFF in
    let res := if add then (src .& 0x0F) + (dst .& 0x0F) + x else u32 ((dst .& 0x0F) - (src .& 0x0F) - x) in
    let v0 := not32 res in
    let res := if 9 <? res then if add then u32 (res + 6) else u32 (res - 6) else res in
    let res :=
      if add then u32 (res + (src .& 0xF0) + (dst .& 0xF0)) else u32 (res + (dst .& 0xF0) - (src .& 0xF0)) in
    let carry := 0x99 <? res in
    let res := if carry then if add then u32 (res - 0xA0) else u32 (res + 0xA0) else res in
    let masked := res .& 0xFF in
    mkDecimal masked carry (is_set masked 0x80) (is_set (v0 .& masked) 0x80) (negb (masked =? 0)) in
  match kind with
  | DA_negate => decimal_negate destination extend
  | DA_add => binary true
  | DA_subtract => binary false
  end.

Definition m68k_decimal_arithmetic_ccr (status_register : Z) (kind : M68kDecimalArithmeticKind)
    (source destination : Z) : Z :=
  let r := m68k_evaluate_decimal_arithmetic kind source destination (is_set status_register 0x0010) in
  let zero := negb (dr_clears_zero r) && is_set status_register 0x0004 in
  u16 ((status_register .& 0xFFE0) .| flag (dr_carry r) 0x0011 .| flag (dr_negative r) 0x0008 .|
       flag zero 0x0004 .| flag (dr_overflow r) 0x0002).

(** * Logical results *)

Definition m68k_evaluate_logical (result : Z) (width : M68kMemoryAccessWidth) : M68kLogicalResult :=
  let sized := result .& width_mask width in
  mkLogical sized (is_set sized (width_sign width)) (sized =? 0).

Definition m68k_logical_ccr (status_register result : Z) (width : M68kMemoryAccessWidth) : Z :=
  let logical := m68k_evaluate_logical result width in
  u16 ((status_register .& 0xFFF0) .| flag (lr_negative logical) 8 .| flag (lr_zero logical) 4).

(** * Division: DIVS.W, DIVU.W *)

Record M68kDivisionResult := mkDivision {
  dv_result : Z; dv_overflow : bool; dv_negative : bool; dv_zero : bool;
}.

(** [M68kDivisionResultSpecification::evaluate].  The quotient and remainder are
    64 bits wide and truncate towards zero; a zero divisor is the caller's. *)
Definition division_evaluate (dividend divisor : Z) (is_signed : bool) : M68kDivisionResult :=
  if is_signed then
    let dividend_s := i32 dividend in
    let divisor_s := i16 divisor in
    let quotient := Z.quot dividend_s divisor_s in
    let remainder := Z.rem dividend_s divisor_s in
    if (quotient <? -32768) || (32767 <? quotient) then mkDivision dividend true false false
    else
      let q16 := u16 quotient in
      let r16 := u16 remainder in
      mkDivision (u32 (r16 .<< 16) .| q16) false (quotient <? 0) (quotient =? 0)
  else
    let quotient := dividend / divisor in
    let remainder := dividend mod divisor in
    if 0xFFFF <? quotient then mkDivision dividend true false false
    else
      mkDivision (u32 (remainder .<< 16) .| (quotient .& 0xFFFF)) false (is_set quotient 0x8000) (quotient =? 0).

(** [M68kDivisionResultSpecification::apply] *)
Definition division_ccr (status_register dividend divisor : Z) (is_signed : bool) : Z :=
  let division := division_evaluate dividend divisor is_signed in
  u16 ((status_register .& 0xFFF0) .|
       (if dv_overflow division then 0x0002
        else flag (dv_negative division) 0x0008 .| flag (dv_zero division) 0x0004)).

(** * Bit operations *)

Definition width_mask_bits (width : M68kMemoryAccessWidth) : Z :=
  match width with W_long_word => 31 | _ => 7 end.

Definition m68k_evaluate_bit_operation (kind : M68kBitOperationKind) (original bit_number : Z)
    (destination_width : M68kMemoryAccessWidth) : M68kBitOperationResult :=
  let bit_index := bit_number .& width_mask_bits destination_width in
  let bit_mask := 1 .<< bit_index in
  let original_bit_set := is_set original bit_mask in
  match kind with
  | BO_test => mkBitResult original original_bit_set
  | BO_change => mkBitResult (original .^ bit_mask) original_bit_set
  | BO_clear => mkBitResult (original .& not32 bit_mask) original_bit_set
  | BO_set => mkBitResult (original .| bit_mask) original_bit_set
  end.

Definition m68k_bit_test_ccr (status_register : Z) (original_bit_set : bool) : Z :=
  u16 ((status_register .& 0xFFFB) .| (if original_bit_set then 0 else 0x0004)).

(** * Conditions *)

Definition m68k_evaluate_condition (condition : M68kCondition) (status_register : Z) : bool :=
  let n := is_set status_register 0x0008 in
  let z := is_set status_register 0x0004 in
  let v := is_set status_register 0x0002 in
  let c := is_set status_register 0x0001 in
  match condition with
  | CC_always => true
  | CC_never => false
  | CC_hi => negb c && negb z
  | CC_ls => c || z
  | CC_cc => negb c
  | CC_cs => c
  | CC_ne => negb z
  | CC_eq => z
  | CC_vc => negb v
  | CC_vs => v
  | CC_pl => negb n
  | CC_mi => n
  | CC_ge => Bool.eqb n v
  | CC_lt => negb (Bool.eqb n v)
  | CC_gt => negb z && Bool.eqb n v
  | CC_le => z || negb (Bool.eqb n v)
  end.

(** * Shifts and rotates *)

Definition width_bits (width : M68kMemoryAccessWidth) : Z :=
  match width with W_byte => 8 | W_word => 16 | W_long_word => 32 end.

(** The locals [result], [carry], [out.overflow], [out.extend_written] and
    [out.extend_value] at the end of a case. *)
Record ShiftLocals := mkLocals {
  sl_result : Z; sl_carry : bool; sl_overflow : bool; sl_extend_written : bool; sl_extend_value : bool;
}.

Section Shift.
Context (src count : Z) (width : M68kMemoryAccessWidth) (original_extend : bool).

#[local] Abbreviation bits := (width_bits width).
#[local] Abbreviation m := (width_mask width).

Definition shift_lsl : ShiftLocals :=
  if count =? 0 then mkLocals src false false true original_extend
  else if count <? bits then
    let carry := is_set (src .>> (bits - count)) 1 in
    mkLocals (u32 (src .<< count) .& m) carry false true carry
  else if count =? bits then
    let carry := is_set src 1 in mkLocals 0 carry false true carry
  else mkLocals 0 false false true false.

Definition shift_lsr : ShiftLocals :=
  if count =? 0 then mkLocals src false false true original_extend
  else if count <? bits then
    let carry := is_set (src .>> (count - 1)) 1 in
    mkLocals (src .>> count) carry false true carry
  else if count =? bits then
    let carry := is_set (src .>> (bits - 1)) 1 in mkLocals 0 carry false true carry
  else mkLocals 0 false false true false.

Definition shift_asr : ShiftLocals :=
  let negative_src := is_set src (width_sign width) in
  if count =? 0 then mkLocals src false false true original_extend
  else if count <? bits then
    let result := src .>> count in
    let result := if negative_src then result .| (m .& not32 (m .>> count)) else result in
    let carry := is_set (src .>> (count - 1)) 1 in
    mkLocals result carry false true carry
  else if negative_src then mkLocals m true false true true
  else mkLocals 0 false false true false.

Definition shift_asl : ShiftLocals :=
  if count =? 0 then mkLocals src false false true original_extend
  else if count <? bits then
    let carry := is_set (src .>> (bits - count)) 1 in
    let region_bits := count + 1 in
    let region_mask := if bits <=? region_bits then m else m .& not32 (m .>> region_bits) in
    let region := src .& region_mask in
    mkLocals (u32 (src .<< count) .& m) carry (negb ((region =? 0) || (region =? region_mask))) true carry
  else if count =? bits then
    let carry := is_set src 1 in mkLocals 0 carry (negb (src =? 0)) true carry
  else mkLocals 0 false (negb (src =? 0)) true false.

(** [rol] and [ror]: X is not written. *)
Definition shift_rotate (left : bool) : ShiftLocals :=
  if count =? 0 then mkLocals src false false false false
  else
    let effective := count .& (bits - 1) in
    let result :=
      if effective =? 0 then src
      else if left then (u32 (src .<< effective) .| (src .>> (bits - effective))) .& m
      else ((src .>> effective) .| u32 (src .<< (bits - effective))) .& m in
    mkLocals result (if left then is_set result 1 else is_set result (width_sign width)) false false false.

(** [roxl] and [roxr]: a ring of [bits + 1] bits in 64-bit arithmetic. *)
Definition shift_rotate_extend (left : bool) : ShiftLocals :=
  let ring := (flag original_extend 1 .<< bits) .| src in
  let ring_bits := bits + 1 in
  let ring_mask := (1 .<< ring_bits) - 1 in
  let effective := count mod ring_bits in
  let rotated_ring :=
    if effective =? 0 then ring
    else if left then ((ring .<< effective) mod 2 ^ 64 .| (ring .>> (ring_bits - effective))) .& ring_mask
    else ((ring .>> effective) .| ((ring .<< (ring_bits - effective)) mod 2 ^ 64)) .& ring_mask in
  let new_extend := is_set (rotated_ring .>> bits) 1 in
  mkLocals (u32 (rotated_ring .& m)) new_extend false true new_extend.
End Shift.

(** [M68kShiftRotateSpecification::evaluate] *)
Definition m68k_evaluate_shift_rotate (kind : M68kShiftRotateKind) (original count : Z)
    (width : M68kMemoryAccessWidth) (original_extend : bool) : M68kShiftRotateResult :=
  let src := original .& width_mask width in
  let out :=
    match kind with
    | SR_lsl => shift_lsl src count width original_extend
    | SR_lsr => shift_lsr src count width original_extend
    | SR_asr => shift_asr src count width original_extend
    | SR_asl => shift_asl src count width original_extend
    | SR_rol => shift_rotate src count width true
    | SR_ror => shift_rotate src count width false
    | SR_roxl => shift_rotate_extend src count width original_extend true
    | SR_roxr => shift_rotate_extend src count width original_extend false
    end in
  mkShift (sl_result out) (is_set (sl_result out) (width_sign width)) (sl_result out =? 0) (sl_overflow out)
    (sl_carry out) (sl_extend_written out) (sl_extend_value out).

(** [M68kShiftRotateSpecification::ccr] *)
Definition m68k_shift_rotate_ccr (status_register : Z) (result : M68kShiftRotateResult) : Z :=
  let updated :=
    u16 ((status_register .& 0xFFE0) .| flag (sh_negative result) 0x08 .| flag (sh_zero result) 0x04 .|
         flag (sh_overflow result) 0x02 .| flag (sh_carry result) 0x01) in
  if sh_extend_written result then u16 ((updated .& Z.lnot 0x10) .| flag (sh_extend_value result) 0x10)
  else u16 ((updated .& Z.lnot 0x10) .| (status_register .& 0x10)).

(** * DBcc, branches, MOVEM *)

(** [M68kDbccDecrementSpecification::evaluate] *)
Definition m68k_evaluate_dbcc_decrement (original : Z) : M68kDbccDecrementResult :=
  let low := u16 ((original .& 0x0000FFFF) - 1) in
  mkDbcc ((original .& 0xFFFF0000) .| low) (low =? 0xFFFF).

Definition m68k_branch_target (source_address signed_displacement : Z) : Z :=
  u32 (source_address + 2 + signed_displacement).

Definition m68k_movem_transfer_order (register_mask : Z) (order : M68kMovemTransferOrder) : list Z :=
  zfor 0 16 (fun index sequence =>
    if is_set register_mask (u16 (1 .<< index)) then
      sequence ++ [match order with MO_predecrement => 15 - index | MO_ascending => index end]
    else sequence) [].

(** * Flags of a status word *)

Lemma is_set_bit x k : 0 <= k -> is_set x (2 ^ k) = Z.testbit x k.
Proof.
  intros Hk. unfold is_set. destruct (Z.testbit x k) eqn:E.
  - apply negb_true_iff, Z.eqb_neq. intros H. apply (f_equal (fun y => Z.testbit y k)) in H.
    rewrite Z.land_spec, E, Z.pow2_bits_true, Z.bits_0 in H by done. done.
  - apply negb_false_iff, Z.eqb_eq. apply Z.bits_inj'. intros i Hi.
    rewrite Z.land_spec, Z.bits_0, Z.pow2_bits_eqb by done. destruct (Z.eqb_spec k i) as [<-|]; [by rewrite E|].
    apply andb_false_r.
Qed.

Lemma testbit_flag b mask k : Z.testbit (flag b mask) k = b && Z.testbit mask k.
Proof. destruct b; [done|]. apply Z.bits_0. Qed.

Lemma testbit_u16 x k : 0 <= k < 16 -> Z.testbit (u16 x) k = Z.testbit x k.
Proof. intros. unfold u16. change 65536 with (2 ^ 16). apply Z.mod_pow2_bits_low. lia. Qed.

Lemma testbit_u32 x k : 0 <= k < 32 -> Z.testbit (u32 x) k = Z.testbit x k.
Proof. intros. unfold u32. change 4294967296 with (2 ^ 32). apply Z.mod_pow2_bits_low. lia. Qed.

Lemma testbit_not32 x k : 0 <= k < 32 -> Z.testbit (not32 x) k = negb (Z.testbit x k).
Proof. intros. unfold not32. rewrite testbit_u32, Z.lnot_spec by lia. done. Qed.

(** The top bit of a value of [k + 1] bits. *)
Lemma top_bit x k : 0 <= k -> 0 <= x < 2 ^ (k + 1) -> Z.testbit x k = (2 ^ k <=? x).
Proof.
  intros Hk Hx. rewrite Z.pow_add_r in Hx by lia. destruct (Z.leb_spec (2 ^ k) x).
  - replace x with ((x - 2 ^ k) + 2 ^ k * 1) by lia. rewrite <- lor_shiftl by lia.
    rewrite Z.lor_spec, Z.shiftl_spec, Z.sub_diag by lia. apply orb_true_r.
  - destruct (decide (x = 0)) as [->|]; [apply Z.bits_0|]. apply Z.bits_above_log2; [lia|].
    apply Z.log2_lt_pow2; lia.
Qed.

(** Evaluate the bits of the literal masks. *)
Ltac literal_bits :=
  repeat match goal with
  | |- context [Z.testbit (Zpos ?p) ?k] =>
      let b := eval vm_compute in (Z.testbit (Zpos p) k) in change (Z.testbit (Zpos p) k) with b
  | |- context [Z.testbit 0 ?k] => rewrite (Z.bits_0 k)
  end.

(** Read single flags off a status word built from masks and flags. *)
Ltac status_bits :=
  repeat first
    [ rewrite testbit_u16 by lia | rewrite Z.lor_spec | rewrite Z.land_spec | rewrite testbit_flag ];
  literal_bits; rewrite ?andb_false_r, ?andb_true_r, ?orb_false_r, ?orb_false_l.

Definition status_x (sr : Z) : bool := Z.testbit sr 4.
Definition status_n (sr : Z) : bool := Z.testbit sr 3.
Definition status_z (sr : Z) : bool := Z.testbit sr 2.
Definition status_v (sr : Z) : bool := Z.testbit sr 1.
Definition status_c (sr : Z) : bool := Z.testbit sr 0.

Lemma is_set_x sr : is_set sr 0x10 = status_x sr. Proof. by apply (is_set_bit sr 4). Qed.
Lemma is_set_n sr : is_set sr 0x08 = status_n sr. Proof. by apply (is_set_bit sr 3). Qed.
Lemma is_set_z sr : is_set sr 0x04 = status_z sr. Proof. by apply (is_set_bit sr 2). Qed.
Lemma is_set_v sr : is_set sr 0x02 = status_v sr. Proof. by apply (is_set_bit sr 1). Qed.
Lemma is_set_c sr : is_set sr 0x01 = status_c sr. Proof. by apply (is_set_bit sr 0). Qed.

(** The flags of a status word, and the bits above them. *)
Definition status_flags (sr : Z) : bool * bool * bool * bool * bool :=
  (status_x sr, status_n sr, status_z sr, status_v sr, status_c sr).
Definition status_upper (sr : Z) : Z := sr .& 0xFFE0.

Lemma upper_ext a b : (forall k, 5 <= k < 16 -> Z.testbit a k = Z.testbit b k) -> status_upper a = status_upper b.
Proof.
  intros H. unfold status_upper. apply Z.bits_inj'. intros k Hk. rewrite !Z.land_spec.
  change 0xFFE0 with (Z.ones 11 .<< 5). rewrite Z.shiftl_spec, Z.testbit_ones by lia.
  destruct (decide (5 <= k < 16)) as [Hin|Hout]; [by rewrite H|].
  replace ((0 <=? k - 5) && (k - 5 <? 11)) with false by lia. by rewrite !andb_false_r.
Qed.

(** The upper bits survive every update of the flags. *)
Ltac upper_bits :=
  apply upper_ext; intros k Hk;
  assert (k = 5 \/ k = 6 \/ k = 7 \/ k = 8 \/ k = 9 \/ k = 10 \/ k = 11 \/ k = 12 \/ k = 13 \/ k = 14 \/ k = 15)
    as Hcases by lia;
  repeat (destruct Hcases as [->|Hcases]); subst; by status_bits.

(** * Operands of a width *)

Definition modulus (width : M68kMemoryAccessWidth) : Z := 2 ^ width_bits width.
Definition wrap (width : M68kMemoryAccessWidth) (x : Z) : Z := x mod modulus width.

(** The two's complement value of an operand of [width]. *)
Definition signed (width : M68kMemoryAccessWidth) (x : Z) : Z :=
  if 2 ^ (width_bits width - 1) <=? x then x - modulus width else x.

Definition signed_range (width : M68kMemoryAccessWidth) (x : Z) : bool :=
  (- 2 ^ (width_bits width - 1) <=? x) && (x <? 2 ^ (width_bits width - 1)).

Lemma wrap_range width x : 0 <= wrap width x < modulus width.
Proof. apply Z.mod_pos_bound. by destruct width. Qed.

Lemma wrap_small width x : 0 <= x < modulus width -> wrap width x = x.
Proof. apply Z.mod_small. Qed.

Lemma land_width_mask width x : x .& width_mask width = wrap width x.
Proof.
  unfold wrap, modulus. destruct width; [apply (land_ones_mod x 8)|apply (land_ones_mod x 16)|apply (land_ones_mod x 32)]; lia.
Qed.

Lemma is_set_sign_bit width x : is_set x (width_sign width) = Z.testbit x (width_bits width - 1).
Proof. destruct width; [apply (is_set_bit x 7)|apply (is_set_bit x 15)|apply (is_set_bit x 31)]; lia. Qed.

Lemma is_set_sign width x : 0 <= x < modulus width -> is_set x (width_sign width) = (2 ^ (width_bits width - 1) <=? x).
Proof.
  intros Hx. rewrite is_set_sign_bit. apply top_bit; [by destruct width|by rewrite Z.sub_add].
Qed.

Lemma wrap_u32 width x : wrap width (u32 x) = wrap width x.
Proof.
  unfold wrap, u32, modulus. destruct width; cbn [width_bits].
  - apply Z.mod_mod_divide. by exists 16777216.
  - apply Z.mod_mod_divide. by exists 65536.
  - apply Z.mod_mod_divide. by exists 1.
Qed.

(** * Subtraction and conditions *)

Lemma signed_bounds width x :
  0 <= x < modulus width ->
  - 2 ^ (width_bits width - 1) <= signed width x < 2 ^ (width_bits width - 1) /\ wrap width (signed width x) = x.
Proof.
  unfold signed, wrap, modulus. intros Hx.
  assert (E : 2 ^ width_bits width = 2 * 2 ^ (width_bits width - 1)) by by destruct width.
  destruct (Z.leb_spec (2 ^ (width_bits width - 1)) x).
  - split; [lia|]. rewrite <- (Z.mod_small x (2 ^ width_bits width)) at 2 by lia.
    replace (x - 2 ^ width_bits width) with (x + -1 * 2 ^ width_bits width) by lia. apply Z_mod_plus_full.
  - split; [lia|]. by apply Z.mod_small.
Qed.

(** The flags a subtraction computes, as facts of the operands. *)
Lemma evaluate_subtraction_spec source destination width :
  let s := wrap width source in
  let d := wrap width destination in
  m68k_evaluate_subtraction source destination width =
    mkSum (wrap width (d - s)) (2 ^ (width_bits width - 1) <=? wrap width (d - s)) (d =? s)
      (negb (signed_range width (signed width d - signed width s))) (d <? s).
Proof.
  cbv zeta. unfold m68k_evaluate_subtraction.
  replace (match width with W_byte => 8 | W_word => 16 | W_long_word => 32 end) with (width_bits width) by by destruct width.
  replace (if width_bits width =? 32 then kU32Max else (1 .<< width_bits width) - 1) with (width_mask width) by by destruct width.
  replace (1 .<< (width_bits width - 1)) with (width_sign width) by by destruct width.
  rewrite !land_width_mask, wrap_u32. cbv zeta.
  pose proof (wrap_range width source) as Hs. pose proof (wrap_range width destination) as Hd.
  set (s := wrap width source) in *. set (d := wrap width destination) in *.
  pose proof (wrap_range width (d - s)) as Hr. rewrite is_set_sign by done.
  assert (Er : wrap width (d - s) = if d <? s then d - s + modulus width else d - s).
  { unfold wrap. destruct (Z.ltb_spec d s).
    - rewrite <- (Z.mod_small (d - s + modulus width) (modulus width)) by lia.
      symmetry. replace (d - s + modulus width) with (d - s + 1 * modulus width) by lia. apply Z_mod_plus_full.
    - apply Z.mod_small. lia. }
  assert (E2 : modulus width = 2 * 2 ^ (width_bits width - 1)) by by destruct width.
  f_equal.
  - apply Bool.eq_iff_eq_true. rewrite !Z.eqb_eq, Er. destruct (Z.ltb_spec d s); lia.
  - rewrite is_set_sign_bit, Z.land_spec, !Z.lxor_spec, !top_bit by (done || (rewrite Z.sub_add; done) || by destruct width).
    rewrite Er. unfold signed_range, signed.
    set (h := 2 ^ (width_bits width - 1)) in *. rewrite E2 in *.
    destruct (Z.ltb_spec d s), (Z.leb_spec h d), (Z.leb_spec h s); cbn [xorb andb negb];
      repeat match goal with |- context [?a <=? ?b] => destruct (Z.leb_spec a b) | |- context [?a <? ?b] => destruct (Z.ltb_spec a b) end;
      cbn [xorb andb negb]; (reflexivity || lia).
Qed.

Lemma subtraction_ccr_flags sr source destination width policy :
  let r := m68k_evaluate_subtraction source destination width in
  status_flags (m68k_subtraction_ccr sr source destination width policy) =
    (match policy with XP_preserve => status_x sr | XP_from_carry => sum_carry r end,
     sum_negative r, sum_zero r, sum_overflow r, sum_carry r) /\
  status_upper (m68k_subtraction_ccr sr source destination width policy) = status_upper sr.
Proof.
  cbv zeta. unfold m68k_subtraction_ccr. cbv zeta. split.
  - unfold status_flags, status_x, status_n, status_z, status_v, status_c. destruct policy; by status_bits.
  - destruct policy; upper_bits.
Qed.

(** The relation between destination and source that each condition tests after
    a comparison. *)
Definition compare_relation (width : M68kMemoryAccessWidth) (condition : M68kCondition) (d s : Z) : bool :=
  let difference := signed width d - signed width s in
  match condition with
  | CC_always => true
  | CC_never => false
  | CC_hi => s <? d
  | CC_ls => d <=? s
  | CC_cc => s <=? d
  | CC_cs => d <? s
  | CC_ne => negb (d =? s)
  | CC_eq => d =? s
  | CC_vc => signed_range width difference
  | CC_vs => negb (signed_range width difference)
  | CC_pl => 0 <=? signed width (wrap width (d - s))
  | CC_mi => signed width (wrap width (d - s)) <? 0
  | CC_ge => signed width s <=? signed width d
  | CC_lt => signed width d <? signed width s
  | CC_gt => signed width s <? signed width d
  | CC_le => signed width d <=? signed width s
  end.

(** The sign of the difference, corrected by the overflow flag, is the sign of
    the true difference. *)
Lemma difference_sign width d s :
  0 <= d < modulus width -> 0 <= s < modulus width ->
  Bool.eqb (2 ^ (width_bits width - 1) <=? wrap width (d - s)) (negb (signed_range width (signed width d - signed width s))) =
    (signed width s <=? signed width d).
Proof.
  intros Hd Hs. unfold signed_range, signed, wrap.
  assert (E2 : modulus width = 2 * 2 ^ (width_bits width - 1)) by by destruct width.
  set (h := 2 ^ (width_bits width - 1)) in *. rewrite E2 in *.
  assert (Er : (d - s) mod (2 * h) = if d <? s then d - s + 2 * h else d - s).
  { destruct (Z.ltb_spec d s); [|apply Z.mod_small; lia].
    rewrite <- (Z.mod_small (d - s + 2 * h) (2 * h)) by lia.
    symmetry. replace (d - s + 2 * h) with (d - s + 1 * (2 * h)) by lia. apply Z_mod_plus_full. }
  rewrite Er.
  destruct (Z.ltb_spec d s), (Z.leb_spec h d), (Z.leb_spec h s);
    repeat match goal with |- context [?a <=? ?b] => destruct (Z.leb_spec a b) | |- context [?a <? ?b] => destruct (Z.ltb_spec a b) end;
    cbn [Bool.eqb andb negb]; (reflexivity || lia).
Qed.

Lemma signed_sign width x : 0 <= x < modulus width -> (2 ^ (width_bits width - 1) <=? x) = (signed width x <? 0).
Proof.
  intros Hx. unfold signed. assert (E2 : modulus width = 2 * 2 ^ (width_bits width - 1)) by by destruct width.
  destruct (Z.leb_spec (2 ^ (width_bits width - 1)) x); symmetry; [apply Z.ltb_lt|apply Z.ltb_ge]; lia.
Qed.

Lemma signed_inj width a b : 0 <= a < modulus width -> 0 <= b < modulus width -> signed width a = signed width b -> a = b.
Proof. intros Ha Hb E. by rewrite <- (proj2 (signed_bounds width a Ha)), <- (proj2 (signed_bounds width b Hb)), E. Qed.

(** The conditions and flags after a subtraction. *)
Lemma subtraction_relations (sr source destination : Z) (width : M68kMemoryAccessWidth) (policy : M68kExtendFlagPolicy)
    (condition : M68kCondition) :
  let sr' := m68k_subtraction_ccr sr source destination width policy in
  m68k_evaluate_condition condition sr' =
    compare_relation width condition (wrap width destination) (wrap width source) /\
  status_x sr' =
    match policy with XP_preserve => status_x sr | XP_from_carry => wrap width destination <? wrap width source end /\
  status_upper sr' = status_upper sr.
Proof.
  cbv zeta. destruct (subtraction_ccr_flags sr source destination width policy) as [F U]. split; [|split; [|exact U]].
  - rewrite evaluate_subtraction_spec in F. unfold status_flags in F. cbn [sum_negative sum_zero sum_overflow sum_carry] in F.
    injection F as _ Fn Fz Fv Fc.
    pose proof (wrap_range width source) as Hs. pose proof (wrap_range width destination) as Hd.
    unfold m68k_evaluate_condition. rewrite is_set_n, is_set_z, is_set_v, is_set_c, Fn, Fz, Fv, Fc.
    set (s := wrap width source) in *. set (d := wrap width destination) in *.
    pose proof (wrap_range width (d - s)) as Hr. pose proof (difference_sign width d s Hd Hs) as E.
    pose proof (signed_inj width d s Hd Hs) as Hinj.
    assert (Hcong : d = s -> signed width d = signed width s) by congruence.
    pose proof (signed_sign width (wrap width (d - s)) Hr) as Es.
    destruct condition; cbn [compare_relation]; rewrite ?E, ?negb_involutive, ?Es; try done; lia.
  - rewrite evaluate_subtraction_spec in F. injection F as Fx _ _ _ _. rewrite Fx. by destruct policy.
Qed.

(** C32. After a subtraction or comparison of operands of any width, each of the
    sixteen conditions holds exactly when the operands are in the relation it
    names: unsigned for HI, LS, CC and CS, two's complement for GE, LT, GT and
    LE, equality, sign of the result and signed overflow for the others.  X is
    kept by a comparison and becomes the borrow in a subtraction; the upper bits
    of the status register are kept. *)
Theorem subtraction_conditions (sr source destination : Z) (width : M68kMemoryAccessWidth) (policy : M68kExtendFlagPolicy)
    (condition : M68kCondition) :
  let sr' := m68k_subtraction_ccr sr source destination width policy in
  m68k_evaluate_condition condition sr' =
    compare_relation width condition (wrap width destination) (wrap width source) /\
  status_x sr' =
    match policy with XP_preserve => status_x sr | XP_from_carry => wrap width destination <? wrap width source end /\
  status_upper sr' = status_upper sr.
Proof. apply subtraction_relations. Qed.
