(* ===== verification/M68kChain.v ===== *)
(** Chains of the MC68000 extended and decimal arithmetic: ADDX, SUBX, ABCD, SBCD
    and NBCD compose through the X and Z flags into arithmetic on numbers of any
    length.  The interface [DigitArithmetic] says what one step promises; the
    theorems about chains are proved from it, and the instances discharge it for
    the specifications of [effects.hpp]. *)

From S2P Require Import Prelude M68kInstruction M68kArithmetic.

(** * Multiple-precision arithmetic

    ADDX, SUBX, ABCD and SBCD exist to be chained, least significant digit
    first, through the X and Z flags.  A digit step takes the status register, a
    source and a destination digit to the result digit and the new status. *)

Definition DigitStep : Type := Z -> Z -> Z -> Z * Z.

Fixpoint chain (step : DigitStep) (sr : Z) (digits : list (Z * Z)) : list Z * Z :=
  match digits with
  | [] => ([], sr)
  | (s, d) :: rest =>
      let '(r, sr1) := step sr s d in
      let '(rs, sr2) := chain step sr1 rest in
      (r :: rs, sr2)
  end.

(** The value of digits in a base, least significant first. *)
Fixpoint number (base : Z) (digits : list Z) : Z :=
  match digits with
  | [] => 0
  | d :: rest => d + base * number base rest
  end.

(** What a step promises to a chain: [val] is the value of a [digit], [neg] is -1
    for a subtraction and 1 for an addition, [valid] the pairs it takes. *)
Class DigitArithmetic (step : DigitStep) (base : Z) (digit : Z -> Prop) (val : Z -> Z) (neg : Z)
    (valid : Z -> Z -> Prop) : Prop := {
  da_digit sr s d : valid s d ->
    let '(r, sr') := step sr s d in
    digit r /\
    val r + neg * (base * Z.b2z (status_x sr')) = val d + neg * (val s + Z.b2z (status_x sr)) /\
    status_z sr' = (val r =? 0) && status_z sr /\
    status_c sr' = status_x sr' /\
    status_upper sr' = status_upper sr;
  da_base : 0 < base;
  da_value d : digit d -> 0 <= val d < base;
}.

Section Chain.
Context (step : DigitStep) (base : Z) (digit : Z -> Prop) (val : Z -> Z) (neg : Z) (valid : Z -> Z -> Prop).
Context `{!DigitArithmetic step base digit val neg valid}.

#[local] Abbreviation num l := (number base (map val l)).

Lemma number_range l : Forall digit l -> 0 <= num l < base ^ zlen l.
Proof using All.
  pose proof da_base as Hb. induction 1 as [|d l Hd _ IH]; [done|]. cbn [map number]. pose proof (da_value d Hd).
  rewrite zlen_cons, Z.pow_add_r, Z.pow_1_r by (done || apply zlen_nonneg). nia.
Qed.

Lemma number_zero l : Forall digit l -> (num l =? 0) = forallb (fun d => val d =? 0) l.
Proof using All.
  pose proof da_base as Hb. induction 1 as [|d l Hd Hl IH]; [done|]. cbn [map number forallb]. rewrite <- IH.
  pose proof (number_range l Hl). pose proof (da_value d Hd). destruct (Z.eqb_spec (val d) 0), (Z.eqb_spec (num l) 0); cbn [andb];
    (apply Z.eqb_eq || apply Z.eqb_neq); nia.
Qed.

(** The chain computes the sum or difference of the numbers and of X: the carry
    out of the last digit is X, and Z is cleared by any digit but never set. *)
Lemma chain_exact digits sr :
  Forall (fun '(s, d) => valid s d) digits ->
  let '(rs, sr') := chain step sr digits in
  zlen rs = zlen digits /\ Forall digit rs /\
  num rs + neg * (base ^ zlen digits * Z.b2z (status_x sr')) =
    num digits.*2 + neg * (num digits.*1 + Z.b2z (status_x sr)) /\
  status_z sr' = (num rs =? 0) && status_z sr /\
  (digits <> [] -> status_c sr' = status_x sr') /\
  status_upper sr' = status_upper sr.
Proof using All.
  intros Hv. revert sr. induction Hv as [|[s d] digits Hsd _ IH]; intros sr.
  - cbn [chain]. split_and!; try done. cbn [map number fmap list_fmap]. change (base ^ zlen (@nil (Z * Z))) with 1. ring.
  - cbn [chain]. pose proof (da_digit sr s d Hsd) as Hd. destruct (step sr s d) as [r sr1].
    destruct Hd as (Hr & E & Ez & Ec & Eu). specialize (IH sr1). destruct (chain step sr1 digits) as [rs sr2] eqn:Echain.
    destruct IH as (Hl & Hrs & IE & IZ & IC & IU).
    split_and!; [rewrite !zlen_cons; lia|by constructor| | | |congruence].
    + cbn [map number fmap list_fmap fst snd].
      rewrite zlen_cons, Z.pow_add_r, Z.pow_1_r by (done || apply zlen_nonneg).
      change (list_fmap _ _ fst digits) with digits.*1. change (list_fmap _ _ snd digits) with digits.*2. nia.
    + rewrite IZ, Ez. rewrite andb_assoc. f_equal. rewrite andb_comm.
      rewrite !number_zero by (done || by constructor). done.
    + intros _. destruct digits as [|p digits]; [|by apply IC]. injection Echain as <- <-. exact Ec.
Qed.

Lemma chain_snoc digits sr s d :
  chain step sr (digits ++ [(s, d)]) =
    let '(rs, sr1) := chain step sr digits in
    let '(r, sr2) := step sr1 s d in (rs ++ [r], sr2).
Proof using Type.
  revert sr. induction digits as [|[s0 d0] digits IH]; intros sr; cbn [chain app].
  - by destruct (step sr s d).
  - destruct (step sr s0 d0) as [r0 sr0]. rewrite IH. destruct (chain step sr0 digits) as [rs sr1].
    by destruct (step sr1 s d).
Qed.

Lemma number_snoc l d : num (l ++ [d]) = num l + base ^ zlen l * val d.
Proof using Type.
  induction l as [|d0 l IH]; cbn [map number app];
    [change (base ^ zlen (@nil Z)) with 1; ring|].
  rewrite IH, zlen_cons, Z.pow_add_r, Z.pow_1_r by (done || apply zlen_nonneg). ring.
Qed.

(** The number a chain leaves is the true result modulo the full width, and X
    says that they differ. *)
Lemma chain_wraps digits sr :
  neg = 1 \/ neg = -1 -> Forall (fun '(s, d) => valid s d) digits ->
  let '(rs, sr') := chain step sr digits in
  let M := base ^ zlen digits in
  let y := num digits.*2 + neg * (num digits.*1 + Z.b2z (status_x sr)) in
  0 <= num digits.*1 < M -> 0 <= num digits.*2 < M ->
  Forall digit rs /\ num rs = y mod M /\ status_x sr' = negb ((0 <=? y) && (y <? M)) /\
  status_z sr' = (y mod M =? 0) && status_z sr /\
  (digits <> [] -> status_c sr' = status_x sr') /\
  status_upper sr' = status_upper sr.
Proof using All.
  intros Hneg Hv. pose proof (chain_exact digits sr Hv) as C.
  destruct (chain step sr digits) as [rs sr']. destruct C as (Hlen & Hrs & E & Ez & Ec & Eu). cbv zeta. intros HS HD.
  pose proof (number_range rs Hrs) as HR. rewrite Hlen in HR.
  set (M := base ^ zlen digits) in *. set (y := num digits.*2 + neg * (num digits.*1 + Z.b2z (status_x sr))) in *.
  assert (Em : y mod M = num rs).
  { symmetry. apply (Z.mod_unique_pos _ _ (neg * Z.b2z (status_x sr'))); [done|lia]. }
  rewrite Em. split_and!; try done. clearbody y. clear Ec Ez Em.
  destruct (status_x sr'); cbn [Z.b2z] in E; destruct Hneg as [->| ->];
    destruct (Z.leb_spec 0 y), (Z.ltb_spec y M); cbn [andb negb]; (done || lia).
Qed.
End Chain.

(** * ADDX and SUBX chains *)

Definition kind_sign (kind : M68kExtendedArithmeticKind) : Z := match kind with XA_add => 1 | XA_subtract => -1 end.

(** The full result of one digit, before it is wrapped. *)
Definition extended_sum (kind : M68kExtendedArithmeticKind) (s d : Z) (x : bool) : Z :=
  d + kind_sign kind * (s + Z.b2z x).

Lemma extended_wrap kind width s d x :
  0 <= s < modulus width -> 0 <= d < modulus width ->
  wrap width (extended_sum kind s d x) =
    extended_sum kind s d x +
      (if extended_sum kind s d x <? 0 then modulus width
       else if modulus width <=? extended_sum kind s d x then - modulus width else 0).
Proof.
  intros Hs Hd. unfold wrap. set (y := extended_sum kind s d x).
  assert (Hy : - modulus width <= y < 2 * modulus width).
  { unfold y, extended_sum, kind_sign. destruct kind, x; cbn [Z.b2z]; lia. }
  destruct (Z.ltb_spec y 0); [|destruct (Z.leb_spec (modulus width) y)].
  - rewrite <- (Z_mod_plus_full y 1), Z.mod_small by lia. lia.
  - rewrite <- (Z_mod_plus_full y (-1)), Z.mod_small by lia. lia.
  - rewrite Z.mod_small by lia. lia.
Qed.

(** One digit, as facts of its operands. *)
Lemma evaluate_extended_spec kind source destination x width :
  let s := wrap width source in
  let d := wrap width destination in
  let y := extended_sum kind s d x in
  m68k_evaluate_extended_arithmetic kind source destination x width =
    mkExtended (wrap width y) (2 ^ (width_bits width - 1) <=? wrap width y)
      (negb (signed_range width (extended_sum kind (signed width s) (signed width d) x)))
      (negb ((0 <=? y) && (y <? modulus width))).
Proof.
  cbv zeta. unfold m68k_evaluate_extended_arithmetic. cbv zeta. rewrite !land_width_mask.
  pose proof (wrap_range width source) as Hs. pose proof (wrap_range width destination) as Hd.
  set (s := wrap width source) in *. set (d := wrap width destination) in *.
  replace (wrap width (match kind with XA_add => _ | XA_subtract => _ end)) with (wrap width (extended_sum kind s d x)).
  2: { unfold extended_sum, flag. destruct kind, x; cbn [kind_sign Z.b2z]; rewrite wrap_u32; f_equal; lia. }
  pose proof (extended_wrap kind width s d x Hs Hd) as Er.
  pose proof (wrap_range width (extended_sum kind s d x)) as Hr. set (r := wrap width (extended_sum kind s d x)) in *.
  assert (E2 : modulus width = 2 * 2 ^ (width_bits width - 1)) by by destruct width.
  assert (Hb : 0 <= width_bits width - 1 < 32) by by destruct width.
  assert (Htop : forall v, 0 <= v < modulus width -> Z.testbit v (width_bits width - 1) = (2 ^ (width_bits width - 1) <=? v)).
  { intros v Hv. apply top_bit; [lia|by rewrite Z.sub_add]. }
  unfold signed_range, signed. f_equal; [by apply is_set_sign| |];
    destruct kind; rewrite is_set_sign_bit, !Z.lor_spec, !Z.land_spec, ?testbit_not32, !Htop by done;
    unfold extended_sum, kind_sign in *; set (h := 2 ^ (width_bits width - 1)) in *; rewrite E2 in *;
    clearbody r; destruct x; cbn [Z.b2z] in *;
    destruct (Z.leb_spec h d), (Z.leb_spec h s), (Z.leb_spec h r); cbn [andb orb negb];
    repeat match goal with
    | |- context [?a <=? ?b] => destruct (Z.leb_spec a b)
    | |- context [?a <? ?b] => destruct (Z.ltb_spec a b)
    end; cbn [andb orb negb]; (reflexivity || (exfalso;
    repeat match goal with
    | H : context [?a <=? ?b] |- _ => destruct (Z.leb_spec a b)
    | H : context [?a <? ?b] |- _ => destruct (Z.ltb_spec a b)
    end; lia)).
Qed.

(** ADDX or SUBX of a digit: the result and the new status register. *)
Definition extended_step (kind : M68kExtendedArithmeticKind) (width : M68kMemoryAccessWidth) : DigitStep :=
  fun sr s d =>
    (xr_result (m68k_evaluate_extended_arithmetic kind s d (is_set sr 0x0010) width),
     m68k_extended_arithmetic_ccr sr kind s d width).

Lemma extended_ccr_flags sr kind source destination width :
  let r := m68k_evaluate_extended_arithmetic kind source destination (status_x sr) width in
  status_flags (m68k_extended_arithmetic_ccr sr kind source destination width) =
    (xr_carry r, xr_negative r, (xr_result r =? 0) && status_z sr, xr_overflow r, xr_carry r) /\
  status_upper (m68k_extended_arithmetic_ccr sr kind source destination width) = status_upper sr.
Proof.
  cbv zeta. unfold m68k_extended_arithmetic_ccr. cbv zeta. rewrite is_set_x, is_set_z. split; [|upper_bits].
  unfold status_flags, status_x, status_n, status_z, status_v, status_c. by status_bits.
Qed.

Definition digits_of (width : M68kMemoryAccessWidth) (s d : Z) : Prop := 0 <= s < modulus width /\ 0 <= d < modulus width.

#[export] Instance extended_digit kind width :
  DigitArithmetic (extended_step kind width) (modulus width) (fun v => 0 <= v < modulus width) id (kind_sign kind)
    (digits_of width).
Proof.
  split; [|by destruct width|done].
  intros sr s d [Hs Hd]. unfold extended_step. rewrite is_set_x.
  destruct (extended_ccr_flags sr kind s d width) as [F U]. rewrite evaluate_extended_spec in *.
  rewrite !(wrap_small width s), !(wrap_small width d) in * by done.
  cbn [xr_carry xr_negative xr_result xr_overflow] in *. injection F as Fx Fn Fz Fv Fc.
  rewrite Fz, Fc, Fx, U. cbv beta iota delta [id].
  split_and!; try done; try apply wrap_range.
  rewrite extended_wrap by done.
  set (y := extended_sum kind s d (status_x sr)).
  assert (Ey : d + kind_sign kind * (s + Z.b2z (status_x sr)) = y) by done. rewrite Ey.
  assert (Hy : match kind with XA_add => 0 <= y < 2 * modulus width | XA_subtract => - modulus width <= y < modulus width end).
  { unfold y, extended_sum. destruct kind, (status_x sr); cbn [kind_sign Z.b2z]; lia. }
  clearbody y. clear Fx Fz Fc Fn Fv. destruct kind; cbn [kind_sign];
    destruct (Z.ltb_spec y 0), (Z.leb_spec 0 y), (Z.leb_spec (modulus width) y), (Z.ltb_spec y (modulus width));
    cbn [andb negb Z.b2z]; lia.
Qed.

(** The two's complement value of a number modulo [m], and its range. *)
Definition wide_signed (m x : Z) : Z := if m <=? 2 * x then x - m else x.
Definition wide_range (m y : Z) : bool := (- m <=? 2 * y) && (2 * y <? m).

Lemma wide_signed_width width x : wide_signed (modulus width) x = signed width x.
Proof.
  unfold wide_signed, signed. assert (E2 : modulus width = 2 * 2 ^ (width_bits width - 1)) by by destruct width.
  rewrite E2. set (h := 2 ^ (width_bits width - 1)).
  destruct (Z.leb_spec (2 * h) (2 * x)), (Z.leb_spec h x); lia.
Qed.

Lemma wide_range_width width y : wide_range (modulus width) y = signed_range width y.
Proof.
  unfold wide_range, signed_range. assert (E2 : modulus width = 2 * 2 ^ (width_bits width - 1)) by by destruct width.
  rewrite E2. set (h := 2 ^ (width_bits width - 1)). lia.
Qed.


(** The sign and the range of a number are those of its top digit, for digits of
    an even base. *)
Lemma wide_sign_top p h low d : 0 <= low < p -> (p * (2 * h) <=? 2 * (low + p * d)) = (2 * h <=? 2 * d).
Proof. intros Hl. destruct (Z.leb_spec (p * (2 * h)) (2 * (low + p * d))), (Z.leb_spec (2 * h) (2 * d)); nia. Qed.

Lemma wide_signed_top p h low d : 0 <= low < p -> wide_signed (p * (2 * h)) (low + p * d) = low + p * wide_signed (2 * h) d.
Proof. intros Hl. unfold wide_signed. rewrite wide_sign_top by done. destruct (2 * h <=? 2 * d); lia. Qed.

Lemma wide_range_top p h low d : 0 <= low < p -> wide_range (p * (2 * h)) (low + p * d) = wide_range (2 * h) d.
Proof.
  intros Hl. unfold wide_range.
  destruct (Z.leb_spec (- (p * (2 * h))) (2 * (low + p * d))), (Z.leb_spec (- (2 * h)) (2 * d)),
    (Z.ltb_spec (2 * (low + p * d)) (p * (2 * h))), (Z.ltb_spec (2 * d) (2 * h)); cbn [andb]; (done || nia).
Qed.

(** A digit chain of the whole, seen from its last digit. *)
Lemma extended_chain_last kind width sr digits s d :
  Forall (fun '(s, d) => digits_of width s d) digits -> digits_of width s d ->
  let B := modulus width in
  let P := B ^ zlen digits in
  let '(rs, sr1) := chain (extended_step kind width) sr digits in
  let top := extended_sum kind s d (status_x sr1) in
  chain (extended_step kind width) sr (digits ++ [(s, d)]) = (rs ++ [wrap width top], m68k_extended_arithmetic_ccr sr1 kind s d width) /\
  zlen rs = zlen digits /\ 0 <= number B rs < P /\
  number B rs + kind_sign kind * (P * Z.b2z (status_x sr1)) = extended_sum kind (number B digits.*1) (number B digits.*2) (status_x sr) /\
  status_n (m68k_extended_arithmetic_ccr sr1 kind s d width) = (2 ^ (width_bits width - 1) <=? wrap width top) /\
  status_v (m68k_extended_arithmetic_ccr sr1 kind s d width) =
    negb (signed_range width (extended_sum kind (signed width s) (signed width d) (status_x sr1))).
Proof.
  intros Hl [Hs Hd]. cbv zeta. pose proof (chain_exact (extended_step kind width) (modulus width) (fun v => 0 <= v < modulus width) id (kind_sign kind)
    (digits_of width) digits sr Hl) as C.
  rewrite (chain_snoc (extended_step kind width)).
  destruct (chain (extended_step kind width) sr digits) as [rs sr1]. destruct C as (Hlen & Hrs & E & _).
  pose proof (number_range (extended_step kind width) (modulus width) (fun v => 0 <= v < modulus width) id (kind_sign kind) (digits_of width) rs Hrs) as Hr.
  rewrite !map_id in *. rewrite Hlen in Hr.
  destruct (extended_ccr_flags sr1 kind s d width) as [F _]. rewrite evaluate_extended_spec in F.
  rewrite !(wrap_small width s), !(wrap_small width d) in F by done.
  cbn [xr_carry xr_negative xr_result xr_overflow] in F. injection F as _ Fn _ Fv _.
  unfold extended_step at 1. rewrite is_set_x, evaluate_extended_spec, !(wrap_small width s), !(wrap_small width d) by done.
  split_and!; try done; lia.
Qed.

Lemma digits_number_range width digits :
  Forall (fun '(s, d) => digits_of width s d) digits ->
  0 <= number (modulus width) digits.*1 < modulus width ^ zlen digits /\
  0 <= number (modulus width) digits.*2 < modulus width ^ zlen digits.
Proof.
  intros Hl.
  assert (Hf : Forall (fun v => 0 <= v < modulus width) digits.*1 /\ Forall (fun v => 0 <= v < modulus width) digits.*2)
    by (split; apply Forall_fmap; eapply Forall_impl; [exact Hl|intros [s d] [] |exact Hl|intros [s d] []]; done).
  destruct Hf as [H1 H2].
  pose proof (number_range (extended_step XA_add width) (modulus width) (fun v => 0 <= v < modulus width) id (kind_sign XA_add) (digits_of width) _ H1) as N1.
  pose proof (number_range (extended_step XA_add width) (modulus width) (fun v => 0 <= v < modulus width) id (kind_sign XA_add) (digits_of width) _ H2) as N2.
  rewrite !map_id in N1, N2. unfold zlen in *. by rewrite !length_fmap in N1, N2.
Qed.

(** C31. ADDX and SUBX chains compute multiple-precision arithmetic: over any
    number of digits of any width, from any status register, the result digits
    are the sum or difference of the two numbers and X modulo their full width;
    X and C are the carry or borrow out of it, N and V its sign and its two's
    complement overflow, Z is kept only if the whole result is zero, and the
    upper bits of the status register are kept. *)
Theorem extended_chain_exact (kind : M68kExtendedArithmeticKind) (width : M68kMemoryAccessWidth) (sr : Z)
    (digits : list (Z * Z)) (Hdigits : Forall (fun '(s, d) => digits_of width s d) digits) (Hne : 0 < zlen digits) :
  let M := modulus width ^ zlen digits in
  let S := number (modulus width) digits.*1 in
  let D := number (modulus width) digits.*2 in
  let y := extended_sum kind S D (status_x sr) in
  let carry := negb ((0 <=? y) && (y <? M)) in
  let '(rs, sr') := chain (extended_step kind width) sr digits in
  number (modulus width) rs = y mod M /\
  status_flags sr' =
    (carry, M <=? 2 * (y mod M), (y mod M =? 0) && status_z sr,
     negb (wide_range M (extended_sum kind (wide_signed M S) (wide_signed M D) (status_x sr))), carry) /\
  status_upper sr' = status_upper sr.
Proof.
  cbv zeta. pose proof (chain_exact (extended_step kind width) (modulus width) (fun v => 0 <= v < modulus width) id (kind_sign kind)
    (digits_of width) digits sr Hdigits) as C.
  destruct digits as [|[s d] digits _] using rev_ind; [done|].
  apply Forall_app in Hdigits as [Hl Hsd]. apply Forall_inv in Hsd.
  pose proof (extended_chain_last kind width sr digits s d Hl Hsd) as L. cbv zeta in L.
  destruct (chain (extended_step kind width) sr digits) as [rs sr1].
  destruct L as (Echain & Hlen & Hr & E & Fn & Fv). rewrite Echain in *.
  set (sr' := m68k_extended_arithmetic_ccr sr1 kind s d width) in *. clearbody sr'.
  set (top := extended_sum kind s d (status_x sr1)) in *.
  destruct C as (Hlen' & Hrs & E' & Ez & Ec & Eu).
  pose proof (number_range (extended_step kind width) (modulus width) (fun v => 0 <= v < modulus width) id (kind_sign kind) (digits_of width) _ Hrs) as HR.
  rewrite !map_id in *. rewrite Hlen' in HR.
  assert (Enum : forall l v, number (modulus width) (l ++ [v]) = number (modulus width) l + modulus width ^ zlen l * v).
  { intros l v. pose proof (number_snoc (modulus width) id l v) as N. by rewrite !map_id in N. }
  assert (E2 : modulus width = 2 * 2 ^ (width_bits width - 1)) by by destruct width.
  rewrite !fmap_app in *. cbn [fmap list_fmap fst snd] in *.
  assert (Ez1 : zlen (digits.*1) = zlen digits) by (unfold zlen; by rewrite length_fmap).
  assert (Ez2 : zlen (digits.*2) = zlen digits) by (unfold zlen; by rewrite length_fmap).
  rewrite !Enum, ?Ez1, ?Ez2, ?Hlen in *. rewrite zlen_snoc, Z.pow_add_r, Z.pow_1_r in * by (done || apply zlen_nonneg).
  destruct (digits_number_range width digits Hl) as [HS HD].
  set (P := modulus width ^ zlen digits) in *. clearbody P.
  set (R := number (modulus width) rs + P * wrap width top) in *.
  set (D' := number (modulus width) digits.*2) in *. set (S' := number (modulus width) digits.*1) in *.
  set (y := extended_sum kind (S' + P * s) (D' + P * d) (status_x sr)).
  assert (Ey : y = P * modulus width * (kind_sign kind * Z.b2z (status_x sr')) + R) by (unfold y, extended_sum; lia).
  assert (Emod : y mod (P * modulus width) = R).
  { symmetry. by apply (Z.mod_unique_pos _ _ (kind_sign kind * Z.b2z (status_x sr'))). }
  rewrite Emod. split; [done|split; [|done]].
  assert (Ecarry : negb ((0 <=? y) && (y <? P * modulus width)) = status_x sr').
  { rewrite Ey. destruct kind, (status_x sr'); cbn [kind_sign Z.b2z]; lia. }
  rewrite Ecarry. unfold status_flags. rewrite Ez, Ec, Fn, Fv by by destruct digits.
  assert (Er : 0 <= wrap width top < modulus width) by apply wrap_range.
  rewrite <- wide_range_width. unfold R in *. set (R0 := number (modulus width) rs) in *. clearbody D' S' R0.
  rewrite E2, (wide_sign_top P), !(wide_signed_top P) by first [exact HS|exact HD|exact Hr].
  rewrite <- E2, !wide_signed_width.
  replace (modulus width <=? 2 * wrap width top) with (2 ^ (width_bits width - 1) <=? wrap width top) by lia.
  do 3 f_equal. rewrite E2, <- (wide_range_top P _ R0) by done. f_equal.
  unfold extended_sum in *. destruct kind; cbn [kind_sign] in *; lia.
Qed.

(** * ABCD, SBCD and NBCD chains *)

(** A byte of two decimal digits, and its value. *)
Definition is_bcd (b : Z) : Prop := 0 <= b /\ b / 16 <= 9 /\ b mod 16 <= 9.
Definition bcd_value (b : Z) : Z := 10 * (b / 16) + b mod 16.

Definition decimal_step (kind : M68kDecimalArithmeticKind) : DigitStep :=
  fun sr s d =>
    (dr_result (m68k_evaluate_decimal_arithmetic kind s d (is_set sr 0x0010)),
     m68k_decimal_arithmetic_ccr sr kind s d).

(** NBCD subtracts its operand from zero: the operand is the source of the step
    and the destination of the instruction. *)
Definition negate_decimal_step : DigitStep :=
  fun sr s _ =>
    (dr_result (m68k_evaluate_decimal_arithmetic DA_negate 0 s (is_set sr 0x0010)),
     m68k_decimal_arithmetic_ccr sr DA_negate 0 s).

Lemma low_nibble b : b .& 0x0F = b mod 16.
Proof. apply (land_ones_mod b 4). lia. Qed.

Lemma high_nibble b : is_u8 b -> b .& 0xF0 = 16 * (b / 16).
Proof.
  intros Hb. change 0xF0 with (Z.ones 4 .<< 4). apply Z.bits_inj'. intros k Hk.
  rewrite Z.land_spec, Z.shiftl_spec, Z.testbit_ones by lia.
  replace (16 * (b / 16)) with ((b .>> 4) .<< 4) by (rewrite Z.shiftr_div_pow2, Z.shiftl_mul_pow2 by lia; change (2 ^ 4) with 16; ring).
  rewrite Z.shiftl_spec by lia. destruct (Z.ltb_spec k 4).
  - replace (0 <=? k - 4) with false by lia. rewrite andb_false_r, Z.testbit_neg_r by lia. done.
  - rewrite Z.shiftr_spec by lia.
    destruct (Z.ltb_spec k 8).
    + rewrite Z.sub_add. replace ((0 <=? k - 4) && (k - 4 <? 4)) with true by lia. apply andb_true_r.
    + assert (E : b mod 2 ^ 8 = b) by (apply Z.mod_small; exact Hb).
      rewrite Z.sub_add, <- E, Z.mod_pow2_bits_high by lia. done.
Qed.

Lemma u32_window x : - 4294967296 <= x < 4294967296 -> u32 x = if x <? 0 then x + 4294967296 else x.
Proof.
  intros Hx. unfold u32. destruct (Z.ltb_spec x 0); [|apply Z.mod_small; lia].
  rewrite <- (Z_mod_plus_full x 1), Z.mod_small by lia. lia.
Qed.

Lemma bcd_u8 b : is_bcd b -> is_u8 b.
Proof. unfold is_bcd, is_u8. intros. Z.to_euclidean_division_equations; lia. Qed.

(** A byte of two nibbles. *)
Lemma bcd_intro hi lo : 0 <= hi <= 9 -> 0 <= lo <= 9 -> is_bcd (16 * hi + lo) /\ bcd_value (16 * hi + lo) = 10 * hi + lo.
Proof.
  intros Hh Hl. unfold is_bcd, bcd_value.
  assert ((16 * hi + lo) / 16 = hi) as -> by (Z.to_euclidean_division_equations; lia).
  assert ((16 * hi + lo) mod 16 = lo) as -> by (Z.to_euclidean_division_equations; lia). lia.
Qed.

Lemma bcd_elim b : is_bcd b -> exists hi lo, 0 <= hi <= 9 /\ 0 <= lo <= 9 /\ b = 16 * hi + lo /\
  b mod 16 = lo /\ b / 16 = hi /\ bcd_value b = 10 * hi + lo /\ is_u8 b.
Proof.
  intros Hb. pose proof (bcd_u8 b Hb). exists (b / 16), (b mod 16). unfold is_bcd, is_u8 in *.
  pose proof (Z.div_mod b 16). pose proof (Z.mod_pos_bound b 16).
  split_and!; try done; lia.
Qed.

(** A result byte given by its digits, against the decimal result [y] it
    represents with a carry or a borrow of a hundred. *)
Definition decimal_ok (r : M68kDecimalArithmeticResult) (y : Z) : Prop :=
  is_bcd (dr_result r) /\ bcd_value (dr_result r) = y mod 100 /\ dr_carry r = negb ((0 <=? y) && (y <? 100)) /\
  dr_clears_zero r = negb (bcd_value (dr_result r) =? 0).

Lemma decimal_intro v carry n o cz y q hi lo :
  v = 16 * hi + lo -> 0 <= hi <= 9 -> 0 <= lo <= 9 -> y = 100 * q + (10 * hi + lo) ->
  carry = negb ((0 <=? y) && (y <? 100)) -> cz = negb (v =? 0) -> decimal_ok (mkDecimal v carry n o cz) y.
Proof.
  intros -> Hh Hl Hy Hc ->. destruct (bcd_intro hi lo Hh Hl) as [Hb Hv]. unfold decimal_ok.
  cbn [dr_result dr_carry dr_clears_zero]. rewrite Hv. split_and!; [done| |done|].
  - apply (Z.mod_unique_pos _ _ q); lia.
  - f_equal. destruct (Z.eqb_spec (16 * hi + lo) 0), (Z.eqb_spec (10 * hi + lo) 0); lia.
Qed.

Ltac decimal_digits :=
  repeat (rewrite u32_window by lia;
    first [rewrite (proj2 (Z.ltb_ge _ 0)) by lia | rewrite (proj2 (Z.ltb_lt _ 0)) by lia]).

Lemma decimal_add_exact s d x : is_bcd s -> is_bcd d ->
  decimal_ok (m68k_evaluate_decimal_arithmetic DA_add s d x) (bcd_value d + bcd_value s + Z.b2z x).
Proof.
  intros Hs Hd. destruct (bcd_elim s Hs) as (sh & sl & Hsh & Hsl & Es & Ems & Eds & Evs & Bs).
  destruct (bcd_elim d Hd) as (dh & dl & Hdh & Hdl & Ed & Emd & Edd & Evd & Bd).
  unfold m68k_evaluate_decimal_arithmetic. cbv zeta.
  rewrite !land_ff, !(u8_id s), !(u8_id d), !low_nibble, !(high_nibble s), !(high_nibble d), Ems, Emd, Eds, Edd, Evs, Evd
    by done.
  unfold flag. change (if x then 1 else 0) with (Z.b2z x).
  assert (Hx : 0 <= Z.b2z x <= 1) by (destruct x; cbn; lia). set (c := Z.b2z x) in *. clearbody c.
  clear Ems Emd Eds Edd Evs Evd Hs Hd Bs Bd Es Ed.
  set (low := if 9 <? sl + dl + c then 1 else 0).
  assert (Hlow : 0 <= sl + dl + c - 10 * low <= 9 /\ 0 <= low <= 1) by (unfold low; destruct (Z.ltb_spec 9 (sl + dl + c)); lia).
  replace (if 9 <? sl + dl + c then u32 (sl + dl + c + 6) else sl + dl + c) with (sl + dl + c + 6 * low)
    by (unfold low; destruct (Z.ltb_spec 9 (sl + dl + c)); decimal_digits; lia).
  clearbody low. decimal_digits.
  destruct (Z.ltb_spec 153 (sl + dl + c + 6 * low + 16 * sh + 16 * dh)); decimal_digits; rewrite u8_id by (unfold is_u8; lia).
  - by apply (decimal_intro _ _ _ _ _ _ 1 (sh + dh + low - 10) (sl + dl + c - 10 * low)); try lia.
  - by apply (decimal_intro _ _ _ _ _ _ 0 (sh + dh + low) (sl + dl + c - 10 * low)); try lia.
Qed.

Lemma decimal_subtract_exact s d x : is_bcd s -> is_bcd d ->
  decimal_ok (m68k_evaluate_decimal_arithmetic DA_subtract s d x) (bcd_value d - bcd_value s - Z.b2z x).
Proof.
  intros Hs Hd. destruct (bcd_elim s Hs) as (sh & sl & Hsh & Hsl & Es & Ems & Eds & Evs & Bs).
  destruct (bcd_elim d Hd) as (dh & dl & Hdh & Hdl & Ed & Emd & Edd & Evd & Bd).
  unfold m68k_evaluate_decimal_arithmetic. cbv zeta.
  rewrite !land_ff, !(u8_id s), !(u8_id d), !low_nibble, !(high_nibble s), !(high_nibble d), Ems, Emd, Eds, Edd, Evs, Evd
    by done.
  unfold flag. change (if x then 1 else 0) with (Z.b2z x).
  assert (Hx : 0 <= Z.b2z x <= 1) by (destruct x; cbn; lia). set (c := Z.b2z x) in *. clearbody c.
  clear Ems Emd Eds Edd Evs Evd Hs Hd Bs Bd Es Ed.
  set (low := if dl - sl - c <? 0 then 1 else 0).
  assert (Hlow : 0 <= dl - sl - c + 10 * low <= 9 /\ 0 <= low <= 1) by (unfold low; destruct (Z.ltb_spec (dl - sl - c) 0); lia).
  replace (u32 ((if 9 <? u32 (dl - sl - c) then u32 (u32 (dl - sl - c) - 6) else u32 (dl - sl - c)) + 16 * dh - 16 * sh))
    with (u32 (dl - sl - c - 6 * low + 16 * dh - 16 * sh)).
  2: { unfold low. rewrite (u32_window (dl - sl - c)) by lia. destruct (Z.ltb_spec (dl - sl - c) 0).
       - rewrite (proj2 (Z.ltb_lt 9 _)) by lia.
         rewrite (u32_window (_ - 6)), (proj2 (Z.ltb_ge (_ - 6) 0)) by lia. unfold u32.
         replace (dl - sl - c + 4294967296 - 6 + 16 * dh - 16 * sh) with (dl - sl - c - 6 * 1 + 16 * dh - 16 * sh + 1 * 4294967296) by lia.
         by rewrite Z_mod_plus_full.
       - rewrite (proj2 (Z.ltb_ge 9 _)) by lia. f_equal. lia. }
  clearbody low.
  destruct (Z.ltb_spec (dl - sl - c - 6 * low + 16 * dh - 16 * sh) 0).
  - decimal_digits. rewrite (proj2 (Z.ltb_lt 153 _)) by lia. 
    unfold u32. rewrite <- (Z_mod_plus_full _ (-1)), Z.mod_small by lia. rewrite u8_id by (unfold is_u8; lia).
    apply (decimal_intro _ _ _ _ _ _ (-1) (dh - sh - low + 10) (dl - sl - c + 10 * low)); try done; lia.
  - decimal_digits. rewrite (proj2 (Z.ltb_ge 153 _)) by lia. rewrite u8_id by (unfold is_u8; lia).
    apply (decimal_intro _ _ _ _ _ _ 0 (dh - sh - low) (dl - sl - c + 10 * low)); try done; lia.
Qed.

Lemma decimal_negate_exact d x : is_bcd d ->
  decimal_ok (m68k_evaluate_decimal_arithmetic DA_negate 0 d x) (- bcd_value d - Z.b2z x).
Proof.
  intros Hd. destruct (bcd_elim d Hd) as (dh & dl & Hdh & Hdl & Ed & Emd & Edd & Evd & Bd).
  unfold m68k_evaluate_decimal_arithmetic, decimal_negate. cbv zeta. rewrite !land_ff, (u8_id d), Evd by done.
  unfold flag. change (if x then 1 else 0) with (Z.b2z x).
  assert (Hx : 0 <= Z.b2z x <= 1) by (destruct x; cbn; lia). set (c := Z.b2z x) in *. clearbody c.
  clear Emd Edd Evd Hd Bd. subst d.
  rewrite (u32_window (154 - _ - c)) by lia. rewrite (proj2 (Z.ltb_ge (154 - _ - c) 0)) by lia.
  rewrite (u8_id (154 - _ - c)) by (unfold is_u8; lia).
  destruct (Z.eqb_spec (154 - (16 * dh + dl) - c) 154).
  - apply (decimal_intro _ _ _ _ _ _ 0 dh dl); try done; lia.
  - rewrite low_nibble, high_nibble by (unfold is_u8; lia).
    set (low := if dl + c =? 0 then 0 else 1).
    assert (Em : (154 - (16 * dh + dl) - c) mod 16 = 10 - (dl + c)).
    { symmetry. apply (Z.mod_unique_pos _ _ (9 - dh)); lia. }
    assert (Ed : (154 - (16 * dh + dl) - c) / 16 = 9 - dh).
    { symmetry. apply (Z.div_unique_pos _ _ _ (10 - (dl + c))); lia. }
    rewrite Em, Ed. destruct (Z.eqb_spec (10 - (dl + c)) 10); rewrite u8_id by (unfold is_u8; lia).
    + apply (decimal_intro _ _ _ _ _ _ (-1) (10 - dh) 0); try done; lia.
    + apply (decimal_intro _ _ _ _ _ _ (-1) (9 - dh) (10 - (dl + c))); try done; lia.
Qed.

(** The step instances: a byte of two digits is a digit of base 100. *)
Lemma decimal_ccr_flags sr kind source destination :
  let r := m68k_evaluate_decimal_arithmetic kind source destination (status_x sr) in
  status_x (m68k_decimal_arithmetic_ccr sr kind source destination) = dr_carry r /\
  status_c (m68k_decimal_arithmetic_ccr sr kind source destination) = dr_carry r /\
  status_z (m68k_decimal_arithmetic_ccr sr kind source destination) = negb (dr_clears_zero r) && status_z sr /\
  status_upper (m68k_decimal_arithmetic_ccr sr kind source destination) = status_upper sr.
Proof.
  cbv zeta. unfold m68k_decimal_arithmetic_ccr. cbv zeta. rewrite is_set_x, is_set_z.
  split_and!; [unfold status_x, status_z; by status_bits|unfold status_c, status_z; by status_bits|
    unfold status_z; by status_bits|upper_bits].
Qed.

(** A correct decimal byte is a correct digit step of base 100. *)
Lemma decimal_digit_step sr neg kind source destination s d :
  decimal_ok (m68k_evaluate_decimal_arithmetic kind source destination (status_x sr)) (d + neg * (s + Z.b2z (status_x sr))) ->
  (neg = 1 \/ neg = -1) -> 0 <= s < 100 -> 0 <= d < 100 ->
  let r := dr_result (m68k_evaluate_decimal_arithmetic kind source destination (is_set sr 0x0010)) in
  let sr' := m68k_decimal_arithmetic_ccr sr kind source destination in
  is_bcd r /\
  bcd_value r + neg * (100 * Z.b2z (status_x sr')) = d + neg * (s + Z.b2z (status_x sr)) /\
  status_z sr' = (bcd_value r =? 0) && status_z sr /\
  status_c sr' = status_x sr' /\
  status_upper sr' = status_upper sr.
Proof.
  intros (Hb & Hv & Hc & Hz) Hneg Hs Hd. cbv zeta. rewrite is_set_x.
  destruct (decimal_ccr_flags sr kind source destination) as (-> & -> & -> & ->).
  set (r := m68k_evaluate_decimal_arithmetic kind source destination (status_x sr)) in *.
  rewrite Hc, Hz, negb_involutive. split_and!; try done. rewrite Hv. clear Hc Hz Hv.
  set (y := d + neg * (s + Z.b2z (status_x sr))) in *.
  assert (Hy : neg = 1 /\ 0 <= y < 200 \/ neg = -1 /\ -101 < y < 100).
  { unfold y. destruct (status_x sr), Hneg as [-> | ->]; cbn [Z.b2z]; lia. }
  clearbody y. destruct Hy as [[-> Hy]|[-> Hy]];
    destruct (Z.leb_spec 0 y), (Z.ltb_spec y 100); cbn [andb negb Z.b2z]; Z.to_euclidean_division_equations; lia.
Qed.

Lemma bcd_value_range b : is_bcd b -> 0 <= bcd_value b < 100.
Proof. intros Hb. destruct (bcd_elim b Hb) as (hi & lo & ? & ? & _ & _ & _ & -> & _). lia. Qed.

Definition bcd_pair (s d : Z) : Prop := is_bcd s /\ is_bcd d.

#[export] Instance decimal_add_digit : DigitArithmetic (decimal_step DA_add) 100 is_bcd bcd_value 1 bcd_pair.
Proof.
  split; [|done|apply bcd_value_range]. intros sr s d [Hs Hd]. unfold decimal_step.
  pose proof (bcd_value_range s Hs). pose proof (bcd_value_range d Hd).
  apply (decimal_digit_step sr 1 DA_add); try done; [|by left].
  pose proof (decimal_add_exact s d (status_x sr) Hs Hd) as H1.
  by replace (bcd_value d + 1 * (bcd_value s + Z.b2z (status_x sr))) with (bcd_value d + bcd_value s + Z.b2z (status_x sr)) by lia.
Qed.

#[export] Instance decimal_subtract_digit : DigitArithmetic (decimal_step DA_subtract) 100 is_bcd bcd_value (-1) bcd_pair.
Proof.
  split; [|done|apply bcd_value_range]. intros sr s d [Hs Hd]. unfold decimal_step.
  pose proof (bcd_value_range s Hs). pose proof (bcd_value_range d Hd).
  apply (decimal_digit_step sr (-1) DA_subtract); try done; [|by right].
  pose proof (decimal_subtract_exact s d (status_x sr) Hs Hd) as H1.
  by replace (bcd_value d + -1 * (bcd_value s + Z.b2z (status_x sr))) with (bcd_value d - bcd_value s - Z.b2z (status_x sr)) by lia.
Qed.

#[export] Instance decimal_negate_digit :
  DigitArithmetic negate_decimal_step 100 is_bcd bcd_value (-1) (fun s d => is_bcd s /\ d = 0).
Proof.
  split; [|done|apply bcd_value_range]. intros sr s d [Hs ->]. unfold negate_decimal_step.
  pose proof (bcd_value_range s Hs). change (bcd_value 0) with 0.
  apply (decimal_digit_step sr (-1) DA_negate); try done; [|by right].
  pose proof (decimal_negate_exact s (status_x sr) Hs) as H1.
  by replace (0 + -1 * (bcd_value s + Z.b2z (status_x sr))) with (- bcd_value s - Z.b2z (status_x sr)) by lia.
Qed.

(** The decimal instructions as digit steps, their sign and their operands. *)
Definition decimal_chain_step (kind : M68kDecimalArithmeticKind) : DigitStep :=
  match kind with DA_negate => negate_decimal_step | _ => decimal_step kind end.
Definition decimal_sign (kind : M68kDecimalArithmeticKind) : Z := match kind with DA_add => 1 | _ => -1 end.
Definition decimal_pair (kind : M68kDecimalArithmeticKind) (s d : Z) : Prop :=
  match kind with DA_negate => is_bcd s /\ d = 0 | _ => bcd_pair s d end.

#[export] Instance decimal_chain_digit kind :
  DigitArithmetic (decimal_chain_step kind) 100 is_bcd bcd_value (decimal_sign kind) (decimal_pair kind).
Proof. destruct kind; apply _. Qed.

Lemma decimal_pair_digits kind digits :
  Forall (fun '(s, d) => decimal_pair kind s d) digits -> Forall is_bcd digits.*1 /\ Forall is_bcd digits.*2.
Proof.
  intros H. split; apply Forall_fmap; eapply Forall_impl; try exact H; intros [s d]; destruct kind; intros [? Hd]; try done.
  cbn in *. by subst d.
Qed.

(** ABCD, SBCD and NBCD chains compute decimal arithmetic: over any number
    of packed decimal bytes, from any status register, the result bytes are
    packed decimal and their number is the decimal sum, difference or negation
    of the operands and X modulo a hundred per byte; X is the carry or borrow
    out of it and equals C, Z is kept only if the whole result is zero, and the
    upper bits of the status register are kept. *)
Theorem decimal_chain_exact (kind : M68kDecimalArithmeticKind) (sr : Z) (digits : list (Z * Z))
    (Hdigits : Forall (fun '(s, d) => decimal_pair kind s d) digits) :
  let M := 100 ^ zlen digits in
  let S := number 100 (map bcd_value digits.*1) in
  let D := number 100 (map bcd_value digits.*2) in
  let y := D + decimal_sign kind * (S + Z.b2z (status_x sr)) in
  let '(rs, sr') := chain (decimal_chain_step kind) sr digits in
  Forall is_bcd rs /\ number 100 (map bcd_value rs) = y mod M /\
  status_x sr' = negb ((0 <=? y) && (y <? M)) /\
  status_z sr' = (y mod M =? 0) && status_z sr /\
  (digits <> [] -> status_c sr' = status_x sr') /\
  status_upper sr' = status_upper sr.
Proof.
  cbv zeta. destruct (decimal_pair_digits kind digits Hdigits) as [H1 H2].
  pose proof (number_range (decimal_chain_step kind) 100 is_bcd bcd_value (decimal_sign kind) (decimal_pair kind) _ H1) as N1.
  pose proof (number_range (decimal_chain_step kind) 100 is_bcd bcd_value (decimal_sign kind) (decimal_pair kind) _ H2) as N2.
  pose proof (chain_wraps (decimal_chain_step kind) 100 is_bcd bcd_value (decimal_sign kind) (decimal_pair kind) digits sr
    ltac:(destruct kind; cbn; tauto) Hdigits) as C.
  destruct (chain (decimal_chain_step kind) sr digits) as [rs sr'].
  unfold zlen in *. rewrite !length_fmap in N1, N2. by apply C.
Qed.

(** * Witnesses *)

Lemma extended_chain_exact_witness :
  let '(rs, sr') := chain (extended_step XA_add W_word) 0x0004 [(0xFFFF, 0x0001); (0x7FFF, 0x0000)] in
  number 65536 rs = 0x80000000 /\ status_flags sr' = (false, true, false, true, false).
Proof.
  pose proof (extended_chain_exact XA_add W_word 0x0004 [(0xFFFF, 0x0001); (0x7FFF, 0x0000)]
    ltac:(repeat constructor; vm_compute; intros H; discriminate H) ltac:(reflexivity)) as H.
  cbv zeta in H. destruct (chain (extended_step XA_add W_word) 0x0004 [(0xFFFF, 0x0001); (0x7FFF, 0x0000)]) as [rs sr'].
  destruct H as (H1 & H2 & _). split; [exact H1|exact H2].
Defined.

(** 5432 - 1999 = 3433 *)
Lemma decimal_chain_exact_witness :
  let '(rs, sr') := chain (decimal_chain_step DA_subtract) 0 [(0x99, 0x32); (0x19, 0x54)] in
  number 100 (map bcd_value rs) = 3433 /\ status_x sr' = false.
Proof.
  pose proof (decimal_chain_exact DA_subtract 0 [(0x99, 0x32); (0x19, 0x54)]
    ltac:(repeat constructor; vm_compute; intros H; discriminate H)) as H.
  cbv zeta in H. destruct (chain (decimal_chain_step DA_subtract) 0 [(0x99, 0x32); (0x19, 0x54)]) as [rs sr'].
  destruct H as (_ & H1 & H2 & _). split; [exact H1|exact H2].
Defined.
