(* ===== verification/M68kShift.v ===== *)
(** The MC68000 shifts and rotates against their one-bit definition, and the
    other iterated instructions of [effects.hpp]: the DBcc counter, the MOVEM
    transfer orders and word division. *)

From S2P Require Import Prelude M68kInstruction M68kArithmetic.

(** * One bit at a time

    The Programmer's Reference Manual defines the shifts and rotates bit by bit.
    A state is the operand, the carry, the extend bit and the overflow of ASL. *)

Record ShiftState := mkShiftState { ss_value : Z; ss_carry : bool; ss_extend : bool; ss_overflow : bool }.

Section Step.
Context (width : M68kMemoryAccessWidth).

#[local] Abbreviation top := (2 ^ (width_bits width - 1)).

Definition msb (v : Z) : bool := Z.testbit v (width_bits width - 1).
Definition lsb (v : Z) : bool := Z.testbit v 0.

Definition shift_step (kind : M68kShiftRotateKind) (st : ShiftState) : ShiftState :=
  let v := ss_value st in
  match kind with
  | SR_lsl => mkShiftState (wrap width (2 * v)) (msb v) (msb v) false
  | SR_asl =>
      let v' := wrap width (2 * v) in
      mkShiftState v' (msb v) (msb v) (ss_overflow st || xorb (msb v) (msb v'))
  | SR_lsr => mkShiftState (v / 2) (lsb v) (lsb v) false
  | SR_asr => mkShiftState (v / 2 + Z.b2z (msb v) * top) (lsb v) (lsb v) false
  | SR_rol => mkShiftState (wrap width (2 * v) + Z.b2z (msb v)) (msb v) (ss_extend st) false
  | SR_ror => mkShiftState (v / 2 + Z.b2z (lsb v) * top) (lsb v) (ss_extend st) false
  | SR_roxl => mkShiftState (wrap width (2 * v) + Z.b2z (ss_extend st)) (msb v) (msb v) false
  | SR_roxr => mkShiftState (v / 2 + Z.b2z (ss_extend st) * top) (lsb v) (lsb v) false
  end.

(** A count of zero clears the carry, except that ROXL and ROXR copy X to it. *)
Definition shift_start (kind : M68kShiftRotateKind) (v : Z) (x : bool) : ShiftState :=
  mkShiftState v (match kind with SR_roxl | SR_roxr => x | _ => false end) x false.

Definition shift_by (kind : M68kShiftRotateKind) (count : nat) (v : Z) (x : bool) : ShiftState :=
  Nat.iter count (shift_step kind) (shift_start kind v x).
End Step.

(** What a final state says of the result and the flags.  The rotates without X
    do not write it. *)
Definition shift_result (width : M68kMemoryAccessWidth) (kind : M68kShiftRotateKind) (st : ShiftState) : M68kShiftRotateResult :=
  let written := match kind with SR_rol | SR_ror => false | _ => true end in
  mkShift (ss_value st) (msb width (ss_value st)) (ss_value st =? 0) (ss_overflow st) (ss_carry st)
    written (written && ss_extend st).

Lemma shift_by_S width kind n v x : shift_by width kind (S n) v x = shift_step width kind (shift_by width kind n v x).
Proof. done. Qed.

(** * Rings of bits *)

Section Ring.
Context (N : Z) (HN : 0 < N).

Definition rotl1 (r : Z) : Z := (2 * r) mod 2 ^ N + Z.b2z (Z.testbit r (N - 1)).
Definition rotr1 (r : Z) : Z := r / 2 + Z.b2z (Z.testbit r 0) * 2 ^ (N - 1).

Lemma pow_split : 2 ^ N = 2 * 2 ^ (N - 1).
Proof using HN. rewrite <- (Z.sub_add 1 N) at 1. rewrite Z.pow_add_r, Z.pow_1_r by lia. lia. Qed.

Lemma rotl1_double r : rotl1 r = 2 * (r mod 2 ^ (N - 1)) + Z.b2z (Z.testbit r (N - 1)).
Proof using HN. unfold rotl1. rewrite pow_split, Z.mul_mod_distr_l by (try apply Z.pow_nonzero; lia). done. Qed.

Lemma rotl1_range r : 0 <= rotl1 r < 2 ^ N.
Proof using HN.
  rewrite rotl1_double, pow_split. pose proof (Z.mod_pos_bound r (2 ^ (N - 1))). pose proof (Z.pow_pos_nonneg 2 (N - 1)).
  destruct (Z.testbit r (N - 1)); cbn [Z.b2z]; lia.
Qed.

Lemma rotl1_bit r i : 0 <= i < N -> Z.testbit (rotl1 r) i = Z.testbit r ((i - 1) mod N).
Proof using HN.
  intros Hi. rewrite rotl1_double. destruct (decide (i = 0)) as [->|].
  - rewrite Z.testbit_0_r. replace ((0 - 1) mod N) with (N - 1); [done|]. apply (Z.mod_unique_pos _ _ (-1)); lia.
  - replace i with (Z.succ (i - 1)) at 1 by lia. rewrite Z.testbit_succ_r, Z.mod_pow2_bits_low, (Z.mod_small (i - 1)) by lia.
    done.
Qed.

Lemma rotr1_range r : 0 <= r < 2 ^ N -> 0 <= rotr1 r < 2 ^ N.
Proof using HN.
  intros Hr. unfold rotr1. rewrite pow_split in *. pose proof (Z.div_mod r 2). pose proof (Z.mod_pos_bound r 2).
  destruct (Z.testbit r 0); cbn [Z.b2z]; lia.
Qed.

Lemma rotr1_bit r i : 0 <= r < 2 ^ N -> 0 <= i < N -> Z.testbit (rotr1 r) i = Z.testbit r ((i + 1) mod N).
Proof using HN.
  intros Hr Hi. unfold rotr1. rewrite pow_split in Hr. rewrite Z.mul_comm, <- lor_shiftl.
  2: lia. 2: { split; [apply Z.div_pos; lia|apply Z.div_lt_upper_bound; lia]. }
  rewrite Z.lor_spec, Z.shiftl_spec, <- (Z.div2_div r), Z.div2_spec, Z.shiftr_spec by lia.
  destruct (decide (i = N - 1)) as [->|].
  - rewrite Z.sub_diag, Z.sub_add, Z.mod_same by lia.
    replace (Z.testbit r N) with false; [by destruct (Z.testbit r 0)|].
    rewrite <- (Z.mod_small r (2 ^ N)) by (rewrite pow_split; lia). by rewrite Z.mod_pow2_bits_high by lia.
  - rewrite (Z.testbit_neg_r _ (i - (N - 1))) by lia. rewrite orb_false_r, (Z.mod_small (i + 1)) by lia. done.
Qed.

(** Repeated rotation moves the bits along the ring. *)
Lemma iter_rotation (f : Z -> Z) (s : Z) :
  (forall r, 0 <= r < 2 ^ N -> 0 <= f r < 2 ^ N /\ forall i, 0 <= i < N -> Z.testbit (f r) i = Z.testbit r ((i - s) mod N)) ->
  forall n r, 0 <= r < 2 ^ N ->
  0 <= Nat.iter n f r < 2 ^ N /\
  forall i, 0 <= i < N -> Z.testbit (Nat.iter n f r) i = Z.testbit r ((i - s * Z.of_nat n) mod N).
Proof using HN.
  intros Hf n r Hr. induction n as [|n [IHr IH]].
  - cbn [Nat.iter nat_rect]. split; [done|]. intros i Hi. rewrite Z.mul_0_r, Z.sub_0_r, Z.mod_small by lia. done.
  - cbn [Nat.iter nat_rect]. destruct (Hf _ IHr) as [Hr1 Hb]. split; [done|]. intros i Hi.
    rewrite Hb, IH by (done || by apply Z.mod_pos_bound). f_equal.
    rewrite Zminus_mod_idemp_l. f_equal. lia.
Qed.

Lemma ring_eq a b :
  0 <= a < 2 ^ N -> 0 <= b < 2 ^ N -> (forall i, 0 <= i < N -> Z.testbit a i = Z.testbit b i) -> a = b.
Proof using HN.
  intros Ha Hb H. apply Z.bits_inj'. intros i Hi. destruct (decide (i < N)); [apply H; lia|].
  rewrite <- (Z.mod_small a (2 ^ N)), <- (Z.mod_small b (2 ^ N)) by done. by rewrite !Z.mod_pow2_bits_high by lia.
Qed.

Lemma bit_above r i : 0 <= r < 2 ^ N -> N <= i -> Z.testbit r i = false.
Proof using HN. intros Hr Hi. rewrite <- (Z.mod_small r (2 ^ N)) by done. apply Z.mod_pow2_bits_high. lia. Qed.

(** A left and a right rotation written with two shifts, as the code writes it;
    [wide] is the width of the machine integer the left shift is done in. *)
Lemma left_formula r e wide :
  0 <= r < 2 ^ N -> 0 < e < N -> N <= wide ->
  let v := ((r .<< e) mod 2 ^ wide .| (r .>> (N - e))) .& Z.ones N in
  0 <= v < 2 ^ N /\ forall i, 0 <= i < N -> Z.testbit v i = Z.testbit r ((i - e) mod N).
Proof using HN.
  intros Hr He Hw v. split.
  - unfold v. rewrite Z.land_ones by lia. apply Z.mod_pos_bound, Z.pow_pos_nonneg; lia.
  - intros i Hi. unfold v. rewrite Z.land_spec, Z.lor_spec, Z.testbit_ones, Z.mod_pow2_bits_low, Z.shiftl_spec, Z.shiftr_spec by lia.
    replace ((0 <=? i) && (i <? N)) with true by lia. rewrite andb_true_r.
    destruct (Z.ltb_spec i e).
    + rewrite (Z.testbit_neg_r _ (i - e)) by lia. cbn [orb]. f_equal. apply (Z.mod_unique_pos _ _ (-1)); lia.
    + rewrite (bit_above r (i + (N - e))) by lia. rewrite orb_false_r. f_equal. symmetry. apply Z.mod_small. lia.
Qed.

Lemma right_formula r e wide :
  0 <= r < 2 ^ N -> 0 < e < N -> N <= wide ->
  let v := ((r .>> e) .| (r .<< (N - e)) mod 2 ^ wide) .& Z.ones N in
  0 <= v < 2 ^ N /\ forall i, 0 <= i < N -> Z.testbit v i = Z.testbit r ((i + e) mod N).
Proof using HN.
  intros Hr He Hw v. split.
  - unfold v. rewrite Z.land_ones by lia. apply Z.mod_pos_bound, Z.pow_pos_nonneg; lia.
  - intros i Hi. unfold v. rewrite Z.land_spec, Z.lor_spec, Z.testbit_ones, Z.mod_pow2_bits_low, Z.shiftl_spec, Z.shiftr_spec by lia.
    replace ((0 <=? i) && (i <? N)) with true by lia. rewrite andb_true_r.
    destruct (Z.ltb_spec i (N - e)).
    + rewrite (Z.testbit_neg_r _ (i - (N - e))) by lia. rewrite orb_false_r. f_equal. symmetry. apply Z.mod_small. lia.
    + rewrite (bit_above r (i + e)) by lia. cbn [orb]. f_equal. apply (Z.mod_unique_pos _ _ 1); lia.
Qed.

(** Two ways to the same place on the ring. *)
Lemma rotation_unique a b r k k' :
  0 <= a < 2 ^ N -> 0 <= b < 2 ^ N -> k mod N = k' mod N ->
  (forall i, 0 <= i < N -> Z.testbit a i = Z.testbit r ((i - k) mod N)) ->
  (forall i, 0 <= i < N -> Z.testbit b i = Z.testbit r ((i - k') mod N)) -> a = b.
Proof using HN.
  intros Ha Hb Ek H1 H2. apply ring_eq; [done|done|]. intros i Hi. rewrite H1, H2 by done. f_equal.
  rewrite <- Zminus_mod_idemp_r, Ek. apply Zminus_mod_idemp_r.
Qed.
End Ring.

(** * Shifts *)

Section Shifts.
Context (width : M68kMemoryAccessWidth) (v : Z) (x : bool).
Context (Hv : 0 <= v < modulus width).

#[local] Abbreviation w := (width_bits width).

#[local] Lemma width_small : 8 <= w <= 32.
Proof using All. by destruct width. Qed.

#[local] Lemma mask_ones : width_mask width = Z.ones w.
Proof using All. by destruct width. Qed.

#[local] Lemma beyond i : w <= i -> Z.testbit v i = false.
Proof using All. intros Hi. apply (bit_above w); [by destruct width|exact Hv|exact Hi]. Qed.

#[local] Lemma wrap_bit y i : i < w -> Z.testbit (wrap width y) i = Z.testbit y i.
Proof using All. intros. unfold wrap, modulus. by apply Z.mod_pow2_bits_low. Qed.

#[local] Lemma wrap_double y : wrap width (2 * wrap width y) = wrap width (2 * y).
Proof using All. unfold wrap. apply Zmult_mod_idemp_r. Qed.

(** LSL after [n] steps. *)
Lemma lsl_steps n :
  shift_by width SR_lsl n v x =
    mkShiftState (wrap width (v * 2 ^ Z.of_nat n)) (negb (Nat.eqb n 0) && Z.testbit v (w - Z.of_nat n))
      (if Nat.eqb n 0 then x else Z.testbit v (w - Z.of_nat n)) false.
Proof using All.
  pose proof width_small. induction n as [|n IH].
  - cbn. unfold shift_start. by rewrite Z.mul_1_r, wrap_small by done.
  - rewrite shift_by_S, IH.
    cbn [shift_step ss_value Nat.eqb negb andb].
    rewrite Nat2Z.inj_succ, wrap_double. f_equal.
    + rewrite Z.pow_succ_r by lia. f_equal; lia.
    + unfold msb. rewrite wrap_bit, Z.mul_pow2_bits by lia. f_equal; lia.
    + unfold msb. rewrite wrap_bit, Z.mul_pow2_bits by lia. f_equal; lia.
Qed.

(** The window of the top bits ASL looks at: [n + 1] of them. *)
#[local] Definition window (n : nat) : Z := v .>> (w - 1 - Z.of_nat n).

#[local] Definition asl_overflow (n : nat) : bool :=
  if Z.of_nat n <? w then negb ((window n =? 0) || (window n =? 2 ^ (Z.of_nat n + 1) - 1)) else negb (v =? 0).

#[local] Lemma window_range n : Z.of_nat n < w -> 0 <= window n < 2 ^ (Z.of_nat n + 1).
Proof using All.
  intros Hn. unfold window. rewrite Z.shiftr_div_pow2 by lia. split; [apply Z.div_pos; [apply Hv|apply Z.pow_pos_nonneg; lia]|].
  apply Z.div_lt_upper_bound; [apply Z.pow_pos_nonneg; lia|]. rewrite <- Z.pow_add_r by lia.
  replace (w - 1 - Z.of_nat n + (Z.of_nat n + 1)) with w by lia. apply Hv.
Qed.

#[local] Lemma asl_overflow_step n :
  asl_overflow (S n) = asl_overflow n || xorb (Z.testbit v (w - 1 - Z.of_nat n)) (Z.testbit v (w - 2 - Z.of_nat n)).
Proof using All.
  pose proof width_small as Hw. unfold asl_overflow. rewrite Nat2Z.inj_succ.
  destruct (Z.ltb_spec (Z.of_nat n) w) as [Hn|Hn].
  - pose proof (window_range n Hn) as Hwin.
    assert (Ha : Z.testbit v (w - 1 - Z.of_nat n) = Z.odd (window n)).
    { unfold window. rewrite <- Z.bit0_odd, Z.shiftr_spec by lia. done. }
    destruct (Z.ltb_spec (Z.succ (Z.of_nat n)) w) as [Hs|Hs].
    + assert (Eb : window (S n) = 2 * window n + Z.b2z (Z.testbit v (w - 2 - Z.of_nat n))).
      { unfold window. rewrite Nat2Z.inj_succ. set (k := w - 2 - Z.of_nat n).
        replace (w - 1 - Z.succ (Z.of_nat n)) with k by lia. replace (w - 1 - Z.of_nat n) with (k + 1) by lia.
        rewrite <- Z.shiftr_shiftr by lia. rewrite (Z.shiftr_div_pow2 _ 1) by lia.
        pose proof (Z.div2_odd (v .>> k)) as D. rewrite Z.div2_div in D. rewrite D at 1. f_equal.
        rewrite <- Z.bit0_odd, Z.shiftr_spec by lia. do 2 f_equal. }
      rewrite Eb, Ha. pose proof (Z.div2_odd (window n)) as D.
      replace (Z.succ (Z.of_nat n) + 1) with (Z.succ (Z.of_nat n + 1)) by lia. rewrite Z.pow_succ_r by lia.
      pose proof (Z.pow_pos_nonneg 2 (Z.of_nat n)). rewrite Z.pow_add_r, Z.pow_1_r in * by lia.
      destruct (Z.testbit v (w - 2 - Z.of_nat n)), (Z.odd (window n)) eqn:Ho; cbn [Z.b2z xorb] in *; lia.
    + assert (En : w - 1 - Z.of_nat n = 0) by lia. rewrite (Z.testbit_neg_r v (w - 2 - Z.of_nat n)) by lia.
      rewrite Ha. assert (Ew : window n = v) by (unfold window; rewrite En; apply Z.shiftr_0_r).
      rewrite Ew in *. pose proof (Z.div2_odd v) as D. rewrite Z.pow_add_r, Z.pow_1_r in * by lia.
      pose proof (Z.pow_pos_nonneg 2 (Z.of_nat n)).
      destruct (Z.odd v); cbn [Z.b2z xorb] in *; lia.
  - rewrite (proj2 (Z.ltb_ge _ w)) by lia.
    rewrite (Z.testbit_neg_r v (w - 1 - Z.of_nat n)), (Z.testbit_neg_r v (w - 2 - Z.of_nat n)) by lia.
    by rewrite orb_false_r.
Qed.

#[local] Lemma asl_overflow_0 : asl_overflow 0 = false.
Proof using All.
  pose proof width_small. unfold asl_overflow. change (Z.of_nat 0) with 0. rewrite (proj2 (Z.ltb_lt 0 w)) by lia.
  pose proof (window_range 0 ltac:(cbn; lia)) as Hr. change (2 ^ (Z.of_nat 0 + 1)) with 2 in Hr.
  change (2 ^ (0 + 1) - 1) with 1. lia.
Qed.

Lemma asl_steps n :
  shift_by width SR_asl n v x =
    mkShiftState (wrap width (v * 2 ^ Z.of_nat n)) (negb (Nat.eqb n 0) && Z.testbit v (w - Z.of_nat n))
      (if Nat.eqb n 0 then x else Z.testbit v (w - Z.of_nat n)) (asl_overflow n).
Proof using All.
  pose proof width_small. induction n as [|n IH].
  - cbn. unfold shift_start. rewrite Z.mul_1_r, wrap_small by done. f_equal. symmetry. apply asl_overflow_0.
  - rewrite shift_by_S, IH.
    cbn [shift_step ss_value ss_overflow Nat.eqb negb andb].
    rewrite asl_overflow_step, Nat2Z.inj_succ, wrap_double. f_equal.
    + rewrite Z.pow_succ_r by lia. f_equal; lia.
    + unfold msb. rewrite wrap_bit, Z.mul_pow2_bits by lia. f_equal; lia.
    + unfold msb. rewrite wrap_bit, Z.mul_pow2_bits by lia. f_equal; lia.
    + unfold msb. f_equal. rewrite !wrap_bit by lia. f_equal.
      * rewrite Z.mul_pow2_bits by lia. f_equal; lia.
      * replace (w - 1) with (Z.succ (w - 2)) by lia.
        rewrite Z.double_bits_succ, Z.mul_pow2_bits by lia. f_equal; lia.
Qed.

(** LSR and ASR: division of the unsigned and of the signed operand. *)
Lemma lsr_steps n :
  shift_by width SR_lsr n v x =
    mkShiftState (v / 2 ^ Z.of_nat n) (Z.testbit v (Z.of_nat n - 1)) (if Nat.eqb n 0 then x else Z.testbit v (Z.of_nat n - 1))
      false.
Proof using All.
  induction n as [|n IH].
  - cbn. unfold shift_start. by rewrite Z.div_1_r.
  - rewrite shift_by_S, IH. cbn [shift_step ss_value Nat.eqb negb andb]. rewrite Nat2Z.inj_succ.
    assert (Hb : lsb (v / 2 ^ Z.of_nat n) = Z.testbit v (Z.succ (Z.of_nat n) - 1)).
    { unfold lsb. rewrite <- Z.shiftr_div_pow2, Z.shiftr_spec by lia. f_equal; lia. }
    rewrite Hb. f_equal. rewrite Z.pow_succ_r, Z.div_div by lia. f_equal; lia.
Qed.

#[local] Abbreviation sv := (signed width v).

(** Halving the wrapped representation of a signed value, with its sign. *)
#[local] Lemma halve_signed s :
  - 2 ^ (w - 1) <= s < 2 ^ (w - 1) ->
  wrap width s / 2 + Z.b2z (msb width (wrap width s)) * 2 ^ (w - 1) = wrap width (s / 2) /\
  msb width (wrap width s) = (s <? 0) /\ lsb (wrap width s) = Z.testbit s 0.
Proof using All.
  intros Hs. assert (E2 : modulus width = 2 * 2 ^ (w - 1)) by by destruct width.
  assert (Hp : 0 < 2 ^ (w - 1)) by (apply Z.pow_pos_nonneg; pose proof width_small; lia).
  assert (Ew : wrap width s = if s <? 0 then s + modulus width else s).
  { unfold wrap. destruct (Z.ltb_spec s 0); [|apply Z.mod_small; lia].
    rewrite <- (Z_mod_plus_full s 1), Z.mod_small by lia. lia. }
  assert (Em : msb width (wrap width s) = (s <? 0)).
  { unfold msb. pose proof width_small. rewrite top_bit; [|lia|rewrite Z.sub_add; apply (wrap_range width)].
    rewrite Ew. destruct (Z.ltb_spec s 0); lia. }
  rewrite Em. split_and!; [|done|].
  - rewrite Ew. destruct (Z.ltb_spec s 0); cbn [Z.b2z].
    + unfold wrap. rewrite <- (Z_mod_plus_full (s / 2) 1), Z.mod_small.
      * rewrite E2. replace (s + 2 * 2 ^ (w - 1)) with (s + 2 ^ (w - 1) * 2) by lia. rewrite Z.div_add by lia. lia.
      * rewrite E2. pose proof (Z.div_mod s 2). pose proof (Z.mod_pos_bound s 2). lia.
    + unfold wrap. rewrite Z.mod_small; [lia|]. rewrite E2. pose proof (Z.div_mod s 2). pose proof (Z.mod_pos_bound s 2). lia.
  - unfold lsb. apply wrap_bit. pose proof width_small. lia.
Qed.

#[local] Lemma signed_div_range n : - 2 ^ (w - 1) <= sv / 2 ^ Z.of_nat n < 2 ^ (w - 1).
Proof using All.
  pose proof (proj1 (signed_bounds width v Hv)) as Hs. pose proof (Z.pow_pos_nonneg 2 (Z.of_nat n)).
  pose proof (Z.pow_pos_nonneg 2 (w - 1)). pose proof width_small.
  split; [apply Z.div_le_lower_bound; nia|apply Z.div_lt_upper_bound; nia].
Qed.

Lemma asr_steps n :
  shift_by width SR_asr n v x =
    mkShiftState (wrap width (sv / 2 ^ Z.of_nat n)) (Z.testbit sv (Z.of_nat n - 1))
      (if Nat.eqb n 0 then x else Z.testbit sv (Z.of_nat n - 1)) false.
Proof using All.
  induction n as [|n IH].
  - cbn. unfold shift_start. rewrite Z.div_1_r. by rewrite (proj2 (signed_bounds width v Hv)).
  - rewrite shift_by_S, IH. cbn [shift_step ss_value Nat.eqb negb andb]. rewrite Nat2Z.inj_succ.
    destruct (halve_signed (sv / 2 ^ Z.of_nat n) (signed_div_range n)) as (-> & _ & ->).
    assert (Hb : Z.testbit (sv / 2 ^ Z.of_nat n) 0 = Z.testbit sv (Z.succ (Z.of_nat n) - 1)).
    { rewrite <- Z.shiftr_div_pow2, Z.shiftr_spec by lia. f_equal; lia. }
    rewrite Hb. f_equal. f_equal. rewrite Z.pow_succ_r, Z.div_div by lia. f_equal; lia.
Qed.

(** ROL and ROR rotate the operand; the carry is the bit that crossed the end. *)
Lemma rol_steps n :
  shift_by width SR_rol n v x =
    mkShiftState (Nat.iter n (rotl1 w) v) (negb (Nat.eqb n 0) && Z.testbit (Nat.iter n (rotl1 w) v) 0) x false.
Proof using All.
  pose proof width_small. induction n as [|n IH]; [done|].
  rewrite shift_by_S, IH. cbn [shift_step ss_value ss_extend Nat.eqb negb andb].
  change (Nat.iter (S n) (rotl1 w) v) with (rotl1 w (Nat.iter n (rotl1 w) v)). set (r := Nat.iter n (rotl1 w) v).
  unfold wrap, modulus, msb. fold (rotl1 w r). f_equal.
  rewrite rotl1_bit by lia. f_equal. apply (Z.mod_unique_pos _ _ (-1)); lia.
Qed.

#[local] Lemma iter_left n :
  0 <= Nat.iter n (rotl1 w) v < 2 ^ w /\
  forall i, 0 <= i < w -> Z.testbit (Nat.iter n (rotl1 w) v) i = Z.testbit v ((i - Z.of_nat n) mod w).
Proof using All.
  pose proof width_small. destruct (iter_rotation w ltac:(lia) (rotl1 w) 1) with (n := n) (r := v) as [H1 H2]; [|exact Hv|].
  - intros r Hr. split; [apply rotl1_range; lia|]. intros i Hi. apply rotl1_bit; lia.
  - split; [done|]. intros i Hi. rewrite H2 by done. do 2 f_equal; lia.
Qed.

#[local] Lemma iter_right n :
  0 <= Nat.iter n (rotr1 w) v < 2 ^ w /\
  forall i, 0 <= i < w -> Z.testbit (Nat.iter n (rotr1 w) v) i = Z.testbit v ((i + Z.of_nat n) mod w).
Proof using All.
  pose proof width_small. destruct (iter_rotation w ltac:(lia) (rotr1 w) (-1)) with (n := n) (r := v) as [H1 H2]; [|exact Hv|].
  - intros r Hr. split; [apply rotr1_range; lia|]. intros i Hi. rewrite rotr1_bit by lia. do 2 f_equal; lia.
  - split; [done|]. intros i Hi. rewrite H2 by done. do 2 f_equal; lia.
Qed.

Lemma ror_steps n :
  shift_by width SR_ror n v x =
    mkShiftState (Nat.iter n (rotr1 w) v) (negb (Nat.eqb n 0) && Z.testbit (Nat.iter n (rotr1 w) v) (w - 1)) x false.
Proof using All.
  pose proof width_small. induction n as [|n IH]; [done|].
  rewrite shift_by_S, IH. cbn [shift_step ss_value ss_extend Nat.eqb negb andb].
  change (Nat.iter (S n) (rotr1 w) v) with (rotr1 w (Nat.iter n (rotr1 w) v)).
  pose proof (proj1 (iter_right n)) as Hr.
  set (r := Nat.iter n (rotr1 w) v) in *.
  unfold lsb. fold (rotr1 w r). f_equal.
  rewrite rotr1_bit by lia. f_equal. by rewrite Z.sub_add, Z.mod_same by lia.
Qed.

(** ROXL and ROXR rotate the operand with X above it. *)
Definition ring_of (st : ShiftState) : Z := Z.b2z (ss_extend st) * 2 ^ w + ss_value st.

#[local] Lemma ring_read st : 0 <= ss_value st < modulus width ->
  0 <= ring_of st < 2 ^ (w + 1) /\ ring_of st mod 2 ^ w = ss_value st /\ Z.testbit (ring_of st) w = ss_extend st.
Proof using All.
  intros Hs. unfold modulus in Hs. pose proof width_small. unfold ring_of.
  rewrite Z.pow_add_r, Z.pow_1_r by lia. split_and!; [destruct (ss_extend st); cbn; lia.. | |].
  - rewrite Z.add_comm, Z_mod_plus_full. by apply Z.mod_small.
  - rewrite Z.add_comm, Z.mul_comm, <- lor_shiftl by lia. rewrite Z.lor_spec, Z.shiftl_spec, Z.sub_diag by lia.
    rewrite (bit_above w) by lia. by destruct (ss_extend st).
Qed.

#[local] Lemma roxl_step st : 0 <= ss_value st < modulus width ->
  ring_of (shift_step width SR_roxl st) = rotl1 (w + 1) (ring_of st) /\
  0 <= ss_value (shift_step width SR_roxl st) < modulus width.
Proof using All.
  intros Hs. pose proof width_small. destruct (ring_read st Hs) as (_ & Em & Eb).
  rewrite rotl1_double, Z.add_simpl_r, Em, Eb by lia.
  assert (E2 : modulus width = 2 * 2 ^ (w - 1)) by by destruct width.
  assert (Hw2 : wrap width (2 * ss_value st) = 2 * ss_value st - Z.b2z (msb width (ss_value st)) * modulus width).
  { unfold msb. rewrite top_bit by (first [lia|rewrite Z.sub_add; exact Hs]). unfold wrap.
    destruct (Z.leb_spec (2 ^ (w - 1)) (ss_value st)); cbn [Z.b2z].
    - rewrite <- (Z_mod_plus_full _ (-1)), Z.mod_small by lia. lia.
    - rewrite Z.mod_small by lia. lia. }
  pose proof (wrap_range width (2 * ss_value st)) as Hr.
  unfold ring_of. cbn [shift_step ss_value ss_extend]. rewrite Hw2 in *. fold (modulus width).
  destruct (ss_extend st), (msb width (ss_value st)); cbn [Z.b2z] in *; lia.
Qed.

#[local] Lemma roxr_step st : 0 <= ss_value st < modulus width ->
  ring_of (shift_step width SR_roxr st) = rotr1 (w + 1) (ring_of st) /\
  0 <= ss_value (shift_step width SR_roxr st) < modulus width.
Proof using All.
  intros Hs. pose proof width_small. assert (E2 : 2 ^ w = 2 * 2 ^ (w - 1)) by by destruct width.
  unfold modulus in *. unfold rotr1. rewrite Z.add_simpl_r.
  assert (E0 : Z.testbit (ring_of st) 0 = lsb (ss_value st)).
  { unfold ring_of, lsb. rewrite E2. replace (Z.b2z (ss_extend st) * (2 * 2 ^ (w - 1)) + ss_value st)
      with (ss_value st + 2 * (Z.b2z (ss_extend st) * 2 ^ (w - 1))) by lia.
    rewrite !Z.bit0_odd, Z.odd_add_mul_2. done. }
  rewrite E0. unfold ring_of. cbn [shift_step ss_value ss_extend].
  rewrite E2 in *. replace (Z.b2z (ss_extend st) * (2 * 2 ^ (w - 1)) + ss_value st)
    with (ss_value st + Z.b2z (ss_extend st) * 2 ^ (w - 1) * 2) by lia.
  rewrite Z.div_add by lia. pose proof (Z.div_mod (ss_value st) 2). pose proof (Z.mod_pos_bound (ss_value st) 2).
  destruct (ss_extend st), (lsb (ss_value st)); cbn [Z.b2z]; lia.
Qed.

Lemma rox_steps kind f n :
  (kind = SR_roxl /\ f = rotl1 (w + 1) \/ kind = SR_roxr /\ f = rotr1 (w + 1)) ->
  let st := shift_by width kind n v x in
  ring_of st = Nat.iter n f (ring_of (mkShiftState v x x false)) /\ 0 <= ss_value st < modulus width /\
  ss_carry st = ss_extend st /\ ss_overflow st = false.
Proof using All.
  intros Hk. cbv zeta. induction n as [|n IH].
  - cbn [Nat.iter nat_rect]. unfold shift_by. cbn [Nat.iter nat_rect]. destruct Hk as [[-> ->]|[-> ->]]; by split_and!; try apply Hv.
  - rewrite shift_by_S. change (Nat.iter (S n) f ?r) with (f (Nat.iter n f r)). destruct IH as (IH & Hr & _).
    rewrite <- IH. destruct Hk as [[-> ->]|[-> ->]].
    + destruct (roxl_step _ Hr) as [-> Hr']. by split_and!; try apply Hr'.
    + destruct (roxr_step _ Hr) as [-> Hr']. by split_and!; try apply Hr'.
Qed.

(** * The closed forms of the code *)

Definition locals_of (kind : M68kShiftRotateKind) (st : ShiftState) : ShiftLocals :=
  let written := match kind with SR_rol | SR_ror => false | _ => true end in
  mkLocals (ss_value st) (ss_carry st) (ss_overflow st) written (written && ss_extend st).

Context (count : Z) (Hcount : 0 <= count).

#[local] Abbreviation n := (Z.to_nat count).

#[local] Lemma is_set_1 y : is_set y 1 = Z.testbit y 0.
Proof using Type. by apply (is_set_bit y 0). Qed.

#[local] Lemma wrap_shl : u32 (v .<< count) .& width_mask width = wrap width (v * 2 ^ count).
Proof using All. rewrite land_width_mask, wrap_u32, Z.shiftl_mul_pow2 by lia. done. Qed.

#[local] Lemma wrap_large : w <= count -> wrap width (v * 2 ^ count) = 0.
Proof using All.
  intros Hc. pose proof width_small. replace count with (count - w + w) by lia. unfold wrap, modulus.
  rewrite Z.pow_add_r, Z.mul_assoc by lia. apply Z_mod_mult.
Qed.

Lemma shift_lsl_exact : shift_lsl v count width x = locals_of SR_lsl (shift_by width SR_lsl n v x).
Proof using All.
  rewrite lsl_steps. unfold shift_lsl, locals_of. cbn [ss_value ss_carry ss_overflow ss_extend andb].
  rewrite Z2Nat.id, wrap_shl, !is_set_1 by done.
  destruct (Z.eqb_spec count 0) as [->|Hne].
  - cbn. by rewrite Z.mul_1_r, wrap_small.
  - rewrite (proj2 (Nat.eqb_neq n 0)) by lia. cbn [negb andb].
    destruct (Z.ltb_spec count w); [by rewrite Z.shiftr_spec by done|]. rewrite wrap_large by lia.
    destruct (Z.eqb_spec count w) as [->|]; [by rewrite Z.sub_diag|]. by rewrite Z.testbit_neg_r by lia.
Qed.

(** The top [k] bits of a mask, and of an operand. *)
#[local] Lemma high_mask k : 0 <= k <= w ->
  width_mask width .& not32 (width_mask width .>> k) = Z.ones k .<< (w - k).
Proof using All.
  intros Hk. pose proof width_small. rewrite mask_ones. apply Z.bits_inj'. intros i Hi.
  rewrite Z.land_spec, Z.shiftl_spec, !Z.testbit_ones by lia.
  destruct (Z.ltb_spec i w).
  - rewrite testbit_not32, Z.shiftr_spec, Z.testbit_ones by lia. rewrite andb_true_r.
    destruct (Z.leb_spec 0 i), (Z.leb_spec 0 (i + k)), (Z.ltb_spec (i + k) w), (Z.leb_spec 0 (i - (w - k))),
      (Z.ltb_spec (i - (w - k)) k); (done || lia).
  - lia.
Qed.

#[local] Lemma land_high k : 0 <= k <= w -> v .& (Z.ones k .<< (w - k)) = (v .>> (w - k)) .<< (w - k).
Proof using All.
  intros Hk. pose proof width_small. apply Z.bits_inj'. intros i Hi.
  rewrite Z.land_spec, !Z.shiftl_spec, !Z.testbit_ones by lia. destruct (Z.ltb_spec i (w - k)).
  - rewrite (Z.testbit_neg_r _ (i - (w - k))) by lia. replace (0 <=? i - (w - k)) with false by lia. apply andb_false_r.
  - rewrite Z.shiftr_spec, Z.sub_add by lia. destruct (Z.ltb_spec i w); [|by rewrite beyond by lia].
    replace ((0 <=? i - (w - k)) && (i - (w - k) <? k)) with true by lia. apply andb_true_r.
Qed.

Lemma shift_asl_exact : shift_asl v count width x = locals_of SR_asl (shift_by width SR_asl n v x).
Proof using All.
  pose proof width_small. rewrite asl_steps. unfold shift_asl, locals_of. cbn [ss_value ss_carry ss_overflow ss_extend andb].
  rewrite Z2Nat.id, wrap_shl, !is_set_1 by done.
  destruct (Z.eqb_spec count 0) as [->|Hne].
  - change (Z.to_nat 0) with 0%nat. rewrite asl_overflow_0. cbn. by rewrite Z.mul_1_r, wrap_small.
  - rewrite (proj2 (Nat.eqb_neq n 0)) by lia. cbn [negb andb]. unfold asl_overflow, window. rewrite Z2Nat.id by done.
    destruct (Z.ltb_spec count w).
    + rewrite Z.shiftr_spec by done. f_equal.
      replace (if w <=? count + 1 then width_mask width else width_mask width .& not32 (width_mask width .>> (count + 1)))
        with (Z.ones (count + 1) .<< (w - (count + 1))).
      2: { destruct (Z.leb_spec w (count + 1)).
           - replace (count + 1) with w by lia. rewrite Z.sub_diag, Z.shiftl_0_r. by rewrite mask_ones.
           - symmetry. apply high_mask. lia. }
      rewrite land_high by lia. replace (w - (count + 1)) with (w - 1 - count) by lia.
      rewrite !Z.shiftl_mul_pow2, Z.ones_equiv by lia. pose proof (Z.pow_pos_nonneg 2 (w - 1 - count)).
      rewrite <- Z.sub_1_r. set (t := v .>> (w - 1 - count)). set (o := 2 ^ (count + 1) - 1).
      destruct (Z.eqb_spec (t * 2 ^ (w - 1 - count)) 0), (Z.eqb_spec t 0), (Z.eqb_spec (t * 2 ^ (w - 1 - count)) (o * 2 ^ (w - 1 - count))),
        (Z.eqb_spec t o); (done || nia).
    + rewrite wrap_large by lia.
      destruct (Z.eqb_spec count w) as [->|]; [by rewrite Z.sub_diag|]. by rewrite Z.testbit_neg_r by lia.
Qed.

Lemma shift_lsr_exact : shift_lsr v count width x = locals_of SR_lsr (shift_by width SR_lsr n v x).
Proof using All.
  pose proof width_small. rewrite lsr_steps. unfold shift_lsr, locals_of. cbn [ss_value ss_carry ss_overflow ss_extend andb].
  rewrite Z2Nat.id, !is_set_1 by done.
  destruct (Z.eqb_spec count 0) as [->|Hne].
  - cbn. by rewrite Z.div_1_r.
  - rewrite (proj2 (Nat.eqb_neq n 0)) by lia.
    destruct (Z.ltb_spec count w); [rewrite Z.shiftr_spec, Z.shiftr_div_pow2 by lia; done|].
    rewrite Z.div_small by (split; [apply Hv|]; eapply Z.lt_le_trans; [apply Hv|apply Z.pow_le_mono_r; lia]).
    destruct (Z.eqb_spec count w) as [->|]; [by rewrite Z.shiftr_spec by lia|]. by rewrite beyond by lia.
Qed.

(** A signed operand and its bits. *)
#[local] Lemma signed_bit i : 0 <= i < w -> Z.testbit sv i = Z.testbit v i.
Proof using All. intros Hi. rewrite <- (proj2 (signed_bounds width v Hv)) at 2. symmetry. apply wrap_bit. lia. Qed.

#[local] Lemma signed_sign_bit i : w - 1 <= i -> Z.testbit sv i = (sv <? 0).
Proof using All.
  intros Hi. pose proof width_small. pose proof (proj1 (signed_bounds width v Hv)) as Hs.
  pose proof (Z.pow_le_mono_r 2 (w - 1) i ltac:(lia) Hi) as Hp.
  destruct (Z.ltb_spec sv 0).
  - rewrite <- (negb_involutive (Z.testbit sv i)), <- Z.lnot_spec by lia. apply negb_true_iff.
    apply (bit_above i); unfold Z.lnot; lia.
  - apply (bit_above i); lia.
Qed.

Lemma shift_asr_exact : shift_asr v count width x = locals_of SR_asr (shift_by width SR_asr n v x).
Proof using All.
  pose proof width_small. pose proof (proj1 (signed_bounds width v Hv)) as Hs.
  rewrite asr_steps. unfold shift_asr, locals_of. cbn [ss_value ss_carry ss_overflow ss_extend andb].
  rewrite Z2Nat.id, !is_set_1, is_set_sign by done.
  assert (Esv : sv = if 2 ^ (w - 1) <=? v then v - modulus width else v) by done.
  destruct (Z.eqb_spec count 0) as [->|Hne].
  - cbn. rewrite Z.div_1_r. by rewrite (proj2 (signed_bounds width v Hv)).
  - rewrite (proj2 (Nat.eqb_neq n 0)) by lia. destruct (Z.ltb_spec count w).
    + rewrite Z.shiftr_spec, signed_bit by lia. f_equal; try done.
      assert (Ep : modulus width = 2 ^ (w - count) * 2 ^ count) by (unfold modulus; rewrite <- Z.pow_add_r by lia; f_equal; lia).
      pose proof (Z.pow_pos_nonneg 2 count). pose proof (Z.pow_pos_nonneg 2 (w - count)).
      rewrite Z.shiftr_div_pow2 by lia. rewrite Esv. destruct (Z.leb_spec (2 ^ (w - 1)) v).
      * rewrite high_mask by lia. rewrite lor_shiftl.
        2: lia. 2: { split; [apply Z.div_pos; lia|]. apply Z.div_lt_upper_bound; lia. }
        unfold wrap. rewrite Ep at 1. replace (v - 2 ^ (w - count) * 2 ^ count) with (v + - 2 ^ (w - count) * 2 ^ count) by lia.
        rewrite Z.div_add, Z.ones_equiv by lia.
        rewrite <- (Z_mod_plus_full _ 1), Z.mod_small; [rewrite Ep; nia|].
        assert (0 <= v / 2 ^ count < 2 ^ (w - count)) by (split; [apply Z.div_pos; lia|apply Z.div_lt_upper_bound; lia]).
        rewrite Ep. nia.
      * symmetry. apply wrap_small. split; [apply Z.div_pos; lia|]. apply Z.div_lt_upper_bound; nia.
    + rewrite signed_sign_bit by lia. rewrite <- signed_sign by done.
      assert (Hp : 2 ^ (w - 1) <= 2 ^ count) by (apply Z.pow_le_mono_r; lia).
      pose proof (signed_sign width v Hv) as Es.
      destruct (Z.leb_spec (2 ^ (w - 1)) v).
      * f_equal. assert (sv / 2 ^ count = -1) as ->; [|by destruct width].
        symmetry. apply (Z.div_unique_pos _ _ _ (sv + 2 ^ count)); lia.
      * f_equal. rewrite Z.div_small by lia. by destruct width.
Qed.

#[local] Lemma count_mod : count .& (w - 1) = count mod w.
Proof using All.
  destruct width; [apply (land_ones_mod count 3)|apply (land_ones_mod count 4)|apply (land_ones_mod count 5)]; lia.
Qed.

#[local] Lemma u32_pow y : u32 y = y mod 2 ^ 32. Proof using Type. done. Qed.

Lemma shift_rol_exact : shift_rotate v count width true = locals_of SR_rol (shift_by width SR_rol n v x).
Proof using All.
  pose proof width_small. rewrite rol_steps. unfold shift_rotate, locals_of. cbn [ss_value ss_carry ss_overflow ss_extend andb].
  destruct (Z.eqb_spec count 0) as [->|Hne]; [done|]. rewrite (proj2 (Nat.eqb_neq n 0)) by lia. cbn [negb andb].
  rewrite count_mod, is_set_1. destruct (iter_left n) as [Hr Hb]. rewrite Z2Nat.id in Hb by done.
  pose proof (Z.mod_pos_bound count w). set (e := count mod w) in *.
  replace (if e =? 0 then v else _) with (Nat.iter n (rotl1 w) v); [done|]. symmetry.
  destruct (Z.eqb_spec e 0) as [E0|E0].
  - apply (rotation_unique w ltac:(lia) _ _ v 0 count); [exact Hv|done|rewrite Z.mod_0_l by lia; lia| |done].
    intros i Hi. rewrite Z.sub_0_r, Z.mod_small by lia. done.
  - destruct (left_formula w ltac:(lia) v e 32 Hv ltac:(lia) ltac:(lia)) as [Hf Hfb].
    rewrite u32_pow, mask_ones.
    apply (rotation_unique w ltac:(lia) _ _ v e count); [exact Hf|done|unfold e; apply Z.mod_mod; lia|exact Hfb|done].
Qed.

Lemma shift_ror_exact : shift_rotate v count width false = locals_of SR_ror (shift_by width SR_ror n v x).
Proof using All.
  pose proof width_small. rewrite ror_steps. unfold shift_rotate, locals_of. cbn [ss_value ss_carry ss_overflow ss_extend andb].
  destruct (Z.eqb_spec count 0) as [->|Hne]; [done|]. rewrite (proj2 (Nat.eqb_neq n 0)) by lia. cbn [negb andb].
  rewrite count_mod, is_set_sign_bit. destruct (iter_right n) as [Hr Hb]. rewrite Z2Nat.id in Hb by done.
  pose proof (Z.mod_pos_bound count w). set (e := count mod w) in *.
  replace (if e =? 0 then v else _) with (Nat.iter n (rotr1 w) v); [done|]. symmetry.
  assert (Hb' : forall i, 0 <= i < w -> Z.testbit (Nat.iter n (rotr1 w) v) i = Z.testbit v ((i - - count) mod w)).
  { intros i Hi. rewrite Hb by done. do 2 f_equal; lia. }
  assert (Em : forall a b, a mod w = b mod w -> (- a) mod w = (- b) mod w).
  { intros a b Hab. rewrite <- (Z.sub_0_l a), <- (Z.sub_0_l b), <- (Zminus_mod_idemp_r 0 a), Hab. apply Zminus_mod_idemp_r. }
  destruct (Z.eqb_spec e 0) as [E0|E0].
  - apply (rotation_unique w ltac:(lia) _ _ v (- 0) (- count)); [exact Hv|done|apply Em; rewrite Z.mod_0_l by lia; lia| |done].
    intros i Hi. rewrite Z.mod_small by lia. f_equal; lia.
  - destruct (right_formula w ltac:(lia) v e 32 Hv ltac:(lia) ltac:(lia)) as [Hf Hfb].
    rewrite u32_pow, mask_ones.
    apply (rotation_unique w ltac:(lia) _ _ v (- e) (- count)); [exact Hf|done|apply Em; unfold e; apply Z.mod_mod; lia| |done].
    intros i Hi. rewrite Hfb by done. do 2 f_equal; lia.
Qed.

(** The ring at the end determines the operand and X. *)
#[local] Lemma ring_locals st : 0 <= ss_value st < modulus width -> ss_carry st = ss_extend st -> ss_overflow st = false ->
  mkLocals (u32 (ring_of st .& width_mask width)) (is_set (ring_of st .>> w) 1) false true (is_set (ring_of st .>> w) 1) =
    mkLocals (ss_value st) (ss_carry st) (ss_overflow st) true (ss_extend st).
Proof using All.
  intros Hs -> ->. destruct (ring_read st Hs) as (_ & Em & Eb). pose proof width_small.
  rewrite is_set_1, Z.shiftr_spec, Z.add_0_l, Eb by lia. f_equal.
  rewrite land_width_mask. unfold wrap, modulus. rewrite Em. apply u32_id.
  unfold is_u32, modulus in *. destruct width; cbn [width_bits] in *; lia.
Qed.

Lemma shift_rox_exact (left : bool) :
  let kind := if left then SR_roxl else SR_roxr in
  shift_rotate_extend v count width x left = locals_of kind (shift_by width kind n v x).
Proof using All.
  pose proof width_small. set (f := if left then rotl1 (w + 1) else rotr1 (w + 1)).
  intros kind. pose proof (rox_steps kind f n ltac:(unfold kind, f; destruct left; auto)) as S. cbv zeta in S.
  destruct S as (Sr & Sv & Sc & So). set (st := shift_by width kind n v x) in *.
  unfold locals_of. replace (match kind with SR_rol | SR_ror => false | _ => true end) with true by (unfold kind; by destruct left).
  cbn [andb]. rewrite <- ring_locals by done. unfold shift_rotate_extend. cbv zeta.
  replace ((flag x 1 .<< w) .| v) with (ring_of (mkShiftState v x x false)).
  2: { rewrite shiftl_lor by (first [lia|exact Hv]). unfold ring_of. cbn [ss_extend ss_value]. unfold flag. destruct x; cbn [Z.b2z]; lia. }
  destruct (ring_read (mkShiftState v x x false) Hv) as (Hr0 & _). set (r := ring_of (mkShiftState v x x false)) in *. clearbody r.
  rewrite Sr. replace ((1 .<< (w + 1)) - 1) with (Z.ones (w + 1)) by (unfold Z.ones; by rewrite Z.sub_1_r).
  pose proof (Z.mod_pos_bound count (w + 1)) as He. set (e := count mod (w + 1)) in *.
  assert (Hn : Z.of_nat n = count) by by apply Z2Nat.id.
  replace (if e =? 0 then r else _) with (Nat.iter n f r); [done|]. symmetry. unfold f. destruct left.
  - destruct (iter_rotation (w + 1) ltac:(lia) (rotl1 (w + 1)) 1) with (n := n) (r := r) as [Hi Hb]; [|exact Hr0|].
    { intros y Hy. split; [apply rotl1_range; lia|]. intros i Hi. apply rotl1_bit; lia. }
    rewrite Hn, Z.mul_1_l in Hb. destruct (Z.eqb_spec e 0) as [E0|E0].
    + apply (rotation_unique (w + 1) ltac:(lia) _ _ r 0 count); [done|done|rewrite Z.mod_0_l by lia; lia| |done].
      intros i Hi'. rewrite Z.sub_0_r, Z.mod_small by lia. done.
    + destruct (left_formula (w + 1) ltac:(lia) r e 64 Hr0 ltac:(lia) ltac:(lia)) as [Hf Hfb].
      apply (rotation_unique (w + 1) ltac:(lia) _ _ r e count); [exact Hf|done|unfold e; apply Z.mod_mod; lia|exact Hfb|done].
  - destruct (iter_rotation (w + 1) ltac:(lia) (rotr1 (w + 1)) (-1)) with (n := n) (r := r) as [Hi Hb]; [|exact Hr0|].
    { intros y Hy. split; [apply rotr1_range; lia|]. intros i Hi. rewrite rotr1_bit by lia. do 2 f_equal; lia. }
    rewrite Hn in Hb. destruct (Z.eqb_spec e 0) as [E0|E0].
    + apply (rotation_unique (w + 1) ltac:(lia) _ _ r (-1 * 0) (-1 * count)); [done|done| | |done].
      * rewrite <- (Zmult_mod_idemp_r count). fold e. by rewrite E0.
      * intros i Hi'. rewrite Z.mod_small by lia. f_equal; lia.
    + destruct (right_formula (w + 1) ltac:(lia) r e 64 Hr0 ltac:(lia) ltac:(lia)) as [Hf Hfb].
      apply (rotation_unique (w + 1) ltac:(lia) _ _ r (-1 * e) (-1 * count)); [exact Hf|done| | |done].
      * unfold e. apply Zmult_mod_idemp_r.
      * intros i Hi'. rewrite Hfb by done. do 2 f_equal; lia.
Qed.
End Shifts.

(** C30. The shifts and rotates are what the manual defines bit by bit: for every
    kind, operand, count and width, the closed form gives the result and the
    flags that [count] one-bit steps give, ASL's overflow included (the sign bit
    changed at some step); ROL and ROR leave X unwritten, and a count of zero
    clears the carry except that ROXL and ROXR copy X into it. *)
Theorem shift_rotate_iterated (kind : M68kShiftRotateKind) (original count : Z) (width : M68kMemoryAccessWidth)
    (x : bool) (Hcount : 0 <= count) :
  m68k_evaluate_shift_rotate kind original count width x =
    shift_result width kind (shift_by width kind (Z.to_nat count) (wrap width original) x).
Proof.
  unfold m68k_evaluate_shift_rotate. rewrite land_width_mask. pose proof (wrap_range width original) as Hv.
  set (v := wrap width original) in *.
  assert (E : match kind with
    | SR_lsl => shift_lsl v count width x | SR_lsr => shift_lsr v count width x
    | SR_asr => shift_asr v count width x | SR_asl => shift_asl v count width x
    | SR_rol => shift_rotate v count width true | SR_ror => shift_rotate v count width false
    | SR_roxl => shift_rotate_extend v count width x true | SR_roxr => shift_rotate_extend v count width x false
    end = locals_of kind (shift_by width kind (Z.to_nat count) v x)).
  { destruct kind; [by apply shift_lsl_exact|by apply shift_lsr_exact|by apply shift_asl_exact|by apply shift_asr_exact|
      by apply shift_rol_exact|by apply shift_ror_exact|by apply (shift_rox_exact width v x Hv count Hcount true)|
      by apply (shift_rox_exact width v x Hv count Hcount false)]. }
  rewrite E. unfold shift_result, locals_of. cbn [sl_result sl_carry sl_overflow sl_extend_written sl_extend_value].
  by rewrite is_set_sign_bit.
Qed.

(** * The DBcc counter *)

(** A DBcc whose condition stays false: decrement until the counter expires.
    The result is the number of decrements and the register. *)
Fixpoint dbcc_run (fuel : nat) (register : Z) : option (Z * Z) :=
  match fuel with
  | O => None
  | S fuel =>
      let r := m68k_evaluate_dbcc_decrement register in
      if db_expired r then Some (1, db_updated_register r)
      else match dbcc_run fuel (db_updated_register r) with
           | Some (count, final) => Some (count + 1, final)
           | None => None
           end
  end.

Lemma high_word r : is_u32 r -> r .& 0xFFFF0000 = 65536 * (r / 65536).
Proof.
  intros Hr. change 0xFFFF0000 with (Z.ones 16 .<< 16). apply Z.bits_inj'. intros i Hi.
  replace (65536 * (r / 65536)) with ((r .>> 16) .<< 16) by (rewrite Z.shiftr_div_pow2, Z.shiftl_mul_pow2 by lia; change (2 ^ 16) with 65536; ring).
  rewrite Z.land_spec, !Z.shiftl_spec, Z.testbit_ones by lia. destruct (Z.ltb_spec i 16).
  - rewrite (Z.testbit_neg_r _ (i - 16)) by lia. replace (0 <=? i - 16) with false by lia. apply andb_false_r.
  - rewrite Z.shiftr_spec, Z.sub_add by lia. destruct (Z.ltb_spec i 32).
    + replace ((0 <=? i - 16) && (i - 16 <? 16)) with true by lia. apply andb_true_r.
    + rewrite (bit_above 32 ltac:(lia) r i Hr) by lia. done.
Qed.

(** One decrement: the low word only, with wrap-around. *)
Lemma dbcc_decrement_exact r : is_u32 r ->
  m68k_evaluate_dbcc_decrement r = mkDbcc (65536 * (r / 65536) + u16 (r - 1)) (u16 r =? 0).
Proof.
  intros Hr. unfold m68k_evaluate_dbcc_decrement. rewrite high_word, land_ffff by done.
  assert (E : u16 (u16 r - 1) = u16 (r - 1)) by (unfold u16; by rewrite Zminus_mod_idemp_l).
  rewrite E. pose proof (u16_range (r - 1)) as Hl. f_equal.
  - assert (E3 : 65536 * (r / 65536) = (r / 65536) .<< 16)
      by (rewrite Z.shiftl_mul_pow2 by lia; change (2 ^ 16) with 65536; ring).
    rewrite E3 at 1. rewrite shiftl_lor by (first [lia|exact Hl]). done.
  - unfold u16 in *. apply Bool.eq_iff_eq_true. rewrite !Z.eqb_eq. Z.to_euclidean_division_equations; lia.
Qed.

(** A DBcc loop whose condition stays false runs exactly one more time than
    its 16-bit counter says, whatever the upper word holds: it expires after
    [u16 r + 1] decrements, never before, and leaves the upper word unchanged
    and the counter at $FFFF. *)
Theorem dbcc_expires (r : Z) (fuel : nat) (Hr : is_u32 r) (Hfuel : u16 r < Z.of_nat fuel) :
  dbcc_run fuel r = Some (u16 r + 1, 65536 * (r / 65536) + 0xFFFF).
Proof.
  revert r Hr Hfuel. induction fuel as [|fuel IH]; intros r Hr Hfuel; [pose proof (u16_range r); unfold is_u16 in *; lia|].
  cbn [dbcc_run]. rewrite dbcc_decrement_exact by done. cbn [db_expired db_updated_register].
  pose proof (u16_range r) as Hu. destruct (Z.eqb_spec (u16 r) 0) as [E|E].
  - rewrite E. do 3 f_equal. unfold u16 in *. Z.to_euclidean_division_equations; lia.
  - assert (E1 : u16 (r - 1) = u16 r - 1) by (unfold u16, is_u16 in *; Z.to_euclidean_division_equations; lia).
    assert (Hnext : 65536 * (r / 65536) + u16 (r - 1) = r - 1).
    { rewrite E1. unfold u16. pose proof (Z.div_mod r 65536). lia. }
    assert (Hdiv : (r - 1) / 65536 = r / 65536).
    { symmetry. apply (Z.div_unique_pos _ _ _ (u16 (r - 1))); [apply u16_range|lia]. }
    rewrite Hnext, IH, Hdiv, E1; [f_equal; f_equal; lia| |lia].
    unfold is_u32, is_u16, u16 in *. Z.to_euclidean_division_equations; lia.
Qed.

Lemma dbcc_expires_witness : dbcc_run 4 0x12340003 = Some (4, 0x1234FFFF).
Proof. apply (dbcc_expires 0x12340003 4); vm_compute; [split; [intros H; discriminate H|reflexivity]|reflexivity]. Defined.

(** * The MOVEM transfer orders *)

Lemma movem_order_spec mask order :
  m68k_movem_transfer_order mask order =
    concat (map (fun i => if Z.testbit mask i then [match order with MO_predecrement => 15 - i | MO_ascending => i end] else [])
      (seqZ 0 16)).
Proof.
  unfold m68k_movem_transfer_order.
  rewrite (zfor_ext 0 16 _ (fun index out => out ++
    if Z.testbit mask index then [match order with MO_predecrement => 15 - index | MO_ascending => index end] else [])).
  - by rewrite zfor_app.
  - intros i out Hi. rewrite Z.shiftl_1_l. assert (E : u16 (2 ^ i) = 2 ^ i).
    { apply u16_id. unfold is_u16. pose proof (Z.pow_pos_nonneg 2 i). pose proof (Z.pow_lt_mono_r 2 i 16). lia. }
    rewrite E, is_set_bit by lia. destruct (Z.testbit mask i); [done|by rewrite app_nil_r].
Qed.

(** The two MOVEM orders agree: storing with predecrement a register list in
    its reversed mask transfers the registers in exactly the reverse of the
    ascending order of the unreversed mask, so that what one writes downwards
    the other reads upwards; the ascending order holds each register of the mask
    once, in increasing order. *)
Theorem movem_orders_agree (mask reversed : Z)
    (Hrev : forall i, 0 <= i < 16 -> Z.testbit reversed i = Z.testbit mask (15 - i)) :
  m68k_movem_transfer_order reversed MO_predecrement = rev (m68k_movem_transfer_order mask MO_ascending) /\
  StronglySorted Z.lt (m68k_movem_transfer_order mask MO_ascending) /\
  forall r, r ∈ m68k_movem_transfer_order mask MO_ascending <-> 0 <= r < 16 /\ Z.testbit mask r = true.
Proof.
  rewrite !movem_order_spec. split_and!.
  - set (f := fun i => if Z.testbit mask i then [i] else []).
    assert (E : map (fun i => if Z.testbit reversed i then [15 - i] else []) (seqZ 0 16) = map f (rev (seqZ 0 16))).
    { change (rev (seqZ 0 16)) with (map (fun i => 15 - i) (seqZ 0 16)). rewrite map_map. apply map_ext_in. intros i Hi.
      apply list_elem_of_In, elem_of_seqZ in Hi. unfold f. rewrite Hrev by lia. done. }
    rewrite E. clear E. induction (seqZ 0 16) as [|i l IH]; [done|]. cbn [rev map concat]. rewrite map_app, concat_app, IH, rev_app_distr.
    cbn [map concat]. rewrite app_nil_r. f_equal. unfold f. by destruct (Z.testbit mask i).
  - change (seqZ 0 16) with [0; 1; 2; 3; 4; 5; 6; 7; 8; 9; 10; 11; 12; 13; 14; 15].
    assert (H : forall l, StronglySorted Z.lt l ->
      StronglySorted Z.lt (concat (map (fun i => if Z.testbit mask i then [i] else []) l))).
    { intros l. induction 1 as [|i l Hl IH Hi]; [constructor|]. cbn [map concat]. destruct (Z.testbit mask i); [|done].
      cbn [app]. constructor; [done|]. rewrite Forall_forall in *. intros j Hj.
      apply list_elem_of_In, in_concat in Hj as (k & Hk & Hj). apply in_map_iff in Hk as (j' & <- & Hj').
      destruct (Z.testbit mask j'); [|done]. destruct Hj as [<-|[]]. apply Hi. by apply list_elem_of_In. }
    apply (H [0; 1; 2; 3; 4; 5; 6; 7; 8; 9; 10; 11; 12; 13; 14; 15]). repeat constructor.
  - intros r. rewrite list_elem_of_In, in_concat. split.
    + intros (k & Hk & Hr). apply in_map_iff in Hk as (i & <- & Hi). apply list_elem_of_In, elem_of_seqZ in Hi.
      destruct (Z.testbit mask i) eqn:E; [|done]. destruct Hr as [<-|[]]. split; [lia|done].
    + intros [Hr E]. exists [r]. split; [|by left]. apply in_map_iff. exists r. rewrite E. split; [done|].
      apply list_elem_of_In, elem_of_seqZ. lia.
Qed.

(** D0/D1/A7 in the two masks. *)
Lemma movem_orders_agree_witness :
  m68k_movem_transfer_order 0xC001 MO_predecrement = rev (m68k_movem_transfer_order 0x8003 MO_ascending).
Proof.
  apply (movem_orders_agree 0x8003 0xC001). intros i Hi.
  pose proof (seqZ_forallb (fun i => Bool.eqb (Z.testbit 0xC001 i) (Z.testbit 0x8003 (15 - i))) 16 eq_refl i Hi) as E.
  by apply Bool.eqb_prop in E.
Defined.

Lemma shift_rotate_iterated_witness :
  m68k_evaluate_shift_rotate SR_asl 0x40 3 W_byte true =
    shift_result W_byte SR_asl (shift_by W_byte SR_asl (Z.to_nat 3) (wrap W_byte 0x40) true).
Proof. apply (shift_rotate_iterated SR_asl 0x40 3 W_byte true). vm_compute. intros H. discriminate H. Defined.

(** * Division *)

(** The operands of DIVS and DIVU as integers, and the 16-bit quotients they can
    return. *)
Definition division_dividend (dividend : Z) (is_signed : bool) : Z := if is_signed then i32 dividend else dividend.
Definition division_divisor (divisor : Z) (is_signed : bool) : Z := if is_signed then i16 divisor else divisor.
Definition quotient_fits (q : Z) (is_signed : bool) : bool :=
  if is_signed then (-32768 <=? q) && (q <=? 32767) else q <=? 0xFFFF.
Definition word_value (v : Z) (is_signed : bool) : Z := if is_signed then i16 v else v.

Lemma pack_words hi lo : is_u16 hi -> is_u16 lo ->
  u32 (hi .<< 16) .| lo = 65536 * hi + lo /\ (65536 * hi + lo) mod 65536 = lo /\ (65536 * hi + lo) / 65536 = hi.
Proof.
  unfold is_u16. intros Hh Hl. rewrite u32_id.
  2: { unfold is_u32. rewrite Z.shiftl_mul_pow2 by lia. change (2 ^ 16) with 65536. lia. }
  rewrite shiftl_lor by (first [lia|exact Hl]). change (2 ^ 16) with 65536. split_and!; [done| |].
  - symmetry. apply (Z.mod_unique_pos _ _ hi); lia.
  - symmetry. apply (Z.div_unique_pos _ _ _ lo); lia.
Qed.

Lemma i16_u16_id v : -32768 <= v < 32768 -> i16 (u16 v) = v.
Proof. unfold i16, u16. intros. rewrite Zplus_mod_idemp_l, Z.mod_small by lia. lia. Qed.

Lemma i16_nonzero d : is_u16 d -> d <> 0 -> i16 d <> 0.
Proof. unfold is_u16, i16. intros. Z.to_euclidean_division_equations; lia. Qed.

Lemma signed_remainder a b : -32768 <= b < 32768 -> b <> 0 -> -32768 <= Z.rem a b < 32768.
Proof. intros Hb Hne. pose proof (Z.rem_bound_abs a b Hne). lia. Qed.

(** DIVS and DIVU divide: by a divisor that is not zero, the quotient and
    remainder are those of the division that truncates towards zero, packed as
    the low and high words; exactly when the quotient does not fit 16 bits the
    dividend is returned unchanged with the overflow flag, as for $80000000 / -1;
    N and Z describe the quotient. *)
Theorem division_exact (dividend divisor : Z) (is_signed : bool)
    (Hdividend : is_u32 dividend) (Hdivisor : is_u16 divisor) (Hne : divisor <> 0) :
  let a := division_dividend dividend is_signed in
  let b := division_divisor divisor is_signed in
  let q := Z.quot a b in
  let r := division_evaluate dividend divisor is_signed in
  a = b * q + Z.rem a b /\ Z.abs (Z.rem a b) < Z.abs b /\ 0 <= Z.rem a b * a /\
  dv_overflow r = negb (quotient_fits q is_signed) /\
  (if dv_overflow r then dv_result r = dividend /\ dv_negative r = false /\ dv_zero r = false
   else word_value (dv_result r mod 65536) is_signed = q /\ word_value (dv_result r / 65536) is_signed = Z.rem a b /\
        dv_negative r = (0x8000 <=? dv_result r mod 65536) /\ dv_zero r = (q =? 0)).
Proof.
  cbv zeta. unfold division_divisor, division_dividend, quotient_fits, word_value, division_evaluate. destruct is_signed.
  - pose proof (i16_nonzero divisor Hdivisor Hne) as Hb. pose proof (i16_range divisor) as Hbr.
    set (a := i32 dividend). set (b := i16 divisor) in *. set (q := Z.quot a b). cbv zeta.
    split_and!; [apply Z.quot_rem'|by apply Z.rem_bound_abs|apply Z.rem_sign_mul|..]; try done.
    + destruct (Z.ltb_spec q (-32768)), (Z.ltb_spec 32767 q); cbn [orb dv_overflow]; lia.
    + destruct (Z.ltb_spec q (-32768)), (Z.ltb_spec 32767 q); cbn [orb dv_overflow dv_result dv_negative dv_zero]; try done.
      pose proof (signed_remainder a b ltac:(lia) Hb) as Hr.
      destruct (pack_words (u16 (Z.rem a b)) (u16 q) (u16_range _) (u16_range _)) as (-> & -> & ->).
      rewrite !i16_u16_id by lia. split_and!; try done.
      unfold u16. destruct (Z.ltb_spec q 0), (Z.leb_spec 0x8000 (q mod 65536)); (done || (Z.to_euclidean_division_equations; lia)).
  - unfold is_u32, is_u16 in *. set (q := dividend ÷ divisor). assert (Eq : dividend / divisor = q) by (symmetry; apply Z.quot_div_nonneg; lia).
    assert (Er : dividend mod divisor = Z.rem dividend divisor) by (symmetry; apply Z.rem_mod_nonneg; lia).
    assert (Hq : 0 <= q) by (apply Z.quot_pos; lia).
    pose proof (Z.mod_pos_bound dividend divisor ltac:(lia)) as Hm.
    rewrite Eq, Er in *. cbv zeta.
    split_and!; [apply Z.quot_rem'|by apply Z.rem_bound_abs|apply Z.rem_sign_mul|..]; try done.
    + destruct (Z.ltb_spec 0xFFFF q); cbn [dv_overflow]; lia.
    + destruct (Z.ltb_spec 0xFFFF q); cbn [dv_overflow dv_result dv_negative dv_zero]; [done|].
      rewrite land_ffff, (u16_id q) by (unfold is_u16; lia).
      destruct (pack_words (Z.rem dividend divisor) q ltac:(unfold is_u16; lia) ltac:(unfold is_u16; lia)) as (-> & -> & ->).
      split_and!; try done. change 0x8000 with (2 ^ 15). rewrite is_set_bit by lia. apply top_bit; lia.
Qed.

(** $80000000 / -1 overflows. *)
Lemma division_exact_witness : dv_overflow (division_evaluate 0x80000000 0xFFFF true) = true.
Proof.
  assert (H1 : is_u32 0x80000000) by (unfold is_u32; lia).
  assert (H2 : is_u16 0xFFFF) by (unfold is_u16; lia).
  assert (H3 : 0xFFFF <> 0) by lia.
  pose proof (division_exact 0x80000000 0xFFFF true H1 H2 H3) as H.
  cbv zeta in H. apply proj2, proj2, proj2, proj1 in H. rewrite H. vm_compute. reflexivity.
Defined.
