(* ===== verification/M68kEffects.v ===== *)
(** The MC68000 IR and what its operations do: [ir.hpp] and [ir.cpp] (lifting)
    and [m68k_operation_effect] of [effects.cpp].  Its clients are [M68kControl],
    [M68kTiming] and [M68kFinite]. *)

From S2P Require Import Prelude M68kInstruction M68kArithmetic.

(** [x |> f]: assignments in the order the code makes them. *)
#[local] Notation "e |> f" := (f e) (at level 48, left associativity, only parsing).

(** * The IR ([ir.hpp], [ir.cpp]) *)

Inductive M68kIrKind : Type :=
| IR_write_moveq | IR_subtract_quick_long_d0 | IR_branch_ne_short | IR_branch_always_short
| IR_return_from_subroutine | IR_return_from_exception | IR_test_operand | IR_compare | IR_compare_immediate
| IR_compare_address | IR_add | IR_add_address | IR_add_immediate | IR_add_quick | IR_subtract
| IR_subtract_address | IR_subtract_immediate | IR_subtract_quick | IR_logical_and | IR_logical_and_immediate
| IR_logical_or | IR_logical_or_immediate | IR_exclusive_or | IR_exclusive_or_immediate | IR_write_move
| IR_write_movea | IR_write_clr | IR_load_effective_address | IR_jump_general | IR_call_general | IR_write_swap
| IR_sign_extend_word | IR_sign_extend_long | IR_push_effective_address | IR_link_frame | IR_unlink_frame
| IR_bit_test | IR_bit_change | IR_bit_clear | IR_bit_set | IR_general_branch | IR_bsr_call | IR_dbcc_loop
| IR_movem_transfer | IR_shift_rotate_register | IR_shift_rotate_memory | IR_write_user_stack_pointer
| IR_read_user_stack_pointer | IR_logical_immediate_to_ccr | IR_logical_immediate_to_sr
| IR_write_status_register | IR_no_operation | IR_read_status_register | IR_write_condition_codes
| IR_logical_not | IR_negate_word | IR_negate_extended | IR_add_extended | IR_subtract_extended
| IR_compare_memory | IR_add_decimal | IR_subtract_decimal | IR_negate_decimal | IR_exchange_registers
| IR_movep_transfer | IR_set_conditional | IR_test_and_set | IR_multiply_signed_word
| IR_multiply_unsigned_word | IR_divide_signed_word | IR_divide_unsigned_word | IR_trap_exception
| IR_trap_on_overflow | IR_check_bounds | IR_return_restore_condition_codes | IR_instruction_exception
| IR_stop_until_interrupt.

Record M68kIrOperation := mkOperation {
  op_provenance : InstructionProvenance;
  op_kind : M68kIrKind;
  op_destination : DataRegister;
  op_operand : Z;
  op_raw_bytes : list Z;
  op_extension : Z;
  op_size : M68kMemoryAccessWidth;
  op_source_ea : M68kEffectiveAddress;
  op_destination_ea : M68kEffectiveAddress;
  op_condition : M68kCondition;
  op_movem_direction : M68kMovemDirection;
  op_movem_register_mask : Z;
  op_shift_rotate_kind : M68kShiftRotateKind;
  op_status_operation : M68kStatusLogicalOperation;
  op_exception_vector : Z;
}.

(** The kind switch of [lift_m68k_instruction]. *)
Definition lift_kind (i : M68kDecodedInstruction) : M68kIrKind :=
  match i_kind i with
  | K_moveq => IR_write_moveq
  | K_subq_l_1_d0 => IR_subtract_quick_long_d0 | K_bne_short => IR_branch_ne_short
  | K_bra_short => IR_branch_always_short | K_rts => IR_return_from_subroutine
  | K_rte => IR_return_from_exception | K_tst => IR_test_operand | K_cmp => IR_compare
  | K_cmpi => IR_compare_immediate | K_cmpa => IR_compare_address | K_add => IR_add | K_adda => IR_add_address
  | K_addi => IR_add_immediate | K_addq => IR_add_quick | K_sub => IR_subtract | K_suba => IR_subtract_address
  | K_subi => IR_subtract_immediate | K_subq => IR_subtract_quick | K_logical_and => IR_logical_and
  | K_andi => IR_logical_and_immediate | K_logical_or => IR_logical_or | K_ori => IR_logical_or_immediate
  | K_eor => IR_exclusive_or | K_eori => IR_exclusive_or_immediate | K_move => IR_write_move
  | K_movea => IR_write_movea | K_clr => IR_write_clr | K_not_operand => IR_logical_not
  | K_negate_word => IR_negate_word | K_negate_extended => IR_negate_extended
  | K_add_extended => IR_add_extended | K_subtract_extended => IR_subtract_extended
  | K_compare_memory => IR_compare_memory | K_add_decimal => IR_add_decimal
  | K_subtract_decimal => IR_subtract_decimal | K_negate_decimal => IR_negate_decimal
  | K_exchange_registers => IR_exchange_registers | K_movep => IR_movep_transfer
  | K_set_conditional => IR_set_conditional | K_test_and_set => IR_test_and_set
  | K_lea => IR_load_effective_address | K_jmp => IR_jump_general | K_jsr => IR_call_general
  | K_swap => IR_write_swap | K_ext_w => IR_sign_extend_word | K_ext_l => IR_sign_extend_long
  | K_pea => IR_push_effective_address | K_link => IR_link_frame | K_unlk => IR_unlink_frame
  | K_btst => IR_bit_test | K_bchg => IR_bit_change | K_bclr => IR_bit_clear | K_bset => IR_bit_set
  | K_branch => IR_general_branch | K_bsr => IR_bsr_call | K_dbcc => IR_dbcc_loop
  | K_movem => IR_movem_transfer | K_move_an_to_usp => IR_write_user_stack_pointer
  | K_move_to_sr => IR_write_status_register | K_move_usp_to_an => IR_read_user_stack_pointer
  | K_logical_immediate_to_ccr => IR_logical_immediate_to_ccr
  | K_logical_immediate_to_sr => IR_logical_immediate_to_sr | K_nop => IR_no_operation
  | K_move_from_sr => IR_read_status_register | K_move_to_ccr => IR_write_condition_codes
  | K_multiply_signed_word => IR_multiply_signed_word | K_multiply_unsigned_word => IR_multiply_unsigned_word
  | K_divide_signed_word => IR_divide_signed_word | K_divide_unsigned_word => IR_divide_unsigned_word
  | K_trap => IR_trap_exception | K_trapv => IR_trap_on_overflow | K_chk => IR_check_bounds
  | K_rtr => IR_return_restore_condition_codes | K_instruction_exception => IR_instruction_exception
  | K_stop => IR_stop_until_interrupt
  | K_shift_rotate =>
      if ea_mode (i_destination_ea i) =b EA_data_register then IR_shift_rotate_register else IR_shift_rotate_memory
  end.

Definition lift_m68k_instruction (i : M68kDecodedInstruction) : M68kIrOperation :=
  mkOperation (i_provenance i) (lift_kind i) (i_destination i) (i_operand i) (i_raw_bytes i) (i_extension i)
    (i_size i) (i_source_ea i) (i_destination_ea i) (i_condition i) (i_movem_direction i)
    (i_movem_register_mask i) (i_shift_rotate_kind i) (i_status_operation i) (i_exception_vector i).

Definition m68k_ir_is_transfer (op : M68kIrOperation) : bool :=
  match op_kind op with
  | IR_branch_ne_short | IR_branch_always_short | IR_return_from_subroutine | IR_return_from_exception
  | IR_return_restore_condition_codes | IR_instruction_exception | IR_jump_general | IR_call_general => true
  | _ => false
  end.

(** * Operation effects ([effects.hpp], [effects.cpp])

    Address registers are their numbers.  The fields [memory], [memory_register]
    and [memory_address] are never assigned and are left out. *)

Inductive M68kStackEffectKind : Type :=
| SE_none | SE_push_static_continuation | SE_pop_static_return | SE_push_data_long | SE_pop_data_long
| SE_pop_exception_frame.

Inductive M68kPcEffectKind : Type :=
| PE_none | PE_advance | PE_direct_target | PE_observed_stack_return | PE_observed_exception_return
| PE_exception_entry.

Record M68kOperationEffect := mkEffect {
  oe_register_write_footprint_complete : bool;
  oe_data_register_write_mask : Z;
  oe_address_register_write_mask : Z;
  oe_register_write : option (DataRegister * Z);
  oe_affects_condition_codes : bool;
  oe_extend_flag_policy : M68kExtendFlagPolicy;
  oe_stack : M68kStackEffectKind;
  oe_stack_width : Z;
  oe_pc : M68kPcEffectKind;
  oe_pc_delta : Z;
  oe_direct_target : Z;
  oe_address_register_write : option Z;
  oe_operand_size : M68kMemoryAccessWidth;
  oe_resolved_source_ea : option M68kEffectiveAddress;
  oe_resolved_destination_ea : option M68kEffectiveAddress;
  oe_user_stack_pointer_source : option Z;
  oe_may_raise_synchronous_exception : bool;
  oe_exception_vector : Z;
}.

(** Assignments to one field of an effect. *)
Definition with_register_write_footprint_complete (v : bool) (e : M68kOperationEffect) : M68kOperationEffect :=
  mkEffect v (oe_data_register_write_mask e) (oe_address_register_write_mask e) (oe_register_write e)
    (oe_affects_condition_codes e) (oe_extend_flag_policy e) (oe_stack e) (oe_stack_width e) (oe_pc e)
    (oe_pc_delta e) (oe_direct_target e) (oe_address_register_write e) (oe_operand_size e)
    (oe_resolved_source_ea e) (oe_resolved_destination_ea e) (oe_user_stack_pointer_source e)
    (oe_may_raise_synchronous_exception e) (oe_exception_vector e).
Definition with_data_register_write_mask (v : Z) (e : M68kOperationEffect) : M68kOperationEffect :=
  mkEffect (oe_register_write_footprint_complete e) v (oe_address_register_write_mask e) (oe_register_write e)
    (oe_affects_condition_codes e) (oe_extend_flag_policy e) (oe_stack e) (oe_stack_width e) (oe_pc e)
    (oe_pc_delta e) (oe_direct_target e) (oe_address_register_write e) (oe_operand_size e)
    (oe_resolved_source_ea e) (oe_resolved_destination_ea e) (oe_user_stack_pointer_source e)
    (oe_may_raise_synchronous_exception e) (oe_exception_vector e).
Definition with_address_register_write_mask (v : Z) (e : M68kOperationEffect) : M68kOperationEffect :=
  mkEffect (oe_register_write_footprint_complete e) (oe_data_register_write_mask e) v (oe_register_write e)
    (oe_affects_condition_codes e) (oe_extend_flag_policy e) (oe_stack e) (oe_stack_width e) (oe_pc e)
    (oe_pc_delta e) (oe_direct_target e) (oe_address_register_write e) (oe_operand_size e)
    (oe_resolved_source_ea e) (oe_resolved_destination_ea e) (oe_user_stack_pointer_source e)
    (oe_may_raise_synchronous_exception e) (oe_exception_vector e).
Definition with_register_write (v : option (DataRegister * Z)) (e : M68kOperationEffect) : M68kOperationEffect :=
  mkEffect (oe_register_write_footprint_complete e) (oe_data_register_write_mask e)
    (oe_address_register_write_mask e) v (oe_affects_condition_codes e) (oe_extend_flag_policy e) (oe_stack e)
    (oe_stack_width e) (oe_pc e) (oe_pc_delta e) (oe_direct_target e) (oe_address_register_write e)
    (oe_operand_size e) (oe_resolved_source_ea e) (oe_resolved_destination_ea e)
    (oe_user_stack_pointer_source e) (oe_may_raise_synchronous_exception e) (oe_exception_vector e).
Definition with_affects_condition_codes (v : bool) (e : M68kOperationEffect) : M68kOperationEffect :=
  mkEffect (oe_register_write_footprint_complete e) (oe_data_register_write_mask e)
    (oe_address_register_write_mask e) (oe_register_write e) v (oe_extend_flag_policy e) (oe_stack e)
    (oe_stack_width e) (oe_pc e) (oe_pc_delta e) (oe_direct_target e) (oe_address_register_write e)
    (oe_operand_size e) (oe_resolved_source_ea e) (oe_resolved_destination_ea e)
    (oe_user_stack_pointer_source e) (oe_may_raise_synchronous_exception e) (oe_exception_vector e).
Definition with_extend_flag_policy (v : M68kExtendFlagPolicy) (e : M68kOperationEffect) : M68kOperationEffect :=
  mkEffect (oe_register_write_footprint_complete e) (oe_data_register_write_mask e)
    (oe_address_register_write_mask e) (oe_register_write e) (oe_affects_condition_codes e) v (oe_stack e)
    (oe_stack_width e) (oe_pc e) (oe_pc_delta e) (oe_direct_target e) (oe_address_register_write e)
    (oe_operand_size e) (oe_resolved_source_ea e) (oe_resolved_destination_ea e)
    (oe_user_stack_pointer_source e) (oe_may_raise_synchronous_exception e) (oe_exception_vector e).
Definition with_stack (v : M68kStackEffectKind) (e : M68kOperationEffect) : M68kOperationEffect :=
  mkEffect (oe_register_write_footprint_complete e) (oe_data_register_write_mask e)
    (oe_address_register_write_mask e) (oe_register_write e) (oe_affects_condition_codes e)
    (oe_extend_flag_policy e) v (oe_stack_width e) (oe_pc e) (oe_pc_delta e) (oe_direct_target e)
    (oe_address_register_write e) (oe_operand_size e) (oe_resolved_source_ea e) (oe_resolved_destination_ea e)
    (oe_user_stack_pointer_source e) (oe_may_raise_synchronous_exception e) (oe_exception_vector e).
Definition with_stack_width (v : Z) (e : M68kOperationEffect) : M68kOperationEffect :=
  mkEffect (oe_register_write_footprint_complete e) (oe_data_register_write_mask e)
    (oe_address_register_write_mask e) (oe_register_write e) (oe_affects_condition_codes e)
    (oe_extend_flag_policy e) (oe_stack e) v (oe_pc e) (oe_pc_delta e) (oe_direct_target e)
    (oe_address_register_write e) (oe_operand_size e) (oe_resolved_source_ea e) (oe_resolved_destination_ea e)
    (oe_user_stack_pointer_source e) (oe_may_raise_synchronous_exception e) (oe_exception_vector e).
Definition with_pc (v : M68kPcEffectKind) (e : M68kOperationEffect) : M68kOperationEffect :=
  mkEffect (oe_register_write_footprint_complete e) (oe_data_register_write_mask e)
    (oe_address_register_write_mask e) (oe_register_write e) (oe_affects_condition_codes e)
    (oe_extend_flag_policy e) (oe_stack e) (oe_stack_width e) v (oe_pc_delta e) (oe_direct_target e)
    (oe_address_register_write e) (oe_operand_size e) (oe_resolved_source_ea e) (oe_resolved_destination_ea e)
    (oe_user_stack_pointer_source e) (oe_may_raise_synchronous_exception e) (oe_exception_vector e).
Definition with_pc_delta (v : Z) (e : M68kOperationEffect) : M68kOperationEffect :=
  mkEffect (oe_register_write_footprint_complete e) (oe_data_register_write_mask e)
    (oe_address_register_write_mask e) (oe_register_write e) (oe_affects_condition_codes e)
    (oe_extend_flag_policy e) (oe_stack e) (oe_stack_width e) (oe_pc e) v (oe_direct_target e)
    (oe_address_register_write e) (oe_operand_size e) (oe_resolved_source_ea e) (oe_resolved_destination_ea e)
    (oe_user_stack_pointer_source e) (oe_may_raise_synchronous_exception e) (oe_exception_vector e).
Definition with_direct_target (v : Z) (e : M68kOperationEffect) : M68kOperationEffect :=
  mkEffect (oe_register_write_footprint_complete e) (oe_data_register_write_mask e)
    (oe_address_register_write_mask e) (oe_register_write e) (oe_affects_condition_codes e)
    (oe_extend_flag_policy e) (oe_stack e) (oe_stack_width e) (oe_pc e) (oe_pc_delta e) v
    (oe_address_register_write e) (oe_operand_size e) (oe_resolved_source_ea e) (oe_resolved_destination_ea e)
    (oe_user_stack_pointer_source e) (oe_may_raise_synchronous_exception e) (oe_exception_vector e).
Definition with_address_register_write (v : option Z) (e : M68kOperationEffect) : M68kOperationEffect :=
  mkEffect (oe_register_write_footprint_complete e) (oe_data_register_write_mask e)
    (oe_address_register_write_mask e) (oe_register_write e) (oe_affects_condition_codes e)
    (oe_extend_flag_policy e) (oe_stack e) (oe_stack_width e) (oe_pc e) (oe_pc_delta e) (oe_direct_target e) v
    (oe_operand_size e) (oe_resolved_source_ea e) (oe_resolved_destination_ea e)
    (oe_user_stack_pointer_source e) (oe_may_raise_synchronous_exception e) (oe_exception_vector e).
Definition with_operand_size (v : M68kMemoryAccessWidth) (e : M68kOperationEffect) : M68kOperationEffect :=
  mkEffect (oe_register_write_footprint_complete e) (oe_data_register_write_mask e)
    (oe_address_register_write_mask e) (oe_register_write e) (oe_affects_condition_codes e)
    (oe_extend_flag_policy e) (oe_stack e) (oe_stack_width e) (oe_pc e) (oe_pc_delta e) (oe_direct_target e)
    (oe_address_register_write e) v (oe_resolved_source_ea e) (oe_resolved_destination_ea e)
    (oe_user_stack_pointer_source e) (oe_may_raise_synchronous_exception e) (oe_exception_vector e).
Definition with_resolved_source_ea (v : option M68kEffectiveAddress) (e : M68kOperationEffect) : M68kOperationEffect :=
  mkEffect (oe_register_write_footprint_complete e) (oe_data_register_write_mask e)
    (oe_address_register_write_mask e) (oe_register_write e) (oe_affects_condition_codes e)
    (oe_extend_flag_policy e) (oe_stack e) (oe_stack_width e) (oe_pc e) (oe_pc_delta e) (oe_direct_target e)
    (oe_address_register_write e) (oe_operand_size e) v (oe_resolved_destination_ea e)
    (oe_user_stack_pointer_source e) (oe_may_raise_synchronous_exception e) (oe_exception_vector e).
Definition with_resolved_destination_ea (v : option M68kEffectiveAddress) (e : M68kOperationEffect) : M68kOperationEffect :=
  mkEffect (oe_register_write_footprint_complete e) (oe_data_register_write_mask e)
    (oe_address_register_write_mask e) (oe_register_write e) (oe_affects_condition_codes e)
    (oe_extend_flag_policy e) (oe_stack e) (oe_stack_width e) (oe_pc e) (oe_pc_delta e) (oe_direct_target e)
    (oe_address_register_write e) (oe_operand_size e) (oe_resolved_source_ea e) v
    (oe_user_stack_pointer_source e) (oe_may_raise_synchronous_exception e) (oe_exception_vector e).
Definition with_user_stack_pointer_source (v : option Z) (e : M68kOperationEffect) : M68kOperationEffect :=
  mkEffect (oe_register_write_footprint_complete e) (oe_data_register_write_mask e)
    (oe_address_register_write_mask e) (oe_register_write e) (oe_affects_condition_codes e)
    (oe_extend_flag_policy e) (oe_stack e) (oe_stack_width e) (oe_pc e) (oe_pc_delta e) (oe_direct_target e)
    (oe_address_register_write e) (oe_operand_size e) (oe_resolved_source_ea e) (oe_resolved_destination_ea e) v
    (oe_may_raise_synchronous_exception e) (oe_exception_vector e).
Definition with_may_raise_synchronous_exception (v : bool) (e : M68kOperationEffect) : M68kOperationEffect :=
  mkEffect (oe_register_write_footprint_complete e) (oe_data_register_write_mask e)
    (oe_address_register_write_mask e) (oe_register_write e) (oe_affects_condition_codes e)
    (oe_extend_flag_policy e) (oe_stack e) (oe_stack_width e) (oe_pc e) (oe_pc_delta e) (oe_direct_target e)
    (oe_address_register_write e) (oe_operand_size e) (oe_resolved_source_ea e) (oe_resolved_destination_ea e)
    (oe_user_stack_pointer_source e) v (oe_exception_vector e).
Definition with_exception_vector (v : Z) (e : M68kOperationEffect) : M68kOperationEffect :=
  mkEffect (oe_register_write_footprint_complete e) (oe_data_register_write_mask e)
    (oe_address_register_write_mask e) (oe_register_write e) (oe_affects_condition_codes e)
    (oe_extend_flag_policy e) (oe_stack e) (oe_stack_width e) (oe_pc e) (oe_pc_delta e) (oe_direct_target e)
    (oe_address_register_write e) (oe_operand_size e) (oe_resolved_source_ea e) (oe_resolved_destination_ea e)
    (oe_user_stack_pointer_source e) (oe_may_raise_synchronous_exception e) v.

(** [M68kOperationEffect{}] *)
Definition no_effect : M68kOperationEffect :=
  mkEffect false 0 0 None false XP_preserve SE_none 0 PE_none 0 0 None W_long_word None None None false 0.

(** [1U << reg] as a byte. *)
Definition register_bit (reg : Z) : Z := u8 (1 .<< reg).

Definition note_data_register (reg : Z) (e : M68kOperationEffect) : M68kOperationEffect :=
  with_data_register_write_mask (oe_data_register_write_mask e .| register_bit reg) e.
Definition note_address_register (reg : Z) (e : M68kOperationEffect) : M68kOperationEffect :=
  with_address_register_write_mask (oe_address_register_write_mask e .| register_bit reg) e.

(** [effect.address_register_write_mask |= 0x80] *)
Definition writes_stack_pointer (e : M68kOperationEffect) : M68kOperationEffect :=
  with_address_register_write_mask (oe_address_register_write_mask e .| 0x80) e.

(** One operand of an exchange. *)
Definition note_exchange (operand : M68kEffectiveAddress) (e : M68kOperationEffect) : M68kOperationEffect :=
  if 8 <=? ea_reg operand then e
  else if ea_mode operand =b EA_data_register then note_data_register (ea_reg operand) e
  else if ea_mode operand =b EA_address_register then note_address_register (ea_reg operand) e
  else e.

(** [note_ea_auto_update] *)
Definition note_ea_auto_update (ea : M68kEffectiveAddress) (e : M68kOperationEffect) : M68kOperationEffect :=
  if ((ea_mode ea =b EA_address_postinc) || (ea_mode ea =b EA_address_predec)) && (ea_reg ea <? 8)
  then note_address_register (ea_reg ea) e else e.

Section Effect.
Context (op : M68kIrOperation).

#[local] Abbreviation src := (op_source_ea op).
#[local] Abbreviation dst := (op_destination_ea op).

(** [effect.pc = advance; effect.pc_delta = operation.provenance.length.value] *)
Definition advances (e : M68kOperationEffect) : M68kOperationEffect :=
  e |> with_pc PE_advance |> with_pc_delta (ip_length (op_provenance op)).

Definition sized : M68kOperationEffect := no_effect |> with_operand_size (op_size op).
Definition reads (ea : M68kEffectiveAddress) : M68kOperationEffect -> M68kOperationEffect :=
  with_resolved_source_ea (Some ea).
Definition writes (ea : M68kEffectiveAddress) : M68kOperationEffect -> M68kOperationEffect :=
  with_resolved_destination_ea (Some ea).
Definition flags : M68kOperationEffect -> M68kOperationEffect := with_affects_condition_codes true.
Definition raises (vector : Z) (e : M68kOperationEffect) : M68kOperationEffect :=
  e |> with_may_raise_synchronous_exception true |> with_exception_vector vector.

(** [if (mode == address_register && reg < 8U) field = reg] *)
Definition address_register_of (ea : M68kEffectiveAddress) : option Z :=
  if (ea_mode ea =b EA_address_register) && (ea_reg ea <? 8) then Some (ea_reg ea) else None.

(** A Dn destination is not read. *)
Definition reads_memory_destination (e : M68kOperationEffect) : M68kOperationEffect :=
  if negb (ea_mode dst =b EA_data_register) then reads dst e else e.

(** The displacement of Bcc and BSR. *)
Definition branch_displacement : Z :=
  if op_size op =b W_byte then i8 (ea_immediate_value src) else i16 (ea_immediate_value src).

Definition branches_to (displacement : Z) (e : M68kOperationEffect) : M68kOperationEffect :=
  e |> with_pc PE_direct_target
    |> with_direct_target (m68k_branch_target (pa_value (ds_address (ip_source (op_provenance op)))) displacement).

(** A destination address register, written without condition codes: the shared
    shape of ADD/SUB to An. *)
Definition address_destination (e : M68kOperationEffect) : M68kOperationEffect :=
  if ea_mode dst =b EA_address_register then with_address_register_write (Some (ea_reg dst)) e else e.

(** The kind switch of [m68k_operation_effect], in the groups the source lists the
    kinds in.  Returns, status register and user stack pointer: *)
Definition system_effect : M68kOperationEffect :=
  match op_kind op with
  | IR_return_from_subroutine =>
      no_effect |> with_stack SE_pop_static_return |> with_stack_width 4 |> with_pc PE_observed_stack_return
  | IR_return_from_exception =>
      no_effect |> with_stack SE_pop_exception_frame |> with_stack_width 6 |> with_pc PE_observed_exception_return
        |> raises 8
  | IR_write_user_stack_pointer =>
      no_effect |> reads src |> with_user_stack_pointer_source (address_register_of src) |> raises 8 |> advances
  | IR_read_user_stack_pointer =>
      no_effect |> writes dst |> with_address_register_write (address_register_of dst) |> raises 8 |> advances
  | IR_logical_immediate_to_ccr => sized |> reads src |> flags |> advances
  | IR_logical_immediate_to_sr | IR_stop_until_interrupt | IR_write_status_register =>
      sized |> reads src |> flags |> raises 8 |> writes_stack_pointer |> advances
  | IR_read_status_register =>
      sized |> reads_memory_destination |> writes dst |> with_affects_condition_codes false |> advances
  | IR_write_condition_codes => sized |> reads src |> flags |> advances
  | IR_no_operation => no_effect |> advances
  | _ => no_effect
  end.

(** Tests, comparisons, addition, subtraction, logic and moves: *)
Definition operand_effect : M68kOperationEffect :=
  match op_kind op with
  | IR_test_operand => sized |> reads src |> flags |> advances
  | IR_compare | IR_compare_immediate | IR_compare_address =>
      sized |> reads src |> writes dst |> flags |> with_extend_flag_policy XP_preserve |> advances
  | IR_add | IR_add_immediate | IR_add_quick =>
      sized |> reads src |> writes dst |> with_affects_condition_codes (negb (ea_mode dst =b EA_address_register))
        |> address_destination |> advances
  | IR_add_address | IR_subtract_address | IR_write_movea =>
      sized |> reads src |> writes dst |> with_address_register_write (Some (ea_reg dst)) |> advances
  | IR_subtract | IR_subtract_immediate | IR_subtract_quick =>
      sized |> reads src |> writes dst |> with_affects_condition_codes (negb (ea_mode dst =b EA_address_register))
        |> address_destination |> with_extend_flag_policy XP_from_carry |> advances
  | IR_logical_and | IR_logical_and_immediate | IR_logical_or | IR_logical_or_immediate
  | IR_exclusive_or | IR_exclusive_or_immediate | IR_write_move =>
      sized |> reads src |> writes dst |> flags |> advances
  | IR_write_clr => sized |> reads_memory_destination |> writes dst |> flags |> advances
  | _ => no_effect
  end.

(** Complement, multiple-precision and decimal arithmetic, exchanges: *)
Definition extended_effect : M68kOperationEffect :=
  match op_kind op with
  | IR_logical_not => sized |> reads dst |> writes dst |> flags |> advances
  | IR_negate_word | IR_negate_extended | IR_negate_decimal =>
      sized |> reads dst |> writes dst |> flags |> with_extend_flag_policy XP_from_carry |> advances
  | IR_add_extended | IR_subtract_extended | IR_add_decimal | IR_subtract_decimal =>
      sized |> reads src |> writes dst |> flags |> with_extend_flag_policy XP_from_carry |> advances
  | IR_compare_memory => sized |> reads src |> writes dst |> flags |> with_extend_flag_policy XP_preserve |> advances
  | IR_exchange_registers =>
      sized |> reads src |> writes dst |> note_exchange src |> note_exchange dst |> advances
  | _ => no_effect
  end.

(** MOVEP, Scc, TAS, multiplication, division and the instruction exceptions: *)
Definition exception_effect : M68kOperationEffect :=
  match op_kind op with
  | IR_movep_transfer => sized |> reads src |> writes dst |> advances
  | IR_set_conditional => sized |> reads_memory_destination |> writes dst |> advances
  | IR_test_and_set => sized |> reads dst |> writes dst |> flags |> advances
  | IR_multiply_signed_word | IR_multiply_unsigned_word => sized |> reads src |> writes dst |> flags |> advances
  | IR_divide_signed_word | IR_divide_unsigned_word =>
      sized |> reads src |> writes dst |> flags |> raises 5 |> advances
  | IR_trap_exception | IR_trap_on_overflow =>
      no_effect |> raises (op_exception_vector op) |> writes_stack_pointer |> advances
  | IR_check_bounds =>
      sized |> reads src |> flags |> raises (op_exception_vector op) |> writes_stack_pointer |> advances
  | IR_return_restore_condition_codes =>
      no_effect |> with_stack SE_pop_exception_frame |> with_stack_width 6 |> flags |> writes_stack_pointer
        |> with_pc PE_observed_exception_return
  | IR_instruction_exception =>
      no_effect |> raises (op_exception_vector op) |> writes_stack_pointer |> with_pc PE_exception_entry
  | _ => no_effect
  end.

(** LEA, SWAP, EXT, PEA, LINK, UNLK and the bit operations: *)
Definition address_effect : M68kOperationEffect :=
  match op_kind op with
  | IR_load_effective_address =>
      no_effect |> reads src |> with_address_register_write (Some (ea_reg dst)) |> advances
  | IR_write_swap | IR_sign_extend_word | IR_sign_extend_long => sized |> writes dst |> flags |> advances
  | IR_push_effective_address =>
      no_effect |> with_operand_size W_long_word |> reads src |> with_stack SE_push_data_long |> with_stack_width 4
        |> advances
  | IR_link_frame =>
      no_effect |> with_operand_size W_long_word |> reads src |> writes dst
        |> with_address_register_write (Some (ea_reg dst)) |> with_stack SE_push_data_long |> with_stack_width 4
        |> advances
  | IR_unlink_frame =>
      no_effect |> with_operand_size W_long_word |> writes dst |> with_address_register_write (Some (ea_reg dst))
        |> with_stack SE_pop_data_long |> with_stack_width 4 |> advances
  | IR_bit_test | IR_bit_change | IR_bit_clear | IR_bit_set =>
      sized |> reads src |> writes dst |> flags |> advances
  | _ => no_effect
  end.

(** Branches, DBcc, MOVEM, shifts, jumps and calls: *)
Definition transfer_effect : M68kOperationEffect :=
  match op_kind op with
  | IR_general_branch => no_effect |> reads src |> branches_to branch_displacement
  | IR_bsr_call =>
      no_effect |> reads src |> branches_to branch_displacement |> with_stack SE_push_static_continuation
        |> with_stack_width 4
  | IR_dbcc_loop => no_effect |> reads src |> writes dst |> branches_to (i16 (ea_immediate_value src))
  | IR_movem_transfer => sized |> reads src |> writes dst |> advances
  | IR_shift_rotate_register => sized |> reads src |> writes dst |> flags |> advances
  | IR_shift_rotate_memory => sized |> reads dst |> writes dst |> flags |> advances
  | IR_jump_general =>
      let e := no_effect |> reads src in
      if m68k_is_statically_foldable_control_ea src
      then e |> with_pc PE_direct_target |> with_direct_target (m68k_canonical_ea_address src) else e
  | IR_call_general =>
      let e := no_effect |> reads src |> with_stack SE_push_static_continuation |> with_stack_width 4 in
      if m68k_is_statically_foldable_control_ea src
      then e |> with_pc PE_direct_target |> with_direct_target (m68k_canonical_ea_address src) else e
  | _ => no_effect
  end.

(** The whole switch. *)
Definition effect_of_kind : M68kOperationEffect :=
  match op_kind op with
  | IR_write_moveq =>
      no_effect |> with_register_write (Some (D0, u32 (op_operand op))) |> flags |> with_pc PE_advance |> with_pc_delta 2
  | IR_return_from_subroutine | IR_return_from_exception | IR_write_user_stack_pointer
  | IR_read_user_stack_pointer | IR_logical_immediate_to_ccr | IR_logical_immediate_to_sr
  | IR_stop_until_interrupt | IR_write_status_register | IR_read_status_register | IR_write_condition_codes
  | IR_no_operation => system_effect
  | IR_subtract_quick_long_d0 | IR_branch_ne_short | IR_branch_always_short => no_effect
  | IR_test_operand | IR_compare | IR_compare_immediate | IR_compare_address | IR_add | IR_add_immediate
  | IR_add_quick | IR_add_address | IR_subtract | IR_subtract_immediate | IR_subtract_quick
  | IR_subtract_address | IR_logical_and | IR_logical_and_immediate | IR_logical_or | IR_logical_or_immediate
  | IR_exclusive_or | IR_exclusive_or_immediate | IR_write_move | IR_write_movea | IR_write_clr => operand_effect
  | IR_logical_not | IR_negate_word | IR_negate_extended | IR_negate_decimal | IR_add_extended
  | IR_subtract_extended | IR_add_decimal | IR_subtract_decimal | IR_compare_memory | IR_exchange_registers =>
      extended_effect
  | IR_movep_transfer | IR_set_conditional | IR_test_and_set | IR_multiply_signed_word
  | IR_multiply_unsigned_word | IR_divide_signed_word | IR_divide_unsigned_word | IR_trap_exception
  | IR_trap_on_overflow | IR_check_bounds | IR_return_restore_condition_codes | IR_instruction_exception =>
      exception_effect
  | IR_load_effective_address | IR_write_swap | IR_sign_extend_word | IR_sign_extend_long
  | IR_push_effective_address | IR_link_frame | IR_unlink_frame | IR_bit_test | IR_bit_change | IR_bit_clear
  | IR_bit_set => address_effect
  | IR_general_branch | IR_bsr_call | IR_dbcc_loop | IR_movem_transfer | IR_shift_rotate_register
  | IR_shift_rotate_memory | IR_jump_general | IR_call_general => transfer_effect
  end.

End Effect.

(** A property of the effect of every kind, by evaluation. *)
Ltac by_effect_kind op :=
  unfold effect_of_kind, system_effect, operand_effect, extended_effect, exception_effect, address_effect,
    transfer_effect, address_destination, reads_memory_destination, note_exchange;
  destruct (op_kind op); try reflexivity;
  cbv zeta; repeat match goal with |- context [if ?b then _ else _] => destruct b end; reflexivity.

(** [register_write_footprint_complete]: the kinds whose masks are exhaustive. *)
Definition footprint_complete (kind : M68kIrKind) : bool :=
  match kind with
  | IR_no_operation | IR_add_quick | IR_add_immediate | IR_add | IR_add_address | IR_subtract
  | IR_subtract_immediate | IR_subtract_quick | IR_subtract_address | IR_compare_immediate
  | IR_logical_and | IR_logical_and_immediate | IR_logical_or | IR_logical_or_immediate
  | IR_exclusive_or | IR_exclusive_or_immediate | IR_bit_test | IR_bit_change | IR_bit_clear | IR_bit_set
  | IR_write_move | IR_shift_rotate_register | IR_shift_rotate_memory | IR_write_movea | IR_write_clr
  | IR_logical_not | IR_test_operand | IR_negate_word | IR_negate_extended | IR_add_extended
  | IR_subtract_extended | IR_compare_memory | IR_negate_decimal | IR_add_decimal | IR_subtract_decimal
  | IR_exchange_registers | IR_movep_transfer | IR_set_conditional | IR_test_and_set
  | IR_compare | IR_compare_address | IR_write_status_register | IR_read_status_register
  | IR_write_condition_codes | IR_logical_immediate_to_ccr | IR_logical_immediate_to_sr
  | IR_stop_until_interrupt | IR_write_user_stack_pointer | IR_read_user_stack_pointer
  | IR_trap_exception | IR_trap_on_overflow | IR_check_bounds | IR_return_restore_condition_codes
  | IR_instruction_exception | IR_general_branch => true
  | _ => false
  end.

(** The kinds whose Dn destination operand is only read. *)
Definition destination_only_read (kind : M68kIrKind) : bool :=
  match kind with
  | IR_compare | IR_compare_immediate | IR_compare_address | IR_compare_memory | IR_test_operand | IR_bit_test
  | IR_check_bounds => true
  | _ => false
  end.

(** The kinds that push or pop through A7 without naming it. *)
Definition moves_stack_pointer (kind : M68kIrKind) : bool :=
  match kind with
  | IR_push_effective_address | IR_return_from_subroutine | IR_link_frame | IR_unlink_frame | IR_bsr_call
  | IR_call_general => true
  | _ => false
  end.

Definition data_register_index (r : DataRegister) : Z :=
  match r with D0 => 0 | D1 => 1 | D2 => 2 | D3 => 3 | D4 => 4 | D5 => 5 | D6 => 6 | D7 => 7 end.

Definition m68k_operation_effect (op : M68kIrOperation) : M68kOperationEffect :=
  let e := effect_of_kind op in
  let e := note_ea_auto_update (op_source_ea op) e in
  let e := note_ea_auto_update (op_destination_ea op) e in
  let e := match oe_register_write e with Some (r, _) => note_data_register (data_register_index r) e | None => e end in
  let e :=
    match op_kind op with
    | IR_subtract_quick_long_d0 => with_data_register_write_mask (oe_data_register_write_mask e .| 0x01) e
    | _ => e
    end in
  let e :=
    match oe_address_register_write e with
    | Some r => if r <? 8 then note_address_register r e else e
    | None => e
    end in
  let e :=
    if (ea_mode (op_destination_ea op) =b EA_data_register) && (ea_reg (op_destination_ea op) <? 8) &&
       negb (destination_only_read (op_kind op))
    then note_data_register (ea_reg (op_destination_ea op)) e else e in
  let e := with_register_write_footprint_complete (footprint_complete (op_kind op)) e in
  if moves_stack_pointer (op_kind op) then writes_stack_pointer e else e.

(** CMP's condition codes, with the X policy of its effect. *)
Definition compare_operation : M68kIrOperation :=
  mkOperation default_provenance IR_compare D0 0 [] 0 W_long_word no_ea no_ea CC_always MD_registers_to_memory 0
    SR_lsl SL_and_op 0.

Definition m68k_compare_ccr (status_register source destination : Z) (width : M68kMemoryAccessWidth) : Z :=
  m68k_subtraction_ccr status_register source destination width
    (oe_extend_flag_policy (m68k_operation_effect compare_operation)).

(** What does not look at the register masks sees only the effect of the kind:
    the masks are recorded last. *)
Lemma effect_projection {A} (p : M68kOperationEffect -> A) op :
  (forall m e, p (with_data_register_write_mask m e) = p e) ->
  (forall m e, p (with_address_register_write_mask m e) = p e) ->
  (forall b e, p (with_register_write_footprint_complete b e) = p e) ->
  p (m68k_operation_effect op) = p (effect_of_kind op).
Proof.
  intros Hdata Haddress Hcomplete.
  assert (Hea : forall ea e, p (note_ea_auto_update ea e) = p e).
  { intros. unfold note_ea_auto_update, note_address_register. destruct (_ && _); [apply Haddress|done]. }
  unfold m68k_operation_effect. cbv zeta.
  match goal with |- context [oe_address_register_write ?e] => set (e4 := e) end.
  transitivity (p e4).
  - unfold writes_stack_pointer, note_data_register, note_address_register.
    destruct (moves_stack_pointer _), (_ && _), (oe_address_register_write e4) as [r|]; try destruct (r <? 8);
      by rewrite ?Haddress, ?Hcomplete, ?Hdata, ?Haddress.
  - subst e4. match goal with |- context [oe_register_write ?e] => set (e2 := e) end.
    transitivity (p e2); [|subst e2; by rewrite !Hea]. unfold note_data_register.
    destruct (oe_register_write e2) as [[]|], (op_kind op); by rewrite ?Hdata, ?Hdata.
Qed.
