(* ===== verification/M68kControl.v ===== *)
(** The control successors of [control_successors.cpp], and the composition of
    the decoder, the lifting, the operation effects and the successors: what
    control flow follows from the bytes of an instruction. *)

From S2P Require Import Prelude M68kInstruction M68kLegality M68kDecode M68kShape M68kDecodeSpec M68kArithmetic M68kEffects.

(** * Control successors ([control_successors.hpp], [control_successors.cpp]) *)

Inductive M68kControlSuccessorKind : Type :=
| CS_fallthrough | CS_branch_target | CS_conditional_target | CS_conditional_fallthrough | CS_call_target.

Inductive M68kStackedContinuationKind : Type :=
| SC_none | SC_call_continuation | SC_exception_continuation | SC_pushed_code_address.

Inductive M68kDynamicControlFamily : Type :=
| DF_none | DF_return_from_subroutine | DF_return_from_exception | DF_return_restore_condition_codes
| DF_jump_address_indirect | DF_call_address_indirect | DF_jump_address_disp16 | DF_call_address_disp16
| DF_jump_address_index | DF_call_address_index | DF_jump_pc_index | DF_call_pc_index | DF_unclassified.

Record M68kControlSuccessors := mkSuccessors {
  cs_successors : list (M68kControlSuccessorKind * Z);
  cs_stacked : M68kStackedContinuationKind;
  cs_stacked_address : Z;
  cs_dynamic : M68kDynamicControlFamily;
  cs_always_raises_exception : bool;
}.

Definition indirect_family (op : M68kIrOperation) : M68kDynamicControlFamily :=
  let call := match op_kind op with IR_call_general => true | _ => false end in
  match ea_mode (op_source_ea op) with
  | EA_address_indirect => if call then DF_call_address_indirect else DF_jump_address_indirect
  | EA_address_disp16 => if call then DF_call_address_disp16 else DF_jump_address_disp16
  | EA_address_index8 => if call then DF_call_address_index else DF_jump_address_index
  | EA_pc_index8 => if call then DF_call_pc_index else DF_jump_pc_index
  | _ => DF_unclassified
  end.

(** A call stacks its continuation. *)
Definition initial_successors (effect : M68kOperationEffect) (next : Z) : M68kControlSuccessors :=
  match oe_stack effect with
  | SE_push_static_continuation => mkSuccessors [] SC_call_continuation next DF_none false
  | _ => mkSuccessors [] SC_none 0 DF_none false
  end.

(** [out.successors.push_back(successor)], [out.stacked = kind; out.stacked_address = address],
    [out.dynamic = family], [out.always_raises_exception = true] *)
Definition push_back (successor : M68kControlSuccessorKind * Z) (out : M68kControlSuccessors) : M68kControlSuccessors :=
  mkSuccessors (cs_successors out ++ [successor]) (cs_stacked out) (cs_stacked_address out) (cs_dynamic out)
    (cs_always_raises_exception out).
Definition clear_successors (out : M68kControlSuccessors) : M68kControlSuccessors :=
  mkSuccessors [] (cs_stacked out) (cs_stacked_address out) (cs_dynamic out) (cs_always_raises_exception out).
Definition stack_continuation (kind : M68kStackedContinuationKind) (address : Z) (out : M68kControlSuccessors)
    : M68kControlSuccessors :=
  mkSuccessors (cs_successors out) kind address (cs_dynamic out) (cs_always_raises_exception out).
Definition set_dynamic (family : M68kDynamicControlFamily) (out : M68kControlSuccessors) : M68kControlSuccessors :=
  mkSuccessors (cs_successors out) (cs_stacked out) (cs_stacked_address out) family (cs_always_raises_exception out).
Definition set_raises (out : M68kControlSuccessors) : M68kControlSuccessors :=
  mkSuccessors (cs_successors out) (cs_stacked out) (cs_stacked_address out) (cs_dynamic out) true.

(** The switch on [effect.pc]. *)
Definition pc_successors (op : M68kIrOperation) (effect : M68kOperationEffect) (address next : Z)
    (out : M68kControlSuccessors) : M68kControlSuccessors :=
  match oe_pc effect with
  | PE_advance =>
      let out := push_back (CS_fallthrough, u32 (address + oe_pc_delta effect)) out in
      match op_kind op with
      | IR_trap_exception => clear_successors (stack_continuation SC_exception_continuation next out)
      | IR_trap_on_overflow => stack_continuation SC_exception_continuation next out
      | _ => out
      end
  | PE_direct_target =>
      let target := oe_direct_target effect in
      let conditional := push_back (CS_conditional_fallthrough, next) (push_back (CS_conditional_target, target) out) in
      match op_kind op with
      | IR_general_branch =>
          if op_condition op =b CC_always then push_back (CS_branch_target, target) out else conditional
      | IR_dbcc_loop | IR_branch_ne_short => conditional
      | _ =>
          match oe_stack effect with
          | SE_push_static_continuation => push_back (CS_call_target, target) out
          | _ => push_back (CS_branch_target, target) out
          end
      end
  | PE_observed_stack_return => set_dynamic DF_return_from_subroutine out
  | PE_observed_exception_return =>
      set_dynamic
        match op_kind op with
        | IR_return_restore_condition_codes => DF_return_restore_condition_codes
        | _ => DF_return_from_exception
        end out
  | PE_exception_entry => set_raises out
  | PE_none =>
      set_dynamic
        match op_kind op with
        | IR_jump_general | IR_call_general => indirect_family op
        | _ => DF_unclassified
        end out
  end.

(** PEA of a foldable address stacks a possible code address. *)
Definition pushed_code_address (op : M68kIrOperation) (out : M68kControlSuccessors) : M68kControlSuccessors :=
  match op_kind op with
  | IR_push_effective_address =>
      if m68k_is_statically_foldable_control_ea (op_source_ea op)
      then stack_continuation SC_pushed_code_address (m68k_canonical_ea_address (op_source_ea op)) out
      else out
  | _ => out
  end.

Definition m68k_control_successors (op : M68kIrOperation) : M68kControlSuccessors :=
  let effect := m68k_operation_effect op in
  let address := pa_value (ds_address (ip_source (op_provenance op))) in
  let next := u32 (address + ip_length (op_provenance op)) in
  pushed_code_address op (pc_successors op effect address next (initial_successors effect next)).

Definition m68k_dynamic_control_family_name (family : M68kDynamicControlFamily) : string :=
  match family with
  | DF_none => "none"
  | DF_return_from_subroutine => "rts"
  | DF_return_from_exception => "rte"
  | DF_return_restore_condition_codes => "rtr"
  | DF_jump_address_indirect => "jmp_(An)"
  | DF_call_address_indirect => "jsr_(An)"
  | DF_jump_address_disp16 => "jmp_d16(An)"
  | DF_call_address_disp16 => "jsr_d16(An)"
  | DF_jump_address_index => "jmp_(d8,An,Xn)"
  | DF_call_address_index => "jsr_(d8,An,Xn)"
  | DF_jump_pc_index => "jmp_(d8,PC,Xn)"
  | DF_call_pc_index => "jsr_(d8,PC,Xn)"
  | DF_unclassified => "unclassified"
  end.

(** * What the decoder records for a control transfer

    The facts about the bytes that a decoded instruction of each kind carries;
    the other kinds carry none that control flow depends on. *)

(** Every instruction a decoder answers satisfies [P]. *)
Definition all_ok {E A} (P : A -> Prop) (r : result E A) : Prop :=
  match r with Ok a => P a | Err _ => True end.
Definition all_found {E A} (P : A -> Prop) (r : option (result E A)) : Prop :=
  match r with Some r => all_ok P r | None => True end.

Lemma all_ok_bind {E A B} (P : B -> Prop) (m : result E A) (f : A -> result E B) :
  (forall a, m = Ok a -> all_ok P (f a)) -> all_ok P (m ≫= f).
Proof. destruct m as [a|]; [|done]. intros H. by apply H. Qed.

Lemma all_found_bind {E A B} (P : B -> Prop) (m : option A) (f : A -> option (result E B)) :
  (forall a, m = Some a -> all_found P (f a)) -> all_found P (m ≫= f).
Proof. destruct m as [a|]; [|done]. intros H. by apply H. Qed.

Lemma all_found_orelse {E A} (P : A -> Prop) (m n : option (result E A)) :
  all_found P m -> all_found P n -> all_found P (m orelse n).
Proof. by destruct m. Qed.

Section FORMS.
Context (source : DecodeSource) (image : list Z) (offset available : Z) (bytes : Z * Z).

#[local] Abbreviation one_ea := (m68k_decode_one_ea source image offset available bytes).

(** The displacement of a branch: the low byte of the primary word, or the
    extension word when that byte is zero. *)
Definition displacement_form (i : M68kDecodedInstruction) : Prop :=
  if bytes.2 =? 0 then i_size i = W_word /\ ea_immediate_value (i_source_ea i) = read16 image (offset + 2)
  else i_size i = W_byte /\ ea_immediate_value (i_source_ea i) = bytes.2.

Definition transfer_form (word : Z) (i : M68kDecodedInstruction) : Prop :=
  match i_kind i with
  | K_branch =>
      displacement_form i /\
      let selector := (word .>> 8) .& 0xF in
      i_condition i = if selector =? 0 then CC_always else m68k_condition_from_selector selector
  | K_bsr => displacement_form i
  | K_dbcc => ea_immediate_value (i_source_ea i) = read16 image (offset + 2)
  | K_jmp | K_jsr =>
      exists n, one_ea 0 (mode_field word) (reg_field word) m68k_ea_jsr_jmp_control_modes W_long_word =
        Ok (i_source_ea i, n)
  | K_pea =>
      exists n, one_ea 0 (mode_field word) (reg_field word) m68k_ea_pea_control_modes W_long_word =
        Ok (i_source_ea i, n)
  | K_moveq => instruction_length i = 2
  | K_subq_l_1_d0 | K_bne_short | K_bra_short => False
  | _ => True
  end.

(** The kinds without such facts. *)
Definition plain (kind : M68kInstructionKind) : bool :=
  match kind with
  | K_moveq | K_branch | K_bsr | K_dbcc | K_jmp | K_jsr | K_pea | K_subq_l_1_d0 | K_bne_short | K_bra_short => false
  | _ => true
  end.

Lemma plain_form word i : plain (i_kind i) = true -> transfer_form word i.
Proof using Type. unfold transfer_form. by destruct (i_kind i). Qed.

Lemma finish_plain word kind size src dst n :
  plain kind = true -> transfer_form word (m68k_finish_general_decode source image offset bytes kind size src dst n).
Proof using Type. intros. by apply plain_form. Qed.

Lemma select_kind word kind n i :
  select source image offset available bytes word kind n = Ok i -> i_kind i = kind.
Proof using Type. unfold select, fail_if. destruct (available <? n); cbn; [discriminate|].
  intros H. exact (eq_sym (f_equal (fun r : M68kDecodeResult => match r with Ok j => i_kind j | Err _ => kind end) H)).
Qed.

Lemma select_plain word kind n :
  plain kind = true -> all_ok (transfer_form word) (select source image offset available bytes word kind n).
Proof using Type.
  intros H. destruct (select _ _ _ _ _ _ _ _) eqn:E; [|done]. apply plain_form. by rewrite (select_kind _ _ _ _ E).
Qed.

Lemma select_moveq word : all_ok (transfer_form word) (select source image offset available bytes word K_moveq 2).
Proof using Type. unfold select, fail_if. by destruct (available <? 2). Qed.

Create HintDb m68k_form.
#[local] Hint Resolve finish_plain select_plain select_moveq : m68k_form.

(** Split a decoder down to the instructions it finishes. *)
Ltac form_step :=
  match goal with
  | |- all_found _ None => exact I
  | |- all_found _ (Some _) => unfold all_found
  | |- all_found _ (match ?o with Some r => Some r | None => _ end) => apply all_found_orelse
  | |- all_found _ (mbind _ _) => apply all_found_bind; intros
  | |- all_ok _ (Err _) => exact I
  | |- all_ok _ (Ok _) => unfold all_ok
  | |- all_ok _ (mbind _ _) => apply all_ok_bind; intros ? ?
  | |- transfer_form _ _ => solve [apply plain_form; reflexivity || assumption]
  | H : select _ _ _ _ _ _ _ _ = Ok ?i |- transfer_form _ _ =>
      solve [apply plain_form; apply select_kind in H; cbn; rewrite H; reflexivity]
  | |- all_ok _ (match ?a with (_, _) => _ end) => destruct a
  | |- all_found _ (match ?a with (_, _) => _ end) => destruct a
  | |- context [if ?b then _ else _] => destruct b eqn:?
  | |- _ => solve [eauto with m68k_form]
  end.
Ltac form := cbv zeta; repeat form_step.

Lemma tst_form word :
  all_ok (transfer_form word) (m68k_decode_general_tst source image offset available bytes word).
Proof using Type. unfold m68k_decode_general_tst. form. Qed.

#[local] Hint Resolve tst_form : m68k_form.

Lemma move_form word :
  all_found (transfer_form word) (m68k_decode_general_move source image offset available bytes word).
Proof using Type. unfold m68k_decode_general_move. form. Qed.

#[local] Hint Resolve move_form : m68k_form.

Lemma move_to_sr_form word :
  all_found (transfer_form word) (m68k_decode_general_move_to_sr source image offset available bytes word).
Proof using Type. unfold m68k_decode_general_move_to_sr. form. Qed.

#[local] Hint Resolve move_to_sr_form : m68k_form.

Lemma move_from_sr_form word :
  all_found (transfer_form word) (m68k_decode_general_move_from_sr source image offset available bytes word).
Proof using Type. unfold m68k_decode_general_move_from_sr. form. Qed.

#[local] Hint Resolve move_from_sr_form : m68k_form.

Lemma move_to_ccr_form word :
  all_found (transfer_form word) (m68k_decode_general_move_to_ccr source image offset available bytes word).
Proof using Type. unfold m68k_decode_general_move_to_ccr. form. Qed.

#[local] Hint Resolve move_to_ccr_form : m68k_form.

Lemma clr_form word :
  all_found (transfer_form word) (m68k_decode_general_clr source image offset available bytes word).
Proof using Type. unfold m68k_decode_general_clr. form. Qed.

#[local] Hint Resolve clr_form : m68k_form.

Lemma not_form word :
  all_found (transfer_form word) (m68k_decode_general_not source image offset available bytes word).
Proof using Type. unfold m68k_decode_general_not. form. Qed.

#[local] Hint Resolve not_form : m68k_form.

Lemma negate_word_form word :
  all_found (transfer_form word) (m68k_decode_general_negate_word source image offset available bytes word).
Proof using Type. unfold m68k_decode_general_negate_word. form. Qed.

#[local] Hint Resolve negate_word_form : m68k_form.

Lemma negx_form word :
  all_found (transfer_form word) (m68k_decode_general_negx source image offset available bytes word).
Proof using Type. unfold m68k_decode_general_negx. form. Qed.

#[local] Hint Resolve negx_form : m68k_form.

Lemma nbcd_form word :
  all_found (transfer_form word) (m68k_decode_general_nbcd source image offset available bytes word).
Proof using Type. unfold m68k_decode_general_nbcd. form. Qed.

#[local] Hint Resolve nbcd_form : m68k_form.

Lemma tas_form word :
  all_found (transfer_form word) (m68k_decode_general_tas source image offset available bytes word).
Proof using Type. unfold m68k_decode_general_tas. form. Qed.

#[local] Hint Resolve tas_form : m68k_form.

Lemma scc_form word :
  all_found (transfer_form word) (m68k_decode_general_scc source image offset available bytes word).
Proof using Type. unfold m68k_decode_general_scc. form. Qed.

#[local] Hint Resolve scc_form : m68k_form.

Lemma bcd_pair_form word :
  all_found (transfer_form word) (m68k_decode_general_bcd_pair source image offset bytes word).
Proof using Type. unfold m68k_decode_general_bcd_pair. form. Qed.

#[local] Hint Resolve bcd_pair_form : m68k_form.

Lemma exg_form word :
  all_found (transfer_form word) (m68k_decode_general_exg source image offset bytes word).
Proof using Type. unfold m68k_decode_general_exg. form. Qed.

#[local] Hint Resolve exg_form : m68k_form.

Lemma movep_form word :
  all_found (transfer_form word) (m68k_decode_general_movep source image offset available bytes word).
Proof using Type. unfold m68k_decode_general_movep. form. Qed.

#[local] Hint Resolve movep_form : m68k_form.

Lemma extended_pair_form word :
  all_found (transfer_form word) (m68k_decode_general_extended_pair source image offset bytes word).
Proof using Type.
  unfold m68k_decode_general_extended_pair. form.
  match goal with H : _ = Some _ |- _ => repeat split_match_in H; form end.
Qed.

#[local] Hint Resolve extended_pair_form : m68k_form.

Lemma immediate_to_ea_form kind legal word :
  plain kind = true -> all_ok (transfer_form word) (immediate_to_ea source image offset available bytes kind legal word).
Proof using Type. intros. unfold immediate_to_ea. form. Qed.

#[local] Hint Resolve immediate_to_ea_form : m68k_form.

Lemma register_to_ea_form kind legal word :
  plain kind = true -> all_ok (transfer_form word) (register_to_ea source image offset available bytes kind legal word).
Proof using Type. intros. unfold register_to_ea. form. Qed.

#[local] Hint Resolve register_to_ea_form : m68k_form.

Lemma quick_to_ea_form kind word :
  plain kind = true -> all_found (transfer_form word) (quick_to_ea source image offset available bytes kind word).
Proof using Type. intros. unfold quick_to_ea. form. Qed.

#[local] Hint Resolve quick_to_ea_form : m68k_form.

Lemma compare_form word :
  all_found (transfer_form word) (m68k_decode_general_compare source image offset available bytes word).
Proof using Type. unfold m68k_decode_general_compare. form. Qed.

#[local] Hint Resolve compare_form : m68k_form.

Lemma subtract_form word :
  all_found (transfer_form word) (m68k_decode_general_subtract source image offset available bytes word).
Proof using Type. unfold m68k_decode_general_subtract. form. Qed.

#[local] Hint Resolve subtract_form : m68k_form.

Lemma add_form word :
  all_found (transfer_form word) (m68k_decode_general_add source image offset available bytes word).
Proof using Type. unfold m68k_decode_general_add. form. Qed.

#[local] Hint Resolve add_form : m68k_form.

Lemma ordinary_immediate_form primary kind word :
  plain kind = true -> all_found (transfer_form word) (ordinary_immediate source image offset available bytes primary kind word).
Proof using Type. intros. unfold ordinary_immediate. form. Qed.

#[local] Hint Resolve ordinary_immediate_form : m68k_form.

Lemma status_immediate_form word :
  all_found (transfer_form word) (status_immediate source image offset available bytes word).
Proof using Type. unfold status_immediate. form. Qed.

#[local] Hint Resolve status_immediate_form : m68k_form.

Lemma decode_register_logical_form family kind eor_only word :
  plain kind = true -> all_found (transfer_form word) (decode_register_logical source image offset available bytes family kind eor_only word).
Proof using Type. intros. unfold decode_register_logical. form. Qed.

#[local] Hint Resolve decode_register_logical_form : m68k_form.

Lemma multiply_divide_form primary kind word :
  plain kind = true -> all_found (transfer_form word) (multiply_divide source image offset available bytes primary kind word).
Proof using Type. intros. unfold multiply_divide. form. Qed.

#[local] Hint Resolve multiply_divide_form : m68k_form.

Lemma logical_form word :
  all_found (transfer_form word) (m68k_decode_general_logical source image offset available bytes word).
Proof using Type. unfold m68k_decode_general_logical. form. Qed.

#[local] Hint Resolve logical_form : m68k_form.

Lemma swap_ext_form word :
  all_found (transfer_form word) (m68k_decode_general_swap_ext source image offset bytes word).
Proof using Type. unfold m68k_decode_general_swap_ext. form. Qed.

#[local] Hint Resolve swap_ext_form : m68k_form.

Lemma lea_form word :
  all_found (transfer_form word) (m68k_decode_general_lea source image offset available bytes word).
Proof using Type. unfold m68k_decode_general_lea. form. Qed.

#[local] Hint Resolve lea_form : m68k_form.

Lemma link_unlk_form word :
  all_found (transfer_form word) (m68k_decode_general_link_unlk source image offset available bytes word).
Proof using Type. unfold m68k_decode_general_link_unlk. form. Qed.

#[local] Hint Resolve link_unlk_form : m68k_form.

Lemma bit_finish_form kind bit_number_ea consumed word :
  plain kind = true -> all_ok (transfer_form word) (bit_finish source image offset available bytes kind bit_number_ea consumed word).
Proof using Type. intros. unfold bit_finish. form. Qed.

#[local] Hint Resolve bit_finish_form : m68k_form.

Lemma bit_operation_form word :
  all_found (transfer_form word) (m68k_decode_general_bit_operation source image offset available bytes word).
Proof using Type. unfold m68k_decode_general_bit_operation. form. Qed.

#[local] Hint Resolve bit_operation_form : m68k_form.

Lemma movem_form word :
  all_found (transfer_form word) (m68k_decode_general_movem source image offset available bytes word).
Proof using Type. unfold m68k_decode_general_movem. form. Qed.

#[local] Hint Resolve movem_form : m68k_form.

Lemma shift_rotate_form word :
  all_found (transfer_form word) (m68k_decode_general_shift_rotate source image offset bytes word).
Proof using Type. unfold m68k_decode_general_shift_rotate. form. Qed.

#[local] Hint Resolve shift_rotate_form : m68k_form.

Lemma shift_rotate_memory_form word :
  all_found (transfer_form word) (m68k_decode_general_shift_rotate_memory source image offset available bytes word).
Proof using Type. unfold m68k_decode_general_shift_rotate_memory. form. Qed.

#[local] Hint Resolve shift_rotate_memory_form : m68k_form.

Lemma pea_form word : all_found (transfer_form word) (m68k_decode_general_pea source image offset available bytes word).
Proof using Type.
  unfold m68k_decode_general_pea. form. by eexists.
Qed.

#[local] Hint Resolve pea_form : m68k_form.

Lemma jmp_form word : all_found (transfer_form word) (m68k_decode_general_jmp source image offset available bytes word).
Proof using Type.
  unfold m68k_decode_general_jmp. form. by eexists.
Qed.

#[local] Hint Resolve jmp_form : m68k_form.

Lemma jsr_form word : all_found (transfer_form word) (m68k_decode_general_jsr source image offset available bytes word).
Proof using Type.
  unfold m68k_decode_general_jsr. form. by eexists.
Qed.

#[local] Hint Resolve jsr_form : m68k_form.

Lemma extension_word_read w :
  extension_word source image offset available bytes = Ok w -> w = read16 image (offset + 2).
Proof using Type. unfold extension_word, fail_if. destruct (available <? 4); cbn; [done|]. by intros [= <-]. Qed.

#[local] Hint Resolve extension_word_read : m68k_form.

Lemma branch_form word : all_found (transfer_form word) (m68k_decode_general_branch source image offset available bytes word).
Proof using Type.
  unfold m68k_decode_general_branch. destruct (bytes.2 =? 0) eqn:E; cbn [negb].
  all: destruct (negb (word .& 0xF000 =? _)), ((word .>> 8) .& 0xF =? 1); form; cbv beta.
  all: unfold transfer_form, displacement_form; rewrite E; cbv zeta.
  all: try match goal with H : (_ =? 0) = _ |- _ => rewrite H end.
  all: split; [split; [reflexivity|]|reflexivity].
  all: try match goal with H : extension_word _ _ _ _ _ = Ok _ |- _ => exact (extension_word_read _ H) end.
  all: reflexivity.
Qed.

Lemma bsr_form word : all_found (transfer_form word) (m68k_decode_general_bsr source image offset available bytes word).
Proof using Type.
  unfold m68k_decode_general_bsr. destruct (bytes.2 =? 0) eqn:E; cbn [negb].
  all: destruct (negb (word .& 0xFF00 =? _)); form; unfold transfer_form, displacement_form; rewrite E.
  all: split; [reflexivity|].
  all: try match goal with H : extension_word _ _ _ _ _ = Ok _ |- _ => exact (extension_word_read _ H) end.
  all: reflexivity.
Qed.

Lemma dbcc_form word : all_found (transfer_form word) (m68k_decode_general_dbcc source image offset available bytes word).
Proof using Type.
  unfold m68k_decode_general_dbcc. destruct (negb (word .& 0xF0F8 =? _)); form.
  all: match goal with H : extension_word _ _ _ _ _ = Ok _ |- _ => exact (extension_word_read _ H) end.
Qed.

#[local] Hint Resolve branch_form bsr_form dbcc_form : m68k_form.

Lemma exception_forms_form word : all_found (transfer_form word) (exception_forms source image offset available bytes word).
Proof using Type. unfold exception_forms. form. Qed.

#[local] Hint Resolve exception_forms_form : m68k_form.

Lemma system_forms_form general word : all_found (transfer_form word) (system_forms source image offset available bytes general word).
Proof using Type. unfold system_forms. form. Qed.

#[local] Hint Resolve system_forms_form : m68k_form.

Lemma general_forms_form word : all_found (transfer_form word) (general_forms source image offset available bytes word).
Proof using Type. unfold general_forms. form. Qed.

#[local] Hint Resolve general_forms_form : m68k_form.

Lemma startup_forms_form word :
  all_found (transfer_form word) (startup_forms source image offset available bytes true word).
Proof using Type. unfold startup_forms. cbn [orb negb]. form. Qed.

Lemma compatibility_forms_form word :
  all_ok (transfer_form word) (compatibility_forms source available bytes DP_general_startup word).
Proof using Type.
  unfold compatibility_forms. rewrite (bool_decide_false (DP_general_startup = DP_direct_flow)) by done.
  cbn [andb]. cbv zeta. by destruct (_ && _).
Qed.

(** The facts of every instruction the general profile decodes. *)
Lemma decode_word_form word :
  all_ok (transfer_form word) (decode_word source image offset available bytes DP_general_startup word).
Proof using Type.
  unfold decode_word. rewrite (bool_decide_true (DP_general_startup = _)) by done. rewrite andb_false_r, orb_true_r.
  pose proof (startup_forms_form word) as H.
  destruct (startup_forms source image offset available bytes true word); [exact H|apply compatibility_forms_form].
Qed.

End FORMS.

(** * The control flow of an instruction, from its bytes *)

Section CONTROL.
Context (image : list Z) (source : DecodeSource).

#[local] Abbreviation offset := (ds_image_offset source).
#[local] Abbreviation address := (pa_value (ds_address source)).
#[local] Abbreviation word := (primary_word (primary_bytes image source)).

(** The extension word, and the displacement of a branch. *)
Definition extension_displacement : Z := i16 (read16 image (offset + 2)).
Definition short_or_extension_displacement : Z :=
  let low := znth image (offset + 1) 0 in
  if low =? 0 then extension_displacement else i8 low.

Definition displaced (displacement : Z) : Z := u32 (address + 2 + displacement).

(** The 32-bit extension. *)
Definition extension_long : Z :=
  (znth image (offset + 2) 0 .<< 24) .| (znth image (offset + 3) 0 .<< 16) .|
  (znth image (offset + 4) 0 .<< 8) .| znth image (offset + 5) 0.

(** The address a control operand names when it depends on no register:
    [(xxx).W] on the 24-bit bus, [(xxx).L], [(d16,PC)]. *)
Definition code_address : option Z :=
  if mode_field word =? 7 then
    if reg_field word =? 0 then Some (u32 extension_displacement .& 0x00FFFFFF)
    else if reg_field word =? 1 then Some extension_long
    else if reg_field word =? 2 then Some (displaced extension_displacement)
    else None
  else None.

(** The families of the other control operands: [(An)], [(d16,An)], [(d8,An,Xn)],
    [(d8,PC,Xn)]. *)
Definition register_family (indirect displaced indexed pc_indexed : M68kDynamicControlFamily)
    : M68kDynamicControlFamily :=
  if mode_field word =? 2 then indirect
  else if mode_field word =? 5 then displaced
  else if mode_field word =? 6 then indexed
  else if (mode_field word =? 7) && (reg_field word =? 3) then pc_indexed
  else DF_unclassified.

Definition jump_family : M68kDynamicControlFamily :=
  register_family DF_jump_address_indirect DF_jump_address_disp16 DF_jump_address_index DF_jump_pc_index.
Definition call_family : M68kDynamicControlFamily :=
  register_family DF_call_address_indirect DF_call_address_disp16 DF_call_address_index DF_call_pc_index.

Definition statically (successors : list (M68kControlSuccessorKind * Z)) : M68kControlSuccessors :=
  mkSuccessors successors SC_none 0 DF_none false.
Definition dynamic (family : M68kDynamicControlFamily) : M68kControlSuccessors :=
  mkSuccessors [] SC_none 0 family false.

(** The control flow of an instruction of [length] bytes. *)
Definition control_of_bytes (length : Z) : M68kControlSuccessors :=
  let next := u32 (address + length) in
  match opcode_kind word with
  | Some K_branch =>
      let taken := displaced short_or_extension_displacement in
      if (word .>> 8) .& 0xF =? 0 then statically [(CS_branch_target, taken)]
      else statically [(CS_conditional_target, taken); (CS_conditional_fallthrough, next)]
  | Some K_dbcc =>
      statically [(CS_conditional_target, displaced extension_displacement); (CS_conditional_fallthrough, next)]
  | Some K_bsr =>
      mkSuccessors [(CS_call_target, displaced short_or_extension_displacement)] SC_call_continuation next
        DF_none false
  | Some K_jmp =>
      match code_address with
      | Some a => statically [(CS_branch_target, a)]
      | None => dynamic jump_family
      end
  | Some K_jsr =>
      match code_address with
      | Some a => mkSuccessors [(CS_call_target, a)] SC_call_continuation next DF_none false
      | None => mkSuccessors [] SC_call_continuation next call_family false
      end
  | Some K_pea =>
      match code_address with
      | Some a => mkSuccessors [(CS_fallthrough, next)] SC_pushed_code_address a DF_none false
      | None => statically [(CS_fallthrough, next)]
      end
  | Some K_rts => dynamic DF_return_from_subroutine
  | Some K_rte => dynamic DF_return_from_exception
  | Some K_rtr => dynamic DF_return_restore_condition_codes
  | Some K_trap => mkSuccessors [] SC_exception_continuation next DF_none false
  | Some K_trapv => mkSuccessors [(CS_fallthrough, next)] SC_exception_continuation next DF_none false
  | Some K_instruction_exception => mkSuccessors [] SC_none 0 DF_none true
  | _ => statically [(CS_fallthrough, next)]
  end.

End CONTROL.

(** * The operand of JMP, JSR and PEA *)

(** The part of an effect that control flow reads. *)
Definition control_part (e : M68kOperationEffect) : M68kPcEffectKind * Z * Z * M68kStackEffectKind :=
  (oe_pc e, oe_pc_delta e, oe_direct_target e, oe_stack e).

(** It is that of the operation's kind: the masks recorded afterwards leave it. *)
Lemma effect_control op : control_part (m68k_operation_effect op) = control_part (effect_of_kind op).
Proof. apply (effect_projection control_part); reflexivity. Qed.

(** What the decoder read when it answered an operand. *)
Lemma one_ea_read source image offset available bytes consumed mode3 reg3 legal size ea n :
  m68k_decode_one_ea source image offset available bytes consumed mode3 reg3 legal size = Ok (ea, n) ->
  exists mode reg, ea_field_mode mode3 reg3 = Some (mode, reg) /\ (legal .& m68k_ea_bit_for mode =? 0) = false /\
    read_ea image mode reg (ea_extension_bytes mode size / 2) size (offset + 2 + consumed)
      (u32 (pa_value (ds_address source) + 2 + consumed)) = (EP_ok, ea).
Proof.
  unfold m68k_decode_one_ea, m68k_parse_ea_field. cbv zeta.
  destruct (ea_field_mode mode3 reg3) as [[mode reg]|]; [|discriminate].
  destruct (legal .& m68k_ea_bit_for mode =? 0) eqn:El; [discriminate|]. destruct (_ <? _); [discriminate|].
  destruct (read_ea _ _ _ _ _ _ _) as [[] e] eqn:Er; try discriminate.
  intros H. injection H as -> _. exists mode, reg. done.
Qed.

Lemma u32_add_l a b : u32 (u32 a + b) = u32 (a + b).
Proof. apply Zplus_mod_idemp_l. Qed.

(** The field a mode was read from. *)
Lemma ea_field_mode_fields mode3 reg3 mode reg :
  ea_field_mode mode3 reg3 = Some (mode, reg) ->
  match mode with
  | EA_unused => False
  | EA_data_register => mode3 = 0 | EA_address_register => mode3 = 1 | EA_address_indirect => mode3 = 2
  | EA_address_postinc => mode3 = 3 | EA_address_predec => mode3 = 4 | EA_address_disp16 => mode3 = 5
  | EA_address_index8 => mode3 = 6
  | EA_absolute_word => mode3 = 7 /\ reg3 = 0 | EA_absolute_long => mode3 = 7 /\ reg3 = 1
  | EA_pc_disp16 => mode3 = 7 /\ reg3 = 2 | EA_pc_index8 => mode3 = 7 /\ reg3 = 3
  | EA_immediate => mode3 = 7 /\ reg3 = 4
  end.
Proof.
  unfold ea_field_mode. intros H.
  repeat (case_match; to_prop; simplify_eq; try done).
Qed.

(** The operand the decoder reads for a control transfer is the one the bytes
    name: a code address, or a mode of a dynamic family. *)
Lemma control_operand image source available bytes ea n :
  let word := primary_word (primary_bytes image source) in
  m68k_decode_one_ea source image (ds_image_offset source) available bytes 0 (mode_field word) (reg_field word)
    m68k_ea_jsr_jmp_control_modes W_long_word = Ok (ea, n) ->
  code_address image source =
    (if m68k_is_statically_foldable_control_ea ea then Some (m68k_canonical_ea_address ea) else None) /\
  (m68k_is_statically_foldable_control_ea ea = false ->
   forall op, op_source_ea op = ea ->
     (op_kind op = IR_jump_general -> indirect_family op = jump_family image source) /\
     (op_kind op = IR_call_general -> indirect_family op = call_family image source) /\
     indirect_family op <> DF_unclassified).
Proof.
  cbv zeta. intros H. apply one_ea_read in H as (mode & reg & Hm & Hl & Hr).
  unfold code_address, jump_family, call_family, register_family, indirect_family.
  unfold m68k_is_statically_foldable_control_ea, m68k_canonical_ea_address.
  apply ea_field_mode_fields in Hm. set (m := mode_field _) in *. set (r := reg_field _) in *. clearbody m r.
  pose proof (read_ea_shape image mode reg (ea_extension_bytes mode W_long_word / 2) W_long_word
    (ds_image_offset source + 2 + 0) (u32 (pa_value (ds_address source) + 2 + 0))) as Hs.
  rewrite Hr in Hs. apply (fun H => proj1 (H eq_refl)) in Hs. cbn [snd] in Hs.
  destruct mode; try discriminate Hl;
    (match type of Hm with _ /\ _ => destruct Hm as [Em Er]; rewrite Em, Er | _ => rewrite Hm end); rewrite Hs.
  all: split; [|first [discriminate|intros _ op ->; rewrite Hs;
    split_and!; [intros ->; reflexivity|intros ->; reflexivity|by destruct (op_kind op)]]].
  all: try reflexivity.
  all: injection Hr; intros <-; cbn; f_equal.
  all: unfold displaced, extension_displacement, extension_long; rewrite !Z.add_0_r, ?u32_add_l, <- ?Z.add_assoc.
  all: reflexivity.
Qed.

(** The control part of each kind's effect: all but the transfers advance. *)
Definition kind_control (op : M68kIrOperation) : M68kPcEffectKind * Z * Z * M68kStackEffectKind :=
  let branch d := (PE_direct_target, 0, m68k_branch_target (pa_value (ds_address (ip_source (op_provenance op)))) d) in
  let length := ip_length (op_provenance op) in
  let operand :=
    if m68k_is_statically_foldable_control_ea (op_source_ea op)
    then (PE_direct_target, 0, m68k_canonical_ea_address (op_source_ea op)) else (PE_none, 0, 0) in
  match op_kind op with
  | IR_write_moveq => (PE_advance, 2, 0, SE_none)
  | IR_return_from_subroutine => (PE_observed_stack_return, 0, 0, SE_pop_static_return)
  | IR_return_from_exception | IR_return_restore_condition_codes =>
      (PE_observed_exception_return, 0, 0, SE_pop_exception_frame)
  | IR_subtract_quick_long_d0 | IR_branch_ne_short | IR_branch_always_short => (PE_none, 0, 0, SE_none)
  | IR_instruction_exception => (PE_exception_entry, 0, 0, SE_none)
  | IR_push_effective_address | IR_link_frame => (PE_advance, length, 0, SE_push_data_long)
  | IR_unlink_frame => (PE_advance, length, 0, SE_pop_data_long)
  | IR_general_branch => (branch (branch_displacement op), SE_none)
  | IR_bsr_call => (branch (branch_displacement op), SE_push_static_continuation)
  | IR_dbcc_loop => (branch (i16 (ea_immediate_value (op_source_ea op))), SE_none)
  | IR_jump_general => (operand, SE_none)
  | IR_call_general => (operand, SE_push_static_continuation)
  | _ => (PE_advance, length, 0, SE_none)
  end.

Lemma effect_kind_control op : control_part (effect_of_kind op) = kind_control op.
Proof. unfold kind_control. by_effect_kind op. Qed.

(** What the successors are, given that part. *)
Lemma successors_of_control op pc delta target stack :
  kind_control op = (pc, delta, target, stack) ->
  exists e, m68k_operation_effect op = e /\ oe_pc e = pc /\ oe_pc_delta e = delta /\ oe_direct_target e = target /\
    oe_stack e = stack.
Proof.
  intros H. rewrite <- effect_kind_control, <- effect_control in H.
  exists (m68k_operation_effect op). split; [done|].
  generalize dependent (m68k_operation_effect op). intros e H. injection H as <- <- <- <-. done.
Qed.

(** The kinds that only advance. *)
Definition advances_kind (kind : M68kIrKind) : bool :=
  match kind with
  | IR_write_moveq | IR_return_from_subroutine | IR_return_from_exception | IR_return_restore_condition_codes
  | IR_subtract_quick_long_d0 | IR_branch_ne_short | IR_branch_always_short | IR_instruction_exception
  | IR_push_effective_address | IR_general_branch | IR_bsr_call | IR_dbcc_loop | IR_jump_general | IR_call_general
  | IR_trap_exception | IR_trap_on_overflow => false
  | _ => true
  end.

Section SUCCESSORS.
Context (op : M68kIrOperation).

#[local] Abbreviation address := (pa_value (ds_address (ip_source (op_provenance op)))).
#[local] Abbreviation next := (u32 (address + ip_length (op_provenance op))).

Lemma successors_advance :
  advances_kind (op_kind op) = true -> m68k_control_successors op = statically [(CS_fallthrough, next)].
Proof using Type.
  intros Ha. assert (H : exists stack, kind_control op = (PE_advance, ip_length (op_provenance op), 0, stack) /\
    match stack with SE_push_static_continuation => true | _ => false end = false).
  { unfold kind_control. destruct (op_kind op); try discriminate Ha; eexists; split; reflexivity. }
  destruct H as (stack & H & Hs). apply successors_of_control in H as (e & E0 & E1 & E2 & E3 & E4).
  unfold m68k_control_successors. rewrite E0. cbv zeta.
  unfold initial_successors, pc_successors. rewrite E1, E2, E4. clear -Ha Hs.
  replace (match stack with SE_push_static_continuation => _ | _ => _ end) with (statically []) by by destruct stack.
  unfold pushed_code_address. destruct (op_kind op); first [discriminate Ha|reflexivity].
Qed.

End SUCCESSORS.

Section EXACT.
Context (image : list Z) (source : DecodeSource) (Hwp : well_placed image source) (i : M68kDecodedInstruction).
Context (Hi : decode_m68k_instruction image source DP_general_startup = Ok i).

#[local] Abbreviation word := (primary_word (primary_bytes image source)).

Lemma decoded_provenance : i_provenance i = mkProvenance source (primary_bytes image source) (instruction_length i).
Proof using All.
  pose proof (decode_canonical image source Hwp) as C. cbv zeta in C.
  destruct (canonical_decodes image source Hwp i Hi) as [j Hj]. rewrite Hj, Hi in C.
  by destruct C as [_ []].
Qed.

Lemma decoded_form :
  transfer_form source image (ds_image_offset source) (zlen image - ds_image_offset source) (primary_bytes image source)
    word i.
Proof using All.
  pose proof (decode_word_form source image (ds_image_offset source) (zlen image - ds_image_offset source)
    (primary_bytes image source) word) as H.
  rewrite <- decode_well_placed, Hi in H by done. exact H.
Qed.


(** The successors of a decoded instruction whose kind only advances. *)
Lemma advance_exact kind :
  i_kind i = kind -> advances_kind (op_kind (lift_m68k_instruction i)) = true ->
  m68k_control_successors (lift_m68k_instruction i) =
    statically [(CS_fallthrough, u32 (pa_value (ds_address source) + instruction_length i))].
Proof using All.
  intros _ Ha. rewrite successors_advance by exact Ha. unfold lift_m68k_instruction. cbn [op_provenance].
  by rewrite decoded_provenance.
Qed.

(** A decoded instruction at a source, with the control part of its operation. *)
Lemma control_steps pc delta target stack :
  kind_control (lift_m68k_instruction i) = (pc, delta, target, stack) ->
  forall f, (forall e, oe_pc e = pc -> oe_pc_delta e = delta -> oe_direct_target e = target -> oe_stack e = stack ->
    let address := pa_value (ds_address source) in
    let next := u32 (address + instruction_length i) in
    pushed_code_address (lift_m68k_instruction i)
      (pc_successors (lift_m68k_instruction i) e address next (initial_successors e next)) = f) ->
  m68k_control_successors (lift_m68k_instruction i) = f.
Proof using All.
  intros H f Hf. apply successors_of_control in H as (e & E0 & E1 & E2 & E3 & E4).
  unfold m68k_control_successors. rewrite E0. specialize (Hf e E1 E2 E3 E4). cbv zeta in *.
  replace (op_provenance (lift_m68k_instruction i)) with (i_provenance i) by reflexivity.
  rewrite decoded_provenance. exact Hf.
Qed.

(** The displacement of a branch is the one of its bytes. *)
Lemma branch_displacement_exact :
  displacement_form image (ds_image_offset source) (primary_bytes image source) i ->
  m68k_branch_target (pa_value (ds_address source)) (branch_displacement (lift_m68k_instruction i)) =
    displaced source (short_or_extension_displacement image source).
Proof using Type.
  unfold displacement_form, branch_displacement, short_or_extension_displacement, extension_displacement.
  cbv zeta. change (primary_bytes image source).2 with (znth image (ds_image_offset source + 1) 0).
  change (op_size (lift_m68k_instruction i)) with (i_size i).
  change (op_source_ea (lift_m68k_instruction i)) with (i_source_ea i).
  destruct (znth image _ 0 =? 0); intros [-> ->]; reflexivity.
Qed.

(** No selector but 0 names BRA. *)
Lemma selector_conditional selector : (m68k_condition_from_selector selector =b CC_always) = false.
Proof using Type. unfold m68k_condition_from_selector. by repeat case_match. Qed.

(** The successors of one kind, by the equations of its control part; [Hs] may
    decide the operand. *)
Ltac control_case Hl Hs :=
  eapply control_steps;
  [unfold kind_control; rewrite Hl; rewrite ?Hs; reflexivity|];
  intros e E1 E2 E3 E4; cbv zeta;
  unfold initial_successors; rewrite E4; cbv iota;
  unfold pc_successors; rewrite E1; cbv iota; rewrite ?Hl, ?E2, ?E3, ?E4; cbv iota;
  unfold pushed_code_address; rewrite Hl; cbv iota.

Lemma successors_exact :
  m68k_control_successors (lift_m68k_instruction i) = control_of_bytes image source (instruction_length i).
Proof using All.
  pose proof (decoded_kind image source Hwp i Hi) as Hk. pose proof decoded_form as Hf.
  pose proof decoded_provenance as Hp.
  unfold control_of_bytes. rewrite Hk. clear Hk.
  assert (Hl : op_kind (lift_m68k_instruction i) = lift_kind i) by reflexivity.
  unfold lift_kind in Hl.
  unfold transfer_form in Hf.
  destruct (i_kind i) eqn:K; try exact (advance_exact _ K (f_equal advances_kind Hl)).
  all: try (exfalso; exact Hf).
  - control_case Hl Hl. rewrite Hf. reflexivity.
  - control_case Hl Hl. reflexivity.
  - control_case Hl Hl. reflexivity.
  - destruct Hf as [n Hn]. apply control_operand in Hn as [Hc Hd]. rewrite Hc.
    change (i_source_ea i) with (op_source_ea (lift_m68k_instruction i)) in *.
    destruct (m68k_is_statically_foldable_control_ea (op_source_ea _)) eqn:Hs.
    + control_case Hl Hs. reflexivity.
    + control_case Hl Hs. destruct (Hd eq_refl (lift_m68k_instruction i) eq_refl) as (-> & _); [reflexivity|exact Hl].
  - destruct Hf as [n Hn]. apply control_operand in Hn as [Hc Hd]. rewrite Hc.
    change (i_source_ea i) with (op_source_ea (lift_m68k_instruction i)) in *.
    destruct (m68k_is_statically_foldable_control_ea (op_source_ea _)) eqn:Hs.
    + control_case Hl Hs. reflexivity.
    + control_case Hl Hs. destruct (Hd eq_refl (lift_m68k_instruction i) eq_refl) as (_ & -> & _); [reflexivity|exact Hl].
  - destruct Hf as [n Hn]. apply control_operand in Hn as [Hc Hd]. rewrite Hc.
    change (i_source_ea i) with (op_source_ea (lift_m68k_instruction i)) in *.
    control_case Hl Hl. destruct (m68k_is_statically_foldable_control_ea (op_source_ea _)); reflexivity.
  - (* Bcc *)
    destruct Hf as [Hd Hc]. cbv zeta in Hc.
    replace (displaced source (short_or_extension_displacement image source)) with
      (m68k_branch_target (pa_value (ds_address source)) (branch_displacement (lift_m68k_instruction i)))
      by by apply branch_displacement_exact.
    control_case Hl Hl. change (op_condition (lift_m68k_instruction i)) with (i_condition i). rewrite Hc.
    change (ip_source (op_provenance (lift_m68k_instruction i))) with (ip_source (i_provenance i)). rewrite Hp.
    destruct (_ =? 0); [reflexivity|]. rewrite selector_conditional. reflexivity.
  - (* BSR *)
    replace (displaced source (short_or_extension_displacement image source)) with
      (m68k_branch_target (pa_value (ds_address source)) (branch_displacement (lift_m68k_instruction i)))
      by by apply branch_displacement_exact.
    control_case Hl Hl.
    change (ip_source (op_provenance (lift_m68k_instruction i))) with (ip_source (i_provenance i)). rewrite Hp. reflexivity.
  - (* DBcc *)
    control_case Hl Hl.
    change (ip_source (op_provenance (lift_m68k_instruction i))) with (ip_source (i_provenance i)). rewrite Hp.
    change (op_source_ea (lift_m68k_instruction i)) with (i_source_ea i). rewrite Hf. reflexivity.
  - apply (advance_exact _ K). rewrite Hl. by destruct (ea_mode (i_destination_ea i) =b EA_data_register).
  - control_case Hl Hl. reflexivity.
  - control_case Hl Hl. reflexivity.
  - control_case Hl Hl. reflexivity.
  - control_case Hl Hl. reflexivity.
Qed.

(** An instruction's dynamic family is always one of the named ones. *)
Lemma family_classified : cs_dynamic (control_of_bytes image source (instruction_length i)) <> DF_unclassified.
Proof using All.
  pose proof (decoded_kind image source Hwp i Hi) as Hk. pose proof decoded_form as Hf.
  unfold control_of_bytes. rewrite Hk. clear Hk.
  assert (Hl : op_kind (lift_m68k_instruction i) = lift_kind i) by reflexivity. unfold lift_kind in Hl.
  unfold transfer_form in Hf. destruct (i_kind i) eqn:K; cbv zeta; try discriminate.
  all: try (destruct (_ =? 0); discriminate).
  all: destruct Hf as [n Hn]; apply control_operand in Hn as [Hc Hd]; rewrite Hc.
  all: destruct (m68k_is_statically_foldable_control_ea _); try discriminate.
  all: destruct (Hd eq_refl (lift_m68k_instruction i) eq_refl) as (Hj & Hcall & Hu).
  - by rewrite <- (Hj Hl).
  - by rewrite <- (Hcall Hl).
Qed.

End EXACT.

(** C5. Control flow from bytes to successors, through the decoder, the lifting
    and the operation effects: for every image and every instruction the general
    profile decodes, the control successors are the ones its bytes name.  Bcc and
    DBcc have their taken and not-taken successors, BRA its target, BSR and JSR a
    callee and a stacked continuation, JMP, JSR and PEA a code address exactly for
    the operands that depend on no register and a dynamic family otherwise, TRAP,
    TRAPV, the returns and the reserved words theirs, and every other instruction
    only falls through to the address after its last byte.  No decoded
    instruction is left unclassified. *)
Theorem control_successors_exact (image : list Z) (source : DecodeSource) (Hwp : well_placed image source)
    (i : M68kDecodedInstruction) (Hi : decode_m68k_instruction image source DP_general_startup = Ok i) :
  let successors := m68k_control_successors (lift_m68k_instruction i) in
  successors = control_of_bytes image source (instruction_length i) /\ cs_dynamic successors <> DF_unclassified.
Proof.
  cbv zeta. rewrite (successors_exact image source Hwp i Hi). split; [reflexivity|].
  by apply family_classified.
Qed.

(** [BSR.W *-$100] at $1000. *)
Definition bsr_image : list Z := [0x61; 0x00; 0xFE; 0xFE].
Definition bsr_source : DecodeSource := mkSource CV_mc68000 (mkAddress TAS_m68k_program 0x1000) 0.

Lemma bsr_well_placed : well_placed bsr_image bsr_source.
Proof.
  split; [|done|by vm_compute|done|done|by vm_compute].
  repeat constructor; vm_compute; intros H; discriminate H.
Qed.

Lemma control_successors_exact_witness :
  exists i, decode_m68k_instruction bsr_image bsr_source DP_general_startup = Ok i /\
    m68k_control_successors (lift_m68k_instruction i) =
      mkSuccessors [(CS_call_target, 0xF00)] SC_call_continuation 0x1004 DF_none false.
Proof.
  eexists. split; [vm_compute; reflexivity|].
  etransitivity; [refine (proj1 (control_successors_exact bsr_image bsr_source bsr_well_placed _ _));
    vm_compute; reflexivity|]. vm_compute. reflexivity.
Defined.
