(* ===== verification/M68kTiming.v ===== *)
(** The MC68000 instruction times of [timing.cpp] and the data-dependent cycle
    rules of [timing_core.h].

    An [std::optional] is an [option]; the cycle counts are [uint32_t] and are
    written out as [u32] where an operand is not bounded by the instruction. *)

From S2P Require Import Prelude M68kInstruction M68kLegality M68kDecode M68kShape M68kDecodeSpec M68kArithmetic M68kEffects.

(** * The data-dependent rules ([timing_core.h]) *)

Definition segarecomp_m68k_mulu_word_cycles (source : Z) : Z := 38 + 2 * count_ones 16 source.

Definition segarecomp_m68k_muls_word_cycles (source : Z) : Z :=
  38 + 2 * count_ones 16 ((u32 (source .<< 1) .^ source) .& 0xFFFF).

(** One quotient step: the partial remainder and the cycles so far. *)
Definition divu_step (high_divisor : Z) (s : Z * Z) : Z * Z :=
  let '(remainder, cycles) := s in
  if negb (remainder .& 0x80000000 =? 0) then (u32 (u32 (remainder .<< 1) - high_divisor), cycles)
  else
    let remainder := u32 (remainder .<< 1) in
    let cycles := u32 (cycles + 4) in
    if high_divisor <=? remainder then (u32 (remainder - high_divisor), u32 (cycles - 2)) else (remainder, cycles).

Definition segarecomp_m68k_divu_word_cycles (dividend divisor : Z) : Z :=
  let high_divisor := u32 (divisor .<< 16) in
  if divisor <=? dividend .>> 16 then 10
  else (Nat.iter 15 (divu_step high_divisor) (dividend, 76)).2.

(** [for (bit = 1U; bit < 16U; ++bit) if (((quotient >> bit) & 1U) == 0U) cycles += 2;] *)
Definition divs_quotient_cycles (quotient cycles : Z) : Z :=
  foldl (fun cycles bit => if (quotient .>> bit) .& 1 =? 0 then u32 (cycles + 2) else cycles) cycles (seqZ 1 15).

Definition segarecomp_m68k_divs_word_cycles (dividend divisor : Z) : Z :=
  let negative_dividend := negb (dividend .& 0x80000000 =? 0) in
  let negative_divisor := negb (divisor .& 0x8000 =? 0) in
  let magnitude_dividend := if negative_dividend then u32 (0 - dividend) else dividend in
  let magnitude_divisor := if negative_divisor then u32 (0x10000 - divisor) else divisor in
  let cycles := 12 + (if negative_dividend then 2 else 0) in
  if magnitude_divisor =? 0 then 0
  else if magnitude_divisor <=? magnitude_dividend .>> 16 then u32 (cycles + 4)
  else
    let quotient := magnitude_dividend / magnitude_divisor in
    let cycles := u32 (cycles + 110) in
    let cycles :=
      if negb negative_divisor then if negative_dividend then u32 (cycles + 2) else u32 (cycles - 2) else cycles in
    divs_quotient_cycles quotient cycles.

Definition segarecomp_m68k_exception_entry_cycles (vector : Z) : Z :=
  if (vector =? 2) || (vector =? 3) then 50
  else if vector =? 4 then 34
  else if vector =? 5 then 38
  else if vector =? 6 then 40
  else if vector =? 7 then 34
  else if vector =? 8 then 34
  else if vector =? 9 then 34
  else if (vector =? 10) || (vector =? 11) then 34
  else if (vector =? 15) || ((24 <=? vector) && (vector <=? 31)) || ((64 <=? vector) && (vector <=? 255)) then 44
  else if (32 <=? vector) && (vector <=? 47) then 34
  else 0.

(** * The tables ([timing.cpp]) *)

Definition long_size (size : M68kMemoryAccessWidth) : bool := size =b W_long_word.

(** [size == long_word ? l : w] *)
Definition sized_cycles (size : M68kMemoryAccessWidth) (l w : Z) : Z := if long_size size then l else w.

(** Table 8-1. *)
Definition ea_cycles (ea : M68kEffectiveAddress) (size : M68kMemoryAccessWidth) : option Z :=
  Some match ea_mode ea with
  | EA_unused | EA_data_register | EA_address_register => 0
  | EA_address_indirect | EA_address_postinc => sized_cycles size 8 4
  | EA_address_predec => sized_cycles size 10 6
  | EA_address_disp16 | EA_pc_disp16 | EA_absolute_word => sized_cycles size 12 8
  | EA_address_index8 | EA_pc_index8 => sized_cycles size 14 10
  | EA_absolute_long => sized_cycles size 16 12
  | EA_immediate => sized_cycles size 8 4
  end.

Definition popcount (value : Z) : Z := count_ones 16 value.

Definition memory_ea (mode : M68kEaMode) : bool :=
  negb (mode =b EA_unused) && negb (mode =b EA_data_register) && negb (mode =b EA_address_register) &&
  negb (mode =b EA_immediate).

(** [destination.mode = mode] on a copy. *)
Definition with_ea_mode (mode : M68kEaMode) (ea : M68kEffectiveAddress) : M68kEffectiveAddress :=
  mkEa mode (ea_reg ea) (ea_displacement ea) (ea_absolute_address ea) (ea_immediate_value ea) (ea_extension_words ea)
    (ea_index_reg ea) (ea_index_is_address ea) (ea_index_is_long ea) (ea_pc_base_address ea).

Section CYCLES.
Context (o : M68kIrOperation).

#[local] Abbreviation src := (op_source_ea o).
#[local] Abbreviation dst := (op_destination_ea o).
#[local] Abbreviation size := (op_size o).

Definition move_cycles : option Z :=
  let destination := if ea_mode dst =b EA_address_predec then with_ea_mode EA_address_indirect dst else dst in
  source ← ea_cycles src size;
  target ← ea_cycles destination size;
  Some (4 + source + target).

Definition source_alu (word_base long_base : Z) : option Z :=
  value ← ea_cycles src size;
  Some (sized_cycles size long_base word_base + value).

Definition cmpa_cycles : option Z :=
  value ← ea_cycles src size;
  Some (6 + value).

Definition compare_cycles : option Z := source_alu 4 6.

Definition move_to_status_cycles : option Z :=
  match ea_mode src with
  | EA_data_register => Some 12
  | EA_address_indirect | EA_address_postinc => Some 16
  | EA_address_predec => Some 18
  | EA_address_disp16 | EA_pc_disp16 | EA_absolute_word => Some 20
  | EA_address_index8 | EA_pc_index8 => Some 22
  | EA_absolute_long => Some 24
  | EA_immediate => Some 16
  | _ => None
  end.

Definition move_from_status_cycles : option Z :=
  match ea_mode dst with
  | EA_data_register => Some 6
  | EA_address_indirect | EA_address_postinc => Some 12
  | EA_address_predec => Some 14
  | EA_address_disp16 | EA_absolute_word => Some 16
  | EA_address_index8 => Some 18
  | EA_absolute_long => Some 20
  | _ => None
  end.

(** [if (!value || !memory_ea(destination)) return nullopt; return base + *value;] *)
Definition memory_destination_cycles (size : M68kMemoryAccessWidth) (base : Z) : option Z :=
  value ← ea_cycles dst size;
  if negb (memory_ea (ea_mode dst)) then None else Some (base + value).

Definition single_operand_cycles : option Z :=
  if ea_mode dst =b EA_data_register then Some (sized_cycles size 6 4)
  else memory_destination_cycles size (sized_cycles size 12 8).

Definition test_cycles : option Z :=
  value ← ea_cycles src size;
  if negb (memory_ea (ea_mode src)) && negb (ea_mode src =b EA_data_register) then None
  else Some (if ea_mode src =b EA_data_register then 4 else 4 + value).

Definition logical_cycles : option Z :=
  if ea_mode dst =b EA_data_register then
    source ← ea_cycles src size;
    let direct_or_immediate := (ea_mode src =b EA_data_register) || (ea_mode src =b EA_immediate) in
    Some ((if long_size size then if direct_or_immediate then 8 else 6 else 4) + source)
  else memory_destination_cycles size (sized_cycles size 12 8).

Definition logical_immediate_cycles : option Z :=
  if ea_mode dst =b EA_data_register then Some (sized_cycles size 16 8)
  else memory_destination_cycles size (sized_cycles size 20 12).

Definition compare_immediate_cycles : option Z :=
  if ea_mode dst =b EA_data_register then Some (sized_cycles size 14 8)
  else memory_destination_cycles size (sized_cycles size 12 8).

Definition bit_cycles (modifies : bool) : option Z :=
  let immediate_selector := ea_mode src =b EA_immediate in
  if ea_mode dst =b EA_data_register then
    Some ((if modifies then match op_kind o with IR_bit_clear => 10 | _ => 8 end else 6) +
          (if immediate_selector then 4 else 0))
  else if negb modifies && negb immediate_selector && (ea_mode dst =b EA_immediate) then
    value ← ea_cycles dst W_byte;
    Some (4 + value)
  else memory_destination_cycles W_word ((if modifies then 8 else 4) + (if immediate_selector then 4 else 0)).

Definition addq_subq_cycles : option Z :=
  if (ea_mode dst =b EA_data_register) || (ea_mode dst =b EA_address_register) then
    Some (if long_size size && (ea_mode dst =b EA_data_register) then 8
          else 4 + (if ea_mode dst =b EA_address_register then 4 else 0))
  else memory_destination_cycles size (sized_cycles size 12 8).

Definition adda_suba_cycles : option Z :=
  value ← ea_cycles src size;
  if negb (long_size size) then Some (8 + value)
  else if (ea_mode src =b EA_data_register) || (ea_mode src =b EA_address_register) then Some 8
  else if ea_mode src =b EA_immediate then Some 16
  else Some (6 + value).

Definition extended_pair_cycles : option Z :=
  match op_kind o with
  | IR_compare_memory => Some (sized_cycles size 20 12)
  | _ =>
      if ea_mode src =b EA_data_register then Some (sized_cycles size 8 4)
      else if ea_mode src =b EA_address_predec then Some (sized_cycles size 30 18)
      else None
  end.

Definition decimal_pair_cycles : option Z :=
  if ea_mode src =b EA_data_register then Some 6
  else if ea_mode src =b EA_address_predec then Some 18
  else None.

Definition negate_decimal_cycles : option Z :=
  if ea_mode dst =b EA_data_register then Some 6 else memory_destination_cycles W_byte 8.

Definition test_and_set_cycles : option Z :=
  if ea_mode dst =b EA_data_register then Some 4 else memory_destination_cycles W_byte 10.

Definition set_conditional_cycles : option Z :=
  if ea_mode dst =b EA_data_register then None else memory_destination_cycles W_byte 8.

Definition control_address_cycles : option Z :=
  value ← ea_cycles src W_word;
  if negb (memory_ea (ea_mode src)) then None
  else
    let indexed := (ea_mode src =b EA_address_index8) || (ea_mode src =b EA_pc_index8) in
    Some (value + (if indexed then 2 else 0)).

Definition lea_cycles : option Z := control_address_cycles.

Definition pea_cycles : option Z :=
  value ← control_address_cycles;
  Some (8 + value).

(** The tables of JMP and JSR. *)
Definition jump_cycles : option Z :=
  match ea_mode src with
  | EA_address_indirect => Some 8
  | EA_address_disp16 | EA_pc_disp16 | EA_absolute_word => Some 10
  | EA_address_index8 | EA_pc_index8 => Some 14
  | EA_absolute_long => Some 12
  | _ => None
  end.

Definition call_cycles : option Z :=
  match ea_mode src with
  | EA_address_indirect => Some 16
  | EA_address_disp16 | EA_pc_disp16 | EA_absolute_word => Some 18
  | EA_address_index8 | EA_pc_index8 => Some 22
  | EA_absolute_long => Some 20
  | _ => None
  end.

Definition movem_cycles : option Z :=
  let to_memory := op_movem_direction o =b MD_registers_to_memory in
  let operand := if to_memory then dst else src in
  if negb (memory_ea (ea_mode operand)) then None
  else
    let words_per_register := sized_cycles size 2 1 in
    base ←
      (if to_memory then
         match ea_mode operand with
         | EA_address_indirect | EA_address_predec => Some 8
         | EA_address_disp16 | EA_absolute_word => Some 12
         | EA_address_index8 => Some 14
         | EA_absolute_long => Some 16
         | _ => None
         end
       else
         match ea_mode operand with
         | EA_address_indirect | EA_address_postinc => Some 12
         | EA_address_disp16 | EA_pc_disp16 | EA_absolute_word => Some 16
         | EA_address_index8 | EA_pc_index8 => Some 18
         | EA_absolute_long => Some 20
         | _ => None
         end);
    Some (base + 4 * words_per_register * popcount (op_movem_register_mask o)).

Definition m68k_instruction_cycles : option Z :=
  match op_kind o with
  | IR_write_moveq | IR_no_operation => Some 4
  | IR_return_from_exception => Some 20
  | IR_return_from_subroutine => Some 16
  | IR_branch_always_short => Some 10
  | IR_general_branch => if op_condition o =b CC_always then Some 10 else None
  | IR_bsr_call => Some 18
  | IR_jump_general => jump_cycles
  | IR_call_general => call_cycles
  | IR_write_move => move_cycles
  | IR_write_movea => source_alu 4 4
  | IR_compare => compare_cycles
  | IR_test_operand => test_cycles
  | IR_bit_test => bit_cycles false
  | IR_compare_address => cmpa_cycles
  | IR_add | IR_subtract | IR_logical_and | IR_logical_or | IR_exclusive_or => logical_cycles
  | IR_add_address | IR_subtract_address => adda_suba_cycles
  | IR_add_quick | IR_subtract_quick => addq_subq_cycles
  | IR_add_immediate | IR_subtract_immediate | IR_logical_and_immediate | IR_logical_or_immediate
  | IR_exclusive_or_immediate => logical_immediate_cycles
  | IR_compare_immediate => compare_immediate_cycles
  | IR_write_clr | IR_logical_not | IR_negate_word | IR_negate_extended | IR_shift_rotate_memory =>
      single_operand_cycles
  | IR_add_extended | IR_subtract_extended | IR_compare_memory => extended_pair_cycles
  | IR_add_decimal | IR_subtract_decimal => decimal_pair_cycles
  | IR_negate_decimal => negate_decimal_cycles
  | IR_bit_change | IR_bit_clear | IR_bit_set => bit_cycles true
  | IR_exchange_registers => Some 6
  | IR_movep_transfer => Some (sized_cycles size 24 16)
  | IR_test_and_set => test_and_set_cycles
  | IR_set_conditional => set_conditional_cycles
  | IR_load_effective_address => lea_cycles
  | IR_push_effective_address => pea_cycles
  | IR_link_frame => Some 16
  | IR_unlink_frame => Some 12
  | IR_movem_transfer => movem_cycles
  | IR_subtract_quick_long_d0 => Some 8
  | IR_write_swap | IR_sign_extend_word | IR_sign_extend_long | IR_write_user_stack_pointer
  | IR_read_user_stack_pointer => Some 4
  | IR_logical_immediate_to_ccr | IR_logical_immediate_to_sr => Some 20
  | IR_stop_until_interrupt => Some 4
  | IR_write_status_register | IR_write_condition_codes => move_to_status_cycles
  | IR_read_status_register => move_from_status_cycles
  | IR_branch_ne_short | IR_dbcc_loop | IR_shift_rotate_register => None
  | IR_multiply_signed_word | IR_multiply_unsigned_word | IR_divide_signed_word | IR_divide_unsigned_word => None
  | IR_return_restore_condition_codes => Some 20
  | IR_trap_exception | IR_instruction_exception => Some 34
  | IR_trap_on_overflow => Some 4
  | IR_check_bounds => value ← ea_cycles src W_word; Some (10 + value)
  end.

Definition m68k_exception_entry_cycles : option Z :=
  let effect := m68k_operation_effect o in
  if negb (oe_may_raise_synchronous_exception effect) then None
  else
    let base := segarecomp_m68k_exception_entry_cycles (oe_exception_vector effect) in
    if base =? 0 then None
    else if (oe_exception_vector effect =? 5) || (oe_exception_vector effect =? 6) then
      value ← ea_cycles src W_word;
      Some (base + value)
    else Some base.

End CYCLES.

(** * Timing rules *)

Inductive M68kTimingRule : Type :=
| TR_fixed | TR_condition | TR_dbcc | TR_register_count | TR_multiply_unsigned | TR_multiply_signed
| TR_divide_unsigned | TR_divide_signed.

Record M68kInstructionTiming := mkTiming {
  tm_rule : M68kTimingRule;
  tm_cycles : Z;
  tm_false_cycles : Z;
  tm_expired_cycles : Z;
  tm_per_count_cycles : Z;
  tm_exception_entry_cycles : Z;
}.

Record M68kTimingOutcome := mkOutcome {
  to_condition_true : bool;
  to_counter_expired : bool;
  to_count : Z;
  to_source_word : Z;
  to_dividend : Z;
  to_exception_taken : bool;
}.

Definition retirement_timing (o : M68kIrOperation) : option M68kInstructionTiming :=
  match m68k_instruction_cycles o with
  | Some cycles => Some (mkTiming TR_fixed cycles 0 0 0 0)
  | None =>
      let operand rule :=
        value ← ea_cycles (op_source_ea o) W_word;
        Some (mkTiming rule value 0 0 0 0) in
      match op_kind o with
      | IR_general_branch =>
          if op_condition o =b CC_always then None
          else if negb (op_size o =b W_byte) && negb (op_size o =b W_word) then None
          else Some (mkTiming TR_condition 10 (if op_size o =b W_byte then 8 else 12) 0 0 0)
      | IR_dbcc_loop => Some (mkTiming TR_dbcc 12 10 14 0 0)
      | IR_set_conditional =>
          if negb (ea_mode (op_destination_ea o) =b EA_data_register) then None
          else Some (mkTiming TR_condition 6 4 0 0 0)
      | IR_shift_rotate_register => Some (mkTiming TR_register_count (sized_cycles (op_size o) 8 6) 0 0 2 0)
      | IR_multiply_unsigned_word => operand TR_multiply_unsigned
      | IR_multiply_signed_word => operand TR_multiply_signed
      | IR_divide_unsigned_word => operand TR_divide_unsigned
      | IR_divide_signed_word => operand TR_divide_signed
      | _ => None
      end
  end.

Definition m68k_instruction_timing (o : M68kIrOperation) : option M68kInstructionTiming :=
  timing ← retirement_timing o;
  if oe_may_raise_synchronous_exception (m68k_operation_effect o) then
    entry ← m68k_exception_entry_cycles o;
    Some (mkTiming (tm_rule timing) (tm_cycles timing) (tm_false_cycles timing) (tm_expired_cycles timing)
            (tm_per_count_cycles timing) entry)
  else Some timing.

Definition m68k_timing_cycles (timing : M68kInstructionTiming) (outcome : M68kTimingOutcome) : Z :=
  if to_exception_taken outcome && negb (tm_exception_entry_cycles timing =? 0) then tm_exception_entry_cycles timing
  else
    let cycles := tm_cycles timing in
    match tm_rule timing with
    | TR_fixed => cycles
    | TR_condition => if to_condition_true outcome then cycles else tm_false_cycles timing
    | TR_dbcc =>
        if to_condition_true outcome then cycles
        else if to_counter_expired outcome then tm_expired_cycles timing else tm_false_cycles timing
    | TR_register_count => u32 (cycles + tm_per_count_cycles timing * to_count outcome)
    | TR_multiply_unsigned => u32 (segarecomp_m68k_mulu_word_cycles (to_source_word outcome) + cycles)
    | TR_multiply_signed => u32 (segarecomp_m68k_muls_word_cycles (to_source_word outcome) + cycles)
    | TR_divide_unsigned =>
        u32 (segarecomp_m68k_divu_word_cycles (to_dividend outcome) (to_source_word outcome) + cycles)
    | TR_divide_signed =>
        u32 (segarecomp_m68k_divs_word_cycles (to_dividend outcome) (to_source_word outcome) + cycles)
    end.

Definition m68k_effective_address_cycles : M68kEffectiveAddress -> M68kMemoryAccessWidth -> option Z := ea_cycles.

(** * Long instructions *)

Inductive M68kLongInstructionKind : Type := LI_none | LI_register_count_shift | LI_movem_long.

Record M68kLongInstructionClass := mkLongClass {
  lc_kind : M68kLongInstructionKind;
  lc_count_register : Z;
  lc_registers : Z;
}.

Definition m68k_long_instruction_class (o : M68kIrOperation) : M68kLongInstructionClass :=
  match op_kind o with
  | IR_shift_rotate_register =>
      if ea_mode (op_source_ea o) =b EA_data_register
      then mkLongClass LI_register_count_shift (ea_reg (op_source_ea o) .& 7) 0
      else mkLongClass LI_none 0 0
  | IR_movem_transfer =>
      if op_size o =b W_long_word then mkLongClass LI_movem_long 0 (count_ones 16 (op_movem_register_mask o))
      else mkLongClass LI_none 0 0
  | _ => mkLongClass LI_none 0 0
  end.
