(* ===== verification/M68kTimingSpec.v ===== *)
(** The instruction times: DIVU's cycles from the digits of the long division,
    and, for every decoded instruction, that a time exists and its bounds. *)

From S2P Require Import Prelude M68kInstruction M68kLegality M68kDecode M68kShape M68kDecodeSpec M68kArithmetic M68kEffects M68kTiming.

(** * DIVU *)

Section DIVU.
Context (dividend divisor : Z) (Hn : is_u32 dividend) (Hd : 0 < divisor < 65536).
Context (Hfits : dividend < divisor * 65536).

(** The leading digits of the dividend before quotient step [k], and the partial
    remainder and quotient of the long division there. *)
Definition divu_leading (k : Z) : Z := dividend / 2 ^ (16 - k).
Definition divu_partial (k : Z) : Z := divu_leading k mod divisor.

(** The cost of step [k]: none when the shifted remainder carries out, two cycles
    for a quotient bit found by comparison, four for a zero. *)
Definition divu_step_cost (k : Z) : Z :=
  if 2 ^ 15 <=? divu_partial k then 0
  else if Z.testbit (dividend / divisor) (15 - k) then 2 else 4.

Definition divu_cost (n : nat) : Z := foldr Z.add 0 (map divu_step_cost (seqZ 0 (Z.of_nat n))).

(** The next digit. *)
Definition divu_digit (k : Z) : Z := divu_leading (k + 1) mod 2.

Lemma divu_leading_step k : 0 <= k < 16 -> divu_leading (k + 1) = 2 * divu_leading k + divu_digit k.
Proof using Type.
  intros Hk. unfold divu_digit, divu_leading. replace (16 - k) with ((16 - (k + 1)) + 1) by lia.
  rewrite Z.pow_add_r by lia. change (2 ^ 1) with 2. rewrite <- Z.div_div by lia. apply Z.div_mod. lia.
Qed.

Lemma divu_digit_range k : 0 <= divu_digit k < 2.
Proof using Type. unfold divu_digit. apply Z.mod_pos_bound. lia. Qed.

Lemma divu_partial_range k : 0 <= divu_partial k < divisor.
Proof using Hd. apply Z.mod_pos_bound. lia. Qed.

(** One step of the long division: the partial remainder and the quotient bit. *)
Lemma divu_long_division k : 0 <= k < 16 ->
  let r := 2 * divu_partial k + divu_digit k in
  divu_partial (k + 1) = (if divisor <=? r then r - divisor else r) /\
  Z.testbit (dividend / divisor) (15 - k) = (divisor <=? r).
Proof using Hd.
  intros Hk. cbv zeta.
  pose proof (divu_partial_range k) as Hr. pose proof (divu_digit_range k) as Hb.
  pose proof (Z.div_mod (divu_leading k) divisor ltac:(lia)) as E. fold (divu_partial k) in E.
  set (q := divu_leading k / divisor) in *. set (r := divu_partial k) in *. set (b := divu_digit k) in *.
  assert (E' : divu_leading (k + 1) = divisor * (2 * q + (if divisor <=? 2 * r + b then 1 else 0)) +
    (if divisor <=? 2 * r + b then 2 * r + b - divisor else 2 * r + b)).
  { rewrite divu_leading_step, E by lia. fold b. destruct (Z.leb_spec divisor (2 * r + b)); lia. }
  assert (Hs : 0 <= (if divisor <=? 2 * r + b then 2 * r + b - divisor else 2 * r + b) < divisor)
    by (destruct (Z.leb_spec divisor (2 * r + b)); lia).
  split.
  - symmetry. exact (Z.mod_unique_pos _ _ _ _ Hs E').
  - assert (Hbit : Z.testbit (dividend / divisor) (15 - k) = Z.odd (divu_leading (k + 1) / divisor)).
    { rewrite Z.testbit_odd, Z.shiftr_div_pow2 by lia. f_equal. unfold divu_leading.
      replace (16 - (k + 1)) with (15 - k) by lia. rewrite !Z.div_div by lia. f_equal. lia. }
    rewrite Hbit, <- (Z.div_unique_pos _ _ _ _ Hs E').
    rewrite Z.odd_add, Z.odd_mul. by destruct (divisor <=? 2 * r + b).
Qed.

(** The remainder register before step [k]: the partial remainder above the
    digits still to come. *)
Definition divu_register (k : Z) : Z := 65536 * divu_partial k + (dividend * 2 ^ k) mod 65536.

Lemma divu_low_step k : 0 <= k < 16 ->
  2 * ((dividend * 2 ^ k) mod 65536) = 65536 * divu_digit k + (dividend * 2 ^ (k + 1)) mod 65536.
Proof using Type.
  intros Hk. rewrite Z.pow_add_r by lia. change (2 ^ 1) with 2.
  assert (E : dividend * 2 ^ k / 65536 = divu_leading k).
  { unfold divu_leading. replace 65536 with (2 ^ (16 - k) * 2 ^ k) by (rewrite <- Z.pow_add_r by lia; by replace (16 - k + k) with 16 by lia).
    by rewrite Z.div_mul_cancel_r by lia. }
  assert (E1 : dividend * (2 ^ k * 2) / 65536 = divu_leading (k + 1)).
  { unfold divu_leading. replace 65536 with (2 ^ (16 - (k + 1)) * (2 ^ k * 2)).
    - by rewrite Z.div_mul_cancel_r by lia.
    - change 2 with (2 ^ 1) at 3. rewrite <- !Z.pow_add_r by lia. by replace (16 - (k + 1) + (k + 1)) with 16 by lia. }
  pose proof (Z.div_mod (dividend * 2 ^ k) 65536 ltac:(lia)) as H0. rewrite E in H0.
  pose proof (Z.div_mod (dividend * (2 ^ k * 2)) 65536 ltac:(lia)) as H1. rewrite E1, divu_leading_step in H1 by lia.
  lia.
Qed.

Lemma divu_step_exact k cycles : 0 <= k < 16 -> 0 <= cycles < 2 ^ 31 ->
  divu_step (u32 (divisor .<< 16)) (divu_register k, cycles) = (divu_register (k + 1), cycles + divu_step_cost k).
Proof using Hd.
  intros Hk Hc. unfold divu_step.
  pose proof (divu_long_division k Hk) as [Hp Hbit]. cbv zeta in Hp, Hbit.
  pose proof (divu_low_step k Hk) as Hl. pose proof (divu_partial_range k) as Hr.
  pose proof (divu_partial_range (k + 1)) as Hr'. pose proof (divu_digit_range k) as Hb.
  pose proof (Z.mod_pos_bound (dividend * 2 ^ k) 65536 ltac:(lia)) as Hm.
  pose proof (Z.mod_pos_bound (dividend * 2 ^ (k + 1)) 65536 ltac:(lia)) as Hm'.
  unfold divu_step_cost. rewrite Hbit. unfold divu_register. rewrite Hp.
  set (r := divu_partial k) in *. set (b := divu_digit k) in *.
  set (l := (dividend * 2 ^ k) mod 65536) in *. set (l' := (dividend * 2 ^ (k + 1)) mod 65536) in *.
  clearbody r b l l'. clear Hp Hbit.
  rewrite !Z.shiftl_mul_pow2 by lia. change (2 ^ 16) with 65536. change (2 ^ 1) with 2. change (2 ^ 15) with 32768.
  set (x := 65536 * r + l). assert (Hx : 0 <= x < 2 ^ 32) by (unfold x; lia).
  pose proof (is_set_sign W_long_word x Hx) as Hs. change (is_set x (width_sign W_long_word)) with
    (negb (x .& 0x80000000 =? 0)) in Hs. rewrite Hs. change (2 ^ (width_bits W_long_word - 1)) with 2147483648.
  assert (Hdm : u32 (divisor * 65536) = divisor * 65536) by (apply u32_id; unfold is_u32; lia).
  rewrite Hdm. unfold u32. unfold x in *.
  destruct (Z.leb_spec 2147483648 (65536 * r + l)), (Z.leb_spec 32768 r); try lia.
  - rewrite (proj2 (Z.leb_le _ _)) by lia. f_equal; [|lia]. rewrite Zminus_mod_idemp_l.
    rewrite Z.mod_small by lia. lia.
  - rewrite (Z.mod_small ((65536 * r + l) * 2)) by lia.
    destruct (Z.leb_spec (divisor * 65536) ((65536 * r + l) * 2)), (Z.leb_spec divisor (2 * r + b)); try lia.
    + f_equal; rewrite ?(Z.mod_small (cycles + 4)) by lia; rewrite Z.mod_small by lia; lia.
    + f_equal; rewrite ?Z.mod_small by lia; lia.
Qed.

Lemma divu_step_cost_range k : 0 <= divu_step_cost k <= 4 /\ divu_step_cost k mod 2 = 0.
Proof using Type. unfold divu_step_cost. by repeat case_match. Qed.

Lemma divu_cost_S n : divu_cost (S n) = divu_cost n + divu_step_cost (Z.of_nat n).
Proof using Type.
  unfold divu_cost. rewrite seqZ_S. rewrite map_app, foldr_app. cbn [map foldr].
  rewrite Z.add_0_l, Z.add_0_r. generalize (divu_step_cost (Z.of_nat n)). intros c.
  induction (map divu_step_cost (seqZ 0 (Z.of_nat n))) as [|x l IH]; cbn; lia.
Qed.

Lemma divu_cost_range n : 0 <= divu_cost n <= 4 * Z.of_nat n /\ divu_cost n mod 2 = 0.
Proof using Type.
  induction n as [|n IH]; [done|]. rewrite divu_cost_S. pose proof (divu_step_cost_range (Z.of_nat n)) as [H Hm].
  split; [lia|]. rewrite Z.add_mod, (proj2 IH), Hm by lia. done.
Qed.

Lemma divu_loop n : (n <= 15)%nat ->
  Nat.iter n (divu_step (u32 (divisor .<< 16))) (dividend, 76) = (divu_register (Z.of_nat n), 76 + divu_cost n).
Proof using All.
  induction n as [|n IH]; intros Hle.
  - cbn [Nat.iter nat_rect]. f_equal. unfold divu_register, divu_partial, divu_leading. cbn [Z.of_nat].
    change (2 ^ 0) with 1. change (2 ^ (16 - 0)) with 65536. rewrite Z.mul_1_r.
    unfold is_u32 in Hn. pose proof (Z.div_mod dividend 65536 ltac:(lia)).
    rewrite (Z.mod_small (dividend / 65536)); [lia|]. Z.to_euclidean_division_equations; lia.
  - rewrite Nat.iter_succ, IH by lia. pose proof (divu_cost_range n) as [Hc _].
    rewrite divu_step_exact by lia. rewrite divu_cost_S. f_equal; [f_equal; lia|lia].
Qed.

End DIVU.

(** DIVU's cycles, by whether the quotient fits. *)
Lemma divu_cycles_cost dividend divisor : is_u32 dividend -> 0 < divisor < 65536 ->
  segarecomp_m68k_divu_word_cycles dividend divisor =
    (if divisor <=? dividend / 65536 then 10 else 76 + divu_cost dividend divisor 15).
Proof.
  unfold is_u32. intros Hn Hd. unfold segarecomp_m68k_divu_word_cycles. cbv zeta.
  rewrite Z.shiftr_div_pow2 by lia. change (2 ^ 16) with 65536.
  destruct (Z.leb_spec divisor (dividend / 65536)) as [Hc|Hc]; [done|].
  by rewrite divu_loop by (unfold is_u32; lia || (Z.to_euclidean_division_equations; lia)).
Qed.

(** DIVU's time is the published microcode's.  For every dividend and every
    divisor that is not zero it is ten cycles exactly when the quotient
    overflows; otherwise it is 76 plus the cost of the fifteen steps of the long
    division, none for a step whose partial remainder carries out, two for a
    quotient bit found by comparison, four for a zero bit, although the loop works
    in one wrapping 32-bit register.  It is even and between 76 and 136. *)
Theorem divu_cycles_exact (dividend divisor : Z) (Hdividend : is_u32 dividend) (Hdivisor : is_u16 divisor)
    (Hne : divisor <> 0) :
  let cycles := segarecomp_m68k_divu_word_cycles dividend divisor in
  if dv_overflow (division_evaluate dividend divisor false) then cycles = 10
  else cycles = 76 + divu_cost dividend divisor 15 /\ 76 <= cycles <= 136 /\ cycles mod 2 = 0.
Proof.
  unfold is_u16 in *. cbv zeta. rewrite divu_cycles_cost by (done || lia). unfold division_evaluate.
  assert (Hov : (0xFFFF <? dividend / divisor) = (divisor <=? dividend / 65536)).
  { unfold is_u32 in *. apply eq_true_iff_eq. rewrite Z.ltb_lt, Z.leb_le.
    split; intros; Z.to_euclidean_division_equations; nia. }
  rewrite <- Hov. destruct (0xFFFF <? dividend / divisor); cbn [dv_overflow]; [done|].
  pose proof (divu_cost_range dividend divisor 15) as [H Hm]. split; [done|]. split; [lia|].
  rewrite Z.add_mod, Hm by lia. done.
Qed.

Lemma divu_cycles_exact_witness :
  segarecomp_m68k_divu_word_cycles 0x12345678 0x7FFF = 76 + divu_cost 0x12345678 0x7FFF 15 /\
  divu_cost 0x12345678 0x7FFF 15 = 50.
Proof.
  split; [|vm_compute; reflexivity].
  assert (H1 : is_u32 0x12345678) by (unfold is_u32; lia). assert (H2 : is_u16 0x7FFF) by (unfold is_u16; lia).
  exact (proj1 (divu_cycles_exact 0x12345678 0x7FFF H1 H2 ltac:(lia))).
Defined.

(** * The other data-dependent rules *)

Lemma divs_quotient_range quotient cycles : 0 <= cycles < 2 ^ 31 -> cycles mod 2 = 0 ->
  cycles <= divs_quotient_cycles quotient cycles <= cycles + 30 /\ divs_quotient_cycles quotient cycles mod 2 = 0.
Proof.
  intros Hc He. unfold divs_quotient_cycles.
  assert (H : forall l c, 0 <= c -> c + 2 * Z.of_nat (length l) < 2 ^ 32 -> c mod 2 = 0 ->
    let r := foldl (fun cycles bit => if (quotient .>> bit) .& 1 =? 0 then u32 (cycles + 2) else cycles) c l in
    c <= r <= c + 2 * Z.of_nat (length l) /\ r mod 2 = 0).
  { induction l as [|b l IH]; intros c H0 Hb Hm; cbn [foldl length] in *; [split; [lia|done]|].
    destruct (_ =? 0).
    - rewrite u32_id by (unfold is_u32; lia).
      destruct (IH (c + 2)) as [H1 H2]; [lia|lia|rewrite Z.add_mod, Hm by lia; done|]. split; [lia|done].
    - destruct (IH c) as [H1 H2]; [lia|lia|done|]. split; [lia|done]. }
  destruct (H (seqZ 1 15) cycles) as [H1 H2]; [lia|rewrite length_seqZ; lia|done|].
  rewrite length_seqZ in H1. split; [lia|done].
Qed.

(** DIVS by a divisor that is not zero: 16 or 18 cycles on absolute overflow, the
    range of the comment otherwise. *)
Lemma divs_range dividend divisor : is_u16 divisor -> divisor <> 0 ->
  let cycles := segarecomp_m68k_divs_word_cycles dividend divisor in
  (16 <= cycles <= 18 \/ 120 <= cycles <= 156) /\ cycles mod 2 = 0.
Proof.
  intros Hr Hne. unfold segarecomp_m68k_divs_word_cycles. cbv zeta.
  set (nd := negb (dividend .& _ =? 0)). set (nv := negb (divisor .& _ =? 0)).
  set (md := if nd then _ else dividend). set (mv := if nv then _ else divisor).
  assert (Hmv : (mv =? 0) = false).
  { apply Z.eqb_neq. unfold mv. destruct nv; [|done]. rewrite u32_id; unfold is_u16, is_u32 in *; lia. }
  rewrite Hmv. destruct (_ <=? _); [destruct nd; (split; [left; vm_compute; split; discriminate|reflexivity])|].
  set (q := md / mv). clearbody nd nv q. clear.
  destruct nd, nv; cbn [negb].
  all: match goal with |- context [divs_quotient_cycles ?q ?c] =>
    let v := eval vm_compute in c in change c with v end.
  all: match goal with |- context [divs_quotient_cycles ?q ?c] =>
    destruct (divs_quotient_range q c) as [H1 H2]; [lia|done|split; [right; lia|exact H2]] end.
Qed.

Lemma mulu_range source : 38 <= segarecomp_m68k_mulu_word_cycles source <= 70 /\
  segarecomp_m68k_mulu_word_cycles source mod 2 = 0.
Proof.
  unfold segarecomp_m68k_mulu_word_cycles. pose proof (count_ones_range 16 source). split; [lia|].
  rewrite Z.add_mod, Z.mul_comm, Z.mod_mul by lia. done.
Qed.

Lemma muls_range source : 38 <= segarecomp_m68k_muls_word_cycles source <= 70 /\
  segarecomp_m68k_muls_word_cycles source mod 2 = 0.
Proof. unfold segarecomp_m68k_muls_word_cycles. apply (mulu_range ((u32 (source .<< 1) .^ source) .& 0xFFFF)). Qed.

(** * The time depends on the shape only *)

(** The exception part of an effect, by kind. *)
Definition raise_part (e : M68kOperationEffect) : bool * Z :=
  (oe_may_raise_synchronous_exception e, oe_exception_vector e).

Definition kind_raise (kind : M68kIrKind) (vector : Z) : bool * Z :=
  match kind with
  | IR_return_from_exception | IR_write_user_stack_pointer | IR_read_user_stack_pointer | IR_logical_immediate_to_sr
  | IR_stop_until_interrupt | IR_write_status_register => (true, 8)
  | IR_divide_signed_word | IR_divide_unsigned_word => (true, 5)
  | IR_trap_exception | IR_trap_on_overflow | IR_check_bounds | IR_instruction_exception => (true, vector)
  | _ => (false, 0)
  end.

Lemma effect_kind_raise op : raise_part (effect_of_kind op) = kind_raise (op_kind op) (op_exception_vector op).
Proof. by_effect_kind op. Qed.

Lemma effect_raise op :
  raise_part (m68k_operation_effect op) = kind_raise (op_kind op) (op_exception_vector op).
Proof. rewrite <- effect_kind_raise. apply (effect_projection raise_part); reflexivity. Qed.

Lemma effect_raises op :
  oe_may_raise_synchronous_exception (m68k_operation_effect op) = (kind_raise (op_kind op) (op_exception_vector op)).1 /\
  oe_exception_vector (m68k_operation_effect op) = (kind_raise (op_kind op) (op_exception_vector op)).2.
Proof. by rewrite <- effect_raise. Qed.

(** What the time of an operation is read from. *)
Record same_timing_view (a b : M68kIrOperation) : Prop := {
  tv_kind : op_kind a = op_kind b;
  tv_size : op_size a = op_size b;
  tv_source : ea_mode (op_source_ea a) = ea_mode (op_source_ea b);
  tv_destination : ea_mode (op_destination_ea a) = ea_mode (op_destination_ea b);
  tv_condition : op_condition a = op_condition b;
  tv_direction : op_movem_direction a = op_movem_direction b;
  tv_mask : op_movem_register_mask a = op_movem_register_mask b;
  tv_vector : op_exception_vector a = op_exception_vector b;
}.

Lemma ea_cycles_mode a b size : ea_mode a = ea_mode b -> ea_cycles a size = ea_cycles b size.
Proof. unfold ea_cycles. by intros ->. Qed.

Lemma cycles_view a b : same_timing_view a b -> m68k_instruction_cycles a = m68k_instruction_cycles b.
Proof.
  destruct a as [? ? ? ? ? ? ? [] [m] ? d ? ? ? ?], b as [? ? ? ? ? ? ? [] [] ? ? ? ? ? ?]. intros []. cbn in *.
  destruct m, d; subst; reflexivity.
Qed.

Lemma timing_view a b : same_timing_view a b -> m68k_instruction_timing a = m68k_instruction_timing b.
Proof.
  intros H. unfold m68k_instruction_timing, retirement_timing, m68k_exception_entry_cycles.
  destruct (effect_raises a) as [-> ->], (effect_raises b) as [-> ->]. rewrite (cycles_view a b H).
  destruct H as [-> -> Hs Hd -> _ _ ->]. by rewrite Hd, (ea_cycles_mode _ _ _ Hs).
Qed.

(** [a] with the register list of [b]. *)
Definition with_mask (mask : Z) (o : M68kIrOperation) : M68kIrOperation :=
  mkOperation (op_provenance o) (op_kind o) (op_destination o) (op_operand o) (op_raw_bytes o) (op_extension o)
    (op_size o) (op_source_ea o) (op_destination_ea o) (op_condition o) (op_movem_direction o) mask
    (op_shift_rotate_kind o) (op_status_operation o) (op_exception_vector o).

(** The time an empty register list leaves out. *)
Definition mask_cycles (o : M68kIrOperation) : Z :=
  match op_kind o with
  | IR_movem_transfer => 4 * sized_cycles (op_size o) 2 1 * popcount (op_movem_register_mask o)
  | _ => 0
  end.

Lemma cycles_mask o :
  m68k_instruction_cycles o = (fun c => c + mask_cycles o) <$> m68k_instruction_cycles (with_mask 0 o).
Proof.
  assert (Hid : forall r : option Z, r = (fun c => c + 0) <$> r).
  { intros [c|]; cbn; [|done]. by rewrite Z.add_0_r. }
  unfold mask_cycles. destruct o as [p k rd n raw ext sz se de c dir mask sh st v].
  cbn [op_kind op_size op_movem_register_mask].
  destruct k; try apply Hid.
  unfold m68k_instruction_cycles, with_mask. cbn [op_kind]. unfold movem_cycles.
  cbn [op_kind op_size op_movem_register_mask op_movem_direction op_source_ea op_destination_ea].
  destruct (negb _); [done|].
  match goal with |- ?b ≫= _ = _ => destruct b as [base|] end; [|done].
  cbn. f_equal. change (popcount 0) with 0. lia.
Qed.

(** The bounds of a timing rule, with [slack] for a register list. *)
Definition timing_ok (slack : Z) (t : M68kInstructionTiming) : bool :=
  let c := tm_cycles t in
  ((tm_exception_entry_cycles t =? 0) ||
   ((34 <=? tm_exception_entry_cycles t) && (tm_exception_entry_cycles t <=? 52) && Z.even (tm_exception_entry_cycles t))) &&
  Z.even c &&
  match tm_rule t with
  | TR_fixed => (4 <=? c) && (c <=? 40 + slack)
  | TR_condition => (4 <=? c) && (c <=? 12) && (4 <=? tm_false_cycles t) && (tm_false_cycles t <=? 12) && Z.even (tm_false_cycles t)
  | TR_dbcc => (4 <=? c) && (c <=? 12) && (tm_false_cycles t =? 10) && (tm_expired_cycles t =? 14)
  | TR_register_count => (6 <=? c) && (c <=? 8) && (tm_per_count_cycles t =? 2)
  | TR_multiply_unsigned | TR_multiply_signed | TR_divide_unsigned | TR_divide_signed => (0 <=? c) && (c <=? 12)
  end.

(** * Every word *)

Definition timing_word_ok (word : Z) : bool :=
  match canonical word with
  | Some (Ok i) =>
      match m68k_instruction_timing (with_mask 0 (lift_m68k_instruction i)) with
      | Some t => timing_ok 0 t
      | None => false
      end
  | _ => true
  end.

Lemma timing_words_ok : check_words timing_word_ok 16 0 = true.
Proof. by_lazy. Qed.

#[local] Opaque check_words timing_word_ok canonical.

(** * The bounds *)

(** A runtime outcome: a reduced count, machine words, and a divisor that is not
    zero (a zero divisor takes the exception). *)
Record outcome_ok (t : M68kInstructionTiming) (outcome : M68kTimingOutcome) : Prop := {
  oo_count : 0 <= to_count outcome < 64;
  oo_source : is_u16 (to_source_word outcome);
  oo_dividend : is_u32 (to_dividend outcome);
  oo_divisor :
    match tm_rule t with TR_divide_unsigned | TR_divide_signed => to_source_word outcome <> 0 | _ => True end;
}.

Lemma even_mod x : Z.even x = true -> x mod 2 = 0.
Proof. intros H. apply Zeven_bool_iff, Zeven_ex in H as [k ->]. by rewrite Z.mul_comm, Z.mod_mul. Qed.

Lemma divu_range dividend divisor : is_u32 dividend -> is_u16 divisor -> divisor <> 0 ->
  let cycles := segarecomp_m68k_divu_word_cycles dividend divisor in 10 <= cycles <= 136 /\ cycles mod 2 = 0.
Proof.
  unfold is_u16. intros Hn Hd Hne. cbv zeta. rewrite divu_cycles_cost by (done || lia).
  pose proof (divu_cost_range dividend divisor 15) as [H Hm]. destruct (_ <=? _); [by split; [lia|]|].
  split; [lia|]. rewrite Z.add_mod, Hm by lia. done.
Qed.

Lemma timing_ok_cycles slack t outcome : slack <= 128 -> timing_ok slack t = true -> outcome_ok t outcome ->
  4 <= m68k_timing_cycles t outcome <= 168 /\ m68k_timing_cycles t outcome mod 2 = 0.
Proof.
  intros Hs H [Hc Hw Hd Hne]. unfold timing_ok in H. unfold m68k_timing_cycles. cbv zeta in *.
  destruct t as [rule c f e per x]. cbn [tm_rule tm_cycles tm_false_cycles tm_expired_cycles tm_per_count_cycles
    tm_exception_entry_cycles] in *.
  apply andb_prop in H as [H Hrule]. apply andb_prop in H as [Hx He]. apply even_mod in He.
  destruct (to_exception_taken outcome && negb (x =? 0)) eqn:Ex.
  { apply andb_prop in Ex as [_ Ex]. apply negb_true_iff in Ex. rewrite Ex in Hx. cbn [orb] in Hx.
    apply andb_prop in Hx as [Hx Hev]. to_prop. apply even_mod in Hev. split; [lia|done]. }
  assert (Hsum : forall a lo hi, lo <= a <= hi -> 0 <= lo -> hi <= 156 -> a mod 2 = 0 -> 0 <= c <= 12 ->
    lo <= u32 (a + c) <= hi + 12 /\ u32 (a + c) mod 2 = 0).
  { intros a lo hi Ha Hlo Hhi Hae Hcc. rewrite u32_id by (unfold is_u32; lia). split; [lia|].
    rewrite Z.add_mod, Hae, He by lia. done. }
  destruct rule; to_prop.
  - split; [lia|done].
  - destruct (to_condition_true outcome); split; try lia; try done. by apply even_mod.
  - subst. destruct (to_condition_true outcome), (to_counter_expired outcome); split; lia || done.
  - subst. rewrite u32_id by (unfold is_u32; lia). split; [lia|].
    rewrite Z.add_mod, He, Z.mul_comm, Z.mod_mul by lia. done.
  - destruct (mulu_range (to_source_word outcome)) as [Hr Hm]. destruct (Hsum _ _ _ Hr) as [Hb Hev]; try lia; try done; split; (lia || done).
  - destruct (muls_range (to_source_word outcome)) as [Hr Hm]. destruct (Hsum _ _ _ Hr) as [Hb Hev]; try lia; try done; split; (lia || done).
  - destruct (divu_range _ _ Hd Hw Hne) as [Hr Hm]. destruct (Hsum _ _ _ Hr) as [Hb Hev]; try lia; try done; split; (lia || done).
  - destruct (divs_range (to_dividend outcome) _ Hw Hne) as [Hr Hm].
    destruct (Hsum (segarecomp_m68k_divs_word_cycles (to_dividend outcome) (to_source_word outcome)) 16 156)
      as [Hb Hev]; try lia; try done; split; (lia || done).
Qed.

(** A decoded instruction has the timing view of its canonical run, up to its
    register list. *)
Lemma shape_view i j : same_shape i j ->
  same_timing_view (with_mask 0 (lift_m68k_instruction i)) (with_mask 0 (lift_m68k_instruction j)).
Proof.
  intros []. destruct ss_source_ea as [Hs _], ss_destination_ea as [Hd _].
  split; cbn [with_mask op_kind op_size op_source_ea op_destination_ea op_condition op_movem_direction
    op_movem_register_mask op_exception_vector lift_m68k_instruction]; try done.
  unfold lift_kind. by rewrite ss_kind, Hd.
Qed.

(** The register list adds at most 128 cycles. *)
Lemma mask_cycles_range o : 0 <= mask_cycles o <= 128 /\ mask_cycles o mod 2 = 0.
Proof.
  unfold mask_cycles, popcount. pose proof (count_ones_range 16 (op_movem_register_mask o)).
  destruct (op_kind o); try (split; [lia|done]).
  unfold sized_cycles. destruct (long_size _); (split; [lia|]); rewrite <- Zmult_mod_idemp_l; reflexivity.
Qed.

Lemma timing_ok_slack r c f e p x m : 0 <= m <= 128 -> m mod 2 = 0 -> r = TR_fixed \/ m = 0 ->
  timing_ok 0 (mkTiming r c f e p x) = true -> timing_ok 128 (mkTiming r (c + m) f e p x) = true.
Proof.
  intros Hm He Hr. unfold timing_ok.
  cbn [tm_rule tm_cycles tm_false_cycles tm_expired_cycles tm_per_count_cycles tm_exception_entry_cycles].
  intros H. apply andb_prop in H as [H Hrule]. apply andb_prop in H as [Hx Hc]. rewrite Hx.
  assert (Hme : Z.even m = true) by (rewrite Zeven_mod; by apply Z.eqb_eq).
  rewrite Z.even_add, Hc, Hme. cbn [andb]. change (Bool.eqb true true) with true. cbn [andb].
  destruct Hr as [->| ->]; [|rewrite Z.add_0_r; destruct r; try exact Hrule].
  all: to_prop; apply andb_true_intro; split; apply Z.leb_le; lia.
Qed.

Lemma timing_mask o t : m68k_instruction_timing (with_mask 0 o) = Some t -> timing_ok 0 t = true ->
  exists t', m68k_instruction_timing o = Some t' /\ timing_ok 128 t' = true.
Proof.
  intros Ht Hok. pose proof (cycles_mask o) as Hc. pose proof (mask_cycles_range o) as [Hm He].
  unfold m68k_instruction_timing in *.
  assert (Ex : m68k_exception_entry_cycles (with_mask 0 o) = m68k_exception_entry_cycles o).
  { unfold m68k_exception_entry_cycles.
    destruct (effect_raises o) as [-> ->], (effect_raises (with_mask 0 o)) as [-> ->]. done. }
  rewrite Ex in Ht. clear Ex. destruct (effect_raises o) as [-> _], (effect_raises (with_mask 0 o)) as [E _].
  rewrite E in Ht. clear E.
  change (op_kind (with_mask 0 o)) with (op_kind o) in Ht.
  change (op_exception_vector (with_mask 0 o)) with (op_exception_vector o) in Ht.
  generalize dependent (m68k_exception_entry_cycles o). generalize dependent (kind_raise (op_kind o) (op_exception_vector o)).1.
  intros raises entry Ht.
  assert (Hr : exists r c f e p x m, retirement_timing (with_mask 0 o) = Some (mkTiming r c f e p x) /\
    retirement_timing o = Some (mkTiming r (c + m) f e p x) /\ 0 <= m <= 128 /\ m mod 2 = 0 /\ (r = TR_fixed \/ m = 0)).
  { destruct (retirement_timing (with_mask 0 o)) as [[r c f e p x]|] eqn:Er; [|discriminate Ht].
    unfold retirement_timing in *. rewrite Hc. destruct (m68k_instruction_cycles (with_mask 0 o)) as [c'|].
    - injection Er as <- <- <- <- <- <-. cbn. repeat eexists; eauto; lia.
    - exists r, c, f, e, p, x, 0. rewrite Z.add_0_r. split_and!; (done || lia || by right). }
  destruct Hr as (r & c & f & e & p & x & m & E0 & E1 & Hm0 & Hm1 & Hrm). rewrite E0 in Ht. rewrite E1.
  cbn [mbind option_bind tm_rule tm_cycles tm_false_cycles tm_expired_cycles tm_per_count_cycles] in *.
  destruct raises; [destruct entry as [entry|]; [|discriminate Ht]|]; injection Ht as <-;
    (eexists; split; [reflexivity|by apply timing_ok_slack]).
Qed.

(** C33. Every instruction has a time, and it is a plausible one.  For every image
    and every instruction the general profile decodes the timing rule exists, and
    for every runtime outcome (counts below 64, any operand words, a divisor that
    is not zero) the cycles it gives are an even number between 4 and 168, taken
    exceptions included. *)
Theorem timing_bounds (image : list Z) (source : DecodeSource) (Hwp : well_placed image source)
    (i : M68kDecodedInstruction) (Hi : decode_m68k_instruction image source DP_general_startup = Ok i) :
  exists t, m68k_instruction_timing (lift_m68k_instruction i) = Some t /\
    forall outcome, outcome_ok t outcome ->
      4 <= m68k_timing_cycles t outcome <= 168 /\ m68k_timing_cycles t outcome mod 2 = 0.
Proof.
  pose proof (decode_canonical image source Hwp) as C. cbv zeta in C.
  destruct (canonical_decodes image source Hwp i Hi) as [j Hj]. rewrite Hj, Hi in C. destruct C as [C _].
  pose proof (check_words_sound _ 16 0 timing_words_ok (primary_word (primary_bytes image source))
    (primary_word_range _)) as H.
  with_strategy transparent [timing_word_ok] unfold timing_word_ok in H. rewrite Hj in H.
  rewrite (timing_view _ _ (shape_view j i C)) in H.
  destruct (m68k_instruction_timing (with_mask 0 (lift_m68k_instruction i))) as [t|] eqn:Et; [|discriminate H].
  destruct (timing_mask _ t Et H) as (t' & Et' & Hok). exists t'. split; [exact Et'|].
  intros outcome Ho. by apply (timing_ok_cycles 128).
Qed.

(** [BTST D1,#$12] at $1000. *)
Definition btst_image : list Z := [0x03; 0x3C; 0x00; 0x12].
Definition btst_source : DecodeSource := mkSource CV_mc68000 (mkAddress TAS_m68k_program 0x1000) 0.

Lemma timing_bounds_witness :
  exists i t, decode_m68k_instruction btst_image btst_source DP_general_startup = Ok i /\
    m68k_instruction_timing (lift_m68k_instruction i) = Some t /\ tm_cycles t = 8.
Proof.
  assert (Hwp : well_placed btst_image btst_source).
  { split; [|done|by vm_compute|done|done|by vm_compute].
    repeat constructor; vm_compute; intros H; discriminate H. }
  eexists. pose proof (timing_bounds btst_image btst_source Hwp _ ltac:(vm_compute; reflexivity)) as (t & Ht & _).
  exists t. split; [vm_compute; reflexivity|]. split; [exact Ht|].
  vm_compute in Ht. injection Ht as <-. reflexivity.
Defined.
