(* ===== verification/M68kFinite.v ===== *)
(** The finite value domain of one MC68000 data register:
    [finite_register_values.hpp] and [finite_register_values.cpp].

    A value set is a sorted list of [uint32_t]; [M68kFiniteValueInputs] is the
    interface of the same name: the register values before the operation and the
    reads of the immutable image.  The transfer record the source updates through
    a reference is passed and returned. *)

From S2P Require Import Prelude M68kInstruction M68kArithmetic M68kEffects.

(** * Value sets *)

Definition m68k_finite_values_limit : Z := 4096.

Record M68kFiniteValues := mkFinite {
  fv_known : bool;
  fv_values : list Z;
  fv_width_derived : bool;
}.

(** [M68kFiniteValues::unknown()] *)
Definition unknown : M68kFiniteValues := mkFinite false [] false.

(** [width_mask] *)
Definition low_mask (width : Z) : Z := if 32 <=? width then 0xFFFFFFFF else (1 .<< width) - 1.

Definition size_bits (size : M68kMemoryAccessWidth) : Z :=
  match size with W_byte => 8 | W_word => 16 | W_long_word => 32 end.

(** A [uint32_t]: the subtraction wraps. *)
Definition sign_extend (value bits : Z) : Z :=
  if 32 <=? bits then value
  else
    let sign := 1 .<< (bits - 1) in
    u32 (((value .& ((1 .<< bits) - 1)) .^ sign) - sign).

Definition is_data_register (ea : M68kEffectiveAddress) (reg : Z) : bool :=
  (ea_mode ea =b EA_data_register) && (ea_reg ea =? reg).

(** [M68kFiniteValues::of] *)
Definition of_values (values : list Z) (width : Z) : M68kFiniteValues :=
  let values := sort_unique (map (fun value => value .& low_mask width) values) in
  if m68k_finite_values_limit <? zlen values then unknown else mkFinite true values false.

(** [result.width_derived = flag] *)
Definition set_width_derived (derived : bool) (values : M68kFiniteValues) : M68kFiniteValues :=
  mkFinite (fv_known values) (fv_values values) derived.

Definition m68k_finite_union (left right : M68kFiniteValues) (width : Z) : M68kFiniteValues :=
  if negb (fv_known left) || negb (fv_known right) then unknown
  else
    let result := of_values (fv_values left ++ fv_values right) width in
    set_width_derived (fv_known result && (fv_width_derived left || fv_width_derived right)) result.

Definition map_values (input : M68kFiniteValues) (width : Z) (f : Z -> Z) : M68kFiniteValues :=
  if negb (fv_known input) then unknown
  else
    let result := of_values (map f (fv_values input)) width in
    set_width_derived (fv_known result && fv_width_derived input) result.

(** [values.back()] of a set that is not empty. *)
Definition back (values : M68kFiniteValues) : Z := List.last (fv_values values) 0.
Definition is_empty (values : M68kFiniteValues) : bool := match fv_values values with [] => true | _ => false end.

(** [narrow(before, after)], returning the updated [after]. *)
Definition narrow (before after : M68kFiniteValues) : M68kFiniteValues :=
  if negb (fv_known after) then after
  else
    let cut := fv_known before && negb (is_empty before) && negb (is_empty after) && (back after <? back before) in
    set_width_derived (fv_width_derived before && negb cut) after.

(** The loop over both sets: [f a b] for every [a] of the left and [b] of the right. *)
Definition cross (left right : list Z) (f : Z -> Z -> Z) : list Z :=
  concat (map (fun a => map (f a) right) left).

Definition combine (left right : M68kFiniteValues) (width : Z) (f : Z -> Z -> Z) : M68kFiniteValues :=
  if negb (fv_known left) || negb (fv_known right) then unknown
  else if m68k_finite_values_limit * 16 <? zlen (fv_values left) * zlen (fv_values right) then unknown
  else
    let result := of_values (cross (fv_values left) (fv_values right) f) width in
    set_width_derived (fv_known result && (fv_width_derived left || fv_width_derived right)) result.

(** * Proof ingredients ([m68k_finite_proof]) *)

Definition proof_constant : Z := 1 .<< 0.
Definition proof_mask : Z := 1 .<< 1.
Definition proof_byte_load : Z := 1 .<< 2.
Definition proof_immutable_load : Z := 1 .<< 3.
Definition proof_shift : Z := 1 .<< 4.
Definition proof_add_sub : Z := 1 .<< 5.
Definition proof_sign_extend : Z := 1 .<< 6.
Definition proof_register_copy : Z := 1 .<< 8.
Definition proof_logical : Z := 1 .<< 9.

(** [m68k_finite_proof::name] *)
Definition proof_name (bit_index : Z) : string :=
  nth (Z.to_nat bit_index)
    ["constant"; "mask"; "byte_load"; "immutable_load"; "shift"; "add_sub"; "sign_extend"; "guard"; "register_copy";
     "logical"; "call_edge"; "dynamic_edge"]%string "unknown"%string.

(** * Inputs and transfers *)

Class M68kFiniteValueInputs := {
  data_register_before : Z -> Z -> M68kFiniteValues;
  immutable_read : Z -> Z -> option Z;
}.

Record M68kFiniteTransfer := mkTransfer {
  ft_writes : bool;
  ft_values : M68kFiniteValues;
  ft_proof : Z;
  ft_immutable_read_failed : bool;
  ft_table_reads : Z;
  ft_misaligned_reads_excluded : Z;
}.

(** [M68kFiniteTransfer{}], and its assignments. *)
Definition no_transfer : M68kFiniteTransfer := mkTransfer false unknown 0 false 0 0.
Definition with_writes (t : M68kFiniteTransfer) : M68kFiniteTransfer :=
  mkTransfer true (ft_values t) (ft_proof t) (ft_immutable_read_failed t) (ft_table_reads t)
    (ft_misaligned_reads_excluded t).
Definition with_values (values : M68kFiniteValues) (proof : Z) (t : M68kFiniteTransfer) : M68kFiniteTransfer :=
  mkTransfer (ft_writes t) values proof (ft_immutable_read_failed t) (ft_table_reads t)
    (ft_misaligned_reads_excluded t).
Definition count_table_read (t : M68kFiniteTransfer) : M68kFiniteTransfer :=
  mkTransfer (ft_writes t) (ft_values t) (ft_proof t) (ft_immutable_read_failed t) (u32 (ft_table_reads t + 1))
    (ft_misaligned_reads_excluded t).
Definition count_misaligned (t : M68kFiniteTransfer) : M68kFiniteTransfer :=
  mkTransfer (ft_writes t) (ft_values t) (ft_proof t) (ft_immutable_read_failed t) (ft_table_reads t)
    (u32 (ft_misaligned_reads_excluded t + 1)).
Definition read_failed (t : M68kFiniteTransfer) : M68kFiniteTransfer :=
  mkTransfer (ft_writes t) (ft_values t) (ft_proof t) true (ft_table_reads t) (ft_misaligned_reads_excluded t).

Definition m68k_pc_index_address (ea : M68kEffectiveAddress) (index : Z) : Z :=
  let offset := if ea_index_is_long ea then index else sign_extend index 16 in
  u32 (ea_pc_base_address ea + u32 (ea_displacement ea) + offset) .& 0x00FFFFFF.

(** [Source] *)
Record Source := mkSourceValues {
  src_values : M68kFiniteValues;
  src_proof : Z;
  src_same_register : bool;
}.

Definition no_source : Source := mkSourceValues unknown 0 false.

#[local] Notation "e |> f" := (f e) (at level 48, left associativity, only parsing).

Section Transfer.
Context `{M68kFiniteValueInputs}.

(** The loop over the index values of [(d8,PC,Dn)]: the entries read, or the
    failure of a read. *)
Fixpoint read_table (ea : M68kEffectiveAddress) (access_bits mask : Z) (index : list Z) (values : list Z)
    (t : M68kFiniteTransfer) : option (list Z) * M68kFiniteTransfer :=
  match index with
  | [] => (Some values, t)
  | value :: index =>
      let address := m68k_pc_index_address ea value in
      if (8 <? access_bits) && negb (address .& 1 =? 0) then read_table ea access_bits mask index values (count_misaligned t)
      else
        let t := count_table_read t in
        match immutable_read address (access_bits / 8) with
        | None => (None, read_failed t)
        | Some read => read_table ea access_bits mask index (values ++ [read .& mask]) t
        end
  end.

(** The rule for a byte of any memory. *)
Definition byte_rule (mode : M68kEaMode) (access_bits width : Z) : Source :=
  let memory :=
    match mode with
    | EA_address_indirect | EA_address_postinc | EA_address_predec | EA_address_disp16 | EA_address_index8
    | EA_absolute_word | EA_absolute_long | EA_pc_disp16 => true
    | _ => false
    end in
  if memory && (access_bits =? 8)
  then mkSourceValues (set_width_derived true (of_values (seqZ 0 256) width)) proof_byte_load false
  else no_source.

Definition read_source (ea : M68kEffectiveAddress) (reg bits width : Z) (t : M68kFiniteTransfer) (access_bits : Z)
  : Source * M68kFiniteTransfer :=
  let mask := low_mask bits in
  match ea_mode ea with
  | EA_immediate => (mkSourceValues (of_values [ea_immediate_value ea .& mask] width) proof_constant false, t)
  | EA_data_register =>
      if ea_reg ea =? reg then (mkSourceValues unknown 0 true, t)
      else
        (mkSourceValues (map_values (data_register_before (ea_reg ea) width) width (fun v => v .& mask))
           proof_register_copy false, t)
  | EA_pc_index8 =>
      if ea_index_is_address ea then (no_source, t)
      else
        let index := data_register_before (ea_index_reg ea) (if ea_index_is_long ea then 32 else 16) in
        if negb (fv_known index) then (no_source, t)
        else
          match read_table ea access_bits mask (fv_values index) [] t with
          | (None, t) => (no_source, t)
          | (Some values, t) =>
              let values := of_values values width in
              (mkSourceValues (set_width_derived (fv_known values && fv_width_derived index) values)
                 proof_immutable_load false, t)
          end
  | EA_pc_disp16 | EA_absolute_word | EA_absolute_long =>
      let address := ea_absolute_address ea .& 0x00FFFFFF in
      if (8 <? access_bits) && negb (address .& 1 =? 0) then (no_source, t)
      else
        match immutable_read address (access_bits / 8) with
        | Some read =>
            (mkSourceValues (of_values [read .& mask] width) proof_immutable_load false, count_table_read t)
        | None => (byte_rule (ea_mode ea) access_bits width, t)
        end
  | mode => (byte_rule mode access_bits width, t)
  end.

Section Operation.
Context (op : M68kIrOperation) (reg width : Z).

#[local] Abbreviation src := (op_source_ea op).
#[local] Abbreviation dst := (op_destination_ea op).

(** The low slice the operation defines, and its mask. *)
Definition slice_bits : Z := Z.min (size_bits (op_size op)) width.

(** [merge] *)
Definition merge (old low : Z) : Z :=
  ((old .& not32 (low_mask slice_bits)) .| (low .& low_mask slice_bits)) .& low_mask width.

(** [old_values] *)
Definition old_values : M68kFiniteValues :=
  if width <=? slice_bits then of_values [0] width else data_register_before reg width.

(** MOVEQ writes its decoded destination. *)
Definition moveq_after : M68kFiniteTransfer :=
  if negb (data_register_index (op_destination op) =? reg) then no_transfer
  else
    no_transfer |> with_writes
      |> with_values (of_values [sign_extend (u8 (op_operand op)) 8] width) proof_constant.

Definition extend_after (word : bool) : M68kFiniteTransfer :=
  if negb (is_data_register dst reg) then no_transfer
  else
    let old := data_register_before reg width in
    let image a :=
      if word then ((a .& not32 0xFFFF) .| (sign_extend a 8 .& 0xFFFF)) .& low_mask width
      else sign_extend a 16 .& low_mask width in
    no_transfer |> with_writes |> with_values (map_values old width image) proof_sign_extend.

Definition clear_after (t : M68kFiniteTransfer) : M68kFiniteTransfer :=
  if negb (is_data_register dst reg) then t
  else t |> with_values (map_values old_values width (fun old => merge old 0)) proof_constant.

Definition move_after (t : M68kFiniteTransfer) : M68kFiniteTransfer :=
  if negb (is_data_register dst reg) then t
  else
    let '(source, t) := read_source src reg slice_bits width t (size_bits (op_size op)) in
    if ft_immutable_read_failed t then t
    else if src_same_register source then t |> with_values (data_register_before reg width) (ft_proof t)
    else t |> with_values (combine old_values (src_values source) width merge) (src_proof source).

(** The two-operand kinds; [and_kind] is the test the source repeats. *)
Definition and_kind : bool :=
  match op_kind op with IR_logical_and | IR_logical_and_immediate => true | _ => false end.

(** The lambda [op]. *)
Definition alu_value (a b : Z) : Z :=
  match op_kind op with
  | IR_logical_and | IR_logical_and_immediate => merge a (a .& b)
  | IR_logical_or | IR_logical_or_immediate => merge a (a .| b)
  | IR_exclusive_or | IR_exclusive_or_immediate => merge a (a .^ b)
  | IR_add | IR_add_immediate | IR_add_quick => merge a (u32 (a + b))
  | _ => merge a (u32 (a - b))
  end.

Definition alu_proof : Z :=
  match op_kind op with
  | IR_logical_and | IR_logical_and_immediate => proof_mask
  | IR_logical_or | IR_logical_or_immediate | IR_exclusive_or | IR_exclusive_or_immediate => proof_logical
  | _ => proof_add_sub
  end.

(** [for (sub = constant;; sub = (sub - 1U) & constant)]: at most
    [m68k_finite_values_limit] rounds, since there are that many submasks at most. *)
Fixpoint submasks (fuel : nat) (constant sub : Z) : list Z :=
  match fuel with
  | O => []
  | S fuel => sub :: (if sub =? 0 then [] else submasks fuel constant (u32 (sub - 1) .& constant))
  end.

(** The value of an unknown register ANDed with a constant that covers the width. *)
Definition known_mask (constant : Z) (t : M68kFiniteTransfer) : M68kFiniteTransfer :=
  if m68k_finite_values_limit <? 1 .<< count_ones 32 constant then t
  else t |> with_values (of_values (submasks (Z.to_nat m68k_finite_values_limit) constant constant) width)
              (ft_proof t .| alu_proof).

(** A cross product; [narrow] and the width-only source apply to AND. *)
Definition alu_combined (old : M68kFiniteValues) (source : Source) : M68kFiniteValues :=
  let values := combine old (src_values source) width alu_value in
  if and_kind then
    let values := narrow old values in
    if fv_known values && fv_width_derived (src_values source) then set_width_derived true values else values
  else values.

Definition alu_after (t : M68kFiniteTransfer) : M68kFiniteTransfer :=
  if negb (is_data_register dst reg) then t
  else
    let '(source, t) := read_source src reg slice_bits width t (size_bits (op_size op)) in
    if ft_immutable_read_failed t then t
    else
      let old := data_register_before reg width in
      let constant :=
        match fv_values (src_values source) with
        | [constant] => if fv_known (src_values source) then Some constant else None
        | _ => None
        end in
      match (if and_kind && negb (fv_known old) && (width <=? slice_bits) then constant else None) with
      | Some constant => known_mask (constant .& low_mask width) t
      | None =>
          if src_same_register source then
            t |> with_values (map_values old width (fun a => alu_value a a)) (ft_proof t .| alu_proof)
          else
            t |> with_values (alu_combined old source)
                   ((src_proof source .& not32 proof_constant) .| alu_proof)
      end.

(** The image of one value under an immediate shift. *)
Definition shift_value (count a : Z) : Z :=
  let op_bits := size_bits (op_size op) in
  let op_mask := low_mask op_bits in
  let result :=
    match op_shift_rotate_kind op with
    | SR_lsl | SR_asl => if 32 <=? count then 0 else u32 (a .<< count)
    | SR_lsr => if 32 <=? count then 0 else (a .& op_mask) .>> count
    | _ => u32 (i32 (sign_extend (a .& op_mask) op_bits) .>> (if 31 <=? count then 31 else count))
    end in
  if width <=? op_bits then result .& low_mask width
  else ((a .& not32 op_mask) .| (result .& op_mask)) .& low_mask width.

Definition shift_after (t : M68kFiniteTransfer) : M68kFiniteTransfer :=
  if negb (is_data_register dst reg) || negb (ea_mode src =b EA_immediate) then t
  else
    let left := match op_shift_rotate_kind op with SR_lsl | SR_asl => true | _ => false end in
    let right := match op_shift_rotate_kind op with SR_lsr | SR_asr => true | _ => false end in
    if negb left && negb (right && (size_bits (op_size op) <=? width)) then t
    else
      let old := data_register_before reg width in
      let values := map_values old width (shift_value (ea_immediate_value src)) in
      t |> with_values (if right then narrow old values else values) proof_shift.

(** The kinds with an exact form, given that the register is written. *)
Definition written_after (t : M68kFiniteTransfer) : M68kFiniteTransfer :=
  match op_kind op with
  | IR_write_clr => clear_after t
  | IR_write_move => move_after t
  | IR_logical_and | IR_logical_and_immediate | IR_logical_or | IR_logical_or_immediate | IR_exclusive_or
  | IR_exclusive_or_immediate | IR_add | IR_add_immediate | IR_add_quick | IR_subtract | IR_subtract_immediate
  | IR_subtract_quick => alu_after t
  | IR_shift_rotate_register => shift_after t
  | _ => t
  end.

(** The value of Dreg after the operation, modulo [2 ^ width]. *)
Definition m68k_finite_register_after : M68kFiniteTransfer :=
  match op_kind op with
  | IR_write_moveq => moveq_after
  | IR_jump_general | IR_call_general | IR_bsr_call | IR_general_branch | IR_branch_ne_short
  | IR_branch_always_short | IR_no_operation => no_transfer
  | IR_sign_extend_word => extend_after true
  | IR_sign_extend_long => extend_after false
  | _ =>
      let effect := m68k_operation_effect op in
      if oe_register_write_footprint_complete effect && ((oe_data_register_write_mask effect .>> reg) .& 1 =? 0)
      then no_transfer
      else if negb (oe_register_write_footprint_complete effect) then with_writes no_transfer
      else written_after (with_writes no_transfer)
  end.
End Operation.
End Transfer.

(** * The branch filter *)

(** The operand the guard compares Dreg with; [Some None] is TST. *)
Definition guard_operand (flag_setter : M68kIrOperation) (reg : Z) : option (option Z) :=
  match op_kind flag_setter with
  | IR_compare_immediate | IR_compare =>
      if is_data_register (op_destination_ea flag_setter) reg && (ea_mode (op_source_ea flag_setter) =b EA_immediate)
      then Some (Some (ea_immediate_value (op_source_ea flag_setter))) else None
  | IR_test_operand => if is_data_register (op_source_ea flag_setter) reg then Some None else None
  | _ => None
  end.

(** The condition codes the guard leaves for one value. *)
Definition guard_ccr (size : M68kMemoryAccessWidth) (operand : option Z) (value : Z) : Z :=
  match operand with
  | None =>
      let v := value .& low_mask (size_bits size) in
      flag (v =? 0) 0x4 .| flag (negb ((v .>> (size_bits size - 1)) .& 1 =? 0)) 0x8
  | Some immediate =>
      let r := m68k_evaluate_subtraction immediate value size in
      flag (sum_negative r) 0x8 .| flag (sum_zero r) 0x4 .| flag (sum_overflow r) 0x2 .| flag (sum_carry r) 0x1
  end.

(** [None] when the source returns [false] and leaves the values alone. *)
Definition m68k_finite_branch_filter (flag_setter branch : M68kIrOperation) (taken : bool) (reg width : Z)
    (values : M68kFiniteValues) : option M68kFiniteValues :=
  match op_kind branch with
  | IR_general_branch =>
      if negb (fv_known values) || (op_condition branch =b CC_always) || (op_condition branch =b CC_never) then None
      else if width <? size_bits (op_size flag_setter) then None
      else
        match guard_operand flag_setter reg with
        | None => None
        | Some operand =>
            let keep value :=
              Bool.eqb (m68k_evaluate_condition (op_condition branch) (guard_ccr (op_size flag_setter) operand value)) taken in
            Some (narrow values (of_values (List.filter keep (fv_values values)) width))
        end
  | _ => None
  end.
