(* ===== verification/M68kFiniteSound.v ===== *)
(** Soundness of the finite register values of [M68kFinite]: what an MC68000
    operation leaves in a data register, stated with the evaluation functions of
    [M68kArithmetic], lies in the value set the transfer computes. *)

From S2P Require Import Prelude M68kInstruction M68kArithmetic M68kShift M68kEffects M68kFinite.

(** * What the operations do to the data registers *)

(** The registers, the bytes of the 24-bit bus and the extend flag. *)
Record Machine := mkMachine {
  data_register : Z -> Z;
  address_register : Z -> Z;
  bus_byte : Z -> Z;
  extend_flag : bool;
}.

Record machine_ok (m : Machine) : Prop := {
  data_u32 : forall r, is_u32 (data_register m r);
  address_u32 : forall r, is_u32 (address_register m r);
  bus_u8 : forall a, is_u8 (bus_byte m a);
}.

Definition size_bytes (size : M68kMemoryAccessWidth) : nat :=
  match size with W_byte => 1 | W_word => 2 | W_long_word => 4 end.

(** A7 stays even. *)
Definition update_step (size : M68kMemoryAccessWidth) (reg : Z) : Z :=
  match size with W_byte => if reg =? 7 then 2 else 1 | W_word => 2 | W_long_word => 4 end.

Section Semantics.
Context (m : Machine).

Definition index_value (ea : M68kEffectiveAddress) : Z :=
  let x := if ea_index_is_address ea then address_register m (ea_index_reg ea) else data_register m (ea_index_reg ea) in
  if ea_index_is_long ea then x else i16 x.

(** The address of a memory operand. *)
Definition operand_address (ea : M68kEffectiveAddress) (size : M68kMemoryAccessWidth) : option Z :=
  let an := address_register m (ea_reg ea) in
  match ea_mode ea with
  | EA_address_indirect | EA_address_postinc => Some an
  | EA_address_predec => Some (an - update_step size (ea_reg ea))
  | EA_address_disp16 => Some (an + ea_displacement ea)
  | EA_address_index8 => Some (an + ea_displacement ea + index_value ea)
  | EA_pc_index8 => Some (ea_pc_base_address ea + ea_displacement ea + index_value ea)
  | EA_pc_disp16 | EA_absolute_word | EA_absolute_long => Some (ea_absolute_address ea)
  | _ => None
  end.

(** The value of an operand; [None] when it has none or its read faults. *)
Definition operand_value (ea : M68kEffectiveAddress) (size : M68kMemoryAccessWidth) : option Z :=
  match ea_mode ea with
  | EA_immediate => Some (wrap size (ea_immediate_value ea))
  | EA_data_register => Some (wrap size (data_register m (ea_reg ea)))
  | EA_address_register => Some (wrap size (address_register m (ea_reg ea)))
  | _ =>
      address ← operand_address ea size;
      if negb (size =b W_byte) && (address mod 2 =? 1) then None else Some (read_be (bus_byte m) address (size_bytes size))
  end.

(** The low part of a register replaced. *)
Definition insert_low (size : M68kMemoryAccessWidth) (old low : Z) : Z := old - wrap size old + wrap size low.

(** The data registers each kind of operation writes. *)
Definition data_writes (op : M68kIrOperation) (reg : Z) : bool :=
  match op_kind op with
  | IR_write_moveq => data_register_index (op_destination op) =? reg
  | IR_subtract_quick_long_d0 => reg =? 0
  | IR_exchange_registers => is_data_register (op_source_ea op) reg || is_data_register (op_destination_ea op) reg
  | IR_movem_transfer =>
      (op_movem_direction op =b MD_memory_to_registers) && Z.testbit (op_movem_register_mask op) reg
  | IR_branch_ne_short | IR_branch_always_short | IR_return_from_subroutine | IR_return_from_exception
  | IR_test_operand | IR_compare | IR_compare_immediate | IR_compare_address | IR_add_address
  | IR_subtract_address | IR_write_movea | IR_load_effective_address | IR_jump_general | IR_call_general
  | IR_push_effective_address | IR_link_frame | IR_unlink_frame | IR_bit_test | IR_general_branch | IR_bsr_call
  | IR_write_user_stack_pointer | IR_read_user_stack_pointer | IR_logical_immediate_to_ccr
  | IR_logical_immediate_to_sr | IR_write_status_register | IR_no_operation | IR_write_condition_codes
  | IR_compare_memory | IR_trap_exception | IR_trap_on_overflow | IR_check_bounds
  | IR_return_restore_condition_codes | IR_instruction_exception | IR_stop_until_interrupt => false
  | _ => is_data_register (op_destination_ea op) reg
  end.

(** The low part of the result of a two-operand kind. *)
Definition binary_result (kind : M68kIrKind) (size : M68kMemoryAccessWidth) (source old : Z) : option Z :=
  match kind with
  | IR_write_move => Some source
  | IR_logical_and | IR_logical_and_immediate => Some (lr_result (m68k_evaluate_logical (old .& source) size))
  | IR_logical_or | IR_logical_or_immediate => Some (lr_result (m68k_evaluate_logical (old .| source) size))
  | IR_exclusive_or | IR_exclusive_or_immediate => Some (lr_result (m68k_evaluate_logical (old .^ source) size))
  | IR_add | IR_add_immediate | IR_add_quick => Some (sum_result (m68k_evaluate_addition source old size))
  | IR_subtract | IR_subtract_immediate | IR_subtract_quick =>
      Some (sum_result (m68k_evaluate_subtraction source old size))
  | _ => None
  end.

Definition shift_count (ea : M68kEffectiveAddress) : Z :=
  match ea_mode ea with EA_immediate => ea_immediate_value ea | _ => data_register m (ea_reg ea) mod 64 end.

(** The register after the operation, for the kinds whose result is stated here:
    [Some None] when an operand faults. *)
Definition written_value (op : M68kIrOperation) (reg : Z) : option (option Z) :=
  let old := data_register m reg in
  let size := op_size op in
  match op_kind op with
  | IR_write_moveq => Some (Some (u32 (i8 (op_operand op))))
  | IR_sign_extend_word => Some (Some (insert_low W_word old (i8 old)))
  | IR_sign_extend_long => Some (Some (u32 (i16 old)))
  | IR_write_clr => Some (Some (insert_low size old 0))
  | IR_shift_rotate_register =>
      Some (Some (insert_low size old
        (sh_result (m68k_evaluate_shift_rotate (op_shift_rotate_kind op) old (shift_count (op_source_ea op)) size
           (extend_flag m)))))
  | kind =>
      match binary_result kind size 0 0 with
      | None => None
      | Some _ =>
          Some (source ← operand_value (op_source_ea op) size;
                low ← binary_result kind size source old;
                Some (insert_low size old low))
      end
  end.

(** [v] may be in the register after the operation completes.  Results not stated
    by [written_value] may be anything. *)
Definition data_after (op : M68kIrOperation) (reg v : Z) : Prop :=
  if data_writes op reg then
    match written_value op reg with
    | Some result => result = Some v
    | None => is_u32 v
    end
  else v = data_register m reg.
End Semantics.

(** * Contents of a value set *)

Definition contains (width : Z) (values : M68kFiniteValues) (v : Z) : Prop :=
  fv_known values = true -> v mod 2 ^ width ∈ fv_values values.

(** A set is sorted, within the width and within the limit; Unknown is empty. *)
Definition normal (width : Z) (values : M68kFiniteValues) : Prop :=
  if fv_known values then
    StronglySorted Z.lt (fv_values values) /\ Forall (fun v => 0 <= v < 2 ^ width) (fv_values values) /\
    zlen (fv_values values) <= m68k_finite_values_limit
  else values = unknown.

Lemma land_low_mask x width : 0 < width <= 32 -> x .& low_mask width = x mod 2 ^ width.
Proof.
  intros Hw. unfold low_mask. destruct (Z.leb_spec 32 width).
  - replace width with 32 by lia. apply (land_ones_mod x 32). lia.
  - rewrite Z.shiftl_1_l. apply land_ones_mod. lia.
Qed.

Section Contents.
Context (width : Z) (Hwidth : width = 16 \/ width = 32).

Lemma contains_unknown v : contains width unknown v.
Proof. intros H. discriminate H. Qed.

Lemma of_values_contains l x v : x ∈ l -> x mod 2 ^ width = v mod 2 ^ width -> contains width (of_values l width) v.
Proof using Hwidth.
  intros Hx E. unfold of_values. destruct (_ <? _); [apply contains_unknown|]. intros _. cbn [fv_values].
  rewrite elem_of_sort_unique, list_elem_of_fmap. exists x. rewrite land_low_mask by lia. by rewrite E.
Qed.

Lemma set_width_derived_contains b values v :
  contains width values v -> contains width (set_width_derived b values) v.
Proof. done. Qed.

Lemma narrow_contains before after v : contains width after v -> contains width (narrow before after) v.
Proof. unfold narrow. destruct (negb _); auto. Qed.

Lemma map_values_contains values f a v :
  contains width values a -> f (a mod 2 ^ width) mod 2 ^ width = v mod 2 ^ width ->
  contains width (map_values values width f) v.
Proof using Hwidth.
  intros Ha E. unfold map_values. destruct (fv_known values) eqn:K; cbn [negb]; [|apply contains_unknown].
  apply set_width_derived_contains, (of_values_contains _ (f (a mod 2 ^ width))); [|done].
  apply list_elem_of_fmap_2. by apply Ha.
Qed.

Lemma combine_contains left right f a b v :
  contains width left a -> contains width right b ->
  f (a mod 2 ^ width) (b mod 2 ^ width) mod 2 ^ width = v mod 2 ^ width ->
  contains width (combine left right width f) v.
Proof using Hwidth.
  intros Ha Hb E. unfold combine.
  destruct (fv_known left) eqn:Kl, (fv_known right) eqn:Kr; cbn [negb orb]; try apply contains_unknown.
  destruct (_ <? _); [apply contains_unknown|].
  apply set_width_derived_contains, (of_values_contains _ (f (a mod 2 ^ width) (b mod 2 ^ width))); [|done].
  unfold cross. apply list_elem_of_In, in_concat.
  exists (map (f (a mod 2 ^ width)) (fv_values right)). split; apply list_elem_of_In.
  - apply (list_elem_of_fmap_2 (fun a => map (f a) (fv_values right))). by apply Ha.
  - apply list_elem_of_fmap_2. by apply Hb.
Qed.
End Contents.

(** * Widths *)

Lemma wrap_bits size x : wrap size x = x mod 2 ^ size_bits size.
Proof. by destruct size. Qed.

Lemma size_bits_range size : 8 <= size_bits size <= 32.
Proof. destruct size; cbn; lia. Qed.

Lemma width_bits_size size : width_bits size = size_bits size.
Proof. by destruct size. Qed.

(** [x & ~mask] clears the low bits. *)
Lemma land_not_low_mask x n : is_u32 x -> 0 < n <= 32 -> x .& not32 (low_mask n) = x - x mod 2 ^ n.
Proof.
  intros Hx Hn.
  assert (E : x .& not32 (low_mask n) = (x .>> n) .<< n).
  { apply Z.bits_inj'. intros i Hi. rewrite Z.land_spec.
    destruct (decide (i < 32)).
    - rewrite testbit_not32 by lia. rewrite Z.shiftl_spec by lia.
      assert (Hm : Z.testbit (low_mask n) i = (i <? n)).
      { rewrite <- (Z.land_m1_l (low_mask n)), land_low_mask by lia. destruct (Z.ltb_spec i n).
        - rewrite Z.mod_pow2_bits_low, Z.bits_m1 by lia. done.
        - by rewrite Z.mod_pow2_bits_high by lia. }
      rewrite Hm. destruct (Z.ltb_spec i n); cbn [negb].
      + rewrite andb_false_r. symmetry. apply Z.testbit_neg_r. lia.
      + rewrite andb_true_r, Z.shiftr_spec by lia. f_equal. lia.
    - rewrite <- (u32_id x) by done. unfold u32. change 4294967296 with (2 ^ 32).
      rewrite Z.mod_pow2_bits_high by lia. cbn [andb]. rewrite Z.shiftl_spec, Z.shiftr_spec by lia.
      by rewrite Z.mod_pow2_bits_high by lia. }
  rewrite E, Z.shiftr_div_pow2, Z.shiftl_mul_pow2 by lia. pose proof (Z.div_mod x (2 ^ n)). lia.
Qed.

Lemma sign_extend_exact x bits : 0 < bits < 32 ->
  sign_extend x bits = u32 (if 2 ^ (bits - 1) <=? x mod 2 ^ bits then x mod 2 ^ bits - 2 ^ bits else x mod 2 ^ bits).
Proof.
  intros Hb. unfold sign_extend. rewrite (proj2 (Z.leb_gt 32 bits)), !Z.shiftl_1_l, land_ones_mod by lia.
  rewrite lxor_sign by (lia || (rewrite Z.sub_add; apply Z.mod_pos_bound; lia)). by rewrite Z.sub_add.
Qed.

Lemma sign_extend_8 x : sign_extend x 8 = u32 (i8 x).
Proof.
  rewrite sign_extend_exact by lia. f_equal. unfold i8. change (2 ^ (8 - 1)) with 128. change (2 ^ 8) with 256.
  destruct (Z.leb_spec 128 (x mod 256)); Z.to_euclidean_division_equations; lia.
Qed.

Lemma sign_extend_16 x : sign_extend x 16 = u32 (i16 x).
Proof.
  rewrite sign_extend_exact by lia. f_equal. unfold i16. change (2 ^ (16 - 1)) with 32768. change (2 ^ 16) with 65536.
  destruct (Z.leb_spec 32768 (x mod 65536)); Z.to_euclidean_division_equations; lia.
Qed.

(** * Merging *)

Section Merge.
Context (op : M68kIrOperation) (width : Z) (Hwidth : width = 16 \/ width = 32).
#[local] Abbreviation size := (op_size op).
#[local] Abbreviation bits := (slice_bits op width).

Lemma slice_bits_range : 0 < bits <= width /\ bits <= size_bits size.
Proof using Hwidth. unfold slice_bits. pose proof (size_bits_range size). lia. Qed.

Lemma merge_sum a x : is_u32 a -> merge op width a x = (a - a mod 2 ^ bits + x mod 2 ^ bits) mod 2 ^ width.
Proof using Hwidth.
  intros Ha. pose proof slice_bits_range. unfold merge. rewrite land_not_low_mask, !land_low_mask by (done || lia).
  rewrite lor_disjoint; [done|lia|apply Z.mod_pos_bound; lia].
Qed.

(** The low [width] bits of a register whose low part is replaced. *)
Lemma merge_insert old x low : is_u32 old -> x mod 2 ^ bits = low mod 2 ^ bits ->
  merge op width (old mod 2 ^ width) x mod 2 ^ width = insert_low size old low mod 2 ^ width.
Proof using Hwidth.
  intros Hold E. pose proof slice_bits_range as [Hr Hs].
  assert (Ha : is_u32 (old mod 2 ^ width)).
  { unfold is_u32 in *. pose proof (Z.mod_pos_bound old (2 ^ width) ltac:(lia)).
    assert (2 ^ width <= 2 ^ 32) by (apply Z.pow_le_mono_r; lia). lia. }
  rewrite merge_sum, Z.mod_mod by (done || lia). rewrite E, mod_mod_pow by lia.
  unfold insert_low. rewrite !wrap_bits. unfold slice_bits in *. destruct (Z.le_gt_cases (size_bits size) width).
  - rewrite Z.min_l by done. rewrite <- Zplus_mod_idemp_l, Zminus_mod_idemp_l, Zplus_mod_idemp_l. done.
  - rewrite Z.min_r, Z.sub_diag, Z.add_0_l, Z.mod_mod by lia.
    assert (Hs32 : size_bits size = 32) by (destruct size; cbn in *; lia). rewrite Hs32.
    rewrite (Z.mod_small old) by done. rewrite Z.sub_diag, Z.add_0_l, mod_mod_pow by lia. done.
Qed.

Lemma merge_wrap old x low : is_u32 old -> wrap size x = wrap size low ->
  merge op width (old mod 2 ^ width) x mod 2 ^ width = insert_low size old low mod 2 ^ width.
Proof using Hwidth.
  intros Hold E. pose proof slice_bits_range. apply merge_insert; [done|].
  rewrite !wrap_bits in E. rewrite <- (mod_mod_pow x bits (size_bits size)), E, mod_mod_pow by lia. done.
Qed.
End Merge.

(** * The images of the two-operand kinds *)

Lemma addition_result source destination size :
  sum_result (m68k_evaluate_addition source destination size) = wrap size (destination + source).
Proof.
  unfold m68k_evaluate_addition. cbn [sum_result]. rewrite !land_width_mask, wrap_u32. unfold wrap. by rewrite <- Zplus_mod.
Qed.

Lemma subtraction_result source destination size :
  sum_result (m68k_evaluate_subtraction source destination size) = wrap size (destination - source).
Proof. rewrite evaluate_subtraction_spec. cbn [sum_result]. unfold wrap. by rewrite <- Zminus_mod. Qed.

Section Images.
Context (op : M68kIrOperation) (width : Z) (Hwidth : width = 16 \/ width = 32).
#[local] Abbreviation size := (op_size op).
#[local] Abbreviation bits := (slice_bits op width).

(** The two operands, cut to the tracked widths, are congruent to the whole ones. *)
Lemma cut_operands old source :
  (old mod 2 ^ width) mod 2 ^ bits = old mod 2 ^ bits /\ (source mod 2 ^ bits) mod 2 ^ bits = source mod 2 ^ bits.
Proof using Hwidth.
  pose proof (slice_bits_range op width Hwidth). rewrite Z.mod_mod by lia. split; [apply mod_mod_pow; lia|done].
Qed.

Lemma wrap_slice x : wrap size x mod 2 ^ bits = x mod 2 ^ bits.
Proof using Hwidth. pose proof (slice_bits_range op width Hwidth). rewrite wrap_bits. apply mod_mod_pow. lia. Qed.

Lemma u32_slice x : u32 x mod 2 ^ bits = x mod 2 ^ bits.
Proof using Hwidth. pose proof (slice_bits_range op width Hwidth). apply (mod_mod_pow x bits 32). lia. Qed.

Lemma binary_image old source low : is_u32 old -> op_kind op <> IR_write_move ->
  binary_result (op_kind op) size source old = Some low ->
  alu_value op width (old mod 2 ^ width) (source mod 2 ^ bits) mod 2 ^ width = insert_low size old low mod 2 ^ width.
Proof using Hwidth.
  intros Hold Hk Hb. destruct (cut_operands old source) as [Eo Es]. pose proof (slice_bits_range op width Hwidth) as Hr.
  unfold alu_value. destruct (op_kind op); try discriminate Hb; try done; cbn [binary_result] in Hb;
    apply (inj Some) in Hb as <-; apply merge_insert; rewrite ?addition_result, ?subtraction_result; unfold m68k_evaluate_logical;
    cbn [lr_result]; rewrite ?land_width_mask, ?wrap_slice, ?u32_slice; try done.
  1-3: rewrite Zplus_mod, Eo, Es; by rewrite <- Zplus_mod.
  1-3: rewrite Zminus_mod, Eo, Es; by rewrite <- Zminus_mod.
  1-2: rewrite !land_mod by lia; by rewrite Eo, Es.
  1-2: rewrite !lor_mod by lia; by rewrite Eo, Es.
  all: rewrite !lxor_mod by lia; by rewrite Eo, Es.
Qed.

(** When the source is the register itself the two cut values coincide. *)
Lemma binary_image_same old low : is_u32 old -> op_kind op <> IR_write_move ->
  binary_result (op_kind op) size (wrap size old) old = Some low ->
  alu_value op width (old mod 2 ^ width) (old mod 2 ^ width) mod 2 ^ width = insert_low size old low mod 2 ^ width.
Proof using Hwidth.
  intros Hold Hk Hb. rewrite <- (binary_image old (wrap size old) low) by done.
  destruct (cut_operands old (wrap size old)) as [Eo Es]. pose proof (slice_bits_range op width Hwidth) as Hr.
  assert (Em : forall x y, x mod 2 ^ bits = y mod 2 ^ bits ->
    merge op width (old mod 2 ^ width) x = merge op width (old mod 2 ^ width) y).
  { intros x y E. unfold merge. by rewrite !(land_low_mask _ bits), E by lia. }
  rewrite wrap_slice in *. unfold alu_value.
  destruct (op_kind op); try discriminate Hb; try done; f_equal; apply Em; rewrite ?u32_slice.
  1-3: rewrite Zplus_mod, (Zplus_mod _ (old mod 2 ^ bits)); by rewrite !Eo, Es.
  1-3: rewrite Zminus_mod, (Zminus_mod _ (old mod 2 ^ bits)); by rewrite !Eo, Es.
  1-2: rewrite !land_mod by lia; by rewrite !Eo, Es.
  1-2: rewrite !lor_mod by lia; by rewrite !Eo, Es.
  all: rewrite !lxor_mod by lia; by rewrite !Eo, Es.
Qed.

(** * Shifts *)

Lemma shift_value_merge count old :
  shift_value op width count (old mod 2 ^ width) =
    merge op width (old mod 2 ^ width)
      match op_shift_rotate_kind op with
      | SR_lsl | SR_asl => if 32 <=? count then 0 else u32 ((old mod 2 ^ width) .<< count)
      | SR_lsr => if 32 <=? count then 0 else ((old mod 2 ^ width) .& low_mask (size_bits size)) .>> count
      | _ =>
          u32 (i32 (sign_extend ((old mod 2 ^ width) .& low_mask (size_bits size)) (size_bits size)) .>>
            (if 31 <=? count then 31 else count))
      end.
Proof using Hwidth.
  pose proof (size_bits_range size) as Hsize.
  assert (Ha : is_u32 (old mod 2 ^ width)).
  { unfold is_u32. pose proof (Z.mod_pos_bound old (2 ^ width) ltac:(lia)).
    assert (2 ^ width <= 2 ^ 32) by (apply Z.pow_le_mono_r; lia). lia. }
  unfold shift_value. match goal with |- (if _ then ?r .& _ else _) = _ => generalize r end. intros result.
  unfold merge, slice_bits. destruct (Z.leb_spec width (size_bits size)).
  - rewrite Z.min_r, land_not_low_mask, !land_low_mask, Z.mod_mod, Z.sub_diag, Z.lor_0_l, Z.mod_mod by (done || lia). done.
  - by rewrite Z.min_l by lia.
Qed.
End Images.

Lemma shift_closed kind original count size x : 0 <= count ->
  sh_result (m68k_evaluate_shift_rotate kind original count size x) =
    let v := wrap size original in
    match kind with
    | SR_lsl | SR_asl => wrap size (v * 2 ^ count)
    | SR_lsr => v / 2 ^ count
    | SR_asr => wrap size (signed size v / 2 ^ count)
    | _ => sh_result (m68k_evaluate_shift_rotate kind original count size x)
    end.
Proof.
  intros Hc. destruct kind; try done; unfold m68k_evaluate_shift_rotate; rewrite land_width_mask;
    pose proof (wrap_range size original) as Hv; cbn [sh_result].
  - by rewrite shift_lsl_exact, lsl_steps, Z2Nat.id.
  - by rewrite shift_lsr_exact, lsr_steps, Z2Nat.id.
  - by rewrite shift_asl_exact, asl_steps, Z2Nat.id.
  - by rewrite shift_asr_exact, asr_steps, Z2Nat.id.
Qed.

Lemma div_large v count : 0 <= v < 2 ^ 32 -> 32 <= count -> v / 2 ^ count = 0.
Proof. intros Hv Hc. apply Z.div_small. pose proof (Z.pow_le_mono_r 2 32 count). lia. Qed.

(** An arithmetic shift saturates at 31. *)
Lemma div_saturates z count : - 2 ^ 31 <= z < 2 ^ 31 -> 31 <= count -> z / 2 ^ count = z / 2 ^ 31.
Proof.
  intros Hz Hc. pose proof (Z.pow_le_mono_r 2 31 count ltac:(lia) Hc) as Hp.
  destruct (Z.leb_spec 0 z).
  - by rewrite !Z.div_small by lia.
  - rewrite <- (Z.div_unique z (2 ^ count) (-1) (z + 2 ^ count)), <- (Z.div_unique z (2 ^ 31) (-1) (z + 2 ^ 31)); lia.
Qed.

Lemma i32_sign_extend x size : i32 (sign_extend (wrap size x) (size_bits size)) = signed size (wrap size x).
Proof.
  pose proof (wrap_range size x) as Hw. set (v := wrap size x) in *. unfold signed, modulus in *.
  rewrite !width_bits_size in *. destruct size; cbn [size_bits] in *;
    [rewrite sign_extend_exact by lia|rewrite sign_extend_exact by lia|unfold sign_extend; cbn [Z.leb Z.compare Pos.compare Pos.compare_cont]];
    rewrite ?(Z.mod_small v) by lia; clearbody v;
    repeat match goal with
    | |- context [2 ^ ?e] => let p := eval vm_compute in (2 ^ e) in change (2 ^ e) with p
    | H : context [2 ^ ?e] |- _ => let p := eval vm_compute in (2 ^ e) in change (2 ^ e) with p in H
    end;
    match goal with |- context [?p <=? v] => destruct (Z.leb_spec p v) end;
    unfold i32, u32; Z.to_euclidean_division_equations; lia.
Qed.

Section ShiftImage.
Context (op : M68kIrOperation) (width : Z) (Hwidth : width = 16 \/ width = 32).
#[local] Abbreviation size := (op_size op).
#[local] Abbreviation bits := (slice_bits op width).

Lemma left_slice old count : 0 <= count ->
  (if 32 <=? count then 0 else u32 ((old mod 2 ^ width) .<< count)) mod 2 ^ bits =
    wrap size (wrap size old * 2 ^ count) mod 2 ^ bits.
Proof using Hwidth.
  intros Hc. pose proof (slice_bits_range op width Hwidth). destruct (cut_operands op width Hwidth old old) as [Eo _].
  rewrite wrap_slice, Z.mul_mod, wrap_slice by (done || lia). destruct (Z.leb_spec 32 count).
  - assert (E : 2 ^ count mod 2 ^ bits = 0).
    { apply Z.mod_divide; [lia|]. exists (2 ^ (count - bits)). rewrite <- Z.pow_add_r by lia. f_equal. lia. }
    by rewrite E, Z.mul_0_r.
  - rewrite u32_slice, Z.shiftl_mul_pow2, Z.mul_mod by (done || lia). by rewrite Eo.
Qed.

Lemma operation_slice old : size_bits size <= width -> (old mod 2 ^ width) .& low_mask (size_bits size) = wrap size old.
Proof using Type.
  intros H. pose proof (size_bits_range size). rewrite land_low_mask, wrap_bits by lia. apply mod_mod_pow. lia.
Qed.

Lemma shift_image old count x : is_u32 old -> 0 <= count ->
  (op_shift_rotate_kind op = SR_lsl \/ op_shift_rotate_kind op = SR_asl \/
   (op_shift_rotate_kind op = SR_lsr \/ op_shift_rotate_kind op = SR_asr) /\ size_bits size <= width) ->
  shift_value op width count (old mod 2 ^ width) mod 2 ^ width =
    insert_low size old (sh_result (m68k_evaluate_shift_rotate (op_shift_rotate_kind op) old count size x)) mod 2 ^ width.
Proof using Hwidth.
  intros Hold Hc Hk. rewrite shift_value_merge, shift_closed by done. cbv zeta.
  pose proof (slice_bits_range op width Hwidth). pose proof (wrap_range size old) as Hw.
  pose proof (size_bits_range size). unfold modulus in Hw. rewrite width_bits_size in Hw.
  assert (H32 : 2 ^ size_bits size <= 2 ^ 32) by (apply Z.pow_le_mono_r; lia).
  destruct Hk as [-> | [-> | [Hk Hs]]]; [by apply merge_insert, left_slice|by apply merge_insert, left_slice|].
  rewrite operation_slice by done. destruct Hk as [-> | ->]; apply merge_insert; try done.
  - destruct (Z.leb_spec 32 count); [by rewrite div_large by lia|]. by rewrite Z.shiftr_div_pow2 by lia.
  - rewrite u32_slice, wrap_slice, i32_sign_extend by done. f_equal.
    assert (Hsig : - 2 ^ 31 <= signed size (wrap size old) < 2 ^ 31).
    { pose proof (proj1 (signed_bounds size (wrap size old) (wrap_range size old))) as Hb.
      assert (2 ^ (width_bits size - 1) <= 2 ^ 31) by (apply Z.pow_le_mono_r; rewrite ?width_bits_size; lia). lia. }
    destruct (Z.leb_spec 31 count); rewrite Z.shiftr_div_pow2 by lia; [|done]. symmetry. by apply div_saturates.
Qed.
End ShiftImage.

(** * Submasks *)

(** The submasks of the low [n] bits of [c]. *)
Fixpoint submask_list (n : nat) (c : Z) : list Z :=
  match n with
  | O => [0]
  | S n =>
      let rest := submask_list n (c / 2) in
      map (Z.mul 2) rest ++ (if Z.odd c then map (fun s => 2 * s + 1) rest else [])
  end.

Lemma submask_list_complete n c s : 0 <= c < 2 ^ Z.of_nat n -> s .& c = s -> s ∈ submask_list n c.
Proof.
  revert c s. induction n as [|n IH]; intros c s Hc Hs.
  - change (2 ^ Z.of_nat 0) with 1 in Hc. replace c with 0 in Hs by lia. rewrite Z.land_0_r in Hs. subst s. by left.
  - rewrite Nat2Z.inj_succ, Z.pow_succ_r in Hc by lia.
    assert (Hh : (s / 2) .& (c / 2) = s / 2) by (rewrite <- !Z.div2_div, !Z.div2_spec, <- Z.shiftr_land; by f_equal).
    pose proof (IH (c / 2) (s / 2) ltac:(Z.to_euclidean_division_equations; lia) Hh) as H.
    assert (Hb : Z.odd s && Z.odd c = Z.odd s) by (rewrite <- !Z.bit0_odd, <- Z.land_spec; by f_equal).
    cbn [submask_list]. apply elem_of_app. pose proof (Z.div_mod s 2 ltac:(lia)) as E. rewrite Zmod_odd in E.
    destruct (Z.odd s) eqn:Os.
    + right. rewrite Hb || (destruct (Z.odd c); [|discriminate Hb]). rewrite E. by apply (list_elem_of_fmap_2 (fun s => 2 * s + 1)).
    + left. rewrite E, Z.add_0_r. by apply (list_elem_of_fmap_2 (Z.mul 2)).
Qed.

Lemma submask_list_length n c : 0 <= c -> zlen (submask_list n c) = 2 ^ count_ones n c.
Proof.
  revert c. induction n as [|n IH]; intros c Hc; [done|]. cbn [submask_list count_ones].
  destruct (Z.eqb_spec c 0) as [->|Hne].
  - cbn [Z.odd]. rewrite app_nil_r. unfold zlen. rewrite length_fmap. change (0 / 2) with 0.
    fold (zlen (submask_list n 0)). rewrite IH by lia. destruct n; done.
  - rewrite zlen_app. unfold zlen at 1. rewrite length_fmap. fold (zlen (submask_list n (c / 2))).
    assert (E : c .& 1 = Z.b2z (Z.odd c)).
    { pose proof (land_ones_mod c 1 ltac:(lia)) as E. change (2 ^ 1 - 1) with 1 in E. rewrite E, Z.pow_1_r, Zmod_odd. by destruct (Z.odd c). }
    rewrite E, Z.shiftr_div_pow2, Z.pow_1_r, Z.pow_add_r, IH by (lia || (try apply count_ones_range); try (destruct (Z.odd c); cbn; lia); try apply Z.div_pos; lia).
    destruct (Z.odd c); cbn [Z.b2z]; [|by rewrite Z.pow_0_r, Z.mul_1_l; unfold zlen; cbn; lia].
    unfold zlen. rewrite length_fmap. fold (zlen (submask_list n (c / 2))). rewrite IH by (apply Z.div_pos; lia). lia.
Qed.

(** The next submask of the loop: nothing lies between. *)
Lemma next_submask c s t : 0 <= c -> 0 <= t < s -> s .& c = s -> t .& c = t -> t <= (s - 1) .& c.
Proof.
  intros Hc Hts. assert (Hs0 : 0 <= s) by lia. revert c t Hc Hts. pattern s. revert s Hs0.
  apply Z_lt_induction. intros s IH c t Hc Hts Hs Ht.
  rewrite (land_halves s c) in Hs. rewrite (land_halves t c) in Ht. rewrite (land_halves (s - 1) c).
  pose proof (Z.div_mod s 2 ltac:(lia)) as Es. pose proof (Z.div_mod t 2 ltac:(lia)) as Et. rewrite Zmod_odd in Es, Et.
  destruct (Z.odd s) eqn:Os.
  - assert (E : (s - 1) / 2 = s / 2) by (Z.to_euclidean_division_equations; lia). rewrite E.
    destruct (Z.odd c); cbn [andb Z.b2z] in Hs; rewrite Z.odd_sub, Os; cbn; lia.
  - assert (E : (s - 1) / 2 = s / 2 - 1) by (Z.to_euclidean_division_equations; lia). rewrite E.
    assert (Hh : t / 2 <= (s / 2 - 1) .& (c / 2)).
    { apply IH; [lia|Z.to_euclidean_division_equations; lia| |cbn [andb Z.b2z] in Hs; lia|].
      - split; [Z.to_euclidean_division_equations; lia|]. destruct (Z.odd t); lia.
      - destruct (Z.odd t), (Z.odd c); cbn [andb Z.b2z] in Ht; lia. }
    rewrite Z.odd_sub, Os. destruct (Z.odd t), (Z.odd c); cbn [andb xorb Z.odd Z.b2z] in *; lia.
Qed.

Section Submasks.
Context (c : Z) (Hc : is_u32 c).

Lemma submask_step s : 0 < s -> s .& c = s ->
  let next := u32 (s - 1) .& c in next .& c = next /\ 0 <= next < s.
Proof using Hc.
  unfold is_u32 in Hc. intros Hpos Hs. cbv zeta.
  assert (s <= c) by (rewrite <- Hs, Z.land_comm; apply land_le; lia).
  rewrite u32_id by (unfold is_u32; lia). pose proof (land_le (s - 1) c). split; [|lia].
  by rewrite <- Z.land_assoc, Z.land_diag.
Qed.

(** The loop lists submasks, downwards. *)
Lemma submasks_sound fuel s : 0 <= s -> s .& c = s ->
  Forall (fun x => 0 <= x <= s /\ x .& c = x) (submasks fuel c s) /\ NoDup (submasks fuel c s).
Proof using Hc.
  revert s. induction fuel as [|fuel IH]; intros s Hs Hsc; cbn [submasks]; [split; constructor|].
  destruct (Z.eqb_spec s 0) as [->|Hne]; [split; [by repeat constructor|apply NoDup_singleton]|].
  destruct (submask_step s) as [Hn Hr]; [lia|done|]. destruct (IH _ (proj1 Hr) Hn) as [Hf Hd].
  assert (Hlt : Forall (fun x => 0 <= x < s /\ x .& c = x) (submasks fuel c (u32 (s - 1) .& c))).
  { eapply Forall_impl; [exact Hf|]. cbn. intros x Hx. lia. }
  split; constructor; [lia|eapply Forall_impl; [exact Hlt|cbn; lia]| |done].
  rewrite Forall_forall in Hlt. intros Hin. specialize (Hlt s Hin). lia.
Qed.

(** With fuel for every submask the loop lists them all. *)
Lemma submasks_reach fuel s t : 0 <= t <= s -> s .& c = s -> t .& c = t ->
  t ∈ submasks fuel c s \/ length (submasks fuel c s) = fuel /\ Forall (Z.lt t) (submasks fuel c s).
Proof using Hc.
  revert s. induction fuel as [|fuel IH]; intros s Ht Hs Htc; cbn [submasks]; [right; by split|].
  destruct (decide (t = s)) as [->|Hne]; [left; by left|].
  rewrite (proj2 (Z.eqb_neq s 0)) by lia. destruct (submask_step s) as [Hn Hr]; [lia|done|].
  assert (Hle : t <= u32 (s - 1) .& c).
  { unfold is_u32 in Hc. assert (s <= c) by (rewrite <- Hs, Z.land_comm; apply land_le; lia).
    rewrite u32_id by (unfold is_u32; lia). apply next_submask; lia. }
  destruct (IH (u32 (s - 1) .& c)) as [Hin|[Hl Hf]]; [lia|done|done|left; by right|].
  right. split; [by cbn; f_equal|]. constructor; [lia|done].
Qed.

Lemma submasks_complete n fuel t : c < 2 ^ Z.of_nat n -> 2 ^ count_ones n c <= Z.of_nat fuel -> 0 <= t -> t .& c = t -> t ∈ submasks fuel c c.
Proof using Hc.
  intros Hn Hfuel Ht Htc. unfold is_u32 in Hc. assert (Hcc : c .& c = c) by apply Z.land_diag.
  assert (t <= c) by (rewrite <- Htc, Z.land_comm; apply land_le; lia).
  destruct (submasks_reach fuel c t) as [Hin|[Hl Hf]]; [lia|done..|].
  destruct (submasks_sound fuel c ltac:(lia) Hcc) as [Hs Hd]. rewrite Forall_forall in Hf, Hs.
  assert (Hnd : NoDup (t :: submasks fuel c c)) by (constructor; [intros Hin; specialize (Hf t Hin); lia|done]).
  pose proof (submask_list_length n c ltac:(lia)) as Hlen.
  assert (Hsub : (length (t :: submasks fuel c c) <= length (submask_list n c))%nat).
  { apply submseteq_length, NoDup_submseteq; [done|]. intros x Hx. apply elem_of_cons in Hx as [->|Hx].
    - apply submask_list_complete; [lia|done].
    - destruct (Hs x Hx). apply submask_list_complete; [lia|done]. }
  cbn [length] in Hsub. unfold zlen in Hlen. lia.
Qed.
End Submasks.

(** * Sources *)

Lemma size_bytes_bits size : size_bits size / 8 = Z.of_nat (size_bytes size).
Proof. by destruct size. Qed.

Section Sound.
Context (m : Machine) (Hm : machine_ok m) `{Inputs : M68kFiniteValueInputs}.

(** What the caller's inputs promise. *)
Record inputs_sound : Prop := {
  before_sound : forall r w, 0 <= r < 8 -> w = 16 \/ w = 32 -> contains w (data_register_before r w) (data_register m r);
  read_sound : forall address size v, 0 <= address < 2 ^ 24 ->
    immutable_read address (Z.of_nat (size_bytes size)) = Some v -> v = read_be (bus_byte m) address (size_bytes size);
}.

Context (Hin : inputs_sound).

Lemma land_24 x : x .& 0x00FFFFFF = x mod 2 ^ 24.
Proof using Type. apply (land_ones_mod x 24). lia. Qed.

(** The address computed from the tracked part of the index is the operand's. *)
Lemma pc_index_address_exact ea value : ea_index_is_address ea = false ->
  value = data_register m (ea_index_reg ea) mod 2 ^ (if ea_index_is_long ea then 32 else 16) ->
  m68k_pc_index_address ea value = (ea_pc_base_address ea + ea_displacement ea + index_value m ea) mod 2 ^ 24.
Proof using Hm.
  intros Ha ->. unfold m68k_pc_index_address, index_value. rewrite Ha, land_24.
  assert (E : forall x y, u32 x mod 2 ^ 24 = y mod 2 ^ 24 <-> x mod 2 ^ 24 = y mod 2 ^ 24).
  { intros x y. unfold u32. change 4294967296 with (2 ^ 32). by rewrite mod_mod_pow by lia. }
  apply E. pose proof (data_u32 m Hm (ea_index_reg ea)) as Hd. set (d := data_register m _) in *.
  assert (Hu : forall x, u32 x mod 2 ^ 24 = x mod 2 ^ 24) by (intros x; by apply E).
  rewrite Zplus_mod, (Zplus_mod (ea_pc_base_address ea) (u32 _)), Hu, <- (Zplus_mod (ea_pc_base_address ea)).
  rewrite (Zplus_mod _ (if ea_index_is_long ea then d else i16 d)). f_equal. f_equal.
  destruct (ea_index_is_long ea); [by rewrite (Z.mod_small d)|].
  rewrite sign_extend_16, Hu. f_equal. unfold i16. change (2 ^ 16) with 65536. by rewrite Zplus_mod_idemp_l.
Qed.

(** Every even (or byte) entry of a table is read. *)
Lemma read_table_spec ea size mask index : forall values t out t',
  read_table ea (size_bits size) mask index values t = (Some out, t') ->
  (forall x, x ∈ values -> x ∈ out) /\
  forall value, value ∈ index -> size = W_byte \/ m68k_pc_index_address ea value mod 2 = 0 ->
    exists read, immutable_read (m68k_pc_index_address ea value) (Z.of_nat (size_bytes size)) = Some read /\
      (read .& mask) ∈ out.
Proof using Type.
  induction index as [|value index IH]; intros values t out t' E; cbn [read_table] in E.
  - injection E as <- <-. split; [done|]. intros value Hv. by apply not_elem_of_nil in Hv.
  - rewrite size_bytes_bits in E. assert (Hodd : forall a, a .& 1 = a mod 2) by (intros a; apply (land_ones_mod a 1); lia).
    rewrite Hodd in E.
    destruct ((8 <? size_bits size) && negb (m68k_pc_index_address ea value mod 2 =? 0)) eqn:Eodd.
    + destruct (IH _ _ _ _ E) as [Hv Hi]. split; [done|]. intros v Hin' Hok. apply elem_of_cons in Hin' as [->|Hin']; [|by apply Hi].
      apply andb_true_iff in Eodd as [Eb Eo]. apply negb_true_iff, Z.eqb_neq in Eo. by destruct Hok as [-> |].
    + destruct (immutable_read _ _) as [read|] eqn:Er; [|discriminate E]. destruct (IH _ _ _ _ E) as [Hv Hi].
      split; [intros x Hx; apply Hv, elem_of_app; by left|].
      intros v Hin' Hok. apply elem_of_cons in Hin' as [->|Hin']; [|by apply Hi].
      exists read. split; [done|]. apply Hv, elem_of_app. right. by left.
Qed.

Section Operand.
Context (ea : M68kEffectiveAddress) (size : M68kMemoryAccessWidth) (width reg s : Z).
Context (Hwidth : width = 16 \/ width = 32) (Hreg : 0 <= ea_reg ea < 8) (Hindex : 0 <= ea_index_reg ea < 8).
Context (Hs : operand_value m ea size = Some s).
#[local] Abbreviation bits := (Z.min (size_bits size) width).

Definition source_sound (source : Source) : Prop :=
  contains width (src_values source) (s mod 2 ^ bits) /\
  (src_same_register source = true -> is_data_register ea reg = true /\ src_values source = unknown).

Lemma no_source_sound : source_sound no_source.
Proof using Type. split; [apply contains_unknown|intros H; discriminate H]. Qed.

Lemma values_sound values proof : contains width values (s mod 2 ^ bits) -> source_sound (mkSourceValues values proof false).
Proof using Type. intros H. split; [exact H|intros E; discriminate E]. Qed.

Lemma bits_range : 0 < bits <= 32 /\ bits <= size_bits size /\ bits <= width.
Proof using Hwidth. pose proof (size_bits_range size). lia. Qed.

Lemma read_cut read : read = s -> source_sound (mkSourceValues (of_values [read .& low_mask bits] width) proof_immutable_load false).
Proof using Hwidth.
  intros ->. pose proof bits_range. apply values_sound, (of_values_contains width Hwidth _ (s .& low_mask bits)); [by left|].
  by rewrite land_low_mask by lia.
Qed.

Lemma byte_rule_sound mode : (is_Some (operand_address m ea size)) -> source_sound (byte_rule mode (size_bits size) width).
Proof using Hm Hs Hwidth.
  intros [address Ha]. unfold byte_rule. destruct (_ && _) eqn:E; [|apply no_source_sound].
  apply andb_true_iff in E as [_ E]. apply Z.eqb_eq in E. assert (Hb : 0 <= s < 2 ^ size_bits size).
  { unfold operand_value in Hs. rewrite Ha in Hs. unfold operand_address in Ha. rewrite E.
    assert (Esize : size = W_byte) by (by destruct size). rewrite Esize in Hs.
    destruct (ea_mode ea); try discriminate Ha; cbn in Hs; injection Hs as <-;
      pose proof (read_be_range (bus_byte m) 1 address (bus_u8 m Hm)) as Hr; cbn in Hr; lia. }
  apply values_sound, set_width_derived_contains. rewrite E, Z.min_l, <- E, Z.mod_small by (done || lia).
  apply (of_values_contains width Hwidth _ s); [|done]. apply elem_of_seqZ. rewrite E in Hb. lia.
Qed.

(** A byte, or an aligned address: what a read that does not fault has. *)
Lemma read_value address : operand_address m ea size = Some address ->
  s = read_be (bus_byte m) address (size_bytes size) /\ (size = W_byte \/ address mod 2 = 0).
Proof using Hs.
  intros Ha. unfold operand_value in Hs. rewrite Ha in Hs.
  assert (Hs' : (if negb (size =b W_byte) && (address mod 2 =? 1) then None
                 else Some (read_be (bus_byte m) address (size_bytes size))) = Some s).
  { unfold operand_address in Ha. by destruct (ea_mode ea). }
  destruct (negb (size =b W_byte) && (address mod 2 =? 1)) eqn:E; [discriminate Hs'|]. injection Hs' as <-. split; [done|].
  destruct (bool_decide_reflect (size = W_byte)) as [Hb|Hb]; [by left|right]. cbn [negb andb] in E.
  apply Z.eqb_neq in E. pose proof (Z.mod_pos_bound address 2). lia.
Qed.

Lemma mod_2_24 x : (x mod 2 ^ 24) mod 2 = x mod 2.
Proof using Type. apply (mod_mod_pow x 1 24). lia. Qed.

(** A read at the 24-bit address of the operand. *)
Lemma immutable_value address read : operand_address m ea size = Some address ->
  immutable_read (address mod 2 ^ 24) (Z.of_nat (size_bytes size)) = Some read -> read = s.
Proof using Hs Hin.
  intros Ha Hr. destruct (read_value address Ha) as [-> _]. rewrite read_be_mirror.
  apply (read_sound Hin); [apply Z.mod_pos_bound; lia|done].
Qed.

Lemma absolute_sound t : operand_address m ea size = Some (ea_absolute_address ea) ->
  let address := ea_absolute_address ea .& 0x00FFFFFF in
  source_sound
    (if (8 <? size_bits size) && negb (address .& 1 =? 0) then (no_source, t)
     else
       match immutable_read address (size_bits size / 8) with
       | Some read =>
           (mkSourceValues (of_values [read .& low_mask bits] width) proof_immutable_load false, count_table_read t)
       | None => (byte_rule (ea_mode ea) (size_bits size) width, t)
       end).1.
Proof using All.
  intros Ha. cbv zeta. destruct (_ && _); [apply no_source_sound|]. rewrite land_24, size_bytes_bits.
  destruct (immutable_read _ _) as [read|] eqn:Er; [|apply byte_rule_sound; by eexists].
  apply read_cut. by eapply immutable_value.
Qed.

Lemma table_sound t : ea_mode ea = EA_pc_index8 -> ea_index_is_address ea = false ->
  source_sound
    (let index := data_register_before (ea_index_reg ea) (if ea_index_is_long ea then 32 else 16) in
     if negb (fv_known index) then (no_source, t)
     else
       match read_table ea (size_bits size) (low_mask bits) (fv_values index) [] t with
       | (None, t) => (no_source, t)
       | (Some values, t) =>
           let values := of_values values width in
           (mkSourceValues (set_width_derived (fv_known values && fv_width_derived index) values)
              proof_immutable_load false, t)
       end).1.
Proof using All.
  intros Hmode Hia. cbv zeta. set (w := if ea_index_is_long ea then 32 else 16).
  pose proof (before_sound Hin (ea_index_reg ea) w Hindex ltac:(unfold w; destruct (ea_index_is_long ea); lia)) as Hc.
  destruct (data_register_before _ w) as [[] vs d]; cbn [negb]; [|apply no_source_sound].
  specialize (Hc eq_refl). cbn [fv_values] in *.
  destruct (read_table _ _ _ _ _ _) as [[out|] t'] eqn:Et; [|apply no_source_sound].
  apply values_sound, set_width_derived_contains. destruct (read_table_spec _ _ _ _ _ _ _ _ Et) as [_ Hall].
  set (v := data_register m (ea_index_reg ea) mod 2 ^ w) in *.
  assert (Ea : operand_address m ea size = Some (ea_pc_base_address ea + ea_displacement ea + index_value m ea)).
  { unfold operand_address. by rewrite Hmode. }
  assert (Ep : m68k_pc_index_address ea v = (ea_pc_base_address ea + ea_displacement ea + index_value m ea) mod 2 ^ 24)
    by by apply pc_index_address_exact.
  destruct (read_value _ Ea) as [_ Heven]. pose proof bits_range.
  destruct (Hall v Hc) as (read & Er & Hr). { rewrite Ep, mod_2_24. exact Heven. }
  rewrite Ep in Er. apply (immutable_value _ _ Ea) in Er as ->.
  apply (of_values_contains width Hwidth _ _ _ Hr). by rewrite land_low_mask by lia.
Qed.

Lemma read_source_sound t : source_sound (read_source ea reg bits width t (size_bits size)).1.
Proof using All.
  pose proof bits_range as Hb. unfold read_source. cbv zeta.
  destruct (ea_mode ea) eqn:Hmode; cbn [fst];
    try (apply byte_rule_sound; unfold operand_address; rewrite Hmode; by eexists); try apply no_source_sound.
  - destruct (Z.eqb_spec (ea_reg ea) reg) as [Er|Er]; cbn [fst].
    + split; [apply contains_unknown|intros _]. unfold is_data_register. rewrite Hmode, Er, Z.eqb_refl. done.
    + apply values_sound. unfold operand_value in Hs. rewrite Hmode in Hs. injection Hs as <-.
      apply (map_values_contains width Hwidth _ _ (data_register m (ea_reg ea))); [by apply (before_sound Hin)|].
      by rewrite land_low_mask, wrap_bits, (mod_mod_pow _ bits width), (mod_mod_pow _ bits (size_bits size)) by lia.
  - rewrite <- Hmode. apply absolute_sound. unfold operand_address. by rewrite Hmode.
  - rewrite <- Hmode. apply absolute_sound. unfold operand_address. by rewrite Hmode.
  - rewrite <- Hmode. apply absolute_sound. unfold operand_address. by rewrite Hmode.
  - apply values_sound. unfold operand_value in Hs. rewrite Hmode in Hs. injection Hs as <-.
    apply (of_values_contains width Hwidth _ (ea_immediate_value ea .& low_mask bits)); [by left|].
    by rewrite land_low_mask, wrap_bits, (mod_mod_pow _ bits (size_bits size)) by lia.
  - destruct (ea_index_is_address ea) eqn:Hia; [apply no_source_sound|]. by apply table_sound.
Qed.
End Operand.

(** Reading a source leaves the rest of the transfer alone. *)
Definition same_outcome (t t' : M68kFiniteTransfer) : Prop :=
  ft_writes t' = ft_writes t /\ ft_values t' = ft_values t.

Lemma read_table_outcome ea access_bits mask index : forall values t,
  same_outcome t (read_table ea access_bits mask index values t).2.
Proof using Type.
  induction index as [|value index IH]; intros values t; cbn [read_table]; [done|].
  destruct (_ && _); [apply (IH values (count_misaligned t))|]. destruct (immutable_read _ _); [|done].
  apply (IH _ (count_table_read t)).
Qed.

Lemma read_source_outcome ea reg bits width t access_bits :
  same_outcome t (read_source ea reg bits width t access_bits).2.
Proof using Type.
  unfold read_source. cbv zeta.
  destruct (ea_mode ea); cbn [snd]; try done; repeat match goal with
    | |- context [if ?b then _ else _] => destruct b; cbn [snd]; try done
    | |- context [match immutable_read ?a ?n with _ => _ end] => destruct (immutable_read a n); cbn [snd]; try done
    end.
  all: match goal with |- context [read_table ?e ?b ?k ?i ?vs ?u] =>
    pose proof (read_table_outcome e b k i vs u) as Ht; destruct (read_table e b k i vs u) as [[out|] t'] end; exact Ht.
Qed.
End Sound.

(** * The write footprint *)

Lemma register_bit_set r : 0 <= r < 8 -> Z.testbit (register_bit r) r = true.
Proof.
  intros Hr. unfold register_bit, u8. change 256 with (2 ^ 8). rewrite Z.mod_pow2_bits_low, Z.shiftl_1_l by lia.
  apply Z.pow2_bits_true. lia.
Qed.

(** What an effect's mask contains: the bits of its kind and of a Dn destination. *)
Lemma data_mask_contains op r :
  (Z.testbit (oe_data_register_write_mask (effect_of_kind op)) r = true \/
   0 <= r < 8 /\ is_data_register (op_destination_ea op) r = true /\ destination_only_read (op_kind op) = false) ->
  Z.testbit (oe_data_register_write_mask (m68k_operation_effect op)) r = true.
Proof.
  intros H. unfold m68k_operation_effect. cbv zeta.
  assert (Hea : forall ea e, oe_data_register_write_mask (note_ea_auto_update ea e) = oe_data_register_write_mask e).
  { intros. unfold note_ea_auto_update. by destruct (_ && _). }
  set (e2 := note_ea_auto_update (op_destination_ea op) _).
  assert (E2 : oe_data_register_write_mask e2 = oe_data_register_write_mask (effect_of_kind op)).
  { subst e2. by rewrite !Hea. }
  clearbody e2. match goal with |- context [oe_address_register_write ?e] => set (e4 := e) end.
  assert (E4 : Z.testbit (oe_data_register_write_mask e2) r = true -> Z.testbit (oe_data_register_write_mask e4) r = true).
  { intros Hr. subst e4. unfold note_data_register. destruct (oe_register_write e2) as [[]|], (op_kind op);
      cbn; rewrite ?Z.lor_spec, Hr; done. }
  clearbody e4. rewrite E2 in E4. clear E2 Hea.
  match goal with |- context [ea_mode (op_destination_ea op) =b EA_data_register] => idtac end.
  set (e5 := match oe_address_register_write e4 with Some _ => _ | None => _ end).
  assert (E5 : oe_data_register_write_mask e5 = oe_data_register_write_mask e4).
  { subst e5. destruct (oe_address_register_write e4) as [a|]; [by destruct (a <? 8)|done]. }
  clearbody e5. rewrite <- E5 in E4. clear E5 e4.
  set (e6 := if _ && _ then _ else e5).
  assert (E6 : Z.testbit (oe_data_register_write_mask e6) r = true).
  { subst e6. destruct H as [H|(Hr & Hd & Hk)].
    - destruct (_ && _); [|by apply E4]. cbn. by rewrite Z.lor_spec, E4.
    - unfold is_data_register in Hd. apply andb_true_iff in Hd as [-> Hd]. apply Z.eqb_eq in Hd. rewrite Hd, Hk.
      rewrite (proj2 (Z.ltb_lt r 8)) by lia. cbn. by rewrite Z.lor_spec, register_bit_set, orb_true_r. }
  clearbody e6. by destruct (moves_stack_pointer _).
Qed.

Lemma effect_complete op :
  oe_register_write_footprint_complete (m68k_operation_effect op) = footprint_complete (op_kind op).
Proof. unfold m68k_operation_effect. cbv zeta. by destruct (moves_stack_pointer _). Qed.

(** A register whose bit is clear in a complete footprint is not written. *)
Lemma footprint_covers op r : 0 <= r < 8 -> op_kind op <> IR_write_moveq ->
  footprint_complete (op_kind op) = true -> data_writes op r = true ->
  Z.testbit (oe_data_register_write_mask (m68k_operation_effect op)) r = true.
Proof.
  intros Hr Hk Hc Hw. apply data_mask_contains. unfold data_writes in Hw.
  destruct (op_kind op) eqn:E; try discriminate Hc; try discriminate Hw; try done; try (right; split; [exact Hr|by split]).
  apply orb_true_iff in Hw as [Hw|Hw]; [left|right; split; [exact Hr|by split]].
  unfold is_data_register in Hw. apply andb_true_iff in Hw as [Hm Hw]. apply Z.eqb_eq in Hw.
  unfold effect_of_kind, extended_effect. rewrite E. unfold note_exchange. rewrite Hm, Hw.
  rewrite (proj2 (Z.leb_gt 8 r)) by lia. unfold advances.
  destruct (8 <=? _), (ea_mode (op_destination_ea op) =b EA_data_register), (ea_mode (op_destination_ea op) =b EA_address_register);
    cbn; rewrite ?Z.lor_spec, register_bit_set, ?orb_true_r by done; done.
Qed.

(** * Soundness of the transfer *)

Lemma i8_low x n : 8 <= n -> i8 (x mod 2 ^ n) = i8 x.
Proof.
  intros Hn. unfold i8. change 256 with (2 ^ 8). f_equal.
  by rewrite Zplus_mod, (mod_mod_pow x 8 n), <- Zplus_mod by lia.
Qed.

Lemma i16_low x n : 16 <= n -> i16 (x mod 2 ^ n) = i16 x.
Proof.
  intros Hn. unfold i16. change 65536 with (2 ^ 16). f_equal.
  by rewrite Zplus_mod, (mod_mod_pow x 16 n), <- Zplus_mod by lia.
Qed.

Section Transfer.
Context (m : Machine) (Hm : machine_ok m) `{Inputs : M68kFiniteValueInputs} (Hin : inputs_sound m).
Context (op : M68kIrOperation) (reg width : Z) (Hreg : 0 <= reg < 8) (Hwidth : width = 16 \/ width = 32).

#[local] Abbreviation src := (op_source_ea op).
#[local] Abbreviation dst := (op_destination_ea op).
#[local] Abbreviation size := (op_size op).
#[local] Abbreviation old := (data_register m reg).
#[local] Abbreviation bits := (slice_bits op width).

Definition transfer_sound (t : M68kFiniteTransfer) (v : Z) : Prop :=
  if ft_writes t then contains width (ft_values t) v else v = old.

(** A transfer that claims nothing yet. *)
Definition fresh (t : M68kFiniteTransfer) : Prop := ft_writes t = true /\ ft_values t = unknown.

Lemma fresh_sound t v : fresh t -> transfer_sound t v.
Proof using Type. intros [Hw Hv]. unfold transfer_sound. rewrite Hw, Hv. apply contains_unknown. Qed.

Lemma with_values_sound t values proof v : ft_writes t = true -> contains width values v ->
  transfer_sound (with_values values proof t) v.
Proof using Type. intros Hw Hv. unfold transfer_sound, with_values. cbn. by rewrite Hw. Qed.

Lemma old_u32 : is_u32 old.
Proof using Hm. apply (data_u32 m Hm). Qed.

Lemma old_contained : contains width (data_register_before reg width) old.
Proof using Hin Hreg Hwidth. by apply (before_sound m Hin). Qed.

Lemma slice_small s : (s mod 2 ^ bits) mod 2 ^ width = s mod 2 ^ bits.
Proof using Hwidth.
  pose proof (slice_bits_range op width Hwidth). apply Z.mod_small.
  pose proof (Z.mod_pos_bound s (2 ^ bits)). pose proof (Z.pow_le_mono_r 2 bits width). lia.
Qed.

(** [old_values]: the part that [merge] keeps. *)
Lemma old_values_contained : exists old',
  contains width (old_values op reg width) old' /\
  forall x, merge op width (old' mod 2 ^ width) x = merge op width (old mod 2 ^ width) x.
Proof using All.
  pose proof (slice_bits_range op width Hwidth) as Hb. unfold old_values. destruct (Z.leb_spec width bits) as [Hle|_].
  - exists 0. split; [apply (of_values_contains width Hwidth _ 0); [by left|done]|]. intros x.
    assert (Ha : is_u32 (old mod 2 ^ width)).
    { unfold is_u32. pose proof (Z.mod_pos_bound old (2 ^ width) ltac:(lia)).
      pose proof (Z.pow_le_mono_r 2 width 32). lia. }
    assert (bits = width) as E by lia. rewrite Z.mod_0_l by lia. rewrite !merge_sum by (done || lia).
    rewrite E, Z.mod_mod, Z.mod_0_l, !Z.sub_diag by lia. done.
  - exists old. split; [apply old_contained|done].
Qed.

(** The source of an operation that did not fault. *)
Lemma operation_source t s : 0 <= ea_reg src < 8 -> 0 <= ea_index_reg src < 8 -> operand_value m src size = Some s ->
  let r := read_source src reg bits width t (size_bits size) in
  source_sound src size width reg s r.1 /\ same_outcome t r.2.
Proof using All.
  intros Hr Hi Hs. split; [by apply (read_source_sound m Hm Hin)|apply read_source_outcome].
Qed.

Section Kinds.
Context (v : Z) (Hv : data_after m op reg v).
Context (Hsrc : 0 <= ea_reg src < 8) (Hindex : 0 <= ea_index_reg src < 8) (Himm : 0 <= ea_immediate_value src).

Lemma moveq_sound : op_kind op = IR_write_moveq -> transfer_sound (moveq_after op reg width) v.
Proof using All.
  intros Hk. unfold data_after, data_writes, written_value in Hv. rewrite Hk in Hv. unfold moveq_after.
  destruct (_ =? reg); cbn [negb]; [|done]. injection Hv as <-. apply with_values_sound; [done|].
  apply (of_values_contains width Hwidth _ (sign_extend (u8 (op_operand op)) 8)); [by left|].
  rewrite sign_extend_8. do 2 f_equal. apply (i8_low _ 8). lia.
Qed.

Lemma extend_sound (word : bool) : op_kind op = (if word then IR_sign_extend_word else IR_sign_extend_long) ->
  transfer_sound (extend_after op reg width word) v.
Proof using All.
  intros Hk. unfold extend_after. pose proof old_u32 as Hold.
  assert (Hv' : if is_data_register dst reg
                then v = (if word then insert_low W_word old (i8 old) else u32 (i16 old)) else v = old).
  { unfold data_after, data_writes, written_value in Hv. rewrite Hk in Hv.
    destruct word, (is_data_register dst reg); try exact Hv; by injection Hv. }
  destruct (is_data_register dst reg); cbn [negb]; [|done]. apply with_values_sound; [done|].
  apply (map_values_contains width Hwidth _ _ old); [apply old_contained|]. rewrite Hv'. clear Hv Hv'.
  assert (Hu : forall x, u32 x mod 2 ^ width = x mod 2 ^ width) by (intros x; apply (mod_mod_pow x width 32); lia).
  assert (Ha : is_u32 (old mod 2 ^ width)).
  { unfold is_u32 in *. pose proof (Z.mod_pos_bound old (2 ^ width) ltac:(lia)). pose proof (Z.pow_le_mono_r 2 width 32). lia. }
  destruct word; rewrite land_low_mask, Z.mod_mod by lia.
  - change 0xFFFF with (low_mask 16) at 1. rewrite land_not_low_mask by (done || lia).
    change 0xFFFF with (2 ^ 16 - 1). rewrite land_ones_mod, sign_extend_8, lor_disjoint by (lia || (apply Z.mod_pos_bound; lia)).
    rewrite i8_low, mod_mod_pow by lia. unfold insert_low. rewrite !wrap_bits. cbn [size_bits].
    rewrite <- Zplus_mod_idemp_l, Zminus_mod_idemp_l, Zplus_mod_idemp_l. do 2 f_equal.
    apply (mod_mod_pow (i8 old) 16 32). lia.
  - rewrite sign_extend_16, i16_low by lia. done.
Qed.

Lemma clear_sound t : op_kind op = IR_write_clr -> fresh t -> transfer_sound (clear_after op reg width t) v.
Proof using All.
  intros Hk Ht. unfold clear_after. destruct (is_data_register dst reg) eqn:Ed; cbn [negb]; [|by apply fresh_sound].
  unfold data_after, data_writes, written_value in Hv. rewrite Hk, Ed in Hv. injection Hv as <-.
  apply with_values_sound; [apply Ht|]. destruct old_values_contained as (old' & Hc & Em).
  apply (map_values_contains width Hwidth _ _ old'); [done|]. rewrite Em. apply merge_insert; [done|apply old_u32|done].
Qed.

(** The result of a two-operand kind. *)
Lemma binary_after : (exists x, binary_result (op_kind op) size 0 0 = Some x) -> is_data_register dst reg = true ->
  exists s low, operand_value m src size = Some s /\ binary_result (op_kind op) size s old = Some low /\
    v = insert_low size old low.
Proof using Hv.
  intros [x Hx] Ed. unfold data_after in Hv.
  assert (Hw : data_writes op reg = true) by (unfold data_writes; by destruct (op_kind op)).
  assert (Hr : written_value m op reg =
    Some (source ← operand_value m src size; low ← binary_result (op_kind op) size source old; Some (insert_low size old low))).
  { unfold written_value. by destruct (op_kind op). }
  rewrite Hw, Hr in Hv. destruct (operand_value m src size) as [s|]; [|discriminate Hv]. cbn [mbind option_bind] in Hv.
  destruct (binary_result (op_kind op) size s old) as [low|] eqn:El; [|discriminate Hv]. exists s, low. injection Hv as Hv'. by rewrite Hv'.
Qed.

Lemma same_operand s : is_data_register src reg = true -> operand_value m src size = Some s -> s = wrap size old.
Proof using Type.
  intros Hd Hs. unfold operand_value in Hs. unfold is_data_register in Hd. apply andb_true_iff in Hd as [Hmode Hr].
  apply bool_decide_eq_true in Hmode. apply Z.eqb_eq in Hr. rewrite Hmode, Hr in Hs. by injection Hs.
Qed.

Lemma move_sound t : op_kind op = IR_write_move -> fresh t -> transfer_sound (move_after op reg width t) v.
Proof using All.
  intros Hk Ht. unfold move_after. destruct (is_data_register dst reg) eqn:Ed; cbn [negb]; [|by apply fresh_sound].
  destruct binary_after as (s & low & Hs & Hb & Ev); [rewrite Hk; by eexists|done|].
  rewrite Hk in Hb. cbn [binary_result] in Hb. apply (inj Some) in Hb as <-.
  destruct (operation_source t s Hsrc Hindex Hs) as [[Hc Hsame] [Hw Hvals]].
  destruct (read_source _ _ _ _ _ _) as [source t']. cbn [fst snd] in *.
  destruct Ht as [Htw Htv]. rewrite Htw in Hw. rewrite Htv in Hvals.
  destruct (ft_immutable_read_failed t'); [by apply fresh_sound|].
  pose proof (wrap_range size old) as Hwr. destruct (src_same_register source) eqn:Es.
  - apply with_values_sound; [done|]. destruct (Hsame eq_refl) as [Hd _].
    assert (Eold : v = old).
    { rewrite Ev, (same_operand s Hd Hs). unfold insert_low. rewrite (wrap_small size (wrap size old)) by done. lia. }
    rewrite Eold. apply old_contained.
  - apply with_values_sound; [done|]. destruct old_values_contained as (old' & Ho & Em).
    apply (combine_contains width Hwidth _ _ _ old' (s mod 2 ^ bits)); [done|done|].
    rewrite Em, slice_small, Ev. apply merge_insert; [done|apply old_u32|].
    by apply (cut_operands op width Hwidth old s).
Qed.

(** An AND of an unknown register with a constant that covers the width. *)
Lemma known_mask_sound t s low : and_kind op = true -> width <= bits ->
  binary_result (op_kind op) size s old = Some low -> v = insert_low size old low -> fresh t ->
  transfer_sound (known_mask op width ((s mod 2 ^ bits) .& low_mask width) t) v.
Proof using All.
  intros Hand Hcover Hb Ev Ht. pose proof (slice_bits_range op width Hwidth). assert (bits = width) as Ebits by lia.
  unfold known_mask. rewrite land_low_mask, slice_small by lia. set (c := s mod 2 ^ bits).
  assert (Hc : 0 <= c < 2 ^ width) by (rewrite <- Ebits; apply Z.mod_pos_bound; lia).
  pose proof (Z.pow_le_mono_r 2 width 32 ltac:(lia) ltac:(lia)) as H32.
  destruct (Z.ltb_spec m68k_finite_values_limit (1 .<< count_ones 32 c)) as [|Hcount]; [by apply fresh_sound|].
  rewrite Z.shiftl_1_l in Hcount. apply with_values_sound; [apply Ht|].
  assert (Hk : op_kind op <> IR_write_move) by (intros E; unfold and_kind in Hand; by rewrite E in Hand).
  pose proof (binary_image op width Hwidth old s low old_u32 Hk Hb) as Hi. rewrite <- Ev in Hi. fold c in Hi.
  assert (Ea : alu_value op width (old mod 2 ^ width) c = ((old mod 2 ^ width) .& c) mod 2 ^ width).
  { assert (Ha : is_u32 (old mod 2 ^ width)) by (unfold is_u32; pose proof (Z.mod_pos_bound old (2 ^ width)); lia).
    unfold alu_value, and_kind in *.
    destruct (op_kind op); try discriminate Hand; rewrite merge_sum by (done || lia); rewrite Ebits;
      by rewrite Z.mod_mod, Z.sub_diag, Z.add_0_l, Z.mod_mod by lia. }
  rewrite Ea, Z.mod_mod in Hi by lia.
  apply (of_values_contains width Hwidth _ (v mod 2 ^ width)); [|by rewrite Z.mod_mod by lia].
  assert (Hsub : (v mod 2 ^ width) .& c = v mod 2 ^ width).
  { rewrite <- Hi, land_mod, Z.mod_mod, (Z.mod_small c), <- Z.land_assoc, Z.land_diag by lia. done. }
  apply (submasks_complete c) with (n := 32%nat).
  - unfold is_u32. lia.
  - change (Z.of_nat 32) with 32. lia.
  - rewrite Z2Nat.id; [done|]. unfold m68k_finite_values_limit. lia.
  - apply Z.mod_pos_bound. lia.
  - done.
Qed.

Lemma alu_combined_contains source s low : binary_result (op_kind op) size s old = Some low ->
  op_kind op <> IR_write_move -> v = insert_low size old low -> contains width (src_values source) (s mod 2 ^ bits) ->
  contains width (alu_combined op width (data_register_before reg width) source) v.
Proof using All.
  intros Hb Hk Ev Hc. unfold alu_combined. cbv zeta.
  assert (H : contains width (combine (data_register_before reg width) (src_values source) width (alu_value op width)) v).
  { apply (combine_contains width Hwidth _ _ _ old (s mod 2 ^ bits)); [apply old_contained|done|].
    rewrite slice_small, Ev. by apply binary_image; [|apply old_u32|..]. }
  destruct (and_kind op); [|done]. destruct (_ && _); [apply set_width_derived_contains|]; by apply narrow_contains.
Qed.

(** The one value of a source that is a known constant. *)
Lemma single_constant source s c : contains width (src_values source) (s mod 2 ^ bits) ->
  match fv_values (src_values source) with
  | [constant] => if fv_known (src_values source) then Some constant else None
  | _ => None
  end = Some c -> c = s mod 2 ^ bits.
Proof using Hwidth.
  intros Hc E. destruct (fv_values (src_values source)) as [|x [|]] eqn:Ex; try discriminate E.
  destruct (fv_known (src_values source)) eqn:K; [|discriminate E]. injection E as <-.
  specialize (Hc K). rewrite Ex, slice_small in Hc. by apply list_elem_of_singleton in Hc.
Qed.

Lemma alu_sound t : (exists x, binary_result (op_kind op) size 0 0 = Some x) -> op_kind op <> IR_write_move ->
  fresh t -> transfer_sound (alu_after op reg width t) v.
Proof using All.
  intros Hx Hk Ht. unfold alu_after. destruct (is_data_register dst reg) eqn:Ed; cbn [negb]; [|by apply fresh_sound].
  destruct binary_after as (s & low & Hs & Hb & Ev); [done|done|].
  destruct (operation_source t s Hsrc Hindex Hs) as [[Hc Hsame] [Hw Hvals]].
  destruct (read_source _ _ _ _ _ _) as [source t']. cbn [fst snd] in *.
  destruct Ht as [Htw Htv]. rewrite Htw in Hw. rewrite Htv in Hvals.
  destruct (ft_immutable_read_failed t'); [by apply fresh_sound|]. cbv zeta.
  assert (Hrest : forall proof proof', transfer_sound
    (if src_same_register source
     then with_values (map_values (data_register_before reg width) width (fun a => alu_value op width a a)) proof t'
     else with_values (alu_combined op width (data_register_before reg width) source) proof' t') v).
  { intros. destruct (src_same_register source); apply with_values_sound; try done; [|by eapply alu_combined_contains].
    destruct (Hsame eq_refl) as [Hd _]. rewrite (same_operand s Hd Hs) in Hb.
    apply (map_values_contains width Hwidth _ _ old); [apply old_contained|]. rewrite Ev.
    by apply binary_image_same; [|apply old_u32|..]. }
  match goal with |- context [if ?b then ?o else None] => destruct b eqn:Eb; [destruct o as [c|] eqn:Ec|] end;
    [|apply Hrest|apply Hrest].
  apply andb_true_iff in Eb as [Eb Hcover]. apply andb_true_iff in Eb as [Eand _]. apply Z.leb_le in Hcover.
  rewrite (single_constant source s c Hc Ec). by eapply known_mask_sound.
Qed.

Lemma shift_sound t : op_kind op = IR_shift_rotate_register -> fresh t -> transfer_sound (shift_after op reg width t) v.
Proof using All.
  intros Hk Ht. unfold shift_after.
  destruct (is_data_register dst reg) eqn:Ed; cbn [negb orb]; [|by apply fresh_sound].
  destruct (bool_decide_reflect (ea_mode src = EA_immediate)) as [Hmode|]; cbn [negb]; [|by apply fresh_sound]. cbv zeta.
  unfold data_after, data_writes, written_value, shift_count in Hv. rewrite Hk, Ed, Hmode in Hv. injection Hv as Ev.
  match goal with |- context [if ?b then t else _] => destruct b eqn:Eb end; [by apply fresh_sound|].
  apply with_values_sound; [apply Ht|].
  assert (Hc : contains width (map_values (data_register_before reg width) width (shift_value op width (ea_immediate_value src))) v).
  { apply (map_values_contains width Hwidth _ _ old); [apply old_contained|]. rewrite <- Ev.
    apply shift_image; [done|apply old_u32|done|].
    destruct (op_shift_rotate_kind op); cbn [negb andb orb] in Eb; try discriminate Eb; auto;
      apply negb_false_iff, Z.leb_le in Eb; auto. }
  destruct (op_shift_rotate_kind op); try done; by apply narrow_contains.
Qed.

Lemma written_sound t : fresh t -> transfer_sound (written_after op reg width t) v.
Proof using All.
  intros Ht. pose proof (fresh_sound t v Ht) as Hf. pose proof (clear_sound t) as Hclear. pose proof (move_sound t) as Hmove.
  pose proof (shift_sound t) as Hshift. pose proof (alu_sound t) as Halu. unfold written_after.
  destruct (op_kind op); auto; apply Halu; auto; try (by eexists); discriminate.
Qed.

(** The kinds whose footprint the effect decides. *)
Lemma footprint_sound : op_kind op <> IR_write_moveq ->
  transfer_sound
    (let effect := m68k_operation_effect op in
     if oe_register_write_footprint_complete effect && ((oe_data_register_write_mask effect .>> reg) .& 1 =? 0)
     then no_transfer
     else if negb (oe_register_write_footprint_complete effect) then with_writes no_transfer
     else written_after op reg width (with_writes no_transfer)) v.
Proof using All.
  intros Hk. cbv zeta. rewrite effect_complete.
  destruct (footprint_complete (op_kind op)) eqn:Ec; cbn [negb andb]; [|by apply fresh_sound].
  destruct (Z.eqb_spec ((oe_data_register_write_mask (m68k_operation_effect op) .>> reg) .& 1) 0) as [E|]; [|by apply written_sound].
  unfold transfer_sound. cbn [ft_writes no_transfer]. unfold data_after in Hv.
  destruct (data_writes op reg) eqn:Ew; [exfalso|done].
  pose proof (footprint_covers op reg Hreg Hk Ec Ew) as Hb.
  assert (Hs : is_set (oe_data_register_write_mask (m68k_operation_effect op) .>> reg) 1 = true).
  { by rewrite (is_set_bit _ 0), Z.shiftr_spec, Z.add_0_l by lia. }
  unfold is_set in Hs. by rewrite E in Hs.
Qed.
End Kinds.
End Transfer.

(** C6. Finite register values are sound.  Take any machine state and any inputs
    whose value sets contain the registers before the operation and whose immutable
    reads return the bytes on the bus.  For every operation, data register and
    width 16 or 32, the value an execution leaves in the register (computed with
    the evaluation functions of [effects.hpp]) is in the set the transfer returns,
    modulo 2 to the width; and when the transfer says the register is not written,
    it keeps its value.  The write footprints, the table and byte loads, the cross
    products with their limit, the AND with an unknown register, the narrow slices
    of wider operations and the shifts are all covered. *)
Theorem finite_transfer_sound (m : Machine) (Hm : machine_ok m) (inputs : M68kFiniteValueInputs)
    (Hin : inputs_sound m) (op : M68kIrOperation) (reg width v : Z)
    (Hreg : 0 <= reg < 8) (Hwidth : width = 16 \/ width = 32)
    (Hsource : 0 <= ea_reg (op_source_ea op) < 8 /\ 0 <= ea_index_reg (op_source_ea op) < 8 /\
               0 <= ea_immediate_value (op_source_ea op))
    (Hv : data_after m op reg v) :
  let t := m68k_finite_register_after op reg width in
  if ft_writes t then fv_known (ft_values t) = true -> v mod 2 ^ width ∈ fv_values (ft_values t)
  else v = data_register m reg.
Proof.
  destruct Hsource as (Hsrc & Hindex & Himm). cbv zeta.
  change (transfer_sound m reg width (m68k_finite_register_after op reg width) v).
  pose proof (footprint_sound m Hm Hin op reg width Hreg Hwidth v Hv Hsrc Hindex Himm) as Hf.
  pose proof (moveq_sound m Hm Hin op reg width Hreg Hwidth v Hv Hsrc Hindex Himm) as Hmoveq.
  pose proof (extend_sound m Hm Hin op reg width Hreg Hwidth v Hv Hsrc Hindex Himm) as Hext.
  unfold data_after, data_writes in Hv. unfold m68k_finite_register_after in *. cbv zeta in *.
  destruct (op_kind op) eqn:Ek; try (by apply Hf); try exact Hv; [by apply Hmoveq|by apply (Hext true)|by apply (Hext false)].
Qed.

(** * Witnesses *)

(** [MOVE.W 4(PC,D0.W),D1] at $FE with D0 in {0, 2, 4}, over a bus whose bytes
    are the low bytes of their addresses. *)
Definition table_machine : Machine :=
  mkMachine (fun r => if r =? 0 then 2 else 0xAAAA0000) (fun _ => 0) (fun a => a mod 256) false.

Definition table_inputs : M68kFiniteValueInputs :=
  Build_M68kFiniteValueInputs
    (fun r width => if r =? 0 then mkFinite true [0; 2; 4] false else unknown)
    (fun address bytes => Some (read_be (bus_byte table_machine) address (Z.to_nat bytes))).

Definition table_move : M68kIrOperation :=
  mkOperation default_provenance IR_write_move D0 0 [] 0 W_word
    (mkEa EA_pc_index8 0 4 0 0 1 0 false false 0x100) (mkEa EA_data_register 1 0 0 0 0 0 false false 0)
    CC_always MD_registers_to_memory 0 SR_lsl SL_and_op 0.

Lemma table_machine_ok : machine_ok table_machine.
Proof.
  split; intros r; cbn; unfold is_u32, is_u8; [destruct (r =? 0); lia|lia|apply Z.mod_pos_bound; lia].
Qed.

Lemma table_inputs_sound : inputs_sound table_machine (Inputs := table_inputs).
Proof.
  split.
  - intros r w _ [-> | ->]; cbn; destruct (r =? 0); intros H; try discriminate H; right; left.
  - intros address size v _ H. cbn in H. rewrite Nat2Z.id in H. by injection H.
Qed.

Lemma finite_transfer_sound_witness :
  ft_values (m68k_finite_register_after (H := table_inputs) table_move 1 16) =
    mkFinite true [0x0405; 0x0607; 0x0809] false /\
  0xAAAA0607 mod 2 ^ 16 ∈ fv_values (ft_values (m68k_finite_register_after (H := table_inputs) table_move 1 16)).
Proof.
  split; [vm_compute; reflexivity|].
  assert (Hsource : 0 <= ea_reg (op_source_ea table_move) < 8 /\ 0 <= ea_index_reg (op_source_ea table_move) < 8 /\
                    0 <= ea_immediate_value (op_source_ea table_move)) by (cbn; lia).
  assert (Hv : data_after table_machine table_move 1 0xAAAA0607) by (vm_compute; reflexivity).
  exact (finite_transfer_sound table_machine table_machine_ok table_inputs table_inputs_sound table_move 1 16 0xAAAA0607
    ltac:(lia) (or_introl eq_refl) Hsource Hv eq_refl).
Defined.
