(* ===== verification/M68kFiniteGuard.v ===== *)
(** The branch filter of [M68kFinite] keeps exactly the values that take the
    branch, and value sets stay in normal form. *)

From S2P Require Import Prelude M68kInstruction M68kArithmetic M68kEffects M68kFinite M68kFiniteSound.

(** * The branch filter *)

Lemma condition_status condition a b :
  status_n a = status_n b -> status_z a = status_z b -> status_v a = status_v b -> status_c a = status_c b ->
  m68k_evaluate_condition condition a = m68k_evaluate_condition condition b.
Proof. intros Hn Hz Hv Hc. unfold m68k_evaluate_condition. by rewrite !is_set_n, !is_set_z, !is_set_v, !is_set_c, Hn, Hz, Hv, Hc. Qed.

(** The status register after the guard, for the whole register value. *)
Definition guard_status (flag_setter : M68kIrOperation) (sr value : Z) : Z :=
  let size := op_size flag_setter in
  match op_kind flag_setter with
  | IR_test_operand => m68k_move_result_ccr sr (u32 (signed size (wrap size value)))
  | _ => m68k_compare_ccr sr (ea_immediate_value (op_source_ea flag_setter)) value size
  end.

(** Four flags of a byte of condition codes. *)
Lemma flags_status n z v c :
  let sr := flag n 0x8 .| flag z 0x4 .| flag v 0x2 .| flag c 0x1 in
  status_n sr = n /\ status_z sr = z /\ status_v sr = v /\ status_c sr = c.
Proof. by destruct n, z, v, c. Qed.

Lemma test_flags n z :
  let sr := flag z 0x4 .| flag n 0x8 in
  status_n sr = n /\ status_z sr = z /\ status_v sr = false /\ status_c sr = false.
Proof. by destruct n, z. Qed.

Lemma subtraction_low source value size width : size_bits size <= width ->
  m68k_evaluate_subtraction source (value mod 2 ^ width) size = m68k_evaluate_subtraction source value size.
Proof.
  intros H. pose proof (size_bits_range size). rewrite !evaluate_subtraction_spec, (wrap_bits size (value mod _)).
  by rewrite mod_mod_pow, <- wrap_bits by lia.
Qed.

Lemma compare_guard condition immediate value size width sr : size_bits size <= width ->
  m68k_evaluate_condition condition (guard_ccr size (Some immediate) (value mod 2 ^ width)) =
  m68k_evaluate_condition condition (m68k_compare_ccr sr immediate value size).
Proof.
  intros H. unfold guard_ccr, m68k_compare_ccr. rewrite subtraction_low by done.
  generalize (oe_extend_flag_policy (m68k_operation_effect compare_operation)). intros policy.
  pose proof (proj1 (subtraction_ccr_flags sr immediate value size policy)) as F. cbv zeta.
  generalize dependent (m68k_subtraction_ccr sr immediate value size policy). intros ccr F.
  set (r := m68k_evaluate_subtraction immediate value size) in *. clearbody r.
  destruct (flags_status (sum_negative r) (sum_zero r) (sum_overflow r) (sum_carry r)) as (Hn & Hz & Hv & Hc).
  unfold status_flags in F. rewrite !pair_equal_spec in F.
  destruct F as ((((_ & Fn) & Fz) & Fv) & Fc). apply condition_status; by rewrite ?Hn, ?Hz, ?Hv, ?Hc.
Qed.

Lemma move_result_flags sr x :
  let ccr := m68k_move_result_ccr sr x in
  status_n ccr = is_set x 0x80000000 /\ status_z ccr = (x =? 0) /\ status_v ccr = false /\ status_c ccr = false.
Proof.
  cbv zeta. unfold m68k_move_result_ccr, status_n, status_z, status_v, status_c.
  split_and!; status_bits; done.
Qed.

(** TST looks at the sign-extended operand. *)
Lemma test_guard condition value size width sr : size_bits size <= width <= 32 ->
  m68k_evaluate_condition condition (guard_ccr size None (value mod 2 ^ width)) =
  m68k_evaluate_condition condition (m68k_move_result_ccr sr (u32 (signed size (wrap size value)))).
Proof.
  intros H. pose proof (size_bits_range size). unfold guard_ccr. rewrite land_low_mask, mod_mod_pow, <- wrap_bits by lia.
  cbv zeta. set (w := wrap size value). assert (Hw : 0 <= w < modulus size) by apply wrap_range.
  assert (En : negb ((w .>> (size_bits size - 1)) .& 1 =? 0) = is_set (u32 (signed size w)) 0x80000000 /\
               (w =? 0) = (u32 (signed size w) =? 0)).
  { assert (Hs : negb ((w .>> (size_bits size - 1)) .& 1 =? 0) = (2 ^ (size_bits size - 1) <=? w)).
    { change (negb _) with (is_set (w .>> (size_bits size - 1)) (2 ^ 0)). rewrite is_set_bit, Z.shiftr_spec, Z.add_0_l by lia.
      apply top_bit; [lia|]. unfold modulus in Hw. by rewrite width_bits_size, Z.sub_add in *. }
    assert (Hx : is_set (u32 (signed size w)) 0x80000000 = (2 ^ 31 <=? u32 (signed size w))).
    { apply (is_set_sign W_long_word). apply u32_range. }
    rewrite Hs, Hx. unfold signed, u32, modulus in *. rewrite width_bits_size in *. clearbody w.
    destruct size; cbn [size_bits] in *;
      repeat match goal with
      | |- context [2 ^ ?e] => let p := eval vm_compute in (2 ^ e) in change (2 ^ e) with p
      | Hp : context [2 ^ ?e] |- _ => let p := eval vm_compute in (2 ^ e) in change (2 ^ e) with p in Hp
      end;
      match goal with |- context [?p <=? w] => destruct (Z.leb_spec p w) end;
      (split; [symmetry; first [apply Z.leb_le|apply Z.leb_gt]|apply eq_true_iff_eq; rewrite !Z.eqb_eq];
       Z.to_euclidean_division_equations; lia). }
  destruct En as [En Ez]. rewrite En, Ez.
  destruct (move_result_flags sr (u32 (signed size w))) as (Mn & Mz & Mv & Mc).
  destruct (test_flags (is_set (u32 (signed size w)) 0x80000000) (u32 (signed size w) =? 0)) as (Tn & Tz & Tv & Tc).
  apply condition_status; congruence.
Qed.

Lemma narrow_values before after : fv_values (narrow before after) = fv_values after.
Proof. unfold narrow. by destruct (negb _). Qed.

Lemma narrow_known before after : fv_known (narrow before after) = fv_known after.
Proof. unfold narrow. by destruct (negb _). Qed.

Lemma filter_sorted (p : Z -> bool) l : StronglySorted Z.lt l -> StronglySorted Z.lt (List.filter p l).
Proof.
  induction 1 as [|x l Hs IH Hx]; cbn; [constructor|]. destruct (p x); [|done]. constructor; [done|].
  rewrite Forall_forall in *. intros y Hy. apply Hx. apply list_elem_of_In in Hy. apply filter_In in Hy as [Hy _].
  by apply list_elem_of_In.
Qed.

(** Normalizing the kept part of a normal set changes nothing. *)
Lemma filtered_values width values p : width = 16 \/ width = 32 ->
  StronglySorted Z.lt (fv_values values) -> Forall (fun v => 0 <= v < 2 ^ width) (fv_values values) ->
  zlen (fv_values values) <= m68k_finite_values_limit ->
  let filtered := of_values (List.filter p (fv_values values)) width in
  fv_known filtered = true /\ fv_values filtered = List.filter p (fv_values values).
Proof.
  intros Hwidth Hs Hr Hl. cbv zeta. unfold of_values.
  assert (Em : map (fun v => v .& low_mask width) (List.filter p (fv_values values)) = List.filter p (fv_values values)).
  { rewrite <- (map_id (List.filter _ _)) at 2. apply map_ext_in. intros v Hv. apply filter_In in Hv as [Hv _].
    rewrite Forall_forall in Hr. apply list_elem_of_In, Hr in Hv. by rewrite land_low_mask, Z.mod_small by lia. }
  assert (Es : sort_unique (List.filter p (fv_values values)) = List.filter p (fv_values values)).
  { apply sorted_ext; [apply sort_unique_sorted|by apply filter_sorted|]. intros v. apply elem_of_sort_unique. }
  rewrite Em, Es. pose proof (List.filter_length_le p (fv_values values)). unfold zlen in *.
  rewrite (proj2 (Z.ltb_ge _ _)) by lia. done.
Qed.

(** The branch filter is exact.  Whenever the filter applies, the values it
    keeps are exactly those for which the branch goes the given way: for any
    register value whose low part is in the set, and whatever the status register
    held before, the low part survives if and only if the condition of the branch,
    evaluated on the condition codes that CMP, CMPI or TST leaves for the whole
    register, equals [taken].  Nothing is added. *)
Theorem branch_filter_exact (flag_setter branch : M68kIrOperation) (taken : bool) (reg width : Z)
    (values filtered : M68kFiniteValues) (Hwidth : width = 16 \/ width = 32) (Hnormal : normal width values)
    (Hfilter : m68k_finite_branch_filter flag_setter branch taken reg width values = Some filtered) (sr value : Z) :
  fv_known filtered = true /\
  (value mod 2 ^ width ∈ fv_values filtered <->
   value mod 2 ^ width ∈ fv_values values /\
   m68k_evaluate_condition (op_condition branch) (guard_status flag_setter sr value) = taken).
Proof.
  unfold m68k_finite_branch_filter in Hfilter. destruct (op_kind branch); try discriminate Hfilter.
  destruct (fv_known values) eqn:Hk; cbn [negb orb] in Hfilter; [|discriminate Hfilter].
  destruct (_ || _); [discriminate Hfilter|].
  destruct (Z.ltb_spec width (size_bits (op_size flag_setter))) as [|Hsize]; [discriminate Hfilter|].
  destruct (guard_operand flag_setter reg) as [operand|] eqn:Eo; [|discriminate Hfilter].
  injection Hfilter as <-. unfold normal in Hnormal. rewrite Hk in Hnormal. destruct Hnormal as (Hsorted & Hrange & Hlimit).
  set (keep := fun v => Bool.eqb (m68k_evaluate_condition (op_condition branch) (guard_ccr (op_size flag_setter) operand v)) taken).
  destruct (filtered_values width values keep Hwidth Hsorted Hrange Hlimit) as [Ek Ev].
  rewrite (narrow_values values), (narrow_known values), Ek, Ev. split; [done|].
  assert (Hkeep : keep (value mod 2 ^ width) = true <->
    m68k_evaluate_condition (op_condition branch) (guard_status flag_setter sr value) = taken).
  { unfold keep. rewrite Bool.eqb_true_iff. f_equiv. unfold guard_status. unfold guard_operand in Eo.
    destruct (op_kind flag_setter); try discriminate Eo;
      (destruct (_ : bool) in Eo; [injection Eo as <-|discriminate Eo]); [apply test_guard; lia|by apply compare_guard..]. }
  rewrite <- Hkeep, !list_elem_of_In, filter_In. done.
Qed.

(** * The normal form *)

Section Normal.
Context (width : Z) (Hwidth : width = 16 \/ width = 32).

Lemma of_values_normal l : normal width (of_values l width).
Proof using Hwidth.
  unfold normal, of_values. destruct (Z.ltb_spec m68k_finite_values_limit (zlen (sort_unique (map (fun v => v .& low_mask width) l)))); [done|].
  cbn [fv_known fv_values]. split; [apply sort_unique_sorted|split; [|done]].
  rewrite Forall_forall. intros v Hv. apply elem_of_sort_unique, list_elem_of_fmap in Hv as (x & -> & _).
  rewrite land_low_mask by lia. apply Z.mod_pos_bound. lia.
Qed.

Lemma set_width_derived_normal b values : (fv_known values = true \/ b = false) -> normal width values ->
  normal width (set_width_derived b values).
Proof using Type.
  unfold normal. destruct values as [[] vs d]; cbn; [done|]. intros [H| ->] E; [discriminate H|]. by injection E as -> _.
Qed.

Lemma known_normal b values : normal width values -> normal width (set_width_derived (fv_known values && b) values).
Proof using Type. intros H. apply set_width_derived_normal; [|done]. destruct (fv_known values); auto. Qed.

Lemma narrow_normal before after : normal width after -> normal width (narrow before after).
Proof using Type.
  intros H. unfold narrow. destruct (fv_known after) eqn:E; cbn [negb]; [|done]. apply set_width_derived_normal; auto.
Qed.

Lemma map_values_normal values f : normal width (map_values values width f).
Proof using Hwidth. unfold map_values. destruct (negb _); [done|]. apply known_normal, of_values_normal. Qed.

Lemma combine_normal left right f : normal width (combine left right width f).
Proof using Hwidth.
  unfold combine. destruct (_ || _); [done|]. destruct (_ <? _); [done|]. apply known_normal, of_values_normal.
Qed.

Lemma union_normal left right : normal width (m68k_finite_union left right width).
Proof using Hwidth. unfold m68k_finite_union. destruct (_ || _); [done|]. apply known_normal, of_values_normal. Qed.

Lemma union_contains left right v :
  contains width left v \/ contains width right v -> contains width (m68k_finite_union left right width) v.
Proof using Hwidth.
  intros H. unfold m68k_finite_union.
  destruct (fv_known left) eqn:Kl, (fv_known right) eqn:Kr; cbn [negb orb]; try apply contains_unknown.
  apply set_width_derived_contains, (of_values_contains width Hwidth _ (v mod 2 ^ width)); [|apply Z.mod_mod; lia].
  apply elem_of_app. destruct H as [H|H]; [left|right]; by apply H.
Qed.

Context `{Inputs : M68kFiniteValueInputs} (Hinputs : forall r, normal width (data_register_before r width)).

Lemma alu_combined_normal op old source : normal width (alu_combined op width old source).
Proof using Hwidth.
  unfold alu_combined. cbv zeta. pose proof (combine_normal old (src_values source) (alu_value op width)) as Hc.
  destruct (and_kind op); [|done]. apply (narrow_normal old) in Hc. destruct (_ && _) eqn:E; [|done].
  apply andb_true_iff in E as [E _]. by apply set_width_derived_normal; [left|].
Qed.

(** Reading a source keeps the values of the transfer, which are Unknown. *)
Definition normal_transfer (t : M68kFiniteTransfer) : Prop := normal width (ft_values t).

Lemma with_values_normal values proof t : normal width values -> normal_transfer (with_values values proof t).
Proof using Type. done. Qed.

Lemma read_normal ea reg bits t access : normal_transfer t -> normal_transfer (read_source ea reg bits width t access).2.
Proof using Type. unfold normal_transfer. by rewrite (proj2 (read_source_outcome ea reg bits width t access)). Qed.

Lemma written_normal op reg t : normal_transfer t -> normal_transfer (written_after op reg width t).
Proof using Hwidth Hinputs.
  intros Ht. unfold written_after, clear_after, move_after, alu_after, shift_after, known_mask. cbv zeta.
  pose proof (read_normal (op_source_ea op) reg (slice_bits op width) t (size_bits (op_size op)) Ht) as Hr.
  destruct (read_source _ _ _ _ _ _) as [source t']. cbn [snd] in Hr.
  destruct (op_kind op); try exact Ht;
    repeat match goal with
    | |- normal_transfer (if ?b then _ else _) => destruct b
    | |- normal_transfer (match ?o with Some _ => _ | None => _ end) => destruct o
    end; try exact Ht; try exact Hr; apply with_values_normal;
    try apply map_values_normal; try apply combine_normal; try apply alu_combined_normal; try apply of_values_normal;
    try apply Hinputs.
  destruct (op_shift_rotate_kind op); try apply narrow_normal; apply map_values_normal.
Qed.
End Normal.

(** Value sets stay in normal form.  Whatever the operation, the register and
    the immutable image, when the caller's sets are sorted, distinct, below 2 to
    the width and at most [m68k_finite_values_limit] long (or Unknown and empty),
    so is the set of the transfer; the union of any two sets is in normal form and
    contains both, and a branch filter returns a normal set. *)
Theorem finite_values_normal (width : Z) (Hwidth : width = 16 \/ width = 32) (inputs : M68kFiniteValueInputs)
    (Hinputs : forall r, normal width (data_register_before r width)) (op : M68kIrOperation) (reg : Z) :
  normal width (ft_values (m68k_finite_register_after op reg width)) /\
  (forall left right, normal width (m68k_finite_union left right width) /\
     forall v, contains width left v \/ contains width right v ->
       contains width (m68k_finite_union left right width) v) /\
  forall branch taken values filtered,
    m68k_finite_branch_filter op branch taken reg width values = Some filtered -> normal width filtered.
Proof.
  split; [|split].
  - pose proof (written_normal width Hwidth Hinputs op reg (with_writes no_transfer) eq_refl) as Hw.
    unfold m68k_finite_register_after, moveq_after, extend_after. cbv zeta.
    destruct (op_kind op); try reflexivity;
      repeat match goal with |- context [ft_values (if ?b then _ else _)] => destruct b end;
      try reflexivity; try exact Hw; cbn [ft_values with_values]; by first [apply of_values_normal|apply map_values_normal].
  - intros left right. split; [by apply union_normal|]. intros v. by apply union_contains.
  - intros branch taken values filtered Hf. unfold m68k_finite_branch_filter in Hf.
    destruct (op_kind branch); try discriminate Hf. destruct (_ || _); [discriminate Hf|].
    destruct (_ <? _); [discriminate Hf|]. destruct (guard_operand op reg) as [operand|]; [|discriminate Hf].
    injection Hf as <-. by apply narrow_normal, of_values_normal.
Qed.

(** * Witnesses *)

(** [CMPI.W #3,D1] and [BHI], not taken. *)
Definition guard_compare : M68kIrOperation :=
  mkOperation default_provenance IR_compare_immediate D0 0 [] 0 W_word
    (mkEa EA_immediate 0 0 0 3 1 0 false false 0) (mkEa EA_data_register 1 0 0 0 0 0 false false 0)
    CC_always MD_registers_to_memory 0 SR_lsl SL_and_op 0.
Definition guard_branch : M68kIrOperation :=
  mkOperation default_provenance IR_general_branch D0 0 [] 0 W_byte no_ea no_ea CC_hi MD_registers_to_memory 0 SR_lsl
    SL_and_op 0.

Lemma small_set_normal : normal 16 (mkFinite true [1; 3; 9] false).
Proof.
  unfold normal. cbn. split; [|split; [|vm_compute; discriminate]].
  - repeat constructor.
  - repeat constructor; lia.
Qed.

Lemma branch_filter_exact_witness :
  m68k_finite_branch_filter guard_compare guard_branch false 1 16 (mkFinite true [1; 3; 9] false) =
    Some (mkFinite true [1; 3] false) /\
  (0x70003 mod 2 ^ 16 ∈ [1; 3] <-> 0x70003 mod 2 ^ 16 ∈ [1; 3; 9] /\
     m68k_evaluate_condition CC_hi (guard_status guard_compare 0x2700 0x70003) = false).
Proof.
  assert (E : m68k_finite_branch_filter guard_compare guard_branch false 1 16 (mkFinite true [1; 3; 9] false) =
    Some (mkFinite true [1; 3] false)) by (vm_compute; reflexivity).
  split; [exact E|].
  exact (proj2 (branch_filter_exact guard_compare guard_branch false 1 16 _ _ (or_introl eq_refl) small_set_normal E
    0x2700 0x70003)).
Defined.

Lemma finite_values_normal_witness : normal 16 (ft_values (m68k_finite_register_after (H := table_inputs) table_move 1 16)).
Proof.
  assert (Hinputs : forall r, normal 16 (data_register_before (M68kFiniteValueInputs := table_inputs) r 16)).
  { intros r. cbn. destruct (r =? 0); [|reflexivity]. split; [repeat constructor|split; [repeat constructor; lia|vm_compute; discriminate]]. }
  exact (proj1 (finite_values_normal 16 (or_introl eq_refl) table_inputs Hinputs table_move 1)).
Defined.
