(* ===== verification/M68kStaticValues.v ===== *)
(** The finite register values of static discovery ([static_discovery.cpp]): the
    state of the data and address registers at one instruction, its merge, the
    transfer of one decoded instruction, the immutable offset tables it reads and
    the bounds an unsigned compare puts on the edges of a branch.

    A state holds, for each register, Unknown or a sorted list of values: low words
    for D0-D7, 24-bit addresses for A0-A7.  The environment is the interface
    [M68kStaticDiscoveryEnvironment], of which this analysis uses two queries. *)

From S2P Require Import Prelude M68kInstruction M68kArithmetic M68kShift M68kEffects M68kFinite M68kFiniteSound.

(** * States *)

Record M68kDnValueState := mkDn { dn_finite : bool; dn_values : list Z }.
Record M68kAnValueState := mkAn { an_finite : bool; an_addrs : list Z }.
Record M68kRegisterState := mkRegisters { dn : list M68kDnValueState; an : list M68kAnValueState }.

#[export] Instance dn_state_eq_dec : EqDecision M68kDnValueState.
Proof. solve_decision. Defined.
#[export] Instance an_state_eq_dec : EqDecision M68kAnValueState.
Proof. solve_decision. Defined.
#[export] Instance register_state_eq_dec : EqDecision M68kRegisterState.
Proof. solve_decision. Defined.

(** The default state: nothing is known. *)
Definition dn_unknown : M68kDnValueState := mkDn false [].
Definition an_unknown : M68kAnValueState := mkAn false [].
Definition unknown_registers : M68kRegisterState := mkRegisters (replicate 8 dn_unknown) (replicate 8 an_unknown).

Definition kM68kStackPointerRegister : Z := 7.
Definition m68k_an_finite_proof_eligible (reg : Z) : bool := reg <? kM68kStackPointerRegister.

(** Equality of states, as the three comparison functions decide it. *)
Definition m68k_dn_state_equal (left right : M68kDnValueState) : bool := left =b right.
Definition m68k_an_state_equal (left right : M68kAnValueState) : bool := left =b right.
Definition m68k_register_state_equal (left right : M68kRegisterState) : bool := left =b right.

Definition value_cap : Z := 256.

Definition m68k_merge_dn_state (left right : M68kDnValueState) : M68kDnValueState :=
  if m68k_dn_state_equal left right then left
  else if negb (dn_finite left) || negb (dn_finite right) then dn_unknown
  else
    let merged := sort_unique (dn_values left ++ dn_values right) in
    if value_cap <? zlen merged then dn_unknown else mkDn true merged.

Definition m68k_merge_an_state (left right : M68kAnValueState) : M68kAnValueState :=
  if m68k_an_state_equal left right then left
  else if negb (an_finite left) || negb (an_finite right) then an_unknown
  else
    let merged := sort_unique (an_addrs left ++ an_addrs right) in
    if value_cap <? zlen merged then an_unknown else mkAn true merged.

Definition m68k_merge_register_state (left right : M68kRegisterState) : M68kRegisterState :=
  mkRegisters (zip_with m68k_merge_dn_state (dn left) (dn right)) (zip_with m68k_merge_an_state (an left) (an right)).

(** [state.dn[reg]] and [state.an[reg]], read and assigned. *)
Definition get_dn (s : M68kRegisterState) (reg : Z) : M68kDnValueState := znth (dn s) reg dn_unknown.
Definition get_an (s : M68kRegisterState) (reg : Z) : M68kAnValueState := znth (an s) reg an_unknown.
Definition set_dn (reg : Z) (v : M68kDnValueState) (s : M68kRegisterState) : M68kRegisterState :=
  mkRegisters (<[Z.to_nat reg := v]> (dn s)) (an s).
Definition set_an (reg : Z) (v : M68kAnValueState) (s : M68kRegisterState) : M68kRegisterState :=
  mkRegisters (dn s) (<[Z.to_nat reg := v]> (an s)).

(** * The registers an instruction writes *)

Definition ea_is_dn (ea : M68kEffectiveAddress) : bool := ea_mode ea =b EA_data_register.
Definition ea_is_an (ea : M68kEffectiveAddress) : bool := ea_mode ea =b EA_address_register.
Definition ea_updates (ea : M68kEffectiveAddress) : bool := (ea_mode ea =b EA_address_postinc) || (ea_mode ea =b EA_address_predec).

(** The registers of the mask's bits [shift] to [shift + 7], for a transfer to registers. *)
Definition movem_registers (i : M68kDecodedInstruction) (shift : Z) : list Z :=
  if i_movem_direction i =b MD_memory_to_registers
  then List.filter (fun bit => negb (i_movem_register_mask i .& u16 (1 .<< (bit + shift)) =? 0)) [0; 1; 2; 3; 4; 5; 6; 7]
  else [].

Definition reg_if (b : bool) (reg : Z) : list Z := if b then [reg] else [].

Definition m68k_written_data_registers (i : M68kDecodedInstruction) : list Z :=
  match i_kind i with
  | K_moveq => [data_register_index (i_destination i)]
  | K_subq_l_1_d0 => [0]
  | K_move | K_clr | K_not_operand | K_negate_word | K_negate_extended | K_add_extended | K_subtract_extended
  | K_add_decimal | K_subtract_decimal | K_negate_decimal | K_set_conditional | K_test_and_set | K_movep
  | K_add | K_addi | K_addq | K_sub | K_subi | K_subq | K_logical_and | K_andi | K_logical_or | K_ori | K_eor | K_eori
  | K_bchg | K_bclr | K_bset | K_swap | K_ext_w | K_ext_l | K_dbcc | K_move_from_sr | K_shift_rotate =>
      reg_if (ea_is_dn (i_destination_ea i)) (ea_reg (i_destination_ea i))
  | K_exchange_registers =>
      reg_if (ea_is_dn (i_source_ea i)) (ea_reg (i_source_ea i)) ++ reg_if (ea_is_dn (i_destination_ea i)) (ea_reg (i_destination_ea i))
  | K_movem => movem_registers i 0
  | _ => []
  end.

Definition m68k_written_address_registers (i : M68kDecodedInstruction) : list Z :=
  match i_kind i with
  | K_movea | K_adda | K_suba | K_lea | K_addq | K_subq | K_link | K_unlk | K_move_usp_to_an =>
      reg_if (ea_is_an (i_destination_ea i)) (ea_reg (i_destination_ea i))
  | K_move_to_sr | K_logical_immediate_to_sr | K_stop | K_trap | K_trapv | K_chk | K_rtr | K_instruction_exception => [7]
  | K_exchange_registers =>
      reg_if (ea_is_an (i_source_ea i)) (ea_reg (i_source_ea i)) ++ reg_if (ea_is_an (i_destination_ea i)) (ea_reg (i_destination_ea i))
  | K_movem => movem_registers i 8
  | _ => []
  end ++
  reg_if (ea_updates (i_source_ea i)) (ea_reg (i_source_ea i)) ++
  reg_if (ea_updates (i_destination_ea i)) (ea_reg (i_destination_ea i)).

(** * The environment *)

(** The bytes of the immutable image from an address, [None] when the read is not
    admitted, and the stride and count of an opted-in table annotation, by table
    base and entry width. *)
Class M68kStaticDiscoveryEnvironment := {
  read_immutable_cartridge_bytes : Z -> Z -> option (list Z);
  logical_table_descriptor_hint : Z -> Z -> option (Z * Z);
}.

Section Transfer.
Context `{environment : M68kStaticDiscoveryEnvironment}.

(** The addresses of the entries an index set selects, in its order; [None] when
    one is not an even 24-bit address. *)
Fixpoint entry_addresses (ea : M68kEffectiveAddress) (values : list Z) : option (list Z) :=
  match values with
  | [] => Some []
  | low_word :: rest =>
      let raw := ea_pc_base_address ea + ea_displacement ea + i16 low_word in
      if (raw <? 0) || (0x00FFFFFF <? raw) then None
      else if negb (raw .& 1 =? 0) then None
      else rest ← entry_addresses ea rest; Some (raw :: rest)
  end.

Definition table_entry (bytes : list Z) (lo address : Z) : Z :=
  u16 ((znth bytes (address - lo) 0 .<< 8) .| znth bytes (address - lo + 1) 0).

Definition m68k_fold_immutable_offset_table (source_ea : M68kEffectiveAddress) (selector : M68kDnValueState) : option (list Z) :=
  if negb (ea_mode source_ea =b EA_pc_index8) then None
  else if ea_index_is_address source_ea || ea_index_is_long source_ea then None
  else
    match dn_values selector with
    | [] => None
    | _ =>
        if negb (dn_finite selector) || (value_cap <? zlen (dn_values selector)) then None
        else
          addresses ← entry_addresses source_ea (dn_values selector);
          let lo := fold_left Z.min addresses (List.hd 0 addresses) in
          let hi := fold_left Z.max addresses (List.hd 0 addresses) in
          let span := hi - lo + 2 in
          if 0x10000 <? span then None
          else
            bytes ← read_immutable_cartridge_bytes lo (u32 span);
            if negb (zlen bytes =? span) then None
            else
              let values := sort_unique (map (table_entry bytes lo) addresses) in
              if value_cap <? zlen values then None else Some values
    end.

(** * The transfer *)

Definition kMaxImpliedOffset : Z := 0xFFFE.

(** The selector of a table read: the positions of a usable annotation, else the
    index register's state. *)
Definition table_selector (current : M68kRegisterState) (ea : M68kEffectiveAddress) : M68kDnValueState :=
  let proven := get_dn current (ea_index_reg ea) in
  if negb (ea_index_is_address ea) && negb (ea_index_is_long ea) then
    match logical_table_descriptor_hint (u32 (ea_pc_base_address ea + ea_displacement ea)) 2 with
    | Some (stride_bytes, entry_count) =>
        if (0 <? entry_count) && (entry_count <=? 256) && (0 <? stride_bytes) && ((entry_count - 1) * stride_bytes <=? kMaxImpliedOffset)
        then mkDn true (sort_unique (map (fun index => u16 (index * stride_bytes)) (seqZ 0 entry_count)))
        else proven
    | None => proven
    end
  else proven.

(** A finite state with every value mapped, sorted again; Unknown stays. *)
Definition map_dn (f : Z -> Z) (s : M68kDnValueState) : M68kDnValueState :=
  if dn_finite s then mkDn true (sort_unique (map f (dn_values s))) else dn_unknown.

(** The same under the cap. *)
Definition map_dn_capped (f : Z -> Z) (s : M68kDnValueState) : M68kDnValueState :=
  if dn_finite s then
    let values := sort_unique (map f (dn_values s)) in
    if value_cap <? zlen values then dn_unknown else mkDn true values
  else dn_unknown.

Definition and_word (mask : Z) (s : M68kDnValueState) : M68kDnValueState :=
  if dn_finite s then map_dn (fun value => u16 (value .& mask)) s
  else if count_ones 16 mask <=? 8 then mkDn true (merge_sort Z.le (M68kFinite.submasks 256 mask mask))
  else dn_unknown.

(** A byte loaded from memory: the 256 values that share the old high byte. *)
Definition load_byte (s : M68kDnValueState) : M68kDnValueState :=
  match dn_values s with
  | first :: _ =>
      let high := first .& 0xFF00 in
      if dn_finite s && forallb (fun v => (v .& 0xFF00) =? high) (dn_values s)
      then mkDn true (map (fun k => u16 (high .| k)) (seqZ 0 256))
      else dn_unknown
  | [] => dn_unknown
  end.

Definition subtract_low (byte_size : bool) (imm v : Z) : Z :=
  if byte_size then u16 ((v .& 0xFF00) .| (u32 (v - imm) .& 0xFF)) else u16 (u32 (v - imm) .& 0xFFFF).

Definition memory_source (mode : M68kEaMode) : bool :=
  negb (mode =b EA_data_register) && negb (mode =b EA_immediate) && negb (mode =b EA_address_register) && negb (mode =b EA_unused).

(** Every register written forgotten. *)
Definition forget_written (i : M68kDecodedInstruction) (s : M68kRegisterState) : M68kRegisterState :=
  let s := fold_left (fun s reg => set_dn reg dn_unknown s) (m68k_written_data_registers i) s in
  fold_left (fun s reg => set_an reg an_unknown s) (m68k_written_address_registers i) s.

(** [m68k_apply_finite_value_transfer], for an environment that may be absent. *)
Definition m68k_apply_finite_value_transfer (has_environment : bool) (current : M68kRegisterState) (i : M68kDecodedInstruction)
    : M68kRegisterState :=
  let source := i_source_ea i in
  let destination := i_destination_ea i in
  let reg := ea_reg destination in
  let word := i_size i =b W_word in
  let byte := i_size i =b W_byte in
  let old := get_dn current reg in
  if has_environment && (i_kind i =b K_move) && word && ea_is_dn destination && (ea_mode source =b EA_pc_index8) then
    set_dn reg (match m68k_fold_immutable_offset_table source (table_selector current source) with
                | Some values => mkDn true values
                | None => dn_unknown
                end) current
  else if (i_kind i =b K_lea) && ea_is_an destination && m68k_an_finite_proof_eligible reg && m68k_is_statically_foldable_control_ea source then
    set_an reg (mkAn true [m68k_canonical_ea_address source .& 0x00FFFFFF]) current
  else if (i_kind i =b K_adda) && word && (ea_mode source =b EA_immediate) && ea_is_an destination && m68k_an_finite_proof_eligible reg then
    let delta := i16 (u16 (ea_immediate_value source .& 0xFFFF)) in
    let state := get_an current reg in
    set_an reg (if an_finite state
                then mkAn true (sort_unique (map (fun member => u32 (member + u32 delta) .& 0x00FFFFFF) (an_addrs state)))
                else an_unknown) current
  else if i_kind i =b K_moveq then
    set_dn (data_register_index (i_destination i)) (mkDn true [u16 (i_operand i)]) current
  else if (i_kind i =b K_andi) && word && ea_is_dn destination then
    set_dn reg (and_word (u16 (ea_immediate_value source .& 0xFFFF)) old) current
  else if (i_kind i =b K_shift_rotate) && (i_shift_rotate_kind i =b SR_lsr) && word && ea_is_dn destination && (ea_mode source =b EA_immediate) then
    let count := ea_immediate_value source .& 0xFF in
    set_dn reg (map_dn_capped (fun value => if 16 <=? count then 0 else u16 (value .>> count)) old) current
  else if (i_kind i =b K_add) && word && ea_is_dn source && ea_is_dn destination && (ea_reg source =? reg) then
    set_dn reg (map_dn_capped (fun value => u16 (u32 (value + value))) old) current
  else if (i_kind i =b K_move) && byte && ea_is_dn destination && memory_source (ea_mode source) then
    set_dn reg (load_byte old) current
  else if ((i_kind i =b K_subi) || (i_kind i =b K_subq)) && ea_is_dn destination && (byte || word) then
    set_dn reg (map_dn (subtract_low byte (ea_immediate_value source)) old) current
  else if (i_kind i =b K_shift_rotate) && (i_shift_rotate_kind i =b SR_lsl) && word && ea_is_dn destination && (ea_mode source =b EA_immediate) then
    let count := ea_immediate_value source .& 0xFF in
    set_dn reg (map_dn_capped (fun value => if 16 <=? count then 0 else u16 (u32 (value .<< count) .& 0xFFFF)) old) current
  else forget_written i current.
End Transfer.

(** * The bounds of an unsigned compare on the edges of a branch *)

Record DnConstraint := mkConstraint { con_reg : Z; con_lo : Z; con_hi : Z; con_width_mask : Z; con_empty : bool }.

Definition m68k_apply_dn_edge_constraint (c : DnConstraint) (s : M68kRegisterState) : M68kRegisterState :=
  let slot := get_dn s (con_reg c) in
  if con_empty c then set_dn (con_reg c) (mkDn true []) s
  else if dn_finite slot then
    set_dn (con_reg c)
      (mkDn true (List.filter (fun v => let masked := v .& con_width_mask c in (con_lo c <=? masked) && (masked <=? con_hi c)) (dn_values slot))) s
  else if (con_width_mask c =? 0xFFFF) && (con_lo c <=? con_hi c) && (con_hi c - con_lo c + 1 <=? 256)
  then set_dn (con_reg c) (mkDn true (map u16 (seqZ (con_lo c) (con_hi c - con_lo c + 1)))) s
  else s.

(** The register and the bounds of the two edges, [None] when no constraint is derived. *)
Definition m68k_derive_unsigned_compare_branch_constraints (compare branch : M68kDecodedInstruction)
    : option (Z * option DnConstraint * option DnConstraint) :=
  let is_cmpi := (i_kind compare =b K_cmpi) && ea_is_dn (i_destination_ea compare) in
  let is_cmp_imm := (i_kind compare =b K_cmp) && (ea_mode (i_source_ea compare) =b EA_immediate) && ea_is_dn (i_destination_ea compare) in
  if negb is_cmpi && negb is_cmp_imm then None
  else
    width_mask ← match i_size compare with W_byte => Some 0xFF | W_word => Some 0xFFFF | _ => None end;
    cond ← match i_kind branch with K_bne_short => Some CC_ne | K_branch => Some (i_condition branch) | _ => None end;
    let reg := ea_reg (i_destination_ea compare) in
    let m := ea_immediate_value (i_source_ea compare) .& width_mask in
    let w := width_mask in
    let lower lo hi := Some (if hi <? lo then mkConstraint reg 1 0 w true else mkConstraint reg lo hi w false) in
    let below := if m =? 0 then lower 1 0 else lower 0 (m - 1) in
    let above := if w <=? m then lower 1 0 else lower (m + 1) w in
    match cond with
    | CC_cc => Some (reg, lower m w, below)
    | CC_cs => Some (reg, below, lower m w)
    | CC_hi => Some (reg, above, lower 0 m)
    | CC_ls => Some (reg, lower 0 m, above)
    | CC_eq => Some (reg, lower m m, None)
    | CC_ne => Some (reg, None, lower m m)
    | _ => None
    end.

(** * Sorted lists of values *)

Lemma elem_of_map_sorted (f : Z -> Z) l x : x ∈ sort_unique (map f l) <-> exists y, x = f y /\ y ∈ l.
Proof. rewrite elem_of_sort_unique. apply list_elem_of_fmap. Qed.

Lemma znth_replicate {A} n i (d : A) : znth (replicate n d) i d = d.
Proof. revert i. induction n as [|n IH]; intros i; [done|]. simpl. destruct (i =? 0); [done|apply IH]. Qed.

(** * What a state says of a machine *)

Definition dn_contains (s : M68kDnValueState) (v : Z) : Prop := dn_finite s = true -> v mod 65536 ∈ dn_values s.
Definition an_contains (s : M68kAnValueState) (v : Z) : Prop := an_finite s = true -> v mod 2 ^ 24 ∈ an_addrs s.

(** The states of the eight data registers, and of A0 to A6, hold the registers' values. *)
Definition state_holds (data address : Z -> Z) (s : M68kRegisterState) : Prop :=
  length (dn s) = 8%nat /\ length (an s) = 8%nat /\
  (forall r, 0 <= r < 8 -> dn_contains (get_dn s r) (data r)) /\
  (forall r, 0 <= r < 7 -> an_contains (get_an s r) (address r)).

(** * The address registers of an operation *)

Section Address.
Context (m : Machine).

Definition is_address_register (ea : M68kEffectiveAddress) (reg : Z) : bool :=
  (ea_mode ea =b EA_address_register) && (ea_reg ea =? reg).
Definition updates_register (ea : M68kEffectiveAddress) (reg : Z) : bool := ea_updates ea && (ea_reg ea =? reg).

(** The registers of A0 to A6 that an operation writes, its automatic updates included. *)
Definition address_writes (op : M68kIrOperation) (reg : Z) : bool :=
  match op_kind op with
  | IR_write_movea | IR_add_address | IR_subtract_address | IR_load_effective_address | IR_add_quick | IR_subtract_quick
  | IR_link_frame | IR_unlink_frame | IR_read_user_stack_pointer => is_address_register (op_destination_ea op) reg
  | IR_exchange_registers => is_address_register (op_source_ea op) reg || is_address_register (op_destination_ea op) reg
  | IR_movem_transfer => (op_movem_direction op =b MD_memory_to_registers) && Z.testbit (op_movem_register_mask op) (reg + 8)
  | _ => false
  end || updates_register (op_source_ea op) reg || updates_register (op_destination_ea op) reg.

(** The value written, for the two kinds whose result is followed. *)
Definition written_address (op : M68kIrOperation) (reg : Z) : option Z :=
  match op_kind op with
  | IR_load_effective_address =>
      if m68k_is_statically_foldable_control_ea (op_source_ea op) then Some (m68k_canonical_ea_address (op_source_ea op)) else None
  | IR_add_address =>
      if (op_size op =b W_word) && (ea_mode (op_source_ea op) =b EA_immediate)
      then Some (u32 (address_register m reg + i16 (ea_immediate_value (op_source_ea op)))) else None
  | _ => None
  end.

Definition address_after (op : M68kIrOperation) (reg v : Z) : Prop :=
  if address_writes op reg then match written_address op reg with Some result => v = result | None => is_u32 v end
  else v = address_register m reg.
End Address.

(** * The registers written are listed *)

Definition multiplies (i : M68kDecodedInstruction) : bool :=
  match i_kind i with
  | K_multiply_signed_word | K_multiply_unsigned_word | K_divide_signed_word | K_divide_unsigned_word => true
  | _ => false
  end.

Lemma elem_of_reg_if b r x : x ∈ reg_if b r <-> b = true /\ x = r.
Proof. destruct b; simpl; [rewrite list_elem_of_singleton|rewrite elem_of_nil]; intuition congruence. Qed.

Lemma movem_listed i shift r : i_movem_direction i = MD_memory_to_registers -> 0 <= shift <= 8 -> 0 <= r < 8 ->
  Z.testbit (i_movem_register_mask i) (r + shift) = true -> r ∈ movem_registers i shift.
Proof.
  intros Hd Hs Hr Ht. unfold movem_registers. rewrite bool_decide_eq_true_2 by done. apply list_elem_of_In, filter_In. split.
  - assert (r = 0 \/ r = 1 \/ r = 2 \/ r = 3 \/ r = 4 \/ r = 5 \/ r = 6 \/ r = 7) as Hc by lia.
    destruct_or! Hc; subst; simpl; tauto.
  - rewrite u16_id.
    + rewrite Z.shiftl_1_l, bit_test by lia. done.
    + unfold is_u16. rewrite Z.shiftl_1_l. pose proof (Z.pow_le_mono_r 2 (r + shift) 15 ltac:(lia) ltac:(lia)).
      pose proof (Z.pow_pos_nonneg 2 (r + shift)). lia.
Qed.

(** Every data register an operation writes is listed, but for the products and quotients. *)
Lemma data_listed i r : multiplies i = false -> 0 <= r < 8 -> data_writes (lift_m68k_instruction i) r = true ->
  r ∈ m68k_written_data_registers i.
Proof.
  intros Hm Hr. unfold multiplies in Hm. unfold data_writes, m68k_written_data_registers, lift_m68k_instruction, lift_kind. cbn [op_kind].
  assert (forall ea, M68kFinite.is_data_register ea r = true -> r ∈ reg_if (ea_is_dn ea) (ea_reg ea)) as Hea.
  { intros ea. unfold M68kFinite.is_data_register, ea_is_dn. rewrite andb_true_iff, Z.eqb_eq, elem_of_reg_if. intuition congruence. }
  destruct (i_kind i); cbn [op_destination op_source_ea op_destination_ea op_movem_direction op_movem_register_mask]; intros Hw;
    try discriminate; try (by apply Hea).
  - apply Z.eqb_eq in Hw as <-. by apply list_elem_of_singleton.
  - apply Z.eqb_eq in Hw as ->. by apply list_elem_of_singleton.
  - apply elem_of_app. apply orb_true_iff in Hw as [Hw|Hw]; [left|right]; by apply Hea.
  - apply andb_true_iff in Hw as [Hd%bool_decide_eq_true Ht]. apply movem_listed; [done|lia|done|]. by rewrite Z.add_0_r.
  - apply Hea. by destruct (ea_mode (i_destination_ea i) =b EA_data_register).
Qed.

(** Every one of A0 to A6 an operation writes is listed. *)
Lemma address_listed i r : 0 <= r < 7 -> address_writes (lift_m68k_instruction i) r = true -> r ∈ m68k_written_address_registers i.
Proof.
  intros Hr. unfold address_writes, m68k_written_address_registers. rewrite !orb_true_iff, !elem_of_app.
  assert (forall ea, updates_register ea r = true -> r ∈ reg_if (ea_updates ea) (ea_reg ea)) as Hup.
  { intros ea. unfold updates_register. rewrite andb_true_iff, Z.eqb_eq, elem_of_reg_if. intuition congruence. }
  assert (forall ea, is_address_register ea r = true -> r ∈ reg_if (ea_is_an ea) (ea_reg ea)) as Hea.
  { intros ea. unfold is_address_register, ea_is_an. rewrite andb_true_iff, Z.eqb_eq, elem_of_reg_if. intuition congruence. }
  intros [[Hw|Hw]|Hw]; [left|right; left; by apply Hup|right; right; by apply Hup].
  revert Hw. unfold lift_m68k_instruction, lift_kind. cbn [op_kind].
  destruct (i_kind i); cbn [op_destination op_source_ea op_destination_ea op_movem_direction op_movem_register_mask]; intros Hw;
    try discriminate; try (by apply Hea).
  - apply elem_of_app. apply orb_true_iff in Hw as [Hw|Hw]; [left|right]; by apply Hea.
  - apply andb_true_iff in Hw as [Hd%bool_decide_eq_true Ht]. apply movem_listed; [done|lia|lia|done].
  - by destruct (ea_mode (i_destination_ea i) =b EA_data_register).
Qed.

(** * Assigning one register *)

Lemma get_set_dn s reg v r : length (dn s) = 8%nat -> 0 <= reg < 8 -> 0 <= r ->
  get_dn (set_dn reg v s) r = if r =? reg then v else get_dn s r.
Proof. intros Hl Hreg Hr. unfold get_dn, set_dn. cbn [dn]. apply znth_insert; [unfold zlen; lia|done]. Qed.

Lemma get_set_an s reg v r : length (an s) = 8%nat -> 0 <= reg < 8 -> 0 <= r ->
  get_an (set_an reg v s) r = if r =? reg then v else get_an s r.
Proof. intros Hl Hreg Hr. unfold get_an, set_an. cbn [an]. apply znth_insert; [unfold zlen; lia|done]. Qed.

Lemma dn_unknown_contains v : dn_contains dn_unknown v.
Proof. done. Qed.
Lemma an_unknown_contains v : an_contains an_unknown v.
Proof. done. Qed.
#[export] Hint Resolve dn_unknown_contains an_unknown_contains : word.

(** Forgetting registers only loses information, and loses all of the listed ones. *)
Lemma forget_dn l : forall s r v, length (dn s) = 8%nat -> Forall (fun reg => 0 <= reg < 8) l -> 0 <= r < 8 ->
  r ∈ l \/ dn_contains (get_dn s r) v -> dn_contains (get_dn (fold_left (fun s reg => set_dn reg dn_unknown s) l s) r) v.
Proof.
  induction l as [|reg l IH]; intros s r v Hl Hreg Hr Hin; cbn [fold_left]; [by destruct Hin as [?%elem_of_nil|]|].
  apply Forall_cons in Hreg as [Hreg Hrest]. apply IH; [unfold set_dn; cbn [dn]; by rewrite length_insert|done|done|].
  rewrite get_set_dn by lia. destruct (Z.eqb_spec r reg) as [->|Hne]; [right; auto with word|].
  destruct Hin as [[->|Hin]%elem_of_cons|Hin]; [done|by left|by right].
Qed.

Lemma forget_an l : forall s r v, length (an s) = 8%nat -> Forall (fun reg => 0 <= reg < 8) l -> 0 <= r < 8 ->
  r ∈ l \/ an_contains (get_an s r) v -> an_contains (get_an (fold_left (fun s reg => set_an reg an_unknown s) l s) r) v.
Proof.
  induction l as [|reg l IH]; intros s r v Hl Hreg Hr Hin; cbn [fold_left]; [by destruct Hin as [?%elem_of_nil|]|].
  apply Forall_cons in Hreg as [Hreg Hrest]. apply IH; [unfold set_an; cbn [an]; by rewrite length_insert|done|done|].
  rewrite get_set_an by lia. destruct (Z.eqb_spec r reg) as [->|Hne]; [right; auto with word|].
  destruct Hin as [[->|Hin]%elem_of_cons|Hin]; [done|by left|by right].
Qed.

Lemma set_dn_lengths reg v s : length (dn (set_dn reg v s)) = length (dn s) /\ an (set_dn reg v s) = an s.
Proof. unfold set_dn. cbn. by rewrite length_insert. Qed.
Lemma set_an_lengths reg v s : length (an (set_an reg v s)) = length (an s) /\ dn (set_an reg v s) = dn s.
Proof. unfold set_an. cbn. by rewrite length_insert. Qed.

Lemma fold_set_dn l : forall s, length (dn (fold_left (fun s reg => set_dn reg dn_unknown s) l s)) = length (dn s) /\
  an (fold_left (fun s reg => set_dn reg dn_unknown s) l s) = an s.
Proof.
  induction l as [|reg l IH]; intros s; [done|]. cbn [fold_left]. destruct (IH (set_dn reg dn_unknown s)) as [-> ->]. apply set_dn_lengths.
Qed.
Lemma fold_set_an l : forall s, length (an (fold_left (fun s reg => set_an reg an_unknown s) l s)) = length (an s) /\
  dn (fold_left (fun s reg => set_an reg an_unknown s) l s) = dn s.
Proof.
  induction l as [|reg l IH]; intros s; [done|]. cbn [fold_left]. destruct (IH (set_an reg an_unknown s)) as [-> ->]. apply set_an_lengths.
Qed.
