(* ===== verification/M68kStaticSound.v ===== *)
(** Soundness of the finite register values of [M68kStaticValues]: what an
    instruction leaves in the registers, by the semantics of [M68kFiniteSound], lies
    in the state the transfer computes; and the two cases where it does not. *)

From S2P Require Import Prelude M68kInstruction M68kArithmetic M68kShift M68kLegality M68kDecode M68kShape M68kDecodeSpec.
From S2P Require Import M68kEffects M68kFinite M68kFiniteSound M68kStaticValues.

(** * What the decoder guarantees *)

(** The operands the rules of the transfer take for granted: an immediate source
    for ANDI, SUBI and SUBQ, no operand that updates a register for MOVEQ, registers
    in range, and a shift count below 256. *)
Record operands_ok (i : M68kDecodedInstruction) : Prop := {
  oo_source : ea_ok (i_source_ea i);
  oo_destination : ea_ok (i_destination_ea i);
  oo_moveq : i_kind i = K_moveq -> ea_updates (i_source_ea i) = false /\ ea_updates (i_destination_ea i) = false /\ -128 <= i_operand i < 128;
  oo_immediate : i_kind i = K_andi \/ i_kind i = K_subi \/ i_kind i = K_subq -> ea_mode (i_source_ea i) = EA_immediate;
}.

Definition count_ok (i : M68kDecodedInstruction) : Prop :=
  i_kind i = K_shift_rotate -> ea_mode (i_source_ea i) = EA_immediate -> ea_immediate_value (i_source_ea i) < 256.

(** * Low words *)

Lemma insert_low_word old low : insert_low W_word old low mod 65536 = low mod 65536.
Proof.
  unfold insert_low. rewrite !wrap_bits. change (2 ^ size_bits W_word) with 65536.
  replace (old - old mod 65536 + low mod 65536) with (low mod 65536 + (old / 65536) * 65536) by (pose proof (Z.div_mod old 65536); lia).
  rewrite Z.mod_add by lia. apply Z.mod_mod. lia.
Qed.

Lemma insert_low_byte old low : insert_low W_byte old low mod 65536 = (old mod 65536) / 256 * 256 + low mod 256.
Proof.
  unfold insert_low. rewrite !wrap_bits. change (2 ^ size_bits W_byte) with 256. Z.div_mod_to_equations. lia.
Qed.

Lemma high_byte x : x mod 65536 .& 0xFF00 = (x mod 65536) / 256 * 256.
Proof.
  set (w := x mod 65536). pose proof (Z.mod_pos_bound x 65536 ltac:(lia)) as Hw. fold w in Hw. clearbody w.
  replace (w .& 0xFF00) with ((w .>> 8) .<< 8).
  - rewrite Z.shiftl_mul_pow2, Z.shiftr_div_pow2 by lia. done.
  - apply Z.bits_inj'. intros n Hn. rewrite Z.land_spec, Z.shiftl_spec by done.
    destruct (decide (n < 8)).
    + rewrite Z.testbit_neg_r by lia. replace (Z.testbit 0xFF00 n) with false; [by rewrite andb_false_r|].
      assert (n = 0 \/ n = 1 \/ n = 2 \/ n = 3 \/ n = 4 \/ n = 5 \/ n = 6 \/ n = 7) as Hc by lia. destruct_or! Hc; by subst.
    + rewrite Z.shiftr_spec by lia. replace (n - 8 + 8) with n by lia. destruct (decide (n < 16)).
      * replace (Z.testbit 0xFF00 n) with true; [by rewrite andb_true_r|].
        assert (n = 8 \/ n = 9 \/ n = 10 \/ n = 11 \/ n = 12 \/ n = 13 \/ n = 14 \/ n = 15) as Hc by lia. destruct_or! Hc; by subst.
      * rewrite (Z.bits_above_log2 w n); [done|lia|]. destruct (decide (w = 0)) as [->|]; [simpl; lia|]. apply Z.log2_lt_pow2; [lia|].
        pose proof (Z.pow_le_mono_r 2 16 n). lia.
Qed.

Lemma high_byte_same x y : is_u16 y -> (x mod 65536) / 256 = y / 256 -> (y .& 0xFF00) = (x mod 65536) / 256 * 256.
Proof. intros Hy ->. pose proof (high_byte y) as H. unfold is_u16 in Hy. by rewrite Z.mod_small in H by lia. Qed.

Lemma word_of_bytes w b : 0 <= w < 65536 -> 0 <= b < 256 -> u16 ((w / 256 * 256) .| b) = w / 256 * 256 + b.
Proof.
  intros Hw Hb. pose proof (lor_disjoint (w / 256 * 256) b 8 ltac:(lia) Hb) as H. change (2 ^ 8) with 256 in H.
  rewrite Z.mod_mul, Z.sub_0_r in H by lia. rewrite H. apply u16_id. unfold is_u16. Z.div_mod_to_equations. lia.
Qed.

Lemma wrap_word x : wrap W_word x = x mod 65536.
Proof. apply wrap_bits. Qed.

Lemma u16_of_u32 x : u16 (u32 x) = u16 x.
Proof. apply (mod_mod_pow x 16 32). lia. Qed.

Lemma logical_result x size : lr_result (m68k_evaluate_logical x size) = wrap size x.
Proof. apply land_width_mask. Qed.

(** A finite state mapped by [f] holds what [f] gives, the value it held being mapped. *)
Lemma map_dn_contains f s x v : dn_contains s x -> f (x mod 65536) = v mod 65536 -> dn_contains (map_dn f s) v.
Proof.
  intros Hs Hf. unfold map_dn. destruct (dn_finite s) eqn:E; [|done]. intros _. cbn [dn_values]. rewrite elem_of_map_sorted.
  exists (x mod 65536). auto.
Qed.

Lemma map_dn_capped_contains f s x v : dn_contains s x -> f (x mod 65536) = v mod 65536 -> dn_contains (map_dn_capped f s) v.
Proof.
  intros Hs Hf. pose proof (map_dn_contains f s x v Hs Hf) as H. unfold map_dn_capped, map_dn in *. destruct (dn_finite s); [|done]. cbv zeta.
  by destruct (value_cap <? _).
Qed.

Lemma operand_word m ea source : machine_ok m -> operand_value m ea W_word = Some source -> 0 <= source < 65536.
Proof.
  intros Hm Hs. assert (forall address, Some (read_be (bus_byte m) address (size_bytes W_word)) = Some source -> 0 <= source < 65536) as Hbe.
  { intros address [= <-]. apply (read_be_range (bus_byte m) 2 address), Hm. }
  unfold operand_value in Hs. destruct (ea_mode ea); try (injection Hs as <-; apply (wrap_range W_word));
    destruct (operand_address m ea W_word); try discriminate; cbn [mbind option_bind] in Hs; destruct (_ && _); try discriminate; by eapply Hbe.
Qed.

Section Rules.
Context (m : Machine) (Hm : machine_ok m) (i : M68kDecodedInstruction) (Hi : operands_ok i).
#[local] Abbreviation op := (lift_m68k_instruction i).
#[local] Abbreviation src := (i_source_ea i).
#[local] Abbreviation dst := (i_destination_ea i).
#[local] Abbreviation reg := (ea_reg dst).
#[local] Abbreviation old := (data_register m reg).

Context (v : Z) (Hv : data_after m op reg v).

Lemma destination_is : ea_is_dn dst = true -> is_data_register dst reg = true.
Proof using Type. unfold ea_is_dn, is_data_register. intros ->. apply Z.eqb_refl. Qed.

(** A word written by a two-operand kind. *)
Lemma word_written : ea_is_dn dst = true -> i_size i = W_word -> (exists x, binary_result (lift_kind i) W_word 0 0 = Some x) ->
  exists source low, operand_value m src W_word = Some source /\ binary_result (lift_kind i) W_word source old = Some low /\
    v mod 65536 = low mod 65536.
Proof using Hv.
  intros Hd Hs Hx. destruct (binary_after m op reg v Hv) as (source & low & Hso & Hb & ->); [by cbn; rewrite Hs|by apply destination_is|].
  cbn in Hso, Hb. rewrite Hs in *. exists source, low. split_and!; [done..|]. cbn. rewrite Hs. apply insert_low_word.
Qed.

Lemma immediate_value size : ea_mode src = EA_immediate -> operand_value m src size = Some (wrap size (ea_immediate_value src)).
Proof using Type. intros H. unfold operand_value. by rewrite H. Qed.

Lemma and_word_sound s : i_kind i = K_andi -> ea_is_dn dst = true -> i_size i = W_word -> dn_contains s old ->
  dn_contains (and_word (u16 (ea_immediate_value src .& 0xFFFF)) s) v.
Proof using Hi Hv.
  intros Hk Hd Hs Hold. destruct word_written as (source & low & Hso & Hb & Hlow); [done..|unfold lift_kind; rewrite Hk; by eexists|].
  rewrite immediate_value in Hso by (apply Hi; auto). apply (inj Some) in Hso as <-. unfold lift_kind in Hb. rewrite Hk in Hb. apply (inj Some) in Hb as <-.
  rewrite logical_result, !wrap_word, Z.mod_mod in Hlow by lia.
  pose proof (land_mod old (ea_immediate_value src mod 65536) 16 ltac:(lia)) as Hl. change (2 ^ 16) with 65536 in Hl. rewrite Z.mod_mod in Hl by lia.
  rewrite land_ffff. unfold u16. rewrite Z.mod_mod by lia. set (mask := ea_immediate_value src mod 65536) in *.
  assert (is_u16 mask) as Hmask by (apply Z.mod_pos_bound; lia). unfold is_u16 in Hmask. clearbody mask.
  assert (0 <= old mod 65536 .& mask <= mask) as Hle by (rewrite Z.land_comm; apply land_le; [lia|apply Z.mod_pos_bound; lia]).
  unfold and_word. destruct (dn_finite s) eqn:Hf.
  - apply (map_dn_contains _ s old); [done|]. rewrite Hlow, Hl. apply Z.mod_small. lia.
  - destruct (count_ones 16 mask <=? 8) eqn:Hc; [|done]. intros _. cbn [dn_values]. rewrite (merge_sort_Permutation Z.le), Hlow, Hl.
    apply (submasks_complete mask ltac:(unfold is_u32; lia) 16 256); [lia| |lia|].
    + apply Z.leb_le in Hc. pose proof (Z.pow_le_mono_r 2 _ _ ltac:(lia) Hc). change (Z.of_nat 256) with (2 ^ 8). done.
    + by rewrite <- Z.land_assoc, Z.land_diag.
Qed.

Lemma old_range : is_u32 old.
Proof using Hm. apply Hm. Qed.

(** A shift of a data register by an immediate count. *)
Lemma shift_written kind : i_kind i = K_shift_rotate -> i_shift_rotate_kind i = kind -> i_size i = W_word -> ea_is_dn dst = true ->
  ea_mode src = EA_immediate ->
  v mod 65536 = sh_result (m68k_evaluate_shift_rotate kind old (ea_immediate_value src) W_word (extend_flag m)) mod 65536.
Proof using Hv.
  intros Hk Hkind Hs Hd Hsrc. assert (Hw := Hv). unfold data_after in Hw.
  assert (op_kind op = IR_shift_rotate_register) as Hop by (cbn; unfold lift_kind; rewrite Hk; unfold ea_is_dn in Hd; by rewrite Hd).
  replace (data_writes op reg) with true in Hw by (unfold data_writes; rewrite Hop; symmetry; by apply destination_is).
  unfold written_value in Hw. rewrite Hop in Hw. apply (inj Some) in Hw. subst v. cbn [op_size op_source_ea op_shift_rotate_kind lift_m68k_instruction].
  rewrite Hs, Hkind. unfold shift_count. rewrite Hsrc. apply insert_low_word.
Qed.

Lemma count_cut : count_ok i -> i_kind i = K_shift_rotate -> ea_mode src = EA_immediate ->
  ea_immediate_value src .& 0xFF = ea_immediate_value src /\ 0 <= ea_immediate_value src.
Proof using Hi.
  intros Hc Hk Hsrc. specialize (Hc Hk Hsrc). destruct (eo_immediate _ (oo_source i Hi)) as [H0 _]. split; [|done].
  rewrite land_ff. apply u8_id. done.
Qed.

Lemma lsr_sound s : count_ok i -> i_kind i = K_shift_rotate -> i_shift_rotate_kind i = SR_lsr -> i_size i = W_word -> ea_is_dn dst = true ->
  ea_mode src = EA_immediate -> dn_contains s old ->
  let count := ea_immediate_value src .& 0xFF in
  dn_contains (map_dn_capped (fun value => if 16 <=? count then 0 else u16 (value .>> count)) s) v.
Proof using Hi Hv.
  intros Hc Hk Hkind Hs Hd Hsrc Hold count. destruct (count_cut Hc Hk Hsrc) as [Hcut H0]. subst count. rewrite Hcut.
  apply (map_dn_capped_contains _ s old); [done|]. rewrite (shift_written SR_lsr), shift_closed by done. cbv zeta beta. rewrite (wrap_word old).
  pose proof (Z.mod_pos_bound old 65536 ltac:(lia)) as Hb. set (w := old mod 65536) in *. clearbody w. set (c := ea_immediate_value src) in *. clearbody c.
  pose proof (Z.pow_pos_nonneg 2 c ltac:(lia) H0). destruct (Z.leb_spec 16 c) as [Hc16|Hc16].
  - pose proof (Z.pow_le_mono_r 2 16 c ltac:(lia) Hc16) as Hp. change (2 ^ 16) with 65536 in Hp. rewrite (Z.div_small w) by lia. done.
  - rewrite Z.shiftr_div_pow2 by done. done.
Qed.

Lemma lsl_sound s : count_ok i -> i_kind i = K_shift_rotate -> i_shift_rotate_kind i = SR_lsl -> i_size i = W_word -> ea_is_dn dst = true ->
  ea_mode src = EA_immediate -> dn_contains s old ->
  let count := ea_immediate_value src .& 0xFF in
  dn_contains (map_dn_capped (fun value => if 16 <=? count then 0 else u16 (u32 (value .<< count) .& 0xFFFF)) s) v.
Proof using Hi Hv.
  intros Hc Hk Hkind Hs Hd Hsrc Hold count. destruct (count_cut Hc Hk Hsrc) as [Hcut H0]. subst count. rewrite Hcut.
  apply (map_dn_capped_contains _ s old); [done|]. rewrite (shift_written SR_lsl), shift_closed by done. cbv zeta beta. rewrite (wrap_word old), (wrap_word (_ * _)), Z.mod_mod by lia.
  set (w := old mod 65536). clearbody w. set (c := ea_immediate_value src) in *. clearbody c. destruct (Z.leb_spec 16 c) as [Hc16|Hc16].
  - replace c with (c - 16 + 16) by lia. rewrite Z.pow_add_r, Z.mul_assoc by lia. change (2 ^ 16) with 65536. by rewrite Z.mod_mul.
  - rewrite Z.shiftl_mul_pow2, land_ffff, u16_of_u32 by done. unfold u16. by rewrite Z.mod_mod.
Qed.

Lemma add_self_sound s : i_kind i = K_add -> i_size i = W_word -> ea_is_dn src = true -> ea_is_dn dst = true -> ea_reg src = reg ->
  dn_contains s old -> dn_contains (map_dn_capped (fun value => u16 (u32 (value + value))) s) v.
Proof using Hv.
  intros Hk Hs Hd' Hd Hreg Hold. destruct word_written as (source & low & Hso & Hb & Hlow); [done..|unfold lift_kind; rewrite Hk; by eexists|].
  assert (source = wrap W_word old) as ->.
  { unfold operand_value in Hso. unfold ea_is_dn in Hd'. apply bool_decide_eq_true in Hd'. rewrite Hd', Hreg in Hso. by injection Hso. }
  unfold lift_kind in Hb. rewrite Hk in Hb. apply (inj Some) in Hb as <-. rewrite addition_result, (wrap_word old), (wrap_word (_ + _)) in Hlow.
  apply (map_dn_capped_contains _ s old); [done|]. rewrite Hlow, u16_of_u32. unfold u16. Z.div_mod_to_equations. lia.
Qed.

(** A subtraction of a byte or word immediate. *)
Lemma subtract_sound s : i_kind i = K_subi \/ i_kind i = K_subq -> ea_is_dn dst = true -> i_size i = W_byte \/ i_size i = W_word ->
  dn_contains s old -> dn_contains (map_dn (subtract_low (i_size i =b W_byte) (ea_immediate_value src)) s) v.
Proof using Hi Hv.
  intros Hk Hd Hs Hold. apply (map_dn_contains _ s old); [done|].
  destruct (binary_after m op reg v Hv) as (source & low & Hso & Hb & ->).
  { cbn. unfold lift_kind. destruct Hk as [-> | ->]; by eexists. }
  { by apply destination_is. }
  cbn in Hso, Hb. rewrite immediate_value in Hso by (apply Hi; tauto). apply (inj Some) in Hso as <-. cbn.
  assert (low = wrap (i_size i) (old - wrap (i_size i) (ea_immediate_value src))) as ->.
  { unfold lift_kind in Hb. destruct Hk as [Hk|Hk]; rewrite Hk in Hb; apply (inj Some) in Hb as <-; apply subtraction_result. }
  set (imm := ea_immediate_value src). clearbody imm. unfold subtract_low. destruct Hs as [-> | ->].
  - rewrite bool_decide_eq_true_2, insert_low_byte, high_byte, land_ff by done. rewrite !wrap_bits. change (2 ^ size_bits W_byte) with 256.
    set (w := old mod 65536). assert (0 <= w < 65536) as Hw by (apply Z.mod_pos_bound; lia).
    assert (u8 (u32 (w - imm)) = (old - imm mod 256) mod 256 mod 256) as ->.
    { unfold u8, u32, w. Z.div_mod_to_equations. lia. }
    set (b := (old - imm mod 256) mod 256 mod 256). assert (0 <= b < 256) as Hb' by (apply Z.mod_pos_bound; lia). clearbody b w.
    by rewrite word_of_bytes.
  - rewrite bool_decide_eq_false_2, insert_low_word, (wrap_word imm), (wrap_word (_ - _)), land_ffff by done. unfold u16, u32.
    Z.div_mod_to_equations. lia.
Qed.

Lemma load_byte_sound s : i_kind i = K_move -> i_size i = W_byte -> ea_is_dn dst = true -> dn_contains s old -> dn_contains (load_byte s) v.
Proof using Hv.
  intros Hk Hs Hd Hold. destruct (binary_after m op reg v Hv) as (source & low & Hso & Hb & ->).
  { cbn. unfold lift_kind. rewrite Hk. by eexists. }
  { by apply destination_is. }
  cbn in *. unfold lift_kind in Hb. rewrite Hk in Hb. apply (inj Some) in Hb as <-. rewrite Hs. unfold load_byte.
  destruct (dn_values s) as [|first rest] eqn:Hl; [done|]. destruct (dn_finite s) eqn:Hf; [|done].
  destruct (forallb _ _) eqn:Hall; [|done]. intros _. cbn [dn_values]. specialize (Hold Hf). rewrite Hl in Hold.
  rewrite forallb_forall in Hall. specialize (Hall _ (proj1 (list_elem_of_In _ _) Hold)). apply Z.eqb_eq in Hall. rewrite <- Hall, high_byte.
  rewrite insert_low_byte. apply list_elem_of_fmap. exists (source mod 256). pose proof (Z.mod_pos_bound source 256 ltac:(lia)) as Hb.
  split; [|apply elem_of_seqZ; lia]. set (w := old mod 65536). assert (0 <= w < 65536) as Hw by (apply Z.mod_pos_bound; lia). clearbody w.
  set (b := source mod 256) in *. clearbody b.
  by rewrite word_of_bytes.
Qed.

End Rules.

Lemma moveq_sound_word m i v : operands_ok i -> i_kind i = K_moveq ->
  data_after m (lift_m68k_instruction i) (data_register_index (i_destination i)) v -> dn_contains (mkDn true [u16 (i_operand i)]) v.
Proof.
  intros Hi Hk Hw. unfold data_after in Hw.
  replace (data_writes (lift_m68k_instruction i) (data_register_index (i_destination i))) with true in Hw
    by (unfold data_writes; cbn; unfold lift_kind; rewrite Hk; symmetry; apply Z.eqb_refl).
  unfold written_value in Hw. cbn [op_kind op_operand lift_m68k_instruction] in Hw. unfold lift_kind in Hw. rewrite Hk in Hw.
  apply (inj Some) in Hw. subst v. destruct (oo_moveq i Hi Hk) as (_ & _ & Hop). intros _. cbn [dn_values]. apply list_elem_of_singleton.
  unfold u16, u32, i8. Z.div_mod_to_equations. lia.
Qed.

(** * Immutable tables *)

Section Tables.
Context (m : Machine) (Hm : machine_ok m) `{environment : M68kStaticDiscoveryEnvironment}.

(** What is read of the image is what the bus holds. *)
Definition environment_true : Prop :=
  forall lo length bytes, read_immutable_cartridge_bytes lo length = Some bytes ->
    forall k, 0 <= k < zlen bytes -> znth bytes k 0 = bus_byte m (lo + k).

(** An annotation of the table says which positions its index takes. *)
Definition annotation_true (ea : M68kEffectiveAddress) : Prop :=
  forall stride count, logical_table_descriptor_hint (u32 (ea_pc_base_address ea + ea_displacement ea)) 2 = Some (stride, count) ->
    exists k, 0 <= k < count /\ data_register m (ea_index_reg ea) mod 65536 = k * stride.

Lemma selector_sound current ea : annotation_true ea -> dn_contains (get_dn current (ea_index_reg ea)) (data_register m (ea_index_reg ea)) ->
  dn_contains (table_selector current ea) (data_register m (ea_index_reg ea)).
Proof using Type.
  intros Ha Hc. unfold table_selector. destruct (_ && _); [|done]. destruct (logical_table_descriptor_hint _ _) as [[stride count]|] eqn:Hh; [|done].
  destruct (_ && _) eqn:Hb; [|done]. destruct (Ha stride count Hh) as (k & Hk & Hv). intros _. cbn [dn_values]. rewrite elem_of_map_sorted.
  exists k. split; [|apply elem_of_seqZ; lia]. rewrite <- Hv. symmetry. apply u16_id. apply Z.mod_pos_bound. lia.
Qed.

Definition entry_address (ea : M68kEffectiveAddress) (low_word : Z) : Z := ea_pc_base_address ea + ea_displacement ea + i16 low_word.

Lemma entry_addresses_exact ea values addresses : entry_addresses ea values = Some addresses ->
  addresses = map (entry_address ea) values /\ Forall (fun a => 0 <= a < 2 ^ 24 /\ a mod 2 = 0) addresses.
Proof using Type.
  revert addresses. induction values as [|x values IH]; intros addresses; cbn [entry_addresses]; [by intros [= <-]|].
  destruct (_ || _) eqn:Hr; [done|]. destruct (negb _) eqn:He; [done|]. destruct (entry_addresses ea values) as [rest|] eqn:Hrest; [|done].
  cbn [mbind option_bind]. intros [= <-]. destruct (IH rest eq_refl) as [-> Hall]. split; [done|]. constructor; [|done].
  apply orb_false_iff in Hr as [H0%Z.ltb_ge H1%Z.ltb_ge]. apply negb_false_iff, Z.eqb_eq in He.
  pose proof (land_ones_mod (ea_pc_base_address ea + ea_displacement ea + i16 x) 1 ltac:(lia)) as Ho. change (2 ^ 1 - 1) with 1 in Ho. change (2 ^ 1) with 2 in Ho.
  lia.
Qed.

Lemma fold_min l : forall d, fold_left Z.min l d <= d /\ forall a, a ∈ l -> fold_left Z.min l d <= a.
Proof using Type.
  induction l as [|x l IH]; intros d; cbn [fold_left]; [split; [lia|by intros ? ?%elem_of_nil]|].
  destruct (IH (Z.min d x)) as [H1 H2]. split; [lia|]. intros a [->|Ha]%elem_of_cons; [lia|auto].
Qed.
Lemma fold_max l : forall d, d <= fold_left Z.max l d /\ forall a, a ∈ l -> a <= fold_left Z.max l d.
Proof using Type.
  induction l as [|x l IH]; intros d; cbn [fold_left]; [split; [lia|by intros ? ?%elem_of_nil]|].
  destruct (IH (Z.max d x)) as [H1 H2]. split; [lia|]. intros a [->|Ha]%elem_of_cons; [lia|auto].
Qed.

Lemma table_word_sound ea selector source values : environment_true -> dn_contains selector (data_register m (ea_index_reg ea)) ->
  operand_value m ea W_word = Some source -> m68k_fold_immutable_offset_table ea selector = Some values -> source ∈ values.
Proof using Hm.
  intros Henv Hsel Hso. unfold m68k_fold_immutable_offset_table.
  destruct (ea_mode ea =b EA_pc_index8) eqn:Hmode; cbn [negb]; [|done]. apply bool_decide_eq_true in Hmode.
  destruct (ea_index_is_address ea || ea_index_is_long ea) eqn:Hidx; [done|]. apply orb_false_iff in Hidx as [Hia Hil].
  set (selected := dn_values selector) in *. destruct selected as [|x rest] eqn:Hl; [done|]. rewrite <- Hl. clear x rest Hl.
  destruct (dn_finite selector) eqn:Hf; [|done]. cbn [negb orb]. specialize (Hsel Hf). fold selected in Hsel.
  destruct (value_cap <? zlen selected); [done|]. destruct (entry_addresses ea selected) as [addresses|] eqn:Ha; [|done]. cbn [mbind option_bind].
  apply entry_addresses_exact in Ha as [Haddr Hall].
  set (lo := fold_left Z.min addresses _). set (hi := fold_left Z.max addresses _).
  destruct (0x10000 <? hi - lo + 2); [done|]. destruct (read_immutable_cartridge_bytes lo (u32 (hi - lo + 2))) as [bytes|] eqn:Hread; [|done].
  cbn [mbind option_bind]. destruct (zlen bytes =? hi - lo + 2) eqn:Hlen; [|done]. cbn [negb]. apply Z.eqb_eq in Hlen.
  destruct (value_cap <? _); [done|]. intros [= <-]. rewrite elem_of_map_sorted.
  set (address := entry_address ea (data_register m (ea_index_reg ea) mod 65536)).
  assert (address ∈ addresses) as Hin by (rewrite Haddr; by apply list_elem_of_fmap_2).
  exists address. split; [|done]. rewrite Forall_forall in Hall. destruct (Hall address Hin) as [Hrange Heven].
  pose proof (proj2 (fold_min addresses (List.hd 0 addresses)) address Hin) as Hlo. pose proof (proj2 (fold_max addresses (List.hd 0 addresses)) address Hin) as Hhi.
  fold lo in Hlo. fold hi in Hhi.
  assert (operand_address m ea W_word = Some address) as Hop.
  { unfold operand_address. rewrite Hmode. unfold index_value. rewrite Hia, Hil. unfold address, entry_address. do 2 f_equal. symmetry. apply (i16_low _ 16). lia. }
  destruct (read_value m ea W_word source Hso address Hop) as [-> _]. cbn [read_be size_bytes].
  pose proof (Henv _ _ _ Hread (address - lo) ltac:(lia)) as H0. pose proof (Henv _ _ _ Hread (address - lo + 1) ltac:(lia)) as H1.
  replace (lo + (address - lo)) with address in H0 by lia. replace (lo + (address - lo + 1)) with (address + 1) in H1 by lia.
  unfold table_entry. rewrite H0, H1, be16_sum by apply Hm. rewrite !Z.mod_small by (Z.div_mod_to_equations; lia).
  pose proof (bus_u8 m Hm address) as Hb0. pose proof (bus_u8 m Hm (address + 1)) as Hb1. unfold is_u8 in Hb0, Hb1.
  rewrite u16_id by (unfold is_u16; lia). change (256 ^ Z.of_nat 1) with 256. change (256 ^ Z.of_nat 0) with 1. lia.
Qed.
End Tables.

(** * The transfer *)

Section Whole.
Context (m : Machine) (Hm : machine_ok m) `{environment : M68kStaticDiscoveryEnvironment} (Henv : environment_true m).
Context (i : M68kDecodedInstruction) (Hi : operands_ok i) (Hcount : count_ok i) (Hmul : multiplies i = false)
  (Hann : annotation_true m (i_source_ea i)).
Context (s : M68kRegisterState) (Hs : state_holds (data_register m) (address_register m) s).
#[local] Abbreviation op := (lift_m68k_instruction i).
#[local] Abbreviation src := (i_source_ea i).
#[local] Abbreviation dst := (i_destination_ea i).

(** The form whose rule leaves the address registers alone: a byte moved from memory
    to a data register. *)
Definition byte_load : bool := (i_kind i =b K_move) && (i_size i =b W_byte) && ea_is_dn dst && memory_source (ea_mode src).

Definition sound_after (out : M68kRegisterState) : Prop :=
  (forall r v, 0 <= r < 8 -> data_after m op r v -> dn_contains (get_dn out r) v) /\
  (forall r v, 0 <= r < 7 -> byte_load && updates_register src r = false -> address_after m op r v -> an_contains (get_an out r) v).

Lemma data_kept r v : 0 <= r < 8 -> r ∉ m68k_written_data_registers i -> data_after m op r v -> dn_contains (get_dn s r) v.
Proof using Hmul Hs.
  intros Hr Hno Hv. unfold data_after in Hv. destruct (data_writes op r) eqn:Hw; [by destruct Hno; apply data_listed|].
  subst v. by apply Hs.
Qed.

Lemma address_kept r v : 0 <= r < 7 -> r ∉ m68k_written_address_registers i -> address_after m op r v -> an_contains (get_an s r) v.
Proof using Hs.
  intros Hr Hno Hv. unfold address_after in Hv. destruct (address_writes op r) eqn:Hw; [by destruct Hno; apply address_listed|].
  subst v. by apply Hs.
Qed.

(** A rule that gives one data register. *)
Lemma dn_rule reg X : 0 <= reg < 8 -> (forall r, r ∈ m68k_written_data_registers i -> r = reg) ->
  (forall r, r ∈ m68k_written_address_registers i -> byte_load && updates_register src r = true) ->
  (forall v, data_after m op reg v -> dn_contains X v) -> sound_after (set_dn reg X s).
Proof using Hmul Hs.
  intros Hreg Hd Ha HX. destruct Hs as (Hld & Hla & _). split.
  - intros r v Hr Hv. rewrite get_set_dn by lia. destruct (Z.eqb_spec r reg) as [->|Hne]; [by apply HX|].
    apply data_kept; [done| |done]. intros Hin. by apply Hd in Hin.
  - intros r v Hr Hex Hv. change (get_an (set_dn reg X s) r) with (get_an s r). apply address_kept; [done| |done].
    intros Hin. apply Ha in Hin. congruence.
Qed.

(** A rule that gives one address register. *)
Lemma an_rule reg X : 0 <= reg < 8 -> m68k_written_data_registers i = [] -> (forall r, r ∈ m68k_written_address_registers i -> r = reg) ->
  (forall v, address_after m op reg v -> an_contains X v) -> sound_after (set_an reg X s).
Proof using Hmul Hs.
  intros Hreg Hd Ha HX. destruct Hs as (Hld & Hla & _). split.
  - intros r v Hr Hv. change (get_dn (set_an reg X s) r) with (get_dn s r). apply data_kept; [done| |done]. rewrite Hd. by intros ?%elem_of_nil.
  - intros r v Hr Hex Hv. rewrite get_set_an by lia. destruct (Z.eqb_spec r reg) as [->|Hne]; [by apply HX|].
    apply address_kept; [done| |done]. intros Hin. by apply Ha in Hin.
Qed.

Lemma old_held : ea_is_dn dst = true -> dn_contains (get_dn s (ea_reg dst)) (data_register m (ea_reg dst)).
Proof using Hs Hi. intros _. apply Hs, (oo_destination i Hi). Qed.

Lemma listed_range : Forall (fun reg => 0 <= reg < 8) (m68k_written_data_registers i) /\
  Forall (fun reg => 0 <= reg < 8) (m68k_written_address_registers i).
Proof using Hi.
  pose proof (eo_reg _ (oo_source i Hi)) as H1. pose proof (eo_reg _ (oo_destination i Hi)) as H2.
  assert (forall b r, 0 <= r < 8 -> Forall (fun reg => 0 <= reg < 8) (reg_if b r)) as Hif by (intros [] r Hr; cbn; auto).
  assert (forall shift, Forall (fun reg => 0 <= reg < 8) (movem_registers i shift)) as Hmv.
  { intros shift. unfold movem_registers. destruct (_ =b _); [|done]. apply Forall_forall. intros x Hx. apply list_elem_of_In, filter_In in Hx as [Hx _].
    simpl in Hx. lia. }
  split.
  - unfold m68k_written_data_registers. destruct (i_kind i); rewrite ?Forall_app; auto; constructor; auto; [by destruct (i_destination i)|lia].
  - unfold m68k_written_address_registers. rewrite !Forall_app. split_and!; [|by apply Hif..].
    destruct (i_kind i); rewrite ?Forall_app; auto; constructor; auto; lia.
Qed.

Lemma forget_sound : sound_after (forget_written i s).
Proof using Hi Hmul Hs.
  destruct Hs as (Hld & Hla & _). destruct listed_range as [Hrd Hra]. unfold forget_written.
  set (s1 := fold_left (fun s reg => set_dn reg dn_unknown s) (m68k_written_data_registers i) s).
  destruct (fold_set_dn (m68k_written_data_registers i) s) as [Hl1 Ha1]. fold s1 in Hl1, Ha1. split.
  - intros r v Hr Hv. unfold get_dn. rewrite (proj2 (fold_set_an _ s1)). apply forget_dn; [done..|].
    destruct (decide (r ∈ m68k_written_data_registers i)); [by left|right; by apply data_kept].
  - intros r v Hr _ Hv. apply forget_an; [by rewrite Ha1|done|lia|].
    destruct (decide (r ∈ m68k_written_address_registers i)); [by left|right]. unfold get_an. rewrite Ha1. by apply address_kept.
Qed.

Ltac bools := repeat match goal with
  | H : _ && _ = true |- _ => apply andb_true_iff in H as [? ?]
  | H : bool_decide _ = true |- _ => apply bool_decide_eq_true in H
  | H : (_ =? _) = true |- _ => apply Z.eqb_eq in H
  end.

(** The next rule of the transfer. *)
Ltac next_rule E := lazymatch goal with |- sound_after (if ?b then _ else _) => destruct b eqn:E end; bools.

(** The registers listed by a rule whose destination is a data register. *)
Ltac listed := intros ? Hin; unfold m68k_written_data_registers in Hin; match goal with H : i_kind i = _ |- _ => rewrite H in Hin end;
  by apply elem_of_reg_if in Hin as [_ ?].

Lemma dn_mode_not_updated ea : ea_is_dn ea = true -> ea_updates ea = false.
Proof using Type. unfold ea_is_dn, ea_updates. intros ->%bool_decide_eq_true. done. Qed.

Lemma dn_not_updated : ea_is_dn dst = true -> ea_updates dst = false.
Proof using Type. apply dn_mode_not_updated. Qed.

Lemma an_not_updated ea : ea_is_an ea = true -> ea_updates ea = false.
Proof using Type. unfold ea_is_an, ea_updates. intros ->%bool_decide_eq_true. done. Qed.

Lemma mode_not_updated ea mode : ea_mode ea = mode -> mode <> EA_address_postinc -> mode <> EA_address_predec -> ea_updates ea = false.
Proof using Type. unfold ea_updates. intros -> H1 H2. by rewrite !bool_decide_eq_false_2. Qed.

(** No address register is listed, but for those an operand updates. *)
Lemma none_listed : ea_updates src = false -> ea_updates dst = false ->
  match i_kind i with
  | K_moveq | K_andi | K_shift_rotate | K_add | K_subi | K_move => True
  | K_subq => ea_is_dn dst = true
  | _ => False
  end -> m68k_written_address_registers i = [].
Proof using Type.
  intros H1 H2 Hk. unfold m68k_written_address_registers. rewrite H1, H2. cbn [reg_if app]. rewrite app_nil_r.
  destruct (i_kind i); try done. unfold ea_is_dn, ea_is_an in *. apply bool_decide_eq_true in Hk. by rewrite Hk.
Qed.

(** A rule whose destination is an address register, written by the operation. *)
Lemma an_listed : i_kind i = K_lea \/ i_kind i = K_adda -> ea_is_an dst = true -> ea_updates src = false ->
  forall r, r ∈ m68k_written_address_registers i -> r = ea_reg dst.
Proof using Type.
  intros Hk Hd Hsrc r Hin. unfold m68k_written_address_registers in Hin. rewrite Hsrc, (an_not_updated dst Hd) in Hin. cbn [reg_if app] in Hin.
  rewrite app_nil_r in Hin. destruct Hk as [Hk|Hk]; rewrite Hk in Hin; by apply elem_of_reg_if in Hin as [_ ?].
Qed.

Lemma an_written v : i_kind i = K_lea \/ i_kind i = K_adda -> ea_is_an dst = true -> address_after m op (ea_reg dst) v ->
  match written_address m op (ea_reg dst) with Some result => v = result | None => is_u32 v end.
Proof using Type.
  intros Hk Hd Hv. unfold address_after in Hv. destruct (address_writes op (ea_reg dst)) eqn:Hw; [done|]. exfalso.
  unfold address_writes, is_address_register in Hw. cbn in Hw. unfold lift_kind in Hw. unfold ea_is_an in Hd.
  destruct Hk as [Hk|Hk]; rewrite Hk, Hd, Z.eqb_refl in Hw; done.
Qed.

Lemma transfer_sound_after has_environment : sound_after (m68k_apply_finite_value_transfer has_environment s i).
Proof using All.
  pose proof (eo_reg _ (oo_destination i Hi)) as Hreg. pose proof (eo_index _ (oo_source i Hi)) as Hindex.
  unfold m68k_apply_finite_value_transfer. cbv zeta.
  next_rule E1.
  { apply dn_rule; [done|listed| |].
    - rewrite none_listed; [by intros ? ?%elem_of_nil|by eapply mode_not_updated|by apply dn_not_updated|].
      by match goal with H : i_kind i = _ |- _ => rewrite H end.
    - intros v Hv. destruct (m68k_fold_immutable_offset_table _ _) as [values|] eqn:Hfold; [|done]. intros _. cbn [dn_values].
      destruct (word_written m i v Hv) as (source & low & Hso & Hb & Hlow); [done..|unfold lift_kind|].
      { match goal with H : i_kind i = _ |- _ => rewrite H end. by eexists. }
      unfold lift_kind in Hb. replace (i_kind i) with K_move in Hb by congruence. apply (inj Some) in Hb as <-. rewrite Hlow.
      assert (source mod 65536 = source) as -> by (apply Z.mod_small, (operand_word m src source Hm Hso)).
      apply (table_word_sound m Hm src (table_selector s src) source values); [done| |done|done].
      apply selector_sound; [done|]. by apply Hs. }
  next_rule E2.
  { apply an_rule; [done| | |].
    - unfold m68k_written_data_registers. by match goal with H : i_kind i = _ |- _ => rewrite H end.
    - apply an_listed; [by left|done|]. unfold ea_updates, m68k_is_statically_foldable_control_ea in *. by destruct (ea_mode src).
    - intros v Hv. apply an_written in Hv; [|by left|done]. unfold written_address in Hv. cbn [op_kind op_source_ea lift_m68k_instruction] in Hv.
      unfold lift_kind in Hv. match goal with H : i_kind i = _, F : m68k_is_statically_foldable_control_ea _ = true |- _ => rewrite H, F in Hv end.
      subst v. rewrite land_24. intros _. by apply list_elem_of_singleton. }
  next_rule E3.
  { apply an_rule; [done| | |].
    - unfold m68k_written_data_registers. by match goal with H : i_kind i = _ |- _ => rewrite H end.
    - apply an_listed; [by right|done|by eapply mode_not_updated].
    - intros v Hv. apply an_written in Hv; [|by right|done]. unfold written_address in Hv. cbn in Hv. unfold lift_kind in Hv.
      match goal with H : i_kind i = _, S : i_size i = _, E : ea_mode src = _ |- _ => rewrite H, S, E, !bool_decide_eq_true_2 in Hv by done end.
      cbn [andb] in Hv. subst v.
      assert (0 <= ea_reg dst < 7) as Hr by (unfold m68k_an_finite_proof_eligible, kM68kStackPointerRegister in *; lia).
      assert (an_contains (get_an s (ea_reg dst)) (address_register m (ea_reg dst))) as Hold by (by apply Hs).
      destruct (an_finite (get_an s (ea_reg dst))) eqn:Hf; [|done]. intros _. cbn [an_addrs]. rewrite elem_of_map_sorted.
      exists (address_register m (ea_reg dst) mod 2 ^ 24). split; [|by apply Hold]. rewrite land_24, land_ffff. unfold u32, u16, i16.
      set (a := address_register m (ea_reg dst)). set (imm := ea_immediate_value src). clearbody a imm. Z.div_mod_to_equations. lia. }
  next_rule E4.
  { apply dn_rule; [by destruct (i_destination i)| | |].
    - intros r Hin. unfold m68k_written_data_registers in Hin. rewrite E4 in Hin. by apply list_elem_of_singleton in Hin.
    - destruct (oo_moveq i Hi E4) as (H1 & H2 & _). rewrite none_listed; [by intros ? ?%elem_of_nil|done..|by rewrite E4].
    - intros v Hv. by apply (moveq_sound_word m). }
  next_rule E5.
  { apply dn_rule; [done|listed| |].
    - rewrite none_listed; [by intros ? ?%elem_of_nil|eapply mode_not_updated; [apply (oo_immediate i Hi); tauto|done..]|by apply dn_not_updated|].
      by match goal with H : i_kind i = _ |- _ => rewrite H end.
    - intros v Hv. apply (and_word_sound m i Hi v Hv); try done. by apply old_held. }
  next_rule E6.
  { apply dn_rule; [done|listed| |].
    - rewrite none_listed; [by intros ? ?%elem_of_nil|by eapply mode_not_updated|by apply dn_not_updated|].
      by match goal with H : i_kind i = _ |- _ => rewrite H end.
    - intros v Hv. apply (lsr_sound m i Hi v Hv); try done. by apply old_held. }
  next_rule E7.
  { apply dn_rule; [done|listed| |].
    - rewrite none_listed; [by intros ? ?%elem_of_nil| |by apply dn_not_updated|].
      + by apply dn_mode_not_updated.
      + by match goal with H : i_kind i = _ |- _ => rewrite H end.
    - intros v Hv. apply (add_self_sound m i v Hv); try done. by apply old_held. }
  next_rule E8.
  { apply dn_rule; [done|listed| |].
    - intros r Hin. unfold m68k_written_address_registers in Hin. match goal with H : i_kind i = _ |- _ => rewrite H in Hin end.
      rewrite dn_not_updated in Hin by done. cbn [reg_if app] in Hin. rewrite app_nil_r in Hin. apply elem_of_reg_if in Hin as [Hup ->].
      unfold byte_load, updates_register. rewrite Hup, Z.eqb_refl. rewrite !andb_true_iff, !bool_decide_eq_true. tauto.
    - intros v Hv. apply (load_byte_sound m i v Hv); try done. by apply old_held. }
  next_rule E9.
  { assert (i_kind i = K_subi \/ i_kind i = K_subq) as Hk
      by (match goal with H : _ || _ = true |- _ => apply orb_true_iff in H as [H|H]; apply bool_decide_eq_true in H; tauto end).
    assert (i_size i = W_byte \/ i_size i = W_word) as Hsize
      by (match goal with H : (i_size i =b _) || _ = true |- _ => apply orb_true_iff in H as [H|H]; apply bool_decide_eq_true in H; tauto end).
    apply dn_rule; [done| | |].
    - intros r Hin. unfold m68k_written_data_registers in Hin. destruct Hk as [Hk|Hk]; rewrite Hk in Hin; by apply elem_of_reg_if in Hin as [_ ?].
    - rewrite none_listed; [by intros ? ?%elem_of_nil|eapply mode_not_updated; [apply (oo_immediate i Hi); tauto|done..]|by apply dn_not_updated|].
      by destruct Hk as [-> | ->].
    - intros v Hv. apply (subtract_sound m i Hi v Hv); try done. by apply old_held. }
  next_rule E10.
  { apply dn_rule; [done|listed| |].
    - rewrite none_listed; [by intros ? ?%elem_of_nil|by eapply mode_not_updated|by apply dn_not_updated|].
      by match goal with H : i_kind i = _ |- _ => rewrite H end.
    - intros v Hv. apply (lsl_sound m i Hi v Hv); try done. by apply old_held. }
  apply forget_sound.
Qed.
End Whole.

(** * Decoded instructions *)

Definition shape_ok (i : M68kDecodedInstruction) : bool :=
  match i_kind i with
  | K_moveq => negb (ea_updates (i_source_ea i)) && negb (ea_updates (i_destination_ea i)) && (-128 <=? i_operand i) && (i_operand i <? 128)
  | K_andi | K_subi | K_subq => ea_mode (i_source_ea i) =b EA_immediate
  | K_shift_rotate => negb (ea_mode (i_source_ea i) =b EA_immediate) || (ea_immediate_value (i_source_ea i) <? 256)
  | K_multiply_signed_word | K_multiply_unsigned_word | K_divide_signed_word | K_divide_unsigned_word => ea_is_dn (i_destination_ea i)
  | _ => true
  end.

(** The canonical instruction of the primary word, for the kinds whose operands matter. *)
Definition static_word_ok (word : Z) : bool :=
  match opcode_kind word with
  | Some (K_moveq | K_andi | K_subi | K_subq | K_shift_rotate | K_multiply_signed_word | K_multiply_unsigned_word
         | K_divide_signed_word | K_divide_unsigned_word) => match canonical word with Some (Ok i) => shape_ok i | _ => true end
  | _ => true
  end.

Lemma static_words_ok : forallb (check_words static_word_ok 12) [0x0; 0x1; 0x2; 0x3; 0x4; 0x5; 0x6; 0x7; 0x8; 0x9; 0xA; 0xB; 0xC; 0xD; 0xE; 0xF] = true.
Proof. exact_no_check (eq_refl true). Qed.

#[local] Opaque check_words static_word_ok canonical.

Lemma every_static_word_ok word : is_u16 word -> static_word_ok word = true.
Proof.
  unfold is_u16. intros Hw. apply (check_words_sound static_word_ok 12 (word / 4096)).
  - pose proof static_words_ok as H. rewrite forallb_forall in H. apply H. assert (0 <= word / 4096 < 16) as Hl by (pose proof (Z.div_mod word 4096); pose proof (Z.mod_pos_bound word 4096); lia).
    generalize dependent (word / 4096). clear. intros line Hl. simpl. lia.
  - change (2 ^ Z.of_nat 12) with 4096. pose proof (Z.div_mod word 4096). pose proof (Z.mod_pos_bound word 4096). lia.
Qed.

Lemma shape_transfers a b : same_shape a b -> shape_ok a = true -> shape_ok b = true.
Proof.
  intros [Hk _ _ _ Hop (Hsm & _) (Hdm & _) _ _ _ _ _ Hcount] H. unfold shape_ok, ea_updates, ea_is_dn in *. rewrite <- Hk, <- Hop, <- Hsm, <- Hdm.
  destruct (i_kind a); try done. by rewrite <- Hcount.
Qed.

Section Decoded.
Context (image : list Z) (source : DecodeSource) (Hwp : well_placed image source).
Context (i : M68kDecodedInstruction) (Hi : decode_m68k_instruction image source DP_general_startup = Ok i).

Lemma decoded_shape_ok : shape_ok i = true /\ ea_ok (i_source_ea i) /\ ea_ok (i_destination_ea i).
Proof using All.
  pose proof (decode_canonical image source Hwp) as C. cbv zeta in C.
  pose proof (every_static_word_ok _ (primary_word_range (primary_bytes image source))) as Hok.
  pose proof (decoded_kind image source Hwp i Hi) as Hkind.
  destruct (canonical_decodes image source Hwp i Hi) as [j Hj]. rewrite Hj, Hi in C. destruct C as [Hshape Hspan].
  split; [|split; apply Hspan].
  with_strategy transparent [static_word_ok] unfold static_word_ok in Hok. rewrite Hkind, Hj in Hok.
  destruct (i_kind i) eqn:Hk; try (apply (shape_transfers j i Hshape Hok)); unfold shape_ok; by rewrite Hk.
Qed.

(** What the decoder guarantees of the operands. *)
Lemma decoded_operands : operands_ok i /\ count_ok i.
Proof using All.
  destruct decoded_shape_ok as (Hs & Hso & Hdo). unfold shape_ok in Hs. split.
  - split; [done|done| |].
    + intros Hk. rewrite Hk, !andb_true_iff, !negb_true_iff, Z.leb_le, Z.ltb_lt in Hs. tauto.
    + intros Hk. destruct Hk as [Hk|[Hk|Hk]]; rewrite Hk in Hs; by apply bool_decide_eq_true in Hs.
  - intros Hk Hm. rewrite Hk, Hm in Hs. by apply Z.ltb_lt in Hs.
Qed.

Lemma multiply_destination : multiplies i = true -> ea_is_dn (i_destination_ea i) = true.
Proof using All. intros Hm. destruct decoded_shape_ok as [Hs _]. unfold multiplies in Hm. unfold shape_ok in Hs. by destruct (i_kind i). Qed.
End Decoded.

(** * The properties *)

(** Soundness of the transfer: for every instruction the decoder yields that
    is not a multiplication or a division, a machine whose registers lie in the
    state, an environment that reads the machine's own memory and annotations that
    are true, every value the instruction can leave in a data register lies in the
    new state of that register, and so does every value of A0 to A6, but for the
    address register updated by the source of a byte moved to a data register. *)
Theorem static_transfer_sound image source i (m : Machine) (environment : M68kStaticDiscoveryEnvironment) s has_environment :
  well_placed image source -> decode_m68k_instruction image source DP_general_startup = Ok i -> multiplies i = false ->
  machine_ok m -> environment_true m -> annotation_true m (i_source_ea i) ->
  state_holds (data_register m) (address_register m) s ->
  let after := m68k_apply_finite_value_transfer has_environment s i in
  (forall r v, 0 <= r < 8 -> data_after m (lift_m68k_instruction i) r v -> dn_contains (get_dn after r) v) /\
  (forall r v, 0 <= r < 7 -> byte_load i && updates_register (i_source_ea i) r = false ->
     address_after m (lift_m68k_instruction i) r v -> an_contains (get_an after r) v).
Proof.
  intros Hwp Hi Hmul Hm Henv Hann Hs. destruct (decoded_operands image source Hwp i Hi) as [Hop Hc].
  exact (transfer_sound_after m Hm Henv i Hop Hc Hmul Hann s Hs has_environment).
Qed.

(** C26. A multiplication or a division writes its data register, yet the
    transfer lists no data register as written and leaves the state of all eight as
    it was: a finite value survives the product. *)
Theorem multiply_not_forgotten image source i (environment : M68kStaticDiscoveryEnvironment) s has_environment :
  well_placed image source -> decode_m68k_instruction image source DP_general_startup = Ok i -> multiplies i = true ->
  data_writes (lift_m68k_instruction i) (ea_reg (i_destination_ea i)) = true /\
  m68k_written_data_registers i = [] /\
  forall r, get_dn (m68k_apply_finite_value_transfer has_environment s i) r = get_dn s r.
Proof.
  intros Hwp Hi Hmul. pose proof (multiply_destination image source Hwp i Hi Hmul) as Hd. unfold multiplies in Hmul.
  assert (m68k_written_data_registers i = []) as Hnil by (unfold m68k_written_data_registers; by destruct (i_kind i)).
  split; [|split; [done|]].
  - unfold ea_is_dn in Hd. unfold data_writes, lift_m68k_instruction, lift_kind, M68kFinite.is_data_register. cbn [op_kind op_destination_ea].
    destruct (i_kind i); try discriminate Hmul; by rewrite Hd, Z.eqb_refl.
  - intros r. unfold m68k_apply_finite_value_transfer. cbv zeta.
    destruct (i_kind i) eqn:Hk; try discriminate Hmul; repeat match goal with |- context [bool_decide (?a = ?b)] =>
        rewrite (bool_decide_eq_false_2 (a = b)) by discriminate end; rewrite ?andb_false_r; cbn [andb orb];
      unfold forget_written; rewrite Hnil; cbn [fold_left]; unfold get_dn; by rewrite (proj2 (fold_set_an _ s)).
Qed.

(** The register of an operand after its automatic update. *)
Definition updated_address (ea : M68kEffectiveAddress) (size : M68kMemoryAccessWidth) (a : Z) : Z :=
  match ea_mode ea with
  | EA_address_postinc => u32 (a + update_step size (ea_reg ea))
  | EA_address_predec => u32 (a - update_step size (ea_reg ea))
  | _ => a
  end.

(** A set of 24-bit addresses that is neither empty nor all of them is not closed
    under a step of one. *)
Lemma step_leaves (l : list Z) d : d = 1 \/ d = -1 -> l <> [] -> zlen l < 2 ^ 24 -> Forall (fun x => 0 <= x < 2 ^ 24) l ->
  exists x, x ∈ l /\ (x + d) mod 2 ^ 24 ∉ l.
Proof.
  intros Hd Hne Hlen Hall. destruct (decide (Exists (fun x => (x + d) mod 2 ^ 24 ∉ l) l)) as [He|Hn].
  { apply Exists_exists in He as (x & Hx & Hout). by exists x. }
  exfalso. assert (Hclosed : forall x, x ∈ l -> (x + d) mod 2 ^ 24 ∈ l).
  { intros x Hx. destruct (decide ((x + d) mod 2 ^ 24 ∈ l)) as [|Hout]; [done|]. destruct Hn. apply Exists_exists. by exists x. }
  destruct l as [|x0 l0]; [done|]. set (l := x0 :: l0) in *.
  assert (Hx0 : 0 <= x0 < 2 ^ 24) by (by apply (Forall_inv Hall)).
  assert (Hsteps : forall k : nat, (x0 + d * Z.of_nat k) mod 2 ^ 24 ∈ l).
  { induction k as [|k IH]; [rewrite Z.mul_0_r, Z.add_0_r, Z.mod_small by done; left|].
    apply Hclosed in IH. rewrite Zplus_mod_idemp_l in IH. replace (x0 + d * Z.of_nat (S k)) with (x0 + d * Z.of_nat k + d) by lia. done. }
  assert (Hincl : forall y, y ∈ seqZ 0 (2 ^ 24) -> y ∈ l).
  { intros y Hy%elem_of_seqZ. assert (E : y = (x0 + d * Z.of_nat (Z.to_nat ((d * (y - x0)) mod 2 ^ 24))) mod 2 ^ 24).
    { pose proof (Z.mod_pos_bound (d * (y - x0)) (2 ^ 24) ltac:(lia)). rewrite Z2Nat.id by lia.
      rewrite <- Zplus_mod_idemp_r, <- Zmult_mod_idemp_r, Zmod_mod, Zmult_mod_idemp_r, Zplus_mod_idemp_r.
      replace (x0 + d * (d * (y - x0))) with y by (destruct Hd as [-> | ->]; lia). symmetry. apply Z.mod_small. lia. }
    rewrite E. apply Hsteps. }
  pose proof (submseteq_length _ _ (NoDup_submseteq _ _ (NoDup_seqZ 0 (2 ^ 24)) Hincl)) as Hle. rewrite length_seqZ in Hle.
  unfold zlen in Hlen. apply Nat2Z.inj_le in Hle. rewrite Z2Nat.id in Hle by lia. lia.
Qed.

(** C27. A byte moved from memory to a data register forgets no address.  The transfer
    leaves the states of all eight address registers as they were, the one its source
    increments or decrements included; so no state it is given for that register that
    says anything at all stays sound: whatever addresses it lists, one of them is a
    value the register may have before the load and whose update is not listed after. *)
Theorem byte_load_keeps_addresses i (environment : M68kStaticDiscoveryEnvironment) s has_environment :
  byte_load i = true -> ea_updates (i_source_ea i) = true -> 0 <= ea_reg (i_source_ea i) < 7 ->
  let r := ea_reg (i_source_ea i) in
  let after := m68k_apply_finite_value_transfer has_environment s i in
  (forall q, get_an after q = get_an s q) /\
  (an_finite (get_an s r) = true -> an_addrs (get_an s r) <> [] -> zlen (an_addrs (get_an s r)) < 2 ^ 24 ->
   Forall (fun x => 0 <= x < 2 ^ 24) (an_addrs (get_an s r)) ->
   exists a, is_u32 a /\ an_contains (get_an s r) a /\
     (forall m, address_register m r = a -> address_after m (lift_m68k_instruction i) r (updated_address (i_source_ea i) (i_size i) a)) /\
     ~ an_contains (get_an after r) (updated_address (i_source_ea i) (i_size i) a)).
Proof.
  intros Hb Hu Hr r after. pose proof Hb as Hb'. unfold byte_load in Hb'. rewrite !andb_true_iff, !bool_decide_eq_true in Hb'.
  destruct Hb' as (((Hk & Hsz) & Hd) & Hmem).
  assert (Hkept : forall q, get_an after q = get_an s q).
  { intros q. subst after. unfold m68k_apply_finite_value_transfer. cbv zeta. by rewrite Hk, Hsz, Hd, Hmem, !andb_false_r. }
  split; [exact Hkept|]. intros Hfin Hne Hlen Hall. set (d := if ea_mode (i_source_ea i) =b EA_address_predec then -1 else 1).
  assert (Hupd : forall a, updated_address (i_source_ea i) (i_size i) a = u32 (a + d)).
  { intros a. unfold updated_address, d. rewrite Hsz. cbn [update_step]. rewrite (proj2 (Z.eqb_neq _ 7)) by lia.
    unfold ea_updates in Hu. by destruct (ea_mode (i_source_ea i)). }
  destruct (step_leaves (an_addrs (get_an s r)) d) as (a & Ha & Hout); [unfold d; case_bool_decide; auto|done..|].
  pose proof (proj1 (Forall_forall _ _) Hall a Ha) as Hrange. cbn beta in Hrange. exists a. rewrite Hupd. split; [unfold is_u32; lia|].
  split; [intros _; by rewrite Z.mod_small|]. split.
  - intros m _. unfold address_after. assert (address_writes (lift_m68k_instruction i) r = true) as ->.
    { unfold address_writes. cbn [op_source_ea lift_m68k_instruction]. unfold updates_register. by rewrite Hu, Z.eqb_refl, !orb_true_r. }
    unfold written_address. cbn [op_kind lift_m68k_instruction]. unfold lift_kind. rewrite Hk. apply u32_range.
  - rewrite Hkept. intros H. apply Hout. specialize (H Hfin). unfold u32 in H. change 4294967296 with (2 ^ 32) in H. by rewrite mod_mod_pow in H by lia.
Qed.

(** * Witnesses *)

Definition words_image (words : list Z) : list Z := concat (map (fun w => [w / 256; w mod 256]) words).
Definition static_source : DecodeSource := mkSource CV_mc68000 (mkAddress TAS_m68k_program 0x200) 0.

(** [ADD.W D0,D0], [MULU.W D1,D0] and [MOVE.B (A0)+,D0]. *)
Definition double_image : list Z := words_image [0xD040; 0x4E75].
Definition multiply_image : list Z := words_image [0xC0C1; 0x4E75].
Definition load_image : list Z := words_image [0x1018; 0x4E75].

Definition static_machine : Machine := mkMachine (fun r => if r =? 0 then 0x10004 else 3) (fun _ => 0x2000) (fun _ => 0) false.
Definition no_environment : M68kStaticDiscoveryEnvironment := Build_M68kStaticDiscoveryEnvironment (fun _ _ => None) (fun _ _ => None).
(** D0 is 4 or 6, A0 is $2000, and nothing is known of the others. *)
Definition static_state : M68kRegisterState := set_an 0 (mkAn true [0x2000]) (set_dn 0 (mkDn true [4; 6]) unknown_registers).

Lemma static_state_holds : state_holds (data_register static_machine) (address_register static_machine) static_state.
Proof.
  split; [done|]. split; [done|]. split; intros r Hr.
  - assert (r = 0 \/ r = 1 \/ r = 2 \/ r = 3 \/ r = 4 \/ r = 5 \/ r = 6 \/ r = 7) as Hcase by lia.
    destruct_or! Hcase; subst r; intros H; try discriminate H; left.
  - assert (r = 0 \/ r = 1 \/ r = 2 \/ r = 3 \/ r = 4 \/ r = 5 \/ r = 6) as Hcase by lia.
    destruct_or! Hcase; subst r; intros H; try discriminate H; left.
Qed.

Lemma static_image_placed image : forallb (fun b => (0 <=? b) && (b <? 256)) image = true -> (2 <=? zlen image) && (zlen image <=? 0x1000) = true ->
  well_placed image static_source.
Proof.
  rewrite forallb_forall, andb_true_iff, Z.leb_le, Z.leb_le. intros Hb Hl. split; cbn; try done; try lia.
  - apply List.Forall_forall. intros x Hx. apply Hb in Hx. unfold is_u8. lia.
Qed.

Lemma static_transfer_sound_witness : exists i, decode_m68k_instruction double_image static_source DP_general_startup = Ok i /\
  dn_contains (get_dn (m68k_apply_finite_value_transfer (environment := no_environment) false static_state i) 0) 0x10008 /\
  dn_values (get_dn (m68k_apply_finite_value_transfer (environment := no_environment) false static_state i) 0) = [8; 12].
Proof.
  eexists. split; [vm_compute; reflexivity|]. split; [|vm_compute; reflexivity].
  refine (proj1 (static_transfer_sound double_image static_source _ static_machine no_environment static_state false _ _ _ _ _ _ _) 0 0x10008 _ _).
  - apply static_image_placed; reflexivity.
  - vm_compute. reflexivity.
  - reflexivity.
  - split; intros r; cbn; unfold is_u32, is_u8; [destruct (r =? 0); lia|lia|lia].
  - intros lo length bytes H. discriminate H.
  - intros stride count H. discriminate H.
  - apply static_state_holds.
  - lia.
  - vm_compute. reflexivity.
Defined.

Lemma multiply_not_forgotten_witness : exists i, decode_m68k_instruction multiply_image static_source DP_general_startup = Ok i /\
  data_writes (lift_m68k_instruction i) 0 = true /\
  dn_values (get_dn (m68k_apply_finite_value_transfer (environment := no_environment) false static_state i) 0) = [4; 6].
Proof.
  eexists. split; [vm_compute; reflexivity|].
  assert (well_placed multiply_image static_source) as Hwp by (apply static_image_placed; reflexivity).
  destruct (multiply_not_forgotten multiply_image static_source _ no_environment static_state false Hwp eq_refl eq_refl) as (H1 & _ & H2).
  split; [exact H1|]. exact (f_equal dn_values (H2 0)).
Defined.

Lemma byte_load_keeps_addresses_witness : exists i, decode_m68k_instruction load_image static_source DP_general_startup = Ok i /\
  an_addrs (get_an (m68k_apply_finite_value_transfer (environment := no_environment) false static_state i) 0) = [0x2000] /\
  exists a, an_contains (get_an static_state 0) a /\
    ~ an_contains (get_an (m68k_apply_finite_value_transfer (environment := no_environment) false static_state i) 0)
        (updated_address (i_source_ea i) (i_size i) a).
Proof.
  eexists. split; [vm_compute; reflexivity|].
  match goal with |- context [updated_address (i_source_ea ?i) _ _] =>
    destruct (byte_load_keeps_addresses i no_environment static_state false eq_refl eq_refl ltac:(cbn; lia)) as [H1 H2] end.
  split; [exact (f_equal an_addrs (H1 0))|].
  destruct (H2 eq_refl ltac:(discriminate) ltac:(vm_compute; reflexivity) ltac:(constructor; [vm_compute; split; [discriminate|reflexivity]|constructor]))
    as (a & _ & Ha & _ & Hn).
  by exists a.
Defined.
