(* ===== verification/M68kStaticBounds.v ===== *)
(** The bounds a compare with an immediate puts on the two edges of the branch after
    it ([static_discovery.cpp]), against the flags the compare leaves. *)

From S2P Require Import Prelude M68kInstruction M68kArithmetic M68kLegality M68kDecode M68kFinite M68kStaticValues.

(** The condition a branch tests. *)
Definition branch_condition (branch : M68kDecodedInstruction) : M68kCondition :=
  match i_kind branch with K_bne_short => CC_ne | _ => i_condition branch end.

(** The status register after the compare of an immediate with a data register. *)
Definition compared (compare : M68kDecodedInstruction) (data : Z -> Z) (status_register : Z) : Z :=
  m68k_subtraction_ccr status_register (ea_immediate_value (i_source_ea compare)) (data (ea_reg (i_destination_ea compare))) (i_size compare) XP_preserve.

Lemma low_part_mask width data : width <> W_long_word ->
  (data mod 65536) .& (modulus width - 1) = wrap width data /\ 0 <= wrap width data < modulus width /\ modulus width <= 65536.
Proof.
  intros Hw. split; [|split; [apply wrap_range|by destruct width]]. unfold modulus. rewrite Z.sub_1_r. rewrite <- Z.ones_equiv, Z.land_ones by (by destruct width).
  unfold wrap, modulus. destruct width; cbn [width_bits]; [|by rewrite Zmod_mod|done]. change 65536 with (2 ^ 16). by rewrite mod_mod_pow by lia.
Qed.

(** The compares of an immediate with a data register. *)
Definition compares_immediate (decoded : M68kDecodedInstruction) : bool :=
  ((i_kind decoded =b K_cmpi) || (i_kind decoded =b K_cmp) && (ea_mode (i_source_ea decoded) =b EA_immediate)) &&
  ea_is_dn (i_destination_ea decoded).

(** The bound a constraint puts on a register's low word. *)
Definition constraint_holds (c : DnConstraint) (data : Z -> Z) : Prop :=
  con_empty c = false /\ con_lo c <= (data (con_reg c) mod 65536) .& con_width_mask c <= con_hi c.

Lemma derived_register compare branch reg taken not_taken c : m68k_derive_unsigned_compare_branch_constraints compare branch = Some (reg, taken, not_taken) ->
  taken = Some c \/ not_taken = Some c -> con_reg c = ea_reg (i_destination_ea compare).
Proof.
  unfold m68k_derive_unsigned_compare_branch_constraints. destruct (_ && _); [done|].
  destruct (match i_size compare with W_byte => _ | _ => _ end) as [w|]; [|done]. cbn [mbind option_bind].
  destruct (match i_kind branch with K_bne_short => _ | _ => _ end) as [cond|]; [|done]. cbn [mbind option_bind]. cbv zeta.
  destruct cond; try done; intros [= <- <- <-] [H|H]; repeat case_match; try discriminate H; by injection H as <-.
Qed.

Lemma derived_compares compare branch bounds : m68k_derive_unsigned_compare_branch_constraints compare branch = Some bounds ->
  compares_immediate compare = true.
Proof.
  unfold m68k_derive_unsigned_compare_branch_constraints, compares_immediate.
  destruct (i_kind compare =b K_cmpi); destruct (i_kind compare =b K_cmp); destruct (ea_mode (i_source_ea compare) =b EA_immediate);
    by destruct (ea_is_dn (i_destination_ea compare)).
Qed.

(** The branch is taken exactly within the bounds of the taken edge, and not taken
    exactly within those of the other. *)
Lemma derived_bounds (compare branch : M68kDecodedInstruction) reg taken not_taken (data : Z -> Z) (status_register : Z) :
  m68k_derive_unsigned_compare_branch_constraints compare branch = Some (reg, taken, not_taken) ->
  let decision := m68k_evaluate_condition (branch_condition branch) (compared compare data status_register) in
  (forall c, taken = Some c -> decision = true <-> constraint_holds c data) /\
  (forall c, not_taken = Some c -> decision = false <-> constraint_holds c data).
Proof.
  intros Hderive decision. subst decision. unfold compared. set (imm := ea_immediate_value (i_source_ea compare)) in *.
  set (r := ea_reg (i_destination_ea compare)) in *.
  rewrite (proj1 (subtraction_relations status_register imm (data r) (i_size compare) XP_preserve (branch_condition branch))).
  unfold m68k_derive_unsigned_compare_branch_constraints in Hderive. fold imm r in Hderive. destruct (_ && _); [done|].
  destruct (match i_size compare with W_byte => Some 0xFF | W_word => Some 0xFFFF | _ => None end) as [w|] eqn:Hw; [|done]. cbn [mbind option_bind] in Hderive.
  assert (i_size compare <> W_long_word /\ w = modulus (i_size compare) - 1) as [Hsize ->] by (destruct (i_size compare); [by injection Hw as <-|by injection Hw as <-|done]).
  clear Hw. destruct (low_part_mask (i_size compare) (data r) Hsize) as (Hd & Hdr & Hmod). destruct (low_part_mask (i_size compare) imm Hsize) as (_ & Hsr & _).
  assert (imm .& (modulus (i_size compare) - 1) = wrap (i_size compare) imm) as Hi.
  { unfold wrap, modulus. rewrite Z.sub_1_r, <- Z.ones_equiv. apply Z.land_ones. by destruct (i_size compare). }
  rewrite Hi in Hderive. cbv zeta in Hderive. set (d := wrap (i_size compare) (data r)) in *. set (m := wrap (i_size compare) imm) in *. set (w := modulus (i_size compare) - 1) in *.
  assert (match i_kind branch with K_bne_short => Some CC_ne | K_branch => Some (i_condition branch) | _ => None end = Some (branch_condition branch) \/
    match i_kind branch with K_bne_short => Some CC_ne | K_branch => Some (i_condition branch) | _ => None end = None) as [Hc|Hc]
    by (unfold branch_condition; destruct (i_kind branch); tauto); rewrite Hc in Hderive; [|done]. cbn [mbind option_bind] in Hderive.
  destruct (branch_condition branch); try done; injection Hderive as <- <- <-; split; intros c Hsome; unfold constraint_holds; cbn [compare_relation];
    repeat match type of Hsome with context [if ?b then _ else _] => destruct b eqn:? end; try discriminate Hsome; injection Hsome as <-;
    cbn [con_reg con_lo con_hi con_width_mask con_empty]; rewrite ?Hd; subst w; lia.
Qed.
