(* ===== verification/M68kStaticProgram.v ===== *)
(** Static calls and their returns ([static_program.cpp]): the call, edge and frame
    records, their constructors, the successor rule of a subroutine body and the
    trace that pairs every call frame with the RTS instructions its callee can reach.

    The trace is a depth-first search with a work list; its fuel counts the addresses
    that can still be pushed, and the trace is shown never to run out of it. *)

From S2P Require Import Prelude M68kInstruction M68kArithmetic M68kLegality M68kDecode.

(** * Work lists over a finite graph *)

(** The cost of the nodes not visited yet; it bounds what a search may still push. *)
Section Unvisited.
Context {A : Type} (cost : Z -> A -> nat).

Fixpoint unvisited (visited : gset Z) (nodes : list (Z * A)) : nat :=
  match nodes with
  | [] => 0
  | (k, a) :: rest => (if decide (k ∈ visited) then 0 else cost k a) + unvisited visited rest
  end.

Lemma unvisited_skip k visited nodes : k ∉ nodes.*1 -> unvisited ({[k]} ∪ visited) nodes = unvisited visited nodes.
Proof.
  induction nodes as [|[j a] nodes IH]; cbn; [done|]. rewrite not_elem_of_cons. intros [Hj Hk]. rewrite IH by done. f_equal.
  destruct (decide (j ∈ visited)) as [Hv|Hv]; destruct (decide (j ∈ {[k]} ∪ visited)) as [Hu|Hu]; [done|..|done].
  - destruct Hu. by apply elem_of_union_r.
  - apply elem_of_union in Hu as [Hu|Hu]; [|done]. apply elem_of_singleton in Hu. congruence.
Qed.

Lemma unvisited_step k a visited nodes : NoDup nodes.*1 -> (k, a) ∈ nodes -> k ∉ visited ->
  unvisited visited nodes = (cost k a + unvisited ({[k]} ∪ visited) nodes)%nat.
Proof.
  induction nodes as [|[j b] nodes IH]; cbn; [by intros _ ?%elem_of_nil|]. rewrite NoDup_cons, elem_of_cons. intros [Hj Hnd] Hin Hk.
  destruct Hin as [[= <- <-]|Hin].
  - rewrite unvisited_skip by done. rewrite decide_False by done. by rewrite decide_True by (apply elem_of_union_l; by apply elem_of_singleton).
  - rewrite (IH Hnd Hin Hk). assert (j <> k) as Hne by (intros ->; apply Hj; apply (list_elem_of_fmap_2 fst) in Hin; exact Hin).
    destruct (decide (j ∈ visited)) as [Hv|Hv]; destruct (decide (j ∈ {[k]} ∪ visited)) as [Hu|Hu]; [lia|..|lia].
    + destruct Hu. by apply elem_of_union_r.
    + apply elem_of_union in Hu as [Hu|Hu]; [|done]. apply elem_of_singleton in Hu. congruence.
Qed.
End Unvisited.

Lemma elem_of_rev {A} (l : list A) x : x ∈ rev l <-> x ∈ l.
Proof. by rewrite !list_elem_of_In, <- in_rev. Qed.

Lemma sorted_NoDup (l : list Z) : StronglySorted Z.lt l -> NoDup l.
Proof.
  induction 1 as [|x l _ IH Hx]; constructor; [|done]. intros Hin. rewrite Forall_forall in Hx. apply Hx in Hin. lia.
Qed.

(** * Calls, edges and frames *)

Record M68kStaticCall := mkCall {
  sc_caller : InstructionProvenance;
  sc_continuation : M68kProgramAddress;
  sc_callee : M68kProgramAddress;
}.

Inductive M68kStaticEdgeKind : Type :=
| SEK_fallthrough | SEK_direct_call | SEK_return_to_continuation | SEK_direct_branch | SEK_indirect_branch | SEK_indirect_call
| SEK_fallthrough_continuation.

#[export] Instance static_edge_kind_eq_dec : EqDecision M68kStaticEdgeKind.
Proof. solve_decision. Defined.

Record M68kStaticEdge := mkEdge {
  se_source_instruction : InstructionProvenance;
  se_kind : M68kStaticEdgeKind;
  se_target : M68kProgramAddress;
  se_call : option M68kStaticCall;
}.

Record M68kStaticFrame := mkFrame { sf_call : M68kStaticCall }.

(** The values of an index register, and a proven target set. *)
Record M68kFiniteIndexValueSet := mkIndexValues {
  fi_source_instruction : InstructionProvenance;
  fi_index_register : DataRegister;
  fi_values : list Z;
}.

Definition no_index_values : M68kFiniteIndexValueSet := mkIndexValues default_provenance D0 [].

Record M68kIndirectTargetEaSet := mkTargets {
  it_source_instruction : InstructionProvenance;
  it_control_ea : M68kEffectiveAddress;
  it_index_values : M68kFiniteIndexValueSet;
  it_candidates : list M68kProgramAddress;
}.

Definition provenance_address (p : InstructionProvenance) : Z := pa_value (ds_address (ip_source p)).
Definition next_pc (addr : Z) (decoded : M68kDecodedInstruction) : Z := u32 (addr + ip_length (i_provenance decoded)).

Definition m68k_make_static_call (call : M68kDecodedInstruction) (callee_address : Z) : M68kStaticCall :=
  let space := pa_space (ds_address (ip_source (i_provenance call))) in
  mkCall (i_provenance call)
    (mkAddress space (u32 (provenance_address (i_provenance call) + ip_length (i_provenance call)))) (mkAddress space callee_address).

Definition m68k_make_static_call_edge (call : M68kStaticCall) : M68kStaticEdge :=
  mkEdge (sc_caller call) SEK_direct_call (sc_callee call) (Some call).

Definition m68k_make_static_return_edge (call : M68kStaticCall) (return_instruction : M68kDecodedInstruction) : M68kStaticEdge :=
  mkEdge (i_provenance return_instruction) SEK_return_to_continuation (sc_continuation call) (Some call).

(** * The body of a subroutine *)

Section Returns.
Context (decoded_by_address : gmap Z M68kDecodedInstruction) (accepted_tier1_by_source : gmap Z M68kIndirectTargetEaSet).

Definition return_reachability_successors (addr : Z) (decoded : M68kDecodedInstruction) : list Z :=
  let next := next_pc addr decoded in
  let raw := ea_immediate_value (i_source_ea decoded) in
  match i_kind decoded with
  | K_bne_short => [next; m68k_branch_target addr (i_operand decoded)]
  | K_bra_short => [m68k_branch_target addr (i_operand decoded)]
  | K_branch =>
      let signed_disp := if i_size decoded =b W_byte then i8 raw else i16 raw in
      m68k_branch_target addr signed_disp :: (if i_condition decoded =b CC_always then [] else [next])
  | K_dbcc => [m68k_branch_target addr (i16 raw); next]
  | K_rts | K_rte | K_rtr | K_instruction_exception => []
  | K_jmp =>
      if m68k_is_statically_foldable_control_ea (i_source_ea decoded) then [m68k_canonical_ea_address (i_source_ea decoded)]
      else match accepted_tier1_by_source !! addr with
           | Some tier1 => map pa_value (it_candidates tier1)
           | None => []
           end
  | K_jsr | K_bsr => [next]
  | _ => [next]
  end.

(** The trace of one callee: the work list is a stack whose top is the head. *)
Fixpoint trace_returns (fuel : nat) (visited : gset Z) (returns worklist : list Z) : option (list Z) :=
  match worklist with
  | [] => Some returns
  | pc :: rest =>
      match fuel with
      | O => None
      | S fuel =>
          if decide (pc ∈ visited) then trace_returns fuel visited returns rest
          else
            let visited := {[pc]} ∪ visited in
            match decoded_by_address !! pc with
            | None => trace_returns fuel visited returns rest
            | Some decoded =>
                if i_kind decoded =b K_rts then trace_returns fuel visited (pc :: returns) rest
                else trace_returns fuel visited returns (rev (return_reachability_successors pc decoded) ++ rest)
            end
      end
  end.

Definition pushes (pc : Z) (decoded : M68kDecodedInstruction) : nat := length (return_reachability_successors pc decoded).
Definition trace_fuel : nat := S (unvisited pushes ∅ (map_to_list decoded_by_address)).

(** The RTS addresses of a callee, in order. *)
Definition reachable_rts (callee : Z) : list Z := sort_unique (default [] (trace_returns trace_fuel ∅ [] [callee])).

(** [reachable_rts_of_callee]: the entry of a called address, created by its first RTS. *)
Definition reachable_rts_of_callee (frames : list M68kStaticFrame) : gmap Z (list Z) :=
  let called_addresses := sort_unique (map (fun frame => pa_value (sc_callee (sf_call frame))) frames) in
  fold_left (fun found callee => match reachable_rts callee with [] => found | returns => <[callee := returns]> found end) called_addresses ∅.

(** The identity of an emitted edge: the RTS and the whole call. *)
Definition call_key (call : M68kStaticCall) : Z * Z * Z :=
  (provenance_address (sc_caller call), pa_value (sc_callee call), pa_value (sc_continuation call)).

(** One RTS of one frame; [None] is [decoded_by_address.at] of an absent address. *)
Definition emit_return (frame : M68kStaticFrame) (st : option (list M68kStaticEdge * gset (Z * (Z * Z * Z)))) (rts_address : Z) :=
  '(edges, emitted) ← st;
  let key := (rts_address, call_key (sf_call frame)) in
  if decide (key ∈ emitted) then Some (edges, emitted)
  else
    rts ← decoded_by_address !! rts_address;
    Some (edges ++ [m68k_make_static_return_edge (sf_call frame) rts], {[key]} ∪ emitted).

Definition m68k_reachable_return_edges (frames : list M68kStaticFrame) : option (list M68kStaticEdge) :=
  let found := reachable_rts_of_callee frames in
  st ← fold_left (fun st frame =>
         match found !! pa_value (sc_callee (sf_call frame)) with
         | None => st
         | Some returns => fold_left (emit_return frame) returns st
         end) frames (Some ([], ∅));
  Some st.1.
End Returns.

(** * What the trace finds *)

Section Spec.
Context (decoded_by_address : gmap Z M68kDecodedInstruction) (accepted_tier1_by_source : gmap Z M68kIndirectTargetEaSet).
#[local] Abbreviation successors := (return_reachability_successors accepted_tier1_by_source).

(** The addresses a subroutine body reaches without leaving through an RTS. *)
Inductive body_reaches (callee : Z) : Z -> Prop :=
| reaches_entry : body_reaches callee callee
| reaches_step pc decoded pc' : body_reaches callee pc -> decoded_by_address !! pc = Some decoded -> i_kind decoded <> K_rts ->
    pc' ∈ successors pc decoded -> body_reaches callee pc'.

Definition is_rts (pc : Z) : Prop := exists decoded, decoded_by_address !! pc = Some decoded /\ i_kind decoded = K_rts.
Definition returns_from (callee pc : Z) : Prop := body_reaches callee pc /\ is_rts pc.

Record trace_ok (callee : Z) (visited : gset Z) (returns worklist : list Z) : Prop := {
  tr_entry : callee ∈ visited \/ callee ∈ worklist;
  tr_closed : forall pc decoded pc', pc ∈ visited -> decoded_by_address !! pc = Some decoded -> i_kind decoded <> K_rts ->
    pc' ∈ successors pc decoded -> pc' ∈ visited \/ pc' ∈ worklist;
  tr_visited : forall pc, pc ∈ visited -> body_reaches callee pc;
  tr_worklist : forall pc, pc ∈ worklist -> body_reaches callee pc;
  tr_returns : forall pc, pc ∈ returns <-> pc ∈ visited /\ is_rts pc;
}.

Lemma trace_ok_done callee visited returns : trace_ok callee visited returns [] -> forall pc, pc ∈ returns <-> returns_from callee pc.
Proof.
  intros H. assert (forall pc, body_reaches callee pc -> pc ∈ visited) as Hall.
  { induction 1 as [|pc d pc' _ IH Hd Hk Hs].
    - by destruct (tr_entry _ _ _ _ H) as [?|?%elem_of_nil].
    - by destruct (tr_closed _ _ _ _ H pc d pc' IH Hd Hk Hs) as [?|?%elem_of_nil]. }
  intros pc. rewrite (tr_returns _ _ _ _ H). unfold returns_from. split; intros [H1 H2]; split; [by apply (tr_visited _ _ _ _ H)|done|by apply Hall|done].
Qed.

(** An address popped for the first time. *)
Lemma trace_ok_visit callee visited returns pc rest returns' more : trace_ok callee visited returns (pc :: rest) -> pc ∉ visited ->
  (forall p, p ∈ returns' <-> p ∈ returns \/ p = pc /\ is_rts pc) ->
  (forall decoded, decoded_by_address !! pc = Some decoded -> i_kind decoded <> K_rts -> forall p, p ∈ successors pc decoded -> p ∈ more) ->
  (forall p, p ∈ more -> body_reaches callee p) ->
  trace_ok callee ({[pc]} ∪ visited) returns' (more ++ rest).
Proof.
  intros H Hnew Hret Hmore Hreach. split.
  - destruct (tr_entry _ _ _ _ H) as [Hin|Hin]; [left; by apply elem_of_union_r|]. apply elem_of_cons in Hin as [->|Hin].
    + left. apply elem_of_union_l. by apply elem_of_singleton.
    + right. apply elem_of_app. by right.
  - intros p d p' Hp Hd Hk Hs. apply elem_of_union in Hp as [Hp|Hp].
    + apply elem_of_singleton in Hp as ->. right. apply elem_of_app. left. by eapply Hmore.
    + destruct (tr_closed _ _ _ _ H p d p' Hp Hd Hk Hs) as [Hin|Hin]; [left; by apply elem_of_union_r|].
      apply elem_of_cons in Hin as [->|Hin]; [left; apply elem_of_union_l; by apply elem_of_singleton|right; apply elem_of_app; by right].
  - intros p Hp. apply elem_of_union in Hp as [Hp|Hp]; [|by apply (tr_visited _ _ _ _ H)].
    apply elem_of_singleton in Hp as ->. apply (tr_worklist _ _ _ _ H). by left.
  - intros p Hp. apply elem_of_app in Hp as [Hp|Hp]; [by apply Hreach|]. apply (tr_worklist _ _ _ _ H). by right.
  - intros p. rewrite Hret, (tr_returns _ _ _ _ H), elem_of_union, elem_of_singleton. split; [intros [?|[-> ?]]; tauto|intros [[->|?] ?]; tauto].
Qed.

#[local] Abbreviation nodes := (map_to_list decoded_by_address).
#[local] Abbreviation budget visited := (unvisited (pushes accepted_tier1_by_source) visited nodes).

Lemma trace_spec callee fuel : forall visited returns worklist, trace_ok callee visited returns worklist ->
  (length worklist + budget visited <= fuel)%nat ->
  exists out, trace_returns decoded_by_address accepted_tier1_by_source fuel visited returns worklist = Some out /\
    forall pc, pc ∈ out <-> returns_from callee pc.
Proof.
  induction fuel as [|fuel IH]; intros visited returns [|pc rest] H Hfuel; cbn [length] in Hfuel; cbn [trace_returns];
    try (eexists; split; [reflexivity|by eapply trace_ok_done]); [lia|].
  destruct (decide (pc ∈ visited)) as [Hv|Hv].
  - apply IH; [|lia]. destruct H as [H1 H2 H3 H4 H5]. split; [..|done].
    + destruct H1 as [?|Hin]; [by left|]. apply elem_of_cons in Hin as [->|?]; [by left|by right].
    + intros p d p' Hp Hd Hk Hs. destruct (H2 p d p' Hp Hd Hk Hs) as [?|Hin]; [by left|]. apply elem_of_cons in Hin as [->|?]; [by left|by right].
    + done.
    + intros p Hp. apply H4. by right.
  - destruct (decoded_by_address !! pc) as [decoded|] eqn:Hd.
    + pose proof (unvisited_step (pushes accepted_tier1_by_source) pc decoded visited nodes (NoDup_fst_map_to_list _)
        (proj2 (elem_of_map_to_list _ _ _) Hd) Hv) as Hb.
      destruct (i_kind decoded =b K_rts) eqn:Hk.
      * apply bool_decide_eq_true in Hk. apply IH; [|lia]. apply (trace_ok_visit callee visited returns pc rest _ [] H Hv).
        -- intros p. rewrite elem_of_cons. split; [|tauto]. intros [->|?]; [right|by left]. split; [done|]. by exists decoded.
        -- intros d Hd' Hn. congruence.
        -- by intros p ?%elem_of_nil.
      * apply bool_decide_eq_false in Hk. apply IH.
        -- apply (trace_ok_visit callee visited returns pc rest _ _ H Hv).
           ++ intros p. split; [by left|]. intros [?|[-> (d & Hd' & Hn)]]; [done|]. congruence.
           ++ intros d Hd' _ p Hp. rewrite Hd in Hd'. injection Hd' as <-. by apply elem_of_rev.
           ++ intros p Hp. apply (reaches_step callee pc decoded p); [|done..|by apply elem_of_rev].
              apply (tr_worklist _ _ _ _ H). by left.
        -- rewrite length_app, length_rev. unfold pushes in Hb at 2. lia.
    + apply IH.
      * apply (trace_ok_visit callee visited returns pc rest _ [] H Hv).
        -- intros p. split; [by left|]. intros [?|[-> (d & Hd' & Hn)]]; [done|]. congruence.
        -- intros d Hd'. congruence.
        -- by intros p ?%elem_of_nil.
      * rewrite unvisited_skip; [lia|]. intros Hin. apply list_elem_of_fmap in Hin as ([k a] & -> & Hin).
        apply elem_of_map_to_list in Hin. cbn in Hd. congruence.
Qed.
Lemma reachable_rts_spec callee : StronglySorted Z.lt (reachable_rts decoded_by_address accepted_tier1_by_source callee) /\
  forall pc, pc ∈ reachable_rts decoded_by_address accepted_tier1_by_source callee <-> returns_from callee pc.
Proof.
  unfold reachable_rts. split; [apply sort_unique_sorted|]. intros pc. rewrite elem_of_sort_unique.
  destruct (trace_spec callee (trace_fuel decoded_by_address accepted_tier1_by_source) ∅ [] [callee]) as (out & -> & Hout); [|cbn [length]; unfold trace_fuel; lia|apply Hout].
  split.
  - right. by left.
  - by intros p d p' ?%elem_of_empty.
  - by intros p ?%elem_of_empty.
  - intros p ->%list_elem_of_singleton. constructor.
  - intros p. rewrite elem_of_nil, elem_of_empty. tauto.
Qed.

#[local] Abbreviation returns := (reachable_rts decoded_by_address accepted_tier1_by_source).
#[local] Abbreviation callee_of frame := (pa_value (sc_callee (sf_call frame))).

Lemma found_fold called c : forall found : gmap Z (list Z),
  fold_left (fun found callee => match returns callee with [] => found | l => <[callee := l]> found end) called found !! c =
    if decide (c ∈ called) then match returns c with [] => found !! c | l => Some l end else found !! c.
Proof.
  induction called as [|k called IH]; intros found; cbn [fold_left]; [by rewrite decide_False by apply not_elem_of_nil|]. rewrite IH.
  destruct (decide (c = k)) as [->|Hne].
  - rewrite (decide_True (P := k ∈ k :: called)) by left. destruct (returns k) as [|x l]; destruct (decide (k ∈ called)); try done. by rewrite lookup_insert_eq.
  - assert ((match returns k with [] => found | l => <[k := l]> found end : gmap Z (list Z)) !! c = found !! c) as ->.
    { destruct (returns k); [done|]. by rewrite lookup_insert_ne. }
    destruct (decide (c ∈ called)) as [Hc|Hc]; destruct (decide (c ∈ k :: called)) as [Hk|Hk]; try done.
    + destruct Hk. by right.
    + by apply elem_of_cons in Hk as [?|?].
Qed.

Lemma found_lookup frames frame : frame ∈ frames ->
  reachable_rts_of_callee decoded_by_address accepted_tier1_by_source frames !! callee_of frame =
    match returns (callee_of frame) with [] => None | l => Some l end.
Proof.
  intros Hin. unfold reachable_rts_of_callee. rewrite found_fold. rewrite decide_True; [by destruct (returns _)|].
  apply elem_of_sort_unique. apply list_elem_of_fmap. by exists frame.
Qed.

(** The edges of one frame. *)
Definition return_edges (frame : M68kStaticFrame) : list M68kStaticEdge :=
  omap (fun pc => m68k_make_static_return_edge (sf_call frame) <$> decoded_by_address !! pc) (returns (callee_of frame)).

(** The first frame of every call identity. *)
Fixpoint distinct_frames (seen : list (Z * Z * Z)) (frames : list M68kStaticFrame) : list M68kStaticFrame :=
  match frames with
  | [] => []
  | frame :: rest =>
      let key := call_key (sf_call frame) in
      if decide (key ∈ seen) then distinct_frames seen rest else frame :: distinct_frames (key :: seen) rest
  end.

#[local] Abbreviation emit frame := (emit_return decoded_by_address frame).

Lemma emit_again frame l : forall edges emitted, (forall pc, pc ∈ l -> (pc, call_key (sf_call frame)) ∈ emitted) ->
  fold_left (emit frame) l (Some (edges, emitted)) = Some (edges, emitted).
Proof.
  induction l as [|pc l IH]; intros edges emitted H; [done|]. cbn [fold_left]. unfold emit_return at 2. cbn [mbind option_bind].
  rewrite decide_True by (apply H; left). apply IH. intros p Hp. apply H. by right.
Qed.

Lemma emit_new frame l : forall edges emitted, NoDup l -> (forall pc, pc ∈ l -> is_rts pc) ->
  (forall pc, pc ∈ l -> (pc, call_key (sf_call frame)) ∉ emitted) ->
  exists emitted', fold_left (emit frame) l (Some (edges, emitted)) =
      Some (edges ++ omap (fun pc => m68k_make_static_return_edge (sf_call frame) <$> decoded_by_address !! pc) l, emitted') /\
    forall x, x ∈ emitted' <-> x ∈ emitted \/ exists pc, pc ∈ l /\ x = (pc, call_key (sf_call frame)).
Proof.
  induction l as [|pc l IH]; intros edges emitted Hnd Hrts Hnew.
  - exists emitted. cbn. rewrite app_nil_r. split; [done|]. intros x. split; [by left|]. intros [?|(p & ?%elem_of_nil & _)]; done.
  - apply NoDup_cons in Hnd as [Hpc Hnd]. destruct (Hrts pc) as (d & Hd & _); [left|]. cbn [fold_left]. unfold emit_return at 2.
    cbn [mbind option_bind]. rewrite decide_False by (apply Hnew; left). rewrite Hd. cbn [mbind option_bind omap list_omap fmap option_fmap option_map].
    destruct (IH (edges ++ [m68k_make_static_return_edge (sf_call frame) d]) ({[(pc, call_key (sf_call frame))]} ∪ emitted)) as (em & Hem & Hx).
    + done.
    + intros p Hp. apply Hrts. by right.
    + intros p Hp Hin. apply elem_of_union in Hin as [Hin|Hin]; [|by apply (Hnew p); [right|]].
      apply elem_of_singleton in Hin. congruence.
    + exists em. rewrite Hem, <- app_assoc, Hd. split; [done|]. intros x. rewrite Hx, elem_of_union, elem_of_singleton. split.
      * intros [[->|?]|(p & Hp & ->)]; [right; exists pc; split; [left|done]|by left|right; exists p; split; [by right|done]].
      * intros [?|(p & Hp & ->)]; [tauto|]. apply elem_of_cons in Hp as [->|Hp]; [tauto|]. right. by exists p.
Qed.

Lemma return_edges_fold (found : gmap Z (list Z)) frames : forall edges emitted seen,
  (forall frame, frame ∈ frames -> found !! callee_of frame = match returns (callee_of frame) with [] => None | l => Some l end) ->
  (forall pc key, (pc, key) ∈ emitted <-> key ∈ seen /\ pc ∈ returns key.1.2) ->
  exists emitted', fold_left (fun st frame => match found !! callee_of frame with None => st | Some l => fold_left (emit frame) l st end)
      frames (Some (edges, emitted)) =
    Some (edges ++ flat_map return_edges (distinct_frames seen frames), emitted').
Proof.
  induction frames as [|frame frames IH]; intros edges emitted seen Hfound Hem; [exists emitted; cbn; by rewrite app_nil_r|].
  cbn [fold_left distinct_frames]. rewrite (Hfound frame) by left.
  assert (forall f, f ∈ frames -> found !! callee_of f = match returns (callee_of f) with [] => None | l => Some l end) as Hrest
    by (intros f Hf; apply Hfound; by right).
  destruct (reachable_rts_spec (callee_of frame)) as [Hsorted Hreach].
  assert (match match returns (callee_of frame) with [] => None | l => Some l end with
          | None => Some (edges, emitted) | Some l => fold_left (emit frame) l (Some (edges, emitted)) end =
          fold_left (emit frame) (returns (callee_of frame)) (Some (edges, emitted))) as -> by (by destruct (returns (callee_of frame))).
  destruct (decide (call_key (sf_call frame) ∈ seen)) as [Hs|Hs].
  - rewrite emit_again; [by apply IH|]. intros pc Hpc. apply Hem. by split.
  - destruct (emit_new frame (returns (callee_of frame)) edges emitted) as (em & -> & Hx).
    + by apply sorted_NoDup.
    + intros pc Hpc. by apply Hreach.
    + intros pc Hpc Hin. by apply Hem in Hin as [? _].
    + destruct (IH (edges ++ return_edges frame) em (call_key (sf_call frame) :: seen) Hrest) as (em' & Hf).
      * intros pc key. rewrite Hx, Hem, elem_of_cons. split.
        -- intros [[? ?]|(p & Hp & [= -> ->])]; [tauto|]. split; [by left|done].
        -- intros [[->|?] Hpc]; [right; by exists pc|by left].
      * exists em'. etrans; [exact Hf|]. cbn [flat_map]. by rewrite <- app_assoc.
Qed.

(** C23. The return edges of a program: whatever the instructions, the frames and
    the accepted targets, the trace ends and no lookup fails; the edges are, for the
    first frame of every call identity and in the order of the frames, one edge for
    every RTS the body of its callee reaches, by ascending address, and no other. *)
Theorem reachable_return_edges_exact (frames : list M68kStaticFrame) :
  m68k_reachable_return_edges decoded_by_address accepted_tier1_by_source frames = Some (flat_map return_edges (distinct_frames [] frames)) /\
  forall callee, StronglySorted Z.lt (returns callee) /\ forall pc, pc ∈ returns callee <-> returns_from callee pc.
Proof.
  split; [|intros callee; apply reachable_rts_spec]. unfold m68k_reachable_return_edges.
  destruct (return_edges_fold (reachable_rts_of_callee decoded_by_address accepted_tier1_by_source frames) frames [] ∅ []) as (em & ->); [| |done].
  - intros frame Hin. by apply found_lookup.
  - intros pc key. rewrite elem_of_nil, elem_of_empty. tauto.
Qed.
End Spec.
