(* ===== verification/M68kStaticFlow.v ===== *)
(** The flow of the register values over the decoded program
    ([static_discovery.cpp]): the successors of an instruction, the control adjacency
    built from the canonical edges with the bounds of its compare edges, the register
    footprint of a callee and the fixed point [analyze_finite_register_values].

    The roots of the analysis are an argument.  [queued] is the set of the elements of
    the work list, so membership in the list stands for it.  Both searches take fuel
    from a bound on what they may still push; neither runs out of it. *)

From S2P Require Import Prelude M68kInstruction M68kArithmetic M68kLegality M68kDecode M68kEffects M68kFinite M68kFiniteSound.
From S2P Require Import M68kStaticValues M68kStaticSound M68kStaticProgram.

(** * Successors *)

Record M68kValueFlowSuccessor := mkFlow {
  vf_address : Z;
  vf_force_unknown : bool;
  vf_callee_entry : option Z;
  vf_dn_constraint : option DnConstraint;
}.

Definition plain_flow (address : Z) : M68kValueFlowSuccessor := mkFlow address false None None.

Definition m68k_decode_local_flow_successors (addr : Z) (decoded : M68kDecodedInstruction) : list M68kValueFlowSuccessor :=
  let next := next_pc addr decoded in
  match i_kind decoded with
  | K_bne_short => [plain_flow next]
  | K_bra_short => []
  | K_branch => if negb (i_condition decoded =b CC_always) then [plain_flow next] else []
  | K_dbcc => [plain_flow next]
  | K_rts | K_rte | K_rtr | K_instruction_exception | K_jmp => []
  | K_jsr | K_bsr | K_trap | K_trapv | K_chk => [mkFlow next true None None]
  | _ => [plain_flow next]
  end.

(** The callee of every direct call, by the address of the call. *)
Definition m68k_direct_call_sites (canonical_edges : list M68kStaticEdge) : gmap Z Z :=
  fold_left (fun sites edge =>
    match se_kind edge, se_call edge with
    | SEK_direct_call, Some call => <[provenance_address (se_source_instruction edge) := pa_value (sc_callee call)]> sites
    | _, _ => sites
    end) canonical_edges ∅.

(** ** The canonical adjacency *)

Definition flow_before (a b : M68kValueFlowSuccessor) : bool :=
  if negb (vf_address a =? vf_address b) then vf_address a <? vf_address b
  else if negb (eqb (vf_force_unknown a) (vf_force_unknown b)) then negb (vf_force_unknown a) && vf_force_unknown b
  else default 0 (vf_callee_entry a) <? default 0 (vf_callee_entry b).

Definition flow_order (a b : M68kValueFlowSuccessor) : Prop := flow_before b a = false.

#[export] Instance flow_order_dec a b : Decision (flow_order a b).
Proof. unfold flow_order. apply _. Defined.

Definition same_flow (a b : M68kValueFlowSuccessor) : bool :=
  (vf_address a =? vf_address b) && eqb (vf_force_unknown a) (vf_force_unknown b) && (vf_callee_entry a =b vf_callee_entry b).

Fixpoint unique_from (kept : M68kValueFlowSuccessor) (l : list M68kValueFlowSuccessor) : list M68kValueFlowSuccessor :=
  match l with
  | [] => []
  | x :: rest => if same_flow kept x then unique_from kept rest else x :: unique_from x rest
  end.

Definition sort_flow (l : list M68kValueFlowSuccessor) : list M68kValueFlowSuccessor :=
  match merge_sort flow_order l with [] => [] | x :: rest => x :: unique_from x rest end.

Section Adjacency.
Context (entries : gmap Z M68kDecodedInstruction) (canonical_edges : list M68kStaticEdge).

Definition fill_callee (address : Z) (succ : M68kValueFlowSuccessor) : M68kValueFlowSuccessor :=
  if vf_force_unknown succ && negb (bool_decide (is_Some (vf_callee_entry succ))) then
    match m68k_direct_call_sites canonical_edges !! address with
    | Some callee => mkFlow (vf_address succ) true (Some callee) (vf_dn_constraint succ)
    | None => succ
    end
  else succ.

(** The destination a canonical edge adds; a return adds none. *)
Definition edge_flow (edge : M68kStaticEdge) : option Z :=
  match se_kind edge with
  | SEK_direct_branch | SEK_indirect_branch | SEK_fallthrough | SEK_fallthrough_continuation => Some (pa_value (se_target edge))
  | SEK_direct_call | SEK_indirect_call =>
      Some (match se_call edge with Some call => pa_value (sc_callee call) | None => pa_value (se_target edge) end)
  | SEK_return_to_continuation => None
  end.

Definition local_adjacency : gmap Z (list M68kValueFlowSuccessor) :=
  map_imap (fun address decoded => Some (map (fill_callee address) (m68k_decode_local_flow_successors address decoded))) entries.

Definition add_edge (adjacency : gmap Z (list M68kValueFlowSuccessor)) (edge : M68kStaticEdge) : gmap Z (list M68kValueFlowSuccessor) :=
  let source := provenance_address (se_source_instruction edge) in
  match entries !! source, edge_flow edge with
  | Some _, Some target => <[source := default [] (adjacency !! source) ++ [plain_flow target]]> adjacency
  | _, _ => adjacency
  end.

Definition sorted_adjacency : gmap Z (list M68kValueFlowSuccessor) := sort_flow <$> fold_left add_edge canonical_edges local_adjacency.

(** The start of the instruction that ends at an address; the last one wins. *)
Definition fallthrough_pred : gmap Z Z :=
  fold_left (fun pred address =>
    match entries !! address with
    | Some decoded => <[next_pc address decoded := address]> pred
    | None => pred
    end) (sort_unique (map_to_list entries).*1) ∅.

Definition edge_destination (edge : M68kStaticEdge) : Z :=
  match se_kind edge with
  | SEK_direct_call | SEK_indirect_call =>
      match se_call edge with Some call => pa_value (sc_callee call) | None => pa_value (se_target edge) end
  | _ => pa_value (se_target edge)
  end.

Definition is_cond_branch (decoded : M68kDecodedInstruction) : bool :=
  (i_kind decoded =b K_bne_short) ||
  ((i_kind decoded =b K_branch) && negb (i_condition decoded =b CC_always) && negb (i_condition decoded =b CC_never)).

Definition edge_constraints (address : Z) (decoded : M68kDecodedInstruction) : option (Z * option DnConstraint * option DnConstraint) :=
  if negb (is_cond_branch decoded) then None
  else if bool_decide (address ∈ map edge_destination canonical_edges) then None
  else
    start ← fallthrough_pred !! address;
    compare ← entries !! start;
    m68k_derive_unsigned_compare_branch_constraints compare decoded.

Definition constrain (next : Z) (taken not_taken : option DnConstraint) (succ : M68kValueFlowSuccessor) : M68kValueFlowSuccessor :=
  if vf_force_unknown succ then succ
  else
    match (if vf_address succ =? next then not_taken else taken), vf_dn_constraint succ with
    | Some c, None => mkFlow (vf_address succ) false (vf_callee_entry succ) (Some c)
    | _, _ => succ
    end.

Definition m68k_canonical_control_adjacency : gmap Z (list M68kValueFlowSuccessor) :=
  map_imap (fun address successors =>
    match entries !! address with
    | Some decoded =>
        match edge_constraints address decoded with
        | Some (_, taken, not_taken) => Some (map (constrain (next_pc address decoded) taken not_taken) successors)
        | None => Some successors
        end
    | None => Some successors
    end) sorted_adjacency.
End Adjacency.

(** * The footprint of a callee *)

Record M68kRegisterFootprint := mkFootprint { dn_written : list bool; an_written : list bool; exhaustive_unknown : bool }.

Definition empty_footprint : M68kRegisterFootprint := mkFootprint (replicate 8 false) (replicate 8 false) false.
Definition unknown_footprint : M68kRegisterFootprint := mkFootprint (replicate 8 false) (replicate 8 false) true.

Definition set_unknown (f : M68kRegisterFootprint) : M68kRegisterFootprint := mkFootprint (dn_written f) (an_written f) true.

Definition mark (registers : list Z) (written : list bool) : list bool :=
  fold_left (fun written reg => <[Z.to_nat reg := true]> written) registers written.

Definition mark_instruction (decoded : M68kDecodedInstruction) (f : M68kRegisterFootprint) : M68kRegisterFootprint :=
  mkFootprint (mark (m68k_written_data_registers decoded) (dn_written f)) (mark (m68k_written_address_registers decoded) (an_written f))
    (exhaustive_unknown f).

Definition join_footprint (f sub : M68kRegisterFootprint) : M68kRegisterFootprint :=
  mkFootprint (zip_with orb (dn_written f) (dn_written sub)) (zip_with orb (an_written f) (an_written sub))
    (exhaustive_unknown f || exhaustive_unknown sub).

Definition is_nested_call (decoded : M68kDecodedInstruction) : bool := (i_kind decoded =b K_jsr) || (i_kind decoded =b K_bsr).

Section Footprint.
Context (entries : gmap Z M68kDecodedInstruction) (adjacency : gmap Z (list M68kValueFlowSuccessor)).

Definition successors_of (address : Z) : list M68kValueFlowSuccessor := default [] (adjacency !! address).

Section Body.
Context (nested : Z -> gmap Z M68kRegisterFootprint -> option (M68kRegisterFootprint * gmap Z M68kRegisterFootprint)).

(** The successors of one instruction: the footprint, the memo and the addresses pushed. *)
Fixpoint walk_successors (is_call : bool) (successors : list M68kValueFlowSuccessor) (f : M68kRegisterFootprint)
    (memo : gmap Z M68kRegisterFootprint) (work : list Z) : option (M68kRegisterFootprint * gmap Z M68kRegisterFootprint * list Z) :=
  match successors with
  | [] => Some (f, memo, work)
  | succ :: rest =>
      if is_call then
        if vf_force_unknown succ then
          match vf_callee_entry succ with
          | Some callee => '(sub, memo) ← nested callee memo; walk_successors is_call rest (join_footprint f sub) memo (work ++ [vf_address succ])
          | None => walk_successors is_call rest (set_unknown f) memo (work ++ [vf_address succ])
          end
        else walk_successors is_call rest f memo work
      else if vf_force_unknown succ then walk_successors is_call rest (set_unknown f) memo work
      else walk_successors is_call rest f memo (work ++ [vf_address succ])
  end.

Fixpoint walk_body (fuel : nat) (visited : gset Z) (f : M68kRegisterFootprint) (memo : gmap Z M68kRegisterFootprint) (work : list Z)
    : option (M68kRegisterFootprint * gmap Z M68kRegisterFootprint) :=
  match work with
  | [] => Some (f, memo)
  | current :: rest =>
      match fuel with
      | O => None
      | S fuel =>
          if decide (current ∈ visited) then walk_body fuel visited f memo rest
          else
            let visited := {[current]} ∪ visited in
            match entries !! current with
            | None => walk_body fuel visited (set_unknown f) memo rest
            | Some decoded =>
                '(f, memo, work) ← walk_successors (is_nested_call decoded) (successors_of current) (mark_instruction decoded f) memo rest;
                walk_body fuel visited f memo work
            end
      end
  end.
End Body.

Definition body_cost (address : Z) (decoded : M68kDecodedInstruction) : nat := length (successors_of address).
Definition body_fuel : nat := S (unvisited body_cost ∅ (map_to_list entries)).

Fixpoint m68k_compute_callee_register_footprint (depth_budget : nat) (entry : Z) (memo : gmap Z M68kRegisterFootprint)
    : option (M68kRegisterFootprint * gmap Z M68kRegisterFootprint) :=
  match memo !! entry with
  | Some f => Some (f, memo)
  | None =>
      match depth_budget with
      | O => Some (unknown_footprint, <[entry := unknown_footprint]> memo)
      | S depth_budget =>
          '(result, memo) ← walk_body (m68k_compute_callee_register_footprint depth_budget) body_fuel ∅ empty_footprint
                              (<[entry := unknown_footprint]> memo) [entry];
          Some (result, <[entry := result]> memo)
      end
  end.
End Footprint.

(** * The fixed point *)

Section Analysis.
Context `{environment : M68kStaticDiscoveryEnvironment}.
Context (entries : gmap Z M68kDecodedInstruction) (adjacency : gmap Z (list M68kValueFlowSuccessor)) (max_call_frame_depth : nat).

Record FlowState := mkFlowState {
  fs_in_states : gmap Z M68kRegisterState;
  fs_out_states : gmap Z M68kRegisterState;
  fs_worklist : list Z;
  fs_memo : gmap Z M68kRegisterFootprint;
}.

(** The registers that survive a call whose callee has a footprint. *)
Definition keep_unwritten (f : M68kRegisterFootprint) (out_state : M68kRegisterState) : M68kRegisterState :=
  fold_left (fun s i =>
    let s := if znth (dn_written f) i false then set_dn i dn_unknown s else s in
    if negb (m68k_an_finite_proof_eligible i) || znth (an_written f) i false then set_an i an_unknown s else s)
    (seqZ 0 8) out_state.

Definition contributed_state (out_state : M68kRegisterState) (succ : M68kValueFlowSuccessor) (memo : gmap Z M68kRegisterFootprint)
    : option (M68kRegisterState * gmap Z M68kRegisterFootprint) :=
  '(contributed, memo) ←
    (if negb (vf_force_unknown succ) then Some (out_state, memo)
     else
       match vf_callee_entry succ with
       | None => Some (unknown_registers, memo)
       | Some callee =>
           '(footprint, memo) ← m68k_compute_callee_register_footprint entries adjacency max_call_frame_depth callee memo;
           Some (if exhaustive_unknown footprint then unknown_registers else keep_unwritten footprint out_state, memo)
       end);
  Some (match vf_dn_constraint succ with
        | Some c => m68k_apply_dn_edge_constraint c contributed
        | None => contributed
        end, memo).

Definition queue_address (address : Z) (worklist : list Z) : list Z :=
  if bool_decide (address ∈ worklist) then worklist else worklist ++ [address].

(** One successor of the instruction at hand. *)
Definition flow_to (out_state : M68kRegisterState) (st : option FlowState) (succ : M68kValueFlowSuccessor) : option FlowState :=
  st ← st;
  if negb (bool_decide (is_Some (entries !! vf_address succ))) then Some st
  else
    '(contributed, memo) ← contributed_state out_state succ (fs_memo st);
    let address := vf_address succ in
    match fs_in_states st !! address with
    | None => Some (mkFlowState (<[address := contributed]> (fs_in_states st)) (fs_out_states st) (queue_address address (fs_worklist st)) memo)
    | Some slot =>
        let merged := m68k_merge_register_state slot contributed in
        if m68k_register_state_equal merged slot then Some (mkFlowState (fs_in_states st) (fs_out_states st) (fs_worklist st) memo)
        else Some (mkFlowState (<[address := merged]> (fs_in_states st)) (fs_out_states st) (queue_address address (fs_worklist st)) memo)
    end.

(** One instruction of the work list; an address without an instruction or without a
    state is passed over (the second never happens). *)
Definition flow_step (current : Z) (st : FlowState) : option FlowState :=
  match entries !! current, fs_in_states st !! current with
  | Some decoded, Some in_state =>
      let out_state := m68k_apply_finite_value_transfer true in_state decoded in
      fold_left (flow_to out_state) (successors_of adjacency current)
        (Some (mkFlowState (fs_in_states st) (<[current := out_state]> (fs_out_states st)) (fs_worklist st) (fs_memo st)))
  | _, _ => Some st
  end.

Fixpoint flow_loop (fuel : nat) (st : FlowState) : option FlowState :=
  match fs_worklist st with
  | [] => Some st
  | current :: rest =>
      match fuel with
      | O => None
      | S fuel => st ← flow_step current (mkFlowState (fs_in_states st) (fs_out_states st) rest (fs_memo st)); flow_loop fuel st
      end
  end.

Definition seed_root (seeded_root_states : gmap Z M68kRegisterState) (st : FlowState) (root : M68kProgramAddress) : FlowState :=
  if negb (pa_space root =b TAS_m68k_program) || negb (bool_decide (is_Some (entries !! pa_value root))) then st
  else mkFlowState (<[pa_value root := default unknown_registers (seeded_root_states !! pa_value root)]> (fs_in_states st))
         (fs_out_states st) (queue_address (pa_value root) (fs_worklist st)) (fs_memo st).

(** More than the pops that can happen: every state of an address can shrink its rank that often. *)
Definition state_rank_limit : nat := 4800.
Definition flow_fuel (st : FlowState) : nat := length (fs_worklist st) + size entries * S state_rank_limit.
End Analysis.

Section Program.
Context `{environment : M68kStaticDiscoveryEnvironment}.

(** The states before and after every instruction. *)
Definition analyze_finite_register_values (entries : gmap Z M68kDecodedInstruction) (selected_roots : list M68kProgramAddress)
    (canonical_edges : list M68kStaticEdge) (max_call_frame_depth : nat) (seeded_root_states : gmap Z M68kRegisterState)
    : option (gmap Z M68kRegisterState * gmap Z M68kRegisterState) :=
  let adjacency := m68k_canonical_control_adjacency entries canonical_edges in
  let st := fold_left (seed_root entries seeded_root_states) selected_roots (mkFlowState ∅ ∅ [] ∅) in
  st ← flow_loop entries adjacency max_call_frame_depth (flow_fuel entries st) st;
  Some (fs_in_states st, fs_out_states st).
End Program.
