(* ===== verification/M68kStaticFlowSound.v ===== *)
(** The analysis of [M68kStaticFlow] is sound and ends: the footprint of a callee
    covers every instruction its body can run, the fixed point terminates within its
    fuel, and at every instruction a run of the decoded program can reach, the
    registers lie in the state computed for it. *)

From S2P Require Import Prelude M68kInstruction M68kArithmetic M68kLegality M68kDecode M68kShape M68kDecodeSpec M68kEffects.
From S2P Require Import M68kFinite M68kFiniteSound M68kStaticValues M68kStaticSound M68kStaticBounds M68kStaticProgram M68kStaticFlow.

(** * The footprint *)

Section Footprint.
Context (entries : gmap Z M68kDecodedInstruction) (adjacency : gmap Z (list M68kValueFlowSuccessor)).
#[local] Abbreviation successors := (successors_of adjacency).

(** The instructions a call of [entry] can run: its body, through every plain
    successor and past every nested call, and the bodies of the callees it knows. *)
Inductive touches (entry : Z) : Z -> Prop :=
| touches_entry : touches entry entry
| touches_body pc decoded s : touches entry pc -> entries !! pc = Some decoded -> s ∈ successors pc ->
    vf_force_unknown s = is_nested_call decoded -> touches entry (vf_address s)
| touches_callee pc decoded s callee : touches entry pc -> entries !! pc = Some decoded -> s ∈ successors pc ->
    is_nested_call decoded = true -> vf_force_unknown s = true -> vf_callee_entry s = Some callee -> touches entry callee.

(** The instruction at [pc] is known, leaves the body only through known callees and
    writes marked registers only. *)
Definition marked (f : M68kRegisterFootprint) (decoded : M68kDecodedInstruction) : Prop :=
  (forall r, 0 <= r -> r ∈ m68k_written_data_registers decoded -> znth (dn_written f) r false = true) /\
  (forall r, 0 <= r -> r ∈ m68k_written_address_registers decoded -> znth (an_written f) r false = true).
Definition contained (pc : Z) (decoded : M68kDecodedInstruction) : Prop :=
  forall s, s ∈ successors pc -> vf_force_unknown s = true -> is_nested_call decoded = true /\ is_Some (vf_callee_entry s).
Definition good (f : M68kRegisterFootprint) (pc : Z) : Prop :=
  exists decoded, entries !! pc = Some decoded /\ marked f decoded /\ contained pc decoded.
Definition covers (f : M68kRegisterFootprint) (entry : Z) : Prop := forall pc, touches entry pc -> good f pc.

Definition footprint_ok (f : M68kRegisterFootprint) : Prop := length (dn_written f) = 8%nat /\ length (an_written f) = 8%nat.
Record footprint_le (f g : M68kRegisterFootprint) : Prop := {
  fl_dn : forall r, 0 <= r -> znth (dn_written f) r false = true -> znth (dn_written g) r false = true;
  fl_an : forall r, 0 <= r -> znth (an_written f) r false = true -> znth (an_written g) r false = true;
  fl_unknown : exhaustive_unknown g = false -> exhaustive_unknown f = false;
}.

#[local] Instance footprint_le_preorder : PreOrder footprint_le.
Proof. split; [by split|]. intros f g h [] []. split; auto. Qed.

Lemma marked_mono f g decoded : footprint_le f g -> marked f decoded -> marked g decoded.
Proof. intros [Hd Ha _] [H1 H2]. split; auto. Qed.

Lemma covers_mono f g entry : footprint_le f g -> covers f entry -> covers g entry.
Proof. intros Hle H pc Hpc. destruct (H pc Hpc) as (d & ? & Hm & ?). exists d. split; [done|]. split; [by eapply marked_mono|done]. Qed.

Lemma znth_mark l : forall written r, length written = 8%nat -> Forall (fun reg => 0 <= reg < 8) l -> 0 <= r ->
  length (mark l written) = 8%nat /\
  (znth (mark l written) r false = true <-> znth written r false = true \/ r ∈ l).
Proof.
  induction l as [|reg l IH]; intros written r Hlen Hl Hr; [split; [done|]; cbn; by rewrite elem_of_nil; tauto|].
  apply Forall_cons in Hl as [Hreg Hl]. destruct (IH (<[Z.to_nat reg:=true]> written) r) as [Hlen' Hiff]; [by rewrite length_insert|done|done|].
  split; [exact Hlen'|]. change (mark (reg :: l) written) with (mark l (<[Z.to_nat reg:=true]> written)).
  rewrite Hiff, elem_of_cons, znth_insert by (unfold zlen; lia). destruct (Z.eqb_spec r reg); tauto.
Qed.

Lemma znth_orb l k r : length l = 8%nat -> length k = 8%nat -> 0 <= r ->
  znth (zip_with orb l k) r false = znth l r false || znth k r false.
Proof.
  intros Hl Hk Hr. rewrite !znth_nth, !nth_lookup, lookup_zip_with by lia.
  destruct (decide (Z.to_nat r < 8)%nat) as [Hlt|Hge].
  - destruct (lookup_lt_is_Some_2 l (Z.to_nat r)) as [x Hx]; [lia|]. destruct (lookup_lt_is_Some_2 k (Z.to_nat r)) as [y Hy]; [lia|].
    by rewrite Hx, Hy.
  - by rewrite !lookup_ge_None_2 by lia.
Qed.

(** Every written register is one of eight. *)
Definition in_range (decoded : M68kDecodedInstruction) : Prop :=
  Forall (fun reg => 0 <= reg < 8) (m68k_written_data_registers decoded) /\
  Forall (fun reg => 0 <= reg < 8) (m68k_written_address_registers decoded).
Context (Hrange : forall pc decoded, entries !! pc = Some decoded -> in_range decoded).

Lemma mark_instruction_spec f pc decoded : footprint_ok f -> entries !! pc = Some decoded ->
  footprint_ok (mark_instruction decoded f) /\ footprint_le f (mark_instruction decoded f) /\ marked (mark_instruction decoded f) decoded.
Proof using Hrange.
  intros [Hd Ha] Hpc. destruct (Hrange pc decoded Hpc) as [Hrd Hra]. unfold footprint_ok, mark_instruction. cbn [dn_written an_written].
  split; [|split; [split|split]]; cbn [dn_written an_written exhaustive_unknown].
  - split; [apply (znth_mark _ _ 0 Hd Hrd)|apply (znth_mark _ _ 0 Ha Hra)]; lia.
  - intros r Hr H. apply (znth_mark _ _ r Hd Hrd Hr). by left.
  - intros r Hr H. apply (znth_mark _ _ r Ha Hra Hr). by left.
  - done.
  - intros r Hr H. apply (znth_mark _ _ r Hd Hrd Hr). by right.
  - intros r Hr H. apply (znth_mark _ _ r Ha Hra Hr). by right.
Qed.

Lemma set_unknown_spec f : footprint_ok f -> footprint_ok (set_unknown f) /\ footprint_le f (set_unknown f).
Proof. intros H. split; [done|]. by split. Qed.

Lemma footprint_join_spec f sub : footprint_ok f -> footprint_ok sub ->
  footprint_ok (join_footprint f sub) /\ footprint_le f (join_footprint f sub) /\ footprint_le sub (join_footprint f sub).
Proof.
  intros [Hd Ha] [Hd' Ha']. split; [|split; split]; cbn [join_footprint dn_written an_written exhaustive_unknown].
  - unfold footprint_ok, join_footprint. cbn [dn_written an_written]. rewrite !length_zip_with. lia.
  - intros r Hr H. by rewrite znth_orb, H by done.
  - intros r Hr H. by rewrite znth_orb, H by done.
  - intros H. by apply orb_false_iff in H as [? _].
  - intros r Hr H. by rewrite znth_orb, H, orb_true_r by done.
  - intros r Hr H. by rewrite znth_orb, H, orb_true_r by done.
  - intros H. by apply orb_false_iff in H as [_ ?].
Qed.

Definition memo_ok (memo : gmap Z M68kRegisterFootprint) : Prop :=
  forall callee f, memo !! callee = Some f -> footprint_ok f /\ (exhaustive_unknown f = false -> covers f callee).

(** What a footprint computation promises. *)
Definition computes (run : Z -> gmap Z M68kRegisterFootprint -> option (M68kRegisterFootprint * gmap Z M68kRegisterFootprint)) : Prop :=
  forall callee memo, memo_ok memo -> exists f memo', run callee memo = Some (f, memo') /\ memo_ok memo' /\
    footprint_ok f /\ (exhaustive_unknown f = false -> covers f callee).

Section Body.
Context (nested : Z -> gmap Z M68kRegisterFootprint -> option (M68kRegisterFootprint * gmap Z M68kRegisterFootprint)).
Context (Hnested : computes nested).

(** What is settled of one successor once the footprint is known. *)
Definition settled (is_call : bool) (f : M68kRegisterFootprint) (reached : Z -> Prop) (s : M68kValueFlowSuccessor) : Prop :=
  (vf_force_unknown s = is_call -> reached (vf_address s)) /\
  (vf_force_unknown s = true -> is_call = true /\ exists callee, vf_callee_entry s = Some callee /\ covers f callee).

Lemma settled_mono is_call f g (reached reached' : Z -> Prop) s : footprint_le f g -> (forall p, reached p -> reached' p) ->
  settled is_call f reached s -> settled is_call g reached' s.
Proof.
  intros Hle Hr [H1 H2]. split; [by intros ?; apply Hr, H1|]. intros Hs. destruct (H2 Hs) as (? & c & ? & Hc). split; [done|].
  exists c. split; [done|]. by eapply covers_mono.
Qed.

Lemma walk_successors_spec is_call l : forall f memo work, memo_ok memo -> footprint_ok f ->
  exists f' memo' extra, walk_successors nested is_call l f memo work = Some (f', memo', work ++ extra) /\
    memo_ok memo' /\ footprint_ok f' /\ footprint_le f f' /\ (length extra <= length l)%nat /\
    (exhaustive_unknown f' = false -> forall s, s ∈ l -> settled is_call f' (fun p => p ∈ extra) s).
Proof using Hnested.
  induction l as [|s l IH]; intros f memo work Hmemo Hf; cbn [walk_successors].
  { exists f, memo, []. rewrite app_nil_r. split_and!; try done. by intros _ s ?%elem_of_nil. }
  assert (forall f1 memo1 more, memo_ok memo1 -> footprint_ok f1 -> footprint_le f f1 -> (length more <= 1)%nat ->
    (exhaustive_unknown f1 = false -> settled is_call f1 (fun p => p ∈ more) s) ->
    exists f' memo' extra, walk_successors nested is_call l f1 memo1 (work ++ more) = Some (f', memo', work ++ extra) /\
      memo_ok memo' /\ footprint_ok f' /\ footprint_le f f' /\ (length extra <= length (s :: l))%nat /\
      (exhaustive_unknown f' = false -> forall s', s' ∈ s :: l -> settled is_call f' (fun p => p ∈ extra) s')) as Hgo.
  { intros f1 memo1 more Hm1 Hf1 Hle Hmore Hset. destruct (IH f1 memo1 (work ++ more) Hm1 Hf1) as (f' & memo' & extra & E & Hm & Hf' & Hle' & Hlen & Hs).
    exists f', memo', (more ++ extra). rewrite E, app_assoc. split_and!; try done; [by etrans|rewrite length_app; cbn; lia|].
    intros Hu s' [->|Hin]%elem_of_cons.
    - apply (settled_mono is_call f1 f' (fun p => p ∈ more)); [done|intros p Hp; apply elem_of_app; by left|]. apply Hset. by apply (fl_unknown _ _ Hle').
    - apply (settled_mono is_call f' f' (fun p => p ∈ extra)); [done|intros p Hp; apply elem_of_app; by right|]. by apply Hs. }
  clear IH. destruct is_call; destruct (vf_force_unknown s) eqn:Hforce.
  - destruct (vf_callee_entry s) as [callee|] eqn:Hc.
    + destruct (Hnested callee memo Hmemo) as (sub & memo1 & -> & Hm1 & Hsub & Hcov). cbn [mbind option_bind].
      destruct (footprint_join_spec f sub Hf Hsub) as (Hj & Hl1 & Hl2). apply Hgo; try done. intros Hu. split; [by intros _; left|].
      intros _. split; [done|]. exists callee. split; [done|]. eapply covers_mono; [exact Hl2|]. apply Hcov. by apply (fl_unknown _ _ Hl2).
    + destruct (set_unknown_spec f Hf) as [Hj Hl]. apply Hgo; try done.
  - specialize (Hgo f memo []). rewrite app_nil_r in Hgo. apply Hgo; try done; [cbn; lia|]. intros _. split; rewrite Hforce; done.
  - destruct (set_unknown_spec f Hf) as [Hj Hl]. specialize (Hgo (set_unknown f) memo []). rewrite app_nil_r in Hgo. apply Hgo; try done. cbn; lia.
  - apply Hgo; try done. intros _. split; [by intros _; left|]. by rewrite Hforce.
Qed.

(** The addresses visited, once the footprint is known. *)
Definition visited_ok (entry : Z) (f : M68kRegisterFootprint) (visited : gset Z) (reached : Z -> Prop) : Prop :=
  reached entry /\ forall pc, pc ∈ visited -> exists decoded, entries !! pc = Some decoded /\ marked f decoded /\
    forall s, s ∈ successors pc -> settled (is_nested_call decoded) f reached s.

Lemma visited_covers entry f visited : visited_ok entry f visited (fun p => p ∈ visited) -> covers f entry.
Proof.
  intros [Hentry Hv]. assert (forall pc, touches entry pc -> pc ∈ visited \/ exists c, covers f c /\ touches c pc) as Hall.
  { induction 1 as [|pc d s _ IH Hd Hs Hk|pc d s c _ IH Hd Hs Hn Hf Hc]; [by left|..].
    - destruct IH as [Hin|(c & Hc & Ht)]; [|right; exists c; split; [done|by eapply touches_body]].
      left. destruct (Hv pc Hin) as (d' & Hd' & _ & Hset). rewrite Hd in Hd'. injection Hd' as <-. by apply Hset.
    - right. destruct IH as [Hin|(c' & Hc' & Ht)]; [|exists c'; split; [done|by eapply touches_callee]].
      destruct (Hv pc Hin) as (d' & Hd' & _ & Hset). rewrite Hd in Hd'. injection Hd' as <-.
      destruct (Hset s Hs) as [_ H2]. destruct (H2 Hf) as (_ & c' & Hc' & Hcov). rewrite Hc in Hc'. injection Hc' as <-.
      exists c. split; [done|constructor]. }
  intros pc Hpc. destruct (Hall pc Hpc) as [Hin|(c & Hc & Ht)]; [|by apply Hc].
  destruct (Hv pc Hin) as (d & Hd & Hm & Hset). exists d. split; [done|]. split; [done|]. intros s Hs Hf.
  destruct (Hset s Hs) as [_ H2]. destruct (H2 Hf) as (? & c & -> & _). by split.
Qed.

#[local] Abbreviation budget visited := (unvisited (body_cost adjacency) visited (map_to_list entries)).

Lemma walk_body_spec entry fuel : forall visited f memo work, memo_ok memo -> footprint_ok f ->
  (exhaustive_unknown f = false -> visited_ok entry f visited (fun p => p ∈ visited \/ p ∈ work)) ->
  (length work + budget visited <= fuel)%nat ->
  exists f' memo', walk_body entries adjacency nested fuel visited f memo work = Some (f', memo') /\ memo_ok memo' /\ footprint_ok f' /\
    (exhaustive_unknown f' = false -> covers f' entry).
Proof using Hnested Hrange.
  induction fuel as [|fuel IH]; intros visited f memo [|pc rest] Hm Hf Hv Hfuel; cbn [length] in Hfuel; cbn [walk_body]; [|lia| |].
  1,2: (exists f, memo; split_and!; try done; intros Hu; eapply visited_covers; specialize (Hv Hu);
    destruct Hv as [He Hv]; split; [by destruct He as [?|?%elem_of_nil]|]; intros p Hp; destruct (Hv p Hp) as (d & ? & ? & Hs); exists d; split_and!; try done;
    intros s Hin; eapply settled_mono; [done| |by apply Hs]; intros q [?|?%elem_of_nil]; done).
  destruct (decide (pc ∈ visited)) as [Hin|Hnew].
  { apply IH; try done; [|lia]. intros Hu. destruct (Hv Hu) as [He Hall]. assert (forall q, q ∈ visited \/ q ∈ pc :: rest -> q ∈ visited \/ q ∈ rest) as Hr
      by (intros q [?|[->|?]%elem_of_cons]; tauto).
    split; [by apply Hr|]. intros p Hp. destruct (Hall p Hp) as (d & ? & ? & Hs). exists d. split_and!; try done.
    intros s Hin'. eapply settled_mono; [done|exact Hr|by apply Hs]. }
  destruct (entries !! pc) as [decoded|] eqn:Hpc.
  - destruct (mark_instruction_spec f pc decoded Hf Hpc) as (Hf1 & Hle1 & Hmark).
    destruct (walk_successors_spec (is_nested_call decoded) (successors pc) (mark_instruction decoded f) memo rest Hm Hf1)
      as (f2 & memo2 & extra & -> & Hm2 & Hf2 & Hle2 & Hlen & Hset). cbn [mbind option_bind].
    pose proof (unvisited_step (body_cost adjacency) pc decoded visited _ (NoDup_fst_map_to_list _) (proj2 (elem_of_map_to_list _ _ _) Hpc) Hnew) as Hb.
    apply IH; try done.
    + intros Hu. assert (exhaustive_unknown f = false) as Hu1 by (by apply (fl_unknown _ _ Hle1), (fl_unknown _ _ Hle2)).
      destruct (Hv Hu1) as [He Hall].
      assert (forall q, q ∈ visited \/ q ∈ pc :: rest -> q ∈ {[pc]} ∪ visited \/ q ∈ rest ++ extra) as Hr.
      { intros q. rewrite elem_of_union, elem_of_singleton, elem_of_cons, elem_of_app. tauto. }
      split; [by apply Hr|]. intros p Hp. apply elem_of_union in Hp as [Hp|Hp].
      * apply elem_of_singleton in Hp as ->. exists decoded. split; [done|]. split; [by eapply marked_mono|]. intros s Hs.
        refine (settled_mono _ f2 f2 (fun p => p ∈ extra) _ s (reflexivity f2) _ (Hset Hu s Hs)). intros q Hq. right. apply elem_of_app. by right.
      * destruct (Hall p Hp) as (d & ? & ? & Hs). exists d. split; [done|]. split; [eapply marked_mono; [exact (transitivity Hle1 Hle2)|done]|].
        intros s Hin'. exact (settled_mono _ _ _ _ _ s (transitivity Hle1 Hle2) Hr (Hs s Hin')).
    + rewrite length_app. unfold body_cost in Hb at 2. lia.
  - destruct (set_unknown_spec f Hf) as [Hf1 _]. apply IH; try done.
    rewrite unvisited_skip; [lia|]. intros Hin. apply list_elem_of_fmap in Hin as ([k a] & -> & Hin).
    apply elem_of_map_to_list in Hin. cbn in Hpc. congruence.
Qed.
End Body.

Lemma memo_ok_insert memo callee f : memo_ok memo -> footprint_ok f -> (exhaustive_unknown f = false -> covers f callee) -> memo_ok (<[callee := f]> memo).
Proof.
  intros Hm Hf Hc k g. destruct (decide (k = callee)) as [->|Hne].
  - rewrite lookup_insert_eq. by intros [= <-].
  - rewrite lookup_insert_ne by done. apply Hm.
Qed.

Lemma footprint_computes depth : computes (m68k_compute_callee_register_footprint entries adjacency depth).
Proof using Hrange.
  induction depth as [|depth IH]; intros callee memo Hm; cbn [m68k_compute_callee_register_footprint];
    (destruct (memo !! callee) as [f|] eqn:E; [exists f, memo; destruct (Hm callee f E); by split_and!|]).
  - eexists _, _. split; [done|]. split; [by apply memo_ok_insert|]. by split.
  - destruct (walk_body_spec _ IH callee (body_fuel entries adjacency) ∅ empty_footprint (<[callee:=unknown_footprint]> memo) [callee])
      as (f & memo' & -> & Hm' & Hf & Hc).
    + by apply memo_ok_insert.
    + done.
    + intros _. split; [right; by left|]. by intros pc ?%elem_of_empty.
    + cbn [length]. unfold body_fuel. lia.
    + cbn [mbind option_bind]. eexists _, _. split; [done|]. split; [by apply memo_ok_insert|]. by split.
Qed.
End Footprint.

(** * Merges *)

Definition shape (s : M68kRegisterState) : Prop := length (dn s) = 8%nat /\ length (an s) = 8%nat.

Lemma merge_dn_contains a b v : dn_contains a v \/ dn_contains b v -> dn_contains (m68k_merge_dn_state a b) v.
Proof.
  intros H. unfold m68k_merge_dn_state. destruct (m68k_dn_state_equal a b) eqn:E.
  { unfold m68k_dn_state_equal in E. apply bool_decide_eq_true in E as <-. tauto. }
  destruct (dn_finite a) eqn:Ha; destruct (dn_finite b) eqn:Hb; cbn [negb orb]; try apply dn_unknown_contains.
  destruct (value_cap <? _); [apply dn_unknown_contains|]. intros _. cbn [dn_values]. apply elem_of_sort_unique, elem_of_app.
  destruct H as [H|H]; [left|right]; by apply H.
Qed.

Lemma merge_an_contains a b v : an_contains a v \/ an_contains b v -> an_contains (m68k_merge_an_state a b) v.
Proof.
  intros H. unfold m68k_merge_an_state. destruct (m68k_an_state_equal a b) eqn:E.
  { unfold m68k_an_state_equal in E. apply bool_decide_eq_true in E as <-. tauto. }
  destruct (an_finite a) eqn:Ha; destruct (an_finite b) eqn:Hb; cbn [negb orb]; try apply an_unknown_contains.
  destruct (value_cap <? _); [apply an_unknown_contains|]. intros _. cbn [an_addrs]. apply elem_of_sort_unique, elem_of_app.
  destruct H as [H|H]; [left|right]; by apply H.
Qed.

Lemma znth_zip_with {A} (f : A -> A -> A) (l k : list A) r x : length l = 8%nat -> length k = 8%nat -> 0 <= r < 8 ->
  znth (zip_with f l k) r x = f (znth l r x) (znth k r x).
Proof.
  intros Hl Hk Hr. rewrite !znth_nth, !nth_lookup, lookup_zip_with by lia.
  destruct (lookup_lt_is_Some_2 l (Z.to_nat r)) as [y Hy]; [lia|]. destruct (lookup_lt_is_Some_2 k (Z.to_nat r)) as [z Hz]; [lia|].
  by rewrite Hy, Hz.
Qed.

Lemma merge_shape a b : shape a -> shape b -> shape (m68k_merge_register_state a b).
Proof. intros [? ?] [? ?]. unfold shape, m68k_merge_register_state. cbn [dn an]. rewrite !length_zip_with. lia. Qed.

(** The merge holds the machines of both sides. *)
Lemma merge_holds data address a b : shape a -> shape b -> state_holds data address a \/ state_holds data address b ->
  state_holds data address (m68k_merge_register_state a b).
Proof.
  intros Ha Hb H. destruct (merge_shape a b Ha Hb) as [Hd Han]. destruct Ha as [Hda Haa], Hb as [Hdb Hab].
  split; [done|]. split; [done|]. split; intros r Hr; unfold get_dn, get_an, m68k_merge_register_state; cbn [dn an]; rewrite znth_zip_with by lia.
  - apply merge_dn_contains. destruct H as [(_ & _ & H & _)|(_ & _ & H & _)]; [left|right]; by apply H.
  - apply merge_an_contains. destruct H as [(_ & _ & _ & H)|(_ & _ & _ & H)]; [left|right]; by apply H.
Qed.

(** ** The rank of a state: how often it can still change *)

Definition value_rank (finite : bool) (values : list Z) : nat :=
  match finite, values with
  | false, [] => 0
  | false, _ => 1
  | true, _ => if bool_decide (sort_unique values = values) then 2 + (257 - length values) else 300
  end.

Definition dn_rank (s : M68kDnValueState) : nat := value_rank (dn_finite s) (dn_values s).
Definition an_rank (s : M68kAnValueState) : nat := value_rank (an_finite s) (an_addrs s).
Definition state_rank (s : M68kRegisterState) : nat := sum_list_with dn_rank (dn s) + sum_list_with an_rank (an s).

Lemma value_rank_limit finite values : (value_rank finite values <= 300)%nat.
Proof. unfold value_rank. destruct finite, values; try lia; case_bool_decide; lia. Qed.

Lemma sort_unique_idem l : sort_unique (sort_unique l) = sort_unique l.
Proof. apply sorted_ext; [apply sort_unique_sorted..|]. intros x. by rewrite !elem_of_sort_unique. Qed.

Lemma union_rank l k : sort_unique (l ++ k) <> l -> zlen (sort_unique (l ++ k)) <= 256 ->
  (value_rank true (sort_unique (l ++ k)) < value_rank true l)%nat.
Proof.
  intros Hne Hlen. unfold zlen in Hlen. unfold value_rank. rewrite bool_decide_true by apply sort_unique_idem.
  case_bool_decide as Hs; [|lia].
  assert (length l < length (sort_unique (l ++ k)))%nat; [|lia].
  assert (l ⊆ sort_unique (l ++ k)) as Hsub by (intros x Hx; apply elem_of_sort_unique, elem_of_app; by left).
  assert (StronglySorted Z.lt l) as Hl by (rewrite <- Hs; apply sort_unique_sorted).
  destruct (Nat.lt_ge_cases (length l) (length (sort_unique (l ++ k)))) as [?|Hge]; [done|]. exfalso. apply Hne.
  apply sorted_ext; [apply sort_unique_sorted|done|]. intros x. split; [|apply Hsub].
  apply (submseteq_length_Permutation l (sort_unique (l ++ k))) in Hge.
  - intros Hin. exact (proj2 (elem_of_Permutation_proper x _ _ Hge) Hin).
  - apply NoDup_submseteq; [by apply sorted_NoDup|done].
Qed.

Lemma merge_dn_rank a b : m68k_merge_dn_state a b = a \/ (dn_rank (m68k_merge_dn_state a b) < dn_rank a)%nat.
Proof.
  unfold m68k_merge_dn_state. destruct (m68k_dn_state_equal a b); [by left|]. destruct a as [[] l], b as [[] k]; cbn [dn_finite dn_values negb orb].
  - destruct (value_cap <? _) eqn:Hcap; [right; unfold dn_rank; cbn; case_bool_decide; lia|]. apply Z.ltb_ge in Hcap. unfold value_cap in Hcap.
    destruct (decide (sort_unique (l ++ k) = l)) as [->|Hne]; [by left|right]. by apply union_rank.
  - right. unfold dn_rank. cbn. case_bool_decide; lia.
  - destruct l; [by left|right; unfold dn_rank; cbn; lia].
  - destruct l; [by left|right; unfold dn_rank; cbn; lia].
Qed.

Lemma merge_an_rank a b : m68k_merge_an_state a b = a \/ (an_rank (m68k_merge_an_state a b) < an_rank a)%nat.
Proof.
  unfold m68k_merge_an_state. destruct (m68k_an_state_equal a b); [by left|]. destruct a as [[] l], b as [[] k]; cbn [an_finite an_addrs negb orb].
  - destruct (value_cap <? _) eqn:Hcap; [right; unfold an_rank; cbn; case_bool_decide; lia|]. apply Z.ltb_ge in Hcap. unfold value_cap in Hcap.
    destruct (decide (sort_unique (l ++ k) = l)) as [->|Hne]; [by left|right]. by apply union_rank.
  - right. unfold an_rank. cbn. case_bool_decide; lia.
  - destruct l; [by left|right; unfold an_rank; cbn; lia].
  - destruct l; [by left|right; unfold an_rank; cbn; lia].
Qed.

Lemma zip_rank {A} (f : A -> A -> A) (rank : A -> nat) (Hf : forall a b, f a b = a \/ (rank (f a b) < rank a)%nat) l : forall k, length l = length k ->
  zip_with f l k = l \/ (sum_list_with rank (zip_with f l k) < sum_list_with rank l)%nat.
Proof.
  induction l as [|a l IH]; intros [|b k] Hlen; try done; [by left|]. cbn. injection Hlen as Hlen.
  destruct (Hf a b) as [-> | Ha]; destruct (IH k Hlen) as [-> | Hl]; [by left|right; lia..].
Qed.

Lemma merge_rank a b : shape a -> shape b -> m68k_register_state_equal (m68k_merge_register_state a b) a = false ->
  (state_rank (m68k_merge_register_state a b) < state_rank a)%nat.
Proof.
  intros [Hda Haa] [Hdb Hab] Hne. apply bool_decide_eq_false in Hne. unfold state_rank, m68k_merge_register_state in *. cbn [dn an].
  destruct (zip_rank _ dn_rank merge_dn_rank (dn a) (dn b)) as [Hd|Hd]; [lia|..]; destruct (zip_rank _ an_rank merge_an_rank (an a) (an b)) as [Ha|Ha]; try lia.
  - destruct Hne. rewrite Hd, Ha. by destruct a.
  - rewrite Hd. lia.
  - rewrite Ha. lia.
Qed.

Lemma state_rank_bound s : shape s -> (state_rank s <= state_rank_limit)%nat.
Proof.
  assert (forall A (rank : A -> nat) l, (forall x, rank x <= 300)%nat -> (sum_list_with rank l <= 300 * length l)%nat) as Hsum.
  { intros A rank l Hr. induction l as [|x l IH]; cbn; [lia|]. specialize (Hr x). lia. }
  intros [Hd Ha]. unfold state_rank, state_rank_limit.
  pose proof (Hsum _ dn_rank (dn s) (fun x => value_rank_limit _ _)). pose proof (Hsum _ an_rank (an s) (fun x => value_rank_limit _ _)). lia.
Qed.

(** * What an edge contributes *)

Lemma fold_shape {A} (f : M68kRegisterState -> A -> M68kRegisterState) (Hf : forall s x, shape s -> shape (f s x)) l :
  forall s, shape s -> shape (fold_left f l s).
Proof. induction l as [|x l IH]; intros s Hs; [done|]. cbn. by apply IH, Hf. Qed.

Lemma set_dn_shape reg v s : shape s -> shape (set_dn reg v s).
Proof. intros [? ?]. split; [|done]. unfold set_dn. cbn [dn]. by rewrite length_insert. Qed.
Lemma set_an_shape reg v s : shape s -> shape (set_an reg v s).
Proof. intros [? ?]. split; [done|]. unfold set_an. cbn [an]. by rewrite length_insert. Qed.

Lemma transfer_shape `{environment : M68kStaticDiscoveryEnvironment} b s i : shape s -> shape (m68k_apply_finite_value_transfer b s i).
Proof.
  intros Hs. unfold m68k_apply_finite_value_transfer. cbv zeta.
  repeat match goal with |- shape (if ?c then _ else _) => destruct c; [by first [apply set_dn_shape|apply set_an_shape]|] end.
  unfold forget_written. apply fold_shape; [intros; by apply set_an_shape|]. apply fold_shape; [intros; by apply set_dn_shape|done].
Qed.

Lemma constraint_shape c s : shape s -> shape (m68k_apply_dn_edge_constraint c s).
Proof. intros Hs. unfold m68k_apply_dn_edge_constraint. cbv zeta. repeat case_match; try done; by apply set_dn_shape. Qed.

Lemma constraint_sound c data address s : 0 <= con_reg c < 8 -> constraint_holds c data -> state_holds data address s ->
  state_holds data address (m68k_apply_dn_edge_constraint c s).
Proof.
  intros Hreg [Hempty Hb] (Hld & Hla & Hd & Ha). destruct (constraint_shape c s (conj Hld Hla)) as [Hld' Hla'].
  split; [done|]. split; [done|]. unfold m68k_apply_dn_edge_constraint. cbv zeta. rewrite Hempty.
  assert (forall X, dn_contains X (data (con_reg c)) -> (forall r, 0 <= r < 8 -> dn_contains (get_dn (set_dn (con_reg c) X s) r) (data r)) /\
    (forall r, 0 <= r < 7 -> an_contains (get_an (set_dn (con_reg c) X s) r) (address r))) as Hset.
  { intros X HX. split; [|exact Ha]. intros r Hr. rewrite get_set_dn by lia. destruct (Z.eqb_spec r (con_reg c)) as [->|]; [done|by apply Hd]. }
  set (v := data (con_reg c)) in *. pose proof (Z.mod_pos_bound v 65536 ltac:(lia)) as Hv.
  destruct (dn_finite (get_dn s (con_reg c))) eqn:Hf.
  - apply Hset. intros _. cbn [dn_values]. apply list_elem_of_In, List.filter_In. split; [apply list_elem_of_In, (Hd _ Hreg Hf)|].
    apply andb_true_iff. rewrite !Z.leb_le. exact Hb.
  - destruct (_ && _ && _) eqn:E; [|by split].
    rewrite !andb_true_iff, Z.eqb_eq, !Z.leb_le in E. destruct E as ((Hw & Hlo) & Hn). rewrite Hw, land_ffff, u16_id in Hb by done.
    apply Hset. intros _. cbn [dn_values]. apply list_elem_of_fmap. exists (v mod 65536). split; [by rewrite u16_id|].
    apply elem_of_seqZ. lia.
Qed.

Lemma keep_unwritten_shape f s : shape s -> shape (keep_unwritten f s).
Proof.
  apply fold_shape. intros s' i Hs'. cbv zeta.
  assert (shape (if znth (dn_written f) i false then set_dn i dn_unknown s' else s')) as Hs1 by (destruct (znth _ _ _); [by apply set_dn_shape|done]).
  destruct (_ || _); [by apply set_an_shape|done].
Qed.

Lemma unknown_registers_shape : shape unknown_registers.
Proof. done. Qed.

Lemma unknown_holds data address : state_holds data address unknown_registers.
Proof.
  split; [done|]. split; [done|]. split; intros r _; unfold get_dn, get_an, unknown_registers; cbn [dn an]; rewrite znth_replicate;
    [apply dn_unknown_contains|apply an_unknown_contains].
Qed.

(** A register the footprint does not mark keeps its state. *)
Lemma keep_unwritten_holds f data address data' address' s : shape s -> state_holds data address s ->
  (forall r, 0 <= r < 8 -> znth (dn_written f) r false = false -> data' r = data r) ->
  (forall r, 0 <= r < 7 -> znth (an_written f) r false = false -> address' r = address r) ->
  state_holds data' address' (keep_unwritten f s).
Proof.
  intros Hs (_ & _ & Hd & Ha) Hkd Hka. destruct (keep_unwritten_shape f s Hs) as [Hld Hla]. split; [done|]. split; [done|].
  unfold keep_unwritten. set (step := fun s i => _).
  assert (forall l s, Forall (fun i => 0 <= i < 8) l -> shape s ->
    (forall r, 0 <= r < 8 -> r ∈ l /\ znth (dn_written f) r false = true \/ dn_contains (get_dn s r) (data' r) ->
       dn_contains (get_dn (fold_left step l s) r) (data' r)) /\
    (forall r, 0 <= r < 7 -> r ∈ l /\ znth (an_written f) r false = true \/ an_contains (get_an s r) (address' r) ->
       an_contains (get_an (fold_left step l s) r) (address' r))) as Hfold.
  { clear s Hs Hd Ha Hld Hla. induction l as [|i l IH]; intros s Hl Hs; cbn [fold_left].
    { split; intros r Hr [[?%elem_of_nil _]|?]; done. }
    apply Forall_cons in Hl as [Hi Hl].
    set (s1 := if znth (dn_written f) i false then set_dn i dn_unknown s else s).
    set (s2 := if negb (m68k_an_finite_proof_eligible i) || znth (an_written f) i false then set_an i an_unknown s1 else s1).
    change (step s i) with s2.
    assert (shape s1) as Hs1 by (unfold s1; destruct (znth (dn_written f) i false); [by apply set_dn_shape|done]).
    assert (shape s2) as Hs2 by (unfold s2; destruct (_ || _); [by apply set_an_shape|done]).
    assert (forall r, get_dn s2 r = get_dn s1 r) as E1 by (intros r; unfold s2; by destruct (_ || _)).
    assert (forall r, get_an s1 r = get_an s r) as E2 by (intros r; unfold s1; by destruct (znth (dn_written f) i false)).
    destruct (IH s2 Hl Hs2) as [IHd IHa]. split; intros r Hr Hin.
    - apply IHd; [done|]. rewrite E1. unfold s1. destruct (znth (dn_written f) i false) eqn:Hw.
      + rewrite get_set_dn by (apply Hs || lia). destruct (Z.eqb_spec r i) as [->|Hne]; [right; apply dn_unknown_contains|].
        destruct Hin as [[[?|?]%elem_of_cons ?]|?]; [done|by left|by right].
      + destruct Hin as [[[->|?]%elem_of_cons ?]|?]; [congruence|by left|by right].
    - apply IHa; [done|]. unfold s2. destruct (_ || _) eqn:Hw.
      + rewrite get_set_an by (apply Hs1 || lia). destruct (Z.eqb_spec r i) as [->|Hne]; [right; apply an_unknown_contains|]. rewrite E2.
        destruct Hin as [[[?|?]%elem_of_cons ?]|?]; [done|by left|by right].
      + rewrite E2. apply orb_false_iff in Hw as [_ Hw]. destruct Hin as [[[->|?]%elem_of_cons ?]|?]; [congruence|by left|by right]. }
  destruct (Hfold (seqZ 0 8) s) as [Hfd Hfa]; [apply Forall_forall; intros x Hx; apply elem_of_seqZ in Hx; lia|done|].
  split; intros r Hr; [apply Hfd|apply Hfa]; try done.
  - destruct (znth (dn_written f) r false) eqn:Hw; [left; split; [apply elem_of_seqZ; lia|done]|right]. rewrite Hkd by done. by apply Hd.
  - destruct (znth (an_written f) r false) eqn:Hw; [left; split; [apply elem_of_seqZ; lia|done]|right]. rewrite Hka by done. by apply Ha.
Qed.

(** * The fixed point *)

Section Analysis.
Context `{environment : M68kStaticDiscoveryEnvironment}.
Context (entries : gmap Z M68kDecodedInstruction) (adjacency : gmap Z (list M68kValueFlowSuccessor)) (max_call_frame_depth : nat).
Context (Hrange : forall pc decoded, entries !! pc = Some decoded -> in_range decoded).
Context (Hconstraint : forall pc s c, s ∈ successors_of adjacency pc -> vf_dn_constraint s = Some c -> 0 <= con_reg c < 8).

(** No instruction a call of the callee can run writes the register, and all of them are known. *)
Definition preserves (written : M68kDecodedInstruction -> list Z) (callee r : Z) : Prop :=
  forall pc, touches entries adjacency callee pc -> exists decoded, entries !! pc = Some decoded /\ (r ∉ written decoded) /\ contained adjacency pc decoded.

(** The registers at a successor, from those an instruction left: the same along a
    plain edge; past a call, those no instruction of a known callee writes; always
    within the bounds of the edge. *)
Definition flow_edge (s : M68kValueFlowSuccessor) (data address data' address' : Z -> Z) : Prop :=
  (match vf_dn_constraint s with Some c => constraint_holds c data' | None => True end) /\
  (if vf_force_unknown s then
    match vf_callee_entry s with
    | None => True
    | Some callee =>
        (forall r, 0 <= r < 8 -> preserves m68k_written_data_registers callee r -> data' r = data r) /\
        (forall r, 0 <= r < 7 -> preserves m68k_written_address_registers callee r -> address' r = address r)
    end
  else (forall r, 0 <= r < 8 -> data' r = data r) /\ (forall r, 0 <= r < 7 -> address' r = address r)).

Lemma state_holds_ext data address data' address' s : (forall r, 0 <= r < 8 -> data' r = data r) -> (forall r, 0 <= r < 7 -> address' r = address r) ->
  state_holds data address s -> state_holds data' address' s.
Proof.
  intros Hd Ha (? & ? & H1 & H2). split; [done|]. split; [done|]. split; intros r Hr; [rewrite Hd by done; by apply H1|rewrite Ha by done; by apply H2].
Qed.

Definition sound_contribution (s : M68kValueFlowSuccessor) (out_state contributed : M68kRegisterState) : Prop :=
  forall data address data' address', state_holds data address out_state -> flow_edge s data address data' address' ->
    state_holds data' address' contributed.

Lemma contributed_sound pc s out_state memo : s ∈ successors_of adjacency pc -> memo_ok entries adjacency memo -> shape out_state ->
  exists contributed memo', contributed_state entries adjacency max_call_frame_depth out_state s memo = Some (contributed, memo') /\
    memo_ok entries adjacency memo' /\ shape contributed /\ sound_contribution s out_state contributed.
Proof using Hrange Hconstraint.
  intros Hs Hmemo Hout. unfold contributed_state, sound_contribution, flow_edge.
  assert (exists contributed memo',
    (if negb (vf_force_unknown s) then Some (out_state, memo)
     else match vf_callee_entry s with
          | None => Some (unknown_registers, memo)
          | Some callee =>
              '(footprint, memo) ← m68k_compute_callee_register_footprint entries adjacency max_call_frame_depth callee memo;
              Some (if exhaustive_unknown footprint then unknown_registers else keep_unwritten footprint out_state, memo)
          end) = Some (contributed, memo') /\ memo_ok entries adjacency memo' /\ shape contributed /\
    forall data address data' address', state_holds data address out_state ->
      (if vf_force_unknown s then
         match vf_callee_entry s with
         | None => True
         | Some callee =>
             (forall r, 0 <= r < 8 -> preserves m68k_written_data_registers callee r -> data' r = data r) /\
             (forall r, 0 <= r < 7 -> preserves m68k_written_address_registers callee r -> address' r = address r)
         end
       else (forall r, 0 <= r < 8 -> data' r = data r) /\ (forall r, 0 <= r < 7 -> address' r = address r)) ->
      state_holds data' address' contributed) as (contributed & memo' & -> & Hm & Hc & Hsound).
  { destruct (vf_force_unknown s); cbn [negb].
    - destruct (vf_callee_entry s) as [callee|].
      + destruct (footprint_computes entries adjacency Hrange max_call_frame_depth callee memo Hmemo) as (f & memo' & -> & Hm & Hf & Hcov). cbn [mbind option_bind].
        eexists _, memo'. split; [done|]. split; [done|]. destruct (exhaustive_unknown f) eqn:Hu; [split; [done|intros; apply unknown_holds]|].
        split; [by apply keep_unwritten_shape|]. intros data address data' address' Hh [Hd Ha]. apply (keep_unwritten_holds f data address); [done..| |].
        * intros r Hr Hw. apply Hd; [done|]. intros pc' Hpc'. destruct (Hcov eq_refl pc' Hpc') as (d & Hd' & [Hm1 _] & Hcont).
          exists d. split; [done|]. split; [|done]. intros Hin. rewrite Hm1 in Hw; [done|lia|done].
        * intros r Hr Hw. apply Ha; [done|]. intros pc' Hpc'. destruct (Hcov eq_refl pc' Hpc') as (d & Hd' & [_ Hm2] & Hcont).
          exists d. split; [done|]. split; [|done]. intros Hin. rewrite Hm2 in Hw; [done|lia|done].
      + exists unknown_registers, memo. split_and!; try done. intros. apply unknown_holds.
    - exists out_state, memo. split_and!; try done. intros data address data' address' Hh [Hd Ha]. by apply (state_holds_ext data address). }
  cbn [mbind option_bind]. eexists _, memo'. split; [done|]. split; [done|]. destruct (vf_dn_constraint s) as [c|] eqn:Hcon.
  - split; [by apply constraint_shape|]. intros data address data' address' Hh [Hb Hflow]. apply constraint_sound; [by apply (Hconstraint pc s)|done|by eapply Hsound].
  - split; [done|]. intros data address data' address' Hh [_ Hflow]. by eapply Hsound.
Qed.

Definition state_le (t t' : M68kRegisterState) : Prop := forall data address, state_holds data address t -> state_holds data address t'.

#[local] Instance state_le_preorder : PreOrder state_le.
Proof. split; [by intros ? ?|]. intros a b c H1 H2 d ad H. by apply H2, H1. Qed.

Record flow_ok (st : FlowState) : Prop := {
  fo_memo : memo_ok entries adjacency (fs_memo st);
  fo_shape : forall a s, fs_in_states st !! a = Some s -> shape s;
  fo_keys : forall a s, fs_in_states st !! a = Some s -> is_Some (entries !! a);
  fo_work : forall a, a ∈ fs_worklist st -> is_Some (fs_in_states st !! a);
}.

(** A later state of the analysis: states only grow, and one that changed is queued. *)
Record flow_extends (st st' : FlowState) : Prop := {
  fe_state : forall a t, fs_in_states st !! a = Some t ->
    exists t', fs_in_states st' !! a = Some t' /\ state_le t t' /\ (t' = t \/ a ∈ fs_worklist st');
  fe_work : forall a, a ∈ fs_worklist st -> a ∈ fs_worklist st';
  fe_new : forall a, is_Some (fs_in_states st' !! a) -> fs_in_states st !! a = None -> a ∈ fs_worklist st';
}.

#[local] Instance flow_extends_preorder : PreOrder flow_extends.
Proof.
  split.
  - intros st. split; [|done|].
    + intros a t Ha. exists t. split; [done|]. split; [reflexivity|by left].
    + intros a [t Ha] Hn. congruence.
  - intros st1 st2 st3 H12 H23. split.
    + intros a t Ha. destruct (fe_state _ _ H12 a t Ha) as (t2 & Ha2 & Hle2 & Hor2). destruct (fe_state _ _ H23 a t2 Ha2) as (t3 & Ha3 & Hle3 & Hor3).
      exists t3. split; [done|]. split; [by etrans|]. destruct Hor3 as [->|?]; [|by right]. destruct Hor2 as [->|?]; [by left|right; by apply (fe_work _ _ H23)].
    + intros a Ha. by apply (fe_work _ _ H23), (fe_work _ _ H12).
    + intros a Ha Hn. destruct (fs_in_states st2 !! a) as [t|] eqn:E; [|by apply (fe_new _ _ H23)].
      apply (fe_work _ _ H23), (fe_new _ _ H12); [by exists t|done].
Qed.

(** ** The measure *)

Definition slot_rank (slot : option M68kRegisterState) : nat := match slot with Some s => state_rank s | None => S state_rank_limit end.
Definition potential (states : gmap Z M68kRegisterState) : nat := sum_list_with (fun x => slot_rank (states !! x.1)) (map_to_list entries).
Definition flow_measure (st : FlowState) : nat := length (fs_worklist st) + potential (fs_in_states st).

Lemma potential_drops states a s : is_Some (entries !! a) -> (state_rank s < slot_rank (states !! a))%nat ->
  (S (potential (<[a := s]> states)) <= potential states)%nat.
Proof.
  intros [d Ha] Hlt. unfold potential. apply elem_of_map_to_list in Ha. pose proof (NoDup_fst_map_to_list entries) as Hnd. revert Ha Hnd.
  generalize (map_to_list entries). intros l. induction l as [|[k e] l IH]; [by intros ?%elem_of_nil|]. cbn. rewrite elem_of_cons, NoDup_cons. intros Hin [Hk Hnd].
  destruct Hin as [[= <- <-]|Hin].
  - rewrite lookup_insert_eq. cbn [slot_rank]. assert (sum_list_with (fun x => slot_rank (<[a := s]> states !! x.1)) l = sum_list_with (fun x => slot_rank (states !! x.1)) l) as ->; [|lia].
    clear IH Hnd. induction l as [|[j f] l IHl]; [done|]. cbn in *. apply not_elem_of_cons in Hk as [Hne Hk]. rewrite lookup_insert_ne by done. by rewrite IHl.
  - specialize (IH Hin Hnd). rewrite lookup_insert_ne; [lia|]. intros <-. apply Hk. by apply (list_elem_of_fmap_2 fst) in Hin.
Qed.

Lemma queue_address_spec a l : (forall x, x ∈ queue_address a l <-> x ∈ l \/ x = a) /\ (length (queue_address a l) <= S (length l))%nat.
Proof.
  unfold queue_address. case_bool_decide; [split; [|lia]; intros x; split; [by left|intros [?| ->]; done]|].
  split; [|rewrite length_app; cbn; lia]. intros x. by rewrite elem_of_app, list_elem_of_singleton.
Qed.

Lemma sound_contribution_mono s out t t' : state_le t t' -> sound_contribution s out t -> sound_contribution s out t'.
Proof. intros Hle H data address data' address' Hh Hflow. apply Hle. by eapply H. Qed.

(** A successor without an instruction adds nothing; the others find the contribution in their state. *)
Definition reached_by (out : M68kRegisterState) (states : gmap Z M68kRegisterState) (s : M68kValueFlowSuccessor) : Prop :=
  is_Some (entries !! vf_address s) -> exists t, states !! vf_address s = Some t /\ sound_contribution s out t.

Lemma reached_by_extends out st st' s : flow_extends st st' -> reached_by out (fs_in_states st) s -> reached_by out (fs_in_states st') s.
Proof.
  intros He H Ha. destruct (H Ha) as (t & Ht & Hs). destruct (fe_state _ _ He _ _ Ht) as (t' & Ht' & Hle & _).
  exists t'. split; [done|]. by eapply sound_contribution_mono.
Qed.

(** The state of one address changed to a larger one of a smaller rank. *)
Lemma flow_change st a t memo out_states : flow_ok st -> memo_ok entries adjacency memo -> shape t -> is_Some (entries !! a) ->
  (state_rank t < slot_rank (fs_in_states st !! a))%nat -> (forall t0, fs_in_states st !! a = Some t0 -> state_le t0 t) ->
  let st' := mkFlowState (<[a := t]> (fs_in_states st)) out_states (queue_address a (fs_worklist st)) memo in
  flow_ok st' /\ flow_extends st st' /\ (flow_measure st' <= flow_measure st)%nat.
Proof.
  intros Hok Hm Ht Ha Hrank Hle st'. destruct (queue_address_spec a (fs_worklist st)) as [Hq Hql]. subst st'. split; [|split].
  - split; cbn [fs_in_states fs_worklist fs_memo]; [done|..].
    + intros b s. destruct (decide (b = a)) as [->|Hne]; [rewrite lookup_insert_eq; by intros [= <-]|rewrite lookup_insert_ne by done; apply (fo_shape _ Hok)].
    + intros b s. destruct (decide (b = a)) as [->|Hne]; [done|rewrite lookup_insert_ne by done; apply (fo_keys _ Hok)].
    + intros b Hb. apply Hq in Hb. destruct (decide (b = a)) as [->|Hne]; [rewrite lookup_insert_eq; by eexists|rewrite lookup_insert_ne by done].
      destruct Hb as [Hb|Hb]; [by apply (fo_work _ Hok)|done].
  - split; cbn [fs_in_states fs_worklist].
    + intros b s Hb. destruct (decide (b = a)) as [->|Hne].
      * exists t. rewrite lookup_insert_eq. split; [done|]. split; [by apply Hle|]. right. apply Hq. by right.
      * exists s. rewrite lookup_insert_ne by done. split; [done|]. split; [reflexivity|by left].
    + intros b Hb. apply Hq. by left.
    + intros b Hb Hn. apply Hq. right. destruct (decide (b = a)) as [->|Hne]; [done|]. rewrite lookup_insert_ne in Hb by done. rewrite Hn in Hb. by destruct Hb.
  - unfold flow_measure. cbn [fs_in_states fs_worklist]. pose proof (potential_drops (fs_in_states st) a t Ha Hrank). lia.
Qed.

Lemma flow_to_spec pc out st s : s ∈ successors_of adjacency pc -> flow_ok st -> shape out ->
  exists st', flow_to entries adjacency max_call_frame_depth out (Some st) s = Some st' /\ flow_ok st' /\ flow_extends st st' /\
    (flow_measure st' <= flow_measure st)%nat /\ reached_by out (fs_in_states st') s.
Proof using Hrange Hconstraint.
  intros Hs Hok Hout. unfold flow_to. cbn [mbind option_bind]. destruct (entries !! vf_address s) as [d|] eqn:Hd; cbn.
  2: { exists st. split; [done|]. split; [done|]. split; [reflexivity|]. split; [done|]. intros [d Hd']. congruence. }
  destruct (contributed_sound pc s out (fs_memo st) Hs (fo_memo _ Hok) Hout) as (c & memo & -> & Hm & Hc & Hsound). cbn [mbind option_bind].
  assert (is_Some (entries !! vf_address s)) as Hent by by exists d.
  destruct (fs_in_states st !! vf_address s) as [slot|] eqn:Hslot.
  - pose proof (fo_shape _ Hok _ _ Hslot) as Hss.
    assert (state_le slot (m68k_merge_register_state slot c)) as Hle1 by (intros data address H; apply merge_holds; [done..|by left]).
    assert (state_le c (m68k_merge_register_state slot c)) as Hle2 by (intros data address H; apply merge_holds; [done..|by right]).
    destruct (m68k_register_state_equal (m68k_merge_register_state slot c) slot) eqn:Heq.
    + apply bool_decide_eq_true in Heq. eexists. split; [done|]. split; [by destruct Hok|]. split.
      { split; cbn; [|done|intros a [t Ha] Hn; congruence]. intros a t Ha. exists t. split; [done|]. split; [reflexivity|by left]. }
      split; [done|]. intros _. exists slot. split; [done|]. rewrite Heq in Hle2. by eapply sound_contribution_mono.
    + destruct (flow_change st (vf_address s) (m68k_merge_register_state slot c) memo (fs_out_states st) Hok Hm) as (H1 & H2 & H3);
        [by apply merge_shape|done|rewrite Hslot; cbn; by apply merge_rank|by intros t0; rewrite Hslot; intros [= <-]|].
      eexists. split; [done|]. split_and!; try done. intros _. eexists. cbn [fs_in_states]. rewrite lookup_insert_eq. split; [done|].
      by eapply sound_contribution_mono.
  - destruct (flow_change st (vf_address s) c memo (fs_out_states st) Hok Hm) as (H1 & H2 & H3);
      [done|done|rewrite Hslot; cbn; pose proof (state_rank_bound c Hc); lia|by intros t0; rewrite Hslot|].
    eexists. split; [done|]. split_and!; try done. intros _. eexists. cbn [fs_in_states]. by rewrite lookup_insert_eq.
Qed.

Lemma flow_to_all pc out l : (forall s, s ∈ l -> s ∈ successors_of adjacency pc) -> shape out -> forall st, flow_ok st ->
  exists st', fold_left (flow_to entries adjacency max_call_frame_depth out) l (Some st) = Some st' /\ flow_ok st' /\ flow_extends st st' /\
    (flow_measure st' <= flow_measure st)%nat /\ forall s, s ∈ l -> reached_by out (fs_in_states st') s.
Proof using Hrange Hconstraint.
  induction l as [|s l IH]; intros Hl Hout st Hok; cbn [fold_left].
  { exists st. split; [done|]. split; [done|]. split; [reflexivity|]. split; [done|]. by intros s ?%elem_of_nil. }
  destruct (flow_to_spec pc out st s) as (st1 & -> & Hok1 & He1 & Hm1 & Hr1); [apply Hl; left|done..|].
  destruct (IH (fun s' Hs' => Hl s' (list_elem_of_further _ _ _ Hs')) Hout st1 Hok1) as (st2 & -> & Hok2 & He2 & Hm2 & Hr2).
  exists st2. split; [done|]. split; [done|]. split; [by etrans|]. split; [lia|].
  intros s' [->|Hs']%elem_of_cons; [by eapply reached_by_extends|by apply Hr2].
Qed.

(** The states after an instruction already reach its successors. *)
Definition closed_at (states : gmap Z M68kRegisterState) (a : Z) : Prop :=
  forall in_state decoded s, states !! a = Some in_state -> entries !! a = Some decoded -> s ∈ successors_of adjacency a ->
    reached_by (m68k_apply_finite_value_transfer true in_state decoded) states s.

Definition closed (st : FlowState) : Prop := forall a, a ∉ fs_worklist st -> closed_at (fs_in_states st) a.

Lemma flow_step_spec current rest st : fs_worklist st = current :: rest -> flow_ok st -> closed st ->
  exists st', flow_step entries adjacency max_call_frame_depth current (mkFlowState (fs_in_states st) (fs_out_states st) rest (fs_memo st)) = Some st' /\
    flow_ok st' /\ closed st' /\ (S (flow_measure st') <= flow_measure st)%nat /\
    forall a t, fs_in_states st !! a = Some t -> exists t', fs_in_states st' !! a = Some t' /\ state_le t t'.
Proof using Hrange Hconstraint.
  intros Hw Hok Hcl. destruct (fo_work _ Hok current) as [in_state Hin]; [rewrite Hw; left|].
  destruct (fo_keys _ Hok _ _ Hin) as [decoded Hd]. unfold flow_step. cbn [fs_in_states fs_out_states fs_worklist fs_memo]. rewrite Hd, Hin. cbv zeta.
  set (out := m68k_apply_finite_value_transfer true in_state decoded).
  set (st1 := mkFlowState (fs_in_states st) (<[current:=out]> (fs_out_states st)) rest (fs_memo st)).
  assert (flow_ok st1) as Hok1.
  { destruct Hok as [H1 H2 H3 H4]. split; cbn; try done. intros a Ha. apply H4. rewrite Hw. by right. }
  assert (shape out) as Hout by (apply transfer_shape; by apply (fo_shape _ Hok current)).
  destruct (flow_to_all current out (successors_of adjacency current) (fun s Hs => Hs) Hout st1 Hok1) as (st' & -> & Hok' & He & Hm & Hr).
  exists st'. split; [done|]. split; [done|]. split; [|split].
  - intros a Ha in_state' decoded' s Hs Hd' Hsucc. destruct (fs_in_states st !! a) as [t|] eqn:Ht.
    + destruct (fe_state _ _ He a t Ht) as (t' & Ht' & _ & [->|?]); [|done]. rewrite Hs in Ht'. injection Ht' as ->.
      destruct (decide (a = current)) as [->|Hne].
      * assert (decoded' = decoded) as -> by congruence. assert (t = in_state) as -> by congruence. by apply Hr.
      * assert (a ∉ fs_worklist st) as Hnw by (rewrite Hw; intros [?|?]%elem_of_cons; [done|]; apply Ha; by apply (fe_work _ _ He)).
        apply (reached_by_extends _ st1 st' _ He). by apply (Hcl a Hnw).
    + destruct Ha. apply (fe_new _ _ He); [by eexists|done].
  - unfold flow_measure in *. rewrite Hw. cbn [length]. subst st1. cbn [fs_in_states fs_worklist] in Hm. lia.
  - intros a t Ht. destruct (fe_state _ _ He a t Ht) as (t' & Ht' & Hle & _). by exists t'.
Qed.

Lemma flow_loop_spec fuel : forall st, flow_ok st -> closed st -> (flow_measure st <= fuel)%nat ->
  exists st', flow_loop entries adjacency max_call_frame_depth fuel st = Some st' /\ (forall a, closed_at (fs_in_states st') a) /\
    forall a t, fs_in_states st !! a = Some t -> exists t', fs_in_states st' !! a = Some t' /\ state_le t t'.
Proof using Hrange Hconstraint.
  induction fuel as [|fuel IH]; intros st Hok Hcl Hfuel; cbn [flow_loop]; destruct (fs_worklist st) as [|current rest] eqn:Hw.
  1,3: exists st; split; [done|]; split; [intros a; apply Hcl; rewrite Hw; by apply not_elem_of_nil|]; intros a t Ht; by exists t.
  - unfold flow_measure in Hfuel. rewrite Hw in Hfuel. cbn in Hfuel. lia.
  - destruct (flow_step_spec current rest st Hw Hok Hcl) as (st1 & -> & Hok1 & Hcl1 & Hm1 & Hgrow1). cbn [mbind option_bind].
    destruct (IH st1 Hok1 Hcl1) as (st' & -> & Hcl' & Hgrow); [lia|]. exists st'. split; [done|]. split; [done|].
    intros a t Ht. destruct (Hgrow1 a t Ht) as (t1 & Ht1 & Hle1). destruct (Hgrow a t1 Ht1) as (t' & Ht' & Hle'). exists t'. split; [done|by etrans].
Qed.

(** ** The roots *)

Definition is_root (roots : list M68kProgramAddress) (pc : Z) : Prop :=
  mkAddress TAS_m68k_program pc ∈ roots /\ is_Some (entries !! pc).

(** What is assumed of the registers at a root. *)
Definition seed_state (seeds : gmap Z M68kRegisterState) (pc : Z) : M68kRegisterState := default unknown_registers (seeds !! pc).

Lemma seed_roots_spec seeds roots : (forall pc s, seeds !! pc = Some s -> shape s) -> forall st, flow_ok st ->
  (forall a t, fs_in_states st !! a = Some t -> t = seed_state seeds a /\ a ∈ fs_worklist st) ->
  let st' := fold_left (seed_root entries seeds) roots st in
  flow_ok st' /\ (forall a t, fs_in_states st' !! a = Some t -> t = seed_state seeds a /\ a ∈ fs_worklist st') /\
  (forall pc, is_Some (fs_in_states st !! pc) \/ is_root roots pc -> is_Some (fs_in_states st' !! pc)).
Proof.
  intros Hseeds. induction roots as [|[space pc] roots IH]; intros st Hok Hst; cbn [fold_left].
  { split; [done|]. split; [done|]. intros pc [?|[?%elem_of_nil _]]; done. }
  set (st1 := seed_root entries seeds st (mkAddress space pc)).
  assert (flow_ok st1 /\ (forall a t, fs_in_states st1 !! a = Some t -> t = seed_state seeds a /\ a ∈ fs_worklist st1) /\
    forall p, is_Some (fs_in_states st !! p) \/ (mkAddress TAS_m68k_program p = mkAddress space pc /\ is_Some (entries !! p)) -> is_Some (fs_in_states st1 !! p))
    as (Hok1 & Hst1 & Hroot1).
  { subst st1. unfold seed_root. cbn [pa_space pa_value]. destruct (_ || _) eqn:E.
    - split; [done|]. split; [done|]. intros p [?|[[= <- <-] Hp]]; [done|]. exfalso. rewrite (bool_decide_true (is_Some _)) in E by done. cbn in E.
      rewrite bool_decide_true in E by done. done.
    - apply orb_false_iff in E as [Esp Eent]. rewrite negb_false_iff, bool_decide_eq_true in Eent, Esp. subst space.
      destruct (queue_address_spec pc (fs_worklist st)) as [Hq _]. split; [|split]; cbn [fs_in_states fs_worklist fs_memo].
      + destruct Hok as [H1 H2 H3 H4]. split; cbn [fs_in_states fs_worklist fs_memo]; [done|..].
        * intros a s. destruct (decide (a = pc)) as [->|Hne]; [rewrite lookup_insert_eq|rewrite lookup_insert_ne by done; apply H2].
          intros [= <-]. destruct (seeds !! pc) as [s|] eqn:Es; [by apply (Hseeds pc)|apply unknown_registers_shape].
        * intros a s. destruct (decide (a = pc)) as [->|Hne]; [done|rewrite lookup_insert_ne by done; apply H3].
        * intros a Ha. apply Hq in Ha. destruct (decide (a = pc)) as [->|Hne]; [rewrite lookup_insert_eq; by eexists|rewrite lookup_insert_ne by done].
          apply H4. by destruct Ha.
      + intros a t. destruct (decide (a = pc)) as [->|Hne]; [rewrite lookup_insert_eq; intros [= <-]; split; [done|apply Hq; by right]|].
        rewrite lookup_insert_ne by done. intros Ht. destruct (Hst a t Ht). split; [done|]. apply Hq. by left.
      + intros p Hp. destruct (decide (p = pc)) as [->|Hne]; [rewrite lookup_insert_eq; by eexists|rewrite lookup_insert_ne by done].
        destruct Hp as [?|[[= ->] _]]; done. }
  destruct (IH st1 Hok1 Hst1) as (H1 & H2 & H3). split; [done|]. split; [done|]. intros p Hp. apply H3.
  destruct Hp as [Hp|[[Heq|Hin]%elem_of_cons Hp]]; [left; apply Hroot1; by left|left; apply Hroot1; by right|right; by split].
Qed.

Lemma potential_bound states : (forall a s, states !! a = Some s -> shape s) -> (potential states <= size entries * S state_rank_limit)%nat.
Proof.
  intros Hshape. unfold potential. rewrite <- length_map_to_list. induction (map_to_list entries) as [|[k d] l IH]; cbn [sum_list_with length]; [lia|].
  assert (slot_rank (states !! k) <= S state_rank_limit)%nat; [|cbn [fst]; lia].
  destruct (states !! k) as [s|] eqn:E; cbn [slot_rank]; [|lia]. pose proof (state_rank_bound s (Hshape k s E)). lia.
Qed.

(** The analysis from the roots ends, and its states are closed. *)
Lemma flow_analysis seeds roots : (forall pc s, seeds !! pc = Some s -> shape s) ->
  let st := fold_left (seed_root entries seeds) roots (mkFlowState ∅ ∅ [] ∅) in
  exists st', flow_loop entries adjacency max_call_frame_depth (flow_fuel entries st) st = Some st' /\ (forall a, closed_at (fs_in_states st') a) /\
    forall pc, is_root roots pc -> exists t, fs_in_states st' !! pc = Some t /\ state_le (seed_state seeds pc) t.
Proof using Hrange Hconstraint.
  intros Hseeds st. destruct (seed_roots_spec seeds roots Hseeds (mkFlowState ∅ ∅ [] ∅)) as (Hok & Hst & Hroot).
  { split; cbn; [by intros a f; rewrite lookup_empty|by intros a s; rewrite lookup_empty|by intros a s; rewrite lookup_empty|by intros a ?%elem_of_nil]. }
  { cbn. intros a t. by rewrite lookup_empty. }
  fold st in Hok, Hst, Hroot. destruct (flow_loop_spec (flow_fuel entries st) st Hok) as (st' & E & Hcl & Hgrow).
  - intros a Ha in_state decoded s Hin. by destruct (Hst a in_state Hin).
  - unfold flow_measure, flow_fuel. pose proof (potential_bound (fs_in_states st) (fo_shape _ Hok)). lia.
  - exists st'. split; [done|]. split; [done|]. intros pc Hpc. destruct (Hroot pc (or_intror Hpc)) as [t Ht].
    destruct (Hst pc t Ht) as [-> _]. by destruct (Hgrow pc _ Ht) as (t' & ? & ?); exists t'.
Qed.
End Analysis.

(** * The constraints of the adjacency *)

Lemma unique_from_subset kept l s : s ∈ unique_from kept l -> s ∈ l.
Proof.
  revert kept. induction l as [|x l IH]; intros kept; [done|]. cbn. destruct (same_flow kept x); [intros H; right; by eapply IH|].
  rewrite !elem_of_cons. intros [->|H]; [by left|right; by eapply IH].
Qed.

Lemma sort_flow_subset l s : s ∈ sort_flow l -> s ∈ l.
Proof.
  unfold sort_flow. intros Hs. apply (elem_of_Permutation_proper s _ _ (merge_sort_Permutation flow_order l)).
  destruct (merge_sort flow_order l) as [|x rest]; [done|]. revert Hs. rewrite !elem_of_cons. intros [->|H]; [by left|right; by eapply unique_from_subset].
Qed.

Definition unconstrained (adjacency : gmap Z (list M68kValueFlowSuccessor)) : Prop :=
  forall a l s, adjacency !! a = Some l -> s ∈ l -> vf_dn_constraint s = None.

Lemma local_unconstrained entries edges : unconstrained (local_adjacency entries edges).
Proof.
  intros a l s. unfold local_adjacency. rewrite map_lookup_imap. destruct (entries !! a) as [d|]; [|done]. cbn. intros [= <-] Hs.
  apply list_elem_of_fmap in Hs as (s0 & -> & Hs). assert (vf_dn_constraint s0 = None) as Hn.
  { unfold m68k_decode_local_flow_successors in Hs. destruct (i_kind d); repeat case_match; try (by apply elem_of_nil in Hs); by apply list_elem_of_singleton in Hs as ->. }
  unfold fill_callee. destruct (_ && _); [|done]. by destruct (_ !! a).
Qed.

Lemma edges_unconstrained entries edges : forall adjacency, unconstrained adjacency -> unconstrained (fold_left (add_edge entries) edges adjacency).
Proof.
  induction edges as [|e edges IH]; intros adjacency H; [done|]. cbn. apply IH. unfold add_edge.
  destruct (entries !! _) as [d|]; [|done]. destruct (edge_flow e) as [target|]; [|done]. set (source := provenance_address _). intros a l s.
  destruct (decide (a = source)) as [->|Hne]; [rewrite lookup_insert_eq|rewrite lookup_insert_ne by done; apply H]. intros [= <-] Hs.
  apply elem_of_app in Hs as [Hs|Hs]; [|by apply list_elem_of_singleton in Hs as ->].
  destruct (adjacency !! source) as [l|] eqn:E; [by eapply H|by apply elem_of_nil in Hs].
Qed.

(** The destinations the edges add to the local successors. *)
Lemma added_edges entries all edges pc s : forall adjacency, (forall e, e ∈ edges -> e ∈ all) ->
  s ∈ successors_of (fold_left (add_edge entries) edges adjacency) pc ->
  s ∈ successors_of adjacency pc \/ (is_Some (entries !! pc) /\ exists x, s = plain_flow x /\ x ∈ map edge_destination all).
Proof.
  induction edges as [|e edges IH]; intros adjacency Hall Hs; [by left|]. cbn [fold_left] in Hs.
  apply IH in Hs as [Hs|Hs]; [|by right|intros e' He'; apply Hall; by right].
  unfold add_edge in Hs. set (source := provenance_address (se_source_instruction e)) in *.
  destruct (entries !! source) as [d|] eqn:Ed; [|by left]. destruct (edge_flow e) as [target|] eqn:Et; [|by left].
  unfold successors_of in Hs. destruct (decide (pc = source)) as [->|Hne]; [|rewrite lookup_insert_ne in Hs by done; by left].
  rewrite lookup_insert_eq in Hs. cbn [default] in Hs. apply elem_of_app in Hs as [Hs|Hs%list_elem_of_singleton]; [by left|].
  right. split; [by eexists|]. exists target. split; [done|].
  assert (target = edge_destination e) as -> by (unfold edge_flow, edge_destination in *; destruct (se_kind e); try destruct (se_call e); congruence).
  apply list_elem_of_fmap. exists e. split; [done|]. apply Hall. left.
Qed.

(** A successor of the adjacency is the bounded form of one that is either the next
    instruction or the destination of a canonical edge; only a call or a trap leaves
    the registers unknown. *)
Definition calls_or_traps (decoded : M68kDecodedInstruction) : bool :=
  match i_kind decoded with K_jsr | K_bsr | K_trap | K_trapv | K_chk => true | _ => false end.

Lemma plain_successor entries edges pc s : s ∈ successors_of (sorted_adjacency entries edges) pc ->
  vf_dn_constraint s = None /\ exists decoded, entries !! pc = Some decoded /\
    (vf_force_unknown s = true -> calls_or_traps decoded = true) /\
    (vf_address s = next_pc pc decoded \/ vf_address s ∈ map edge_destination edges).
Proof.
  unfold sorted_adjacency, successors_of. rewrite lookup_fmap.
  destruct (fold_left (add_edge entries) edges (local_adjacency entries edges) !! pc) as [l0|] eqn:E0; [|by intros ?%elem_of_nil].
  cbn. intros Hs%sort_flow_subset. split; [exact (edges_unconstrained entries edges _ (local_unconstrained entries edges) pc l0 s E0 Hs)|].
  destruct (added_edges entries edges edges pc s (local_adjacency entries edges)) as [Hl|([d Hd] & x & -> & Hx)]; [done|by unfold successors_of; rewrite E0| |].
  - unfold successors_of, local_adjacency in Hl. rewrite map_lookup_imap in Hl. destruct (entries !! pc) as [d|]; [|by apply elem_of_nil in Hl].
    cbn in Hl. exists d. split; [done|]. apply list_elem_of_fmap in Hl as (s0 & -> & Hl).
    assert (vf_address (fill_callee edges pc s0) = vf_address s0 /\ vf_force_unknown (fill_callee edges pc s0) = vf_force_unknown s0) as [-> ->].
    { unfold fill_callee. destruct (vf_force_unknown s0) eqn:E; [|done]. cbn [andb]. destruct (negb _); [|done]. by case_match. }
    unfold m68k_decode_local_flow_successors, calls_or_traps in *.
    destruct (i_kind d); repeat case_match; try (by apply elem_of_nil in Hl); apply list_elem_of_singleton in Hl as ->; split; try done; by left.
  - exists d. split; [done|]. split; [done|]. by right.
Qed.

Lemma adjacency_successor entries edges pc s : s ∈ successors_of (m68k_canonical_control_adjacency entries edges) pc ->
  exists decoded, entries !! pc = Some decoded /\
    (vf_force_unknown s = true -> calls_or_traps decoded = true) /\
    (vf_address s = next_pc pc decoded \/ vf_address s ∈ map edge_destination edges) /\
    forall c, vf_dn_constraint s = Some c -> vf_force_unknown s = false /\ exists reg taken not_taken,
      edge_constraints entries edges pc decoded = Some (reg, taken, not_taken) /\
      (if vf_address s =? next_pc pc decoded then not_taken else taken) = Some c.
Proof.
  unfold successors_of, m68k_canonical_control_adjacency. rewrite map_lookup_imap.
  destruct (sorted_adjacency entries edges !! pc) as [l|] eqn:El; [|by intros ?%elem_of_nil]. cbn [mbind option_bind default].
  assert (forall s0, s0 ∈ l -> s0 ∈ successors_of (sorted_adjacency entries edges) pc) as Hin by (unfold successors_of; by rewrite El).
  destruct (entries !! pc) as [decoded|] eqn:Ed.
  2: { cbn. intros Hs. destruct (plain_successor entries edges pc s (Hin s Hs)) as (_ & d & Hd & _). congruence. }
  intros Hs. exists decoded. split; [done|].
  destruct (edge_constraints entries edges pc decoded) as [[[reg taken] not_taken]|] eqn:Ec; cbn [default] in Hs.
  - apply list_elem_of_fmap in Hs as (s0 & -> & Hs). destruct (plain_successor entries edges pc s0 (Hin s0 Hs)) as (Hn & d & Hd & Hf & Ha).
    assert (d = decoded) as -> by congruence. unfold constrain. rewrite Hn. destruct (vf_force_unknown s0) eqn:Hu.
    { rewrite Hu. split; [done|]. split; [done|]. rewrite Hn. by intros c. }
    destruct (if vf_address s0 =? next_pc pc decoded then not_taken else taken) as [c|] eqn:Eb.
    + cbn [vf_force_unknown vf_address vf_dn_constraint]. split; [done|]. split; [done|]. intros c' [= <-]. split; [done|].
      exists reg, taken, not_taken. by split.
    + rewrite Hu, Hn. split; [done|]. split; [done|]. by intros c.
  - destruct (plain_successor entries edges pc s (Hin s Hs)) as (Hn & d & Hd & Hf & Ha). assert (d = decoded) as -> by congruence.
    split; [done|]. split; [done|]. rewrite Hn. by intros c.
Qed.

(** Where the bounds of a branch come from. *)
Lemma edge_constraints_from entries edges pc decoded bounds : edge_constraints entries edges pc decoded = Some bounds ->
  is_cond_branch decoded = true /\ (pc ∉ map edge_destination edges) /\ exists start compare,
    fallthrough_pred entries !! pc = Some start /\ entries !! start = Some compare /\
    m68k_derive_unsigned_compare_branch_constraints compare decoded = Some bounds.
Proof.
  unfold edge_constraints. destruct (is_cond_branch decoded); [|done]. cbn [negb]. case_bool_decide as Hd; [done|].
  destruct (fallthrough_pred entries !! pc) as [start|]; [|done]. cbn [mbind option_bind].
  destruct (entries !! start) as [compare|] eqn:Ec; [|done]. cbn [mbind option_bind]. intros E. split; [done|]. split; [done|]. by exists start, compare.
Qed.

(** Every bound is on the register a decoded compare names. *)
Lemma adjacency_constraints entries edges pc s c : s ∈ successors_of (m68k_canonical_control_adjacency entries edges) pc -> vf_dn_constraint s = Some c ->
  exists start compare, entries !! start = Some compare /\ con_reg c = ea_reg (i_destination_ea compare).
Proof.
  intros Hs Hc. destruct (adjacency_successor entries edges pc s Hs) as (d & _ & _ & _ & Hcon).
  destruct (Hcon c Hc) as (_ & reg & taken & not_taken & Ec & Eb).
  destruct (edge_constraints_from entries edges pc d _ Ec) as (_ & _ & start & compare & _ & Ecmp & Ederive). exists start, compare. split; [done|].
  destruct (_ =? _); (eapply derived_register; [exact Ederive|]); [by right|by left].
Qed.

(** * Runs of a decoded program *)

Section Program.
Context `{environment : M68kStaticDiscoveryEnvironment}.
Context (entries : gmap Z M68kDecodedInstruction) (canonical_edges : list M68kStaticEdge).
#[local] Abbreviation adjacency := (m68k_canonical_control_adjacency entries canonical_edges).

(** Every instruction was decoded, and none is of the two forms the transfer gets wrong. *)
Definition covered_instruction (decoded : M68kDecodedInstruction) : Prop :=
  (exists image source, well_placed image source /\ decode_m68k_instruction image source DP_general_startup = Ok decoded) /\
  multiplies decoded = false /\ byte_load decoded && ea_updates (i_source_ea decoded) = false.
Definition covered_program : Prop := forall pc decoded, entries !! pc = Some decoded -> covered_instruction decoded.

(** The registers after an instruction, by its semantics. *)
Definition executes (m : Machine) (decoded : M68kDecodedInstruction) (data address : Z -> Z) : Prop :=
  (forall r, 0 <= r < 8 -> data_after m (lift_m68k_instruction decoded) r (data r)) /\
  (forall r, 0 <= r < 7 -> address_after m (lift_m68k_instruction decoded) r (address r)).

Definition registers_are (m : Machine) (data address : Z -> Z) : Prop :=
  (forall r, 0 <= r < 8 -> data_register m r = data r) /\ (forall r, 0 <= r < 7 -> address_register m r = address r).

Definition returns (decoded : M68kDecodedInstruction) : bool :=
  match i_kind decoded with K_rts | K_rte | K_rtr => true | _ => false end.

(** One activation of a routine, from its entry: any path of its instructions, with
    each nested call of a known callee entered, run to a return and returned from.
    A trap, or a call of an unknown callee, may leave any registers. *)
Inductive walks : Z -> Machine -> Z -> Machine -> Prop :=
| walks_here pc m : walks pc m pc m
| walks_step entry m0 pc m decoded data address s m' : walks entry m0 pc m -> entries !! pc = Some decoded ->
    is_nested_call decoded = false -> executes m decoded data address -> s ∈ successors_of adjacency pc ->
    vf_force_unknown s = false -> registers_are m' data address -> walks entry m0 (vf_address s) m'
| walks_trap entry m0 pc m decoded s m' : walks entry m0 pc m -> entries !! pc = Some decoded -> s ∈ successors_of adjacency pc ->
    vf_force_unknown s = true -> is_nested_call decoded = false \/ vf_callee_entry s = None -> walks entry m0 (vf_address s) m'
| walks_call entry m0 pc m decoded data address s callee m1 pc2 m2 last data2 address2 m' : walks entry m0 pc m ->
    entries !! pc = Some decoded -> is_nested_call decoded = true -> executes m decoded data address ->
    s ∈ successors_of adjacency pc -> vf_force_unknown s = true -> vf_callee_entry s = Some callee ->
    registers_are m1 data address -> walks callee m1 pc2 m2 -> entries !! pc2 = Some last -> returns last = true ->
    executes m2 last data2 address2 -> registers_are m' data2 address2 -> walks entry m0 (vf_address s) m'.

(** The registers at a successor of an instruction that left [data] and [address]:
    these, or, past a call of a known callee, what an activation of it returns with. *)
Definition flows (s : M68kValueFlowSuccessor) (data address : Z -> Z) (m' : Machine) : Prop :=
  if vf_force_unknown s then
    match vf_callee_entry s with
    | None => True
    | Some callee => exists m1 pc2 m2 last data2 address2, registers_are m1 data address /\ walks callee m1 pc2 m2 /\
        entries !! pc2 = Some last /\ returns last = true /\ executes m2 last data2 address2 /\ registers_are m' data2 address2
    end
  else registers_are m' data address.

(** The flags after an instruction: those of the comparison after a compare of an
    immediate with a data register, and any after another instruction. *)
Definition status_after (m : Machine) (decoded : M68kDecodedInstruction) (status status' : Z) : Prop :=
  compares_immediate decoded = true -> status' = compared decoded (data_register m) status.

(** A conditional branch goes where its condition says. *)
Definition branch_target (decoded : M68kDecodedInstruction) : Z := oe_direct_target (m68k_operation_effect (lift_m68k_instruction decoded)).
Definition decided (pc : Z) (decoded : M68kDecodedInstruction) (status destination : Z) : Prop :=
  is_cond_branch decoded = true ->
  destination = if m68k_evaluate_condition (branch_condition decoded) status then branch_target decoded else next_pc pc decoded.

(** The instructions, machines and status registers a run reaches along the given
    edges: from a root whose registers its seed holds, and on by the semantics of each
    instruction.  The environment reads each machine's own memory, and the annotations
    the run meets are true. *)
Inductive runs (roots : list M68kProgramAddress) (seeds : gmap Z M68kRegisterState) : Z -> Machine -> Z -> Prop :=
| runs_root pc m status : is_root entries roots pc -> machine_ok m -> environment_true m ->
    state_holds (data_register m) (address_register m) (seed_state seeds pc) -> runs roots seeds pc m status
| runs_step pc m status decoded data address s m' status' : runs roots seeds pc m status -> entries !! pc = Some decoded ->
    annotation_true m (i_source_ea decoded) -> executes m decoded data address -> status_after m decoded status status' ->
    s ∈ successors_of adjacency pc -> decided pc decoded status (vf_address s) -> is_Some (entries !! vf_address s) ->
    flows s data address m' -> machine_ok m' -> environment_true m' -> runs roots seeds (vf_address s) m' status'.

Lemma runs_true roots seeds pc m status : runs roots seeds pc m status -> machine_ok m /\ environment_true m.
Proof. by destruct 1. Qed.

(** The branches whose edges are bounded are what the derivation takes them for: each
    has one instruction before it, is not a root, and its target is not the next
    instruction. *)
Definition bounds_unambiguous (roots : list M68kProgramAddress) : Prop :=
  forall pc decoded bounds, entries !! pc = Some decoded -> edge_constraints entries canonical_edges pc decoded = Some bounds ->
    ~ is_root entries roots pc /\ branch_target decoded <> next_pc pc decoded /\
    forall start before, entries !! start = Some before -> next_pc start before = pc -> fallthrough_pred entries !! pc = Some start.

Lemma covered_operands decoded : covered_instruction decoded -> operands_ok decoded /\ count_ok decoded.
Proof. intros ((image & source & Hwp & Hi) & _). by eapply decoded_operands. Qed.

Lemma covered_range decoded : covered_instruction decoded -> in_range decoded.
Proof. intros H. destruct (covered_operands decoded H) as [Hop _]. exact (listed_range decoded Hop). Qed.

(** The transfer of a covered instruction holds what the instruction leaves. *)
Lemma executes_holds m decoded data address s : covered_instruction decoded -> machine_ok m -> environment_true m ->
  annotation_true m (i_source_ea decoded) -> executes m decoded data address -> state_holds (data_register m) (address_register m) s ->
  state_holds data address (m68k_apply_finite_value_transfer true s decoded).
Proof.
  intros Hc Hm Henv Hann [Hd Ha] Hs. destruct (covered_operands decoded Hc) as [Hop Hcount]. destruct Hc as (_ & Hmul & Hload).
  destruct (transfer_sound_after m Hm Henv decoded Hop Hcount Hmul Hann s Hs true) as [H1 H2].
  assert (shape s) as Hshape by (split; apply Hs). destruct (transfer_shape true s decoded Hshape) as [? ?].
  split; [done|]. split; [done|]. split; [intros r Hr; by apply H1, Hd|]. intros r Hr. apply H2; [done| |by apply Ha].
  unfold updates_register. destruct (byte_load decoded); [|done]. cbn in Hload |- *. by rewrite Hload.
Qed.

(** ** Calls *)

Lemma touches_trans entry callee pc : touches entries adjacency entry callee -> touches entries adjacency callee pc ->
  touches entries adjacency entry pc.
Proof.
  intros H. induction 1 as [|pc decoded s _ IH Hd Hs Hf|pc decoded s callee' _ IH Hd Hs Hn Hf Hc]; [done|by eapply touches_body|by eapply touches_callee].
Qed.

Lemma data_preserved m decoded data address r : multiplies decoded = false -> 0 <= r < 8 -> executes m decoded data address ->
  r ∉ m68k_written_data_registers decoded -> data r = data_register m r.
Proof.
  intros Hmul Hr [Hd _] Hno. specialize (Hd r Hr). unfold data_after in Hd.
  destruct (data_writes (lift_m68k_instruction decoded) r) eqn:E; [|done]. destruct Hno. by apply data_listed.
Qed.

Lemma address_preserved m decoded data address r : 0 <= r < 7 -> executes m decoded data address ->
  r ∉ m68k_written_address_registers decoded -> address r = address_register m r.
Proof.
  intros Hr [_ Ha] Hno. specialize (Ha r Hr). unfold address_after in Ha.
  destruct (address_writes (lift_m68k_instruction decoded) r) eqn:E; [|done]. destruct Hno. by apply address_listed.
Qed.

(** A register no instruction of a callee writes is as it was anywhere in an
    activation of the callee. *)
Section Preserved.
Context (register : Machine -> Z -> Z) (r : Z) (written : M68kDecodedInstruction -> list Z).
Context (Hkeep : forall pc m decoded data address m', entries !! pc = Some decoded -> executes m decoded data address ->
  registers_are m' data address -> (r ∉ written decoded) -> register m' r = register m r).

Lemma walks_preserve entry m0 pc m : walks entry m0 pc m -> preserves entries adjacency written entry r ->
  touches entries adjacency entry pc /\ register m r = register m0 r.
Proof using Hkeep.
  induction 1 as [pc m|entry m0 pc m decoded data address s m' _ IH Hd Hn Hex Hs Hf Hm'|entry m0 pc m decoded s m' _ IH Hd Hs Hf Hor|
    entry m0 pc m decoded data address s callee m1 pc2 m2 last data2 address2 m' _ IH Hd Hn Hex Hs Hf Hc Hm1 _ IH2 Hd2 Hret Hex2 Hm'];
    intros Hp; [split; [apply touches_entry|done]|..];
    destruct (IH Hp) as [Ht Er]; destruct (Hp pc Ht) as (d & Hd' & Hno & Hcont); assert (d = decoded) as -> by congruence.
  - split; [eapply touches_body; [exact Ht|exact Hd|exact Hs|congruence]|]. rewrite <- Er. by eapply Hkeep.
  - destruct (Hcont s Hs Hf) as [Hn [c Hc]]. destruct Hor; congruence.
  - assert (Hcallee : touches entries adjacency entry callee) by (by eapply touches_callee).
    assert (Hp2 : preserves entries adjacency written callee r) by (intros x Hx; apply Hp; by eapply touches_trans).
    destruct (IH2 Hp2) as [Ht2 Er2]. destruct (Hp2 pc2 Ht2) as (d2 & Hd2' & Hno2 & _). assert (d2 = last) as -> by congruence.
    split; [eapply touches_body; [exact Ht|exact Hd|exact Hs|congruence]|].
    rewrite (Hkeep pc2 m2 last data2 address2 m' Hd2 Hex2 Hm' Hno2), Er2, (Hkeep pc m decoded data address m1 Hd Hex Hm1 Hno). exact Er.
Qed.
End Preserved.

Lemma flows_edge s data address m' : covered_program ->
  (forall c, vf_dn_constraint s = Some c -> constraint_holds c (data_register m')) ->
  flows s data address m' -> flow_edge entries adjacency s data address (data_register m') (address_register m').
Proof.
  intros Hcov Hcon Hflow. split; [destruct (vf_dn_constraint s); [by apply Hcon|done]|]. unfold flows in Hflow.
  destruct (vf_force_unknown s); [|exact Hflow]. destruct (vf_callee_entry s) as [callee|]; [|done].
  destruct Hflow as (m1 & pc2 & m2 & last & data2 & address2 & [Hd1 Ha1] & Hw & Hl & _ & Hex & Hm').
  split; intros r Hr Hp.
  - assert (Hkeep : forall pc m decoded data address m', entries !! pc = Some decoded -> executes m decoded data address ->
      registers_are m' data address -> (r ∉ m68k_written_data_registers decoded) -> data_register m' r = data_register m r).
    { intros pc m d dd aa m0 Hd He [Hdd _] Hno. rewrite Hdd by done. apply (data_preserved m d dd aa); try done. apply (Hcov pc d Hd). }
    destruct (walks_preserve data_register r _ Hkeep _ _ _ _ Hw Hp) as [Ht Er]. destruct (Hp pc2 Ht) as (d2 & Hd2 & Hno & _).
    assert (d2 = last) as -> by congruence. by rewrite (Hkeep pc2 m2 last data2 address2 m' Hl Hex Hm' Hno), Er, Hd1.
  - assert (Hkeep : forall pc m decoded data address m', entries !! pc = Some decoded -> executes m decoded data address ->
      registers_are m' data address -> (r ∉ m68k_written_address_registers decoded) -> address_register m' r = address_register m r).
    { intros pc m d dd aa m0 Hd He [_ Haa] Hno. rewrite Haa by done. by apply (address_preserved m d dd aa). }
    destruct (walks_preserve address_register r _ Hkeep _ _ _ _ Hw Hp) as [Ht Er]. destruct (Hp pc2 Ht) as (d2 & Hd2 & Hno & _).
    assert (d2 = last) as -> by congruence. by rewrite (Hkeep pc2 m2 last data2 address2 m' Hl Hex Hm' Hno), Er, Ha1.
Qed.

(** ** Bounded branches *)

(** Compares and conditional branches write no data register. *)
Lemma compare_writes_nothing decoded r : compares_immediate decoded = true -> data_writes (lift_m68k_instruction decoded) r = false.
Proof.
  unfold compares_immediate. intros [[Hk|[Hk _]%andb_true_iff]%orb_true_iff _]%andb_true_iff; rewrite bool_decide_eq_true in Hk;
    unfold data_writes, lift_m68k_instruction, lift_kind; cbn [op_kind]; by rewrite Hk.
Qed.

Lemma branch_writes_nothing decoded r : is_cond_branch decoded = true -> data_writes (lift_m68k_instruction decoded) r = false.
Proof.
  unfold is_cond_branch. rewrite orb_true_iff, !andb_true_iff, !bool_decide_eq_true. intros [Hk|[[Hk _] _]];
    unfold data_writes, lift_m68k_instruction, lift_kind; cbn [op_kind]; by rewrite Hk.
Qed.

Lemma compare_not_call decoded : compares_immediate decoded = true -> calls_or_traps decoded = false.
Proof.
  unfold compares_immediate, calls_or_traps. intros [[Hk|[Hk _]%andb_true_iff]%orb_true_iff _]%andb_true_iff;
    rewrite bool_decide_eq_true in Hk; by rewrite Hk.
Qed.

(** A run arrives at a bounded branch from its compare, with the flags of the
    comparison of the registers it arrives with. *)
Lemma runs_compared roots seeds pc m status decoded bounds : covered_program -> bounds_unambiguous roots ->
  runs roots seeds pc m status -> entries !! pc = Some decoded -> edge_constraints entries canonical_edges pc decoded = Some bounds ->
  exists compare before, m68k_derive_unsigned_compare_branch_constraints compare decoded = Some bounds /\
    status = compared compare (data_register m) before.
Proof.
  intros Hcov Hone Hrun Hd Hb. destruct (Hone pc decoded bounds Hd Hb) as (Hroot & _ & Hpred).
  destruct (edge_constraints_from entries canonical_edges pc decoded bounds Hb) as (_ & Hdest & start & compare & Hstart & Ecmp & Ederive).
  destruct Hrun as [pc m status Hr|pc0 m0 status0 d0 data address s m' status' _ Hd0 _ Hex Hst Hs _ _ Hflow _ _]; [done|].
  destruct (adjacency_successor entries canonical_edges pc0 s Hs) as (d & Hd' & Hforce & [Hnext|Hin] & _); [|done].
  assert (d = d0) as -> by congruence. rewrite (Hpred pc0 d0 Hd0 (eq_sym Hnext)) in Hstart. injection Hstart as ->.
  assert (d0 = compare) as -> by congruence. pose proof (derived_compares compare decoded bounds Ederive) as Hci.
  exists compare, status0. split; [done|]. rewrite (Hst Hci). unfold compared. f_equal.
  unfold flows in Hflow. destruct (vf_force_unknown s); [by rewrite (compare_not_call compare Hci) in Hforce; specialize (Hforce eq_refl)|].
  destruct Hflow as [Hdata _]. assert (Hreg : 0 <= ea_reg (i_destination_ea compare) < 8).
  { apply (eo_reg _ (oo_destination _ (proj1 (covered_operands _ (Hcov _ _ Ecmp))))). }
  rewrite Hdata by done. destruct Hex as [Hex _]. specialize (Hex _ Hreg). unfold data_after in Hex.
  by rewrite (compare_writes_nothing compare _ Hci) in Hex.
Qed.

(** So the bounds of the edge it leaves by hold of its registers. *)
Lemma runs_bounded roots seeds pc m status decoded data address s c : covered_program -> bounds_unambiguous roots ->
  runs roots seeds pc m status -> entries !! pc = Some decoded -> executes m decoded data address ->
  s ∈ successors_of adjacency pc -> decided pc decoded status (vf_address s) -> vf_dn_constraint s = Some c ->
  constraint_holds c data.
Proof.
  intros Hcov Hone Hrun Hd [Hex _] Hs Hgo Hc.
  destruct (adjacency_successor entries canonical_edges pc s Hs) as (d & Hd' & _ & _ & Hcon).
  assert (d = decoded) as -> by congruence. destruct (Hcon c Hc) as (_ & reg & taken & not_taken & Eb & Eedge).
  destruct (runs_compared roots seeds pc m status decoded _ Hcov Hone Hrun Hd Eb) as (compare & before & Ederive & Est).
  destruct (edge_constraints_from entries canonical_edges pc decoded _ Eb) as (Hcond & _).
  destruct (Hone pc decoded _ Hd Eb) as (_ & Htarget & _). specialize (Hgo Hcond).
  destruct (adjacency_constraints entries canonical_edges pc s c Hs Hc) as (start & from & Hfrom & Ereg).
  assert (Hreg : 0 <= con_reg c < 8) by (rewrite Ereg; apply (eo_reg _ (oo_destination _ (proj1 (covered_operands _ (Hcov _ _ Hfrom)))))).
  assert (Hsame : data (con_reg c) = data_register m (con_reg c)).
  { specialize (Hex _ Hreg). unfold data_after in Hex. by rewrite (branch_writes_nothing decoded _ Hcond) in Hex. }
  unfold constraint_holds. rewrite Hsame. change (constraint_holds c (data_register m)).
  destruct (derived_bounds compare decoded reg taken not_taken (data_register m) before Ederive) as [Htaken Hnot]. rewrite <- Est in Htaken, Hnot.
  destruct (m68k_evaluate_condition (branch_condition decoded) status).
  - rewrite Hgo, (proj2 (Z.eqb_neq _ _) Htarget) in Eedge. by apply Htaken.
  - rewrite Hgo, Z.eqb_refl in Eedge. by apply Hnot.
Qed.

(** The states of the analysis hold every run. *)
Lemma analysis_holds_runs (roots : list M68kProgramAddress) (max_call_frame_depth : nat) (seeds : gmap Z M68kRegisterState) :
  covered_program -> (forall pc s, seeds !! pc = Some s -> shape s) -> bounds_unambiguous roots ->
  exists in_states out_states,
    analyze_finite_register_values entries roots canonical_edges max_call_frame_depth seeds = Some (in_states, out_states) /\
    forall pc m status, runs roots seeds pc m status ->
      exists s, in_states !! pc = Some s /\ state_holds (data_register m) (address_register m) s.
Proof.
  intros Hcov Hseeds Hone.
  assert (forall pc decoded, entries !! pc = Some decoded -> in_range decoded) as Hrange by (intros pc d Hd; apply covered_range; by eapply Hcov).
  assert (forall pc s c, s ∈ successors_of adjacency pc -> vf_dn_constraint s = Some c -> 0 <= con_reg c < 8) as Hcon.
  { intros pc s c Hs Hc. destruct (adjacency_constraints entries canonical_edges pc s c Hs Hc) as (start & compare & Hd & ->).
    apply (eo_reg _ (oo_destination _ (proj1 (covered_operands _ (Hcov _ _ Hd))))). }
  destruct (flow_analysis entries adjacency max_call_frame_depth Hrange Hcon seeds roots Hseeds) as (st & E & Hcl & Hroot).
  exists (fs_in_states st), (fs_out_states st). split; [unfold analyze_finite_register_values; cbv zeta; by rewrite E|].
  induction 1 as [pc m status Hpc Hm Henv Hh|pc m status decoded data address s m' status' Hrun IH Hd Hann Hex Hst Hs Hgo Hent Hflow Hm' Henv'].
  - destruct (Hroot pc Hpc) as (t & Ht & Hle). exists t. split; [done|by apply Hle].
  - destruct IH as (t & Ht & Hh). destruct (runs_true _ _ _ _ _ Hrun) as [Hm Henv].
    destruct (Hcl pc t decoded s Ht Hd Hs Hent) as (t' & Ht' & Hsound). exists t'. split; [done|]. apply (Hsound data address).
    + by apply (executes_holds m decoded data address t (Hcov pc decoded Hd)).
    + apply flows_edge; [done| |done]. intros c Hc.
      pose proof (runs_bounded roots seeds pc m status decoded data address s c Hcov Hone Hrun Hd Hex Hs Hgo Hc) as Hb.
      destruct (adjacency_successor entries canonical_edges pc s Hs) as (d0 & _ & _ & _ & Hplain). destruct (Hplain c Hc) as [Hf _].
      unfold flows in Hflow. rewrite Hf in Hflow. destruct Hflow as [Hdata _]. unfold constraint_holds in *. by rewrite Hdata by (by eapply Hcon).
Qed.

(** C9. The analysis of a whole program: over every map of decoded instructions
    without the two forms the transfer gets wrong, every list of canonical edges whose
    bounded branches are unambiguous, every depth limit and every list of roots with
    seeds of the right size, the fixed point ends within its fuel, and at every
    instruction a run along the edges reaches, the state computed for it holds the
    run's data registers and A0 to A6.  The runs execute the instructions: conditional
    branches go by the flags their compares leave, and calls of known callees run them
    to a return. *)
Theorem finite_values_sound (roots : list M68kProgramAddress) (max_call_frame_depth : nat) (seeds : gmap Z M68kRegisterState) :
  covered_program -> (forall pc s, seeds !! pc = Some s -> shape s) -> bounds_unambiguous roots ->
  exists in_states out_states,
    analyze_finite_register_values entries roots canonical_edges max_call_frame_depth seeds = Some (in_states, out_states) /\
    forall pc m status, runs roots seeds pc m status ->
      exists s, in_states !! pc = Some s /\ state_holds (data_register m) (address_register m) s.
Proof. apply analysis_holds_runs. Qed.

(** The footprint of a callee: the search ends, and when it does not give up,
    every instruction a call of the callee can run is decoded, leaves the body only
    through calls of known callees, and writes only registers the footprint marks. *)
Theorem callee_footprint_sound (depth_budget : nat) (entry : Z) : covered_program ->
  exists f memo, m68k_compute_callee_register_footprint entries adjacency depth_budget entry ∅ = Some (f, memo) /\
    (exhaustive_unknown f = false -> forall pc, touches entries adjacency entry pc ->
       exists decoded, entries !! pc = Some decoded /\ contained adjacency pc decoded /\
         (forall r, r ∈ m68k_written_data_registers decoded -> znth (dn_written f) r false = true) /\
         (forall r, r ∈ m68k_written_address_registers decoded -> znth (an_written f) r false = true)).
Proof.
  intros Hcov.
  assert (forall pc decoded, entries !! pc = Some decoded -> in_range decoded) as Hrange by (intros pc d Hd; apply covered_range; by eapply Hcov).
  destruct (footprint_computes entries adjacency Hrange depth_budget entry ∅) as (f & memo & E & _ & _ & Hc).
  { intros c g H. by rewrite lookup_empty in H. }
  exists f, memo. split; [done|]. intros Hu pc Hpc. destruct (Hc Hu pc Hpc) as (d & Hd & [H1 H2] & Hcont).
  destruct (Hrange pc d Hd) as [Hrd Hra]. rewrite Forall_forall in Hrd, Hra. exists d. split; [done|]. split; [done|]. split.
  - intros r Hr. apply H1; [|done]. by apply Hrd.
  - intros r Hr. apply H2; [|done]. by apply Hra.
Qed.
End Program.

(** * Witnesses *)

Definition instruction_at (words : list Z) (address : Z) : M68kDecodedInstruction :=
  match decode_m68k_instruction (words_image words) (mkSource CV_mc68000 (mkAddress TAS_m68k_program address) 0) DP_general_startup with
  | Ok i => i
  | Err _ => default_instruction
  end.

(** [CMPI.W #5,D0; BHI.S *+4; RTS; RTS] at $200, and the edge of the branch. *)
Definition sample_program : gmap Z M68kDecodedInstruction :=
  {[0x200 := instruction_at [0x0C40; 0x0005; 0x4E75] 0x200; 0x204 := instruction_at [0x6202; 0x4E75] 0x204;
    0x206 := instruction_at [0x4E75; 0x4E75] 0x206; 0x208 := instruction_at [0x4E75; 0x4E75] 0x208]}.
Definition sample_edges : list M68kStaticEdge :=
  [mkEdge (i_provenance (instruction_at [0x6202; 0x4E75] 0x204)) SEK_direct_branch (mkAddress TAS_m68k_program 0x208) None].

(** Whether the bounded branches of a program are unambiguous. *)
Definition unambiguous_check (entries : gmap Z M68kDecodedInstruction) (edges : list M68kStaticEdge) (roots : list M68kProgramAddress) : bool :=
  forallb (fun '(pc, decoded) =>
    match edge_constraints entries edges pc decoded with
    | None => true
    | Some _ =>
        forallb (fun root => negb (pa_value root =? pc)) roots && negb (branch_target decoded =? next_pc pc decoded) &&
        forallb (fun '(start, before) => negb (next_pc start before =? pc) || bool_decide (fallthrough_pred entries !! pc = Some start))
          (map_to_list entries)
    end) (map_to_list entries).

Lemma unambiguous_by_check entries edges roots : unambiguous_check entries edges roots = true -> bounds_unambiguous entries edges roots.
Proof.
  unfold unambiguous_check. rewrite forallb_forall. intros H pc decoded bounds Hd Hb.
  specialize (H (pc, decoded)). rewrite <- list_elem_of_In, elem_of_map_to_list in H. specialize (H Hd). cbn in H. rewrite Hb in H.
  apply andb_true_iff in H as [[Hr Ht]%andb_true_iff Hp]. rewrite negb_true_iff, Z.eqb_neq in Ht. split.
  { intros [Hin%list_elem_of_In _]. rewrite forallb_forall in Hr. specialize (Hr _ Hin). cbn in Hr. by rewrite Z.eqb_refl in Hr. } split; [done|]. intros start before Hs Hn. rewrite forallb_forall in Hp. specialize (Hp (start, before)).
  rewrite <- list_elem_of_In, elem_of_map_to_list in Hp. specialize (Hp Hs). cbn in Hp. rewrite Hn, Z.eqb_refl in Hp. cbn [negb orb] in Hp. by rewrite bool_decide_eq_true in Hp.
Qed.

Lemma instruction_covered words address decoded : decode_m68k_instruction (words_image words) (mkSource CV_mc68000 (mkAddress TAS_m68k_program address) 0) DP_general_startup = Ok decoded ->
  forallb (fun b => (0 <=? b) && (b <? 256)) (words_image words) = true -> (2 <=? zlen (words_image words)) && (zlen (words_image words) <=? 0x1000) = true ->
  (0 <=? address) && (address <? 0x10000) && (address mod 2 =? 0) = true -> multiplies decoded = false -> byte_load decoded && ea_updates (i_source_ea decoded) = false ->
  covered_instruction decoded.
Proof.
  rewrite forallb_forall, !andb_true_iff, !Z.leb_le, Z.ltb_lt, Z.eqb_eq. intros Hd Hb Hl Ha Hm Hload. split; [|by split].
  exists (words_image words), (mkSource CV_mc68000 (mkAddress TAS_m68k_program address) 0). split; [|done].
  split; cbn; unfold is_u32; try lia; try done. apply List.Forall_forall. intros x Hx. apply Hb in Hx. unfold is_u8. lia.
Qed.

Lemma sample_covered : covered_program sample_program.
Proof.
  intros pc d H. unfold sample_program in H.
  apply lookup_insert_Some in H as [[_ <-]|[_ H]]; [by apply (instruction_covered [0x0C40; 0x0005; 0x4E75] 0x200); vm_compute|].
  apply lookup_insert_Some in H as [[_ <-]|[_ H]]; [by apply (instruction_covered [0x6202; 0x4E75] 0x204); vm_compute|].
  apply lookup_insert_Some in H as [[_ <-]|[_ H]]; [by apply (instruction_covered [0x4E75; 0x4E75] 0x206); vm_compute|].
  apply lookup_singleton_Some in H as [_ <-]. by apply (instruction_covered [0x4E75; 0x4E75] 0x208); vm_compute.
Qed.

Definition sample_roots : list M68kProgramAddress := [mkAddress TAS_m68k_program 0x200].

Lemma sample_unambiguous : bounds_unambiguous sample_program sample_edges sample_roots.
Proof. apply unambiguous_by_check. vm_compute. reflexivity. Qed.

Example sample_states : (st ← analyze_finite_register_values (environment := no_environment) sample_program sample_roots sample_edges 4 ∅;
  s ← st.1 !! 0x206; Some (get_dn s 0)) = Some (mkDn true [0; 1; 2; 3; 4; 5]).
Proof. vm_compute. reflexivity. Qed.

Definition sample_machine (d0 : Z) : Machine := mkMachine (fun r => if r =? 0 then d0 else 3) (fun _ => 0x2000) (fun _ => 0) false.

Lemma sample_machine_ok d0 : is_u32 d0 -> machine_ok (sample_machine d0) /\ environment_true (environment := no_environment) (sample_machine d0).
Proof.
  intros Hd. split; [|by intros lo length bytes].
  split; intros r; cbn; unfold is_u32, is_u8; [destruct (r =? 0); [exact Hd|lia]|lia|lia].
Qed.

Section SampleRuns.
Context (program : gmap Z M68kDecodedInstruction) (edges : list M68kStaticEdge) (roots : list M68kProgramAddress).
#[local] Abbreviation sample_runs := (runs (environment := no_environment) program edges roots ∅).

Lemma sample_root pc d0 status : is_u32 d0 -> is_root program roots pc -> sample_runs pc (sample_machine d0) status.
Proof.
  intros Hd0 Hp. destruct (sample_machine_ok d0 Hd0). apply runs_root; [done..|]. unfold seed_state. rewrite lookup_empty. apply unknown_holds.
Qed.

(** One plain step that writes D0 at most. *)
Lemma sample_step pc decoded d0 d1 status status' next : is_u32 d1 -> program !! pc = Some decoded ->
  data_after (sample_machine d0) (lift_m68k_instruction decoded) 0 d1 ->
  forallb (fun r => negb (data_writes (lift_m68k_instruction decoded) r)) (seqZ 1 7) = true ->
  forallb (fun r => negb (address_writes (lift_m68k_instruction decoded) r)) (seqZ 0 7) = true ->
  status_after (sample_machine d0) decoded status status' -> decided pc decoded status (vf_address next) -> vf_force_unknown next = false ->
  next ∈ successors_of (m68k_canonical_control_adjacency program edges) pc -> is_Some (program !! vf_address next) ->
  sample_runs pc (sample_machine d0) status -> sample_runs (vf_address next) (sample_machine d1) status'.
Proof.
  intros Hd1 Hd H0 Hdata Haddr Hst Hgo Hf Hs Hnext Hrun. rewrite forallb_forall in Hdata, Haddr. destruct (sample_machine_ok d1 Hd1) as [Hok Henv].
  apply (runs_step program edges _ ∅ pc (sample_machine d0) status decoded (data_register (sample_machine d1))
    (address_register (sample_machine d1)) next (sample_machine d1)); try done.
  2: { unfold flows. by rewrite Hf. }
  split; intros r Hr.
  - destruct (decide (r = 0)) as [->|Hne]; [exact H0|]. unfold data_after. assert (data_writes (lift_m68k_instruction decoded) r = false) as ->.
    { apply negb_true_iff, Hdata, list_elem_of_In, elem_of_seqZ. lia. }
    cbn. by rewrite (proj2 (Z.eqb_neq r 0) Hne).
  - unfold address_after. assert (address_writes (lift_m68k_instruction decoded) r = false) as ->; [|done].
    apply negb_true_iff, Haddr, list_elem_of_In, elem_of_seqZ. lia.
Qed.
End SampleRuns.

(** D0 is 3: the branch after the compare is not taken. *)
Definition sample_status : Z := compared (instruction_at [0x0C40; 0x0005; 0x4E75] 0x200) (fun _ => 3) 0x2700.

Lemma sample_run : runs (environment := no_environment) sample_program sample_edges sample_roots ∅ 0x206 (sample_machine 3) sample_status.
Proof.
  apply (sample_step _ _ _ 0x204 (instruction_at [0x6202; 0x4E75] 0x204) 3 3 sample_status sample_status
    (mkFlow 0x206 false None (Some (mkConstraint 0 0 5 0xFFFF false)))); try (by vm_compute); [vm_compute; left|by eexists|].
  apply (sample_step _ _ _ 0x200 (instruction_at [0x0C40; 0x0005; 0x4E75] 0x200) 3 3 0x2700 sample_status (plain_flow 0x204));
    try (by vm_compute); [vm_compute; left|by eexists|].
  apply sample_root; [unfold is_u32; lia|split; [left|by eexists]].
Qed.

Lemma finite_values_sound_witness : exists in_states out_states s,
  analyze_finite_register_values (environment := no_environment) sample_program sample_roots sample_edges 4 ∅ = Some (in_states, out_states) /\
  in_states !! 0x206 = Some s /\ dn_contains (get_dn s 0) 3.
Proof.
  destruct (finite_values_sound (environment := no_environment) sample_program sample_edges sample_roots 4 ∅ sample_covered) as (i & o & E & H).
  - intros pc s Hs. rewrite lookup_empty in Hs. discriminate Hs.
  - exact sample_unambiguous.
  - destruct (H 0x206 (sample_machine 3) sample_status sample_run) as (s & Hs & Hh). exists i, o, s. split; [exact E|]. split; [exact Hs|].
    destruct Hh as (_ & _ & Hd & _). apply (Hd 0). lia.
Defined.

(** [MOVEQ #4,D0; RTS] at $200. *)
Definition leaf_program : gmap Z M68kDecodedInstruction :=
  {[0x200 := instruction_at [0x7004; 0x4E75] 0x200; 0x202 := instruction_at [0x4E75; 0x4E75] 0x202]}.

Lemma leaf_covered : covered_program leaf_program.
Proof.
  intros pc d H. unfold leaf_program in H.
  apply lookup_insert_Some in H as [[_ <-]|[_ H]]; [by apply (instruction_covered [0x7004; 0x4E75] 0x200); vm_compute|].
  apply lookup_singleton_Some in H as [_ <-]. by apply (instruction_covered [0x4E75; 0x4E75] 0x202); vm_compute.
Qed.

Lemma callee_footprint_sound_witness : exists f memo,
  m68k_compute_callee_register_footprint leaf_program (m68k_canonical_control_adjacency leaf_program []) 4 0x200 ∅ = Some (f, memo) /\
  exhaustive_unknown f = false /\ znth (dn_written f) 0 false = true.
Proof.
  destruct (callee_footprint_sound leaf_program [] 4 0x200 leaf_covered) as (f & memo & E & H).
  assert (exhaustive_unknown f = false) as Hu by (apply (f_equal (fun x => match x with Some (g, _) => exhaustive_unknown g | None => true end)) in E; vm_compute in E; symmetry; exact E).
  exists f, memo. split; [exact E|]. split; [exact Hu|].
  destruct (H Hu 0x200 (touches_entry _ _ 0x200)) as (d & Hd & _ & Hw & _). apply Hw.
  assert (d = instruction_at [0x7004; 0x4E75] 0x200) as -> by (apply (f_equal (default default_instruction)) in Hd; symmetry; exact Hd).
  vm_compute. left.
Defined.
