(* ===== verification/M68kStaticEdges.v ===== *)
(** The bounds a compare puts on the edges of the branch that follows it
    ([static_discovery.cpp]): against the flags of the comparison they are exact; and
    the three cases in which the adjacency attaches them to an edge that does not have
    them: a branch to the next instruction, two instructions that end at the branch,
    and a branch that is a root. *)

From S2P Require Import Prelude M68kInstruction M68kArithmetic M68kLegality M68kDecode M68kFinite M68kStaticValues M68kStaticSound.
From S2P Require Import M68kStaticBounds M68kStaticProgram M68kStaticFlow M68kStaticFlowSound.

(** C24. The bounds are exact: when they are derived for a compare and the branch after
    it, the branch is taken exactly when the register lies in the bounds of the taken
    edge, and not taken exactly when it lies in those of the other edge, whatever the
    registers and the status register were. *)
Theorem compare_bounds_exact (compare branch : M68kDecodedInstruction) reg taken not_taken (data : Z -> Z) (status_register : Z) :
  m68k_derive_unsigned_compare_branch_constraints compare branch = Some (reg, taken, not_taken) ->
  let decision := m68k_evaluate_condition (branch_condition branch) (compared compare data status_register) in
  (forall c, taken = Some c -> decision = true <-> constraint_holds c data) /\
  (forall c, not_taken = Some c -> decision = false <-> constraint_holds c data).
Proof. apply derived_bounds. Qed.

(** * Bounds on the wrong edge *)

Definition program_at (l : list (Z * list Z)) : gmap Z M68kDecodedInstruction := list_to_map (map (fun '(address, words) => (address, instruction_at words address)) l).
Definition branch_edge (entries : gmap Z M68kDecodedInstruction) (source target : Z) : M68kStaticEdge :=
  mkEdge (i_provenance (default default_instruction (entries !! source))) SEK_direct_branch (mkAddress TAS_m68k_program target) None.

(** A destination an edge adds stays a successor. *)
Lemma add_edge_keeps entries edges : forall adjacency pc x, plain_flow x ∈ successors_of adjacency pc ->
  plain_flow x ∈ successors_of (fold_left (add_edge entries) edges adjacency) pc.
Proof.
  induction edges as [|e edges IH]; intros adjacency pc x Hx; [done|]. cbn [fold_left]. apply IH. unfold add_edge.
  set (source := provenance_address _). destruct (entries !! source) as [d|]; [|done]. destruct (edge_flow e) as [target|]; [|done].
  unfold successors_of in *. destruct (decide (pc = source)) as [->|Hne]; [|by rewrite lookup_insert_ne].
  rewrite lookup_insert_eq. cbn [default]. apply elem_of_app. by left.
Qed.

Lemma edge_added entries edge edges target pc : edge ∈ edges -> is_Some (entries !! pc) -> provenance_address (se_source_instruction edge) = pc ->
  edge_flow edge = Some target -> forall adjacency, plain_flow target ∈ successors_of (fold_left (add_edge entries) edges adjacency) pc.
Proof.
  intros Hin [d Hd] Hpc Ht. induction edges as [|e edges IH]; [by apply elem_of_nil in Hin|]. intros adjacency. cbn [fold_left].
  apply elem_of_cons in Hin as [<-|Hin]; [|by apply IH]. apply add_edge_keeps. unfold add_edge. rewrite Hpc, Hd, Ht.
  unfold successors_of. rewrite lookup_insert_eq. cbn [default]. apply elem_of_app. right. left.
Qed.

Lemma unique_from_keeps l : forall kept s, s ∈ kept :: l -> exists s', s' ∈ kept :: unique_from kept l /\ vf_address s' = vf_address s.
Proof.
  induction l as [|x l IH]; intros kept s; [intros ->%list_elem_of_singleton; exists kept; split; [left|done]|]. cbn [unique_from].
  destruct (same_flow kept x) eqn:E; rewrite !elem_of_cons.
  - intros [->|[->|Hs]].
    + exists kept. split; [left|done].
    + exists kept. split; [left|]. unfold same_flow in E. rewrite !andb_true_iff, Z.eqb_eq in E. tauto.
    + apply IH. by right.
  - intros [->|Hs]; [exists kept; split; [left|done]|]. destruct (IH x s) as (s' & Hs' & Ea); [by apply elem_of_cons|]. exists s'.
    split; [by right|done].
Qed.

Lemma sort_flow_keeps l s : s ∈ l -> exists s', s' ∈ sort_flow l /\ vf_address s' = vf_address s.
Proof.
  intros Hs. unfold sort_flow. pose proof (merge_sort_Permutation flow_order l) as Hp.
  destruct (merge_sort flow_order l) as [|x rest]; [rewrite <- Hp in Hs; by apply elem_of_nil in Hs|]. apply unique_from_keeps. by rewrite Hp.
Qed.

(** C25. A branch to the next instruction loses values.  Whenever the edges of a
    conditional branch are bounded and one of its canonical edges leads to the next
    instruction, the branch has a successor there and every successor it has there
    carries the bounds of the edge not taken; and whatever the registers and the flags
    were before the compare, a value that takes the branch, and so arrives there, is
    outside these bounds. *)
Theorem branch_to_next_bounded (entries : gmap Z M68kDecodedInstruction) (canonical_edges : list M68kStaticEdge) (pc : Z)
    (branch : M68kDecodedInstruction) reg taken c (edge : M68kStaticEdge) :
  entries !! pc = Some branch ->
  edge_constraints entries canonical_edges pc branch = Some (reg, taken, Some c) ->
  edge ∈ canonical_edges -> provenance_address (se_source_instruction edge) = pc -> edge_flow edge = Some (next_pc pc branch) ->
  (exists s, s ∈ successors_of (m68k_canonical_control_adjacency entries canonical_edges) pc /\ vf_address s = next_pc pc branch) /\
  (forall s, s ∈ successors_of (m68k_canonical_control_adjacency entries canonical_edges) pc -> vf_address s = next_pc pc branch ->
     vf_dn_constraint s = Some c) /\
  exists start compare, fallthrough_pred entries !! pc = Some start /\ entries !! start = Some compare /\
    forall data status_register,
      m68k_evaluate_condition (branch_condition branch) (compared compare data status_register) = true -> ~ constraint_holds c data.
Proof.
  intros Hb Hc He Hpc Ht.
  destruct (edge_constraints_from entries canonical_edges pc branch _ Hc) as (Hcond & _ & start & compare & Hstart & Hcmp & Hd).
  assert (Hplain : forall s, s ∈ successors_of (sorted_adjacency entries canonical_edges) pc ->
    vf_dn_constraint s = None /\ vf_force_unknown s = false).
  { intros s Hs. destruct (plain_successor entries canonical_edges pc s Hs) as (Hn & d & Hd' & Hf & _). split; [done|].
    destruct (vf_force_unknown s); [|done]. specialize (Hf eq_refl). assert (d = branch) as -> by congruence.
    unfold is_cond_branch, calls_or_traps in *. by destruct (i_kind branch). }
  destruct (sort_flow_keeps (successors_of (fold_left (add_edge entries) canonical_edges (local_adjacency entries canonical_edges)) pc)
    (plain_flow (next_pc pc branch))) as (s0 & Hs0 & Ea0).
  { apply (edge_added entries edge); [done|by eexists|done..]. }
  unfold successors_of, m68k_canonical_control_adjacency in *. rewrite map_lookup_imap.
  unfold sorted_adjacency in *. rewrite lookup_fmap in *.
  destruct (fold_left (add_edge entries) canonical_edges (local_adjacency entries canonical_edges) !! pc) as [l|]; [|by apply elem_of_nil in Hs0].
  cbn [fmap option_fmap option_map mbind option_bind default] in *. rewrite Hb, Hc. cbn [default].
  split; [|split].
  - exists (constrain (next_pc pc branch) taken (Some c) s0). split; [by apply list_elem_of_fmap_2|]. unfold constrain.
    repeat case_match; exact Ea0.
  - intros s Hs Ea. apply list_elem_of_fmap in Hs as (s1 & -> & Hs1). destruct (Hplain s1 Hs1) as [Hn Hf]. unfold constrain in *. rewrite Hf, Hn in *.
    assert (E1 : vf_address s1 = next_pc pc branch) by (by repeat case_match). by rewrite E1, Z.eqb_refl.
  - exists start, compare. split; [done|]. split; [done|]. intros data status Htaken Hholds.
    destruct (derived_bounds compare branch reg taken (Some c) data status Hd) as [_ Hnot].
    specialize (proj2 (Hnot c eq_refl) Hholds). rewrite Htaken. discriminate.
Qed.

(** [CMPI.W #5,D0; BHI.W *+4; RTS]: the branch is to the next instruction, and 9 takes it. *)
Definition next_program : gmap Z M68kDecodedInstruction :=
  program_at [(0x200, [0x0C40; 0x0005; 0x4E75]); (0x204, [0x6200; 0x0002; 0x4E75]); (0x208, [0x4E75; 0x4E75])].

Lemma branch_to_next_bounded_witness :
  successors_of (m68k_canonical_control_adjacency next_program [branch_edge next_program 0x204 0x208]) 0x204 =
    [mkFlow 0x208 false None (Some (mkConstraint 0 0 5 0xFFFF false))] /\
  ~ constraint_holds (mkConstraint 0 0 5 0xFFFF false) (fun _ => 9).
Proof.
  split; [vm_compute; reflexivity|].
  destruct (branch_to_next_bounded next_program [branch_edge next_program 0x204 0x208] 0x204
    (instruction_at [0x6200; 0x0002; 0x4E75] 0x204) 0 (Some (mkConstraint 0 6 0xFFFF 0xFFFF false)) (mkConstraint 0 0 5 0xFFFF false)
    (branch_edge next_program 0x204 0x208) ltac:(vm_compute; reflexivity) ltac:(vm_compute; reflexivity) ltac:(left)
    ltac:(vm_compute; reflexivity) ltac:(vm_compute; reflexivity)) as (_ & _ & start & compare & Hs & Hc & H).
  apply (H _ 0). assert (start = 0x200) as -> by (vm_compute in Hs; by injection Hs).
  assert (compare = instruction_at [0x0C40; 0x0005; 0x4E75] 0x200) as -> by (vm_compute in Hc |- *; by injection Hc).
  vm_compute. reflexivity.
Defined.

(** [ADDI.L #$0C400005,D0; BHI.W *+6], whose last words are also [CMPI.W #5,D0]. *)
Definition overlapping_program : gmap Z M68kDecodedInstruction :=
  program_at [(0x200, [0x0680; 0x0C40; 0x0005; 0x4E75]); (0x202, [0x0C40; 0x0005; 0x4E75]); (0x206, [0x6200; 0x0004; 0x4E75]);
    (0x20A, [0x4E75; 0x4E75]); (0x20C, [0x4E75; 0x4E75])].

(** Two instructions end at the branch, and the later one, a compare, still bounds its edges. *)
Lemma overlapping_predecessor_bounded :
  (forall start, start = 0x200 \/ start = 0x202 -> next_pc start (default default_instruction (overlapping_program !! start)) = 0x206) /\
  i_kind (default default_instruction (overlapping_program !! 0x200)) = K_addi /\
  map vf_dn_constraint (successors_of (m68k_canonical_control_adjacency overlapping_program [branch_edge overlapping_program 0x206 0x20C]) 0x206) =
    [Some (mkConstraint 0 0 5 0xFFFF false); Some (mkConstraint 0 6 0xFFFF 0xFFFF false)].
Proof. split; [by intros start [-> | ->]; vm_compute|]. split; vm_compute; reflexivity. Qed.

Lemma compare_bounds_exact_witness : exists c,
  m68k_derive_unsigned_compare_branch_constraints (instruction_at [0x0C40; 0x0005; 0x4E75] 0x200) (instruction_at [0x6200; 0x0002; 0x4E75] 0x204) =
    Some (0, Some c, Some (mkConstraint 0 0 5 0xFFFF false)) /\
  constraint_holds c (fun _ => 0x10009) /\ ~ constraint_holds c (fun _ => 0x10005).
Proof.
  eexists. split; [vm_compute; reflexivity|]. split.
  - refine (proj1 (proj1 (compare_bounds_exact (instruction_at [0x0C40; 0x0005; 0x4E75] 0x200) (instruction_at [0x6200; 0x0002; 0x4E75] 0x204)
      _ _ _ (fun _ => 0x10009) 0 _) _ eq_refl) _); [vm_compute; reflexivity|vm_compute; reflexivity].
  - intros [_ H]. vm_compute in H. destruct H as [H _]. by apply H.
Defined.

(** The branch of the sample program as a root too: its edges keep their bounds, and
    a run that starts at it with another value leaves the states. *)
Lemma root_branch_bounded :
  let roots := [mkAddress TAS_m68k_program 0x200; mkAddress TAS_m68k_program 0x204] in
  (st ← analyze_finite_register_values (environment := no_environment) sample_program roots sample_edges 4 ∅;
   s ← st.1 !! 0x206; Some (get_dn s 0)) = Some (mkDn true [0; 1; 2; 3; 4; 5]) /\
  runs (environment := no_environment) sample_program sample_edges roots ∅ 0x206 (sample_machine 9) sample_status /\
  ~ dn_contains (mkDn true [0; 1; 2; 3; 4; 5]) 9.
Proof.
  intros roots. split; [vm_compute; reflexivity|]. split.
  - apply (sample_step _ _ _ 0x204 (instruction_at [0x6202; 0x4E75] 0x204) 9 9 sample_status sample_status
      (mkFlow 0x206 false None (Some (mkConstraint 0 0 5 0xFFFF false)))); try (by vm_compute); [vm_compute; left|by eexists|].
    apply sample_root; [unfold is_u32; lia|split; [right; left|by eexists]].
  - intros H. specialize (H eq_refl). change (9 ∈ [0; 1; 2; 3; 4; 5]) in H. rewrite !elem_of_cons, elem_of_nil in H. lia.
Qed.
