(* ===== verification/M68kStaticTargets.v ===== *)
(** The target sets of computed jumps and calls ([static_discovery.cpp]): the
    candidates of the brief PC-relative indexed form and of the pure address-register
    form, from the states of the analysis, and their soundness over the runs of a
    decoded program. *)

From S2P Require Import Prelude M68kInstruction M68kArithmetic M68kLegality M68kDecode M68kShape M68kDecodeSpec M68kFinite.
From S2P Require Import M68kFiniteSound M68kStaticValues M68kStaticSound M68kStaticBounds M68kStaticProgram M68kStaticFlow M68kStaticFlowSound.

(** The addresses of the index values, [None] when one does not evaluate to 24 bits. *)
Fixpoint raw_candidates (ea : M68kEffectiveAddress) (values : list Z) : option (list Z) :=
  match values with
  | [] => Some []
  | low_word :: rest =>
      let raw := ea_pc_base_address ea + ea_displacement ea + i16 low_word in
      if (raw <? 0) || (kU32Max <? raw) then None
      else if negb (u32 raw .& 0xFF000000 =? 0) then None
      else rest ← raw_candidates ea rest; Some (u32 raw :: rest)
  end.

Definition candidates_of (addresses : list Z) : list M68kProgramAddress := map (mkAddress TAS_m68k_program) addresses.

(** The sorted candidates, [None] when there is none. *)
Definition target_set (decoded : M68kDecodedInstruction) (index_values : M68kFiniteIndexValueSet) (raw : list Z) : option M68kIndirectTargetEaSet :=
  match sort_unique raw with
  | [] => None
  | candidates => Some (mkTargets (i_provenance decoded) (i_source_ea decoded) index_values (candidates_of candidates))
  end.

Section Targets.
Context (states : gmap Z M68kRegisterState).

Definition compute_indirect_target_set (addr : Z) (decoded : M68kDecodedInstruction) : option M68kIndirectTargetEaSet :=
  let ea := i_source_ea decoded in
  if ea_index_is_address ea || ea_index_is_long ea then None
  else
    found ← states !! addr;
    let index_state := get_dn found (ea_index_reg ea) in
    if negb (dn_finite index_state) || bool_decide (dn_values index_state = []) then None
    else
      raw ← raw_candidates ea (dn_values index_state);
      target_set decoded (mkIndexValues (i_provenance decoded) (data_register_of (ea_index_reg ea)) (dn_values index_state)) raw.

Definition compute_indirect_target_set_an (addr : Z) (decoded : M68kDecodedInstruction) : option M68kIndirectTargetEaSet :=
  let ea := i_source_ea decoded in
  if negb (ea_mode ea =b EA_address_indirect) || negb (ea_displacement ea =? 0) || negb (ea_extension_words ea =? 0) then None
  else if negb (m68k_an_finite_proof_eligible (ea_reg ea)) then None
  else
    found ← states !! addr;
    let an_state := get_an found (ea_reg ea) in
    if negb (an_finite an_state) || bool_decide (an_addrs an_state = []) then None
    else if existsb (fun member => negb (member .& 0xFF000000 =? 0)) (an_addrs an_state) then None
    else target_set decoded no_index_values (an_addrs an_state).
End Targets.

(** * Soundness *)

Lemma u32_24 raw : 0 <= raw <= kU32Max -> u32 raw .& 0xFF000000 = 0 -> u32 raw = raw /\ raw mod 2 ^ 24 = raw.
Proof.
  unfold kU32Max. intros Hr Hz. assert (u32 raw = raw) as E by (apply Z.mod_small; lia). split; [done|]. rewrite E in Hz.
  apply Z.mod_small. split; [lia|]. destruct (Z.lt_ge_cases raw (2 ^ 24)) as [?|Hge]; [done|]. exfalso.
  assert ((raw / 2 ^ 24) .& 0xFF = 0) as H8.
  { apply (f_equal (fun z => Z.shiftr z 24)) in Hz. rewrite Z.shiftr_land, Z.shiftr_0_l in Hz. by rewrite <- (Z.shiftr_div_pow2 raw 24). }
  assert (0 <= raw / 2 ^ 24 < 2 ^ 8) as Hb by (split; [apply Z.div_pos; lia|]; apply Z.div_lt_upper_bound; lia).
  change 0xFF with (Z.ones 8) in H8. rewrite Z.land_ones, Z.mod_small in H8 by (exact Hb || lia).
  pose proof (Z.div_le_mono (2 ^ 24) raw (2 ^ 24) ltac:(lia) Hge) as Hd. rewrite Z.div_same in Hd by lia. lia.
Qed.

Lemma raw_candidates_spec ea values raw low_word : raw_candidates ea values = Some raw -> low_word ∈ values ->
  (ea_pc_base_address ea + ea_displacement ea + i16 low_word) mod 2 ^ 24 ∈ raw.
Proof.
  revert raw. induction values as [|v values IH]; intros raw; [by intros _ ?%elem_of_nil|]. cbn [raw_candidates]. cbv zeta.
  destruct (_ || _) eqn:Hr; [done|]. apply orb_false_iff in Hr as [H0%Z.ltb_ge H1%Z.ltb_ge]. destruct (_ =? 0) eqn:Hz; [|done]. cbn [negb]. apply Z.eqb_eq in Hz.
  destruct (raw_candidates ea values) as [rest|]; [|done]. cbn [mbind option_bind]. intros [= <-] [->|Hin]%elem_of_cons; [|right; by apply IH].
  destruct (u32_24 _ (conj H0 H1) Hz) as [-> ->]. left.
Qed.

Lemma candidates_values l : map pa_value (candidates_of l) = l.
Proof. unfold candidates_of. induction l as [|x l IH]; [done|]. cbn. by rewrite IH. Qed.

Lemma target_set_spec decoded index_values raw targets x : target_set decoded index_values raw = Some targets ->
  x ∈ map pa_value (it_candidates targets) <-> x ∈ raw.
Proof.
  unfold target_set. rewrite <- (elem_of_sort_unique raw). destruct (sort_unique raw) as [|y l]; [done|]. intros [= <-].
  change (x ∈ map pa_value (candidates_of (y :: l)) <-> x ∈ y :: l). by rewrite candidates_values.
Qed.

Section Sound.
Context `{environment : M68kStaticDiscoveryEnvironment}.
Context (entries : gmap Z M68kDecodedInstruction) (canonical_edges : list M68kStaticEdge).

(** C8. The target sets are sound.  Over a program without the two forms the transfer
    gets wrong, edges whose bounded branches are unambiguous and seeds of the right
    size, when the analysis proves a set for a computed jump or call, every run along
    the edges that reaches the instruction goes to one of its candidates: the address
    its operand evaluates to, on the 24-bit bus, is in the set; and the set is sorted
    and not empty. *)
Theorem indirect_targets_sound roots max_call_frame_depth seeds in_states out_states addr decoded targets (m : Machine) status address :
  covered_program entries -> (forall pc s, seeds !! pc = Some s -> shape s) -> bounds_unambiguous entries canonical_edges roots ->
  analyze_finite_register_values entries roots canonical_edges max_call_frame_depth seeds = Some (in_states, out_states) ->
  entries !! addr = Some decoded ->
  ea_mode (i_source_ea decoded) = EA_pc_index8 /\ compute_indirect_target_set in_states addr decoded = Some targets \/
    compute_indirect_target_set_an in_states addr decoded = Some targets ->
  runs entries canonical_edges roots seeds addr m status ->
  operand_address m (i_source_ea decoded) W_long_word = Some address ->
  address mod 2 ^ 24 ∈ map pa_value (it_candidates targets) /\ StronglySorted Z.lt (map pa_value (it_candidates targets)).
Proof.
  intros Hcov Hseeds Hone E Hd Htargets Hrun Haddr.
  destruct (analysis_holds_runs entries canonical_edges roots max_call_frame_depth seeds Hcov Hseeds Hone) as (i & o & E' & H).
  rewrite E in E'. injection E' as <- <-. destruct (H addr m status Hrun) as (s & Hs & _ & _ & Hdata & Haddress).
  destruct (covered_operands decoded (Hcov addr decoded Hd)) as [Hop _]. pose proof (oo_source _ Hop) as Hea.
  assert (forall index_values raw, target_set decoded index_values raw = Some targets -> StronglySorted Z.lt (map pa_value (it_candidates targets))) as Hsorted.
  { intros iv raw. unfold target_set. pose proof (sort_unique_sorted raw) as Hss. destruct (sort_unique raw) as [|y l]; [done|]. intros [= <-].
    change (StronglySorted Z.lt (map pa_value (candidates_of (y :: l)))). by rewrite candidates_values. }
  destruct Htargets as [[Hmode Ht]|Ht].
  - unfold compute_indirect_target_set in Ht. cbv zeta in Ht. destruct (_ || _) eqn:Hidx in Ht; [done|]. apply orb_false_iff in Hidx as [Hia Hil].
    rewrite Hs in Ht. cbn [mbind option_bind] in Ht. destruct (dn_finite _) eqn:Hf in Ht; [|done]. cbn [negb orb] in Ht. case_bool_decide; [done|].
    destruct (raw_candidates _ _) as [raw|] eqn:Hraw in Ht; [|done]. cbn [mbind option_bind] in Ht. split; [|by eapply Hsorted].
    apply (target_set_spec decoded _ raw targets _ Ht). unfold operand_address in Haddr. rewrite Hmode in Haddr. injection Haddr as <-.
    unfold index_value. rewrite Hia, Hil, <- (i16_low _ 16) by lia. apply (raw_candidates_spec _ _ _ _ Hraw). apply (Hdata (ea_index_reg (i_source_ea decoded))); [|done].
    exact (eo_index _ Hea).
  - unfold compute_indirect_target_set_an in Ht. cbv zeta in Ht. destruct (_ || _ || _) eqn:Hm in Ht; [done|].
    rewrite !orb_false_iff, !negb_false_iff, bool_decide_eq_true in Hm. destruct Hm as ((Hmode & _) & _).
    unfold m68k_an_finite_proof_eligible, kM68kStackPointerRegister in Ht. destruct (Z.ltb_spec (ea_reg (i_source_ea decoded)) 7) as [H7|]; [|done]. cbn [negb] in Ht.
    rewrite Hs in Ht. cbn [mbind option_bind] in Ht. destruct (an_finite _) eqn:Hf in Ht; [|done]. cbn [negb orb] in Ht. case_bool_decide; [done|].
    destruct (existsb _ _); [done|]. split; [|by eapply Hsorted]. apply (target_set_spec decoded _ _ targets _ Ht).
    unfold operand_address in Haddr. rewrite Hmode in Haddr. injection Haddr as <-. apply (Haddress (ea_reg (i_source_ea decoded))); [|done].
    pose proof (eo_reg _ Hea). lia.
Qed.
End Sound.

(** * A witness *)

(** [MOVEQ #4,D0; JMP 2(PC,D0.W)] at $200. *)
Definition jump_program : gmap Z M68kDecodedInstruction :=
  {[0x200 := instruction_at [0x7004; 0x4E75] 0x200; 0x202 := instruction_at [0x4EFB; 0x0002; 0x4E75] 0x202]}.

Lemma jump_covered : covered_program jump_program.
Proof.
  intros pc d H. unfold jump_program in H.
  apply lookup_insert_Some in H as [[_ <-]|[_ H]]; [by apply (instruction_covered [0x7004; 0x4E75] 0x200); vm_compute|].
  apply lookup_singleton_Some in H as [_ <-]. by apply (instruction_covered [0x4EFB; 0x0002; 0x4E75] 0x202); vm_compute.
Qed.

Lemma jump_unambiguous : bounds_unambiguous jump_program [] sample_roots.
Proof. apply unambiguous_by_check. vm_compute. reflexivity. Qed.

Lemma jump_run : runs (environment := no_environment) jump_program [] sample_roots ∅ 0x202 (sample_machine 4) 0x2700.
Proof.
  apply (sample_step _ _ _ 0x200 (instruction_at [0x7004; 0x4E75] 0x200) 1 4 0x2700 0x2700 (plain_flow 0x202)); try (by vm_compute);
    [vm_compute; left|by eexists|].
  apply sample_root; [unfold is_u32; lia|split; [left|by eexists]].
Qed.

Definition jump_states : gmap Z M68kRegisterState * gmap Z M68kRegisterState :=
  default (∅, ∅) (analyze_finite_register_values (environment := no_environment) jump_program sample_roots [] 4 ∅).

Lemma indirect_targets_sound_witness : exists targets,
  compute_indirect_target_set jump_states.1 0x202 (instruction_at [0x4EFB; 0x0002; 0x4E75] 0x202) = Some targets /\
  map pa_value (it_candidates targets) = [0x20A] /\ 0x20A ∈ map pa_value (it_candidates targets).
Proof.
  eexists. split; [vm_compute; reflexivity|]. split; [reflexivity|].
  refine (proj1 (indirect_targets_sound (environment := no_environment) jump_program [] sample_roots 4 ∅ jump_states.1 jump_states.2 0x202
    (instruction_at [0x4EFB; 0x0002; 0x4E75] 0x202) _ (sample_machine 4) 0x2700 0x20A jump_covered _ jump_unambiguous _ _ (or_introl _) jump_run _)).
  - intros pc s Hs. rewrite lookup_empty in Hs. discriminate Hs.
  - vm_compute. reflexivity.
  - vm_compute. reflexivity.
  - split; vm_compute; reflexivity.
  - vm_compute. reflexivity.
Defined.
