(* ===== verification/M68kException.v ===== *)
(** The MC68000 exception and interrupt core of [exception_core.h].

    A hook set is a record of functions over the machine context [C], each of
    which may be null; hooks return the context they leave.  The CPU binding is a
    record of four pointers; [None] is a null pointer, [Some] the value pointed to. *)

From S2P Require Import Prelude.

Definition SR_TRACE : Z := 0x8000.
Definition SR_SUPERVISOR : Z := 0x2000.
Definition SR_INTERRUPT_MASK : Z := 0x0700.
Definition SR_IMPLEMENTED : Z := 0xA71F.
Definition EXCEPTION_FRAME_BYTES : Z := 6.

Inductive SegarecompM68kExceptionStatus : Type :=
| EX_ok | EX_stack_invalid | EX_vector_unavailable | EX_access_failed | EX_trace_deferred | EX_bad_binding.

#[export] Instance exception_status_eq_dec : EqDecision SegarecompM68kExceptionStatus.
Proof. solve_decision. Defined.

Inductive SegarecompM68kVectorResolution : Type := VR_handler | VR_not_installed | VR_unrepresentable.

Inductive SegarecompM68kStackDirection : Type := SD_read | SD_write.

(** Sizes are 2 (word) or 4 (long); a read that is refused returns [None]. *)
Record SegarecompM68kMachineHooks (C : Type) := mkHooks {
  validate_stack_extent : option (C -> Z -> Z -> SegarecompM68kStackDirection -> C * bool);
  stack_read : option (C -> Z -> Z -> C * option Z);
  frame_write : option (C -> Z -> Z -> Z -> C);
  resolve_vector : option (C -> Z -> C * SegarecompM68kVectorResolution * Z);
  on_exception_entry : option (C -> Z -> Z -> Z -> C);
  on_exception_return : option (C -> Z -> C);
}.
Arguments mkHooks {C} _ _ _ _ _ _.
Arguments validate_stack_extent {C} _.
Arguments stack_read {C} _.
Arguments frame_write {C} _.
Arguments resolve_vector {C} _.
Arguments on_exception_entry {C} _.
Arguments on_exception_return {C} _.

Record SegarecompM68kCpuBinding := mkBinding {
  bind_sr : option Z;
  bind_active_sp : option Z;
  bind_inactive_sp : option Z;
  bind_pc : option Z;
}.

(** The four fields behind a valid binding. *)
Record Cpu := mkCpu { cpu_sr : Z; cpu_active_sp : Z; cpu_inactive_sp : Z; cpu_pc : Z }.

(** The hooks behind a valid hook set. *)
Record BoundHooks (C : Type) := mkBound {
  validate : C -> Z -> Z -> SegarecompM68kStackDirection -> C * bool;
  read : C -> Z -> Z -> C * option Z;
  write : C -> Z -> Z -> Z -> C;
  vector : C -> Z -> C * SegarecompM68kVectorResolution * Z;
  notify_entry : C -> Z -> Z -> Z -> C;
  notify_return : C -> Z -> C;
}.
Arguments mkBound {C} _ _ _ _ _ _.
Arguments validate {C} _ _ _ _ _.
Arguments read {C} _ _ _ _.
Arguments write {C} _ _ _ _ _.
Arguments vector {C} _ _ _.
Arguments notify_entry {C} _ _ _ _ _.
Arguments notify_return {C} _ _ _.

Definition bound_cpu (cpu : SegarecompM68kCpuBinding) : option Cpu :=
  sr ← bind_sr cpu; active ← bind_active_sp cpu; inactive ← bind_inactive_sp cpu; pc ← bind_pc cpu;
  Some (mkCpu sr active inactive pc).

(** A notification that is null does nothing. *)
Definition bound_hooks {C} (hooks : SegarecompM68kMachineHooks C) : option (BoundHooks C) :=
  v ← validate_stack_extent hooks; r ← stack_read hooks; w ← frame_write hooks; t ← resolve_vector hooks;
  Some (mkBound v r w t
          (match on_exception_entry hooks with Some f => f | None => fun c _ _ _ => c end)
          (match on_exception_return hooks with Some f => f | None => fun c _ => c end)).

(** [segarecomp_m68k_binding_valid]: [Some] with what a valid binding refers to. *)
Definition segarecomp_m68k_binding_valid {C} (hooks : option (SegarecompM68kMachineHooks C))
    (cpu : option SegarecompM68kCpuBinding) : option (BoundHooks C * Cpu) :=
  hooks ← hooks; cpu ← cpu; h ← bound_hooks hooks; c ← bound_cpu cpu; Some (h, c).

(** Writing the four fields back through a valid binding. *)
Definition store_cpu (c : Cpu) : SegarecompM68kCpuBinding :=
  mkBinding (Some (cpu_sr c)) (Some (cpu_active_sp c)) (Some (cpu_inactive_sp c)) (Some (cpu_pc c)).

(** * Entry, return and RTR *)

Section Core.
Context {C : Type}.

(** The status, the context, the CPU, and what the out parameter receives. *)
Record Outcome := mkOutcome {
  out_status : SegarecompM68kExceptionStatus;
  out_context : C;
  out_cpu : Cpu;
  out_entry : option Z;
}.

Definition failed (status : SegarecompM68kExceptionStatus) (c : C) (cpu : Cpu) : Outcome :=
  mkOutcome status c cpu None.

(** [(sr & SR_SUPERVISOR) != 0], and the like. *)
Definition sr_bit (sr mask : Z) : bool := negb (sr .& mask =? 0).

(** [segarecomp_m68k_exception_enter] after the binding check. *)
Definition exception_enter (h : BoundHooks C) (c : C) (cpu : Cpu) (vector_number stacked_pc keep forced : Z) : Outcome :=
  let saved_sr := cpu_sr cpu in
  let was_supervisor := sr_bit saved_sr SR_SUPERVISOR in
  let ssp := if was_supervisor then cpu_active_sp cpu else cpu_inactive_sp cpu in
  if negb (ssp .& 1 =? 0) then failed EX_stack_invalid c cpu
  else
    let frame_base := u32 (ssp - EXCEPTION_FRAME_BYTES) in
    let '(c, ok) := validate h c frame_base EXCEPTION_FRAME_BYTES SD_write in
    if negb ok then failed EX_stack_invalid c cpu
    else
      let '(c, resolution, handler_entry) := vector h c vector_number in
      match resolution with
      | VR_not_installed | VR_unrepresentable => failed EX_vector_unavailable c cpu
      | VR_handler =>
          let c := write h c frame_base 2 saved_sr in
          let c := write h c (u32 (frame_base + 2)) 4 stacked_pc in
          let inactive := if was_supervisor then cpu_inactive_sp cpu else cpu_active_sp cpu in
          let sr := u16 (((saved_sr .& keep) .| forced) .& SR_IMPLEMENTED) in
          let c := notify_entry h c vector_number frame_base handler_entry in
          mkOutcome EX_ok c (mkCpu sr frame_base inactive handler_entry) (Some handler_entry)
      end.

(** The two reads of a return: the word and the long above it. *)
Definition read_frame (h : BoundHooks C) (c : C) (sp : Z) : C * result SegarecompM68kExceptionStatus (Z * Z) :=
  if negb (sp .& 1 =? 0) then (c, Err EX_stack_invalid)
  else
    let '(c, ok) := validate h c sp EXCEPTION_FRAME_BYTES SD_read in
    if negb ok then (c, Err EX_stack_invalid)
    else
      let '(c, word) := read h c sp 2 in
      match word with
      | None => (c, Err EX_access_failed)
      | Some word =>
          let '(c, pc) := read h c (u32 (sp + 2)) 4 in
          match pc with
          | None => (c, Err EX_access_failed)
          | Some pc => (c, Ok (word, pc))
          end
      end.

(** [segarecomp_m68k_exception_return] *)
Definition exception_return (h : BoundHooks C) (c : C) (cpu : Cpu) : Outcome :=
  let sp := cpu_active_sp cpu in
  let '(c, frame) := read_frame h c sp in
  match frame with
  | Err status => failed status c cpu
  | Ok (saved_sr, saved_pc) =>
      let restored_sr := u16 (saved_sr .& SR_IMPLEMENTED) in
      if sr_bit restored_sr SR_TRACE then failed EX_trace_deferred c cpu
      else
        let c := notify_return h c sp in
        let above := u32 (sp + EXCEPTION_FRAME_BYTES) in
        let cpu :=
          if sr_bit restored_sr SR_SUPERVISOR then mkCpu restored_sr above (cpu_inactive_sp cpu) saved_pc
          else mkCpu restored_sr (cpu_inactive_sp cpu) above saved_pc in
        mkOutcome EX_ok c cpu (Some saved_pc)
  end.

(** [segarecomp_m68k_return_restore_ccr] *)
Definition return_restore_ccr (h : BoundHooks C) (c : C) (cpu : Cpu) : Outcome :=
  let sp := cpu_active_sp cpu in
  let '(c, frame) := read_frame h c sp in
  match frame with
  | Err status => failed status c cpu
  | Ok (saved_ccr, saved_pc) =>
      let sr := u16 ((cpu_sr cpu .& 0xFF00) .| (saved_ccr .& 0x1F)) in
      mkOutcome EX_ok c (mkCpu sr (u32 (sp + EXCEPTION_FRAME_BYTES)) (cpu_inactive_sp cpu) saved_pc) (Some saved_pc)
  end.

(** The binding check every operation starts with. *)
Definition with_binding (hooks : option (SegarecompM68kMachineHooks C)) (c : C) (cpu : option SegarecompM68kCpuBinding)
    (f : BoundHooks C -> Cpu -> Outcome) :
    SegarecompM68kExceptionStatus * C * option SegarecompM68kCpuBinding * option Z :=
  match segarecomp_m68k_binding_valid hooks cpu with
  | None => (EX_bad_binding, c, cpu, None)
  | Some (h, state) =>
      let o := f h state in (out_status o, out_context o, Some (store_cpu (out_cpu o)), out_entry o)
  end.

Definition segarecomp_m68k_exception_enter hooks c cpu vector_number stacked_pc keep forced :=
  with_binding hooks c cpu (fun h state => exception_enter h c state vector_number stacked_pc keep forced).
Definition segarecomp_m68k_exception_return hooks c cpu :=
  with_binding hooks c cpu (fun h state => exception_return h c state).
Definition segarecomp_m68k_return_restore_ccr hooks c cpu :=
  with_binding hooks c cpu (fun h state => return_restore_ccr h c state).
End Core.

(** * Interrupts *)

Record SegarecompM68kInterruptState := mkInterrupts {
  sampled_level : Z;
  level7_edge_pending : bool;
  stopped : bool;
}.

Inductive SegarecompM68kInterruptAcknowledge : Type := IA_autovector | IA_supplied_vector | IA_spurious | IA_uninitialized.

Definition VECTOR_UNINITIALIZED_INTERRUPT : Z := 15.
Definition VECTOR_SPURIOUS_INTERRUPT : Z := 24.

(** [segarecomp_m68k_interrupt_sample] *)
Definition segarecomp_m68k_interrupt_sample (state : option SegarecompM68kInterruptState) (request_level : Z)
  : option SegarecompM68kInterruptState :=
  let level := request_level .& 7 in
  match state with
  | None => None
  | Some s =>
      let edge := if (level =? 7) && negb (sampled_level s =? 7) then true else level7_edge_pending s in
      Some (mkInterrupts level edge (stopped s))
  end.

(** [segarecomp_m68k_interrupt_recognized_level] *)
Definition segarecomp_m68k_interrupt_recognized_level (state : option SegarecompM68kInterruptState) (sr : Z) : Z :=
  let mask := (sr .& SR_INTERRUPT_MASK) .>> 8 in
  match state with
  | None => 0
  | Some s => if level7_edge_pending s then 7 else if mask <? sampled_level s then sampled_level s else 0
  end.

(** [segarecomp_m68k_interrupt_vector] *)
Definition segarecomp_m68k_interrupt_vector (acknowledge : SegarecompM68kInterruptAcknowledge)
    (level supplied_vector : Z) : Z :=
  if (level <? 1) || (7 <? level) then 0
  else
    match acknowledge with
    | IA_autovector => VECTOR_SPURIOUS_INTERRUPT + level
    | IA_supplied_vector => if (64 <=? supplied_vector) && (supplied_vector <=? 255) then supplied_vector else 0
    | IA_spurious => VECTOR_SPURIOUS_INTERRUPT
    | IA_uninitialized => VECTOR_UNINITIALIZED_INTERRUPT
    end.

(** [segarecomp_m68k_interrupt_enter]: the entry, and the interrupt record. *)
Definition segarecomp_m68k_interrupt_enter {C} (hooks : option (SegarecompM68kMachineHooks C)) (c : C)
    (cpu : option SegarecompM68kCpuBinding) (state : option SegarecompM68kInterruptState) (level vector_number stacked_pc : Z)
  : (SegarecompM68kExceptionStatus * C * option SegarecompM68kCpuBinding * option Z) * option SegarecompM68kInterruptState :=
  match state with
  | None => (EX_bad_binding, c, cpu, None, state)
  | Some s =>
      if (level <? 1) || (7 <? level) then (EX_bad_binding, c, cpu, None, state)
      else if vector_number =? 0 then (EX_vector_unavailable, c, cpu, None, state)
      else
        let '(status, c, cpu, entry) :=
          segarecomp_m68k_exception_enter hooks c cpu vector_number stacked_pc
            (0xFFFF .& u16 (Z.lnot (SR_TRACE .| SR_INTERRUPT_MASK))) (SR_SUPERVISOR .| u16 (level .<< 8)) in
        match status with
        | EX_ok =>
            let edge := if level =? 7 then false else level7_edge_pending s in
            (status, c, cpu, entry, Some (mkInterrupts (sampled_level s) edge false))
        | _ => (status, c, cpu, entry, state)
        end
  end.

(** [segarecomp_m68k_stop_wake_possible] *)
Definition segarecomp_m68k_stop_wake_possible (state : option SegarecompM68kInterruptState) (max_request_level sr : Z) : bool :=
  let mask := (sr .& SR_INTERRUPT_MASK) .>> 8 in
  let pending := match state with Some s => level7_edge_pending s | None => false end in
  if pending then true
  else
    let max_request_level := max_request_level .& 7 in
    (max_request_level =? 7) || (mask <? max_request_level).

(** * What the hooks promise *)

(** The two accesses the core makes to the frame at [base]. *)
Definition frame_part (base address size : Z) : Prop :=
  (address = base /\ size = 2) \/ (address = u32 (base + 2) /\ size = 4).

(** A machine behind the hooks.  Its stack memory is a set of storage cells that
    the 24-bit bus may reach through mirrors, [view] the byte an address shows.
    [granted] holds while a frame extent that [validate_stack_extent] accepted
    may be accessed in that direction.  Writes inside an extent accepted for
    writing are big-endian stores into its cells (the validate-then-commit
    contract); a read inside an extent accepted for reading returns what is
    there, or refuses; nothing is promised of any other access, and a refusal
    leaves the memory alone. *)
Class StackMachine {C} (h : BoundHooks C) := {
  view : C -> Z -> Z;
  cell : Z -> Z;
  granted : SegarecompM68kStackDirection -> C -> Z -> Prop;
  cell_bus a b : a mod 2 ^ 24 = b mod 2 ^ 24 -> cell a = cell b;
  view_cell c a b : cell a = cell b -> view c a = view c b;
  validate_view c base d a : view (validate h c base EXCEPTION_FRAME_BYTES d).1 a = view c a;
  validate_grants c base d : base .& 1 = 0 -> (validate h c base EXCEPTION_FRAME_BYTES d).2 = true ->
    granted d (validate h c base EXCEPTION_FRAME_BYTES d).1 base;
  granted_cells d c base i j : granted d c base -> 0 <= i < EXCEPTION_FRAME_BYTES -> 0 <= j < EXCEPTION_FRAME_BYTES ->
    cell (base + i) = cell (base + j) -> i = j;
  vector_view c n a : view (vector h c n).1.1 a = view c a;
  vector_grants c n base : granted SD_write c base -> granted SD_write (vector h c n).1.1 base;
  entry_view c n base entry a : view (notify_entry h c n base entry) a = view c a;
  return_view c base a : view (notify_return h c base) a = view c a;
  write_grants c base address size v : granted SD_write c base -> frame_part base address size ->
    granted SD_write (write h c address size v) base;
  write_cell c base address size v i : granted SD_write c base -> frame_part base address size -> 0 <= i < size ->
    view (write h c address size v) (address + i) = (v / 256 ^ (size - 1 - i)) mod 256;
  write_other c base address size v a : granted SD_write c base -> frame_part base address size ->
    (forall i, 0 <= i < size -> cell (address + i) <> cell a) -> view (write h c address size v) a = view c a;
  read_view c base address size a : granted SD_read c base -> frame_part base address size ->
    view (read h c address size).1 a = view c a;
  read_grants c base address size : granted SD_read c base -> frame_part base address size ->
    granted SD_read (read h c address size).1 base;
  read_value c base address size v : granted SD_read c base -> frame_part base address size ->
    (read h c address size).2 = Some v -> v = read_be (view c) address (Z.to_nat size);
}.

(** The status register as the MC68000 implements it, with trace off. *)
Definition status_ok (sr : Z) : Prop := sr .& SR_IMPLEMENTED = sr /\ sr_bit sr SR_TRACE = false.

Record cpu_ok (cpu : Cpu) : Prop := {
  ok_sr : status_ok (cpu_sr cpu);
  ok_active : is_u32 (cpu_active_sp cpu);
  ok_inactive : is_u32 (cpu_inactive_sp cpu);
}.

(** The addresses that show a byte of a frame. *)
Definition in_frame {C} (h : BoundHooks C) `{!StackMachine h} (base a : Z) : Prop :=
  exists i, 0 <= i < EXCEPTION_FRAME_BYTES /\ cell (base + i) = cell a.

(** Whether the frame at [base] can be read: the extent accepted, both reads answered. *)
Definition frame_readable {C} (h : BoundHooks C) (c : C) (base : Z) : bool :=
  let '(c, ok) := validate h c base EXCEPTION_FRAME_BYTES SD_read in
  if negb ok then false
  else
    let '(c, word) := read h c base 2 in
    match word with
    | None => false
    | Some _ => match (read h c (u32 (base + 2)) 4).2 with None => false | Some _ => true end
    end.

Lemma land_implemented x : is_u16 (x .& SR_IMPLEMENTED).
Proof.
  unfold is_u16, SR_IMPLEMENTED. rewrite Z.land_comm. split; [apply Z.land_nonneg; lia|].
  replace 0xA71F with (0xA71F .& (2 ^ 16 - 1)) by reflexivity.
  rewrite <- Z.land_assoc, (Z.land_comm _ x), land_ones_mod by lia.
  pose proof (Z.mod_pos_bound x (2 ^ 16)). pose proof (land_le 0xA71F (x mod 2 ^ 16)). lia.
Qed.

Lemma status_word sr : status_ok sr -> is_u16 sr.
Proof. intros [<- _]. apply land_implemented. Qed.

Lemma offset_mod base i : 0 <= i < 2 ^ 24 -> ((base + i) mod 2 ^ 24 - base) mod 2 ^ 24 = i.
Proof. intros Hi. rewrite Zminus_mod_idemp_l. replace (base + i - base) with i by lia. by apply Z.mod_small. Qed.

Section Transparent.
Context {C : Type} (h : BoundHooks C) `{!StackMachine h}.

Lemma part_word base : frame_part base base 2.
Proof using Type. by left. Qed.
Lemma part_long base : frame_part base (u32 (base + 2)) 4.
Proof using Type. by right. Qed.

Lemma u32_bus x : u32 x mod 2 ^ 24 = x mod 2 ^ 24.
Proof using Type. apply (mod_mod_pow x 24 32). lia. Qed.

Lemma cell_long base i : cell (u32 (base + 2) + i) = cell (base + (2 + i)).
Proof using Type. apply cell_bus. rewrite Zplus_mod, u32_bus, <- Zplus_mod. f_equal. lia. Qed.

(** Reading back a stored word or long. *)
Lemma read_written c base address size v : granted SD_write c base -> frame_part base address size ->
  read_be (view (write h c address size v)) address (Z.to_nat size) = v mod 256 ^ size.
Proof using Type.
  intros Hg Hp. assert (Hs : Z.of_nat (Z.to_nat size) = size) by (by destruct Hp as [[_ ->]|[_ ->]]).
  rewrite (read_be_digits _ _ _ v); rewrite Hs; [done|]. intros i Hi.
  rewrite <- (write_cell c base address size v i) by done. apply view_cell, cell_bus, Z.mod_mod. lia.
Qed.

(** * A frame *)

(** Both stores of an entry. *)
Definition store_frame (c : C) (base sr pc : Z) : C := write h (write h c base 2 sr) (u32 (base + 2)) 4 pc.

(** The word the first store wrote survives the second. *)
Lemma frame_word c base sr pc : granted SD_write c base -> is_u16 sr -> read_be (view (store_frame c base sr pc)) base 2 = sr.
Proof using Type.
  intros Hg Hsr. transitivity (read_be (view (write h c base 2 sr)) base 2).
  - apply read_be_ext. intros i Hi. unfold store_frame.
    assert (Hg' : granted SD_write (write h c base 2 sr) base) by (apply (write_grants c base); [done|apply part_word]).
    apply (write_other _ base _ _ _ _ Hg' (part_long base)). intros j Hj E. rewrite cell_long in E.
    rewrite (cell_bus ((base + i) mod 2 ^ 24) (base + i)) in E by (apply Z.mod_mod; lia).
    apply (granted_cells SD_write c base) in E; [lia|done|unfold EXCEPTION_FRAME_BYTES; lia..].
  - etransitivity; [exact (read_written c base base 2 sr Hg (part_word base))|]. by apply Z.mod_small.
Qed.

Lemma frame_long c base sr pc : granted SD_write c base -> is_u32 pc ->
  read_be (view (store_frame c base sr pc)) (u32 (base + 2)) 4 = pc.
Proof using Type.
  intros Hg Hpc. unfold store_frame. transitivity (pc mod 256 ^ 4); [|by apply Z.mod_small].
  apply (read_written _ base _ 4 pc); [apply (write_grants c base); [done|apply part_word]|apply part_long].
Qed.

Lemma frame_elsewhere c base sr pc a : granted SD_write c base -> ~ in_frame h base a ->
  view (store_frame c base sr pc) a = view c a.
Proof using Type.
  intros Hg Hf. unfold in_frame, EXCEPTION_FRAME_BYTES in Hf. unfold store_frame.
  rewrite (write_other _ base), (write_other _ base); try done; try apply part_word; try apply part_long.
  - intros i Hi E. apply Hf. exists i. split; [lia|done].
  - apply (write_grants c base); [done|apply part_word].
  - intros i Hi E. rewrite cell_long in E. apply Hf. exists (2 + i). split; [lia|done].
Qed.

(** The frame words of two machines that agree on the frame. *)
Lemma frame_agrees c c' base : (forall a, in_frame h base a -> view c' a = view c a) ->
  read_be (view c') base 2 = read_be (view c) base 2 /\
  read_be (view c') (u32 (base + 2)) 4 = read_be (view c) (u32 (base + 2)) 4.
Proof using Type.
  intros H. split; apply read_be_ext; intros i Hi; apply H; unfold in_frame, EXCEPTION_FRAME_BYTES.
  - exists i. split; [lia|]. symmetry. apply cell_bus, Z.mod_mod. lia.
  - exists (2 + i). split; [lia|]. rewrite <- cell_long. symmetry. apply cell_bus, Z.mod_mod. lia.
Qed.

(** * Entry and return *)

(** What a successful entry has done. *)
Lemma enter_effect c cpu n pc keep forced o :
  exception_enter h c cpu n pc keep forced = o -> out_status o = EX_ok ->
  exists base entry c',
    base = u32 ((if sr_bit (cpu_sr cpu) SR_SUPERVISOR then cpu_active_sp cpu else cpu_inactive_sp cpu) - 6) /\
    granted SD_write c' base /\ (forall a, view c' a = view c a) /\
    (forall a, view (out_context o) a = view (store_frame c' base (cpu_sr cpu) pc) a) /\
    base .& 1 = 0 /\
    out_cpu o = mkCpu (u16 (((cpu_sr cpu .& keep) .| forced) .& SR_IMPLEMENTED)) base
      (if sr_bit (cpu_sr cpu) SR_SUPERVISOR then cpu_inactive_sp cpu else cpu_active_sp cpu) entry.
Proof using Type.
  intros <-. unfold exception_enter. cbv zeta.
  set (ssp := if sr_bit (cpu_sr cpu) SR_SUPERVISOR then cpu_active_sp cpu else cpu_inactive_sp cpu).
  destruct (Z.eqb_spec (ssp .& 1) 0) as [Heven|]; cbn [negb]; [|intros H; discriminate H].
  assert (Hbase : u32 (ssp - EXCEPTION_FRAME_BYTES) .& 1 = 0).
  { unfold EXCEPTION_FRAME_BYTES. pose proof (land_ones_mod (u32 (ssp - 6)) 1 ltac:(lia)) as E. change (2 ^ 1 - 1) with 1 in E.
    pose proof (land_ones_mod ssp 1 ltac:(lia)) as E'. change (2 ^ 1 - 1) with 1 in E'. rewrite E. rewrite E' in Heven.
    unfold u32. change 4294967296 with (2 ^ 32). rewrite mod_mod_pow by lia. rewrite Z.pow_1_r in *.
    Z.to_euclidean_division_equations; lia. }
  pose proof (fun a => validate_view c (u32 (ssp - EXCEPTION_FRAME_BYTES)) SD_write a) as Hv.
  pose proof (validate_grants c _ SD_write Hbase) as Hg.
  destruct (validate h c (u32 (ssp - EXCEPTION_FRAME_BYTES)) EXCEPTION_FRAME_BYTES SD_write) as [c1 ok]. cbn [fst snd] in *.
  destruct ok; cbn [negb]; [|intros H; discriminate H]. specialize (Hg eq_refl).
  pose proof (fun a => vector_view c1 n a) as Ht. pose proof (vector_grants c1 n _ Hg) as Hg2.
  destruct (vector h c1 n) as [[c2 resolution] entry]. cbn [fst snd] in *.
  destruct resolution; try (intros H; discriminate H). intros _. cbn [out_context out_cpu].
  exists (u32 (ssp - EXCEPTION_FRAME_BYTES)), entry, c2. split_and!; try done.
  - intros a. by rewrite Ht, Hv.
  - intros a. by rewrite entry_view.
Qed.

(** A return through a frame that holds [sr] and [pc]. *)
Lemma return_effect c cpu base sr pc :
  cpu_active_sp cpu = base -> base .& 1 = 0 -> status_ok sr ->
  read_be (view c) base 2 = sr -> read_be (view c) (u32 (base + 2)) 4 = pc ->
  let o := exception_return h c cpu in
  (forall a, view (out_context o) a = view c a) /\
  if frame_readable h c base
  then out_status o = EX_ok /\ out_entry o = Some pc /\
    out_cpu o = (if sr_bit sr SR_SUPERVISOR then mkCpu sr (u32 (base + 6)) (cpu_inactive_sp cpu) pc
                 else mkCpu sr (cpu_inactive_sp cpu) (u32 (base + 6)) pc)
  else out_status o <> EX_ok /\ out_entry o = None /\ out_cpu o = cpu.
Proof using Type.
  intros Hsp Heven Hsr Hword Hlong. cbv zeta. unfold exception_return, read_frame, frame_readable.
  rewrite Hsp, Heven. cbn [Z.eqb negb].
  pose proof (fun a => validate_view c base SD_read a) as Hv. pose proof (validate_grants c base SD_read Heven) as Hg.
  destruct (validate h c base EXCEPTION_FRAME_BYTES SD_read) as [c1 ok]. cbn [fst snd] in *.
  destruct ok; cbn [negb]; [|by split_and!]. specialize (Hg eq_refl).
  pose proof (fun v => read_value c1 base base 2 v Hg (part_word base)) as Vw.
  pose proof (fun a => read_view c1 base base 2 a Hg (part_word base)) as Hv1.
  pose proof (read_grants c1 base base 2 Hg (part_word base)) as Hg1.
  destruct (read h c1 base 2) as [c2 [word|]]; cbn [fst snd] in *.
  2: { split_and!; try done. intros a. by rewrite Hv1, Hv. }
  pose proof (fun v => read_value c2 base _ 4 v Hg1 (part_long base)) as Vl.
  pose proof (fun a => read_view c2 base _ 4 a Hg1 (part_long base)) as Hv2.
  destruct (read h c2 (u32 (base + 2)) 4) as [c3 [long|]]; cbn [fst snd] in *.
  2: { split_and!; try done. intros a. by rewrite Hv2, Hv1, Hv. }
  assert (word = sr) as ->.
  { rewrite (Vw word eq_refl), <- Hword. apply read_be_ext. intros i _. apply Hv. }
  assert (long = pc) as ->.
  { rewrite (Vl long eq_refl), <- Hlong. apply read_be_ext. intros i _. by rewrite Hv1, Hv. }
  destruct Hsr as [Hi Ht] eqn:E. rewrite Hi, u16_id by (apply status_word; done). rewrite Ht.
  cbn [out_status out_context out_entry out_cpu]. split_and!; [|done..].
  intros a. by rewrite return_view, Hv2, Hv1, Hv.
Qed.

(** * Handlers *)

(** What a handler may do while the bytes [live] belong to pending frames: code
    that restores its stack pointers and does not touch those bytes, and further
    exceptions whose frames lie elsewhere. *)
Inductive handled : (Z -> Prop) -> C * Cpu -> C * Cpu -> Prop :=
| handled_done live s : handled live s s
| handled_code live c cpu c' sr pc s :
    (forall a, live a -> view c' a = view c a) -> status_ok sr ->
    handled live (c', mkCpu sr (cpu_active_sp cpu) (cpu_inactive_sp cpu) pc) s ->
    handled live (c, cpu) s
| handled_exception live c cpu n stacked keep forced o c2 cpu2 o' s :
    is_u32 stacked -> forced .& SR_TRACE = 0 ->
    exception_enter h c cpu n stacked keep forced = o -> out_status o = EX_ok ->
    (forall a, live a -> ~ in_frame h (cpu_active_sp (out_cpu o)) a) ->
    handled (fun a => live a \/ in_frame h (cpu_active_sp (out_cpu o)) a) (out_context o, out_cpu o) (c2, cpu2) ->
    exception_return h c2 cpu2 = o' -> out_status o' = EX_ok ->
    handled live (out_context o', out_cpu o') s ->
    handled live (c, cpu) s.

Lemma status_after_entry sr keep forced : status_ok sr -> forced .& SR_TRACE = 0 ->
  status_ok (u16 (((sr .& keep) .| forced) .& SR_IMPLEMENTED)).
Proof using Type.
  intros Hsr Hf. pose proof (status_word sr Hsr) as Hw. destruct Hsr as [_ Ht].
  assert (E : u16 (((sr .& keep) .| forced) .& SR_IMPLEMENTED) = ((sr .& keep) .| forced) .& SR_IMPLEMENTED).
  { apply u16_id, land_implemented. }
  rewrite E. split; [by rewrite <- Z.land_assoc, Z.land_diag|]. unfold sr_bit in *. apply negb_false_iff, Z.eqb_eq.
  apply negb_false_iff, Z.eqb_eq in Ht. rewrite <- Z.land_assoc. change (SR_IMPLEMENTED .& SR_TRACE) with SR_TRACE.
  rewrite Z.land_lor_distr_l, Hf, Z.lor_0_r, <- Z.land_assoc, (Z.land_comm keep), Z.land_assoc, Ht. apply Z.land_0_l.
Qed.

(** The state after a return from a frame that is still there. *)
Lemma enter_return c cpu n stacked keep forced o c2 cpu2 :
  cpu_ok cpu -> is_u32 stacked -> exception_enter h c cpu n stacked keep forced = o -> out_status o = EX_ok ->
  (forall a, in_frame h (cpu_active_sp (out_cpu o)) a -> view c2 a = view (out_context o) a) ->
  cpu_active_sp cpu2 = cpu_active_sp (out_cpu o) -> cpu_inactive_sp cpu2 = cpu_inactive_sp (out_cpu o) ->
  let r := exception_return h c2 cpu2 in
  (forall a, view (out_context r) a = view c2 a) /\
  if frame_readable h c2 (cpu_active_sp (out_cpu o))
  then out_status r = EX_ok /\ out_entry r = Some stacked /\
    out_cpu r = mkCpu (cpu_sr cpu) (cpu_active_sp cpu) (cpu_inactive_sp cpu) stacked
  else out_status r <> EX_ok /\ out_entry r = None /\ out_cpu r = cpu2.
Proof using Type.
  intros [Hsr Ha Hi] Hst Ho Hok Hframe Hasp Hisp.
  destruct (enter_effect c cpu n stacked keep forced o Ho Hok) as (base & entry & c' & Eb & Hg & _ & Hview & Heven & Ecpu).
  rewrite Ecpu in Hframe, Hasp, Hisp |- *. cbn [cpu_active_sp cpu_inactive_sp] in Hframe, Hasp, Hisp |- *.
  destruct (frame_agrees (store_frame c' base (cpu_sr cpu) stacked) c2 base) as [Fw Fl].
  { intros a Hin. by rewrite Hframe, Hview. }
  rewrite frame_word in Fw by (done || by apply status_word). rewrite frame_long in Fl by done.
  pose proof (return_effect c2 cpu2 base (cpu_sr cpu) stacked Hasp Heven Hsr Fw Fl) as Hr.
  assert (Eabove : u32 (base + 6) = if sr_bit (cpu_sr cpu) SR_SUPERVISOR then cpu_active_sp cpu else cpu_inactive_sp cpu).
  { rewrite Eb. unfold u32. rewrite Zplus_mod_idemp_l, Z.sub_add.
    destruct (sr_bit (cpu_sr cpu) SR_SUPERVISOR); by apply Z.mod_small. }
  rewrite Eabove, Hisp in Hr. by destruct (sr_bit (cpu_sr cpu) SR_SUPERVISOR).
Qed.

Lemma entered_ok c cpu n stacked keep forced o : cpu_ok cpu -> forced .& SR_TRACE = 0 ->
  exception_enter h c cpu n stacked keep forced = o -> out_status o = EX_ok -> cpu_ok (out_cpu o).
Proof using StackMachine0.
  intros [Hsr Ha Hi] Hf Ho Hok.
  destruct (enter_effect c cpu n stacked keep forced o Ho Hok) as (base & entry & c' & Eb & _ & _ & _ & _ & Ecpu).
  rewrite Ecpu. split; cbn [cpu_sr cpu_active_sp cpu_inactive_sp].
  - by apply status_after_entry.
  - rewrite Eb. apply u32_range.
  - by destruct (sr_bit (cpu_sr cpu) SR_SUPERVISOR).
Qed.

(** An entry writes its frame and nothing else. *)
Lemma enter_elsewhere c cpu n stacked keep forced o :
  exception_enter h c cpu n stacked keep forced = o -> out_status o = EX_ok ->
  forall a, ~ in_frame h (cpu_active_sp (out_cpu o)) a -> view (out_context o) a = view c a.
Proof using Type.
  intros Ho Hok a Ha.
  destruct (enter_effect c cpu n stacked keep forced o Ho Hok) as (base & entry & c' & _ & Hg & Hc' & Hview & _ & Ecpu).
  rewrite Ecpu in Ha. by rewrite Hview, frame_elsewhere, Hc'.
Qed.

(** A handler keeps the stack pointers and the bytes of the pending frames. *)
Lemma handled_keeps live s s' : handled live s s' -> cpu_ok s.2 ->
  cpu_ok s'.2 /\ cpu_active_sp s'.2 = cpu_active_sp s.2 /\ cpu_inactive_sp s'.2 = cpu_inactive_sp s.2 /\
  forall a, live a -> view s'.1 a = view s.1 a.
Proof using Type.
  induction 1 as [live s|live c cpu c' sr pc s Hv Hsr _ IH|live c cpu n stacked keep forced o c2 cpu2 o' s
    Hst Hf Ho Hok Hdis _ IHbody Ho' Hok' _ IHrest]; intros Hcpu; cbn [fst snd] in *; [done| |].
  - destruct Hcpu as [_ Ha Hi]. destruct IH as (Hcpu' & Ea & Ei & Hb); [by split|]. cbn [cpu_active_sp cpu_inactive_sp] in *.
    split_and!; [done..|]. intros a Hl. by rewrite Hb, Hv.
  - destruct IHbody as (_ & Ea & Ei & Hb); [by apply (entered_ok c cpu n stacked keep forced)|].
    destruct (enter_return c cpu n stacked keep forced o c2 cpu2) as [Hc3 Er]; try done.
    { intros a Hin. apply Hb. by right. }
    rewrite Ho' in Hc3, Er. destruct (frame_readable _ _ _); [|by destruct Er]. destruct Er as (_ & _ & Er).
    rewrite Er in IHrest. destruct IHrest as (Hcpu' & Ea' & Ei' & Hb'); [by destruct Hcpu|]. cbn [cpu_active_sp cpu_inactive_sp] in *.
    split_and!; [done..|]. intros a Hl. rewrite Hb', Hc3, Hb by auto. apply (enter_elsewhere c cpu n stacked keep forced); auto.
Qed.
End Transparent.

(** C7. Exceptions are transparent.  On any machine that honours the
    validate-then-commit contract, an exception entered from a status register with
    only implemented bits and trace off writes its frame and no other byte.  When it is
    handled by code that leaves the frame and the stack pointers alone, with any
    completed exceptions nested inside it to any depth, the return changes no memory:
    if the machine lets the frame be read, it resumes at the stacked PC with the
    status register and both stack pointers exactly as they were, in supervisor and in
    user mode, and if it refuses, the return fails with nothing committed. *)
Theorem exception_transparent {C : Type} (h : BoundHooks C) (Hh : StackMachine h) (c c2 : C) (cpu cpu2 : Cpu)
    (n stacked keep forced : Z) (o : Outcome (C := C))
    (Hcpu : cpu_ok cpu) (Hstacked : is_u32 stacked) (Hforced : forced .& SR_TRACE = 0)
    (Henter : exception_enter h c cpu n stacked keep forced = o) (Hok : out_status o = EX_ok)
    (Hhandler : handled h (in_frame h (cpu_active_sp (out_cpu o))) (out_context o, out_cpu o) (c2, cpu2)) :
  let resumed := exception_return h c2 cpu2 in
  (forall a, ~ in_frame h (cpu_active_sp (out_cpu o)) a -> view (out_context o) a = view c a) /\
  (forall a, view (out_context resumed) a = view c2 a) /\
  if frame_readable h c2 (cpu_active_sp (out_cpu o))
  then out_status resumed = EX_ok /\ out_entry resumed = Some stacked /\
    out_cpu resumed = mkCpu (cpu_sr cpu) (cpu_active_sp cpu) (cpu_inactive_sp cpu) stacked
  else out_status resumed <> EX_ok /\ out_entry resumed = None /\ out_cpu resumed = cpu2.
Proof.
  intros resumed. split; [by apply (enter_elsewhere h c cpu n stacked keep forced)|].
  destruct (handled_keeps h _ _ _ Hhandler) as (_ & Ea & Ei & Hb).
  { by apply (entered_ok h c cpu n stacked keep forced). }
  by apply (enter_return h c cpu n stacked keep forced).
Qed.

(** * Failures *)

Section Failures.
Context {C : Type} (h : BoundHooks C) `{!StackMachine h}.

(** A failed outcome has no entry, the CPU it started from and the same bus. *)
Definition harmless (c : C) (cpu : Cpu) (o : Outcome) : Prop :=
  out_status o <> EX_ok -> out_cpu o = cpu /\ out_entry o = None /\ forall a, view (out_context o) a = view c a.

Lemma enter_harmless c cpu n pc keep forced : harmless c cpu (exception_enter h c cpu n pc keep forced).
Proof using Type.
  unfold exception_enter. cbv zeta. destruct (negb _); [done|].
  match goal with |- context [validate h c ?b EXCEPTION_FRAME_BYTES ?d] => pose proof (fun a => validate_view c b d a) as Hv;
    destruct (validate h c b EXCEPTION_FRAME_BYTES d) as [c1 ok] end. cbn [fst] in Hv.
  destruct (negb ok); [intros _; by split_and!|].
  pose proof (fun a => vector_view c1 n a) as Ht. destruct (vector h c1 n) as [[c2 resolution] entry]. cbn [fst] in Ht.
  destruct resolution; [by intros Hn; destruct Hn| |]; intros _; (split_and!; [done..|]); intros a;
    cbn [out_context failed]; by rewrite Ht, Hv.
Qed.

Lemma read_frame_view c sp a : view (read_frame h c sp).1 a = view c a.
Proof using Type.
  unfold read_frame. destruct (Z.eqb_spec (sp .& 1) 0) as [Heven|]; cbn [negb]; [|done].
  pose proof (validate_view c sp SD_read a) as Hv. pose proof (validate_grants c sp SD_read Heven) as Hg.
  destruct (validate h c sp EXCEPTION_FRAME_BYTES SD_read) as [c1 ok]. cbn [fst snd] in *.
  destruct ok; cbn [negb]; [|exact Hv]. specialize (Hg eq_refl).
  pose proof (read_view c1 sp sp 2 a Hg (part_word sp)) as Hw. pose proof (read_grants c1 sp sp 2 Hg (part_word sp)) as Hg1.
  destruct (read h c1 sp 2) as [c2 [word|]]; cbn [fst] in *; [|by rewrite Hw].
  pose proof (read_view c2 sp _ 4 a Hg1 (part_long sp)) as Hl.
  destruct (read h c2 (u32 (sp + 2)) 4) as [c3 [long|]]; cbn [fst] in *; by rewrite Hl, Hw.
Qed.

Lemma return_harmless c cpu : harmless c cpu (exception_return h c cpu).
Proof using Type.
  unfold exception_return. pose proof (read_frame_view c (cpu_active_sp cpu)) as Hv.
  destruct (read_frame h c (cpu_active_sp cpu)) as [c1 [[sr pc]|e]]; cbn [fst] in Hv.
  - cbv zeta. destruct (sr_bit _ SR_TRACE); [by intros _|by intros Hn; destruct Hn].
  - intros _. by split_and!.
Qed.

Lemma rtr_harmless c cpu : harmless c cpu (return_restore_ccr h c cpu).
Proof using Type.
  unfold return_restore_ccr. pose proof (read_frame_view c (cpu_active_sp cpu)) as Hv.
  destruct (read_frame h c (cpu_active_sp cpu)) as [c1 [[sr pc]|e]]; cbn [fst] in Hv; [by intros Hn; destruct Hn|].
  intros _. by split_and!.
Qed.

(** The same of a call through the pointers. *)
Definition unchanged (c : C) (cpu : option SegarecompM68kCpuBinding)
    (r : SegarecompM68kExceptionStatus * C * option SegarecompM68kCpuBinding * option Z) : Prop :=
  let '(status, c', cpu', entry) := r in
  status <> EX_ok -> cpu' = cpu /\ entry = None /\ forall a, view c' a = view c a.

Lemma store_bound cpu state : bound_cpu cpu = Some state -> store_cpu state = cpu.
Proof using Type. unfold bound_cpu. destruct cpu as [[] [] [] []]; intros H; try discriminate H. by injection H as <-. Qed.

Lemma binding_unchanged hooks c cpu f : bound_hooks hooks = Some h -> (forall state, harmless c state (f h state)) ->
  unchanged c cpu (with_binding (Some hooks) c cpu f).
Proof using Type.
  intros Hb Hf. unfold with_binding, segarecomp_m68k_binding_valid. cbn [mbind option_bind]. rewrite Hb.
  destruct cpu as [b|]; cbn [mbind option_bind]; [|done]. destruct (bound_cpu b) as [state|] eqn:Es; cbn; [|done].
  intros Hs. destruct (Hf state Hs) as (Hc & He & Hv). by rewrite Hc, (store_bound b state Es).
Qed.
End Failures.

(** A failure commits nothing.  Whatever the hooks answer, an entry, an RTE, an
    RTR or an interrupt that does not report success leaves every CPU field, every
    byte of the bus and the interrupt record as they were and delivers no entry or
    PC: an unset binding, an odd stack pointer, a refused extent, a missing
    handler, a refused read, a trace bit in the frame, a level outside 1 to 7 and
    a vector that was refused. *)
Theorem exception_failure_atomic {C : Type} (h : BoundHooks C) (Hh : StackMachine h)
    (hooks : SegarecompM68kMachineHooks C) (Hbound : bound_hooks hooks = Some h) (c : C)
    (cpu : option SegarecompM68kCpuBinding) :
  (forall n pc keep forced,
     unchanged h c cpu (segarecomp_m68k_exception_enter (Some hooks) c cpu n pc keep forced)) /\
  unchanged h c cpu (segarecomp_m68k_exception_return (Some hooks) c cpu) /\
  unchanged h c cpu (segarecomp_m68k_return_restore_ccr (Some hooks) c cpu) /\
  forall state level n pc,
    let '(r, state') := segarecomp_m68k_interrupt_enter (Some hooks) c cpu state level n pc in
    unchanged h c cpu r /\ (r.1.1.1 <> EX_ok -> state' = state).
Proof.
  assert (Hin : forall n pc keep forced,
    unchanged h c cpu (segarecomp_m68k_exception_enter (Some hooks) c cpu n pc keep forced)).
  { intros. apply binding_unchanged; [done|]. intros. by apply enter_harmless. }
  split_and!; [done|apply binding_unchanged; [done|intros; by apply return_harmless]| |].
  - apply binding_unchanged; [done|]. intros. by apply rtr_harmless.
  - intros state level n pc. unfold segarecomp_m68k_interrupt_enter. destruct state as [s|]; [|done].
    destruct (_ || _); [done|]. destruct (n =? 0); [done|].
    match goal with |- context [segarecomp_m68k_exception_enter ?hk ?c ?u ?n ?p ?k ?f] =>
      pose proof (Hin n p k f) as H; destruct (segarecomp_m68k_exception_enter hk c u n p k f) as [[[status c1] cpu1] entry] end.
    destruct status; (split; [exact H|]); intros Hs; [by destruct Hs|done..].
Qed.

(** * Interrupt recognition *)

Definition samples (s : SegarecompM68kInterruptState) (levels : list Z) : option SegarecompM68kInterruptState :=
  fold_left segarecomp_m68k_interrupt_sample levels (Some s).

Definition status_mask (sr : Z) : Z := (sr .& SR_INTERRUPT_MASK) .>> 8.

Lemma land_level x : x .& 7 = x mod 8.
Proof. apply (land_ones_mod x 3). lia. Qed.

Lemma status_mask_range sr : 0 <= status_mask sr <= 7.
Proof.
  unfold status_mask, SR_INTERRUPT_MASK. rewrite Z.shiftr_land. change (0x700 .>> 8) with 7. rewrite land_level.
  pose proof (Z.mod_pos_bound (sr .>> 8) 8). lia.
Qed.

(** Without level 7 no transition is ever latched. *)
Lemma samples_below s levels : Forall (fun l => 0 <= l < 7) levels ->
  exists s', samples s levels = Some s' /\ level7_edge_pending s' = level7_edge_pending s /\
    (levels <> [] -> exists l, l ∈ levels /\ sampled_level s' = l).
Proof.
  unfold samples. revert s. induction levels as [|l levels IH]; intros s Hl; [by exists s|].
  apply Forall_cons in Hl as [Hl Hrest]. cbn [fold_left segarecomp_m68k_interrupt_sample]. rewrite land_level, (Z.mod_small l) by lia.
  destruct (Z.eqb_spec l 7) as [|_]; [lia|]. cbn [andb].
  destruct (IH (mkInterrupts l (level7_edge_pending s) (stopped s)) Hrest) as (s' & E & Ee & Es).
  exists s'. split; [exact E|]. split; [exact Ee|]. intros _.
  destruct levels as [|l' levels']; [exists l; split; [by left|]; cbn in E; by injection E as <-|].
  destruct (Es ltac:(done)) as (x & Hx & Ex). exists x. split; [by right|done].
Qed.

(** A latched transition stays latched. *)
Lemma samples_pending s levels : level7_edge_pending s = true ->
  exists s', samples s levels = Some s' /\ level7_edge_pending s' = true.
Proof.
  unfold samples. revert s. induction levels as [|l levels IH]; intros s Hs; [by exists s|].
  cbn [fold_left segarecomp_m68k_interrupt_sample]. apply IH. cbn. rewrite Hs. by destruct (_ && _).
Qed.

(** C37. A stopped CPU is woken exactly when it can be.  For every interrupt record,
    status register and highest level the machine can still raise,
    [segarecomp_m68k_stop_wake_possible] holds if and only if some sequence of
    samples of levels up to that one ends in a recognized interrupt: level 7 can
    always be recognized through a transition, even at mask 7, lower levels only
    above the mask, and a latched transition is never lost. *)
Theorem stop_wake_exact (s : SegarecompM68kInterruptState) (highest sr : Z) (Hhighest : 0 <= highest <= 7) :
  segarecomp_m68k_stop_wake_possible (Some s) highest sr = true <->
  exists levels, levels <> [] /\ Forall (fun l => 0 <= l <= highest) levels /\
    segarecomp_m68k_interrupt_recognized_level (samples s levels) sr <> 0.
Proof.
  unfold segarecomp_m68k_stop_wake_possible. fold (status_mask sr). pose proof (status_mask_range sr) as Hm.
  rewrite land_level, Z.mod_small by lia. destruct (level7_edge_pending s) eqn:Ep.
  - split; [intros _|done]. exists [0]. split; [done|]. split; [repeat constructor; lia|].
    destruct (samples_pending s [0] Ep) as (s' & -> & Es). cbn. by rewrite Es.
  - cbv zeta. rewrite orb_true_iff, Z.eqb_eq, Z.ltb_lt. split.
    + intros [->|Hlt].
      * exists [0; 7]. split; [done|]. split; [repeat constructor; lia|]. cbn. done.
      * exists [highest]. split; [done|]. split; [repeat constructor; lia|]. cbn. rewrite land_level, Z.mod_small, Ep by lia.
        fold (status_mask sr). destruct (_ && _); [done|]. rewrite (proj2 (Z.ltb_lt _ _) Hlt). lia.
    + intros (levels & Hne & Hl & Hr). destruct (decide (highest = 7)) as [|Hh]; [by left|right].
      destruct (samples_below s levels) as (s' & E & Ee & Es).
      { eapply Forall_impl; [exact Hl|]. cbn. lia. }
      rewrite E in Hr. unfold segarecomp_m68k_interrupt_recognized_level in Hr. fold (status_mask sr) in Hr.
      rewrite Ee, Ep in Hr. destruct (Z.ltb_spec (status_mask sr) (sampled_level s')); [|done].
      destruct (Es Hne) as (l & Hin & El). rewrite Forall_forall in Hl. specialize (Hl l Hin). lia.
Qed.

Lemma stop_wake_exact_witness :
  exists levels, levels <> [] /\ Forall (fun l => 0 <= l <= 7) levels /\
    segarecomp_m68k_interrupt_recognized_level (samples (mkInterrupts 7 false true) levels) 0x2700 <> 0.
Proof. apply (stop_wake_exact (mkInterrupts 7 false true) 7 0x2700); [lia|vm_compute; reflexivity]. Defined.

(** The status register of an accepted interrupt. *)
Definition interrupt_status (sr level : Z) : Z :=
  u16 (((sr .& (0xFFFF .& u16 (Z.lnot (SR_TRACE .| SR_INTERRUPT_MASK)))) .| (SR_SUPERVISOR .| u16 (level .<< 8))) .&
       SR_IMPLEMENTED).

Lemma interrupt_status_fields sr level : 1 <= level <= 7 ->
  let sr' := interrupt_status sr level in
  status_mask sr' = level /\ sr_bit sr' SR_SUPERVISOR = true /\ sr_bit sr' SR_TRACE = false /\ sr' .& 0x1F = sr .& 0x1F.
Proof.
  intros Hl. cbv zeta. unfold interrupt_status. rewrite u16_id by apply land_implemented.
  change (0xFFFF .& u16 (Z.lnot (SR_TRACE .| SR_INTERRUPT_MASK))) with 0x78FF. unfold status_mask, sr_bit.
  (* each field is a constant, or a field of [sr], beside a constant *)
  assert (F : forall m, (((sr .& 0x78FF) .| (SR_SUPERVISOR .| u16 (level .<< 8))) .& SR_IMPLEMENTED) .& m =
    (sr .& (0x78FF .& (SR_IMPLEMENTED .& m))) .| ((SR_SUPERVISOR .| u16 (level .<< 8)) .& (SR_IMPLEMENTED .& m))).
  { intros m. by rewrite <- (Z.land_assoc _ SR_IMPLEMENTED), Z.land_lor_distr_l, <- (Z.land_assoc sr). }
  assert (level = 1 \/ level = 2 \/ level = 3 \/ level = 4 \/ level = 5 \/ level = 6 \/ level = 7) as Hc by lia.
  split_and!.
  - rewrite F. change (0x78FF .& (SR_IMPLEMENTED .& SR_INTERRUPT_MASK)) with 0. rewrite Z.land_0_r, Z.lor_0_l.
    by repeat destruct Hc as [-> | Hc]; [..|subst level].
  - rewrite F. apply negb_true_iff, Z.eqb_neq. intros E. apply Z.lor_eq_0_iff in E as [_ E].
    by repeat destruct Hc as [-> | Hc]; [..|subst level].
  - rewrite F. change (0x78FF .& (SR_IMPLEMENTED .& SR_TRACE)) with 0. rewrite Z.land_0_r, Z.lor_0_l.
    by repeat destruct Hc as [-> | Hc]; [..|subst level].
  - rewrite F. change (0x78FF .& (SR_IMPLEMENTED .& 0x1F)) with 0x1F.
    replace ((SR_SUPERVISOR .| u16 (level .<< 8)) .& (SR_IMPLEMENTED .& 0x1F)) with 0; [by rewrite Z.lor_0_r|].
    by repeat destruct Hc as [-> | Hc]; [..|subst level].
Qed.

(** C38. An interrupt is taken once.  When the recognized level is accepted, the new
    status register masks exactly that level, is in supervisor mode with trace off
    and keeps the condition codes, and the CPU no longer stops.  At the next sample
    the same request is not recognized again: only a higher level is, or a level 7
    that was not asserted before, and once. *)
Theorem interrupt_taken_once {C : Type} (hooks : option (SegarecompM68kMachineHooks C)) (c c' : C)
    (cpu cpu' : option SegarecompM68kCpuBinding) (s : SegarecompM68kInterruptState)
    (state' : option SegarecompM68kInterruptState) (h : BoundHooks C) (before : Cpu) (number stacked : Z) (entry : option Z)
    (level request : Z)
    (Hbound : segarecomp_m68k_binding_valid hooks cpu = Some (h, before))
    (Hlevel : segarecomp_m68k_interrupt_recognized_level (Some s) (cpu_sr before) = level)
    (Htaken : segarecomp_m68k_interrupt_enter hooks c cpu (Some s) level number stacked =
                ((EX_ok, c', cpu', entry), state')) :
  exists after, cpu' = Some (store_cpu after) /\
    status_mask (cpu_sr after) = level /\ sr_bit (cpu_sr after) SR_SUPERVISOR = true /\
    sr_bit (cpu_sr after) SR_TRACE = false /\ cpu_sr after .& 0x1F = cpu_sr before .& 0x1F /\
    state' = Some (mkInterrupts (sampled_level s) false false) /\
    segarecomp_m68k_interrupt_recognized_level (segarecomp_m68k_interrupt_sample state' request) (cpu_sr after) =
      if (request mod 8 =? 7) && negb (sampled_level s =? 7) then 7
      else if level <? request mod 8 then request mod 8 else 0.
Proof.
  unfold segarecomp_m68k_interrupt_enter in Htaken.
  destruct ((level <? 1) || (7 <? level)) eqn:El; [discriminate Htaken|]. apply orb_false_iff in El as [E1 E7].
  apply Z.ltb_ge in E1, E7. destruct (number =? 0); [discriminate Htaken|].
  unfold segarecomp_m68k_exception_enter, with_binding in Htaken. rewrite Hbound in Htaken.
  set (o := exception_enter h c before number stacked _ _) in Htaken.
  assert (Hsr : out_status o = EX_ok -> cpu_sr (out_cpu o) = interrupt_status (cpu_sr before) level).
  { unfold o, exception_enter. cbv zeta. destruct (negb _); [intros H; discriminate H|].
    destruct (validate _ _ _ _ _) as [c1 ok]. destruct (negb ok); [intros H; discriminate H|].
    destruct (vector _ _ _) as [[c2 []] e]; intros H; try discriminate H. reflexivity. }
  clearbody o. cbn [out_status] in Htaken. destruct (out_status o) eqn:Es; try discriminate Htaken.
  specialize (Hsr eq_refl). injection Htaken as _ Hcpu _ Hstate. exists (out_cpu o). split; [by rewrite Hcpu|].
  destruct (interrupt_status_fields (cpu_sr before) level) as (Hm & Hs & Ht & Hf); [lia|]. rewrite Hsr.
  assert (Hedge : state' = Some (mkInterrupts (sampled_level s) false false)).
  { rewrite <- Hstate. unfold segarecomp_m68k_interrupt_recognized_level in Hlevel.
    destruct (Z.eqb_spec level 7) as [|Hne]; [done|]. destruct (level7_edge_pending s); [lia|done]. }
  split_and!; try done. rewrite Hedge. cbn. fold (status_mask (interrupt_status (cpu_sr before) level)). rewrite Hm, land_level.
  by destruct (_ && _).
Qed.

(** * A machine with memory *)

(** 64 KiB of work RAM at the top of the bus, as [genesis_m68k_validate_stack_extent]
    accepts frames: an even base and the whole extent inside. *)
Definition ram_accepts (base length : Z) : bool :=
  let physical := base mod 2 ^ 24 in
  (base .& 1 =? 0) && (0xFF0000 <=? physical) && (physical + length <=? 2 ^ 24).

Definition ram_write (c : Z -> Z) (address size v : Z) : Z -> Z := fun a =>
  let offset := (a - address) mod 2 ^ 24 in
  if offset <? size then (v / 256 ^ (size - 1 - offset)) mod 256 else c a.

Definition ram_read (c : Z -> Z) (address size : Z) : (Z -> Z) * option Z := (c, Some (read_be c address (Z.to_nat size))).

Definition ram_bound : BoundHooks (Z -> Z) :=
  mkBound (fun c base length _ => (c, ram_accepts base length)) ram_read ram_write
    (fun c n => (c, VR_handler, 0x4000 + 0x100 * n)) (fun c _ _ _ => c) (fun c _ => c).

Definition ram_hooks : SegarecompM68kMachineHooks (Z -> Z) :=
  mkHooks (Some (validate ram_bound)) (Some ram_read) (Some ram_write) (Some (vector ram_bound)) None None.

#[export] Instance ram_machine : StackMachine ram_bound.
Proof.
  refine (Build_StackMachine _ ram_bound (fun c a => c (a mod 2 ^ 24)) (fun a => a mod 2 ^ 24) (fun _ _ _ => True)
    _ _ _ _ _ _ _ _ _ _ _ _ _ _ _); try done.
  - intros c a b E. by rewrite E.
  - intros _ c base i j _ Hi Hj E. unfold EXCEPTION_FRAME_BYTES in *. change (2 ^ 24) with 16777216 in *.
    Z.to_euclidean_division_equations; lia.
  - intros c base address size v i _ Hp Hi. cbn [write ram_bound]. unfold ram_write. cbv zeta.
    assert (size <= 4) by (by destruct Hp as [[_ ->]|[_ ->]]). rewrite offset_mod by lia. by rewrite (proj2 (Z.ltb_lt i size)) by lia.
  - intros c base address size v a _ Hp H. cbn [write ram_bound]. unfold ram_write. cbv zeta.
    destruct (Z.ltb_spec ((a mod 2 ^ 24 - address) mod 2 ^ 24) size) as [Hlt|]; [|done].
    edestruct (H ((a mod 2 ^ 24 - address) mod 2 ^ 24)); [split; [by apply Z.mod_pos_bound|done]|].
    rewrite Zplus_mod_idemp_r. rewrite Z.add_sub_assoc, (Z.add_comm address), Z.add_simpl_r. apply Z.mod_mod. lia.
  - intros c base address size v _ _ E. cbn in E. injection E as <-. apply read_be_ext. intros i _. by rewrite Z.mod_mod by lia.
Defined.

(** TRAP #0 in user mode, its handler interrupted at level 4, both returned from. *)
Definition user_cpu : Cpu := mkCpu 0x0015 0x00FF8000 0x00FF7000 0x1000.
Definition zero_ram : Z -> Z := fun _ => 0.

Lemma user_cpu_ok : cpu_ok user_cpu.
Proof. split; [split; vm_compute; reflexivity|vm_compute; split; [discriminate|reflexivity]..]. Qed.

Lemma exception_transparent_witness :
  let trap := exception_enter ram_bound zero_ram user_cpu 32 0x1002 0x7FFF 0x2000 in
  let interrupt := exception_enter ram_bound (out_context trap) (out_cpu trap) 28 0x6004 0x78FF 0x2400 in
  let resumed := exception_return ram_bound (out_context interrupt) (out_cpu interrupt) in
  let final := exception_return ram_bound (out_context resumed) (out_cpu resumed) in
  out_status final = EX_ok /\ out_entry final = Some 0x1002 /\
  out_cpu final = mkCpu 0x0015 0x00FF8000 0x00FF7000 0x1002.
Proof.
  intros trap interrupt resumed final.
  assert (Hs : is_u32 0x1002) by (unfold is_u32; lia). assert (Hs' : is_u32 0x6004) by (unfold is_u32; lia).
  assert (Hbase : cpu_active_sp (out_cpu interrupt) = 0x00FF6FF4) by (vm_compute; reflexivity).
  assert (Hbase' : cpu_active_sp (out_cpu trap) = 0x00FF6FFA) by (vm_compute; reflexivity).
  assert (Hdis : forall a, in_frame ram_bound (cpu_active_sp (out_cpu trap)) a ->
    ~ in_frame ram_bound (cpu_active_sp (out_cpu interrupt)) a).
  { intros a. rewrite Hbase, Hbase'. unfold in_frame, EXCEPTION_FRAME_BYTES. cbn [cell ram_machine].
    change (2 ^ 24) with 16777216. intros (i & Hi & Ei) (j & Hj & Ej). Z.to_euclidean_division_equations; lia. }
  assert (Hbody : handled ram_bound (in_frame ram_bound (cpu_active_sp (out_cpu trap))) (out_context trap, out_cpu trap)
    (out_context resumed, out_cpu resumed)).
  { refine (handled_exception ram_bound _ _ _ 28 0x6004 0x78FF 0x2400 interrupt _ _ resumed _ Hs' eq_refl eq_refl _ Hdis
      (handled_done _ _ _) eq_refl _ (handled_done _ _ _)); vm_compute; reflexivity. }
  destruct (exception_transparent ram_bound ram_machine zero_ram (out_context resumed) user_cpu (out_cpu resumed) 32 0x1002
    0x7FFF 0x2000 trap user_cpu_ok Hs eq_refl eq_refl ltac:(vm_compute; reflexivity) Hbody) as (_ & _ & H).
  replace (frame_readable ram_bound (out_context resumed) (cpu_active_sp (out_cpu trap))) with true in H
    by (vm_compute; reflexivity).
  exact H.
Defined.

(** An odd supervisor stack pointer. *)
Lemma exception_failure_atomic_witness :
  let cpu := Some (store_cpu (mkCpu 0x2000 0x00FF0001 0 0x1000)) in
  let r := segarecomp_m68k_exception_enter (Some ram_hooks) zero_ram cpu 32 0x1002 0x7FFF 0x2000 in
  r.1.1.1 = EX_stack_invalid /\ unchanged ram_bound zero_ram cpu r.
Proof.
  intros cpu r. split; [vm_compute; reflexivity|].
  exact (proj1 (exception_failure_atomic ram_bound ram_machine ram_hooks eq_refl zero_ram cpu) 32 0x1002 0x7FFF 0x2000).
Defined.

(** Level 4 above mask 0. *)
Lemma interrupt_taken_once_witness :
  exists r state', segarecomp_m68k_interrupt_enter (Some ram_hooks) zero_ram (Some (store_cpu user_cpu))
      (Some (mkInterrupts 4 false true)) 4 28 0x1002 = (r, state') /\
    segarecomp_m68k_interrupt_recognized_level (segarecomp_m68k_interrupt_sample state' 4) 0x2415 = 0.
Proof.
  eexists (_, _, _, _), _. split; [reflexivity|].
  destruct (interrupt_taken_once (Some ram_hooks) zero_ram _ (Some (store_cpu user_cpu)) _ (mkInterrupts 4 false true) _ ram_bound
    user_cpu 28 0x1002 _ 4 4 eq_refl eq_refl eq_refl) as (after & Ha & _ & _ & _ & _ & _ & Hr).
  assert (Hsr : Some 0x2415 = Some (cpu_sr after)) by exact (f_equal (fun b => match b with Some b => bind_sr b | None => None end) Ha).
  injection Hsr as Hsr. rewrite <- Hsr in Hr. exact Hr.
Defined.
