(* ===== verification/Sha256.v ===== *)
(** SHA-256: [sha256.hpp] and [sha256.cpp].

    Words are [uint32_t] and sums wrap; the message length counts bits in a
    [uint64_t].  The streaming digest and the one-shot digest are compared with
    each other and with the functions of FIPS 180-4. *)

From Stdlib Require Import Ascii String.
From S2P Require Import Prelude.

(** * The compression function *)

(** The round constants, four to a row. *)
Definition k : list Z := concat
  [[0x428a2f98; 0x71374491; 0xb5c0fbcf; 0xe9b5dba5]; [0x3956c25b; 0x59f111f1; 0x923f82a4; 0xab1c5ed5];
   [0xd807aa98; 0x12835b01; 0x243185be; 0x550c7dc3]; [0x72be5d74; 0x80deb1fe; 0x9bdc06a7; 0xc19bf174];
   [0xe49b69c1; 0xefbe4786; 0x0fc19dc6; 0x240ca1cc]; [0x2de92c6f; 0x4a7484aa; 0x5cb0a9dc; 0x76f988da];
   [0x983e5152; 0xa831c66d; 0xb00327c8; 0xbf597fc7]; [0xc6e00bf3; 0xd5a79147; 0x06ca6351; 0x14292967];
   [0x27b70a85; 0x2e1b2138; 0x4d2c6dfc; 0x53380d13]; [0x650a7354; 0x766a0abb; 0x81c2c92e; 0x92722c85];
   [0xa2bfe8a1; 0xa81a664b; 0xc24b8b70; 0xc76c51a3]; [0xd192e819; 0xd6990624; 0xf40e3585; 0x106aa070];
   [0x19a4c116; 0x1e376c08; 0x2748774c; 0x34b0bcb5]; [0x391c0cb3; 0x4ed8aa4a; 0x5b9cca4f; 0x682e6ff3];
   [0x748f82ee; 0x78a5636f; 0x84c87814; 0x8cc70208]; [0x90befffa; 0xa4506ceb; 0xbef9a3f7; 0xc67178f2]].

(** [SEGARECOMP_ROTR] *)
Definition ROTR (value amount : Z) : Z := (value .>> amount) .| u32 (value .<< (32 - amount)).

(** [~x] *)
Definition complement (x : Z) : Z := u32 (Z.lnot x).

(** The eight words of [state] and of [v]. *)
Record Words := mkWords { v0 : Z; v1 : Z; v2 : Z; v3 : Z; v4 : Z; v5 : Z; v6 : Z; v7 : Z }.

(** [w[i]] of the block, big-endian. *)
Definition block_word (block : list Z) (i : Z) : Z :=
  (znth block (i * 4) 0 .<< 24) .| (znth block (i * 4 + 1) 0 .<< 16) .| (znth block (i * 4 + 2) 0 .<< 8) .|
  znth block (i * 4 + 3) 0.

(** [w[i]] from the words before it. *)
Definition next_word (w : list Z) (i : Z) : Z :=
  let x := znth w (i - 15) 0 in
  let y := znth w (i - 2) 0 in
  let s0 := (ROTR x 7 .^ ROTR x 18) .^ (x .>> 3) in
  let s1 := (ROTR y 17 .^ ROTR y 19) .^ (y .>> 10) in
  u32 (znth w (i - 16) 0 + s0 + znth w (i - 7) 0 + s1).

(** The two loops that fill [w]. *)
Definition schedule (block : list Z) : list Z :=
  zfor 16 48 (fun i w => w ++ [next_word w i]) (map (block_word block) (seqZ 0 16)).

(** One round. *)
Definition round (ki wi : Z) (v : Words) : Words :=
  let s1 := (ROTR (v4 v) 6 .^ ROTR (v4 v) 11) .^ ROTR (v4 v) 25 in
  let ch := (v4 v .& v5 v) .^ (complement (v4 v) .& v6 v) in
  let t1 := u32 (v7 v + s1 + ch + ki + wi) in
  let s0 := (ROTR (v0 v) 2 .^ ROTR (v0 v) 13) .^ ROTR (v0 v) 22 in
  let maj := ((v0 v .& v1 v) .^ (v0 v .& v2 v)) .^ (v1 v .& v2 v) in
  let t2 := u32 (s0 + maj) in
  mkWords (u32 (t1 + t2)) (v0 v) (v1 v) (v2 v) (u32 (v3 v + t1)) (v4 v) (v5 v) (v6 v).

(** [state[i] += v[i]] *)
Definition add_words (s v : Words) : Words :=
  mkWords (u32 (v0 s + v0 v)) (u32 (v1 s + v1 v)) (u32 (v2 s + v2 v)) (u32 (v3 s + v3 v)) (u32 (v4 s + v4 v))
    (u32 (v5 s + v5 v)) (u32 (v6 s + v6 v)) (u32 (v7 s + v7 v)).

Definition compress (state : Words) (block : list Z) : Words :=
  let w := schedule block in
  add_words state (zfor 0 64 (fun i v => round (znth k i 0) (znth w i 0) v) state).

Definition initial_state : Words :=
  mkWords 0x6a09e667 0xbb67ae85 0x3c6ef372 0xa54ff53a 0x510e527f 0x9b05688c 0x1f83d9ab 0x5be0cd19.

(** * The one-shot digest *)

(** The loop over the whole blocks of [bytes]. *)
Fixpoint compress_blocks (count : nat) (state : Words) (bytes : list Z) : Words :=
  match count with
  | O => state
  | S count => compress_blocks count (compress state (take 64 bytes)) (drop 64 bytes)
  end.

(** [while (tail.size() % 64U != 56U) tail.push_back(0U);]: at most 63 rounds. *)
Fixpoint pad_zeros (fuel : nat) (tail : list Z) : list Z :=
  match fuel with
  | O => tail
  | S fuel => if zlen tail mod 64 =? 56 then tail else pad_zeros fuel (tail ++ [0])
  end.

(** The eight bytes of the length in bits. *)
Definition length_bytes (bits : Z) : list Z := map (fun i => (bits .>> (56 - 8 * i)) .& 0xFF) (seqZ 0 8).

(** The tail with its padding. *)
Definition padded_tail (tail : list Z) (bits : Z) : list Z := pad_zeros 64 (tail ++ [0x80]) ++ length_bytes bits.

Definition digits : list ascii := String.list_ascii_of_string "0123456789abcdef".

Definition word_hex (word : Z) : list ascii :=
  map (fun i => nth (Z.to_nat ((word .>> (28 - 4 * i)) .& 0xF)) digits "0"%char) (seqZ 0 8).

Definition hex_words (s : Words) : string :=
  String.string_of_list_ascii
    (concat (map word_hex [v0 s; v1 s; v2 s; v3 s; v4 s; v5 s; v6 s; v7 s])).

Definition sha256_hex (bytes : list Z) : string :=
  let full := zlen bytes / 64 in
  let state := compress_blocks (Z.to_nat full) initial_state bytes in
  let bits := u64 (u64 (zlen bytes) * 8) in
  let tail := padded_tail (drop (Z.to_nat (full * 64)) bytes) bits in
  hex_words (compress_blocks (Z.to_nat (zlen tail / 64)) state tail).

(** * The stream *)

Record Sha256Stream := mkStream {
  state_ : Words;
  block_ : list Z;
  block_used_ : Z;
  total_bytes_ : Z;
}.

Definition new_stream : Sha256Stream := mkStream initial_state (replicate 64 0) 0 0.

(** [block_[block_used_++] = byte] *)
Definition push_byte (byte : Z) (s : Sha256Stream) : Sha256Stream :=
  mkStream (state_ s) (<[Z.to_nat (block_used_ s) := byte]> (block_ s)) (block_used_ s + 1) (total_bytes_ s).

(** The two copying loops: until the block is full or the bytes end. *)
Fixpoint fill_block (bytes : list Z) (s : Sha256Stream) : list Z * Sha256Stream :=
  match bytes with
  | [] => ([], s)
  | byte :: rest => if block_used_ s <? 64 then fill_block rest (push_byte byte s) else (bytes, s)
  end.

Fixpoint keep_rest (bytes : list Z) (s : Sha256Stream) : Sha256Stream :=
  match bytes with
  | [] => s
  | byte :: rest => keep_rest rest (push_byte byte s)
  end.

(** The loop over whole blocks, and what follows it. *)
Definition absorb (bytes : list Z) (s : Sha256Stream) : Sha256Stream :=
  let full := zlen bytes / 64 in
  let s := mkStream (compress_blocks (Z.to_nat full) (state_ s) bytes) (block_ s) (block_used_ s) (total_bytes_ s) in
  keep_rest (drop (Z.to_nat (full * 64)) bytes) s.

Definition update (bytes : list Z) (s : Sha256Stream) : Sha256Stream :=
  let s := mkStream (state_ s) (block_ s) (block_used_ s) (u64 (total_bytes_ s + zlen bytes)) in
  if negb (block_used_ s =? 0) then
    let '(rest, s) := fill_block bytes s in
    if block_used_ s <? 64 then s
    else absorb rest (mkStream (compress (state_ s) (block_ s)) (block_ s) 0 (total_bytes_ s))
  else absorb bytes s.

Definition finish_hex (s : Sha256Stream) : string :=
  let bits := u64 (total_bytes_ s * 8) in
  let tail := padded_tail (take (Z.to_nat (block_used_ s)) (block_ s)) bits in
  hex_words (compress_blocks (Z.to_nat (zlen tail / 64)) (state_ s) tail).

Example sha256_abc :
  sha256_hex [97; 98; 99] = "ba7816bf8f01cfea414140de5dae2223b00361a396177a9cb410ff61f20015ad"%string.
Proof. with_strategy transparent [zfor] vm_compute. reflexivity. Qed.

#[local] Opaque compress.

(** * Blocks *)

(** The blocks a count of [compress] calls reads. *)
Fixpoint blocks (count : nat) (bytes : list Z) : list (list Z) :=
  match count with
  | O => []
  | S count => take 64 bytes :: blocks count (drop 64 bytes)
  end.

Lemma compress_blocks_fold count state bytes :
  compress_blocks count state bytes = fold_left compress (blocks count bytes) state.
Proof. revert state bytes. induction count as [|n IH]; intros; cbn; [done|apply IH]. Qed.

Lemma blocks_app n m (a b : list Z) : length a = (64 * n)%nat -> blocks (n + m) (a ++ b) = blocks n a ++ blocks m b.
Proof.
  revert a. induction n as [|n IH]; intros a Ha.
  - destruct a; [done|discriminate Ha].
  - cbn [Nat.add blocks app]. rewrite take_app_le, drop_app_le by lia. f_equal. apply IH. rewrite length_drop. lia.
Qed.

Lemma blocks_concat n (a : list Z) : length a = (64 * n)%nat -> concat (blocks n a) = a /\ Forall (fun b => length b = 64%nat) (blocks n a).
Proof.
  revert a. induction n as [|n IH]; intros a Ha; cbn [blocks concat].
  - by destruct a.
  - destruct (IH (drop 64 a)) as [E F]; [rewrite length_drop; lia|]. rewrite E, take_drop. split; [done|].
    constructor; [rewrite length_take; lia|done].
Qed.

Lemma blocks_prefix n (a b : list Z) : length a = (64 * n)%nat -> blocks n (a ++ b) = blocks n a.
Proof. intros Ha. pose proof (blocks_app n 0 a b Ha) as H. cbn in H. by rewrite Nat.add_0_r, app_nil_r in H. Qed.

(** The number of whole blocks, and the rest. *)
Lemma split_blocks (bytes : list Z) :
  let full := zlen bytes / 64 in
  exists a b, bytes = a ++ b /\ length a = (64 * Z.to_nat full)%nat /\ drop (Z.to_nat (full * 64)) bytes = b /\
    zlen b = zlen bytes mod 64.
Proof.
  cbv zeta. set (n := Z.to_nat (zlen bytes / 64 * 64)). exists (take n bytes), (drop n bytes).
  pose proof (zlen_nonneg bytes) as H0. pose proof (Z.div_mod (zlen bytes) 64 ltac:(lia)) as Hd.
  pose proof (Z.mod_pos_bound (zlen bytes) 64 ltac:(lia)). pose proof (Z.div_pos (zlen bytes) 64 ltac:(lia) ltac:(lia)).
  unfold zlen in *. rewrite take_drop, length_take, length_drop. split_and!; [done|lia|done|lia].
Qed.

(** * Padding *)

Lemma pad_zeros_spec fuel l : (56 - zlen l) mod 64 <= Z.of_nat fuel ->
  pad_zeros fuel l = l ++ replicate (Z.to_nat ((56 - zlen l) mod 64)) 0.
Proof.
  revert l. induction fuel as [|fuel IH]; intros l Hf; cbn [pad_zeros].
  - replace (Z.to_nat ((56 - zlen l) mod 64)) with 0%nat by lia. by rewrite app_nil_r.
  - destruct (Z.eqb_spec (zlen l mod 64) 56) as [E|E].
    + replace ((56 - zlen l) mod 64) with 0; [by rewrite app_nil_r|]. rewrite <- Zminus_mod_idemp_r, E. done.
    + assert (Hs : (56 - zlen (l ++ [0])) mod 64 = (56 - zlen l) mod 64 - 1).
      { rewrite zlen_snoc. pose proof (Z.mod_pos_bound (56 - zlen l) 64 ltac:(lia)).
        assert ((56 - zlen l) mod 64 <> 0) by (intros E0; apply E; Z.to_euclidean_division_equations; lia).
        Z.to_euclidean_division_equations; lia. }
      assert (Hpos : 0 < (56 - zlen l) mod 64).
      { pose proof (Z.mod_pos_bound (56 - zlen (l ++ [0])) 64 ltac:(lia)). lia. }
      rewrite IH by lia. rewrite Hs, <- app_assoc. f_equal.
      replace (Z.to_nat ((56 - zlen l) mod 64)) with (S (Z.to_nat ((56 - zlen l) mod 64 - 1))) by lia. done.
Qed.

(** FIPS 180-4 section 5.1.1: a one bit, the least number of zeros, the length. *)
Definition padding (length bits : Z) : list Z :=
  0x80 :: replicate (Z.to_nat ((55 - length) mod 64)) 0 ++ length_bytes bits.

Lemma padded_tail_spec tail bits : padded_tail tail bits = tail ++ padding (zlen tail) bits.
Proof.
  unfold padded_tail, padding. rewrite pad_zeros_spec.
  - rewrite zlen_snoc, <- !app_assoc. cbn [app]. by replace (56 - (zlen tail + 1)) with (55 - zlen tail) by lia.
  - pose proof (Z.mod_pos_bound (56 - zlen (tail ++ [0x80])) 64 ltac:(lia)). lia.
Qed.

Lemma zlen_padding length bits : (length + zlen (padding length bits)) mod 64 = 0 /\ 0 <= zlen (padding length bits).
Proof.
  unfold padding. pose proof (Z.mod_pos_bound (55 - length) 64 ltac:(lia)).
  unfold zlen. cbn [List.length]. rewrite length_app, length_replicate. unfold length_bytes.
  rewrite length_fmap, length_seqZ. split; [|lia].
  replace (length + Z.of_nat (S (Z.to_nat ((55 - length) mod 64) + Z.to_nat 8))) with (length + 9 + (55 - length) mod 64) by lia.
  rewrite Zplus_mod_idemp_r. replace (length + 9 + (55 - length)) with 64 by lia. done.
Qed.

(** * One shot *)

Definition message_bits (bytes : list Z) : Z := u64 (u64 (zlen bytes) * 8).
Definition message_blocks (bytes : list Z) : list (list Z) :=
  let message := bytes ++ padding (zlen bytes) (message_bits bytes) in
  blocks (Z.to_nat (zlen message / 64)) message.

(** Whole blocks followed by a padded tail. *)
Lemma message_blocks_split bytes a b n : bytes = a ++ b -> length a = (64 * n)%nat ->
  let tail := padded_tail b (message_bits bytes) in
  message_blocks bytes = blocks n a ++ blocks (Z.to_nat (zlen tail / 64)) tail.
Proof.
  intros E Ha. cbv zeta. unfold message_blocks. cbv zeta. rewrite padded_tail_spec.
  assert (El : zlen bytes = 64 * Z.of_nat n + zlen b) by (rewrite E, zlen_app; unfold zlen at 1; lia).
  assert (Ep : padding (zlen b) (message_bits bytes) = padding (zlen bytes) (message_bits bytes)).
  { unfold padding. do 4 f_equal. rewrite El. replace (55 - (64 * Z.of_nat n + zlen b)) with (55 - zlen b + (- Z.of_nat n) * 64) by lia.
    by rewrite Z.mod_add by lia. }
  rewrite Ep. set (p := padding (zlen bytes) (message_bits bytes)).
  assert (Em : bytes ++ p = a ++ (b ++ p)) by (rewrite E; by rewrite <- app_assoc).
  pose proof (zlen_padding (zlen bytes) (message_bits bytes)) as [Hp _]. fold p in Hp.
  assert (Hn : Z.to_nat (zlen (bytes ++ p) / 64) = (n + Z.to_nat (zlen (b ++ p) / 64))%nat).
  { rewrite !zlen_app, El. pose proof (zlen_nonneg b). pose proof (zlen_nonneg p).
    replace (64 * Z.of_nat n + zlen b + zlen p) with (zlen b + zlen p + Z.of_nat n * 64) by lia.
    rewrite Z.div_add, Z2Nat.inj_add by (lia || (apply Z.div_pos; lia)). lia. }
  rewrite Hn, Em. by apply blocks_app.
Qed.

Lemma one_shot bytes : sha256_hex bytes = hex_words (fold_left compress (message_blocks bytes) initial_state).
Proof.
  unfold sha256_hex. cbv zeta. destruct (split_blocks bytes) as (a & b & E & Ha & Hd & Hb). fold (message_bits bytes).
  rewrite Hd, (message_blocks_split bytes a b _ E Ha), fold_left_app, !compress_blocks_fold.
  do 3 f_equal. rewrite E at 2. by rewrite blocks_prefix.
Qed.

(** * The stream *)

(** The bytes waiting in the block. *)
Definition pending (s : Sha256Stream) (b : list Z) : Prop :=
  zlen b = block_used_ s /\ block_used_ s <= 64 /\ length (block_ s) = 64%nat /\ take (Z.to_nat (block_used_ s)) (block_ s) = b.

Definition absorbed (s : Sha256Stream) (data : list Z) : Prop :=
  exists n a b, data = a ++ b /\ length a = (64 * n)%nat /\ pending s b /\ block_used_ s < 64 /\
    state_ s = fold_left compress (blocks n a) initial_state /\ total_bytes_ s = u64 (zlen data).

Lemma push_pending byte s b : pending s b -> block_used_ s < 64 ->
  pending (push_byte byte s) (b ++ [byte]) /\ state_ (push_byte byte s) = state_ s /\
  total_bytes_ (push_byte byte s) = total_bytes_ s.
Proof.
  intros (Hl & Hu & Hb & Ht) Hlt. split; [|done]. pose proof (zlen_nonneg b) as H0.
  unfold pending, push_byte. cbn [block_used_ block_]. rewrite zlen_snoc, length_insert. split_and!; [lia|lia|done|].
  replace (Z.to_nat (block_used_ s + 1)) with (S (Z.to_nat (block_used_ s))) by lia.
  rewrite (take_S_r _ _ byte) by (apply list_lookup_insert_eq; lia). rewrite take_insert_ge by lia. by rewrite Ht.
Qed.

Lemma fill_pending bytes s b : pending s b -> exists p rest s',
  fill_block bytes s = (rest, s') /\ bytes = p ++ rest /\ pending s' (b ++ p) /\ state_ s' = state_ s /\
  total_bytes_ s' = total_bytes_ s /\ (block_used_ s' = 64 \/ rest = [] /\ block_used_ s' < 64).
Proof.
  revert s b. induction bytes as [|byte bytes IH]; intros s b Hs; cbn [fill_block].
  - exists [], [], s. rewrite (app_nil_r b). pose proof Hs as (_ & Hu & _). split_and!; try done.
    destruct (decide (block_used_ s = 64)); [by left|right; split; [done|lia]].
  - destruct (Z.ltb_spec (block_used_ s) 64) as [Hlt|Hge].
    + destruct (push_pending byte s b Hs Hlt) as (Hp & Es & Et). destruct (IH _ _ Hp) as (p & rest & s' & E & Eb & Hp' & Es' & Et' & H).
      exists (byte :: p), rest, s'. rewrite <- app_assoc in Hp'. split_and!; try done; first [by rewrite Eb|by rewrite Es'|by rewrite Et'].
    + exists [], (byte :: bytes), s. rewrite (app_nil_r b). pose proof Hs as (_ & Hu & _). split_and!; try done. left. lia.
Qed.

Lemma keep_pending bytes s b : pending s b -> block_used_ s + zlen bytes < 64 ->
  let s' := keep_rest bytes s in
  pending s' (b ++ bytes) /\ state_ s' = state_ s /\ total_bytes_ s' = total_bytes_ s /\ block_used_ s' < 64.
Proof.
  revert s b. induction bytes as [|byte bytes IH]; intros s b Hs Hu; cbn [keep_rest].
  - rewrite app_nil_r. by rewrite Z.add_0_r in Hu.
  - rewrite zlen_cons in Hu. pose proof (zlen_nonneg bytes). destruct (push_pending byte s b Hs) as (Hp & Es & Et); [lia|].
    destruct (IH _ _ Hp) as (Hp' & Es' & Et' & Hu'); [cbn; lia|]. rewrite <- app_assoc in Hp'. cbv zeta.
    split_and!; [done|by rewrite Es'|by rewrite Et'|done].
Qed.

Lemma absorb_absorbed bytes s data : absorbed s data -> block_used_ s = 0 ->
  forall total, total = u64 (zlen (data ++ bytes)) ->
  absorbed (absorb bytes (mkStream (state_ s) (block_ s) (block_used_ s) total)) (data ++ bytes).
Proof.
  intros (n & a & b & E & Ha & (Hl & Hu & Hlen & Ht) & _ & Hst & _) H0 total Htotal. unfold absorb. cbv zeta. cbn [state_ block_ block_used_ total_bytes_].
  assert (b = []) as -> by (apply nil_length_inv; unfold zlen in Hl; lia).
  destruct (split_blocks bytes) as (p & q & Eb & Hp & Hd & Hq). set (m := Z.to_nat (zlen bytes / 64)) in *. rewrite Hd.
  pose proof (Z.mod_pos_bound (zlen bytes) 64 ltac:(lia)).
  set (s1 := mkStream (compress_blocks m (state_ s) bytes) (block_ s) (block_used_ s) total).
  assert (Hp1 : pending s1 []) by (unfold pending; cbn; rewrite H0; done).
  destruct (keep_pending q s1 [] Hp1) as (Hp2 & Es2 & Et2 & Hu2); [cbn; lia|].
  exists (n + m)%nat, (a ++ p), q. rewrite E, app_nil_r, Eb.
  split_and!; [by rewrite <- app_assoc|rewrite length_app; lia|done|done| |].
  - rewrite Es2. unfold s1. cbn [state_]. rewrite Eb, compress_blocks_fold, (blocks_prefix m p q Hp), Hst, (blocks_app n m a p Ha), fold_left_app. done.
  - rewrite Et2. unfold s1. cbn [total_bytes_]. by rewrite Htotal, E, app_nil_r, Eb.
Qed.

Lemma update_absorbed bytes s data : absorbed s data -> absorbed (update bytes s) (data ++ bytes).
Proof.
  intros Hs. pose proof Hs as (n & a & b & E & Ha & Hp & Hu & Hst & Htot). unfold update. cbv zeta. cbn [block_used_].
  assert (Etot : u64 (total_bytes_ s + zlen bytes) = u64 (zlen (data ++ bytes))).
  { rewrite Htot, zlen_app. unfold u64. apply Zplus_mod_idemp_l. }
  destruct (Z.eqb_spec (block_used_ s) 0) as [H0|H0]; cbn [negb]; [by apply absorb_absorbed|].
  set (s1 := mkStream (state_ s) (block_ s) (block_used_ s) (u64 (total_bytes_ s + zlen bytes))).
  destruct (fill_pending bytes s1 b) as (p & rest & s2 & Ef & Eb & Hp2 & Es2 & Et2 & Hcase); [done|]. rewrite Ef.
  pose proof Hp2 as (Hl2 & Hu2 & Hlen2 & Ht2).
  destruct Hcase as [H64|[-> Hlt]].
  - rewrite (proj2 (Z.ltb_ge _ _)) by lia. rewrite H64 in *.
    set (s3 := mkStream (compress (state_ s2) (block_ s2)) (block_ s2) 0 (u64 (zlen (data ++ p)))).
    assert (H3 : absorbed s3 (data ++ p)).
    { exists (n + 1)%nat, (a ++ (b ++ p)), []. rewrite E, app_nil_r, <- app_assoc. unfold s3.
      assert (Hbp : length (b ++ p) = 64%nat) by (unfold zlen in Hl2; lia).
      split_and!; cbn [block_used_ state_ total_bytes_]; [done|rewrite length_app; lia| |lia| |by rewrite E, <- app_assoc].
      - unfold pending. cbn. split_and!; [done|lia|done|done].
      - rewrite (blocks_app n 1 a (b ++ p) Ha), fold_left_app, <- Hst. cbn [blocks fold_left]. rewrite Es2. unfold s1. cbn [state_].
        rewrite (take_ge (b ++ p)) by lia.
        assert (Eblock : block_ s2 = b ++ p) by (rewrite <- Ht2; symmetry; apply take_ge; rewrite Hlen2; done).
        rewrite Eblock. reflexivity. }
    pose proof (absorb_absorbed rest s3 (data ++ p) H3 eq_refl (total_bytes_ s2)) as H. rewrite <- app_assoc, <- Eb in H. apply H.
    by rewrite Et2.
  - rewrite (proj2 (Z.ltb_lt _ _)) by done. rewrite app_nil_r in Eb. subst p.
    exists n, a, (b ++ bytes). rewrite E, <- app_assoc. split_and!; [done|done|done|done|by rewrite Es2|].
    rewrite Et2. unfold s1. cbn [total_bytes_]. by rewrite Etot, E, <- app_assoc.
Qed.

Lemma finish_absorbed s data : absorbed s data -> finish_hex s = sha256_hex data.
Proof.
  intros (n & a & b & E & Ha & (Hl & Hu & Hlen & Ht) & _ & Hst & Htot). rewrite one_shot. unfold finish_hex. cbv zeta.
  rewrite Ht, Htot. fold (message_bits data). rewrite (message_blocks_split data a b n E Ha), fold_left_app, Hst.
  by rewrite compress_blocks_fold.
Qed.

Lemma new_stream_absorbed : absorbed new_stream [].
Proof. exists 0%nat, [], []. done. Qed.

(** Streaming is hashing.  However a message is cut into pieces, empty ones
    included, and whatever its length, feeding the pieces to a new stream and
    finishing it gives the digest of the whole message. *)
Theorem sha256_stream (chunks : list (list Z)) :
  finish_hex (fold_left (fun s chunk => update chunk s) chunks new_stream) = sha256_hex (concat chunks).
Proof.
  apply finish_absorbed. assert (H : forall s data, absorbed s data ->
    absorbed (fold_left (fun s chunk => update chunk s) chunks s) (data ++ concat chunks)).
  { induction chunks as [|chunk chunks IH]; intros s data Hs; cbn [fold_left concat].
    - by rewrite app_nil_r.
    - rewrite app_assoc. apply IH. by apply update_absorbed. }
  exact (H new_stream [] new_stream_absorbed).
Qed.

(** * FIPS 180-4

    The functions of section 4.1.2, each by what it does to every bit. *)

Definition word_of_bits (f : Z -> bool) : Z := foldr (fun i acc => Z.b2z (f i) * 2 ^ i + acc) 0 (seqZ 0 32).

Definition rotr_bit (n x i : Z) : bool := Z.testbit x ((i + n) mod 32).
Definition shr_bit (n x i : Z) : bool := (i + n <? 32) && Z.testbit x (i + n).

Definition Ch (x y z : Z) : Z := word_of_bits (fun i => if Z.testbit x i then Z.testbit y i else Z.testbit z i).
Definition Maj (x y z : Z) : Z :=
  word_of_bits (fun i => 2 <=? Z.b2z (Z.testbit x i) + Z.b2z (Z.testbit y i) + Z.b2z (Z.testbit z i)).
Definition xor3 (a b c : bool) : bool := xorb (xorb a b) c.
Definition Sigma0 (x : Z) : Z := word_of_bits (fun i => xor3 (rotr_bit 2 x i) (rotr_bit 13 x i) (rotr_bit 22 x i)).
Definition Sigma1 (x : Z) : Z := word_of_bits (fun i => xor3 (rotr_bit 6 x i) (rotr_bit 11 x i) (rotr_bit 25 x i)).
Definition sigma0 (x : Z) : Z := word_of_bits (fun i => xor3 (rotr_bit 7 x i) (rotr_bit 18 x i) (shr_bit 3 x i)).
Definition sigma1 (x : Z) : Z := word_of_bits (fun i => xor3 (rotr_bit 17 x i) (rotr_bit 19 x i) (shr_bit 10 x i)).

(** The message schedule of a block (section 6.2.2, step 1). *)
Definition fips_schedule (block : list Z) (W : Z -> Z) : Prop :=
  (forall t, 0 <= t < 16 ->
     W t = 16777216 * znth block (4 * t) 0 + 65536 * znth block (4 * t + 1) 0 + 256 * znth block (4 * t + 2) 0 +
           znth block (4 * t + 3) 0) /\
  (forall t, 16 <= t < 64 -> W t = u32 (sigma1 (W (t - 2)) + W (t - 7) + sigma0 (W (t - 15)) + W (t - 16))).

(** One round, and the hash of a block (steps 2 to 4). *)
Definition fips_round (K W : Z) (s : Words) : Words :=
  let T1 := u32 (v7 s + Sigma1 (v4 s) + Ch (v4 s) (v5 s) (v6 s) + K + W) in
  let T2 := u32 (Sigma0 (v0 s) + Maj (v0 s) (v1 s) (v2 s)) in
  mkWords (u32 (T1 + T2)) (v0 s) (v1 s) (v2 s) (u32 (v3 s + T1)) (v4 s) (v5 s) (v6 s).

Definition fips_hash (H : Words) (W : Z -> Z) : Words :=
  add_words H (fold_left (fun s t => fips_round (znth k t 0) (W t) s) (seqZ 0 64) H).

Lemma word_of_bits_exact f x : is_u32 x -> (forall i, 0 <= i < 32 -> Z.testbit x i = f i) -> word_of_bits f = x.
Proof.
  intros Hx Hf. unfold word_of_bits.
  assert (E : forall (n : nat) m, 0 <= m -> m + Z.of_nat n = 32 ->
    foldr (fun i acc => Z.b2z (f i) * 2 ^ i + acc) 0 (seqZ m (Z.of_nat n)) = (x / 2 ^ m) * 2 ^ m).
  { induction n as [|n IH]; intros m Hm Hn.
    - cbn. rewrite Z.div_small; [done|]. replace m with 32 by lia. exact Hx.
    - rewrite seqZ_cons by lia. cbn [foldr]. replace (Z.pred (Z.of_nat (S n))) with (Z.of_nat n) by lia.
      rewrite <- Z.add_1_r, IH, <- Hf by lia. rewrite Z.pow_add_r, <- Z.div_div by lia.
      pose proof (Z.div_mod (x / 2 ^ m) 2 ltac:(lia)) as D. rewrite <- Z.bit0_mod, <- (Z.shiftr_div_pow2 x m), Z.shiftr_spec, Z.add_0_l in D by lia.
      rewrite (Z.shiftr_div_pow2 x m) in D by lia. change (2 ^ 1) with 2. nia. }
  pose proof (E 32%nat 0 ltac:(lia) ltac:(lia)) as E0. rewrite Z.div_1_r, Z.mul_1_r in E0. exact E0.
Qed.

Definition words_ok (s : Words) : Prop :=
  is_u32 (v0 s) /\ is_u32 (v1 s) /\ is_u32 (v2 s) /\ is_u32 (v3 s) /\ is_u32 (v4 s) /\ is_u32 (v5 s) /\ is_u32 (v6 s) /\
  is_u32 (v7 s).

Lemma high_bit x i : is_u32 x -> 32 <= i -> Z.testbit x i = false.
Proof. intros Hx Hi. rewrite <- (Z.mod_small x (2 ^ 32)) by done. apply Z.mod_pow2_bits_high. lia. Qed.

Lemma u32_of_bits x : (forall i, 32 <= i -> Z.testbit x i = false) -> is_u32 x.
Proof.
  intros H. assert (E : x mod 2 ^ 32 = x).
  { apply Z.bits_inj'. intros i Hi. destruct (decide (i < 32)); [apply Z.mod_pow2_bits_low; lia|].
    rewrite Z.mod_pow2_bits_high, H by lia. done. }
  rewrite <- E. apply Z.mod_pos_bound. lia.
Qed.

Lemma ROTR_bits x n : is_u32 x -> 0 < n < 32 ->
  is_u32 (ROTR x n) /\ forall i, 0 <= i < 32 -> Z.testbit (ROTR x n) i = rotr_bit n x i.
Proof.
  intros Hx Hn. unfold ROTR, u32, rotr_bit. change 4294967296 with (2 ^ 32). split.
  - apply u32_of_bits. intros i Hi. rewrite Z.lor_spec, Z.shiftr_spec, high_bit, Z.mod_pow2_bits_high by (done || lia). done.
  - intros i Hi. rewrite Z.lor_spec, Z.shiftr_spec, Z.mod_pow2_bits_low, Z.shiftl_spec by lia.
    destruct (Z.ltb_spec (i + n) 32).
    + rewrite (Z.testbit_neg_r x (i - (32 - n))), orb_false_r, Z.mod_small by lia. done.
    + rewrite (high_bit x (i + n)) by (done || lia). cbn [orb].
      replace ((i + n) mod 32) with (i - (32 - n)); [done|].
      apply (Z.mod_unique_pos _ _ 1); lia.
Qed.

Lemma shr_bits x n : is_u32 x -> 0 < n < 32 ->
  is_u32 (x .>> n) /\ forall i, 0 <= i < 32 -> Z.testbit (x .>> n) i = shr_bit n x i.
Proof.
  intros Hx Hn. split.
  - apply u32_of_bits. intros i Hi. rewrite Z.shiftr_spec, high_bit by (done || lia). done.
  - intros i Hi. rewrite Z.shiftr_spec by lia. unfold shr_bit.
    destruct (Z.ltb_spec (i + n) 32); [done|]. by rewrite high_bit by (done || lia).
Qed.

(** Three words combined by exclusive or. *)
Lemma xor3_exact a b c f g h : is_u32 a /\ (forall i, 0 <= i < 32 -> Z.testbit a i = f i) ->
  is_u32 b /\ (forall i, 0 <= i < 32 -> Z.testbit b i = g i) ->
  is_u32 c /\ (forall i, 0 <= i < 32 -> Z.testbit c i = h i) ->
  word_of_bits (fun i => xor3 (f i) (g i) (h i)) = (a .^ b) .^ c.
Proof.
  intros [Ha Hf] [Hb Hg] [Hc Hh]. apply word_of_bits_exact.
  - apply u32_of_bits. intros i Hi. by rewrite !Z.lxor_spec, !high_bit.
  - intros i Hi. rewrite !Z.lxor_spec, Hf, Hg, Hh by done. done.
Qed.

Lemma Sigma0_exact x : is_u32 x -> Sigma0 x = (ROTR x 2 .^ ROTR x 13) .^ ROTR x 22.
Proof. intros Hx. apply xor3_exact; apply ROTR_bits; (done || lia). Qed.
Lemma Sigma1_exact x : is_u32 x -> Sigma1 x = (ROTR x 6 .^ ROTR x 11) .^ ROTR x 25.
Proof. intros Hx. apply xor3_exact; apply ROTR_bits; (done || lia). Qed.
Lemma sigma0_exact x : is_u32 x -> sigma0 x = (ROTR x 7 .^ ROTR x 18) .^ (x .>> 3).
Proof. intros Hx. apply xor3_exact; [apply ROTR_bits|apply ROTR_bits|apply shr_bits]; (done || lia). Qed.
Lemma sigma1_exact x : is_u32 x -> sigma1 x = (ROTR x 17 .^ ROTR x 19) .^ (x .>> 10).
Proof. intros Hx. apply xor3_exact; [apply ROTR_bits|apply ROTR_bits|apply shr_bits]; (done || lia). Qed.

Lemma Ch_exact x y z : is_u32 x -> is_u32 y -> is_u32 z -> Ch x y z = (x .& y) .^ (complement x .& z).
Proof.
  intros Hx Hy Hz. apply word_of_bits_exact.
  - apply u32_of_bits. intros i Hi. by rewrite Z.lxor_spec, !Z.land_spec, (high_bit x), (high_bit z), andb_false_r.
  - intros i Hi. rewrite Z.lxor_spec, !Z.land_spec. unfold complement, u32. change 4294967296 with (2 ^ 32).
    rewrite Z.mod_pow2_bits_low, Z.lnot_spec by lia.
    by destruct (Z.testbit x i), (Z.testbit y i), (Z.testbit z i).
Qed.

Lemma Maj_exact x y z : is_u32 x -> is_u32 y -> is_u32 z -> Maj x y z = ((x .& y) .^ (x .& z)) .^ (y .& z).
Proof.
  intros Hx Hy Hz. apply word_of_bits_exact.
  - apply u32_of_bits. intros i Hi. by rewrite !Z.lxor_spec, !Z.land_spec, (high_bit x), (high_bit y).
  - intros i Hi. rewrite !Z.lxor_spec, !Z.land_spec. by destruct (Z.testbit x i), (Z.testbit y i), (Z.testbit z i).
Qed.

Lemma round_exact K W s : words_ok s -> round K W s = fips_round K W s /\ words_ok (fips_round K W s).
Proof.
  intros (H0 & H1 & H2 & H3 & H4 & H5 & H6 & H7). split.
  - unfold round, fips_round. by rewrite Sigma0_exact, Sigma1_exact, Ch_exact, Maj_exact.
  - unfold fips_round, words_ok. cbn [v0 v1 v2 v3 v4 v5 v6 v7]. split_and!; try done; apply u32_range.
Qed.

Lemma znth_snoc_lt (l : list Z) x i : 0 <= i < zlen l -> znth (l ++ [x]) i 0 = znth l i 0.
Proof. intros Hi. unfold zlen in Hi. rewrite !znth_nth by lia. apply app_nth1. lia. Qed.

Lemma znth_snoc_last (l : list Z) x : znth (l ++ [x]) (zlen l) 0 = x.
Proof.
  pose proof (zlen_nonneg l). rewrite znth_nth by lia. unfold zlen. by rewrite Nat2Z.id, app_nth2, Nat.sub_diag by lia.
Qed.

Lemma block_word_exact block t : Forall is_u8 block ->
  block_word block t = 16777216 * znth block (4 * t) 0 + 65536 * znth block (4 * t + 1) 0 +
                       256 * znth block (4 * t + 2) 0 + znth block (4 * t + 3) 0 /\ is_u32 (block_word block t).
Proof.
  intros Hb. assert (Hbyte : forall i, is_u8 (znth block i 0)) by (intros; by apply znth_byte).
  unfold block_word. rewrite (Z.mul_comm t 4), be32_sum by apply Hbyte. split; [lia|].
  pose proof (Hbyte (4 * t)). pose proof (Hbyte (4 * t + 1)). pose proof (Hbyte (4 * t + 2)).
  pose proof (Hbyte (4 * t + 3)). unfold is_u8, is_u32 in *. lia.
Qed.

(** What the first [i] words of the schedule satisfy. *)
Definition schedule_upto (block w : list Z) (i : Z) : Prop :=
  zlen w = i /\ (forall t, 0 <= t < i -> is_u32 (znth w t 0)) /\
  (forall t, 0 <= t < 16 -> znth w t 0 = block_word block t) /\
  (forall t, 16 <= t < i -> znth w t 0 =
     u32 (sigma1 (znth w (t - 2) 0) + znth w (t - 7) 0 + sigma0 (znth w (t - 15) 0) + znth w (t - 16) 0)).

Lemma next_word_exact block w i : 16 <= i -> schedule_upto block w i ->
  next_word w i = u32 (sigma1 (znth w (i - 2) 0) + znth w (i - 7) 0 + sigma0 (znth w (i - 15) 0) + znth w (i - 16) 0).
Proof.
  intros Hi (_ & Hu & _). unfold next_word. cbv zeta. rewrite sigma0_exact, sigma1_exact by (apply Hu; lia). f_equal. lia.
Qed.

Lemma schedule_step block w i : 16 <= i -> schedule_upto block w i -> schedule_upto block (w ++ [next_word w i]) (i + 1).
Proof.
  intros Hi Hs. pose proof (next_word_exact block w i Hi Hs) as En. destruct Hs as (Hl & Hu & Hlow & Hhigh).
  pose proof (znth_snoc_last w (next_word w i)) as El. rewrite Hl in El.
  assert (Eo : forall t, 0 <= t < i -> znth (w ++ [next_word w i]) t 0 = znth w t 0) by (intros; apply znth_snoc_lt; lia).
  unfold schedule_upto. rewrite zlen_snoc. split_and!; [lia| | |].
  - intros t Ht. destruct (decide (t = i)) as [->|Hne]; [rewrite El, En; apply u32_range|rewrite Eo by lia; apply Hu; lia].
  - intros t Ht. rewrite Eo by lia. by apply Hlow.
  - intros t Ht. rewrite (Eo (t - 2)), (Eo (t - 7)), (Eo (t - 15)), (Eo (t - 16)) by lia. destruct (decide (t = i)) as [->|Hne]; [by rewrite El|rewrite Eo by lia; apply Hhigh; lia].
Qed.

(** The words the two loops fill are the standard's schedule. *)
Lemma schedule_exact block : Forall is_u8 block ->
  fips_schedule block (fun t => znth (schedule block) t 0) /\
  (forall t, 0 <= t < 64 -> is_u32 (znth (schedule block) t 0)).
Proof.
  intros Hb. assert (HI : schedule_upto block (schedule block) (16 + 48)).
  { unfold schedule. apply (zfor_ind (fun i w => schedule_upto block w i)); [lia| |].
    - assert (E : forall t, 0 <= t < 16 -> znth (map (block_word block) (seqZ 0 16)) t 0 = block_word block t).
      { intros t Ht. apply znth_lookup; [lia|]. change (map (block_word block)) with (fmap (M := list) (block_word block)).
        rewrite list_lookup_fmap, lookup_seqZ_lt by lia. cbn. do 2 f_equal. lia. }
      split_and!; [done| |done|lia]. intros t Ht. rewrite E by done. by apply block_word_exact.
    - intros i w Hi. apply schedule_step. lia. }
  destruct HI as (_ & Hu & Hlow & Hhigh). split; [|exact Hu]. split; [|exact Hhigh].
  intros t Ht. rewrite Hlow by done. by apply block_word_exact.
Qed.

Lemma fips_schedule_unique block W W' : fips_schedule block W -> fips_schedule block W' ->
  forall t, 0 <= t < 64 -> W t = W' t.
Proof.
  intros [Hlow Hhigh] [Hlow' Hhigh'] t Ht.
  assert (E : forall n : nat, forall t, 0 <= t < Z.of_nat n -> t < 64 -> W t = W' t); [|apply (E 64%nat); lia].
  clear t Ht. induction n as [|n IH]; intros t Ht H64; [lia|].
  destruct (Z.lt_ge_cases t 16); [by rewrite Hlow, Hlow' by lia|]. rewrite Hhigh, Hhigh' by lia. by rewrite (IH (t - 2)), (IH (t - 7)), (IH (t - 15)), (IH (t - 16)) by lia.
Qed.

Lemma compress_exact H block W : words_ok H -> Forall is_u8 block -> fips_schedule block W ->
  compress H block = fips_hash H W /\ words_ok (fips_hash H W).
Proof.
  intros Hok Hb HW. with_strategy transparent [compress] unfold compress. unfold fips_hash. cbv zeta.
  pose proof (fips_schedule_unique block _ W (proj1 (schedule_exact block Hb)) HW) as Hs. cbv beta in Hs.
  assert (E : forall (n : nat) m s, 0 <= m -> m + Z.of_nat n = 64 -> words_ok s ->
    zfor m (Z.of_nat n) (fun i v => round (znth k i 0) (znth (schedule block) i 0) v) s =
    fold_left (fun s t => fips_round (znth k t 0) (W t) s) (seqZ m (Z.of_nat n)) s).
  { induction n as [|n IH]; intros m s Hm Hn Hs'; [done|]. rewrite seqZ_cons by lia. cbn [fold_left].
    replace (Z.pred (Z.of_nat (S n))) with (Z.of_nat n) by lia. rewrite <- Z.add_1_r.
    destruct (round_exact (znth k m 0) (W m) s Hs') as [Er Hr].
    rewrite <- (IH (m + 1)) by (done || lia). rewrite <- Er, <- (Hs m) by lia.
    with_strategy transparent [zfor] unfold zfor. rewrite !Nat2Z.id. done. }
  split; [|unfold add_words, words_ok; cbn [v0 v1 v2 v3 v4 v5 v6 v7]; split_and!; apply u32_range].
  pose proof (E 64%nat 0 H ltac:(lia) ltac:(lia) Hok) as E64. change (Z.of_nat 64) with 64 in E64. rewrite <- E64. reflexivity.
Qed.

(** The message with its padding, cut into blocks (sections 5.1.1 and 5.2.1): a
    one bit, fewer than 64 zero bytes, and the length in bits as the value of
    eight bytes, most significant first. *)
Definition fips_message (M : list Z) (parsed : list (list Z)) : Prop :=
  Forall (fun b => length b = 64%nat) parsed /\
  exists zeros length8, concat parsed = M ++ 0x80 :: replicate zeros 0 ++ length8 /\ (zeros < 64)%nat /\
    length length8 = 8%nat /\ Forall is_u8 length8 /\ fold_left (fun n byte => 256 * n + byte) length8 0 = 8 * zlen M.

Lemma length_bytes_value bits : 0 <= bits < 2 ^ 64 ->
  Forall is_u8 (length_bytes bits) /\ fold_left (fun n byte => 256 * n + byte) (length_bytes bits) 0 = bits.
Proof.
  intros Hb. assert (E : length_bytes bits = map (fun n => (bits / 2 ^ n) mod 256) [56; 48; 40; 32; 24; 16; 8; 0]).
  { unfold length_bytes. change (seqZ 0 8) with [0; 1; 2; 3; 4; 5; 6; 7]. cbn [map].
    change 0xFF with (Z.ones 8). rewrite !Z.land_ones, !Z.shiftr_div_pow2 by lia. done. }
  rewrite E. split.
  - repeat constructor; apply Z.mod_pos_bound; lia.
  - cbn [map fold_left]. Z.to_euclidean_division_equations; lia.
Qed.

Lemma message_blocks_fips M : zlen M < 2 ^ 61 -> fips_message M (message_blocks M).
Proof.
  intros HM. pose proof (zlen_nonneg M) as H0.
  assert (Ebits : message_bits M = 8 * zlen M) by (unfold message_bits, u64; rewrite (Z.mod_small (zlen M)), Z.mod_small by lia; lia).
  unfold message_blocks. cbv zeta. set (message := M ++ padding (zlen M) (message_bits M)).
  destruct (zlen_padding (zlen M) (message_bits M)) as [Hp Hp0].
  assert (Hl : length message = (64 * Z.to_nat (zlen message / 64))%nat).
  { assert (Hm : zlen message mod 64 = 0) by (unfold message; by rewrite zlen_app).
    pose proof (Z.div_mod (zlen message) 64 ltac:(lia)) as D. rewrite Hm in D.
    pose proof (Z.div_pos (zlen message) 64 (zlen_nonneg message) ltac:(lia)). unfold zlen in *. lia. }
  destruct (blocks_concat _ message Hl) as [Ec Hf]. split; [exact Hf|].
  exists (Z.to_nat ((55 - zlen M) mod 64)), (length_bytes (message_bits M)).
  destruct (length_bytes_value (message_bits M) ltac:(lia)) as [Hu Hv].
  pose proof (Z.mod_pos_bound (55 - zlen M) 64 ltac:(lia)).
  split_and!; [by rewrite Ec|lia|done|done|by rewrite Hv].
Qed.

Lemma fips_bytes M parsed : Forall is_u8 M -> fips_message M parsed -> Forall (Forall is_u8) parsed.
Proof.
  intros HM (_ & zeros & length8 & Ec & _ & _ & Hu & _). apply Forall_concat. rewrite Ec. apply Forall_app. split; [done|].
  constructor; [done|]. apply Forall_app. split; [by apply Forall_replicate|done].
Qed.

Lemma fold_exact parsed Ws H : words_ok H -> Forall (Forall is_u8) parsed -> Forall2 fips_schedule parsed Ws ->
  fold_left compress parsed H = fold_left fips_hash Ws H.
Proof.
  intros Hok Hb HW. revert H Hok Hb. induction HW as [|b W parsed Ws Hs _ IH]; intros H Hok Hb; [done|].
  apply Forall_cons in Hb as [Hb1 Hb2]. cbn [fold_left]. destruct (compress_exact H b W Hok Hb1 Hs) as [E Hok'].
  rewrite E. by apply IH.
Qed.

Lemma initial_words_ok : words_ok initial_state.
Proof. by unfold words_ok, is_u32, initial_state. Qed.

(** C10. SHA-256 of FIPS 180-4.  The digest of bytes shorter than 2^61 is the
    standard's: the message parses into padded blocks, every block has a
    message schedule, and hashing any such schedules with the standard's
    functions, given by what they do to each bit, from the initial value gives
    the eight words whose hexadecimal digits the code prints. *)
Theorem sha256_fips (M : list Z) : Forall is_u8 M -> zlen M < 2 ^ 61 ->
  exists parsed, fips_message M parsed /\ (exists Ws, Forall2 fips_schedule parsed Ws) /\
    forall Ws, Forall2 fips_schedule parsed Ws -> sha256_hex M = hex_words (fold_left fips_hash Ws initial_state).
Proof.
  intros HM Hlen. exists (message_blocks M). pose proof (message_blocks_fips M Hlen) as Hp.
  pose proof (fips_bytes M _ HM Hp) as Hb. split_and!; [done| |].
  - exists (map (fun b t => znth (schedule b) t 0) (message_blocks M)). apply Forall2_fmap_r, Forall_Forall2_diag.
    eapply Forall_impl; [exact Hb|]. intros b Hb1. by apply schedule_exact.
  - intros Ws HW. rewrite one_shot. f_equal. by apply fold_exact; [apply initial_words_ok| |].
Qed.

Definition abc : list Z := [97; 98; 99].

Lemma sha256_fips_witness : Forall is_u8 abc /\ zlen abc < 2 ^ 61 /\
  exists parsed, fips_message abc parsed /\ (exists Ws, Forall2 fips_schedule parsed Ws) /\
    forall Ws, Forall2 fips_schedule parsed Ws -> sha256_hex abc = hex_words (fold_left fips_hash Ws initial_state).
Proof.
  assert (H1 : Forall is_u8 abc) by (repeat constructor; done). assert (H2 : zlen abc < 2 ^ 61) by done.
  split; [exact H1|]. split; [exact H2|]. exact (sha256_fips abc H1 H2).
Defined.
