(* ===== verification/Sn76489.v ===== *)
(** The SN76489 sound generator of [sn76489.c], its decimation to PCM and its
    consumer ring.

    The chip's arrays are lists; a register access is an index into them.  The
    PCM stream delivers to a sink, a function over the context it is given; the
    ring is one such sink.  [while (end >= boundary) emit_sample(pcm)] runs on
    fuel, the number of sample boundaries up to [end], and gives [None] without
    it: that the fuel is enough is part of the stream's theorem. *)

From S2P Require Import Prelude.

(** * The chip *)

Record Sn76489Config := mkConfig {
  noise_taps : Z;
  lfsr_bits : Z;
  divider : Z;
  levels : option (list Z);
}.

Definition sn76489_default_levels : list Z :=
  [32767; 26028; 20675; 16422; 13045; 10362; 8231; 6568; 5193; 4125; 3277; 2603; 2067; 1642; 1304; 0].

Definition sn76489_default_config : Sn76489Config := mkConfig 0x0009 16 16 (Some sn76489_default_levels).

Record Sn76489 := mkChip {
  config : Sn76489Config;
  tone_period : list Z;
  tone_counter : list Z;
  tone_output : list Z;
  attenuation : list Z;
  noise_control : Z;
  noise_counter : Z;
  noise_flip : Z;
  lfsr : Z;
  latch : Z;
  ticks : Z;
}.

Definition lfsr_seed (chip : Sn76489) : Z := u16 (1 .<< (lfsr_bits (config chip) - 1)).

(** [memset], the configuration put back, and the registers that are not zero. *)
Definition sn76489_reset (chip : Sn76489) : Sn76489 :=
  mkChip (config chip) [0; 0; 0] [0; 0; 0] [0; 0; 0] [0x0F; 0x0F; 0x0F; 0x0F] 0 0 0 (lfsr_seed chip) (-1) 0.

Definition sn76489_init (chip : Sn76489) (c : Sn76489Config) : bool * Sn76489 :=
  if (lfsr_bits c <? 2) || (16 <? lfsr_bits c) || (divider c =? 0) || negb (bool_decide (is_Some (levels c))) then (false, chip)
  else (true, sn76489_reset (mkChip c [0; 0; 0] [0; 0; 0] [0; 0; 0] [0; 0; 0; 0] 0 0 0 0 0 0)).

(** [chip->config.levels[attenuation & 15]] *)
Definition level_of (chip : Sn76489) (channel : Z) : Z :=
  znth (default [] (levels (config chip))) (znth (attenuation chip) channel 0 .& 15) 0.

Definition sn76489_level (chip : Sn76489) : Z :=
  let level :=
    zfor 0 3 (fun i level => if negb (znth (tone_output chip) i 0 =? 0) then u32 (level + level_of chip i) else level) 0 in
  if negb (lfsr chip .& 1 =? 0) then u32 (level + level_of chip 3) else level.

(** The bit shifted in at the top. *)
Definition lfsr_feedback (chip : Sn76489) : Z :=
  if negb (noise_control chip .& 4 =? 0) then
    let bits := lfsr chip .& noise_taps (config chip) in
    let bits := bits .^ (bits .>> 8) in
    let bits := bits .^ (bits .>> 4) in
    let bits := bits .^ (bits .>> 2) in
    let bits := bits .^ (bits .>> 1) in
    bits .& 1
  else lfsr chip .& 1.

Definition set_lfsr (chip : Sn76489) (v : Z) : Sn76489 :=
  mkChip (config chip) (tone_period chip) (tone_counter chip) (tone_output chip) (attenuation chip) (noise_control chip)
    (noise_counter chip) (noise_flip chip) v (latch chip) (ticks chip).

Definition shift_lfsr (chip : Sn76489) : Sn76489 :=
  set_lfsr chip (u16 ((lfsr chip .>> 1) .| (lfsr_feedback chip .<< (lfsr_bits (config chip) - 1)))).

(** [counter == 0u || --counter == 0u]: whether it expires, and the counter left. *)
Definition count_down (counter : Z) : bool * Z :=
  if counter =? 0 then (true, 0) else (counter - 1 =? 0, counter - 1).

Definition set_tone (chip : Sn76489) (i counter output : Z) : Sn76489 :=
  mkChip (config chip) (tone_period chip) (<[Z.to_nat i := counter]> (tone_counter chip))
    (<[Z.to_nat i := output]> (tone_output chip)) (attenuation chip) (noise_control chip) (noise_counter chip)
    (noise_flip chip) (lfsr chip) (latch chip) (ticks chip).

(** One round of the loop over the tone channels. *)
Definition tone_tick (i : Z) (chip : Sn76489) : Sn76489 :=
  let '(expired, counter) := count_down (znth (tone_counter chip) i 0) in
  let output := znth (tone_output chip) i 0 in
  if expired then set_tone chip i (znth (tone_period chip) i 0) (output .^ 1) else set_tone chip i counter output.

Definition set_noise (chip : Sn76489) (counter flip : Z) : Sn76489 :=
  mkChip (config chip) (tone_period chip) (tone_counter chip) (tone_output chip) (attenuation chip) (noise_control chip)
    counter flip (lfsr chip) (latch chip) (ticks chip).

(** The noise counter's reload. *)
Definition noise_reload (chip : Sn76489) : Z :=
  let rate := noise_control chip .& 3 in
  if rate =? 3 then znth (tone_period chip) 2 0 else u16 (0x10 .<< rate).

Definition noise_tick (chip : Sn76489) : Sn76489 :=
  let '(expired, counter) := count_down (noise_counter chip) in
  if expired then
    let chip := set_noise chip (noise_reload chip) (noise_flip chip .^ 1) in
    if negb (noise_flip chip =? 0) then shift_lfsr chip else chip
  else set_noise chip counter (noise_flip chip).

Definition count_tick (chip : Sn76489) : Sn76489 :=
  mkChip (config chip) (tone_period chip) (tone_counter chip) (tone_output chip) (attenuation chip) (noise_control chip)
    (noise_counter chip) (noise_flip chip) (lfsr chip) (latch chip) (u64 (ticks chip + 1)).

(** [sn76489_tick] up to the level: what one tick does to the chip. *)
Definition tick_chip (chip : Sn76489) : Sn76489 := count_tick (noise_tick (zfor 0 3 tone_tick chip)).

Definition set_latch (chip : Sn76489) (v : Z) : Sn76489 :=
  mkChip (config chip) (tone_period chip) (tone_counter chip) (tone_output chip) (attenuation chip) (noise_control chip)
    (noise_counter chip) (noise_flip chip) (lfsr chip) v (ticks chip).

Definition set_attenuation (chip : Sn76489) (channel v : Z) : Sn76489 :=
  mkChip (config chip) (tone_period chip) (tone_counter chip) (tone_output chip) (<[Z.to_nat channel := v]> (attenuation chip))
    (noise_control chip) (noise_counter chip) (noise_flip chip) (lfsr chip) (latch chip) (ticks chip).

Definition set_period (chip : Sn76489) (channel v : Z) : Sn76489 :=
  mkChip (config chip) (<[Z.to_nat channel := v]> (tone_period chip)) (tone_counter chip) (tone_output chip) (attenuation chip)
    (noise_control chip) (noise_counter chip) (noise_flip chip) (lfsr chip) (latch chip) (ticks chip).

Definition write_noise_control (chip : Sn76489) (value : Z) : Sn76489 :=
  set_lfsr
    (mkChip (config chip) (tone_period chip) (tone_counter chip) (tone_output chip) (attenuation chip) (u8 (value .& 7))
       (noise_counter chip) (noise_flip chip) (lfsr chip) (latch chip) (ticks chip))
    (lfsr_seed chip).

Inductive Sn76489WriteResult : Type := WRITE_OK | WRITE_DATA_BEFORE_LATCH.

(** The register a latch value names; [period] combines the old period and the byte. *)
Definition write_register (chip : Sn76489) (value : Z) (period : Z -> Z) : Sn76489 :=
  let channel := latch chip .>> 1 in
  if negb (latch chip .& 1 =? 0) then set_attenuation chip channel (u8 (value .& 15))
  else if channel <? 3 then set_period chip channel (u16 (period (znth (tone_period chip) channel 0)))
  else write_noise_control chip value.

Definition sn76489_write (chip : Sn76489) (value : Z) : Sn76489WriteResult * Sn76489 :=
  if negb (value .& 0x80 =? 0) then
    let chip := set_latch chip (i8 ((value .>> 4) .& 7)) in
    (WRITE_OK, write_register chip value (fun old => (old .& 0x3F0) .| (value .& 15)))
  else if latch chip <? 0 then (WRITE_DATA_BEFORE_LATCH, chip)
  else (WRITE_OK, write_register chip value (fun old => (old .& 0x00F) .| ((value .& 0x3F) .<< 4))).

(** The two bytes of a word, and the eight of the tick count, low byte first. *)
Definition word_bytes (w : Z) : list Z := [u8 w; u8 (w .>> 8)].

Definition sn76489_state_bytes (chip : Sn76489) : list Z :=
  concat (map (fun i => word_bytes (znth (tone_period chip) i 0)) (seqZ 0 3)) ++
  concat (map (fun i => word_bytes (znth (tone_counter chip) i 0)) (seqZ 0 3)) ++
  map (fun i => znth (tone_output chip) i 0) (seqZ 0 3) ++
  map (fun i => znth (attenuation chip) i 0) (seqZ 0 4) ++
  [noise_control chip] ++ word_bytes (noise_counter chip) ++ [noise_flip chip] ++ word_bytes (lfsr chip) ++
  [u8 (latch chip)] ++ map (fun i => u8 (ticks chip .>> (8 * i))) (seqZ 0 8).

(** * The PCM stream *)

Record Sn76489PcmConfig := mkPcmConfig { rate_num : Z; rate_den : Z; full_scale : Z }.

Definition sn76489_pcm_config_44100_sms : Sn76489PcmConfig := mkPcmConfig 39375000 485100 131068.

Definition PCM_BATCH : Z := 64.

(** [sink] is [None] when null; the context is the one the sink leaves. *)
Record Sn76489Pcm (C : Type) := mkPcm {
  pcm_config : Sn76489PcmConfig;
  sink : option (C -> Z -> list Z -> C);
  sink_context : C;
  index : Z;
  boundary : Z;
  sum : Z;
  count : Z;
  last_mean : Z;
  batch_first : Z;
  batch_count : Z;
  batch : list Z;
}.
Arguments mkPcm {C} _ _ _ _ _ _ _ _ _ _ _.
Arguments pcm_config {C} _.
Arguments sink {C} _.
Arguments sink_context {C} _.
Arguments index {C} _.
Arguments boundary {C} _.
Arguments sum {C} _.
Arguments count {C} _.
Arguments last_mean {C} _.
Arguments batch_first {C} _.
Arguments batch_count {C} _.
Arguments batch {C} _.

Definition sn76489_pcm_sample_start (c : Sn76489PcmConfig) (k : Z) : Z :=
  let product := u64 (k * rate_num c) in
  u64 (product / rate_den c + (if negb (product mod rate_den c =? 0) then 1 else 0)).

Section Pcm.
Context {C : Type}.

Definition sn76489_pcm_reset (p : Sn76489Pcm C) : Sn76489Pcm C :=
  mkPcm (pcm_config p) (sink p) (sink_context p) 0 (sn76489_pcm_sample_start (pcm_config p) 1) 0 0 0 0 0 (batch p).

Definition sn76489_pcm_init (c : Sn76489PcmConfig) (s : option (C -> Z -> list Z -> C)) (context : C) : Sn76489Pcm C :=
  sn76489_pcm_reset (mkPcm c s context 0 0 0 0 0 0 0 (replicate 64 0)).

Definition sn76489_pcm_flush (p : Sn76489Pcm C) : Sn76489Pcm C :=
  let context :=
    match sink p with
    | Some f =>
        if negb (batch_count p =? 0) then f (sink_context p) (batch_first p) (take (Z.to_nat (batch_count p)) (batch p))
        else sink_context p
    | None => sink_context p
    end in
  mkPcm (pcm_config p) (sink p) context (index p) (boundary p) (sum p) (count p) (last_mean p)
    (u64 (batch_first p + batch_count p)) 0 (batch p).

(** The value written for a mean level. *)
Definition sample_value (c : Sn76489PcmConfig) (mean : Z) : Z := i16 (i32 (u64 (mean * 65535) / full_scale c) - 32768).

Definition emit_sample (p : Sn76489Pcm C) : Sn76489Pcm C :=
  let mean := if negb (count p =? 0) then u32 (sum p / count p) else last_mean p in
  let batch' := <[Z.to_nat (batch_count p) := sample_value (pcm_config p) mean]> (batch p) in
  let index' := u64 (index p + 1) in
  let p :=
    mkPcm (pcm_config p) (sink p) (sink_context p) index' (sn76489_pcm_sample_start (pcm_config p) (u64 (index' + 1))) 0 0 mean
      (batch_first p) (u32 (batch_count p + 1)) batch' in
  if batch_count p =? PCM_BATCH then sn76489_pcm_flush p else p.

(** [while (end >= pcm->boundary) emit_sample(pcm);] *)
Fixpoint emit_samples (fuel : nat) (end_ : Z) (p : Sn76489Pcm C) : option (Sn76489Pcm C) :=
  if boundary p <=? end_ then
    match fuel with
    | O => None
    | S fuel => emit_samples fuel end_ (emit_sample p)
    end
  else Some p.

(** The boundaries up to [end_] that are still ahead. *)
Definition emit_fuel (end_ : Z) (p : Sn76489Pcm C) : nat :=
  Z.to_nat (end_ * rate_den (pcm_config p) / rate_num (pcm_config p) - index p).

Definition pcm_push_tick (p : Sn76489Pcm C) (end_ level : Z) : option (Sn76489Pcm C) :=
  let p :=
    mkPcm (pcm_config p) (sink p) (sink_context p) (index p) (boundary p) (u64 (sum p + level)) (u32 (count p + 1))
      (last_mean p) (batch_first p) (batch_count p) (batch p) in
  emit_samples (emit_fuel end_ p) end_ p.

(** * Ticks and time *)

(** [sn76489_tick]: the chip, the stream if there is one, and the level. *)
Definition sn76489_tick (chip : Sn76489) (pcm : option (Sn76489Pcm C)) : option (Sn76489 * option (Sn76489Pcm C) * Z) :=
  let chip := tick_chip chip in
  let level := sn76489_level chip in
  match pcm with
  | None => Some (chip, None, level)
  | Some p => p ← pcm_push_tick p (u64 (ticks chip * divider (config chip))) level; Some (chip, Some p, level)
  end.

(** [while (chip->ticks < target)], which runs [target - ticks] times. *)
Fixpoint run_ticks (n : nat) (chip : Sn76489) (pcm : option (Sn76489Pcm C)) : option (Sn76489 * option (Sn76489Pcm C)) :=
  match n with
  | O => Some (chip, pcm)
  | S n => '(chip, pcm, _) ← sn76489_tick chip pcm; run_ticks n chip pcm
  end.

Definition sn76489_advance (chip : Sn76489) (pcm : option (Sn76489Pcm C)) (cycles : Z) : option (Sn76489 * option (Sn76489Pcm C)) :=
  run_ticks (Z.to_nat (cycles / divider (config chip) - ticks chip)) chip pcm.
End Pcm.

(** * The ring *)

Record Sn76489Ring := mkRing {
  ring_data : list Z;
  ring_capacity : Z;
  write_index : Z;
  read_index : Z;
  dropped : Z;
}.

Definition sn76489_ring_clear (r : Sn76489Ring) : Sn76489Ring := mkRing (ring_data r) (ring_capacity r) 0 0 0.

Definition sn76489_ring_init (storage : list Z) (capacity : Z) : Sn76489Ring :=
  sn76489_ring_clear (mkRing storage capacity 0 0 0).

(** One round of the loop over the samples delivered. *)
Definition ring_push (r : Sn76489Ring) (sample : Z) : Sn76489Ring :=
  let full := u64 (write_index r - read_index r) =? ring_capacity r in
  mkRing (<[Z.to_nat (write_index r mod ring_capacity r) := sample]> (ring_data r)) (ring_capacity r)
    (u64 (write_index r + 1)) (if full then u64 (read_index r + 1) else read_index r)
    (if full then u64 (dropped r + 1) else dropped r).

Definition sn76489_ring_sink (r : Sn76489Ring) (first_index : Z) (samples : list Z) : Sn76489Ring :=
  if ring_capacity r =? 0 then r else fold_left ring_push samples r.

Definition sn76489_ring_available (r : Sn76489Ring) : Z := u32 (write_index r - read_index r).

(** The samples copied out, the absolute index of the first, and the ring left. *)
Definition sn76489_ring_read (r : Sn76489Ring) (max : Z) : list Z * Z * Sn76489Ring :=
  let n := sn76489_ring_available r in
  let n := if max <? n then max else n in
  (map (fun i => znth (ring_data r) (u64 (read_index r + i) mod ring_capacity r) 0) (seqZ 0 n), read_index r,
   mkRing (ring_data r) (ring_capacity r) (write_index r) (u64 (read_index r + n)) (dropped r)).

(** * The registers' ranges *)

(** [n] registers, each below [bound]. *)
Definition registers (l : list Z) (n bound : Z) : Prop := zlen l = n /\ Forall (fun x => 0 <= x < bound) l.

Record config_ok (c : Sn76489Config) : Prop := {
  ok_bits : 2 <= lfsr_bits c <= 16;
  ok_divider : 1 <= divider c < 256;
  ok_taps : is_u16 (noise_taps c);
  ok_levels : exists l, levels c = Some l /\ registers l 16 65536;
}.

Record chip_ok (chip : Sn76489) : Prop := {
  ok_config : config_ok (config chip);
  ok_period : registers (tone_period chip) 3 1024;
  ok_counter : registers (tone_counter chip) 3 1024;
  ok_output : registers (tone_output chip) 3 2;
  ok_attenuation : registers (attenuation chip) 4 16;
  ok_noise_control : 0 <= noise_control chip < 8;
  ok_noise_counter : 0 <= noise_counter chip < 1024;
  ok_noise_flip : 0 <= noise_flip chip < 2;
  ok_lfsr : 0 <= lfsr chip < 2 ^ lfsr_bits (config chip);
  ok_latch : -1 <= latch chip < 8;
  ok_ticks : is_u64 (ticks chip);
}.

Lemma registers_znth l n bound i : registers l n bound -> 0 < bound -> 0 <= znth l i 0 < bound.
Proof.
  intros [_ Hl] Hb. revert i. induction Hl as [|x l Hx _ IH]; intros i; cbn; [lia|]. destruct (_ =? _); [done|apply IH].
Qed.

Ltac by_registers := split; [done|repeat (apply Forall_cons; split; [lia|]); apply Forall_nil_2].

Lemma registers_insert l n bound i x : 0 <= x < bound -> registers l n bound -> registers (<[i := x]> l) n bound.
Proof. intros Hx [Hn Hl]. split; [by rewrite zlen_insert|]. by apply Forall_insert. Qed.

Lemma bit_flip x : 0 <= x < 2 -> x .^ 1 = 1 - x.
Proof. intros Hx. assert (x = 0 \/ x = 1) as [-> | ->] by lia; done. Qed.

Lemma count_down_range counter bound expired c : 0 <= counter < bound -> count_down counter = (expired, c) -> 0 <= c < bound.
Proof. unfold count_down. destruct (Z.eqb_spec counter 0); intros H E; injection E as _ <-; lia. Qed.

Lemma tone_tick_ok i chip : chip_ok chip -> chip_ok (tone_tick i chip).
Proof.
  intros [Hc Hp Hk Ho Ha Hn Hnc Hf Hl Hla Ht]. unfold tone_tick.
  pose proof (registers_znth _ _ _ i Hk ltac:(lia)) as Hki. pose proof (registers_znth _ _ _ i Ho ltac:(lia)) as Hoi.
  pose proof (registers_znth _ _ _ i Hp ltac:(lia)) as Hpi.
  destruct (count_down _) as [expired counter] eqn:E. apply (count_down_range _ 1024) in E; [|done].
  destruct expired; split; cbn; try done; apply registers_insert; try done. rewrite bit_flip; lia.
Qed.

Lemma tone_ticks_ok chip : chip_ok chip -> chip_ok (zfor 0 3 tone_tick chip).
Proof. intros H. apply (zfor_ind (fun _ c => chip_ok c)); [lia|done|]. intros i c _. apply tone_tick_ok. Qed.

Lemma noise_reload_range chip : chip_ok chip -> 0 <= noise_reload chip < 1024.
Proof.
  intros H. unfold noise_reload. cbv zeta. rewrite (land_ones_mod _ 2) by lia. change (2 ^ 2) with 4.
  pose proof (Z.mod_pos_bound (noise_control chip) 4 ltac:(lia)) as Hr.
  destruct (Z.eqb_spec (noise_control chip mod 4) 3); [apply (registers_znth _ 3); [apply H|lia]|].
  assert (noise_control chip mod 4 = 0 \/ noise_control chip mod 4 = 1 \/ noise_control chip mod 4 = 2) as [E | [E | E]] by lia;
    by rewrite E.
Qed.

Lemma feedback_range chip : 0 <= lfsr_feedback chip < 2.
Proof.
  unfold lfsr_feedback. cbv zeta. change 1 with (2 ^ 1 - 1). destruct (negb _); rewrite land_ones_mod by lia; by apply Z.mod_pos_bound.
Qed.

(** The shifted register, without wrap-around: the feedback is its top bit. *)
Lemma shifted_lfsr chip : chip_ok chip ->
  lfsr (shift_lfsr chip) = lfsr chip / 2 + lfsr_feedback chip * 2 ^ (lfsr_bits (config chip) - 1).
Proof.
  intros H. pose proof (ok_bits _ (ok_config _ H)) as Hb. pose proof (ok_lfsr _ H) as Hl. pose proof (feedback_range chip) as Hf.
  unfold shift_lfsr, set_lfsr. cbn [lfsr]. rewrite Z.shiftr_div_pow2, Z.shiftl_mul_pow2 by lia. change (2 ^ 1) with 2.
  set (n := lfsr_bits (config chip) - 1) in *. replace (lfsr_bits (config chip)) with (n + 1) in Hl by lia.
  rewrite Z.pow_add_r in Hl by lia. change (2 ^ 1) with 2 in Hl.
  assert (Hd : 0 <= lfsr chip / 2 < 2 ^ n) by (split; [apply Z.div_pos; lia|apply Z.div_lt_upper_bound; lia]).
  assert (Hn : 2 ^ n <= 2 ^ 15) by (apply Z.pow_le_mono_r; lia). change (2 ^ 15) with 32768 in Hn.
  rewrite <- (Z.shiftl_mul_pow2 _ n), lor_shiftl, Z.shiftl_mul_pow2 by lia. rewrite (Z.mul_comm (2 ^ n)). apply u16_id. unfold is_u16. nia.
Qed.

Lemma shift_lfsr_ok chip : chip_ok chip -> chip_ok (shift_lfsr chip).
Proof.
  intros H. pose proof (shifted_lfsr chip H) as E. destruct H as [Hc Hp Hk Ho Ha Hn Hnc Hf Hl Hla Ht]. split; try done.
  rewrite E. change (config (shift_lfsr chip)) with (config chip). pose proof (ok_bits _ Hc) as Hb. pose proof (feedback_range chip) as Hf'.
  set (n := lfsr_bits (config chip) - 1) in *. replace (lfsr_bits (config chip)) with (n + 1) in * by lia.
  rewrite Z.pow_add_r in * by lia. change (2 ^ 1) with 2 in *. pose proof (Z.pow_pos_nonneg 2 n ltac:(lia) ltac:(lia)).
  Z.to_euclidean_division_equations. nia.
Qed.

Lemma set_noise_ok chip counter flip : chip_ok chip -> 0 <= counter < 1024 -> 0 <= flip < 2 -> chip_ok (set_noise chip counter flip).
Proof. intros [Hc Hp Hk Ho Ha Hn Hnc Hf Hl Hla Ht] Hcounter Hflip. by split. Qed.

Lemma noise_tick_ok chip : chip_ok chip -> chip_ok (noise_tick chip).
Proof.
  intros H. unfold noise_tick. destruct (count_down _) as [expired counter] eqn:E.
  apply (count_down_range _ 1024) in E; [|apply H]. pose proof (ok_noise_flip _ H) as Hf.
  destruct expired; [|by apply set_noise_ok].
  assert (Hs : chip_ok (set_noise chip (noise_reload chip) (noise_flip chip .^ 1))).
  { apply set_noise_ok; [done|by apply noise_reload_range|]. rewrite bit_flip; lia. }
  cbv zeta. destruct (negb _); [by apply shift_lfsr_ok|done].
Qed.

Lemma tick_ok chip : chip_ok chip -> chip_ok (tick_chip chip).
Proof.
  intros H. unfold tick_chip. apply tone_ticks_ok, noise_tick_ok in H. destruct H as [Hc Hp Hk Ho Ha Hn Hnc Hf Hl Hla Ht].
  split; try done. apply u64_range.
Qed.

Lemma seed_range c : config_ok c -> 0 < 2 ^ (lfsr_bits c - 1) < 2 ^ lfsr_bits c /\
  u16 (1 .<< (lfsr_bits c - 1)) = 2 ^ (lfsr_bits c - 1).
Proof.
  intros H. pose proof (ok_bits _ H) as Hb. rewrite Z.shiftl_1_l.
  assert (Hn : 2 ^ (lfsr_bits c - 1) <= 2 ^ 15) by (apply Z.pow_le_mono_r; lia). change (2 ^ 15) with 32768 in Hn.
  pose proof (Z.pow_pos_nonneg 2 (lfsr_bits c - 1) ltac:(lia) ltac:(lia)). split.
  - replace (lfsr_bits c) with (lfsr_bits c - 1 + 1) at 3 by lia. rewrite Z.pow_add_r by lia. lia.
  - apply u16_id. unfold is_u16. lia.
Qed.

Lemma nibble_range x : 0 <= u8 (x .& 15) < 16.
Proof.
  rewrite (land_ones_mod _ 4) by lia. pose proof (Z.mod_pos_bound x 16 ltac:(lia)). rewrite u8_id; [done|]. unfold is_u8. change (2 ^ 4) with 16. lia.
Qed.

(** The two ways a byte replaces a part of a period. *)
Lemma period_low old value : 0 <= old < 1024 -> (old .& 0x3F0) .| (value .& 15) = 16 * (old / 16) + value mod 16.
Proof.
  intros Ho. rewrite (land_ones_mod _ 4) by lia. change (2 ^ 4) with 16.
  assert (E : old .& 0x3F0 = (old / 16) .<< 4).
  { assert (Eo : old = ((old / 16) .<< 4) .| (old mod 16)).
    { rewrite shiftl_lor by (lia || (apply Z.mod_pos_bound; lia)). change (2 ^ 4) with 16. by apply Z.div_mod. }
    replace 0x3F0 with ((2 ^ 6 - 1) .<< 4) by reflexivity. rewrite Eo at 1. rewrite Z.land_lor_distr_l, <- Z.shiftl_land, land_ones_mod, Z.mod_small by (lia || (Z.to_euclidean_division_equations; lia)).
    replace ((old mod 16) .& ((2 ^ 6 - 1) .<< 4)) with 0; [by rewrite Z.lor_0_r|]. symmetry. apply Z.bits_inj'. intros i Hi.
    rewrite Z.land_spec, Z.shiftl_spec, Z.bits_0 by lia. destruct (decide (i < 4)).
    - rewrite (Z.testbit_neg_r _ (i - 4)) by lia. apply andb_false_r.
    - change 16 with (2 ^ 4). by rewrite Z.mod_pow2_bits_high by lia. }
  rewrite E, shiftl_lor by (lia || (apply Z.mod_pos_bound; lia)). lia.
Qed.

Lemma period_high old value : 0 <= old < 1024 -> (old .& 0x00F) .| ((value .& 0x3F) .<< 4) = old mod 16 + 16 * (value mod 64).
Proof.
  intros Ho. rewrite (land_ones_mod _ 4), (land_ones_mod _ 6) by lia. change (2 ^ 4) with 16. change (2 ^ 6) with 64.
  rewrite lor_shiftl by (lia || (apply Z.mod_pos_bound; lia)). lia.
Qed.

Lemma write_register_ok chip value period : chip_ok chip -> 0 <= latch chip ->
  (forall old, 0 <= old < 1024 -> 0 <= period old < 1024) -> chip_ok (write_register chip value period).
Proof.
  intros H Hlatch Hperiod. pose proof (seed_range _ (ok_config _ H)) as [Hs Es].
  pose proof (registers_znth _ _ _ (latch chip .>> 1) (ok_period _ H) ltac:(lia)) as Ho. apply Hperiod in Ho.
  destruct H as [Hc Hp Hk Ho' Ha Hn Hnc Hf Hl Hla Ht]. unfold write_register. cbv zeta.
  destruct (negb _); [split; try done; apply registers_insert; [apply nibble_range|done]|]. destruct (_ <? 3).
  - split; try done. apply registers_insert; [|done]. rewrite u16_id; [done|]. unfold is_u16. lia.
  - split; try done; cbn [noise_control write_noise_control set_lfsr lfsr config].
    + rewrite (land_ones_mod _ 3) by lia. pose proof (Z.mod_pos_bound value 8 ltac:(lia)). change (2 ^ 3) with 8.
      rewrite u8_id; [done|unfold is_u8; lia].
    + unfold lfsr_seed. rewrite Es. lia.
Qed.

Lemma latch_range value : 0 <= i8 ((value .>> 4) .& 7) < 8 /\ i8 ((value .>> 4) .& 7) = (value / 16) mod 8.
Proof.
  rewrite (land_ones_mod _ 3), Z.shiftr_div_pow2 by lia. change (2 ^ 3) with 8. change (2 ^ 4) with 16.
  pose proof (Z.mod_pos_bound (value / 16) 8 ltac:(lia)). unfold i8. rewrite Z.mod_small by lia. lia.
Qed.

Lemma write_ok chip value : chip_ok chip -> chip_ok (sn76489_write chip value).2.
Proof.
  intros H. unfold sn76489_write. destruct (negb _).
  - pose proof (latch_range value) as [Hl _]. cbv zeta. cbn [snd]. apply write_register_ok; [|cbn; lia|].
    + destruct H as [Hc Hp Hk Ho Ha Hn Hnc Hf Hl' Hla Ht]. split; try done. cbn. lia.
    + intros old Ho. rewrite period_low by done. Z.to_euclidean_division_equations; lia.
  - destruct (Z.ltb_spec (latch chip) 0); [done|]. apply write_register_ok; [done|done|].
    intros old Ho. rewrite period_high by done. Z.to_euclidean_division_equations; lia.
Qed.

(** * Reachable chips *)

(** The field types of a configuration, and the table [levels] points to. *)
Record config_typed (c : Sn76489Config) : Prop := {
  typed_divider : is_u8 (divider c);
  typed_taps : is_u16 (noise_taps c);
  typed_levels : forall l, levels c = Some l -> registers l 16 65536;
}.

(** What a host can do to a chip of configuration [c], in any order. *)
Inductive chip_reachable (c : Sn76489Config) : Sn76489 -> Prop :=
| reach_init old chip : sn76489_init old c = (true, chip) -> chip_reachable c chip
| reach_tick chip : chip_reachable c chip -> chip_reachable c (tick_chip chip)
| reach_write chip value : chip_reachable c chip -> is_u8 value -> chip_reachable c (sn76489_write chip value).2
| reach_reset chip : chip_reachable c chip -> chip_reachable c (sn76489_reset chip).

Lemma reset_ok chip : config_ok (config chip) -> chip_ok (sn76489_reset chip).
Proof.
  intros H. pose proof (seed_range _ H) as [Hs Es].
  split; try done; cbn [sn76489_reset lfsr config]; try (by_registers).
  unfold lfsr_seed. rewrite Es. lia.
Qed.

Lemma init_success old c chip : config_typed c -> sn76489_init old c = (true, chip) ->
  config_ok c /\ config chip = c /\ chip = sn76489_reset chip.
Proof.
  intros [Hd Ht Hl] E. unfold sn76489_init in E. destruct (_ || _) eqn:B; [discriminate E|]. injection E as <-.
  apply orb_false_iff in B as [B B4]. apply orb_false_iff in B as [B B3]. apply orb_false_iff in B as [B1 B2].
  apply Z.ltb_ge in B1, B2. apply Z.eqb_neq in B3. apply negb_false_iff, bool_decide_eq_true in B4 as [l El].
  split; [|done]. split; [lia|unfold is_u8 in Hd; lia|done|]. exists l. auto.
Qed.

Lemma set_period_config chip channel v : config (set_period chip channel v) = config chip.
Proof. done. Qed.

Lemma write_register_config chip value period : config (write_register chip value period) = config chip.
Proof. unfold write_register. cbv zeta. destruct (negb _); [done|]. by destruct (_ <? 3). Qed.

Lemma write_config chip value : config (sn76489_write chip value).2 = config chip.
Proof.
  unfold sn76489_write. destruct (negb _); [apply (write_register_config (set_latch chip _))|].
  destruct (_ <? 0); [done|apply write_register_config].
Qed.

Lemma tone_ticks_keep {A} (f : Sn76489 -> A) chip : (forall c i counter output, f (set_tone c i counter output) = f c) ->
  f (zfor 0 3 tone_tick chip) = f chip.
Proof.
  intros H. apply (zfor_ind (fun _ c => f c = f chip)); [lia|done|]. intros i c _ <-. unfold tone_tick.
  destruct (count_down _) as [[] counter]; apply H.
Qed.

Lemma noise_tick_keeps {A} (f : Sn76489 -> A) chip : (forall c counter flip, f (set_noise c counter flip) = f c) ->
  (forall c v, f (set_lfsr c v) = f c) -> f (noise_tick chip) = f chip.
Proof.
  intros H1 H2. unfold noise_tick. destruct (count_down _) as [[] counter]; [|apply H1]. cbv zeta.
  destruct (negb _); [unfold shift_lfsr; rewrite H2|]; apply H1.
Qed.

(** What a tick leaves alone. *)
Lemma tick_keeps {A} (f : Sn76489 -> A) chip : (forall c i counter output, f (set_tone c i counter output) = f c) ->
  (forall c counter flip, f (set_noise c counter flip) = f c) -> (forall c v, f (set_lfsr c v) = f c) ->
  (forall c, f (count_tick c) = f c) -> f (tick_chip chip) = f chip.
Proof. intros H1 H2 H3 H4. unfold tick_chip. by rewrite H4, noise_tick_keeps, tone_ticks_keep. Qed.

Lemma zfor3 {T} (f : Z -> T -> T) s : zfor 0 3 f s = f 2 (f 1 (f 0 s)).
Proof. with_strategy transparent [zfor] reflexivity. Qed.

(** The shift register never empties when its lowest bit is tapped. *)
Lemma shift_nonzero chip : chip_ok chip -> Z.odd (noise_taps (config chip)) = true -> lfsr chip <> 0 -> lfsr (shift_lfsr chip) <> 0.
Proof.
  intros H Hodd Hne E. rewrite shifted_lfsr in E by done. pose proof (ok_lfsr _ H) as Hl. pose proof (feedback_range chip) as Hf.
  pose proof (ok_bits _ (ok_config _ H)) as Hb. pose proof (Z.pow_pos_nonneg 2 (lfsr_bits (config chip) - 1) ltac:(lia) ltac:(lia)).
  assert (E1 : lfsr chip = 1) by (Z.to_euclidean_division_equations; nia).
  assert (E0 : lfsr_feedback chip = 0) by (Z.to_euclidean_division_equations; nia).
  unfold lfsr_feedback in E0. rewrite E1 in E0. cbv zeta in E0. destruct (negb _); [|discriminate E0].
  replace (1 .& noise_taps (config chip)) with 1 in E0; [discriminate E0|].
  rewrite Z.land_comm, (land_ones_mod _ 1), <- Z.bit0_mod, Z.bit0_odd, Hodd by lia. done.
Qed.

Lemma tick_nonzero chip : chip_ok chip -> Z.odd (noise_taps (config chip)) = true -> lfsr chip <> 0 -> lfsr (tick_chip chip) <> 0.
Proof.
  intros H Hodd Hne. unfold tick_chip. cbn [count_tick lfsr]. set (c := zfor 0 3 tone_tick chip).
  assert (Hl : lfsr c = lfsr chip) by (by apply (tone_ticks_keep lfsr)).
  assert (Hc : config c = config chip) by (by apply (tone_ticks_keep config)).
  pose proof (tone_ticks_ok chip H) as Hok. fold c in Hok. rewrite <- Hl in Hne. rewrite <- Hc in Hodd.
  clearbody c. unfold noise_tick. destruct (count_down _) as [[] counter] eqn:E; [|done]. cbv zeta.
  destruct (negb _); [|done]. apply shift_nonzero; [|done|done]. apply set_noise_ok; [done|by apply noise_reload_range|].
  pose proof (ok_noise_flip _ Hok). rewrite bit_flip; lia.
Qed.

Lemma write_nonzero chip value : chip_ok chip -> lfsr chip <> 0 -> lfsr (sn76489_write chip value).2 <> 0.
Proof.
  intros H Hne. pose proof (seed_range _ (ok_config _ H)) as [Hs Es].
  assert (Hreg : forall c period, config c = config chip -> lfsr c <> 0 -> lfsr (write_register c value period) <> 0).
  { intros c period Ec Hl. unfold write_register. cbv zeta. destruct (negb _); [done|]. destruct (_ <? 3); [done|].
    cbn. unfold lfsr_seed. cbn [config]. rewrite Ec, Es. lia. }
  unfold sn76489_write. destruct (negb _); [by apply Hreg|]. destruct (_ <? 0); [done|by apply Hreg].
Qed.

Lemma level_of_bound chip i M : registers (default [] (levels (config chip))) 16 (M + 1) -> 0 <= M -> 0 <= level_of chip i <= M.
Proof. intros H HM. pose proof (registers_znth _ _ _ (znth (attenuation chip) i 0 .& 15) H ltac:(lia)). unfold level_of. lia. Qed.

Lemma level_bound chip M : registers (default [] (levels (config chip))) 16 (M + 1) -> 0 <= M < 65536 ->
  0 <= sn76489_level chip <= 4 * M.
Proof.
  intros H HM. unfold sn76489_level. rewrite zfor3. pose proof (fun i => level_of_bound chip i M H ltac:(lia)) as Hl.
  assert (Hs : forall (b : bool) x i k, 0 <= x <= k * M -> 0 <= k <= 3 ->
    0 <= (if b then u32 (x + level_of chip i) else x) <= (k + 1) * M).
  { intros b x i k Hx Hk. specialize (Hl i). destruct b; [rewrite u32_id; [nia|unfold is_u32; nia]|nia]. }
  apply (Hs _ _ 3 3); [|lia]. apply (Hs _ _ 2 2); [|lia]. apply (Hs _ _ 1 1); [|lia]. apply (Hs _ _ 0 0); lia.
Qed.

(** What holds of every chip.  Whatever ticks, register writes and resets
    follow a successful initialisation, every register stays in its range, the
    configuration is the one given, a shift register whose lowest bit is tapped is
    never empty, and the mixer level is at most four times the loudest level, the
    full scale a host divides by. *)
Theorem chip_invariant (c : Sn76489Config) (chip : Sn76489) (Htyped : config_typed c) (Hreach : chip_reachable c chip) :
  chip_ok chip /\ config chip = c /\ (Z.odd (noise_taps c) = true -> lfsr chip <> 0) /\
  forall M, 0 <= M < 65536 -> registers (default [] (levels c)) 16 (M + 1) -> 0 <= sn76489_level chip <= 4 * M.
Proof.
  assert (H : chip_ok chip /\ config chip = c /\ (Z.odd (noise_taps c) = true -> lfsr chip <> 0)).
  { assert (Hreset : forall x, config_ok (config x) -> lfsr (sn76489_reset x) <> 0).
    { intros x Hx. pose proof (seed_range _ Hx) as [Hs Es]. cbn. unfold lfsr_seed. lia. }
    induction Hreach as [old chip Hinit|chip _ (Hok & Hc & Hl)|chip value _ (Hok & Hc & Hl) _|chip _ (Hok & Hc & Hl)].
    - apply init_success in Hinit as (Hok & Hc & E); [|done]. subst c. rewrite E.
      split; [by apply reset_ok|]. split; [done|]. intros _. by apply Hreset.
    - split; [by apply tick_ok|]. split; [by rewrite (tick_keeps config)|]. intros Hodd.
      apply tick_nonzero; [done|by rewrite Hc|by apply Hl].
    - split; [by apply write_ok|]. split; [by rewrite write_config|]. intros Hodd. apply write_nonzero; [done|by apply Hl].
    - split; [apply reset_ok, Hok|]. split; [done|]. intros _. by apply Hreset, Hok. }
  destruct H as (Hok & Hc & Hl). split_and!; [done|done|done|]. intros M HM HL. apply level_bound; [by rewrite Hc|done].
Qed.

Lemma default_typed : config_typed sn76489_default_config.
Proof.
  split; [unfold is_u8; cbn; lia|unfold is_u16; cbn; lia|]. intros l E. injection E as <-.
  by_registers.
Qed.

Lemma chip_invariant_witness :
  let chip := tick_chip (sn76489_write (sn76489_init (mkChip sn76489_default_config [] [] [] [] 0 0 0 0 0 0) sn76489_default_config).2 0xE7).2 in
  chip_reachable sn76489_default_config chip /\ lfsr chip <> 0 /\ 0 <= sn76489_level chip <= 131068.
Proof.
  set (blank := mkChip sn76489_default_config [] [] [] [] 0 0 0 0 0 0). intros chip.
  assert (H : chip_reachable sn76489_default_config chip).
  { apply reach_tick, reach_write; [|unfold is_u8; lia]. by apply (reach_init _ blank). }
  split; [exact H|]. destruct (chip_invariant sn76489_default_config chip default_typed H) as (_ & _ & Hl & HM).
  split; [by apply Hl|]. apply (HM 32767); [lia|]. by_registers.
Defined.

(** * Between two writes *)

(** How often a counter that holds [counter] and reloads [period] expires in [n] ticks. *)
Definition expiries (counter period n : Z) : Z :=
  if n <? Z.max 1 counter then 0 else 1 + (n - Z.max 1 counter) / Z.max 1 period.

Lemma expiries_0 counter period : expiries counter period 0 = 0.
Proof. unfold expiries. destruct (Z.ltb_spec 0 (Z.max 1 counter)); lia. Qed.

Lemma expiries_step counter period n : 0 <= counter -> 0 <= n ->
  expiries counter period (n + 1) =
    let '(expired, c) := count_down counter in if expired then 1 + expiries period period n else expiries c period n.
Proof.
  intros Hc Hn. unfold count_down, expiries. destruct (Z.eqb_spec counter 0) as [->|H0].
  - rewrite (proj2 (Z.ltb_ge (n + 1) _)) by lia. destruct (Z.ltb_spec n (Z.max 1 period)).
    + rewrite Z.div_small; lia.
    + replace (n + 1 - Z.max 1 0) with (n - Z.max 1 period + 1 * Z.max 1 period) by lia. rewrite Z.div_add; lia.
  - destruct (Z.eqb_spec (counter - 1) 0).
    + rewrite (proj2 (Z.ltb_ge (n + 1) _)) by lia. destruct (Z.ltb_spec n (Z.max 1 period)).
      * rewrite Z.div_small; lia.
      * replace (n + 1 - Z.max 1 counter) with (n - Z.max 1 period + 1 * Z.max 1 period) by lia. rewrite Z.div_add; lia.
    + replace (Z.max 1 counter) with (Z.max 1 (counter - 1) + 1) by lia.
      destruct (Z.ltb_spec (n + 1) (Z.max 1 (counter - 1) + 1)), (Z.ltb_spec n (Z.max 1 (counter - 1))); try lia.
      do 2 f_equal. lia.
Qed.

Lemma expiries_nonneg counter period n : 0 <= expiries counter period n.
Proof. unfold expiries. destruct (Z.ltb_spec n (Z.max 1 counter)); [lia|]. pose proof (Z.div_pos (n - Z.max 1 counter) (Z.max 1 period)). lia. Qed.

Lemma tone_tick_other i j chip : i <> j -> 0 <= i -> 0 <= j -> registers (tone_counter chip) 3 1024 ->
  registers (tone_output chip) 3 2 -> i < 3 ->
  znth (tone_counter (tone_tick i chip)) j 0 = znth (tone_counter chip) j 0 /\
  znth (tone_output (tone_tick i chip)) j 0 = znth (tone_output chip) j 0.
Proof.
  intros Hne Hi Hj [Hk _] [Ho _] Hlt. unfold tone_tick. destruct (count_down _) as [[] counter]; cbn [set_tone tone_counter tone_output];
    rewrite !znth_insert by lia; by rewrite (proj2 (Z.eqb_neq j i)).
Qed.

(** One tick of a tone channel. *)
Lemma tick_tone chip i : chip_ok chip -> 0 <= i < 3 ->
  let '(expired, c) := count_down (znth (tone_counter chip) i 0) in
  znth (tone_counter (tick_chip chip)) i 0 = (if expired then znth (tone_period chip) i 0 else c) /\
  znth (tone_output (tick_chip chip)) i 0 = (if expired then 1 - znth (tone_output chip) i 0 else znth (tone_output chip) i 0).
Proof.
  intros H Hi. unfold tick_chip. cbn [count_tick tone_counter tone_output].
  rewrite (noise_tick_keeps tone_counter), (noise_tick_keeps tone_output) by done. rewrite zfor3.
  assert (Hself : forall c, chip_ok c -> let '(expired, k) := count_down (znth (tone_counter c) i 0) in
    znth (tone_counter (tone_tick i c)) i 0 = (if expired then znth (tone_period c) i 0 else k) /\
    znth (tone_output (tone_tick i c)) i 0 = (if expired then 1 - znth (tone_output c) i 0 else znth (tone_output c) i 0)).
  { intros c Hc. pose proof (registers_znth _ _ _ i (ok_output _ Hc) ltac:(lia)) as Ho. unfold tone_tick.
    destruct (ok_counter _ Hc) as [Lk _], (ok_output _ Hc) as [Lo _].
    destruct (count_down _) as [[] k]; cbn [set_tone tone_counter tone_output]; rewrite !znth_insert, Z.eqb_refl by lia; [|done].
    by rewrite bit_flip. }
  assert (Hother : forall c j, j <> i -> 0 <= j < 3 -> chip_ok c ->
    znth (tone_counter (tone_tick j c)) i 0 = znth (tone_counter c) i 0 /\
    znth (tone_output (tone_tick j c)) i 0 = znth (tone_output c) i 0).
  { intros c j Hne Hj Hc. apply tone_tick_other; try lia; apply Hc. }
  assert (Hp : forall c j, tone_period (tone_tick j c) = tone_period c).
  { intros c j. unfold tone_tick. by destruct (count_down _) as [[] k]. }
  pose proof (tone_tick_ok 0 chip H) as H1. pose proof (tone_tick_ok 1 _ H1) as H2.
  assert (i = 0 \/ i = 1 \/ i = 2) as [-> | [-> | ->]] by lia.
  - destruct (Hother _ 2 ltac:(lia) ltac:(lia) H2) as [-> ->], (Hother _ 1 ltac:(lia) ltac:(lia) H1) as [-> ->]. by apply Hself.
  - destruct (Hother _ 2 ltac:(lia) ltac:(lia) H2) as [-> ->]. pose proof (Hself _ H1) as Hs.
    destruct (Hother _ 0 ltac:(lia) ltac:(lia) H) as [Ek Eo]. rewrite Hp, Ek, Eo in Hs. exact Hs.
  - pose proof (Hself _ H2) as Hs. destruct (Hother _ 1 ltac:(lia) ltac:(lia) H1) as [Ek1 Eo1].
    destruct (Hother _ 0 ltac:(lia) ltac:(lia) H) as [Ek Eo]. rewrite !Hp, Ek1, Eo1, Ek, Eo in Hs. exact Hs.
Qed.

(** The shift register's next value under a chip's configuration and noise control. *)
Definition next_lfsr (chip : Sn76489) (v : Z) : Z := lfsr (shift_lfsr (set_lfsr chip v)).

Lemma next_lfsr_same c c' v : config c = config c' -> noise_control c = noise_control c' -> next_lfsr c v = next_lfsr c' v.
Proof. intros Hc Hn. unfold next_lfsr, shift_lfsr, lfsr_feedback. cbn. by rewrite Hc, Hn. Qed.

Lemma noise_reload_same c c' : noise_control c = noise_control c' -> tone_period c = tone_period c' ->
  noise_reload c = noise_reload c'.
Proof. intros Hn Hp. unfold noise_reload. by rewrite Hn, Hp. Qed.

(** One tick of the noise channel. *)
Lemma tick_noise chip : chip_ok chip ->
  let '(expired, c) := count_down (noise_counter chip) in
  noise_counter (tick_chip chip) = (if expired then noise_reload chip else c) /\
  noise_flip (tick_chip chip) = (if expired then 1 - noise_flip chip else noise_flip chip) /\
  lfsr (tick_chip chip) = (if expired && (noise_flip chip =? 0) then next_lfsr chip (lfsr chip) else lfsr chip).
Proof.
  intros H. unfold tick_chip. cbn [count_tick noise_counter noise_flip lfsr].
  pose proof (tone_ticks_keep noise_counter chip (fun _ _ _ _ => eq_refl)) as Enc.
  pose proof (tone_ticks_keep noise_flip chip (fun _ _ _ _ => eq_refl)) as Ef.
  pose proof (tone_ticks_keep lfsr chip (fun _ _ _ _ => eq_refl)) as El.
  pose proof (tone_ticks_keep config chip (fun _ _ _ _ => eq_refl)) as Ec.
  pose proof (tone_ticks_keep noise_control chip (fun _ _ _ _ => eq_refl)) as En.
  pose proof (tone_ticks_keep tone_period chip (fun _ _ _ _ => eq_refl)) as Ep.
  set (c := zfor 0 3 tone_tick chip) in *. clearbody c. unfold noise_tick. rewrite Enc.
  pose proof (ok_noise_flip _ H) as Hf. destruct (count_down _) as [[] k]; [|done].
  rewrite (noise_reload_same c chip), Ef, bit_flip by done. cbv zeta. cbn [set_noise noise_flip].
  assert (noise_flip chip = 0 \/ noise_flip chip = 1) as [-> | ->] by lia; cbn; [|done].
  split_and!; [done|done|]. rewrite <- El. unfold next_lfsr, shift_lfsr, lfsr_feedback. cbn. by rewrite Ec, En.
Qed.

Definition run_chip (n : nat) (chip : Sn76489) : Sn76489 := Nat.iter n tick_chip chip.

Lemma run_chip_S n chip : run_chip (S n) chip = run_chip n (tick_chip chip).
Proof. apply Nat.iter_succ_r. Qed.

Lemma run_chip_keeps {A} (f : Sn76489 -> A) n chip : (forall c, f (tick_chip c) = f c) -> f (run_chip n chip) = f chip.
Proof. intros H. induction n as [|n IH]; cbn; [done|]. unfold run_chip in *. by rewrite H. Qed.

Lemma ticks_tick chip : ticks (tick_chip chip) = u64 (ticks chip + 1).
Proof. unfold tick_chip. cbn [count_tick ticks]. by rewrite (noise_tick_keeps ticks), (tone_ticks_keep ticks). Qed.

Lemma run_chip_ok n chip : chip_ok chip -> chip_ok (run_chip n chip).
Proof. intros H. induction n as [|n IH]; cbn; [done|]. by apply tick_ok. Qed.

Lemma run_tone n chip i : chip_ok chip -> 0 <= i < 3 ->
  znth (tone_output (run_chip n chip)) i 0 =
    (znth (tone_output chip) i 0 + expiries (znth (tone_counter chip) i 0) (znth (tone_period chip) i 0) (Z.of_nat n)) mod 2.
Proof.
  revert chip. induction n as [|n IH]; intros chip H Hi.
  - rewrite expiries_0, Z.add_0_r, Z.mod_small by (apply registers_znth with 3; [apply H|lia]). done.
  - rewrite run_chip_S, IH by (done || by apply tick_ok). pose proof (tick_tone chip i H Hi) as Ht.
    pose proof (registers_znth _ _ _ i (ok_counter _ H) ltac:(lia)) as Hk.
    rewrite Nat2Z.inj_succ, <- Z.add_1_r, expiries_step by lia. rewrite (tick_keeps tone_period) by done.
    destruct (count_down _) as [[] k], Ht as [-> ->]; [|done].
    set (e := expiries _ _ _). rewrite <- (Z.mod_add (1 - _ + e) (znth (tone_output chip) i 0) 2) by lia. f_equal. lia.
Qed.

Lemma run_noise n chip : chip_ok chip ->
  let e := expiries (noise_counter chip) (noise_reload chip) (Z.of_nat n) in
  noise_flip (run_chip n chip) = (noise_flip chip + e) mod 2 /\
  lfsr (run_chip n chip) = Nat.iter (Z.to_nat ((e + 1 - noise_flip chip) / 2)) (next_lfsr chip) (lfsr chip).
Proof.
  cbv zeta. revert chip. induction n as [|n IH]; intros chip H; pose proof (ok_noise_flip _ H) as Hf.
  - rewrite expiries_0, Z.add_0_r, Z.mod_small by lia. split; [done|].
    replace ((0 + 1 - noise_flip chip) / 2) with 0; [done|]. Z.to_euclidean_division_equations; lia.
  - rewrite run_chip_S. destruct (IH (tick_chip chip)) as [-> ->]; [by apply tick_ok|]. pose proof (tick_noise chip H) as Ht.
    pose proof (ok_noise_counter _ H) as Hk. rewrite Nat2Z.inj_succ, <- Z.add_1_r, expiries_step by lia.
    rewrite (noise_reload_same (tick_chip chip) chip) by (by apply (tick_keeps _)).
    assert (Hnext : forall m v, Nat.iter m (next_lfsr (tick_chip chip)) v = Nat.iter m (next_lfsr chip) v).
    { intros m v. induction m as [|m IHm]; [done|]. rewrite !Nat.iter_succ, IHm. apply next_lfsr_same; by apply (tick_keeps _). }
    rewrite Hnext. destruct (count_down _) as [[] k], Ht as (-> & -> & ->); [|done].
    set (e := expiries _ _ _). assert (He : 0 <= e) by apply expiries_nonneg. split.
    + rewrite <- (Z.mod_add (1 - _ + e) (noise_flip chip) 2) by lia. f_equal. lia.
    + assert (noise_flip chip = 0 \/ noise_flip chip = 1) as [-> | ->] by lia; cbn [andb Z.eqb].
      * replace (1 + e + 1 - 0) with (e + 1 - (1 - 0) + 1 * 2) by lia. rewrite Z.div_add by lia.
        pose proof (Z.div_pos (e + 1 - (1 - 0)) 2 ltac:(lia) ltac:(lia)).
        rewrite Z2Nat.inj_add, Nat.add_1_r, Nat.iter_succ_r by lia. done.
      * do 3 f_equal. lia.
Qed.

(** Between two writes the chip is a closed form.  After [n] ticks every tone
    output has toggled once per expiry of its counter, the first after the count it
    held and then every [max 1 period] ticks; the noise flip-flop likewise with its
    reload; the shift register has shifted on every second expiry, the rising ones;
    and nothing else but the clock has changed. *)
Theorem ticks_closed_form (chip : Sn76489) (n : nat) (H : chip_ok chip) :
  let after := run_chip n chip in
  let noise := expiries (noise_counter chip) (noise_reload chip) (Z.of_nat n) in
  (forall i, 0 <= i < 3 -> znth (tone_output after) i 0 =
     (znth (tone_output chip) i 0 + expiries (znth (tone_counter chip) i 0) (znth (tone_period chip) i 0) (Z.of_nat n)) mod 2) /\
  noise_flip after = (noise_flip chip + noise) mod 2 /\
  lfsr after = Nat.iter (Z.to_nat ((noise + 1 - noise_flip chip) / 2)) (next_lfsr chip) (lfsr chip) /\
  tone_period after = tone_period chip /\ attenuation after = attenuation chip /\ noise_control after = noise_control chip /\
  latch after = latch chip /\ config after = config chip /\ ticks after = u64 (ticks chip + Z.of_nat n).
Proof.
  cbv zeta. destruct (run_noise n chip H) as [Hflip Hlfsr].
  split_and!; [intros i Hi; by apply run_tone|done|done|by apply run_chip_keeps; intros; apply tick_keeps..|].
  clear Hflip Hlfsr. induction n as [|n IH]; [rewrite Z.add_0_r, u64_id; [done|apply H]|].
  unfold run_chip. rewrite Nat.iter_succ, ticks_tick. fold (run_chip n chip). rewrite IH. unfold u64.
  rewrite Zplus_mod_idemp_l. f_equal. lia.
Qed.

(** A channel of period 3 beside one of period 0, over seven ticks. *)
Definition two_tones : Sn76489 :=
  mkChip sn76489_default_config [3; 0; 1023] [0; 0; 0] [0; 0; 0] [0; 0; 15; 15] 4 0 0 0x8000 0 0.

Lemma default_ok : config_ok sn76489_default_config.
Proof. split; cbn; [lia|lia|unfold is_u16; lia|]. exists sn76489_default_levels. split; [done|]. apply default_typed. done. Qed.

Lemma two_tones_ok : chip_ok two_tones.
Proof.
  split; cbn; [exact default_ok|by_registers..|lia|lia|lia|lia|lia|unfold is_u64; lia].
Qed.

Lemma ticks_closed_form_witness :
  chip_ok two_tones /\ znth (tone_output (run_chip 7 two_tones)) 0 0 = 1 /\ znth (tone_output (run_chip 7 two_tones)) 1 0 = 1.
Proof.
  split; [exact two_tones_ok|]. destruct (ticks_closed_form two_tones 7 two_tones_ok) as (Ht & _).
  split; [exact (Ht 0 ltac:(lia))|exact (Ht 1 ltac:(lia))].
Defined.

(** * What the stream promises *)

Definition ceil_div (a b : Z) : Z := (a + b - 1) / b.

Definition total (l : list Z) : Z := foldr Z.add 0 l.

Lemma ceil_le a b x : 1 <= b -> ceil_div a b <= x <-> a <= x * b.
Proof. intros Hb. unfold ceil_div. split; intros H; Z.to_euclidean_division_equations; nia. Qed.

Lemma total_snoc l x : total (l ++ [x]) = total l + x.
Proof. unfold total. induction l as [|y l IH]; cbn; lia. Qed.

Lemma total_range l bound : Forall (fun x => 0 <= x <= bound) l -> 0 <= total l <= zlen l * bound.
Proof. unfold total. induction 1 as [|x l Hx _ IH]; [by unfold zlen|]. rewrite zlen_cons. cbn [foldr]. nia. Qed.

Lemma average_bound w bound : Forall (fun x => 0 <= x <= bound) w -> w <> [] -> 0 <= total w / zlen w <= bound.
Proof.
  intros H Hne. pose proof (total_range w bound H) as Ht. assert (Hl : 1 <= zlen w).
  { destruct w as [|x w]; [done|]. rewrite zlen_cons. pose proof (zlen_nonneg w). lia. }
  split; [apply Z.div_pos; lia|apply Z.div_le_upper_bound; lia].
Qed.

(** Sample [k] starts at master clock [sample_start k] and covers the ticks that
    start in its interval: those from [first_tick k] up to [first_tick (k + 1)]. *)
Section StreamSpec.
Variables (num den scale d : Z).
Hypothesis Hnum : 1 <= num.
Hypothesis Hden : 1 <= den.
Hypothesis Hd : 1 <= d.

Definition sample_start (k : Z) : Z := ceil_div (k * num) den.
Definition first_tick (k : Z) : Z := ceil_div (sample_start k) d.

Definition window (levels : list Z) (k : Z) : list Z :=
  take (Z.to_nat (first_tick (k + 1) - first_tick k)) (drop (Z.to_nat (first_tick k)) levels).

(** The mean level of sample [k]; a sample without a tick repeats the one before,
    and there is silence before the first. *)
Fixpoint mean (levels : list Z) (k : nat) : Z :=
  match window levels (Z.of_nat k) with
  | [] => match k with O => 0 | S k => mean levels k end
  | w => total w / zlen w
  end.

Definition mean_before (levels : list Z) (k : nat) : Z := match k with O => 0 | S k => mean levels k end.

(** The mean scaled to sixteen bits. *)
Definition sample (levels : list Z) (k : Z) : Z := mean levels (Z.to_nat k) * 65535 / scale - 32768.

Lemma first_tick_le k x : first_tick k <= x <-> k * num <= x * d * den.
Proof using Hd Hden. unfold first_tick, sample_start. by rewrite !ceil_le. Qed.

Lemma start_le k x : sample_start k <= x * d <-> first_tick k <= x.
Proof using Hd Hden. unfold first_tick. by rewrite ceil_le. Qed.

Lemma first_tick_mono j k : j <= k -> first_tick j <= first_tick k.
Proof using Hd Hden Hnum.
  intros H. apply first_tick_le. pose proof (proj1 (first_tick_le k (first_tick k)) ltac:(lia)). nia.
Qed.

Lemma first_tick_0 : first_tick 0 = 0.
Proof using Hd Hden.
  unfold first_tick, sample_start, ceil_div. rewrite Z.mul_0_l, Z.add_0_l, (Z.div_small (den - 1)), Z.add_0_l by lia.
  apply Z.div_small. lia.
Qed.

Lemma first_tick_1 : 1 <= first_tick 1.
Proof using Hd Hden Hnum.
  destruct (Z.lt_ge_cases (first_tick 1) 1) as [H|]; [|done]. assert (H0 : first_tick 1 <= 0) by lia. apply first_tick_le in H0. lia.
Qed.

(** A window holds no more ticks than the sample has clocks. *)
Lemma window_short levels k : zlen (window levels k) <= num / den + 1.
Proof using Hd Hden Hnum.
  pose proof (Z.div_pos num den ltac:(lia) ltac:(lia)).
  unfold window, zlen. rewrite length_take.
  assert (H' : first_tick (k + 1) <= first_tick k + (num / den + 1)); [|lia]. apply first_tick_le.
  pose proof (proj1 (first_tick_le k (first_tick k)) ltac:(lia)). pose proof (Z.div_mod num den ltac:(lia)).
  pose proof (Z.mod_pos_bound num den ltac:(lia)). nia.
Qed.

Lemma window_bound levels k P : Forall P levels -> Forall P (window levels k).
Proof using Type. intros H. by apply Forall_take, Forall_drop. Qed.

Lemma window_open levels x k : 0 <= first_tick k <= zlen levels -> zlen levels < first_tick (k + 1) ->
  window (levels ++ [x]) k = window levels k ++ [x].
Proof using Type.
  clear Hnum Hden Hd. intros H1 H2. unfold window, zlen in *. rewrite drop_app_le by lia.
  rewrite (take_ge (drop _ _ ++ _)) by (rewrite length_app, length_drop; cbn; lia).
  by rewrite take_ge by (rewrite length_drop; lia).
Qed.

Lemma window_closed levels x k : 0 <= first_tick k -> first_tick k <= first_tick (k + 1) <= zlen levels ->
  window (levels ++ [x]) k = window levels k.
Proof using Type.
  clear Hnum Hden Hd. intros H0 H1. unfold window, zlen in *. rewrite drop_app_le by lia. apply take_app_le. rewrite length_drop. lia.
Qed.

Lemma window_future levels k : zlen levels <= first_tick k -> window levels k = [].
Proof using Type. clear Hnum Hden Hd. intros H. unfold window, zlen in *. rewrite drop_ge by lia. apply take_nil. Qed.

Lemma first_tick_nonneg k : 0 <= k -> 0 <= first_tick k.
Proof using Hd Hden Hnum. intros H. rewrite <- first_tick_0. by apply first_tick_mono. Qed.

Lemma mean_closed levels x k : first_tick (Z.of_nat k + 1) <= zlen levels -> mean (levels ++ [x]) k = mean levels k.
Proof using Hd Hden Hnum.
  induction k as [|k IH]; intros H; cbn [mean].
  - rewrite window_closed; [done|by apply first_tick_nonneg|]. split; [apply first_tick_mono; lia|done].
  - rewrite window_closed, IH; [done| |apply first_tick_nonneg; lia|].
    + etrans; [|exact H]. apply first_tick_mono. lia.
    + split; [apply first_tick_mono; lia|done].
Qed.

Lemma mean_bound levels k bound : 0 <= bound -> Forall (fun x => 0 <= x <= bound) levels -> 0 <= mean levels k <= bound.
Proof using Type.
  clear Hnum Hden Hd. intros Hb H. induction k as [|k IH]; cbn [mean]; destruct (window levels _) as [|x w] eqn:E; try lia; try done.
  all: rewrite <- E; apply average_bound; [by apply window_bound|by rewrite E].
Qed.
End StreamSpec.

(** * The stream refines it *)

(** The sink called with successive batches, from sample [first]. *)
Fixpoint deliver {C} (f : C -> Z -> list Z -> C) (context : C) (first : Z) (batches : list (list Z)) : C :=
  match batches with
  | [] => context
  | b :: rest => deliver f (f context first b) (first + zlen b) rest
  end.

Lemma deliver_snoc {C} (f : C -> Z -> list Z -> C) context first batches b :
  deliver f context first (batches ++ [b]) = f (deliver f context first batches) (first + zlen (concat batches)) b.
Proof.
  revert context first. induction batches as [|x batches IH]; intros; cbn [app deliver concat].
  - f_equal. unfold zlen. cbn. lia.
  - rewrite IH, zlen_app. f_equal. lia.
Qed.

Section Stream.
Context {C : Type} (c : Sn76489PcmConfig) (d : Z) (f : C -> Z -> list Z -> C) (c0 : C).
Hypothesis Hnum : 1 <= rate_num c.
Hypothesis Hden : 1 <= rate_den c.
Hypothesis Hwide : rate_num c / rate_den c + 1 < 2 ^ 32.
Hypothesis Hscale : 1 <= full_scale c < 2 ^ 32.
Hypothesis Hd : 1 <= d.

#[local] Abbreviation T := (sample_start (rate_num c) (rate_den c)).
#[local] Abbreviation F := (first_tick (rate_num c) (rate_den c) d).
#[local] Abbreviation W := (window (rate_num c) (rate_den c) d).
#[local] Abbreviation means := (mean (rate_num c) (rate_den c) d).
#[local] Abbreviation means_before := (mean_before (rate_num c) (rate_den c) d).
#[local] Abbreviation samples := (sample (rate_num c) (rate_den c) (full_scale c) d).
#[local] Abbreviation in_scale := (fun x => 0 <= x <= full_scale c).

Lemma sample_start_exact k : 0 <= k -> k * rate_num c < 2 ^ 64 -> sn76489_pcm_sample_start c k = T k.
Proof using All.
  intros Hk Hfit. unfold sn76489_pcm_sample_start, sample_start, ceil_div. cbv zeta.
  rewrite (u64_id (k * rate_num c)) by (unfold is_u64; nia). set (product := k * rate_num c) in *.
  assert (Hp : 0 <= product) by (unfold product; nia).
  assert (E : product / rate_den c + (if negb (product mod rate_den c =? 0) then 1 else 0) = (product + rate_den c - 1) / rate_den c).
  { destruct (Z.eqb_spec (product mod rate_den c) 0); cbn [negb]; Z.to_euclidean_division_equations; nia. }
  rewrite E. apply u64_id. unfold is_u64. split; [apply Z.div_pos; lia|].
  apply Z.div_lt_upper_bound; [lia|]. change (2 ^ 64) with 18446744073709551616 in Hfit. nia.
Qed.

(** What the stream holds once the ticks of [levels] have been pushed and the
    samples before [index] emitted. *)
Record streaming (levels : list Z) (p : Sn76489Pcm C) : Prop := {
  st_config : pcm_config p = c;
  st_sink : sink p = Some f;
  st_index : 0 <= index p;
  st_boundary : boundary p = T (index p + 1);
  st_sum : sum p = total (W levels (index p));
  st_count : count p = zlen (W levels (index p));
  st_mean : last_mean p = means_before levels (Z.to_nat (index p));
  st_open : zlen levels <= F (index p + 1);
  st_batch : 0 <= batch_count p < 64 /\ zlen (batch p) = 64;
  st_first : 0 <= batch_first p /\ batch_first p + batch_count p = index p;
  st_out : exists batches, Forall (fun b => zlen b = 64) batches /\ sink_context p = deliver f c0 0 batches /\
    zlen (concat batches) = batch_first p /\
    concat batches ++ take (Z.to_nat (batch_count p)) (batch p) = map (samples levels) (seqZ 0 (index p));
}.

Lemma sample_value_exact levels k : Forall in_scale levels ->
  sample_value c (means levels (Z.to_nat k)) = samples levels k.
Proof using All.
  intros H. unfold sample_value, sample. pose proof (mean_bound (rate_num c) (rate_den c) d levels (Z.to_nat k) (full_scale c) ltac:(lia) H) as Hm.
  set (m := means levels (Z.to_nat k)) in *. rewrite u64_id by (unfold is_u64; lia).
  assert (Hq : 0 <= m * 65535 / full_scale c <= 65535).
  { split; [apply Z.div_pos; lia|apply Z.div_le_upper_bound; nia]. }
  unfold i32, i16. rewrite (Z.mod_small (_ + 2147483648)) by lia. rewrite Z.mod_small by lia. lia.
Qed.

(** The mean [emit_sample] computes. *)
Lemma emitted_mean levels p : Forall in_scale levels -> streaming levels p ->
  (if negb (count p =? 0) then u32 (sum p / count p) else last_mean p) = means levels (Z.to_nat (index p)).
Proof using All.
  intros H Hp. rewrite (st_count _ _ Hp), (st_sum _ _ Hp), (st_mean _ _ Hp). pose proof (st_index _ _ Hp) as Hi.
  assert (Ew : W levels (index p) = W levels (Z.of_nat (Z.to_nat (index p)))) by (by rewrite Z2Nat.id).
  destruct (W levels (index p)) as [|x w] eqn:E.
  - unfold zlen at 1. cbn [List.length negb Z.of_nat Z.eqb]. destruct (Z.to_nat (index p)); cbn [mean mean_before]; by rewrite <- Ew.
  - assert (Hne : zlen (x :: w) <> 0) by (rewrite zlen_cons; pose proof (zlen_nonneg w); lia).
    rewrite (proj2 (Z.eqb_neq _ _) Hne). cbn [negb]. pose proof (average_bound (x :: w) (full_scale c)) as Ha.
    rewrite u32_id; [destruct (Z.to_nat (index p)); cbn [mean]; by rewrite <- Ew|].
    assert (Hb : 0 <= total (x :: w) / zlen (x :: w) <= full_scale c); [|unfold is_u32; lia].
    apply Ha; [|done]. rewrite <- E. by apply window_bound.
Qed.
Lemma map_seqZ_snoc (g : Z -> Z) n : 0 <= n -> map g (seqZ 0 (n + 1)) = map g (seqZ 0 n) ++ [g n].
Proof using Type.
  clear. intros Hn. rewrite seqZ_app by lia. rewrite map_app. cbn [seqZ]. f_equal.
Qed.

(** The batch after one more sample. *)
Lemma batch_snoc (b : list Z) n v : 0 <= n < zlen b -> take (Z.to_nat (n + 1)) (<[Z.to_nat n := v]> b) = take (Z.to_nat n) b ++ [v].
Proof using Type.
  clear. unfold zlen. intros Hn. replace (Z.to_nat (n + 1)) with (S (Z.to_nat n)) by lia.
  rewrite (take_S_r _ _ v) by (apply list_lookup_insert_eq; lia). by rewrite take_insert_ge by lia.
Qed.

Lemma emit_streaming levels p : Forall in_scale levels -> (index p + 2) * rate_num c < 2 ^ 64 -> streaming levels p ->
  streaming levels (emit_sample p) /\ index (emit_sample p) = index p + 1.
Proof using All.
  intros H Hfit Hp. pose proof (emitted_mean levels p H Hp) as Hmean. pose proof (sample_value_exact levels (index p) H) as Hvalue.
  destruct Hp as [Ec Ef Hi Eb Es Ek Em Hopen [Hbatch Hlb] [Hfirst Hsum] (batches & Hfull & Ectx & Elen & Eout)].
  assert (Hi64 : u64 (index p + 1) = index p + 1) by (apply u64_id; unfold is_u64; nia).
  assert (Hnext : sn76489_pcm_sample_start c (u64 (index p + 1 + 1)) = T (index p + 1 + 1)).
  { rewrite u64_id by (unfold is_u64; nia). apply sample_start_exact; try done; lia. }
  assert (Hempty : W levels (index p + 1) = []) by (by apply window_future).
  assert (Hopen' : zlen levels <= F (index p + 1 + 1)).
  { etrans; [exact Hopen|]. apply first_tick_mono; lia. }
  assert (Hbefore : means levels (Z.to_nat (index p)) = means_before levels (Z.to_nat (index p + 1))).
  { by replace (Z.to_nat (index p + 1)) with (S (Z.to_nat (index p))) by lia. }
  pose proof (batch_snoc (batch p) (batch_count p) (samples levels (index p)) ltac:(lia)) as Hsnoc.
  unfold emit_sample. cbv zeta. rewrite Ec, Hmean, Hvalue, Hi64, Hnext. rewrite (u32_id (batch_count p + 1)) by (unfold is_u32; lia).
  cbn [batch_count]. destruct (Z.eqb_spec (batch_count p + 1) PCM_BATCH) as [Hc|Hc]; unfold PCM_BATCH in Hc.
  - unfold sn76489_pcm_flush. cbn [sink batch_count sink_context batch_first batch pcm_config index boundary sum count last_mean].
    rewrite Ef. rewrite (proj2 (Z.eqb_neq _ 0)) by lia. cbn [negb]. rewrite Hsnoc, (u64_id (_ + _)) by (unfold is_u64; nia).
    split; [|done]. split; cbn [sink batch_count sink_context batch_first batch pcm_config index boundary sum count last_mean];
      try done; try lia; [by rewrite Hempty|by rewrite Hempty|by rewrite zlen_insert|].
    exists (batches ++ [take (Z.to_nat (batch_count p)) (batch p) ++ [samples levels (index p)]]).
    assert (Hl : zlen (take (Z.to_nat (batch_count p)) (batch p) ++ [samples levels (index p)]) = 64).
    { rewrite zlen_snoc. unfold zlen in *. rewrite length_take. lia. }
    rewrite deliver_snoc, <- Ectx, Z.add_0_l, Elen, concat_app, zlen_app, map_seqZ_snoc, <- Eout by lia.
    cbn [concat]. rewrite app_nil_r, take_0, app_nil_r, Hl. split_and!; [by apply Forall_app; split; [|constructor]|done|lia|].
    by rewrite app_assoc.
  - split; [|done]. split; cbn [sink batch_count sink_context batch_first batch pcm_config index boundary sum count last_mean];
      try done; try lia; [by rewrite Hempty|by rewrite Hempty|rewrite zlen_insert; lia|].
    exists batches. rewrite Hsnoc, map_seqZ_snoc, <- Eout, app_assoc by lia. done.
Qed.

(** Between two ticks the sample under way is the one whose interval the clock is in. *)
Definition steady (levels : list Z) (p : Sn76489Pcm C) : Prop :=
  streaming levels p /\ T (index p) <= zlen levels * d < T (index p + 1).

(** The numbers stay within 64 bits up to master clock [x]. *)
Definition fits (x : Z) : Prop := x < 2 ^ 64 /\ (x * rate_den c / rate_num c + 1) * rate_num c < 2 ^ 64.

Lemma start_before k x : T k <= x <-> k <= x * rate_den c / rate_num c.
Proof using All.
  unfold sample_start. rewrite ceil_le by lia. split; intros H; [apply Z.div_le_lower_bound; lia|].
  pose proof (Z.mul_div_le (x * rate_den c) (rate_num c) ltac:(lia)). nia.
Qed.

Lemma emit_samples_done fuel x levels p : Forall in_scale levels -> fits x -> streaming levels p -> T (index p) <= x ->
  fuel = Z.to_nat (x * rate_den c / rate_num c - index p) ->
  exists p', emit_samples fuel x p = Some p' /\ streaming levels p' /\ T (index p') <= x < T (index p' + 1).
Proof using All.
  intros H Hfit. revert p. induction fuel as [|fuel IH]; intros p Hp Hx Hfuel; pose proof (st_boundary _ _ Hp) as Eb; cbn [emit_samples].
  - destruct (Z.leb_spec (boundary p) x) as [Hle|Hlt].
    + rewrite Eb in Hle. apply start_before in Hle. lia.
    + exists p. rewrite <- Eb. done.
  - destruct (Z.leb_spec (boundary p) x) as [Hle|Hlt]; [|exists p; rewrite <- Eb; done].
    rewrite Eb in Hle. pose proof (proj1 (start_before _ _) Hle) as Hk. destruct Hfit as [_ Hfit].
    destruct (emit_streaming levels p H) as [Hp' Ei]; [nia|done|]. apply IH; [done|by rewrite Ei|]. rewrite Ei. lia.
Qed.

Lemma pushed_streaming levels p level : Forall in_scale levels -> in_scale level -> steady levels p ->
  streaming (levels ++ [level])
    (mkPcm (pcm_config p) (sink p) (sink_context p) (index p) (boundary p) (u64 (sum p + level)) (u32 (count p + 1))
       (last_mean p) (batch_first p) (batch_count p) (batch p)).
Proof using All.
  intros H Hlevel [[Ec Ef Hi Eb Es Ek Em Hopen Hbatch Hfirst (batches & Hfull & Ectx & Elen & Eout)] [Hlo Hhi]].
  assert (Hlo' : F (index p) <= zlen levels) by (by apply start_le).
  assert (Hhi' : zlen levels < F (index p + 1)).
  { apply Z.nle_gt. intros Hle. apply start_le in Hle; lia. }
  assert (H' : Forall in_scale (levels ++ [level])) by (apply Forall_app; split; [done|by constructor]).
  assert (Ew : W (levels ++ [level]) (index p) = W levels (index p) ++ [level]).
  { apply window_open; [split; [apply first_tick_nonneg; lia|done]|done]. }
  assert (Hold : forall k, 0 <= k < index p -> means (levels ++ [level]) (Z.to_nat k) = means levels (Z.to_nat k)).
  { intros k Hk. apply mean_closed; [lia|lia|lia|]. etrans; [|exact Hlo']. apply first_tick_mono; lia. }
  pose proof (window_short (rate_num c) (rate_den c) d Hnum Hden Hd (levels ++ [level]) (index p)) as Hshort.
  pose proof (total_range (W (levels ++ [level]) (index p)) (full_scale c) (window_bound _ _ _ _ _ _ H')) as Ht.
  rewrite Ew, total_snoc, zlen_snoc in *. pose proof (zlen_nonneg (W levels (index p))).
  split; cbn [sink batch_count sink_context batch_first batch pcm_config index boundary sum count last_mean]; try done.
  - rewrite Ew, total_snoc, Es, u64_id; [done|]. unfold is_u64. nia.
  - rewrite Ew, zlen_snoc, Ek, u32_id; [done|]. unfold is_u32. lia.
  - rewrite Em. destruct (Z.to_nat (index p)) as [|k] eqn:En; cbn [mean_before]; [done|].
    rewrite <- (Nat2Z.id k). symmetry. apply Hold. lia.
  - rewrite zlen_snoc. lia.
  - exists batches. split_and!; try done. rewrite Eout. apply map_ext_in. intros k Hk.
    apply list_elem_of_In, elem_of_seqZ in Hk. unfold sample. rewrite Hold by lia. done.
Qed.

Lemma push_tick_steady levels p level : Forall in_scale levels -> in_scale level -> fits ((zlen levels + 1) * d) -> steady levels p ->
  exists p', pcm_push_tick p ((zlen levels + 1) * d) level = Some p' /\ steady (levels ++ [level]) p'.
Proof using All.
  intros H Hlevel Hfit Hp. pose proof (pushed_streaming levels p level H Hlevel Hp) as Hs. destruct Hp as [Hp [Hlo Hhi]].
  unfold pcm_push_tick. cbv zeta. set (p1 := mkPcm _ _ _ _ _ _ _ _ _ _ _) in *.
  destruct (emit_samples_done (emit_fuel ((zlen levels + 1) * d) p1) ((zlen levels + 1) * d) (levels ++ [level]) p1)
    as (p' & E & Hp' & Ht).
  - apply Forall_app; split; [done|by constructor].
  - done.
  - done.
  - change (index p1) with (index p). nia.
  - unfold emit_fuel. by rewrite (st_config _ _ Hs).
  - exists p'. split; [exact E|]. split; [exact Hp'|]. by rewrite zlen_snoc.
Qed.

Lemma init_steady : fits 0 -> steady [] (sn76489_pcm_init c (Some f) c0).
Proof using All.
  intros [_ Hfit]. rewrite Z.mul_0_l, Z.div_0_l, Z.add_0_l in Hfit by lia.
  assert (E1 : sn76489_pcm_sample_start c 1 = T 1) by (apply sample_start_exact; try done; lia).
  assert (HT : 1 <= T 1).
  { destruct (Z.lt_ge_cases (T 1) 1) as [Hlt|]; [|done]. assert (H0 : T 1 <= 0) by lia. apply start_before in H0.
    rewrite Z.mul_0_l, Z.div_0_l in H0 by lia. lia. }
  assert (HW : forall k, 0 <= k -> W [] k = []) by (intros; apply window_future, first_tick_nonneg; lia).
  split.
  - split; cbn; try done; try lia; [by rewrite HW|by rewrite HW|apply first_tick_nonneg; lia|].
    by exists [].
  - change (index (sn76489_pcm_init c (Some f) c0)) with 0. rewrite Z.add_0_l. split; [|change (zlen (@nil Z)) with 0; lia].
    unfold sample_start, ceil_div. rewrite Z.mul_0_l, Z.div_small by lia. done.
Qed.

(** [sn76489_pcm_push_tick] for every tick of [levels], the first at tick [start]. *)
Fixpoint push_levels (start : Z) (levels : list Z) (p : Sn76489Pcm C) : option (Sn76489Pcm C) :=
  match levels with
  | [] => Some p
  | level :: rest => p ← pcm_push_tick p (u64 ((start + 1) * d)) level; push_levels (start + 1) rest p
  end.

Lemma fits_mono x y : 0 <= x <= y -> fits y -> fits x.
Proof using All.
  intros Hxy [H1 H2]. split; [lia|].
  assert (x * rate_den c / rate_num c <= y * rate_den c / rate_num c) by (apply Z.div_le_mono; nia). nia.
Qed.

Lemma push_levels_steady more levels p : Forall in_scale (levels ++ more) -> fits (zlen (levels ++ more) * d) -> steady levels p ->
  exists p', push_levels (zlen levels) more p = Some p' /\ steady (levels ++ more) p'.
Proof using All.
  revert levels p. induction more as [|level more IH]; intros levels p H Hfit Hp; cbn [push_levels].
  - exists p. by rewrite app_nil_r.
  - pose proof H as H'. apply Forall_app in H' as [H1 H2]. apply Forall_cons in H2 as [H2 H3].
    assert (Hfit' : fits ((zlen levels + 1) * d)).
    { apply (fits_mono _ (zlen (levels ++ level :: more) * d)); [|done].
      rewrite zlen_app, zlen_cons. pose proof (zlen_nonneg levels). pose proof (zlen_nonneg more). nia. }
    rewrite u64_id; [|destruct Hfit'; pose proof (zlen_nonneg levels); unfold is_u64; nia].
    destruct (push_tick_steady levels p level H1 H2 Hfit' Hp) as (p' & E & Hp'). rewrite E. cbn [mbind option_bind].
    rewrite <- (zlen_snoc levels level). replace (levels ++ level :: more) with ((levels ++ [level]) ++ more) in * by (by rewrite <- app_assoc).
    by apply IH.
Qed.

(** After a flush the sink has been given every sample, in order. *)
Lemma flush_delivers levels p : streaming levels p ->
  exists batches, Forall (fun b => 1 <= zlen b <= 64) batches /\ concat batches = map (samples levels) (seqZ 0 (index p)) /\
    sink_context (sn76489_pcm_flush p) = deliver f c0 0 batches.
Proof using Type.
  intros [Ec Ef Hi Eb Es Ek Em Hopen [Hbatch Hlb] Hfirst (batches & Hfull & Ectx & Elen & Eout)].
  assert (Hfull' : Forall (fun b => 1 <= zlen b <= 64) batches) by (eapply Forall_impl; [exact Hfull|cbn; lia]).
  unfold sn76489_pcm_flush. cbn [sink_context]. rewrite Ef. destruct (Z.eqb_spec (batch_count p) 0) as [E0|Hne]; cbn [negb].
  - exists batches. rewrite E0, take_0, app_nil_r in Eout. done.
  - exists (batches ++ [take (Z.to_nat (batch_count p)) (batch p)]). rewrite deliver_snoc, <- Ectx, Elen, concat_app.
    cbn [concat]. rewrite app_nil_r. split_and!; [|done|done]. apply Forall_app. split; [done|]. constructor; [|done].
    unfold zlen in *. rewrite length_take. lia.
Qed.
End Stream.

(** * Chip and stream together *)

(** The mixer levels of the next [n] ticks. *)
Definition levels_of (n : nat) (chip : Sn76489) : list Z := map (fun j => sn76489_level (run_chip (S j) chip)) (seq 0 n).

Lemma levels_of_S n chip : levels_of (S n) chip = sn76489_level (tick_chip chip) :: levels_of n (tick_chip chip).
Proof.
  unfold levels_of. cbn [seq map]. f_equal. rewrite <- seq_shift, map_map. apply map_ext. intros j. by rewrite (run_chip_S (S j)).
Qed.

Lemma zlen_levels_of n chip : zlen (levels_of n chip) = Z.of_nat n.
Proof. unfold zlen, levels_of. by rewrite length_map, length_seq. Qed.

Lemma run_ticks_levels {C} n chip (p : Sn76489Pcm C) : 0 <= ticks chip -> ticks chip + Z.of_nat n < 2 ^ 64 ->
  run_ticks n chip (Some p) =
    (p' ← push_levels (divider (config chip)) (ticks chip) (levels_of n chip) p; Some (run_chip n chip, Some p')).
Proof.
  revert chip p. induction n as [|n IH]; intros chip p H0 Hn; [done|].
  rewrite levels_of_S, run_chip_S. cbn [run_ticks push_levels]. unfold sn76489_tick. cbv zeta.
  rewrite (tick_keeps config) by done. rewrite ticks_tick, (u64_id (ticks chip + 1)) by (unfold is_u64; lia).
  destruct (pcm_push_tick p _ _) as [p'|]; cbn [mbind option_bind]; [|done].
  rewrite IH by (rewrite ticks_tick, u64_id by (unfold is_u64; lia); lia).
  by rewrite (tick_keeps config), ticks_tick, (u64_id (ticks chip + 1)) by (done || (unfold is_u64; lia)).
Qed.

(** A host's session: writes at master clocks, each after advancing to its time,
    and a last advance to [cycles]. *)
Fixpoint drive {C} (events : list (Z * Z)) (cycles : Z) (chip : Sn76489) (pcm : option (Sn76489Pcm C))
  : option (Sn76489 * option (Sn76489Pcm C)) :=
  match events with
  | [] => sn76489_advance chip pcm cycles
  | (time, value) :: rest =>
      '(chip, pcm) ← sn76489_advance chip pcm time; drive rest cycles (sn76489_write chip value).2 pcm
  end.

(** The ticks an advance to [time] runs. *)
Definition ticks_to (time : Z) (chip : Sn76489) : nat := Z.to_nat (time / divider (config chip) - ticks chip).

(** The levels of all ticks of a session. *)
Fixpoint session_levels (events : list (Z * Z)) (cycles : Z) (chip : Sn76489) : list Z :=
  match events with
  | [] => levels_of (ticks_to cycles chip) chip
  | (time, value) :: rest =>
      levels_of (ticks_to time chip) chip ++
      session_levels rest cycles (sn76489_write (run_chip (ticks_to time chip) chip) value).2
  end.

(** The clock after a run of ticks. *)
Lemma run_ticks_clock {C} n chip (pcm : option (Sn76489Pcm C)) chip' pcm' : chip_ok chip -> ticks chip + Z.of_nat n < 2 ^ 64 ->
  run_ticks n chip pcm = Some (chip', pcm') -> config chip' = config chip /\ ticks chip' = ticks chip + Z.of_nat n.
Proof.
  revert chip pcm. induction n as [|n IH]; intros chip pcm Hok Hn E; cbn [run_ticks] in E.
  - injection E as <- _. split; [done|lia].
  - pose proof (ok_ticks _ Hok) as Ht. unfold is_u64 in Ht.
    assert (Et : ticks (tick_chip chip) = ticks chip + 1) by (rewrite ticks_tick; apply u64_id; unfold is_u64; lia).
    destruct (sn76489_tick chip pcm) as [[[c q] l]|] eqn:Es; [|discriminate E]. cbn in E.
    assert (Ec : c = tick_chip chip).
    { unfold sn76489_tick in Es. destruct pcm as [p|]; [|by injection Es]. destruct (pcm_push_tick p _ _); [|discriminate Es]. by injection Es. }
    subst c. apply IH in E as [-> ->]; [|by apply tick_ok|lia]. rewrite (tick_keeps config) by done. split; [done|lia].
Qed.

Lemma run_ticks_add {C} m n chip (pcm : option (Sn76489Pcm C)) :
  run_ticks (m + n) chip pcm = ('(chip, pcm) ← run_ticks m chip pcm; run_ticks n chip pcm).
Proof.
  revert chip pcm. induction m as [|m IH]; intros chip pcm; [done|]. cbn [Nat.add run_ticks].
  destruct (sn76489_tick chip pcm) as [[[c q] l]|]; [cbn; apply IH|done].
Qed.

(** Advancing in slices changes nothing.  Advancing to one time and then to another
    is advancing to the later of the two, chip and stream alike: a time in the past
    does nothing, and how a host cuts the time between two writes is not observable. *)
Theorem advance_slices {C : Type} (chip : Sn76489) (pcm : option (Sn76489Pcm C)) (a b : Z) (H : chip_ok chip)
    (Ha : is_u64 a) (Hb : is_u64 b) :
  ('(chip, pcm) ← sn76489_advance chip pcm a; sn76489_advance chip pcm b) = sn76489_advance chip pcm (Z.max a b).
Proof.
  pose proof (ok_divider _ (ok_config _ H)) as Hd. pose proof (ok_ticks _ H) as Ht.
  set (d := divider (config chip)) in *. unfold is_u64 in *.
  assert (Hq : forall x, 0 <= x < 2 ^ 64 -> 0 <= x / d < 2 ^ 64).
  { intros x Hx. split; [apply Z.div_pos; lia|]. apply Z.div_lt_upper_bound; nia. }
  pose proof (Hq a ltac:(lia)). pose proof (Hq b ltac:(lia)).
  assert (Em : Z.max a b / d = Z.max (a / d) (b / d)).
  { destruct (Z.le_ge_cases a b) as [Hab|Hab]; pose proof (Z.div_le_mono _ _ d ltac:(lia) Hab); [rewrite !Z.max_r|rewrite !Z.max_l]; lia. }
  unfold sn76489_advance. fold d. rewrite Em.
  replace (Z.to_nat (Z.max (a / d) (b / d) - ticks chip))
    with (Z.to_nat (a / d - ticks chip) + Z.to_nat (b / d - Z.max (a / d) (ticks chip)))%nat by lia.
  rewrite run_ticks_add. destruct (run_ticks _ chip pcm) as [[chip' pcm']|] eqn:E; cbn [mbind option_bind]; [|done].
  apply run_ticks_clock in E as [-> ->]; [|done|lia]. fold d. do 2 f_equal. lia.
Qed.

Lemma advance_slices_witness :
  ('(chip, pcm) ← sn76489_advance two_tones (@None (Sn76489Pcm unit)) 40; sn76489_advance chip pcm 20) =
    sn76489_advance two_tones None 40.
Proof. apply (advance_slices two_tones None 40 20 two_tones_ok); unfold is_u64; lia. Defined.

Section Session.
Context {C : Type} (c : Sn76489PcmConfig) (f : C -> Z -> list Z -> C) (c0 : C) (chip0 : Sn76489Config) (M : Z).
Hypothesis Hnum : 1 <= rate_num c.
Hypothesis Hden : 1 <= rate_den c.
Hypothesis Hwide : rate_num c / rate_den c + 1 < 2 ^ 32.
Hypothesis Hscale : 1 <= full_scale c < 2 ^ 32.
Hypothesis Hconfig : config_ok chip0.
Hypothesis HM : 0 <= M < 65536 /\ 4 * M <= full_scale c.
Hypothesis Hlevels : registers (default [] (levels chip0)) 16 (M + 1).

#[local] Abbreviation d := (divider chip0).
#[local] Abbreviation steady := (steady c d f c0).
#[local] Abbreviation fits := (fits c).

Lemma chip_level chip : config chip = chip0 -> 0 <= sn76489_level chip <= full_scale c.
Proof using HM Hlevels. intros E. pose proof (level_bound chip M) as H. rewrite E in H. specialize (H Hlevels ltac:(lia)). lia. Qed.

Lemma levels_in_scale n chip : config chip = chip0 -> Forall (fun x => 0 <= x <= full_scale c) (levels_of n chip).
Proof using HM Hlevels.
  intros E. apply Forall_fmap, Forall_forall. intros j _. apply chip_level. rewrite <- E. apply (run_chip_keeps config).
  intros; by apply (tick_keeps config).
Qed.

Lemma session_in_scale events cycles chip : config chip = chip0 ->
  Forall (fun x => 0 <= x <= full_scale c) (session_levels events cycles chip).
Proof using HM Hlevels.
  revert chip. induction events as [|[time value] events IH]; intros chip E; cbn [session_levels]; [by apply levels_in_scale|].
  apply Forall_app. split; [by apply levels_in_scale|]. apply IH. rewrite write_config, <- E. apply (run_chip_keeps config).
  intros; by apply (tick_keeps config).
Qed.

(** Advancing the chip pushes its levels. *)
Lemma advance_steady time chip levels p : chip_ok chip -> config chip = chip0 -> ticks chip = zlen levels ->
  let more := levels_of (ticks_to time chip) chip in
  Forall (fun x => 0 <= x <= full_scale c) levels -> fits (zlen (levels ++ more) * d) -> steady levels p ->
  exists p', sn76489_advance chip (Some p) time = Some (run_chip (ticks_to time chip) chip, Some p') /\ steady (levels ++ more) p' /\
    ticks (run_chip (ticks_to time chip) chip) = zlen (levels ++ more).
Proof using All.
  intros Hok E Et more Hl Hfit Hp. unfold sn76489_advance. fold (ticks_to time chip). set (n := ticks_to time chip) in *.
  pose proof (ok_divider _ Hconfig) as Hd. pose proof (zlen_nonneg levels).
  assert (Hn : zlen (levels ++ more) = ticks chip + Z.of_nat n) by (by rewrite zlen_app, Et; unfold more; rewrite zlen_levels_of).
  assert (Hbound : ticks chip + Z.of_nat n < 2 ^ 64) by (destruct Hfit; nia).
  rewrite run_ticks_levels by lia. rewrite E, Et.
  destruct (push_levels_steady c d f c0 Hnum Hden Hwide Hscale ltac:(lia) more levels p) as (p' & Ep & Hp'); [|done|done|].
  - apply Forall_app. split; [done|]. by apply levels_in_scale.
  - exists p'. fold more. rewrite Ep. split_and!; [done|done|]. rewrite Hn. clear - Hok Hbound.
    induction n as [|n IH]; [cbn; lia|]. unfold run_chip in *. rewrite Nat.iter_succ, ticks_tick, IH by lia.
    pose proof (ok_ticks _ Hok). rewrite u64_id by (unfold is_u64 in *; lia). lia.
Qed.

Lemma drive_steady events cycles chip levels p : chip_ok chip -> config chip = chip0 -> ticks chip = zlen levels ->
  let more := session_levels events cycles chip in
  Forall (fun x => 0 <= x <= full_scale c) levels -> fits (zlen (levels ++ more) * d) -> steady levels p ->
  exists chip' p', drive events cycles chip (Some p) = Some (chip', Some p') /\ steady (levels ++ more) p'.
Proof using All.
  revert chip levels p. induction events as [|[time value] events IH]; intros chip levels p Hok E Et more Hl Hfit Hp.
  - destruct (advance_steady cycles chip levels p Hok E Et Hl Hfit Hp) as (p' & Ep & Hp' & _).
    by exists (run_chip (ticks_to cycles chip) chip), p'.
  - unfold more in *. cbn [drive session_levels] in *. set (n := ticks_to time chip) in *. rewrite app_assoc in *.
    pose proof (ok_divider _ Hconfig) as Hd.
    destruct (advance_steady time chip levels p Hok E Et Hl) as (p' & Ep & Hp' & Et'); [|done|].
    { eapply fits_mono; [..|exact Hfit]; try done. fold n. rewrite (zlen_app (levels ++ _)).
      pose proof (zlen_nonneg (levels ++ levels_of n chip)). pose proof (zlen_nonneg (session_levels events cycles (sn76489_write (run_chip n chip) value).2)). nia. }
    rewrite Ep. cbn [mbind option_bind]. fold n in Ep, Hp', Et' |- *.
    assert (En : config (run_chip n chip) = chip0).
    { rewrite <- E. apply (run_chip_keeps config). intros; by apply (tick_keeps config). }
    apply IH; [by apply write_ok, run_chip_ok|by rewrite write_config| |by apply Forall_app; split; [|apply levels_in_scale]|done|done].
    rewrite <- Et'. unfold sn76489_write, write_register. destruct (negb (value .& 0x80 =? 0)); cbv zeta; cbn [snd].
    + destruct (negb _); [done|]. by destruct (_ <? 3).
    + destruct (_ <? 0); [done|]. cbv zeta. cbn [snd]. destruct (negb _); [done|]. by destruct (_ <? 3).
Qed.
End Session.

(** The configurations of a stream the theorem is about: a rate that fits, and a
    full scale the levels stay in. *)
Record stream_ok (c : Sn76489PcmConfig) (chip : Sn76489Config) : Prop := {
  stream_num : 1 <= rate_num c;
  stream_den : 1 <= rate_den c;
  stream_wide : rate_num c / rate_den c + 1 < 2 ^ 32;
  stream_scale : 1 <= full_scale c < 2 ^ 32;
  stream_chip : config_ok chip;
  stream_levels : exists M, 0 <= M < 65536 /\ 4 * M <= full_scale c /\ registers (default [] (levels chip)) 16 (M + 1);
}.

(** C11. The PCM stream is exact.  For a chip after a reset, any register writes at any
    times and any final time, the session returns, and after a flush the sink has
    been called with contiguous batches of at most 64 samples which are, in order,
    all samples complete by the last tick: sample [k] is the mean of the mixer
    levels of exactly the ticks that start in its interval, scaled to sixteen bits;
    a sample no tick starts in repeats the one before. *)
Theorem pcm_exact {C : Type} (c : Sn76489PcmConfig) (f : C -> Z -> list Z -> C) (c0 : C) (chip : Sn76489)
    (events : list (Z * Z)) (cycles : Z) (Hok : stream_ok c (config chip)) :
  let start := sn76489_reset chip in
  let d := divider (config chip) in
  let l := session_levels events cycles start in
  let complete := zlen l * d in
  fits c complete ->
  exists chip' p', drive events cycles start (Some (sn76489_pcm_init c (Some f) c0)) = Some (chip', Some p') /\
    sample_start (rate_num c) (rate_den c) (index p') <= complete < sample_start (rate_num c) (rate_den c) (index p' + 1) /\
    exists batches, Forall (fun b => 1 <= zlen b <= 64) batches /\
      concat batches = map (sample (rate_num c) (rate_den c) (full_scale c) d l) (seqZ 0 (index p')) /\
      sink_context (sn76489_pcm_flush p') = deliver f c0 0 batches.
Proof.
  intros start d l complete Hfit. destruct Hok as [Hnum Hden Hwide Hscale Hconfig (M & HM & HM4 & Hlevels)].
  pose proof (ok_divider _ Hconfig) as Hd. assert (Hstart : chip_ok start) by (by apply reset_ok).
  assert (Hinit : steady c d f c0 [] (sn76489_pcm_init c (Some f) c0)).
  { apply init_steady; try done; [lia|]. apply (fits_mono c d f c0 Hnum Hden Hwide Hscale ltac:(lia) 0 complete); [|done].
    unfold complete. pose proof (zlen_nonneg l). unfold d. nia. }
  destruct (drive_steady c f c0 (config chip) M Hnum Hden Hwide Hscale Hconfig (conj HM HM4) Hlevels events cycles start []
    (sn76489_pcm_init c (Some f) c0)) as (chip' & p' & E & Hp & Ht); [done|done|done|constructor|done|done|].
  exists chip', p'. split; [exact E|]. split; [exact Ht|]. by apply flush_delivers.
Qed.

(** Two tones for twelve ticks, a write after the fourth, into a list of batches. *)
Definition batch_log (l : list (Z * list Z)) (first : Z) (b : list Z) : list (Z * list Z) := l ++ [(first, b)].

Lemma pcm_exact_witness :
  let c := mkPcmConfig 50 1 131068 in
  let events := [(0, 0x83); (0, 0x00); (0, 0x90); (70, 0x85)] in
  exists chip' p' batches,
    drive events 200 (sn76489_reset two_tones) (Some (sn76489_pcm_init c (Some batch_log) [])) = Some (chip', Some p') /\
    index p' = 3 /\ concat batches = [-20481; -27307; -16385] /\
    sink_context (sn76489_pcm_flush p') = deliver batch_log [] 0 batches.
Proof.
  intros c events. assert (Hok : stream_ok c (config two_tones)).
  { split; [cbn; lia|cbn; lia|done|cbn; lia|exact default_ok|]. exists 32767. split; [lia|]. split; [cbn; lia|]. by_registers. }
  assert (El : session_levels events 200 (sn76489_reset two_tones) = [32767; 32767; 32767; 0; 0; 0; 32767; 32767; 32767; 32767; 32767; 0])
    by (with_strategy transparent [zfor] vm_compute; reflexivity).
  destruct (pcm_exact c batch_log [] two_tones events 200 Hok) as (chip' & p' & E & Ht & batches & Hb & Ec & Es).
  { rewrite El. unfold fits. vm_compute. auto. }
  rewrite El in Ht, Ec. change (divider (config two_tones)) with 16 in *. change (zlen _ * 16) with 192 in Ht.
  unfold sample_start, ceil_div in Ht. cbn [rate_num rate_den c] in Ht. rewrite !Z.div_1_r in Ht.
  assert (Ei : index p' = 3) by lia. rewrite Ei in Ec. exists chip', p', batches. split; [exact E|]. split; [exact Ei|].
  split; [|exact Es]. etrans; [exact Ec|]. vm_compute. reflexivity.
Defined.

(** * The ring is a bounded queue *)

Inductive RingOp : Type := RingSink (samples : list Z) | RingRead (max : Z) | RingClear.

(** The ring's answer: what a read copies and the index of its first sample. *)
Definition ring_step (op : RingOp) (r : Sn76489Ring) : option (list Z * Z) * Sn76489Ring :=
  match op with
  | RingSink samples => (None, sn76489_ring_sink r 0 samples)
  | RingRead max => let '(out, first, r) := sn76489_ring_read r max in (Some (out, first), r)
  | RingClear => (None, sn76489_ring_clear r)
  end.

(** The specification: the samples not yet read, oldest first, the absolute index of
    the oldest, and how many were lost. *)
Record Queue := mkQueue { waiting : list Z; oldest : Z; lost : Z }.

(** A sample that arrives at a full queue displaces the oldest. *)
Definition queue_push (capacity : Z) (q : Queue) (x : Z) : Queue :=
  if zlen (waiting q) =? capacity then mkQueue (drop 1 (waiting q) ++ [x]) (oldest q + 1) (lost q + 1)
  else mkQueue (waiting q ++ [x]) (oldest q) (lost q).

Definition queue_step (capacity : Z) (op : RingOp) (q : Queue) : option (list Z * Z) * Queue :=
  match op with
  | RingSink samples => (None, fold_left (queue_push capacity) samples q)
  | RingRead max =>
      let n := Z.to_nat max in
      let out := take n (waiting q) in
      (Some (out, oldest q), mkQueue (drop n (waiting q)) (oldest q + zlen out) (lost q))
  | RingClear => (None, mkQueue [] 0 0)
  end.

(** A run of operations with its answers. *)
Fixpoint answers {S} (step : RingOp -> S -> option (list Z * Z) * S) (ops : list RingOp) (s : S) : list (option (list Z * Z)) * S :=
  match ops with
  | [] => ([], s)
  | op :: rest => let '(a, s) := step op s in let '(l, s) := answers step rest s in (a :: l, s)
  end.

Definition pushes (ops : list RingOp) : Z :=
  foldr (fun op n => match op with RingSink samples => zlen samples + n | _ => n end) 0 ops.

Lemma mod_ne (a b n : Z) : 0 < b - a < n -> a mod n <> b mod n.
Proof.
  intros H E. assert (D : (b - a) mod n = 0) by (rewrite Zminus_mod, E, Z.sub_diag; apply Z.mod_0_l; lia).
  rewrite Z.mod_small in D by lia. lia.
Qed.

Section RingSpec.
Context (capacity : Z).
Hypothesis Hcap : 1 <= capacity < 2 ^ 32.

(** The ring holds the queue from [read_index] on, modulo its capacity; [room] more
    samples fit the 64-bit write index. *)
Record holds (room : Z) (r : Sn76489Ring) (q : Queue) : Prop := {
  h_capacity : ring_capacity r = capacity;
  h_data : zlen (ring_data r) = capacity;
  h_read : read_index r = oldest q;
  h_write : write_index r = oldest q + zlen (waiting q);
  h_dropped : dropped r = lost q;
  h_full : zlen (waiting q) <= capacity;
  h_oldest : 0 <= lost q <= oldest q;
  h_room : write_index r + room < 2 ^ 64;
  h_slots : forall i, 0 <= i < zlen (waiting q) -> znth (ring_data r) ((oldest q + i) mod capacity) 0 = znth (waiting q) i 0;
}.

Lemma push_holds room r q x : 1 <= room -> holds room r q -> holds (room - 1) (ring_push r x) (queue_push capacity q x).
Proof using Hcap.
  intros Hroom [Hc Hd Hr Hw Hl Hfull Hold Hfit Hs]. pose proof (zlen_nonneg (waiting q)) as H0. remember (oldest q + zlen (waiting q)) as w eqn:Ew.
  assert (Hslot : 0 <= w mod capacity < zlen (ring_data r)) by (rewrite Hd; apply Z.mod_pos_bound; lia).
  assert (Hput : forall j, 0 <= j ->
    znth (<[Z.to_nat (w mod capacity) := x]> (ring_data r)) (j mod capacity) 0 =
      if j mod capacity =? w mod capacity then x else znth (ring_data r) (j mod capacity) 0).
  { intros j Hj. apply znth_insert; [done|]. apply Z.mod_pos_bound. lia. }
  unfold ring_push. cbv zeta. rewrite Hc, Hw, Hr, Hl. unfold u64.
  replace (w - oldest q) with (zlen (waiting q)) by lia. rewrite (Z.mod_small (zlen _)), (Z.mod_small (w + 1)) by lia.
  unfold queue_push. destruct (Z.eqb_spec (zlen (waiting q)) capacity) as [E|E].
  - rewrite (Z.mod_small (oldest q + 1)), (Z.mod_small (lost q + 1)) by lia. destruct (waiting q) as [|y rest] eqn:Eq; [unfold zlen in E; cbn in E; lia|].
    cbn [drop]. rewrite drop_0. rewrite zlen_cons in *.
    split; cbn [ring_capacity ring_data read_index write_index dropped waiting oldest lost]; rewrite ?zlen_snoc; try done; try lia;
      [by rewrite zlen_insert|].
    intros i Hi. rewrite Hput by lia. destruct (decide (i = zlen rest)) as [->|Hne].
    + replace (oldest q + 1 + zlen rest) with w by lia. rewrite Z.eqb_refl. rewrite znth_nth by lia. unfold zlen.
      by rewrite Nat2Z.id, app_nth2, Nat.sub_diag by lia.
    + rewrite (proj2 (Z.eqb_neq _ _)) by (apply mod_ne; lia).
      replace (oldest q + 1 + i) with (oldest q + (i + 1)) by lia. rewrite Hs by lia.
      rewrite !znth_nth by lia. replace (Z.to_nat (i + 1)) with (S (Z.to_nat i)) by lia. cbn [nth].
      unfold zlen in Hi, Hne. by rewrite app_nth1 by lia.
  - split; cbn [ring_capacity ring_data read_index write_index dropped waiting oldest lost]; rewrite ?zlen_snoc; try done; try lia;
      [by rewrite zlen_insert|].
    intros i Hi. rewrite Hput by lia. destruct (decide (i = zlen (waiting q))) as [->|Hne].
    + rewrite <- Ew, Z.eqb_refl, znth_nth by lia. unfold zlen. by rewrite Nat2Z.id, app_nth2, Nat.sub_diag by lia.
    + rewrite (proj2 (Z.eqb_neq _ _)) by (apply mod_ne; lia). rewrite Hs by lia. rewrite !znth_nth by lia.
      unfold zlen in Hi, Hne. by rewrite app_nth1 by lia.
Qed.

Lemma sink_holds samples room r q : zlen samples <= room -> holds room r q ->
  holds (room - zlen samples) (sn76489_ring_sink r 0 samples) (fold_left (queue_push capacity) samples q).
Proof using Hcap.
  intros Hroom H. unfold sn76489_ring_sink. rewrite (h_capacity _ _ _ H), (proj2 (Z.eqb_neq _ 0)) by lia.
  revert room r q Hroom H. induction samples as [|x samples IH]; intros room r q Hroom H; cbn [fold_left].
  - by rewrite Z.sub_0_r.
  - rewrite zlen_cons in *. replace (room - (1 + zlen samples)) with (room - 1 - zlen samples) by lia.
    pose proof (zlen_nonneg samples). apply IH; [lia|]. apply push_holds; [lia|done].
Qed.

Lemma read_holds max room r q : 0 <= max -> 0 <= room -> holds room r q ->
  (ring_step (RingRead max) r).1 = (queue_step capacity (RingRead max) q).1 /\
  holds room (ring_step (RingRead max) r).2 (queue_step capacity (RingRead max) q).2.
Proof using Hcap.
  intros Hmax Hroom [Hc Hd Hr Hw Hl Hfull Hold Hfit Hs]. pose proof (zlen_nonneg (waiting q)) as H0.
  unfold ring_step, queue_step, sn76489_ring_read, sn76489_ring_available. cbv zeta. rewrite Hc, Hw, Hr, Hl.
  replace (oldest q + zlen (waiting q) - oldest q) with (zlen (waiting q)) by lia. rewrite u32_id by (unfold is_u32; lia).
  set (n := if max <? zlen (waiting q) then max else zlen (waiting q)).
  assert (Hn : 0 <= n <= zlen (waiting q) /\ n = Z.min max (zlen (waiting q))) by (unfold n; destruct (Z.ltb_spec max (zlen (waiting q))); lia).
  assert (Htake : zlen (take (Z.to_nat max) (waiting q)) = n) by (unfold zlen in *; rewrite length_take; lia).
  assert (Hdrop : zlen (drop (Z.to_nat max) (waiting q)) = zlen (waiting q) - n) by (unfold zlen in *; rewrite length_drop; lia).
  cbn [fst snd]. split.
  - do 2 f_equal. apply (nth_ext _ _ 0 0).
    { rewrite length_map, length_seqZ. unfold zlen in Htake. lia. }
    intros i Hi. rewrite length_map, length_seqZ in Hi. rewrite (nth_indep _ 0 (znth (ring_data r) (u64 (oldest q + 0) mod capacity) 0))
      by (rewrite length_map, length_seqZ; lia).
    rewrite (map_nth (fun i => znth (ring_data r) (u64 (oldest q + i) mod capacity) 0)).
    rewrite (nth_lookup_Some (seqZ 0 n) i 0 (Z.of_nat i)) by (apply lookup_seqZ; lia).
    rewrite u64_id by (unfold is_u64; lia). rewrite Hs by lia. rewrite znth_nth by lia. rewrite Nat2Z.id.
    rewrite <- (take_drop (Z.to_nat max) (waiting q)) at 1. apply app_nth1. unfold zlen in Htake. lia.
  - split; cbn [ring_capacity ring_data read_index write_index dropped waiting oldest lost]; try done; rewrite ?Htake, ?Hdrop; try lia.
    + rewrite u64_id; [done|]. unfold is_u64. lia.
    + intros i Hi. replace (oldest q + n + i) with (oldest q + (n + i)) by lia. rewrite Hs by lia. rewrite !znth_nth by lia.
      rewrite !nth_lookup, lookup_drop. do 2 f_equal. unfold zlen in *. lia.
Qed.
Definition read_sizes (ops : list RingOp) : Prop := Forall (fun op => match op with RingRead max => is_u32 max | _ => True end) ops.

Lemma pushes_nonneg ops : 0 <= pushes ops.
Proof using Type. clear. unfold pushes. induction ops as [|[samples|max|] ops IH]; cbn [foldr]; try pose proof (zlen_nonneg samples); lia. Qed.

Lemma answers_hold ops r q : read_sizes ops -> holds (pushes ops) r q ->
  (answers ring_step ops r).1 = (answers (queue_step capacity) ops q).1 /\
  holds 0 (answers ring_step ops r).2 (answers (queue_step capacity) ops q).2.
Proof using Hcap.
  revert r q. induction ops as [|op ops IH]; intros r q Hops H; [done|]. apply Forall_cons in Hops as [Hop Hops].
  pose proof (pushes_nonneg ops) as Hp.
  assert (Hstep : (ring_step op r).1 = (queue_step capacity op q).1 /\ holds (pushes ops) (ring_step op r).2 (queue_step capacity op q).2).
  { destruct op as [samples|max|]; cbn [ring_step queue_step fst snd].
    - split; [done|]. cbn [pushes foldr] in H. fold (pushes ops) in H.
      replace (pushes ops) with (zlen samples + pushes ops - zlen samples) by lia. apply sink_holds; [lia|done].
    - apply read_holds; [unfold is_u32 in Hop; lia|lia|done].
    - split; [done|]. destruct H as [Hc Hd Hr Hw Hl Hfull Hold Hfit Hs]. cbn [pushes foldr] in Hfit. fold (pushes ops) in Hfit.
      pose proof (zlen_nonneg (waiting q)).
      split; cbn [sn76489_ring_clear ring_capacity ring_data read_index write_index dropped waiting oldest lost];
        change (zlen (@nil Z)) with 0; try done; lia. }
  cbn [answers]. destruct (ring_step op r) as [a r'], (queue_step capacity op q) as [a' q']. cbn [fst snd] in Hstep.
  destruct Hstep as [<- H']. destruct (IH r' q' Hops H') as [E H'']. 
  destruct (answers ring_step ops r') as [l r''], (answers (queue_step capacity) ops q') as [l' q'']. cbn [fst snd] in *. by rewrite E.
Qed.
End RingSpec.

(** The ring is a bounded queue.  Over storage of its capacity, any sequence of
    deliveries, reads and clears gives the answers of a queue of whole samples that
    drops its oldest sample, and counts it, when one arrives while it is full: every
    read returns the oldest waiting samples in order and the absolute index of the
    first; and at the end the counts of waiting and dropped samples agree. *)
Theorem ring_fifo (storage : list Z) (capacity : Z) (ops : list RingOp) (Hcap : 1 <= capacity < 2 ^ 32)
    (Hstorage : zlen storage = capacity) (Hreads : read_sizes ops) (Hfit : pushes ops < 2 ^ 64) :
  let '(out, r) := answers ring_step ops (sn76489_ring_init storage capacity) in
  let '(out', q) := answers (queue_step capacity) ops (mkQueue [] 0 0) in
  out = out' /\ sn76489_ring_available r = zlen (waiting q) /\ zlen (waiting q) <= capacity /\ dropped r = lost q.
Proof.
  destruct (answers_hold capacity Hcap ops (sn76489_ring_init storage capacity) (mkQueue [] 0 0) Hreads) as [E H].
  { split; cbn [sn76489_ring_init sn76489_ring_clear ring_capacity ring_data read_index write_index dropped waiting oldest lost];
      change (zlen (@nil Z)) with 0; try done; lia. }
  destruct (answers ring_step _ _) as [out r], (answers (queue_step capacity) _ _) as [out' q]. cbn [fst snd] in *.
  split; [done|]. destruct H as [Hc Hd Hr Hw Hl Hfull Hold Hroom Hs]. pose proof (zlen_nonneg (waiting q)).
  split_and!; try done. unfold sn76489_ring_available. rewrite Hw, Hr.
  replace (oldest q + zlen (waiting q) - oldest q) with (zlen (waiting q)) by lia. apply u32_id. unfold is_u32. lia.
Qed.

(** Five samples into a ring of three, two reads. *)
Lemma ring_fifo_witness :
  let ops := [RingSink [1; 2]; RingRead 1; RingSink [3; 4; 5]; RingRead 9] in
  (answers ring_step ops (sn76489_ring_init [0; 0; 0] 3)).1 = [None; Some ([1], 0); None; Some ([3; 4; 5], 2)] /\
  dropped (answers ring_step ops (sn76489_ring_init [0; 0; 0] 3)).2 = 1.
Proof.
  intros ops. assert (Hreads : read_sizes ops) by (repeat constructor; unfold is_u32; lia).
  pose proof (ring_fifo [0; 0; 0] 3 ops ltac:(lia) eq_refl Hreads eq_refl) as H.
  destruct (answers ring_step ops _) as [out r]. destruct H as (E & _ & _ & Ed). split; [exact E|exact Ed].
Defined.

(** * The state's serialization *)

Lemma word_bytes_inj v w : is_u16 v -> is_u16 w -> word_bytes v = word_bytes w -> v = w.
Proof.
  unfold word_bytes, is_u16, u8. intros Hv Hw E. injection E as E1 E2. rewrite !Z.shiftr_div_pow2 in E2 by lia.
  change (2 ^ 8) with 256 in E2. Z.to_euclidean_division_equations; lia.
Qed.

Lemma registers3 l bound : registers l 3 bound -> l = [znth l 0 0; znth l 1 0; znth l 2 0].
Proof. intros [Hl _]. unfold zlen in Hl. by destruct l as [|a [|b [|c [|d l]]]]; cbn in Hl; try lia. Qed.

Lemma registers4 l bound : registers l 4 bound -> l = [znth l 0 0; znth l 1 0; znth l 2 0; znth l 3 0].
Proof. intros [Hl _]. unfold zlen in Hl. by destruct l as [|a [|b [|c [|d [|e l]]]]]; cbn in Hl; try lia. Qed.

Lemma tick_bytes_inj v w : is_u64 v -> is_u64 w ->
  map (fun i => u8 (v .>> (8 * i))) (seqZ 0 8) = map (fun i => u8 (w .>> (8 * i))) (seqZ 0 8) -> v = w.
Proof.
  intros Hv Hw. assert (E : forall x, is_u64 x -> x = foldr (fun b acc => b + 256 * acc) 0 (map (fun i => u8 (x .>> (8 * i))) (seqZ 0 8))).
  { intros x Hx. change (seqZ 0 8) with [0; 1; 2; 3; 4; 5; 6; 7]. cbn [map foldr]. unfold u8, is_u64 in *.
    rewrite !Z.shiftr_div_pow2 by lia. cbn [Z.mul Pos.mul]. Z.to_euclidean_division_equations; lia. }
  intros Eb. by rewrite (E v Hv), (E w Hw), Eb.
Qed.

(** The state's bytes are one sequence, field by field. *)
Lemma state_bytes_fields chip : sn76489_state_bytes chip =
  word_bytes (znth (tone_period chip) 0 0) ++ word_bytes (znth (tone_period chip) 1 0) ++ word_bytes (znth (tone_period chip) 2 0) ++
  word_bytes (znth (tone_counter chip) 0 0) ++ word_bytes (znth (tone_counter chip) 1 0) ++ word_bytes (znth (tone_counter chip) 2 0) ++
  [znth (tone_output chip) 0 0] ++ [znth (tone_output chip) 1 0] ++ [znth (tone_output chip) 2 0] ++
  [znth (attenuation chip) 0 0] ++ [znth (attenuation chip) 1 0] ++ [znth (attenuation chip) 2 0] ++ [znth (attenuation chip) 3 0] ++
  [noise_control chip] ++ word_bytes (noise_counter chip) ++ [noise_flip chip] ++ word_bytes (lfsr chip) ++ [u8 (latch chip)] ++
  map (fun i => u8 (ticks chip .>> (8 * i))) (seqZ 0 8).
Proof. reflexivity. Qed.

Lemma app_split {A} (a b c d : list A) : length a = length b -> a ++ c = b ++ d -> a = b /\ c = d.
Proof. intros Hl. by apply app_inj_1. Qed.

(** The digest sees the whole state.  Two chips in range with the same
    configuration serialize to the same 34 bytes only if they are equal. *)
Theorem state_bytes_injective (a b : Sn76489) (Ha : chip_ok a) (Hb : chip_ok b) (Hconfig : config a = config b)
    (Hbytes : sn76489_state_bytes a = sn76489_state_bytes b) : a = b /\ length (sn76489_state_bytes a) = 34%nat.
Proof.
  split; [|reflexivity]. rewrite !state_bytes_fields in Hbytes.
  do 18 (apply app_split in Hbytes as [?E Hbytes]; [|reflexivity]).
  assert (Hw : forall x y, 0 <= x < 1024 -> 0 <= y < 1024 -> word_bytes x = word_bytes y -> x = y).
  { intros x y Hx Hy. apply word_bytes_inj; unfold is_u16; lia. }
  assert (Hs : forall x y : Z, [x] = [y] -> x = y) by (intros x y Exy; by injection Exy).
  pose proof (seed_range _ (ok_config _ Ha)) as [[_ _] _]. pose proof (ok_bits _ (ok_config _ Ha)) as Hbits.
  assert (H16 : 2 ^ lfsr_bits (config a) <= 2 ^ 16) by (apply Z.pow_le_mono_r; lia). change (2 ^ 16) with 65536 in H16.
  destruct Ha as [_ Hpa Hka Hoa Haa _ Hnca _ Hla Hlta Hta], Hb as [_ Hpb Hkb Hob Hab _ Hncb _ Hlb Hltb Htb].
  pose proof (registers_znth _ _ _ 0 Hpa ltac:(lia)). pose proof (registers_znth _ _ _ 0 Hpb ltac:(lia)).
  assert (Ep : tone_period a = tone_period b).
  { rewrite (registers3 _ _ Hpa), (registers3 _ _ Hpb). f_equal; [|f_equal; [|f_equal]]; apply Hw; try done; by apply registers_znth with 3. }
  assert (Ek : tone_counter a = tone_counter b).
  { rewrite (registers3 _ _ Hka), (registers3 _ _ Hkb). f_equal; [|f_equal; [|f_equal]]; apply Hw; try done; by apply registers_znth with 3. }
  assert (Eo : tone_output a = tone_output b) by (rewrite (registers3 _ _ Hoa), (registers3 _ _ Hob); congruence).
  assert (Ea : attenuation a = attenuation b) by (rewrite (registers4 _ _ Haa), (registers4 _ _ Hab); congruence).
  assert (El : lfsr a = lfsr b) by (rewrite <- Hconfig in Hlb; apply word_bytes_inj; unfold is_u16; (done || lia)).
  assert (Et : ticks a = ticks b) by (by apply tick_bytes_inj).
  assert (Enc : noise_counter a = noise_counter b) by (by apply Hw).
  assert (Elt : latch a = latch b).
  { assert (Eu : u8 (latch a) = u8 (latch b)) by (by apply Hs). unfold u8 in Eu. Z.to_euclidean_division_equations; lia. }
  destruct a, b. cbn in *. f_equal; try done; by apply Hs.
Qed.

Lemma state_bytes_injective_witness :
  two_tones = two_tones /\ length (sn76489_state_bytes two_tones) = 34%nat.
Proof. exact (state_bytes_injective two_tones two_tones two_tones_ok two_tones_ok eq_refl eq_refl). Defined.
