(* ===== verification/Iso9660.v ===== *)
(** The ISO 9660 reader of [iso9660.hpp] and [iso9660.cpp].

    A block reader is a function from block numbers to the bytes of a block,
    [None] when the block cannot be read; strings are byte lists.  Results are
    [Ok] or one of the source's errors ([none] is [Ok]).  The loop over the
    records of a sector runs on fuel and answers [None] without it; that it never
    does is a theorem. *)

From Stdlib Require Import String.
From S2P Require Import Prelude.

(** * The volume as recorded *)

Definition kIso9660BlockBytes : Z := 2048.
Definition kIso9660FirstDescriptor : Z := 16.
Definition kIso9660MaxDescriptors : Z := 16.
Definition kIso9660MaxDirectoryBytes : Z := 64 * 1024.
Definition kIso9660MaxDepth : Z := 8.

Inductive Iso9660Error : Type :=
| read_failed | no_primary_descriptor | descriptor_invalid | duplicate_primary | both_endian_mismatch | unsupported_block_size
| volume_space_invalid | unsupported_volume_set | record_invalid | record_crosses_sector | unsupported_feature
| directory_invalid | extent_out_of_range | path_invalid | path_not_found | path_ambiguous | not_a_file | not_a_directory.

Definition iso9660_error_name (error : option Iso9660Error) : string :=
  match error with
  | None => "none"
  | Some read_failed => "read_failed"
  | Some no_primary_descriptor => "no_primary_descriptor"
  | Some descriptor_invalid => "descriptor_invalid"
  | Some duplicate_primary => "duplicate_primary"
  | Some both_endian_mismatch => "both_endian_mismatch"
  | Some unsupported_block_size => "unsupported_block_size"
  | Some volume_space_invalid => "volume_space_invalid"
  | Some unsupported_volume_set => "unsupported_volume_set"
  | Some record_invalid => "record_invalid"
  | Some record_crosses_sector => "record_crosses_sector"
  | Some unsupported_feature => "unsupported_feature"
  | Some directory_invalid => "directory_invalid"
  | Some extent_out_of_range => "extent_out_of_range"
  | Some path_invalid => "path_invalid"
  | Some path_not_found => "path_not_found"
  | Some path_ambiguous => "path_ambiguous"
  | Some not_a_file => "not_a_file"
  | Some not_a_directory => "not_a_directory"
  end.

Record Iso9660Extent := mkExtent { block : Z; size : Z }.
Record Iso9660Volume := mkVolume { volume_id : list Z; volume_space : Z; root : Iso9660Extent }.
Record Iso9660Entry := mkEntry { identifier : list Z; directory : bool; extent : Iso9660Extent }.

(** A block reader: [read block], the bytes or [None]. *)
Definition Iso9660BlockReader := Z -> option (list Z).

(** [p[i]] *)
#[local] Notation "p .[ i ]" := (znth p i 0) (at level 1, left associativity, format "p .[ i ]").
(** [p + i] *)
#[local] Notation "p @+ i" := (drop (Z.to_nat i) p) (at level 30).

Definition le32 (p : list Z) : Z := ((p.[0] .| (p.[1] .<< 8)) .| (p.[2] .<< 16)) .| (p.[3] .<< 24).
Definition be32 (p : list Z) : Z := (((p.[0] .<< 24) .| (p.[1] .<< 16)) .| (p.[2] .<< 8)) .| p.[3].
Definition le16 (p : list Z) : Z := p.[0] .| (p.[1] .<< 8).
Definition be16 (p : list Z) : Z := (p.[0] .<< 8) .| p.[1].

(** The value of a both-endian field whose halves agree. *)
Definition both32 (p : list Z) : option Z := let out := le32 p in if out =? be32 (p @+ 4) then Some out else None.
Definition both16 (p : list Z) : option Z := let out := le16 p in if out =? be16 (p @+ 2) then Some out else None.

Definition or_fail {A} (o : option A) (e : Iso9660Error) : result Iso9660Error A := match o with Some a => Ok a | None => Err e end.

Definition blocks_of (size : Z) : Z := (size + kIso9660BlockBytes - 1) / kIso9660BlockBytes.

Definition extent_fits (e : Iso9660Extent) (volume_space : Z) : bool :=
  (block e + blocks_of (size e) <=? volume_space) && (block e <? volume_space).

(** [struct Record] *)
Record DirRecord := mkDirRecord { entry : Iso9660Entry; name_length : Z; first_name_byte : Z }.

Definition parse_record (p : list Z) (available : Z) : result Iso9660Error DirRecord :=
  let length := p.[0] in
  _ ← fail_if (length <? 34) record_invalid;
  _ ← fail_if (available <? length) record_crosses_sector;
  let name_length := p.[32] in
  _ ← fail_if ((name_length =? 0) || (length <? 33 + name_length)) record_invalid;
  _ ← fail_if (negb (p.[1] =? 0)) unsupported_feature;
  _ ← fail_if (negb (p.[26] =? 0) || negb (p.[27] =? 0)) unsupported_feature;
  let flags := p.[25] in
  _ ← fail_if (negb (flags .& 0x80 =? 0) || negb (flags .& 0x04 =? 0)) unsupported_feature;
  block ← or_fail (both32 (p @+ 2)) both_endian_mismatch;
  size ← or_fail (both32 (p @+ 10)) both_endian_mismatch;
  sequence ← or_fail (both16 (p @+ 28)) both_endian_mismatch;
  _ ← fail_if (negb (sequence =? 1)) unsupported_volume_set;
  Ok (mkDirRecord (mkEntry (take (Z.to_nat name_length) (p @+ 33)) (negb (flags .& 0x02 =? 0)) (mkExtent block size))
        name_length p.[33]).

Definition check_directory_extent (e : Iso9660Extent) (volume_space : Z) : result Iso9660Error unit :=
  _ ← fail_if ((size e =? 0) || negb (size e mod kIso9660BlockBytes =? 0) || (kIso9660MaxDirectoryBytes <? size e)) directory_invalid;
  fail_if (negb (extent_fits e volume_space)) extent_out_of_range.

(** * The volume descriptors *)

(** The trailing spaces and zero bytes of the volume identifier go. *)
Fixpoint trim_id (id : list Z) : list Z :=
  match id with
  | [] => []
  | c :: id =>
      match trim_id id with
      | [] => if (c =? 32) || (c =? 0) then [] else [c]
      | rest => c :: rest
      end
  end.

(** ["CD001"] after the type byte, and version 1. *)
Definition standard_descriptor (b : list Z) : bool :=
  (take 5 (b @+ 1) =b [67; 68; 48; 48; 49]) && (b.[6] =? 1).

(** What a primary descriptor says. *)
Definition primary_volume (b : list Z) : result Iso9660Error Iso9660Volume :=
  _ ← fail_if (negb (b.[881] =? 1)) descriptor_invalid;
  volume_space ← or_fail (both32 (b @+ 80)) both_endian_mismatch;
  set_size ← or_fail (both16 (b @+ 120)) both_endian_mismatch;
  sequence ← or_fail (both16 (b @+ 124)) both_endian_mismatch;
  block_size ← or_fail (both16 (b @+ 128)) both_endian_mismatch;
  _ ← fail_if (negb (block_size =? kIso9660BlockBytes)) unsupported_block_size;
  _ ← fail_if (negb (set_size =? 1) || negb (sequence =? 1)) unsupported_volume_set;
  r ← parse_record (b @+ 156) 34;
  _ ← fail_if (negb (b.[156] =? 34) || negb (name_length r =? 1) || negb (first_name_byte r =? 0) || negb (directory (entry r)))
        record_invalid;
  Ok (mkVolume (trim_id (take 32 (b @+ 40))) volume_space (extent (entry r))).

Section Reader.
Context (read : Iso9660BlockReader).

(** The loop over the descriptors: the primary one, the index it stopped at, and
    whether the set was terminated. *)
Fixpoint descriptors (count : nat) (index : Z) (primary : option Iso9660Volume)
  : result Iso9660Error (option Iso9660Volume * Z * bool) :=
  match count with
  | O => Ok (primary, index, false)
  | S count =>
      b ← or_fail (read (kIso9660FirstDescriptor + index)) read_failed;
      _ ← fail_if (negb (standard_descriptor b)) descriptor_invalid;
      let type := b.[0] in
      if type =? 255 then Ok (primary, index, true)
      else if (type =? 0) || (type =? 2) || (type =? 3) then descriptors count (index + 1) primary
      else
        _ ← fail_if (negb (type =? 1)) descriptor_invalid;
        _ ← fail_if (bool_decide (is_Some primary)) duplicate_primary;
        volume ← primary_volume b;
        descriptors count (index + 1) (Some volume)
  end.

Definition read_iso9660_volume (track_blocks : Z) : result Iso9660Error Iso9660Volume :=
  '(primary, index, terminated) ← descriptors (Z.to_nat kIso9660MaxDescriptors) 0 None;
  _ ← fail_if (negb terminated) descriptor_invalid;
  volume ← or_fail primary no_primary_descriptor;
  _ ← fail_if ((track_blocks <? volume_space volume) || (volume_space volume <=? kIso9660FirstDescriptor + index)) volume_space_invalid;
  _ ← check_directory_extent (root volume) (volume_space volume);
  Ok volume.

(** * Directories *)

(** What the listing does with a record: how many of ["."] and [".."] it has seen,
    and the entries so far. *)
Definition accept_record (dir : Iso9660Extent) (space : Z) (record : DirRecord) (acc : Z * list Iso9660Entry)
  : result Iso9660Error (Z * list Iso9660Entry) :=
  let '(seen, entries) := acc in
  let e := entry record in
  if seen <? 2 then
    _ ← fail_if (negb (name_length record =? 1) || negb (first_name_byte record =? seen) || negb (directory e)) record_invalid;
    _ ← fail_if ((seen =? 0) && (negb (block (extent e) =? block dir) || negb (size (extent e) =? size dir))) record_invalid;
    Ok (seen + 1, entries)
  else
    _ ← fail_if ((name_length record =? 1) && (first_name_byte record <=? 1)) record_invalid;
    _ ← (if directory e then check_directory_extent (extent e) space
         else fail_if (negb (extent_fits (extent e) space)) extent_out_of_range);
    Ok (seen, entries ++ [e]).

(** [while (at < kIso9660BlockBytes)] *)
Fixpoint sector_records (fuel : nat) (dir : Iso9660Extent) (space : Z) (b : list Z) (at_ : Z) (acc : Z * list Iso9660Entry)
  : option (result Iso9660Error (Z * list Iso9660Entry)) :=
  if at_ <? kIso9660BlockBytes then
    if b.[at_] =? 0 then Some (Ok acc)
    else
      match fuel with
      | O => None
      | S fuel =>
          match (record ← parse_record (b @+ at_) (kIso9660BlockBytes - at_); accept_record dir space record acc) with
          | Err e => Some (Err e)
          | Ok acc => sector_records fuel dir space b (at_ + b.[at_]) acc
          end
      end
  else Some (Ok acc).

(** A record is at least 34 bytes long. *)
Definition sector_fuel : nat := 61.

(** The loop over the sectors of the directory, from sector [b]. *)
Fixpoint directory_sectors (count : nat) (dir : Iso9660Extent) (space : Z) (b : Z) (acc : Z * list Iso9660Entry)
  : option (result Iso9660Error (Z * list Iso9660Entry)) :=
  match count with
  | O => Some (Ok acc)
  | S count =>
      match read (u32 (block dir + b)) with
      | None => Some (Err read_failed)
      | Some bytes =>
          match sector_records sector_fuel dir space bytes 0 acc with
          | None => None
          | Some (Err e) => Some (Err e)
          | Some (Ok acc) => directory_sectors count dir space (b + 1) acc
          end
      end
  end.

Definition list_iso9660_directory (volume : Iso9660Volume) (dir : Iso9660Extent) : option (result Iso9660Error (list Iso9660Entry)) :=
  match check_directory_extent dir (volume_space volume) with
  | Err e => Some (Err e)
  | Ok _ =>
      match directory_sectors (Z.to_nat (size dir / kIso9660BlockBytes)) dir (volume_space volume) 0 (0, []) with
      | None => None
      | Some (Err e) => Some (Err e)
      | Some (Ok (seen, entries)) => Some (if seen <? 2 then Err record_invalid else Ok entries)
      end
  end.

(** * Paths *)

Definition slash : Z := 47.

(** The loop over the components, a byte at a time; [component] is the one begun. *)
Fixpoint path_components (rest component : list Z) : result Iso9660Error (list (list Z)) :=
  match rest with
  | [] => if zlen component =? 0 then Err path_invalid else Ok [component]
  | c :: rest =>
      if c =? slash then
        if zlen component =? 0 then Err path_invalid
        else components ← path_components rest []; Ok (component :: components)
      else path_components rest (component ++ [c])
  end.

(** The loop over a listing: the entry with the identifier, which must be the only one. *)
Fixpoint find_entry (name : list Z) (entries : list Iso9660Entry) (found : option Iso9660Entry)
  : result Iso9660Error (option Iso9660Entry) :=
  match entries with
  | [] => Ok found
  | e :: entries =>
      if negb (identifier e =b name) then find_entry name entries found
      else
        match found with
        | Some _ => Err path_ambiguous
        | None => find_entry name entries (Some e)
        end
  end.

(** The loop over the components, from a directory. *)
Fixpoint resolve (volume : Iso9660Volume) (components : list (list Z)) (dir : Iso9660Extent)
  : option (result Iso9660Error Iso9660Extent) :=
  match components with
  | [] => Some (Err path_invalid)
  | name :: rest =>
      match list_iso9660_directory volume dir with
      | None => None
      | Some (Err e) => Some (Err e)
      | Some (Ok entries) =>
          match find_entry name entries None with
          | Err e => Some (Err e)
          | Ok None => Some (Err path_not_found)
          | Ok (Some e) =>
              let last := match rest with [] => true | _ => false end in
              if last && directory e then Some (Err not_a_file)
              else if negb last && negb (directory e) then Some (Err not_a_directory)
              else if last then Some (Ok (extent e))
              else resolve volume rest (extent e)
          end
      end
  end.

Definition lookup_iso9660_file (volume : Iso9660Volume) (path : list Z) : option (result Iso9660Error Iso9660Extent) :=
  match path with
  | [] => Some (Err path_invalid)
  | c :: rest =>
      if negb (c =? slash) then Some (Err path_invalid)
      else
        match path_components rest [] with
        | Err e => Some (Err e)
        | Ok components =>
            if (zlen components =? 0) || (kIso9660MaxDepth <? zlen components) then Some (Err path_invalid)
            else resolve volume components (root volume)
        end
  end.
End Reader.

(** * The block reader of a disc track *)

(** What the reader uses of a track, and of the disc: its user data by logical address. *)
Record DiscTrack := mkTrack { audio : bool; first_lba : Z; sector_count : Z }.

Definition iso9660_track_reader (tracks : list DiscTrack) (read_user_data : Z -> option (list Z)) (track_index : Z) : Iso9660BlockReader :=
  fun b =>
    match (if track_index <? zlen tracks then tracks !! Z.to_nat track_index else None) with
    | None => None
    | Some track =>
        if audio track || (sector_count track <=? b) then None
        else read_user_data (u32 (first_lba track + b))
    end.

(** * Records as they are written

    The bytes the reader does not interpret: the recording date, the other flag bits
    and the system use area. *)
Record Unread := mkUnread { date : list Z; flags : Z; system_use : list Z }.

Definition le_bytes (v : Z) : list Z := [v mod 256; v / 256 mod 256; v / 65536 mod 256; v / 16777216].
Definition be_bytes (v : Z) : list Z := [v / 16777216; v / 65536 mod 256; v / 256 mod 256; v mod 256].

(** A directory record (ECMA-119 9.1) of a single-extent file or a directory. *)
Definition record_bytes (u : Unread) (e : Iso9660Entry) : list Z :=
  [33 + zlen (identifier e) + zlen (system_use u); 0] ++
  le_bytes (block (extent e)) ++ be_bytes (block (extent e)) ++ le_bytes (size (extent e)) ++ be_bytes (size (extent e)) ++
  date u ++ [flags u; 0; 0; 1; 0; 0; 1; zlen (identifier e)] ++ identifier e ++ system_use u.

Record record_ok (u : Unread) (e : Iso9660Entry) : Prop := {
  rec_date : zlen (date u) = 7;
  rec_multi_extent : flags u .& 0x80 = 0;
  rec_associated : flags u .& 0x04 = 0;
  rec_directory : negb (flags u .& 0x02 =? 0) = directory e;
  rec_name : 1 <= zlen (identifier e);
  rec_block : is_u32 (block (extent e));
  rec_size : is_u32 (size (extent e));
}.

Definition record_of (e : Iso9660Entry) : DirRecord := mkDirRecord e (zlen (identifier e)) (identifier e).[0].

Lemma le32_sum a b c d (r : list Z) : is_u8 a -> is_u8 b -> is_u8 c -> is_u8 d ->
  le32 (a :: b :: c :: d :: r) = a + 256 * b + 65536 * c + 16777216 * d.
Proof.
  unfold is_u8. intros Ha Hb Hc Hd. change (le32 (a :: b :: c :: d :: r)) with (((a .| (b .<< 8)) .| (c .<< 16)) .| (d .<< 24)).
  rewrite (lor_shiftl 8), (lor_shiftl 16), (lor_shiftl 24) by lia. lia.
Qed.

Lemma be32_sum4 a b c d (r : list Z) : is_u8 a -> is_u8 b -> is_u8 c -> is_u8 d ->
  be32 (a :: b :: c :: d :: r) = 16777216 * a + 65536 * b + 256 * c + d.
Proof.
  unfold is_u8. intros Ha Hb Hc Hd. change (be32 (a :: b :: c :: d :: r)) with ((((a .<< 24) .| (b .<< 16)) .| (c .<< 8)) .| d).
  rewrite be32_sum by done. lia.
Qed.

(** A both-endian field holds a value exactly when it is written both ways. *)
Lemma both32_spec a b c d e f g h r v : Forall is_u8 [a; b; c; d; e; f; g; h] ->
  both32 (a :: b :: c :: d :: e :: f :: g :: h :: r) = Some v <->
  [a; b; c; d] = le_bytes v /\ [e; f; g; h] = be_bytes v /\ is_u32 v.
Proof.
  intros H. repeat (apply Forall_cons in H as [?H H]). unfold both32. cbv zeta.
  change (drop (Z.to_nat 4) (a :: b :: c :: d :: e :: f :: g :: h :: r)) with (e :: f :: g :: h :: r).
  rewrite le32_sum, be32_sum4 by done. unfold is_u8, is_u32, le_bytes, be_bytes in *. split.
  - destruct (Z.eqb_spec (a + 256 * b + 65536 * c + 16777216 * d) (16777216 * e + 65536 * f + 256 * g + h)) as [E|]; [|intros X; discriminate X].
    intros X. apply (inj Some) in X as <-. assert (a = h /\ b = g /\ c = f /\ d = e) as (-> & -> & -> & ->) by lia.
    split_and!; try lia; repeat f_equal; Z.to_euclidean_division_equations; lia.
  - intros (E1 & E2 & Hv). injection E1 as -> -> -> ->. injection E2 as -> -> -> ->.
    rewrite (proj2 (Z.eqb_eq _ _)) by lia. f_equal. Z.to_euclidean_division_equations; lia.
Qed.

Lemma both16_one a b c d r : Forall is_u8 [a; b; c; d] -> both16 (a :: b :: c :: d :: r) = Some 1 <-> [a; b; c; d] = [1; 0; 0; 1].
Proof.
  intros H. repeat (apply Forall_cons in H as [?H H]). unfold both16. cbv zeta.
  change (drop (Z.to_nat 2) (a :: b :: c :: d :: r)) with (c :: d :: r).
  change (le16 (a :: b :: c :: d :: r)) with (a .| (b .<< 8)). change (be16 (c :: d :: r)) with ((c .<< 8) .| d).
  rewrite lor_shiftl_8, be16_sum by done. unfold is_u8 in *. split.
  - destruct (Z.eqb_spec (a + 256 * b) (256 * c + d)) as [E|]; [|intros X; discriminate X]. intros X. apply (inj Some) in X.
    repeat f_equal; lia.
  - intros X. injection X as -> -> -> ->. done.
Qed.

(** The first [n] bytes of a list that has them. *)
Lemma take_explicit (p : list Z) (n : nat) : Z.of_nat n <= zlen p -> exists q r, p = q ++ r /\ length q = n.
Proof. intros H. exists (take n p), (drop n p). rewrite take_drop, length_take. unfold zlen in H. split; [done|lia]. Qed.

Lemma explicit7 (q : list Z) : length q = 7%nat -> exists a b c d e f g, q = [a; b; c; d; e; f; g].
Proof. intros H. do 7 (destruct q as [|? q]; [discriminate H|]). destruct q; [by repeat eexists|discriminate H]. Qed.

(** The fixed part of a record. *)
Lemma explicit33 (p : list Z) : 33 <= zlen p -> exists b0 b1 l0 l1 l2 l3 m0 m1 m2 m3 s0 s1 s2 s3 t0 t1 t2 t3 d f g h v0 v1 v2 v3 n tail,
  length d = 7%nat /\
  p = b0 :: b1 :: l0 :: l1 :: l2 :: l3 :: m0 :: m1 :: m2 :: m3 :: s0 :: s1 :: s2 :: s3 :: t0 :: t1 :: t2 :: t3 ::
      d ++ f :: g :: h :: v0 :: v1 :: v2 :: v3 :: n :: tail.
Proof.
  intros H. destruct (take_explicit p 18) as (q & r & -> & Hq); [lia|].
  do 18 (destruct q as [|? q]; [discriminate Hq|]). destruct q; [|discriminate Hq].
  destruct (take_explicit r 7) as (d & r' & -> & Hd); [rewrite !zlen_app in H; unfold zlen in *; cbn in *; lia|].
  assert (Hr : 8 <= zlen r') by (rewrite !zlen_app in H; unfold zlen in *; rewrite Hd in H; cbn in H; lia).
  destruct (take_explicit r' 8) as (q & tail & -> & Hq'); [lia|].
  do 8 (destruct q as [|? q]; [discriminate Hq'|]). destruct q; [|discriminate Hq'].
  do 28 eexists. split; [exact Hd|]. reflexivity.
Qed.

(** [parse_record] on explicit bytes. *)
Lemma parse_explicit b0 b1 l0 l1 l2 l3 m0 m1 m2 m3 s0 s1 s2 s3 t0 t1 t2 t3 d f g h v0 v1 v2 v3 n tail available : length d = 7%nat ->
  parse_record (b0 :: b1 :: l0 :: l1 :: l2 :: l3 :: m0 :: m1 :: m2 :: m3 :: s0 :: s1 :: s2 :: s3 :: t0 :: t1 :: t2 :: t3 ::
      d ++ f :: g :: h :: v0 :: v1 :: v2 :: v3 :: n :: tail) available =
    (_ ← fail_if (b0 <? 34) record_invalid;
     _ ← fail_if (available <? b0) record_crosses_sector;
     _ ← fail_if ((n =? 0) || (b0 <? 33 + n)) record_invalid;
     _ ← fail_if (negb (b1 =? 0)) unsupported_feature;
     _ ← fail_if (negb (g =? 0) || negb (h =? 0)) unsupported_feature;
     _ ← fail_if (negb (f .& 0x80 =? 0) || negb (f .& 0x04 =? 0)) unsupported_feature;
     block ← or_fail (both32 [l0; l1; l2; l3; m0; m1; m2; m3]) both_endian_mismatch;
     size ← or_fail (both32 [s0; s1; s2; s3; t0; t1; t2; t3]) both_endian_mismatch;
     sequence ← or_fail (both16 [v0; v1; v2; v3]) both_endian_mismatch;
     _ ← fail_if (negb (sequence =? 1)) unsupported_volume_set;
     Ok (mkDirRecord (mkEntry (take (Z.to_nat n) tail) (negb (f .& 0x02 =? 0)) (mkExtent block size)) n tail.[0])).
Proof. intros Hd. destruct (explicit7 d Hd) as (? & ? & ? & ? & ? & ? & ? & ->). reflexivity. Qed.

Lemma fail_if_ok {A} (b : bool) (e : Iso9660Error) (k : unit -> result Iso9660Error A) r : (fail_if b e ≫= k) = Ok r <-> b = false /\ k tt = Ok r.
Proof. destruct b; cbn; [|intuition]. split; [intros H; discriminate H|intros [H _]; discriminate H]. Qed.

Lemma or_fail_ok {A B} (o : option A) (e : Iso9660Error) (k : A -> result Iso9660Error B) r :
  (or_fail o e ≫= k) = Ok r <-> exists a, o = Some a /\ k a = Ok r.
Proof.
  destruct o as [a|]; cbn; split; [by exists a|intros (x & E & H); by injection E as <-|intros H; discriminate H|intros (x & E & _); discriminate E].
Qed.

Lemma record_explicit u e rest : record_bytes u e ++ rest =
  (33 + zlen (identifier e) + zlen (system_use u)) :: 0 ::
  block (extent e) mod 256 :: block (extent e) / 256 mod 256 :: block (extent e) / 65536 mod 256 :: block (extent e) / 16777216 ::
  block (extent e) / 16777216 :: block (extent e) / 65536 mod 256 :: block (extent e) / 256 mod 256 :: block (extent e) mod 256 ::
  size (extent e) mod 256 :: size (extent e) / 256 mod 256 :: size (extent e) / 65536 mod 256 :: size (extent e) / 16777216 ::
  size (extent e) / 16777216 :: size (extent e) / 65536 mod 256 :: size (extent e) / 256 mod 256 :: size (extent e) mod 256 ::
  date u ++ flags u :: 0 :: 0 :: 1 :: 0 :: 0 :: 1 :: zlen (identifier e) :: (identifier e ++ system_use u ++ rest).
Proof. unfold record_bytes, le_bytes, be_bytes. cbn [app]. rewrite <- app_assoc. cbn [app]. by rewrite <- app_assoc. Qed.

Lemma zlen_record u e : zlen (date u) = 7 -> zlen (record_bytes u e) = 33 + zlen (identifier e) + zlen (system_use u).
Proof. intros H. unfold record_bytes, le_bytes, be_bytes. rewrite !zlen_app, H. unfold zlen. cbn [List.length]. lia. Qed.

Lemma value_bytes v : is_u32 v -> Forall is_u8 (le_bytes v ++ be_bytes v) /\
  both32 (le_bytes v ++ be_bytes v) = Some v.
Proof.
  intros Hv. assert (H : Forall is_u8 (le_bytes v ++ be_bytes v)).
  { unfold is_u32 in Hv. repeat constructor; unfold is_u8; Z.to_euclidean_division_equations; lia. }
  split; [exact H|]. apply (both32_spec _ _ _ _ _ _ _ _ [] v); [exact H|done].
Qed.

Lemma znth_app_0 (a b : list Z) : 1 <= zlen a -> (a ++ b).[0] = a.[0].
Proof. destruct a; [unfold zlen; cbn; lia|done]. Qed.

Lemma parse_written u e rest available : record_ok u e -> zlen (record_bytes u e) <= available ->
  parse_record (record_bytes u e ++ rest) available = Ok (record_of e).
Proof.
  intros [Hd H80 H04 Hdir Hname Hb Hs] Hlen. rewrite zlen_record in Hlen by done.
  rewrite record_explicit, parse_explicit by (unfold zlen in Hd; lia).
  pose proof (zlen_nonneg (system_use u)).
  apply fail_if_ok. split; [apply Z.ltb_ge; lia|]. apply fail_if_ok. split; [apply Z.ltb_ge; lia|].
  apply fail_if_ok. split; [apply orb_false_iff; split; [apply Z.eqb_neq; lia|apply Z.ltb_ge; lia]|].
  apply fail_if_ok. split; [done|]. apply fail_if_ok. split; [done|].
  apply fail_if_ok. split; [by rewrite H80, H04|].
  apply or_fail_ok. exists (block (extent e)). split; [by apply value_bytes|].
  apply or_fail_ok. exists (size (extent e)). split; [by apply value_bytes|].
  apply or_fail_ok. exists 1. split; [done|]. apply fail_if_ok. split; [done|].
  rewrite Hdir, znth_app_0, take_zlen_app by done. by destruct e as [id dir [b s]].
Qed.

Ltac by_forall := repeat (apply Forall_cons; split; [done|]); apply Forall_nil_2.

Lemma parse_read p available r : Forall is_u8 p -> available <= zlen p -> parse_record p available = Ok r ->
  exists u e rest, p = record_bytes u e ++ rest /\ record_ok u e /\ r = record_of e /\ zlen (record_bytes u e) <= available.
Proof.
  intros Hp Hav E. assert (H34 : 34 <= p.[0] <= zlen p).
  { unfold parse_record in E. cbv zeta in E. apply fail_if_ok in E as [H1 E]. apply fail_if_ok in E as [H2 _].
    apply Z.ltb_ge in H1, H2. lia. }
  destruct (explicit33 p ltac:(lia)) as (b0 & b1 & l0 & l1 & l2 & l3 & m0 & m1 & m2 & m3 & s0 & s1 & s2 & s3 & t0 & t1 & t2 & t3 & d & f & g &
    h & v0 & v1 & v2 & v3 & n & tail & Hd & ->). rewrite parse_explicit in E by done.
  match type of H34 with _ <= ?x <= _ => change x with b0 in H34 end.
  apply fail_if_ok in E as [_ E]. apply fail_if_ok in E as [Hcross E]. apply fail_if_ok in E as [Hn E].
  apply fail_if_ok in E as [H1 E]. apply fail_if_ok in E as [Hgh E]. apply fail_if_ok in E as [Hf E].
  apply or_fail_ok in E as (blk & Eb & E). apply or_fail_ok in E as (sz & Es & E). apply or_fail_ok in E as (sq & Ev & E).
  apply fail_if_ok in E as [Hsq E]. injection E as <-.
  apply Z.ltb_ge in Hcross. apply orb_false_iff in Hn as [Hn0 Hn33]. apply Z.eqb_neq in Hn0. apply Z.ltb_ge in Hn33.
  apply negb_false_iff, Z.eqb_eq in H1, Hsq. subst b1 sq. apply orb_false_iff in Hgh as [Hg Hh].
  apply negb_false_iff, Z.eqb_eq in Hg, Hh. subst g h. apply orb_false_iff in Hf as [H80 H04]. apply negb_false_iff, Z.eqb_eq in H80, H04.
  do 18 (apply Forall_cons in Hp as [? Hp]). apply Forall_app in Hp as [Hpd Hp]. do 8 (apply Forall_cons in Hp as [? Hp]).
  apply both32_spec in Eb as (Eb1 & Eb2 & Hblk); [|by_forall].
  apply both32_spec in Es as (Es1 & Es2 & Hsz); [|by_forall].
  apply both16_one in Ev; [|by_forall].
  injection Eb1 as -> -> -> ->. injection Eb2 as -> -> -> ->. injection Es1 as -> -> -> ->. injection Es2 as -> -> -> ->.
  injection Ev as -> -> -> ->. rewrite !zlen_cons, zlen_app, !zlen_cons in H34, Hav.
  assert (Hd7 : zlen d = 7) by (unfold zlen; lia). unfold is_u8 in *.
  set (id := take (Z.to_nat n) tail). set (use := take (Z.to_nat (b0 - 33 - n)) (drop (Z.to_nat n) tail)).
  assert (Hid : zlen id = n) by (unfold id, zlen in *; rewrite length_take; lia).
  assert (Huse : zlen use = b0 - 33 - n) by (unfold use, zlen in *; rewrite length_take, length_drop; lia).
  exists (mkUnread d f use), (mkEntry id (negb (f .& 0x02 =? 0)) (mkExtent blk sz)), (drop (Z.to_nat (b0 - 33 - n)) (drop (Z.to_nat n) tail)).
  rewrite zlen_record by done. cbn [identifier system_use]. rewrite record_explicit.
  cbn [identifier extent block size system_use date flags]. rewrite Hid, Huse.
  split_and!; [| |unfold record_of; cbn [identifier]; rewrite Hid|lia].
  - replace (33 + n + (b0 - 33 - n)) with b0 by lia. unfold id, use. by rewrite !take_drop.
  - by split; cbn; try rewrite Hid; try lia.
  - f_equal. unfold id. rewrite <- (take_drop (Z.to_nat n) tail) at 1. fold id. apply znth_app_0. lia.
Qed.

(** * Directories as they are written *)

(** A sector: whole records, then nothing or padding that begins with a zero byte. *)
Definition sector_bytes (records : list (Unread * Iso9660Entry)) (padding : list Z) : list Z :=
  concat (map (fun r => record_bytes r.1 r.2) records) ++ padding.

Definition sector_ok (records : list (Unread * Iso9660Entry)) (padding : list Z) : Prop :=
  Forall (fun r => record_ok r.1 r.2) records /\ (padding = [] \/ exists rest, padding = 0 :: rest).

(** The records of a directory, one after the other. *)
Fixpoint accept_all (dir : Iso9660Extent) (space : Z) (records : list DirRecord) (acc : Z * list Iso9660Entry)
  : result Iso9660Error (Z * list Iso9660Entry) :=
  match records with
  | [] => Ok acc
  | r :: records => acc ← accept_record dir space r acc; accept_all dir space records acc
  end.

Definition parsed (records : list (Unread * Iso9660Entry)) : list DirRecord := map (fun r => record_of r.2) records.

Lemma accept_all_app dir space r1 r2 acc :
  accept_all dir space (r1 ++ r2) acc = (acc ← accept_all dir space r1 acc; accept_all dir space r2 acc).
Proof.
  revert acc. induction r1 as [|r r1 IH]; intros acc; [done|]. cbn [app accept_all].
  destruct (accept_record dir space r acc) as [acc'|e]; [apply IH|done].
Qed.

Lemma drop_drop_z (b : list Z) i j : 0 <= i -> 0 <= j -> drop (Z.to_nat j) (drop (Z.to_nat i) b) = drop (Z.to_nat (i + j)) b.
Proof. intros Hi Hj. rewrite drop_drop. f_equal. lia. Qed.

Lemma znth_drop (b : list Z) i : 0 <= i -> (drop (Z.to_nat i) b).[0] = b.[i].
Proof. intros Hi. rewrite !znth_nth, !nth_lookup, lookup_drop by lia. by rewrite Nat.add_0_r. Qed.

Lemma record_head u e rest : (record_bytes u e ++ rest).[0] = 33 + zlen (identifier e) + zlen (system_use u).
Proof. done. Qed.

Lemma zlen_drop (b : list Z) i : 0 <= i <= zlen b -> zlen (drop (Z.to_nat i) b) = zlen b - i.
Proof. unfold zlen. rewrite length_drop. lia. Qed.

(** The first record of a sector that has one. *)
Lemma sector_cons b at_ records padding : zlen b = 2048 -> 0 <= at_ < 2048 -> b.[at_] <> 0 ->
  drop (Z.to_nat at_) b = sector_bytes records padding -> sector_ok records padding ->
  exists u e rest, records = (u, e) :: rest /\ sector_ok rest padding /\
    parse_record (drop (Z.to_nat at_) b) (2048 - at_) = Ok (record_of e) /\
    34 <= b.[at_] /\ at_ + b.[at_] <= 2048 /\ drop (Z.to_nat (at_ + b.[at_])) b = sector_bytes rest padding.
Proof.
  intros Hlen Hat Hne E [Hok Hpad]. assert (Hl' : zlen (drop (Z.to_nat at_) b) = 2048 - at_) by (rewrite zlen_drop; lia).
  rewrite <- znth_drop in Hne by lia. destruct records as [|[u e] records].
  - exfalso. rewrite E in Hne, Hl'. unfold sector_bytes in *. cbn [map concat app] in *.
    destruct Hpad as [-> | (rest & ->)]; [unfold zlen in Hl'; cbn in Hl'; lia|done].
  - apply Forall_cons in Hok as [Hok Hoks]. cbn [fst snd] in Hok. unfold sector_bytes in E. cbn [map concat fst snd] in E.
    rewrite <- app_assoc in E. fold (sector_bytes records padding) in E.
    assert (Hhead : b.[at_] = zlen (record_bytes u e)) by (rewrite <- znth_drop, E, record_head, zlen_record by (lia || apply Hok); done).
    assert (Hbound : zlen (record_bytes u e) <= 2048 - at_).
    { rewrite <- Hl', E, zlen_app. pose proof (zlen_nonneg (sector_bytes records padding)). lia. }
    pose proof (rec_name _ _ Hok) as Hname. pose proof (zlen_nonneg (system_use u)). pose proof (zlen_record u e (rec_date _ _ Hok)).
    exists u, e, records. split; [done|]. split; [by split|]. split; [rewrite E; by apply parse_written|]. split; [lia|]. split; [lia|].
    rewrite <- drop_drop_z, E, Hhead by lia. apply drop_zlen_app.
Qed.

(** A record that parses, and what follows it. *)
Lemma sector_head b at_ r : Forall is_u8 b -> zlen b = 2048 -> 0 <= at_ < 2048 ->
  parse_record (drop (Z.to_nat at_) b) (2048 - at_) = Ok r ->
  34 <= b.[at_] /\ at_ + b.[at_] <= 2048 /\
  exists u e, r = record_of e /\ record_ok u e /\
    drop (Z.to_nat at_) b = record_bytes u e ++ drop (Z.to_nat (at_ + b.[at_])) b.
Proof.
  intros Hb Hlen Hat E. assert (Hl' : zlen (drop (Z.to_nat at_) b) = 2048 - at_) by (rewrite zlen_drop; lia).
  apply parse_read in E as (u & e & rest & Ed & Hok & -> & Hle); [|by apply Forall_drop|lia].
  assert (Hhead : b.[at_] = zlen (record_bytes u e)) by (rewrite <- znth_drop, Ed, record_head, zlen_record by (lia || apply Hok); done).
  pose proof (rec_name _ _ Hok) as Hname. pose proof (zlen_nonneg (system_use u)). pose proof (zlen_record u e (rec_date _ _ Hok)).
  split; [lia|]. split; [lia|]. exists u, e. split; [done|]. split; [done|].
  rewrite Ed, Hhead, <- drop_drop_z, Ed, drop_zlen_app by lia. done.
Qed.

(** The record loop always ends. *)
Lemma sector_records_total fuel dir space b at_ acc : Forall is_u8 b -> zlen b = 2048 -> 0 <= at_ <= 2048 ->
  2048 - at_ <= 34 * Z.of_nat fuel -> sector_records fuel dir space b at_ acc <> None.
Proof.
  intros Hb Hlen. revert at_ acc. induction fuel as [|fuel IH]; intros at_ acc Hat Hfuel; cbn [sector_records]; unfold kIso9660BlockBytes.
  - by rewrite (proj2 (Z.ltb_ge at_ 2048)) by lia.
  - destruct (Z.ltb_spec at_ 2048) as [Hlt|Hge]; [|done]. destruct (b.[at_] =? 0); [done|].
    destruct (parse_record (drop (Z.to_nat at_) b) (2048 - at_)) as [r|err] eqn:Ep; cbn [mbind result_bind]; [|done].
    destruct (sector_head b at_ r) as (H1 & H2 & _); [done..|lia|done|].
    destruct (accept_record dir space r acc) as [acc1|err]; [apply IH; lia|done].
Qed.

(** It reads a sector to its padding, or stops at an error. *)
Lemma sector_records_exact fuel dir space b at_ acc acc' : Forall is_u8 b -> zlen b = 2048 -> 0 <= at_ <= 2048 ->
  2048 - at_ <= 34 * Z.of_nat fuel ->
  sector_records fuel dir space b at_ acc = Some (Ok acc') <->
    exists records padding, drop (Z.to_nat at_) b = sector_bytes records padding /\ sector_ok records padding /\
      accept_all dir space (parsed records) acc = Ok acc'.
Proof.
  intros Hb Hlen. assert (Hend : forall acc, Some (Ok acc) = Some (@Ok Iso9660Error _ acc') <-> exists records padding,
    drop (Z.to_nat 2048) b = sector_bytes records padding /\ sector_ok records padding /\ accept_all dir space (parsed records) acc = Ok acc').
  { intros acc1. rewrite drop_ge by (unfold zlen in Hlen; lia). split.
    - intros E. injection E as <-. exists [], []. split; [done|]. split; [|done]. split; [constructor|by left].
    - intros (records & padding & E & Hok & Ha). symmetry in E. apply app_eq_nil in E as [E _].
      destruct records as [|[u e] records]; [by injection Ha as <-|]. cbn [map concat] in E. apply app_eq_nil in E as [E _]. discriminate E. }
  revert at_ acc. induction fuel as [|fuel IH]; intros at_ acc Hat Hfuel; cbn [sector_records]; unfold kIso9660BlockBytes.
  - rewrite (proj2 (Z.ltb_ge at_ 2048)) by lia. replace at_ with 2048 by lia. apply Hend.
  - destruct (Z.ltb_spec at_ 2048) as [Hlt|Hge]; [|replace at_ with 2048 by lia; apply Hend].
    destruct (Z.eqb_spec b.[at_] 0) as [E0|Hne].
    + split.
      * intros E. injection E as <-. exists [], (drop (Z.to_nat at_) b). split; [done|]. split; [|done]. split; [constructor|]. right.
        assert (Hl' : zlen (drop (Z.to_nat at_) b) = 2048 - at_) by (rewrite zlen_drop; lia).
        rewrite <- znth_drop in E0 by lia. destruct (drop (Z.to_nat at_) b) as [|x rest]; [unfold zlen in Hl'; cbn in Hl'; lia|].
        exists rest. f_equal. exact E0.
      * intros (records & padding & E & [Hok _] & Ha). destruct records as [|[u e] records]; [by injection Ha as <-|]. exfalso.
        rewrite <- znth_drop, E in E0 by lia. unfold sector_bytes in E0. cbn [map concat fst snd] in E0. rewrite <- app_assoc, record_head in E0.
        apply Forall_cons in Hok as [Hok _]. pose proof (rec_name _ _ Hok) as Hn. cbn [fst snd] in Hn. pose proof (zlen_nonneg (system_use u)). lia.
    + split.
      * intros E. destruct (parse_record (drop (Z.to_nat at_) b) (2048 - at_)) as [r|err] eqn:Ep; cbn [mbind result_bind] in E; [|discriminate E].
        destruct (sector_head b at_ r) as (H1 & H2 & u & e & -> & Hok & Ed); [done..|lia|done|].
        destruct (accept_record dir space (record_of e) acc) as [acc1|err] eqn:Ea; [|discriminate E].
        apply IH in E as (records & padding & Er & [Hoks Hpad] & Ha); [|lia|lia].
        exists ((u, e) :: records), padding. rewrite Ed, Er. split; [unfold sector_bytes; cbn [map concat fst snd]; by rewrite <- app_assoc|].
        split; [split; [by constructor|done]|]. cbn [parsed map accept_all snd]. rewrite Ea. exact Ha.
      * intros (records & padding & E & Hok & Ha).
        destruct (sector_cons b at_ records padding) as (u & e & rest & -> & Hrest & Ep & H1 & H2 & Ed); [done|lia|done..|].
        rewrite Ep. cbn [parsed map accept_all snd mbind result_bind] in Ha |- *.
        destruct (accept_record dir space (record_of e) acc) as [acc1|err]; [|discriminate Ha].
        apply IH; [lia|lia|]. by exists rest, padding.
Qed.

(** What the listing requires of an entry after the first two. *)
Definition entry_valid (space : Z) (e : Iso9660Entry) : Prop :=
  identifier e <> [0] /\ identifier e <> [1] /\
  if directory e then check_directory_extent (extent e) space = Ok tt else extent_fits (extent e) space = true.

Lemma one_byte (id : list Z) x : zlen id = 1 -> id.[0] = x -> id = [x].
Proof. unfold zlen. intros Hl <-. by destruct id as [|y [|z id]]; cbn in Hl; try lia. Qed.

Lemma accept_first dir space e acc' :
  accept_record dir space (record_of e) (0, []) = Ok acc' <->
  identifier e = [0] /\ directory e = true /\ extent e = dir /\ acc' = (1, []).
Proof.
  unfold accept_record. cbn [entry record_of name_length first_name_byte]. rewrite (proj2 (Z.ltb_lt 0 2)) by lia.
  rewrite !fail_if_ok. rewrite !orb_false_iff, !negb_false_iff, !Z.eqb_eq. cbn [andb Z.eqb]. rewrite orb_false_iff, !negb_false_iff, !Z.eqb_eq.
  destruct dir as [db ds], (extent e) as [eb es]. cbn [block size]. split.
  - intros (((Hl & Hf) & Hd) & (-> & ->) & E). injection E as <-. split; [by apply one_byte|done].
  - intros (-> & Hd & E & ->). injection E as -> ->. done.
Qed.

Lemma accept_second dir space e acc' :
  accept_record dir space (record_of e) (1, []) = Ok acc' <-> identifier e = [1] /\ directory e = true /\ acc' = (2, []).
Proof.
  unfold accept_record. cbn [entry record_of name_length first_name_byte]. rewrite (proj2 (Z.ltb_lt 1 2)) by lia.
  rewrite !fail_if_ok. rewrite !orb_false_iff, !negb_false_iff, !Z.eqb_eq. split.
  - intros (((Hl & Hf) & Hd) & _ & E). injection E as <-. split; [by apply one_byte|done].
  - intros (-> & Hd & ->). done.
Qed.

Lemma accept_other dir space e es acc' : 1 <= zlen (identifier e) -> Forall is_u8 (identifier e) ->
  accept_record dir space (record_of e) (2, es) = Ok acc' <-> entry_valid space e /\ acc' = (2, es ++ [e]).
Proof.
  intros Hname Hbytes. unfold accept_record, entry_valid. cbn [entry record_of name_length first_name_byte]. rewrite (proj2 (Z.ltb_ge 2 2)) by lia.
  rewrite fail_if_ok. assert (Hid : (zlen (identifier e) =? 1) && ((identifier e).[0] <=? 1) = false <-> identifier e <> [0] /\ identifier e <> [1]).
  { rewrite andb_false_iff, Z.eqb_neq, Z.leb_gt. split.
    - intros H. split; intros E; rewrite E in H; destruct H as [H|H]; [by apply H|cbn in H; lia|by apply H|cbn in H; lia].
    - intros [H0 H1]. destruct (decide (zlen (identifier e) = 1)) as [Hl|Hl]; [right|by left].
      pose proof (znth_byte (identifier e) 0 Hbytes) as Hu. unfold is_u8 in Hu.
      destruct (decide ((identifier e).[0] = 0)) as [Ez|]; [by apply one_byte in Ez|].
      destruct (decide ((identifier e).[0] = 1)) as [Ez|]; [by apply one_byte in Ez|]. lia. }
  rewrite Hid. destruct (directory e).
  - destruct (check_directory_extent (extent e) space) as [[]|err]; cbn [mbind result_bind].
    + split; [intros ([H0 H1] & E); by injection E as <-|intros ((H0 & H1 & _) & ->); done].
    + split; [intros (_ & E); discriminate E|intros ((_ & _ & E) & _); discriminate E].
  - rewrite fail_if_ok, negb_false_iff.
    split; [intros ([H0 H1] & Hf & E); by injection E as <-|intros ((H0 & H1 & Hf) & ->); done].
Qed.

Lemma accept_others dir space es0 es acc' : Forall (fun e => 1 <= zlen (identifier e) /\ Forall is_u8 (identifier e)) es ->
  accept_all dir space (map record_of es) (2, es0) = Ok acc' <-> Forall (entry_valid space) es /\ acc' = (2, es0 ++ es).
Proof.
  intros H. revert es0. induction H as [|e es [Hn Hb] _ IH]; intros es0; cbn [map accept_all].
  - rewrite app_nil_r. split; [intros E; by injection E as <-|by intros (_ & ->)].
  - destruct (accept_record dir space (record_of e) (2, es0)) as [acc1|err] eqn:Ea; cbn [mbind result_bind].
    + apply accept_other in Ea as [Hv ->]; [|done..]. rewrite IH, <- app_assoc. split.
      * intros (Hvs & ->). split; [by constructor|done].
      * intros (Hvs & ->). apply Forall_cons in Hvs as [_ Hvs]. done.
    + split; [intros E; discriminate E|]. intros (Hvs & _). apply Forall_cons in Hvs as [Hv _].
      rewrite (proj2 (accept_other dir space e es0 (2, es0 ++ [e]) Hn Hb)) in Ea by done. discriminate Ea.
Qed.

(** The records of a directory: itself, its parent, then its entries. *)
Lemma accept_directory dir space es seen entries : Forall (fun e => 1 <= zlen (identifier e) /\ Forall is_u8 (identifier e)) es ->
  (accept_all dir space (map record_of es) (0, []) = Ok (seen, entries) /\ 2 <= seen) <->
  seen = 2 /\ exists self parent, es = self :: parent :: entries /\ identifier self = [0] /\ directory self = true /\ extent self = dir /\
    identifier parent = [1] /\ directory parent = true /\ Forall (entry_valid space) entries.
Proof.
  intros H. split.
  - intros [E Hs]. destruct es as [|self es]; [injection E as <- <-; lia|]. cbn [map accept_all] in E.
    destruct (accept_record dir space (record_of self) (0, [])) as [acc1|err] eqn:E1; cbn [mbind result_bind] in E; [|discriminate E].
    apply accept_first in E1 as (Hi1 & Hd1 & He1 & ->).
    destruct es as [|parent es]; [injection E as <- <-; lia|]. cbn [map accept_all] in E.
    destruct (accept_record dir space (record_of parent) (1, [])) as [acc2|err] eqn:E2; cbn [mbind result_bind] in E; [|discriminate E].
    apply accept_second in E2 as (Hi2 & Hd2 & ->). do 2 (apply Forall_cons in H as [_ H]).
    apply accept_others in E as [Hv E]; [|done]. injection E as -> ->. split; [done|]. by exists self, parent.
  - intros (-> & self & parent & -> & Hi1 & Hd1 & He1 & Hi2 & Hd2 & Hv). split; [|lia]. cbn [map accept_all].
    rewrite (proj2 (accept_first dir space self (1, []))) by done. cbn [mbind result_bind].
    rewrite (proj2 (accept_second dir space parent (2, []))) by done. cbn [mbind result_bind].
    do 2 (apply Forall_cons in H as [_ H]). by apply accept_others.
Qed.

Section Directories.
Context (read : Iso9660BlockReader).
Hypothesis Hread : forall b bytes, read b = Some bytes -> zlen bytes = kIso9660BlockBytes /\ Forall is_u8 bytes.

(** The sectors of an extent from sector [b], as they are written. *)
Definition sectors_at (start : Z) (sectors : list (list (Unread * Iso9660Entry) * list Z)) : Prop :=
  forall k s, sectors !! k = Some s -> read (start + Z.of_nat k) = Some (sector_bytes s.1 s.2) /\ sector_ok s.1 s.2.

(** All records of the sectors, in order. *)
Definition all_records (sectors : list (list (Unread * Iso9660Entry) * list Z)) : list (Unread * Iso9660Entry) :=
  concat (map fst sectors).

Lemma sectors_at_cons start s sectors : sectors_at start (s :: sectors) <->
  (read start = Some (sector_bytes s.1 s.2) /\ sector_ok s.1 s.2) /\ sectors_at (start + 1) sectors.
Proof using Type.
  clear Hread. unfold sectors_at. split.
  - intros H. split; [specialize (H 0%nat s eq_refl); by rewrite Z.add_0_r in H|]. intros k s' Hk.
    specialize (H (S k) s' Hk). by replace (start + Z.of_nat (S k)) with (start + 1 + Z.of_nat k) in H by lia.
  - intros [H0 H] k s' Hk. destruct k as [|k]; cbn in Hk.
    + injection Hk as <-. by rewrite Z.add_0_r.
    + replace (start + Z.of_nat (S k)) with (start + 1 + Z.of_nat k) by lia. by apply H.
Qed.

Lemma directory_sectors_total n dir space b acc : directory_sectors read n dir space b acc <> None.
Proof using Hread.
  revert b acc. induction n as [|n IH]; intros b acc; [done|]. cbn [directory_sectors].
  destruct (read (u32 (block dir + b))) as [bytes|] eqn:Er; [|done]. apply Hread in Er as [Hl Hb].
  pose proof (sector_records_total sector_fuel dir space bytes 0 acc Hb Hl ltac:(lia) ltac:(unfold sector_fuel; lia)) as Ht.
  destruct (sector_records sector_fuel dir space bytes 0 acc) as [[acc'|e]|]; [apply IH|done|done].
Qed.

Lemma directory_sectors_exact n dir space b acc acc' : 0 <= block dir + b -> block dir + b + Z.of_nat n <= 2 ^ 32 ->
  directory_sectors read n dir space b acc = Some (Ok acc') <->
  exists sectors, length sectors = n /\ sectors_at (block dir + b) sectors /\
    accept_all dir space (parsed (all_records sectors)) acc = Ok acc'.
Proof using Hread.
  revert b acc. induction n as [|n IH]; intros b acc H0 H32; cbn [directory_sectors].
  - split; [intros E; injection E as <-; by exists []|]. intros (sectors & Hl & _ & Ha).
    apply nil_length_inv in Hl. subst sectors. by injection Ha as <-.
  - rewrite u32_id by (unfold is_u32; lia). assert (Hnext : block dir + (b + 1) = block dir + b + 1) by lia.
    destruct (read (block dir + b)) as [bytes|] eqn:Er.
    + pose proof (Hread _ _ Er) as [Hl Hb].
      assert (Hx : forall acc1, sector_records sector_fuel dir space bytes 0 acc = Some (Ok acc1) <-> exists records padding,
        bytes = sector_bytes records padding /\ sector_ok records padding /\ accept_all dir space (parsed records) acc = Ok acc1)
        by (intros; apply (sector_records_exact sector_fuel dir space bytes 0); (done || unfold sector_fuel; lia)).
      split.
      * intros E. destruct (sector_records sector_fuel dir space bytes 0 acc) as [[acc1|e]|] eqn:Es; [|discriminate E|discriminate E].
        destruct (proj1 (Hx acc1) eq_refl) as (records & padding & Ed & Hok & Ha1).
        apply IH in E as (sectors & Hn & Hat & Ha); [|lia|lia]. rewrite Hnext in Hat.
        exists ((records, padding) :: sectors). split; [cbn; lia|]. rewrite sectors_at_cons, Er. split; [split; [split; [by f_equal|done]|done]|].
        unfold all_records, parsed in *. cbn [map concat fst]. rewrite map_app, accept_all_app, Ha1. exact Ha.
      * intros (sectors & Hn & Hat & Ha). destruct sectors as [|[records padding] sectors]; [discriminate Hn|].
        apply sectors_at_cons in Hat as [[Ed Hok] Hat]. cbn [fst snd] in *. rewrite Er in Ed. apply (inj Some) in Ed.
        unfold all_records, parsed in Ha. cbn [map concat fst] in Ha. rewrite map_app, accept_all_app in Ha.
        destruct (accept_all dir space (map (fun r => record_of r.2) records) acc) as [acc2|] eqn:Ea; [|discriminate Ha].
        rewrite (proj2 (Hx acc2)) by (by exists records, padding). apply IH; [lia|lia|]. rewrite Hnext.
        exists sectors. split; [by injection Hn|]. done.
    + split; [intros E; discriminate E|]. intros (sectors & Hn & Hat & _). destruct sectors as [|s sectors]; [discriminate Hn|].
      apply sectors_at_cons in Hat as [[Ed _] _]. congruence.
Qed.

Lemma identifier_bytes records padding : Forall is_u8 (sector_bytes records padding) -> Forall (fun r => Forall is_u8 (identifier r.2)) records.
Proof using Type.
  clear Hread. unfold sector_bytes. intros H. apply Forall_app in H as [H _].
  induction records as [|[u e] records IH]; [constructor|]. cbn [map concat fst snd] in H. apply Forall_app in H as [H1 H2].
  constructor; [|by apply IH]. cbn [snd]. unfold record_bytes in H1. do 7 (apply Forall_app in H1 as [_ H1]).
  by apply Forall_app in H1 as [H1 _].
Qed.

Lemma records_named start sectors : sectors_at start sectors ->
  Forall (fun e => 1 <= zlen (identifier e) /\ Forall is_u8 (identifier e)) (map snd (all_records sectors)).
Proof using Hread.
  revert start. induction sectors as [|[records padding] sectors IH]; intros start H; [constructor|].
  apply sectors_at_cons in H as [[Er [Hok _]] H]. unfold all_records. cbn [map concat fst]. rewrite map_app. apply Forall_app.
  split; [|by apply (IH (start + 1))]. cbn [fst snd] in *. apply Hread in Er as [_ Hb]. apply identifier_bytes in Hb.
  apply Forall_fmap. eapply Forall_impl; [apply Forall_and; split; [exact Hok|exact Hb]|]. intros [u e] [Hr Hi]. cbn in *.
  split; [by apply (rec_name u)|done].
Qed.

Lemma checked_extent dir space : is_u32 (block dir) /\ is_u32 (size dir) -> is_u32 space -> check_directory_extent dir space = Ok tt ->
  0 < size dir <= kIso9660MaxDirectoryBytes /\ size dir mod 2048 = 0 /\ block dir + size dir / 2048 <= space.
Proof using Type.
  clear Hread. unfold is_u32. intros [Hb Hz] Hs E. unfold check_directory_extent in E. apply fail_if_ok in E as [E1 E2].
  apply orb_false_iff in E1 as [E1 Hmax]. apply orb_false_iff in E1 as [H0 Hmod]. apply negb_false_iff, Z.eqb_eq in Hmod.
  apply Z.eqb_neq in H0. apply Z.ltb_ge in Hmax. unfold kIso9660MaxDirectoryBytes, kIso9660BlockBytes in *.
  unfold fail_if in E2. destruct (extent_fits dir space) eqn:Ef; [|discriminate E2]. unfold extent_fits, blocks_of, kIso9660BlockBytes in Ef.
  apply andb_true_iff in Ef as [Ef1 Ef2]. apply Z.leb_le in Ef1. apply Z.ltb_lt in Ef2.
  Z.to_euclidean_division_equations. lia.
Qed.

(** A listing against the written form of a directory. *)
Lemma listing_spec (volume : Iso9660Volume) (dir : Iso9660Extent) (entries : list Iso9660Entry)
    (Hdir : is_u32 (block dir) /\ is_u32 (size dir)) (Hspace : is_u32 (volume_space volume)) :
  list_iso9660_directory read volume dir <> None /\
  (list_iso9660_directory read volume dir = Some (Ok entries) <->
   check_directory_extent dir (volume_space volume) = Ok tt /\
   exists sectors self parent, zlen sectors = size dir / 2048 /\ sectors_at (block dir) sectors /\
     map snd (all_records sectors) = self :: parent :: entries /\
     identifier self = [0] /\ directory self = true /\ extent self = dir /\ identifier parent = [1] /\ directory parent = true /\
     Forall (entry_valid (volume_space volume)) entries).
Proof using Hread.
  unfold list_iso9660_directory. destruct (check_directory_extent dir (volume_space volume)) as [[]|err] eqn:Ec.
  2: { split; [done|]. split; [intros E; discriminate E|intros [E _]; discriminate E]. }
  destruct (checked_extent dir (volume_space volume) Hdir Hspace Ec) as (Hsize & Hmod & Hfits).
  pose proof (directory_sectors_total (Z.to_nat (size dir / kIso9660BlockBytes)) dir (volume_space volume) 0 (0, [])) as Ht.
  pose proof (fun acc => directory_sectors_exact (Z.to_nat (size dir / kIso9660BlockBytes)) dir (volume_space volume) 0 (0, []) acc) as Hx.
  unfold kIso9660BlockBytes, is_u32 in *. rewrite Z.add_0_r in Hx. pose proof (Z.div_pos (size dir) 2048 ltac:(lia) ltac:(lia)).
  assert (Hparsed : forall sectors, parsed (all_records sectors) = map record_of (map snd (all_records sectors)))
    by (intros; unfold parsed; by rewrite map_map).
  split; [destruct (directory_sectors _ _ _ _ _ _) as [[[seen es]|err]|]; [by destruct (seen <? 2)|done|done]|]. split.
  - intros E. split; [done|]. destruct (directory_sectors _ _ _ _ _ _) as [[[seen es]|err]|]; [|discriminate E|discriminate E].
    destruct (Z.ltb_spec seen 2) as [|Hseen]; [discriminate E|]. injection E as ->.
    destruct (proj1 (Hx (seen, entries) ltac:(lia) ltac:(lia)) eq_refl) as (sectors & Hl & Hat & Ha). rewrite Hparsed in Ha.
    destruct (proj1 (accept_directory dir (volume_space volume) (map snd (all_records sectors)) seen entries (records_named _ _ Hat)) (conj Ha Hseen))
      as (_ & self & parent & Hrest).
    exists sectors, self, parent. split; [unfold zlen; lia|]. by split.
  - intros (_ & sectors & self & parent & Hl & Hat & Hes).
    destruct (proj2 (accept_directory dir (volume_space volume) (map snd (all_records sectors)) 2 entries (records_named _ _ Hat)))
      as [Ha _]; [split; [done|]; by exists self, parent|]. rewrite <- Hparsed in Ha.
    rewrite (proj2 (Hx (2, entries) ltac:(lia) ltac:(lia))); [done|]. exists sectors. split; [unfold zlen in Hl; lia|]. done.
Qed.
(** What is known of the entries of a listing. *)
Lemma listing_entries volume dir entries : is_u32 (block dir) /\ is_u32 (size dir) -> is_u32 (volume_space volume) ->
  list_iso9660_directory read volume dir = Some (Ok entries) ->
  Forall (fun e => entry_valid (volume_space volume) e /\ is_u32 (block (extent e)) /\ is_u32 (size (extent e))) entries.
Proof using Hread.
  intros Hdir Hspace E. apply (proj2 (listing_spec volume dir entries Hdir Hspace)) in E as (_ & sectors & self & parent & _ & Hat & Hes & _ & _ & _ & _ & _ & Hv).
  assert (H : Forall (fun e => is_u32 (block (extent e)) /\ is_u32 (size (extent e))) (map snd (all_records sectors))).
  { clear - Hat. revert Hat. generalize (block dir). induction sectors as [|[records padding] sectors IH]; intros start H; [constructor|].
    apply sectors_at_cons in H as [[_ [Hok _]] H]. unfold all_records. cbn [map concat fst]. rewrite map_app. apply Forall_app.
    split; [|by apply (IH (start + 1))]. apply Forall_fmap. eapply Forall_impl; [exact Hok|]. intros [u e] Hr. cbn in *.
    split; [apply (rec_block u _ Hr)|apply (rec_size u _ Hr)]. }
  rewrite Hes in H. do 2 (apply Forall_cons in H as [_ H]). apply Forall_and. by split.
Qed.
End Directories.

(** * Paths as they are written *)

(** ["/A/B"] of the components [A] and [B]. *)
Definition path_of (components : list (list Z)) : list Z := concat (map (cons slash) components).

Definition component_ok (c : list Z) : Prop := c <> [] /\ slash ∉ c.

Lemma split_unique (a b x y : list Z) : slash ∉ a -> slash ∉ b -> a ++ slash :: x = b ++ slash :: y -> a = b /\ x = y.
Proof.
  revert b. induction a as [|c a IH]; intros b Ha Hb E; destruct b as [|c' b]; cbn in E; injection E.
  - by intros ->.
  - intros _ <-. exfalso. apply Hb. by left.
  - intros _ ->. exfalso. apply Ha. by left.
  - intros E' ->. destruct (IH b) as [-> ->]; [by intros H; apply Ha; right|by intros H; apply Hb; right|done|done].
Qed.

(** A path is empty or begins with a slash. *)
Lemma path_of_cases components : components = [] \/ exists c more, components = c :: more /\ path_of components = slash :: c ++ path_of more.
Proof. destruct components as [|c more]; [by left|right]. by exists c, more. Qed.

Lemma path_components_exact rest component components : slash ∉ component ->
  path_components rest component = Ok components <->
  path_of components = slash :: component ++ rest /\ Forall component_ok components.
Proof.
  revert component components. induction rest as [|c rest IH]; intros component components Hc; cbn [path_components].
  - rewrite app_nil_r. split.
    + destruct (Z.eqb_spec (zlen component) 0) as [E0|Hne]; intros E; [discriminate E|]. injection E as <-.
      split; [cbn; by rewrite app_nil_r|]. constructor; [|constructor]. split; [by intros ->|done].
    + intros [E Hok]. destruct (path_of_cases components) as [-> | (a & more & -> & Ep)]; [discriminate E|].
      rewrite Ep in E. injection E as E. apply Forall_cons in Hok as [[Hne Ha] _].
      destruct (path_of_cases more) as [-> | (b & more' & -> & Em)].
      * rewrite app_nil_r in E. subst a. destruct (Z.eqb_spec (zlen component) 0) as [E0|]; [|done].
        unfold zlen in E0. by destruct component.
      * exfalso. apply Hc. rewrite <- E, Em. apply elem_of_app. right. by left.
  - destruct (Z.eqb_spec c slash) as [->|Hcs].
    + split.
      * destruct (Z.eqb_spec (zlen component) 0) as [E0|Hne]; intros E; [discriminate E|].
        destruct (path_components rest []) as [more|] eqn:Em; [|discriminate E]. injection E as <-.
        apply IH in Em as [Ep Hok]; [|apply not_elem_of_nil]. split; [change (path_of (component :: more)) with (slash :: component ++ path_of more); by rewrite Ep|]. constructor; [|done]. split; [by intros ->|done].
      * intros [E Hok]. destruct (path_of_cases components) as [-> | (a & more & -> & Ep)]; [discriminate E|].
        rewrite Ep in E. injection E as E. apply Forall_cons in Hok as [[Hne Ha] Hok].
        destruct (path_of_cases more) as [-> | (b & more' & -> & Em)].
        -- exfalso. apply Ha. rewrite app_nil_r in E. rewrite E. apply elem_of_app. right. by left.
        -- rewrite Em in E. apply split_unique in E as [-> E]; [|done|done].
           assert (Hrest : path_components rest [] = Ok (b :: more')) by (apply IH; [apply not_elem_of_nil|]; split; [by rewrite Em, E|done]).
           rewrite Hrest. destruct (Z.eqb_spec (zlen component) 0) as [E0|]; [|done]. unfold zlen in E0. by destruct component.
    + rewrite IH, <- app_assoc; [done|]. rewrite elem_of_app, list_elem_of_singleton. intros [H|H]; [done|by symmetry in H].
Qed.

(** * Lookup *)

Lemma find_entry_exact name entries found e :
  find_entry name entries found = Ok (Some e) <->
  match found with
  | None => filter (fun e => identifier e = name) entries = [e]
  | Some e' => filter (fun e => identifier e = name) entries = [] /\ e = e'
  end.
Proof.
  revert found. induction entries as [|x entries IH]; intros found; cbn [find_entry].
  - destruct found as [e'|]; cbn; [split; [intros E; by injection E|by intros [_ ->]]|split; intros E; discriminate E].
  - rewrite filter_cons. destruct (decide (identifier x = name)) as [Hx|Hx].
    + rewrite bool_decide_eq_true_2 by done. cbn [negb]. destruct found as [e'|].
      * split; [intros E; discriminate E|intros [E _]; discriminate E].
      * rewrite IH. split; [by intros [-> ->]|intros E; by injection E as -> ->].
    + rewrite bool_decide_eq_false_2 by done. cbn [negb]. apply IH.
Qed.

(** What a path names, from a directory: each component is the only entry of its
    identifier, a directory for all but the last, which is a file. *)
Inductive names (read : Iso9660BlockReader) (volume : Iso9660Volume) : Iso9660Extent -> list (list Z) -> Iso9660Extent -> Prop :=
| names_file dir entries name e :
    list_iso9660_directory read volume dir = Some (Ok entries) -> filter (fun e => identifier e = name) entries = [e] ->
    directory e = false -> names read volume dir [name] (extent e)
| names_step dir entries name e rest file :
    list_iso9660_directory read volume dir = Some (Ok entries) -> filter (fun e => identifier e = name) entries = [e] ->
    directory e = true -> rest <> [] -> names read volume (extent e) rest file -> names read volume dir (name :: rest) file.

Lemma resolve_exact read volume components dir file : 
  resolve read volume components dir = Some (Ok file) <-> names read volume dir components file.
Proof.
  split.
  - revert dir. induction components as [|name rest IH]; intros dir E; cbn [resolve] in E; [discriminate E|].
    destruct (list_iso9660_directory read volume dir) as [[entries|err]|] eqn:El; [|discriminate E|discriminate E].
    destruct (find_entry name entries None) as [[e|]|err] eqn:Ef; [|discriminate E|discriminate E]. apply find_entry_exact in Ef.
    destruct rest as [|next rest]; cbn [andb negb] in E; destruct (directory e) eqn:Ed; cbn [negb] in E; try discriminate E.
    + injection E as <-. by eapply names_file.
    + eapply names_step; [done..|]. by apply IH.
  - induction 1 as [dir entries name e El Ef Ed|dir entries name e rest file El Ef Ed Hne _ IH]; cbn [resolve]; rewrite El,
      (proj2 (find_entry_exact name entries None e) Ef), Ed.
    + done.
    + destruct rest; [done|]. cbn [andb negb]. exact IH.
Qed.

Definition reader_ok (read : Iso9660BlockReader) : Prop :=
  forall b bytes, read b = Some bytes -> zlen bytes = kIso9660BlockBytes /\ Forall is_u8 bytes.

(** C34. Listing a directory is reading what was written.  A listing always ends, and it
    gives [entries] exactly when the extent is a directory's, its sectors are whole
    records each followed by padding or the end, and the records are the directory
    itself, its parent and then [entries], whose extents lie in the volume.  What
    the reader does not interpret, dates, other flags and the system use area, is
    arbitrary. *)
Theorem listing_exact (read : Iso9660BlockReader) (volume : Iso9660Volume) (dir : Iso9660Extent) (entries : list Iso9660Entry)
    (Hread : reader_ok read) (Hdir : is_u32 (block dir) /\ is_u32 (size dir)) (Hspace : is_u32 (volume_space volume)) :
  list_iso9660_directory read volume dir <> None /\
  (list_iso9660_directory read volume dir = Some (Ok entries) <->
   check_directory_extent dir (volume_space volume) = Ok tt /\
   exists sectors self parent, zlen sectors = size dir / 2048 /\ sectors_at read (block dir) sectors /\
     map snd (all_records sectors) = self :: parent :: entries /\
     identifier self = [0] /\ directory self = true /\ extent self = dir /\ identifier parent = [1] /\ directory parent = true /\
     Forall (entry_valid (volume_space volume)) entries).
Proof. by apply listing_spec. Qed.

Record volume_ok (volume : Iso9660Volume) : Prop := {
  vol_space : is_u32 (volume_space volume);
  vol_root : is_u32 (block (root volume)) /\ is_u32 (size (root volume));
}.

Lemma listing_total read volume dir : reader_ok read -> list_iso9660_directory read volume dir <> None.
Proof.
  intros Hread. unfold list_iso9660_directory. destruct (check_directory_extent dir (volume_space volume)); [|done].
  pose proof (directory_sectors_total read Hread (Z.to_nat (size dir / kIso9660BlockBytes)) dir (volume_space volume) 0 (0, [])) as Ht.
  destruct (directory_sectors _ _ _ _ _ _) as [[[seen es]|err]|]; [by destruct (seen <? 2)|done|done].
Qed.

Lemma resolve_total read volume components dir : reader_ok read -> resolve read volume components dir <> None.
Proof.
  intros Hread. revert dir. induction components as [|name rest IH]; intros dir; cbn [resolve]; [done|].
  pose proof (listing_total read volume dir Hread). destruct (list_iso9660_directory read volume dir) as [[entries|err]|]; [|done|done].
  destruct (find_entry name entries None) as [[e|]|err]; [|done|done].
  destruct (_ && _); [done|]. destruct (_ && _); [done|]. destruct rest; [done|apply IH].
Qed.

(** What a path names lies in the volume. *)
Lemma names_fit read volume dir components file : reader_ok read -> is_u32 (volume_space volume) ->
  names read volume dir components file -> is_u32 (block dir) /\ is_u32 (size dir) -> extent_fits file (volume_space volume) = true.
Proof.
  intros Hread Hs. induction 1 as [dir entries name e El Ef Ed|dir entries name e rest file El Ef Ed Hne _ IH]; intros Hdir.
  all: pose proof (listing_entries read Hread volume dir entries Hdir Hs El) as Hes.
  all: assert (He : e ∈ entries) by (apply (list_elem_of_filter (fun e => identifier e = name)); rewrite Ef; by left).
  all: rewrite Forall_forall in Hes; destruct (Hes e He) as ((_ & _ & Hv) & Hb & Hz); rewrite Ed in Hv.
  - done.
  - by apply IH.
Qed.

(** C13. A lookup finds what the path names.  It always ends; it succeeds exactly when
    the path is an absolute path of at most eight components and each component is
    the identifier of exactly one entry of the directory before it, a directory
    except for the last, which is a file; and the extent it returns lies in the
    volume. *)
Theorem lookup_exact (read : Iso9660BlockReader) (volume : Iso9660Volume) (path : list Z) (Hread : reader_ok read)
    (Hvolume : volume_ok volume) :
  lookup_iso9660_file read volume path <> None /\
  forall file, lookup_iso9660_file read volume path = Some (Ok file) <->
    extent_fits file (volume_space volume) = true /\
    exists components, path = path_of components /\ Forall component_ok components /\ 1 <= zlen components <= kIso9660MaxDepth /\
      names read volume (root volume) components file.
Proof.
  destruct Hvolume as [Hs Hroot]. unfold lookup_iso9660_file. destruct path as [|c rest].
  { split; [done|]. intros file. split; [intros E; discriminate E|]. intros (_ & [|a more] & E & _ & Hl & _); [by unfold zlen in Hl; cbn in Hl; lia|discriminate E]. }
  destruct (Z.eqb_spec c slash) as [->|Hc]; cbn [negb].
  2: { split; [done|]. intros file. split; [intros E; discriminate E|].
       intros (_ & [|a more] & E & _); [discriminate E|]. injection E as -> _. done. }
  pose proof (fun cs => path_components_exact rest [] cs ltac:(apply not_elem_of_nil)) as Hp. cbn [app] in Hp.
  destruct (path_components rest []) as [components|err] eqn:Ec.
  2: { split; [done|]. intros file. split; [intros E; discriminate E|].
       intros (_ & cs & E & Hok & _). pose proof (proj2 (Hp cs) (conj (eq_sym E) Hok)) as X. discriminate X. }
  destruct (proj1 (Hp components) eq_refl) as [Epath Hok].
  assert (Hunique : forall cs, slash :: rest = path_of cs -> Forall component_ok cs -> cs = components).
  { intros cs E Hcs. pose proof (proj2 (Hp cs) (conj (eq_sym E) Hcs)) as X. by injection X. }
  destruct (Z.eqb_spec (zlen components) 0) as [E0|Hne]; cbn [orb].
  { split; [done|]. intros file. split; [intros E; discriminate E|]. intros (_ & cs & E & Hcs & Hl & _). rewrite (Hunique cs E Hcs) in Hl. lia. }
  destruct (Z.ltb_spec kIso9660MaxDepth (zlen components)) as [Hdeep|Hdepth].
  { split; [done|]. intros file. split; [intros E; discriminate E|]. intros (_ & cs & E & Hcs & Hl & _). rewrite (Hunique cs E Hcs) in Hl. lia. }
  split; [by apply resolve_total|]. intros file. rewrite resolve_exact. split.
  - intros Hn. split; [by apply (names_fit read volume (root volume) components)|]. exists components.
    pose proof (zlen_nonneg components). split_and!; try done; lia.
  - intros (_ & cs & E & Hcs & _ & Hn). by rewrite <- (Hunique cs E Hcs).
Qed.

(** * Confinement *)

Lemma directory_sectors_local read read' n dir space b acc :
  (forall x, 0 <= x < space -> read x = read' x) -> 0 <= block dir + b -> block dir + b + Z.of_nat n <= space -> space < 2 ^ 32 ->
  directory_sectors read n dir space b acc = directory_sectors read' n dir space b acc.
Proof.
  intros H. revert b acc. induction n as [|n IH]; intros b acc H0 Hn H32; [done|]. cbn [directory_sectors].
  rewrite u32_id, H by (unfold is_u32; lia). destruct (read' (block dir + b)) as [bytes|]; [|done].
  destruct (sector_records _ _ _ _ _ _) as [[acc'|err]|]; [apply IH; lia|done|done].
Qed.

Lemma listing_local read read' volume dir : reader_ok read -> is_u32 (volume_space volume) -> is_u32 (block dir) /\ is_u32 (size dir) ->
  (forall x, 0 <= x < volume_space volume -> read x = read' x) ->
  list_iso9660_directory read volume dir = list_iso9660_directory read' volume dir.
Proof.
  intros Hread Hs Hdir H. unfold list_iso9660_directory. destruct (check_directory_extent dir (volume_space volume)) as [[]|err] eqn:Ec; [|done].
  destruct (checked_extent dir (volume_space volume) Hdir Hs Ec) as (Hz & _ & Hfit). unfold is_u32, kIso9660BlockBytes in *.
  pose proof (Z.div_pos (size dir) 2048 ltac:(lia) ltac:(lia)).
  by rewrite (directory_sectors_local read read') by (done || lia).
Qed.

(** A lookup stays inside the volume.  Two discs that agree on the blocks of the
    volume give the same answer for every path: no block outside it is looked at,
    whatever extents the directories claim. *)
Theorem lookup_confined (read read' : Iso9660BlockReader) (volume : Iso9660Volume) (path : list Z) (Hread : reader_ok read)
    (Hvolume : volume_ok volume) (Hagree : forall b, 0 <= b < volume_space volume -> read b = read' b) :
  lookup_iso9660_file read volume path = lookup_iso9660_file read' volume path.
Proof.
  destruct Hvolume as [Hs Hroot]. unfold lookup_iso9660_file. destruct path as [|c rest]; [done|]. destruct (negb (c =? slash)); [done|].
  destruct (path_components rest []) as [components|]; [|done]. destruct (_ || _); [done|]. revert Hroot. generalize (root volume).
  induction components as [|name components IH]; intros dir Hdir; cbn [resolve]; [done|].
  rewrite <- (listing_local read read') by done.
  destruct (list_iso9660_directory read volume dir) as [[entries|err]|] eqn:El; [|done|done].
  destruct (find_entry name entries None) as [[e|]|err] eqn:Ef; [|done|done].
  destruct (_ && _); [done|]. destruct (_ && _); [done|]. destruct components as [|next components]; [done|].
  apply IH. apply find_entry_exact in Ef. pose proof (listing_entries read Hread volume dir entries Hdir Hs El) as Hes.
  rewrite Forall_forall in Hes. apply (Hes e). apply (list_elem_of_filter (fun e => identifier e = name)). rewrite Ef. by left.
Qed.

(** * The volume descriptor set *)

Lemma le32_range p : Forall is_u8 p -> is_u32 (le32 p).
Proof.
  intros H. assert (Hb : forall i, is_u8 (znth p i 0)) by (intros; by apply znth_byte).
  pose proof (Hb 0) as H0. pose proof (Hb 1) as H1. pose proof (Hb 2) as H2. pose proof (Hb 3) as H3. unfold is_u8, is_u32 in *.
  unfold le32. rewrite (lor_shiftl 8), (lor_shiftl 16), (lor_shiftl 24) by lia. lia.
Qed.

Lemma primary_ok b v : Forall is_u8 b -> zlen b = kIso9660BlockBytes -> primary_volume b = Ok v -> volume_ok v.
Proof.
  intros Hb Hl E. unfold primary_volume in E. apply fail_if_ok in E as [_ E]. apply or_fail_ok in E as (space & Es & E).
  apply or_fail_ok in E as (x & _ & E). apply or_fail_ok in E as (y & _ & E). apply or_fail_ok in E as (z & _ & E).
  apply fail_if_ok in E as [_ E]. apply fail_if_ok in E as [_ E].
  destruct (parse_record (b @+ 156) 34) as [r|] eqn:Ep; cbn [mbind result_bind] in E; [|discriminate E].
  apply fail_if_ok in E as [_ E]. injection E as <-.
  apply parse_read in Ep as (u & e & rest & _ & Hok & -> & _); [|by apply Forall_drop|unfold kIso9660BlockBytes in Hl; rewrite zlen_drop; lia].
  split; cbn [volume_space root record_of entry]; [|split; [apply (rec_block _ _ Hok)|apply (rec_size _ _ Hok)]].
  unfold both32 in Es. cbv zeta in Es. destruct (_ =? _); [|discriminate Es]. injection Es as <-. by apply le32_range, Forall_drop.
Qed.

(** Block [16 + k] holds a descriptor of type [type]. *)
Definition descriptor (read : Iso9660BlockReader) (k type : Z) (b : list Z) : Prop :=
  read (kIso9660FirstDescriptor + k) = Some b /\ standard_descriptor b = true /\ b.[0] = type.

(** From descriptor [i] up to the terminator at [n] there are boot records,
    supplementary and partition descriptors, and the primary one where [at_] is true. *)
Definition descriptor_set (read : Iso9660BlockReader) (i n : Z) (at_ : Z -> Prop) : Prop :=
  (exists b, descriptor read n 255 b) /\
  forall k, i <= k < n -> exists type b, descriptor read k type b /\
    ((type = 1 /\ at_ k) \/ (type = 0 \/ type = 2 \/ type = 3) /\ ~ at_ k).

Lemma descriptor_unique read k t t' b b' : descriptor read k t b -> descriptor read k t' b' -> t = t' /\ b = b'.
Proof. intros (E & _ & <-) (E' & _ & <-). rewrite E in E'. by injection E' as ->. Qed.

Lemma descriptor_set_step read i n at_ : i < n ->
  descriptor_set read i n at_ <->
  (exists type b, descriptor read i type b /\ ((type = 1 /\ at_ i) \/ (type = 0 \/ type = 2 \/ type = 3) /\ ~ at_ i)) /\
  descriptor_set read (i + 1) n at_.
Proof.
  intros Hi. unfold descriptor_set. split.
  - intros [Ht H]. split; [apply H; lia|]. split; [done|]. intros k Hk. apply H. lia.
  - intros [Hf [Ht H]]. split; [done|]. intros k Hk. destruct (decide (k = i)) as [->|]; [done|]. apply H. lia.
Qed.

(** From after the primary descriptor its position no longer matters. *)
Lemma descriptor_set_after read i n p : p < i -> descriptor_set read i n (eq p) <-> descriptor_set read i n (fun _ => False).
Proof.
  intros Hp. unfold descriptor_set. split; (intros [Ht H]; split; [done|]; intros k Hk; destruct (H k Hk) as (t & b & Hd & Hc); exists t, b;
    split; [done|]; destruct Hc as [[E Ha]|[E _]]; [try lia; done|right; split; [done|lia || tauto]]).
Qed.

(** One descriptor of the loop. *)
Lemma descriptors_step read count i primary b t : descriptor read i t b ->
  descriptors read (S count) i primary =
    if t =? 255 then Ok (primary, i, true)
    else if (t =? 0) || (t =? 2) || (t =? 3) then descriptors read count (i + 1) primary
    else
      _ ← fail_if (negb (t =? 1)) descriptor_invalid;
      _ ← fail_if (bool_decide (is_Some primary)) duplicate_primary;
      volume ← primary_volume b;
      descriptors read count (i + 1) (Some volume).
Proof. intros (E & Hs & Ht). cbn [descriptors]. rewrite E. cbn [or_fail mbind result_bind]. rewrite Hs, Ht. done. Qed.

Lemma descriptors_found read count i primary v n : descriptors read count i primary = Ok (Some v, n, true) ->
  i <= n < i + Z.of_nat count /\
  match primary with
  | Some w => v = w /\ descriptor_set read i n (fun _ => False)
  | None => exists p b, i <= p < n /\ descriptor read p 1 b /\ primary_volume b = Ok v /\ descriptor_set read i n (eq p)
  end.
Proof.
  revert i primary. induction count as [|count IH]; intros i primary E; [discriminate E|].
  assert (Hd : exists t b, descriptor read i t b).
  { cbn [descriptors] in E. apply or_fail_ok in E as (b & Er & E). apply fail_if_ok in E as [Hs _]. apply negb_false_iff in Hs. by exists b.[0], b. }
  destruct Hd as (t & b & Hd). rewrite (descriptors_step read count i primary b t Hd) in E.
  destruct (Z.eqb_spec t 255) as [->|H255].
  - injection E as -> <-. split; [lia|]. split; [done|]. split; [by exists b|lia].
  - destruct ((t =? 0) || (t =? 2) || (t =? 3)) eqn:Hskip.
    + assert (Ht : t = 0 \/ t = 2 \/ t = 3) by (apply orb_true_iff in Hskip as [Hskip|Hskip]; [apply orb_true_iff in Hskip as [Hskip|Hskip]|]; apply Z.eqb_eq in Hskip; lia).
      apply IH in E as [Hn E]. split; [lia|]. destruct primary as [w|].
      * destruct E as [-> E]. split; [done|]. apply descriptor_set_step; [lia|]. split; [exists t, b; split; [done|right; tauto]|done].
      * destruct E as (p & b' & Hp & Hb' & Ev & E). exists p, b'. split; [lia|]. split; [done|]. split; [done|].
        apply descriptor_set_step; [lia|]. split; [exists t, b; split; [done|right; split; [done|lia]]|done].
    + apply fail_if_ok in E as [H1 E]. apply negb_false_iff, Z.eqb_eq in H1. subst t. apply fail_if_ok in E as [Hnone E].
      apply bool_decide_eq_false in Hnone. destruct primary as [w|]; [by destruct Hnone|].
      destruct (primary_volume b) as [w|] eqn:Ew; cbn [mbind result_bind] in E; [|discriminate E].
      apply IH in E as [Hn [-> E]]. split; [lia|]. exists i, b. split; [lia|]. split; [done|]. split; [done|].
      apply descriptor_set_step; [lia|]. split; [exists 1, b; split; [done|by left]|]. apply descriptor_set_after; [lia|done].
Qed.

Lemma descriptors_complete read count i primary v n : i <= n < i + Z.of_nat count ->
  match primary with
  | Some w => v = w /\ descriptor_set read i n (fun _ => False)
  | None => exists p b, i <= p < n /\ descriptor read p 1 b /\ primary_volume b = Ok v /\ descriptor_set read i n (eq p)
  end -> descriptors read count i primary = Ok (Some v, n, true).
Proof.
  revert i primary. induction count as [|count IH]; intros i primary Hn E; [lia|].
  destruct (decide (i = n)) as [->|Hne].
  - destruct primary as [w|]; [|destruct E as (p & b & Hp & _); lia]. destruct E as [-> [(b & Hb) _]].
    by rewrite (descriptors_step read count n (Some w) b 255 Hb).
  - destruct primary as [w|].
    + destruct E as [-> E]. apply descriptor_set_step in E as [(t & b & Hd & [[_ []]|[Ht _]]) E]; [|lia].
      rewrite (descriptors_step read count i (Some w) b t Hd). destruct Ht as [-> | [-> | ->]]; (apply IH; [lia|done]).
    + destruct E as (p & b' & Hp & Hb' & Ev & E). apply descriptor_set_step in E as [(t & b & Hd & Hc) E]; [|lia].
      rewrite (descriptors_step read count i None b t Hd). destruct Hc as [[-> ->]|[Ht Hpi]].
      * destruct (descriptor_unique read i 1 1 b b' Hd Hb') as [_ ->]. cbn. rewrite Ev. cbn. apply IH; [lia|]. split; [done|].
        by apply descriptor_set_after in E; [|lia].
      * assert (Hrest : exists p b, i + 1 <= p < n /\ descriptor read p 1 b /\ primary_volume b = Ok v /\ descriptor_set read (i + 1) n (eq p)).
        { exists p, b'. split; [lia|]. done. }
        destruct Ht as [-> | [-> | ->]]; (apply IH; [lia|exact Hrest]).
Qed.

(** The volume is the one primary descriptor's.  Reading a volume succeeds exactly
    when the descriptor set beginning at block 16 ends within sixteen blocks, holds
    exactly one primary descriptor besides descriptors that are skipped, that
    descriptor is well formed, its volume space ends inside the track and after the
    set, and its root is a directory's extent; and it gives a volume whose fields
    are 32-bit numbers, as the lookups require. *)
Theorem volume_exact (read : Iso9660BlockReader) (track_blocks : Z) (volume : Iso9660Volume) (Hread : reader_ok read) :
  read_iso9660_volume read track_blocks = Ok volume <->
  volume_ok volume /\
  exists n p b, 0 <= p < n /\ n < kIso9660MaxDescriptors /\ descriptor read p 1 b /\ primary_volume b = Ok volume /\
    descriptor_set read 0 n (eq p) /\
    kIso9660FirstDescriptor + n < volume_space volume <= track_blocks /\
    check_directory_extent (root volume) (volume_space volume) = Ok tt.
Proof.
  unfold read_iso9660_volume. split.
  - intros E. destruct (descriptors read (Z.to_nat kIso9660MaxDescriptors) 0 None) as [[[primary n] terminated]|] eqn:Ed; cbn [mbind result_bind] in E; [|discriminate E].
    apply fail_if_ok in E as [Ht E]. apply negb_false_iff in Ht. subst terminated. apply or_fail_ok in E as (w & -> & E).
    apply fail_if_ok in E as [Hs E]. destruct (check_directory_extent (root w) (volume_space w)) as [[]|] eqn:Ec; cbn in E; [|discriminate E].
    injection E as ->. apply descriptors_found in Ed as (Hn & p & b & Hp & Hb & Ev & Hset).
    apply orb_false_iff in Hs as [H1 H2]. apply Z.ltb_ge in H1. apply Z.leb_gt in H2. split.
    + destruct Hb as (Er & _). apply Hread in Er as [Hl Hu]. by apply (primary_ok b).
    + exists n, p, b. unfold kIso9660MaxDescriptors in *. split_and!; try done; lia.
  - intros (_ & n & p & b & Hp & Hn & Hb & Ev & Hset & Hspace & Hroot).
    rewrite (descriptors_complete read _ 0 None volume n); [|unfold kIso9660MaxDescriptors in *; lia|by exists p, b].
    cbn. rewrite (proj2 (Z.ltb_ge _ _)), (proj2 (Z.leb_gt _ _)) by lia. cbn. by rewrite Hroot.
Qed.

(** * A small disc

    A primary descriptor, a terminator, a root directory with one file. *)
Definition put (b : list Z) (offset : Z) (bytes : list Z) : list Z :=
  take (Z.to_nat offset) b ++ bytes ++ drop (Z.to_nat offset + length bytes) b.

Definition plain : Unread := mkUnread [100; 1; 1; 0; 0; 0; 0] 0 [].
Definition plain_directory : Unread := mkUnread [100; 1; 1; 0; 0; 0; 0] 2 [].

Definition sample_root : Iso9660Extent := mkExtent 18 2048.
Definition sample_file : Iso9660Entry := mkEntry [65] false (mkExtent 19 5).

Definition zero_block : list Z := replicate 2048 0.

Definition sample_primary : list Z :=
  fold_left (fun b f => put b f.1 f.2)
    [(0, [1; 67; 68; 48; 48; 49; 1]); (40, [68; 32; 32]); (80, le_bytes 20 ++ be_bytes 20); (120, [1; 0; 0; 1]); (124, [1; 0; 0; 1]);
     (128, [0; 8; 8; 0]); (156, record_bytes plain_directory (mkEntry [0] true sample_root)); (881, [1])] zero_block.

Definition sample_directory : list Z :=
  put zero_block 0
    (record_bytes plain_directory (mkEntry [0] true sample_root) ++ record_bytes plain_directory (mkEntry [1] true sample_root) ++
     record_bytes plain sample_file).

Definition sample_reader : Iso9660BlockReader := fun b =>
  if b =? 16 then Some sample_primary
  else if b =? 17 then Some (put zero_block 0 [255; 67; 68; 48; 48; 49; 1])
  else if b =? 18 then Some sample_directory
  else None.

Definition sample_volume : Iso9660Volume := mkVolume [68] 20 sample_root.

Lemma bytes_check (l : list Z) : forallb (fun x => (0 <=? x) && (x <? 256)) l = true -> Forall is_u8 l.
Proof.
  intros H. apply Forall_forall. intros x Hx. apply list_elem_of_In in Hx. apply (proj1 (forallb_forall _ _) H) in Hx.
  apply andb_true_iff in Hx as [H1 H2]. apply Z.leb_le in H1. apply Z.ltb_lt in H2. unfold is_u8. lia.
Qed.

Lemma sample_reader_ok : reader_ok sample_reader.
Proof.
  intros b bytes. unfold sample_reader. destruct (b =? 16); [|destruct (b =? 17); [|destruct (b =? 18); [|done]]].
  all: intros E; injection E as <-; split; [by_evaluation|apply bytes_check; by_evaluation].
Qed.

Lemma sample_volume_ok : volume_ok sample_volume.
Proof. split; [unfold is_u32; cbn; lia|split; unfold is_u32; cbn; lia]. Qed.

Lemma lookup_exact_witness :
  exists components, [47; 65] = path_of components /\ names sample_reader sample_volume sample_root components (mkExtent 19 5).
Proof.
  destruct (proj1 (proj2 (lookup_exact sample_reader sample_volume [47; 65] sample_reader_ok sample_volume_ok) (mkExtent 19 5)))
    as (_ & components & E & _ & _ & Hn); [by_evaluation|]. by exists components.
Defined.

(** The same disc with something after the volume. *)
Definition longer_reader : Iso9660BlockReader := fun b => if 20 <=? b then Some zero_block else sample_reader b.

Lemma lookup_confined_witness :
  lookup_iso9660_file sample_reader sample_volume [47; 65] = lookup_iso9660_file longer_reader sample_volume [47; 65].
Proof.
  apply (lookup_confined sample_reader longer_reader sample_volume [47; 65] sample_reader_ok sample_volume_ok).
  intros b Hb. unfold longer_reader. cbn in Hb. by rewrite (proj2 (Z.leb_gt 20 b)) by lia.
Defined.

Lemma volume_exact_witness : volume_ok sample_volume /\ exists n p b, descriptor sample_reader p 1 b /\ 0 <= p < n.
Proof.
  destruct (proj1 (volume_exact sample_reader 20 sample_volume sample_reader_ok)) as (Hok & n & p & b & Hp & _ & Hd & _); [by_evaluation|].
  split; [exact Hok|]. by exists n, p, b.
Defined.

Lemma listing_exact_witness :
  exists sectors self parent, sectors_at sample_reader 18 sectors /\ map snd (all_records sectors) = [self; parent; sample_file].
Proof.
  destruct sample_volume_ok as [Hs Hr].
  destruct (proj1 (proj2 (listing_exact sample_reader sample_volume sample_root [sample_file] sample_reader_ok Hr Hs)))
    as (_ & sectors & self & parent & _ & Hat & Hes & _); [by_evaluation|]. by exists sectors, self, parent.
Defined.
