(* ===== verification/Rom.v ===== *)
(** Cartridge images: the header classification, the reset vectors and the region
    hint of [libs/media/src/rom.cpp] and [include/segarecomp/rom.hpp].

    An image is a byte list; statuses and family names are strings, as in the
    source, and diagnostics its enumeration. *)

From Stdlib Require Import Ascii String.
From S2P Require Import Prelude.

(** * Data of the classification *)

Inductive Platform : Type := P_unknown | P_genesis | P_master_system | P_game_gear | P_sega_cd.
Inductive ClassificationOutcome : Type := recognized | rejected | unrecognized.
Inductive Diagnostic : Type :=
| recognized_genesis | recognized_sms | recognized_gg | size_limit | genesis_system_truncated
| genesis_domestic_title_truncated | genesis_system_unsupported | sms_gg_header_truncated | sms_gg_region_invalid
| header_collision | header_conflict | not_recognized.

Record ByteRange := mkByteRange { range_start : Z; range_end : Z }.

Record HeaderCandidate := mkCandidate {
  c_kind : string; c_offset : Z; c_status : string; c_header_range : ByteRange; c_system_range : ByteRange;
  c_title_range : ByteRange; c_system_bytes : list Z; c_title_bytes : list Z; c_family : string; c_system_type : string;
  c_region_system : string; c_rom_size_code : Z }.

Record RomInfo := mkRomInfo {
  platform : Platform; input_size : Z; outcome : ClassificationOutcome; diagnostic : Diagnostic;
  candidates : list HeaderCandidate; rom_family : string; system_type : string; domestic_title_bytes : list Z;
  domestic_title_display : string; domestic_title_encoding : string; region_system : string; rom_size_code : Z }.

Definition image_size_limit : Z := 0x400000.

Definition genesis_system_offset : Z := 0x100.
Definition genesis_system_size : Z := 16.
Definition genesis_title_offset : Z := 0x120.
Definition genesis_title_size : Z := 48.
Definition eight_bit_offsets : list Z := [0x1ff0; 0x3ff0; 0x7ff0].
Definition sms_signature : string := "TMR SEGA".
Definition mega_drive : string := "SEGA MEGA DRIVE ".
Definition genesis : string := "SEGA GENESIS    ".

(** The bytes of a string view, and the character of a byte. *)
Definition char_byte (c : ascii) : Z := Z.of_N (N_of_ascii c).
Definition bytes_of (s : string) : list Z := map char_byte (String.list_ascii_of_string s).
Definition byte_char (b : Z) : ascii := ascii_of_N (Z.to_N b).

(** * The readers of a range *)

Definition has_range (bytes : list Z) (start length : Z) : bool :=
  (start <=? zlen bytes) && (length <=? zlen bytes - start).

(** The [length] bytes from [start]. *)
Definition slice (bytes : list Z) (start length : Z) : list Z := take (Z.to_nat length) (drop (Z.to_nat start) bytes).

Definition matches (bytes : list Z) (start : Z) (text : string) : bool :=
  has_range bytes start (zlen (bytes_of text)) && (slice bytes start (zlen (bytes_of text)) =b bytes_of text).

Definition copy_range (bytes : list Z) (start length : Z) : list Z :=
  if has_range bytes start length then slice bytes start length else [].

(** [std::equal] from the beginning of [text], over the length of [value]. *)
Definition begins (value : list Z) (text : string) : bool := value =b take (List.length value) (bytes_of text).

Definition hex_digits : list ascii := String.list_ascii_of_string "0123456789ABCDEF".
Definition hex_byte (b : Z) : list ascii := map (fun n => nth (Z.to_nat n) hex_digits "0"%char) [b .>> 4; b .& 15].

(** [title_display]'s two loops: the value without its trailing spaces, then each
    byte as a character or an escape. *)
Fixpoint trim_spaces (value : list Z) : list Z :=
  match value with
  | [] => []
  | b :: rest => match trim_spaces rest with [] => if b =? 0x20 then [] else [b] | kept => b :: kept end
  end.

Definition display_byte (b : Z) : list ascii :=
  if (0x20 <=? b) && (b <=? 0x7e) then [byte_char b] else ["\"%char; "x"%char] ++ hex_byte b.

Definition title_display (value : list Z) : string :=
  String.string_of_list_ascii (concat (map display_byte (trim_spaces value))).

Definition starts_sega (value : list Z) : bool := (4 <=? zlen value) && (take 4 value =b bytes_of "SEGA").

(** * The candidates *)

Definition no_range : ByteRange := mkByteRange 0 0.

Definition genesis_candidate (status : string) : HeaderCandidate :=
  mkCandidate "genesis" genesis_system_offset status no_range
    (mkByteRange genesis_system_offset (genesis_system_offset + genesis_system_size))
    (if (status =b "title_truncated"%string) || (status =b "valid"%string)
     then mkByteRange genesis_title_offset (genesis_title_offset + genesis_title_size) else no_range)
    [] [] "" "" "" 0.

Definition with_system (c : HeaderCandidate) (system : list Z) : HeaderCandidate :=
  mkCandidate (c_kind c) (c_offset c) (c_status c) (c_header_range c) (c_system_range c) (c_title_range c) system (c_title_bytes c)
    (c_family c) (c_system_type c) (c_region_system c) (c_rom_size_code c).

Definition eight_bit_candidate (offset : Z) (status : string) : HeaderCandidate :=
  mkCandidate "sms_gg" offset status (mkByteRange offset (offset + 16)) no_range no_range [] [] "" "" "" 0.

Definition family_platform (family : string) : Platform :=
  if family =b "genesis"%string then P_genesis
  else if family =b "master_system"%string then P_master_system
  else if family =b "game_gear"%string then P_game_gear
  else P_unknown.

(** The Genesis part of [inspect_rom]. *)
Definition genesis_headers (bytes : list Z) : list HeaderCandidate :=
  if has_range bytes genesis_system_offset genesis_system_size then
    let system := copy_range bytes genesis_system_offset genesis_system_size in
    if begins system mega_drive || begins system genesis then
      if negb (has_range bytes genesis_title_offset genesis_title_size)
      then [with_system (genesis_candidate "title_truncated") system]
      else
        let c := genesis_candidate "valid" in
        [mkCandidate (c_kind c) (c_offset c) (c_status c) (c_header_range c) (c_system_range c) (c_title_range c) system
           (copy_range bytes genesis_title_offset genesis_title_size) "genesis"
           (if system =b bytes_of mega_drive then "mega_drive"%string else "genesis"%string) "" 0]
    else if starts_sega system then [with_system (genesis_candidate "unsupported_system") system]
    else []
  else if (genesis_system_offset + 4 <=? zlen bytes) && (zlen bytes <? genesis_system_offset + genesis_system_size) then
    let partial := copy_range bytes genesis_system_offset (zlen bytes - genesis_system_offset) in
    if begins partial mega_drive || begins partial genesis
    then [with_system (genesis_candidate "system_truncated") partial]
    else []
  else [].

(** The family and region of a region nibble. *)
Definition eight_bit_region (region : Z) : option (string * string) :=
  match region with
  | 3 => Some ("master_system", "sms_japan")%string
  | 4 => Some ("master_system", "sms_export")%string
  | 5 => Some ("game_gear", "gg_japan")%string
  | 6 => Some ("game_gear", "gg_export")%string
  | 7 => Some ("game_gear", "gg_international")%string
  | _ => None
  end.

(** One round of the loop over the 8-bit header offsets. *)
Definition eight_bit_header (bytes : list Z) (offset : Z) : list HeaderCandidate :=
  if negb (has_range bytes offset (zlen (bytes_of sms_signature))) || negb (matches bytes offset sms_signature) then []
  else if negb (has_range bytes offset 16) then [eight_bit_candidate offset "truncated"]
  else
    let last := znth bytes (offset + 15) 0 in
    let c := eight_bit_candidate offset "valid" in
    let with_region status family region :=
      mkCandidate (c_kind c) (c_offset c) status (c_header_range c) (c_system_range c) (c_title_range c) (c_system_bytes c)
        (c_title_bytes c) family (c_system_type c) region (last .& 0x0f) in
    match eight_bit_region (last .>> 4) with
    | Some (family, region) => [with_region "valid"%string family region]
    | None => [with_region "invalid_region"%string ""%string ""%string]
    end.

Definition header_candidates (bytes : list Z) : list HeaderCandidate :=
  genesis_headers bytes ++ concat (map (eight_bit_header bytes) eight_bit_offsets).

(** * The decision *)

(** [first_status(status) != nullptr] *)
Definition has_status (cs : list HeaderCandidate) (status : string) : bool := existsb (fun c => c_status c =b status) cs.

Definition rejected_info (size : Z) (cs : list HeaderCandidate) (d : Diagnostic) : RomInfo :=
  mkRomInfo P_unknown size rejected d cs "" "" [] "" "" "" 0.

Definition recognized_info (size : Z) (cs : list HeaderCandidate) (c : HeaderCandidate) : RomInfo :=
  let info display encoding d :=
    mkRomInfo (family_platform (c_family c)) size recognized d cs (c_family c) (c_system_type c) (c_title_bytes c) display encoding
      (c_region_system c) (c_rom_size_code c) in
  if c_kind c =b "genesis"%string
  then info (title_display (c_title_bytes c)) "ascii_with_hex_escapes"%string recognized_genesis
  else info ""%string ""%string (if c_family c =b "master_system"%string then recognized_sms else recognized_gg).

Definition inspect_rom (bytes : list Z) : RomInfo :=
  if image_size_limit <? zlen bytes then rejected_info (zlen bytes) [] size_limit
  else
    let cs := header_candidates bytes in
    let reject := rejected_info (zlen bytes) cs in
    if has_status cs "system_truncated" then reject genesis_system_truncated
    else if has_status cs "title_truncated" then reject genesis_domestic_title_truncated
    else if has_status cs "truncated" then reject sms_gg_header_truncated
    else if has_status cs "unsupported_system" then reject genesis_system_unsupported
    else if has_status cs "invalid_region" then reject sms_gg_region_invalid
    else
      match List.filter (fun c => c_status c =b "valid"%string) cs with
      | [] => mkRomInfo P_unknown (zlen bytes) unrecognized not_recognized cs "" "" [] "" "" "" 0
      | [c] => recognized_info (zlen bytes) cs c
      | (c :: _) as valid => reject (if forallb (fun d => c_family d =b c_family c) valid then header_collision else header_conflict)
      end.

(** * Names *)

Definition outcome_name (o : ClassificationOutcome) : string :=
  match o with recognized => "recognized" | rejected => "rejected" | unrecognized => "unrecognized" end.

Definition platform_name (p : Platform) : string :=
  match p with
  | P_genesis => "Genesis / Mega Drive" | P_master_system => "Master System" | P_game_gear => "Game Gear" | P_sega_cd => "Sega CD"
  | P_unknown => "Unknown"
  end.

Definition diagnostic_name (d : Diagnostic) : string :=
  match d with
  | recognized_genesis => "HDR_RECOGNIZED_GENESIS" | recognized_sms => "HDR_RECOGNIZED_SMS" | recognized_gg => "HDR_RECOGNIZED_GG"
  | size_limit => "IMG_SIZE_LIMIT" | genesis_system_truncated => "HDR_GENESIS_SYSTEM_TRUNCATED"
  | genesis_domestic_title_truncated => "HDR_GENESIS_DOMESTIC_TITLE_TRUNCATED"
  | genesis_system_unsupported => "HDR_GENESIS_SYSTEM_UNSUPPORTED" | sms_gg_header_truncated => "HDR_8BIT_HEADER_TRUNCATED"
  | sms_gg_region_invalid => "HDR_SMS_GG_REGION_INVALID" | header_collision => "HDR_HEADER_COLLISION"
  | header_conflict => "HDR_HEADER_CONFLICT" | not_recognized => "HDR_NOT_RECOGNIZED"
  end.

(** * The reset vectors *)

Inductive ResetOutcome : Type := reset_accepted | reset_rejected.
Inductive ResetDiagnostic : Type :=
| image_size_limit_exceeded | reset_ssp_truncated | reset_pc_truncated | reset_pc_not_24bit | reset_pc_odd | reset_pc_unmapped
| reset_image_accepted.
Inductive ResetRangeStatus : Type := RR_unexamined | RR_unavailable | RR_available.
Inductive ResetCheckStatus : Type := RC_unexamined | RC_not_checked | RC_even | RC_odd | RC_mapped | RC_unmapped.

Record ResetRange := mkResetRange { reset_start : Z; reset_end : Z; range_status : ResetRangeStatus }.
Record ResetVectorProvenance := mkVector {
  vector_offset : Z; vector_length : Z; vector_status : ResetRangeStatus; vector_bytes : option (list Z); vector_word : option Z }.

Record GenesisResetImageReport := mkReport {
  reset_outcome : ResetOutcome; reset_diagnostic : ResetDiagnostic; reset_input_size : Z; raw_region_constructed : bool;
  reset_ssp_range : ResetRange; reset_pc_range : ResetRange; initial_ssp : option Z; initial_pc_word : option Z; initial_pc : option Z;
  entry_address : option Z; entry_image_offset : option Z; pc_alignment : ResetCheckStatus; pc_mapping : ResetCheckStatus;
  ssp_vector : ResetVectorProvenance; pc_vector : ResetVectorProvenance }.

Definition be32 (bytes : list Z) : Z :=
  (((znth bytes 0 0 .<< 24) .| (znth bytes 1 0 .<< 16)) .| (znth bytes 2 0 .<< 8)) .| znth bytes 3 0.

Definition blank_report (size : Z) : GenesisResetImageReport :=
  mkReport reset_rejected reset_ssp_truncated size false (mkResetRange 0 4 RR_unexamined) (mkResetRange 4 8 RR_unexamined)
    None None None None None RC_unexamined RC_unexamined (mkVector 0 4 RR_unexamined None None) (mkVector 4 4 RR_unexamined None None).

(** The report of an image within the limit: what the vectors hold, then the
    verdict, the checks and the entry. *)
Definition examined_report (size : Z) (verdict : ResetOutcome * ResetDiagnostic) (ssp pc : option (list Z)) (pc_value entry : option Z)
    (alignment mapping : ResetCheckStatus) : GenesisResetImageReport :=
  let status (v : option (list Z)) := match v with Some _ => RR_available | None => RR_unavailable end in
  let vector offset v := mkVector offset 4 (status v) v (be32 <$> v) in
  mkReport verdict.1 verdict.2 size true (mkResetRange 0 4 (status ssp)) (mkResetRange 4 8 (status pc)) (be32 <$> ssp) (be32 <$> pc)
    pc_value entry entry alignment mapping (vector 0 ssp) (vector 4 pc).

Definition read_vector (bytes : list Z) (offset : Z) : option (list Z) :=
  if has_range bytes offset 4 then Some (slice bytes offset 4) else None.

Definition analyze_genesis_reset_image (bytes : list Z) : GenesisResetImageReport :=
  let size := zlen bytes in
  let blank := blank_report size in
  if image_size_limit <? size then
    mkReport reset_rejected image_size_limit_exceeded size false (reset_ssp_range blank) (reset_pc_range blank)
      None None None None None RC_unexamined RC_unexamined (ssp_vector blank) (pc_vector blank)
  else
    let report verdict ssp pc pc_value entry alignment mapping :=
      examined_report size verdict ssp pc pc_value entry alignment mapping in
    match read_vector bytes 0 with
    | None => report (reset_rejected, reset_ssp_truncated) None None None None RC_not_checked RC_not_checked
    | Some ssp =>
        match read_vector bytes 4 with
        | None => report (reset_rejected, reset_pc_truncated) (Some ssp) None None None RC_not_checked RC_not_checked
        | Some pc =>
            let pc_word := be32 pc in
            if negb (pc_word .& 0xff000000 =? 0)
            then report (reset_rejected, reset_pc_not_24bit) (Some ssp) (Some pc) None None RC_not_checked RC_not_checked
            else if negb (pc_word .& 1 =? 0)
            then report (reset_rejected, reset_pc_odd) (Some ssp) (Some pc) (Some pc_word) None RC_odd RC_not_checked
            else if size <=? pc_word
            then report (reset_rejected, reset_pc_unmapped) (Some ssp) (Some pc) (Some pc_word) None RC_even RC_unmapped
            else report (reset_accepted, reset_image_accepted) (Some ssp) (Some pc) (Some pc_word) (Some pc_word) RC_even RC_mapped
        end
    end.

(** * The region hint *)

Record GenesisRegionHint := mkHint { hint_profile : string; hint_ambiguous : bool }.

Definition char_in (set : string) (c : ascii) : bool := existsb (Ascii.eqb c) (String.list_ascii_of_string set).

Fixpoint drop_while (p : ascii -> bool) (l : list ascii) : list ascii :=
  match l with [] => [] | c :: rest => if p c then drop_while p rest else l end.

(** [remove_suffix] over the trailing blanks and NULs, then [remove_prefix] over
    the leading blanks. *)
Definition blank_front (c : ascii) : bool :=
  let b := char_byte c in (b =? 0x20) || (b =? 9) || (b =? 13) || (b =? 10).
Definition blank_back (c : ascii) : bool := blank_front c || (char_byte c =? 0).

Definition trim_field (raw : list ascii) : list ascii := drop_while blank_front (rev (drop_while blank_back (rev raw))).

Definition is_hex_char (c : ascii) : bool :=
  let b := char_byte c in
  ((0x30 <=? b) && (b <=? 0x39)) || ((0x61 <=? b) && (b <=? 0x66)) || ((0x41 <=? b) && (b <=? 0x46)).

(** The value of the first character. *)
Definition hex_value (d : ascii) : Z :=
  let b := char_byte d in if b <=? 0x39 then b - 0x30 else (b .| 0x20) - 0x61 + 10.

Definition genesis_region_hint (raw : list ascii) : GenesisRegionHint :=
  let raw := trim_field raw in
  if String.string_of_list_ascii raw =b "E"%string then mkHint "usa" true
  else
    let '(japan, usa, europe) :=
      if existsb (char_in "JUE") raw
      then (existsb (char_in "J") raw, existsb (char_in "U") raw, existsb (char_in "E") raw)
      else match raw with
           | [] => (false, false, false)
           | d :: _ =>
               if forallb is_hex_char raw
               then let bits := hex_value d in (negb (bits .& 1 =? 0), negb (bits .& 4 =? 0), negb (bits .& 8 =? 0))
               else (false, false, false)
           end in
    mkHint (if usa then "usa" else if japan then "japan" else if europe then "europe" else "usa") false.

Definition genesis_region_hint_rom (rom : list Z) : GenesisRegionHint :=
  if negb (has_range rom 0x1F0 16) then mkHint "usa" false else genesis_region_hint (map byte_char (slice rom 0x1F0 16)).

(** * The headers an image carries, stated on its bytes *)

(** [text] stands in the image at [start]. *)
Definition carries (img : list Z) (start : Z) (text : list Z) : Prop :=
  exists before after, img = before ++ text ++ after /\ zlen before = start.

(** The two system names, and the type each declares. *)
Inductive system_name : string -> string -> Prop :=
| Name_mega_drive : system_name mega_drive "mega_drive"
| Name_genesis : system_name genesis "genesis".

Inductive RomHeader : Type :=
| H_genesis (name type : string) (title : list Z)
| H_eight_bit (offset : Z) (family region : string) (code : Z).

Definition header_family (h : RomHeader) : string :=
  match h with H_genesis _ _ _ => "genesis" | H_eight_bit _ family _ _ => family end.

(** A complete header. *)
Inductive complete (img : list Z) : RomHeader -> Prop :=
| Complete_genesis name type title : system_name name type -> carries img genesis_system_offset (bytes_of name) ->
    carries img genesis_title_offset title -> zlen title = genesis_title_size -> complete img (H_genesis name type title)
| Complete_eight_bit o unread last family region : o ∈ eight_bit_offsets ->
    carries img o (bytes_of sms_signature ++ unread ++ [last]) -> zlen unread = 7 ->
    eight_bit_region (last / 16) = Some (family, region) -> complete img (H_eight_bit o family region (last mod 16)).

(** A header that is cut short or declares something else, with the diagnostic it has. *)
Inductive damaged (img : list Z) : Diagnostic -> Prop :=
| Short_system name type before part rest : system_name name type -> img = before ++ part -> zlen before = genesis_system_offset ->
    4 <= zlen part < genesis_system_size -> bytes_of name = part ++ rest -> damaged img genesis_system_truncated
| Short_title name type : system_name name type -> carries img genesis_system_offset (bytes_of name) ->
    zlen img < genesis_title_offset + genesis_title_size -> damaged img genesis_domestic_title_truncated
| Other_system rest : carries img genesis_system_offset (bytes_of "SEGA" ++ rest) -> zlen rest = 12 ->
    (forall name type, system_name name type -> bytes_of "SEGA" ++ rest <> bytes_of name) -> damaged img genesis_system_unsupported
| Short_eight_bit o : o ∈ eight_bit_offsets -> carries img o (bytes_of sms_signature) -> zlen img < o + 16 ->
    damaged img sms_gg_header_truncated
| Bad_region o unread last : o ∈ eight_bit_offsets -> carries img o (bytes_of sms_signature ++ unread ++ [last]) -> zlen unread = 7 ->
    eight_bit_region (last / 16) = None -> damaged img sms_gg_region_invalid.

(** The candidate of a complete header. *)
Definition candidate_of (h : RomHeader) : HeaderCandidate :=
  match h with
  | H_genesis name type title =>
      mkCandidate "genesis" 0x100 "valid" no_range (mkByteRange 0x100 0x110) (mkByteRange 0x120 0x150) (bytes_of name) title
        "genesis" type "" 0
  | H_eight_bit o family region code =>
      mkCandidate "sms_gg" o "valid" (mkByteRange o (o + 16)) no_range no_range [] [] family "" region code
  end.

(** * Reading ranges *)

Lemma has_range_true img o n : 0 <= o -> 0 <= n -> has_range img o n = true <-> o + n <= zlen img.
Proof. unfold has_range. rewrite andb_true_iff, !Z.leb_le. lia. Qed.

Lemma carries_slice img o text : 0 <= o -> carries img o text <-> o + zlen text <= zlen img /\ slice img o (zlen text) = text.
Proof.
  intros Ho. unfold carries, slice. split.
  - intros (b & a & -> & <-). split; [rewrite !zlen_app; pose proof (zlen_nonneg a); lia|].
    by rewrite drop_zlen_app, take_zlen_app.
  - intros [Hl Hs]. exists (take (Z.to_nat o) img), (drop (Z.to_nat (o + zlen text)) img). split.
    + rewrite <- (take_drop (Z.to_nat o) img) at 1. f_equal.
      rewrite <- (take_drop (Z.to_nat (zlen text)) (drop (Z.to_nat o) img)), Hs, drop_drop at 1. f_equal. f_equal. unfold zlen in *. lia.
    + unfold zlen in *. rewrite length_take. lia.
Qed.

Lemma slice_length img o n : 0 <= o -> 0 <= n -> o + n <= zlen img -> zlen (slice img o n) = n.
Proof. intros. unfold slice, zlen in *. rewrite length_take, length_drop. lia. Qed.

Lemma carries_here img o n : 0 <= o -> 0 <= n -> o + n <= zlen img -> carries img o (slice img o n).
Proof. intros Ho Hn Hl. apply carries_slice; [done|]. by rewrite slice_length. Qed.

Lemma carries_app img o a b : carries img o (a ++ b) <-> carries img o a /\ carries img (o + zlen a) b.
Proof.
  split.
  - intros (x & y & -> & <-). split; [exists x, (b ++ y)|exists (x ++ a), y].
    + by rewrite <- !app_assoc.
    + by rewrite <- !app_assoc, zlen_app.
  - intros [(x & y & Himg & Hx) (u & v & Himg' & Hu)]. exists x, v. split; [|done].
    assert (length u = length (x ++ a)) as Hlen by (rewrite length_app; unfold zlen in *; lia).
    rewrite Himg, app_assoc in Himg'. apply app_inj_1 in Himg' as [Hua ->]; [|done]. by rewrite Himg, <- !app_assoc.
Qed.

Lemma carries_unique img o a b : zlen a = zlen b -> carries img o a -> carries img o b -> a = b.
Proof.
  intros Hl (x & y & -> & Hx) (u & v & Heq & Hu). apply app_inj_1 in Heq as [_ Heq]; [|unfold zlen in *; lia].
  apply app_inj_1 in Heq as [? _]; [done|unfold zlen in *; lia].
Qed.

Lemma matches_true img o t : 0 <= o -> matches img o t = true <-> carries img o (bytes_of t).
Proof.
  intros Ho. unfold matches. rewrite andb_true_iff, bool_decide_eq_true, has_range_true; [|done|apply zlen_nonneg].
  by rewrite carries_slice.
Qed.

(** * The candidates of the two header forms *)

(** What one 8-bit offset gives, by what the image carries there. *)
Inductive eight_bit_view (img : list Z) (o : Z) : list HeaderCandidate -> Prop :=
| View_none : ~ carries img o (bytes_of sms_signature) -> eight_bit_view img o []
| View_short : carries img o (bytes_of sms_signature) -> zlen img < o + 16 -> eight_bit_view img o [eight_bit_candidate o "truncated"]
| View_valid unread last family region : carries img o (bytes_of sms_signature ++ unread ++ [last]) -> zlen unread = 7 ->
    eight_bit_region (last / 16) = Some (family, region) ->
    eight_bit_view img o [candidate_of (H_eight_bit o family region (last mod 16))]
| View_region c unread last : carries img o (bytes_of sms_signature ++ unread ++ [last]) -> zlen unread = 7 ->
    eight_bit_region (last / 16) = None -> c_status c = "invalid_region"%string -> eight_bit_view img o [c].

Lemma eight_bit_offset_pos o : o ∈ eight_bit_offsets -> 0 <= o.
Proof. unfold eight_bit_offsets. rewrite !elem_of_cons, elem_of_nil. lia. Qed.

Lemma znth_slice img o n i : 0 <= o -> 0 <= i < n -> znth (slice img o n) i 0 = znth img (o + i) 0.
Proof.
  intros Ho Hi. unfold slice. rewrite !znth_nth by lia. rewrite !nth_lookup, lookup_take_lt, lookup_drop by lia.
  f_equal. f_equal. lia.
Qed.

(** A full 8-bit header, cut into the signature, the bytes the code does not read and the last byte. *)
Lemma header_split img o : 0 <= o -> o + 16 <= zlen img -> carries img o (bytes_of sms_signature) ->
  exists unread, zlen unread = 7 /\ carries img o (bytes_of sms_signature ++ unread ++ [znth img (o + 15) 0]).
Proof.
  intros Ho Hl Hsig. exists (slice img (o + 8) 7). split; [by apply slice_length; lia|].
  apply carries_app. split; [done|]. change (zlen (bytes_of sms_signature)) with 8. apply carries_app.
  split; [by apply carries_here; lia|]. rewrite slice_length by lia.
  pose proof (carries_here img (o + 8 + 7) 1 ltac:(lia) ltac:(lia) ltac:(lia)) as H.
  pose proof (slice_length img (o + 8 + 7) 1 ltac:(lia) ltac:(lia) ltac:(lia)) as H1.
  pose proof (znth_slice img (o + 8 + 7) 1 0 ltac:(lia) ltac:(lia)) as H0.
  destruct (slice img (o + 8 + 7) 1) as [|x [|y l]]; rewrite ?zlen_cons in H1; try (unfold zlen in H1; simpl in H1; lia).
  replace (o + 15) with (o + 8 + 7 + 0) by lia. by rewrite <- H0.
Qed.

Lemma eight_bit_header_view img o : 0 <= o -> Forall is_u8 img -> eight_bit_view img o (eight_bit_header img o).
Proof.
  intros Ho Hu. unfold eight_bit_header. change (zlen (bytes_of sms_signature)) with 8.
  destruct (matches img o sms_signature) eqn:Hm.
  - apply matches_true in Hm as Hc; [|done]. apply carries_slice in Hc as [Hl _]; [|done]. change (zlen (bytes_of sms_signature)) with 8 in Hl.
    apply matches_true in Hm; [|done]. rewrite (proj2 (has_range_true img o 8 Ho ltac:(lia))) by lia. cbn [negb orb].
    destruct (has_range img o 16) eqn:Hr; cbn [negb].
    + apply has_range_true in Hr; [|lia..]. destruct (header_split img o Ho Hr Hm) as (unread & Hn & Hc).
      pose proof (znth_byte img (o + 15) Hu) as Hb. set (last := znth img (o + 15) 0) in *. clearbody last.
      rewrite Z.shiftr_div_pow2 by lia. change (2 ^ 4) with 16.
      replace (last .& 15)%word with (last mod 16) by (symmetry; apply (land_ones_mod last 4); lia).
      destruct (eight_bit_region (last / 16)) as [[f r]|] eqn:He; econstructor; by eauto.
    + apply View_short; [done|]. destruct (decide (o + 16 <= zlen img)) as [H|H]; [|lia].
      by rewrite (proj2 (has_range_true img o 16 Ho ltac:(lia)) H) in Hr.
  - rewrite orb_true_r. apply View_none. intros Hc. apply matches_true in Hc; [|done]. congruence.
Qed.

Lemma begins_true v t : begins v t = true <-> exists rest, bytes_of t = v ++ rest.
Proof.
  unfold begins. rewrite bool_decide_eq_true. split.
  - intros H. exists (drop (List.length v) (bytes_of t)). rewrite H at 1. by rewrite take_drop.
  - intros [rest ->]. by rewrite take_app_length.
Qed.

Lemma begins_name v t : begins v t = true -> zlen v = zlen (bytes_of t) -> v = bytes_of t.
Proof.
  intros (rest & ->)%begins_true Hl. rewrite zlen_app in Hl. destruct rest; [by rewrite app_nil_r|].
  rewrite zlen_cons in Hl. pose proof (zlen_nonneg rest). lia.
Qed.

Lemma begins_either v : begins v mega_drive || begins v genesis = true <->
  exists name type rest, system_name name type /\ bytes_of name = v ++ rest.
Proof.
  rewrite orb_true_iff, !begins_true. split.
  - intros [[r H]|[r H]]; eauto using system_name.
  - intros (n & t & r & [] & H); eauto.
Qed.

Lemma starts_sega_true v : starts_sega v = true <-> exists rest, v = bytes_of "SEGA" ++ rest.
Proof.
  unfold starts_sega. rewrite andb_true_iff, bool_decide_eq_true. split.
  - intros [_ H]. exists (drop 4 v). by rewrite <- H, take_drop.
  - intros [rest ->]. split; [|done]. rewrite zlen_app. change (zlen (bytes_of "SEGA")) with 4. pose proof (zlen_nonneg rest).
    apply Z.leb_le. lia.
Qed.

Lemma name_length name type : system_name name type -> zlen (bytes_of name) = 16.
Proof. by intros []. Qed.

(** What the Genesis part gives, by what the image carries from 0x100. *)
Inductive genesis_view (img : list Z) : list HeaderCandidate -> Prop :=
| G_part c name type before part rest : system_name name type -> img = before ++ part -> zlen before = genesis_system_offset ->
    4 <= zlen part < genesis_system_size -> bytes_of name = part ++ rest -> c_status c = "system_truncated"%string -> genesis_view img [c]
| G_title c name type : system_name name type -> carries img genesis_system_offset (bytes_of name) ->
    zlen img < genesis_title_offset + genesis_title_size -> c_status c = "title_truncated"%string -> genesis_view img [c]
| G_valid name type title : system_name name type -> carries img genesis_system_offset (bytes_of name) ->
    carries img genesis_title_offset title -> zlen title = genesis_title_size ->
    genesis_view img [candidate_of (H_genesis name type title)]
| G_other c rest : carries img genesis_system_offset (bytes_of "SEGA" ++ rest) -> zlen rest = 12 ->
    (forall name type, system_name name type -> bytes_of "SEGA" ++ rest <> bytes_of name) ->
    c_status c = "unsupported_system"%string -> genesis_view img [c]
| G_far : zlen img < genesis_system_offset + 4 -> genesis_view img []
| G_part_other : zlen img < genesis_system_offset + genesis_system_size ->
    (forall name type before part rest, system_name name type -> img = before ++ part -> zlen before = genesis_system_offset ->
       bytes_of name <> part ++ rest) -> genesis_view img []
| G_nothing system : carries img genesis_system_offset system -> zlen system = 16 ->
    (forall rest, system <> bytes_of "SEGA" ++ rest) -> genesis_view img [].

Lemma slice_end img o : 0 <= o <= zlen img -> img = take (Z.to_nat o) img ++ slice img o (zlen img - o) /\ zlen (take (Z.to_nat o) img) = o.
Proof.
  intros Ho. unfold slice. split.
  - rewrite (take_ge (drop _ _)); [by rewrite take_drop|]. rewrite length_drop. unfold zlen in *. lia.
  - unfold zlen in *. rewrite length_take. lia.
Qed.

Lemma genesis_headers_view img : genesis_view img (genesis_headers img).
Proof.
  unfold genesis_headers, copy_range. destruct (has_range img genesis_system_offset genesis_system_size) eqn:Hr.
  - apply has_range_true in Hr; [|done..].
    pose proof (carries_here img genesis_system_offset genesis_system_size ltac:(done) ltac:(done) Hr) as Hc. pose proof (slice_length img genesis_system_offset genesis_system_size ltac:(done) ltac:(done) Hr) as Hl.
    set (system := slice img genesis_system_offset genesis_system_size) in *. clearbody system. change genesis_system_size with 16 in Hl.
    destruct (begins system mega_drive || begins system genesis) eqn:Hb.
    + assert (exists name type, system_name name type /\ system = bytes_of name) as (name & type & Hn & ->).
      { apply orb_true_iff in Hb as [H|H]; apply begins_name in H as ->; eauto using system_name. }
      destruct (has_range img genesis_title_offset genesis_title_size) eqn:Ht; cbn [negb].
      * apply has_range_true in Ht; [|done..]. pose proof (carries_here img genesis_title_offset genesis_title_size ltac:(done) ltac:(done) Ht) as Hc'.
        pose proof (slice_length img genesis_title_offset genesis_title_size ltac:(done) ltac:(done) Ht) as Hl'. set (title := slice _ _ _) in *. clearbody title.
        pose proof (G_valid img name type title Hn Hc Hc' Hl') as Hv. by destruct Hn.
      * apply (G_title img _ name type); [done..| |done].
        destruct (decide (genesis_title_offset + genesis_title_size <= zlen img)) as [H|H]; [|lia].
        apply (has_range_true img genesis_title_offset genesis_title_size) in H; [congruence|done..].
    + assert (forall name type, system_name name type -> system <> bytes_of name) as Hno.
      { intros name type Hn ->. enough (begins (bytes_of name) mega_drive || begins (bytes_of name) genesis = true) by congruence.
        apply begins_either. exists name, type, []. by rewrite app_nil_r. }
      destruct (starts_sega system) eqn:Hs.
      * apply starts_sega_true in Hs as [rest ->]. apply (G_other img _ rest); [done| |done..].
        rewrite zlen_app in Hl. change (zlen (bytes_of "SEGA")) with 4 in Hl. lia.
      * apply (G_nothing img system); [done..|]. intros rest ->. enough (starts_sega (bytes_of "SEGA" ++ rest) = true) by congruence.
        apply starts_sega_true. eauto.
  - assert (zlen img < genesis_system_offset + genesis_system_size) as Hshort.
    { destruct (decide (genesis_system_offset + genesis_system_size <= zlen img)) as [H|H]; [|lia].
      apply (has_range_true img genesis_system_offset genesis_system_size) in H; [congruence|done..]. }
    destruct (_ && _) eqn:Hsize; [|apply G_far; apply andb_false_iff in Hsize; unfold genesis_system_offset, genesis_system_size in *; lia].
    apply andb_true_iff in Hsize as [Hmin%Z.leb_le _]. pose proof (zlen_nonneg img). unfold genesis_system_size in Hshort.
    rewrite (proj2 (has_range_true img genesis_system_offset (zlen img - genesis_system_offset) ltac:(done) ltac:(lia))) by lia.
    destruct (slice_end img genesis_system_offset) as [Himg Hbefore]; [unfold genesis_system_offset in *; lia|].
    set (part := slice img _ _) in *. set (before := take _ img) in *. clearbody part before.
    assert (zlen part = zlen img - genesis_system_offset) as Hpart by (rewrite Himg, zlen_app; lia).
    destruct (begins part mega_drive || begins part genesis) eqn:Hb.
    + apply begins_either in Hb as (name & type & rest & Hn & Hrest).
      apply (G_part img _ name type before part rest); try done. unfold genesis_system_size. lia.
    + apply G_part_other; [unfold genesis_system_size; lia|]. intros name type before' part' rest Hn Himg' Hbefore' Heq.
      enough (begins part mega_drive || begins part genesis = true) by congruence. apply begins_either.
      exists name, type, rest. split; [done|]. rewrite Heq. f_equal. rewrite Himg in Himg'. symmetry in Himg'.
      apply app_inj_1 in Himg' as [_ ->]; [done|]. unfold zlen in *. lia.
Qed.

(** What the decision reads of a candidate. *)
Definition key (c : HeaderCandidate) : string * option HeaderCandidate :=
  (c_status c, if c_status c =b "valid"%string then Some c else None).

Lemma key_status c s : c_status c = s -> s <> "valid"%string -> key c = (s, None).
Proof. intros <- Hs. unfold key. by rewrite bool_decide_eq_false_2. Qed.

Lemma carries_length img o t : carries img o t -> o + zlen t <= zlen img.
Proof. intros (b & a & -> & <-). rewrite !zlen_app. pose proof (zlen_nonneg a). lia. Qed.

Lemma name_unique name type name' type' : system_name name type -> system_name name' type' -> bytes_of name = bytes_of name' ->
  name' = name /\ type' = type.
Proof. by intros [] [] H. Qed.

Lemma name_sega name type : system_name name type -> exists rest, bytes_of name = bytes_of "SEGA" ++ rest.
Proof. intros []; by eexists. Qed.

Lemma zlen_nil {A} : zlen (@nil A) = 0.
Proof. done. Qed.

(** The lengths of what the hypotheses say the image carries. *)
Ltac lengths :=
  repeat match goal with
  | H : system_name ?n ?t |- _ => lazymatch goal with _ : zlen (bytes_of n) = 16 |- _ => fail | _ => pose proof (name_length _ _ H) end
  | H : carries ?i ?o ?t |- _ =>
      lazymatch goal with _ : o + zlen t <= zlen i |- _ => fail | _ => pose proof (carries_length _ _ _ H) end
  | H : ?i = ?b ++ ?p |- _ =>
      lazymatch goal with _ : zlen i = zlen (b ++ p) |- _ => fail | _ => pose proof (f_equal zlen H) end
  end;
  rewrite ?zlen_app, ?zlen_cons, ?zlen_nil in *; change (zlen (bytes_of "SEGA")) with 4 in *; change (zlen (bytes_of sms_signature)) with 8 in *;
  unfold genesis_system_offset, genesis_system_size, genesis_title_offset, genesis_title_size in *; lia.

Lemma eight_view_unique img o l l' : eight_bit_view img o l -> eight_bit_view img o l' -> map key l = map key l'.
Proof.
  assert (forall u v x y, carries img o (bytes_of sms_signature ++ u ++ [x]) -> carries img o (bytes_of sms_signature ++ v ++ [y]) ->
    zlen u = 7 -> zlen v = 7 -> x = y) as Huniq.
  { intros u v x y Hx Hy Hu Hv. assert (Heq := fun H => carries_unique _ _ _ _ H Hx Hy). rewrite !zlen_app in Heq.
    specialize (Heq ltac:(change (zlen [x]) with (zlen [y]); lia)).
    apply app_inv_head, app_inj_1 in Heq as [_ Heq]; [by injection Heq|unfold zlen in *; lia]. }
  intros [] []; try done; try lengths; simpl;
    try (exfalso; match goal with Hn : ~ carries img o _, H : carries img o (_ ++ _ ++ _) |- _ => apply carries_app in H as [H _]; exact (Hn H) end);
    match goal with H : carries img o (_ ++ ?u ++ _), H' : carries img o (_ ++ ?v ++ _) |- _ =>
      first [constr_eq u v; fail 1 | assert (Hl := Huniq _ _ _ _ H H' ltac:(done) ltac:(done)); subst] end;
    simplify_eq; [done|by rewrite !(key_status _ "invalid_region")].
Qed.

(** Two texts the hypotheses put at one place are equal. *)
Ltac same_text :=
  match goal with
  | H : carries ?i ?o ?a, H' : carries ?i ?o ?b |- _ =>
      first [constr_eq a b; fail 1 | assert (a = b) by (apply (carries_unique i o); [lengths|exact H|exact H']); clear H']
  end.

Lemma same_key c c' s : c_status c = s -> c_status c' = s -> s <> "valid"%string -> [key c] = [key c'].
Proof. intros H H' Hs. by rewrite !(key_status _ s). Qed.

Lemma genesis_view_unique img l l' : genesis_view img l -> genesis_view img l' -> map key l = map key l'.
Proof.
  intros [] []; try done; try (exfalso; lengths); simpl; try (eapply same_key; [eassumption..|done]);
    try (exfalso; by eauto); repeat same_text;
    try match goal with H : system_name ?n _, H' : system_name ?m _, E : bytes_of ?n = bytes_of ?m |- _ =>
      destruct (name_unique _ _ _ _ H H' E) as [-> ->] end;
    try match goal with H : system_name ?n _ |- _ => destruct (name_sega _ _ H) end; subst; try done;
    exfalso; match goal with Hno : context [_ <> _] |- _ => solve [eapply Hno; eauto] end.
Qed.

(** * The candidates, all together *)

Definition is_valid (c : HeaderCandidate) : bool := c_status c =b "valid"%string.

(** Where a header stands, and the candidates found there. *)
Definition place (h : RomHeader) : Z := match h with H_genesis _ _ _ => genesis_system_offset | H_eight_bit o _ _ _ => o end.
Definition places : list Z := genesis_system_offset :: eight_bit_offsets.
Definition found (img : list Z) (p : Z) : list HeaderCandidate :=
  if p =? genesis_system_offset then genesis_headers img else eight_bit_header img p.

Lemma candidates_found img : header_candidates img = concat (map (found img) places).
Proof. done. Qed.

(** The candidates found at a place are those of the complete headers there. *)
Definition exact_at (img : list Z) (ps : list Z) (cs : list HeaderCandidate) : Prop :=
  exists hs, List.filter is_valid cs = map candidate_of hs /\ NoDup hs /\ forall h, h ∈ hs <-> complete img h /\ place h ∈ ps.

Lemma key_valid c h : key c = key (candidate_of h) <-> c = candidate_of h.
Proof.
  split; [|by intros ->]. unfold key. intros Heq. replace (c_status (candidate_of h)) with "valid"%string in Heq by by destruct h.
  rewrite (bool_decide_eq_true_2 ("valid"%string = "valid"%string)) in Heq by done. case_bool_decide; [by injection Heq|done].
Qed.

Lemma candidate_inj h h' img : complete img h -> complete img h' -> candidate_of h = candidate_of h' -> h = h'.
Proof. intros [n t ? [] _ _ _|] [n' t' ? [] _ _ _|] Heq; simpl in Heq; congruence. Qed.

Lemma exact_from_view img p l :
  (forall h, complete img h -> place h = p -> map key l = [key (candidate_of h)]) ->
  (l = [] \/ (exists c, l = [c] /\ c_status c <> "valid"%string) \/ exists h, l = [candidate_of h] /\ complete img h /\ place h = p) ->
  exact_at img [p] l.
Proof.
  intros Hkey Hl. unfold exact_at. setoid_rewrite list_elem_of_singleton.
  assert ((l = [] \/ exists c, l = [c] /\ c_status c <> "valid"%string) -> List.filter is_valid l = [] /\ forall h, complete img h -> place h <> p) as Hnone.
  { intros H. split.
    - destruct H as [->|(c & -> & Hc)]; [done|]. simpl. unfold is_valid. by rewrite bool_decide_eq_false_2.
    - intros h Hh Hp. specialize (Hkey h Hh Hp). destruct H as [->|(c & -> & Hc)]; [done|]. simpl in Hkey. injection Hkey as Hs _.
      by destruct h. }
  destruct Hl as [Hl|[Hl|(h & -> & Hh & Hp)]].
  1,2: destruct Hnone as [Hf Hno]; [by eauto|]; exists []; split_and!; [done|constructor|]; intros h; split; [by intros ?%elem_of_nil|];
    intros [Hh Hp]; by apply Hno in Hp.
  exists [h]. split_and!; [by destruct h|apply NoDup_singleton|]. intros h'. rewrite list_elem_of_singleton. split; [by intros ->|].
  intros [Hh' Hp']. specialize (Hkey h' Hh' Hp'). apply (candidate_inj h' h img); [done..|].
  symmetry. apply key_valid. cbn [map] in Hkey. congruence.
Qed.

Lemma offsets_apart : genesis_system_offset ∉ eight_bit_offsets.
Proof. by refine (bool_decide_unpack _ _). Qed.

Lemma genesis_exact_at img : exact_at img [genesis_system_offset] (genesis_headers img).
Proof.
  pose proof (genesis_headers_view img) as Hv. set (l := genesis_headers img) in *. clearbody l. apply exact_from_view.
  - intros h Hh Hp. destruct Hh as [name type title|o unread last f r Ho]; [by refine (genesis_view_unique img _ [_] Hv (G_valid img name type title _ _ _ _))|].
    simpl in Hp. subst o. by apply offsets_apart in Ho.
  - destruct Hv; eauto; right; first [left; eexists; split; [done|congruence]|right].
    eexists. split_and!; [done|by constructor|done].
Qed.

Lemma eight_bit_exact_at img o : Forall is_u8 img -> o ∈ eight_bit_offsets -> exact_at img [o] (eight_bit_header img o).
Proof.
  intros Hu Ho. pose proof (eight_bit_header_view img o (eight_bit_offset_pos o Ho) Hu) as Hv. set (l := eight_bit_header img o) in *. clearbody l.
  apply exact_from_view.
  - intros h Hh Hp. destruct Hh as [|o' unread last f r Ho']; simpl in Hp; subst; [by apply offsets_apart in Ho|].
    by refine (eight_view_unique img _ _ [_] Hv (View_valid img _ unread last f r _ _ _)).
  - destruct Hv; eauto; right; first [left; eexists; split; [done|done || congruence]|right].
    eexists. split_and!; [done|by econstructor|done].
Qed.

Lemma found_exact img ps : Forall is_u8 img -> NoDup ps -> (forall p, p ∈ ps -> p ∈ places) -> exact_at img ps (concat (map (found img) ps)).
Proof.
  intros Hu. induction ps as [|p ps IH]; intros Hnd Hin.
  - exists []. split_and!; [done|constructor|]. intros h. rewrite !elem_of_nil. tauto.
  - apply NoDup_cons in Hnd as [Hp Hnd]. destruct IH as (hs & Hf & Hn & Hh); [done|by intros q Hq; apply Hin; right|].
    assert (exact_at img [p] (found img p)) as (hs' & Hf' & Hn' & Hh').
    { unfold found. destruct (Z.eqb_spec p genesis_system_offset) as [->|Hne]; [apply genesis_exact_at|].
      apply eight_bit_exact_at; [done|]. specialize (Hin p ltac:(left)). by apply elem_of_cons in Hin as [?|]. }
    exists (hs' ++ hs). split_and!.
    + simpl. rewrite List.filter_app, List.map_app. by rewrite <- Hf, <- Hf'.
    + apply NoDup_app. split_and!; [done| |done]. intros h Hh1 Hh2. apply Hh' in Hh1 as [_ Hp1]. apply Hh in Hh2 as [_ Hp2].
      apply list_elem_of_singleton in Hp1. congruence.
    + intros h. rewrite elem_of_app, Hh, Hh', list_elem_of_singleton, elem_of_cons. tauto.
Qed.

Lemma complete_place img h : complete img h -> place h ∈ places.
Proof. intros []; unfold places; simpl; [left|by right]. Qed.

(** The valid candidates are those of the complete headers, each once. *)
Lemma valid_candidates img : Forall is_u8 img ->
  exists hs, List.filter is_valid (header_candidates img) = map candidate_of hs /\ NoDup hs /\ forall h, h ∈ hs <-> complete img h.
Proof.
  intros Hu. rewrite candidates_found. destruct (found_exact img places) as (hs & Hf & Hn & Hh); [done|by refine (bool_decide_unpack _ _)|done|].
  exists hs. split_and!; [done..|]. intros h. rewrite Hh. split; [by intros []|]. eauto using complete_place.
Qed.

(** The status a diagnostic is decided on. *)
Definition damage_status (d : Diagnostic) : string :=
  match d with
  | genesis_system_truncated => "system_truncated"
  | genesis_domestic_title_truncated => "title_truncated"
  | sms_gg_header_truncated => "truncated"
  | genesis_system_unsupported => "unsupported_system"
  | sms_gg_region_invalid => "invalid_region"
  | _ => ""
  end.

(** The damages of an image, the most urgent first: the order of the code's decision. *)
Definition damages : list Diagnostic :=
  [genesis_system_truncated; genesis_domestic_title_truncated; sms_gg_header_truncated; genesis_system_unsupported; sms_gg_region_invalid].

Lemma has_status_key cs s : has_status cs s = true <-> s ∈ map fst (map key cs).
Proof.
  unfold has_status. rewrite existsb_exists, map_map, list_elem_of_In, in_map_iff.
  split; intros (c & H); exists c; rewrite bool_decide_eq_true in *; tauto.
Qed.

Lemma has_status_found img s : has_status (header_candidates img) s = true <-> exists p, p ∈ places /\ has_status (found img p) s = true.
Proof.
  rewrite candidates_found. unfold has_status. rewrite existsb_exists. split.
  - intros (c & Hc & Hs). apply in_concat in Hc as (l & Hl & Hc). apply in_map_iff in Hl as (p & <- & Hp). exists p.
    split; [by apply list_elem_of_In|]. apply existsb_exists. eauto.
  - intros (p & Hp & H). apply existsb_exists in H as (c & Hc & Hs). exists c. split; [|done]. apply in_concat.
    exists (found img p). split; [|done]. by apply in_map, list_elem_of_In.
Qed.

Lemma view_status l l' s : map key l = map key l' -> has_status l' s = true -> has_status l s = true.
Proof. rewrite !has_status_key. by intros ->. Qed.

Lemma found_genesis img : found img genesis_system_offset = genesis_headers img.
Proof. done. Qed.

Lemma found_eight_bit img o : o ∈ eight_bit_offsets -> found img o = eight_bit_header img o.
Proof. intros Ho. unfold found. destruct (Z.eqb_spec o genesis_system_offset) as [->|]; [by apply offsets_apart in Ho|done]. Qed.

Lemma status_here img p d : p ∈ places -> has_status (found img p) (damage_status d) = true ->
  has_status (header_candidates img) (damage_status d) = true.
Proof. intros. apply has_status_found. eauto. Qed.

(** The image has a damage exactly when a candidate has its status. *)
Lemma damaged_status img d : Forall is_u8 img -> d ∈ damages ->
  has_status (header_candidates img) (damage_status d) = true <-> damaged img d.
Proof.
  intros Hu Hd. split.
  - intros (p & Hp & Hs)%has_status_found. apply elem_of_cons in Hp as [->|Hp].
    + rewrite found_genesis in Hs. apply has_status_key in Hs.
      destruct (genesis_headers_view img); simpl in Hs; rewrite ?list_elem_of_singleton, ?elem_of_nil in Hs; try done;
        unfold damages in Hd; rewrite !elem_of_cons, elem_of_nil in Hd; destruct_or! Hd; subst; simpl in Hs; try congruence;
        by econstructor.
    + rewrite found_eight_bit in Hs by done. apply has_status_key in Hs.
      destruct (eight_bit_header_view img p (eight_bit_offset_pos p Hp) Hu); simpl in Hs;
        rewrite ?list_elem_of_singleton, ?elem_of_nil in Hs; try done;
        unfold damages in Hd; rewrite !elem_of_cons, elem_of_nil in Hd; destruct_or! Hd; subst; simpl in Hs; try congruence;
        by econstructor.
  - assert (forall c, genesis_view img [c] -> c_status c = damage_status d -> has_status (header_candidates img) (damage_status d) = true) as Hg.
    { intros c Hv Hs. apply (status_here img genesis_system_offset); [left|]. rewrite found_genesis.
      apply (view_status _ [c]); [by apply (genesis_view_unique img), Hv; apply genesis_headers_view|].
      simpl. by rewrite Hs, bool_decide_eq_true_2. }
    assert (forall o c, o ∈ eight_bit_offsets -> eight_bit_view img o [c] -> c_status c = damage_status d ->
      has_status (header_candidates img) (damage_status d) = true) as He.
    { intros o c Ho Hv Hs. apply (status_here img o); [by right|]. rewrite found_eight_bit by done.
      apply (view_status _ [c]); [by apply (eight_view_unique img o), Hv; apply eight_bit_header_view; [apply eight_bit_offset_pos|]|].
      simpl. by rewrite Hs, bool_decide_eq_true_2. }
    clear Hd. intros Hdam. destruct Hdam.
    + apply (Hg (genesis_candidate "system_truncated")); [by econstructor|done].
    + apply (Hg (genesis_candidate "title_truncated")); [by econstructor|done].
    + apply (Hg (genesis_candidate "unsupported_system")); [by econstructor|done].
    + apply (He o (eight_bit_candidate o "truncated")); [done|by constructor|done].
    + apply (He o (eight_bit_candidate o "invalid_region")); [done|by econstructor|done].
Qed.

(** What the result says of the one header it is recognised by. *)
Definition describes (info : RomInfo) (h : RomHeader) : Prop :=
  rom_family info = header_family h /\ candidate_of h ∈ candidates info /\
  match h with
  | H_genesis _ type title =>
      platform info = P_genesis /\ diagnostic info = recognized_genesis /\ system_type info = type /\
      domestic_title_bytes info = title /\ domestic_title_display info = title_display title
  | H_eight_bit _ family region code =>
      region_system info = region /\ rom_size_code info = code /\
      (family = "master_system"%string /\ platform info = P_master_system /\ diagnostic info = recognized_sms \/
       family = "game_gear"%string /\ platform info = P_game_gear /\ diagnostic info = recognized_gg)
  end.

(** Why an image is rejected. *)
Inductive explains (img : list Z) : Diagnostic -> Prop :=
| Too_large : image_size_limit < zlen img -> explains img size_limit
| First_damage urgent d less : zlen img <= image_size_limit -> damages = urgent ++ d :: less -> damaged img d ->
    (forall d', d' ∈ urgent -> ~ damaged img d') -> explains img d
| Two_headers h h' : zlen img <= image_size_limit -> (forall d, ~ damaged img d) -> complete img h -> complete img h' -> h <> h' ->
    (forall k, complete img k -> header_family k = header_family h) -> explains img header_collision
| Two_families h h' : zlen img <= image_size_limit -> (forall d, ~ damaged img d) -> complete img h -> complete img h' ->
    header_family h <> header_family h' -> explains img header_conflict.

Lemma damaged_listed img d : damaged img d -> d ∈ damages.
Proof. intros []; unfold damages; by repeat constructor. Qed.

Lemma region_family r f s : eight_bit_region r = Some (f, s) -> f = "master_system"%string \/ f = "game_gear"%string.
Proof. unfold eight_bit_region. repeat case_match; intros; simplify_eq; auto. Qed.

Lemma candidate_family h img : complete img h -> c_family (candidate_of h) = header_family h.
Proof. by intros []. Qed.

Lemma recognized_describes img size cs h : complete img h -> candidate_of h ∈ cs -> describes (recognized_info size cs (candidate_of h)) h.
Proof.
  intros [n t title Hn|o unread last f r Ho Hc Hl Hr] Hin; unfold describes, recognized_info; [by split_and!|].
  split_and!; [done..|]. apply region_family in Hr as [-> | ->]; [by left|by right].
Qed.

(** The decision as a search for the most urgent damage. *)
Definition urgent_damage (cs : list HeaderCandidate) : option Diagnostic := List.find (fun d => has_status cs (damage_status d)) damages.

Lemma inspect_search img : zlen img <= image_size_limit ->
  inspect_rom img =
  match urgent_damage (header_candidates img) with
  | Some d => rejected_info (zlen img) (header_candidates img) d
  | None =>
      match List.filter is_valid (header_candidates img) with
      | [] => mkRomInfo P_unknown (zlen img) unrecognized not_recognized (header_candidates img) "" "" [] "" "" "" 0
      | [c] => recognized_info (zlen img) (header_candidates img) c
      | (c :: _) as valid => rejected_info (zlen img) (header_candidates img)
          (if forallb (fun d => c_family d =b c_family c) valid then header_collision else header_conflict)
      end
  end.
Proof.
  intros Hl. unfold inspect_rom. rewrite (proj2 (Z.ltb_ge _ _)) by done. unfold urgent_damage. cbn [List.find damages damage_status].
  by repeat (destruct (has_status _ _); [done|]).
Qed.

Lemma find_first {A} (p : A -> bool) l x : List.find p l = Some x ->
  exists before after, l = before ++ x :: after /\ p x = true /\ forall y, y ∈ before -> p y = false.
Proof.
  induction l as [|y l IH]; simpl; [done|]. destruct (p y) eqn:Hy; intros Hf.
  - injection Hf as <-. exists [], l. split_and!; [done..|]. by intros ? ?%elem_of_nil.
  - destruct (IH Hf) as (b & a & -> & Hx & Hb). exists (y :: b), a. split_and!; [done..|]. intros z [->|Hz]%elem_of_cons; auto.
Qed.

Lemma urgent_exact img : Forall is_u8 img ->
  match urgent_damage (header_candidates img) with
  | Some d => exists urgent less, damages = urgent ++ d :: less /\ damaged img d /\ forall d', d' ∈ urgent -> ~ damaged img d'
  | None => forall d, ~ damaged img d
  end.
Proof.
  intros Hu. destruct (urgent_damage _) as [d|] eqn:Hf.
  - apply find_first in Hf as (b & a & Heq & Hd & Hb). exists b, a. split_and!; [done| |].
    + apply damaged_status; [done| |done]. rewrite Heq. apply elem_of_app. right. left.
    + intros d' Hd' Hdam. rewrite <- damaged_status in Hdam; [|done|rewrite Heq; apply elem_of_app; by left]. by rewrite Hb in Hdam.
  - intros d Hdam. pose proof (damaged_listed _ _ Hdam) as Hin. apply damaged_status in Hdam; [|done..].
    pose proof (find_none _ _ Hf d ltac:(by apply list_elem_of_In)) as Hno. simpl in Hno. congruence.
Qed.

(** The classification, for the theorems below and the cartridge's. *)
Lemma classification (img : list Z) (Hu : Forall is_u8 img) :
  match outcome (inspect_rom img) with
  | recognized => zlen img <= image_size_limit /\ (forall d, ~ damaged img d) /\
      exists h, complete img h /\ (forall h', complete img h' -> h' = h) /\ describes (inspect_rom img) h
  | unrecognized => zlen img <= image_size_limit /\ (forall d, ~ damaged img d) /\ (forall h, ~ complete img h) /\
      diagnostic (inspect_rom img) = not_recognized
  | rejected => explains img (diagnostic (inspect_rom img))
  end.
Proof.
  destruct (decide (zlen img <= image_size_limit)) as [Hl|Hl].
  2: { unfold inspect_rom. rewrite (proj2 (Z.ltb_lt _ _)) by lia. apply Too_large. lia. }
  rewrite inspect_search by done. pose proof (urgent_exact img Hu) as Hd. destruct (urgent_damage _) as [d|].
  { destruct Hd as (u & l & Heq & Hdam & Hno). by eapply First_damage. }
  destruct (valid_candidates img Hu) as (hs & Hf & Hn & Hh). rewrite Hf.
  assert (forall h, h ∈ hs -> candidate_of h ∈ header_candidates img) as Hin.
  { intros h Hc. apply list_elem_of_In. assert (In (candidate_of h) (List.filter is_valid (header_candidates img))) as H
      by (rewrite Hf; by apply in_map, list_elem_of_In). by apply filter_In in H as [H _]. }
  destruct hs as [|h [|h' hs]].
  - split_and!; [done..| |done]. intros h Hc. by apply Hh, elem_of_nil in Hc.
  - cbn [map]. replace (outcome (recognized_info (zlen img) (header_candidates img) (candidate_of h))) with recognized by by destruct h.
    assert (complete img h) as Hc by (apply Hh; left). split_and!; [done..|]. exists h. split_and!; [done| |].
    + intros h' Hc'. apply Hh in Hc'. by apply list_elem_of_singleton in Hc'.
    + apply (recognized_describes img); [done|]. apply Hin. left.
  - assert (complete img h) as Hc by (apply Hh; left). cbn [map outcome diagnostic rejected_info].
    destruct (forallb _ _) eqn:Hall.
    + apply (Two_headers img h h'); [done..|apply Hh; right; left| |].
      * intros ->. apply NoDup_cons in Hn as [Hn _]. apply Hn. left.
      * intros k Hk. apply Hh in Hk as Hk'. rewrite forallb_forall in Hall. specialize (Hall (candidate_of k)).
        rewrite bool_decide_eq_true in Hall. rewrite <- !(candidate_family _ img) by done. apply Hall.
        apply (in_map candidate_of (h :: h' :: hs)). by apply list_elem_of_In.
    + apply not_true_iff_false in Hall. rewrite forallb_forall in Hall.
      destruct (decide (Forall (fun k => header_family k = header_family h) (h :: h' :: hs))) as [Hsame|Hdiff].
      * exfalso. apply Hall. intros c Hcin. change (In c (map candidate_of (h :: h' :: hs))) in Hcin.
        apply in_map_iff in Hcin as (k & <- & Hk). apply list_elem_of_In in Hk. apply bool_decide_eq_true.
        rewrite (candidate_family k img) by (by apply Hh). rewrite (candidate_family h img) by done.
        rewrite Forall_forall in Hsame. by apply Hsame.
      * apply not_Forall_Exists in Hdiff; [|intros ?; apply _]. apply Exists_exists in Hdiff as (k & Hk & Hne).
        apply (Two_families img k h); [done..|by apply Hh|done|done].
Qed.

(** The image carries one complete header, [h], and nothing that spoils it. *)
Definition single_header (img : list Z) (h : RomHeader) : Prop :=
  zlen img <= image_size_limit /\ (forall d, ~ damaged img d) /\ complete img h /\ forall h', complete img h' -> h' = h.

Lemma recognized_single img : Forall is_u8 img -> outcome (inspect_rom img) = recognized <-> exists h, single_header img h.
Proof.
  intros Hu. pose proof (classification img Hu) as H. split.
  - intros Ho. rewrite Ho in H. destruct H as (Hl & Hd & h & Hc & Hone & _). by exists h.
  - intros (h & Hl & Hd & Hc & Hone). destruct (outcome (inspect_rom img)); [done| |].
    + destruct H as [?|? d ? ? ? Hdam|h1 h2 ? ? H1 H2 Hne|h1 h2 ? ? H1 H2 Hne]; [lia|by destruct (Hd d)|..];
        apply Hone in H1 as ->, H2 as ->; done.
    + destruct H as (_ & _ & Hno & _). by destruct (Hno h).
Qed.

Lemma single_describes img h : Forall is_u8 img -> single_header img h -> describes (inspect_rom img) h.
Proof.
  intros Hu Hh. pose proof (classification img Hu) as H. rewrite (proj2 (recognized_single img Hu)) in H by eauto.
  destruct H as (_ & _ & k & Hk & _ & Hd). destruct Hh as (_ & _ & _ & Hone). apply Hone in Hk as ->. done.
Qed.

(** C14. The classification of an image is exact: it is recognised when it carries
    exactly one complete header (a Genesis system name and its title, or an 8-bit
    signature with a known region) and none that is cut short or unsupported, and the
    result describes that header; it is unrecognised when it carries none at all; and
    it is rejected for a size over the limit, for the most urgent damage, or for
    several headers, of one family (collision) or of two (conflict). *)
Theorem classification_exact (img : list Z) (Hu : Forall is_u8 img) :
  match outcome (inspect_rom img) with
  | recognized => zlen img <= image_size_limit /\ (forall d, ~ damaged img d) /\
      exists h, complete img h /\ (forall h', complete img h' -> h' = h) /\ describes (inspect_rom img) h
  | unrecognized => zlen img <= image_size_limit /\ (forall d, ~ damaged img d) /\ (forall h, ~ complete img h) /\
      diagnostic (inspect_rom img) = not_recognized
  | rejected => explains img (diagnostic (inspect_rom img))
  end.
Proof. by apply classification. Qed.

(** * The reset vectors, exactly *)

(** The big-endian word of the image at [o]. *)
Definition word_at (img : list Z) (o : Z) : Z :=
  2 ^ 24 * znth img o 0 + 2 ^ 16 * znth img (o + 1) 0 + 2 ^ 8 * znth img (o + 2) 0 + znth img (o + 3) 0.

Lemma word_at_range img o : Forall is_u8 img -> is_u32 (word_at img o).
Proof.
  intros Hu. unfold word_at, is_u32. pose proof (znth_byte img o Hu). pose proof (znth_byte img (o + 1) Hu).
  pose proof (znth_byte img (o + 2) Hu). pose proof (znth_byte img (o + 3) Hu). unfold is_u8 in *. lia.
Qed.

Lemma vector_exact img o : Forall is_u8 img -> 0 <= o ->
  read_vector img o = if o + 4 <=? zlen img then Some (slice img o 4) else None.
Proof.
  intros Hu Ho. unfold read_vector. destruct (Z.leb_spec (o + 4) (zlen img)) as [H|H].
  - by rewrite (proj2 (has_range_true img o 4 Ho ltac:(lia))).
  - destruct (has_range img o 4) eqn:Hr; [|done]. apply has_range_true in Hr; lia.
Qed.

Lemma be32_exact img o : Forall is_u8 img -> 0 <= o -> be32 (slice img o 4) = word_at img o.
Proof.
  intros Hu Ho. unfold be32. rewrite !znth_slice by lia. rewrite be32_sum by (by apply znth_byte). unfold word_at.
  rewrite Z.add_0_r. lia.
Qed.

Lemma wide_test x : is_u32 x -> (x .& 0xff000000)%word = 0 <-> x < 2 ^ 24.
Proof.
  intros Hx. unfold is_u32 in Hx. split.
  - intros H0. apply (f_equal (fun y => Z.shiftr y 24)) in H0. rewrite Z.shiftr_land in H0. change (Z.shiftr 0xff000000 24) with 255 in H0.
    rewrite land_ff, Z.shiftr_0_l, Z.shiftr_div_pow2 in H0 by lia. unfold u8 in H0.
    rewrite Z.mod_small in H0 by (split; [apply Z.div_pos; lia|apply Z.div_lt_upper_bound; lia]). apply Z.div_small_iff in H0; lia.
  - intros Hs. rewrite <- (Z.mod_small x (2 ^ 24)), <- (land_ones_mod x 24), <- Z.land_assoc by lia. apply Z.land_0_r.
Qed.

Lemma low_bit x : (x .& 1)%word = 0 <-> Z.even x = true.
Proof. change 1 with (2 ^ 1 - 1). rewrite (land_ones_mod x 1) by lia. change (2 ^ 1) with 2. rewrite Zmod_even. by destruct (Z.even x). Qed.

(** Why a reset image is rejected. *)
Inductive reset_rejects (img : list Z) : ResetDiagnostic -> Prop :=
| Reset_size : image_size_limit < zlen img -> reset_rejects img image_size_limit_exceeded
| Reset_no_ssp : zlen img < 4 -> reset_rejects img reset_ssp_truncated
| Reset_no_pc : 4 <= zlen img < 8 -> reset_rejects img reset_pc_truncated
| Reset_wide : 8 <= zlen img <= image_size_limit -> 2 ^ 24 <= word_at img 4 -> reset_rejects img reset_pc_not_24bit
| Reset_odd : 8 <= zlen img <= image_size_limit -> word_at img 4 < 2 ^ 24 -> Z.odd (word_at img 4) = true -> reset_rejects img reset_pc_odd
| Reset_unmapped : 8 <= zlen img <= image_size_limit -> zlen img <= word_at img 4 < 2 ^ 24 -> Z.even (word_at img 4) = true ->
    reset_rejects img reset_pc_unmapped.

(** C22. A Genesis image is accepted exactly when it holds both reset vectors, within
    the size limit, and the second, read big-endian, is an even address inside the
    image; the stack pointer and the entry reported are the two words.  Otherwise the
    diagnostic is the first condition that fails, and no entry is reported. *)
Theorem reset_exact (img : list Z) (Hu : Forall is_u8 img) :
  let report := analyze_genesis_reset_image img in
  match reset_outcome report with
  | reset_accepted => 8 <= zlen img <= image_size_limit /\ Z.even (word_at img 4) = true /\ word_at img 4 < zlen img /\
      reset_diagnostic report = reset_image_accepted /\ initial_ssp report = Some (word_at img 0) /\
      entry_address report = Some (word_at img 4) /\ entry_image_offset report = Some (word_at img 4)
  | reset_rejected => reset_rejects img (reset_diagnostic report) /\ entry_address report = None /\ entry_image_offset report = None
  end.
Proof.
  intros report. subst report. unfold analyze_genesis_reset_image.
  destruct (Z.ltb_spec image_size_limit (zlen img)) as [|Hl]; [split; [by constructor|done]|].
  rewrite !vector_exact by done. change (0 + 4) with 4. change (4 + 4) with 8.
  destruct (Z.leb_spec 4 (zlen img)) as [H4|H4]; [|split; [by constructor|done]].
  destruct (Z.leb_spec 8 (zlen img)) as [H8|H8]; [|split; [by constructor|done]]. cbn [fmap option_fmap option_map].
  rewrite be32_exact by done. pose proof (word_at_range img 4 Hu) as Hw. pose proof (wide_test _ Hw) as Hwide. pose proof (low_bit (word_at img 4)) as Hlow.
  destruct (Z.eqb_spec (word_at img 4 .& 0xff000000)%word 0) as [E|E]; cbn [negb].
  2: { split; [|done]. apply Reset_wide; [done|]. destruct (decide (word_at img 4 < 2 ^ 24)); [tauto|lia]. }
  apply Hwide in E. destruct (Z.eqb_spec (word_at img 4 .& 1)%word 0) as [P|P]; cbn [negb].
  2: { split; [|done]. apply Reset_odd; [done..|]. rewrite <- Z.negb_even. destruct (Z.even _); [tauto|done]. }
  apply Hlow in P. destruct (Z.leb_spec (zlen img) (word_at img 4)) as [Hm|Hm]; [split; [by constructor|done]|].
  split_and!; try done. simpl. by rewrite be32_exact.
Qed.

(** * The region hint, exactly *)

Lemma drop_while_app p a b : forallb p a = true -> drop_while p (a ++ b) = drop_while p b.
Proof. induction a as [|c a IH]; [done|]. simpl. intros [-> H]%andb_true_iff. by apply IH. Qed.

(** The field's text between its padding: it neither begins nor ends with what is trimmed. *)
Definition trimmed (core : list ascii) : Prop :=
  (forall c rest, core = c :: rest -> blank_front c = false) /\ (forall c rest, core = rest ++ [c] -> blank_back c = false).

Lemma trim_exact front core back : trimmed core -> forallb blank_front front = true -> forallb blank_back back = true ->
  trim_field (front ++ core ++ back) = core.
Proof.
  intros [Hfirst Hlast] Hf Hb. unfold trim_field. rewrite app_assoc, rev_app_distr.
  assert (forall (p : ascii -> bool) l, forallb p l = true -> forallb p (rev l) = true) as Hrev.
  { intros p l. rewrite !forallb_forall. intros H x Hx. apply H. by apply in_rev. }
  rewrite drop_while_app, rev_app_distr by (by apply Hrev).
  assert (drop_while blank_back (rev core ++ rev front) = if bool_decide (core = []) then [] else rev core ++ rev front) as ->.
  { destruct core as [|c core _] using rev_ind; simpl.
    - rewrite <- (app_nil_r (rev front)), drop_while_app; [done|]. apply Hrev. rewrite forallb_forall in *. intros x Hx.
      unfold blank_back. by rewrite (Hf x Hx).
    - rewrite bool_decide_eq_false_2 by (by destruct core). rewrite rev_app_distr. simpl. by rewrite (Hlast c core). }
  case_bool_decide as Hc; [by subst|]. rewrite <- rev_app_distr, rev_involutive, drop_while_app by done.
  destruct core as [|c rest]; [done|]. simpl. by rewrite (Hfirst c rest).
Qed.

(** The field declares a country by its letter, or by a bit of its first hexadecimal digit. *)
Definition lettered (core : list ascii) : Prop := "J"%char ∈ core \/ "U"%char ∈ core \/ "E"%char ∈ core.
Definition declares (core : list ascii) (letter : ascii) (bit : Z) : Prop :=
  (lettered core /\ letter ∈ core) \/
  (~ lettered core /\ Forall (fun c => is_hex_char c = true) core /\ exists d rest, core = d :: rest /\ Z.testbit (hex_value d) bit = true).

Lemma char_in_one letter core : existsb (char_in (String letter "")) core = true <-> letter ∈ core.
Proof.
  rewrite existsb_exists, list_elem_of_In. unfold char_in. simpl. split.
  - intros (c & Hc & H). rewrite orb_false_r in H. by apply Ascii.eqb_eq in H as ->.
  - intros H. exists letter. by rewrite Ascii.eqb_refl.
Qed.

Lemma char_in_three core : existsb (char_in "JUE") core = true <-> lettered core.
Proof.
  unfold lettered. rewrite <- !char_in_one, !existsb_exists. unfold char_in. simpl. split.
  - intros (c & Hc & H). rewrite !orb_true_iff in H. destruct H as [H|[H|[H|]]]; [left|right; left|right; right|done];
      exists c; by rewrite H.
  - intros [(c & Hc & H)|[(c & Hc & H)|(c & Hc & H)]]; exists c; rewrite orb_false_r in H; rewrite H, ?orb_true_r; done.
Qed.

(** One country of the decision. *)
Definition country (core : list ascii) (letter : ascii) (bit : Z) : bool :=
  if existsb (char_in "JUE") core then existsb (char_in (String letter "")) core
  else match core with
       | [] => false
       | d :: _ => if forallb is_hex_char core then negb (hex_value d .& 2 ^ bit =? 0)%word else false
       end.

Lemma country_exact core letter bit : 0 <= bit -> country core letter bit = true <-> declares core letter bit.
Proof.
  intros Hb. unfold country, declares. pose proof (char_in_three core) as H3. pose proof (char_in_one letter core) as H1.
  destruct (existsb (char_in "JUE") core); [rewrite H1; tauto|].
  assert (~ lettered core) as Hn by (intros ?; by apply H3 in H). destruct core as [|d rest].
  - split; [done|]. intros [[? _]|(_ & _ & d & rest & H & _)]; done.
  - rewrite bit_test by done. destruct (forallb is_hex_char (d :: rest)) eqn:Hh.
    + rewrite forallb_forall in Hh. split.
      * intros Ht. right. split_and!; [done| |by eauto]. rewrite Forall_forall. intros x Hx. apply Hh. by apply list_elem_of_In.
      * intros [[? _]|(_ & _ & d' & rest' & H & Ht)]; [done|]. by simplify_eq.
    + split; [done|]. intros [[? _]|(_ & Hf & _)]; [done|]. rewrite Forall_forall in Hf. enough (forallb is_hex_char (d :: rest) = true) by congruence. apply forallb_forall.
      intros x Hx. apply Hf. by apply list_elem_of_In.
Qed.

Lemma hint_countries core : core <> ["E"%char] -> trimmed core ->
  genesis_region_hint core =
  mkHint (if country core "U" 2 then "usa" else if country core "J" 0 then "japan" else if country core "E" 3 then "europe" else "usa") false.
Proof.
  intros HE Hcore. unfold genesis_region_hint. pose proof (trim_exact [] core [] Hcore ltac:(done) ltac:(done)) as Ht.
  cbn [app] in Ht. rewrite app_nil_r in Ht. rewrite Ht. rewrite bool_decide_eq_false_2.
  - unfold country. destruct (existsb _ core); [done|]. destruct core as [|d rest]; [done|]. by destruct (forallb _ _).
  - intros H. apply HE. apply (f_equal String.list_ascii_of_string) in H. by rewrite String.list_ascii_of_string_of_list_ascii in H.
Qed.

Lemma hint_text front core back : trimmed core -> forallb blank_front front = true -> forallb blank_back back = true ->
  genesis_region_hint (front ++ core ++ back) = genesis_region_hint core.
Proof.
  intros Hc Hf Hb. unfold genesis_region_hint. rewrite trim_exact by done.
  pose proof (trim_exact [] core [] Hc ltac:(done) ltac:(done)) as Ht. cbn [app] in Ht. rewrite app_nil_r in Ht. by rewrite Ht.
Qed.

(** The region hint of a field is that of its text, whatever blanks and NULs pad
    it: a lone E is ambiguous; otherwise the first country declared of the United
    States, Japan and Europe is the profile, by its letter when the text holds one of
    the three, else by its bit of the first digit of a hexadecimal text; and the
    United States when none is. *)
Theorem region_hint_exact (front core back : list ascii) (Hcore : trimmed core)
  (Hfront : forallb blank_front front = true) (Hback : forallb blank_back back = true) :
  let hint := genesis_region_hint (front ++ core ++ back) in
  (hint_ambiguous hint = true <-> core = ["E"%char]) /\
  (core = ["E"%char] -> hint_profile hint = "usa"%string) /\
  (core <> ["E"%char] ->
    (hint_profile hint = "japan"%string <-> ~ declares core "U" 2 /\ declares core "J" 0) /\
    (hint_profile hint = "europe"%string <-> ~ declares core "U" 2 /\ ~ declares core "J" 0 /\ declares core "E" 3) /\
    (hint_profile hint = "usa"%string <-> declares core "U" 2 \/ (~ declares core "J" 0 /\ ~ declares core "E" 3))).
Proof.
  intros hint. subst hint. rewrite hint_text by done. destruct (decide (core = ["E"%char])) as [->|HE]; [by split_and!|].
  rewrite hint_countries by done. pose proof (country_exact core "U" 2 ltac:(done)) as HU.
  pose proof (country_exact core "J" 0 ltac:(done)) as HJ. pose proof (country_exact core "E" 3 ltac:(done)) as HEu.
  rewrite <- HU, <- HJ, <- HEu. split_and!; [done..|]. intros _.
  destruct (country core "U" 2), (country core "J" 0), (country core "E" 3); simpl; split_and!; split; intuition congruence.
Qed.

(** * Sample images *)

Definition spaces (n : nat) : list Z := replicate n 0x20.

(** A Genesis header, its vectors and its region field. *)
Definition sample_rom : list Z :=
  [0; 0xFF; 0xFE; 0; 0; 0; 2; 0] ++ replicate 0xF8 0 ++ bytes_of mega_drive ++ replicate 16 0 ++ bytes_of "SAMPLE" ++ spaces 42 ++
  replicate 0xA0 0 ++ bytes_of "JUE" ++ spaces 13 ++ [0x4E; 0x71].

Lemma sample_rom_bytes : Forall is_u8 sample_rom.
Proof. by refine (bool_decide_unpack _ _). Qed.

Lemma classification_exact_witness : Forall is_u8 sample_rom /\ outcome (inspect_rom sample_rom) = recognized /\
  domestic_title_display (inspect_rom sample_rom) = "SAMPLE"%string /\
  exists h, complete sample_rom h /\ describes (inspect_rom sample_rom) h.
Proof.
  pose proof (classification_exact sample_rom sample_rom_bytes) as H.
  assert (outcome (inspect_rom sample_rom) = recognized) as Ho by by_evaluation. rewrite Ho in H.
  destruct H as (_ & _ & h & Hc & _ & Hd). split_and!; [apply sample_rom_bytes|done|by_evaluation|by exists h].
Defined.

Lemma reset_exact_witness : Forall is_u8 sample_rom /\ reset_outcome (analyze_genesis_reset_image sample_rom) = reset_accepted /\
  entry_address (analyze_genesis_reset_image sample_rom) = Some 0x200 /\ word_at sample_rom 4 = 0x200.
Proof.
  pose proof (reset_exact sample_rom sample_rom_bytes) as H. cbv zeta in H.
  assert (reset_outcome (analyze_genesis_reset_image sample_rom) = reset_accepted) as Ho by by_evaluation. rewrite Ho in H.
  destruct H as (_ & _ & _ & _ & _ & He & _). assert (word_at sample_rom 4 = 0x200) as Hw by by_evaluation. rewrite Hw in He.
  split_and!; [apply sample_rom_bytes|done|exact He|done].
Defined.

Lemma region_hint_exact_witness :
  trimmed ["4"%char] /\ hint_profile (genesis_region_hint ([" "%char] ++ ["4"%char] ++ [" "%char])) = "usa"%string /\ declares ["4"%char] "U" 2.
Proof.
  assert (trimmed ["4"%char]) as Ht.
  { split; intros c rest H; [by injection H as <- <-|]. destruct rest as [|? [|]]; [by injection H as <-|done..]. }
  destruct (region_hint_exact [" "%char] ["4"%char] [" "%char] Ht eq_refl eq_refl) as (_ & _ & H).
  destruct (H ltac:(done)) as (_ & _ & [H1 _]).
  assert (hint_profile (genesis_region_hint ([" "%char] ++ ["4"%char] ++ [" "%char])) = "usa"%string) as Hp by by_evaluation.
  split_and!; [done..|]. apply country_exact; [done|]. by_evaluation.
Defined.
