(* ===== verification/Z80Runtime.v ===== *)
(** The generated Z80 program's runtime of [z80_runtime.h]: the state, the boundary
    logic between instructions, interrupt responses, halted and prefix-locked time,
    and the guards of code in RAM.

    A host is a record of functions over its context [C], which they return changed;
    flags are [uint8_t] fields of the state and are tested against zero.  The
    execution observer exists only in measurement builds and is left out, as the
    header's own default. *)

From S2P Require Import Prelude.

Inductive Z80Outcome : Type :=
| OUTCOME_NONE | OUTCOME_DEADLINE | OUTCOME_HALTED | OUTCOME_PREFIX_LOCK
| ERROR_NO_OWNER | ERROR_MUTABLE_CODE | ERROR_UNRESOLVED_FETCH_MAPPING | ERROR_UNKNOWN_IMAGE_IDENTITY | ERROR_EXCLUDED_FORM
| ERROR_IM0_UNSUPPORTED_ACKNOWLEDGE_BYTE | ERROR_CODE_MISMATCH | ERROR_UNADMITTED_PC.

Definition outcome_value (o : Z80Outcome) : Z :=
  match o with
  | OUTCOME_NONE => 0 | OUTCOME_DEADLINE => 1 | OUTCOME_HALTED => 2 | OUTCOME_PREFIX_LOCK => 3
  | ERROR_NO_OWNER => 16 | ERROR_MUTABLE_CODE => 17 | ERROR_UNRESOLVED_FETCH_MAPPING => 18 | ERROR_UNKNOWN_IMAGE_IDENTITY => 19
  | ERROR_EXCLUDED_FORM => 20 | ERROR_IM0_UNSUPPORTED_ACKNOWLEDGE_BYTE => 21 | ERROR_CODE_MISMATCH => 22 | ERROR_UNADMITTED_PC => 23
  end.

Definition z80_outcome_is_resumable (o : Z80Outcome) : bool :=
  match o with OUTCOME_DEADLINE | OUTCOME_HALTED | OUTCOME_PREFIX_LOCK => true | _ => false end.
Definition z80_outcome_is_error (o : Z80Outcome) : bool := outcome_value ERROR_NO_OWNER <=? outcome_value o.

Definition z80_outcome_name (o : Z80Outcome) : string :=
  match o with
  | OUTCOME_NONE => "none" | OUTCOME_DEADLINE => "deadline" | OUTCOME_HALTED => "halted" | OUTCOME_PREFIX_LOCK => "prefix_lock"
  | ERROR_NO_OWNER => "no_owner" | ERROR_MUTABLE_CODE => "mutable_code" | ERROR_UNRESOLVED_FETCH_MAPPING => "unresolved_fetch_mapping"
  | ERROR_UNKNOWN_IMAGE_IDENTITY => "unknown_image_identity" | ERROR_EXCLUDED_FORM => "excluded_form"
  | ERROR_IM0_UNSUPPORTED_ACKNOWLEDGE_BYTE => "im0_unsupported_acknowledge_byte" | ERROR_CODE_MISMATCH => "code_mismatch"
  | ERROR_UNADMITTED_PC => "unadmitted_pc"
  end%string.

(** The registers no function of the header changes except the reset. *)
Record Z80File := mkFile {
  a : Z; b : Z; c : Z; d : Z; e : Z; h : Z; l : Z;
  a2 : Z; f2 : Z; b2 : Z; c2 : Z; d2 : Z; e2 : Z; h2 : Z; l2 : Z;
  ix : Z; iy : Z;
}.

Record Z80State := mkState {
  file : Z80File;
  f : Z; sp : Z; pc : Z; wz : Z;
  i : Z; r : Z; im : Z; iff1 : Z; iff2 : Z; q : Z;
  halted : Z; int_deferral : Z; ld_a_ir : Z; in_prefix_run : Z;
  int_line : Z; nmi_pending : Z; nmi_reject : Z;
  cycles : Z; deadline : Z;
}.

Record Z80CodeImage := mkCodeImage { identity : Z; window_base : Z }.

(** [code_image] answers the image or that none is mapped; [code_fetch] may be null and
    otherwise fills the snapshot it is given and says whether it could. *)
Record Z80Host (C : Type) := mkHost {
  read : C -> Z -> Z -> C * Z;
  write : C -> Z -> Z -> Z -> C;
  io_in : C -> Z -> Z -> C * Z;
  io_out : C -> Z -> Z -> Z -> C;
  interrupt_acknowledge : C -> Z -> C * Z;
  code_image : C -> Z -> C * option Z80CodeImage;
  code_fetch : option (C -> Z -> Z -> list Z -> C * list Z * bool);
}.
Arguments mkHost {C} _ _ _ _ _ _ _.
Arguments read {C} _ _ _ _.
Arguments write {C} _ _ _ _ _.
Arguments io_in {C} _ _ _ _.
Arguments io_out {C} _ _ _ _ _.
Arguments code_image {C} _ _ _.
Arguments interrupt_acknowledge {C} _ _ _.
Arguments code_fetch {C} _.

Record Z80Runtime (C : Type) := mkRuntime {
  state : Z80State;
  context : C;
  outcome : Z80Outcome;
  live_code : list Z;
}.
Arguments mkRuntime {C} _ _ _ _.
Arguments state {C} _.
Arguments context {C} _.
Arguments outcome {C} _.
Arguments live_code {C} _.

Definition z80_reset (s : Z80State) : Z80State :=
  mkState (mkFile 0xFF 0xFF 0xFF 0xFF 0xFF 0xFF 0xFF 0xFF 0xFF 0xFF 0xFF 0xFF 0xFF 0xFF 0xFF 0xFFFF 0xFFFF)
    0xFF 0xFFFF 0 0xFFFF 0 0 0 0 0 0 0 0 0 0 0 0 0 0 0.

Definition FLAG_PV : Z := 0x04.

Definition z80_r_add (r count : Z) : Z := u8 ((r .& 0x80) .| (u64 (r + count) .& 0x7F)).

(** [x != 0] *)
Definition set_flag (x : Z) : bool := negb (x =? 0).

(** ** Field updates *)
Definition with_pc (s : Z80State) (v : Z) : Z80State :=
  mkState (file s) (f s) (sp s) v (wz s) (i s) (r s) (im s) (iff1 s) (iff2 s) (q s) (halted s) (int_deferral s) (ld_a_ir s)
    (in_prefix_run s) (int_line s) (nmi_pending s) (nmi_reject s) (cycles s) (deadline s).
Definition with_wz (s : Z80State) (v : Z) : Z80State :=
  mkState (file s) (f s) (sp s) (pc s) v (i s) (r s) (im s) (iff1 s) (iff2 s) (q s) (halted s) (int_deferral s) (ld_a_ir s)
    (in_prefix_run s) (int_line s) (nmi_pending s) (nmi_reject s) (cycles s) (deadline s).
Definition with_sp (s : Z80State) (v : Z) : Z80State :=
  mkState (file s) (f s) v (pc s) (wz s) (i s) (r s) (im s) (iff1 s) (iff2 s) (q s) (halted s) (int_deferral s) (ld_a_ir s)
    (in_prefix_run s) (int_line s) (nmi_pending s) (nmi_reject s) (cycles s) (deadline s).
Definition with_f (s : Z80State) (v : Z) : Z80State :=
  mkState (file s) v (sp s) (pc s) (wz s) (i s) (r s) (im s) (iff1 s) (iff2 s) (q s) (halted s) (int_deferral s) (ld_a_ir s)
    (in_prefix_run s) (int_line s) (nmi_pending s) (nmi_reject s) (cycles s) (deadline s).
Definition with_iffs (s : Z80State) (v1 v2 : Z) : Z80State :=
  mkState (file s) (f s) (sp s) (pc s) (wz s) (i s) (r s) (im s) v1 v2 (q s) (halted s) (int_deferral s) (ld_a_ir s)
    (in_prefix_run s) (int_line s) (nmi_pending s) (nmi_reject s) (cycles s) (deadline s).
Definition with_markers (s : Z80State) (deferral marker : Z) : Z80State :=
  mkState (file s) (f s) (sp s) (pc s) (wz s) (i s) (r s) (im s) (iff1 s) (iff2 s) (q s) (halted s) deferral marker
    (in_prefix_run s) (int_line s) (nmi_pending s) (nmi_reject s) (cycles s) (deadline s).
Definition with_prefix_run (s : Z80State) (v : Z) : Z80State :=
  mkState (file s) (f s) (sp s) (pc s) (wz s) (i s) (r s) (im s) (iff1 s) (iff2 s) (q s) (halted s) (int_deferral s) (ld_a_ir s)
    v (int_line s) (nmi_pending s) (nmi_reject s) (cycles s) (deadline s).
Definition with_nmi (s : Z80State) (pending reject : Z) : Z80State :=
  mkState (file s) (f s) (sp s) (pc s) (wz s) (i s) (r s) (im s) (iff1 s) (iff2 s) (q s) (halted s) (int_deferral s) (ld_a_ir s)
    (in_prefix_run s) (int_line s) pending reject (cycles s) (deadline s).
(** [cycles] and [r] *)
Definition with_time (s : Z80State) (cycles' r' : Z) : Z80State :=
  mkState (file s) (f s) (sp s) (pc s) (wz s) (i s) r' (im s) (iff1 s) (iff2 s) (q s) (halted s) (int_deferral s) (ld_a_ir s)
    (in_prefix_run s) (int_line s) (nmi_pending s) (nmi_reject s) cycles' (deadline s).

Definition z80_accept_common (s : Z80State) : Z80State :=
  mkState (file s) (f s) (sp s) (pc s) (wz s) (i s) (z80_r_add (r s) 1) (im s) (iff1 s) (iff2 s) 0 0 0 0
    (in_prefix_run s) (int_line s) (nmi_pending s) (nmi_reject s) (cycles s) (deadline s).

Section Runtime.
Context {C : Type} (host : Z80Host C).

Definition with_state (rt : Z80Runtime C) (s : Z80State) : Z80Runtime C := mkRuntime s (context rt) (outcome rt) (live_code rt).
Definition with_outcome (rt : Z80Runtime C) (o : Z80Outcome) : Z80Runtime C := mkRuntime (state rt) (context rt) o (live_code rt).

Definition z80_read (rt : Z80Runtime C) (address : Z) : Z80Runtime C * Z :=
  let '(ctx, v) := read host (context rt) address (cycles (state rt)) in (mkRuntime (state rt) ctx (outcome rt) (live_code rt), v).

Definition z80_write (rt : Z80Runtime C) (address value : Z) : Z80Runtime C :=
  mkRuntime (state rt) (write host (context rt) address value (cycles (state rt))) (outcome rt) (live_code rt).

Definition z80_io_in (rt : Z80Runtime C) (port : Z) : Z80Runtime C * Z :=
  let '(ctx, v) := io_in host (context rt) port (cycles (state rt)) in (mkRuntime (state rt) ctx (outcome rt) (live_code rt), v).

Definition z80_io_out (rt : Z80Runtime C) (port value : Z) : Z80Runtime C :=
  mkRuntime (state rt) (io_out host (context rt) port value (cycles (state rt))) (outcome rt) (live_code rt).

Definition z80_read16 (rt : Z80Runtime C) (address : Z) : Z80Runtime C * Z :=
  let '(rt, low) := z80_read rt address in
  let '(rt, high) := z80_read rt (u16 (address + 1)) in
  (rt, u16 (low .| (high .<< 8))).

(** The high byte first, at SP - 1. *)
Definition z80_push16 (rt : Z80Runtime C) (value : Z) : Z80Runtime C :=
  let rt := with_state rt (with_sp (state rt) (u16 (sp (state rt) - 2))) in
  let rt := z80_write rt (u16 (sp (state rt) + 1)) (u8 (value .>> 8)) in
  z80_write rt (sp (state rt)) (u8 value).

(** ** Instruction boundaries inside an owner *)

(** [s->int_line && s->iff1 && !s->int_deferral] *)
Definition int_acceptable (s : Z80State) : bool := set_flag (int_line s) && set_flag (iff1 s) && negb (set_flag (int_deferral s)).

Definition z80_owner_boundary (rt : Z80Runtime C) (p : Z) : Z80Runtime C * bool :=
  let s := state rt in
  if (deadline s <=? cycles s) || set_flag (nmi_pending s) || set_flag (nmi_reject s) || int_acceptable s
  then (with_state rt (with_pc s p), true)
  else (rt, false).

Definition z80_owner_begin (rt : Z80Runtime C) : Z80Runtime C := with_state rt (with_markers (state rt) 0 0).

Definition z80_owner_prologue (rt : Z80Runtime C) (p : Z) : Z80Runtime C * bool :=
  let '(rt, stop) := z80_owner_boundary rt p in
  if stop then (rt, true) else (z80_owner_begin rt, false).

(** ** Code in RAM *)

Definition z80_live_reject (rt : Z80Runtime C) (p : Z) : Z80Runtime C :=
  with_outcome (with_state rt (with_pc (state rt) p)) ERROR_CODE_MISMATCH.

(** The snapshot, if the host can take one. *)
Definition fetch_live (rt : Z80Runtime C) (p length : Z) : Z80Runtime C * bool :=
  match code_fetch host with
  | None => (rt, false)
  | Some fetch =>
      let '(ctx, bytes, ok) := fetch (context rt) p length (live_code rt) in
      (mkRuntime (state rt) ctx (outcome rt) bytes, ok)
  end.

Definition z80_live_is (rt : Z80Runtime C) (length structural : Z) (expected : list Z) : bool :=
  forallb (fun j => negb (negb ((structural .>> j) .& 1 =? 0) && negb (znth (live_code rt) j 0 =? u8 (znth expected j 0)))) (seqZ 0 length).

(** Non-zero ([true]) when the entry must not run. *)
Definition z80_live_guard (rt : Z80Runtime C) (p length structural : Z) (expected : list Z) : Z80Runtime C * bool :=
  let '(rt, ok) := fetch_live rt p length in
  if ok && z80_live_is rt length structural expected then (rt, false) else (z80_live_reject rt p, true).

Definition z80_live_fetch (rt : Z80Runtime C) (p length : Z) : Z80Runtime C * bool :=
  let '(rt, ok) := fetch_live rt p length in if ok then (rt, false) else (z80_live_reject rt p, true).

Definition z80_live_enter (rt : Z80Runtime C) (p : Z) : Z80Runtime C := z80_owner_begin rt.

(** ** Time without instructions *)

(** One M1 cycle of four T-states at a time, up to the deadline. *)
Definition idle_count (s : Z80State) : Z := u64 (u64 (deadline s - cycles s) + 3) / 4.

Definition pass_time (s : Z80State) : Z80State :=
  let count := idle_count s in with_time s (u64 (cycles s + u64 (4 * count))) (z80_r_add (r s) count).

Definition z80_lock_enter (rt : Z80Runtime C) (p : Z) : Z80Runtime C * bool :=
  let s := state rt in
  if set_flag (in_prefix_run s) then
    if cycles s <? deadline s then (rt, false) else (with_state rt (with_pc s p), true)
  else
    let '(rt, stop) := z80_owner_prologue rt p in
    if stop then (rt, true) else (with_state rt (with_prefix_run (state rt) 1), false).

Definition z80_lock_run (rt : Z80Runtime C) (p : Z) : Z80Runtime C :=
  let s := state rt in
  let count := idle_count s in
  with_outcome (with_state rt (with_pc (pass_time s) (u16 (u64 (p + count) .& 0xFFFF)))) OUTCOME_PREFIX_LOCK.

(** ** Interrupts *)

(** [s->pc = s->wz = target], and the T-states of the response. *)
Definition enter_handler (rt : Z80Runtime C) (target t : Z) : Z80Runtime C :=
  let s := state rt in
  with_state rt (with_time (with_wz (with_pc s target) target) (u64 (cycles s + t)) (r s)).

Definition z80_accept_nmi (rt : Z80Runtime C) : Z80Runtime C :=
  let s := with_nmi (state rt) 0 1 in
  let s := z80_accept_common (with_iffs s 0 (iff2 s)) in
  let rt := z80_push16 (with_state rt s) (pc s) in
  enter_handler rt 0x0066 11.

(** [true] on the error. *)
Definition z80_accept_int (rt : Z80Runtime C) : Z80Runtime C * bool :=
  let '(ctx, byte) := interrupt_acknowledge host (context rt) (cycles (state rt)) in
  let rt := mkRuntime (state rt) ctx (outcome rt) (live_code rt) in
  let s := state rt in
  if (im s =? 0) && negb (byte .& 0xC7 =? 0xC7) then (with_outcome rt ERROR_IM0_UNSUPPORTED_ACKNOWLEDGE_BYTE, true)
  else
    let marker := ld_a_ir s in
    let s := with_iffs s 0 0 in
    let s := if set_flag marker then with_f s (u8 (f s .& Z.lnot FLAG_PV)) else s in
    let s := z80_accept_common s in
    let rt := z80_push16 (with_state rt s) (pc s) in
    if im s =? 1 then (enter_handler rt 0x0038 13, false)
    else if im s =? 2 then
      let '(rt, target) := z80_read16 rt (u16 ((i s .<< 8) .| byte)) in
      (enter_handler rt target 19, false)
    else (enter_handler rt (u16 (byte .& 0x38)) 13, false).

(** [1]: return; [2]: evaluate the boundary again; [0]: run the owner at PC. *)
Definition z80_boundary (rt : Z80Runtime C) : Z80Runtime C * Z :=
  let s := state rt in
  if deadline s <=? cycles s then
    (with_outcome rt
       (if set_flag (in_prefix_run s) then OUTCOME_PREFIX_LOCK else if set_flag (halted s) then OUTCOME_HALTED else OUTCOME_DEADLINE), 1)
  else if set_flag (in_prefix_run s) then (rt, 0)
  else
    let idle (rt : Z80Runtime C) :=
      if set_flag (halted (state rt)) then (with_outcome (with_state rt (pass_time (state rt))) OUTCOME_HALTED, 1) else (rt, 0) in
    if set_flag (nmi_reject s) then idle (with_state rt (with_nmi s 0 0))
    else if set_flag (nmi_pending s) then (z80_accept_nmi rt, 2)
    else if int_acceptable s then let '(rt, error) := z80_accept_int rt in (rt, if error then 1 else 2)
    else idle rt.
End Runtime.

(** * Chaining and dispatching agree *)

Lemma flag_true x : set_flag x = true -> x <> 0.
Proof. intros E. by apply negb_true_iff, Z.eqb_neq in E. Qed.

Lemma flag_false x : set_flag x = false -> x = 0.
Proof. intros E. by apply negb_false_iff, Z.eqb_eq in E. Qed.

Lemma with_nmi_same s : with_nmi s 0 0 = s -> nmi_reject s = 0.
Proof. intros E. apply (f_equal nmi_reject) in E. by rewrite <- E. Qed.

Lemma with_state_id {C} (rt : Z80Runtime C) s : with_state rt s = rt -> s = state rt.
Proof. intros E. by rewrite <- E. Qed.

Definition with_deadline (s : Z80State) (v : Z) : Z80State :=
  mkState (file s) (f s) (sp s) (pc s) (wz s) (i s) (r s) (im s) (iff1 s) (iff2 s) (q s) (halted s) (int_deferral s) (ld_a_ir s)
    (in_prefix_run s) (int_line s) (nmi_pending s) (nmi_reject s) (cycles s) v.

Definition null_host : Z80Host unit := 
  mkHost (fun c _ _ => (c, 0)) (fun c _ _ _ => c) (fun c _ _ => (c, 0)) (fun c _ _ _ => c) (fun c _ => (c, 0xFF)) (fun c _ => (c, None)) None.

Definition after_reset : Z80State :=
  z80_reset (mkState (mkFile 0 0 0 0 0 0 0 0 0 0 0 0 0 0 0 0 0) 0 0 0 0 0 0 0 0 0 0 0 0 0 0 0 0 0 0 0).

Section Boundary.
Context {C : Type} (host : Z80Host C).

(** Chaining directly is dispatching.  At a boundary of running code the prologue of
    an owner lets the next instruction start exactly when the dispatcher, at the same
    PC, would look up its owner with nothing changed; otherwise it changes nothing
    but PC and leaves the boundary to the dispatcher. *)
Theorem owner_chain_exact (rt : Z80Runtime C) (p : Z) (Hhalted : halted (state rt) = 0) (Hprefix : in_prefix_run (state rt) = 0) :
  let at_p := with_state rt (with_pc (state rt) p) in
  let '(rt', stop) := z80_owner_boundary rt p in
  (stop = false <-> z80_boundary host at_p = (at_p, 0)) /\ rt' = (if stop then at_p else rt).
Proof.
  cbv zeta. set (at_p := with_state rt (with_pc (state rt) p)).
  assert (Hb : z80_boundary host at_p = (at_p, 0) <->
    (deadline (state rt) <=? cycles (state rt)) || set_flag (nmi_pending (state rt)) || set_flag (nmi_reject (state rt)) ||
      int_acceptable (state rt) = false).
  { unfold z80_boundary. cbv zeta. change (int_acceptable (state at_p)) with (int_acceptable (state rt)).
    change (deadline (state at_p)) with (deadline (state rt)). change (cycles (state at_p)) with (cycles (state rt)).
    change (in_prefix_run (state at_p)) with (in_prefix_run (state rt)). change (halted (state at_p)) with (halted (state rt)).
    change (nmi_reject (state at_p)) with (nmi_reject (state rt)). change (nmi_pending (state at_p)) with (nmi_pending (state rt)).
    rewrite Hprefix. change (set_flag 0) with false. destruct (deadline (state rt) <=? cycles (state rt)); cbn [orb].
    { split; intros E; discriminate E. }
    destruct (set_flag (nmi_reject (state rt))) eqn:Er; [rewrite orb_true_r; cbn [orb]|].
    - split; [|intros E; discriminate E]. change (halted (state (with_state at_p _))) with (halted (state rt)). rewrite Hhalted.
      change (set_flag 0) with false. cbv iota.
      intros E. apply (f_equal fst) in E. cbn [fst] in E. apply with_state_id, with_nmi_same in E. cbn in E. rewrite E in Er. discriminate Er.
    - destruct (set_flag (nmi_pending (state rt))); cbn [orb].
      { split; [intros E; apply (f_equal snd) in E|intros E]; discriminate E. }
      destruct (int_acceptable (state rt)).
      + split; [|intros E; discriminate E]. destruct (z80_accept_int host at_p) as [rt' []]; intros E; apply (f_equal snd) in E; discriminate E.
      + rewrite Hhalted. change (set_flag 0) with false. done. }
  unfold z80_owner_boundary. cbv zeta. destruct (_ || _); (split; [rewrite Hb; split; intros E; (done || discriminate E)|done]).
Qed.

(** * The boundary settles *)

(** [while ((answer = z80_boundary(rt)) == 2)]: the answer that ends it. *)
Fixpoint settle (fuel : nat) (rt : Z80Runtime C) : option (Z80Runtime C * Z) :=
  match fuel with
  | O => None
  | S fuel => let '(rt, answer) := z80_boundary host rt in if answer =? 2 then settle fuel rt else Some (rt, answer)
  end.

Lemma push_state (rt : Z80Runtime C) v : state (z80_push16 host rt v) = with_sp (state rt) (u16 (sp (state rt) - 2)).
Proof. done. Qed.

Lemma read16_state (rt : Z80Runtime C) x : state (z80_read16 host rt x).1 = state rt.
Proof.
  unfold z80_read16, z80_read. destruct (read host (context rt) x (cycles (state rt))) as [ctx low]. cbn [state context].
  by destruct (read host ctx (u16 (x + 1)) (cycles (state rt))).
Qed.

Lemma accept_int_flags (rt rt' : Z80Runtime C) : z80_accept_int host rt = (rt', false) ->
  iff1 (state rt') = 0 /\ nmi_pending (state rt') = nmi_pending (state rt) /\ nmi_reject (state rt') = nmi_reject (state rt).
Proof.
  unfold z80_accept_int. destruct (interrupt_acknowledge _ _ _) as [ctx byte]. cbv zeta. destruct (_ && _); [intros E; discriminate E|].
  set (s1 := if set_flag _ then _ else _). assert (H1 : iff1 s1 = 0 /\ nmi_pending s1 = nmi_pending (state rt) /\ nmi_reject s1 = nmi_reject (state rt))
    by (unfold s1; by destruct (set_flag _)).
  clearbody s1. destruct (_ =? 1); [intros E; injection E as <-; exact H1|]. destruct (_ =? 2); [|intros E; injection E as <-; exact H1].
  match goal with |- context [z80_read16 host ?r ?x] => pose proof (read16_state r x) as Hs; destruct (z80_read16 host r x) as [rt2 target] end.
  intros E. injection E as <-. cbn [fst] in Hs. unfold enter_handler. cbn [state with_state]. rewrite Hs. exact H1.
Qed.

(** Interrupt responses settle.  Whatever the state and the host, one response at
    most precedes an instruction or a return: a response to INT is given only without
    a pending NMI and leaves interrupts disabled, one to NMI discards the next edge,
    so the dispatcher's loop over the boundary ends by its second turn. *)
Theorem boundary_settles (rt : Z80Runtime C) : exists rt' answer, settle 2 rt = Some (rt', answer) /\ (answer = 0 \/ answer = 1).
Proof.
  (* what a boundary can answer *)
  assert (Hb : forall rt, exists rt' x, z80_boundary host rt = (rt', x) /\
    (x = 0 \/ x = 1 \/ x = 2 /\ nmi_reject (state rt) = 0 /\
      ((nmi_reject (state rt') = 1 /\ nmi_pending (state rt) <> 0) \/
       (nmi_pending (state rt) = 0 /\ int_acceptable (state rt) = true /\ iff1 (state rt') = 0 /\ nmi_pending (state rt') = 0)))).
  { clear. intros rt. unfold z80_boundary. cbv zeta. destruct (_ <=? _); [eexists _, _; split; [done|auto]|].
    destruct (set_flag (in_prefix_run (state rt))); [eexists _, _; split; [done|auto]|].
    destruct (set_flag (nmi_reject (state rt))) eqn:Er.
    { destruct (set_flag (halted (state (with_state rt (with_nmi (state rt) 0 0))))); eexists _, _; (split; [done|auto]). }
    destruct (set_flag (nmi_pending (state rt))) eqn:Ep; apply flag_false in Er.
    { apply flag_true in Ep. eexists _, _. split; [done|]. right. right. split; [done|]. split; [done|]. left. split; [reflexivity|done]. }
    apply flag_false in Ep.
    destruct (int_acceptable (state rt)) eqn:Ei.
    - destruct (z80_accept_int host rt) as [rt' []] eqn:Ea; eexists _, _; (split; [done|auto]).
      right. right. destruct (accept_int_flags rt rt' Ea) as (H1 & H2 & _). split; [done|]. split; [done|]. right. by rewrite H2.
    - destruct (set_flag (halted (state rt))); eexists _, _; (split; [done|auto]). }
  cbn [settle]. destruct (Hb rt) as (rt1 & x1 & -> & H1). destruct H1 as [-> | [-> | (-> & Hr0 & Hc)]]; [by eexists _, _; split; [|left]|by eexists _, _; split; [|right]|].
  cbn [Z.eqb Pos.eqb]. destruct (Hb rt1) as (rt2 & x2 & -> & H2). destruct H2 as [-> | [-> | (-> & Hr1 & Hc1)]]; [by eexists _, _; split; [|left]|by eexists _, _; split; [|right]|].
  destruct Hc as [[Hr _]|(_ & _ & Hiff & Hp)]; [lia|]. destruct Hc1 as [[Hr2 Hp1]|(_ & Hacc & _)]; [lia|].
  unfold int_acceptable in Hacc. rewrite Hiff in Hacc. change (set_flag 0) with false in Hacc. by rewrite andb_false_r in Hacc.
Qed.
End Boundary.

Lemma owner_chain_exact_witness :
  let rt := mkRuntime (with_deadline after_reset 1) tt OUTCOME_NONE [0; 0; 0; 0] in
  let '(rt', stop) := z80_owner_boundary rt 0x0102 in
  (stop = false <-> z80_boundary null_host (with_state rt (with_pc (state rt) 0x0102)) = (with_state rt (with_pc (state rt) 0x0102), 0)) /\
  rt' = (if stop then with_state rt (with_pc (state rt) 0x0102) else rt).
Proof. intros rt. exact (owner_chain_exact null_host rt 0x0102 eq_refl eq_refl). Defined.

(** * Halted time *)

(** A run of the dispatcher with a deadline, of a CPU that executes nothing. *)
Definition run_to {C} (host : Z80Host C) (rt : Z80Runtime C) (d : Z) : Z80Runtime C :=
  (z80_boundary host (with_state rt (with_deadline (state rt) d))).1.

(** A halted CPU that no interrupt wakes. *)
Record idle (s : Z80State) : Prop := {
  idle_halted : halted s <> 0;
  idle_prefix : in_prefix_run s = 0;
  idle_nmi : nmi_pending s = 0;
  idle_reject : nmi_reject s = 0;
  idle_int : int_acceptable s = false;
  idle_r : is_u8 (r s);
  idle_cycles : 0 <= cycles s < 2 ^ 64;
}.

Lemma bit7_exact x : is_u8 x -> x .& 0x80 = 128 * (x / 128).
Proof.
  intros Hx. assert (H : forall y, 0 <= y < 256 -> (y .& 0x80 =? 128 * (y / 128)) = true) by (apply seqZ_forallb; by_evaluation).
  by apply Z.eqb_eq, H.
Qed.

Lemma r_add_exact x count : is_u8 x -> 0 <= count -> x + count < 2 ^ 64 ->
  z80_r_add x count = 128 * (x / 128) + (x + count) mod 128.
Proof.
  intros Hx Hc Hfit. pose proof Hx as Hx'. unfold is_u8 in Hx'. unfold z80_r_add. rewrite bit7_exact, u64_id by (done || (unfold is_u64; lia)).
  rewrite (land_ones_mod _ 7) by lia. change (2 ^ 7) with 128. pose proof (Z.mod_pos_bound (x + count) 128 ltac:(lia)).
  replace (128 * (x / 128) .| (x + count) mod 128) with (((x / 128) .<< 7) .| (x + count) mod 128)
    by (rewrite Z.shiftl_mul_pow2 by lia; f_equal; change (2 ^ 7) with 128; lia).
  rewrite shiftl_lor by lia. change (2 ^ 7) with 128.
  apply u8_id. unfold is_u8. Z.to_euclidean_division_equations; lia.
Qed.

(** The whole M1 cycles up to a deadline. *)
Definition idle_cycles_to (c d : Z) : Z := Z.max 0 ((d - c + 3) / 4).

Lemma run_to_exact {C} (host : Z80Host C) rt d : idle (state rt) -> d <= 2 ^ 64 - 4 ->
  let s := state rt in
  let n := idle_cycles_to (cycles s) d in
  run_to host rt d = with_outcome (with_state rt (with_time (with_deadline s d) (cycles s + 4 * n) (128 * (r s / 128) + (r s + n) mod 128))) OUTCOME_HALTED.
Proof.
  intros [Hh Hp Hn Hr Hi Hr8 Hc] Hd s n. unfold run_to, z80_boundary. cbv zeta.
  change (int_acceptable (state (with_state rt (with_deadline (state rt) d)))) with (int_acceptable (state rt)).
  cbn [with_state state with_deadline deadline cycles in_prefix_run nmi_reject nmi_pending halted].
  fold s in Hh, Hp, Hn, Hr, Hi, Hr8, Hc |- *. rewrite Hp, Hn, Hr, Hi. change (set_flag 0) with false.
  assert (Hf : set_flag (halted s) = true) by (by apply negb_true_iff, Z.eqb_neq). rewrite Hf.
  unfold is_u8 in Hr8. pose proof (Z.div_mod (r s) 128 ltac:(lia)) as Hdm.
  destruct (Z.leb_spec d (cycles s)) as [Hle|Hlt].
  - assert (En : n = 0) by (unfold n, idle_cycles_to; Z.to_euclidean_division_equations; lia).
    cbn [fst]. rewrite En, Z.mul_0_r, !Z.add_0_r, <- Hdm. destruct rt as [s0 ctx o live]. unfold s. by destruct s0.
  - assert (En : idle_count (with_deadline s d) = n).
    { unfold idle_count, n, idle_cycles_to. cbn [deadline cycles with_deadline]. rewrite (u64_id (d - cycles s)), u64_id by (unfold is_u64; lia).
      pose proof (Z.div_pos (d - cycles s + 3) 4 ltac:(lia) ltac:(lia)). lia. }
    assert (Hn' : 0 <= n /\ cycles s + 4 * n <= d + 3) by (unfold n, idle_cycles_to; Z.to_euclidean_division_equations; lia).
    cbn [fst]. unfold pass_time. cbv zeta. rewrite En. cbn [cycles r with_deadline].
    rewrite (u64_id (4 * n)), (u64_id (cycles s + 4 * n)) by (unfold is_u64; lia). rewrite r_add_exact by (done || (unfold is_u8; lia) || lia).
    destruct rt as [s0 ctx o live]. reflexivity.
Qed.

Lemma idle_after {C} (host : Z80Host C) rt d : idle (state rt) -> d <= 2 ^ 64 - 4 -> idle (state (run_to host rt d)).
Proof.
  intros H Hd. rewrite run_to_exact by done. destruct H as [Hh Hp Hn Hr Hi Hr8 Hc]. cbn [with_outcome with_state state].
  split; cbn [with_time with_deadline halted in_prefix_run nmi_pending nmi_reject r cycles]; try done.
  - unfold is_u8 in *. pose proof (Z.mod_pos_bound (r (state rt) + idle_cycles_to (cycles (state rt)) d) 128 ltac:(lia)).
    Z.to_euclidean_division_equations; lia.
  - unfold idle_cycles_to. Z.to_euclidean_division_equations; lia.
Qed.

Lemma run_to_twice {C} (host : Z80Host C) rt d1 d2 : idle (state rt) -> d1 <= d2 -> d2 <= 2 ^ 64 - 4 ->
  run_to host (run_to host rt d1) d2 = run_to host rt d2.
Proof.
  intros H H12 H2. assert (H1 : d1 <= 2 ^ 64 - 4) by lia. rewrite (run_to_exact host (run_to host rt d1) d2) by (done || by apply idle_after).
  rewrite !run_to_exact by done. destruct H as [_ _ _ _ _ Hr8 Hc]. unfold is_u8 in Hr8. destruct rt as [s ctx o live]. cbn [state] in *.
  set (n1 := idle_cycles_to (cycles s) d1). set (n := idle_cycles_to (cycles s) d2). cbn [with_outcome with_state state context live_code with_time with_deadline cycles r].
  assert (En : idle_cycles_to (cycles s + 4 * n1) d2 = n - n1) by (unfold n1, n, idle_cycles_to; Z.to_euclidean_division_equations; lia).
  rewrite En. unfold with_outcome, with_state, with_time, with_deadline. cbn. f_equal. f_equal; [|lia].
  assert (Hhigh : (128 * (r s / 128) + (r s + n1) mod 128) / 128 = r s / 128) by (Z.to_euclidean_division_equations; lia).
  rewrite Hhigh. f_equal.
  replace (128 * (r s / 128) + (r s + n1) mod 128 + (n - n1)) with ((r s + n1) mod 128 + (n - n1) + (r s / 128) * 128) by lia.
  rewrite Z.mod_add, Zplus_mod_idemp_l by lia. f_equal. lia.
Qed.

(** Slicing the time of a halted CPU changes nothing.  Running it through any
    deadlines up to [d] and then to [d] is running it to [d] at once: the same
    T-states, the same refresh register, the same outcome. *)
Theorem idle_slices {C} (host : Z80Host C) (rt : Z80Runtime C) (deadlines : list Z) (d : Z) (H : idle (state rt))
    (Hbefore : Forall (fun x => x <= d) deadlines) (Hd : d <= 2 ^ 64 - 4) :
  run_to host (fold_left (run_to host) deadlines rt) d = run_to host rt d.
Proof.
  revert rt H. induction Hbefore as [|x deadlines Hx _ IH]; intros rt H; [done|]. cbn [fold_left].
  rewrite IH by (apply idle_after; (done || lia)). apply run_to_twice; (done || lia).
Qed.

Definition halted_state : Z80State :=
  with_time (mkState (file after_reset) 0xFF 0xDFF0 0x0101 0 0 0x7E 1 0 0 0 1 0 0 0 0 0 0 0 0) 10 0xFE.

Lemma idle_slices_witness :
  let rt := mkRuntime halted_state tt OUTCOME_NONE [0; 0; 0; 0] in
  run_to null_host (fold_left (run_to null_host) [11; 30; 12] rt) 100 = run_to null_host rt 100 /\
  cycles (state (run_to null_host rt 100)) = 102 /\ r (state (run_to null_host rt 100)) = 0x95.
Proof.
  intros rt. split; [|split; by_evaluation]. apply idle_slices; [|repeat (constructor; [lia|]); constructor|lia].
  split; cbn; try lia; try done.
Defined.

(** * Interrupt responses *)

(** A response as the Z80's manual lays it out: the host's context after the bus
    cycles of the response, and, unless the acknowledge byte cannot be taken, the
    handler's address, the T-states and the two interrupt flip-flops. *)
Record Z80Response (C : Type) := mkResponse {
  response_context : C;
  response_entry : option (Z * Z * Z * Z);
}.
Arguments mkResponse {C} _ _.
Arguments response_context {C} _.
Arguments response_entry {C} _.

(** What the types of the host's functions say: their answers are [uint8_t]. *)
Record answers_bytes {C} (host : Z80Host C) : Prop := {
  read_byte ctx x t : is_u8 (read host ctx x t).2;
  acknowledge_byte ctx t : is_u8 (interrupt_acknowledge host ctx t).2;
}.

Section Response.
Context {C : Type} (host : Z80Host C).

(** PC stacked below SP, its high byte first. *)
Definition pc_stacked (ctx : C) (s : Z80State) : C :=
  let t := cycles s in
  write host (write host ctx ((sp s - 1) mod 65536) (pc s / 256) t) ((sp s - 2) mod 65536) (pc s mod 256) t.

(** The bus cycles of a response, in their order and all at the time of the boundary:
    NMI stacks PC; INT acknowledges once, then stacks PC, and IM2 then reads the
    handler's address from the table, its low byte first. *)
Definition response_of (ctx : C) (s : Z80State) : Z80Response C :=
  let t := cycles s in
  if set_flag (nmi_pending s) then mkResponse (pc_stacked ctx s) (Some (0x66, 11, 0, iff2 s))
  else
    let '(ctx, byte) := interrupt_acknowledge host ctx t in
    match im s with
    | 0 => if (byte mod 8 =? 7) && (byte / 64 =? 3) then mkResponse (pc_stacked ctx s) (Some (byte / 8 mod 8 * 8, 13, 0, 0))
           else mkResponse ctx None
    | 1 => mkResponse (pc_stacked ctx s) (Some (0x38, 13, 0, 0))
    | _ =>
        let '(ctx, low) := read host (pc_stacked ctx s) (256 * i s + byte) t in
        let '(ctx, high) := read host ctx ((256 * i s + byte + 1) mod 65536) t in
        mkResponse ctx (Some (low + 256 * high, 19, 0, 0))
    end.

(** A running CPU at a boundary where an interrupt is due. *)
Record due (s : Z80State) : Prop := {
  due_time : 0 <= cycles s < deadline s;
  due_fit : cycles s + 19 < 2 ^ 64;
  due_prefix : in_prefix_run s = 0;
  due_reject : nmi_reject s = 0;
  due_request : nmi_pending s <> 0 \/ int_acceptable s = true;
  due_mode : 0 <= im s <= 2;
  due_words : is_u16 (pc s) /\ is_u16 (sp s);
  due_bytes : is_u8 (r s) /\ is_u8 (i s) /\ is_u8 (f s);
}.

(** The CPU at the entry of a handler: R one further, the markers of the last
    instruction cleared, awake, the request of an NMI consumed and its next edge
    rejected, P/V lost to an INT right after LD A,I or LD A,R. *)
Definition at_handler (s : Z80State) (target t iff1' iff2' : Z) : Z80State :=
  let nmi := set_flag (nmi_pending s) in
  mkState (file s) (if negb nmi && set_flag (ld_a_ir s) then f s - f s / 4 mod 2 * 4 else f s) ((sp s - 2) mod 65536)
    target target (i s) (128 * (r s / 128) + (r s + 1) mod 128) (im s) iff1' iff2' 0 0 0 0 0 (int_line s) 0
    (if nmi then 1 else 0) (cycles s + t) (deadline s).

Lemma r_step x : is_u8 x -> z80_r_add x 1 = 128 * (x / 128) + (x + 1) mod 128.
Proof. intros Hx. apply r_add_exact; [done|lia|unfold is_u8 in Hx; lia]. Qed.

Lemma pc_high_byte v : is_u16 v -> u8 (v .>> 8) = v / 256.
Proof.
  intros Hv. rewrite Z.shiftr_div_pow2 by lia. change (2 ^ 8) with 256. unfold u8, is_u16 in *.
  apply Z.mod_small. Z.to_euclidean_division_equations; lia.
Qed.

Lemma push_context (rt : Z80Runtime C) s v : state rt = s -> v = pc s -> is_u16 (pc s) ->
  z80_push16 host rt v = mkRuntime (with_sp s ((sp s - 2) mod 65536)) (pc_stacked (context rt) s) (outcome rt) (live_code rt).
Proof.
  intros Es -> Hpc. unfold z80_push16, z80_write, pc_stacked. cbn [state context outcome live_code with_state with_sp sp cycles].
  rewrite Es. cbn [with_sp sp cycles pc]. rewrite (pc_high_byte _ Hpc).
  assert (E : u16 (u16 (sp s - 2) + 1) = (sp s - 1) mod 65536).
  { unfold u16. rewrite Zplus_mod_idemp_l. f_equal. lia. }
  by rewrite E.
Qed.

Lemma read16_exact rt x : answers_bytes host ->
  z80_read16 host rt x =
    let '(ctx, low) := read host (context rt) x (cycles (state rt)) in
    let '(ctx, high) := read host ctx ((x + 1) mod 65536) (cycles (state rt)) in
    (mkRuntime (state rt) ctx (outcome rt) (live_code rt), low + 256 * high).
Proof.
  intros Hb. unfold z80_read16, z80_read. pose proof (read_byte host Hb (context rt) x (cycles (state rt))) as H1.
  destruct (read host (context rt) x (cycles (state rt))) as [ctx low]. cbn [state context snd] in *. unfold u16 at 1.
  pose proof (read_byte host Hb ctx ((x + 1) mod 65536) (cycles (state rt))) as H2.
  destruct (read host ctx ((x + 1) mod 65536) (cycles (state rt))) as [ctx' high]. cbn [state context outcome live_code snd] in *.
  f_equal. unfold is_u8 in *. rewrite Z.lor_comm, shiftl_lor by (lia || (change (2 ^ 8) with 256; lia)). change (2 ^ 8) with 256.
  rewrite u16_id by (unfold is_u16; lia). lia.
Qed.

(** Clearing bit 2, and the two fields of an RST opcode. *)
Lemma flags_without_pv x : is_u8 x -> u8 (x .& Z.lnot FLAG_PV) = x - x / 4 mod 2 * 4.
Proof. intros Hx. apply Z.eqb_eq. revert x Hx. apply (seqZ_forallb (fun x => _ =? _)). by vm_compute. Qed.

Lemma rst_acknowledge x : is_u8 x -> (x .& 0xC7 =? 0xC7) = (x mod 8 =? 7) && (x / 64 =? 3).
Proof. intros Hx. apply eqb_true_iff. revert x Hx. apply (seqZ_forallb (fun x => eqb _ _)). by vm_compute. Qed.

Lemma rst_target x : is_u8 x -> u16 (x .& 0x38) = x / 8 mod 8 * 8.
Proof. intros Hx. apply Z.eqb_eq. revert x Hx. apply (seqZ_forallb (fun x => _ =? _)). by vm_compute. Qed.

(** The entry of the handler after the push. *)
Lemma nmi_response (rt : Z80Runtime C) : due (state rt) -> nmi_pending (state rt) <> 0 ->
  z80_accept_nmi host rt =
    mkRuntime (at_handler (state rt) 0x66 11 0 (iff2 (state rt))) (pc_stacked (context rt) (state rt)) (outcome rt) (live_code rt).
Proof.
  intros [Ht Hf Hp _ _ _ [Hpc _] [Hr _]] Hn. unfold z80_accept_nmi. cbv zeta.
  set (s := z80_accept_common _). rewrite (push_context (with_state rt s) s) by done.
  assert (E : pc_stacked (context (with_state rt s)) s = pc_stacked (context rt) (state rt)) by done.
  rewrite E. unfold enter_handler, with_state. cbn [state context outcome live_code]. f_equal.
  assert (En : set_flag (nmi_pending (state rt)) = true) by (apply negb_true_iff, Z.eqb_neq; exact Hn).
  unfold at_handler. rewrite En. clear -Ht Hf Hp Hr. unfold s. clear s. destruct (state rt).
  cbn [r cycles deadline in_prefix_run] in *. subst. cbn -[Z.div Z.modulo Z.mul Z.sub z80_r_add u64 Z.add].
  by rewrite (r_step _ Hr), u64_id by (unfold is_u64; lia).
Qed.

(** The state an INT response pushes from. *)
Definition int_common (s : Z80State) : Z80State :=
  z80_accept_common (if set_flag (ld_a_ir s) then with_f (with_iffs s 0 0) (u8 (f s .& Z.lnot FLAG_PV)) else with_iffs s 0 0).

Lemma int_entry (rt : Z80Runtime C) s target t : due s -> nmi_pending s = 0 -> 0 <= t <= 19 ->
  state rt = with_sp (int_common s) ((sp s - 2) mod 65536) ->
  enter_handler rt target t = mkRuntime (at_handler s target t 0 0) (context rt) (outcome rt) (live_code rt).
Proof.
  intros [Hc Hf Hp Hrej _ _ _ (Hr & _ & Hflags)] Hn Ht Es. unfold enter_handler, with_state. rewrite Es. f_equal.
  unfold at_handler. rewrite Hn. change (set_flag 0) with false. cbn [negb andb]. unfold int_common.
  rewrite flags_without_pv by exact Hflags. clear Es. destruct s.
  cbn [r cycles f deadline in_prefix_run nmi_pending nmi_reject ld_a_ir] in *. subst.
  destruct (set_flag ld_a_ir0); cbn -[Z.div Z.modulo Z.mul Z.sub z80_r_add u64 Z.add];
    by rewrite (r_step _ Hr), u64_id by (unfold is_u64; lia).
Qed.

Lemma int_pushed (rt : Z80Runtime C) ctx : is_u16 (pc (state rt)) ->
  z80_push16 host (mkRuntime (int_common (state rt)) ctx (outcome rt) (live_code rt)) (pc (int_common (state rt))) =
    mkRuntime (with_sp (int_common (state rt)) ((sp (state rt) - 2) mod 65536)) (pc_stacked ctx (state rt)) (outcome rt) (live_code rt).
Proof.
  intros Hpc. assert (E : pc (int_common (state rt)) = pc (state rt) /\ sp (int_common (state rt)) = sp (state rt) /\
    pc_stacked ctx (int_common (state rt)) = pc_stacked ctx (state rt))
    by (unfold int_common; by destruct (set_flag _)).
  destruct E as (Epc & Esp & Ec). rewrite (push_context _ (int_common (state rt))); [|done|done|by rewrite Epc].
  cbn [context outcome live_code]. by rewrite Ec, Esp.
Qed.

Lemma int_cases (rt : Z80Runtime C) : answers_bytes host -> due (state rt) -> nmi_pending (state rt) = 0 ->
  z80_accept_int host rt =
    let s := state rt in let answer := response_of (context rt) s in
    match response_entry answer with
    | Some (target, t, iff1', iff2') =>
        (mkRuntime (at_handler s target t iff1' iff2') (response_context answer) (outcome rt) (live_code rt), false)
    | None => (mkRuntime s (response_context answer) ERROR_IM0_UNSUPPORTED_ACKNOWLEDGE_BYTE (live_code rt), true)
    end.
Proof.
  intros Hb H Hn. cbv zeta. unfold z80_accept_int, response_of. rewrite Hn. change (set_flag 0) with false. cbv zeta iota.
  pose proof (acknowledge_byte host Hb (context rt) (cycles (state rt))) as Hbyte.
  destruct (interrupt_acknowledge host (context rt) (cycles (state rt))) as [ctx byte]. cbn [snd] in Hbyte. cbn [state context outcome live_code].
  rewrite (rst_acknowledge byte Hbyte), (rst_target byte Hbyte). unfold with_state. cbn [state context outcome live_code].
  set (s1 := z80_accept_common _). assert (E1 : s1 = int_common (state rt)) by reflexivity. rewrite E1. clear s1 E1.
  pose proof (due_mode _ H) as Him. destruct (due_words _ H) as [Hpc _].
  assert (Ei : im (int_common (state rt)) = im (state rt) /\ i (int_common (state rt)) = i (state rt))
    by (unfold int_common; by destruct (set_flag _)). destruct Ei as [-> ->]. rewrite (int_pushed rt ctx Hpc).
  assert (Hm : im (state rt) = 0 \/ im (state rt) = 1 \/ im (state rt) = 2) by lia.
  destruct Hm as [E|[E|E]]; rewrite E; cbn [Z.eqb Pos.eqb andb].
  - destruct (_ && _); cbn [negb response_entry response_context]; [|done]. by rewrite (int_entry _ (state rt)) by (done || lia).
  - cbn [response_entry response_context]. by rewrite (int_entry _ (state rt)) by (done || lia).
  - rewrite read16_exact by done. cbn [state context outcome live_code with_sp cycles]. destruct (due_bytes _ H) as (_ & Hi & _).
    assert (Ex : u16 ((i (state rt) .<< 8) .| byte) = 256 * i (state rt) + byte).
    { unfold is_u8 in *. rewrite (shiftl_lor 8), u16_id by (unfold is_u16; lia). lia. }
    rewrite Ex. change (cycles (with_sp (int_common (state rt)) ((sp (state rt) - 2) mod 65536))) with (cycles (int_common (state rt))).
    assert (Ec : cycles (int_common (state rt)) = cycles (state rt)) by (unfold int_common; by destruct (set_flag _)). rewrite Ec.
    destruct (read host _ (256 * i (state rt) + byte) _) as [ctx1 low]. destruct (read host ctx1 _ _) as [ctx2 high].
    cbn [response_entry response_context]. by rewrite (int_entry _ (state rt)) by (done || lia).
Qed.

(** C12. An interrupt response is the CPU's, on any host.  When a request is due the
    boundary performs exactly the bus cycles of the response, in their order and at
    the time of the boundary: NMI stacks PC, high byte first; INT acknowledges once,
    then stacks PC, and IM2 then reads the two bytes of its table entry.  The whole
    CPU state after it is the one at the entry of the handler, with its T-states and
    flip-flops.  An acknowledge byte IM0 cannot take stops the run after the
    acknowledge cycle, with the state as it was. *)
Theorem interrupt_response_exact (rt : Z80Runtime C) (Hbytes : answers_bytes host) (H : due (state rt)) :
  let s := state rt in
  let answer := response_of (context rt) s in
  z80_boundary host rt =
    match response_entry answer with
    | Some (target, t, iff1', iff2') =>
        (mkRuntime (at_handler s target t iff1' iff2') (response_context answer) (outcome rt) (live_code rt), 2)
    | None => (mkRuntime s (response_context answer) ERROR_IM0_UNSUPPORTED_ACKNOWLEDGE_BYTE (live_code rt), 1)
    end.
Proof.
  pose proof H as [Ht _ Hp Hr Hq _ _ _]. cbv zeta. unfold z80_boundary. cbv zeta.
  rewrite (proj2 (Z.leb_gt _ _)) by lia. rewrite Hp, Hr. change (set_flag 0) with false. cbv iota.
  destruct (set_flag (nmi_pending (state rt))) eqn:En.
  { rewrite nmi_response by (done || by apply flag_true). unfold response_of. by rewrite En. }
  apply flag_false in En. destruct Hq as [Hq|Hq]; [lia|]. rewrite Hq, int_cases by done.
  cbv zeta. by destruct (response_entry _) as [[[[target t] iff1'] iff2']|].
Qed.
End Response.

(** A host whose memory is read-only below 0x4000 and mirrored 8 KiB RAM above, that
    counts its accesses and answers every acknowledge with [bus]. *)
Record BankedRam := mkBanked { banked : Z -> Z; accesses : Z }.

Definition banked_at (m : BankedRam) (x : Z) : Z := u8 (banked m (if x <? 0x4000 then x else 0xC000 + x mod 0x2000)).

Definition banked_host (bus : Z) : Z80Host BankedRam :=
  let touch m := mkBanked (banked m) (accesses m + 1) in
  mkHost (fun m x _ => (touch m, banked_at m x))
    (fun m x v _ => touch (if x <? 0x4000 then m
       else mkBanked (fun y => if y =? 0xC000 + x mod 0x2000 then v else banked m y) (accesses m)))
    (fun m _ _ => (m, 0)) (fun m _ _ _ => m) (fun m _ => (touch m, u8 bus)) (fun m _ => (m, None)) None.

Lemma banked_host_bytes bus : answers_bytes (banked_host bus).
Proof. split; intros; apply u8_range. Qed.

(** IM2 with I = 0x7E, interrupts enabled, LD A,I just executed. *)
Definition im2_state : Z80State :=
  mkState (file after_reset) 0xFF 0xE001 0x1234 0 0x7E 0xFF 2 1 1 0 1 0 1 0 1 0 0 10 100.

Lemma interrupt_response_exact_witness :
  let rt := mkRuntime im2_state (mkBanked (fun y => u8 (y + 7)) 0) OUTCOME_NONE [0; 0; 0; 0] in
  let rt' := (z80_boundary (banked_host 0x10) rt).1 in
  (pc (state rt'), sp (state rt'), f (state rt'), cycles (state rt'), r (state rt'), accesses (context rt')) =
    (0x1817, 0xDFFF, 0xFB, 29, 0x80, 5) /\
  (banked_at (context rt') 0xC000, banked_at (context rt') 0xDFFF) = (0x12, 0x34) /\
  z80_boundary (banked_host 0x10) rt =
    (mkRuntime (at_handler im2_state 0x1817 19 0 0) (response_context (response_of (banked_host 0x10) (context rt) im2_state))
       OUTCOME_NONE [0; 0; 0; 0], 2).
Proof.
  intros rt rt'. split; [by_evaluation|]. split; [by_evaluation|].
  pose proof (interrupt_response_exact (banked_host 0x10) rt (banked_host_bytes 0x10)) as H. cbv zeta in H.
  replace (response_entry (response_of (banked_host 0x10) (context rt) (state rt))) with (Some (0x1817, 19, 0, 0)) in H
    by (vm_compute; reflexivity).
  apply H. split; try done; try (cbn; lia); try by right.
  all: cbn [state rt]; unfold is_u16, is_u8; cbn; lia.
Defined.
