(* ===== verification/SmsMemory.v ===== *)
(** The Master System memory map: [sms_error.h], [sms_mapper_contract.h] and
    [sms_memory.c].

    Arrays are byte lists; [SmsMemory] is passed and returned.  [UINT32_MAX] stays the
    sentinel it is in [sms_sega_rom_offset]; an out-parameter that is filled only on
    success is an option. *)

From S2P Require Import Prelude Z80Runtime.

(** * Errors *)

Inductive SmsError : Type :=
| SMS_OK | SMS_ERROR_PROFILE_UNSUPPORTED | SMS_ERROR_MAPPER_UNDECLARED | SMS_ERROR_MAPPER_UNSUPPORTED
| SMS_ERROR_ROM_SIZE_UNSUPPORTED | SMS_ERROR_CONTROL_BIT_UNSUPPORTED | SMS_ERROR_UNMAPPED_READ | SMS_ERROR_BIOS_UNSUPPORTED
| SMS_ERROR_PORT_UNIMPLEMENTED | SMS_ERROR_VDP_MODE_UNSUPPORTED | SMS_ERROR_HCOUNTER_UNRESOLVED | SMS_ERROR_PSG_DATA_BEFORE_LATCH.

#[export] Instance SmsError_eq_dec : EqDecision SmsError.
Proof. solve_decision. Defined.

Definition error_code (error : SmsError) : Z :=
  match error with
  | SMS_OK => 0 | SMS_ERROR_PROFILE_UNSUPPORTED => 1 | SMS_ERROR_MAPPER_UNDECLARED => 2 | SMS_ERROR_MAPPER_UNSUPPORTED => 3
  | SMS_ERROR_ROM_SIZE_UNSUPPORTED => 4 | SMS_ERROR_CONTROL_BIT_UNSUPPORTED => 5 | SMS_ERROR_UNMAPPED_READ => 6
  | SMS_ERROR_BIOS_UNSUPPORTED => 7 | SMS_ERROR_PORT_UNIMPLEMENTED => 8 | SMS_ERROR_VDP_MODE_UNSUPPORTED => 9
  | SMS_ERROR_HCOUNTER_UNRESOLVED => 10 | SMS_ERROR_PSG_DATA_BEFORE_LATCH => 11
  end.

Definition sms_error_name (error : SmsError) : string :=
  match error with
  | SMS_OK => "SMS_OK" | SMS_ERROR_PROFILE_UNSUPPORTED => "SMS_ERROR_PROFILE_UNSUPPORTED"
  | SMS_ERROR_MAPPER_UNDECLARED => "SMS_ERROR_MAPPER_UNDECLARED" | SMS_ERROR_MAPPER_UNSUPPORTED => "SMS_ERROR_MAPPER_UNSUPPORTED"
  | SMS_ERROR_ROM_SIZE_UNSUPPORTED => "SMS_ERROR_ROM_SIZE_UNSUPPORTED"
  | SMS_ERROR_CONTROL_BIT_UNSUPPORTED => "SMS_ERROR_CONTROL_BIT_UNSUPPORTED"
  | SMS_ERROR_UNMAPPED_READ => "SMS_ERROR_UNMAPPED_READ" | SMS_ERROR_BIOS_UNSUPPORTED => "SMS_ERROR_BIOS_UNSUPPORTED"
  | SMS_ERROR_PORT_UNIMPLEMENTED => "SMS_ERROR_PORT_UNIMPLEMENTED" | SMS_ERROR_VDP_MODE_UNSUPPORTED => "SMS_ERROR_VDP_MODE_UNSUPPORTED"
  | SMS_ERROR_HCOUNTER_UNRESOLVED => "SMS_ERROR_HCOUNTER_UNRESOLVED"
  | SMS_ERROR_PSG_DATA_BEFORE_LATCH => "SMS_ERROR_PSG_DATA_BEFORE_LATCH"
  end%string.

(** * The mapper contract *)

Inductive SmsMapperFamily : Type := SMS_MAPPER_UNDECLARED | SMS_MAPPER_SEGA | SMS_MAPPER_ROM_ONLY.

#[export] Instance SmsMapperFamily_eq_dec : EqDecision SmsMapperFamily.
Proof. solve_decision. Defined.

Definition SMS_BANK_SIZE : Z := 0x4000.
Definition SMS_FIXED_SIZE : Z := 0x0400.
Definition SMS_CODE_ADDRESS_LIMIT : Z := 0xC000.
Definition SMS_RAM_BASE : Z := 0xC000.
Definition SMS_RAM_SIZE : Z := 0x2000.
Definition SMS_CART_RAM_SIZE : Z := 0x8000.
Definition SMS_MAPPER_REG_BASE : Z := 0xFFFC.
Definition SMS_MAPPER_REG_COUNT : Z := 4.
Definition SMS_ROM_MIN_SIZE : Z := 0x8000.
Definition SMS_ROM_MAX_SIZE : Z := 0x80000.
Definition SMS_ROM_ONLY_SIZE : Z := 0x8000.
Definition SMS_IMAGE_FIXED : Z := 1.
Definition SMS_IMAGE_BANK_FIRST : Z := 2.
Definition SMS_CTL_CART_RAM_OVERLAY : Z := 0x10.
Definition SMS_CTL_CART_RAM_SLOT2 : Z := 0x08.
Definition SMS_CTL_CART_RAM_BANK : Z := 0x04.
Definition SMS_CTL_BANK_SHIFT_MASK : Z := 0x03.
Definition UINT32_MAX : Z := 0xFFFFFFFF.

Definition sms_sega_reset_regs : list Z := [0; 0; 1; 2].

Record SmsSlot := mkSlot { slot_base : Z; first_offset : Z; slot_length : Z; bank_register : Z }.

Definition sms_sega_slots : list SmsSlot :=
  [mkSlot 0x0000 0x0400 0x3C00 1; mkSlot 0x4000 0x0000 0x4000 2; mkSlot 0x8000 0x0000 0x4000 3].
Definition SMS_SLOT2 : Z := 2.

Definition sms_rom_size_supported (size : Z) : bool :=
  (SMS_ROM_MIN_SIZE <=? size) && (size <=? SMS_ROM_MAX_SIZE) && (size .& u32 (size - 1) =? 0).
Definition sms_bank_count (rom_size : Z) : Z := rom_size / SMS_BANK_SIZE.
Definition sms_bank_select (rom_size value : Z) : Z := value .& u32 (sms_bank_count rom_size - 1).
Definition sms_cart_ram_in_slot2 (regs : list Z) : bool := negb (znth regs 0 0 .& SMS_CTL_CART_RAM_SLOT2 =? 0).

(** The bounds of a slot, as both functions test them. *)
Definition in_slot (s : SmsSlot) (address : Z) : bool :=
  (slot_base s <=? address) && (address <? u32 (slot_base s + slot_length s + first_offset s)).

(** The loop over the slots from [slot], in [sms_sega_rom_offset]. *)
Fixpoint slots_offset (slot : Z) (slots : list SmsSlot) (rom_size : Z) (regs : list Z) (address : Z) : Z :=
  match slots with
  | [] => UINT32_MAX
  | s :: slots =>
      if in_slot s address then
        if (slot =? SMS_SLOT2) && sms_cart_ram_in_slot2 regs then UINT32_MAX
        else u32 (sms_bank_select rom_size (znth regs (bank_register s) 0) * SMS_BANK_SIZE + (address - slot_base s))
      else slots_offset (slot + 1) slots rom_size regs address
  end.

Definition sms_sega_rom_offset (rom_size : Z) (regs : list Z) (address : Z) : Z :=
  if address <? SMS_FIXED_SIZE then address
  else if SMS_CODE_ADDRESS_LIMIT <=? address then UINT32_MAX
  else slots_offset 0 sms_sega_slots rom_size regs address.

(** The loop over the slots in [sms_mapper_code_image]. *)
Fixpoint slots_image (slot : Z) (slots : list SmsSlot) (rom_size : Z) (regs : list Z) (address : Z) : option Z80CodeImage :=
  match slots with
  | [] => None
  | s :: slots =>
      if in_slot s address then
        if (slot =? SMS_SLOT2) && sms_cart_ram_in_slot2 regs then None
        else Some (mkCodeImage (u32 (SMS_IMAGE_BANK_FIRST + sms_bank_select rom_size (znth regs (bank_register s) 0))) (slot_base s))
      else slots_image (slot + 1) slots rom_size regs address
  end.

Definition sms_mapper_code_image (family : SmsMapperFamily) (rom_size : Z) (regs : list Z) (address : Z) : option Z80CodeImage :=
  if family =b SMS_MAPPER_ROM_ONLY then
    if SMS_ROM_ONLY_SIZE <=? address then None else Some (mkCodeImage SMS_IMAGE_FIXED 0)
  else if negb (family =b SMS_MAPPER_SEGA) || (SMS_CODE_ADDRESS_LIMIT <=? address) then None
  else if address <? SMS_FIXED_SIZE then Some (mkCodeImage SMS_IMAGE_FIXED 0)
  else slots_image 0 sms_sega_slots rom_size regs address.

(** * The memory *)

Record SmsMemory := mkMemory {
  rom : list Z;
  rom_size : Z;
  family : SmsMapperFamily;
  ram : list Z;
  cart_ram : list Z;
  mapper_regs : list Z;
  memory_control : Z;
  error : SmsError;
  error_address : Z;
  error_value : Z;
  error_cycles : Z;
}.

Definition sms_memory_latch_error (m : SmsMemory) (e : SmsError) (address value cycles : Z) : SmsMemory :=
  if negb (error m =b SMS_OK) then m
  else mkMemory (rom m) (rom_size m) (family m) (ram m) (cart_ram m) (mapper_regs m) (memory_control m) e address value cycles.

(** A byte of work RAM, cartridge RAM, a mapper register. *)
Definition set_ram (m : SmsMemory) (i v : Z) : SmsMemory :=
  mkMemory (rom m) (rom_size m) (family m) (<[Z.to_nat i := v]> (ram m)) (cart_ram m) (mapper_regs m) (memory_control m)
    (error m) (error_address m) (error_value m) (error_cycles m).
Definition set_cart_ram (m : SmsMemory) (i v : Z) : SmsMemory :=
  mkMemory (rom m) (rom_size m) (family m) (ram m) (<[Z.to_nat i := v]> (cart_ram m)) (mapper_regs m) (memory_control m)
    (error m) (error_address m) (error_value m) (error_cycles m).
Definition set_mapper_reg (m : SmsMemory) (i v : Z) : SmsMemory :=
  mkMemory (rom m) (rom_size m) (family m) (ram m) (cart_ram m) (<[Z.to_nat i := v]> (mapper_regs m)) (memory_control m)
    (error m) (error_address m) (error_value m) (error_cycles m).
Definition set_memory_control (m : SmsMemory) (v : Z) : SmsMemory :=
  mkMemory (rom m) (rom_size m) (family m) (ram m) (cart_ram m) (mapper_regs m) v
    (error m) (error_address m) (error_value m) (error_cycles m).

Definition zeros (n : Z) : list Z := replicate (Z.to_nat n) 0.

Definition sms_memory_reset (m : SmsMemory) : SmsMemory :=
  mkMemory (rom m) (rom_size m) (family m) (<[0%nat := 0xAB]> (zeros SMS_RAM_SIZE)) (zeros SMS_CART_RAM_SIZE) sms_sega_reset_regs 0xAB
    SMS_OK 0 0 0.

(** [memset(m, 0, sizeof *m)]; the null [rom] is the empty list. *)
Definition zero_memory : SmsMemory :=
  mkMemory [] 0 SMS_MAPPER_UNDECLARED (zeros SMS_RAM_SIZE) (zeros SMS_CART_RAM_SIZE) (zeros SMS_MAPPER_REG_COUNT) 0 SMS_OK 0 0 0.

Definition sms_memory_init (rom : list Z) (rom_size : Z) (family : SmsMapperFamily) : SmsMemory * SmsError :=
  if negb (family =b SMS_MAPPER_SEGA) && negb (family =b SMS_MAPPER_ROM_ONLY) then (zero_memory, SMS_ERROR_MAPPER_UNDECLARED)
  else if negb (sms_rom_size_supported rom_size) || ((family =b SMS_MAPPER_ROM_ONLY) && negb (rom_size =? SMS_ROM_ONLY_SIZE))
  then (zero_memory, SMS_ERROR_ROM_SIZE_UNSUPPORTED)
  else (sms_memory_reset (mkMemory rom rom_size family (zeros SMS_RAM_SIZE) (zeros SMS_CART_RAM_SIZE) (zeros SMS_MAPPER_REG_COUNT) 0
          SMS_OK 0 0 0), SMS_OK).

Definition cart_ram_offset (m : SmsMemory) (address : Z) : Z :=
  u32 ((if negb (znth (mapper_regs m) 0 0 .& SMS_CTL_CART_RAM_BANK =? 0) then SMS_BANK_SIZE else 0) + u32 (address - 0x8000)).

Definition sms_memory_read (m : SmsMemory) (address cycles : Z) : SmsMemory * Z :=
  if negb (error m =b SMS_OK) then (m, 0xFF)
  else if SMS_RAM_BASE <=? address then (m, znth (ram m) (address .& (SMS_RAM_SIZE - 1)) 0)
  else if family m =b SMS_MAPPER_ROM_ONLY then
    if address <? SMS_ROM_ONLY_SIZE then (m, znth (rom m) address 0)
    else (sms_memory_latch_error m SMS_ERROR_UNMAPPED_READ address 0xFF cycles, 0xFF)
  else
    let offset := sms_sega_rom_offset (rom_size m) (mapper_regs m) address in
    if offset =? UINT32_MAX then (m, znth (cart_ram m) (cart_ram_offset m address) 0)
    else (m, znth (rom m) offset 0).

(** The control bits of [$FFFC] that stop the machine. *)
Definition control_unsupported (value : Z) : bool :=
  negb (value .& SMS_CTL_CART_RAM_OVERLAY =? 0) || negb (value .& SMS_CTL_BANK_SHIFT_MASK =? 0).

Definition sms_memory_write (m : SmsMemory) (address value cycles : Z) : SmsMemory :=
  if negb (error m =b SMS_OK) then m
  else if SMS_RAM_BASE <=? address then
    let copied (m : SmsMemory) := set_ram m (address .& (SMS_RAM_SIZE - 1)) value in
    if (family m =b SMS_MAPPER_SEGA) && (SMS_MAPPER_REG_BASE <=? address) then
      if (address =? SMS_MAPPER_REG_BASE) && control_unsupported value
      then sms_memory_latch_error m SMS_ERROR_CONTROL_BIT_UNSUPPORTED address value cycles
      else copied (set_mapper_reg m (address - SMS_MAPPER_REG_BASE) value)
    else copied m
  else if (family m =b SMS_MAPPER_SEGA) && (0x8000 <=? address) && sms_cart_ram_in_slot2 (mapper_regs m)
  then set_cart_ram m (cart_ram_offset m address) value
  else m.

Definition sms_memory_code_image (m : SmsMemory) (address : Z) : option Z80CodeImage :=
  if negb (error m =b SMS_OK) then None else sms_mapper_code_image (family m) (rom_size m) (mapper_regs m) address.

Definition sms_memory_control_write (m : SmsMemory) (port value cycles : Z) : SmsMemory :=
  if negb (error m =b SMS_OK) then m
  else if negb (value .& 0x40 =? 0) || negb (value .& 0x10 =? 0) || (value .& 0x08 =? 0)
  then sms_memory_latch_error m SMS_ERROR_CONTROL_BIT_UNSUPPORTED port value cycles
  else set_memory_control m value.

Definition sms_memory_io_disabled (m : SmsMemory) : bool := negb (memory_control m .& 0x04 =? 0).

(** The adapters' context is the memory. *)
Definition sms_memory_host_read (context : SmsMemory) (address cycles : Z) : SmsMemory * Z := sms_memory_read context address cycles.
Definition sms_memory_host_write (context : SmsMemory) (address value cycles : Z) : SmsMemory := sms_memory_write context address value cycles.
Definition sms_memory_host_code_image (context : SmsMemory) (address : Z) : option Z80CodeImage := sms_memory_code_image context address.

(** * The images declared at generation *)

Record ImageMapping := mkMapping { execution_base : Z; map_first_offset : Z; map_length : Z }.

(** What [cartridge_image] fills in that depends on its arguments. *)
Record ExecutableImage := mkImage { image_id : Z; image_bytes : list Z; mappings : list ImageMapping; region : string }.

Record ExecutableImageSet := mkImageSet { platform_selector : bool; images : list ExecutableImage }.

Inductive ImageKind : Type := invariant | banked.

(** What the declaration reads of an ingested cartridge. *)
Record IngestResult := mkIngest { ingest_error : SmsError; ingest_rom : list Z; mapper : SmsMapperFamily; bank_count : Z }.

Definition slot_mapping (s : SmsSlot) : ImageMapping := mkMapping (slot_base s) (first_offset s) (slot_length s).

Definition bank_image (rom : list Z) (bank : Z) : ExecutableImage :=
  mkImage (SMS_IMAGE_BANK_FIRST + bank) (take (Z.to_nat SMS_BANK_SIZE) (drop (Z.to_nat (bank * SMS_BANK_SIZE)) rom))
    (map slot_mapping sms_sega_slots) "bank".

Definition executable_images (cartridge : IngestResult) : ExecutableImageSet :=
  if negb (ingest_error cartridge =b SMS_OK) then mkImageSet false []
  else
    let rom := ingest_rom cartridge in
    if mapper cartridge =b SMS_MAPPER_ROM_ONLY
    then mkImageSet false [mkImage SMS_IMAGE_FIXED rom [mkMapping 0 0 SMS_ROM_ONLY_SIZE] "rom_only"]
    else mkImageSet true
           (mkImage SMS_IMAGE_FIXED (take (Z.to_nat SMS_FIXED_SIZE) rom) [mkMapping 0 0 SMS_FIXED_SIZE] "fixed" ::
            map (bank_image rom) (seqZ 0 (bank_count cartridge))).

Definition image_kinds (set : ExecutableImageSet) : list ImageKind :=
  map (fun image => if image_id image =? SMS_IMAGE_FIXED then invariant else banked) (images set).

(** * Well-formed memories *)

(** The banks of a supported ROM are a power of two, at least two. *)
Record memory_ok (m : SmsMemory) : Prop := {
  ok_size : sms_rom_size_supported (rom_size m) = true;
  ok_rom : zlen (rom m) = rom_size m;
  ok_bytes : Forall is_u8 (rom m) /\ Forall is_u8 (ram m) /\ Forall is_u8 (cart_ram m) /\ Forall is_u8 (mapper_regs m);
  ok_ram : zlen (ram m) = SMS_RAM_SIZE;
  ok_cart : zlen (cart_ram m) = SMS_CART_RAM_SIZE;
  ok_regs : zlen (mapper_regs m) = SMS_MAPPER_REG_COUNT;
  ok_family : family m = SMS_MAPPER_SEGA \/ family m = SMS_MAPPER_ROM_ONLY /\ rom_size m = SMS_ROM_ONLY_SIZE;
}.

Lemma supported_sizes size : sms_rom_size_supported size = true <-> exists k, 15 <= k <= 19 /\ size = 2 ^ k.
Proof.
  unfold sms_rom_size_supported, SMS_ROM_MIN_SIZE, SMS_ROM_MAX_SIZE. rewrite !andb_true_iff, !Z.leb_le, Z.eqb_eq. split.
  - intros [[H1 H2] H3]. assert (Hk : 15 <= Z.log2 size <= 19).
    { pose proof (Z.log2_le_mono 0x8000 size ltac:(lia)) as L1. pose proof (Z.log2_le_mono size 0x80000 ltac:(lia)) as L2.
      change (Z.log2 0x8000) with 15 in L1. change (Z.log2 0x80000) with 19 in L2. lia. }
    exists (Z.log2 size). split; [done|]. pose proof (Z.log2_spec size ltac:(lia)) as [Hlow Hhigh].
    destruct (Z.eq_dec size (2 ^ Z.log2 size)) as [E|N]; [done|exfalso].
    assert (El : Z.log2 (size - 1) = Z.log2 size) by (apply Z.log2_unique; lia).
    rewrite u32_id in H3 by (unfold is_u32; lia). apply (f_equal (fun x => Z.testbit x (Z.log2 size))) in H3.
    rewrite Z.land_spec, Z.bit_log2, Z.bits_0 in H3 by lia. rewrite <- El in H3 at 1. rewrite Z.bit_log2 in H3 by lia. discriminate H3.
  - intros (k & Hk & ->). assert (H : k = 15 \/ k = 16 \/ k = 17 \/ k = 18 \/ k = 19) by lia.
    destruct H as [->|[->|[->|[->| ->]]]]; by vm_compute.
Qed.

Lemma bank_select_exact size v : sms_rom_size_supported size = true -> 0 <= v ->
  sms_bank_select size v = v mod sms_bank_count size /\ 2 <= sms_bank_count size /\ sms_bank_count size * SMS_BANK_SIZE = size.
Proof.
  intros Hs Hv. apply supported_sizes in Hs. destruct Hs as (k & Hk & ->). unfold sms_bank_select, sms_bank_count, SMS_BANK_SIZE.
  assert (H : k = 15 \/ k = 16 \/ k = 17 \/ k = 18 \/ k = 19) by lia.
  destruct H as [->|[->|[->|[->| ->]]]]; (split; [|by vm_compute]).
  - exact (land_ones_mod v 1 ltac:(lia)).
  - exact (land_ones_mod v 2 ltac:(lia)).
  - exact (land_ones_mod v 3 ltac:(lia)).
  - exact (land_ones_mod v 4 ltac:(lia)).
  - exact (land_ones_mod v 5 ltac:(lia)).
Qed.

(** * Accesses *)

(** What the machine does to the memory, device errors included. *)
Inductive MemoryOp : Type :=
| Op_read (address cycles : Z)
| Op_write (address value cycles : Z)
| Op_control (port value cycles : Z)
| Op_latch (e : SmsError) (address value cycles : Z).

Definition access (m : SmsMemory) (op : MemoryOp) : SmsMemory :=
  match op with
  | Op_read address cycles => (sms_memory_read m address cycles).1
  | Op_write address value cycles => sms_memory_write m address value cycles
  | Op_control port value cycles => sms_memory_control_write m port value cycles
  | Op_latch e address value cycles => sms_memory_latch_error m e address value cycles
  end.

Definition accesses (ops : list MemoryOp) (m : SmsMemory) : SmsMemory := fold_left access ops m.

(** Addresses are 16 bits wide and values are bytes. *)
Definition op_ok (op : MemoryOp) : Prop :=
  match op with
  | Op_read address _ => is_u16 address
  | Op_write address value _ => is_u16 address /\ is_u8 value
  | Op_control _ value _ => is_u8 value
  | Op_latch _ _ _ _ => True
  end.

(** Four things an access can do. *)
Inductive accessed (m : SmsMemory) : SmsMemory -> Prop :=
| accessed_same : accessed m m
| accessed_error e address value cycles : accessed m (sms_memory_latch_error m e address value cycles)
| accessed_ram m' i v : (m' = m \/ exists j, 0 <= j < 4 /\ m' = set_mapper_reg m j v) -> is_u8 v -> accessed m (set_ram m' i v)
| accessed_cart i v : is_u8 v -> accessed m (set_cart_ram m i v)
| accessed_control v : accessed m (set_memory_control m v).

Lemma access_cases m op : op_ok op -> accessed m (access m op).
Proof.
  destruct op as [a c|a v c|p v c|e a v c]; cbn [op_ok access].
  - intros Ha. unfold sms_memory_read. repeat case_match; constructor.
  - intros [Ha Hv]. unfold sms_memory_write, SMS_MAPPER_REG_BASE, SMS_RAM_BASE. unfold is_u16 in Ha.
    repeat case_match; to_prop; try (constructor; done).
    + apply accessed_ram; [|done]. right. exists (a - 0xFFFC). split; [lia|done].
    + apply accessed_ram; [by left|done].
  - intros Hv. unfold sms_memory_control_write. repeat case_match; constructor.
  - intros _. constructor.
Qed.

Lemma Forall_insert_u8 (l : list Z) i v : Forall is_u8 l -> is_u8 v -> Forall is_u8 (<[i := v]> l).
Proof. intros Hl Hv. by apply Forall_insert. Qed.

Lemma accessed_keeps m m' : accessed m m' ->
  rom m' = rom m /\ rom_size m' = rom_size m /\ family m' = family m /\ (memory_ok m -> memory_ok m').
Proof.
  intros H. assert (Hreg : forall j v, is_u8 v -> memory_ok m -> memory_ok (set_mapper_reg m j v)).
  { intros j v Hv [H1 H2 (H3 & H4 & H5 & H6) H7 H8 H9 H10]. split; cbn [set_mapper_reg rom rom_size family ram cart_ram mapper_regs]; try done.
    - split_and!; try done. by apply Forall_insert_u8.
    - by rewrite zlen_insert. }
  assert (Hram : forall x i v, is_u8 v -> memory_ok x -> memory_ok (set_ram x i v)).
  { intros x i v Hv [H1 H2 (H3 & H4 & H5 & H6) H7 H8 H9 H10]. split; cbn [set_ram rom rom_size family ram cart_ram mapper_regs]; try done.
    - split_and!; try done. by apply Forall_insert_u8.
    - by rewrite zlen_insert. }
  destruct H as [|e a v c|x i v [->|(j & Hj & ->)] Hv|i v Hv|v]; try done.
  - unfold sms_memory_latch_error. destruct (negb _); [done|]. split_and!; try done. intros [H1 H2 H3 H4 H5 H6 H7]. by split.
  - split_and!; try done. by apply Hram.
  - split_and!; try done. intros Hm. apply Hram; [done|by apply Hreg].
  - split_and!; try done. intros [H1 H2 (H3 & H4 & H5 & H6) H7 H8 H9 H10].
    split; cbn [set_cart_ram rom rom_size family ram cart_ram mapper_regs]; try done.
    + split_and!; try done. by apply Forall_insert_u8.
    + by rewrite zlen_insert.
  - split_and!; try done. intros [H1 H2 H3 H4 H5 H6 H7]. by split.
Qed.

Lemma accesses_keep ops m : Forall op_ok ops ->
  rom (accesses ops m) = rom m /\ rom_size (accesses ops m) = rom_size m /\ family (accesses ops m) = family m /\
  (memory_ok m -> memory_ok (accesses ops m)).
Proof.
  intros Hops. revert m. unfold accesses. induction Hops as [|op ops Hop _ IH]; intros m; cbn [fold_left]; [done|].
  destruct (accessed_keeps _ _ (access_cases m op Hop)) as (E1 & E2 & E3 & E4). destruct (IH (access m op)) as (F1 & F2 & F3 & F4).
  rewrite F1, F2, F3. split_and!; try done. intros Hm. by apply F4, E4.
Qed.

Lemma zlen_zeros n : 0 <= n -> zlen (zeros n) = n.
Proof. intros Hn. unfold zlen, zeros. rewrite length_replicate. lia. Qed.

Lemma zeros_bytes n : Forall is_u8 (zeros n).
Proof. apply Forall_replicate. by vm_compute. Qed.

Lemma init_ok rom size family m : Forall is_u8 rom -> zlen rom = size -> sms_memory_init rom size family = (m, SMS_OK) -> memory_ok m.
Proof.
  intros Hb Hl. unfold sms_memory_init. destruct (negb _ && negb _) eqn:Ef; [intros E; discriminate E|].
  destruct (_ || _) eqn:Es; intros E; [discriminate E|]. injection E as <-. apply orb_false_iff in Es. destruct Es as [Es1 Es2].
  apply negb_false_iff in Es1. split; cbn [sms_memory_reset SmsMemory.rom rom_size SmsMemory.family ram cart_ram mapper_regs]; [done|done| | | |done|].
  - split_and!; try done; [|apply zeros_bytes|].
    + apply Forall_insert_u8; [apply zeros_bytes|by vm_compute].
    + repeat (constructor; [by vm_compute|]). constructor.
  - rewrite zlen_insert. by apply zlen_zeros.
  - by apply zlen_zeros.
  - destruct family; cbn in Ef; try discriminate Ef; [by left|]. right. split; [done|].
    rewrite bool_decide_eq_true_2 in Es2 by done. cbn [andb] in Es2. by apply negb_false_iff, Z.eqb_eq in Es2.
Qed.

(** * Code images are the ROM's *)

(** The slot of an address of the banked area. *)
Lemma slot_cases address : SMS_FIXED_SIZE <= address < SMS_CODE_ADDRESS_LIMIT ->
  exists s slot, sms_sega_slots !! Z.to_nat slot = Some s /\ (slot = 0 \/ slot = 1 \/ slot = 2) /\ bank_register s = slot + 1 /\
    slot_base s = 0x4000 * slot /\ 0 <= first_offset s /\ slot_base s + first_offset s <= address < slot_base s + first_offset s + slot_length s /\
    first_offset s + slot_length s = SMS_BANK_SIZE /\
    (forall size regs, slots_offset 0 sms_sega_slots size regs address =
      if (slot =? SMS_SLOT2) && sms_cart_ram_in_slot2 regs then UINT32_MAX
      else u32 (sms_bank_select size (znth regs (slot + 1) 0) * SMS_BANK_SIZE + (address - slot_base s))) /\
    (forall size regs, slots_image 0 sms_sega_slots size regs address =
      if (slot =? SMS_SLOT2) && sms_cart_ram_in_slot2 regs then None
      else Some (mkCodeImage (u32 (SMS_IMAGE_BANK_FIRST + sms_bank_select size (znth regs (slot + 1) 0))) (slot_base s))).
Proof.
  unfold SMS_FIXED_SIZE, SMS_CODE_ADDRESS_LIMIT. intros Ha.
  assert (Hc : forall (b : bool) {A} (x y : A), b = true -> (if b then x else y) = x) by (by intros b A x y ->).
  assert (Hn : forall (b : bool) {A} (x y : A), b = false -> (if b then x else y) = y) by (by intros b A x y ->).
  assert (Hin : forall s, in_slot s address = (slot_base s <=? address) && (address <? u32 (slot_base s + slot_length s + first_offset s))) by done.
  assert (Hcase : address < 0x4000 \/ 0x4000 <= address < 0x8000 \/ 0x8000 <= address) by lia.
  destruct Hcase as [H|[H|H]]; [exists (mkSlot 0x0000 0x0400 0x3C00 1), 0|exists (mkSlot 0x4000 0x0000 0x4000 2), 1|exists (mkSlot 0x8000 0x0000 0x4000 3), 2];
    (split; [done|]; split; [lia|]; split; [done|]; split; [done|]; split; [done|]; split; [cbn [slot_base first_offset slot_length]; lia|]; split; [done|]);
    unfold sms_sega_slots; cbn [slots_offset slots_image]; rewrite !Hin; cbn [slot_base first_offset slot_length];
    change (u32 (0 + 15360 + 1024)) with 16384; change (u32 (16384 + 16384 + 0)) with 32768; change (u32 (32768 + 16384 + 0)) with 49152.
  - split; intros size regs; rewrite (Hc ((0 <=? address) && (address <? 16384))) by (apply andb_true_iff; lia); done.
  - split; intros size regs; rewrite (Hn ((0 <=? address) && (address <? 16384))), (Hc ((16384 <=? address) && (address <? 32768)))
      by (first [apply andb_true_iff; lia|apply andb_false_iff; lia]); done.
  - split; intros size regs; rewrite (Hn ((0 <=? address) && (address <? 16384))), (Hn ((16384 <=? address) && (address <? 32768))),
      (Hc ((32768 <=? address) && (address <? 49152))) by (first [apply andb_true_iff; lia|apply andb_false_iff; lia]); done.
Qed.

Lemma znth_take {A} (l : list A) n i d : 0 <= i < n -> znth (take (Z.to_nat n) l) i d = znth l i d.
Proof. intros Hi. rewrite !znth_nth, !nth_lookup, lookup_take_lt by lia. done. Qed.

Lemma znth_drop_add {A} (l : list A) n i d : 0 <= n -> 0 <= i -> znth (drop (Z.to_nat n) l) i d = znth l (n + i) d.
Proof. intros Hn Hi. rewrite !znth_nth, !nth_lookup, lookup_drop by lia. do 3 f_equal. lia. Qed.

(** The cartridge a memory was initialised from. *)
Definition cartridge_of (m : SmsMemory) : IngestResult := mkIngest SMS_OK (rom m) (family m) (sms_bank_count (rom_size m)).

(** An address [offset] bytes into a declared window of a declared image. *)
Definition declared (set : ExecutableImageSet) (image : Z80CodeImage) (address : Z) (byte : Z) : Prop :=
  exists x w, x ∈ images set /\ image_id x = identity image /\ w ∈ mappings x /\ execution_base w = window_base image /\
    map_first_offset w <= address - window_base image < map_first_offset w + map_length w /\
    map_first_offset w + map_length w <= zlen (image_bytes x) /\ byte = znth (image_bytes x) (address - window_base image) 0.

(** Where an address is not the ROM's. *)
Definition not_rom (m : SmsMemory) (address : Z) : Prop :=
  SMS_RAM_BASE <= address \/ (0x8000 <= address /\ (family m = SMS_MAPPER_ROM_ONLY \/ sms_cart_ram_in_slot2 (mapper_regs m) = true)).

Lemma image_exact m address cycles : memory_ok m -> error m = SMS_OK -> is_u16 address ->
  match sms_memory_code_image m address with
  | Some image => ~ not_rom m address /\ exists byte, sms_memory_read m address cycles = (m, byte) /\
      declared (executable_images (cartridge_of m)) image address byte
  | None => not_rom m address
  end.
Proof.
  intros [Hsize Hrom (_ & _ & _ & Hregs) _ _ Hlen Hfam] He Ha. unfold is_u16 in Ha.
  pose proof (proj1 (supported_sizes _) Hsize) as (k & Hk & Ek).
  assert (H2k : 0x8000 <= rom_size m <= 0x80000).
  { rewrite Ek. split; [apply (Z.pow_le_mono_r 2 15)|apply (Z.pow_le_mono_r 2 k 19)]; lia. }
  unfold sms_memory_code_image, sms_memory_read, sms_mapper_code_image, not_rom, declared, executable_images, cartridge_of, SMS_RAM_BASE, SMS_ROM_ONLY_SIZE, SMS_CODE_ADDRESS_LIMIT.
  rewrite He, !bool_decide_eq_true_2 by done. cbn [negb ingest_error ingest_rom mapper bank_count].
  destruct Hfam as [Ef|[Ef Es]]; rewrite Ef.
  - (* Sega *)
    rewrite !(bool_decide_eq_false_2 (SMS_MAPPER_SEGA = SMS_MAPPER_ROM_ONLY)), !bool_decide_eq_true_2 by done. cbn [negb orb].
    destruct (Z.leb_spec 0xC000 address) as [Hhi|Hlo]; [by left|]. cbn [images].
    destruct (Z.ltb_spec address SMS_FIXED_SIZE) as [Hf|Hb]; unfold SMS_FIXED_SIZE in *.
    + split; [lia|]. assert (Eo : sms_sega_rom_offset (rom_size m) (mapper_regs m) address = address).
      { unfold sms_sega_rom_offset, SMS_FIXED_SIZE. by rewrite (proj2 (Z.ltb_lt _ _)) by lia. }
      rewrite Eo. unfold UINT32_MAX. rewrite (proj2 (Z.eqb_neq _ _)) by lia. eexists. split; [done|].
      eexists _, _. split; [left|]. cbn [image_id mappings image_bytes identity window_base]. split; [done|]. split; [left|].
      cbn [execution_base map_first_offset map_length]. rewrite Z.sub_0_r, znth_take by lia. split; [done|].
      split; [lia|]. split; [|done]. unfold zlen in *. rewrite length_take. lia.
    + destruct (slot_cases address ltac:(unfold SMS_FIXED_SIZE, SMS_CODE_ADDRESS_LIMIT; lia)) as (s & slot & Hs & Hslot & Hreg & Hbase & Hpos & Hin & Hfl & Ho & Hi).
      unfold SMS_BANK_SIZE in Hfl.
      assert (Eo : sms_sega_rom_offset (rom_size m) (mapper_regs m) address = slots_offset 0 sms_sega_slots (rom_size m) (mapper_regs m) address).
      { unfold sms_sega_rom_offset, SMS_FIXED_SIZE, SMS_CODE_ADDRESS_LIMIT. by rewrite (proj2 (Z.ltb_ge _ _)), (proj2 (Z.leb_gt _ _)) by lia. }
      rewrite Eo, Ho, Hi. unfold SMS_SLOT2. destruct ((slot =? 2) && _) eqn:Ec.
      { apply andb_true_iff in Ec. destruct Ec as [Ec1 Ec2]. right. split; [lia|by right]. }
      split.
      { intros [Hx|[Hx [Hy|Hy]]]; [lia|discriminate Hy|]. rewrite Hy, andb_true_r in Ec. lia. }
      pose proof (znth_byte (mapper_regs m) (slot + 1) Hregs) as Hv. unfold is_u8 in Hv.
      destruct (bank_select_exact (rom_size m) (znth (mapper_regs m) (slot + 1) 0) Hsize ltac:(lia)) as (Eb & Hc & Hmul).
      rewrite Eb. set (bank := _ mod sms_bank_count (rom_size m)). pose proof (Z.mod_pos_bound (znth (mapper_regs m) (slot + 1) 0) (sms_bank_count (rom_size m)) ltac:(lia)) as Hbank.
      fold bank in Hbank. unfold SMS_BANK_SIZE, UINT32_MAX, SMS_IMAGE_BANK_FIRST in *.
      rewrite !u32_id by (unfold is_u32; lia). rewrite (proj2 (Z.eqb_neq _ _)) by lia. eexists. split; [done|].
      exists (bank_image (rom m) bank), (slot_mapping s). cbn [identity window_base bank_image image_id image_bytes mappings slot_mapping execution_base map_first_offset map_length].
      split; [right; apply list_elem_of_In, in_map, list_elem_of_In, elem_of_seqZ; lia|]. split; [done|].
      split; [apply list_elem_of_In, in_map, list_elem_of_In; by eapply list_elem_of_lookup_2|]. split; [done|]. unfold SMS_BANK_SIZE. split; [lia|].
      split; [unfold zlen in *; rewrite length_take, length_drop; lia|]. rewrite znth_take, znth_drop_add by lia. done.
  - (* ROM only *)
    rewrite !bool_decide_eq_true_2 by done. unfold SMS_ROM_ONLY_SIZE in Es.
    destruct (Z.leb_spec 0x8000 address) as [Hhi|Hlo].
    { destruct (Z.leb_spec 0xC000 address); [by left|right; split; [lia|by left]]. }
    split; [lia|]. rewrite (proj2 (Z.leb_gt _ _)), (proj2 (Z.ltb_lt _ _)) by lia. eexists. split; [done|].
    eexists _, _. split; [left|]. cbn [image_id mappings image_bytes identity window_base]. split; [done|]. split; [left|].
    cbn [execution_base map_first_offset map_length]. rewrite Z.sub_0_r. split; [done|]. unfold SMS_ROM_ONLY_SIZE. split; [lia|]. split; [lia|done].
Qed.

(** C17. Code images are the ROM's, as declared.  After any accesses, an address has a
    code image exactly when it is not RAM, and then the image and window are among
    those declared when the program was generated, and the byte read there, inside
    the image, is the declared one: no write can change the code that runs. *)
Theorem code_image_exact (rom : list Z) (size : Z) (family : SmsMapperFamily) (m0 : SmsMemory) (ops : list MemoryOp) (address cycles : Z)
    (Hbytes : Forall is_u8 rom) (Hlen : zlen rom = size) (Hinit : sms_memory_init rom size family = (m0, SMS_OK))
    (Hops : Forall op_ok ops) (Haddress : is_u16 address) (Hrunning : error (accesses ops m0) = SMS_OK) :
  let m := accesses ops m0 in
  match sms_memory_code_image m address with
  | Some image => ~ not_rom m address /\ exists byte, sms_memory_read m address cycles = (m, byte) /\
      declared (executable_images (mkIngest SMS_OK rom family (sms_bank_count size))) image address byte
  | None => not_rom m address
  end.
Proof.
  intros m. pose proof (init_ok rom size family m0 Hbytes Hlen Hinit) as Hok.
  destruct (accesses_keep ops m0 Hops) as (E1 & E2 & E3 & E4).
  assert (Ec : cartridge_of m = mkIngest SMS_OK rom family (sms_bank_count size)).
  { unfold cartridge_of, m. rewrite E1, E2, E3. unfold sms_memory_init in Hinit. repeat case_match; injection Hinit as <-; done. }
  rewrite <- Ec. by apply image_exact; [apply E4|..].
Qed.

(** * Errors *)

(** What an access to a running machine does wrong. *)
Definition fault (m : SmsMemory) (op : MemoryOp) : option (SmsError * Z * Z * Z) :=
  match op with
  | Op_read a c =>
      if (family m =b SMS_MAPPER_ROM_ONLY) && (0x8000 <=? a) && (a <? 0xC000) then Some (SMS_ERROR_UNMAPPED_READ, a, 0xFF, c) else None
  | Op_write a v c =>
      if (family m =b SMS_MAPPER_SEGA) && (a =? 0xFFFC) && control_unsupported v
      then Some (SMS_ERROR_CONTROL_BIT_UNSUPPORTED, a, v, c) else None
  | Op_control p v c =>
      if negb (v .& 0x40 =? 0) || negb (v .& 0x10 =? 0) || (v .& 0x08 =? 0)
      then Some (SMS_ERROR_CONTROL_BIT_UNSUPPORTED, p, v, c) else None
  | Op_latch e a v c => if e =b SMS_OK then None else Some (e, a, v, c)
  end.

Definition latched (m : SmsMemory) (f : SmsError * Z * Z * Z) : SmsMemory :=
  let '(e, a, v, c) := f in sms_memory_latch_error m e a v c.

Lemma fault_error m op f : fault m op = Some f -> f.1.1.1 <> SMS_OK.
Proof. destruct op; cbn [fault]; repeat case_match; intros E; try discriminate E; injection E as <-; cbn; try done; by to_prop. Qed.

Lemma access_fault m op f : error m = SMS_OK -> op_ok op -> fault m op = Some f -> access m op = latched m f.
Proof.
  intros He Hop. destruct op as [a c|a v c|p v c|e a v c]; cbn [fault access op_ok] in *.
  - destruct (_ && _ && _) eqn:E; [|intros E'; discriminate E']. intros E'. injection E' as <-. rewrite !andb_true_iff in E. destruct E as [[E1 E2] E3].
    unfold sms_memory_read, SMS_RAM_BASE, SMS_ROM_ONLY_SIZE. rewrite He, bool_decide_eq_true_2, E1 by done. cbn [negb].
    rewrite (proj2 (Z.leb_gt _ _)), (proj2 (Z.ltb_ge _ _)) by lia. done.
  - destruct (_ && _ && _) eqn:E; [|intros E'; discriminate E']. intros E'. injection E' as <-. rewrite !andb_true_iff in E. destruct E as [[E1 E2] E3].
    unfold sms_memory_write, SMS_RAM_BASE, SMS_MAPPER_REG_BASE. rewrite He, bool_decide_eq_true_2, E1, E2, E3 by done. cbn [negb andb].
    apply Z.eqb_eq in E2. subst a. done.
  - destruct (_ || _ || _) eqn:E; [|intros E'; discriminate E']. intros E'. injection E' as <-.
    unfold sms_memory_control_write. by rewrite He, bool_decide_eq_true_2, E by done.
  - case_match; intros E; [discriminate E|]. by injection E as <-.
Qed.

Lemma access_no_fault m op : error m = SMS_OK -> op_ok op -> fault m op = None -> error (access m op) = SMS_OK.
Proof.
  intros He Hop. destruct op as [a c|a v c|p v c|e a v c]; cbn [fault access op_ok] in *.
  - destruct (_ && _ && _) eqn:E; [intros E'; discriminate E'|]. intros _.
    unfold sms_memory_read, SMS_RAM_BASE, SMS_ROM_ONLY_SIZE. rewrite He, bool_decide_eq_true_2 by done. cbn [negb].
    destruct (Z.leb_spec 0xC000 a); [done|]. destruct (bool_decide _); [|by destruct (_ =? _)].
    destruct (Z.ltb_spec a 0x8000); [done|]. rewrite !andb_false_iff in E. lia.
  - destruct (_ && _ && _) eqn:E; [intros E'; discriminate E'|]. intros _.
    unfold sms_memory_write, SMS_RAM_BASE, SMS_MAPPER_REG_BASE. rewrite He, bool_decide_eq_true_2 by done. cbn [negb].
    destruct (family m =b SMS_MAPPER_SEGA); cbn [andb] in *; [rewrite E|]; by repeat case_match.
  - destruct (_ || _ || _) eqn:E; [intros E'; discriminate E'|]. intros _.
    unfold sms_memory_control_write. by rewrite He, bool_decide_eq_true_2, E by done.
  - case_match; intros E; [|discriminate E]. to_prop. subst e. unfold sms_memory_latch_error. by rewrite He, bool_decide_eq_true_2.
Qed.

Lemma access_stopped m op : error m <> SMS_OK -> access m op = m.
Proof.
  intros He. assert (H : negb (error m =b SMS_OK) = true) by (by rewrite bool_decide_eq_false_2).
  destruct op; cbn [access]; unfold sms_memory_read, sms_memory_write, sms_memory_control_write, sms_memory_latch_error; by rewrite H.
Qed.

Lemma accesses_stopped ops m : error m <> SMS_OK -> accesses ops m = m.
Proof. intros He. unfold accesses. induction ops as [|op ops IH]; cbn [fold_left]; [done|]. by rewrite access_stopped. Qed.

(** The first error wins and stops the memory.  Accesses leave no error exactly when
    none of them is at fault; otherwise the memory is what the accesses before the
    first fault left, with that fault's error, address, value and time latched, and
    from then on reads give $FF and there is no code. *)
Theorem first_error_wins (m0 : SmsMemory) (ops : list MemoryOp) (Hstart : error m0 = SMS_OK) (Hops : Forall op_ok ops) :
  let m := accesses ops m0 in
  (error m = SMS_OK <-> forall before op after, ops = before ++ op :: after -> fault (accesses before m0) op = None) /\
  (error m <> SMS_OK -> exists before op after f, ops = before ++ op :: after /\ error (accesses before m0) = SMS_OK /\
     fault (accesses before m0) op = Some f /\ m = latched (accesses before m0) f /\
     (error m, error_address m, error_value m, error_cycles m) = f /\
     forall a c, sms_memory_read m a c = (m, 0xFF) /\ sms_memory_code_image m a = None).
Proof.
  intros m. unfold m. clear m. revert m0 Hstart. induction Hops as [|op ops Hop _ IH]; intros m0 Hstart.
  { cbn. split; [|by rewrite Hstart]. split; [|done]. intros _ before op after E. by destruct before. }
  change (accesses (op :: ops) m0) with (accesses ops (access m0 op)). destruct (fault m0 op) as [f|] eqn:Ef.
  - pose proof (fault_error _ _ _ Ef) as Hf. rewrite (access_fault m0 op f Hstart Hop Ef).
    assert (El : (error (latched m0 f), error_address (latched m0 f), error_value (latched m0 f), error_cycles (latched m0 f)) = f).
    { destruct f as [[[e a] v] c]. cbn [latched]. unfold sms_memory_latch_error. by rewrite bool_decide_eq_true_2. }
    assert (He : error (latched m0 f) <> SMS_OK) by (rewrite <- El in Hf; exact Hf).
    rewrite accesses_stopped by done. split.
    + split; [done|]. intros H. specialize (H [] op ops eq_refl). change (fault m0 op = None) in H. by rewrite H in Ef.
    + intros _. exists [], op, ops, f. split_and!; try done. intros a c. unfold sms_memory_read, sms_memory_code_image.
      by rewrite bool_decide_eq_false_2.
  - destruct (IH (access m0 op) (access_no_fault m0 op Hstart Hop Ef)) as [IH1 IH2]. split.
    + rewrite IH1. split.
      * intros H [|x before] op' after E; injection E as <- E; [exact Ef|]. by apply (H before op' after).
      * intros H before op' after E. apply (H (op :: before) op' after). by rewrite E.
    + intros He. destruct (IH2 He) as (before & op' & after & f & E & H). exists (op :: before), op', after, f.
      split; [by rewrite E|exact H].
Qed.

(** * Histories *)

(** The last byte written to a selected address, or [d]. *)
Definition last_store (sel : Z -> bool) (ops : list MemoryOp) (d : Z) : Z :=
  fold_left (fun last op => match op with Op_write a v _ => if sel a then v else last | _ => last end) ops d.

(** The cartridge RAM byte an address selects under a control register. *)
Definition cart_target (control address : Z) : option Z :=
  if (0x8000 <=? address) && (address <? 0xC000) && Z.testbit control 3
  then Some ((if Z.testbit control 2 then 0x4000 else 0) + (address - 0x8000)) else None.

(** The last byte written to cartridge RAM at [o], with the control register the writes
    go through. *)
Definition last_cart (o : Z) (ops : list MemoryOp) (start : Z * Z) : Z * Z :=
  fold_left (fun '(control, last) op =>
    match op with
    | Op_write a v _ => (if a =? 0xFFFC then v else control, if cart_target control a =b Some o then v else last)
    | _ => (control, last)
    end) ops start.

Lemma cart_selected m address : 0x8000 <= address < 0xC000 ->
  (if sms_cart_ram_in_slot2 (mapper_regs m) then Some (cart_ram_offset m address) else None) = cart_target (znth (mapper_regs m) 0 0) address.
Proof.
  intros Ha. unfold cart_target, sms_cart_ram_in_slot2, cart_ram_offset, SMS_CTL_CART_RAM_SLOT2, SMS_CTL_CART_RAM_BANK, SMS_BANK_SIZE.
  change 0x08 with (2 ^ 3). change 0x04 with (2 ^ 2). rewrite !bit_test by lia.
  rewrite (proj2 (Z.leb_le 0x8000 address)), (proj2 (Z.ltb_lt address 0xC000)) by lia. cbn [andb].
  destruct (Z.testbit _ 3); [|done]. f_equal. rewrite (u32_id (address - 0x8000)), u32_id by (unfold is_u32; repeat case_match; lia). done.
Qed.

Lemma ram_index address : address .& (SMS_RAM_SIZE - 1) = address mod 0x2000.
Proof. exact (land_ones_mod address 13 ltac:(lia)). Qed.

(** What one access changes, given that it leaves no error. *)
Definition tracks (m m' : SmsMemory) (op : MemoryOp) : Prop :=
  (forall k, 0 <= k < 0x2000 -> znth (ram m') k 0 = last_store (fun a => (0xC000 <=? a) && (a mod 0x2000 =? k)) [op] (znth (ram m) k 0)) /\
  (family m = SMS_MAPPER_SEGA -> forall k, 0 <= k < 4 ->
     znth (mapper_regs m') k 0 = last_store (fun a => a =? 0xFFFC + k) [op] (znth (mapper_regs m) k 0)) /\
  (family m = SMS_MAPPER_SEGA -> forall o, 0 <= o < 0x8000 ->
     (znth (mapper_regs m') 0 0, znth (cart_ram m') o 0) = last_cart o [op] (znth (mapper_regs m) 0 0, znth (cart_ram m) o 0)).

Lemma write_high_tracks m a v c : memory_ok m -> error m = SMS_OK -> 0xC000 <= a < 0x10000 -> error (sms_memory_write m a v c) = SMS_OK ->
  tracks m (sms_memory_write m a v c) (Op_write a v c).
Proof.
  intros [_ _ _ Hram Hcart Hregs _] He Ha. unfold tracks, SMS_RAM_SIZE, SMS_CART_RAM_SIZE, SMS_MAPPER_REG_COUNT in *.
  cbn [last_store last_cart fold_left]. unfold sms_memory_write, SMS_RAM_BASE, SMS_MAPPER_REG_BASE.
  rewrite He, bool_decide_eq_true_2 by done. cbn [negb]. rewrite ram_index. pose proof (Z.mod_pos_bound a 0x2000 ltac:(lia)) as Hi.
  rewrite (proj2 (Z.leb_le 0xC000 a)) by lia. cbn [andb].
  assert (Hcart_none : forall control, cart_target control a = None).
  { intros control. unfold cart_target. rewrite (proj2 (Z.ltb_ge a 0xC000)) by lia. by rewrite andb_false_r. }
  assert (Hr : forall x k, ram x = ram m -> 0 <= k < 0x2000 ->
    znth (ram (set_ram x (a mod 0x2000) v)) k 0 = (if a mod 0x2000 =? k then v else znth (ram m) k 0)).
  { intros x k E Hk. cbn [set_ram ram]. rewrite E, znth_insert by lia. by rewrite Z.eqb_sym. }
  destruct (family m =b SMS_MAPPER_SEGA) eqn:Ef; cbn [andb].
  * destruct (Z.leb_spec 0xFFFC a) as [Hreg|Hreg]; [destruct ((a =? 0xFFFC) && control_unsupported v) eqn:Eu|].
    { unfold sms_memory_latch_error. rewrite He, bool_decide_eq_true_2 by done. intros E'. discriminate E'. }
    -- intros _. split; [|split].
       ++ intros k Hk. by apply Hr.
       ++ intros _ k Hk. cbn [set_ram set_mapper_reg mapper_regs]. rewrite znth_insert by lia.
          destruct (Z.eqb_spec k (a - 0xFFFC)), (Z.eqb_spec a (0xFFFC + k)); try lia; done.
       ++ intros _ o Ho. rewrite Hcart_none. cbn [set_ram set_mapper_reg mapper_regs cart_ram]. rewrite znth_insert by lia.
          rewrite bool_decide_eq_false_2 by done. destruct (Z.eqb_spec 0 (a - 0xFFFC)), (Z.eqb_spec a 0xFFFC); try lia; done.
    -- intros _. split; [|split].
       ++ intros k Hk. by apply Hr.
       ++ intros _ k Hk. cbn [set_ram mapper_regs]. by rewrite (proj2 (Z.eqb_neq a _)) by lia.
       ++ intros _ o Ho. rewrite Hcart_none. cbn [set_ram mapper_regs cart_ram]. rewrite bool_decide_eq_false_2 by done.
          by rewrite (proj2 (Z.eqb_neq a _)) by lia.
  * to_prop. intros _. split; [|split]; [|done|done]. intros k Hk. by apply Hr.
Qed.

Lemma write_low_tracks m a v c : memory_ok m -> error m = SMS_OK -> 0 <= a < 0xC000 -> tracks m (sms_memory_write m a v c) (Op_write a v c).
Proof.
  intros [_ _ _ Hram Hcart Hregs _] He Ha. unfold tracks, SMS_RAM_SIZE, SMS_CART_RAM_SIZE, SMS_MAPPER_REG_COUNT in *.
  cbn [last_store last_cart fold_left]. unfold sms_memory_write, SMS_RAM_BASE, SMS_MAPPER_REG_BASE.
  rewrite He, bool_decide_eq_true_2 by done. cbn [negb]. rewrite (proj2 (Z.leb_gt 0xC000 a)) by lia. cbn [andb].
  split; [|split].
  * intros k Hk. by repeat case_match.
  * intros Ef k Hk. rewrite (proj2 (Z.eqb_neq a _)) by lia. by repeat case_match.
  * intros Ef o Ho. rewrite (proj2 (Z.eqb_neq a _)), Ef, bool_decide_eq_true_2 by (done || lia). cbn [andb].
    destruct (Z.leb_spec 0x8000 a) as [Hs|Hs]; cbn [andb].
    -- rewrite <- cart_selected by lia. destruct (sms_cart_ram_in_slot2 (mapper_regs m)) eqn:Ec; [|done].
       assert (Ho' : 0 <= cart_ram_offset m a < 0x8000).
       { pose proof (cart_selected m a ltac:(lia)) as E. rewrite Ec in E. unfold cart_target in E.
         destruct (_ && _); [|discriminate E]. apply (inj Some) in E. rewrite E. destruct (Z.testbit _ 2); lia. }
       cbn [set_cart_ram mapper_regs cart_ram]. rewrite znth_insert by lia. f_equal.
       destruct (Z.eqb_spec o (cart_ram_offset m a)) as [->|N]; [by rewrite bool_decide_eq_true_2|].
       rewrite bool_decide_eq_false_2; [done|]. intros E. by apply (inj Some) in E.
    -- unfold cart_target. rewrite (proj2 (Z.leb_gt 0x8000 a)) by lia. done.
Qed.

Lemma access_tracks m op : memory_ok m -> error m = SMS_OK -> op_ok op -> error (access m op) = SMS_OK -> tracks m (access m op) op.
Proof.
  intros Hm He Hop He'. destruct op as [a c|a v c|p v c|e a v c]; cbn [access op_ok] in *.
  - assert (E : (sms_memory_read m a c).1 = m).
    { revert He'. unfold sms_memory_read. rewrite He, bool_decide_eq_true_2 by done. cbn [negb]. repeat case_match; try done.
      unfold sms_memory_latch_error. rewrite He, bool_decide_eq_true_2 by done. intros E'. discriminate E'. }
    rewrite E. by unfold tracks.
  - destruct Hop as [Ha Hv]. unfold is_u16 in Ha. destruct (Z.le_gt_cases 0xC000 a); [apply write_high_tracks|apply write_low_tracks]; (done || lia).
  - revert He'. unfold sms_memory_control_write. rewrite He, bool_decide_eq_true_2 by done. cbn [negb]. case_match; [|by unfold tracks].
    unfold sms_memory_latch_error. rewrite He, bool_decide_eq_true_2 by done. intros E'. discriminate E'.
  - unfold sms_memory_latch_error. rewrite He, bool_decide_eq_true_2 by done. by unfold tracks.
Qed.

Lemma last_store_cons sel op ops d : last_store sel (op :: ops) d = last_store sel ops (last_store sel [op] d).
Proof. done. Qed.

Lemma last_cart_cons o op ops s : last_cart o (op :: ops) s = last_cart o ops (last_cart o [op] s).
Proof. done. Qed.

Lemma accesses_track m ops : memory_ok m -> error m = SMS_OK -> Forall op_ok ops -> error (accesses ops m) = SMS_OK ->
  let m' := accesses ops m in
  (forall k, 0 <= k < 0x2000 -> znth (ram m') k 0 = last_store (fun a => (0xC000 <=? a) && (a mod 0x2000 =? k)) ops (znth (ram m) k 0)) /\
  (family m = SMS_MAPPER_SEGA -> forall k, 0 <= k < 4 ->
     znth (mapper_regs m') k 0 = last_store (fun a => a =? 0xFFFC + k) ops (znth (mapper_regs m) k 0)) /\
  (family m = SMS_MAPPER_SEGA -> forall o, 0 <= o < 0x8000 ->
     (znth (mapper_regs m') 0 0, znth (cart_ram m') o 0) = last_cart o ops (znth (mapper_regs m) 0 0, znth (cart_ram m) o 0)).
Proof.
  intros Hm He Hops. cbv zeta. revert m Hm He. induction Hops as [|op ops Hop Hops IH]; intros m Hm He; [intros _; by split_and!|].
  change (accesses (op :: ops) m) with (accesses ops (access m op)). intros He'.
  assert (He1 : error (access m op) = SMS_OK).
  { destruct (decide (error (access m op) = SMS_OK)) as [E|N]; [done|]. by rewrite accesses_stopped in He'. }
  destruct (accessed_keeps _ _ (access_cases m op Hop)) as (_ & _ & Ef & Hm1). specialize (Hm1 Hm).
  destruct (access_tracks m op Hm He Hop He1) as (H1 & H2 & H3). destruct (IH _ Hm1 He1 He') as (I1 & I2 & I3). rewrite Ef in I2, I3.
  split; [|split].
  - intros k Hk. by rewrite I1, H1 by done.
  - intros E k Hk. by rewrite I2, H2 by done.
  - intros E o Ho. by rewrite I3, H3 by done.
Qed.

(** Memory is what was last written.  While no error stops it, work RAM and its mirror
    read the byte last stored at either address, the mapper registers hold what was
    last stored at their own addresses only, and cartridge RAM what was last stored
    through the window and bank the control register selected at the time; before
    any store they hold the state the BIOS leaves. *)
Theorem memory_reads_last_write (rom : list Z) (size : Z) (family : SmsMapperFamily) (m0 : SmsMemory) (ops : list MemoryOp)
    (Hbytes : Forall is_u8 rom) (Hlen : zlen rom = size) (Hinit : sms_memory_init rom size family = (m0, SMS_OK))
    (Hops : Forall op_ok ops) (Hrunning : error (accesses ops m0) = SMS_OK) :
  let m := accesses ops m0 in
  (forall address cycles, 0xC000 <= address < 0x10000 ->
     (sms_memory_read m address cycles).2 =
       last_store (fun a => (0xC000 <=? a) && (a mod 0x2000 =? address mod 0x2000)) ops (if address mod 0x2000 =? 0 then 0xAB else 0)) /\
  (family = SMS_MAPPER_SEGA ->
     (forall k, 0 <= k < 4 -> znth (mapper_regs m) k 0 = last_store (fun a => a =? 0xFFFC + k) ops (znth sms_sega_reset_regs k 0)) /\
     (forall address cycles o, is_u16 address -> cart_target (znth (mapper_regs m) 0 0) address = Some o ->
        (sms_memory_read m address cycles).2 = (last_cart o ops (0, 0)).2)).
Proof.
  cbv zeta. pose proof (init_ok rom size family m0 Hbytes Hlen Hinit) as Hok.
  assert (E0 : ram m0 = <[0%nat := 0xAB]> (zeros SMS_RAM_SIZE) /\ mapper_regs m0 = sms_sega_reset_regs /\ cart_ram m0 = zeros SMS_CART_RAM_SIZE /\
    error m0 = SMS_OK /\ SmsMemory.family m0 = family).
  { unfold sms_memory_init in Hinit. repeat case_match; injection Hinit as <-; done. }
  destruct E0 as (Er & Em & Ecart & He & Ef). destruct (accesses_track m0 ops Hok He Hops Hrunning) as (H1 & H2 & H3). rewrite Ef in H2, H3.
  rewrite Em in H2, H3.
  assert (Hz : forall n k, 0 <= k < n -> znth (zeros n) k 0 = 0).
  { intros n k Hk. apply znth_lookup; [lia|]. apply lookup_replicate. lia. }
  set (m := accesses ops m0) in *. assert (Hr : negb (error m =b SMS_OK) = false) by (by rewrite bool_decide_eq_true_2).
  split; [|intros Es; split; [by apply H2|]].
  - intros address cycles Ha. unfold sms_memory_read, SMS_RAM_BASE. rewrite Hr, (proj2 (Z.leb_le _ _)), ram_index by lia. cbn [snd].
    pose proof (Z.mod_pos_bound address 0x2000 ltac:(lia)) as Hi. rewrite H1, Er by lia. f_equal.
    change (<[0%nat := 0xAB]> (zeros SMS_RAM_SIZE)) with (<[Z.to_nat 0 := 0xAB]> (zeros SMS_RAM_SIZE)).
    rewrite znth_insert by (rewrite ?zlen_zeros; unfold SMS_RAM_SIZE; lia). destruct (_ =? _); [done|]. by apply Hz.
  - intros address cycles o Ha Ht. assert (Hc : 0x8000 <= address < 0xC000 /\ 0 <= o < 0x8000).
    { unfold cart_target in Ht. destruct (Z.leb_spec 0x8000 address), (Z.ltb_spec address 0xC000); try discriminate Ht.
      destruct (Z.testbit _ 3); [|discriminate Ht]. apply (inj Some) in Ht. subst o. destruct (Z.testbit _ 2); lia. }
    destruct Hc as [Hc Ho]. pose proof (cart_selected m address Hc) as Hsel. rewrite Ht in Hsel.
    destruct (sms_cart_ram_in_slot2 (mapper_regs m)) eqn:Ec; [|discriminate Hsel]. apply (inj Some) in Hsel.
    destruct (accesses_keep ops m0 Hops) as (_ & _ & Ef' & Hok'). specialize (Hok' Hok).
    pose proof (image_exact m address cycles Hok' Hrunning Ha) as Hx. unfold sms_memory_read, SMS_RAM_BASE. rewrite Hr, (proj2 (Z.leb_gt _ _)) by lia.
    fold m in Ef'. rewrite Ef', Ef, Es. rewrite (bool_decide_eq_false_2 (SMS_MAPPER_SEGA = SMS_MAPPER_ROM_ONLY)) by done.
    destruct (slot_cases address ltac:(unfold SMS_FIXED_SIZE, SMS_CODE_ADDRESS_LIMIT; lia)) as (s & slot & _ & Hslot & _ & Hbase & Hpos & Hin & Hfl & Hoff & _).
    unfold sms_sega_rom_offset, SMS_FIXED_SIZE, SMS_CODE_ADDRESS_LIMIT, SMS_BANK_SIZE in *. rewrite (proj2 (Z.ltb_ge _ _)), (proj2 (Z.leb_gt _ _)), Hoff by lia.
    assert (slot = 2) as -> by lia. rewrite Ec. cbn [Z.eqb andb]. rewrite Hsel. change (UINT32_MAX =? UINT32_MAX) with true. cbn [snd].
    pose proof (H3 Es o Ho) as Hh. rewrite Ecart, Hz in Hh by done. by apply (f_equal snd) in Hh.
Qed.

(** * Instances *)

(** Two banks; bank 0 is put into slot 1, and a store to the ROM is ignored. *)
Definition two_banks : list Z := replicate (Z.to_nat 0x4000) 0x11 ++ replicate (Z.to_nat 0x4000) 0x22.
Definition sega_memory : SmsMemory := (sms_memory_init two_banks 0x8000 SMS_MAPPER_SEGA).1.
Definition sample_ops : list MemoryOp :=
  [Op_write 0xFFFE 0 10; Op_write 0x4001 0x99 20; Op_write 0xFFFC 0x08 30; Op_write 0x8005 0x77 40; Op_write 0xC123 0x5A 50].

Lemma two_banks_ok : Forall is_u8 two_banks /\ zlen two_banks = 0x8000 /\ sms_memory_init two_banks 0x8000 SMS_MAPPER_SEGA = (sega_memory, SMS_OK).
Proof.
  split; [apply Forall_app; split; apply Forall_replicate; by vm_compute|]. split; [by_evaluation|]. done.
Qed.

Lemma sample_ops_ok : Forall op_ok sample_ops.
Proof. repeat (constructor; [by vm_compute|]). constructor. Qed.

Lemma code_image_exact_witness :
  sms_memory_code_image (accesses sample_ops sega_memory) 0x4001 = Some (mkCodeImage 2 0x4000) /\
  (sms_memory_read (accesses sample_ops sega_memory) 0x4001 60).2 = 0x11 /\
  let m := accesses sample_ops sega_memory in
  match sms_memory_code_image m 0x4001 with
  | Some image => ~ not_rom m 0x4001 /\ exists byte, sms_memory_read m 0x4001 60 = (m, byte) /\
      declared (executable_images (mkIngest SMS_OK two_banks SMS_MAPPER_SEGA (sms_bank_count 0x8000))) image 0x4001 byte
  | None => not_rom m 0x4001
  end.
Proof.
  split; [by_evaluation|]. split; [by_evaluation|]. assert (Ha : is_u16 0x4001) by (by vm_compute).
  assert (Hrun : error (accesses sample_ops sega_memory) = SMS_OK) by by_evaluation. destruct two_banks_ok as (H1 & H2 & H3).
  exact (code_image_exact two_banks 0x8000 SMS_MAPPER_SEGA sega_memory sample_ops 0x4001 60 H1 H2 H3 sample_ops_ok Ha Hrun).
Defined.

Lemma first_error_wins_witness :
  let ops := sample_ops ++ [Op_write 0xFFFC 0x18 60; Op_write 0xC000 1 70] in
  let m := accesses ops sega_memory in
  (error m, error_address m, error_value m, error_cycles m) = (SMS_ERROR_CONTROL_BIT_UNSUPPORTED, 0xFFFC, 0x18, 60) /\
  (error m = SMS_OK <-> forall before op after, ops = before ++ op :: after -> fault (accesses before sega_memory) op = None) /\
  (error m <> SMS_OK -> exists before op after f, ops = before ++ op :: after /\ error (accesses before sega_memory) = SMS_OK /\
     fault (accesses before sega_memory) op = Some f /\ m = latched (accesses before sega_memory) f /\
     (error m, error_address m, error_value m, error_cycles m) = f /\
     forall a c, sms_memory_read m a c = (m, 0xFF) /\ sms_memory_code_image m a = None).
Proof.
  intros ops m. split; [by_evaluation|]. refine (first_error_wins sega_memory ops _ _); [by_evaluation|].
  apply Forall_app; split; [exact sample_ops_ok|]. repeat (constructor; [by vm_compute|]). constructor.
Defined.

Lemma memory_reads_last_write_witness :
  let m := accesses sample_ops sega_memory in
  ((sms_memory_read m 0xE123 60).2, (sms_memory_read m 0x8005 60).2, znth (mapper_regs m) 2 0) = (0x5A, 0x77, 0) /\
  (forall address cycles, 0xC000 <= address < 0x10000 ->
     (sms_memory_read m address cycles).2 =
       last_store (fun a => (0xC000 <=? a) && (a mod 0x2000 =? address mod 0x2000)) sample_ops (if address mod 0x2000 =? 0 then 0xAB else 0)) /\
  (SMS_MAPPER_SEGA = SMS_MAPPER_SEGA ->
     (forall k, 0 <= k < 4 -> znth (mapper_regs m) k 0 = last_store (fun a => a =? 0xFFFC + k) sample_ops (znth sms_sega_reset_regs k 0)) /\
     (forall address cycles o, is_u16 address -> cart_target (znth (mapper_regs m) 0 0) address = Some o ->
        (sms_memory_read m address cycles).2 = (last_cart o sample_ops (0, 0)).2)).
Proof.
  intros m. split; [by_evaluation|]. destruct two_banks_ok as (H1 & H2 & H3).
  refine (memory_reads_last_write two_banks 0x8000 SMS_MAPPER_SEGA sega_memory sample_ops H1 H2 H3 sample_ops_ok _). by_evaluation.
Defined.
