(* ===== verification/SmsCartridge.v ===== *)
(** Cartridge ingestion for the Master System: the mapper manifest, the profile,
    size and mapper checks and the recorded identity of [cartridge.cpp] and
    [cartridge.hpp].

    The manifest's text is a list of characters, its cursor the rest of that list;
    the map of its keys is a finite map. *)

From Stdlib Require Import Ascii String.
From stdpp Require Import pretty.
From S2P Require Import Prelude Sha256 Rom SmsMemory.

(** * Declarations and results *)

Inductive DeclarationSource : Type := build_option | manifest | fixture_builder | local_identity.

#[export] Instance DeclarationSource_eq_dec : EqDecision DeclarationSource.
Proof. solve_decision. Defined.

Definition source_code (s : DeclarationSource) : Z :=
  match s with build_option => 0 | manifest => 1 | fixture_builder => 2 | local_identity => 3 end.

Definition declaration_source_name (s : DeclarationSource) : string :=
  match s with
  | build_option => "build_option" | manifest => "manifest" | fixture_builder => "fixture_builder" | local_identity => "local_identity"
  end.

Inductive ChecksumStatus : Type := checksum_match | checksum_mismatch | not_evaluated.

Definition checksum_status_name (s : ChecksumStatus) : string :=
  match s with checksum_match => "match" | checksum_mismatch => "mismatch" | not_evaluated => "not_evaluated" end.

Definition mapper_family_name (family : SmsMapperFamily) : string :=
  match family with SMS_MAPPER_SEGA => "sega" | SMS_MAPPER_ROM_ONLY => "rom_only" | SMS_MAPPER_UNDECLARED => "undeclared" end.

Record MapperDeclaration := mkDeclaration { decl_family : string; decl_source : DeclarationSource }.
Record ManifestResult := mkManifestResult { manifest_error : SmsError; manifest_detail : string; declaration : MapperDeclaration }.
Record IngestOptions := mkOptions { explicit_profile : bool; declarations : list MapperDeclaration }.

Record CartridgeIdentity := mkIdentity {
  id_sha256 : string; id_size : Z; id_header_class : string; id_header_offset : Z; id_region : string; id_profile : string;
  id_mapper : SmsMapperFamily; id_declaration_source : DeclarationSource; id_bank_count : Z; id_header_size_code : Z;
  id_checksum : ChecksumStatus }.

Record CartridgeResult := mkCartridge { result_error : SmsError; result_detail : string; result_identity : CartridgeIdentity; result_rom : list Z }.

Definition blank_identity : CartridgeIdentity :=
  mkIdentity "" 0 "" 0 "" "" SMS_MAPPER_UNDECLARED build_option 0 0 not_evaluated.

Definition profile_name : string := "sms2_ntsc_export".

(** * The manifest *)

Definition to_lower (c : ascii) : ascii :=
  let b := char_byte c in if (0x41 <=? b) && (b <=? 0x5A) then byte_char (b + 0x20) else c.

Definition normalize (name : string) : string :=
  String.string_of_list_ascii (map (fun c => if Ascii.eqb c "-" then "_"%char else to_lower c) (String.list_ascii_of_string name)).

Definition unsupported_names : list string :=
  ["codemasters"; "korean"; "korean_msx"; "korean_zemina"; "msx"; "nemesis"; "janggun"; "4pak"; "4_pak"; "eeprom"; "eeprom_93c46";
   "multicart"; "sg1000"; "sega_korean"; "korea"]%string.

Definition known_unsupported (name : string) : bool := existsb (fun n => name =b n) unsupported_names.

Definition is_space (c : ascii) : bool := let b := char_byte c in (b =? 0x20) || ((9 <=? b) && (b <=? 13)).
Definition is_alnum (c : ascii) : bool :=
  let b := char_byte c in
  ((0x30 <=? b) && (b <=? 0x39)) || ((0x41 <=? b) && (b <=? 0x5A)) || ((0x61 <=? b) && (b <=? 0x7A)).
Definition bare_char (c : ascii) : bool := is_alnum c || Ascii.eqb c "-" || Ascii.eqb c ".".

Definition quote : ascii := ascii_of_N 34.
Definition backslash : ascii := ascii_of_N 92.

Fixpoint skip (text : list ascii) : list ascii :=
  match text with [] => [] | c :: rest => if is_space c then skip rest else text end.

(** The lambda [string] after its opening quote: the value, and the text after the
    closing one. *)
Fixpoint string_body (text value : list ascii) : option (list ascii * list ascii) :=
  match text with
  | [] => None
  | c :: rest =>
      if Ascii.eqb c quote then Some (value, rest)
      else if Ascii.eqb c backslash then
        match rest with
        | e :: rest' =>
            if Ascii.eqb e quote || Ascii.eqb e backslash || Ascii.eqb e "/" then string_body rest' (value ++ [e]) else None
        | [] => None
        end
      else string_body rest (value ++ [c])
  end.

Definition json_string (text : list ascii) : option (list ascii * list ascii) :=
  match text with
  | c :: rest => if Ascii.eqb c quote then string_body rest [] else None
  | [] => None
  end.

Fixpoint bare_value (text value : list ascii) : list ascii * list ascii :=
  match text with
  | c :: rest => if bare_char c then bare_value rest (value ++ [c]) else (value, text)
  | [] => (value, [])
  end.

Definition json_value (text : list ascii) : option (list ascii * list ascii) :=
  match text with
  | c :: _ =>
      if Ascii.eqb c quote then json_string text
      else let '(value, rest) := bare_value text [] in match value with [] => None | _ => Some (value, rest) end
  | [] => None
  end.

(** The character the cursor must be at. *)
Definition expect (c : ascii) (text : list ascii) : option (list ascii) :=
  match text with d :: rest => if Ascii.eqb d c then Some rest else None | [] => None end.

Definition at_end (text : list ascii) : bool := match skip text with [] => true | _ => false end.

(** The [for] loop over the members, each of which takes at least one character. *)
Fixpoint members (fuel : nat) (text : list ascii) (out : gmap string string) : option (gmap string string) :=
  match fuel with
  | O => None
  | S fuel =>
      '(key, rest) ← json_string (skip text);
      rest ← expect ":" (skip rest);
      '(value, rest) ← json_value (skip rest);
      let key := String.string_of_list_ascii key in
      match out !! key with
      | Some _ => None
      | None =>
          let out := <[key := String.string_of_list_ascii value]> out in
          match skip rest with
          | c :: rest =>
              if Ascii.eqb c "," then members fuel rest out
              else if Ascii.eqb c "}" then (if at_end rest then Some out else None)
              else None
          | [] => None
          end
      end
  end.

Definition parse_flat_json (text : string) : option (gmap string string) :=
  rest ← expect "{" (skip (String.list_ascii_of_string text));
  let rest := skip rest in
  match rest with
  | c :: rest' =>
      if Ascii.eqb c "}" then (if at_end rest' then Some ∅ else None) else members (S (List.length rest)) rest ∅
  | [] => members (S (List.length rest)) rest ∅
  end.

Definition default_declaration : MapperDeclaration := mkDeclaration "" build_option.
Definition reject (detail : string) : ManifestResult := mkManifestResult SMS_ERROR_MAPPER_UNDECLARED detail default_declaration.

Definition parse_mapper_manifest (text input_sha256 : string) : ManifestResult :=
  match parse_flat_json text with
  | None => reject "mapper manifest is not a flat JSON object"
  | Some keys =>
      match keys !! "mapper"%string with
      | None | Some ""%string => reject "mapper manifest names no mapper"
      | Some mapper =>
          match keys !! "sha256"%string with
          | None => reject "mapper manifest carries no sha256 of the input"
          | Some digest =>
              if negb (digest =b input_sha256) then reject "mapper manifest sha256 does not match the input"
              else
                let accept source := mkManifestResult SMS_OK "" (mkDeclaration mapper source) in
                match keys !! "declaration_source"%string with
                | None => accept manifest
                | Some declared =>
                    if declared =b "fixture_builder"%string then accept fixture_builder
                    else if declared =b "local_identity"%string then accept local_identity
                    else if negb (declared =b "manifest"%string) then reject "mapper manifest has an unknown declaration_source"
                    else accept manifest
                end
          end
      end
  end.

(** * The checksum *)

Definition checksum_limit (code : Z) : Z :=
  match code with
  | 0xA => 0x2000 | 0xB => 0x4000 | 0xC => 0x8000 | 0xE => 0x10000 | 0xF => 0x20000 | 0x0 => 0x40000 | 0x1 => 0x80000 | _ => 0
  end.

Definition evaluate_checksum (rom : list Z) (header code : Z) : ChecksumStatus :=
  let limit := checksum_limit code in
  if (limit =? 0) || (zlen rom <? limit) || (limit <? header + 16) then not_evaluated
  else
    let sum := (fold_left (fun '(i, sum) byte => (i + 1, if (i <? header) || (header + 16 <=? i) then u32 (sum + byte) else sum))
                  (take (Z.to_nat limit) rom) (0, 0)).2 in
    let stored := znth rom (header + 10) 0 .| (znth rom (header + 11) 0 .<< 8) in
    if (sum .& 0xFFFF) =? stored then checksum_match else checksum_mismatch.

(** * Ingestion *)

Definition fail (error : SmsError) (detail : string) : CartridgeResult := mkCartridge error detail blank_identity [].

(** The offset of the last valid candidate of the family. *)
Definition header_offset (cs : list HeaderCandidate) : Z :=
  fold_left (fun offset c => if (c_status c =b "valid"%string) && (c_family c =b "master_system"%string) then c_offset c else offset) cs 0.

(** Part 1: the platform and profile.  The identity so far, or the failure. *)
Definition ingest_profile (rom : list Z) (options : IngestOptions) : CartridgeIdentity + CartridgeResult :=
  let info := inspect_rom rom in
  let id header_class offset region code checksum :=
    mkIdentity "" 0 header_class offset region profile_name SMS_MAPPER_UNDECLARED build_option 0 code checksum in
  match outcome info with
  | recognized =>
      match platform info with
      | P_master_system =>
          if negb (region_system info =b "sms_export"%string)
          then inr (fail SMS_ERROR_PROFILE_UNSUPPORTED
                      ("unsupported region " +:+ region_system info +:+ " (baseline: sms_export)"))
          else
            let offset := header_offset (candidates info) in
            inl (id "tmr_sega"%string offset (region_system info) (rom_size_code info) (evaluate_checksum rom offset (rom_size_code info)))
      | other => inr (fail SMS_ERROR_PROFILE_UNSUPPORTED ("header recognizes another platform: " +:+ platform_name other))
      end
  | _ =>
      if negb (explicit_profile options)
      then inr (fail SMS_ERROR_PROFILE_UNSUPPORTED
                  ("no unambiguous Master System header (" +:+ diagnostic_name (diagnostic info) +:+ "): select the platform/profile explicitly"))
      else inl (id "none"%string 0 "unspecified"%string 0 not_evaluated)
  end.

(** The declarations in the order of their sources. *)
Definition by_source (a b : MapperDeclaration) : Prop := source_code (decl_source a) <= source_code (decl_source b).
#[export] Instance by_source_dec a b : Decision (by_source a b).
Proof. unfold by_source. apply _. Defined.

(** Part 3: the mapper and the source that declared it. *)
Definition ingest_mapper (declarations : list MapperDeclaration) : (SmsMapperFamily * DeclarationSource) + CartridgeResult :=
  match merge_sort by_source declarations with
  | [] => inr (fail SMS_ERROR_MAPPER_UNDECLARED "no mapper declaration (build option, manifest, fixture or local identity)")
  | (front :: _) as sorted =>
      let name := normalize (decl_family front) in
      if existsb (fun d => negb (normalize (decl_family d) =b name)) sorted
      then inr (fail SMS_ERROR_MAPPER_UNDECLARED "conflicting mapper declarations")
      else if name =b "sega"%string then inl (SMS_MAPPER_SEGA, decl_source front)
      else if name =b "rom_only"%string then inl (SMS_MAPPER_ROM_ONLY, decl_source front)
      else if known_unsupported name then inr (fail SMS_ERROR_MAPPER_UNSUPPORTED ("mapper family '" +:+ name +:+ "' is outside the baseline"))
      else inr (fail SMS_ERROR_MAPPER_UNDECLARED "unknown mapper family name")
  end.

Definition ingest_cartridge (rom : list Z) (options : IngestOptions) : CartridgeResult :=
  match ingest_profile rom options with
  | inr failure => failure
  | inl id =>
      let size := u32 (Z.min (zlen rom) 0xFFFFFFFF) in
      if negb (zlen rom =? size) || negb (sms_rom_size_supported size)
      then fail SMS_ERROR_ROM_SIZE_UNSUPPORTED ("ROM size " +:+ pretty (Z.to_N (zlen rom)) +:+ " is not 32/64/128/256/512 KiB")
      else
        match ingest_mapper (declarations options) with
        | inr failure => failure
        | inl (mapper, source) =>
            if (if decide (mapper = SMS_MAPPER_ROM_ONLY) then negb (size =? SMS_ROM_ONLY_SIZE) else false)
            then fail SMS_ERROR_ROM_SIZE_UNSUPPORTED "rom_only requires a 32 KiB ROM"
            else
              mkCartridge SMS_OK ""
                (mkIdentity (sha256_hex rom) (zlen rom) (id_header_class id) (id_header_offset id) (id_region id) (id_profile id) mapper source
                   (sms_bank_count size) (id_header_size_code id) (id_checksum id)) rom
        end
  end.

(** * The syntax of a manifest *)

Definition blank (s : list ascii) : Prop := forallb is_space s = true.

(** [body] spells [value] between quotes. *)
Inductive escapes : list ascii -> list ascii -> Prop :=
| Escapes_nil : escapes [] []
| Escapes_plain c value body : c <> quote -> c <> backslash -> escapes value body -> escapes (c :: value) (c :: body)
| Escapes_escape c value body : c ∈ [quote; backslash; "/"%char] -> escapes value body -> escapes (c :: value) (backslash :: c :: body).

(** A value: quoted, or a bare word. *)
Inductive value_text : list ascii -> list ascii -> Prop :=
| Value_string value body : escapes value body -> value_text value (quote :: body ++ [quote])
| Value_bare value : value <> [] -> forallb bare_char value = true -> value_text value value.

Inductive member_text : list ascii * list ascii -> list ascii -> Prop :=
| Member key value s1 kbody s2 s3 vtext s4 : blank s1 -> blank s2 -> blank s3 -> blank s4 -> escapes key kbody -> value_text value vtext ->
    member_text (key, value) (s1 ++ quote :: kbody ++ quote :: s2 ++ ":"%char :: s3 ++ vtext ++ s4).

(** Members separated by commas. *)
Inductive members_text : list (list ascii * list ascii) -> list ascii -> Prop :=
| Members_last m text : member_text m text -> members_text [m] text
| Members_more m ms text rest : member_text m text -> members_text ms rest -> members_text (m :: ms) (text ++ ","%char :: rest).

(** A flat object with these members. *)
Inductive object_text (ms : list (list ascii * list ascii)) : list ascii -> Prop :=
| Object s1 body s2 : blank s1 -> blank s2 -> (ms = [] /\ blank body) \/ members_text ms body ->
    object_text ms (s1 ++ "{"%char :: body ++ "}"%char :: s2).

(** * The scanners, exactly *)

Lemma skip_text text : exists s, blank s /\ text = s ++ skip text.
Proof.
  induction text as [|c rest IH]; [by exists []|]. simpl. destruct (is_space c) eqn:Hc; [|by exists []].
  destruct IH as (s & Hs & Heq). exists (c :: s). split; [unfold blank; simpl; by rewrite Hc|]. simpl. by f_equal.
Qed.

Lemma skip_blank s text : blank s -> skip (s ++ text) = skip text.
Proof. induction s as [|c s IH]; [done|]. unfold blank. simpl. intros [-> H]%andb_true_iff. by apply IH. Qed.

Lemma skip_at c rest : is_space c = false -> skip (c :: rest) = c :: rest.
Proof. simpl. by intros ->. Qed.

Lemma blank_app a b : blank a -> blank b -> blank (a ++ b).
Proof. unfold blank. intros Ha Hb. by rewrite forallb_app, Ha, Hb. Qed.

Lemma at_end_exact text : at_end text = true <-> blank text.
Proof.
  unfold at_end. split.
  - destruct (skip_text text) as (s & Hs & Heq). destruct (skip text); [|done]. intros _. by rewrite Heq, app_nil_r.
  - intros H. rewrite <- (app_nil_r text), skip_blank by done. done.
Qed.

Lemma expect_exact c text rest : expect c text = Some rest <-> text = c :: rest.
Proof.
  split; [|intros ->; simpl; by rewrite Ascii.eqb_refl]. destruct text as [|d t]; simpl; [done|].
  destruct (Ascii.eqb_spec d c) as [->|]; [|done]. by intros [= ->].
Qed.

Lemma string_body_written value body rest acc : escapes value body -> string_body (body ++ quote :: rest) acc = Some (acc ++ value, rest).
Proof.
  intros H. revert acc. induction H as [|c value body Hq Hb H IH|c value body Hc H IH]; intros acc.
  - simpl. by rewrite app_nil_r.
  - simpl. rewrite (proj2 (Ascii.eqb_neq c quote)), (proj2 (Ascii.eqb_neq c backslash)) by done. rewrite IH, <- app_assoc. done.
  - cbn [app string_body]. change (Ascii.eqb backslash quote) with false. change (Ascii.eqb backslash backslash) with true. cbv iota.
    replace (Ascii.eqb c quote || Ascii.eqb c backslash || Ascii.eqb c "/") with true
      by (rewrite !elem_of_cons in Hc; destruct_or! Hc; subst; try done; by apply elem_of_nil in Hc).
    rewrite IH, <- app_assoc. done.
Qed.

Lemma string_body_read n text acc value rest : (List.length text <= n)%nat -> string_body text acc = Some (value, rest) ->
  exists v body, value = acc ++ v /\ escapes v body /\ text = body ++ quote :: rest.
Proof.
  revert text acc. induction n as [|n IH]; intros [|c text] acc Hn; simpl in *; try done; [lia|].
  destruct (Ascii.eqb_spec c quote) as [->|Hq].
  { intros [= -> ->]. exists [], []. split_and!; [by rewrite app_nil_r|constructor|done]. }
  destruct (Ascii.eqb_spec c backslash) as [->|Hb].
  - destruct text as [|e text]; [done|]. destruct (_ || _ || _) eqn:He; [|done]. intros H.
    apply IH in H as (v & body & -> & Hv & ->); [|simpl in Hn; lia]. exists (e :: v), (backslash :: e :: body).
    split_and!; [by rewrite <- app_assoc| |done]. constructor; [|done]. rewrite !orb_true_iff, !Ascii.eqb_eq in He.
    destruct He as [[-> | ->] | ->]; rewrite !elem_of_cons; auto.
  - intros H. apply IH in H as (v & body & -> & Hv & ->); [|lia]. exists (c :: v), (c :: body).
    split_and!; [by rewrite <- app_assoc|by constructor|done].
Qed.

Lemma json_string_exact text value rest :
  json_string text = Some (value, rest) <-> exists body, escapes value body /\ text = quote :: body ++ quote :: rest.
Proof.
  split.
  - destruct text as [|c text]; simpl; [done|]. destruct (Ascii.eqb_spec c quote) as [->|]; [|done]. intros H.
    apply (string_body_read (List.length text)) in H as (v & body & -> & Hv & ->); [|done]. by exists body.
  - intros (body & Hv & ->). simpl. by apply (string_body_written value body rest []).
Qed.

(** The text does not go on with a bare character. *)
Definition stops (rest : list ascii) : Prop := match rest with [] => True | c :: _ => bare_char c = false end.

Lemma bare_value_written value rest acc : forallb bare_char value = true -> stops rest -> bare_value (value ++ rest) acc = (acc ++ value, rest).
Proof.
  revert acc. induction value as [|c value IH]; intros acc; simpl.
  - intros _ Hs. rewrite app_nil_r. destruct rest as [|c rest]; [done|]. simpl in *. by rewrite Hs.
  - intros [-> H]%andb_true_iff Hs. rewrite IH, <- app_assoc by done. done.
Qed.

Lemma bare_value_read text acc value rest : bare_value text acc = (value, rest) ->
  exists v, value = acc ++ v /\ forallb bare_char v = true /\ text = v ++ rest.
Proof.
  revert acc. induction text as [|c text IH]; intros acc; simpl.
  - intros [= <- <-]. exists []. by rewrite app_nil_r.
  - destruct (bare_char c) eqn:Hc.
    + intros (v & -> & Hv & ->)%IH. exists (c :: v). simpl. by rewrite <- app_assoc, Hc.
    + intros [= <- <-]. exists []. by rewrite app_nil_r.
Qed.

Lemma json_value_written value vtext rest : value_text value vtext -> stops rest -> json_value (vtext ++ rest) = Some (value, rest).
Proof.
  intros [v body Hv|v Hne Hb] Hs.
  - change (json_value ((quote :: body ++ [quote]) ++ rest)) with (json_string ((quote :: body ++ [quote]) ++ rest)).
    apply json_string_exact. exists body. split; [done|]. simpl. by rewrite <- app_assoc.
  - destruct v as [|c v]; [done|]. simpl in Hb. apply andb_true_iff in Hb as [Hc Hb]. simpl.
    destruct (Ascii.eqb_spec c quote) as [->|]; [done|]. rewrite Hc, (bare_value_written v rest [c]) by done. done.
Qed.

Lemma json_value_read text value rest : json_value text = Some (value, rest) -> exists vtext, value_text value vtext /\ text = vtext ++ rest.
Proof.
  destruct text as [|c text]; [done|]. unfold json_value. destruct (Ascii.eqb_spec c quote) as [->|].
  - intros (body & Hv & ->)%json_string_exact. exists (quote :: body ++ [quote]). split; [by constructor|]. simpl. by rewrite <- app_assoc.
  - destruct (bare_value (c :: text) []) as [v rest'] eqn:Hb. destruct v as [|c' v]; [done|]. intros [= <- <-].
    apply bare_value_read in Hb as (w & Hw & Hbare & ->). simpl in Hw. subst w. exists (c' :: v).
    split; [by apply Value_bare|done].
Qed.

(** Reading one member: what [members] does before the separator. *)
Definition read_member (text : list ascii) : option (list ascii * list ascii * list ascii) :=
  '(key, rest) ← json_string (skip text);
  rest ← expect ":" (skip rest);
  '(value, rest) ← json_value (skip rest);
  Some (key, value, skip rest).

Lemma value_head value vtext : value_text value vtext -> exists c rest, vtext = c :: rest /\ is_space c = false.
Proof.
  intros [v body Hv|v Hne Hb]; [by exists quote, (body ++ [quote])|]. destruct v as [|c v]; [done|]. exists c, v. split; [done|].
  simpl in Hb. apply andb_true_iff in Hb as [Hb _]. unfold bare_char, is_alnum, is_space in *. rewrite !orb_true_iff, !Ascii.eqb_eq in Hb.
  destruct Hb as [[Hb| ->]| ->]; [|done..]. rewrite !andb_true_iff, !Z.leb_le in Hb.
  apply orb_false_iff. split; [apply Z.eqb_neq; lia|]. apply andb_false_iff. right. apply Z.leb_gt. lia.
Qed.

Lemma stops_after s rest : blank s -> stops rest -> stops (s ++ rest).
Proof.
  destruct s as [|c s]; [done|]. unfold blank. simpl. intros [Hc _]%andb_true_iff _. unfold bare_char, is_alnum, is_space in *.
  rewrite orb_true_iff, andb_true_iff, Z.eqb_eq, !Z.leb_le in Hc. rewrite !orb_false_iff, !Ascii.eqb_neq, !andb_false_iff, !Z.leb_gt.
  split_and!; [lia|lia|lia|..]; intros ->; vm_compute in Hc; destruct Hc as [?|[? ?]]; done.
Qed.

Lemma read_member_written m text rest : member_text m text -> stops rest -> (forall c r, rest = c :: r -> is_space c = false) ->
  read_member (text ++ rest) = Some (m.1, m.2, rest).
Proof.
  intros [key value s1 kbody s2 s3 vtext s4 H1 H2 H3 H4 Hk Hv] Hs Hsp. unfold read_member. rewrite <- !app_assoc, skip_blank by done.
  cbn [app]. rewrite <- !app_assoc. rewrite skip_at by done.
  rewrite (proj2 (json_string_exact _ key (s2 ++ ":"%char :: s3 ++ vtext ++ s4 ++ rest))).
  2: { exists kbody. split; [done|]. cbn [app]. rewrite <- !app_assoc. cbn [app]. by rewrite <- !app_assoc. }
  cbn [mbind option_bind]. rewrite skip_blank, skip_at by done. rewrite (proj2 (expect_exact _ _ (s3 ++ vtext ++ s4 ++ rest))) by done.
  cbn [mbind option_bind]. rewrite skip_blank by done. destruct (value_head _ _ Hv) as (c & v & -> & Hc). cbn [app]. rewrite skip_at by done.
  change (c :: v ++ s4 ++ rest) with ((c :: v) ++ s4 ++ rest). rewrite (json_value_written value (c :: v) (s4 ++ rest)); [|done|by apply stops_after].
  cbn [mbind option_bind]. rewrite skip_blank by done. destruct rest as [|d rest]; [done|]. by rewrite skip_at by (by eapply Hsp).
Qed.

Lemma read_member_read text key value rest : read_member text = Some (key, value, rest) ->
  exists mtext, member_text (key, value) mtext /\ text = mtext ++ rest.
Proof.
  unfold read_member. destruct (json_string (skip text)) as [[k r1]|] eqn:Hk; [|done]. cbn [mbind option_bind].
  destruct (expect ":" (skip r1)) as [r2|] eqn:Hc; [|done]. cbn [mbind option_bind].
  destruct (json_value (skip r2)) as [[v r3]|] eqn:Hv; [|done]. cbn [mbind option_bind]. intros [= -> -> <-].
  apply json_string_exact in Hk as (kbody & Hk & E1). apply expect_exact in Hc. apply json_value_read in Hv as (vtext & Hv & E3).
  destruct (skip_text text) as (s1 & H1 & ->). destruct (skip_text r1) as (s2 & H2 & E2). destruct (skip_text r2) as (s3 & H3 & E4).
  destruct (skip_text r3) as (s4 & H4 & E5).
  exists (s1 ++ quote :: kbody ++ quote :: s2 ++ ":"%char :: s3 ++ vtext ++ s4). split; [by constructor|].
  rewrite E1, E2, Hc, E4, E3. rewrite E5 at 1. repeat (rewrite <- !app_assoc; cbn [app]). done.
Qed.

Definition text_of (l : list ascii) : string := String.string_of_list_ascii l.

(** The map of the members read after [out]. *)
Definition collect (ms : list (list ascii * list ascii)) (out : gmap string string) : gmap string string :=
  fold_left (fun out m => <[text_of m.1 := text_of m.2]> out) ms out.

(** No key twice, and none already read. *)
Definition fresh (ms : list (list ascii * list ascii)) (out : gmap string string) : Prop :=
  NoDup (map (fun m => text_of m.1) ms) /\ forall m, m ∈ ms -> out !! text_of m.1 = None.

Lemma members_step fuel text out : members (S fuel) text out =
  match read_member text with
  | None => None
  | Some (key, value, rest) =>
      match out !! text_of key with
      | Some _ => None
      | None =>
          let out := <[text_of key := text_of value]> out in
          match rest with
          | c :: rest =>
              if Ascii.eqb c "," then members fuel rest out
              else if Ascii.eqb c "}" then (if at_end rest then Some out else None)
              else None
          | [] => None
          end
      end
  end.
Proof.
  cbn [members]. unfold read_member. destruct (json_string _) as [[k r1]|]; [|done]. cbn [mbind option_bind].
  destruct (expect _ _) as [r2|]; [|done]. cbn [mbind option_bind]. by destruct (json_value _) as [[v r3]|].
Qed.

Lemma fresh_cons m ms out : fresh (m :: ms) out <-> out !! text_of m.1 = None /\ fresh ms (<[text_of m.1 := text_of m.2]> out).
Proof.
  unfold fresh. cbn [map]. rewrite NoDup_cons. split.
  - intros [[Hm Hn] Hf]. split_and!; [apply Hf; left|done|]. intros m' Hm'. rewrite lookup_insert_ne; [apply Hf; by right|].
    intros Heq. apply Hm. rewrite Heq. by apply (list_elem_of_fmap_2 (fun m => text_of m.1)).
  - intros (H0 & Hn & Hf). assert (forall m', m' ∈ ms -> text_of m.1 <> text_of m'.1) as Hne.
    { intros m' Hm' Heq. specialize (Hf m' Hm'). by rewrite Heq, lookup_insert_eq in Hf. }
    split_and!; [|done|].
    + intros (m' & Heq & Hm')%list_elem_of_fmap. by apply (Hne m').
    + intros m' [->|Hm']%elem_of_cons; [done|]. specialize (Hf m' Hm'). by rewrite lookup_insert_ne in Hf by auto.
Qed.

Lemma members_read fuel text out out' : members fuel text out = Some out' ->
  exists ms body s, members_text ms body /\ blank s /\ text = body ++ "}"%char :: s /\ fresh ms out /\ out' = collect ms out.
Proof.
  revert text out. induction fuel as [|fuel IH]; intros text out; [done|]. rewrite members_step.
  destruct (read_member text) as [[[key value] rest]|] eqn:Hr; [|done]. apply read_member_read in Hr as (mtext & Hm & ->).
  destruct (out !! text_of key) eqn:Hk; [done|]. cbv zeta. destruct rest as [|c rest]; [done|].
  destruct (Ascii.eqb_spec c ",") as [->|_].
  - intros (ms & body & s & Hms & Hs & -> & Hf & ->)%IH. exists ((key, value) :: ms), (mtext ++ ","%char :: body), s.
    split_and!; [by constructor|done|by rewrite <- app_assoc|by apply fresh_cons|done].
  - destruct (Ascii.eqb_spec c "}") as [->|_]; [|done]. destruct (at_end rest) eqn:He; [|done]. intros [= <-].
    exists [(key, value)], mtext, rest. split_and!; [by constructor|by apply at_end_exact|done| |done].
    apply fresh_cons. split; [done|]. split; [constructor|]. by intros ? ?%elem_of_nil.
Qed.

Lemma members_written ms body s out fuel : members_text ms body -> blank s -> fresh ms out -> (List.length ms <= fuel)%nat ->
  members fuel (body ++ "}"%char :: s) out = Some (collect ms out).
Proof.
  intros Hms Hs. revert out fuel. induction Hms as [m text Hm|m ms text rest Hm Hms IH]; intros out [|fuel] Hf Hfuel; simpl in Hfuel; try lia;
    apply fresh_cons in Hf as [H0 Hf]; rewrite members_step.
  - rewrite (read_member_written m) by (done || by intros ? ? [= <- <-]). rewrite H0. cbn [Ascii.eqb Bool.eqb]. cbv zeta iota.
    by rewrite (proj2 (at_end_exact s)).
  - rewrite <- app_assoc. cbn [app]. rewrite (read_member_written m) by (done || by intros ? ? [= <- <-]). rewrite H0.
    apply IH; [done|lia].
Qed.

Lemma collect_map ms out : fresh ms out -> collect ms out = list_to_map (map (fun m => (text_of m.1, text_of m.2)) ms) ∪ out.
Proof.
  revert out. induction ms as [|m ms IH]; intros out Hf; [symmetry; apply (left_id_L ∅ (∪))|]. apply fresh_cons in Hf as Hf'. destruct Hf' as [H0 Hf'].
  cbn [collect fold_left map list_to_map foldr fst snd]. change (fold_left _ ms ?o) with (collect ms o). rewrite IH by done.
  destruct Hf as [Hn _]. cbn [map] in Hn. apply NoDup_cons in Hn as [Hn _].
  rewrite <- insert_union_r, insert_union_l; [done|]. apply not_elem_of_list_to_map_1. intros Hin. apply Hn.
  by rewrite <- list_fmap_compose in Hin.
Qed.

Lemma members_size ms body : members_text ms body -> (List.length ms <= List.length body)%nat.
Proof.
  assert (forall m text, member_text m text -> (1 <= List.length text)%nat) as H1.
  { intros m text []. rewrite !length_app. simpl. lia. }
  induction 1 as [m text Hm|m ms text rest Hm _ IH]; apply H1 in Hm; simpl; rewrite ?length_app; simpl; lia.
Qed.

Lemma skip_idem text : skip (skip text) = skip text.
Proof. induction text as [|c rest IH]; [done|]. simpl. destruct (is_space c) eqn:Hc; [done|]. by apply skip_at. Qed.

Lemma members_skip fuel text out : members fuel (skip text) out = members fuel text out.
Proof. destruct fuel; [done|]. cbn [members]. by rewrite skip_idem. Qed.

Lemma members_head ms body : members_text ms body ->
  exists s rest, blank s /\ body = s ++ quote :: rest /\ (List.length ms <= S (List.length rest))%nat.
Proof.
  assert (forall m text, member_text m text -> exists s rest, blank s /\ text = s ++ quote :: rest) as H1 by (intros m text []; eauto).
  intros [m text Hm|m ms' text rest Hm Hms]; apply H1 in Hm as (s & r & Hs & ->); exists s.
  - exists r. split_and!; [done..|simpl; lia].
  - exists (r ++ ","%char :: rest). apply members_size in Hms. split_and!; [done|by rewrite <- app_assoc|rewrite length_app; simpl; lia].
Qed.

Lemma members_blank ms s body : blank s -> members_text ms body -> members_text ms (s ++ body).
Proof.
  intros Hs. assert (forall m text, member_text m text -> member_text m (s ++ text)) as Hm.
  { intros _ _ [key value s1 kbody s2 s3 vtext s4 ? ? ? ? ? ?]. rewrite app_assoc. constructor; try done. by apply blank_app. }
  intros [m text H|m ms' text rest H Hms]; [constructor; auto|]. rewrite app_assoc. constructor; auto.
Qed.

(** C15. The manifest reader accepts exactly its flat objects: some members with
    quoted keys, quoted or bare values and blanks anywhere between them, no key twice
    and nothing after the closing brace; and the map it returns is that of the members,
    every escape undone.  The dialect is the reader's own: a bare value is any word of
    letters, digits, minus and dot, a string may hold raw control characters, and its
    only escapes are those of the quote, the backslash and the slash. *)
Theorem flat_json_exact (text : string) (keys : gmap string string) :
  parse_flat_json text = Some keys <->
  exists ms, object_text ms (String.list_ascii_of_string text) /\ NoDup (map (fun m => text_of m.1) ms) /\
    keys = list_to_map (map (fun m => (text_of m.1, text_of m.2)) ms).
Proof.
  unfold parse_flat_json. set (chars := String.list_ascii_of_string text). clearbody chars. split.
  - destruct (expect "{" (skip chars)) as [rest|] eqn:Hopen; [|done]. cbn [mbind option_bind]. apply expect_exact in Hopen.
    destruct (skip_text chars) as (s1 & H1 & ->). rewrite Hopen. destruct (skip_text rest) as (s2 & H2 & E2). intros Hp.
    assert ((exists s, blank s /\ skip rest = "}"%char :: s /\ keys = ∅) \/ members (S (List.length (skip rest))) (skip rest) ∅ = Some keys) as Hcase.
    { destruct (skip rest) as [|c r] eqn:Hr; [by right|]. destruct (Ascii.eqb_spec c "}") as [->|]; [|by right].
      destruct (at_end r) eqn:He; [|done]. injection Hp as <-. left. exists r. by apply at_end_exact in He. }
    destruct Hcase as [(s & Hs & E & ->)|Hm].
    + exists []. split_and!; [|constructor|done]. rewrite E2, E. constructor; [done..|by left].
    + apply members_read in Hm as (ms & body & s & Hms & Hs & E & Hf & ->). exists ms. split_and!; [|apply Hf|].
      * rewrite E2, E. rewrite (app_assoc s2). constructor; [done..|]. right. by apply members_blank.
      * rewrite collect_map by done. by rewrite (right_id_L ∅ (∪)).
  - intros (ms & [s1 body s2 H1 H2 Hbody] & Hn & ->). rewrite skip_blank, skip_at by done.
    rewrite (proj2 (expect_exact _ _ (body ++ "}"%char :: s2))) by done. cbn [mbind option_bind].
    destruct Hbody as [[-> Hb]|Hms].
    + rewrite skip_blank, skip_at by done. cbn [Ascii.eqb Bool.eqb]. cbv iota. by rewrite (proj2 (at_end_exact s2)).
    + assert (fresh ms ∅) as Hf by (split; [done|by intros ? _; apply lookup_empty]).
      pose proof (members_written ms body s2 ∅ (S (List.length (skip (body ++ "}"%char :: s2)))) Hms H2 Hf) as Hw.
      destruct (members_head _ _ Hms) as (s & r & Hs & Hbody & Hlen).
      assert (skip (body ++ "}"%char :: s2) = quote :: r ++ "}"%char :: s2) as E
        by (rewrite Hbody, <- app_assoc, skip_blank by done; cbn [app]; by rewrite skip_at).
      rewrite <- members_skip, E in Hw. rewrite E.
      change (Ascii.eqb quote "}") with false. cbv iota. rewrite Hw; [|simpl; rewrite length_app; simpl; lia].
      rewrite collect_map by done. by rewrite (right_id_L ∅ (∪)).
Qed.

(** * The order of the declarations *)

#[export] Instance by_source_total : Total by_source.
Proof. intros a b. unfold by_source. lia. Qed.
#[export] Instance by_source_trans : Transitive by_source.
Proof. intros a b c. unfold by_source. lia. Qed.

Lemma source_code_inj a b : source_code a = source_code b -> a = b.
Proof. by destruct a, b. Qed.

Lemma front_least l front rest : merge_sort by_source l = front :: rest -> forall d, d ∈ l -> by_source front d.
Proof.
  intros Hs d Hd. pose proof (StronglySorted_merge_sort by_source l) as Hsorted. rewrite Hs in Hsorted.
  rewrite <- (merge_sort_Permutation by_source l), Hs in Hd. apply elem_of_cons in Hd as [->|Hd]; [unfold by_source; lia|].
  apply StronglySorted_inv in Hsorted as [_ Hf]. rewrite Forall_forall in Hf. by apply Hf.
Qed.

(** All the declarations give one name. *)
Definition one_name (l : list MapperDeclaration) (name : string) : Prop := l <> [] /\ forall d, d ∈ l -> normalize (decl_family d) = name.
Definition least_source (l : list MapperDeclaration) (s : DeclarationSource) : Prop :=
  exists d, d ∈ l /\ decl_source d = s /\ forall d', d' ∈ l -> source_code s <= source_code (decl_source d').

(** What the mapper part makes of the name and the source. *)
Definition judge (name : string) (source : DeclarationSource) : (SmsMapperFamily * DeclarationSource) + CartridgeResult :=
  if name =b "sega"%string then inl (SMS_MAPPER_SEGA, source)
  else if name =b "rom_only"%string then inl (SMS_MAPPER_ROM_ONLY, source)
  else if known_unsupported name then inr (fail SMS_ERROR_MAPPER_UNSUPPORTED ("mapper family '" +:+ name +:+ "' is outside the baseline"))
  else inr (fail SMS_ERROR_MAPPER_UNDECLARED "unknown mapper family name").

Inductive mapper_view (l : list MapperDeclaration) : (SmsMapperFamily * DeclarationSource) + CartridgeResult -> Prop :=
| Mapper_none : l = [] -> mapper_view l (inr (fail SMS_ERROR_MAPPER_UNDECLARED "no mapper declaration (build option, manifest, fixture or local identity)"))
| Mapper_conflict a b : a ∈ l -> b ∈ l -> normalize (decl_family a) <> normalize (decl_family b) ->
    mapper_view l (inr (fail SMS_ERROR_MAPPER_UNDECLARED "conflicting mapper declarations"))
| Mapper_judged name source : one_name l name -> least_source l source -> mapper_view l (judge name source).

Lemma ingest_mapper_view l : mapper_view l (ingest_mapper l).
Proof.
  unfold ingest_mapper. pose proof (merge_sort_Permutation by_source l) as Hp. pose proof (front_least l) as Hleast.
  destruct (merge_sort by_source l) as [|front rest]; [by apply Mapper_none, Permutation_nil_r|].
  assert (forall d, d ∈ l <-> d ∈ front :: rest) as Hin by (intros d; by rewrite Hp).
  destruct (existsb _ _) eqn:He.
  - apply existsb_exists in He as (d & Hd & Hne). apply negb_true_iff, bool_decide_eq_false in Hne.
    apply (Mapper_conflict l d front); [by apply Hin, list_elem_of_In|apply Hin; left|done].
  - apply Mapper_judged.
    + split; [by intros ->; apply Permutation_nil_r in Hp|]. intros d Hd. apply Hin, list_elem_of_In in Hd.
      destruct (decide (normalize (decl_family d) = normalize (decl_family front))) as [|Hne]; [done|]. exfalso.
      enough (existsb (fun d => negb (normalize (decl_family d) =b normalize (decl_family front))) (front :: rest) = true) by congruence.
      apply existsb_exists. exists d. split; [done|]. by apply negb_true_iff, bool_decide_eq_false.
    + exists front. split_and!; [apply Hin; left|done|]. intros d Hd. by eapply (Hleast front rest).
Qed.

Lemma mapper_view_unique l l' r r' : l ≡ₚ l' -> mapper_view l r -> mapper_view l' r' -> r = r'.
Proof.
  intros Hp Hr Hr'. assert (forall d, d ∈ l <-> d ∈ l') as Hin by (intros d; by rewrite Hp).
  assert (forall (k k' : list MapperDeclaration) a b name, (forall d, d ∈ k <-> d ∈ k') -> a ∈ k -> b ∈ k -> normalize (decl_family a) <> normalize (decl_family b) ->
    one_name k' name -> False) as Hclash.
  { intros k k' a b name Hk Ha Hb Hne [_ H]. apply Hne. rewrite (H a), (H b); [done|by apply Hk..]. }
  destruct Hr as [->|a b Ha Hb Hne|name source Hn Hs], Hr' as [->|a' b' Ha' Hb' Hne'|name' source' Hn' Hs']; try done.
  - by apply Hin, elem_of_nil in Ha'.
  - destruct Hn' as [Hn' _]. by apply Permutation_nil in Hp as ->.
  - by apply Hin, elem_of_nil in Ha.
  - exfalso. by apply (Hclash l l' a b name').
  - by destruct Hn as [Hn _]; apply Permutation_nil_r in Hp as ->.
  - exfalso. apply (Hclash l' l a' b' name); done.
  - destruct Hs as (d & Hd & <- & Hmin), Hs' as (d' & Hd' & <- & Hmin'). destruct Hn as [_ Hn], Hn' as [_ Hn'].
    replace name' with name by (rewrite <- (Hn d Hd); apply Hn'; by apply Hin).
    replace (decl_source d') with (decl_source d); [done|]. apply source_code_inj.
    specialize (Hmin d' ltac:(by apply Hin)). specialize (Hmin' d ltac:(by apply Hin)). lia.
Qed.

(** The result of an ingestion depends on which declarations are made, not on
    their order: permuting them gives the same cartridge or the same failure, its
    message and the recorded source included. *)
Theorem ingest_order (rom : list Z) (explicit : bool) (ds ds' : list MapperDeclaration) (Hp : ds ≡ₚ ds') :
  ingest_cartridge rom (mkOptions explicit ds) = ingest_cartridge rom (mkOptions explicit ds').
Proof.
  unfold ingest_cartridge. change (ingest_profile rom (mkOptions explicit ds')) with (ingest_profile rom (mkOptions explicit ds)).
  cbn [declarations]. by rewrite (mapper_view_unique ds ds' _ _ Hp (ingest_mapper_view ds) (ingest_mapper_view ds')).
Qed.

(** * What is accepted *)

(** The profile: the image's one header is an export Master System header, or it has
    no single header and the profile was asked for. *)
Inductive profile_ok (rom : list Z) (options : IngestOptions) : Prop :=
| Profile_header o code : single_header rom (H_eight_bit o "master_system" "sms_export" code) -> profile_ok rom options
| Profile_explicit : explicit_profile options = true -> (forall h, ~ single_header rom h) -> profile_ok rom options.

Lemma profile_exact rom options : Forall is_u8 rom ->
  match ingest_profile rom options with
  | inl _ => profile_ok rom options
  | inr r => result_error r = SMS_ERROR_PROFILE_UNSUPPORTED /\ ~ profile_ok rom options
  end.
Proof.
  intros Hu. unfold ingest_profile. pose proof (recognized_single rom Hu) as Hrec.
  destruct (outcome (inspect_rom rom)) eqn:Ho; cbv zeta.
  - destruct (proj1 Hrec eq_refl) as (h & Hh). pose proof (single_describes rom h Hu Hh) as (Hf & _ & Hd).
    assert (forall k, single_header rom k -> k = h) as Hone by (intros k (_ & _ & Hk & _); by apply Hh).
    assert (profile_ok rom options -> exists o code, h = H_eight_bit o "master_system" "sms_export" code) as Honly.
    { intros [o code Hk|_ Hno]; [|by destruct (Hno h)]. exists o, code. symmetry. by apply Hone. }
    destruct h as [name type title|o family region code].
    + destruct Hd as (-> & _). split; [done|]. intros Hk. by destruct (Honly Hk) as (? & ? & ?).
    + destruct Hd as (-> & -> & [(-> & -> & _)|(-> & -> & _)]).
      * case_bool_decide as Hr; cbn [negb]; [by subst region; eapply Profile_header|]. split; [done|].
        intros Hk. apply Honly in Hk as (? & ? & Heq). by simplify_eq.
      * split; [done|]. intros Hk. apply Honly in Hk as (? & ? & Heq). by simplify_eq.
  - assert (forall h, ~ single_header rom h) as Hno by (intros h Hh; assert (rejected = recognized) by (apply Hrec; by exists h); done).
    destruct (explicit_profile options) eqn:He; [by apply Profile_explicit|]. split; [done|]. intros [o code Hh|]; [by apply Hno in Hh|congruence].
  - assert (forall h, ~ single_header rom h) as Hno by (intros h Hh; assert (unrecognized = recognized) by (apply Hrec; by exists h); done).
    destruct (explicit_profile options) eqn:He; [by apply Profile_explicit|]. split; [done|]. intros [o code Hh|]; [by apply Hno in Hh|congruence].
Qed.

Lemma one_name_unique l a b : one_name l a -> one_name l b -> a = b.
Proof. intros [Hne Ha] [_ Hb]. destruct l as [|d l]; [done|]. rewrite <- (Ha d), (Hb d); [done|left..]. Qed.

Lemma mapper_exact l :
  match ingest_mapper l with
  | inl (family, source) => family <> SMS_MAPPER_UNDECLARED /\ one_name l (mapper_family_name family) /\ least_source l source
  | inr r => result_error r <> SMS_OK /\ forall family, family <> SMS_MAPPER_UNDECLARED -> ~ one_name l (mapper_family_name family)
  end.
Proof.
  destruct (ingest_mapper_view l) as [->|a b Ha Hb Hne|name source Hn Hs].
  - split; [done|]. by intros f _ [H _].
  - split; [done|]. intros f _ [_ H]. apply Hne. by rewrite (H a), (H b).
  - unfold judge. repeat case_bool_decide; subst; [by split_and!..|].
    assert (forall family, family <> SMS_MAPPER_UNDECLARED -> ~ one_name l (mapper_family_name family)) as Hno.
    { intros f Hf Hn'. pose proof (one_name_unique _ _ _ Hn Hn') as Heq. by destruct f. }
    by destruct (known_unsupported name).
Qed.

(** C21. A cartridge is accepted exactly when its one header is an export Master
    System header, or it has no single header and the profile is asked for; its size
    is 32 to 512 KiB, a power of two; and all its declarations name one of the two
    supported mappers, ROM-only needing 32 KiB.  The identity then records the image's
    digest and banks, that mapper and the most authoritative source, and the machine's
    memory accepts the image under it. *)
Theorem ingest_exact (rom : list Z) (options : IngestOptions) (Hu : Forall is_u8 rom) :
  let r := ingest_cartridge rom options in
  let id := result_identity r in
  (result_error r = SMS_OK <->
    profile_ok rom options /\ (exists k, 15 <= k <= 19 /\ zlen rom = 2 ^ k) /\
    exists family, family <> SMS_MAPPER_UNDECLARED /\ one_name (declarations options) (mapper_family_name family) /\
      (family = SMS_MAPPER_ROM_ONLY -> zlen rom = SMS_ROM_ONLY_SIZE)) /\
  (result_error r = SMS_OK ->
    result_rom r = rom /\ id_sha256 id = sha256_hex rom /\ id_size id = zlen rom /\ id_bank_count id * SMS_BANK_SIZE = zlen rom /\
    one_name (declarations options) (mapper_family_name (id_mapper id)) /\ least_source (declarations options) (id_declaration_source id) /\
    exists m, sms_memory_init rom (zlen rom) (id_mapper id) = (m, SMS_OK)).
Proof.
  intros r id. subst r id. unfold ingest_cartridge. pose proof (profile_exact rom options Hu) as Hprofile.
  destruct (ingest_profile rom options) as [id|failure].
  2: { destruct Hprofile as [He Hno]. split; [|by rewrite He]. rewrite He. split; [done|]. by intros (Hp & _). }
  pose proof (supported_sizes (zlen rom)) as Hsize. pose proof (zlen_nonneg rom).
  assert (negb (zlen rom =? u32 (Z.min (zlen rom) 0xFFFFFFFF)) || negb (sms_rom_size_supported (u32 (Z.min (zlen rom) 0xFFFFFFFF))) =
    negb (sms_rom_size_supported (zlen rom))) as ->.
  { destruct (decide (zlen rom <= 0xFFFFFFFF)) as [Hl|Hl].
    - rewrite Z.min_l, u32_id by (unfold is_u32; lia). by rewrite Z.eqb_refl.
    - rewrite Z.min_r, u32_id by (unfold is_u32; lia). rewrite (proj2 (Z.eqb_neq _ _)) by lia. simpl.
      destruct (sms_rom_size_supported (zlen rom)) eqn:E; [|done]. destruct (proj1 Hsize eq_refl) as (k & Hk & Hz).
      pose proof (Z.pow_le_mono_r 2 k 19 ltac:(lia) ltac:(lia)). lia. }
  destruct (sms_rom_size_supported (zlen rom)) eqn:Hs; cbn [negb].
  2: { split; [|done]. split; [done|]. intros (_ & Hk & _). by apply Hsize in Hk. }
  pose proof (proj1 Hsize eq_refl) as Hk. pose proof (mapper_exact (declarations options)) as Hm.
  assert (u32 (Z.min (zlen rom) 0xFFFFFFFF) = zlen rom) as ->.
  { destruct Hk as (k & Hk & Hz). pose proof (Z.pow_le_mono_r 2 k 19 ltac:(lia) ltac:(lia)). rewrite Z.min_l, u32_id; unfold is_u32; lia. }
  destruct (ingest_mapper (declarations options)) as [[family source]|failure].
  2: { destruct Hm as [He Hno]. split; [|done]. split; [done|]. intros (_ & _ & f & Hf & Hn & _). by apply Hno in Hn. }
  destruct Hm as (Hf & Hn & Hsrc).
  destruct (if decide _ then _ else _) eqn:Hrom.
  - destruct (decide (family = SMS_MAPPER_ROM_ONLY)) as [->|]; [|done]. apply negb_true_iff, Z.eqb_neq in Hrom. split; [|done].
    split; [done|]. intros (_ & _ & f & Hf' & Hn' & Hsz). pose proof (one_name_unique _ _ _ Hn Hn') as Heq. destruct f; try done. by destruct (Hrom (Hsz eq_refl)).
  - assert (family = SMS_MAPPER_ROM_ONLY -> zlen rom = SMS_ROM_ONLY_SIZE) as Honly.
    { intros ->. rewrite decide_True in Hrom by done. by apply negb_false_iff, Z.eqb_eq in Hrom. }
    split; [split; [intros _; split_and!; [done..|by exists family]|done]|]. intros _. split_and!; try done.
    + unfold id_bank_count, sms_bank_count. simpl. destruct Hk as (k & Hk & ->). replace k with (k - 14 + 14) by lia.
      rewrite Z.pow_add_r by lia. change (2 ^ 14) with SMS_BANK_SIZE. by rewrite Z.div_mul.
    + cbn [result_identity id_mapper]. unfold sms_memory_init. rewrite Hs.
      destruct family; [done|by eexists|]. rewrite Honly by done. by eexists.
Qed.

(** * A sample cartridge *)

Definition sample_declarations : list MapperDeclaration := [mkDeclaration "SEGA" manifest; mkDeclaration "sega" build_option].

Lemma two_banks_unheaded h : ~ single_header two_banks h.
Proof.
  intros Hh. assert (outcome (inspect_rom two_banks) = recognized) as H by (apply recognized_single; [apply two_banks_ok|by exists h]).
  revert H. assert (outcome (inspect_rom two_banks) = unrecognized) as -> by by_evaluation. done.
Qed.

Lemma ingest_order_witness :
  sample_declarations ≡ₚ rev sample_declarations /\
  ingest_cartridge two_banks (mkOptions true sample_declarations) = ingest_cartridge two_banks (mkOptions true (rev sample_declarations)).
Proof.
  assert (sample_declarations ≡ₚ rev sample_declarations) as Hp by apply Permutation_rev. split; [done|].
  exact (ingest_order two_banks true sample_declarations (rev sample_declarations) Hp).
Defined.

Lemma ingest_exact_witness : Forall is_u8 two_banks /\
  result_error (ingest_cartridge two_banks (mkOptions true sample_declarations)) = SMS_OK /\
  result_rom (ingest_cartridge two_banks (mkOptions true sample_declarations)) = two_banks.
Proof.
  assert (Forall is_u8 two_banks) as Hu by apply two_banks_ok.
  destruct (ingest_exact two_banks (mkOptions true sample_declarations) Hu) as [[_ Hok] Hr].
  assert (result_error (ingest_cartridge two_banks (mkOptions true sample_declarations)) = SMS_OK) as He.
  { apply Hok. split_and!.
    - apply Profile_explicit; [done|apply two_banks_unheaded].
    - exists 15. split; [lia|]. apply two_banks_ok.
    - exists SMS_MAPPER_SEGA. split_and!; [done| |done]. split; [done|]. intros d Hd. unfold sample_declarations in Hd. simpl in Hd.
      apply elem_of_cons in Hd as [->|Hd]; [by_evaluation|]. apply list_elem_of_singleton in Hd as ->. by_evaluation. }
  destruct (Hr He) as (Hrom & _). by split_and!.
Defined.
