(* ===== verification/SmsSha256.v ===== *)
(** The Master System runtime's own SHA-256, [sms_sha256.c], and that it is the
    digest of [Sha256].

    [update] copies the largest piece that fits the block; its loop runs on fuel, a
    turn per byte at most.  The padding loop of [final] has 64 turns. *)

From Stdlib Require Import String Ascii.
From S2P Require Import Prelude Sha256.

Definition k256 : list Z := concat
  [[0x428a2f98; 0x71374491; 0xb5c0fbcf; 0xe9b5dba5; 0x3956c25b; 0x59f111f1; 0x923f82a4; 0xab1c5ed5];
   [0xd807aa98; 0x12835b01; 0x243185be; 0x550c7dc3; 0x72be5d74; 0x80deb1fe; 0x9bdc06a7; 0xc19bf174];
   [0xe49b69c1; 0xefbe4786; 0x0fc19dc6; 0x240ca1cc; 0x2de92c6f; 0x4a7484aa; 0x5cb0a9dc; 0x76f988da];
   [0x983e5152; 0xa831c66d; 0xb00327c8; 0xbf597fc7; 0xc6e00bf3; 0xd5a79147; 0x06ca6351; 0x14292967];
   [0x27b70a85; 0x2e1b2138; 0x4d2c6dfc; 0x53380d13; 0x650a7354; 0x766a0abb; 0x81c2c92e; 0x92722c85];
   [0xa2bfe8a1; 0xa81a664b; 0xc24b8b70; 0xc76c51a3; 0xd192e819; 0xd6990624; 0xf40e3585; 0x106aa070];
   [0x19a4c116; 0x1e376c08; 0x2748774c; 0x34b0bcb5; 0x391c0cb3; 0x4ed8aa4a; 0x5b9cca4f; 0x682e6ff3];
   [0x748f82ee; 0x78a5636f; 0x84c87814; 0x8cc70208; 0x90befffa; 0xa4506ceb; 0xbef9a3f7; 0xc67178f2]].

Definition rotr (x n : Z) : Z := (x .>> n) .| u32 (x .<< (32 - n)).

Record SmsSha256 := mkSha { sha_h : Words; sha_block : list Z; sha_used : Z; sha_total : Z }.

(** [w[i]], for the two loops. *)
Definition first_word (p : list Z) (i : Z) : Z :=
  (((znth p (4 * i) 0 .<< 24) .| (znth p (4 * i + 1) 0 .<< 16)) .| (znth p (4 * i + 2) 0 .<< 8)) .| znth p (4 * i + 3) 0.
Definition later_word (w : list Z) (i : Z) : Z :=
  let s0 := (rotr (znth w (i - 15) 0) 7 .^ rotr (znth w (i - 15) 0) 18) .^ (znth w (i - 15) 0 .>> 3) in
  let s1 := (rotr (znth w (i - 2) 0) 17 .^ rotr (znth w (i - 2) 0) 19) .^ (znth w (i - 2) 0 .>> 10) in
  u32 (znth w (i - 16) 0 + s0 + znth w (i - 7) 0 + s1).

(** A round on [a .. h]. *)
Definition sms_round (k w : Z) (v : Words) : Words :=
  let '(mkWords a b c d e f g h) := v in
  let t1 := u32 (h + ((rotr e 6 .^ rotr e 11) .^ rotr e 25) + ((e .& f) .^ (u32 (Z.lnot e) .& g)) + k + w) in
  let t2 := u32 (((rotr a 2 .^ rotr a 13) .^ rotr a 22) + (((a .& b) .^ (a .& c)) .^ (b .& c))) in
  mkWords (u32 (t1 + t2)) a b c (u32 (d + t1)) e f g.

Definition sms_compress (s : SmsSha256) (p : list Z) : SmsSha256 :=
  let w := zfor 16 48 (fun i w => w ++ [later_word w i]) (map (first_word p) (seqZ 0 16)) in
  let '(mkWords a b c d e f g h) := zfor 0 64 (fun i v => sms_round (znth k256 i 0) (znth w i 0) v) (sha_h s) in
  let x := sha_h s in
  mkSha (mkWords (u32 (v0 x + a)) (u32 (v1 x + b)) (u32 (v2 x + c)) (u32 (v3 x + d)) (u32 (v4 x + e)) (u32 (v5 x + f)) (u32 (v6 x + g))
           (u32 (v7 x + h))) (sha_block s) (sha_used s) (sha_total s).

(** The block of a fresh [SmsSha256] is not initialised; only what was copied is read. *)
Definition sms_sha256_init (block : list Z) : SmsSha256 :=
  mkSha (mkWords 0x6a09e667 0xbb67ae85 0x3c6ef372 0xa54ff53a 0x510e527f 0x9b05688c 0x1f83d9ab 0x5be0cd19) block 0 0.

(** [memcpy(block + used, p, size)] *)
Definition copy_into (block : list Z) (used : Z) (p : list Z) : list Z :=
  take (Z.to_nat used) block ++ p ++ drop (Z.to_nat used + length p) block.

(** [while (size > 0)] *)
Fixpoint update_loop (fuel : nat) (p : list Z) (s : SmsSha256) : SmsSha256 :=
  match fuel with
  | O => s
  | S fuel =>
      if zlen p =? 0 then s
      else
        let take_ := Z.min (64 - sha_used s) (zlen p) in
        let s := mkSha (sha_h s) (copy_into (sha_block s) (sha_used s) (take (Z.to_nat take_) p)) (sha_used s + take_) (sha_total s) in
        let s := if sha_used s =? 64 then let s := sms_compress s (sha_block s) in mkSha (sha_h s) (sha_block s) 0 (sha_total s) else s in
        update_loop fuel (drop (Z.to_nat take_) p) s
  end.

Definition sms_sha256_update (s : SmsSha256) (data : list Z) : SmsSha256 :=
  update_loop (length data) data (mkSha (sha_h s) (sha_block s) (sha_used s) (u64 (sha_total s + zlen data))).

(** The bytes of a value, the lowest first. *)
Definition little_endian (n : nat) (value : Z) : list Z := map (fun i => u8 (value .>> (8 * i))) (seqZ 0 (Z.of_nat n)).

Definition sms_sha256_update_u8 (s : SmsSha256) (value : Z) : SmsSha256 := sms_sha256_update s [value].
Definition sms_sha256_update_u16 (s : SmsSha256) (value : Z) : SmsSha256 := sms_sha256_update s [u8 value; u8 (value .>> 8)].
Definition sms_sha256_update_u32 (s : SmsSha256) (value : Z) : SmsSha256 := sms_sha256_update s (little_endian 4 value).
Definition sms_sha256_update_u64 (s : SmsSha256) (value : Z) : SmsSha256 := sms_sha256_update s (little_endian 8 value).

(** [while (s->block_used != 56u) sms_sha256_update(s, &pad, 1);] *)
Fixpoint pad_loop (fuel : nat) (s : SmsSha256) : SmsSha256 :=
  match fuel with
  | O => s
  | S fuel => if sha_used s =? 56 then s else pad_loop fuel (sms_sha256_update s [0])
  end.

Definition word_bytes_be (w : Z) : list Z := [u8 (w .>> 24); u8 (w .>> 16); u8 (w .>> 8); u8 w].

Definition sms_sha256_final (s : SmsSha256) : list Z :=
  let bits := u64 (sha_total s * 8) in
  let len := map (fun i => u8 (bits .>> (56 - 8 * i))) (seqZ 0 8) in
  let s := pad_loop 64 (sms_sha256_update s [0x80]) in
  let h := sha_h (sms_sha256_update s len) in
  concat (map word_bytes_be [v0 h; v1 h; v2 h; v3 h; v4 h; v5 h; v6 h; v7 h]).

Example sms_sha256_abc :
  sms_sha256_final (sms_sha256_update (sms_sha256_init (replicate 64 7)) [97; 98; 99]) =
  [0xba; 0x78; 0x16; 0xbf; 0x8f; 0x01; 0xcf; 0xea; 0x41; 0x41; 0x40; 0xde; 0x5d; 0xae; 0x22; 0x23;
   0xb0; 0x03; 0x61; 0xa3; 0x96; 0x17; 0x7a; 0x9c; 0xb4; 0x10; 0xff; 0x61; 0xf2; 0x00; 0x15; 0xad].
Proof. with_strategy transparent [zfor] vm_compute. reflexivity. Qed.

(** * The same compression *)

Lemma compress_agrees s p : sms_compress s p = mkSha (compress (sha_h s) p) (sha_block s) (sha_used s) (sha_total s).
Proof.
  unfold sms_compress, compress. cbv zeta.
  assert (Ek : k256 = k) by by_evaluation.
  assert (Ew : zfor 16 48 (fun i w => w ++ [later_word w i]) (map (first_word p) (seqZ 0 16)) = schedule p).
  { unfold schedule. f_equal. }
  rewrite Ek, Ew.
  rewrite (zfor_ext 0 64 (fun i v => sms_round (znth k i 0) (znth (schedule p) i 0) v) (fun i v => round (znth k i 0) (znth (schedule p) i 0) v))
    by (intros i v _; by destruct v).
  by destruct (zfor 0 64 _ (sha_h s)).
Qed.

#[local] Opaque compress.

(** * The stream *)

(** The state after hashing [data]: whole blocks compressed, the rest in the block. *)
Definition sms_absorbed (s : SmsSha256) (data : list Z) : Prop :=
  exists n a b, data = a ++ b /\ length a = (64 * n)%nat /\ zlen b = sha_used s /\ sha_used s < 64 /\
    length (sha_block s) = 64%nat /\ take (Z.to_nat (sha_used s)) (sha_block s) = b /\
    sha_h s = fold_left compress (blocks n a) initial_state.

Lemma length_copy_into block used p : length block = 64%nat -> 0 <= used -> used + zlen p <= 64 -> length (copy_into block used p) = 64%nat.
Proof. intros Hb Hu Hp. unfold copy_into, zlen in *. rewrite !length_app, length_take, length_drop. lia. Qed.

Lemma take_copy_into block used p : length block = 64%nat -> 0 <= used -> used + zlen p <= 64 ->
  take (Z.to_nat (used + zlen p)) (copy_into block used p) = take (Z.to_nat used) block ++ p.
Proof.
  intros Hb Hu Hp. unfold copy_into, zlen in *. rewrite app_assoc, take_app_le by (rewrite length_app, length_take; lia).
  rewrite take_ge; [done|]. rewrite length_app, length_take. lia.
Qed.

Lemma update_loop_absorbed fuel p s data : (length p <= fuel)%nat -> sms_absorbed s data ->
  sms_absorbed (update_loop fuel p s) (data ++ p) /\ sha_total (update_loop fuel p s) = sha_total s.
Proof.
  revert p s data. induction fuel as [|fuel IH]; intros p s data Hf Hs; cbn [update_loop].
  { destruct p; [|cbn in Hf; lia]. by rewrite app_nil_r. }
  destruct (Z.eqb_spec (zlen p) 0) as [E|N].
  { destruct p; [|rewrite zlen_cons in E; pose proof (zlen_nonneg p); lia]. by rewrite app_nil_r. }
  pose proof (zlen_nonneg p) as Hp. destruct Hs as (n & a & b & E & Ha & Hb & Hu & Hl & Ht & Hh).
  pose proof (zlen_nonneg b) as Hb0. set (m := Z.min (64 - sha_used s) (zlen p)). assert (Hm : 0 < m <= zlen p) by lia.
  assert (Hlen : zlen (take (Z.to_nat m) p) = m) by (unfold zlen in *; rewrite length_take; lia).
  set (block' := copy_into (sha_block s) (sha_used s) (take (Z.to_nat m) p)).
  assert (Hl' : length block' = 64%nat) by (apply length_copy_into; lia).
  assert (Ht' : take (Z.to_nat (sha_used s + m)) block' = b ++ take (Z.to_nat m) p).
  { unfold block'. rewrite <- Hlen at 1. rewrite take_copy_into by lia. by rewrite Ht. }
  cbv zeta. cbn [sha_h sha_block sha_used sha_total]. replace (data ++ p) with ((data ++ take (Z.to_nat m) p) ++ drop (Z.to_nat m) p) by (by rewrite <- app_assoc, take_drop).
  assert (Hd : (length (drop (Z.to_nat m) p) <= fuel)%nat) by (rewrite length_drop; unfold zlen in *; lia).
  destruct (Z.eqb_spec (sha_used s + m) 64) as [H64|H64].
  - rewrite compress_agrees. cbn [sha_h sha_block sha_used sha_total]. apply (IH _ (mkSha _ _ _ _)); [done|].
    rewrite H64 in Ht'. change (Z.to_nat 64) with 64%nat in Ht'. rewrite take_ge in Ht' by lia.
    exists (n + 1)%nat, (a ++ (b ++ take (Z.to_nat m) p)), []. cbn [sha_h sha_block sha_used].
    assert (H64' : length (b ++ take (Z.to_nat m) p) = 64%nat) by (by rewrite <- Ht').
    split_and!; [by rewrite E, app_nil_r, app_assoc|rewrite length_app; lia|done|lia|done|done|].
    rewrite (blocks_app n 1 a _ Ha), fold_left_app, <- Hh, Ht'. cbn [blocks fold_left]. by rewrite (take_ge (b ++ _)) by lia.
  - apply (IH _ (mkSha _ _ _ _)); [done|]. exists n, a, (b ++ take (Z.to_nat m) p). cbn [sha_h sha_block sha_used].
    split_and!; [by rewrite E, app_assoc|done|rewrite zlen_app; lia|lia|done|exact Ht'|done].
Qed.

Lemma update_absorbed_sms data s d : sms_absorbed s d -> sms_absorbed (sms_sha256_update s data) (d ++ data) /\
  sha_total (sms_sha256_update s data) = u64 (sha_total s + zlen data).
Proof.
  intros H. unfold sms_sha256_update. apply (update_loop_absorbed _ _ (mkSha _ _ _ _)); [done|].
  destruct H as (n & a & b & H). by exists n, a, b.
Qed.

Lemma pad_loop_absorbed fuel s d : sms_absorbed s d -> (56 - zlen d) mod 64 <= Z.of_nat fuel ->
  sms_absorbed (pad_loop fuel s) (d ++ replicate (Z.to_nat ((56 - zlen d) mod 64)) 0).
Proof.
  revert s d. induction fuel as [|fuel IH]; intros s d Hs Hf; cbn [pad_loop].
  - pose proof (Z.mod_pos_bound (56 - zlen d) 64 ltac:(lia)). replace ((56 - zlen d) mod 64) with 0 by lia. by rewrite app_nil_r.
  - assert (Hu : sha_used s = zlen d mod 64).
    { destruct Hs as (n & a & b & -> & Ha & Hb & Hu & _). rewrite zlen_app. pose proof (zlen_nonneg b).
      replace (zlen a + zlen b) with (zlen b + Z.of_nat n * 64) by (unfold zlen in *; lia). rewrite Z.mod_add by lia. rewrite Z.mod_small; lia. }
    rewrite Hu. destruct (Z.eqb_spec (zlen d mod 64) 56) as [E|N].
    + replace ((56 - zlen d) mod 64) with 0; [by rewrite app_nil_r|]. Z.to_euclidean_division_equations. lia.
    + pose proof (proj1 (update_absorbed_sms [0] s d Hs)) as H.
      assert (E : (56 - zlen d) mod 64 = (56 - zlen (d ++ [0])) mod 64 + 1) by (rewrite zlen_snoc; Z.to_euclidean_division_equations; lia).
      specialize (IH _ _ H ltac:(lia)). rewrite <- app_assoc in IH. cbn [app] in IH.
      pose proof (Z.mod_pos_bound (56 - zlen (d ++ [0])) 64 ltac:(lia)).
      replace (Z.to_nat ((56 - zlen d) mod 64)) with (S (Z.to_nat ((56 - zlen (d ++ [0])) mod 64))) by lia. exact IH.
Qed.

(** The bytes of a digest in hexadecimal. *)
Definition byte_hex (x : Z) : list ascii := map (fun n => nth (Z.to_nat n) digits "0"%char) [x .>> 4; x .& 15].
Definition bytes_hex (l : list Z) : string := String.string_of_list_ascii (concat (map byte_hex l)).

Lemma final_absorbed s d : sms_absorbed s d -> sha_total s = u64 (zlen d) ->
  let h := fold_left compress (message_blocks d) initial_state in
  sms_sha256_final s = concat (map word_bytes_be [v0 h; v1 h; v2 h; v3 h; v4 h; v5 h; v6 h; v7 h]).
Proof.
  intros Hs Ht. cbv zeta. unfold sms_sha256_final. rewrite Ht. fold (message_bits d).
  assert (El : map (fun i => u8 (message_bits d .>> (56 - 8 * i))) (seqZ 0 8) = length_bytes (message_bits d)).
  { unfold length_bytes. apply map_ext. intros i. by rewrite land_ff. }
  rewrite El. pose proof (proj1 (update_absorbed_sms [0x80] s d Hs)) as H1.
  pose proof (Z.mod_pos_bound (56 - zlen (d ++ [0x80])) 64 ltac:(lia)) as Hm.
  pose proof (pad_loop_absorbed 64 _ _ H1 ltac:(lia)) as H2. pose proof (proj1 (update_absorbed_sms (length_bytes (message_bits d)) _ _ H2)) as H3.
  set (s3 := sms_sha256_update _ _) in H3 |- *.
  assert (Em : ((d ++ [0x80]) ++ replicate (Z.to_nat ((56 - zlen (d ++ [0x80])) mod 64)) 0) ++ length_bytes (message_bits d) =
    d ++ padding (zlen d) (message_bits d)).
  { unfold padding. rewrite zlen_snoc, <- !app_assoc. cbn [app]. by replace (56 - (zlen d + 1)) with (55 - zlen d) by lia. }
  rewrite Em in H3. destruct H3 as (n & a & b & E & Ha & Hb & Hu & _ & _ & Hh).
  pose proof (proj1 (zlen_padding (zlen d) (message_bits d))) as Hz. rewrite <- zlen_app, E, zlen_app in Hz. pose proof (zlen_nonneg b) as Hb0.
  assert (Ea : zlen a = Z.of_nat n * 64) by (unfold zlen; lia).
  assert (b = []) as ->.
  { rewrite Ea, Z.add_comm, Z.mod_add, Z.mod_small in Hz by lia. apply nil_length_inv. unfold zlen in Hz. lia. }
  rewrite app_nil_r in E. unfold message_blocks. cbv zeta. rewrite E, Ea, Z.div_mul, Nat2Z.id by lia. by rewrite Hh.
Qed.

Lemma init_absorbed block : length block = 64%nat -> sms_absorbed (sms_sha256_init block) [].
Proof. intros Hb. by exists 0%nat, [], []. Qed.

Lemma feeding s d chunks : sms_absorbed s d -> sha_total s = u64 (zlen d) ->
  let s' := fold_left sms_sha256_update chunks s in
  sms_absorbed s' (d ++ concat chunks) /\ sha_total s' = u64 (zlen (d ++ concat chunks)).
Proof.
  revert s d. induction chunks as [|c chunks IH]; intros s d Hs Ht; cbv zeta; cbn [fold_left concat]; [by rewrite app_nil_r|].
  destruct (update_absorbed_sms c s d Hs) as [H1 H2]. rewrite app_assoc. apply IH; [done|].
  rewrite H2, Ht, zlen_app. unfold u64. apply Zplus_mod_idemp_l.
Qed.

Lemma words_hex w : is_u32 w -> concat (map byte_hex (word_bytes_be w)) = word_hex w.
Proof.
  intros Hw. unfold word_hex, word_bytes_be. cbn [map concat].
  assert (Hn : forall i, 0 <= i <= 24 -> byte_hex (u8 (w .>> i)) =
    [nth (Z.to_nat ((w .>> (i + 4)) .& 0xF)) digits "0"%char; nth (Z.to_nat ((w .>> i) .& 0xF)) digits "0"%char]).
  { intros i Hi. unfold byte_hex. cbn [map].
    assert (Eh : u8 (w .>> i) .>> 4 = (w .>> (i + 4)) .& 0xF).
    { rewrite (land_ones_mod _ 4), !Z.shiftr_div_pow2, Z.pow_add_r, <- Zdiv_Zdiv by lia. change (2 ^ 4) with 16.
      unfold u8. set (x := w / 2 ^ i). Z.to_euclidean_division_equations. lia. }
    assert (El : u8 (w .>> i) .& 15 = (w .>> i) .& 0xF).
    { rewrite !(land_ones_mod _ 4) by lia. change (2 ^ 4) with 16. unfold u8. set (x := w .>> i). Z.to_euclidean_division_equations. lia. }
    by rewrite Eh, El. }
  rewrite <- (Z.shiftr_0_r w) at 4. rewrite !Hn by lia. reflexivity.
Qed.

Lemma word_bytes_range w : Forall is_u8 (word_bytes_be w).
Proof. unfold word_bytes_be. repeat (constructor; [apply u8_range|]). constructor. Qed.

Lemma compress_words s block : words_ok (compress s block).
Proof. with_strategy transparent [compress] unfold compress. cbv zeta. unfold add_words, words_ok. cbn [v0 v1 v2 v3 v4 v5 v6 v7]. split_and!; apply u32_range. Qed.

(** The two digests are one.  Whatever its block held before, and however the input
    is cut into updates, the runtime's digest in hexadecimal is the digest that the
    recompiler's library computes of the whole input. *)
Theorem sms_sha256_agrees (block : list Z) (chunks : list (list Z)) (Hblock : length block = 64%nat) :
  bytes_hex (sms_sha256_final (fold_left sms_sha256_update chunks (sms_sha256_init block))) = sha256_hex (concat chunks).
Proof.
  destruct (feeding (sms_sha256_init block) [] chunks (init_absorbed block Hblock) eq_refl) as [H1 H2]. rewrite one_shot.
  rewrite (final_absorbed _ _ H1 H2). cbv zeta. cbn [app]. set (h := fold_left compress _ _).
  assert (Hh : words_ok h).
  { unfold h. generalize (message_blocks (concat chunks)). intros l.
    destruct l as [|x l _] using rev_ind; [apply initial_words_ok|]. rewrite fold_left_app. apply compress_words. }
  destruct Hh as (H3 & H4 & H5 & H6 & H7 & H8 & H9 & H10). unfold bytes_hex, hex_words. cbn [map concat].
  rewrite !map_app, !concat_app, !words_hex by done. reflexivity.
Qed.

Lemma sms_sha256_agrees_witness :
  bytes_hex (sms_sha256_final (fold_left sms_sha256_update [[97]; []; [98; 99]] (sms_sha256_init (replicate 64 0xCD)))) = sha256_hex [97; 98; 99].
Proof. exact (sms_sha256_agrees (replicate 64 0xCD) [[97]; []; [98; 99]] eq_refl). Defined.
