(* ===== verification/SmsVdp.v ===== *)
(** The Master System VDP: [sms_vdp.h] and [sms_vdp.c].

    [SmsVdp] is grouped into its memories, the port registers, the pending flags, the
    counters and the trace.  The error sink, a pointer to the machine's memory, is
    an optional memory passed and returned; the line hook, a function that may set
    the sprite flags through its own pointer to the VDP, is a parameter of
    [sms_vdp_scanline] with the context it changes.  An access is stamped with the
    T-state it starts at. *)

From S2P Require Import Prelude Z80Runtime SmsMemory SmsSha256.

(** * Port classes *)

Inductive SmsPortClass : Type :=
| SMS_PORT_OPEN_READ | SMS_PORT_IGNORED_WRITE | SMS_PORT_MEMORY_CONTROL | SMS_PORT_IO_CONTROL | SMS_PORT_PSG | SMS_PORT_V_COUNTER
| SMS_PORT_H_COUNTER | SMS_PORT_VDP_DATA | SMS_PORT_VDP_CONTROL | SMS_PORT_VDP_STATUS | SMS_PORT_PAD_DC | SMS_PORT_PAD_DD.

#[export] Instance SmsPortClass_eq_dec : EqDecision SmsPortClass.
Proof. solve_decision. Defined.

Inductive SmsPortOwner : Type := SMS_OWNER_NONE | SMS_OWNER_MEMORY | SMS_OWNER_VDP | SMS_OWNER_PSG | SMS_OWNER_PAD.

#[export] Instance SmsPortOwner_eq_dec : EqDecision SmsPortOwner.
Proof. solve_decision. Defined.

Definition sms_port_decode (port : Z) (is_write : bool) : SmsPortClass :=
  let row := (port .>> 6) .& 3 in
  let odd := negb (port .& 1 =? 0) in
  if row =? 0 then if is_write then if odd then SMS_PORT_IO_CONTROL else SMS_PORT_MEMORY_CONTROL else SMS_PORT_OPEN_READ
  else if row =? 1 then if is_write then SMS_PORT_PSG else if odd then SMS_PORT_H_COUNTER else SMS_PORT_V_COUNTER
  else if row =? 2 then if negb odd then SMS_PORT_VDP_DATA else if is_write then SMS_PORT_VDP_CONTROL else SMS_PORT_VDP_STATUS
  else if is_write then SMS_PORT_IGNORED_WRITE else if odd then SMS_PORT_PAD_DD else SMS_PORT_PAD_DC.

Definition sms_port_owner (cls : SmsPortClass) : SmsPortOwner :=
  match cls with
  | SMS_PORT_OPEN_READ | SMS_PORT_IGNORED_WRITE => SMS_OWNER_NONE
  | SMS_PORT_MEMORY_CONTROL => SMS_OWNER_MEMORY
  | SMS_PORT_IO_CONTROL | SMS_PORT_PAD_DC | SMS_PORT_PAD_DD => SMS_OWNER_PAD
  | SMS_PORT_PSG => SMS_OWNER_PSG
  | SMS_PORT_V_COUNTER | SMS_PORT_H_COUNTER | SMS_PORT_VDP_DATA | SMS_PORT_VDP_CONTROL | SMS_PORT_VDP_STATUS => SMS_OWNER_VDP
  end.

(** * State *)

Definition SMS_VDP_VRAM_SIZE : Z := 16384.
Definition SMS_VDP_CRAM_SIZE : Z := 32.
Definition SMS_VDP_REGISTERS : Z := 16.

Inductive SmsVdpMode : Type := SMS_VDP_MODE_UNSUPPORTED | SMS_VDP_MODE4_192 | SMS_VDP_MODE4_224.

#[export] Instance SmsVdpMode_eq_dec : EqDecision SmsVdpMode.
Proof. solve_decision. Defined.

Inductive SmsVdpTraceKind : Type :=
| SMS_VDP_TRACE_REG_WRITE | SMS_VDP_TRACE_STATUS_READ | SMS_VDP_TRACE_FLAG_FRAME | SMS_VDP_TRACE_FLAG_LINE
| SMS_VDP_TRACE_VRAM_SUMMARY | SMS_VDP_TRACE_CRAM_SUMMARY.

Record SmsVdpTraceEntry := mkTraceEntry { at_cycles : Z; data : Z; arg : Z; kind : SmsVdpTraceKind; byte : Z }.

Record VdpPort := mkPort { address : Z; code : Z; latch_set : Z; latch_byte : Z; read_buffer : Z }.
Record VdpFlags := mkFlags { frame_pending : Z; sprite_overflow : Z; sprite_collision : Z; line_pending : Z }.
Record VdpCounters := mkCounters { line_counter : Z; hcounter_latch : Z; hcounter_valid : Z; line : Z; frame : Z }.

(** [trace] may be null; it has [trace_capacity] entries. *)
Record VdpTrace := mkTrace {
  trace : option (list SmsVdpTraceEntry); trace_capacity : Z; trace_count : Z; trace_dropped : Z; vram_writes : Z; cram_writes : Z;
}.

Record SmsVdp := mkVdp {
  vram : list Z; cram : list Z; reg : list Z;
  port : VdpPort; flags : VdpFlags; counters : VdpCounters; traced : VdpTrace;
}.

Definition with_port (v : SmsVdp) (p : VdpPort) : SmsVdp := mkVdp (vram v) (cram v) (reg v) p (flags v) (counters v) (traced v).
Definition with_flags (v : SmsVdp) (f : VdpFlags) : SmsVdp := mkVdp (vram v) (cram v) (reg v) (port v) f (counters v) (traced v).
Definition with_counters (v : SmsVdp) (c : VdpCounters) : SmsVdp := mkVdp (vram v) (cram v) (reg v) (port v) (flags v) c (traced v).
Definition with_traced (v : SmsVdp) (t : VdpTrace) : SmsVdp := mkVdp (vram v) (cram v) (reg v) (port v) (flags v) (counters v) t.
Definition set_vram (v : SmsVdp) (i x : Z) : SmsVdp :=
  mkVdp (<[Z.to_nat i := x]> (vram v)) (cram v) (reg v) (port v) (flags v) (counters v) (traced v).
Definition set_cram (v : SmsVdp) (i x : Z) : SmsVdp :=
  mkVdp (vram v) (<[Z.to_nat i := x]> (cram v)) (reg v) (port v) (flags v) (counters v) (traced v).
Definition set_reg (v : SmsVdp) (i x : Z) : SmsVdp :=
  mkVdp (vram v) (cram v) (<[Z.to_nat i := x]> (reg v)) (port v) (flags v) (counters v) (traced v).

Definition R0_NOSYNC : Z := 0x01.
Definition R0_M2 : Z := 0x02.
Definition R0_M4 : Z := 0x04.
Definition R0_IE1 : Z := 0x10.
Definition R1_M3 : Z := 0x08.
Definition R1_M1 : Z := 0x10.
Definition R1_IE0 : Z := 0x20.
Definition R1_DISPLAY : Z := 0x40.

Definition reset_registers : list Z := [0x36; 0x80; 0xFF; 0xFF; 0xFF; 0xFF; 0xFB; 0x00; 0x00; 0x00; 0xFF; 0x00; 0x00; 0x00; 0x00; 0x00].

(** * Trace *)

Definition trace_add (v : SmsVdp) (cycles : Z) (k : SmsVdpTraceKind) (arg byte data : Z) : SmsVdp :=
  let t := traced v in
  match trace t with
  | Some entries =>
      if trace_count t <? trace_capacity t
      then with_traced v (mkTrace (Some (<[Z.to_nat (trace_count t) := mkTraceEntry cycles data arg k byte]> entries)) (trace_capacity t)
             (u32 (trace_count t + 1)) (trace_dropped t) (vram_writes t) (cram_writes t))
      else with_traced v (mkTrace (trace t) (trace_capacity t) (trace_count t) (u32 (trace_dropped t + 1)) (vram_writes t) (cram_writes t))
  | None => with_traced v (mkTrace (trace t) (trace_capacity t) (trace_count t) (u32 (trace_dropped t + 1)) (vram_writes t) (cram_writes t))
  end.

(** The first eight bytes of the digest, as a number. *)
Definition hash64 (bytes : list Z) : Z :=
  let out := sms_sha256_final (sms_sha256_update (sms_sha256_init (zeros 64)) bytes) in
  zfor 0 8 (fun i value => u64 (value .<< 8) .| znth out i 0) 0.

Definition set_writes (v : SmsVdp) (vram_writes cram_writes : Z) : SmsVdp :=
  let t := traced v in with_traced v (mkTrace (trace t) (trace_capacity t) (trace_count t) (trace_dropped t) vram_writes cram_writes).

(** A summary's count saturates. *)
Definition saturate16 (n : Z) : Z := if 0xFFFF <? n then 0xFFFF else n.

Definition sms_vdp_flush_trace (v : SmsVdp) (cycles : Z) : SmsVdp :=
  let v :=
    if negb (vram_writes (traced v) =? 0)
    then let v := trace_add v cycles SMS_VDP_TRACE_VRAM_SUMMARY (saturate16 (vram_writes (traced v))) 0 (hash64 (vram v)) in
         set_writes v 0 (cram_writes (traced v))
    else v in
  if negb (cram_writes (traced v) =? 0)
  then let v := trace_add v cycles SMS_VDP_TRACE_CRAM_SUMMARY (saturate16 (cram_writes (traced v))) 0 (hash64 (cram v)) in
       set_writes v (vram_writes (traced v)) 0
  else v.

Definition sms_vdp_set_trace (v : SmsVdp) (entries : option (list SmsVdpTraceEntry)) (capacity : Z) : SmsVdp :=
  with_traced v (mkTrace entries capacity 0 0 (vram_writes (traced v)) (cram_writes (traced v))).

(** * Mode and geometry *)

(** [(register & bit) != 0] *)
Definition has_bit (register bit : Z) : bool := negb (register .& bit =? 0).

Definition sms_vdp_mode (v : SmsVdp) : SmsVdpMode :=
  let r0 := znth (reg v) 0 0 in
  let r1 := znth (reg v) 1 0 in
  let m2 := has_bit r0 R0_M2 in
  let m3 := has_bit r1 R1_M3 in
  let m1 := has_bit r1 R1_M1 in
  if negb (has_bit r0 R0_M4) || has_bit r0 R0_NOSYNC then SMS_VDP_MODE_UNSUPPORTED
  else if negb m1 && negb m2 then SMS_VDP_MODE4_192
  else if negb m3 && m2 && negb m1 then SMS_VDP_MODE4_192
  else if m3 && m2 && m1 then SMS_VDP_MODE4_192
  else if negb m3 && m2 && m1 then SMS_VDP_MODE4_224
  else SMS_VDP_MODE_UNSUPPORTED.

Definition sms_vdp_active_lines (mode : SmsVdpMode) : Z :=
  match mode with SMS_VDP_MODE_UNSUPPORTED => 0 | SMS_VDP_MODE4_192 => 192 | SMS_VDP_MODE4_224 => 224 end.

Definition sms_vdp_v_counter_value (mode : SmsVdpMode) (line : Z) : Z :=
  let jump := if mode =b SMS_VDP_MODE4_224 then 235 else 219 in
  u8 (if jump <=? line then line - 6 else line).

(** The error goes to the sink, if there is one. *)
Definition fail_mode (v : SmsVdp) (sink : option SmsMemory) (cycles : Z) : option SmsMemory :=
  match sink with
  | None => None
  | Some m => Some (sms_memory_latch_error m SMS_ERROR_VDP_MODE_UNSUPPORTED (u16 ((znth (reg v) 1 0 .<< 8) .| znth (reg v) 0 0)) 0 cycles)
  end.

Definition sms_vdp_reset (v : SmsVdp) : SmsVdp :=
  mkVdp (zeros SMS_VDP_VRAM_SIZE) (zeros SMS_VDP_CRAM_SIZE) reset_registers (mkPort 0 0 0 0 0) (mkFlags 0 0 0 0) (mkCounters 0xFF 0 0 0 0)
    (mkTrace (trace (traced v)) (trace_capacity (traced v)) 0 0 0 0).

(** * The H counter *)

Definition SMS_HCOUNTER_ORIGIN_PIXEL : Z := 266.
Definition SMS_HCOUNTER_LINE_PIXELS : Z := 342.

Definition sms_vdp_hcounter_value (t_in_line : Z) : Z :=
  let pixel := u32 (u32 (3 * t_in_line) / 2 + SMS_HCOUNTER_ORIGIN_PIXEL) mod SMS_HCOUNTER_LINE_PIXELS in
  let count := pixel / 2 in
  u8 (if count <? 0x94 then count else 0xE9 + (count - 0x94)).

Definition sms_vdp_latch_hcounter (v : SmsVdp) (cycles : Z) : SmsVdp :=
  let c := counters v in with_counters v (mkCounters (line_counter c) (sms_vdp_hcounter_value (cycles mod 228)) 1 (line c) (frame c)).

(** * Ports *)

(** The address register, which wraps after 14 bits. *)
Definition set_address (v : SmsVdp) (a : Z) : SmsVdp :=
  let p := port v in with_port v (mkPort a (code p) (latch_set p) (latch_byte p) (read_buffer p)).
Definition next_address (v : SmsVdp) : SmsVdp := set_address v (u16 ((address (port v) + 1) .& 0x3FFF)).
Definition set_latch (v : SmsVdp) (l : Z) : SmsVdp :=
  let p := port v in with_port v (mkPort (address p) (code p) l (latch_byte p) (read_buffer p)).
Definition set_buffer (v : SmsVdp) (b : Z) : SmsVdp :=
  let p := port v in with_port v (mkPort (address p) (code p) (latch_set p) (latch_byte p) b).

Definition control_write (v : SmsVdp) (value cycles : Z) : SmsVdp :=
  let p := port v in
  if latch_set p =? 0 then with_port v (mkPort (u16 ((address p .& 0x3F00) .| value)) (code p) 1 value (read_buffer p))
  else
    let v := with_port v (mkPort (u16 (((value .& 0x3F) .<< 8) .| (address p .& 0x00FF))) (u8 (value .>> 6)) 0 (latch_byte p) (read_buffer p)) in
    if code (port v) =? 0 then next_address (set_buffer v (znth (vram v) (address (port v)) 0))
    else if code (port v) =? 2 then
      let r := value .& 0x0F in
      let v := trace_add v cycles SMS_VDP_TRACE_REG_WRITE r (latch_byte (port v)) 0 in
      if r <=? 10 then set_reg v r (latch_byte (port v)) else v
    else v.

Definition data_write (v : SmsVdp) (value : Z) : SmsVdp :=
  let v := set_latch v 0 in
  let v :=
    if code (port v) =? 3
    then let v := set_cram v (address (port v) .& 0x1F) (u8 (value .& 0x3F)) in set_writes v (vram_writes (traced v)) (u32 (cram_writes (traced v) + 1))
    else let v := set_vram v (address (port v)) value in set_writes v (u32 (vram_writes (traced v) + 1)) (cram_writes (traced v)) in
  next_address (set_buffer v value).

Definition sms_vdp_write (v : SmsVdp) (cls : SmsPortClass) (value cycles : Z) : SmsVdp :=
  match cls with SMS_PORT_VDP_CONTROL => control_write v value cycles | SMS_PORT_VDP_DATA => data_write v value | _ => v end.

Definition status_value (f : VdpFlags) : Z :=
  u8 ((((frame_pending f .<< 7) .| (sprite_overflow f .<< 6)) .| (sprite_collision f .<< 5)) .| 0x1F).

Definition sms_vdp_read (v : SmsVdp) (sink : option SmsMemory) (cls : SmsPortClass) (cycles : Z) : SmsVdp * option SmsMemory * Z :=
  match cls with
  | SMS_PORT_VDP_DATA =>
      let v := set_latch v 0 in
      let value := read_buffer (port v) in
      (next_address (set_buffer v (znth (vram v) (address (port v)) 0)), sink, value)
  | SMS_PORT_VDP_STATUS =>
      let sink := if sms_vdp_mode v =b SMS_VDP_MODE_UNSUPPORTED then fail_mode v sink cycles else sink in
      let value := status_value (flags v) in
      let v := set_latch (with_flags v (mkFlags 0 0 0 0)) 0 in
      (trace_add v cycles SMS_VDP_TRACE_STATUS_READ 0 value 0, sink, value)
  | SMS_PORT_V_COUNTER =>
      let mode := sms_vdp_mode v in
      if mode =b SMS_VDP_MODE_UNSUPPORTED then (v, fail_mode v sink cycles, 0xFF)
      else (v, sink, sms_vdp_v_counter_value mode (line (counters v)))
  | SMS_PORT_H_COUNTER =>
      if negb (hcounter_valid (counters v) =? 0) then (v, sink, hcounter_latch (counters v))
      else (v, match sink with Some m => Some (sms_memory_latch_error m SMS_ERROR_HCOUNTER_UNRESOLVED 0x7F 0 cycles) | None => None end, 0xFF)
  | _ => (v, sink, 0xFF)
  end.

Definition sms_vdp_set_sprite_flags (v : SmsVdp) (overflow collision : bool) : SmsVdp :=
  let f := flags v in
  with_flags v (mkFlags (frame_pending f) (if overflow then 1 else sprite_overflow f) (if collision then 1 else sprite_collision f) (line_pending f)).

Definition sms_vdp_cram_to_rgb888 (cram : Z) : Z :=
  let r := (cram .& 3) * 85 in
  let g := ((cram .>> 2) .& 3) * 85 in
  let b := ((cram .>> 4) .& 3) * 85 in
  ((r .<< 16) .| (g .<< 8)) .| b.

(** * Scanline events *)

Definition set_line_counter (v : SmsVdp) (n : Z) : SmsVdp :=
  let c := counters v in with_counters v (mkCounters n (hcounter_latch c) (hcounter_valid c) (line c) (frame c)).
Definition raise_line (v : SmsVdp) : SmsVdp :=
  let f := flags v in with_flags v (mkFlags (frame_pending f) (sprite_overflow f) (sprite_collision f) 1).
Definition raise_frame (v : SmsVdp) : SmsVdp :=
  let f := flags v in with_flags v (mkFlags 1 (sprite_overflow f) (sprite_collision f) (line_pending f)).

(** The line counter and the flags, on a line of a supported mode. *)
Definition line_events (v : SmsVdp) (active l cycles : Z) : SmsVdp :=
  let v :=
    if l <=? active then
      if line_counter (counters v) =? 0
      then trace_add (raise_line (set_line_counter v (znth (reg v) 10 0))) cycles SMS_VDP_TRACE_FLAG_LINE l 0 0
      else set_line_counter v (line_counter (counters v) - 1)
    else set_line_counter v (znth (reg v) 10 0) in
  if l =? active + 1 then trace_add (raise_frame v) cycles SMS_VDP_TRACE_FLAG_FRAME l 0 0 else v.

Section Scanline.
Context {R : Type} (line_hook : option (R -> SmsVdp -> Z -> Z -> R * SmsVdp)).

Definition sms_vdp_scanline (v : SmsVdp) (context : R) (sink : option SmsMemory) (frame_ l cycles : Z) : SmsVdp * R * option SmsMemory :=
  let mode := sms_vdp_mode v in
  let c := counters v in
  let v := with_counters v (mkCounters (line_counter c) (hcounter_latch c) (hcounter_valid c) l frame_) in
  let v := if l =? 0 then sms_vdp_flush_trace v cycles else v in
  if mode =b SMS_VDP_MODE_UNSUPPORTED then
    (v, context,
     if has_bit (znth (reg v) 1 0) (R1_DISPLAY .| R1_IE0) || has_bit (znth (reg v) 0 0) R0_IE1 then fail_mode v sink cycles else sink)
  else
    let active := sms_vdp_active_lines mode in
    let '(context, v) :=
      match line_hook with
      | Some hook => if l <? active then hook context v l cycles else (context, v)
      | None => (context, v)
      end in
    (line_events v active l cycles, context, sink).
End Scanline.

Definition SMS_IRQ_FRAME : Z := 0x01.
Definition SMS_IRQ_LINE : Z := 0x02.

Definition sms_vdp_irq_sources (v : SmsVdp) : Z :=
  u8 ((if negb (frame_pending (flags v) =? 0) && has_bit (znth (reg v) 1 0) R1_IE0 then SMS_IRQ_FRAME else 0) .|
      (if negb (line_pending (flags v) =? 0) && has_bit (znth (reg v) 0 0) R0_IE1 then SMS_IRQ_LINE else 0)).

(** What the digest reads, in order. *)
Definition sms_vdp_digest (v : SmsVdp) (sha : SmsSha256) : SmsSha256 :=
  let p := port v in let f := flags v in let c := counters v in let t := traced v in
  let sha := sms_sha256_update (sms_sha256_update (sms_sha256_update sha (vram v)) (cram v)) (reg v) in
  let sha := sms_sha256_update_u16 sha (address p) in
  let sha := sms_sha256_update sha
    [code p; latch_set p; latch_byte p; read_buffer p; frame_pending f; sprite_overflow f; sprite_collision f; line_pending f; line_counter c] in
  let sha := sms_sha256_update_u8 (sms_sha256_update_u8 sha (hcounter_latch c)) (hcounter_valid c) in
  let sha := sms_sha256_update_u64 (sms_sha256_update_u32 sha (line c)) (frame c) in
  sms_sha256_update_u32 (sms_sha256_update_u32 (sms_sha256_update_u32 sha (vram_writes t)) (cram_writes t)) (trace_count t).

(** * Well-formed states *)

Definition is_flag (x : Z) : Prop := x = 0 \/ x = 1.

Record vdp_ok (v : SmsVdp) : Prop := {
  ok_vram : zlen (vram v) = SMS_VDP_VRAM_SIZE /\ Forall is_u8 (vram v);
  ok_cram : zlen (cram v) = SMS_VDP_CRAM_SIZE /\ Forall is_u8 (cram v);
  ok_reg : zlen (reg v) = SMS_VDP_REGISTERS /\ Forall is_u8 (reg v);
  ok_port : 0 <= address (port v) < 0x4000 /\ 0 <= code (port v) < 4 /\ is_flag (latch_set (port v)) /\ is_u8 (latch_byte (port v)) /\
    is_u8 (read_buffer (port v));
  ok_flags : is_flag (frame_pending (flags v)) /\ is_flag (sprite_overflow (flags v)) /\ is_flag (sprite_collision (flags v)) /\
    is_flag (line_pending (flags v));
  ok_counters : is_u8 (line_counter (counters v)) /\ is_u8 (hcounter_latch (counters v)) /\ is_flag (hcounter_valid (counters v));
}.

Lemma trace_add_only v c k a b d : exists t, trace_add v c k a b d = with_traced v t.
Proof. unfold trace_add. destruct (trace (traced v)); [destruct (_ <? _)|]; eexists; reflexivity. Qed.

Lemma set_writes_only v a b : exists t, set_writes v a b = with_traced v t.
Proof. by eexists. Qed.

Lemma with_traced_twice v t t' : with_traced (with_traced v t) t' = with_traced v t'.
Proof. done. Qed.

Lemma flush_only v c : exists t, sms_vdp_flush_trace v c = with_traced v t.
Proof.
  unfold sms_vdp_flush_trace. cbv zeta.
  destruct (trace_add_only v c SMS_VDP_TRACE_VRAM_SUMMARY (saturate16 (vram_writes (traced v))) 0 (hash64 (vram v))) as [t Et].
  destruct (negb (vram_writes (traced v) =? 0)); [rewrite Et|].
  - destruct (set_writes_only (with_traced v t) 0 (cram_writes (traced (with_traced v t)))) as [t2 ->]. rewrite with_traced_twice.
    destruct (negb _); [|by eexists].
    match goal with |- context [trace_add ?v ?c ?k ?a ?b ?d] => destruct (trace_add_only v c k a b d) as [t3 ->] end. by eexists.
  - destruct (negb _); [|exists (traced v); by destruct v].
    match goal with |- context [trace_add ?v ?c ?k ?a ?b ?d] => destruct (trace_add_only v c k a b d) as [t3 ->] end. by eexists.
Qed.

Lemma traced_ok v t : vdp_ok v -> vdp_ok (with_traced v t).
Proof. intros [H1 H2 H3 H4 H5 H6]. by split. Qed.

Lemma port_ok v p : vdp_ok v -> 0 <= address p < 0x4000 -> 0 <= code p < 4 -> is_flag (latch_set p) -> is_u8 (latch_byte p) -> is_u8 (read_buffer p) ->
  vdp_ok (with_port v p).
Proof. intros [H1 H2 H3 H4 H5 H6]. by split. Qed.

Lemma flags_ok v f : vdp_ok v -> is_flag (frame_pending f) -> is_flag (sprite_overflow f) -> is_flag (sprite_collision f) -> is_flag (line_pending f) ->
  vdp_ok (with_flags v f).
Proof. intros [H1 H2 H3 H4 H5 H6]. by split. Qed.

Lemma counters_ok v c : vdp_ok v -> is_u8 (line_counter c) -> is_u8 (hcounter_latch c) -> is_flag (hcounter_valid c) -> vdp_ok (with_counters v c).
Proof. intros [H1 H2 H3 H4 H5 H6]. by split. Qed.

Lemma trace_add_ok v c k a b d : vdp_ok v -> vdp_ok (trace_add v c k a b d).
Proof. intros H. destruct (trace_add_only v c k a b d) as [t ->]. by apply traced_ok. Qed.

Lemma set_byte_ok (l : list Z) i x n : zlen l = n /\ Forall is_u8 l -> is_u8 x -> zlen (<[Z.to_nat i := x]> l) = n /\ Forall is_u8 (<[Z.to_nat i := x]> l).
Proof. intros [H1 H2] Hx. rewrite zlen_insert. split; [done|by apply Forall_insert_u8]. Qed.

Lemma memory_update_ok v : vdp_ok v -> forall i x, is_u8 x -> vdp_ok (set_vram v i x) /\ vdp_ok (set_cram v i x) /\ vdp_ok (set_reg v i x).
Proof.
  intros [H1 H2 H3 H4 H5 H6] i x Hx.
  split; [|split]; (split; cbn [set_vram set_cram set_reg vram cram reg port flags counters]; try done; by apply set_byte_ok).
Qed.

Lemma address_wraps a : u16 (a .& 0x3FFF) = a mod 0x4000.
Proof.
  rewrite (land_ones_mod _ 14) by lia. change (2 ^ 14) with 0x4000. apply u16_id. unfold is_u16.
  pose proof (Z.mod_pos_bound a 0x4000 ltac:(lia)). lia.
Qed.

Lemma next_address_exact v : next_address v = set_address v ((address (port v) + 1) mod 0x4000).
Proof. unfold next_address. by rewrite address_wraps. Qed.

Lemma next_address_ok v : vdp_ok v -> vdp_ok (next_address v).
Proof.
  intros H. rewrite next_address_exact. pose proof H as [_ _ _ (H1 & H2 & H3 & H4 & H5) _ _].
  apply port_ok; cbn; try done. pose proof (Z.mod_pos_bound (address (port v) + 1) 0x4000 ltac:(lia)). lia.
Qed.

Lemma set_latch_ok v l : vdp_ok v -> is_flag l -> vdp_ok (set_latch v l).
Proof. intros H Hl. pose proof H as [_ _ _ (H1 & H2 & H3 & H4 & H5) _ _]. by apply port_ok. Qed.

Lemma set_buffer_ok v b : vdp_ok v -> is_u8 b -> vdp_ok (set_buffer v b).
Proof. intros H Hl. pose proof H as [_ _ _ (H1 & H2 & H3 & H4 & H5) _ _]. by apply port_ok. Qed.

(** The address of the second control byte. *)
Lemma second_address x a : is_u8 x -> 0 <= a < 0x4000 -> u16 (((x .& 0x3F) .<< 8) .| (a .& 0x00FF)) = 256 * (x mod 64) + a mod 256.
Proof.
  intros Hx Ha. rewrite land_ff, (land_ones_mod _ 6), be16_sum by (lia || apply u8_range). change (2 ^ 6) with 64. unfold u8.
  apply u16_id. unfold is_u16. pose proof (Z.mod_pos_bound x 64 ltac:(lia)). pose proof (Z.mod_pos_bound a 256 ltac:(lia)). lia.
Qed.

(** The address after the first one. *)
Lemma first_address x a : is_u8 x -> 0 <= a < 0x4000 -> u16 ((a .& 0x3F00) .| x) = 256 * (a / 256) + x.
Proof.
  intros Hx Ha. unfold is_u8 in Hx. assert (E : a .& 0x3F00 = (a / 256) .<< 8).
  { change 256 with (2 ^ 8). rewrite <- (Z.shiftr_div_pow2 a 8) by lia. apply Z.bits_inj'. intros i Hi. rewrite Z.land_spec, Z.shiftl_spec by lia.
    destruct (Z.lt_ge_cases i 8) as [L|G].
    - rewrite (Z.testbit_neg_r _ (i - 8)) by lia. assert (Hb : Z.testbit 0x3F00 i = false) by (assert (Hi8 : i = 0 \/ i = 1 \/ i = 2 \/ i = 3 \/ i = 4 \/ i = 5 \/ i = 6 \/ i = 7) by lia; destruct Hi8 as [->|[->|[->|[->|[->|[->|[->| ->]]]]]]]; done).
      by rewrite Hb, andb_false_r.
    - rewrite Z.shiftr_spec by lia. replace (i - 8 + 8) with i by lia. change 0x3F00 with (Z.shiftl (Z.ones 6) 8). rewrite Z.shiftl_spec, Z.testbit_ones_nonneg by lia.
      destruct (Z.ltb_spec (i - 8) 6) as [L|G']; [by rewrite andb_true_r|]. rewrite andb_false_r. symmetry.
      destruct (Z.eq_dec a 0) as [->|N]; [by rewrite Z.bits_0|]. apply Z.bits_above_log2; [lia|].
      pose proof (Z.log2_le_mono a 0x3FFF ltac:(lia)) as L2. change (Z.log2 0x3FFF) with 13 in L2. lia. }
  rewrite E, be16_sum by done. apply u16_id. unfold is_u16. Z.to_euclidean_division_equations. lia.
Qed.

Lemma control_write_ok v x c : vdp_ok v -> is_u8 x -> vdp_ok (control_write v x c).
Proof.
  intros H Hx. pose proof H as [[_ Hv] _ _ (H1 & H2 & H3 & H4 & H5) _ _]. unfold control_write.
  destruct (Z.eqb_spec (latch_set (port v)) 0) as [E|N].
  - apply port_ok; cbn; try done; [|by right]. rewrite first_address by done. unfold is_u8 in Hx. Z.to_euclidean_division_equations. lia.
  - set (v1 := with_port v _). assert (Hv1 : vdp_ok v1).
    { apply port_ok; cbn [address code latch_set latch_byte read_buffer]; try done; [| |by left].
      - rewrite second_address by done. pose proof (Z.mod_pos_bound x 64 ltac:(lia)). pose proof (Z.mod_pos_bound (address (port v)) 256 ltac:(lia)). lia.
      - unfold u8. rewrite Z.shiftr_div_pow2 by lia. change (2 ^ 6) with 64. unfold is_u8 in Hx. Z.to_euclidean_division_equations. lia. }
    destruct (code (port v1) =? 0); [apply next_address_ok, set_buffer_ok; [done|by apply znth_byte]|].
    destruct (code (port v1) =? 2); [|done]. destruct (_ <=? 10); [|by apply trace_add_ok].
    match goal with |- vdp_ok (set_reg ?t _ _) => assert (Ht : vdp_ok t) by (by apply trace_add_ok) end.
    apply memory_update_ok; [exact Ht|apply Ht].
Qed.

Lemma data_write_ok v x : vdp_ok v -> is_u8 x -> vdp_ok (data_write v x).
Proof.
  intros H Hx. unfold data_write. apply next_address_ok, set_buffer_ok; [|done].
  pose proof (set_latch_ok v 0 H (or_introl eq_refl)) as H1.
  destruct (code (port (set_latch v 0)) =? 3); apply traced_ok, memory_update_ok; auto with word.
Qed.

(** What can happen to a VDP: accesses, the H counter latch, the line events without a
    hook, and the flags a renderer sets. *)
Inductive VdpOp : Type :=
| Vdp_read (cls : SmsPortClass) (cycles : Z)
| Vdp_write (cls : SmsPortClass) (value cycles : Z)
| Vdp_latch (cycles : Z)
| Vdp_scanline (frame line cycles : Z)
| Vdp_sprites (overflow collision : bool).

Definition vdp_step (v : SmsVdp) (op : VdpOp) : SmsVdp :=
  match op with
  | Vdp_read cls cycles => (sms_vdp_read v None cls cycles).1.1
  | Vdp_write cls value cycles => sms_vdp_write v cls value cycles
  | Vdp_latch cycles => sms_vdp_latch_hcounter v cycles
  | Vdp_scanline frame line cycles => (sms_vdp_scanline (R := unit) None v tt None frame line cycles).1.1
  | Vdp_sprites overflow collision => sms_vdp_set_sprite_flags v overflow collision
  end.

Definition vdp_op_ok (op : VdpOp) : Prop := match op with Vdp_write _ value _ => is_u8 value | _ => True end.

Lemma vdp_reset_ok v : vdp_ok (sms_vdp_reset v).
Proof.
  split; cbn [sms_vdp_reset vram cram reg port flags counters address code latch_set latch_byte read_buffer frame_pending sprite_overflow sprite_collision line_pending line_counter hcounter_latch hcounter_valid].
  - split; [by apply zlen_zeros|apply zeros_bytes].
  - split; [by apply zlen_zeros|apply zeros_bytes].
  - split; [done|]. repeat (constructor; [by vm_compute|]). constructor.
  - split_and!; first [done|by left|by vm_compute].
  - split_and!; by left.
  - split_and!; first [by vm_compute|by left].
Qed.

Lemma status_bits a b c : is_flag a -> is_flag b -> is_flag c ->
  u8 ((((a .<< 7) .| (b .<< 6)) .| (c .<< 5)) .| 0x1F) = 128 * a + 64 * b + 32 * c + 31.
Proof. intros [-> | ->] [-> | ->] [-> | ->]; by vm_compute. Qed.

Lemma hcounter_range t : is_u8 (sms_vdp_hcounter_value t).
Proof. apply u8_range. Qed.

Lemma line_events_ok v active l c : vdp_ok v -> vdp_ok (line_events v active l c).
Proof.
  intros H. unfold line_events. set (v1 := if l <=? active then _ else _). assert (H1 : vdp_ok v1).
  { pose proof H as [_ _ [_ Hr] _ (F1 & F2 & F3 & F4) (C1 & C2 & C3)]. unfold v1.
    destruct (l <=? active); [destruct (Z.eqb_spec (line_counter (counters v)) 0) as [E|N]|].
    - apply trace_add_ok, flags_ok; cbn; try done; [|by right]. apply counters_ok; cbn; try done. by apply znth_byte.
    - apply counters_ok; cbn; try done. unfold is_u8 in *. lia.
    - apply counters_ok; cbn; try done. by apply znth_byte. }
  clearbody v1. destruct (l =? active + 1); [|done]. pose proof H1 as [_ _ _ _ (F1 & F2 & F3 & F4) _].
  apply trace_add_ok, flags_ok; cbn; try done. by right.
Qed.

(** C40. The VDP stays a VDP.  From reset, whatever is read, written, latched or timed, its
    memories keep their sizes and hold bytes, the address is 14 bits and the code
    two, the flags are flags; and every read answers a byte. *)
Theorem vdp_invariant (v0 : SmsVdp) (ops : list VdpOp) (Hops : Forall vdp_op_ok ops) (sink : option SmsMemory) (cls : SmsPortClass) (cycles : Z) :
  let v := fold_left vdp_step ops (sms_vdp_reset v0) in
  vdp_ok v /\ is_u8 (sms_vdp_read v sink cls cycles).2.
Proof.
  cbv zeta. assert (Hread : forall v sink cls cycles, vdp_ok v ->
    vdp_ok (sms_vdp_read v sink cls cycles).1.1 /\ is_u8 (sms_vdp_read v sink cls cycles).2).
  { clear. intros v sink cls cycles H. pose proof H as [[_ Hv] _ _ (H1 & H2 & H3 & H4 & H5) (F1 & F2 & F3 & F4) (C1 & C2 & C3)].
    pose proof (set_latch_ok v 0 H (or_introl eq_refl)) as Hl.
    unfold sms_vdp_read. destruct cls; cbn [fst snd]; try (split; [done|by vm_compute]).
    - destruct (_ =b _); cbn [fst snd]; (split; [done|]); [by vm_compute|apply u8_range].
    - destruct (negb _); cbn [fst snd]; (split; [done|]); [done|by vm_compute].
    - split; [|done]. apply next_address_ok, set_buffer_ok; [done|]. apply znth_byte. exact Hv.
    - split; [|apply u8_range]. apply trace_add_ok, set_latch_ok; [|by left]. apply flags_ok; cbn; try done; by left. }
  assert (Hstep : forall v op, vdp_op_ok op -> vdp_ok v -> vdp_ok (vdp_step v op)).
  { clear - Hread. intros v op Hop H. destruct op as [cls c|cls x c|c|f l c|o k]; cbn [vdp_step vdp_op_ok] in *.
    - by apply Hread.
    - unfold sms_vdp_write. destruct cls; try done; [by apply data_write_ok|by apply control_write_ok].
    - pose proof H as [_ _ _ _ _ (C1 & C2 & C3)]. apply counters_ok; cbn; try done; [apply hcounter_range|by right].
    - unfold sms_vdp_scanline. set (v1 := with_counters v _).
      assert (H1 : vdp_ok v1) by (pose proof H as [_ _ _ _ _ (C1 & C2 & C3)]; by apply counters_ok).
      set (v2 := if l =? 0 then _ else v1). assert (H2 : vdp_ok v2).
      { unfold v2. destruct (l =? 0); [|done]. destruct (flush_only v1 c) as [t ->]. by apply traced_ok. }
      destruct (_ =b _); [exact H2|]. cbn [fst snd]. by apply line_events_ok.
    - pose proof H as [_ _ _ _ (F1 & F2 & F3 & F4) _]. apply flags_ok; cbn; try done; [destruct o|destruct k]; try done; by right. }
  assert (Hv : vdp_ok (fold_left vdp_step ops (sms_vdp_reset v0))).
  { generalize (vdp_reset_ok v0). generalize (sms_vdp_reset v0). induction Hops as [|op ops Hop _ IH]; intros v H; [done|]. cbn [fold_left]. by apply IH, Hstep. }
  split; [done|by apply Hread].
Qed.

(** * Transfers through the data port *)

(** The two control writes that set the address and the code. *)
Definition set_up (v : SmsVdp) (code address cycles : Z) : SmsVdp :=
  sms_vdp_write (sms_vdp_write v SMS_PORT_VDP_CONTROL (address mod 256) cycles) SMS_PORT_VDP_CONTROL (64 * code + address / 256) cycles.

Definition upload (v : SmsVdp) (bytes : list Z) (cycles : Z) : SmsVdp :=
  fold_left (fun v x => sms_vdp_write v SMS_PORT_VDP_DATA x cycles) bytes v.

Fixpoint download (n : nat) (v : SmsVdp) (cycles : Z) : list Z :=
  match n with
  | O => []
  | S n => let '(v, _, x) := sms_vdp_read v None SMS_PORT_VDP_DATA cycles in x :: download n v cycles
  end.

(** Where a VDP is after [n] bytes have been stored from [base]. *)
Record stored (v v' : SmsVdp) (base : Z) (bytes : list Z) : Prop := {
  stored_ok : vdp_ok v';
  stored_vram : forall a, 0 <= a < 0x4000 ->
    znth (vram v') a 0 = if (a - base) mod 0x4000 <? zlen bytes then znth bytes ((a - base) mod 0x4000) 0 else znth (vram v) a 0;
  stored_rest : (cram v', reg v', flags v', counters v') = (cram v, reg v, flags v, counters v);
  stored_port : address (port v') = (base + zlen bytes) mod 0x4000 /\ code (port v') = 1 /\ latch_set (port v') = 0;
}.

Lemma znth_snoc {A} (l : list A) x i d : 0 <= i <= zlen l -> znth (l ++ [x]) i d = if i =? zlen l then x else znth l i d.
Proof.
  intros Hi. unfold zlen in *. rewrite !znth_nth by lia. destruct (Z.eqb_spec i (Z.of_nat (length l))) as [->|N].
  - rewrite Nat2Z.id, nth_lookup, lookup_app_r, Nat.sub_diag by lia. done.
  - by rewrite app_nth1 by lia.
Qed.

Lemma stored_snoc v v' base bytes x c : stored v v' base bytes -> is_u8 x -> zlen bytes < 0x4000 ->
  stored v (sms_vdp_write v' SMS_PORT_VDP_DATA x c) base (bytes ++ [x]).
Proof.
  intros [Hok Hv Hr (Ha & Hc & Hl)] Hx Hn. pose proof (zlen_nonneg bytes) as H0. pose proof Hok as [[Hlen _] _ _ _ _ _]. unfold SMS_VDP_VRAM_SIZE in Hlen.
  pose proof (Z.mod_pos_bound (base + zlen bytes) 0x4000 ltac:(lia)) as Hb.
  assert (E : sms_vdp_write v' SMS_PORT_VDP_DATA x c = data_write v' x) by done. rewrite E. clear E.
  pose proof (data_write_ok v' x Hok Hx) as Hok'. unfold data_write in *. cbn [set_latch with_port port code] in *. rewrite Hc in *. cbn [Z.eqb Pos.eqb] in *.
  rewrite next_address_exact in *. split; [done| | |].
  - intros a Hrange. cbn [set_address set_buffer set_writes with_traced set_vram set_latch with_port vram port address]. rewrite Ha, znth_insert by lia.
    rewrite Hv, zlen_snoc by done. pose proof (Z.mod_pos_bound (a - base) 0x4000 ltac:(lia)) as Hm.
    destruct (Z.eqb_spec a ((base + zlen bytes) mod 0x4000)) as [Ea|Na].
    + assert (Em : (a - base) mod 0x4000 = zlen bytes) by (rewrite Ea, Zminus_mod_idemp_l; replace (base + zlen bytes - base) with (zlen bytes) by lia; apply Z.mod_small; lia).
      rewrite Em, (proj2 (Z.ltb_lt _ _)), znth_snoc, Z.eqb_refl by lia. done.
    + assert (Nm : (a - base) mod 0x4000 <> zlen bytes).
      { intros Em. apply Na. rewrite <- Em, Zplus_mod_idemp_r. replace (base + (a - base)) with a by lia. symmetry. apply Z.mod_small. lia. }
      destruct (Z.ltb_spec ((a - base) mod 0x4000) (zlen bytes)), (Z.ltb_spec ((a - base) mod 0x4000) (zlen bytes + 1)); try lia.
      rewrite znth_snoc by lia. by rewrite (proj2 (Z.eqb_neq _ _)).
  - exact Hr.
  - cbn [set_address set_buffer set_writes with_traced set_vram set_latch with_port port address code latch_set]. rewrite Ha, zlen_snoc, Zplus_mod_idemp_l.
    split_and!; [by rewrite Z.add_assoc|done|done].
Qed.

Lemma upload_stored v v' base bytes c : stored v v' base [] -> Forall is_u8 bytes -> zlen bytes <= 0x4000 ->
  stored v (upload v' bytes c) base bytes.
Proof.
  intros H Hb. induction bytes as [|x bytes IH] using rev_ind; intros Hn; [done|]. apply Forall_app in Hb. destruct Hb as [Hb Hx].
  rewrite zlen_snoc in Hn. unfold upload. rewrite fold_left_app. apply stored_snoc; [apply IH; (done || lia)|by inversion Hx|lia].
Qed.

Lemma set_up_port v cd a c : vdp_ok v -> latch_set (port v) = 0 -> 0 <= cd < 2 -> 0 <= a < 0x4000 ->
  let v' := set_up v cd a c in
  vdp_ok v' /\ (vram v', cram v', reg v', flags v', counters v') = (vram v, cram v, reg v, flags v, counters v) /\
  code (port v') = cd /\ latch_set (port v') = 0 /\
  if cd =? 0 then address (port v') = (a + 1) mod 0x4000 /\ read_buffer (port v') = znth (vram v) a 0 else address (port v') = a.
Proof.
  intros Hok Hl Hc Ha. cbv zeta. assert (Hx : is_u8 (a mod 256)) by (unfold is_u8; apply Z.mod_pos_bound; lia).
  assert (Hy : is_u8 (64 * cd + a / 256)) by (unfold is_u8; Z.to_euclidean_division_equations; lia).
  assert (E : set_up v cd a c = control_write (control_write v (a mod 256) c) (64 * cd + a / 256) c) by done. rewrite E. split.
  { by apply control_write_ok, Hy; apply control_write_ok. }
  assert (E1 : control_write v (a mod 256) c = with_port v (mkPort (256 * (address (port v) / 256) + a mod 256) (code (port v)) 1 (a mod 256) (read_buffer (port v)))).
  { unfold control_write. rewrite Hl. cbn [Z.eqb]. pose proof Hok as [_ _ _ (H1 & _) _ _]. by rewrite first_address. }
  rewrite E1. unfold control_write. cbn [with_port port latch_set address code latch_byte read_buffer]. rewrite Z.eqb_refl || cbn [Z.eqb Pos.eqb].
  pose proof Hok as [_ _ _ (H1 & _) _ _].
  rewrite second_address by (done || (Z.to_euclidean_division_equations; lia)).
  assert (Ed : 256 * ((64 * cd + a / 256) mod 64) + (256 * (address (port v) / 256) + a mod 256) mod 256 = a) by (Z.to_euclidean_division_equations; lia).
  assert (Ec : u8 ((64 * cd + a / 256) .>> 6) = cd).
  { rewrite Z.shiftr_div_pow2 by lia. change (2 ^ 6) with 64. unfold u8. Z.to_euclidean_division_equations. lia. }
  rewrite Ed, Ec. destruct (Z.eqb_spec cd 0) as [->|N].
  - rewrite next_address_exact. split_and!; done.
  - assert (cd = 1) as -> by lia. done.
Qed.

Lemma download_exact n v c base : vdp_ok v -> 0 <= base -> address (port v) = (base + 1) mod 0x4000 -> read_buffer (port v) = znth (vram v) (base mod 0x4000) 0 ->
  download n v c = map (fun i => znth (vram v) ((base + Z.of_nat i) mod 0x4000) 0) (seq 0 n).
Proof.
  revert v base. induction n as [|n IH]; intros v base Hok H0 Ha Hb; [done|]. cbn [download sms_vdp_read seq map].
  cbn [set_latch with_port vram port address read_buffer]. rewrite Hb, Z.add_0_r. f_equal. rewrite next_address_exact.
  match goal with |- download n ?v' c = _ => assert (Hv' : vdp_ok v' /\ vram v' = vram v /\ address (port v') = (base + 1 + 1) mod 0x4000 /\
    read_buffer (port v') = znth (vram v) ((base + 1) mod 0x4000) 0) end.
  { split_and!; [|done| |by rewrite <- Ha].
    - rewrite <- next_address_exact. apply next_address_ok, set_buffer_ok; [by apply set_latch_ok; [|left]|]. apply znth_byte. by destruct Hok as [[_ ?] _ _ _ _ _].
    - cbn [set_address set_buffer set_latch with_port port address]. by rewrite Ha, Zplus_mod_idemp_l. }
  destruct Hv' as (Hok' & Ev & Ea & Eb). rewrite (IH _ (base + 1)) by (done || lia || by rewrite Ev). rewrite <- seq_shift, map_map, Ev. apply map_ext. intros i.
  do 2 f_equal. lia.
Qed.

(** VRAM holds what was uploaded.  Setting a write address and writing up to 16 KiB of
    bytes to the data port stores them from that address, wrapping at the end, and
    nothing else changes; setting the same address for reading and reading as many
    bytes gives them back. *)
Theorem vram_round_trip (v : SmsVdp) (base cycles : Z) (bytes : list Z) (Hok : vdp_ok v) (Hlatch : latch_set (port v) = 0)
    (Hbase : 0 <= base < 0x4000) (Hbytes : Forall is_u8 bytes) (Hlen : zlen bytes <= 0x4000) :
  let v' := upload (set_up v 1 base cycles) bytes cycles in
  download (length bytes) (set_up v' 0 base cycles) cycles = bytes /\
  (forall a, 0 <= a < 0x4000 ->
     znth (vram v') a 0 = if (a - base) mod 0x4000 <? zlen bytes then znth bytes ((a - base) mod 0x4000) 0 else znth (vram v) a 0) /\
  (cram v', reg v', flags v', counters v') = (cram v, reg v, flags v, counters v).
Proof.
  cbv zeta. destruct (set_up_port v 1 base cycles Hok Hlatch ltac:(lia) Hbase) as (H1 & E1 & Hc & Hl & Ha).
  cbn [Z.eqb] in Ha. injection E1 as Ev Ecram Ereg Efl Eco.
  assert (H0 : stored v (set_up v 1 base cycles) base []).
  { split; [done| |by rewrite Ecram, Ereg, Efl, Eco|].
    - intros a Hr. pose proof (Z.mod_pos_bound (a - base) 0x4000 ltac:(lia)). rewrite (proj2 (Z.ltb_ge _ _)) by (change (zlen (@nil Z)) with 0; lia). by rewrite Ev.
    - change (zlen (@nil Z)) with 0. rewrite Z.add_0_r, Z.mod_small by lia. done. }
  pose proof (upload_stored v _ base bytes cycles H0 Hbytes Hlen) as [Hok' Hv Hr (Ha' & Hc' & Hl')].
  set (v' := upload _ bytes cycles) in *.
  split; [|split; [exact Hv|exact Hr]].
  destruct (set_up_port v' 0 base cycles Hok' Hl' ltac:(lia) Hbase) as (H2 & E2 & _ & _ & Hp). cbn [Z.eqb] in Hp. destruct Hp as [Hp1 Hp2].
  injection E2 as Ev2 _ _ _ _. rewrite (download_exact _ _ _ base) by (done || lia || by rewrite Ev2, (Z.mod_small base) by lia). rewrite Ev2.
  apply list_eq. intros i. rewrite list_lookup_fmap. destruct (decide (i < length bytes)%nat) as [L|G].
  - rewrite lookup_seq_lt by lia. cbn [Nat.add fmap option_fmap option_map]. unfold zlen in *.
    rewrite Hv by (apply Z.mod_pos_bound; lia). rewrite Zminus_mod_idemp_l. replace (base + Z.of_nat i - base) with (Z.of_nat i) by lia.
    rewrite Z.mod_small, (proj2 (Z.ltb_lt _ _)) by lia. rewrite <- (lookup_znth bytes (Z.of_nat i) 0) by (unfold zlen; lia). by rewrite Nat2Z.id.
  - rewrite lookup_seq_ge by lia. cbn. symmetry. apply lookup_ge_None. lia.
Qed.

(** * Interrupts over a frame *)

(** What leaves the registers and the line counter alone. *)
Definition quiet (op : VdpOp) : Prop :=
  match op with
  | Vdp_read _ _ | Vdp_latch _ | Vdp_sprites _ _ | Vdp_write SMS_PORT_VDP_DATA _ _ => True
  | _ => False
  end.

(** Lines from [l], each followed by accesses. *)
Fixpoint run_lines (frame start l : Z) (between : list (list VdpOp)) (v : SmsVdp) : SmsVdp :=
  match between with
  | [] => v
  | ops :: between => run_lines frame start (l + 1) between (fold_left vdp_step ops (vdp_step v (Vdp_scanline frame l (start + 228 * l))))
  end.

Lemma mode_reg v v' : reg v' = reg v -> sms_vdp_mode v' = sms_vdp_mode v.
Proof. intros E. unfold sms_vdp_mode. by rewrite E. Qed.

Lemma quiet_keeps v op : quiet op -> reg (vdp_step v op) = reg v /\ line_counter (counters (vdp_step v op)) = line_counter (counters v).
Proof.
  destruct op as [cls c|cls x c|c|f l c|o k]; cbn [quiet vdp_step]; try done.
  - intros _. unfold sms_vdp_read. destruct cls; cbn [fst snd]; try done.
    + by destruct (_ =b _).
    + by destruct (negb _).
    + match goal with |- context [trace_add ?v ?c ?k ?a ?b ?d] => destruct (trace_add_only v c k a b d) as [t ->] end. done.
  - destruct cls; try done. intros _. unfold sms_vdp_write, data_write. by destruct (code _ =? 3).
Qed.

Lemma quiet_list_keeps v ops : Forall quiet ops ->
  reg (fold_left vdp_step ops v) = reg v /\ line_counter (counters (fold_left vdp_step ops v)) = line_counter (counters v).
Proof.
  intros H. revert v. induction H as [|op ops Hop _ IH]; intros v; cbn [fold_left]; [done|].
  destruct (quiet_keeps v op Hop) as [E1 E2]. destruct (IH (vdp_step v op)) as [E3 E4]. by rewrite E3, E4.
Qed.

(** One line of a supported mode. *)
Lemma line_step v frame l c : sms_vdp_mode v <> SMS_VDP_MODE_UNSUPPORTED ->
  let v' := vdp_step v (Vdp_scanline frame l c) in
  let active := sms_vdp_active_lines (sms_vdp_mode v) in
  let n := line_counter (counters v) in
  reg v' = reg v /\
  line_counter (counters v') = (if l <=? active then if n =? 0 then znth (reg v) 10 0 else n - 1 else znth (reg v) 10 0) /\
  line_pending (flags v') = (if (l <=? active) && (n =? 0) then 1 else line_pending (flags v)) /\
  frame_pending (flags v') = (if l =? active + 1 then 1 else frame_pending (flags v)).
Proof.
  intros Hm. cbv zeta. cbn [vdp_step]. unfold sms_vdp_scanline. set (v1 := with_counters v _).
  set (v2 := if l =? 0 then sms_vdp_flush_trace v1 c else v1).
  assert (H2 : exists t, v2 = with_traced v1 t) by (unfold v2; destruct (l =? 0); [apply flush_only|by exists (traced v1)]).
  destruct H2 as [t E2]. clearbody v2. subst v2. rewrite bool_decide_eq_false_2 by done. cbn [fst snd]. unfold line_events.
  cbn [v1 with_traced with_counters counters line_counter reg].
  destruct (l <=? _); [destruct (line_counter (counters v) =? 0)|]; cbn [andb];
    repeat (match goal with |- context [trace_add ?v ?c ?k ?a ?b ?d] => destruct (trace_add_only v c k a b d) as [? ->] end);
    destruct (l =? _);
    repeat (match goal with |- context [trace_add ?v ?c ?k ?a ?b ?d] => destruct (trace_add_only v c k a b d) as [? ->] end); done.
Qed.

Lemma mod_step l p : 0 < p -> (l + 1) mod p = if l mod p =? p - 1 then 0 else l mod p + 1.
Proof.
  intros Hp. pose proof (Z.div_mod l p ltac:(lia)) as E. pose proof (Z.mod_pos_bound l p Hp) as Hb.
  destruct (Z.eqb_spec (l mod p) (p - 1)) as [E1|N]; symmetry.
  - apply (Z.mod_unique _ _ (l / p + 1)); [lia|]. rewrite E1 in E. lia.
  - apply (Z.mod_unique _ _ (l / p)); lia.
Qed.

(** The line counter before line [l]. *)
Definition counter_before (reload active l : Z) : Z := if l <=? active + 1 then reload - l mod (reload + 1) else reload.

Lemma run_lines_counter frame start between l v active : sms_vdp_mode v <> SMS_VDP_MODE_UNSUPPORTED -> active = sms_vdp_active_lines (sms_vdp_mode v) ->
  let reload := znth (reg v) 10 0 in 0 <= reload -> 0 <= l -> Forall (Forall quiet) between -> line_counter (counters v) = counter_before reload active l ->
  let v' := run_lines frame start l between v in
  reg v' = reg v /\ line_counter (counters v') = counter_before reload active (l + zlen between).
Proof.
  intros Hm Ea reload Hr Hl Hq. revert l v Hm Ea reload Hr Hl. induction Hq as [|ops between Hops _ IH]; intros l v Hm Ea reload Hr Hl Hn; cbv zeta; cbn [run_lines].
  { change (zlen (@nil (list VdpOp))) with 0. by rewrite Z.add_0_r. }
  destruct (line_step v frame l (start + 228 * l) Hm) as (E1 & E2 & _). set (v1 := vdp_step v _) in *.
  destruct (quiet_list_keeps v1 ops Hops) as [E3 E4]. set (v2 := fold_left vdp_step ops v1) in *.
  assert (Er : reg v2 = reg v) by (by rewrite E3). pose proof (mode_reg v v2 Er) as Em.
  assert (Hn2 : line_counter (counters v2) = counter_before reload active (l + 1)).
  { rewrite E4, E2, Hn, <- Ea. fold reload. unfold counter_before.
    destruct (Z.leb_spec l active) as [L|G], (Z.leb_spec l (active + 1)) as [L1|G1], (Z.leb_spec (l + 1) (active + 1)) as [L2|G2]; try lia.
    rewrite mod_step by lia. destruct (Z.eqb_spec (reload - l mod (reload + 1)) 0), (Z.eqb_spec (l mod (reload + 1)) (reload + 1 - 1)); lia. }
  specialize (IH (l + 1) v2). rewrite Em, Er in IH. destruct (IH Hm Ea Hr ltac:(lia) Hn2) as [H1 H2].
  rewrite H1, H2. split; [done|]. f_equal. rewrite zlen_cons. lia.
Qed.

(** C28. Interrupts come on their lines.  In a supported mode, with the line counter
    reloaded and the registers left alone over a frame, whatever else is read or
    written between the lines, line [l] raises the line flag exactly when it is at
    most the number of active lines and [l + 1] is a multiple of R10 + 1, and the frame
    flag exactly on the line after; and the counter is reloaded for the next frame. *)
Theorem line_interrupts_exact (v : SmsVdp) (frame start : Z) (between : list (list VdpOp)) (Hok : vdp_ok v)
    (Hmode : sms_vdp_mode v <> SMS_VDP_MODE_UNSUPPORTED) (Hcounter : line_counter (counters v) = znth (reg v) 10 0)
    (Hquiet : Forall (Forall quiet) between) (Hframe : zlen between < 262) :
  let l := zlen between in
  let active := sms_vdp_active_lines (sms_vdp_mode v) in
  let period := znth (reg v) 10 0 + 1 in
  let before := run_lines frame start 0 between v in
  let after := vdp_step before (Vdp_scanline frame l (start + 228 * l)) in
  line_pending (flags after) = (if (l <=? active) && ((l + 1) mod period =? 0) then 1 else line_pending (flags before)) /\
  frame_pending (flags after) = (if l =? active + 1 then 1 else frame_pending (flags before)) /\
  (active < l -> line_counter (counters after) = znth (reg v) 10 0).
Proof.
  cbv zeta. pose proof (zlen_nonneg between) as H0. assert (Hr : 0 <= znth (reg v) 10 0).
  { pose proof Hok as [_ _ [_ Hreg] _ _ _]. pose proof (znth_byte (reg v) 10 Hreg) as Hb. unfold is_u8 in Hb. lia. }
  destruct (run_lines_counter frame start between 0 v _ Hmode eq_refl Hr ltac:(lia) Hquiet) as [E1 E2].
  { rewrite Hcounter. unfold counter_before. rewrite Z.mod_0_l by lia; destruct (_ <=? _); lia. }
  set (before := run_lines frame start 0 between v) in *. pose proof (mode_reg v before E1) as Em. rewrite Z.add_0_l in E2.
  destruct (line_step before frame (zlen between) (start + 228 * zlen between)) as (_ & E3 & E4 & E5); [by rewrite Em|].
  rewrite Em, E1, E2 in *. set (active := sms_vdp_active_lines (sms_vdp_mode v)) in *. set (reload := znth (reg v) 10 0) in *.
  rewrite E4, E5. split; [|split; [done|]].
  - unfold counter_before. destruct (Z.leb_spec (zlen between) active) as [L|G]; cbn [andb]; [|done]. rewrite (proj2 (Z.leb_le _ _)) by lia.
    assert (E : (reload - zlen between mod (reload + 1) =? 0) = ((zlen between + 1) mod (reload + 1) =? 0)); [|by rewrite E].
    rewrite mod_step by lia. pose proof (Z.mod_pos_bound (zlen between) (reload + 1) ltac:(lia)).
    destruct (Z.eqb_spec (zlen between mod (reload + 1)) (reload + 1 - 1)); apply Bool.eq_iff_eq_true; rewrite !Z.eqb_eq; lia.
  - intros G. rewrite E3, (proj2 (Z.leb_gt _ _)) by lia. done.
Qed.

(** * Instances *)

Definition blank : SmsVdp := mkVdp [] [] [] (mkPort 0 0 0 0 0) (mkFlags 0 0 0 0) (mkCounters 0 0 0 0 0) (mkTrace None 0 0 0 0 0).

(** Line interrupts every third line, enabled. *)
Definition every_third : SmsVdp := set_line_counter (set_reg (sms_vdp_reset blank) 10 2) 2.

Lemma every_third_ok : vdp_ok every_third.
Proof.
  apply counters_ok; [|by vm_compute|by vm_compute|by left]. apply memory_update_ok; [apply vdp_reset_ok|by vm_compute].
Qed.

Lemma vdp_invariant_witness :
  let ops := [Vdp_write SMS_PORT_VDP_CONTROL 0x34 1; Vdp_write SMS_PORT_VDP_CONTROL 0x52 2; Vdp_write SMS_PORT_VDP_DATA 0xAA 3; Vdp_scanline 0 0 228] in
  let v := fold_left vdp_step ops (sms_vdp_reset blank) in
  vdp_ok v /\ is_u8 (sms_vdp_read v None SMS_PORT_VDP_STATUS 300).2.
Proof. intros ops. apply vdp_invariant. repeat (constructor; [by vm_compute|]). constructor. Defined.

Lemma vram_round_trip_witness :
  let v := sms_vdp_reset blank in
  let v' := upload (set_up v 1 0x3FFF 5) [1; 2; 3] 5 in
  (znth (vram v') 0x3FFF 0, znth (vram v') 0 0, znth (vram v') 1 0) = (1, 2, 3) /\
  download 3 (set_up v' 0 0x3FFF 5) 5 = [1; 2; 3] /\
  (forall a, 0 <= a < 0x4000 ->
     znth (vram v') a 0 = if (a - 0x3FFF) mod 0x4000 <? 3 then znth [1; 2; 3] ((a - 0x3FFF) mod 0x4000) 0 else znth (vram v) a 0) /\
  (cram v', reg v', flags v', counters v') = (cram v, reg v, flags v, counters v).
Proof.
  intros v v'. split; [by_evaluation|]. assert (Hb : Forall is_u8 [1; 2; 3]) by (repeat (constructor; [by vm_compute|]); constructor).
  assert (H1 : latch_set (port v) = 0) by by_evaluation. assert (H2 : 0 <= 0x3FFF < 0x4000) by lia. assert (H3 : zlen [1; 2; 3] <= 0x4000) by (by vm_compute).
  exact (vram_round_trip v 0x3FFF 5 [1; 2; 3] (vdp_reset_ok blank) H1 H2 Hb H3).
Defined.

Lemma line_interrupts_exact_witness :
  let between := [[Vdp_read SMS_PORT_VDP_STATUS 100]; []; [Vdp_write SMS_PORT_VDP_DATA 9 700]; []; []] in
  let before := run_lines 0 0 0 between every_third in
  let after := vdp_step before (Vdp_scanline 0 5 (0 + 228 * 5)) in
  sms_vdp_active_lines (sms_vdp_mode every_third) = 192 /\
  line_pending (flags after) = (if (5 <=? 192) && ((5 + 1) mod 3 =? 0) then 1 else line_pending (flags before)) /\
  frame_pending (flags after) = (if 5 =? 192 + 1 then 1 else frame_pending (flags before)) /\
  (192 < 5 -> line_counter (counters after) = 2).
Proof.
  intros between before after. split; [by_evaluation|]. assert (Hm : sms_vdp_mode every_third <> SMS_VDP_MODE_UNSUPPORTED) by (vm_compute; discriminate).
  assert (Hc : line_counter (counters every_third) = znth (reg every_third) 10 0) by by_evaluation.
  assert (Hq : Forall (Forall quiet) between) by (repeat (constructor; [repeat (constructor; [by vm_compute|]); constructor|]); constructor).
  assert (Hl : zlen between < 262) by (by vm_compute).
  exact (line_interrupts_exact every_third 0 0 between every_third_ok Hm Hc Hq Hl).
Defined.
