(* ===== verification/SmsInput.v ===== *)
(** Scripted input and controllers of the Master System: [sms_input.h], [sms_input.c],
    [sms_pad.h] and [sms_pad.c].

    The text is a list of bytes; a position in it is the list of what is left.  The
    loop over the lines runs on fuel, a turn per byte at most. *)

From S2P Require Import Prelude SmsMemory SmsSha256 SmsVdp.

(** * The script *)

Record SmsInputEvent := mkEvent { ev_frame : Z; ev_p1 : Z; ev_p2 : Z; ev_pause : Z }.
Record SmsInputState := mkInput { in_p1 : Z; in_p2 : Z; in_pause : Z }.

Definition is_space (c : Z) : bool := (c =? 32) || (c =? 9).

(** ['U', 'D', 'L', 'R', '1', '2'] *)
Definition letters : list Z := [85; 68; 76; 82; 49; 50].

(** The loop of [parse_mask] from letter [i]; six bytes are there. *)
Fixpoint mask_loop (i : Z) (letters p : list Z) (mask : Z) : option Z :=
  match letters, p with
  | letter :: letters, c :: p =>
      if c =? letter then mask_loop (i + 1) letters p (u8 (mask .| (1 .<< i)))
      else if negb (c =? 45) then None
      else mask_loop (i + 1) letters p mask
  | _, _ => Some mask
  end.
Definition parse_mask (p : list Z) : option Z := mask_loop 0 letters p 0.

(** [while (p < end && is_space(text[p])) ++p;] *)
Fixpoint skip_spaces (p : list Z) : list Z := match p with c :: p' => if is_space c then skip_spaces p' else p | [] => [] end.

(** The loop over the digits: what is left, the frame and the number of digits, or the
    overflow. *)
Fixpoint digits_loop (p : list Z) (frame digits : Z) : option (list Z * Z * Z) :=
  match p with
  | c :: p' =>
      if (48 <=? c) && (c <=? 57) then
        if (18446744073709551615 - 9) / 10 <? frame then None else digits_loop p' (u64 (u64 (frame * 10) + (c - 48))) (digits + 1)
      else Some (p, frame, digits)
  | [] => Some ([], frame, digits)
  end.

(** A mask and the space that must follow it; [spaced] starts at the space. *)
Definition spaced (p : list Z) : option (list Z) :=
  match p with c :: _ => if is_space c then Some (skip_spaces p) else None | [] => None end.
Definition mask_field (p : list Z) : option (Z * list Z) :=
  if zlen p <? 6 then None else mask ← parse_mask (take 6 p); Some (mask, drop 6 p).

Inductive LineResult : Type := Skipped | Malformed | Parsed (ev : SmsInputEvent).

(** The fields of a line after its leading spaces. *)
Definition parse_fields (p : list Z) : option SmsInputEvent :=
  '(p, frame, digits) ← digits_loop p 0 0;
  _ ← (if digits =? 0 then None else Some tt);
  p ← spaced p;
  '(p1, p) ← mask_field p;
  p ← spaced p;
  '(p2, p) ← mask_field p;
  p ← spaced p;
  match p with
  | c :: p =>
      if negb (c =? 80) && negb (c =? 45) then None
      else
        match skip_spaces p with
        | d :: _ => if negb (d =? 35) && negb (d =? 13) then None else Some (mkEvent frame p1 p2 (if c =? 80 then 1 else 0))
        | [] => Some (mkEvent frame p1 p2 (if c =? 80 then 1 else 0))
        end
  | [] => None
  end.

Definition parse_line (line : list Z) : LineResult :=
  match skip_spaces line with
  | [] => Skipped
  | c :: p => if (c =? 35) || (c =? 13) then Skipped else match parse_fields (c :: p) with Some ev => Parsed ev | None => Malformed end
  end.

(** The line up to the newline, and the text after it. *)
Fixpoint cut_line (text : list Z) : list Z * list Z :=
  match text with
  | [] => ([], [])
  | c :: text => if c =? 10 then ([], text) else let '(line, rest) := cut_line text in (c :: line, rest)
  end.

(** [while (pos < size)]; the answer is 0 or the number of the line it stopped at, with
    the events stored. *)
Fixpoint parse_loop (fuel : nat) (text : list Z) (line_no last_frame capacity : Z) (events : list SmsInputEvent) : Z * list SmsInputEvent :=
  match fuel with
  | O => (0, events)
  | S fuel =>
      match text with
      | [] => (0, events)
      | _ =>
          let line_no := u32 (line_no + 1) in
          let '(line, rest) := cut_line text in
          match parse_line line with
          | Skipped => parse_loop fuel rest line_no last_frame capacity events
          | Malformed => (line_no, events)
          | Parsed ev =>
              if (0 <? zlen events) && (ev_frame ev <? last_frame) then (line_no, events)
              else if capacity <=? zlen events then (line_no, events)
              else parse_loop fuel rest line_no (ev_frame ev) capacity (events ++ [ev])
          end
      end
  end.

Definition sms_input_parse (text : list Z) (capacity : Z) : Z * list SmsInputEvent := parse_loop (length text) text 0 0 capacity [].

(** * Controllers *)

Definition IOC_A_TR_DIR : Z := 0x01.
Definition IOC_A_TH_DIR : Z := 0x02.
Definition IOC_B_TR_DIR : Z := 0x04.
Definition IOC_B_TH_DIR : Z := 0x08.
Definition IOC_A_TR_LVL : Z := 0x10.
Definition IOC_A_TH_LVL : Z := 0x20.
Definition IOC_B_TR_LVL : Z := 0x40.
Definition IOC_B_TH_LVL : Z := 0x80.

(** [line]: a pad bit as an active-low line. *)
Definition pad_line (mask bit : Z) : Z := if negb (mask .& u32 (1 .<< bit) =? 0) then 0 else 1.

Definition flag_of (b : bool) : Z := if b then 1 else 0.

Definition sms_pad_th_level (io_control port : Z) : Z :=
  if port =? 0 then if has_bit io_control IOC_A_TH_DIR then 1 else flag_of (has_bit io_control IOC_A_TH_LVL)
  else if has_bit io_control IOC_B_TH_DIR then 1 else flag_of (has_bit io_control IOC_B_TH_LVL).

Definition sms_pad_port_dc (input : SmsInputState) (io_control : Z) : Z :=
  let p1 := in_p1 input in let p2 := in_p2 input in
  let tr := pad_line p1 5 in
  let tr := if negb (has_bit io_control IOC_A_TR_DIR) then flag_of (has_bit io_control IOC_A_TR_LVL) else tr in
  u8 (pad_line p1 0 .| (pad_line p1 1 .<< 1) .| (pad_line p1 2 .<< 2) .| (pad_line p1 3 .<< 3) .| (pad_line p1 4 .<< 4) .|
      (tr .<< 5) .| (pad_line p2 0 .<< 6) .| (pad_line p2 1 .<< 7)).

Definition sms_pad_port_dd (input : SmsInputState) (io_control : Z) : Z :=
  let p2 := in_p2 input in
  let tr := pad_line p2 5 in
  let tr := if negb (has_bit io_control IOC_B_TR_DIR) then flag_of (has_bit io_control IOC_B_TR_LVL) else tr in
  u8 (pad_line p2 2 .| (pad_line p2 3 .<< 1) .| (pad_line p2 4 .<< 2) .| (tr .<< 3) .| (1 .<< 4) .| (1 .<< 5) .|
      (sms_pad_th_level io_control 0 .<< 6) .| (sms_pad_th_level io_control 1 .<< 7)).

(** [input] and [vdp] point into the machine and are passed. *)
Record SmsPad := mkPad { io_control : Z; h_latches : Z }.

Definition sms_pad_reset : SmsPad := mkPad 0xFF 0.

Definition sms_pad_read (pad : SmsPad) (input : option SmsInputState) (cls : SmsPortClass) : Z :=
  match input with
  | None => 0xFF
  | Some input =>
      match cls with
      | SMS_PORT_PAD_DC => sms_pad_port_dc input (io_control pad)
      | SMS_PORT_PAD_DD => sms_pad_port_dd input (io_control pad)
      | _ => 0xFF
      end
  end.

(** A TH edge of one port. *)
Definition th_edge (value cycles port : Z) (s : SmsPad * option SmsVdp) : SmsPad * option SmsVdp :=
  let '(pad, vdp) := s in
  if (sms_pad_th_level (io_control pad) port =? 0) && (sms_pad_th_level value port =? 1)
  then (mkPad (io_control pad) (u32 (h_latches pad + 1)), match vdp with Some v => Some (sms_vdp_latch_hcounter v cycles) | None => None end)
  else (pad, vdp).

Definition sms_pad_write (pad : SmsPad) (vdp : option SmsVdp) (cls : SmsPortClass) (value cycles : Z) : SmsPad * option SmsVdp :=
  match cls with
  | SMS_PORT_IO_CONTROL =>
      let '(pad, vdp) := th_edge value cycles 1 (th_edge value cycles 0 (pad, vdp)) in (mkPad value (h_latches pad), vdp)
  | _ => (pad, vdp)
  end.

Definition sms_pad_digest (pad : SmsPad) (sha : SmsSha256) : SmsSha256 :=
  sms_sha256_update_u32 (sms_sha256_update_u8 sha (io_control pad)) (h_latches pad).

(** * The grammar of a script *)

Definition spaces (l : list Z) : Prop := Forall (fun c => is_space c = true) l.
Definition digits (l : list Z) : Prop := Forall (fun c => 48 <= c <= 57) l.
Definition number (start : Z) (ds : list Z) : Z := fold_left (fun n c => 10 * n + (c - 48)) ds start.
Definition mask_text (mask : Z) : list Z := map (fun i => if Z.testbit mask i then znth letters i 0 else 45) (seqZ 0 6).

(** A comment, a carriage return or nothing. *)
Definition ending (l : list Z) : Prop := match l with [] => True | c :: _ => c = 35 \/ c = 13 end.

(** The frames the parser takes: the multiples of ten up to the last that fits, and their
    nine successors. *)
Definition frame_limit : Z := 18446744073709551610.

Definition fields (p : list Z) (ev : SmsInputEvent) : Prop :=
  exists ds s1 s2 s3 s4 rest,
    p = ds ++ s1 ++ mask_text (ev_p1 ev) ++ s2 ++ mask_text (ev_p2 ev) ++ s3 ++ (if ev_pause ev =? 1 then 80 else 45) :: s4 ++ rest /\
    ds <> [] /\ digits ds /\ ev_frame ev = number 0 ds /\ ev_frame ev < frame_limit /\
    s1 <> [] /\ s2 <> [] /\ s3 <> [] /\ spaces s1 /\ spaces s2 /\ spaces s3 /\ spaces s4 /\ ending rest /\
    0 <= ev_p1 ev < 64 /\ 0 <= ev_p2 ev < 64 /\ (ev_pause ev = 0 \/ ev_pause ev = 1).

Definition event_line (line : list Z) (ev : SmsInputEvent) : Prop := exists s p, spaces s /\ line = s ++ p /\ fields p ev.
Definition blank_line (line : list Z) : Prop := exists s p, spaces s /\ line = s ++ p /\ ending p.

(** What the lines of a text are. *)
Inductive split_lines : list Z -> list (list Z) -> Prop :=
| split_end : split_lines [] []
| split_last line : line <> [] -> 10 ∉ line -> split_lines line [line]
| split_next line rest ls : 10 ∉ line -> split_lines rest ls -> split_lines (line ++ 10 :: rest) (line :: ls).

(** What lines say. *)
Inductive script : list (list Z) -> list SmsInputEvent -> Prop :=
| script_end : script [] []
| script_blank line ls es : blank_line line -> script ls es -> script (line :: ls) es
| script_event line ls ev es : event_line line ev -> script ls es -> script (line :: ls) (ev :: es).

(** ** Fields *)

Definition no_space (l : list Z) : Prop := match l with [] => True | c :: _ => is_space c = false end.

Lemma skip_split p : exists s, spaces s /\ p = s ++ skip_spaces p /\ no_space (skip_spaces p).
Proof.
  induction p as [|c p (s & Hs & E & Hn)]; cbn [skip_spaces]; [exists []; split; [constructor|done]|].
  destruct (is_space c) eqn:Ec.
  - exists (c :: s). split; [by constructor|]. split; [exact (f_equal (cons c) E)|done].
  - exists []. split; [constructor|done].
Qed.

Lemma skip_app s p : spaces s -> no_space p -> skip_spaces (s ++ p) = p.
Proof.
  intros Hs Hp. induction Hs as [|c s Hc _ IH]; cbn [app skip_spaces]; [|by rewrite Hc].
  destruct p as [|c p]; [done|]. cbn [skip_spaces no_space] in *. by rewrite Hp.
Qed.

Lemma spaced_exact p q : spaced p = Some q <-> no_space q /\ exists s, s <> [] /\ spaces s /\ p = s ++ q.
Proof.
  unfold spaced. split.
  - destruct p as [|c p]; [intros E; discriminate E|]. destruct (is_space c) eqn:Ec; [|intros E; discriminate E]. intros E. apply (inj Some) in E. subst q.
    destruct (skip_split (c :: p)) as (s & Hs & E & Hn). split; [done|]. exists s. split; [|done]. intros ->. cbn [app] in E. rewrite <- E in Hn. cbn in Hn. congruence.
  - intros (Hn & s & Hne & Hs & ->). destruct s as [|c s]; [done|]. inversion Hs as [|? ? Hc Hs']; subst. cbn [app]. rewrite Hc.
    f_equal. by apply (skip_app (c :: s)).
Qed.

Lemma number_ge start ds : 0 <= start -> digits ds -> start <= number start ds.
Proof.
  intros H0 Hd. revert start H0. induction Hd as [|c ds Hc _ IH]; intros start H0; cbn [number fold_left]; [lia|].
  pose proof (IH (10 * start + (c - 48)) ltac:(lia)). unfold number in *. lia.
Qed.

Definition no_digit (l : list Z) : Prop := match l with [] => True | c :: _ => ~ 48 <= c <= 57 end.

Lemma digits_nil : digits [].
Proof. constructor. Qed.

Lemma digits_loop_exact p f n rest f' n' : 0 <= f < 2 ^ 64 -> digits_loop p f n = Some (rest, f', n') <->
  no_digit rest /\ exists ds, p = ds ++ rest /\ digits ds /\ f' = number f ds /\ n' = n + zlen ds /\ (ds = [] \/ f' < frame_limit).
Proof.
  revert f n. induction p as [|c p IH]; intros f n Hf.
  { cbn [digits_loop]. split.
    - intros E. injection E as <- <- <-. split; [done|]. exists []. split; [done|]. split; [exact digits_nil|]. split; [done|]. split; [change (zlen (@nil Z)) with 0; lia|by left].
    - intros (_ & ds & E & _ & -> & -> & _). destruct ds; [|done]. cbn [app] in E. subst rest. change (zlen (@nil Z)) with 0. by rewrite Z.add_0_r. }
  cbn [digits_loop]. change ((18446744073709551615 - 9) / 10) with 1844674407370955160.
  destruct ((48 <=? c) && (c <=? 57)) eqn:Ed.
  - assert (Hc : 48 <= c <= 57) by lia. destruct (Z.ltb_spec 1844674407370955160 f) as [L|G].
    + split; [intros E; discriminate E|]. intros (Hn & ds & E & Hd & Ef & _ & [->|Hlim]).
      { cbn [app] in E. subst rest. cbn in Hn. lia. }
      destruct ds as [|d ds]; [cbn [app] in E; subst rest; cbn in Hn; lia|]. cbn [app] in E. injection E as <- ->. inversion Hd as [|? ? _ Hd']; subst.
      cbn [number fold_left] in Hlim. pose proof (number_ge (10 * f + (c - 48)) ds ltac:(lia) Hd'). unfold number, frame_limit in *. lia.
    + rewrite (u64_id (f * 10)), u64_id by (unfold is_u64; lia). rewrite (IH (f * 10 + (c - 48)) (n + 1) ltac:(lia)). split.
      * intros (Hn & ds & -> & Hd & -> & -> & Hlim). split; [done|]. exists (c :: ds). split_and!; [done|by constructor| |rewrite zlen_cons; lia|right].
        -- cbn [number fold_left]. unfold number. f_equal. lia.
        -- destruct Hlim as [->|Hlim]; [cbn; unfold frame_limit; lia|done].
      * intros (Hn & ds & E & Hd & -> & -> & Hlim). split; [done|]. destruct ds as [|d ds]; [cbn [app] in E; subst rest; cbn in Hn; lia|].
        cbn [app] in E. injection E as <- ->. inversion Hd as [|? ? _ Hd']; subst. exists ds. split_and!; [done|done| |rewrite zlen_cons; lia|].
        -- cbn [number fold_left]. unfold number. f_equal. lia.
        -- destruct Hlim as [Hx|Hlim]; [discriminate Hx|by right].
  - assert (Hc : ~ 48 <= c <= 57) by lia. split.
    + intros E. injection E as <- <- <-. split; [done|]. exists []. split; [done|]. split; [exact digits_nil|]. split; [done|]. split; [change (zlen (@nil Z)) with 0; lia|by left].
    + intros (_ & ds & E & Hd & -> & -> & _). destruct ds as [|d ds].
      * cbn [app] in E. subst rest. change (zlen (@nil Z)) with 0. by rewrite Z.add_0_r.
      * cbn [app] in E. injection E as <- ->. inversion Hd; subst. lia.
Qed.

Lemma parse_mask_exact p m : length p = 6%nat -> parse_mask p = Some m <-> p = mask_text m /\ 0 <= m < 64.
Proof.
  intros Hl. split.
  - destruct p as [|c0 [|c1 [|c2 [|c3 [|c4 [|c5 [|? ?]]]]]]]; try discriminate Hl. unfold parse_mask, letters. cbn [mask_loop].
    repeat match goal with |- context [?c =? ?l] => is_var c; destruct (Z.eqb_spec c l); [subst c|]; cbn [negb] end;
      intros E; try discriminate E; injection E as <-; by vm_compute.
  - intros [-> Hm]. assert (H : forall m, 0 <= m < 64 -> bool_decide (parse_mask (mask_text m) = Some m) = true) by (apply seqZ_forallb; by_evaluation).
    apply (bool_decide_eq_true_1 _ (H m Hm)).
Qed.

Lemma length_mask m : length (mask_text m) = 6%nat.
Proof. done. Qed.

Lemma mask_field_exact p m q : mask_field p = Some (m, q) <-> p = mask_text m ++ q /\ 0 <= m < 64.
Proof.
  unfold mask_field. destruct (Z.ltb_spec (zlen p) 6) as [L|G].
  - split; [intros E; discriminate E|]. intros [-> _]. rewrite zlen_app in L. change (zlen (mask_text m)) with 6 in L. pose proof (zlen_nonneg q). lia.
  - assert (Hl : length (take 6 p) = 6%nat) by (unfold zlen in G; rewrite length_take; lia). split.
    + destruct (parse_mask (take 6 p)) as [m'|] eqn:E; [|intros E'; discriminate E']. intros E'. injection E' as -> <-.
      apply parse_mask_exact in E; [|done]. destruct E as [E Hm]. split; [|done]. rewrite <- E. symmetry. apply (take_drop 6 p).
    + intros [-> Hm]. rewrite take_app_length' by done. rewrite (proj2 (parse_mask_exact (mask_text m) m (length_mask m))) by done.
      cbn [mbind option_bind]. by rewrite drop_app_length'.
Qed.

Lemma no_space_mask m q : 0 <= m < 64 -> no_space (mask_text m ++ q).
Proof.
  intros Hm. assert (H : forall m, 0 <= m < 64 -> negb (is_space (hd 0 (mask_text m))) = true) by (apply seqZ_forallb; by_evaluation).
  specialize (H m Hm). apply negb_true_iff in H. exact H.
Qed.

Lemma fields_parsed p ev : parse_fields p = Some ev -> fields p ev.
Proof.
  unfold parse_fields, fields.
  destruct (digits_loop p 0 0) as [[[p0 frame] n]|] eqn:E0; [|intros E; discriminate E]. cbn [mbind option_bind].
  destruct (Z.eqb_spec n 0) as [->|Nn]; [intros E; discriminate E|]. cbn [mbind option_bind].
  destruct (spaced p0) as [q1|] eqn:E1; [|intros E; discriminate E]. cbn [mbind option_bind].
  destruct (mask_field q1) as [[m1 r1]|] eqn:E2; [|intros E; discriminate E]. cbn [mbind option_bind].
  destruct (spaced r1) as [q2|] eqn:E3; [|intros E; discriminate E]. cbn [mbind option_bind].
  destruct (mask_field q2) as [[m2 r2]|] eqn:E4; [|intros E; discriminate E]. cbn [mbind option_bind].
  destruct (spaced r2) as [q3|] eqn:E5; [|intros E; discriminate E]. cbn [mbind option_bind].
  destruct q3 as [|c q3]; [intros E; discriminate E|]. destruct (negb (c =? 80) && negb (c =? 45)) eqn:Ec; [intros E; discriminate E|].
  apply digits_loop_exact in E0; [|lia]. destruct E0 as (Hn0 & ds & -> & Hd & -> & Hnum & Hlim).
  apply spaced_exact in E1. destruct E1 as (_ & s1 & H1 & S1 & ->). apply mask_field_exact in E2. destruct E2 as [-> M1].
  apply spaced_exact in E3. destruct E3 as (_ & s2 & H2 & S2 & ->). apply mask_field_exact in E4. destruct E4 as [-> M2].
  apply spaced_exact in E5. destruct E5 as (_ & s3 & H3 & S3 & ->). destruct (skip_split q3) as (s4 & S4 & E6 & _).
  assert (Hc : c = (if (if c =? 80 then 1 else 0) =? 1 then 80 else 45)) by (destruct (Z.eqb_spec c 80) as [->|]; [done|]; cbn in *; lia).
  assert (Hne : ds <> []) by (intros ->; apply Nn; rewrite Hnum; done).
  intros E. assert (Hend : ending (skip_spaces q3) /\ ev = mkEvent (number 0 ds) m1 m2 (if c =? 80 then 1 else 0)).
  { destruct (skip_spaces q3) as [|d q4]; [split; [done|by injection E as <-]|]. destruct (negb (d =? 35) && negb (d =? 13)) eqn:Ed; [discriminate E|].
    injection E as <-. split; [cbn; lia|done]. }
  destruct Hend as [Hend ->]. exists ds, s1, s2, s3, s4, (skip_spaces q3). cbn [ev_p1 ev_p2 ev_pause ev_frame].
  split; [by rewrite <- Hc, <- E6|]. destruct Hlim as [->|Hlim]; [done|].
  split_and!; try done; try lia. destruct (c =? 80); [by right|by left].
Qed.

Lemma parsed_fields p ev : fields p ev -> parse_fields p = Some ev.
Proof.
  unfold parse_fields, fields.
  intros (ds & s1 & s2 & s3 & s4 & rest & -> & Hne & Hd & Ef & Hlim & H1 & H2 & H3 & S1 & S2 & S3 & S4 & Hend & M1 & M2 & Hp).
  set (c := if ev_pause ev =? 1 then 80 else 45). assert (Hc : c = 80 \/ c = 45) by (unfold c; destruct (_ =? 1); [by left|by right]).
  set (q3 := c :: s4 ++ rest). set (q2 := mask_text (ev_p2 ev) ++ s3 ++ q3). set (q1 := mask_text (ev_p1 ev) ++ s2 ++ q2).
  assert (E0 : digits_loop (ds ++ s1 ++ q1) 0 0 = Some (s1 ++ q1, number 0 ds, zlen ds)).
  { apply digits_loop_exact; [lia|]. split.
    - destruct s1 as [|x s1]; [done|]. inversion S1 as [|? ? Hx _]; subst. cbn. unfold is_space in Hx. lia.
    - exists ds. split_and!; try done. right. by rewrite <- Ef. }
  rewrite E0. cbn [mbind option_bind]. assert (Hz : (zlen ds =? 0) = false) by (destruct ds; [done|rewrite zlen_cons; pose proof (zlen_nonneg ds); lia]).
  rewrite Hz. cbn [mbind option_bind].
  rewrite (proj2 (spaced_exact (s1 ++ q1) q1)) by (split; [by apply no_space_mask|by exists s1]). cbn [mbind option_bind].
  rewrite (proj2 (mask_field_exact q1 (ev_p1 ev) (s2 ++ q2))) by done. cbn [mbind option_bind].
  rewrite (proj2 (spaced_exact (s2 ++ q2) q2)) by (split; [by apply no_space_mask|by exists s2]). cbn [mbind option_bind].
  rewrite (proj2 (mask_field_exact q2 (ev_p2 ev) (s3 ++ q3))) by done. cbn [mbind option_bind].
  rewrite (proj2 (spaced_exact (s3 ++ q3) q3)) by (split; [unfold q3; cbn; unfold is_space; lia|by exists s3]). cbn [mbind option_bind].
  unfold q3. assert (Ec : (negb (c =? 80) && negb (c =? 45)) = false) by lia. rewrite Ec.
  assert (Hns : no_space rest) by (destruct rest as [|d rest]; [done|]; cbn in *; unfold is_space; lia).
  rewrite (skip_app s4 rest S4 Hns). assert (Eev : mkEvent (number 0 ds) (ev_p1 ev) (ev_p2 ev) (if c =? 80 then 1 else 0) = ev).
  { destruct ev as [fr p1 p2 pa]. cbn [ev_frame ev_p1 ev_p2 ev_pause] in *. rewrite <- Ef. f_equal. unfold c. destruct Hp as [->| ->]; done. }
  rewrite Eev. destruct rest as [|d rest]; [done|]. cbn in Hend. assert (Ed : (negb (d =? 35) && negb (d =? 13)) = false) by lia. by rewrite Ed.
Qed.

(** ** Lines *)

Lemma fields_head p ev : fields p ev -> exists c q, p = c :: q /\ 48 <= c <= 57.
Proof.
  intros (ds & s1 & s2 & s3 & s4 & rest & -> & Hne & Hd & _). destruct Hd as [|c ds Hc _]; [done|]. by eexists c, _.
Qed.

Lemma skip_unique s p line : line = s ++ p -> spaces s -> no_space p -> skip_spaces line = p.
Proof. intros -> Hs Hp. by apply skip_app. Qed.

Lemma parse_line_blank line : parse_line line = Skipped <-> blank_line line.
Proof.
  unfold parse_line, blank_line. split.
  - intros E. destruct (skip_split line) as (s & Hs & El & _). exists s, (skip_spaces line). split; [done|]. split; [done|].
    destruct (skip_spaces line) as [|c p]; [done|]. destruct ((c =? 35) || (c =? 13)) eqn:Ec; [cbn; lia|]. by destruct (parse_fields _).
  - intros (s & p & Hs & E & Hend). rewrite (skip_unique s p line E Hs) by (destruct p as [|c p]; [done|]; cbn in *; unfold is_space; lia).
    destruct p as [|c p]; [done|]. cbn in Hend. assert (Ec : ((c =? 35) || (c =? 13)) = true) by lia. by rewrite Ec.
Qed.

Lemma parse_line_event line ev : parse_line line = Parsed ev <-> event_line line ev.
Proof.
  unfold parse_line, event_line. split.
  - intros E. destruct (skip_split line) as (s & Hs & El & _). exists s, (skip_spaces line). split; [done|]. split; [done|].
    destruct (skip_spaces line) as [|c p]; [discriminate E|]. destruct ((c =? 35) || (c =? 13)); [discriminate E|].
    destruct (parse_fields (c :: p)) as [ev'|] eqn:Ef; [|discriminate E]. injection E as ->. by apply fields_parsed.
  - intros (s & p & Hs & E & Hf). destruct (fields_head p ev Hf) as (c & q & -> & Hc).
    rewrite (skip_unique s (c :: q) line E Hs) by (cbn; unfold is_space; lia). assert (Ec : ((c =? 35) || (c =? 13)) = false) by lia.
    by rewrite Ec, (parsed_fields _ ev Hf).
Qed.

Lemma cut_exact text line rest : cut_line text = (line, rest) -> text <> [] ->
  (10 ∉ line) /\ (length rest < length text)%nat /\ forall ls, split_lines text ls <-> exists ls', ls = line :: ls' /\ split_lines rest ls'.
Proof.
  intros Ecut Hne. assert (H : (10 ∉ line) /\ (text = line ++ 10 :: rest \/ rest = [] /\ text = line)).
  { clear Hne. revert line rest Ecut. induction text as [|c text IH]; intros line rest Ecut; cbn [cut_line] in Ecut.
    - injection Ecut as <- <-. split; [apply not_elem_of_nil|by right].
    - destruct (Z.eqb_spec c 10) as [->|N]; [injection Ecut as <- <-; split; [apply not_elem_of_nil|by left]|].
      destruct (cut_line text) as [l r] eqn:E. injection Ecut as <- <-. destruct (IH l r eq_refl) as [H1 H2]. split.
      + rewrite not_elem_of_cons. by split; [congruence|].
      + destruct H2 as [->|[-> ->]]; [by left|by right]. }
  destruct H as [Hl H]. split; [done|]. split.
  { destruct H as [->|[-> ->]]; [rewrite length_app; cbn; lia|]. destruct line; [done|cbn; lia]. }
  intros ls. split.
  - intros Hs. destruct Hs as [|x Hx H10|x r ls H10 Hs]; [done| |].
    + destruct H as [->|[-> ->]]; [exfalso; apply H10, elem_of_app; right; left|]. exists []. split; [done|constructor].
    + exists ls. destruct H as [E|[-> <-]]; [|exfalso; apply Hl, elem_of_app; right; left].
      assert (Ex : x = line /\ r = rest); [|by destruct Ex as [-> ->]]. clear - E H10 Hl. revert line Hl E.
      induction x as [|c x IH]; intros [|d line] Hl E; cbn [app] in E.
      * injection E as ->. done.
      * injection E as <- _. exfalso. apply Hl. left.
      * injection E as -> _. exfalso. apply H10. left.
      * injection E as -> E. rewrite not_elem_of_cons in H10, Hl. destruct (IH ltac:(tauto) line ltac:(tauto) E) as [-> ->]. done.
  - intros (ls' & -> & Hs). destruct H as [->|[-> ->]]; [by constructor|]. inversion Hs as [|x Hx|x r ls]; [by apply split_last|done|by destruct x].
Qed.

(** * The parser is exact *)

Definition in_order : list SmsInputEvent -> Prop := Sorted (fun a b => ev_frame a <= ev_frame b).

(** What may follow [n] events, the last at [last]. *)
Definition follows (n last : Z) (es : list SmsInputEvent) : Prop :=
  match es with [] => True | ev :: _ => 0 < n -> last <= ev_frame ev end.

(** A script begins with its first line. *)
Lemma script_in line rest ls new : (exists ls', ls = line :: ls' /\ split_lines rest ls') -> script ls new ->
  exists ls', split_lines rest ls' /\
    (blank_line line /\ script ls' new \/ exists ev new', new = ev :: new' /\ event_line line ev /\ script ls' new').
Proof. intros (ls' & -> & Hs) Hr. exists ls'. split; [done|]. inversion Hr; subst; [by left|]. right. by eexists _, _. Qed.

Lemma parse_loop_exact fuel text line_no last capacity es0 es : (length text <= fuel)%nat -> 0 <= line_no -> line_no + zlen text < 2 ^ 32 ->
  parse_loop fuel text line_no last capacity es0 = (0, es) <->
  exists ls new, split_lines text ls /\ script ls new /\ es = es0 ++ new /\ in_order new /\ follows (zlen es0) last new /\
    (new = [] \/ zlen es <= capacity).
Proof.
  revert text line_no last es0. induction fuel as [|fuel IH]; intros text line_no last es0 Hf Hl Hw.
  { destruct text; [|cbn in Hf; lia]. cbn. split.
    - intros E. injection E as <-. exists [], []. rewrite app_nil_r. split_and!; try done; [constructor|constructor|constructor|by left].
    - intros (ls & new & Hs & Hr & -> & _). inversion Hs; subst; [|done|by destruct line]. inversion Hr. by rewrite app_nil_r. }
  cbn [parse_loop]. destruct text as [|c text'] eqn:Et.
  { split.
    - intros E. injection E as <-. exists [], []. rewrite app_nil_r. split_and!; try done; [constructor|constructor|constructor|by left].
    - intros (ls & new & Hs & Hr & -> & _). inversion Hs; subst; [|done|by destruct line]. inversion Hr. by rewrite app_nil_r. }
  rewrite <- Et in *. assert (Hne : text <> []) by (by rewrite Et). clear Et c text'. cbv zeta.
  destruct (cut_line text) as [line rest] eqn:Ecut. destruct (cut_exact text line rest Ecut Hne) as (_ & Hlen & Hsplit).
  assert (Hpos : 0 < zlen text) by (unfold zlen; destruct text; [done|cbn; lia]).
  rewrite (u32_id (line_no + 1)) by (unfold is_u32; lia). assert (Hz : zlen rest <= zlen text - 1) by (unfold zlen; lia).
  pose proof (fun ls new Hs => script_in line rest ls new (proj1 (Hsplit ls) Hs)) as Hin.
  destruct (parse_line line) as [| |ev] eqn:Ep.
  - apply parse_line_blank in Ep. rewrite (IH rest (line_no + 1) last es0) by lia. split.
    + intros (ls' & new & Hs & Hr & H). exists (line :: ls'), new. split; [apply Hsplit; by exists ls'|]. split; [by constructor|done].
    + intros (ls & new & Hs & Hr & H). destruct (Hin ls new Hs Hr) as (ls' & Hs' & [[_ Hr']|(ev & new' & _ & He & _)]).
      * by exists ls', new.
      * apply parse_line_event in He. apply parse_line_blank in Ep. congruence.
  - split; [intros E; injection E; lia|]. intros (ls & new & Hs & Hr & _).
    destruct (Hin ls new Hs Hr) as (ls' & _ & [[Hb _]|(ev & new' & _ & He & _)]); [apply parse_line_blank in Hb; congruence|apply parse_line_event in He; congruence].
  - assert (Hev : forall ev', event_line line ev' -> ev' = ev) by (intros ev' He; apply parse_line_event in He; congruence).
    assert (Hnb : ~ blank_line line) by (intros Hb; apply parse_line_blank in Hb; congruence). apply parse_line_event in Ep.
    assert (Hbad : (exists ls new, split_lines text ls /\ script ls new /\ es = es0 ++ new /\ in_order new /\ follows (zlen es0) last new /\ (new = [] \/ zlen es <= capacity)) ->
      (0 < zlen es0 -> last <= ev_frame ev) /\ zlen es0 < capacity).
    { intros (ls & new & Hs & Hr & -> & _ & Hfol & Hcap). destruct (Hin ls new Hs Hr) as (ls' & _ & [[Hb _]|(ev' & new' & -> & He & _)]); [done|].
      apply Hev in He. subst ev'. split; [exact Hfol|]. destruct Hcap as [Hx|Hcap]; [done|]. rewrite zlen_app, zlen_cons in Hcap. pose proof (zlen_nonneg new'). lia. }
    destruct ((0 <? zlen es0) && (ev_frame ev <? last)) eqn:Eo.
    { split; [intros E; injection E; lia|]. intros H. apply Hbad in H. lia. }
    destruct (Z.leb_spec capacity (zlen es0)) as [Hc|Hc].
    { split; [intros E; injection E; lia|]. intros H. apply Hbad in H. lia. }
    rewrite (IH rest (line_no + 1) (ev_frame ev) (es0 ++ [ev])) by lia. split.
    + intros (ls' & new & Hs & Hr & -> & Ho & Hfol & Hcap). exists (line :: ls'), (ev :: new).
      split; [apply Hsplit; by exists ls'|]. split; [by apply script_event|]. rewrite <- app_assoc in *. split; [done|].
      split; [constructor; [done|]; destruct new; constructor; apply Hfol; rewrite zlen_snoc; pose proof (zlen_nonneg es0); lia|].
      split; [cbn; lia|]. right. destruct Hcap as [->|Hcap]; [rewrite app_nil_r, zlen_snoc; lia|exact Hcap].
    + intros (ls & new & Hs & Hr & -> & Ho & _ & Hcap). destruct (Hin ls new Hs Hr) as (ls' & Hs' & [[Hb _]|(ev' & new' & -> & He & Hr')]); [done|].
      apply Hev in He. subst ev'. exists ls', new'. split; [done|]. split; [done|]. rewrite <- app_assoc. split; [done|].
      apply Sorted_inv in Ho. destruct Ho as [Ho Hhd]. split; [done|]. split; [destruct Hhd; cbn; (done || lia)|]. right. by destruct Hcap.
Qed.

(** C20. A script is its events.  Parsing succeeds with a list of events exactly when the
    text's lines are blank, comments or well-formed events, which are those, in
    order of frames and no more than the capacity. *)
Theorem input_parse_exact (text : list Z) (capacity : Z) (events : list SmsInputEvent) (Hlen : zlen text < 2 ^ 32) (Hcapacity : 0 <= capacity) :
  sms_input_parse text capacity = (0, events) <->
  exists lines, split_lines text lines /\ script lines events /\ in_order events /\ zlen events <= capacity.
Proof.
  unfold sms_input_parse. rewrite (parse_loop_exact _ _ 0 0 capacity [] events) by (done || lia). split.
  - intros (ls & new & Hs & Hr & -> & Ho & _ & Hc). exists ls. cbn [app]. split_and!; try done. by destruct Hc as [->|Hc].
  - intros (ls & Hs & Hr & Ho & Hc). exists ls, events. split_and!; try done; [by destruct events|by right].
Qed.

Lemma input_parse_exact_witness :
  let text := [35; 10; 32; 49; 50; 32; 85; 45; 45; 45; 45; 50; 9; 45; 45; 45; 45; 45; 45; 32; 80; 13; 10] in
  sms_input_parse text 4 = (0, [mkEvent 12 33 0 1]) /\
  exists lines, split_lines text lines /\ script lines [mkEvent 12 33 0 1] /\ in_order [mkEvent 12 33 0 1] /\ zlen [mkEvent 12 33 0 1] <= 4.
Proof.
  intros text. assert (E : sms_input_parse text 4 = (0, [mkEvent 12 33 0 1])) by by_evaluation.
  split; [exact E|]. apply (input_parse_exact text 4 [mkEvent 12 33 0 1]); [by_evaluation|lia|exact E].
Defined.

(** * Controller lines *)

Lemma pad_line_bit mask bit : 0 <= mask -> 0 <= bit < 32 -> pad_line mask bit = Z.b2z (negb (Z.testbit mask bit)).
Proof.
  intros Hm Hb. assert (Hp : is_u32 (2 ^ bit)).
  { split; [apply Z.pow_nonneg; lia|]. change (2 ^ bit < 2 ^ 32). apply Z.pow_lt_mono_r; lia. }
  unfold pad_line. rewrite Z.shiftl_1_l, u32_id by done.
  assert (E : (mask .& 2 ^ bit =? 0) = negb (Z.testbit mask bit)); [|rewrite E; by destruct (Z.testbit mask bit)].
  destruct (Z.testbit mask bit) eqn:Et; cbn [negb].
  - apply Z.eqb_neq. intros E. apply (f_equal (fun z => Z.testbit z bit)) in E. rewrite Z.land_spec, Et, Z.pow2_bits_true, Z.bits_0 in E by lia. done.
  - apply Z.eqb_eq. apply Z.bits_inj'. intros n Hn. rewrite Z.land_spec, Z.bits_0, Z.pow2_bits_eqb by lia.
    destruct (Z.eqb_spec bit n) as [->|]; [by rewrite Et|by rewrite andb_false_r].
Qed.

(** What the eight lines of the two ports are: a pressed button is a 0, and a pin set as
    an output reads back its level. *)
Definition tr_line (mask io_control direction level : Z) : bool :=
  if has_bit io_control direction then negb (Z.testbit mask 5) else has_bit io_control level.
Definition th_line (io_control direction level : Z) : bool := has_bit io_control direction || has_bit io_control level.
Definition dc_lines (input : SmsInputState) (io_control i : Z) : bool :=
  if i <? 5 then negb (Z.testbit (in_p1 input) i)
  else if i =? 5 then tr_line (in_p1 input) io_control IOC_A_TR_DIR IOC_A_TR_LVL
  else negb (Z.testbit (in_p2 input) (i - 6)).
Definition dd_lines (input : SmsInputState) (io_control i : Z) : bool :=
  if i <? 3 then negb (Z.testbit (in_p2 input) (i + 2))
  else if i =? 3 then tr_line (in_p2 input) io_control IOC_B_TR_DIR IOC_B_TR_LVL
  else if i <? 6 then true
  else if i =? 6 then th_line io_control IOC_A_TH_DIR IOC_A_TH_LVL
  else th_line io_control IOC_B_TH_DIR IOC_B_TH_LVL.

Lemma tr_value (d l b : bool) : (if negb d then flag_of l else Z.b2z (negb b)) = Z.b2z (if d then negb b else l).
Proof. by destruct d, l. Qed.
Lemma th_value (d l : bool) : (if d then 1 else flag_of l) = Z.b2z (d || l).
Proof. by destruct d, l. Qed.

(** Eight lines packed into a byte. *)
Definition packed (b : Z -> bool) : Z :=
  Z.b2z (b 0) .| (Z.b2z (b 1) .<< 1) .| (Z.b2z (b 2) .<< 2) .| (Z.b2z (b 3) .<< 3) .| (Z.b2z (b 4) .<< 4) .| (Z.b2z (b 5) .<< 5) .|
  (Z.b2z (b 6) .<< 6) .| (Z.b2z (b 7) .<< 7).

Lemma packed_bit b i : 0 <= i < 8 -> Z.testbit (u8 (packed b)) i = b i.
Proof.
  intros Hi. unfold packed. assert (H : i = 0 \/ i = 1 \/ i = 2 \/ i = 3 \/ i = 4 \/ i = 5 \/ i = 6 \/ i = 7) by lia.
  repeat (destruct H as [-> | H]; [destruct (b 0), (b 1), (b 2), (b 3), (b 4), (b 5), (b 6), (b 7); reflexivity|]).
  subst i. destruct (b 0), (b 1), (b 2), (b 3), (b 4), (b 5), (b 6), (b 7); reflexivity.
Qed.

(** The controller ports are the controllers.  Every bit of the two ports is the level
    of its line: a pressed button reads as 0, pin TR or TH set as an output reads
    the level last written, and reset and the fourth bit read as 1. *)
Theorem pad_ports_exact (input : SmsInputState) (io i : Z) (H1 : 0 <= in_p1 input) (H2 : 0 <= in_p2 input) (Hi : 0 <= i < 8) :
  Z.testbit (sms_pad_port_dc input io) i = dc_lines input io i /\ Z.testbit (sms_pad_port_dd input io) i = dd_lines input io i.
Proof.
  split.
  - unfold sms_pad_port_dc. rewrite !pad_line_bit, tr_value by lia. exact (packed_bit (dc_lines input io) i Hi).
  - unfold sms_pad_port_dd. rewrite !pad_line_bit, tr_value by lia. unfold sms_pad_th_level. cbn [Z.eqb]. rewrite !th_value.
    exact (packed_bit (dd_lines input io) i Hi).
Qed.

Lemma pad_ports_exact_witness :
  Z.testbit (sms_pad_port_dc (mkInput 0x22 1 0) 0xFE) 5 = dc_lines (mkInput 0x22 1 0) 0xFE 5 /\
  Z.testbit (sms_pad_port_dd (mkInput 0x22 1 0) 0xFE) 5 = dd_lines (mkInput 0x22 1 0) 0xFE 5.
Proof. apply (pad_ports_exact (mkInput 0x22 1 0) 0xFE 5); cbn; lia. Defined.
