(* ===== verification/SmsMachine.v ===== *)
(** The Master System machine and its scheduler: [sms_machine.h] and [sms_machine.c].

    A device is a record of functions over the machine, as its context points back into
    it; [W] is what the contexts hold.  The generated program's [z80_run] is a parameter,
    and what its callers rely on are the laws of [Z80Program]. *)

From S2P Require Import Prelude Z80Runtime SmsMemory SmsSha256 SmsVdp SmsInput.

Definition SMS_CYCLES_PER_LINE : Z := 228.
Definition SMS_LINES_PER_FRAME : Z := 262.
Definition SMS_CYCLES_PER_FRAME : Z := 59736.
Definition UINT64_MAX : Z := 18446744073709551615.
Definition SMS_NO_LIMIT : Z := UINT64_MAX.

(** * Traces and stops *)

Inductive SmsIrqSource : Type := SMS_IRQ_TRACE_FRAME | SMS_IRQ_TRACE_LINE | SMS_IRQ_TRACE_PAUSE.
Inductive SmsIrqEvent : Type := SMS_IRQ_ASSERTED | SMS_IRQ_ACCEPTED | SMS_IRQ_DEASSERTED.

Record SmsIrqTraceEntry := mkIrqEntry { irq_cycles : Z; irq_source : SmsIrqSource; irq_event : SmsIrqEvent }.
Record SmsMapperTraceEntry := mkMapperEntry { mapper_cycles : Z; mapper_reg : Z; mapper_value : Z }.

(** A trace buffer ([None] when null), its capacity, and the counts. *)
Record Log (E : Type) := mkLog { entries : option (list E); capacity : Z; logged : Z; dropped : Z }.
Arguments mkLog {E} _ _ _ _.
Arguments entries {E} _.
Arguments capacity {E} _.
Arguments logged {E} _.
Arguments dropped {E} _.

Definition log_add {E} (l : Log E) (e : E) : Log E :=
  match entries l with
  | Some es =>
      if logged l <? capacity l then mkLog (Some (<[Z.to_nat (logged l) := e]> es)) (capacity l) (u32 (logged l + 1)) (dropped l)
      else mkLog (entries l) (capacity l) (logged l) (u32 (dropped l + 1))
  | None => mkLog (entries l) (capacity l) (logged l) (u32 (dropped l + 1))
  end.

Definition log_clear {E} (l : Log E) : Log E := mkLog (entries l) (capacity l) 0 0.

Inductive SmsStopKind : Type :=
| SMS_STOP_CYCLE | SMS_STOP_FRAME | SMS_STOP_HALT_IDLE | SMS_STOP_CYCLE_BUDGET | SMS_STOP_Z80_ERROR | SMS_STOP_PLATFORM_ERROR.

#[export] Instance SmsStopKind_eq_dec : EqDecision SmsStopKind.
Proof. solve_decision. Defined.
#[export] Instance Z80Outcome_eq_dec : EqDecision Z80Outcome.
Proof. solve_decision. Defined.

Definition sms_stop_kind_name (kind : SmsStopKind) : string :=
  match kind with
  | SMS_STOP_CYCLE => "cycle" | SMS_STOP_FRAME => "frame" | SMS_STOP_HALT_IDLE => "halt_idle" | SMS_STOP_CYCLE_BUDGET => "cycle_budget"
  | SMS_STOP_Z80_ERROR => "z80_error" | SMS_STOP_PLATFORM_ERROR => "platform_error"
  end%string.

Record SmsStop := mkStop {
  stop_kind : SmsStopKind;
  stop_cycles : Z;
  stop_frame : Z;
  stop_pc : Z;
  image_identity : Z;
  z80_outcome : Z80Outcome;
  sms_error : SmsError;
  stop_error_address : Z;
  stop_error_value : Z;
  stop_error_cycles : Z;
}.

Definition with_kind (s : SmsStop) (k : SmsStopKind) : SmsStop :=
  mkStop k (stop_cycles s) (stop_frame s) (stop_pc s) (image_identity s) (z80_outcome s) (sms_error s) (stop_error_address s)
    (stop_error_value s) (stop_error_cycles s).

Definition sms_stop_is_resumable (kind : SmsStopKind) : bool := negb (kind =b SMS_STOP_Z80_ERROR) && negb (kind =b SMS_STOP_PLATFORM_ERROR).
Definition SMS_EXIT_Z80_UNADMITTED_PC : Z := 7.
Definition sms_stop_is_unadmitted_pc (stop : SmsStop) : bool :=
  (stop_kind stop =b SMS_STOP_Z80_ERROR) && (z80_outcome stop =b ERROR_UNADMITTED_PC).

(** * The machine *)

(** The scripted input: the state, the schedule and the next event of it. *)
Record InputSchedule := mkSchedule { input : SmsInputState; input_events : list SmsInputEvent; input_next : Z }.

(** [dead_stop] is [None] while [dead] is 0. *)
Record SmsMachine (W : Type) := mkMachine {
  z80 : Z80State;
  rt_outcome : Z80Outcome;
  mem : SmsMemory;
  m_io_control : Z;
  devices : W;
  script : InputSchedule;
  next_line : Z;
  irq_mask : Z;
  stop_on_halt_idle : bool;
  dead_stop : option SmsStop;
  irq_trace : Log SmsIrqTraceEntry;
  mapper_trace : Log SmsMapperTraceEntry;
}.
Arguments mkMachine {W} _ _ _ _ _ _ _ _ _ _ _ _.
Arguments z80 {W} _.
Arguments rt_outcome {W} _.
Arguments mem {W} _.
Arguments m_io_control {W} _.
Arguments devices {W} _.
Arguments script {W} _.
Arguments next_line {W} _.
Arguments irq_mask {W} _.
Arguments stop_on_halt_idle {W} _.
Arguments dead_stop {W} _.
Arguments irq_trace {W} _.
Arguments mapper_trace {W} _.

Section Updates.
Context {W : Type}.
Implicit Types m : SmsMachine W.
Definition set_z80 m (s : Z80State) : SmsMachine W :=
  mkMachine s (rt_outcome m) (mem m) (m_io_control m) (devices m) (script m) (next_line m) (irq_mask m) (stop_on_halt_idle m)
    (dead_stop m) (irq_trace m) (mapper_trace m).
Definition set_outcome m (o : Z80Outcome) : SmsMachine W :=
  mkMachine (z80 m) o (mem m) (m_io_control m) (devices m) (script m) (next_line m) (irq_mask m) (stop_on_halt_idle m)
    (dead_stop m) (irq_trace m) (mapper_trace m).
Definition set_mem m (x : SmsMemory) : SmsMachine W :=
  mkMachine (z80 m) (rt_outcome m) x (m_io_control m) (devices m) (script m) (next_line m) (irq_mask m) (stop_on_halt_idle m)
    (dead_stop m) (irq_trace m) (mapper_trace m).
Definition set_io_control m (x : Z) : SmsMachine W :=
  mkMachine (z80 m) (rt_outcome m) (mem m) x (devices m) (script m) (next_line m) (irq_mask m) (stop_on_halt_idle m)
    (dead_stop m) (irq_trace m) (mapper_trace m).
Definition set_devices m (w : W) : SmsMachine W :=
  mkMachine (z80 m) (rt_outcome m) (mem m) (m_io_control m) w (script m) (next_line m) (irq_mask m) (stop_on_halt_idle m)
    (dead_stop m) (irq_trace m) (mapper_trace m).
Definition set_script m (x : InputSchedule) : SmsMachine W :=
  mkMachine (z80 m) (rt_outcome m) (mem m) (m_io_control m) (devices m) x (next_line m) (irq_mask m) (stop_on_halt_idle m)
    (dead_stop m) (irq_trace m) (mapper_trace m).
Definition set_next_line m (x : Z) : SmsMachine W :=
  mkMachine (z80 m) (rt_outcome m) (mem m) (m_io_control m) (devices m) (script m) x (irq_mask m) (stop_on_halt_idle m)
    (dead_stop m) (irq_trace m) (mapper_trace m).
Definition set_irq_mask m (x : Z) : SmsMachine W :=
  mkMachine (z80 m) (rt_outcome m) (mem m) (m_io_control m) (devices m) (script m) (next_line m) x (stop_on_halt_idle m)
    (dead_stop m) (irq_trace m) (mapper_trace m).
Definition set_dead m (x : option SmsStop) : SmsMachine W :=
  mkMachine (z80 m) (rt_outcome m) (mem m) (m_io_control m) (devices m) (script m) (next_line m) (irq_mask m) (stop_on_halt_idle m)
    x (irq_trace m) (mapper_trace m).
Definition set_irq_trace m (x : Log SmsIrqTraceEntry) : SmsMachine W :=
  mkMachine (z80 m) (rt_outcome m) (mem m) (m_io_control m) (devices m) (script m) (next_line m) (irq_mask m) (stop_on_halt_idle m)
    (dead_stop m) x (mapper_trace m).
Definition set_mapper_trace m (x : Log SmsMapperTraceEntry) : SmsMachine W :=
  mkMachine (z80 m) (rt_outcome m) (mem m) (m_io_control m) (devices m) (script m) (next_line m) (irq_mask m) (stop_on_halt_idle m)
    (dead_stop m) (irq_trace m) x.
End Updates.

Definition with_int_line (s : Z80State) (v : Z) : Z80State :=
  mkState (file s) (f s) (sp s) (pc s) (wz s) (i s) (r s) (im s) (iff1 s) (iff2 s) (q s) (halted s) (int_deferral s) (ld_a_ir s)
    (in_prefix_run s) v (nmi_pending s) (nmi_reject s) (cycles s) (deadline s).

(** ** Devices *)

Record SmsPortDevice (W : Type) := mkDevice {
  dev_reset : option (SmsMachine W -> SmsMachine W);
  dev_read : option (SmsMachine W -> SmsPortClass -> Z -> SmsMachine W * Z);
  dev_write : option (SmsMachine W -> SmsPortClass -> Z -> Z -> SmsMachine W);
  dev_digest : option (SmsMachine W -> SmsSha256 -> SmsSha256);
}.
Arguments mkDevice {W} _ _ _ _.
Arguments dev_reset {W} _.
Arguments dev_read {W} _.
Arguments dev_write {W} _.
Arguments dev_digest {W} _.

Record SmsVdpDevice (W : Type) := mkVdpDevice {
  vdp_port : SmsPortDevice W;
  scanline : option (SmsMachine W -> Z -> Z -> Z -> SmsMachine W);
  irq_sources : option (SmsMachine W -> Z);
}.
Arguments mkVdpDevice {W} _ _ _.
Arguments vdp_port {W} _.
Arguments scanline {W} _.
Arguments irq_sources {W} _.

(** What is attached to the machine's three seams. *)
Record Attached (W : Type) := mkAttached { vdp : SmsVdpDevice W; psg : SmsPortDevice W; pad : SmsPortDevice W }.
Arguments mkAttached {W} _ _ _.
Arguments vdp {W} _.
Arguments psg {W} _.
Arguments pad {W} _.

Definition no_device {W} : SmsPortDevice W := mkDevice None None None None.
Definition no_devices {W} : Attached W := mkAttached (mkVdpDevice no_device None None) no_device no_device.

Definition sms_next_event_cycles {W} (m : SmsMachine W) : Z := u64 (next_line m * SMS_CYCLES_PER_LINE).

Section Machine.
Context {W : Type} (attached : Attached W).
Implicit Types m : SmsMachine W.

(** [irq_trace] and [mapper_trace], the functions. *)
Definition trace_irq m (t : Z) (source : SmsIrqSource) (event : SmsIrqEvent) : SmsMachine W :=
  set_irq_trace m (log_add (irq_trace m) (mkIrqEntry t source event)).
Definition trace_mapper m (t reg value : Z) : SmsMachine W := set_mapper_trace m (log_add (mapper_trace m) (mkMapperEntry t reg value)).

(** ** Interrupts and input *)

(** A changed source is traced at [t]. *)
Definition trace_edge (mask changed bit : Z) (source : SmsIrqSource) (t : Z) m : SmsMachine W :=
  if has_bit changed bit then trace_irq m t source (if has_bit mask bit then SMS_IRQ_ASSERTED else SMS_IRQ_DEASSERTED) else m.

Definition sample_irq m (t : Z) : SmsMachine W :=
  let mask := match irq_sources (vdp attached) with Some sources => u8 (sources m .& (SMS_IRQ_FRAME .| SMS_IRQ_LINE)) | None => 0 end in
  let changed := Z.lxor mask (irq_mask m) in
  let m :=
    if negb (changed =? 0)
    then set_irq_mask (trace_edge mask changed SMS_IRQ_LINE SMS_IRQ_TRACE_LINE t (trace_edge mask changed SMS_IRQ_FRAME SMS_IRQ_TRACE_FRAME t m)) mask
    else m in
  set_z80 m (with_int_line (z80 m) (if negb (mask =? 0) then 1 else 0)).

(** An event takes effect; a press of pause is an NMI. *)
Definition apply_event (t : Z) m (ev : SmsInputEvent) : SmsMachine W :=
  let was_pressed := in_pause (input (script m)) in
  let m := set_script m (mkSchedule (mkInput (ev_p1 ev) (ev_p2 ev) (ev_pause ev)) (input_events (script m)) (input_next (script m) + 1)) in
  if (was_pressed =? 0) && negb (ev_pause ev =? 0)
  then trace_irq (set_z80 m (with_nmi (z80 m) 1 (nmi_reject (z80 m)))) t SMS_IRQ_TRACE_PAUSE SMS_IRQ_ASSERTED
  else m.

(** The loop over the events from [input_next]. *)
Fixpoint apply_events (frame t : Z) (events : list SmsInputEvent) m : SmsMachine W :=
  match events with
  | [] => m
  | ev :: events => if ev_frame ev <=? frame then apply_events frame t events (apply_event t m ev) else m
  end.

Definition apply_input_at_frame_start m (frame t : Z) : SmsMachine W :=
  apply_events frame t (drop (Z.to_nat (input_next (script m))) (input_events (script m))) m.

(** ** Scanline events *)

(** The body of the loop of [advance_events]. *)
Definition line_event m : SmsMachine W :=
  let t := sms_next_event_cycles m in
  let frame := next_line m / SMS_LINES_PER_FRAME in
  let line := next_line m mod SMS_LINES_PER_FRAME in
  let m := if line =? 0 then apply_input_at_frame_start m frame t else m in
  let m := match scanline (vdp attached) with Some event => event m frame line t | None => m end in
  let m := sample_irq m t in
  set_next_line m (u64 (next_line m + 1)).

Definition event_due m (time : Z) : bool := (error (mem m) =b SMS_OK) && (sms_next_event_cycles m <=? time).

Fixpoint advance_loop (fuel : nat) m (time : Z) : SmsMachine W :=
  match fuel with
  | O => m
  | S fuel => if event_due m time then advance_loop fuel (line_event m) time else m
  end.

(** A turn per line that starts by [time], and one to see that there is no other. *)
Definition advance_events m (time : Z) : SmsMachine W := advance_loop (Z.to_nat (time / SMS_CYCLES_PER_LINE + 1 - next_line m)) m time.

Definition request_stop m : SmsMachine W := set_z80 m (with_deadline (z80 m) 0).
Definition failed m : bool := negb (error (mem m) =b SMS_OK).
(** [if (m->mem.error != SMS_OK) request_stop(m);] *)
Definition stop_if_failed m : SmsMachine W := if failed m then request_stop m else m.

(** ** Host callbacks *)

Definition host_read m (address time : Z) : SmsMachine W * Z :=
  let m := advance_events m time in
  let '(x, value) := sms_memory_read (mem m) address time in
  (stop_if_failed (set_mem m x), value).

Definition host_write m (address value time : Z) : SmsMachine W :=
  let m := advance_events m time in
  let m := set_mem m (sms_memory_write (mem m) address value time) in
  if failed m then request_stop m
  else if (family (mem m) =b SMS_MAPPER_SEGA) && (SMS_MAPPER_REG_BASE <=? address)
  then trace_mapper m time (u8 (address - SMS_MAPPER_REG_BASE)) value
  else m.

Definition unimplemented m (port value time : Z) : SmsMachine W :=
  request_stop (set_mem m (sms_memory_latch_error (mem m) SMS_ERROR_PORT_UNIMPLEMENTED port value time)).

Definition device_for (owner : SmsPortOwner) : option (SmsPortDevice W) :=
  match owner with
  | SMS_OWNER_VDP => Some (vdp_port (vdp attached)) | SMS_OWNER_PSG => Some (psg attached) | SMS_OWNER_PAD => Some (pad attached)
  | _ => None
  end.

Definition host_io_in m (port time : Z) : SmsMachine W * Z :=
  let cls := sms_port_decode port false in
  let owner := sms_port_owner cls in
  let m := advance_events m time in
  if failed m then (m, 0xFF)
  else if owner =b SMS_OWNER_NONE then (m, 0xFF)
  else if (owner =b SMS_OWNER_PAD) && sms_memory_io_disabled (mem m) then (m, 0xFF)
  else
    match device_for owner ≫= dev_read with
    | None => (unimplemented m port 0xFF time, 0xFF)
    | Some read => let '(m, value) := read m cls time in (sample_irq (stop_if_failed m) time, value)
    end.

Definition host_io_out m (port value time : Z) : SmsMachine W :=
  let cls := sms_port_decode port true in
  let owner := sms_port_owner cls in
  let m := advance_events m time in
  if failed m then m
  else if owner =b SMS_OWNER_NONE then m
  else if owner =b SMS_OWNER_MEMORY then stop_if_failed (set_mem m (sms_memory_control_write (mem m) port value time))
  else
    match device_for owner ≫= dev_write with
    | None => unimplemented m port value time
    | Some write =>
        let m := match cls with SMS_PORT_IO_CONTROL => set_io_control m value | _ => m end in
        sample_irq (stop_if_failed (write m cls value time)) time
    end.

Definition host_interrupt_acknowledge m (time : Z) : SmsMachine W * Z :=
  let m := advance_events m time in
  let m := if has_bit (irq_mask m) SMS_IRQ_FRAME then trace_irq m time SMS_IRQ_TRACE_FRAME SMS_IRQ_ACCEPTED else m in
  let m := if has_bit (irq_mask m) SMS_IRQ_LINE then trace_irq m time SMS_IRQ_TRACE_LINE SMS_IRQ_ACCEPTED else m in
  (m, 0xFF).

Definition host_code_image m (address : Z) : option Z80CodeImage := sms_memory_code_image (mem m) address.

(** ** Reset *)

Definition run_reset (d : SmsPortDevice W) m : SmsMachine W := match dev_reset d with Some reset => reset m | None => m end.

Definition sms_machine_reset m : SmsMachine W :=
  let m :=
    mkMachine (z80_reset (z80 m)) OUTCOME_NONE (sms_memory_reset (mem m)) 0xFF (devices m)
      (mkSchedule (mkInput 0 0 0) (input_events (script m)) 0) 0 0 (stop_on_halt_idle m) None (log_clear (irq_trace m))
      (log_clear (mapper_trace m)) in
  sample_irq (run_reset (pad attached) (run_reset (psg attached) (run_reset (vdp_port (vdp attached)) m))) 0.

Definition sms_machine_set_input m (events : list SmsInputEvent) : SmsMachine W := set_script m (mkSchedule (input (script m)) events 0).

Definition sms_machine_set_traces m (irq : option (list SmsIrqTraceEntry)) (irq_capacity : Z)
    (mapper : option (list SmsMapperTraceEntry)) (mapper_capacity : Z) : SmsMachine W :=
  set_mapper_trace (set_irq_trace m (mkLog irq irq_capacity 0 0)) (mkLog mapper mapper_capacity 0 0).

(** ** Running *)

(** The latch is lifted while the image at the stop is asked for. *)
Definition unlatched (x : SmsMemory) : SmsMemory :=
  mkMemory (rom x) (rom_size x) (family x) (ram x) (cart_ram x) (mapper_regs x) (memory_control x) SMS_OK (error_address x) (error_value x)
    (error_cycles x).

Definition make_stop m (kind : SmsStopKind) : SmsStop :=
  let s := z80 m in
  mkStop kind (cycles s) (cycles s / SMS_CYCLES_PER_FRAME) (pc s)
    (match sms_memory_code_image (unlatched (mem m)) (pc s) with Some image => identity image | None => 0 end)
    (rt_outcome m) (error (mem m)) (error_address (mem m)) (error_value (mem m)) (error_cycles (mem m)).

Definition die m (kind : SmsStopKind) : SmsMachine W * SmsStop := (set_dead m (Some (make_stop m kind)), make_stop m kind).
End Machine.

(** The machine before [sms_machine_init], its devices' contexts apart. *)
Definition zero_machine {W} (w : W) : SmsMachine W :=
  mkMachine (mkState (mkFile 0 0 0 0 0 0 0 0 0 0 0 0 0 0 0 0 0) 0 0 0 0 0 0 0 0 0 0 0 0 0 0 0 0 0 0 0) OUTCOME_NONE zero_memory 0 w
    (mkSchedule (mkInput 0 0 0) [] 0) 0 0 false None (mkLog None 0 0 0) (mkLog None 0 0 0).

(** No device is attached yet. *)
Definition sms_machine_init {W} (w : W) (rom : list Z) (rom_size : Z) (family : SmsMapperFamily) : SmsMachine W * SmsError :=
  let '(x, e) := sms_memory_init rom rom_size family in
  let m := set_mem (zero_machine w) x in
  if negb (e =b SMS_OK) then (m, e) else (sms_machine_reset no_devices m, SMS_OK).

Section Run.
Context {W : Type} (attached : Attached W) (z80_run : SmsMachine W -> Z -> SmsMachine W * Z80Outcome).
Implicit Types m : SmsMachine W.

(** An NMI due at the entry of a run is accepted or discarded there. *)
Definition trace_nmi m (d : Z) : SmsMachine W :=
  let st := z80 m in
  if set_flag (nmi_pending st) && negb (set_flag (in_prefix_run st)) && (cycles st <? d)
  then trace_irq m (cycles st) SMS_IRQ_TRACE_PAUSE (if set_flag (nmi_reject st) then SMS_IRQ_DEASSERTED else SMS_IRQ_ACCEPTED)
  else m.

(** The permanent stop of the slice, if it has one. *)
Definition run_slice m (d : Z) : SmsMachine W * option SmsStop :=
  let m := trace_nmi m d in
  let '(m, o) := z80_run m d in
  let m := set_outcome m o in
  if failed m then let '(m, s) := die m SMS_STOP_PLATFORM_ERROR in (m, Some s)
  else if z80_outcome_is_error (rt_outcome m) then let '(m, s) := die m SMS_STOP_Z80_ERROR in (m, Some s)
  else (m, None).

Definition halt_idle m : bool :=
  stop_on_halt_idle m && set_flag (halted (z80 m)) && (iff1 (z80 m) =? 0) && (nmi_pending (z80 m) =? 0) &&
  (zlen (input_events (script m)) <=? input_next (script m)).

Fixpoint run_loop (fuel : nat) m (t_state : Z) : option (SmsMachine W * SmsStop) :=
  match fuel with
  | O => None
  | S fuel =>
      let m := advance_events attached m (cycles (z80 m)) in
      if failed m then Some (die m SMS_STOP_PLATFORM_ERROR)
      else if t_state <=? cycles (z80 m) then Some (m, make_stop m SMS_STOP_CYCLE)
      else
        let d := sms_next_event_cycles m in
        let d := if t_state <? d then t_state else d in
        match run_slice m d with
        | (m, Some stop) => Some (m, stop)
        | (m, None) => if halt_idle m then Some (m, make_stop m SMS_STOP_HALT_IDLE) else run_loop fuel m t_state
        end
  end.

(** A turn per line before the target, the entry, and the last. *)
Definition run_fuel (t_state : Z) : nat := Z.to_nat (t_state / SMS_CYCLES_PER_LINE + 3).

Definition sms_run_until_cycle m (t_state : Z) : option (SmsMachine W * SmsStop) :=
  match dead_stop m with Some stop => Some (m, stop) | None => run_loop (run_fuel t_state) m t_state end.

Definition sms_run_until_frame m (frame : Z) : option (SmsMachine W * SmsStop) :=
  let frame := if UINT64_MAX / SMS_CYCLES_PER_FRAME <? frame then UINT64_MAX / SMS_CYCLES_PER_FRAME else frame in
  '(m, stop) ← sms_run_until_cycle m (u64 (frame * SMS_CYCLES_PER_FRAME));
  Some (m, if stop_kind stop =b SMS_STOP_CYCLE then with_kind stop SMS_STOP_FRAME else stop).

Definition frame_target (frames : Z) : Z :=
  if negb (frames =? SMS_NO_LIMIT) then
    u64 ((if UINT64_MAX / SMS_CYCLES_PER_FRAME <? frames then UINT64_MAX / SMS_CYCLES_PER_FRAME else frames) * SMS_CYCLES_PER_FRAME)
  else SMS_NO_LIMIT.

Definition sms_run_bounded m (cycle_budget frames : Z) : option (SmsMachine W * SmsStop) :=
  let target := if cycle_budget <? frame_target frames then cycle_budget else frame_target frames in
  '(m, stop) ← sms_run_until_cycle m target;
  Some (m,
    if stop_kind stop =b SMS_STOP_CYCLE then
      with_kind stop
        (if negb (frame_target frames =? SMS_NO_LIMIT) && (frame_target frames <=? stop_cycles stop) then SMS_STOP_FRAME else SMS_STOP_CYCLE_BUDGET)
    else stop).
End Run.

(** ** Digest *)

Definition digest_device {W} (d : SmsPortDevice W) (m : SmsMachine W) (sha : SmsSha256) : SmsSha256 :=
  match dev_digest d with Some digest => digest m sha | None => sha end.

Definition digest_z80 (s : Z80State) (sha : SmsSha256) : SmsSha256 :=
  let g := file s in
  let sha := sms_sha256_update sha [a g; f s; b g; c g; d g; e g; h g; l g; a2 g; f2 g; b2 g; c2 g; d2 g; e2 g; h2 g; l2 g] in
  let sha := sms_sha256_update_u16 (sms_sha256_update_u16 sha (ix g)) (iy g) in
  let sha := sms_sha256_update_u16 (sms_sha256_update_u16 (sms_sha256_update_u16 sha (sp s)) (pc s)) (wz s) in
  let sha := sms_sha256_update sha
    [i s; r s; im s; iff1 s; iff2 s; q s; halted s; int_deferral s; ld_a_ir s; in_prefix_run s; int_line s; nmi_pending s; nmi_reject s] in
  sms_sha256_update_u64 sha (cycles s).

Definition digest_memory (x : SmsMemory) (io_control : Z) (sha : SmsSha256) : SmsSha256 :=
  let sha := sms_sha256_update (sms_sha256_update (sms_sha256_update sha (ram x)) (cart_ram x)) (mapper_regs x) in
  let sha := sms_sha256_update_u8 (sms_sha256_update_u8 sha (memory_control x)) io_control in
  sms_sha256_update_u32 sha (error_code (error x)).

Definition sms_machine_digest {W} (attached : Attached W) (m : SmsMachine W) (block : list Z) : list Z :=
  let sha := digest_memory (mem m) (m_io_control m) (digest_z80 (z80 m) (sms_sha256_init block)) in
  let sha := sms_sha256_update_u8 (sms_sha256_update_u64 sha (next_line m)) (irq_mask m) in
  let i := input (script m) in
  let sha := sms_sha256_update_u8 (sms_sha256_update_u8 (sms_sha256_update_u8 sha (in_p1 i)) (in_p2 i)) (in_pause i) in
  let sha := sms_sha256_update_u32 sha (input_next (script m)) in
  sms_sha256_final (digest_device (pad attached) m (digest_device (psg attached) m (digest_device (vdp_port (vdp attached)) m sha))).

(** ** The installed VDP and controllers *)

Record SmsDevices := mkDevices { the_vdp : SmsVdp; the_pad : SmsPad }.

Definition set_vdp (m : SmsMachine SmsDevices) (v : SmsVdp) : SmsMachine SmsDevices := set_devices m (mkDevices v (the_pad (devices m))).
(** The error sink is the machine's memory. *)
Definition set_sink (m : SmsMachine SmsDevices) (sink : option SmsMemory) : SmsMachine SmsDevices :=
  match sink with Some x => set_mem m x | None => m end.

(** [sms_vdp_install]; no raster hook. *)
Definition sms_vdp_install : SmsVdpDevice SmsDevices :=
  mkVdpDevice
    (mkDevice
       (Some (fun m => set_vdp m (sms_vdp_reset (the_vdp (devices m)))))
       (Some (fun m cls time => let '(v, sink, value) := sms_vdp_read (the_vdp (devices m)) (Some (mem m)) cls time in (set_sink (set_vdp m v) sink, value)))
       (Some (fun m cls value time => set_vdp m (sms_vdp_write (the_vdp (devices m)) cls value time)))
       (Some (fun m sha => sms_vdp_digest (the_vdp (devices m)) sha)))
    (Some (fun m frame line time =>
       let '(v, _, sink) := sms_vdp_scanline (R := unit) None (the_vdp (devices m)) tt (Some (mem m)) frame line time in set_sink (set_vdp m v) sink))
    (Some (fun m => sms_vdp_irq_sources (the_vdp (devices m)))).

(** [sms_pad_install], with the installed VDP. *)
Definition sms_pad_install : SmsPortDevice SmsDevices :=
  mkDevice
    (Some (fun m => set_devices m (mkDevices (the_vdp (devices m)) sms_pad_reset)))
    (Some (fun m cls time => (m, sms_pad_read (the_pad (devices m)) (Some (input (script m))) cls)))
    (Some (fun m cls value time =>
       let '(p, v) := sms_pad_write (the_pad (devices m)) (Some (the_vdp (devices m))) cls value time in
       set_devices m (mkDevices (match v with Some v => v | None => the_vdp (devices m) end) p)))
    (Some (fun m sha => sms_pad_digest (the_pad (devices m)) sha)).

(** A machine with both and no PSG. *)
Definition installed : Attached SmsDevices := mkAttached sms_vdp_install no_device sms_pad_install.

(** * What the scheduler relies on *)

Definition clear {W} (m : SmsMachine W) : SmsMachine W := set_z80 m (with_deadline (z80 m) 0).

(** Two machines that differ in the deadline of the last run only. *)
Definition same {W} (m m' : SmsMachine W) : Prop := clear m = clear m'.

#[export] Instance same_equivalence {W} : Equivalence (@same W).
Proof. split; unfold same; [done|by intros x y ->|by intros x y z -> ->]. Qed.

(** What the scheduler keeps for itself. *)
Record kept {W} (m m' : SmsMachine W) : Prop := {
  kept_cycles : cycles (z80 m') = cycles (z80 m);
  kept_line : next_line m' = next_line m;
  kept_halt : stop_on_halt_idle m' = stop_on_halt_idle m;
  kept_dead : dead_stop m' = dead_stop m;
}.

#[export] Instance kept_preorder {W} : PreOrder (@kept W).
Proof. split; [by intros m|]. intros m1 m2 m3 [] []. split; congruence. Qed.

(** The devices' promises: a line event keeps what is the scheduler's and does not read
    the deadline, and the interrupt sources are those of the devices' contexts. *)
Class DeviceLaws {W} (attached : Attached W) : Prop := {
  scanline_kept event m frame line t : scanline (vdp attached) = Some event -> kept m (event m frame line t);
  scanline_clear event m frame line t : scanline (vdp attached) = Some event -> event (clear m) frame line t = clear (event m frame line t);
  sources_devices sources m m' : irq_sources (vdp attached) = Some sources -> devices m = devices m' -> sources m = sources m';
}.

Section Advance.
Context {W : Type} (attached : Attached W) {laws : DeviceLaws attached}.
Implicit Types m : SmsMachine W.

Lemma trace_edge_kept mask changed bit source t m : kept m (trace_edge mask changed bit source t m).
Proof. unfold trace_edge. by destruct (has_bit changed bit). Qed.

Lemma set_int_line_kept m v x : kept m (set_z80 (set_irq_mask m x) (with_int_line (z80 m) v)).
Proof. done. Qed.

Lemma sample_kept m t : kept m (sample_irq attached m t).
Proof.
  unfold sample_irq. cbv zeta. set (mask := match irq_sources _ with Some _ => _ | None => _ end). destruct (negb _); [|done].
  set (m1 := trace_edge _ _ SMS_IRQ_LINE _ _ _). assert (H : kept m m1) by (unfold m1; etransitivity; apply trace_edge_kept).
  destruct H as [H1 H2 H3 H4]. by split.
Qed.

Lemma apply_event_kept t m ev : kept m (apply_event t m ev).
Proof. unfold apply_event. by destruct (_ && _). Qed.

Lemma apply_events_kept frame t evs m : kept m (apply_events frame t evs m).
Proof.
  revert m. induction evs as [|ev evs IH]; intros m; cbn [apply_events]; [done|]. destruct (_ <=? _); [|done].
  etransitivity; [apply apply_event_kept|apply IH].
Qed.

(** The event of a line, the count of lines apart. *)
Definition line_body (m : SmsMachine W) : SmsMachine W :=
  let t := sms_next_event_cycles m in
  let m1 := if next_line m mod SMS_LINES_PER_FRAME =? 0 then apply_input_at_frame_start m (next_line m / SMS_LINES_PER_FRAME) t else m in
  let m2 := match scanline (vdp attached) with
            | Some event => event m1 (next_line m / SMS_LINES_PER_FRAME) (next_line m mod SMS_LINES_PER_FRAME) t | None => m1 end in
  sample_irq attached m2 t.

Lemma line_event_body m : line_event attached m = set_next_line (line_body m) (u64 (next_line (line_body m) + 1)).
Proof. done. Qed.

Lemma line_body_kept m : kept m (line_body m).
Proof.
  unfold line_body. cbv zeta. set (m1 := if _ =? _ then _ else m). assert (H1 : kept m m1) by (unfold m1; destruct (_ =? _); [apply apply_events_kept|done]).
  etransitivity; [|apply sample_kept]. etransitivity; [exact H1|]. destruct (scanline (vdp attached)) as [event|] eqn:E; [|done]. by apply scanline_kept.
Qed.

Lemma line_event_next m : next_line (line_event attached m) = u64 (next_line m + 1).
Proof. rewrite line_event_body. cbn [set_next_line next_line]. by rewrite (kept_line _ _ (line_body_kept m)). Qed.

(** All but the line. *)
Record advanced (m m' : SmsMachine W) : Prop := {
  adv_cycles : cycles (z80 m') = cycles (z80 m);
  adv_halt : stop_on_halt_idle m' = stop_on_halt_idle m;
  adv_dead : dead_stop m' = dead_stop m;
}.

#[local] Instance advanced_preorder : PreOrder advanced.
Proof. split; [by intros m|]. intros m1 m2 m3 [] []. split; congruence. Qed.

Lemma line_event_advanced m : advanced m (line_event attached m).
Proof. rewrite line_event_body. destruct (line_body_kept m) as [H1 _ H3 H4]. by split. Qed.

(** ** The order of events *)

(** Times that leave room for a line before the 64-bit end. *)
Definition line_room (n : Z) : Prop := 0 <= n /\ n * 228 < 2 ^ 64 - 228.

Lemma next_event_exact m : line_room (next_line m) -> sms_next_event_cycles m = next_line m * 228.
Proof. intros [H1 H2]. unfold sms_next_event_cycles, SMS_CYCLES_PER_LINE. apply u64_id. unfold is_u64. lia. Qed.

(** Lines up to [time] that are left from [n]. *)
Definition lines_left (n time : Z) : nat := Z.to_nat (time / 228 + 1 - n).

Lemma lines_left_due n time : 0 <= n -> n * 228 <= time -> lines_left n time = S (lines_left (n + 1) time).
Proof. intros Hn H. unfold lines_left. assert (n <= time / 228) by (apply Z.div_le_lower_bound; lia). lia. Qed.

Lemma lines_left_none n time : time < n * 228 -> lines_left n time = O.
Proof. intros H. unfold lines_left. assert (time / 228 < n) by (apply Z.div_lt_upper_bound; lia). lia. Qed.

(** The event of line [l], at its time and in its frame. *)
Definition event_at (l : Z) m : SmsMachine W :=
  let t := l * 228 in
  let m1 := if l mod 262 =? 0 then apply_input_at_frame_start m (l / 262) t else m in
  let m2 := match scanline (vdp attached) with Some event => event m1 (l / 262) (l mod 262) t | None => m1 end in
  set_next_line (sample_irq attached m2 t) (l + 1).

(** The events of lines, one after the other, until one fails. *)
Fixpoint events_in_order (lines : list Z) m : SmsMachine W :=
  match lines with [] => m | l :: lines => if failed m then m else events_in_order lines (event_at l m) end.

Lemma line_event_exact m : line_room (next_line m) -> line_event attached m = event_at (next_line m) m.
Proof.
  intros Hr. rewrite line_event_body, (kept_line _ _ (line_body_kept m)). destruct Hr as [H0 H1]. rewrite u64_id by (unfold is_u64; lia).
  unfold line_body. rewrite next_event_exact by (split; lia). done.
Qed.

Lemma advance_unfold m time : line_room (next_line m) -> time < 2 ^ 64 - 456 ->
  advance_events attached m time =
    if failed m then m else if next_line m * 228 <=? time then advance_events attached (line_event attached m) time else m.
Proof.
  intros Hr Ht. unfold advance_events. change (time / SMS_CYCLES_PER_LINE + 1 - next_line m) with (time / 228 + 1 - next_line m).
  fold (lines_left (next_line m) time). rewrite line_event_next. destruct Hr as [H0 H1]. rewrite (u64_id (next_line m + 1)) by (unfold is_u64; lia).
  destruct (Z.leb_spec (next_line m * 228) time) as [L|G].
  - rewrite lines_left_due by lia. cbn [advance_loop]. unfold event_due, failed. rewrite next_event_exact by done.
    destruct (error (mem m) =b SMS_OK); cbn [negb andb]; [|done]. by rewrite (proj2 (Z.leb_le _ _) L).
  - rewrite lines_left_none by lia. cbn [advance_loop]. by destruct (failed m).
Qed.

(** What is left to do after the events. *)
Lemma advance_done m time : line_room (next_line m) -> time < 2 ^ 64 - 456 -> let m' := advance_events attached m time in
  advanced m m' /\ next_line m <= next_line m' <= Z.max (next_line m) (time / 228 + 1) /\ (failed m' = true \/ time < next_line m' * 228).
Proof.
  intros Hr Ht. cbv zeta. remember (lines_left (next_line m) time) as n eqn:En. revert m Hr En. induction n as [|n IH]; intros m Hr En.
  - rewrite advance_unfold by done. destruct (failed m) eqn:Ef; [split; [done|]; split; [lia|by left]|].
    destruct (Z.leb_spec (next_line m * 228) time) as [L|G]; [|split; [done|]; split; [lia|by right]].
    destruct Hr. rewrite lines_left_due in En by lia. discriminate En.
  - rewrite advance_unfold by done. destruct (failed m) eqn:Ef; [split; [done|]; split; [lia|by left]|].
    destruct (Z.leb_spec (next_line m * 228) time) as [L|G]; [|split; [done|]; split; [lia|by right]].
    destruct Hr as [H0 H1]. rewrite lines_left_due in En by lia. injection En as En.
    assert (Hn : next_line (line_event attached m) = next_line m + 1) by (rewrite line_event_next; apply u64_id; unfold is_u64; lia).
    destruct (IH (line_event attached m)) as (A & B & C); [split; lia|by rewrite Hn|].
    split; [etransitivity; [apply line_event_advanced|exact A]|]. rewrite Hn in B. split; [|exact C].
    assert (next_line m <= time / 228) by (apply Z.div_le_lower_bound; lia). lia.
Qed.

Lemma advance_events_order m time : line_room (next_line m) -> time < 2 ^ 64 - 456 ->
  advance_events attached m time = events_in_order (seqZ (next_line m) (time / 228 + 1 - next_line m)) m.
Proof.
  intros Hr Ht. remember (lines_left (next_line m) time) as n eqn:En. revert m Hr En. induction n as [|n IH]; intros m Hr En.
  - assert (G : time < next_line m * 228).
    { destruct (Z.lt_ge_cases time (next_line m * 228)) as [|L]; [done|]. destruct Hr. rewrite lines_left_due in En by lia. discriminate En. }
    rewrite advance_unfold by done. rewrite (proj2 (Z.leb_gt _ _) G), seqZ_nil by (unfold lines_left in En; lia). by destruct (failed m).
  - assert (L : next_line m * 228 <= time).
    { destruct (Z.lt_ge_cases time (next_line m * 228)) as [G|]; [|done]. rewrite lines_left_none in En by done. discriminate En. }
    destruct (Hr) as [H0 H1]. rewrite lines_left_due in En by lia. injection En as En.
    assert (Hn : next_line (line_event attached m) = next_line m + 1) by (rewrite line_event_next; apply u64_id; unfold is_u64; lia).
    assert (next_line m <= time / 228) by (apply Z.div_le_lower_bound; lia).
    rewrite advance_unfold by done. rewrite (proj2 (Z.leb_le _ _) L), (seqZ_cons (next_line m)) by lia. cbn [events_in_order].
    destruct (failed m); [done|]. rewrite IH by first [by rewrite Hn|rewrite Hn; split; lia]. rewrite Hn, line_event_exact by done.
    f_equal. f_equal; lia.
Qed.

Lemma advance_advance m t1 t2 : line_room (next_line m) -> t1 <= t2 -> t2 < 2 ^ 64 - 456 ->
  advance_events attached (advance_events attached m t1) t2 = advance_events attached m t2.
Proof.
  intros Hr Ht H2. remember (lines_left (next_line m) t1) as n eqn:En. revert m Hr En. induction n as [|n IH]; intros m Hr En.
  - rewrite (advance_unfold m t1) by (done || lia). destruct (failed m); [done|]. destruct (Z.leb_spec (next_line m * 228) t1) as [L|]; [|done].
    destruct Hr. rewrite lines_left_due in En by lia. discriminate En.
  - rewrite (advance_unfold m t1), (advance_unfold m t2) by (done || lia). destruct (failed m) eqn:Ef; [rewrite advance_unfold, Ef by done; done|].
    destruct (Z.leb_spec (next_line m * 228) t1) as [L|G].
    + rewrite (proj2 (Z.leb_le (next_line m * 228) t2)) by lia. destruct Hr as [H0 H1]. rewrite lines_left_due in En by lia. injection En as En.
      assert (Hn : next_line (line_event attached m) = next_line m + 1) by (rewrite line_event_next; apply u64_id; unfold is_u64; lia).
      apply IH; [rewrite Hn; split; lia|by rewrite Hn].
    + rewrite lines_left_none in En by done. discriminate En.
Qed.

(** C18. Events happen at their lines and in order.  Bringing the devices up to a time is the
    events of every line that starts by then and has not happened, each at its own
    time and in its own frame, until one fails; whether another time is stopped at
    on the way makes no difference. *)
Theorem advance_events_exact m (t1 t2 : Z) (Hroom : line_room (next_line m)) (Htimes : t1 <= t2) (Hend : t2 < 2 ^ 64 - 456) :
  advance_events attached m t2 = events_in_order (seqZ (next_line m) (t2 / 228 + 1 - next_line m)) m /\
  advance_events attached (advance_events attached m t1) t2 = advance_events attached m t2.
Proof. split; [by apply advance_events_order|by apply advance_advance]. Qed.
End Advance.

(** ** The deadline is not read *)

Section Clear.
Context {W : Type} (attached : Attached W) {laws : DeviceLaws attached}.
Implicit Types m : SmsMachine W.

Lemma clear_twice m : clear (clear m) = clear m.
Proof. done. Qed.

Lemma trace_edge_clear mask changed bit source t m : trace_edge mask changed bit source t (clear m) = clear (trace_edge mask changed bit source t m).
Proof. unfold trace_edge. by destruct (has_bit changed bit). Qed.

Lemma sources_clear m sources : irq_sources (vdp attached) = Some sources -> sources (clear m) = sources m.
Proof. intros E. by apply (sources_devices _ _ _ E). Qed.

Lemma sample_clear m t : sample_irq attached (clear m) t = clear (sample_irq attached m t).
Proof.
  unfold sample_irq. cbv zeta. set (mask := match irq_sources _ with Some _ => _ | None => _ end).
  assert (E : mask = match irq_sources (vdp attached) with Some sources => u8 (sources m .& (SMS_IRQ_FRAME .| SMS_IRQ_LINE)) | None => 0 end).
  { unfold mask. destruct (irq_sources (vdp attached)) as [sources|] eqn:E; [|done]. by rewrite (sources_clear m sources E). }
  rewrite <- E. change (irq_mask (clear m)) with (irq_mask m). destruct (negb (Z.lxor mask (irq_mask m) =? 0)); [|done].
  by rewrite !trace_edge_clear.
Qed.

Lemma apply_event_clear t m ev : apply_event t (clear m) ev = clear (apply_event t m ev).
Proof. unfold apply_event. cbn [clear set_z80 script z80]. by destruct (_ && _). Qed.

Lemma apply_events_clear frame t evs m : apply_events frame t evs (clear m) = clear (apply_events frame t evs m).
Proof.
  revert m. induction evs as [|ev evs IH]; intros m; cbn [apply_events]; [done|]. destruct (_ <=? _); [|done]. by rewrite apply_event_clear, IH.
Qed.

Lemma line_event_clear m : line_event attached (clear m) = clear (line_event attached m).
Proof.
  rewrite !line_event_body. assert (E : line_body attached (clear m) = clear (line_body attached m)); [|by rewrite E].
  unfold line_body. cbv zeta. change (next_line (clear m)) with (next_line m). change (sms_next_event_cycles (clear m)) with (sms_next_event_cycles m).
  rewrite <- sample_clear. f_equal. set (m1 := if _ =? _ then _ else m). set (m2 := if _ =? _ then _ else clear m).
  assert (E : m2 = clear m1) by (unfold m1, m2; destruct (_ =? _); [apply apply_events_clear|done]). rewrite E.
  destruct (scanline (vdp attached)) as [event|] eqn:Es; [|done]. by apply scanline_clear.
Qed.

Lemma advance_clear m time : advance_events attached (clear m) time = clear (advance_events attached m time).
Proof.
  unfold advance_events. change (next_line (clear m)) with (next_line m). generalize (Z.to_nat (time / SMS_CYCLES_PER_LINE + 1 - next_line m)) as fuel.
  intros fuel. revert m. induction fuel as [|fuel IH]; intros m; cbn [advance_loop]; [done|].
  change (event_due (clear m) time) with (event_due m time). destruct (event_due m time); [|done]. by rewrite line_event_clear, IH.
Qed.

#[export] Instance advance_proper : Proper (same ==> eq ==> same) (advance_events attached).
Proof. intros m m' H t ? <-. unfold same in *. by rewrite <- !advance_clear, H. Qed.
End Clear.

#[export] Instance failed_proper {W} : Proper (same ==> eq) (@failed W).
Proof. intros m m' H. by apply (f_equal failed) in H. Qed.

#[export] Instance make_stop_proper {W} : Proper (same ==> eq ==> eq) (@make_stop W).
Proof. intros m m' H k ? <-. by apply (f_equal (fun m => make_stop m k)) in H. Qed.

#[export] Instance trace_nmi_proper {W} : Proper (same ==> eq ==> same) (@trace_nmi W).
Proof.
  intros m m' H d ? <-. unfold same in *. assert (E : forall m : SmsMachine W, clear (trace_nmi m d) = trace_nmi (clear m) d).
  { intros x. unfold trace_nmi. cbv zeta. cbn [clear set_z80 z80 nmi_pending in_prefix_run cycles nmi_reject with_deadline]. by destruct (_ && _). }
  by rewrite !E, H.
Qed.

(** * What is relied on of the generated program *)

Definition ran {W} (z80_run : SmsMachine W -> Z -> SmsMachine W * Z80Outcome) (m : SmsMachine W) (d : Z) : SmsMachine W :=
  let '(m', o) := z80_run m d in set_outcome m' o.

(** The slice may go on. *)
Definition slice_ok {W} (m : SmsMachine W) : bool := negb (failed m) && negb (z80_outcome_is_error (rt_outcome m)).

(** The outcome at a boundary past the deadline, as [z80_boundary] has it. *)
Definition outcome_at (s : Z80State) : Z80Outcome :=
  if set_flag (in_prefix_run s) then OUTCOME_PREFIX_LOCK else if set_flag (halted s) then OUTCOME_HALTED else OUTCOME_DEADLINE.

(** A run ends at the first boundary at or past its deadline, or on an error; a deadline
    already reached does no work.  A callback's time is the start of its instruction,
    before the deadline, so a run up to the next event keeps the schedule and meets no
    event of the machine: an NMI that is not held back by a prefix run is gone after its
    first boundary, and none is raised.  Deadlines are looked at between instructions
    only, so within one event interval one more of them changes nothing. *)
Class Z80Program {W} (z80_run : SmsMachine W -> Z -> SmsMachine W * Z80Outcome) : Prop := {
  run_reaches m d : Z.max (cycles (z80 m)) d < 2 ^ 63 -> slice_ok (ran z80_run m d) = true ->
    d <= cycles (z80 (ran z80_run m d)) /\ rt_outcome (ran z80_run m d) = outcome_at (z80 (ran z80_run m d));
  run_time m d : 0 <= cycles (z80 m) -> Z.max (cycles (z80 m)) d < 2 ^ 63 ->
    cycles (z80 m) <= cycles (z80 (ran z80_run m d)) < Z.max (cycles (z80 m)) d + 228;
  run_past m d : d <= cycles (z80 m) -> ran z80_run m d = set_outcome (set_z80 m (with_deadline (z80 m) d)) (outcome_at (z80 m));
  run_schedule m d : d <= sms_next_event_cycles m ->
    next_line (ran z80_run m d) = next_line m /\ stop_on_halt_idle (ran z80_run m d) = stop_on_halt_idle m /\
    dead_stop (ran z80_run m d) = dead_stop m;
  run_nmi m d : cycles (z80 m) < d -> d <= sms_next_event_cycles m -> slice_ok (ran z80_run m d) = true ->
    set_flag (nmi_pending (z80 (ran z80_run m d))) && negb (set_flag (in_prefix_run (z80 (ran z80_run m d)))) = false;
  run_clear m d : ran z80_run (clear m) d = ran z80_run m d;
  run_split m d1 d2 : d1 <= d2 <= sms_next_event_cycles m -> slice_ok (ran z80_run m d1) = true -> ran z80_run (ran z80_run m d1) d2 = ran z80_run m d2;
  run_stopped m d1 d2 : failed m = false -> d1 <= d2 <= sms_next_event_cycles m -> slice_ok (ran z80_run m d1) = false -> same (ran z80_run m d2) (ran z80_run m d1);
}.

Section Running.
Context {W : Type} (attached : Attached W) {laws : DeviceLaws attached}.
Context (z80_run : SmsMachine W -> Z -> SmsMachine W * Z80Outcome) {program : Z80Program z80_run}.
Implicit Types m : SmsMachine W.

(** The permanent stop of a slice that may not go on. *)
Definition error_kind m : SmsStopKind := if failed m then SMS_STOP_PLATFORM_ERROR else SMS_STOP_Z80_ERROR.

Lemma run_slice_exact m d : run_slice z80_run m d =
  let m := ran z80_run (trace_nmi m d) d in
  if slice_ok m then (m, None)
  else (set_dead m (Some (make_stop m (error_kind m))), Some (make_stop m (error_kind m))).
Proof.
  unfold run_slice, ran, slice_ok, error_kind. destruct (z80_run _ d) as [m1 o]. cbv zeta. destruct (failed (set_outcome m1 o)); [done|].
  by destruct (z80_outcome_is_error _).
Qed.

Lemma trace_nmi_kept m d : kept m (trace_nmi m d).
Proof. unfold trace_nmi. cbv zeta. by destruct (_ && _). Qed.

(** What the loop keeps: a time and a line with room before the 64-bit end. *)
Record in_time m : Prop := {
  time_cycles : 0 <= cycles (z80 m) < 2 ^ 62 + 228;
  time_line : 0 <= next_line m /\ next_line m * 228 < 2 ^ 62 + 456;
}.

Lemma in_time_room m : in_time m -> line_room (next_line m).
Proof. intros [_ [H1 H2]]. split; lia. Qed.

Lemma advance_in_time m : in_time m -> let m' := advance_events attached m (cycles (z80 m)) in
  in_time m' /\ advanced m m' /\ next_line m <= next_line m' /\ (failed m' = true \/ cycles (z80 m') < next_line m' * 228).
Proof.
  intros H. cbv zeta. pose proof H as [[H1 H2] [H3 H4]]. destruct (advance_done attached m (cycles (z80 m))) as (A & B & C); [by apply in_time_room|lia|].
  pose proof (adv_cycles _ _ A) as Ec. pose proof (Z.mul_div_le (cycles (z80 m)) 228 ltac:(lia)).
  split; [split; lia|]. split; [done|]. split; [lia|]. by rewrite Ec.
Qed.

(** Bringing the devices up to the machine's time again does nothing. *)
Lemma advance_again m : in_time m -> let m' := advance_events attached m (cycles (z80 m)) in advance_events attached m' (cycles (z80 m')) = m'.
Proof.
  intros H. cbv zeta. destruct (advance_in_time m H) as (_ & A & _). rewrite (adv_cycles _ _ A). pose proof H as [[H1 H2] _].
  pose proof (in_time_room m H) as Hr. by rewrite (advance_advance attached) by (done || lia).
Qed.

(** The deadline of the next slice. *)
Definition slice_deadline m (t_state : Z) : Z := if t_state <? sms_next_event_cycles m then t_state else sms_next_event_cycles m.

(** One turn of the loop after the devices are up to date. *)
Lemma run_loop_turn fuel m t : run_loop attached z80_run (S fuel) m t =
  let m := advance_events attached m (cycles (z80 m)) in
  if failed m then Some (die m SMS_STOP_PLATFORM_ERROR)
  else if t <=? cycles (z80 m) then Some (m, make_stop m SMS_STOP_CYCLE)
  else
    let x := ran z80_run (trace_nmi m (slice_deadline m t)) (slice_deadline m t) in
    if slice_ok x then if halt_idle x then Some (x, make_stop x SMS_STOP_HALT_IDLE) else run_loop attached z80_run fuel x t
    else Some (die x (error_kind x)).
Proof.
  cbn [run_loop]. cbv zeta. fold (slice_deadline (advance_events attached m (cycles (z80 m))) t). rewrite run_slice_exact. cbv zeta.
  destruct (failed (advance_events _ _ _)); [done|]. destruct (t <=? _); [done|]. by destruct (slice_ok _).
Qed.

(** A slice that may go on: it reached its deadline and kept the schedule. *)
Lemma slice_kept m t : in_time m -> failed m = false -> cycles (z80 m) < t -> t <= 2 ^ 62 -> cycles (z80 m) < next_line m * 228 ->
  let d := slice_deadline m t in let x := ran z80_run (trace_nmi m d) d in
  slice_ok x = true ->
  in_time x /\ d <= cycles (z80 x) /\ next_line x = next_line m /\ stop_on_halt_idle x = stop_on_halt_idle m /\ dead_stop x = dead_stop m.
Proof.
  intros H Hf Hc Ht Hn d x Hok. pose proof H as [[H1 H2] [H3 H4]]. pose proof (next_event_exact m (in_time_room m H)) as En.
  destruct (trace_nmi_kept m d) as [K1 K2 K3 K4]. assert (En' : sms_next_event_cycles (trace_nmi m d) = sms_next_event_cycles m) by (unfold sms_next_event_cycles; by rewrite K2).
  assert (Hd : cycles (z80 m) < d <= Z.min t (next_line m * 228)) by (unfold d, slice_deadline; rewrite En; destruct (Z.ltb_spec t (next_line m * 228)); lia).
  destruct (run_reaches (trace_nmi m d) d) as [R1 _]; [rewrite K1; lia|exact Hok|]. fold x in R1.
  destruct (run_time (trace_nmi m d) d) as [_ R2]; [rewrite K1; lia|rewrite K1; lia|]. fold x in R2. rewrite K1 in R2.
  destruct (run_schedule (trace_nmi m d) d) as (R3 & R4 & R5); [rewrite En', En; lia|]. fold x in R3, R4, R5.
  rewrite R3, R4, R5, K2, K3, K4. split; [|done]. split; [lia|]. rewrite R3, K2. lia.
Qed.

Lemma run_loop_more fuel fuel' m t r : (fuel <= fuel')%nat -> run_loop attached z80_run fuel m t = Some r -> run_loop attached z80_run fuel' m t = Some r.
Proof.
  revert fuel' m. induction fuel as [|fuel IH]; intros fuel' m Hf E; [discriminate E|]. destruct fuel' as [|fuel']; [lia|].
  rewrite run_loop_turn in *. cbv zeta in *. destruct (failed _); [done|]. destruct (_ <=? _); [done|]. destruct (slice_ok _); [|done].
  destruct (halt_idle _); [done|]. apply IH; [lia|exact E].
Qed.

(** The turns that are left: one per line to come before the target. *)
Definition turns m (t : Z) : Z :=
  if t <=? cycles (z80 m) then 1 else Z.max 0 (t / 228 + 1 - Z.max (next_line m) (cycles (z80 m) / 228 + 1)) + 2.

Lemma turns_pos m t : 1 <= turns m t.
Proof. unfold turns. destruct (_ <=? _); lia. Qed.

Lemma turns_decrease m m' t : cycles (z80 m) < t -> cycles (z80 m) < next_line m * 228 -> next_line m' = next_line m ->
  Z.min t (next_line m * 228) <= cycles (z80 m') -> turns m' t < turns m t.
Proof.
  intros H1 H2 E H3. unfold turns. rewrite (proj2 (Z.leb_gt _ _) H1), E. destruct (Z.leb_spec t (cycles (z80 m'))) as [L|G]; [lia|].
  assert (Hn : next_line m <= cycles (z80 m') / 228) by (apply Z.div_le_lower_bound; lia).
  assert (Hm : cycles (z80 m) / 228 < next_line m) by (apply Z.div_lt_upper_bound; lia).
  assert (Ht : cycles (z80 m') / 228 <= t / 228) by (apply Z.div_le_mono; lia). lia.
Qed.

Lemma turns_advance m t : in_time m -> failed (advance_events attached m (cycles (z80 m))) = false ->
  turns (advance_events attached m (cycles (z80 m))) t = turns m t.
Proof.
  intros H Hf. pose proof H as [[H1 H2] _].
  destruct (advance_done attached m (cycles (z80 m)) (in_time_room m H) ltac:(lia)) as (A & B & [C|C]); [congruence|].
  unfold turns. rewrite (adv_cycles _ _ A). assert (cycles (z80 m) / 228 < next_line (advance_events attached m (cycles (z80 m)))) by (apply Z.div_lt_upper_bound; lia).
  destruct (_ <=? _); [done|]. lia.
Qed.

(** Enough fuel. *)
Lemma run_loop_total fuel m t : in_time m -> t <= 2 ^ 62 -> turns m t <= Z.of_nat fuel -> is_Some (run_loop attached z80_run fuel m t).
Proof.
  revert m. induction fuel as [|fuel IH]; intros m H Ht Hf; [pose proof (turns_pos m t); lia|]. rewrite run_loop_turn. cbv zeta.
  destruct (advance_in_time m H) as (Hin & A & _ & Hdone). pose proof (turns_advance m t H) as Hturns.
  set (m' := advance_events attached m (cycles (z80 m))) in *. destruct (failed m') eqn:Ef; [by eexists|]. destruct Hdone as [Hx|Hdone]; [discriminate Hx|].
  destruct (Z.leb_spec t (cycles (z80 m'))) as [L|G]; [by eexists|]. set (x := ran z80_run _ _). destruct (slice_ok x) eqn:Eok; [|by eexists].
  destruct (halt_idle x); [by eexists|]. destruct (slice_kept m' t Hin Ef G Ht Hdone Eok) as (X1 & X2 & X3 & _). fold x in X1, X2, X3.
  apply IH; [done..|]. specialize (Hturns eq_refl). pose proof (turns_decrease m' x t G Hdone X3) as D.
  rewrite <- (next_event_exact m' (in_time_room m' Hin)) in D. unfold slice_deadline in X2.
  assert (Hd : Z.min t (sms_next_event_cycles m') <= cycles (z80 x)) by (destruct (Z.ltb_spec t (sms_next_event_cycles m')); lia). specialize (D Hd). lia.
Qed.

Lemma run_fuel_enough m t : in_time m -> 0 <= t -> turns m t <= Z.of_nat (run_fuel t).
Proof.
  intros [H1 H2] Ht. unfold run_fuel, turns, SMS_CYCLES_PER_LINE. assert (0 <= t / 228) by (apply Z.div_pos; lia).
  assert (0 <= cycles (z80 m) / 228) by (apply Z.div_pos; lia). destruct (_ <=? _); lia.
Qed.

(** ** How a run ends *)

(** What each kind of stop says of the machine it leaves. *)
Definition ended (t_state : Z) (halt : bool) m (s : SmsStop) : Prop :=
  match stop_kind s with
  | SMS_STOP_CYCLE =>
      s = make_stop m SMS_STOP_CYCLE /\ dead_stop m = None /\ failed m = false /\ t_state <= cycles (z80 m) /\
      cycles (z80 m) < next_line m * 228 /\ in_time m /\ stop_on_halt_idle m = halt
  | SMS_STOP_HALT_IDLE => s = make_stop m SMS_STOP_HALT_IDLE /\ dead_stop m = None /\ failed m = false /\ halt = true /\ halt_idle m = true
  | SMS_STOP_Z80_ERROR => dead_stop m = Some s /\ sms_error s = SMS_OK /\ z80_outcome_is_error (z80_outcome s) = true
  | SMS_STOP_PLATFORM_ERROR => dead_stop m = Some s /\ sms_error s <> SMS_OK
  | _ => False
  end.

Lemma failed_true m : failed m = true -> error (mem m) <> SMS_OK.
Proof. unfold failed. intros E. apply negb_true_iff, bool_decide_eq_false_1 in E. exact E. Qed.

Lemma failed_false m : failed m = false -> error (mem m) = SMS_OK.
Proof. unfold failed. intros E. apply negb_false_iff, bool_decide_eq_true_1 in E. exact E. Qed.

Lemma run_loop_ended fuel m t m' s : in_time m -> t <= 2 ^ 62 -> dead_stop m = None -> run_loop attached z80_run fuel m t = Some (m', s) ->
  ended t (stop_on_halt_idle m) m' s.
Proof.
  revert m. induction fuel as [|fuel IH]; intros m H Ht Hdead E; [discriminate E|]. rewrite run_loop_turn in E. cbv zeta in E.
  destruct (advance_in_time m H) as (Hin & A & _ & Hdone). set (m1 := advance_events attached m (cycles (z80 m))) in *.
  destruct A as [A1 A2 A3]. rewrite Hdead in A3. destruct (failed m1) eqn:Ef.
  { injection E as <- <-. unfold ended. cbn. split; [done|by apply failed_true]. }
  destruct Hdone as [Hx|Hdone]; [discriminate Hx|].
  destruct (Z.leb_spec t (cycles (z80 m1))) as [L|G].
  { injection E as <- <-. unfold ended. cbn. done. }
  set (x := ran z80_run _ _) in *. destruct (slice_ok x) eqn:Eok.
  - destruct (slice_kept m1 t Hin Ef G Ht Hdone Eok) as (X1 & X2 & X3 & X4 & X5). fold x in X1, X2, X3, X4, X5. rewrite A3 in X5. rewrite A2 in X4.
    assert (Efx : failed x = false) by (unfold slice_ok in Eok; by destruct (failed x)).
    destruct (halt_idle x) eqn:Eh; [|rewrite <- X4; by apply (IH x)].
    injection E as <- <-. unfold ended. cbn. split_and!; try done. rewrite <- X4. unfold halt_idle in Eh. by destruct (stop_on_halt_idle x).
  - unfold slice_ok in Eok. unfold error_kind in E. destruct (failed x) eqn:Efx; injection E as <- <-; unfold ended; cbn.
    + split; [done|by apply failed_true].
    + split; [done|]. split; [by apply failed_false|]. cbn in Eok. by apply negb_false_iff in Eok.
Qed.

(** A machine that may run, and the targets it may be given. *)
Record runnable m (t : Z) : Prop := {
  runnable_time : in_time m;
  runnable_target : 0 <= t <= 2 ^ 62;
  runnable_live : dead_stop m = None;
}.

Lemma run_until_ended m t : runnable m t -> exists m' s, sms_run_until_cycle attached z80_run m t = Some (m', s) /\ ended t (stop_on_halt_idle m) m' s.
Proof.
  intros [H [H0 Ht] Hdead]. unfold sms_run_until_cycle. rewrite Hdead.
  destruct (run_loop_total (run_fuel t) m t H Ht (run_fuel_enough m t H H0)) as [[m' s] E]. exists m', s. split; [exact E|].
  by apply (run_loop_ended (run_fuel t)).
Qed.

(** C39. A run comes to its end.  From a machine that has not stopped for good, with
    any generated program that keeps its contract, a run to any target up to 2^62
    T-states returns.  It stops for the target with every event up to its time applied
    and no error, for an idle halt only when asked to, and otherwise dead of an error
    that the stop names. *)
Theorem run_ends m (t_state : Z) (H : runnable m t_state) :
  exists m' stop, sms_run_until_cycle attached z80_run m t_state = Some (m', stop) /\ ended t_state (stop_on_halt_idle m) m' stop.
Proof. by apply run_until_ended. Qed.

Lemma dead_stays m s : dead_stop m = Some s -> sms_stop_is_resumable (stop_kind s) = false ->
  forall t frame budget frames, sms_run_until_cycle attached z80_run m t = Some (m, s) /\ sms_run_until_frame attached z80_run m frame = Some (m, s) /\
    sms_run_bounded attached z80_run m budget frames = Some (m, s).
Proof.
  intros Hd Hr t frame budget frames. assert (Hk : (stop_kind s =b SMS_STOP_CYCLE) = false) by (by destruct (stop_kind s)).
  unfold sms_run_until_frame, sms_run_bounded, sms_run_until_cycle. rewrite Hd. cbv zeta. cbn [mbind option_bind]. by rewrite Hk.
Qed.

(** A permanent stop is permanent.  Once a run has stopped on an error of the program
    or of the platform, every later run of any kind and any target returns the
    same stop and leaves the machine as it was. *)
Theorem permanent_stop m (t_state : Z) m' (stop : SmsStop) (H : runnable m t_state)
    (Hrun : sms_run_until_cycle attached z80_run m t_state = Some (m', stop)) (Hstop : sms_stop_is_resumable (stop_kind stop) = false)
    (t frame budget frames : Z) :
  sms_run_until_cycle attached z80_run m' t = Some (m', stop) /\ sms_run_until_frame attached z80_run m' frame = Some (m', stop) /\
  sms_run_bounded attached z80_run m' budget frames = Some (m', stop).
Proof.
  apply dead_stays; [|done]. destruct (run_until_ended m t_state H) as (m1 & s1 & E & He). rewrite Hrun in E. injection E as <- <-.
  unfold ended in He. destruct (stop_kind stop); try done; by destruct He.
Qed.

(** ** Slices *)

Lemma ran_same m m' d : same m m' -> ran z80_run m d = ran z80_run m' d.
Proof. unfold same. intros H. transitivity (ran z80_run (clear m) d); [by rewrite run_clear|]. by rewrite H, run_clear. Qed.

(** The same machine up to the deadline, and the same stop. *)
Definition same_end (r r' : SmsMachine W * SmsStop) : Prop := same r.1 r'.1 /\ r.2 = r'.2.

Lemma die_same m m' k : same m m' -> same_end (die m k) (die m' k).
Proof.
  intros H. assert (E : make_stop m k = make_stop m' k) by by apply make_stop_proper. split; [|exact E]. cbn [die fst]. rewrite E.
  unfold same in *. apply (f_equal (fun m => set_dead m (Some (make_stop m' k)))) in H. exact H.
Qed.

Lemma run_loop_same fuel m m' t r : same m m' -> run_loop attached z80_run fuel m t = Some r ->
  exists r', run_loop attached z80_run fuel m' t = Some r' /\ same_end r r'.
Proof.
  destruct fuel as [|fuel]; intros H E; [discriminate E|]. rewrite run_loop_turn in *. cbv zeta in *.
  assert (Ec : cycles (z80 m) = cycles (z80 m')) by (by apply (f_equal (fun m => cycles (z80 m))) in H). rewrite <- Ec.
  set (m1 := advance_events attached m (cycles (z80 m))) in *. set (m2 := advance_events attached m' (cycles (z80 m))).
  assert (H1 : same m1 m2) by by apply (advance_proper attached). clearbody m1 m2.
  assert (Ec1 : cycles (z80 m1) = cycles (z80 m2)) by (by apply (f_equal (fun m => cycles (z80 m))) in H1).
  assert (Ed : slice_deadline m1 t = slice_deadline m2 t) by (by apply (f_equal (fun m => slice_deadline m t)) in H1).
  rewrite <- (failed_proper m1 m2 H1), <- Ec1, <- Ed. destruct (failed m1).
  { injection E as <-. eexists. split; [done|]. by apply die_same. }
  destruct (t <=? cycles (z80 m1)).
  { injection E as <-. eexists. split; [done|]. split; [exact H1|]. by apply make_stop_proper. }
  assert (Ht : same (trace_nmi m1 (slice_deadline m1 t)) (trace_nmi m2 (slice_deadline m1 t))) by by f_equiv.
  rewrite <- (ran_same _ _ _ Ht). exists r. split; [exact E|]. by split.
Qed.

(** Nothing is due yet. *)
Lemma advance_none m : in_time m -> failed m = false -> cycles (z80 m) < next_line m * 228 -> advance_events attached m (cycles (z80 m)) = m.
Proof.
  intros H Hf Hn. pose proof H as [[H1 H2] _]. pose proof (in_time_room m H) as Hr. rewrite (advance_unfold attached) by (done || lia). rewrite Hf. by rewrite (proj2 (Z.leb_gt _ _) Hn).
Qed.

Lemma run_loop_advanced fuel m t : in_time m -> run_loop attached z80_run fuel (advance_events attached m (cycles (z80 m))) t = run_loop attached z80_run fuel m t.
Proof. intros H. destruct fuel as [|fuel]; [done|]. rewrite !run_loop_turn. by rewrite (advance_again m H). Qed.

(** The same end, with some fuel. *)
Definition ends_as (t : Z) m (r : SmsMachine W * SmsStop) : Prop :=
  exists fuel r', run_loop attached z80_run fuel m t = Some r' /\ same_end r r'.

(** What a run cut at [t1] hands over: a machine whose run to [t2] is the whole run, or a
    stop the whole run has too. *)
Definition cut (t2 : Z) (whole m1 : SmsMachine W) (s1 : SmsStop) : Prop :=
  if sms_stop_is_resumable (stop_kind s1)
  then forall fuel r, run_loop attached z80_run fuel m1 t2 = Some r -> ends_as t2 whole r
  else ends_as t2 whole (m1, s1).

(** The turn in which the target falls before the next event: the first slice of it. *)
Lemma cut_slice m t1 t2 : in_time m -> failed m = false -> stop_on_halt_idle m = false -> cycles (z80 m) < t1 -> t1 <= t2 -> t2 <= 2 ^ 62 ->
  cycles (z80 m) < next_line m * 228 -> t1 < sms_next_event_cycles m ->
  let x := ran z80_run (trace_nmi m t1) t1 in
  slice_ok x = true -> (forall fuel r, run_loop attached z80_run fuel x t2 = Some r -> ends_as t2 m r).
Proof.
  intros H Hf Hh Hc H12 Ht Hn Hne x Hok fuel r E. assert (Ed1 : slice_deadline m t1 = t1) by (unfold slice_deadline; by rewrite (proj2 (Z.ltb_lt _ _) Hne)).
  set (d2 := slice_deadline m t2). assert (Hd2 : t1 <= d2 <= sms_next_event_cycles m) by (unfold d2, slice_deadline; destruct (Z.ltb_spec t2 (sms_next_event_cycles m)); lia).
  pose proof (slice_kept m t1 H Hf Hc ltac:(lia) Hn) as K. rewrite Ed1 in K. destruct (K Hok) as (X1 & X2 & X3 & X4 & X5). fold x in X1, X2, X3, X4, X5.
  destruct (trace_nmi_kept m t1) as [T1 T2 _ _]. assert (Ene : sms_next_event_cycles (trace_nmi m t1) = sms_next_event_cycles m) by (unfold sms_next_event_cycles; by rewrite T2).
  assert (Etr : trace_nmi m d2 = trace_nmi m t1) by (unfold trace_nmi; rewrite (proj2 (Z.ltb_lt (cycles (z80 m)) d2)), (proj2 (Z.ltb_lt _ _) Hc) by lia; done).
  assert (Esp : ran z80_run (trace_nmi m d2) d2 = ran z80_run x d2) by (rewrite Etr; symmetry; apply run_split; [rewrite Ene; lia|exact Hok]).
  set (z := ran z80_run x d2). assert (Hwhole : forall g, run_loop attached z80_run (S g) m t2 =
      if slice_ok z then if halt_idle z then Some (z, make_stop z SMS_STOP_HALT_IDLE) else run_loop attached z80_run g z t2
      else Some (die z (error_kind z))).
  { intros g. rewrite run_loop_turn. cbv zeta. rewrite advance_none, Hf by done. rewrite (proj2 (Z.leb_gt t2 (cycles (z80 m)))) by lia. fold d2. by rewrite Esp. }
  assert (Hfx : failed x = false) by (unfold slice_ok in Hok; by destruct (failed x)).
  destruct (Z.le_gt_cases d2 (cycles (z80 x))) as [L|G].
  - assert (Ez : z = set_outcome (set_z80 x (with_deadline (z80 x) d2)) (outcome_at (z80 x))) by (by apply run_past).
    destruct (run_reaches (trace_nmi m t1) t1) as [_ Ho]; [rewrite T1; lia|exact Hok|]. fold x in Ho.
    assert (Hs : same x z) by (rewrite Ez, <- Ho; done). assert (Hzok : slice_ok z = true) by (rewrite <- Hok; by apply (f_equal slice_ok) in Hs).
    assert (Hzh : halt_idle z = false) by (rewrite Ez; unfold halt_idle; cbn; by rewrite X4, Hh).
    destruct (run_loop_same fuel x z t2 r Hs E) as (r' & Er & Hr). exists (S fuel), r'. by rewrite Hwhole, Hzok, Hzh.
  - destruct fuel as [|fuel]; [discriminate E|]. exists (S fuel), r. split; [|done]. rewrite Hwhole, <- E, run_loop_turn. cbv zeta.
    assert (Hnx : cycles (z80 x) < next_line x * 228) by (rewrite X3; pose proof (next_event_exact m (in_time_room m H)); lia).
    rewrite advance_none, Hfx by done. assert (Ht2 : d2 <= t2) by (unfold d2, slice_deadline; destruct (Z.ltb_spec t2 (sms_next_event_cycles m)); lia).
    rewrite (proj2 (Z.leb_gt t2 (cycles (z80 x)))) by lia.
    assert (Edx : slice_deadline x t2 = d2) by (unfold d2, slice_deadline, sms_next_event_cycles; by rewrite X3). rewrite Edx.
    assert (Enx : trace_nmi x d2 = x); [|by rewrite Enx].
    unfold trace_nmi. cbv zeta. assert (Hnmi := run_nmi (trace_nmi m t1) t1). rewrite T1, Ene in Hnmi. specialize (Hnmi Hc ltac:(lia) Hok). fold x in Hnmi. by rewrite Hnmi.
Qed.

Lemma ends_advanced t m r : in_time m -> ends_as t (advance_events attached m (cycles (z80 m))) r -> ends_as t m r.
Proof. intros H (fuel & r' & E & Hr). exists fuel, r'. by rewrite <- run_loop_advanced. Qed.

(** A turn that does not stop leads the whole run to where it leads the cut one. *)
Lemma ends_turn t m r : in_time m -> failed m = false -> stop_on_halt_idle m = false -> cycles (z80 m) < t -> t <= 2 ^ 62 -> cycles (z80 m) < next_line m * 228 ->
  let x := ran z80_run (trace_nmi m (slice_deadline m t)) (slice_deadline m t) in
  (if slice_ok x then ends_as t x r else same_end r (die x (error_kind x))) -> ends_as t m r.
Proof.
  intros H Hf Hh Hc Ht Hn x Hx. assert (Hturn : forall g, run_loop attached z80_run (S g) m t =
      if slice_ok x then if halt_idle x then Some (x, make_stop x SMS_STOP_HALT_IDLE) else run_loop attached z80_run g x t
      else Some (die x (error_kind x))).
  { intros g. rewrite run_loop_turn. cbv zeta. rewrite advance_none, Hf by done. by rewrite (proj2 (Z.leb_gt t (cycles (z80 m)))) by lia. }
  destruct (slice_ok x) eqn:Eok.
  - destruct (slice_kept m t H Hf Hc Ht Hn Eok) as (_ & _ & _ & X4 & _). fold x in X4.
    assert (Hhi : halt_idle x = false) by (unfold halt_idle; by rewrite X4, Hh). rewrite Hhi in Hturn.
    destruct Hx as (fuel & r' & E & Hr). exists (S fuel), r'. by rewrite Hturn.
  - exists 1%nat. eexists. rewrite Hturn. by split.
Qed.

Lemma error_permanent m : sms_stop_is_resumable (stop_kind (make_stop m (error_kind m))) = false.
Proof. unfold error_kind. by destruct (failed m). Qed.

Lemma cut_mono t2 x m m1 s1 : (forall r, ends_as t2 x r -> ends_as t2 m r) -> cut t2 x m1 s1 -> cut t2 m m1 s1.
Proof. unfold cut. intros H. destruct (sms_stop_is_resumable _); [intros Hx g r Er; apply H; by apply (Hx g)|apply H]. Qed.

(** The target falls before the next event and its slice stops for good. *)
Lemma cut_stopped m t1 t2 : in_time m -> failed m = false -> stop_on_halt_idle m = false -> cycles (z80 m) < t1 -> t1 <= t2 -> t2 <= 2 ^ 62 ->
  cycles (z80 m) < next_line m * 228 -> t1 < sms_next_event_cycles m ->
  let x := ran z80_run (trace_nmi m t1) t1 in slice_ok x = false -> ends_as t2 m (die x (error_kind x)).
Proof.
  intros H Hf Hh Hc H12 Ht Hn Hne x Hok. apply (ends_turn t2); [done..|lia|done|done|]. set (d2 := slice_deadline m t2).
  assert (Hd2 : t1 <= d2 <= sms_next_event_cycles m) by (unfold d2, slice_deadline; destruct (Z.ltb_spec t2 (sms_next_event_cycles m)); lia).
  assert (Etr : trace_nmi m d2 = trace_nmi m t1) by (unfold trace_nmi; rewrite (proj2 (Z.ltb_lt (cycles (z80 m)) d2)), (proj2 (Z.ltb_lt _ _) Hc) by lia; done).
  rewrite Etr. destruct (trace_nmi_kept m t1) as [_ T2 _ _]. assert (Hs : same (ran z80_run (trace_nmi m t1) d2) x).
  { apply run_stopped; [by unfold trace_nmi; cbv zeta; destruct (_ && _)|unfold sms_next_event_cycles in *; rewrite T2; lia|exact Hok]. }
  assert (Eok2 : slice_ok (ran z80_run (trace_nmi m t1) d2) = false) by (rewrite <- Hok; by apply (f_equal slice_ok) in Hs). rewrite Eok2.
  unfold error_kind. rewrite (failed_proper _ _ Hs). apply die_same. by symmetry.
Qed.

Lemma run_cut fuel m t1 t2 m1 s1 : in_time m -> stop_on_halt_idle m = false -> t1 <= t2 -> t2 <= 2 ^ 62 ->
  run_loop attached z80_run fuel m t1 = Some (m1, s1) -> cut t2 m m1 s1.
Proof.
  revert m. induction fuel as [|fuel IH]; intros m H Hh H12 Ht E; [discriminate E|]. rewrite run_loop_turn in E. cbv zeta in E.
  destruct (advance_in_time m H) as (Hin & [_ A2 _] & _ & Hdone). rewrite Hh in A2. pose proof (advance_again m H) as Hagain. cbv zeta in Hagain.
  apply (cut_mono t2 (advance_events attached m (cycles (z80 m)))); [intros r; by apply ends_advanced|].
  set (x := advance_events attached m (cycles (z80 m))) in *. clearbody x. clear dependent m. rename x into m. destruct (failed m) eqn:Ef.
  { injection E as <- <-. unfold cut. exists 1%nat. eexists. rewrite run_loop_turn. cbv zeta. rewrite Hagain, Ef. split; [done|]. by split. }
  destruct Hdone as [Hx|Hdone]; [discriminate Hx|]. destruct (Z.leb_spec t1 (cycles (z80 m))) as [L|G].
  { injection E as <- <-. unfold cut. cbn. intros g r Er. exists g, r. split; [done|]. by split. }
  pose proof (slice_kept m t1 Hin Ef G ltac:(lia) Hdone) as K. cbv zeta in K.
  assert (Hx : forall x, stop_on_halt_idle x = false -> (if halt_idle x then Some (x, make_stop x SMS_STOP_HALT_IDLE) else run_loop attached z80_run fuel x t1) = Some (m1, s1) ->
    in_time x -> cut t2 x m1 s1).
  { intros x X4 Ex X1. assert (Hhi : halt_idle x = false) by (unfold halt_idle; by rewrite X4). rewrite Hhi in Ex. by apply IH. }
  clear IH. destruct (Z.lt_ge_cases t1 (sms_next_event_cycles m)) as [Lne|Gne].
  - assert (Ed : slice_deadline m t1 = t1) by (unfold slice_deadline; by rewrite (proj2 (Z.ltb_lt _ _) Lne)). rewrite Ed in E, K.
    destruct (slice_ok _) eqn:Eok.
    + destruct (K eq_refl) as (X1 & _ & _ & X4 & _). rewrite A2 in X4. pose proof (cut_slice m t1 t2 Hin Ef A2 G H12 Ht Hdone Lne Eok) as Hwhole.
      apply (cut_mono t2 (ran z80_run (trace_nmi m t1) t1)); [|by apply Hx]. intros r (g & r' & Er & [Ha Hb]).
      destruct (Hwhole g r' Er) as (g2 & r2 & Er2 & [Hc Hd]). exists g2, r2. split; [done|]. split; [by etransitivity|congruence].
    + injection E as <- <-. unfold cut. rewrite error_permanent. by apply cut_stopped.
  - assert (Ed : slice_deadline m t1 = slice_deadline m t2) by (unfold slice_deadline; rewrite !(proj2 (Z.ltb_ge _ _)) by lia; done). rewrite Ed in E, K.
    pose proof (fun r => ends_turn t2 m r Hin Ef A2 ltac:(lia) Ht Hdone) as Hturn. cbv zeta in Hturn. destruct (slice_ok _) eqn:Eok.
    + destruct (K eq_refl) as (X1 & _ & _ & X4 & _). rewrite A2 in X4. eapply cut_mono; [exact Hturn|]. by apply Hx.
    + injection E as <- <-. unfold cut. rewrite error_permanent. apply Hturn. by split.
Qed.

(** C16. Slicing changes nothing.  On a machine that has not stopped for good and does
    not stop on an idle halt, with any generated program that keeps its contract (one
    that looks at deadlines between instructions only, in particular), running to a
    target and then on to a later one of at most 2^62 T-states ends as running to the
    later one at once: the same stop and the same machine, the traces and the digest
    with it, up to the deadline field. *)
Theorem slices_compose m (t1 t2 : Z) (H : runnable m t2) (Htargets : 0 <= t1 <= t2) (Hhalt : stop_on_halt_idle m = false) :
  exists m1 s1 sliced whole,
    sms_run_until_cycle attached z80_run m t1 = Some (m1, s1) /\
    sms_run_until_cycle attached z80_run m1 t2 = Some sliced /\
    sms_run_until_cycle attached z80_run m t2 = Some whole /\ same_end sliced whole.
Proof.
  pose proof H as [Hin [_ Ht] Hdead]. assert (H1 : runnable m t1) by (split; [done|lia|done]).
  destruct (run_until_ended m t1 H1) as (m1 & s1 & E1 & He). destruct (run_until_ended m t2 H) as (m3 & s3 & E3 & _). exists m1, s1.
  pose proof E1 as Eloop. pose proof E3 as Eloop3. unfold sms_run_until_cycle in Eloop, Eloop3. rewrite Hdead in Eloop, Eloop3.
  pose proof (run_cut _ m t1 t2 m1 s1 Hin Hhalt (proj2 Htargets) Ht Eloop) as Hcut. unfold cut in Hcut.
  assert (Hend : forall r, ends_as t2 m r -> same_end r (m3, s3)).
  { intros r (g & r' & Er & Hr). pose proof (run_loop_more g (Nat.max g (run_fuel t2)) m t2 r' ltac:(lia) Er) as Ea.
    pose proof (run_loop_more (run_fuel t2) (Nat.max g (run_fuel t2)) m t2 (m3, s3) ltac:(lia) Eloop3) as Eb. rewrite Ea in Eb. by injection Eb as ->. }
  unfold ended in He. destruct (stop_kind s1) eqn:Ek; try done; cbn in Hcut.
  - destruct He as (_ & Hd & _ & _ & _ & Hin1 & _). destruct (run_until_ended m1 t2) as (m2 & s2 & E2 & _); [split; [done|lia|done]|].
    exists (m2, s2), (m3, s3). split; [done|]. split; [done|]. split; [done|]. apply Hend. unfold sms_run_until_cycle in E2. rewrite Hd in E2. by apply (Hcut (run_fuel t2)).
  - destruct He as (_ & _ & _ & Hx & _). congruence.
  - exists (m1, s1), (m3, s3). destruct He as [Hd _]. unfold sms_run_until_cycle at 2. rewrite Hd. split; [done|]. split; [done|]. split; [done|]. by apply Hend.
  - exists (m1, s1), (m3, s3). destruct He as [Hd _]. unfold sms_run_until_cycle at 2. rewrite Hd. split; [done|]. split; [done|]. split; [done|]. by apply Hend.
Qed.
End Running.

(** * Interrupt wiring *)

Section Wiring.
Context {W : Type} (attached : Attached W) {laws : DeviceLaws attached}.
Implicit Types m : SmsMachine W.

Definition sources_mask m : Z := match irq_sources (vdp attached) with Some sources => u8 (sources m .& (SMS_IRQ_FRAME .| SMS_IRQ_LINE)) | None => 0 end.

(** The line is the level of the sources the devices assert. *)
Definition wired m : Prop := irq_mask m = sources_mask m /\ int_line (z80 m) = (if sources_mask m =? 0 then 0 else 1).

(** What happens to a machine once it has been reset: callbacks, events, whatever else the
    program does to the CPU, and the calls of its owner. *)
Inductive reached : SmsMachine W -> Prop :=
| reach_reset m : reached (sms_machine_reset attached m)
| reach_cpu m s : reached m -> int_line s = int_line (z80 m) -> reached (set_z80 m s)
| reach_outcome m o : reached m -> reached (set_outcome m o)
| reach_events m time : reached m -> reached (advance_events attached m time)
| reach_read m address time : reached m -> reached (host_read attached m address time).1
| reach_write m address value time : reached m -> reached (host_write attached m address value time)
| reach_in m port time : reached m -> reached (host_io_in attached m port time).1
| reach_out m port value time : reached m -> reached (host_io_out attached m port value time)
| reach_acknowledge m time : reached m -> reached (host_interrupt_acknowledge attached m time).1
| reach_nmi m d : reached m -> reached (trace_nmi m d)
| reach_die m kind : reached m -> reached (die m kind).1
| reach_input m events : reached m -> reached (sms_machine_set_input m events)
| reach_traces m irq n mapper k : reached m -> reached (sms_machine_set_traces m irq n mapper k).

Lemma mask_devices m m' : devices m = devices m' -> sources_mask m = sources_mask m'.
Proof.
  intros E. unfold sources_mask. destruct (irq_sources (vdp attached)) as [sources|] eqn:Es; [|done]. by rewrite (sources_devices sources m m' Es E).
Qed.

Lemma wired_keeps m m' : wired m -> devices m' = devices m -> irq_mask m' = irq_mask m -> int_line (z80 m') = int_line (z80 m) -> wired m'.
Proof. intros [H1 H2] E1 E2 E3. unfold wired. rewrite (mask_devices m' m E1), E2, E3. done. Qed.

Lemma trace_edge_wires mask changed bit source t m : devices (trace_edge mask changed bit source t m) = devices m.
Proof. unfold trace_edge. by destruct (has_bit changed bit). Qed.

Lemma sample_wired m t : wired (sample_irq attached m t).
Proof.
  set (x := sample_irq attached m t). assert (Ed : devices x = devices m).
  { unfold x, sample_irq. cbv zeta. set (mask := match irq_sources _ with Some _ => _ | None => _ end). cbn [set_z80 devices].
    destruct (negb _); [|done]. cbn [set_irq_mask devices]. by rewrite !trace_edge_wires. }
  unfold wired. rewrite (mask_devices x m Ed). unfold x, sample_irq. cbv zeta. fold (sources_mask m). set (mask := sources_mask m). cbn [set_z80 z80 int_line with_int_line irq_mask].
  split; [|by destruct (mask =? 0)]. destruct (Z.eqb_spec (Z.lxor mask (irq_mask m)) 0) as [E|N]; cbn [negb]; [|done]. by apply Z.lxor_eq in E.
Qed.

Lemma line_event_wired m : wired (line_event attached m).
Proof. rewrite line_event_body. unfold line_body. cbv zeta. eapply wired_keeps; [apply sample_wired|done..]. Qed.

Lemma advance_wired m time : wired m -> wired (advance_events attached m time).
Proof.
  unfold advance_events. generalize (Z.to_nat (time / SMS_CYCLES_PER_LINE + 1 - next_line m)) as fuel. intros fuel. revert m.
  induction fuel as [|fuel IH]; intros m H; cbn [advance_loop]; [done|]. destruct (event_due m time); [|done]. apply IH, line_event_wired.
Qed.

Lemma set_mem_wired m x : wired m -> wired (set_mem m x).
Proof. intros H. by eapply wired_keeps. Qed.

Lemma request_wired m : wired m -> wired (request_stop m).
Proof. intros H. by eapply wired_keeps. Qed.

Lemma stop_wired m : wired m -> wired (stop_if_failed m).
Proof. intros H. unfold stop_if_failed. destruct (failed m); [by apply request_wired|done]. Qed.

Lemma host_in_wired m port time : wired m -> wired (host_io_in attached m port time).1.
Proof.
  intros H. unfold host_io_in. cbv zeta. apply (advance_wired m time) in H. destruct (failed _); [done|]. destruct (sms_port_owner _ =b SMS_OWNER_NONE); [done|].
  destruct (_ && _); [done|]. destruct (device_for _ _ ≫= dev_read) as [f|].
  - destruct (f _ _ _) as [m' value]. apply sample_wired.
  - apply request_wired, set_mem_wired, H.
Qed.

Lemma host_out_wired m port value time : wired m -> wired (host_io_out attached m port value time).
Proof.
  intros H. unfold host_io_out. cbv zeta. apply (advance_wired m time) in H. destruct (failed _); [done|]. destruct (sms_port_owner _ =b SMS_OWNER_NONE); [done|].
  destruct (sms_port_owner _ =b SMS_OWNER_MEMORY); [by apply stop_wired, set_mem_wired|]. destruct (device_for _ _ ≫= dev_write) as [f|].
  - apply sample_wired.
  - apply request_wired, set_mem_wired, H.
Qed.

Lemma host_memory_wired m address value time : wired m ->
  wired (host_read attached m address time).1 /\ wired (host_write attached m address value time) /\ wired (host_interrupt_acknowledge attached m time).1.
Proof.
  intros H. apply (advance_wired m time) in H. split; [|split].
  - unfold host_read. cbv zeta. destruct (sms_memory_read _ _ _) as [x v]. cbn [fst]. by apply stop_wired, set_mem_wired.
  - unfold host_write. cbv zeta. destruct (failed _); [by apply request_wired, set_mem_wired|]. destruct (_ && _); by eapply wired_keeps.
  - unfold host_interrupt_acknowledge. cbv zeta. cbn [fst]. set (m1 := if has_bit _ SMS_IRQ_FRAME then _ else _).
    assert (H1 : wired m1) by (unfold m1; destruct (has_bit _ _); [by eapply wired_keeps|done]). clearbody m1. destruct (has_bit _ _); [by apply (wired_keeps m1)|done].
Qed.

(** INT is the level the devices drive.  From a reset on, whatever the program, the
    events and the owner do, the mask is the set of sources the devices assert and the CPU's
    interrupt line is raised exactly while that set is not empty. *)
Theorem interrupts_wired m (H : reached m) : wired m.
Proof.
  induction H as [m|m s _ IH E|m o _ IH|m time _ IH|m address time _ IH|m address value time _ IH|m port time _ IH|m port value time _ IH|m time _ IH|m d _ IH|m kind _ IH|m events _ IH|m irq n mapper k _ IH].
  - apply sample_wired.
  - by eapply wired_keeps.
  - by eapply wired_keeps.
  - by apply advance_wired.
  - by apply (host_memory_wired m address 0 time).
  - by apply (host_memory_wired m address value time).
  - by apply host_in_wired.
  - by apply host_out_wired.
  - by apply (host_memory_wired m 0 0 time).
  - unfold trace_nmi. cbv zeta. destruct (_ && _); by eapply wired_keeps.
  - by eapply wired_keeps.
  - by eapply wired_keeps.
  - by eapply wired_keeps.
Qed.
End Wiring.

(** * A machine *)

#[export] Instance installed_laws : DeviceLaws installed.
Proof.
  split.
  - intros event m frame line t E. injection E as <-. destruct (sms_vdp_scanline _ _ _ _ _ _ _) as [[v u] [sink|]]; done.
  - intros event m frame line t E. injection E as <-. cbn [clear set_z80 devices mem]. destruct (sms_vdp_scanline _ _ _ _ _ _ _) as [[v u] [sink|]]; done.
  - intros sources m m' E Ed. injection E as <-. by rewrite Ed.
Qed.

(** A program of instructions that only take four T-states, an NMI apart. *)
Definition idle_to (c d : Z) : Z := if d <=? c then c else c + 4 * ((d - c + 3) / 4).
Definition nops_state (s : Z80State) (d : Z) : Z80State :=
  let s := if d <=? cycles s then s else if set_flag (in_prefix_run s) then s else with_nmi s 0 0 in
  with_deadline (with_time s (idle_to (cycles s) d) (r s)) d.
Definition nops (m : SmsMachine SmsDevices) (d : Z) : SmsMachine SmsDevices * Z80Outcome :=
  let m := set_z80 m (nops_state (z80 m) d) in (m, outcome_at (z80 m)).

Lemma idle_to_bounds c d : Z.max c d <= idle_to c d < Z.max c d + 4.
Proof. unfold idle_to. destruct (Z.leb_spec d c); [lia|]. Z.to_euclidean_division_equations. lia. Qed.

Lemma idle_to_twice c d1 d2 : d1 <= d2 -> idle_to (idle_to c d1) d2 = idle_to c d2.
Proof.
  intros H. unfold idle_to. destruct (Z.leb_spec d1 c) as [L1|G1]; [done|]. rewrite (proj2 (Z.leb_gt d2 c)) by lia.
  destruct (Z.leb_spec d2 (c + 4 * ((d1 - c + 3) / 4))) as [L2|G2]; Z.to_euclidean_division_equations; lia.
Qed.

Lemma nops_cycles s d : cycles (nops_state s d) = idle_to (cycles s) d.
Proof. unfold nops_state. cbv zeta. destruct (_ <=? _); [done|]. by destruct (set_flag _). Qed.

Lemma with_time_same s : with_time s (cycles s) (r s) = s.
Proof. by destruct s. Qed.

Lemma nops_twice s d1 d2 : d1 <= d2 -> nops_state (nops_state s d1) d2 = nops_state s d2.
Proof.
  intros H. unfold nops_state at 1. rewrite nops_cycles. pose proof (idle_to_bounds (cycles s) d1) as B. pose proof (idle_to_twice (cycles s) d1 d2 H) as T.
  unfold nops_state. cbv zeta. destruct s as [g s_f s_sp s_pc s_wz s_i s_r s_im s_iff1 s_iff2 s_q s_halt s_def s_ir s_prefix s_int s_nmi s_reject s_cycles s_deadline].
  cbn [cycles] in *. destruct (Z.leb_spec d1 s_cycles) as [L1|G1].
  - assert (E1 : idle_to s_cycles d1 = s_cycles) by (unfold idle_to; by rewrite (proj2 (Z.leb_le _ _) L1)).
    cbn [in_prefix_run cycles r with_time with_deadline with_nmi]. rewrite E1. cbn [in_prefix_run cycles r with_time with_deadline with_nmi]. destruct (d2 <=? s_cycles); [done|]. by destruct (set_flag s_prefix).
  - rewrite (proj2 (Z.leb_gt d2 s_cycles)) by lia. cbn [in_prefix_run with_nmi with_time with_deadline]. destruct (set_flag s_prefix) eqn:Ex;
      cbn [cycles r in_prefix_run with_time with_deadline with_nmi]; destruct (_ <=? _); rewrite ?Ex;
      cbn [cycles r in_prefix_run with_time with_deadline with_nmi]; by rewrite T.
Qed.

#[export] Instance nops_program : Z80Program nops.
Proof.
  split; unfold ran, nops; cbn [set_outcome set_z80 z80 rt_outcome next_line stop_on_halt_idle dead_stop]; intros m d.
  - intros _ _. rewrite nops_cycles. pose proof (idle_to_bounds (cycles (z80 m)) d). split; [lia|done].
  - intros _ _. rewrite nops_cycles. pose proof (idle_to_bounds (cycles (z80 m)) d). lia.
  - intros H. assert (E : nops_state (z80 m) d = with_deadline (z80 m) d); [|by rewrite E].
    unfold nops_state, idle_to. cbv zeta. rewrite !(proj2 (Z.leb_le d _) H). by rewrite with_time_same.
  - done.
  - intros H _ _. unfold nops_state. cbv zeta. rewrite (proj2 (Z.leb_gt _ _) H). destruct (set_flag (in_prefix_run (z80 m))) eqn:E; cbn; [by rewrite E, andb_false_r|done].
  - unfold clear. cbn [set_z80 z80]. assert (E : nops_state (with_deadline (z80 m) 0) d = nops_state (z80 m) d); [|by rewrite E].
    unfold nops_state. cbv zeta. cbn [with_deadline cycles in_prefix_run]. destruct (_ <=? _); [done|]. by destruct (set_flag _).
  - intros d2 [H _] _. by rewrite (nops_twice _ d d2).
  - intros d2 Hf [H _] Hok. exfalso. unfold slice_ok in Hok. change (failed (set_outcome _ _)) with (failed m) in Hok. rewrite Hf in Hok. cbn in Hok.
    unfold outcome_at in Hok. destruct (set_flag _); [discriminate Hok|]. by destruct (set_flag _).
Qed.

(** A machine whose VDP has the registers of its reset, and one whose mode is not
    supported with the display on. *)
Definition with_registers (registers : list Z) : SmsMachine SmsDevices :=
  zero_machine (mkDevices (mkVdp [] [] registers (port blank) (flags blank) (counters blank) (traced blank)) sms_pad_reset).
Definition lit : SmsMachine SmsDevices := with_registers reset_registers.
Definition dark : SmsMachine SmsDevices := with_registers [0; 0x40].

Lemma lit_runnable t : 0 <= t <= 2 ^ 62 -> runnable lit t.
Proof. intros Ht. split; [split; cbn; lia|done|done]. Qed.

Lemma advance_events_exact_witness :
  line_room (next_line lit) /\
  advance_events installed lit 1000 = events_in_order installed (seqZ (next_line lit) (1000 / 228 + 1 - next_line lit)) lit /\
  advance_events installed (advance_events installed lit 300) 1000 = advance_events installed lit 1000.
Proof. assert (H : line_room (next_line lit)) by (split; cbn; lia). split; [exact H|]. apply (advance_events_exact installed lit 300 1000 H); lia. Defined.

Lemma run_ends_witness :
  exists m' stop, sms_run_until_cycle installed nops lit 60000 = Some (m', stop) /\ ended 60000 (stop_on_halt_idle lit) m' stop.
Proof. apply (run_ends installed nops lit 60000). apply lit_runnable. lia. Defined.

Lemma slices_compose_witness : exists m1 s1 sliced whole,
  sms_run_until_cycle installed nops lit 1001 = Some (m1, s1) /\ sms_run_until_cycle installed nops m1 60000 = Some sliced /\
  sms_run_until_cycle installed nops lit 60000 = Some whole /\ same_end sliced whole.
Proof. apply (slices_compose installed nops lit 1001 60000); [apply lit_runnable; lia|lia|reflexivity]. Defined.

Lemma dark_dies : exists m' stop, sms_run_until_cycle installed nops dark 100 = Some (m', stop) /\ sms_stop_is_resumable (stop_kind stop) = false.
Proof.
  exists (die (advance_events installed dark 0) SMS_STOP_PLATFORM_ERROR).1, (make_stop (advance_events installed dark 0) SMS_STOP_PLATFORM_ERROR).
  split; [|reflexivity]. unfold sms_run_until_cycle. change (dead_stop dark) with (@None SmsStop). cbv iota. unfold run_fuel. 
  change (Z.to_nat (100 / SMS_CYCLES_PER_LINE + 3)) with 3%nat. rewrite run_loop_turn. cbv zeta. change (cycles (z80 dark)) with 0.
  assert (E : failed (advance_events installed dark 0) = true) by (vm_compute; reflexivity). by rewrite E.
Qed.

Lemma permanent_stop_witness : exists m' stop,
  sms_run_until_cycle installed nops dark 100 = Some (m', stop) /\ sms_stop_is_resumable (stop_kind stop) = false /\
  sms_run_until_cycle installed nops m' 1000 = Some (m', stop) /\ sms_run_until_frame installed nops m' 3 = Some (m', stop) /\
  sms_run_bounded installed nops m' 500 SMS_NO_LIMIT = Some (m', stop).
Proof.
  destruct dark_dies as (m' & stop & E & Hs). exists m', stop. split; [exact E|]. split; [exact Hs|].
  apply (permanent_stop installed nops dark 100 m' stop); [|exact E|exact Hs]. split; [split; cbn; lia|lia|reflexivity].
Defined.

Lemma interrupts_wired_witness : wired installed (host_io_in installed (advance_events installed (sms_machine_reset installed lit) 60000) 0xBF 60000).1.
Proof. apply (interrupts_wired installed). apply reach_in, reach_events, reach_reset. Defined.
