(* ===== verification/SmsRender.v ===== *)
(** The Mode 4 renderer of [sms_render.h] and [sms_render.c]: the background, the sprites
    and their flags, the frames and their records, and the extension at the sides.

    The renderer's VDP is passed beside it and returned with the flags a line sets. *)

From S2P Require Import Prelude SmsMemory SmsSha256 SmsVdp.

Definition SMS_FB_WIDTH : Z := 256.
Definition SMS_FB_MAX_HEIGHT : Z := 224.
Definition SMS_FB_MAX_BYTES : Z := SMS_FB_WIDTH * SMS_FB_MAX_HEIGHT.
Definition SMS_SPRITES_PER_LINE : Z := 8.
Definition SMS_EXT_SPILL_LEFT : Z := 8.
Definition SMS_EXT_SPILL_RIGHT : Z := 15.
Definition SMS_EXT_MAX_SIDE : Z := 80.

Definition R0_VSCROLL_LOCK : Z := 0x80.
Definition R0_HSCROLL_LOCK : Z := 0x40.
Definition R0_LEFT_BLANK : Z := 0x20.
Definition R0_SPRITE_SHIFT : Z := 0x08.
Definition R1_SPRITE_8X16 : Z := 0x02.
Definition R1_SPRITE_ZOOM : Z := 0x01.

Inductive SmsExtClass : Type := SMS_EXT_NONE | SMS_EXT_WRAPPED | SMS_EXT_DISTINCT | SMS_EXT_UNAVAILABLE.
Inductive SmsExtReason : Type :=
| SMS_EXT_REASON_NONE | SMS_EXT_REASON_LEFT_MASK | SMS_EXT_REASON_VSCROLL_LOCK | SMS_EXT_REASON_GEOMETRY | SMS_EXT_REASON_INCOMPLETE.

#[export] Instance SmsExtReason_eq_dec : EqDecision SmsExtReason.
Proof. solve_decision. Defined.

Record SmsFrameRecord := mkFrameRecord { rec_frame : Z; rec_height : Z; rec_trace_count : Z; rec_sha256 : list Z }.

Record SmsExtResult := mkExtResult {
  sequence : Z; res_height : Z; res_side : Z; cls : SmsExtClass; reason : SmsExtReason; res_sprites : Z; sprite_pixels : Z
}.

(** The host's request. *)
Record ExtRequest := mkRequest { request_side_192 : Z; request_side_224 : Z; request_sprites : Z }.
(** The state of the frame in progress; the rows of both sides, by line. *)
Record ExtWork := mkWork {
  side : Z; sprites : Z; work_sprite_pixels : Z; ok_lines : Z; geometry_fail : Z; first_reason : SmsExtReason;
  work_left : list (list Z); work_right : list (list Z)
}.

Record SmsExtension := mkExtension {
  request : ExtRequest;
  work : ExtWork;
  ext_result : SmsExtResult;
  ext_left : list (list Z);
  ext_right : list (list Z);
  unsupported_frames : Z;
}.

(** [records] is [None] when null. *)
Record FrameRecords := mkRecords { records : option (list SmsFrameRecord); record_capacity : Z; record_count : Z; record_dropped : Z }.

Record SmsRenderer := mkRenderer {
  ext : option SmsExtension;
  pixels : list Z;
  last : list Z;
  height : Z;
  last_height : Z;
  last_frame : Z;
  vscroll : Z;
  in_frame : Z;
  frames_completed : Z;
  frame_records : FrameRecords;
}.

Definition no_result : SmsExtResult := mkExtResult 0 0 0 SMS_EXT_NONE SMS_EXT_REASON_NONE 0 0.

Definition sms_renderer_init (records : option (list SmsFrameRecord)) (capacity : Z) : SmsRenderer :=
  mkRenderer None (zeros SMS_FB_MAX_BYTES) (zeros SMS_FB_MAX_BYTES) 0 0 0 0 0 0 (mkRecords records capacity 0 0).

(** ** Patterns *)

(** [(p >> bit) & 1u] *)
Definition plane_bit (byte bit : Z) : Z := (byte .>> bit) .& 1.

Definition pattern_pixel (vram : list Z) (pattern row col : Z) : Z :=
  let p := u32 (pattern * 32 + row * 4) .& (SMS_VDP_VRAM_SIZE - 1) in
  let bit := 7 - col in
  plane_bit (znth vram p 0) bit .| (plane_bit (znth vram (p + 1) 0) bit .<< 1) .| (plane_bit (znth vram (p + 2) 0) bit .<< 2) .|
  (plane_bit (znth vram (p + 3) 0) bit .<< 3).

(** ** The extension *)

Definition sms_extension_reset (e : option SmsExtension) : option SmsExtension :=
  match e with
  | None => None
  | Some e => Some (mkExtension (request e) (mkWork 0 0 0 0 0 SMS_EXT_REASON_NONE (work_left (work e)) (work_right (work e))) no_result (ext_left e) (ext_right e) 0)
  end.

Definition sms_ext_class_name (c : SmsExtClass) : string :=
  match c with SMS_EXT_NONE => "none" | SMS_EXT_WRAPPED => "wrapped" | SMS_EXT_DISTINCT => "distinct" | SMS_EXT_UNAVAILABLE => "unavailable" end%string.

Definition sms_ext_reason_name (r : SmsExtReason) : string :=
  match r with
  | SMS_EXT_REASON_NONE => "none" | SMS_EXT_REASON_LEFT_MASK => "left_column_mask" | SMS_EXT_REASON_VSCROLL_LOCK => "vscroll_lock"
  | SMS_EXT_REASON_GEOMETRY => "geometry" | SMS_EXT_REASON_INCOMPLETE => "incomplete_frame"
  end%string.

Definition set_work (e : SmsExtension) (w : ExtWork) : SmsExtension := mkExtension (request e) w (ext_result e) (ext_left e) (ext_right e) (unsupported_frames e).

Definition ext_begin_frame (e : SmsExtension) (height : Z) : SmsExtension :=
  let want := if height =? 224 then request_side_224 (request e) else request_side_192 (request e) in
  let geometry_fail := if SMS_EXT_MAX_SIDE <? want then 1 else 0 in
  let side := if negb (geometry_fail =? 0) then 0 else want in
  let sprites := if negb (side =? 0) && negb (request_sprites (request e) =? 0) then 1 else 0 in
  set_work e (mkWork side sprites 0 0 geometry_fail SMS_EXT_REASON_NONE (work_left (work e)) (work_right (work e))).

(** A row of an array of rows. *)
Definition set_row (rows : list (list Z)) (l : Z) (row : list Z) : list (list Z) := <[Z.to_nat l := row]> rows.
Definition row_at (rows : list (list Z)) (l : Z) : list Z := nth (Z.to_nat l) rows [].

Definition ext_fail_line (e : SmsExtension) (l : Z) (why : SmsExtReason) : SmsExtension :=
  let w := work e in
  set_work e (mkWork (side w) (sprites w) (work_sprite_pixels w) (ok_lines w) (geometry_fail w)
    (if first_reason w =b SMS_EXT_REASON_NONE then why else first_reason w)
    (set_row (work_left w) l (zeros SMS_EXT_MAX_SIDE)) (set_row (work_right w) l (zeros SMS_EXT_MAX_SIDE))).

(** A background pixel; palette 255 is the backdrop. *)
Record BgPixel := mkBg { bg_color : Z; bg_prio : Z; bg_pal : Z }.
Definition bg_none : BgPixel := mkBg 0 0 0.
Definition bg_at (bg : list BgPixel) (x : Z) : BgPixel := nth (Z.to_nat x) bg bg_none.

Definition bg_value (v : SmsVdp) (backdrop : Z) (p : BgPixel) : Z :=
  if bg_pal p =? 255 then backdrop else u8 (znth (cram v) (bg_pal p * 16 + bg_color p) 0 .& 0x3F).

(** [values] over the start of a row. *)
Definition over_row (row values : list Z) : list Z := values ++ drop (length values) row.

(** [None] is the null background of a disabled display; the flag says whether the line
    was produced. *)
Definition ext_emit_line (e : SmsExtension) (v : SmsVdp) (l r0 : Z) (bg : option (list BgPixel)) (backdrop : Z) : SmsExtension * bool :=
  let w := work e in
  let sample (x : Z) := match bg with Some bg => bg_value v backdrop (bg_at bg x) | None => backdrop end in
  if match bg with Some _ => has_bit r0 R0_LEFT_BLANK | None => false end then (ext_fail_line e l SMS_EXT_REASON_LEFT_MASK, false)
  else if match bg with Some _ => has_bit r0 R0_VSCROLL_LOCK | None => false end then (ext_fail_line e l SMS_EXT_REASON_VSCROLL_LOCK, false)
  else
    (set_work e (mkWork (side w) (sprites w) (work_sprite_pixels w) (u32 (ok_lines w + 1)) (geometry_fail w) (first_reason w)
       (set_row (work_left w) l (over_row (row_at (work_left w) l) (map (fun i => sample (SMS_FB_WIDTH - side w + i)) (seqZ 0 (side w)))))
       (set_row (work_right w) l (over_row (row_at (work_right w) l) (map sample (seqZ 0 (side w)))))), true).

(** The background hides a sprite. *)
Definition hides (p : BgPixel) : bool := negb (bg_prio p =? 0) && negb (bg_color p =? 0) && negb (bg_pal p =? 255).

(** A spilled pixel: the value that replaces the sample, if it is seen. *)
Definition spilled (v : SmsVdp) (c : Z) (p : BgPixel) : option Z :=
  if negb (c =? 0) && negb (hides p) then Some (u8 (znth (cram v) (16 + c) 0 .& 0x3F)) else None.

Definition spill_left_pixel (v : SmsVdp) (l i : Z) (bg : list BgPixel) (left : list Z) (w : ExtWork) : ExtWork :=
  let dx := i - side w in
  if - SMS_EXT_SPILL_LEFT <=? dx then
    match spilled v (znth left (dx + SMS_EXT_SPILL_LEFT) 0) (bg_at bg (SMS_FB_WIDTH - side w + i)) with
    | Some x =>
        mkWork (side w) (sprites w) (u32 (work_sprite_pixels w + 1)) (ok_lines w) (geometry_fail w) (first_reason w)
          (set_row (work_left w) l (<[Z.to_nat i := x]> (row_at (work_left w) l))) (work_right w)
    | None => w
    end
  else w.

Definition spill_right_pixel (v : SmsVdp) (l i : Z) (bg : list BgPixel) (right : list Z) (w : ExtWork) : ExtWork :=
  if i <? SMS_EXT_SPILL_RIGHT then
    match spilled v (znth right i 0) (bg_at bg i) with
    | Some x =>
        mkWork (side w) (sprites w) (u32 (work_sprite_pixels w + 1)) (ok_lines w) (geometry_fail w) (first_reason w) (work_left w)
          (set_row (work_right w) l (<[Z.to_nat i := x]> (row_at (work_right w) l)))
    | None => w
    end
  else w.

Definition ext_spill_sprites (e : SmsExtension) (v : SmsVdp) (l : Z) (bg : list BgPixel) (left right : list Z) : SmsExtension :=
  set_work e (zfor 0 (side (work e)) (fun i w => spill_right_pixel v l i bg right (spill_left_pixel v l i bg left w)) (work e)).

Definition ext_finish_frame (r : SmsRenderer) (e : SmsExtension) : SmsExtension :=
  let w := work e in
  let result := mkExtResult (frames_completed r) (height r) in
  let published (res : SmsExtResult) := mkExtension (request e) w res (ext_left e) (ext_right e) (unsupported_frames e) in
  if negb (geometry_fail w =? 0) then published (result 0 SMS_EXT_UNAVAILABLE SMS_EXT_REASON_GEOMETRY 0 0)
  else if side w =? 0 then published (result 0 SMS_EXT_NONE SMS_EXT_REASON_NONE 0 0)
  else if ok_lines w =? height r then
    mkExtension (request e) w
      (result (side w) SMS_EXT_WRAPPED SMS_EXT_REASON_NONE (sprites w) (if negb (sprites w =? 0) then work_sprite_pixels w else 0))
      (work_left w) (work_right w) (unsupported_frames e)
  else
    published (result 0 SMS_EXT_UNAVAILABLE
      (if negb (first_reason w =b SMS_EXT_REASON_NONE) then first_reason w else SMS_EXT_REASON_INCOMPLETE) 0 0).

(** ** Frames *)

Definition set_ext (r : SmsRenderer) (e : option SmsExtension) : SmsRenderer :=
  mkRenderer e (pixels r) (last r) (height r) (last_height r) (last_frame r) (vscroll r) (in_frame r) (frames_completed r) (frame_records r).

Definition frame_sha256 (bytes : list Z) : list Z := sms_sha256_final (sms_sha256_update (sms_sha256_init (zeros 64)) bytes).

(** [memcpy] of the frame in progress. *)
Definition completed (r : SmsRenderer) : list Z := over_row (last r) (take (Z.to_nat (SMS_FB_WIDTH * height r)) (pixels r)).

Definition add_record (q : FrameRecords) (rec : SmsFrameRecord) : FrameRecords :=
  match records q with
  | Some rs =>
      if record_count q <? record_capacity q
      then mkRecords (Some (<[Z.to_nat (record_count q) := rec]> rs)) (record_capacity q) (u32 (record_count q + 1)) (record_dropped q)
      else mkRecords (records q) (record_capacity q) (record_count q) (u32 (record_dropped q + 1))
  | None => mkRecords (records q) (record_capacity q) (record_count q) (u32 (record_dropped q + 1))
  end.

Definition finish_frame (r : SmsRenderer) (v : SmsVdp) : SmsRenderer :=
  let shown := completed r in
  let rec := mkFrameRecord (frame (counters v)) (height r) (trace_count (traced v)) (frame_sha256 (take (Z.to_nat (SMS_FB_WIDTH * height r)) shown)) in
  let r :=
    mkRenderer (ext r) (pixels r) shown (height r) (height r) (frame (counters v)) (vscroll r) 0 (u64 (frames_completed r + 1))
      (add_record (frame_records r) rec) in
  match ext r with Some e => set_ext r (Some (ext_finish_frame r e)) | None => r end.

(** ** The background *)

(** Pixel [x] of a line: the fine-scroll gap, or the pixel of the name table's tile. *)
Definition bg_pixel (v : SmsVdp) (tall : bool) (vscroll l x : Z) : BgPixel :=
  let r0 := znth (reg v) 0 0 in
  let name_base := if tall then ((znth (reg v) 2 0 .& 0x0C) .<< 10) .| 0x700 else (znth (reg v) 2 0 .& 0x0E) .<< 10 in
  let hscroll := if has_bit r0 R0_HSCROLL_LOCK && (l <? 16) then 0 else znth (reg v) 8 0 in
  let fine := hscroll .& 7 in
  let vs := if has_bit r0 R0_VSCROLL_LOCK && (24 <=? x .>> 3) then 0 else vscroll in
  let src := u32 (x - hscroll) .& 255 in
  if x <? fine then mkBg 0 0 255
  else
    let ry := if tall then u32 (l + vs) .& 255 else u32 (l + vs) mod 224 in
    let row := ry .>> 3 in
    let col := src .>> 3 in
    let nt := u32 (name_base + row * 64 + col * 2) .& (SMS_VDP_VRAM_SIZE - 1) in
    let entry := znth (vram v) nt 0 .| (znth (vram v) (nt + 1) 0 .<< 8) in
    let prow := if has_bit entry 0x400 then 7 - (ry .& 7) else ry .& 7 in
    let pixel_in_tile := if has_bit entry 0x200 then 7 - (src .& 7) else src .& 7 in
    mkBg (u8 (pattern_pixel (vram v) (entry .& 0x1FF) prow pixel_in_tile)) (u8 ((entry .>> 12) .& 1)) (u8 ((entry .>> 11) .& 1)).

Definition background (v : SmsVdp) (tall : bool) (vscroll l : Z) : list BgPixel := map (bg_pixel v tall vscroll l) (seqZ 0 SMS_FB_WIDTH).

(** ** Sprites *)

Record SpriteHit := mkHit { x_index : Z; hit_row : Z }.

(** What the registers say of the sprites of a line. *)
Record SpriteSetup := mkSetup { sat : Z; zoom : Z; sprite_height : Z; pattern_base : Z }.

Definition sprite_setup (v : SmsVdp) : SpriteSetup :=
  let r1 := znth (reg v) 1 0 in
  let zoom := if has_bit r1 R1_SPRITE_ZOOM then 2 else 1 in
  mkSetup ((znth (reg v) 5 0 .& 0x7E) .<< 7) zoom ((if has_bit r1 R1_SPRITE_8X16 then 16 else 8) * zoom)
    (if has_bit (znth (reg v) 6 0) 0x04 then 256 else 0).

(** The scan of the attribute table from sprite [i]: the hits and the overflow. *)
Fixpoint scan_sprites (fuel : nat) (v : SmsVdp) (s : SpriteSetup) (tall : bool) (l i : Z) (hits : list SpriteHit) : list SpriteHit * bool :=
  match fuel with
  | O => (hits, false)
  | S fuel =>
      let y := znth (vram v) (u32 (sat s + i) .& (SMS_VDP_VRAM_SIZE - 1)) 0 in
      if negb tall && (y =? 0xD0) then (hits, false)
      else
        let rel := u32 (l - (y + 1)) .& 255 in
        if sprite_height s <=? rel then scan_sprites fuel v s tall l (i + 1) hits
        else if zlen hits =? SMS_SPRITES_PER_LINE then (hits, true)
        else scan_sprites fuel v s tall l (i + 1) (hits ++ [mkHit (u8 i) (u8 (rel / zoom s))])
  end.

(** The line's sprite pixels so far, those just outside it, and the collision. *)
Record SpriteLine := mkSpriteLine { spr_color : list Z; spill_left : list Z; spill_right : list Z; collision : bool }.

(** A hit's place and pattern. *)
Definition hit_x (v : SmsVdp) (s : SpriteSetup) (hit : SpriteHit) : Z :=
  let base := u32 (sat s + 0x80 + 2 * x_index hit) .& (SMS_VDP_VRAM_SIZE - 1) in
  znth (vram v) base 0 - (if has_bit (znth (reg v) 0 0) R0_SPRITE_SHIFT then 8 else 0).
Definition hit_pattern (v : SmsVdp) (s : SpriteSetup) (hit : SpriteHit) : Z :=
  let base := u32 (sat s + 0x80 + 2 * x_index hit) .& (SMS_VDP_VRAM_SIZE - 1) in
  let tile := znth (vram v) (base + 1) 0 in
  let tile := if has_bit (znth (reg v) 1 0) R1_SPRITE_8X16 then tile .& 0xFE else tile in
  u32 (tile + pattern_base s) + (hit_row hit .>> 3).
Definition hit_color (v : SmsVdp) (s : SpriteSetup) (hit : SpriteHit) (px : Z) : Z :=
  pattern_pixel (vram v) (hit_pattern v s hit) (hit_row hit .& 7) (px / zoom s).

(** The first opaque pixel in table order wins. *)
Definition keep_first (slots : list Z) (i color : Z) : list Z :=
  if negb (color =? 0) && (znth slots i 0 =? 0) then <[Z.to_nat i := u8 color]> slots else slots.

Definition draw_pixel (v : SmsVdp) (s : SpriteSetup) (spills : bool) (hit : SpriteHit) (px : Z) (line : SpriteLine) : SpriteLine :=
  let dx := hit_x v s hit + px in
  let color := hit_color v s hit px in
  if (dx <? 0) || (255 <? dx) then
    if spills && (((dx <? 0) && (- SMS_EXT_SPILL_LEFT <=? dx)) || ((255 <? dx) && (dx <=? 255 + SMS_EXT_SPILL_RIGHT))) then
      if dx <? 0 then mkSpriteLine (spr_color line) (keep_first (spill_left line) (dx + SMS_EXT_SPILL_LEFT) color) (spill_right line) (collision line)
      else mkSpriteLine (spr_color line) (spill_left line) (keep_first (spill_right line) (dx - 256) color) (collision line)
    else line
  else if color =? 0 then line
  else if negb (znth (spr_color line) dx 0 =? 0) then mkSpriteLine (spr_color line) (spill_left line) (spill_right line) true
  else mkSpriteLine (<[Z.to_nat dx := u8 color]> (spr_color line)) (spill_left line) (spill_right line) (collision line).

Definition draw_hit (v : SmsVdp) (s : SpriteSetup) (spills : bool) (line : SpriteLine) (hit : SpriteHit) : SpriteLine :=
  zfor 0 (8 * zoom s) (draw_pixel v s spills hit) line.

Definition no_sprites : SpriteLine := mkSpriteLine (zeros SMS_FB_WIDTH) (zeros SMS_EXT_SPILL_LEFT) (zeros (SMS_EXT_SPILL_RIGHT + 1)) false.

Definition draw_sprites (v : SmsVdp) (s : SpriteSetup) (spills : bool) (hits : list SpriteHit) : SpriteLine :=
  fold_left (draw_hit v s spills) hits no_sprites.

(** ** A line *)

Definition compose_pixel (v : SmsVdp) (backdrop : Z) (bg : list BgPixel) (line : SpriteLine) (x : Z) : Z :=
  let value := bg_value v backdrop (bg_at bg x) in
  if negb (znth (spr_color line) x 0 =? 0) && negb (hides (bg_at bg x)) then u8 (znth (cram v) (16 + znth (spr_color line) x 0) 0 .& 0x3F) else value.

Definition set_pixels (r : SmsRenderer) (l : Z) (out : list Z) : SmsRenderer :=
  let start := Z.to_nat (l * SMS_FB_WIDTH) in
  mkRenderer (ext r) (take start (pixels r) ++ over_row (drop start (pixels r)) out) (last r) (height r) (last_height r) (last_frame r) (vscroll r)
    (in_frame r) (frames_completed r) (frame_records r).

(** Line 0 starts a frame. *)
Definition begin_frame (r : SmsRenderer) (v : SmsVdp) (h : Z) : SmsRenderer :=
  mkRenderer (match ext r with Some e => Some (ext_begin_frame e h) | None => None end) (pixels r) (last r) h (last_height r) (last_frame r)
    (znth (reg v) 9 0) 1 (frames_completed r) (frame_records r).

(** The lines of a frame with the display on: the extension, the output and the VDP. *)
Definition draw_line (e : option SmsExtension) (v : SmsVdp) (tall : bool) (vscroll l backdrop : Z) : option SmsExtension * list Z * SmsVdp :=
  let r0 := znth (reg v) 0 0 in
  let bg := background v tall vscroll l in
  let '(e, ext_line_ok) :=
    match e with
    | Some e => if negb (side (work e) =? 0) then let '(e, ok) := ext_emit_line e v l r0 (Some bg) backdrop in (Some e, ok) else (Some e, false)
    | None => (None, false)
    end in
  let spills := match e with Some e => ext_line_ok && negb (sprites (work e) =? 0) | None => false end in
  let s := sprite_setup v in
  let '(hits, overflow) := scan_sprites 64 v s tall l 0 [] in
  let line := draw_sprites v s spills hits in
  let v' := sms_vdp_set_sprite_flags v overflow (collision line) in
  let e := match e with Some e => Some (if spills then ext_spill_sprites e v' l bg (spill_left line) (spill_right line) else e) | None => None end in
  let out := map (compose_pixel v' backdrop bg line) (seqZ 0 SMS_FB_WIDTH) in
  (e, if has_bit r0 R0_LEFT_BLANK then over_row out (replicate 8 backdrop) else out, v').

Definition sms_render_line (r : SmsRenderer) (v : SmsVdp) (l : Z) : SmsRenderer * SmsVdp :=
  let mode := sms_vdp_mode v in
  if mode =b SMS_VDP_MODE_UNSUPPORTED then
    (match ext r with
     | Some e =>
         if (l =? 0) && (negb (request_side_192 (request e) =? 0) || negb (request_side_224 (request e) =? 0))
         then set_ext r (Some (mkExtension (request e) (work e) (ext_result e) (ext_left e) (ext_right e) (u64 (unsupported_frames e + 1))))
         else r
     | None => r
     end, v)
  else
    let r := if l =? 0 then begin_frame r v (sms_vdp_active_lines mode) else r in
    if (in_frame r =? 0) || (height r <=? l) then (r, v)
    else
      let backdrop := u8 (znth (cram v) (16 + (znth (reg v) 7 0 .& 15)) 0 .& 0x3F) in
      let '(e, out, v) :=
        if negb (has_bit (znth (reg v) 1 0) R1_DISPLAY) then
          (match ext r with
           | Some e => Some (if negb (side (work e) =? 0) then (ext_emit_line e v l (znth (reg v) 0 0) None backdrop).1 else e)
           | None => None
           end, replicate (Z.to_nat SMS_FB_WIDTH) backdrop, v)
        else draw_line (ext r) v (height r =? 224) (vscroll r) l backdrop in
      let r := set_pixels (set_ext r e) l out in
      (if l + 1 =? height r then finish_frame r v else r, v).

(** The hook [sms_renderer_attach] installs. *)
Definition hook (r : SmsRenderer) (v : SmsVdp) (l cycles : Z) : SmsRenderer * SmsVdp := sms_render_line r v l.
Definition sms_renderer_attach : option (SmsRenderer -> SmsVdp -> Z -> Z -> SmsRenderer * SmsVdp) := Some hook.

Definition sms_renderer_last_sha256 (r : SmsRenderer) : list Z := frame_sha256 (take (Z.to_nat (SMS_FB_WIDTH * last_height r)) (last r)).

Definition sms_render_rgb888 (cram : Z) : Z := sms_vdp_cram_to_rgb888 cram.

(** * What a line shows *)

(** ** The line's sprites *)

(** The table up to its terminator, which only the 192-line mode has. *)
Fixpoint until_terminator (v : SmsVdp) (s : SpriteSetup) (tall : bool) (table : list Z) : list Z :=
  match table with
  | [] => []
  | i :: table => if negb tall && (znth (vram v) ((sat s + i) mod 0x4000) 0 =? 0xD0) then [] else i :: until_terminator v s tall table
  end.

(** The row of sprite [i] on line [l], counted from the line after its coordinate. *)
Definition sprite_row (v : SmsVdp) (s : SpriteSetup) (l i : Z) : Z := (l - (znth (vram v) ((sat s + i) mod 0x4000) 0 + 1)) mod 256.
Definition sprite_covers (v : SmsVdp) (s : SpriteSetup) (l i : Z) : bool := sprite_row v s l i <? sprite_height s.
Definition on_line (v : SmsVdp) (s : SpriteSetup) (tall : bool) (l : Z) (table : list Z) : list Z :=
  List.filter (sprite_covers v s l) (until_terminator v s tall table).
Definition hit_of (v : SmsVdp) (s : SpriteSetup) (l i : Z) : SpriteHit := mkHit i (sprite_row v s l i / zoom s).

(** The hits the code draws: the first eight. *)
Definition line_hits (v : SmsVdp) (tall : bool) (l : Z) : list SpriteHit :=
  let s := sprite_setup v in map (hit_of v s l) (take 8 (on_line v s tall l (seqZ 0 64))).

(** ** Sprite pixels *)

Definition sprite_pixel (v : SmsVdp) (s : SpriteSetup) (x : Z) (hit : SpriteHit) : Z :=
  let px := x - hit_x v s hit in if (0 <=? px) && (px <? 8 * zoom s) then hit_color v s hit px else 0.

Fixpoint first_opaque (v : SmsVdp) (s : SpriteSetup) (x : Z) (hits : list SpriteHit) : Z :=
  match hits with [] => 0 | hit :: hits => if sprite_pixel v s x hit =? 0 then first_opaque v s x hits else sprite_pixel v s x hit end.

Definition opaque_count (v : SmsVdp) (s : SpriteSetup) (x : Z) (hits : list SpriteHit) : Z :=
  zlen (List.filter (fun hit => negb (sprite_pixel v s x hit =? 0)) hits).

(** The colour of pixel [x]: the first opaque sprite, unless the background hides it. *)
Definition shown (v : SmsVdp) (tall : bool) (vscroll l x : Z) : Z :=
  let backdrop := znth (cram v) (16 + znth (reg v) 7 0 mod 16) 0 mod 64 in
  let p := bg_pixel v tall vscroll l x in
  let c := first_opaque v (sprite_setup v) x (line_hits v tall l) in
  if has_bit (znth (reg v) 0 0) R0_LEFT_BLANK && (x <? 8) then backdrop
  else if negb (c =? 0) && negb (hides p) then znth (cram v) (16 + c) 0 mod 64
  else if bg_pal p =? 255 then backdrop
  else znth (cram v) (bg_pal p * 16 + bg_color p) 0 mod 64.

(** ** Lemmas *)

Lemma plane_bit_cases byte bit : plane_bit byte bit = 0 \/ plane_bit byte bit = 1.
Proof.
  unfold plane_bit. rewrite (land_ones_mod _ 1) by lia. change (2 ^ 1) with 2. pose proof (Z.mod_pos_bound (byte .>> bit) 2 ltac:(lia)). lia.
Qed.

Lemma pattern_range vram pattern row col : 0 <= pattern_pixel vram pattern row col < 16.
Proof.
  unfold pattern_pixel. cbv zeta. set (a := plane_bit _ _). set (b := plane_bit _ _). set (c := plane_bit _ _). set (d := plane_bit _ _).
  destruct (plane_bit_cases (znth vram (u32 (pattern * 32 + row * 4) .& (SMS_VDP_VRAM_SIZE - 1)) 0) (7 - col)) as [Ha|Ha],
    (plane_bit_cases (znth vram (u32 (pattern * 32 + row * 4) .& (SMS_VDP_VRAM_SIZE - 1) + 1) 0) (7 - col)) as [Hb|Hb],
    (plane_bit_cases (znth vram (u32 (pattern * 32 + row * 4) .& (SMS_VDP_VRAM_SIZE - 1) + 2) 0) (7 - col)) as [Hc|Hc],
    (plane_bit_cases (znth vram (u32 (pattern * 32 + row * 4) .& (SMS_VDP_VRAM_SIZE - 1) + 3) 0) (7 - col)) as [Hd|Hd];
    fold a in Ha; fold b in Hb; fold c in Hc; fold d in Hd; rewrite Ha, Hb, Hc, Hd; by vm_compute.
Qed.

Lemma hit_color_u8 v s hit px : u8 (hit_color v s hit px) = hit_color v s hit px.
Proof. apply u8_id. pose proof (pattern_range (vram v) (hit_pattern v s hit) (hit_row hit .& 7) (px / zoom s)). unfold hit_color, is_u8. lia. Qed.

(** What drawing the pixels of a hit before [k] does to a line. *)
Record drawn (v : SmsVdp) (s : SpriteSetup) (hit : SpriteHit) (k : Z) (line line' : SpriteLine) : Prop := {
  drawn_width : zlen (spr_color line') = 256;
  drawn_pixel x : 0 <= x < 256 -> znth (spr_color line') x 0 =
    (if znth (spr_color line) x 0 =? 0 then if (0 <=? x - hit_x v s hit) && (x - hit_x v s hit <? k) then hit_color v s hit (x - hit_x v s hit) else 0
     else znth (spr_color line) x 0);
  drawn_collision : collision line' = true <-> collision line = true \/
    exists x, 0 <= x < 256 /\ 0 <= x - hit_x v s hit < k /\ znth (spr_color line) x 0 <> 0 /\ hit_color v s hit (x - hit_x v s hit) <> 0;
}.

Lemma draw_pixel_drawn v s spills hit k line line' : 0 <= k -> drawn v s hit k line line' -> drawn v s hit (k + 1) line (draw_pixel v s spills hit k line').
Proof.
  intros Hk [H1 H2 H3]. unfold draw_pixel. cbv zeta. set (dx := hit_x v s hit + k).
  assert (Hin : forall x, x <> dx -> (x - hit_x v s hit <? k + 1) = (x - hit_x v s hit <? k)).
  { intros x Hx. unfold dx in Hx. destruct (Z.ltb_spec (x - hit_x v s hit) (k + 1)), (Z.ltb_spec (x - hit_x v s hit) k); (done || lia). }
  assert (Hdx : dx - hit_x v s hit = k) by (unfold dx; lia).
  assert (Hsame : (dx < 0 \/ 255 < dx \/ hit_color v s hit k = 0) -> forall line2, spr_color line2 = spr_color line' -> collision line2 = collision line' ->
      drawn v s hit (k + 1) line line2).
  { intros Hout line2 E1 E2. split; rewrite ?E1, ?E2; [exact H1| |].
    - intros x Hx. rewrite H2 by done. destruct (Z.eq_dec x dx) as [->|N]; [|by rewrite Hin]. rewrite Hdx.
      destruct Hout as [|[|E]]; [lia..|]. rewrite (proj2 (Z.ltb_ge k k)), andb_false_r, E by lia. by destruct ((0 <=? k) && (k <? k + 1)).
    - rewrite H3. split; (intros [Hc|(x & Hx & Hr & Hn)]; [by left|right; exists x; split; [done|]; split; [|done]]); [lia|].
      destruct (Z.eq_dec x dx) as [->|N]; [|unfold dx in N; lia]. rewrite Hdx in Hn. destruct Hout as [|[|E]]; [lia..|]. by destruct Hn. }
  destruct ((dx <? 0) || (255 <? dx)) eqn:Eout.
  { assert (Hd : dx < 0 \/ 255 < dx \/ hit_color v s hit k = 0) by (apply orb_true_iff in Eout; destruct Eout; [left|right; left]; lia).
    destruct (spills && _); [|by apply Hsame]. destruct (dx <? 0); by apply Hsame. }
  destruct (Z.eqb_spec (hit_color v s hit k) 0) as [E0|N0]; [apply Hsame; [by right; right|done..]|].
  assert (Hr : 0 <= dx < 256) by lia. pose proof (H2 dx Hr) as Ed. rewrite Hdx, (proj2 (Z.ltb_ge k k)), andb_false_r in Ed by lia.
  destruct (Z.eqb_spec (znth (spr_color line') dx 0) 0) as [Ez|Nz]; cbn [negb].
  - assert (Ez0 : znth (spr_color line) dx 0 = 0) by (destruct (Z.eqb_spec (znth (spr_color line) dx 0) 0); [done|congruence]).
    rewrite hit_color_u8. split; cbn [spr_color collision].
    + by rewrite zlen_insert.
    + intros x Hx. rewrite znth_insert by lia. destruct (Z.eqb_spec x dx) as [->|N].
      * rewrite Hdx, Ez0. cbn [Z.eqb]. by rewrite (proj2 (Z.leb_le 0 k)), (proj2 (Z.ltb_lt k (k + 1))) by lia.
      * rewrite H2, Hin by (done || congruence). done.
    + rewrite H3. split; (intros [Hc|(x & Hx & Hk' & Hn)]; [by left|right; exists x; split; [done|]; split; [|done]]); [lia|].
      destruct (Z.eq_dec x dx) as [->|N]; [|unfold dx in N; lia]. by destruct Hn as [Hn _].
  - assert (Nz0 : znth (spr_color line) dx 0 <> 0) by (intros E; rewrite E in Ed; cbn in Ed; congruence).
    split; cbn [spr_color collision]; [exact H1| |].
    + intros x Hx. rewrite H2 by done. destruct (Z.eq_dec x dx) as [->|N]; [|by rewrite Hin]. by rewrite (proj2 (Z.eqb_neq _ _) Nz0).
    + split; [intros _|done]. right. exists dx. rewrite Hdx. split; [done|]. split; [lia|done].
Qed.

Lemma zoom_cases v : zoom (sprite_setup v) = 1 \/ zoom (sprite_setup v) = 2.
Proof. unfold sprite_setup. cbv zeta. cbn [zoom]. destruct (has_bit _ R1_SPRITE_ZOOM); [by right|by left]. Qed.

Lemma draw_hit_drawn v s spills hit line : 0 < zoom s -> zlen (spr_color line) = 256 -> drawn v s hit (8 * zoom s) line (draw_hit v s spills line hit).
Proof.
  intros Hz Hw. unfold draw_hit. apply (zfor_ind (fun k line' => drawn v s hit k line line') 0 (8 * zoom s)); [lia| |].
  - split; [done| |].
    + intros x Hx. destruct (Z.eqb_spec (znth (spr_color line) x 0) 0) as [->|]; [|done].
      destruct (Z.leb_spec 0 (x - hit_x v s hit)), (Z.ltb_spec (x - hit_x v s hit) 0); (done || lia).
    + split; [by left|]. intros [H|(x & _ & H & _)]; [done|lia].
  - intros k line' Hk. apply draw_pixel_drawn. lia.
Qed.

Definition lead (line : SpriteLine) (x : Z) : Z := if znth (spr_color line) x 0 =? 0 then 0 else 1.

(** What drawing hits does to a line. *)
Lemma draw_hits v s spills hits line : 0 < zoom s -> zlen (spr_color line) = 256 -> let line' := fold_left (draw_hit v s spills) hits line in
  (forall x, 0 <= x < 256 -> znth (spr_color line') x 0 = (if znth (spr_color line) x 0 =? 0 then first_opaque v s x hits else znth (spr_color line) x 0)) /\
  (collision line' = true <-> collision line = true \/ exists x, 0 <= x < 256 /\ 0 < opaque_count v s x hits /\ 2 <= lead line x + opaque_count v s x hits).
Proof.
  intros Hz. cbv zeta. revert line. induction hits as [|hit hits IH]; intros line Hw; cbn [fold_left].
  - split; [intros x Hx; by destruct (Z.eqb_spec (znth (spr_color line) x 0) 0)|]. split; [by left|]. intros [H|(x & _ & H & _)]; [done|change (opaque_count v s x []) with 0 in H; lia].
  - destruct (draw_hit_drawn v s spills hit line Hz Hw) as [D1 D2 D3]. destruct (IH _ D1) as [I1 I2]. clear IH.
    set (line1 := draw_hit v s spills line hit) in *.
    assert (Hop : forall x, 0 <= x < 256 -> znth (spr_color line1) x 0 = (if znth (spr_color line) x 0 =? 0 then sprite_pixel v s x hit else znth (spr_color line) x 0)) by (intros x Hx; by rewrite D2).
    assert (Hcount : forall x, opaque_count v s x (hit :: hits) = (if sprite_pixel v s x hit =? 0 then 0 else 1) + opaque_count v s x hits).
    { intros x. unfold opaque_count. cbn [List.filter]. destruct (Z.eqb_spec (sprite_pixel v s x hit) 0); cbn [negb]; [lia|]. rewrite zlen_cons. lia. }
    assert (Hnn : forall x, 0 <= opaque_count v s x hits) by (intros x; apply zlen_nonneg). split.
    + intros x Hx. rewrite I1, Hop by done. cbn [first_opaque]. destruct (Z.eqb_spec (znth (spr_color line) x 0) 0) as [E|N]; [done|].
      by rewrite (proj2 (Z.eqb_neq _ _) N).
    + rewrite I2, D3. split.
      * intros [[H|(x & Hx & Hr & Hn & Hc)]|(x & Hx & Hp & H2)]; [by left|right..]; exists x; (split; [done|]).
        -- rewrite Hcount. unfold lead, sprite_pixel. rewrite (proj2 (Z.eqb_neq _ _) Hn), (proj2 (Z.leb_le _ _)), (proj2 (Z.ltb_lt _ _)) by lia. cbn [andb].
           rewrite (proj2 (Z.eqb_neq _ _) Hc). pose proof (Hnn x). lia.
        -- rewrite Hcount. revert H2. unfold lead. rewrite Hop by done. destruct (Z.eqb_spec (znth (spr_color line) x 0) 0) as [E|N].
           ++ destruct (sprite_pixel v s x hit =? 0); lia.
           ++ rewrite (proj2 (Z.eqb_neq _ _) N). destruct (sprite_pixel v s x hit =? 0); lia.
      * intros [H|(x & Hx & Hp & H2)]; [by left; left|]. rewrite Hcount in Hp, H2. unfold lead in H2 at 1.
        destruct (Z.eqb_spec (znth (spr_color line) x 0) 0) as [E|N].
        -- right. exists x. split; [done|]. unfold lead. rewrite Hop, E by done. cbn [Z.eqb]. destruct (sprite_pixel v s x hit =? 0); lia.
        -- destruct (Z.eqb_spec (sprite_pixel v s x hit) 0) as [E0|N0].
           ++ right. exists x. split; [done|]. unfold lead. rewrite Hop, (proj2 (Z.eqb_neq _ _) N) by done. rewrite (proj2 (Z.eqb_neq _ _) N). lia.
           ++ left. right. exists x. split; [done|]. unfold sprite_pixel in N0. destruct ((0 <=? x - hit_x v s hit) && (x - hit_x v s hit <? 8 * zoom s)) eqn:Er; [|done].
              split; [lia|]. by split.
Qed.

(** ** The scan *)

Lemma table_index v i : u32 (sat (sprite_setup v) + i) .& (SMS_VDP_VRAM_SIZE - 1) = (sat (sprite_setup v) + i) mod 0x4000.
Proof.
  rewrite (land_ones_mod _ 14) by lia. unfold u32. change (2 ^ 14) with 0x4000.
  by rewrite Z.mod_mod_divide by (by exists 262144).
Qed.

Lemma row_exact l y : u32 (l - (y + 1)) .& 255 = (l - (y + 1)) mod 256.
Proof.
  rewrite (land_ones_mod _ 8) by lia. unfold u32. change (2 ^ 8) with 256. by rewrite Z.mod_mod_divide by (by exists 16777216).
Qed.

Lemma scan_exact n v tall l i hits : 0 <= i -> i + Z.of_nat n <= 64 -> zlen hits <= 8 ->
  let s := sprite_setup v in let rest := on_line v s tall l (seqZ i (Z.of_nat n)) in
  scan_sprites n v s tall l i hits = (hits ++ map (hit_of v s l) (take (8 - length hits) rest), 8 <? zlen hits + zlen rest).
Proof.
  cbv zeta. revert i hits. induction n as [|n IH]; intros i hits Hi Hn Hh.
  { cbn [scan_sprites]. rewrite seqZ_nil by lia. cbn. rewrite take_nil, app_nil_r. change (zlen (@nil Z)) with 0. by rewrite (proj2 (Z.ltb_ge 8 (zlen hits + 0))) by lia. }
  cbn [scan_sprites]. rewrite table_index, row_exact, (seqZ_cons i) by lia. replace (Z.pred (Z.of_nat (S n))) with (Z.of_nat n) by lia.
  unfold on_line. cbn [until_terminator]. set (s := sprite_setup v). destruct (negb tall && _) eqn:Et.
  { cbn. rewrite take_nil, app_nil_r. change (zlen (@nil Z)) with 0. by rewrite (proj2 (Z.ltb_ge 8 (zlen hits + 0))) by lia. }
  cbn [List.filter]. fold (sprite_row v s l i). assert (Ecov : sprite_covers v s l i = negb (sprite_height s <=? sprite_row v s l i)) by apply Z.ltb_antisym. rewrite Ecov.
  destruct (sprite_height s <=? sprite_row v s l i) eqn:Ec; cbn [negb]; [apply (IH (i + 1)); lia|].
  change SMS_SPRITES_PER_LINE with 8. destruct (Z.eqb_spec (zlen hits) 8) as [E8|N8].
  - rewrite zlen_cons, (proj2 (Z.ltb_lt 8 _)) by (pose proof (zlen_nonneg (List.filter (sprite_covers v s l) (until_terminator v s tall (seqZ (Z.succ i) (Z.of_nat n))))); lia).
    replace (8 - length hits)%nat with 0%nat by (unfold zlen in E8; lia). cbn. by rewrite app_nil_r.
  - change (Z.succ i) with (i + 1). unfold s. rewrite (IH (i + 1)) by (rewrite ?zlen_snoc; lia). rewrite zlen_snoc, zlen_cons, length_app. cbn [length].
    replace (8 - length hits)%nat with (S (8 - (length hits + 1))) by (unfold zlen in *; lia). cbn [take map]. rewrite <- app_assoc. cbn [app].
    f_equal; [|f_equal; unfold on_line; lia]. f_equal. f_equal. unfold hit_of, sprite_row. fold s. f_equal; [apply u8_id; unfold is_u8; lia|].
    apply u8_id. unfold is_u8. destruct (zoom_cases v) as [Hz|Hz]; fold s in Hz; rewrite Hz;
      pose proof (Z.mod_pos_bound (l - (znth (vram v) ((sat s + i) mod 0x4000) 0 + 1)) 256 ltac:(lia)); Z.to_euclidean_division_equations; lia.
Qed.

(** ** The picture *)

Lemma nth_map_seqZ {A} (f : Z -> A) n i d : 0 <= i < n -> nth (Z.to_nat i) (map f (seqZ 0 n)) d = f i.
Proof.
  intros Hi. rewrite nth_lookup. change (map f (seqZ 0 n)) with (f <$> seqZ 0 n). rewrite list_lookup_fmap, lookup_seqZ_lt by lia. cbn. f_equal. lia.
Qed.

Lemma znth_map_seqZ (f : Z -> Z) n i : 0 <= i < n -> znth (map f (seqZ 0 n)) i 0 = f i.
Proof. intros Hi. rewrite znth_nth by lia. by apply nth_map_seqZ. Qed.

Lemma zlen_map_seqZ {A} (f : Z -> A) n : 0 <= n -> zlen (map f (seqZ 0 n)) = n.
Proof. intros Hn. unfold zlen. rewrite length_map, length_seqZ. lia. Qed.

Lemma znth_app (p q : list Z) i : 0 <= i -> znth (p ++ q) i 0 = (if i <? zlen p then znth p i 0 else znth q (i - zlen p) 0).
Proof.
  intros Hi. unfold zlen. destruct (Z.ltb_spec i (Z.of_nat (length p))) as [L|G].
  - rewrite !znth_nth by done. apply app_nth1. lia.
  - rewrite !znth_nth by lia. rewrite app_nth2 by lia. f_equal. lia.
Qed.

Lemma drop_pixel (p : list Z) n i : 0 <= i -> znth (drop n p) i 0 = znth p (Z.of_nat n + i) 0.
Proof. intros Hi. rewrite !znth_nth by lia. rewrite !nth_lookup, lookup_drop. do 2 f_equal. lia. Qed.

Lemma take_pixel (p : list Z) n i : 0 <= i < Z.of_nat n -> znth (take n p) i 0 = znth p i 0.
Proof. intros Hi. rewrite !znth_nth by lia. rewrite !nth_lookup, lookup_take_lt by lia. done. Qed.

Lemma zlen_over_row {A} (row values : list A) : zlen values <= zlen row -> zlen (values ++ drop (length values) row) = zlen row.
Proof. intros H. rewrite zlen_app. unfold zlen in *. rewrite length_drop. lia. Qed.

Lemma over_row_pixel row values i : 0 <= i -> znth (over_row row values) i 0 = (if i <? zlen values then znth values i 0 else znth row i 0).
Proof.
  intros Hi. unfold over_row. rewrite znth_app by done. destruct (Z.ltb_spec i (zlen values)) as [|G]; [done|]. rewrite drop_pixel by (unfold zlen in *; lia).
  f_equal. unfold zlen. lia.
Qed.

Lemma znth_zeros n i : 0 <= i -> znth (zeros n) i 0 = 0.
Proof.
  intros Hi. rewrite znth_nth by done. unfold zeros. destruct (Nat.lt_ge_cases (Z.to_nat i) (Z.to_nat n)) as [L|G]; [by rewrite nth_lookup, lookup_replicate_2|].
  apply nth_overflow. by rewrite length_replicate.
Qed.

Lemma low_six x : u8 (x .& 0x3F) = x mod 64.
Proof. rewrite (land_ones_mod _ 6) by lia. change (2 ^ 6) with 64. apply u8_id. unfold is_u8. pose proof (Z.mod_pos_bound x 64 ltac:(lia)). lia. Qed.

Lemma draw_line_exact e v tall vs l : let s := sprite_setup v in
  let backdrop := u8 (znth (cram v) (16 + (znth (reg v) 7 0 .& 15)) 0 .& 0x3F) in
  let '(_, out, v') := draw_line e v tall vs l backdrop in
  zlen out = 256 /\ (forall x, 0 <= x < 256 -> znth out x 0 = shown v tall vs l x) /\
  exists co, v' = sms_vdp_set_sprite_flags v (8 <? zlen (on_line v s tall l (seqZ 0 64))) co /\
    (co = true <-> exists x, 0 <= x < 256 /\ 2 <= opaque_count v s x (line_hits v tall l)).
Proof.
  cbv zeta. set (s := sprite_setup v). set (backdrop := u8 _). unfold draw_line. cbv zeta. fold s. set (bg := background v tall vs l).
  destruct (match e with Some _ => _ | None => _ end) as [e1 ok]. set (spills := match e1 with Some _ => _ | None => _ end).
  pose proof (scan_exact 64 v tall l 0 [] ltac:(lia) ltac:(lia) ltac:(change (zlen (@nil SpriteHit)) with 0; lia)) as Es. cbv zeta in Es. fold s in Es. change (Z.of_nat 64) with 64 in Es.
  rewrite Es. cbn [app]. change (8 - length (@nil SpriteHit))%nat with 8%nat. change (zlen (@nil SpriteHit)) with 0. rewrite Z.add_0_l.
  fold (line_hits v tall l). set (hits := line_hits v tall l). set (line := draw_sprites v s spills hits).
  assert (Hzoom : 0 < zoom s) by (unfold s; destruct (zoom_cases v) as [->| ->]; lia).
  destruct (draw_hits v s spills hits no_sprites Hzoom) as [Hpix Hcol]; [by apply zlen_zeros|]. change (fold_left (draw_hit v s spills) hits no_sprites) with line in Hpix, Hcol.
  assert (Hzero : forall x, 0 <= x < 256 -> znth (spr_color no_sprites) x 0 = 0) by (intros x Hx; apply znth_zeros; lia).
  set (v' := sms_vdp_set_sprite_flags v (8 <? zlen (on_line v s tall l (seqZ 0 64))) (collision line)).
  assert (Hout : forall x, 0 <= x < 256 -> compose_pixel v' backdrop bg line x =
      (let p := bg_pixel v tall vs l x in let c := first_opaque v s x hits in
       if negb (c =? 0) && negb (hides p) then znth (cram v) (16 + c) 0 mod 64 else if bg_pal p =? 255 then backdrop else znth (cram v) (bg_pal p * 16 + bg_color p) 0 mod 64)).
  { intros x Hx. unfold compose_pixel, bg_value. cbv zeta. rewrite Hpix, Hzero by done. cbn [Z.eqb]. unfold bg_at, bg, background. change SMS_FB_WIDTH with 256.
    rewrite nth_map_seqZ by done. rewrite !low_six. done. }
  assert (Hlen : zlen (map (compose_pixel v' backdrop bg line) (seqZ 0 SMS_FB_WIDTH)) = 256) by by apply zlen_map_seqZ.
  split; [|split].
  - destruct (has_bit _ R0_LEFT_BLANK); [|exact Hlen]. unfold over_row. rewrite zlen_over_row; [exact Hlen|]. eapply Z.le_trans; [|apply Z.eq_le_incl; symmetry; exact Hlen]. by vm_compute.
  - intros x Hx. unfold shown. cbv zeta. fold s hits. assert (Eb : znth (cram v) (16 + znth (reg v) 7 0 mod 16) 0 mod 64 = backdrop).
    { unfold backdrop. rewrite low_six. by rewrite (land_ones_mod _ 4) by lia. }
    rewrite Eb. pose proof (Hout x Hx) as Hc. cbv zeta in Hc. destruct (has_bit (znth (reg v) 0 0) R0_LEFT_BLANK); cbn [andb].
    + rewrite over_row_pixel by lia. change (zlen (replicate 8 backdrop)) with 8. destruct (Z.ltb_spec x 8) as [L|G].
      * rewrite znth_nth, nth_lookup, lookup_replicate_2 by lia. done.
      * etransitivity; [by apply znth_map_seqZ|exact Hc].
    + etransitivity; [by apply znth_map_seqZ|exact Hc].
  - exists (collision line). split; [done|]. rewrite Hcol. unfold lead. split.
    + intros [Hx|(x & Hx & _ & Hc)]; [done|]. exists x. split; [done|]. rewrite Hzero in Hc by done. cbn in Hc. lia.
    + intros (x & Hx & Hc). right. exists x. rewrite Hzero by done. cbn. split; [done|]. lia.
Qed.

Lemma set_pixels_exact r l out x y : zlen (pixels r) = SMS_FB_MAX_BYTES -> zlen out = 256 -> 0 <= l < 224 -> 0 <= x < 256 -> 0 <= y < 224 ->
  znth (pixels (set_pixels r l out)) (256 * y + x) 0 = (if y =? l then znth out x 0 else znth (pixels r) (256 * y + x) 0).
Proof.
  intros Hp Ho Hl Hx Hy. unfold set_pixels. cbv zeta. cbn [pixels]. change SMS_FB_MAX_BYTES with 57344 in Hp. change SMS_FB_WIDTH with 256.
  assert (Ht : zlen (take (Z.to_nat (l * 256)) (pixels r)) = l * 256) by (unfold zlen in *; rewrite length_take; lia).
  rewrite znth_app, Ht by lia. destruct (Z.ltb_spec (256 * y + x) (l * 256)) as [L|G].
  - rewrite take_pixel by lia. by rewrite (proj2 (Z.eqb_neq y l)) by lia.
  - rewrite over_row_pixel, Ho by lia. destruct (Z.ltb_spec (256 * y + x - l * 256) 256) as [L|G2].
    + assert (y = l) as -> by lia. rewrite Z.eqb_refl. f_equal. lia.
    + rewrite drop_pixel, (proj2 (Z.eqb_neq y l)) by lia. f_equal. lia.
Qed.

(** A line that is drawn: the mode is supported, the display on, and the line one of the
    frame that it starts or that is in progress, whose height and scroll are [h] and
    [vs]. *)
Record drawing (r : SmsRenderer) (v : SmsVdp) (l h vs : Z) : Prop := {
  drawing_mode : sms_vdp_mode v <> SMS_VDP_MODE_UNSUPPORTED;
  drawing_display : has_bit (znth (reg v) 1 0) R1_DISPLAY = true;
  drawing_first : l = 0 -> h = sms_vdp_active_lines (sms_vdp_mode v) /\ vs = znth (reg v) 9 0;
  drawing_later : l <> 0 -> in_frame r <> 0 /\ h = height r /\ vs = vscroll r;
  drawing_line : 0 <= l < h /\ h <= 224;
  drawing_pixels : zlen (pixels r) = SMS_FB_MAX_BYTES;
}.

Lemma finish_pixels r v : pixels (finish_frame r v) = pixels r.
Proof. unfold finish_frame. cbv zeta. cbn [ext]. by destruct (ext r). Qed.

(** C19. A line is its tiles and sprites.  A drawn line changes its own 256 pixels and no
    other: each is the first opaque of the first eight sprites on the line, unless a
    background pixel with priority hides it, and the background or the backdrop elsewhere.
    Overflow is set when there is a ninth sprite, and collision when two sprites are
    opaque at one pixel; the rest of the VDP is as it was. *)
Theorem render_line_exact (r : SmsRenderer) (v : SmsVdp) (l h vs : Z) (H : drawing r v l h vs) :
  let tall := h =? 224 in let s := sprite_setup v in
  let '(r', v') := sms_render_line r v l in
  (forall x y, 0 <= x < 256 -> 0 <= y < 224 ->
     znth (pixels r') (256 * y + x) 0 = (if y =? l then shown v tall vs l x else znth (pixels r) (256 * y + x) 0)) /\
  exists collided, v' = sms_vdp_set_sprite_flags v (8 <? zlen (on_line v s tall l (seqZ 0 64))) collided /\
    (collided = true <-> exists x, 0 <= x < 256 /\ 2 <= opaque_count v s x (line_hits v tall l)).
Proof.
  destruct H as [Hm Hd Hfirst Hlater [Hl Hh] Hp]. cbv zeta. unfold sms_render_line. cbv zeta. rewrite (bool_decide_eq_false_2 _ Hm).
  set (r1 := if l =? 0 then _ else r). assert (H1 : in_frame r1 <> 0 /\ height r1 = h /\ vscroll r1 = vs /\ pixels r1 = pixels r).
  { unfold r1. destruct (Z.eqb_spec l 0) as [E|N].
    - destruct (Hfirst E) as [-> ->]. by split_and!.
    - destruct (Hlater N) as (Hi & -> & ->). by split_and!. }
  destruct H1 as (Hi & Eh & Ev & Ep). clearbody r1. rewrite (proj2 (Z.eqb_neq _ _) Hi), Eh, Ev, (proj2 (Z.leb_gt h l)), Hd by lia. cbn [orb negb].
  pose proof (draw_line_exact (ext r1) v (h =? 224) vs l) as Hdraw. cbv zeta in Hdraw. destruct (draw_line _ _ _ _ _ _) as [[e out] v'].
  destruct Hdraw as (Ho & Hs & co & -> & Hc). set (r2 := set_pixels (set_ext r1 e) l out).
  assert (Hr : forall x y, 0 <= x < 256 -> 0 <= y < 224 -> znth (pixels r2) (256 * y + x) 0 = (if y =? l then shown v (h =? 224) vs l x else znth (pixels r) (256 * y + x) 0)).
  { intros x y Hx Hy. unfold r2. rewrite set_pixels_exact by (cbn [set_ext pixels]; rewrite ?Ep; (done || lia)). cbn [set_ext pixels]. rewrite Ep. by rewrite Hs. }
  split; [|by exists co]. intros x y Hx Hy. destruct (l + 1 =? height r2); [rewrite finish_pixels|]; by apply Hr.
Qed.

(** Two sprites on one tile, at the left of the first line. *)
Definition sprite_vram : list Z := replicate 32 0xFF ++ replicate 0xFE0 0 ++ [0xFF; 0xFF; 0xD0].
Definition sprite_vdp : SmsVdp :=
  mkVdp sprite_vram (seqZ 0 32) [0x06; 0x40; 0xFF; 0xFF; 0xFF; 0x20; 0xFB; 0; 0; 0; 0xFF; 0; 0; 0; 0; 0] (mkPort 0 0 0 0 0) (mkFlags 0 0 0 0)
    (mkCounters 0xFF 0 0 0 0) (mkTrace None 0 0 0 0 0).

Lemma render_line_exact_witness :
  let r := sms_renderer_init None 0 in
  let '(r', v') := sms_render_line r sprite_vdp 0 in
  (forall x y, 0 <= x < 256 -> 0 <= y < 224 ->
     znth (pixels r') (256 * y + x) 0 = (if y =? 0 then shown sprite_vdp false 0 0 x else znth (pixels r) (256 * y + x) 0)) /\
  exists collided, v' = sms_vdp_set_sprite_flags sprite_vdp (8 <? zlen (on_line sprite_vdp (sprite_setup sprite_vdp) false 0 (seqZ 0 64))) collided /\
    (collided = true <-> exists x, 0 <= x < 256 /\ 2 <= opaque_count sprite_vdp (sprite_setup sprite_vdp) x (line_hits sprite_vdp false 0)).
Proof.
  apply (render_line_exact (sms_renderer_init None 0) sprite_vdp 0 192 0). split.
  - by vm_compute.
  - by vm_compute.
  - by vm_compute.
  - done.
  - lia.
  - exact (zlen_zeros SMS_FB_MAX_BYTES ltac:(by vm_compute)).
Defined.
